(* ===== verification/_CoqProject ===== *)
-Q . S2P
Prelude.v
Geometry.v
RegionHelper.v
RegionSweep.v
Region.v
RegionCorrect.v
RegionTheorems.v
MemoryDealer.v
MemoryDealerTheorems.v
BufferSlot.v
OccupancyTracker.v
BufferQueueCore.v
BufferQueueProducer.v
BufferQueueConsumer.v
BufferQueueInvariant.v
BufferQueueCoreSafety.v
BufferQueueProducerSafety.v
BufferQueueQueueSafety.v
BufferQueueConsumerSafety.v
BufferQueueSystem.v
BufferQueueSystemSafety.v
BufferQueueSlotCount.v
BufferQueueTheorems.v
BufferQueueFindings.v
ServiceAccess.v
ServiceManager.v
ServiceManagerLemmas.v
ServiceRegistry.v
ServiceManagerTheorems.v
Parcel.v
ParcelData.v
ParcelLemmas.v
ParcelTheorems.v
ParcelSafety.v
ParcelObjects.v
ParcelMemory.v
ParcelGuarantees.v
VSyncTracker.v
VSyncPredictor.v
VSyncPredictorTheorems.v
VSyncRegression.v
VSyncDispatch.v
VSyncDispatchInvariant.v
VSyncDispatchOps.v
VSyncDispatchSystem.v
VSyncDispatchTheorems.v
VSyncReactor.v
VSyncReactorTheorems.v
VSyncStack.v
VSyncStackTheorems.v
VSyncGuarantees.v
PointerCoords.v
InputEvents.v
InputSplit.v
InputState.v
InputProtocol.v
InputConnection.v
InputStreams.v
InputCancel.v
InputTransfer.v
InputOperations.v
InputDispatcher.v
InputTargets.v
InputInbound.v
InputTouch.v
InputSystem.v
InputSystemInvariant.v
InputTouchInvariant.v
InputStreamTheorems.v
InputInboundSystem.v
InputScenarios.v
InputConsumer.v
InputConsumerSystem.v
InputConsumerTouch.v
InputConsumerInvariant.v
InputConsumerTheorems.v
InputBehaviours.v
InputTargetTheorems.v
InputGuarantees.v
InputInboundTheorems.v
