(* ===== verification/Prelude.v ===== *)
(** * Verification of the native libraries and services of Android

    The repository holds the native frameworks of Android: libui and libgui (graphics
    buffers, geometry and the buffer queue), libbinder (inter-process communication) and
    services on top of them. This library models parts of it as executable definitions
    and proves what makes them correct. Paths below are relative to src/.

    ** The program's parts and how they interact

    A window's frames travel through a _buffer queue_: an application (producer) dequeues
    a slot with a graphic buffer, fills and queues it; the compositor (consumer) acquires,
    shows and releases it. Both sides share one [BufferQueueCore] under one lock, which
    some calls release while they wait, allocate or call back. What changed in a frame is
    a _region_, a set of pixels kept as rectangles, which the compositor combines by the
    boolean operations of Region.cpp. Calls between processes carry their arguments in a
    _parcel_; large data lies in a heap that _MemoryDealer_ cuts into blocks; and clients
    find the services they call by name in the _service manager_. When frames are made and
    shown is decided by the _vsync scheduler_: a predictor of the display's vsync, a
    dispatcher of callbacks on a timer, and a reactor that ties them to the hardware.
    Touches and keys go the other way: the _input dispatcher_ queues what devices notify
    and applications inject, drops what comes too late, finds the windows that are touched
    or focused, sends each its part of every event over a socket, remembers per
    window what is down, cancels what it can no longer deliver, moves touches between
    windows and watches for applications that do not answer. At the other end of the
    socket the _input consumer_ of an application collects moves in batches, resamples
    them to the time of a frame, and answers the messages of an event that was finished.

    ** Files

    - Prelude.v (this file): machine integers, [status_t], ordered sets, record update,
      tactics and hint databases.
    - Geometry.v, RegionHelper.v, Region.v: [Rect] (libs/ui/Rect.cpp), the scan-line sweep
      (RegionHelper.h: [Module region_operator]) and [Region] (Region.cpp: [Module
      rasterizer], [Module Region]). RegionSweep.v and RegionCorrect.v prove them correct,
      RegionTheorems.v states the results: every boolean operation computes the set
      operation on pixels, ends, and gives a region that Region::validate accepts.
    - MemoryDealer.v, MemoryDealerTheorems.v: the best-fit allocator of
      libs/binder/MemoryDealer.cpp; blocks are disjoint, best-fitting and given back whole,
      for requests that do not overflow ([largest_request]).
    - BufferSlot.v, OccupancyTracker.v: the data of the buffer queue, its statistics.
    - BufferQueueCore.v, BufferQueueProducer.v, BufferQueueConsumer.v: every operation of
      the three classes of libs/gui, cut where the lock is released; BufferQueueSystem.v
      puts the pieces together as an interleaving of calls and suspended threads.
      BufferQueueInvariant.v states the invariant, the files ...Safety.v show that each
      operation keeps it, BufferQueueSlotCount.v counts slots; BufferQueueTheorems.v
      states the results: consistency in all interleavings, order of frames, what each
      operation takes, drops and reports. BufferQueueFindings.v holds histories in which
      the code loses its own invariant.
    - ServiceAccess.v, ServiceManager.v: cmds/servicemanager (Access.cpp,
      ServiceManager.cpp) and the stability levels of libs/binder/Stability.cpp, one
      definition per operation, [perform] for a call and [reachable] for its states.
      ServiceRegistry.v: [Module Registry], the abstract registry that the service manager
      refines; ServiceManagerLemmas.v, ServiceManagerTheorems.v: the refinement, what is
      found, what a death removes, who is told about clients, what callers without
      permission can do.
    - Parcel.v, ParcelData.v: libs/binder/Parcel.cpp and the templates of Parcel.h, as
      functions in a state monad that is [None] where the process would end.
      ParcelLemmas.v, ParcelTheorems.v: writing and reading back any data type.
      ParcelSafety.v, ParcelMemory.v: weakest preconditions and the
      memory invariant [sound], kept by every operation; ParcelObjects.v: reads and the
      objects in the data; ParcelGuarantees.v: the results, and what careless callers get.
    - VSyncTracker.v: the interface between the parts of the compositor's vsync scheduler
      (services/surfaceflinger/Scheduler), a class with its laws. VSyncPredictor.v is the
      predictor, VSyncPredictorTheorems.v shows that it satisfies the laws and what it
      predicts, VSyncRegression.v when its arithmetic fits and when it overflows.
      VSyncDispatch.v is the dispatcher (VSyncDispatchTimerQueue.cpp) over any tracker,
      VSyncDispatchInvariant.v and VSyncDispatchOps.v its invariant and operations,
      VSyncDispatchSystem.v the interleaving of clients and timer thread (Timer.cpp) and
      VSyncDispatchTheorems.v the results: no wakeup is lost, what is due is dispatched.
      VSyncReactor.v and VSyncReactorTheorems.v: the reactor, which feeds the tracker and
      confirms changes of the period; VSyncStack.v, VSyncStackTheorems.v and
      VSyncGuarantees.v put all of it together: listeners are served for ever.
    - PointerCoords.v: the packed axes of a pointer (libs/input/Input.cpp), which implement a
      map, and the sets of bits as classes with laws.
    - InputEvents.v: key and motion events, their validation, targets and the splitting of
      an event (services/inputflinger/dispatcher: Entry.h, InputTarget.cpp, parts of
      InputDispatcher.cpp); InputSplit.v shows that splitting ends and what it gives.
      Its [Module InputWindowInfo] and [Module InputApplication] are windows and
      applications (libs/input/InputWindow.cpp). InputState.v: what is down in a window
      (InputState.cpp) and which windows a touch goes to (TouchState.cpp).
    - InputConnection.v: one connection, from enqueueing to the socket (Connection.h,
      Entry.cpp, AnrTracker.cpp, the publisher of libs/input/InputTransport.cpp);
      InputDispatcher.v: the operations on all connections, cut where the lock is released
      to ask the policy; InputSystem.v: their interleavings with any change of the windows
      and the focus ([Configure], [Update]).
    - InputInbound.v: the events that come in, from notifyKey, notifyMotion and
      injectInputEvent through mInboundQueue to dispatchOnce, and the updates of windows,
      focus and modes (the rest of InputDispatcher.cpp). Events are objects in a store that
      the queues share, because the dispatcher mutates them. InputInboundSystem.v: the whole
      dispatcher as a system of calls under the lock, each of which is a sequence of calls
      of InputSystem.v, and its invariant. InputInboundTheorems.v states the results:
      exactly what is to be queued is, no event is forgotten by a sleeping thread, none
      overtakes another, no injector waits in vain, the focus moves before later input, a
      dropped event ends its streams; and runs that surprise.
    - InputTargets.v: which windows and monitors an event goes to, with permissions and
      occlusion, and the dispatch of motion events; the search for the window at a point,
      through portals, and when it ends. InputTouch.v: the invariant of a touch and what the
      search for targets guarantees; InputTouchInvariant.v: all calls keep it; InputTargetTheorems.v
      states the results: targets match the touch, what is checked against the permission of
      an injector goes to its own windows, watching windows of other users see no
      coordinates of pointers, obscured windows are marked.
    - InputProtocol.v: the abstract observer of a window's events. InputStreams.v,
      InputCancel.v, InputTransfer.v and InputOperations.v show that each operation on a
      connection keeps to the protocol, InputSystemInvariant.v that all interleavings do;
      InputStreamTheorems.v and InputGuarantees.v state the results:
      streams are consistent, cancelations complete, transferred pointers neither lost nor
      made up, the tracker of timeouts a multiset. InputScenarios.v has instances of the
      sets of bits and a small world for examples, InputBehaviours.v runs that surprise.
    - InputConsumer.v: the consumer's end of the socket (InputConsumer of
      libs/input/InputTransport.cpp, the events of libs/input/Input.cpp), one definition
      per operation. InputConsumerSystem.v: the abstract transport, a queue of messages per
      device and source, and the system of an application with its consumer; the chains
      of sequence numbers behind an event. InputConsumerTouch.v: touch histories are never
      read where nothing was written, and what rewriting and resampling change.
      InputConsumerInvariant.v: each step of [consume] keeps the invariant and acts on the
      transport; InputConsumerTheorems.v states the results: the consumer refines the
      transport, each message is answered once, finishing resumes where the socket refused,
      events present the messages they are made of; and runs that surprise.

    ** Bounds, fuel and assumptions

    Integers are [Z], wrapped to 32 or 64 bits where the code can leave the range. Loops
    that are not structural have fuel that is shown to be enough: [fuel_for] of the region
    sweep is 2n+2 for n rectangles, since each step passes an edge; the search for a
    buffer in [dequeueBuffer_find] makes at most one turn per free buffer and one more;
    [search_forward] of a parcel walks a list of that length. Slot numbers are below
    [NUM_BUFFER_SLOTS] = 64.
    What is outside the repository is a parameter: the page size, the allocator, SELinux
    ([Access.Selinux]), the user ids ([Platform]), the manifests, the binder driver's
    counts, the layout of its objects. [legal] (BufferQueueSystem.v, ParcelMemory.v) says
    what callers have to respect, and the findings show that each condition is needed.
    The vsync scheduler is verified for times below [time_limit], 18 years of uptime;
    clock readings, the order in which a hash map is iterated and the signal times of
    fences are arguments of its operations.
    Floating-point numbers are the binary32 numbers of the Standard Library's IEEE 754
    specification. Sets of bits (system/core) are classes with laws. The loop that writes
    to a socket has the length of the queue as fuel, and the search for a window one more
    than the number of displays: a search that needs more never ends. [consume] has the
    number of results of [recv] and two as fuel, since every turn but a deferred one and the
    last takes one result; [consume_loop_ok] shows that it is enough. Event and frame times
    are below 2^62 ns, the ids of pointers at most [MAX_POINTER_ID]. Random event ids, addresses of new objects,
    the results of [send] and the answers of the input policy are arguments. New addresses of
    event objects are assumed to be new ([new_addresses]); objects are never freed.

    ** Not modelled

    Condition variables, fences, EGL and binder calls appear as events or suspension
    points only; dumps and logs have no effect on the state. Of Region: T-junction
    resolution, scaling by floats and flattening. Of Parcel: binders, blobs, Flattenables,
    UTF-8 strings and RPC sessions. The binder driver's protocol (IPCThreadState), the
    graphics drivers' wrappers (opengl, vulkan), the compositor's layers, the input
    reader, installd and the command-line tools are not modelled: they consist of calls
    into kernels and drivers, or are left for the continuation of this library. Of the
    input dispatcher: the signature of messages, verified events, statistics, reference
    counts and notifySwitch, which only calls the policy, as do some commands. What would
    come next: flattening of binders, region T-junctions, the older DispSync of surfaceflinger.
    Of the events an application gets: parcelling, transforms, cursor positions. *)

From stdpp Require Export base tactics list list_numbers sorting gmap strings.
From Stdlib Require Export ZArith Lia Btauto.
#[global] Open Scope Z_scope.

(** ** Machine integers

    A [w]-bit integer is a [Z]; arithmetic that may leave its range is followed
    by one of the conversions below, which are the two's complement ones. *)

Definition INT32_MAX : Z := 2147483647.
Definition INT32_MIN : Z := -2147483648.
Definition UINT32_MAX : Z := 4294967295.

(** conversion to [int32_t] *)
Definition int32 (z : Z) : Z := (z + 2147483648) mod 4294967296 - 2147483648.
(** conversion to [uint32_t] *)
Definition uint32 (z : Z) : Z := z mod 4294967296.
(** conversion to [uint64_t] (and to [size_t] on a 64-bit target) *)
Definition uint64 (z : Z) : Z := z mod 18446744073709551616.
(** conversion to [int64_t] *)
Definition int64 (z : Z) : Z :=
  (z + 9223372036854775808) mod 18446744073709551616 - 9223372036854775808.

(** a signed 64-bit result that does not fit is undefined *)
Definition checked (z : Z) : option Z := if (-9223372036854775808 <=? z) && (z <=? 9223372036854775807) then Some z else None.

Definition in_int32 (z : Z) : Prop := INT32_MIN <= z <= INT32_MAX.

Lemma int32_id z : in_int32 z -> int32 z = z.
Proof.
  unfold in_int32, int32, INT32_MIN, INT32_MAX. intros H.
  rewrite Z.mod_small by lia. lia.
Qed.

Lemma int32_range z : in_int32 (int32 z).
Proof.
  unfold in_int32, int32, INT32_MIN, INT32_MAX.
  pose proof (Z.mod_pos_bound (z + 2147483648) 4294967296 eq_refl). lia.
Qed.

Lemma uint32_id z : 0 <= z <= UINT32_MAX -> uint32 z = z.
Proof. unfold UINT32_MAX, uint32. intros. apply Z.mod_small. lia. Qed.

Lemma uint64_id z : 0 <= z < 18446744073709551616 -> uint64 z = z.
Proof. intros. by apply Z.mod_small. Qed.

Lemma uint64_range z : 0 <= uint64 z < 18446744073709551616.
Proof. by apply Z.mod_pos_bound. Qed.

Create Rewrite HintDb ints.
#[export] Hint Rewrite int32_id uint32_id uint64_id using (unfold in_int32, INT32_MIN, INT32_MAX, UINT32_MAX in *; lia) : ints.

(** ** status_t

    The values of [<utils/Errors.h>] that the modelled code returns, as
    [libs/binder/ndk/include_ndk/android/binder_status.h] lists them. *)

Definition status_t := Z.
Definition NO_ERROR : status_t := 0.
Definition OK : status_t := 0.
Definition UNKNOWN_ERROR : status_t := INT32_MIN.
Definition NO_MEMORY : status_t := -12.
Definition INVALID_OPERATION : status_t := -38.
Definition BAD_VALUE : status_t := -22.
Definition NAME_NOT_FOUND : status_t := -2.
Definition NO_INIT : status_t := -19.
Definition WOULD_BLOCK : status_t := -11.
Definition TIMED_OUT : status_t := -110.
Definition EBUSY : Z := 16.

(** ** Tactics *)

(** Turns the boolean comparisons of the hypotheses and the goal into
    propositions. *)
Ltac bool_to_prop :=
  repeat match goal with
  | H : (_ && _) = true |- _ => apply andb_true_iff in H; destruct H
  | H : (_ || _) = false |- _ => apply orb_false_iff in H; destruct H
  | H : (_ && _) = false |- _ => apply andb_false_iff in H
  | H : (_ || _) = true |- _ => apply orb_true_iff in H
  | H : negb _ = true |- _ => apply negb_true_iff in H
  | H : negb _ = false |- _ => apply negb_false_iff in H
  | H : (_ <? _) = true |- _ => apply Z.ltb_lt in H
  | H : (_ <? _) = false |- _ => apply Z.ltb_ge in H
  | H : (_ <=? _) = true |- _ => apply Z.leb_le in H
  | H : (_ <=? _) = false |- _ => apply Z.leb_gt in H
  | H : (_ =? _) = true |- _ => apply Z.eqb_eq in H
  | H : (_ =? _) = false |- _ => apply Z.eqb_neq in H
  | H : bool_decide _ = true |- _ => apply bool_decide_eq_true in H
  | H : bool_decide _ = false |- _ => apply bool_decide_eq_false in H
  end.

(** Case analysis on the first [if] or [match] of the goal. *)
Ltac split_if := case_match; bool_to_prop; try lia; try done.

(** ** Record update

    [r <| f := v |>] is [r] with the field [f] set to [v]. The setter of a field is
    obtained from the eta-expansion of the record, in which the projection is
    replaced. *)

Class Setter {R T} (field : R -> T) := with_field : T -> R -> R.
Arguments with_field {R T} field {_} v r.

Notation "r <| f := v |>" := (with_field f v r)
  (at level 8, left associativity, f at next level, format "r <| f  :=  v |>").

Ltac setter_of eta field :=
  let e := eval unfold eta in eta in
  match eval pattern field in e with ?s _ => exact (fun v => s (fun _ => v)) end.

(** ** Membership in [map] and [concat] *)

Lemma elem_of_map {A B} (f : A -> B) l y : y ∈ map f l <-> exists x, x ∈ l /\ y = f x.
Proof. rewrite list_elem_of_In, in_map_iff. setoid_rewrite list_elem_of_In. naive_solver. Qed.

Lemma elem_of_concat {A} (ll : list (list A)) x : x ∈ concat ll <-> exists l, l ∈ ll /\ x ∈ l.
Proof. rewrite list_elem_of_In, in_concat. by setoid_rewrite list_elem_of_In. Qed.

(** ** std::set<int>

    An ordered set of integers is the strictly increasing list of its elements,
    which is also the order its iterators visit. *)
Module StdSet.

Fixpoint insert (x : Z) (s : list Z) : list Z :=
  match s with
  | [] => [x]
  | y :: s' => if x <? y then x :: s else if x =? y then s else y :: insert x s'
  end.

Definition erase (x : Z) (s : list Z) : list Z := filter (fun y => y <> x) s.

Definition count (x : Z) (s : list Z) : bool := bool_decide (x ∈ s).

(** the set that inserting the elements of [l] one after the other gives *)
Definition insert_all (l : list Z) (s : list Z) : list Z := foldl (fun s x => insert x s) s l.

Definition ordered (s : list Z) : Prop := StronglySorted Z.lt s.

Lemma elem_of_insert x y s : y ∈ insert x s <-> y = x \/ y ∈ s.
Proof.
  induction s as [|z s IH]; simpl; [set_solver|].
  destruct (x <? z) eqn:E1; [set_solver|].
  destruct (x =? z) eqn:E2; bool_to_prop; set_solver.
Qed.

Lemma elem_of_erase x y s : y ∈ erase x s <-> y <> x /\ y ∈ s.
Proof. unfold erase. rewrite list_elem_of_filter. done. Qed.

Lemma elem_of_insert_all x l s : x ∈ insert_all l s <-> x ∈ l \/ x ∈ s.
Proof.
  revert s; induction l as [|y l IH]; intros s; simpl; [set_solver|].
  rewrite IH, elem_of_insert. set_solver.
Qed.

Lemma ordered_insert x s : ordered s -> ordered (insert x s).
Proof.
  unfold ordered. induction 1 as [|z s Hs IH Hz]; simpl; [repeat constructor|].
  destruct (x <? z) eqn:E1; bool_to_prop.
  { repeat constructor; auto. eapply Forall_impl; [exact Hz|]. simpl; lia. }
  destruct (x =? z) eqn:E2; bool_to_prop; constructor; auto.
  apply Forall_forall. intros y Hy. apply elem_of_insert in Hy as [->|Hy]; [lia|].
  by apply (proj1 (Forall_forall _ _) Hz).
Qed.

Lemma ordered_insert_all l s : ordered s -> ordered (insert_all l s).
Proof. revert s; induction l; intros s Hs; simpl; auto using ordered_insert. Qed.

Lemma ordered_erase x s : ordered s -> ordered (erase x s).
Proof.
  unfold ordered, erase. induction 1 as [|z s Hs IH Hz]; [constructor|].
  rewrite filter_cons. case_decide; [|done].
  constructor; auto. apply Forall_forall. intros y [_ Hy]%list_elem_of_filter.
  by apply (proj1 (Forall_forall _ _) Hz).
Qed.

Lemma ordered_NoDup s : ordered s -> NoDup s.
Proof.
  induction 1 as [|z s Hs IH Hz]; constructor; auto.
  intros Hin. pose proof (proj1 (Forall_forall _ _) Hz z Hin). lia.
Qed.

Lemma length_insert x s : x ∉ s -> length (insert x s) = S (length s).
Proof.
  induction s as [|z s IH]; simpl; [done|]. intros Hx.
  destruct (x <? z) eqn:E1; [done|]. destruct (x =? z) eqn:E2; bool_to_prop; [set_solver|].
  simpl. rewrite IH; set_solver.
Qed.

Lemma erase_not_in x s : x ∉ s -> erase x s = s.
Proof.
  unfold erase. induction s as [|z s IH]; intros Hx; [done|].
  rewrite filter_cons. case_decide; [by rewrite IH by set_solver|set_solver].
Qed.

Lemma length_erase x s : NoDup s -> x ∈ s -> length s = S (length (erase x s)).
Proof.
  unfold erase. induction 1 as [|z s Hz Hs IH]; intros Hx; [set_solver|].
  rewrite filter_cons. apply elem_of_cons in Hx as [->|Hx].
  - rewrite decide_False by tauto. simpl. f_equal.
    change (filter (fun y => y <> z) s) with (erase z s). by rewrite erase_not_in.
  - rewrite decide_True by set_solver. simpl. by rewrite <- IH.
Qed.

End StdSet.

Create HintDb containers.
#[export] Hint Resolve StdSet.ordered_insert StdSet.ordered_erase StdSet.ordered_insert_all
  StdSet.ordered_NoDup : containers.
Create Rewrite HintDb membership.
#[export] Hint Rewrite StdSet.elem_of_insert StdSet.elem_of_erase StdSet.elem_of_insert_all : membership.
