(* ===== verification/Geometry.v ===== *)
(** * Rectangles (libs/ui/Rect.cpp, libs/ui/include/ui/Rect.h)

    A [Rect] is the half-open set of pixels [left <= x < right], [top <= y < bottom].
    Coordinates are [int32_t]; [getWidth] and [getHeight] are declared
    [no_sanitize("signed-integer-overflow")] in the source, so they wrap. *)

From S2P Require Import Prelude.

Record Point := mkPoint { px : Z; py : Z }.

Module Rect.

Record t := mk { left : Z; top : Z; right : Z; bottom : Z }.

#[global] Instance t_eq_dec : EqDecision t.
Proof. solve_decision. Defined.

Definition INVALID_RECT : t := mk 0 0 (-1) (-1).
Definition EMPTY_RECT : t := mk 0 0 0 0.

#[global] Instance t_inhabited : Inhabited t := populate INVALID_RECT.

(** [Rect(T w, T h)] *)
Definition of_size (w h : Z) : t :=
  let w := if INT32_MAX <? w then INT32_MAX else w in
  let h := if INT32_MAX <? h then INT32_MAX else h in
  mk 0 0 (int32 w) (int32 h).

Definition makeInvalid (_ : t) : t := mk 0 0 (-1) (-1).
Definition clear (_ : t) : t := mk 0 0 0 0.

Definition getWidth (r : t) : Z := int32 (right r - left r).
Definition getHeight (r : t) : Z := int32 (bottom r - top r).

Definition isValid (r : t) : bool := (0 <=? getWidth r) && (0 <=? getHeight r).
Definition isEmpty (r : t) : bool := (getWidth r <=? 0) || (getHeight r <=? 0).

Definition getBounds (r : t) : t :=
  of_size (int32 (right r - left r)) (int32 (bottom r - top r)).

Definition eqb (a b : t) : bool :=
  (left a =? left b) && (top a =? top b) && (right a =? right b) && (bottom a =? bottom b).

(** [operator <], the order of rectangles in sorted vectors *)
Definition ltb (a b : t) : bool :=
  if top a <? top b then true
  else if top a =? top b then
    if left a <? left b then true
    else if left a =? left b then
      if bottom a <? bottom b then true
      else if bottom a =? bottom b then
        if right a <? right b then true else false
      else false
    else false
  else false.

Definition offsetTo (r : t) (x y : Z) : t :=
  mk x y (int32 (right r - int32 (left r - x))) (int32 (bottom r - int32 (top r - y))).

Definition offsetBy (r : t) (x y : Z) : t :=
  mk (int32 (left r + x)) (int32 (top r + y)) (int32 (right r + x)) (int32 (bottom r + y)).

Definition offsetToOrigin (r : t) : t :=
  mk 0 0 (int32 (right r - left r)) (int32 (bottom r - top r)).

Definition inset (r : t) (l t_ r_ b : Z) : t :=
  mk (int32 (left r + l)) (int32 (top r + t_)) (int32 (right r - r_)) (int32 (bottom r - b)).

(** [operator +] and [operator -] with a [Point] *)
Definition plus (r : t) (p : Point) : t :=
  mk (int32 (left r + px p)) (int32 (top r + py p)) (int32 (right r + px p)) (int32 (bottom r + py p)).
Definition minus (r : t) (p : Point) : t :=
  mk (int32 (left r - px p)) (int32 (top r - py p)) (int32 (right r - px p)) (int32 (bottom r - py p)).

(** The static helpers of Rect.cpp. *)
Definition min (a b : Z) : Z := if a <? b then a else b.
Definition max (a b : Z) : Z := if b <? a then a else b.

(** [intersect(with, &result)]: the boolean returned and the value of [*result]. *)
Definition intersect (r with_ : t) : bool * t :=
  let result := mk (max (left r) (left with_)) (max (top r) (top with_))
                   (min (right r) (right with_)) (min (bottom r) (bottom with_)) in
  (negb (isEmpty result), result).

(** HAL transform flags (system/graphics.h). *)
Definition HAL_TRANSFORM_FLIP_H : Z := 1.
Definition HAL_TRANSFORM_FLIP_V : Z := 2.
Definition HAL_TRANSFORM_ROT_90 : Z := 4.

Definition flag (x f : Z) : bool := negb (Z.land x f =? 0).

Definition transform (r : t) (xform width height : Z) : t :=
  let result := r in
  let result :=
    if flag xform HAL_TRANSFORM_FLIP_H then
      mk (int32 (width - right result)) (top result) (int32 (width - left result)) (bottom result)
    else result in
  let result :=
    if flag xform HAL_TRANSFORM_FLIP_V then
      mk (left result) (int32 (height - bottom result)) (right result) (int32 (height - top result))
    else result in
  if flag xform HAL_TRANSFORM_ROT_90 then
    mk (int32 (height - bottom result)) (left result) (int32 (height - top result)) (right result)
  else result.

Definition reduce (r exclude : t) : t :=
  let mask := 0 in
  let mask := Z.lor mask (if left r <? left exclude then 1 else 0) in
  let mask := Z.lor mask (if top r <? top exclude then 2 else 0) in
  let mask := Z.lor mask (if right exclude <? right r then 4 else 0) in
  let mask := Z.lor mask (if bottom exclude <? bottom r then 8 else 0) in
  if mask =? 0 then clear EMPTY_RECT
  else
    let result := r in
    if Z.land mask (mask - 1) =? 0 then
      if flag mask 1 then mk (left result) (top result) (min (right result) (left exclude)) (bottom result)
      else if flag mask 2 then mk (left result) (top result) (right result) (min (bottom result) (top exclude))
      else if flag mask 4 then mk (max (left result) (right exclude)) (top result) (right result) (bottom result)
      else if flag mask 8 then mk (left result) (max (top result) (bottom exclude)) (right result) (bottom result)
      else result
    else result.

(** ** The pixels of a rectangle *)

Definition contains (r : t) (x y : Z) : bool :=
  (top r <=? y) && (y <? bottom r) && (left r <=? x) && (x <? right r).

(** every coordinate is an [int32_t] *)
Definition in_range (r : t) : Prop :=
  in_int32 (left r) /\ in_int32 (top r) /\ in_int32 (right r) /\ in_int32 (bottom r).

(** extents that fit in an [int32_t], and so do not wrap *)
Definition measurable (r : t) : Prop :=
  in_range r /\ in_int32 (right r - left r) /\ in_int32 (bottom r - top r).

Lemma containsP r x y :
  contains r x y = true <-> (left r <= x < right r /\ top r <= y < bottom r).
Proof. unfold contains. rewrite !andb_true_iff, !Z.leb_le, !Z.ltb_lt. lia. Qed.

Lemma eqbP a b : eqb a b = true <-> a = b.
Proof.
  unfold eqb. rewrite !andb_true_iff, !Z.eqb_eq. destruct a, b; simpl.
  split; [intros (((-> & ->) & ->) & ->); done | intros [= -> -> -> ->]; done].
Qed.

Lemma min_spec a b : min a b = Z.min a b.
Proof. unfold min. destruct (a <? b) eqn:E; bool_to_prop; lia. Qed.
Lemma max_spec a b : max a b = Z.max a b.
Proof. unfold max. destruct (b <? a) eqn:E; bool_to_prop; lia. Qed.

Lemma isEmpty_measurable r :
  measurable r -> isEmpty r = true <-> right r <= left r \/ bottom r <= top r.
Proof.
  intros (_ & Hw & Hh). unfold isEmpty, getWidth, getHeight.
  rewrite !int32_id by done. rewrite orb_true_iff, !Z.leb_le. lia.
Qed.

Lemma isValid_measurable r :
  measurable r -> isValid r = true <-> left r <= right r /\ top r <= bottom r.
Proof.
  intros (_ & Hw & Hh). unfold isValid, getWidth, getHeight.
  rewrite !int32_id by done. rewrite andb_true_iff, !Z.leb_le. lia.
Qed.

Lemma contains_intersect r w x y :
  contains (intersect r w).2 x y = contains r x y && contains w x y.
Proof.
  unfold intersect, contains; simpl. rewrite !max_spec, !min_spec.
  apply eq_true_iff_eq. rewrite !andb_true_iff, !Z.leb_le, !Z.ltb_lt. lia.
Qed.

(** [operator <] is a strict total order. *)
Lemma ltb_spec a b :
  ltb a b = true <->
  top a < top b \/ top a = top b /\
    (left a < left b \/ left a = left b /\
      (bottom a < bottom b \/ bottom a = bottom b /\ right a < right b)).
Proof. unfold ltb. repeat split_if; split; intros; try done; lia. Qed.

End Rect.

Notation rect := Rect.t.
