(* ===== verification/RegionSweep.v ===== *)
(** * Correctness of the region sweep

    [Section Intervals] treats one dimension: the spanner merges two increasing
    lists of intervals. [Section Inner] and [Section Outer] lift it to the two
    loops of [region_operator::operator()]. The result, [run_spec], describes the
    rectangles handed to the rasterizer as horizontal strips. *)

From S2P Require Import Prelude Geometry RegionHelper.
Import region_operator.

(** ** Increasing lists of half-open intervals *)

Notation interval := (Z * Z)%type.

Definition in_interval (i : interval) (x : Z) : bool := (i.1 <=? x) && (x <? i.2).

Definition covers (l : list interval) (x : Z) : bool := existsb (fun i => in_interval i x) l.

(** [l] is increasing, starts at or after [b] and stays below [max_value]. *)
Fixpoint increasing (b : Z) (l : list interval) : Prop :=
  match l with
  | [] => True
  | (h, t) :: l' => b <= h /\ h <= t /\ h < max_value /\ t <= max_value /\ increasing t l'
  end.

Lemma in_intervalP i x : in_interval i x = true <-> i.1 <= x < i.2.
Proof. unfold in_interval. rewrite andb_true_iff, Z.leb_le, Z.ltb_lt. lia. Qed.

Lemma increasing_weaken b b' l : b' <= b -> increasing b l -> increasing b' l.
Proof. destruct l as [|[h t] l]; simpl; [done|]. intuition lia. Qed.

Lemma covers_below b l x : increasing b l -> x < b -> covers l x = false.
Proof.
  revert b; induction l as [|[h t] l IH]; intros b Hl Hx; [done|].
  simpl in *. unfold in_interval at 1; simpl.
  destruct Hl as (? & ? & ? & ? & Hl). rewrite (IH t) by (done || lia).
  rewrite orb_false_r, andb_false_iff, Z.leb_gt. lia.
Qed.

Lemma covers_app l1 l2 x : covers (l1 ++ l2) x = covers l1 x || covers l2 x.
Proof. apply existsb_app. Qed.

(** The boolean function of a mask: bit 0 for pixels of the left operand only, bit
    1 for the right one only, bit 2 for both. *)
Definition combine_op (op_mask : Z) (a b : bool) : bool :=
  if a then (if b then selected op_mask lhs_coincide_rhs else selected op_mask lhs_before_rhs)
  else (if b then selected op_mask lhs_after_rhs else false).

(** Case analysis on the comparisons of the goal. *)
Ltac interval_cases :=
  repeat match goal with
  | |- context [?a <? ?b] => destruct (Z.ltb_spec a b); simpl
  | |- context [?a <=? ?b] => destruct (Z.leb_spec a b); simpl
  | |- context [?a =? ?b] => destruct (Z.eqb_spec a b); simpl
  end.

Section Intervals.

Definition head_of (l : list interval) : Z := match l with [] => max_value | i :: _ => i.1 end.
Definition tail_of (l : list interval) : Z := match l with [] => max_value | i :: _ => i.2 end.

Definition base_of (l r : list interval) : SpannerBase :=
  mkSpannerBase (head_of l) (tail_of l) (head_of r) (tail_of r).

Definition clip (h : Z) (l : list interval) : list interval :=
  match l with [] => [] | i :: l' => (h, i.2) :: l' end.

(** One step of the merge, on lists instead of cursors. *)
Definition merge_step (l r : list interval) : next_result * list interval * list interval :=
  let '(n, b) := SpannerBase_next (base_of l r) in
  (n, if more_lhs n then tail l else clip (lhs_head b) l,
      if more_rhs n then tail r else clip (rhs_head b) r).

Definition merge_measure (l r : list interval) : nat :=
  (2 * (length l + length r) + (if (head_of l =? head_of r)%Z then 0 else 1))%nat.

Lemma merge_measure_bound l r : (merge_measure l r <= 2 * (length l + length r) + 1)%nat.
Proof. unfold merge_measure. case_match; lia. Qed.

Definition left_in (n : next_result) : bool := (inside n =? lhs_before_rhs) || (inside n =? lhs_coincide_rhs).
Definition right_in (n : next_result) : bool := (inside n =? lhs_after_rhs) || (inside n =? lhs_coincide_rhs).

Record merge_ok (b : Z) (l r : list interval) (n : next_result) (l' r' : list interval) : Prop := {
  merge_head : b <= out_head n;
  merge_order : out_head n <= out_tail n;
  merge_bound : out_tail n <= max_value;
  merge_left : increasing (out_tail n) l';
  merge_right : increasing (out_tail n) r';
  merge_lcov : forall x, covers l x = left_in n && in_interval (out_head n, out_tail n) x || covers l' x;
  merge_rcov : forall x, covers r x = right_in n && in_interval (out_head n, out_tail n) x || covers r' x;
  merge_decr : (merge_measure l' r' < merge_measure l r)%nat;
  merge_more_lhs : more_lhs n = true -> l <> [];
  merge_more_rhs : more_rhs n = true -> r <> [];
  merge_inside : inside n = lhs_before_rhs \/ inside n = lhs_after_rhs \/ inside n = lhs_coincide_rhs }.

(** Solves the fields of [merge_ok] once the case of the step is known. *)
Ltac merge_field :=
  match goal with
  | |- forall x, covers _ x = _ =>
      intros x; unfold left_in, right_in, in_interval, lhs_before_rhs, lhs_after_rhs, lhs_coincide_rhs;
      simpl; unfold in_interval; simpl; interval_cases; try lia; try done
  | |- increasing _ _ => simpl; repeat split; (lia || (eapply increasing_weaken; [|eassumption]; lia))
  | |- (merge_measure _ _ < merge_measure _ _)%nat =>
      unfold merge_measure; simpl; repeat case_match; simpl; bool_to_prop; lia
  | |- _ = true -> _ => done
  | |- _ = _ \/ _ => by auto
  | _ => simpl; lia
  end.

Lemma merge_step_ok b l r n l' r' :
  increasing b l -> increasing b r -> l <> [] \/ r <> [] ->
  merge_step l r = (n, l', r') -> merge_ok b l r n l' r'.
Proof.
  intros Hl Hr Hne. unfold merge_step, SpannerBase_next, base_of.
  destruct l as [|[lh lt] l], r as [|[rh rt] r]; simpl in *;
    try (destruct Hne; done);
    repeat match goal with H : _ /\ _ |- _ => destruct H end;
    repeat (case_match; simplify_eq/=; bool_to_prop); intros; simplify_eq/=;
    try lia.
  all: constructor; try merge_field.
Qed.

End Intervals.

(** ** The inner loop *)

Section Inner.

Definition x_interval (g : region) (r : rect) : interval := (tleft g r, tright g r).
Definition y_interval (g : region) (r : rect) : interval := (ttop g r, tbottom g r).

(** [rects g] starts with the rectangle [c] and the others of its row. *)
Definition row_view (g : region) (c : rect) (row : list rect) : Prop :=
  exists rest, rects g = (c :: row) ++ rest /\
    Forall (fun r => Rect.top r = Rect.top c) row /\
    match rest with [] => True | r :: _ => Rect.top r <> Rect.top c end.

(** The cursor [g] with current interval [(h, t)] has the intervals [l] to visit. *)
Definition inner_rel (g : region) (h t : Z) (l : list interval) : Prop :=
  match l with
  | [] => h = max_value /\ t = max_value
  | i :: l' => i = (h, t) /\ exists c row, row_view g c row /\ l' = map (x_interval g) row
  end.

Lemma inner_rel_base s l r :
  inner_rel (lhs s) (lhs_head (sp_base s)) (lhs_tail (sp_base s)) l ->
  inner_rel (rhs s) (rhs_head (sp_base s)) (rhs_tail (sp_base s)) r ->
  sp_base s = base_of l r.
Proof.
  destruct s as [[] ? ?]; unfold base_of; destruct l, r; simpl; intros; naive_solver.
Qed.

Lemma inner_rel_clip g h t l h' : l <> [] -> inner_rel g h t l -> inner_rel g h' t (clip h' l).
Proof. destruct l as [|i l]; simpl; [done|]. intros _ [-> H]. done. Qed.

(** [SpannerInner::advance] moves to the next interval of the row. *)
Lemma inner_advance_rel g h t l a b g' h' t' :
  l <> [] -> inner_rel g h t l -> SpannerInner_advance g a b = (g', h', t') ->
  inner_rel g' h' t' (tail l).
Proof.
  destruct l as [|i l]; [done|]. intros _ (-> & c & row & (rest & Hr & Hrow & Hrest) & ->).
  unfold SpannerInner_advance. rewrite Hr; simpl.
  destruct row as [|c' row]; simpl.
  - destruct rest as [|r rest]; simpl; [by intros; simplify_eq|].
    rewrite (proj2 (Z.eqb_neq _ _) Hrest). by intros; simplify_eq.
  - apply Forall_cons in Hrow as [Hc' Hrow]. rewrite Hc', Z.eqb_refl.
    intros; simplify_eq/=. split; [done|]. exists c', row; split; [|done].
    exists rest; split; [done|]. split.
    + eapply Forall_impl; [exact Hrow|]; simpl; congruence.
    + destruct rest; congruence.
Qed.

Lemma next_fields b l r n b' :
  increasing b l -> increasing b r -> l <> [] \/ r <> [] ->
  SpannerBase_next (base_of l r) = (n, b') ->
  lhs_tail b' = tail_of l /\ rhs_tail b' = tail_of r /\
  (l = [] -> lhs_head b' = max_value) /\ (r = [] -> rhs_head b' = max_value).
Proof.
  unfold SpannerBase_next, base_of. intros Hl Hr Hne.
  destruct l as [|[lh lt] l], r as [|[rh rt] r]; simpl in *; try (destruct Hne; done);
    repeat (case_match; simplify_eq/=; bool_to_prop); intros; simplify_eq/=;
    repeat split; try done; lia.
Qed.

(** Either cursor after the step: advanced, or with its interval clipped. *)
Lemma inner_rel_next (more : bool) g h t l a b g' h' t' :
  (more = true -> l <> []) -> inner_rel g h t l ->
  b = tail_of l -> (l = [] -> a = max_value) ->
  (if more then SpannerInner_advance g a b else (g, a, b)) = (g', h', t') ->
  inner_rel g' h' t' (if more then tail l else clip a l).
Proof.
  intros Hm Hrel -> Ha. destruct more.
  - intros. eapply inner_advance_rel; eauto.
  - intros; simplify_eq. destruct l as [|i l]; simpl in *; [by auto|].
    destruct Hrel as [-> Hrel]. done.
Qed.

(** A step of the inner spanner is a step of the merge of the two rows. *)
Lemma SpannerInner_next_merge b s l r n l' r' :
  inner_rel (lhs s) (lhs_head (sp_base s)) (lhs_tail (sp_base s)) l ->
  inner_rel (rhs s) (rhs_head (sp_base s)) (rhs_tail (sp_base s)) r ->
  increasing b l -> increasing b r -> l <> [] \/ r <> [] ->
  merge_step l r = (n, l', r') ->
  exists s', SpannerInner_next s = (n, s') /\
    inner_rel (lhs s') (lhs_head (sp_base s')) (lhs_tail (sp_base s')) l' /\
    inner_rel (rhs s') (rhs_head (sp_base s')) (rhs_tail (sp_base s')) r'.
Proof.
  intros HL HR Hl Hr Hne Hstep.
  pose proof (merge_step_ok _ _ _ _ _ _ Hl Hr Hne Hstep) as Hok.
  unfold merge_step in Hstep. unfold SpannerInner_next.
  rewrite (inner_rel_base s l r HL HR).
  destruct (SpannerBase_next (base_of l r)) as [n0 b0] eqn:Hn.
  destruct (next_fields _ _ _ _ _ Hl Hr Hne Hn) as (Ht1 & Ht2 & Hh1 & Hh2).
  simplify_eq.
  destruct (if more_lhs n then SpannerInner_advance _ _ _ else _) as [[g1 h1] t1] eqn:E1.
  destruct (if more_rhs n then SpannerInner_advance _ _ _ else _) as [[g2 h2] t2] eqn:E2.
  eexists; split; [done|]; simpl.
  split; eapply inner_rel_next; eauto using merge_more_lhs, merge_more_rhs.
Qed.

Lemma inner_done l r s b :
  inner_rel (lhs s) (lhs_head (sp_base s)) (lhs_tail (sp_base s)) l ->
  inner_rel (rhs s) (rhs_head (sp_base s)) (rhs_tail (sp_base s)) r ->
  increasing b l -> increasing b r ->
  SpannerInner_isDone s = true <-> l = [] /\ r = [].
Proof.
  intros HL HR Hl Hr. unfold SpannerInner_isDone. rewrite (inner_rel_base s l r HL HR).
  rewrite andb_true_iff, !Z.eqb_eq.
  destruct l as [|[lh lt] l], r as [|[rh rt] r]; simpl in *; (split; [|naive_solver]);
    intros [??]; try done; lia.
Qed.

(** The strip of height [\[top, bottom)] above the intervals [xs]. *)
Definition strip (top bottom : Z) (xs : list interval) : list rect :=
  map (fun i => Rect.mk i.1 top i.2 bottom) xs.

Definition proper (l : list interval) : Prop := Forall (fun i => i.1 < i.2) l.

(** What one row of the sweep emits. *)
Record row_emission (op_mask b : Z) (l r xs : list interval) : Prop := {
  row_increasing : increasing b xs;
  row_proper : proper xs;
  row_covers : forall x, covers xs x = combine_op op_mask (covers l x) (covers r x) }.

Lemma row_emission_step op_mask b l r n l' r' xs :
  merge_ok b l r n l' r' -> row_emission op_mask (out_tail n) l' r' xs ->
  row_emission op_mask b l r
    (if selected op_mask (inside n) && (out_head n <? out_tail n)
     then (out_head n, out_tail n) :: xs else xs).
Proof.
  intros Hm Hx.
  pose proof (merge_head _ _ _ _ _ _ Hm). pose proof (merge_order _ _ _ _ _ _ Hm).
  pose proof (merge_bound _ _ _ _ _ _ Hm).
  constructor.
  - destruct (_ && _) eqn:E; bool_to_prop; simpl.
    + repeat split; try lia. apply Hx.
    + eapply increasing_weaken; [|apply Hx]. lia.
  - destruct (_ && _) eqn:E; bool_to_prop; [constructor; [simpl; lia|]|]; apply Hx.
  - intros x. rewrite (merge_lcov _ _ _ _ _ _ Hm), (merge_rcov _ _ _ _ _ _ Hm).
    destruct (Z.ltb_spec x (out_tail n)) as [Hlt|Hge].
    + rewrite (covers_below _ l' x (merge_left _ _ _ _ _ _ Hm)), (covers_below _ r' x (merge_right _ _ _ _ _ _ Hm)) by done.
      rewrite !orb_false_r. unfold left_in, right_in.
      replace (covers (if _ && _ then _ else _) x) with
        (selected op_mask (inside n) && in_interval (out_head n, out_tail n) x).
      * destruct (merge_inside _ _ _ _ _ _ Hm) as [-> | [-> | ->]]; simpl;
          destruct (in_interval _ x); simpl; rewrite ?andb_true_r, ?andb_false_r; done.
      * destruct (selected op_mask (inside n)); simpl;
          [|by rewrite (covers_below _ xs x (row_increasing _ _ _ _ _ Hx))].
        destruct (Z.ltb_spec (out_head n) (out_tail n)); simpl;
          rewrite (covers_below _ xs x (row_increasing _ _ _ _ _ Hx)) by done;
          [by rewrite orb_false_r|]. apply andb_false_iff. rewrite Z.leb_gt, Z.ltb_ge; simpl; lia.
    + assert (in_interval (out_head n, out_tail n) x = false) as Hno.
      { apply andb_false_iff; right; apply Z.ltb_ge; done. }
      rewrite Hno, !andb_false_r; simpl. rewrite <- (row_covers _ _ _ _ _ Hx).
      destruct (_ && _); simpl; [by rewrite Hno|done].
Qed.

(** The inner loop ends and hands the strips of the combined row to the
    rasterizer, whatever the rasterizer is. *)
Lemma inner_loop_spec op_mask top bottom fuel b s l r :
  inner_rel (lhs s) (lhs_head (sp_base s)) (lhs_tail (sp_base s)) l ->
  inner_rel (rhs s) (rhs_head (sp_base s)) (rhs_tail (sp_base s)) r ->
  increasing b l -> increasing b r -> l <> [] \/ r <> [] ->
  (merge_measure l r <= fuel)%nat ->
  exists xs, row_emission op_mask b l r xs /\
    forall S (R : Rasterizer S) (acc : S),
      inner_loop fuel op_mask top bottom s acc =
      Some (foldl rasterize acc (if top <? bottom then strip top bottom xs else [])).
Proof.
  revert b s l r; induction fuel as [|fuel IH]; intros b s l r HL HR Hl Hr Hne Hfuel.
  { unfold merge_measure in Hfuel. destruct l, r; simpl in Hfuel; try lia. destruct Hne; done. }
  destruct (merge_step l r) as [[n l'] r'] eqn:Hstep.
  pose proof (merge_step_ok _ _ _ _ _ _ Hl Hr Hne Hstep) as Hm.
  destruct (SpannerInner_next_merge _ _ _ _ _ _ _ HL HR Hl Hr Hne Hstep) as (s' & Hn & HL' & HR').
  pose proof (merge_left _ _ _ _ _ _ Hm) as Hl'. pose proof (merge_right _ _ _ _ _ _ Hm) as Hr'.
  pose proof (inner_done l' r' s' _ HL' HR' Hl' Hr') as Hdone.
  assert (exists xs, row_emission op_mask (out_tail n) l' r' xs /\
    forall S (R : Rasterizer S) (acc : S),
      (if SpannerInner_isDone s' then Some acc else inner_loop fuel op_mask top bottom s' acc) =
      Some (foldl rasterize acc (if top <? bottom then strip top bottom xs else []))) as (xs & Hxs & Hrun).
  { destruct (SpannerInner_isDone s').
    - destruct (proj1 Hdone eq_refl) as [-> ->]. exists []. split; [|intros; by case_match].
      constructor; [done|constructor|done].
    - destruct (IH _ s' l' r' HL' HR' Hl' Hr') as (xs & ? & ?); [|pose proof (merge_decr _ _ _ _ _ _ Hm); lia|eauto].
      destruct l', r'; try (by left); try (by right). by pose proof (proj2 Hdone (conj eq_refl eq_refl)). }
  eexists; split; [exact (row_emission_step _ _ _ _ _ _ _ _ Hm Hxs)|].
  intros S R acc. simpl. rewrite Hn. rewrite Hrun.
  destruct (selected op_mask (inside n)); simpl; [|done].
  destruct (out_head n <? out_tail n); simpl; [|done].
  destruct (top <? bottom); done.
Qed.

End Inner.

(** ** The outer loop *)

(** A band: its vertical extent and the intervals of its row. *)
Notation band := (interval * list interval)%type.

(** A row: its first rectangle and the others. *)
Notation row := (rect * list rect)%type.

Section Outer.


Definition row_rects (w : row) : list rect := w.1 :: w.2.
Definition row_xs (g : region) (w : row) : list interval := map (x_interval g) (row_rects w).
Definition row_y (g : region) (w : row) : interval := y_interval g w.1.

Definition row_ok (g : region) (w : row) : Prop :=
  Forall (fun r => Rect.top r = Rect.top w.1 /\ Rect.bottom r = Rect.bottom w.1) w.2 /\
  increasing INT32_MIN (row_xs g w).

(** Consecutive rows have different tops. *)
Fixpoint tops_differ (ws : list row) : Prop :=
  match ws with
  | w :: ((w' :: _) as ws') => Rect.top w'.1 <> Rect.top w.1 /\ tops_differ ws'
  | _ => True
  end.

Definition rows_ok (g : region) (ws : list row) : Prop :=
  Forall (row_ok g) ws /\ increasing INT32_MIN (map (row_y g) ws) /\ tops_differ ws.

Definition rows_rects (ws : list row) : list rect := concat (map row_rects ws).

Definition in_rows (g : region) (ws : list row) (x y : Z) : bool :=
  existsb (fun w => in_interval (row_y g w) y && covers (row_xs g w) x) ws.

(** The cursor [g], whose current span is clipped to start at [h], has the rows
    [ws] to visit, that is the intervals [l] of the y axis. *)
Definition outer_rel (g : region) (h t : Z) (ws : list row) (l : list interval) : Prop :=
  rects g = rows_rects ws /\
  match ws with
  | [] => l = [] /\ h = max_value /\ t = max_value
  | w :: ws' => (row_y g w).1 <= h /\ t = (row_y g w).2 /\ l = (h, t) :: map (row_y g) ws'
  end.

(** the pixels that remain *)
Definition pending (g : region) (ws : list row) (h x y : Z) : bool :=
  (h <=? y) && in_rows g ws x y.

Definition first_xs (g : region) (ws : list row) : list interval :=
  match ws with [] => [] | w :: _ => row_xs g w end.

(** One side of a merge step: [inn] tells whether the step is inside an interval
    of this side, [a] is the new head. *)
Record side_ok (inn more : bool) (oh ot a : Z) (l : list interval) : Prop := {
  side_inn : inn = true -> l <> [] /\ head_of l = oh /\ ot <= tail_of l;
  side_out : inn = false -> ot <= head_of l;
  side_more : more = true -> l <> [] /\ inn = true /\ ot = tail_of l;
  side_clip : more = false -> a = if inn then ot else head_of l }.

Lemma merge_sides b l r n b' :
  increasing b l -> increasing b r -> l <> [] \/ r <> [] ->
  SpannerBase_next (base_of l r) = (n, b') ->
  side_ok (left_in n) (more_lhs n) (out_head n) (out_tail n) (lhs_head b') l /\
  side_ok (right_in n) (more_rhs n) (out_head n) (out_tail n) (rhs_head b') r.
Proof.
  unfold SpannerBase_next, base_of. intros Hl Hr Hne.
  destruct l as [|[lh lt] l], r as [|[rh rt] r]; simpl in *; try (destruct Hne; done);
    repeat (case_match; simplify_eq/=; bool_to_prop); intros; simplify_eq/=;
    (split; constructor); simpl; intros; try done; repeat split; try done; try lia.
Qed.

Lemma in_rows_below g ws b x y :
  increasing b (map (row_y g) ws) -> y < b -> in_rows g ws x y = false.
Proof.
  revert b; induction ws as [|w ws IH]; intros b Hi Hy; [done|].
  simpl in *. destruct Hi as (H1 & H2 & _ & _ & H5). rewrite (IH _ H5) by lia.
  rewrite orb_false_r. apply andb_false_iff; left. apply andb_false_iff; left.
  apply Z.leb_gt. unfold row_y in *; simpl in *. lia.
Qed.

Lemma in_rows_from g ws b x y :
  increasing b (map (row_y g) ws) -> in_rows g ws x y = true ->
  b <= y /\ head_of (map (row_y g) ws) <= y.
Proof.
  intros Hi Hin. split.
  - destruct (Z.ltb_spec y b); [|lia]. by rewrite (in_rows_below g ws b) in Hin.
  - destruct ws as [|w ws]; [done|]. cbn [map head_of].
    destruct (Z.ltb_spec y (row_y g w).1); [|lia].
    rewrite (in_rows_below g (w :: ws) (row_y g w).1) in Hin; [done| |done].
    simpl in *. unfold row_y in *; simpl in *. intuition lia.
Qed.

(** The pixels that remain before a step are those of the strip the step cuts off
    and those that remain after it. *)
Lemma pending_step inn more oh ot a b g h t ws l h' :
  outer_rel g h t ws l -> increasing b l -> oh <= ot -> side_ok inn more oh ot a l ->
  (if more then h' = head_of (tail l) else h' = a) ->
  forall x y,
  pending g ws h x y =
    inn && in_interval (oh, ot) y && covers (first_xs g ws) x
    || pending g (if more then tail ws else ws) h' x y /\
  (y < ot -> pending g (if more then tail ws else ws) h' x y = false).
Proof.
  intros [_ Hrel] Hi Hle Hs Hh' x y. destruct ws as [|w ws]; simpl in Hrel.
  { destruct Hrel as (-> & -> & ->).
    destruct inn; [by destruct (side_inn _ _ _ _ _ _ Hs eq_refl)|].
    destruct more; [by destruct (side_more _ _ _ _ _ _ Hs eq_refl)|].
    unfold pending; simpl. by rewrite !andb_false_r. }
  destruct Hrel as (Htop & -> & ->). simpl in Hi. destruct Hi as (_ & Hht & _ & _ & Hi).
  pose proof (in_rows_from g ws _ x y Hi) as HR.
  destruct more.
  - destruct (side_more _ _ _ _ _ _ Hs eq_refl) as (_ & -> & ->).
    destruct (side_inn _ _ _ _ _ _ Hs eq_refl) as (_ & <- & _).
    simpl in *. unfold pending; simpl. unfold in_interval; simpl.
    destruct (in_rows g ws x y); [destruct (HR eq_refl)|]; destruct (covers (row_xs g w) x);
      interval_cases; split; intros; try done; lia.
  - pose proof (side_clip _ _ _ _ _ _ Hs eq_refl) as Ha. subst h' a.
    destruct inn; simpl.
    + destruct (side_inn _ _ _ _ _ _ Hs eq_refl) as (_ & <- & Hot). simpl in *.
      unfold pending; simpl. unfold in_interval; simpl.
      destruct (in_rows g ws x y); [destruct (HR eq_refl)|]; destruct (covers (row_xs g w) x);
        interval_cases; split; intros; try done; lia.
    + pose proof (side_out _ _ _ _ _ _ Hs eq_refl) as Ho. simpl in Ho.
      split; [done|]. intros. unfold pending. destruct (Z.leb_spec h y); [lia|done].
Qed.

Lemma skip_span_row c rs rest :
  Forall (fun r => Rect.top r = Rect.top c) rs ->
  match rest with [] => True | r :: _ => Rect.top r <> Rect.top c end ->
  skip_span (Rect.top c) (rs ++ rest) = rest.
Proof.
  induction 1 as [|r rs Hr _ IH]; intros Hrest; simpl.
  - destruct rest as [|r rest]; [done|]. simpl. by rewrite (proj2 (Z.eqb_neq _ _) Hrest).
  - rewrite Hr, Z.eqb_refl. auto.
Qed.

Lemma rows_rest g w ws :
  rows_ok g (w :: ws) ->
  Forall (fun r => Rect.top r = Rect.top w.1) w.2 /\
  match rows_rects ws with [] => True | r :: _ => Rect.top r <> Rect.top w.1 end.
Proof.
  intros (Hr & _ & Ht). apply Forall_cons in Hr as [[Hr _] _]. split.
  - eapply Forall_impl; [exact Hr|]; simpl; tauto.
  - destruct ws as [|w' ws]; [done|]. simpl in *. tauto.
Qed.

Lemma rows_ok_tail g w ws : rows_ok g (w :: ws) -> rows_ok g ws.
Proof.
  intros (Hr & Hi & Ht). apply Forall_cons in Hr as [_ Hr]. split; [done|]. split.
  - simpl in Hi. destruct Hi as (? & ? & ? & ? & Hi). eapply increasing_weaken; [|exact Hi].
    unfold row_y in *; simpl in *. lia.
  - destruct ws; simpl in *; tauto.
Qed.

Lemma rows_ok_first g w ws : rows_ok g (w :: ws) -> increasing INT32_MIN (row_xs g w).
Proof. intros (Hr & _). apply Forall_cons in Hr as [[_ Hr] _]. done. Qed.

(** [Spanner::advance] moves to the next row. *)
Lemma outer_advance_rel g h t w ws l g' h' t' :
  rows_ok g (w :: ws) -> outer_rel g h t (w :: ws) l -> Spanner_advance g = (g', h', t') ->
  outer_rel g' h' t' ws (tail l) /\ h' = head_of (tail l) /\ dx g' = dx g /\ dy g' = dy g.
Proof.
  intros Hok (Hr & Htop & -> & ->). unfold Spanner_advance. rewrite Hr. simpl.
  destruct (rows_rest _ _ _ Hok) as [Hrow Hrest]. rewrite Z.eqb_refl, skip_span_row by done.
  destruct ws as [|w' ws]; simpl; intros; simplify_eq; [done|].
  split; [|done]. split; [done|]. simpl. repeat split; done || lia.
Qed.

(** [rows_ok], [pending] and the like only depend on the translation of a cursor. *)
Lemma region_ext g g' : dx g' = dx g -> dy g' = dy g ->
  x_interval g' = x_interval g /\ y_interval g' = y_interval g.
Proof.
  intros Hx Hy. unfold x_interval, y_interval, tleft, tright, ttop, tbottom. by rewrite Hx, Hy.
Qed.

Lemma rows_ok_ext g g' ws : dx g' = dx g -> dy g' = dy g -> rows_ok g ws -> rows_ok g' ws.
Proof.
  intros Hx Hy. destruct (region_ext g g' Hx Hy) as [Hxi Hyi].
  unfold rows_ok, row_ok, row_y, row_xs. by rewrite Hxi, Hyi.
Qed.

Lemma in_rows_ext g g' ws x y : dx g' = dx g -> dy g' = dy g -> in_rows g' ws x y = in_rows g ws x y.
Proof.
  intros Hx Hy. destruct (region_ext g g' Hx Hy) as [Hxi Hyi].
  unfold in_rows, row_y, row_xs. by rewrite Hxi, Hyi.
Qed.

(** One side of [Spanner::next]. *)
Lemma outer_rel_next inn more oh ot a b b0 g h t ws l g' h' t' :
  rows_ok g ws -> outer_rel g h t ws l -> increasing b0 l -> side_ok inn more oh ot a l -> b = tail_of l ->
  oh <= ot ->
  (if more then Spanner_advance g else (g, a, b)) = (g', h', t') ->
  let ws' := if more then tail ws else ws in
  rows_ok g' ws' /\ outer_rel g' h' t' ws' (if more then tail l else clip a l) /\
  (forall x y, pending g ws h x y =
     inn && in_interval (oh, ot) y && covers (first_xs g ws) x || pending g' ws' h' x y) /\
  (forall x y, y < ot -> pending g' ws' h' x y = false) /\
  (length (rects g') <= length (rects g))%nat.
Proof.
  intros Hok Hrel Hi Hs -> Hle. destruct more.
  - destruct ws as [|w ws]; [by destruct Hrel as [_ (-> & _)]; destruct (side_more _ _ _ _ _ _ Hs eq_refl)|].
    intros Hadv. destruct (outer_advance_rel _ _ _ _ _ _ _ _ _ Hok Hrel Hadv) as (Hrel' & Hh' & Hx & Hy).
    pose proof (pending_step _ _ _ _ _ _ _ _ _ _ _ _ Hrel Hi Hle Hs Hh') as Hp. simpl in *.
    split; [eapply rows_ok_ext; eauto using rows_ok_tail|]. split; [done|].
    split; [|split].
    + intros x y. destruct (Hp x y) as [-> _]. unfold pending. by rewrite (in_rows_ext g g').
    + intros x y Hlt. unfold pending. rewrite (in_rows_ext g g') by done. by apply Hp.
    + destruct Hrel as [-> _], Hrel' as [-> _]. unfold rows_rects; simpl. rewrite length_app. lia.
  - intros; simplify_eq.
    pose proof (pending_step _ _ _ _ h' _ _ _ _ _ _ h' Hrel Hi Hle Hs eq_refl) as Hp. simpl in *.
    split; [done|]. split; [|split; [intros; apply Hp|split; [intros; by apply Hp|done]]].
    destruct Hrel as [Hr Hrel]. split; [done|]. destruct ws as [|w ws].
    + destruct Hrel as (-> & -> & ->). simpl. split; [done|]. split; [|done].
      pose proof (side_clip _ _ _ _ _ _ Hs eq_refl) as ->.
      destruct inn; [by destruct (side_inn _ _ _ _ _ _ Hs eq_refl)|done].
    + destruct Hrel as (Htop & -> & ->). simpl. split; [|done].
      pose proof (side_clip _ _ _ _ _ _ Hs eq_refl) as ->. destruct inn; [|done].
      destruct (side_inn _ _ _ _ _ _ Hs eq_refl) as (_ & <- & _). simpl in *. lia.
Qed.

(** [SpannerInner::prepare] puts the cursor of a row that the step is inside of at
    its first interval, and the other one at its end. *)
Lemma prepare_rel inn g h t ws l oh ot a more :
  rows_ok g ws -> outer_rel g h t ws l -> side_ok inn more oh ot a l ->
  let lrow := match rects g with c :: _ => (tleft g c, tright g c) | [] => (max_value, max_value) end in
  inner_rel g (if inn then lrow.1 else max_value) (if inn then lrow.2 else max_value)
    (if inn then first_xs g ws else []).
Proof.
  intros Hok Hrel Hs. destruct inn; [|done].
  destruct ws as [|w ws]; [by destruct Hrel as [_ (-> & _)]; destruct (side_inn _ _ _ _ _ _ Hs eq_refl)|].
  destruct Hrel as [Hr _]. rewrite Hr. simpl. split; [done|].
  exists w.1, w.2. split; [|done]. destruct (rows_rest _ _ _ Hok). by exists (rows_rects ws).
Qed.


Definition band_rects (bd : band) : list rect := strip bd.1.1 bd.1.2 bd.2.

Definition band_ok (bd : band) : Prop :=
  bd.1.1 < bd.1.2 /\ increasing INT32_MIN bd.2 /\ proper bd.2.

Definition in_bands (bds : list band) (x y : Z) : bool :=
  existsb (fun bd => in_interval bd.1 y && covers bd.2 x) bds.

(** What the sweep emits when [P] and [Q] are the pixels of the operands. *)
Record sweep_emission (op_mask b : Z) (P Q : Z -> Z -> bool) (bds : list band) : Prop := {
  sweep_increasing : increasing b (map fst bds);
  sweep_bands : Forall band_ok bds;
  sweep_pixels : forall x y, in_bands bds x y = combine_op op_mask (P x y) (Q x y) }.

Lemma in_bands_below b bds x y : increasing b (map fst bds) -> y < b -> in_bands bds x y = false.
Proof.
  revert b; induction bds as [|[[t bt] xs] bds IH]; intros b Hi Hy; [done|].
  simpl in *. destruct Hi as (? & ? & ? & ? & Hi). rewrite (IH bt) by (done || lia).
  unfold in_interval; simpl. interval_cases; lia || done.
Qed.

(** Adding the band of one step. *)
Lemma sweep_step op_mask b oh ot (linn rinn : bool) lx rx xs P Q P' Q' bds :
  b <= oh -> oh <= ot -> ot <= max_value ->
  row_emission op_mask INT32_MIN (if linn then lx else []) (if rinn then rx else []) xs ->
  (forall x y, P x y = linn && in_interval (oh, ot) y && covers lx x || P' x y) ->
  (forall x y, Q x y = rinn && in_interval (oh, ot) y && covers rx x || Q' x y) ->
  (forall x y, y < ot -> P' x y = false) -> (forall x y, y < ot -> Q' x y = false) ->
  sweep_emission op_mask ot P' Q' bds ->
  sweep_emission op_mask b P Q (if oh <? ot then ((oh, ot), xs) :: bds else bds).
Proof.
  intros Hb Ho Hm Hrow HP HQ HP' HQ' Hs. constructor.
  - destruct (Z.ltb_spec oh ot); simpl.
    + repeat split; try lia. apply Hs.
    + eapply increasing_weaken; [|apply Hs]. lia.
  - destruct (Z.ltb_spec oh ot); [constructor|]; try apply Hs.
    split; [done|]. split; apply Hrow.
  - intros x y. rewrite HP, HQ. destruct (Z.ltb_spec y ot) as [Hy|Hy].
    + rewrite HP', HQ', !orb_false_r by done.
      pose proof (in_bands_below _ _ x y (sweep_increasing _ _ _ _ _ Hs) Hy) as Hno.
      pose proof (row_covers _ _ _ _ _ Hrow x) as Hx.
      destruct (Z.ltb_spec oh ot); simpl; rewrite Hno, ?orb_false_r, ?Hx.
      * destruct (in_interval (oh, ot) y), linn, rinn; simpl; done.
      * assert (in_interval (oh, ot) y = false) as -> by (unfold in_interval; simpl; interval_cases; lia || done).
        by rewrite !andb_false_r.
    + assert (in_interval (oh, ot) y = false) as E by (unfold in_interval; simpl; interval_cases; lia || done).
      rewrite !E, !andb_false_r; simpl. rewrite <- (sweep_pixels _ _ _ _ _ Hs).
      destruct (oh <? ot); simpl; [by rewrite E|done].
Qed.

Lemma prepare_base l r n :
  inside n = lhs_before_rhs \/ inside n = lhs_after_rhs \/ inside n = lhs_coincide_rhs ->
  let lrow := match rects l with c :: _ => (tleft l c, tright l c) | [] => (max_value, max_value) end in
  let rrow := match rects r with c :: _ => (tleft r c, tright r c) | [] => (max_value, max_value) end in
  SpannerInner_prepare (SpannerInner_new l r) (inside n) =
  mkSpanner (mkSpannerBase (if left_in n then lrow.1 else max_value) (if left_in n then lrow.2 else max_value)
                           (if right_in n then rrow.1 else max_value) (if right_in n then rrow.2 else max_value)) l r.
Proof.
  unfold SpannerInner_prepare, left_in, right_in. intros [-> | [-> | ->]]; simpl; done.
Qed.

Lemma outer_rel_base s l r lws rws :
  outer_rel (lhs s) (lhs_head (sp_base s)) (lhs_tail (sp_base s)) lws l ->
  outer_rel (rhs s) (rhs_head (sp_base s)) (rhs_tail (sp_base s)) rws r ->
  sp_base s = base_of l r.
Proof.
  destruct s as [[] ? ?]; unfold outer_rel, base_of; simpl; intros [_ H1] [_ H2].
  destruct lws, rws; naive_solver.
Qed.

Lemma rows_rects_nil ws : rows_rects ws = [] <-> ws = [].
Proof. destruct ws; simpl; split; done. Qed.

Lemma length_rows_rects ws : (length ws <= length (rows_rects ws))%nat.
Proof.
  induction ws as [|w ws IH]; [done|]. unfold rows_rects in *; simpl. rewrite length_app. lia.
Qed.

Lemma first_xs_length g ws : (length (first_xs g ws) <= length (rows_rects ws))%nat.
Proof.
  destruct ws as [|w ws]; [simpl; lia|]. unfold rows_rects, row_xs; simpl.
  rewrite length_map, length_app. lia.
Qed.

(** The state of the outer loop: two cursors with their rows. *)
Record outer_state (b : Z) (s : Spanner) (lws rws : list row) (l r : list interval) : Prop := {
  os_lrows : rows_ok (lhs s) lws;
  os_rrows : rows_ok (rhs s) rws;
  os_lrel : outer_rel (lhs s) (lhs_head (sp_base s)) (lhs_tail (sp_base s)) lws l;
  os_rrel : outer_rel (rhs s) (rhs_head (sp_base s)) (rhs_tail (sp_base s)) rws r;
  os_linc : increasing b l;
  os_rinc : increasing b r }.

Definition left_pixels (s : Spanner) (lws : list row) := pending (lhs s) lws (lhs_head (sp_base s)).
Definition right_pixels (s : Spanner) (rws : list row) := pending (rhs s) rws (rhs_head (sp_base s)).

(** The row that one iteration of the outer loop sweeps. *)
Lemma outer_row op_mask b s lws rws l r n l' r' top bottom :
  outer_state b s lws rws l r -> l <> [] \/ r <> [] ->
  merge_step l r = (n, l', r') ->
  exists xs,
    row_emission op_mask INT32_MIN (if left_in n then first_xs (lhs s) lws else [])
      (if right_in n then first_xs (rhs s) rws else []) xs /\
    forall S (R : Rasterizer S) (acc : S),
      inner_loop (fuel_for (count (lhs s) + count (rhs s))) op_mask top bottom
        (SpannerInner_prepare (SpannerInner_new (lhs s) (rhs s)) (inside n)) acc =
      Some (foldl rasterize acc (if top <? bottom then strip top bottom xs else [])).
Proof.
  intros [Hlw Hrw Hlr Hrr Hl Hr] Hne Hstep.
  pose proof (merge_inside _ _ _ _ _ _ (merge_step_ok _ _ _ _ _ _ Hl Hr Hne Hstep)) as Hin.
  unfold merge_step in Hstep. destruct (SpannerBase_next (base_of l r)) as [n0 b0] eqn:Hn. simplify_eq.
  destruct (merge_sides _ _ _ _ _ Hl Hr Hne Hn) as [Hsl Hsr].
  rewrite (prepare_base _ _ _ Hin).
  pose proof (prepare_rel _ _ _ _ _ _ _ _ _ _ Hlw Hlr Hsl) as HL.
  pose proof (prepare_rel _ _ _ _ _ _ _ _ _ _ Hrw Hrr Hsr) as HR.
  assert (Hfx : forall g ws (c : bool), rows_ok g ws -> increasing INT32_MIN (if c then first_xs g ws else [])).
  { intros g [|w ws] [] Hok; simpl; try done. by apply (rows_ok_first g w ws). }
  assert (Hnx : forall g h t ws y (c more : bool) oh ot a, outer_rel g h t ws y -> side_ok c more oh ot a y ->
     c = true -> (if c then first_xs g ws else []) <> []).
  { intros g h t [|w ws] y c more oh ot a Hrel Hs ->; [|done].
    destruct Hrel as [_ (-> & _)]. by destruct (side_inn _ _ _ _ _ _ Hs eq_refl). }
  apply (inner_loop_spec op_mask top bottom _ INT32_MIN); simpl; auto.
  - assert (left_in n = true \/ right_in n = true) as [E|E];
      [unfold left_in, right_in; destruct Hin as [-> | [-> | ->]]; simpl; auto| |]; [left|right]; eauto.
  - etransitivity; [apply merge_measure_bound|].
    unfold fuel_for, count. destruct Hlr as [-> _], Hrr as [-> _].
    pose proof (first_xs_length (lhs s) lws). pose proof (first_xs_length (rhs s) rws).
    destruct (left_in n), (right_in n); simpl length; lia.
Qed.

(** One step of the outer spanner. *)
Lemma outer_next b s lws rws l r n l' r' :
  outer_state b s lws rws l r -> l <> [] \/ r <> [] ->
  merge_step l r = (n, l', r') ->
  exists s' lws' rws',
    Spanner_next s = (n, s') /\ outer_state (out_tail n) s' lws' rws' l' r' /\
    (forall x y, left_pixels s lws x y = left_in n && in_interval (out_head n, out_tail n) y
       && covers (first_xs (lhs s) lws) x || left_pixels s' lws' x y) /\
    (forall x y, right_pixels s rws x y = right_in n && in_interval (out_head n, out_tail n) y
       && covers (first_xs (rhs s) rws) x || right_pixels s' rws' x y) /\
    (forall x y, y < out_tail n -> left_pixels s' lws' x y = false) /\
    (forall x y, y < out_tail n -> right_pixels s' rws' x y = false).
Proof.
  intros [Hlw Hrw Hlr Hrr Hl Hr] Hne Hstep.
  pose proof (merge_step_ok _ _ _ _ _ _ Hl Hr Hne Hstep) as Hm.
  unfold merge_step in Hstep. unfold Spanner_next. rewrite (outer_rel_base s l r _ _ Hlr Hrr).
  destruct (SpannerBase_next (base_of l r)) as [n0 b0] eqn:Hn. simplify_eq.
  destruct (merge_sides _ _ _ _ _ Hl Hr Hne Hn) as [Hsl Hsr].
  destruct (next_fields _ _ _ _ _ Hl Hr Hne Hn) as (Ht1 & Ht2 & _ & _).
  destruct (if more_lhs n then Spanner_advance _ else _) as [[g1 h1] t1] eqn:E1.
  destruct (if more_rhs n then Spanner_advance _ else _) as [[g2 h2] t2] eqn:E2.
  destruct (outer_rel_next _ _ _ _ _ _ _ _ _ _ _ _ _ _ _ Hlw Hlr Hl Hsl Ht1 (merge_order _ _ _ _ _ _ Hm) E1)
    as (Hlw' & Hlr' & HP & HP' & _).
  destruct (outer_rel_next _ _ _ _ _ _ _ _ _ _ _ _ _ _ _ Hrw Hrr Hr Hsr Ht2 (merge_order _ _ _ _ _ _ Hm) E2)
    as (Hrw' & Hrr' & HQ & HQ' & _).
  eexists _, _, _; split; [reflexivity|]. split; [|done].
  constructor; simpl; eauto using merge_left, merge_right.
Qed.

Lemma outer_done b s lws rws l r :
  outer_state b s lws rws l r -> Spanner_isDone s = true <-> l = [] /\ r = [].
Proof.
  intros [_ _ [Hl Hl'] [Hr Hr'] _ _]. unfold Spanner_isDone, count. rewrite Hl, Hr.
  rewrite andb_true_iff, !Nat.eqb_eq, !length_zero_iff_nil, !rows_rects_nil.
  destruct lws, rws; naive_solver.
Qed.

Lemma outer_loop_spec op_mask fuel b s lws rws l r :
  outer_state b s lws rws l r -> l <> [] \/ r <> [] -> (merge_measure l r <= fuel)%nat ->
  exists bds, sweep_emission op_mask b (left_pixels s lws) (right_pixels s rws) bds /\
    forall S (R : Rasterizer S) (acc : S),
      outer_loop fuel op_mask s acc = Some (foldl rasterize acc (concat (map band_rects bds))).
Proof.
  revert b s lws rws l r; induction fuel as [|fuel IH]; intros b s lws rws l r Hs Hne Hfuel.
  { unfold merge_measure in Hfuel. destruct l, r; simpl in Hfuel; try lia. destruct Hne; done. }
  destruct (merge_step l r) as [[n l'] r'] eqn:Hstep.
  pose proof (merge_step_ok _ _ _ _ _ _ (os_linc _ _ _ _ _ _ Hs) (os_rinc _ _ _ _ _ _ Hs) Hne Hstep) as Hm.
  destruct (outer_row op_mask _ _ _ _ _ _ _ _ _ (out_head n) (out_tail n) Hs Hne Hstep) as (xs & Hxs & Hinner).
  destruct (outer_next _ _ _ _ _ _ _ _ _ Hs Hne Hstep) as (s' & lws' & rws' & Hn & Hs' & HP & HQ & HP' & HQ').
  pose proof (outer_done _ _ _ _ _ _ Hs') as Hdone.
  assert (exists bds, sweep_emission op_mask (out_tail n) (left_pixels s' lws') (right_pixels s' rws') bds /\
    forall S (R : Rasterizer S) (acc : S),
      (if Spanner_isDone s' then Some acc else outer_loop fuel op_mask s' acc) =
      Some (foldl rasterize acc (concat (map band_rects bds)))) as (bds & Hbds & Hrun).
  { destruct (Spanner_isDone s').
    - destruct (proj1 Hdone eq_refl) as [-> ->]. exists []. split; [|done].
      destruct Hs' as [_ _ [_ HL] [_ HR] _ _].
      destruct lws'; [|by destruct HL as (_ & _ & ?)]. destruct rws'; [|by destruct HR as (_ & _ & ?)].
      constructor; [done|constructor|].
      intros x y. unfold left_pixels, right_pixels, pending; simpl. by rewrite !andb_false_r.
    - destruct (IH _ s' lws' rws' l' r' Hs') as (bds & ? & ?); [|pose proof (merge_decr _ _ _ _ _ _ Hm); lia|eauto].
      destruct l', r'; try (by left); try (by right). by pose proof (proj2 Hdone (conj eq_refl eq_refl)). }
  eexists; split; [eapply sweep_step; eauto using merge_head, merge_order, merge_bound|].
  intros S R acc. simpl. rewrite Hn, Hinner, Hrun.
  destruct (out_head n <? out_tail n); simpl; [|done]. by rewrite foldl_app.
Qed.

(** The sweep over two cursors that hold rows: it ends, and hands the rasterizer
    the bands of the combined region. *)
Lemma run_spec op_mask l r lws rws :
  rects l = rows_rects lws -> rects r = rows_rects rws ->
  rows_ok l lws -> rows_ok r rws -> lws <> [] \/ rws <> [] ->
  exists bds, sweep_emission op_mask INT32_MIN (in_rows l lws) (in_rows r rws) bds /\
    forall S (R : Rasterizer S) (acc : S),
      run op_mask l r acc = Some (foldl rasterize acc (concat (map band_rects bds))).
Proof.
  intros Hl Hr Hlok Hrok Hne.
  set (s := Spanner_new l r).
  assert (Hrel : forall g ws, rects g = rows_rects ws ->
    let '(h, t) := match rects g with c :: _ => (ttop g c, tbottom g c) | [] => (max_value, max_value) end in
    outer_rel g h t ws (map (row_y g) ws)).
  { intros g [|w ws] Hg; unfold outer_rel; rewrite Hg; simpl; [done|]. repeat split; done || lia. }
  assert (Hs : outer_state INT32_MIN s lws rws (map (row_y l) lws) (map (row_y r) rws)).
  { pose proof (Hrel l lws Hl) as HL. pose proof (Hrel r rws Hr) as HR.
    unfold s, Spanner_new.
    destruct (match rects l with [] => _ | _ => _ end) as [lh lt].
    destruct (match rects r with [] => _ | _ => _ end) as [rh rt].
    constructor; simpl; try done; apply Hlok || apply Hrok. }
  assert (Hpend : forall g ws x y, rects g = rows_rects ws -> rows_ok g ws ->
    pending g ws (match rects g with c :: _ => ttop g c | [] => max_value end) x y = in_rows g ws x y).
  { intros g ws x y Hg (_ & Hi & _). unfold pending. rewrite Hg.
    destruct (in_rows g ws x y) eqn:E; [|by rewrite andb_false_r].
    destruct (in_rows_from g ws _ x y Hi E) as [_ Hh]. rewrite andb_true_r. apply Z.leb_le.
    destruct ws; simpl in *; done. }
  destruct (outer_loop_spec op_mask (fuel_for (count l + count r)) _ _ _ _ _ _ Hs) as (bds & Hbds & Hrun).
  - destruct lws, rws; simpl; try (by left); try (by right). destruct Hne; done.
  - etransitivity; [apply merge_measure_bound|]. unfold fuel_for, count. rewrite Hl, Hr, !length_map.
    pose proof (length_rows_rects lws). pose proof (length_rows_rects rws). lia.
  - exists bds. split; [|done]. destruct Hbds as [Hi Hb Hp]. constructor; [done|done|].
    intros x y. rewrite Hp. unfold left_pixels, right_pixels, s, Spanner_new.
    rewrite <- (Hpend l lws x y Hl Hlok), <- (Hpend r rws x y Hr Hrok).
    destruct (rects l), (rects r); done.
Qed.

End Outer.

(** ** Arrays of rectangles in span order *)

Section Spans.

Context (g : region).

(** A rectangle whose translated extents are ordered and start below [max_value]. *)
Definition rect_ok (r : rect) : Prop :=
  tleft g r <= tright g r /\ ttop g r <= tbottom g r /\ tleft g r < max_value /\ ttop g r < max_value.

(** [b] follows [a]: further right in the same span, or in a span below. *)
Definition follows (a b : rect) : Prop :=
  Rect.top b = Rect.top a /\ Rect.bottom b = Rect.bottom a /\ tright g a <= tleft g b \/
  Rect.top b <> Rect.top a /\ tbottom g a <= ttop g b.

Fixpoint span_order (rs : list rect) : Prop :=
  match rs with
  | a :: ((b :: _) as rs') => follows a b /\ span_order rs'
  | _ => True
  end.

Definition tcontains (r : rect) (x y : Z) : bool :=
  in_interval (y_interval g r) y && in_interval (x_interval g r) x.

Lemma span_order_rows rs :
  Forall rect_ok rs -> span_order rs ->
  exists ws, rs = rows_rects ws /\ rows_ok g ws /\ (rs <> [] -> ws <> []) /\
    forall x y, in_rows g ws x y = existsb (fun r => tcontains r x y) rs.
Proof.
  induction 1 as [|a rs Ha Hrs IH]; intros Hord.
  { exists []. repeat split; done || constructor. }
  pose proof (int32_range (Rect.left a + dx g)) as Hla. pose proof (int32_range (Rect.right a + dx g)) as Hra.
  pose proof (int32_range (Rect.top a + dy g)) as Hta. pose proof (int32_range (Rect.bottom a + dy g)) as Hba.
  fold (tleft g a) (tright g a) (ttop g a) (tbottom g a) in *.
  destruct Ha as (? & ? & ? & ?). unfold in_int32, max_value in *.
  destruct IH as (ws & -> & Hok & _ & Hpix).
  { destruct rs; simpl in *; tauto. }
  destruct ws as [|w ws].
  { exists [(a, [])]. split; [done|]. split; [|split; [done|]].
    - repeat constructor; simpl; unfold max_value; lia || done.
    - intros x y. simpl. unfold row_xs, row_y, tcontains, covers; simpl. by rewrite !orb_false_r. }
  destruct Hord as [Hf Hord]. simpl in Hf. destruct Hok as (Hrow & Hi & Ht).
  destruct Hf as [(Htop & Hbot & Hx) | (Htop & Hy)].
  - exists ((a, row_rects w) :: ws). split; [done|]. split; [|split; [done|]].
    + apply Forall_cons in Hrow as [[Hw Hwx] Hrow].
      assert (row_y g (a, row_rects w) = row_y g w) as Hry.
      { unfold row_y, y_interval, ttop, tbottom; simpl. by rewrite Htop, Hbot. }
      split; [|split].
      * constructor; [|done]. split; simpl.
        -- constructor; [done|]. eapply Forall_impl; [exact Hw|]; simpl. intuition congruence.
        -- simpl in Hwx. repeat split; unfold max_value; try lia; tauto.
      * cbn [map]. rewrite Hry. exact Hi.
      * destruct ws as [|w' ws]; [done|]. simpl in *. by rewrite <- Htop.
    + intros x y. cbn [existsb]. rewrite <- (Hpix x y). simpl.
      unfold tcontains, row_y, y_interval, ttop, tbottom, row_xs; simpl. rewrite <- Htop, <- Hbot.
      btauto.
  - exists ((a, []) :: w :: ws). split; [done|]. split; [|split; [done|]].
    + split; [|split].
      * constructor; [|done]. repeat constructor; simpl; unfold max_value; lia || done.
      * simpl in *. unfold row_y in *; simpl in *. unfold max_value in *. intuition lia.
      * simpl. done.
    + intros x y. cbn [existsb]. rewrite <- (Hpix x y). simpl. f_equal.
      unfold row_xs, row_y, tcontains, covers; simpl. by rewrite !orb_false_r.
Qed.

End Spans.
