(* ===== verification/Region.v ===== *)
(** * Regions (libs/ui/Region.cpp, libs/ui/include/ui/Region.h)

    A [Region] is a vector of rectangles in span order followed by their bounding
    box, or a single rectangle. [Module rasterizer] is the class that rebuilds such
    a vector from the rectangles of a sweep, merging neighbours. A method that
    mutates [*this] returns the new region; its argument is a distinct object. *)

From S2P Require Import Prelude Geometry RegionHelper.
Import region_operator.

(** ** Region::rasterizer

    [head] and [tail] point into [storage] and delimit the last span written; they
    are indices here. [cur] points to the last rectangle of [span]. *)
Module rasterizer.

Record t := mk { bounds : rect; storage : list rect; head : nat; tail : nat; span : list rect }.

Definition INT_MAX : Z := INT32_MAX.
Definition INT_MIN : Z := INT32_MIN.

(** the constructor, which clears the storage of the destination *)
Definition new : t := mk (Rect.mk INT_MAX 0 INT_MIN 0) [] 0 0 [].

(** the loop that compares the new span with the last one *)
Fixpoint same_columns (ps qs : list rect) : bool :=
  match ps, qs with
  | p :: ps', q :: qs' =>
    if negb (Rect.left p =? Rect.left q) || negb (Rect.right p =? Rect.right q) then false
    else same_columns ps' qs'
  | _, _ => true
  end.

Definition set_bottom (b : Z) (r : rect) : rect := Rect.mk (Rect.left r) (Rect.top r) (Rect.right r) b.
Definition set_right (x : Z) (r : rect) : rect := Rect.mk (Rect.left r) (Rect.top r) x (Rect.bottom r).

Definition front (l : list rect) : rect := List.hd Rect.INVALID_RECT l.
Definition back (l : list rect) : rect := List.last l Rect.INVALID_RECT.

Definition flushSpan (s : t) : t :=
  let last_span := take (tail s - head s) (drop (head s) (storage s)) in
  let merge :=
    if (tail s - head s =? length (span s))%nat then
      if Rect.top (front (span s)) =? Rect.bottom (front last_span) then
        same_columns (span s) last_span
      else false
    else false in
  if merge then
    let bottom := Rect.bottom (front (span s)) in
    mk (bounds s)
       (take (head s) (storage s) ++ map (set_bottom bottom) last_span ++ drop (tail s) (storage s))
       (head s) (tail s) []
  else
    let b := bounds s in
    let b := Rect.mk (Rect.min (Rect.left (front (span s))) (Rect.left b)) (Rect.top b)
                     (Rect.max (Rect.right (back (span s))) (Rect.right b)) (Rect.bottom b) in
    let st := storage s ++ span s in
    mk b st (length st - length (span s)) (length st) [].

Definition push (s : t) (r : rect) : t :=
  mk (bounds s) (storage s) (head s) (tail s) (span s ++ [r]).

(** [operator()] *)
#[global] Instance step : Rasterizer t := fun s r =>
  match span s with
  | [] => push s r
  | _ :: _ =>
    let cur := back (span s) in
    if negb (Rect.top cur =? Rect.top r) then push (flushSpan s) r
    else if Rect.right cur =? Rect.left r then
      mk (bounds s) (storage s) (head s) (tail s)
         (removelast (span s) ++ [set_right (Rect.right r) cur])
    else push s r
  end.

(** the destructor: the vector it leaves in the destination *)
Definition finish (s : t) : list rect :=
  let s := match span s with [] => s | _ :: _ => flushSpan s end in
  match storage s with
  | [] => [Rect.mk 0 (Rect.top (bounds s)) 0 (Rect.bottom (bounds s))]
  | _ :: _ =>
    let b := Rect.mk (Rect.left (bounds s)) (Rect.top (front (storage s)))
                     (Rect.right (bounds s)) (Rect.bottom (back (storage s))) in
    (if (length (storage s) =? 1)%nat then [] else storage s) ++ [b]
  end.

End rasterizer.

Module Region.

Record t := mk { mStorage : list rect }.

Definition INVALID_REGION : t := mk [Rect.INVALID_RECT].

(** [Region()] *)
Definition new : t := mk [Rect.of_size 0 0].
(** [Region(const Rect&)] *)
Definition of_rect (r : rect) : t := mk [r].

Definition getBounds (r : t) : rect := List.last (mStorage r) Rect.INVALID_RECT.
Definition bounds := getBounds.
Definition isEmpty (r : t) : bool := Rect.isEmpty (getBounds r).
Definition isRect (r : t) : bool := (length (mStorage r) =? 1)%nat.

(** [begin() .. end()], the array that [getArray] returns *)
Definition getArray (r : t) : list rect :=
  match mStorage r with
  | [] => []
  | _ => if isRect r then mStorage r else removelast (mStorage r)
  end.

Definition makeBoundsSelf (r : t) : t :=
  if (2 <=? length (mStorage r))%nat then mk [getBounds r] else r.

Fixpoint contains_loop (rs : list rect) (x y : Z) : bool :=
  match rs with
  | [] => false
  | cur :: rs' =>
    if (Rect.top cur <=? y) && (y <? Rect.bottom cur) && (Rect.left cur <=? x) && (x <? Rect.right cur)
    then true else contains_loop rs' x y
  end.
Definition contains (r : t) (x y : Z) : bool := contains_loop (getArray r) x y.

Definition clear (_ : t) : t := mk [Rect.of_size 0 0].
Definition set (_ : t) (r : rect) : t := mk [r].
Definition set_size (_ : t) (w h : Z) : t := mk [Rect.of_size w h].

Fixpoint same_rects (a b : list rect) : bool :=
  match a, b with
  | r :: a', s :: b' => if negb (Rect.eqb r s) then false else same_rects a' b'
  | _, _ => true
  end.
Definition hasSameRects (a b : t) : bool :=
  if negb (length (getArray a) =? length (getArray b))%nat then false
  else same_rects (getArray a) (getArray b).

(** the rectangle is inserted before the last element, the bounds *)
Definition addRectUnchecked (r : t) (l t_ rr b : Z) : t :=
  let n := (length (mStorage r) - 1)%nat in
  mk (take n (mStorage r) ++ [Rect.mk l t_ rr b] ++ drop n (mStorage r)).

(** ** Boolean operations

    [None] stands for a sweep that does not end; theorem [boolean_operation_total]
    shows that it does not happen. *)

Definition boolean_operation (op : Z) (lhs rhs : t) (dx dy : Z) : option t :=
  let lhs_region := mkRegion (getArray lhs) 0 0 in
  let rhs_region := mkRegion (getArray rhs) dx dy in
  match run op lhs_region rhs_region rasterizer.new with
  | Some s => Some (mk (rasterizer.finish s))
  | None => None
  end.

(** with a [Rect] on the right: a rectangle that is neither valid nor
    [INVALID_RECT] is reported and [dst] is left as it was *)
Definition boolean_operation_rect (op : Z) (dst lhs : t) (rhs : rect) (dx dy : Z) : option t :=
  if negb (Rect.isValid rhs) && negb (Rect.eqb rhs Rect.INVALID_RECT) then Some dst
  else
    match run op (mkRegion (getArray lhs) 0 0) (mkRegion [rhs] dx dy) rasterizer.new with
    | Some s => Some (mk (rasterizer.finish s))
    | None => None
    end.

Definition operationSelf_rect (self : t) (r : rect) (op : Z) : option t :=
  boolean_operation_rect op self self r 0 0.
Definition operationSelf (self rhs : t) (op : Z) : option t := boolean_operation op self rhs 0 0.
Definition operationSelf_offset (self rhs : t) (dx dy op : Z) : option t :=
  boolean_operation op self rhs dx dy.
Definition operation_rect (self : t) (r : rect) (op : Z) : option t :=
  boolean_operation_rect op new self r 0 0.
Definition operation (self rhs : t) (op : Z) : option t := boolean_operation op self rhs 0 0.
Definition operation_offset (self rhs : t) (dx dy op : Z) : option t :=
  boolean_operation op self rhs dx dy.

Definition orSelf_rect (self : t) (r : rect) : option t :=
  if isEmpty self then Some (set self r) else operationSelf_rect self r op_or.
Definition xorSelf_rect (self : t) (r : rect) : option t := operationSelf_rect self r op_xor.
Definition andSelf_rect (self : t) (r : rect) : option t := operationSelf_rect self r op_and.
Definition subtractSelf_rect (self : t) (r : rect) : option t := operationSelf_rect self r op_nand.

Definition orSelf (self rhs : t) : option t :=
  if isEmpty self then Some rhs else operationSelf self rhs op_or.
Definition xorSelf (self rhs : t) : option t := operationSelf self rhs op_xor.
Definition andSelf (self rhs : t) : option t := operationSelf self rhs op_and.
Definition subtractSelf (self rhs : t) : option t := operationSelf self rhs op_nand.

Definition merge_rect (self : t) (r : rect) : option t := operation_rect self r op_or.
Definition mergeExclusive_rect (self : t) (r : rect) : option t := operation_rect self r op_xor.
Definition intersect_rect (self : t) (r : rect) : option t := operation_rect self r op_and.
Definition subtract_rect (self : t) (r : rect) : option t := operation_rect self r op_nand.

Definition merge (self rhs : t) : option t := operation self rhs op_or.
Definition mergeExclusive (self rhs : t) : option t := operation self rhs op_xor.
Definition intersect (self rhs : t) : option t := operation self rhs op_and.
Definition subtract (self rhs : t) : option t := operation self rhs op_nand.

(** the variants that translate [rhs] first *)
Definition orSelf_offset (self rhs : t) (dx dy : Z) : option t := operationSelf_offset self rhs dx dy op_or.
Definition xorSelf_offset (self rhs : t) (dx dy : Z) : option t := operationSelf_offset self rhs dx dy op_xor.
Definition andSelf_offset (self rhs : t) (dx dy : Z) : option t := operationSelf_offset self rhs dx dy op_and.
Definition subtractSelf_offset (self rhs : t) (dx dy : Z) : option t := operationSelf_offset self rhs dx dy op_nand.
Definition merge_offset (self rhs : t) (dx dy : Z) : option t := operation_offset self rhs dx dy op_or.
Definition mergeExclusive_offset (self rhs : t) (dx dy : Z) : option t := operation_offset self rhs dx dy op_xor.
Definition intersect_offset (self rhs : t) (dx dy : Z) : option t := operation_offset self rhs dx dy op_and.
Definition subtract_offset (self rhs : t) (dx dy : Z) : option t := operation_offset self rhs dx dy op_nand.

(** ** Translation *)

(** [static void translate(Region& reg, int dx, int dy)] *)
Definition translate_in_place (reg : t) (dx dy : Z) : t :=
  if (negb (dx =? 0) || negb (dy =? 0)) && negb (isEmpty reg) then
    mk (map (fun r => Rect.offsetBy r dx dy) (mStorage reg))
  else reg.
Definition translateSelf (self : t) (x y : Z) : t :=
  if negb (Z.lor x y =? 0) then translate_in_place self x y else self.
Definition translate (self : t) (x y : Z) : t := translate_in_place self x y.

(** ** validate

    The loop carries [prev], the bounding box [b] so far and [result]. The first
    iteration has [prev == cur], so the comparisons with the previous rectangle
    start at the second one. *)

Definition check_rect (cur : rect) (result : bool) : bool :=
  let result := if negb (Rect.isValid cur) then
                  if negb (Rect.eqb cur Rect.INVALID_RECT) then false else result
                else result in
  let result := if max_value <? Rect.right cur then false else result in
  if max_value <? Rect.bottom cur then false else result.

Definition extend (b cur : rect) : rect :=
  Rect.mk (if Rect.left b <? Rect.left cur then Rect.left b else Rect.left cur)
          (if Rect.top b <? Rect.top cur then Rect.top b else Rect.top cur)
          (if Rect.right cur <? Rect.right b then Rect.right b else Rect.right cur)
          (if Rect.bottom cur <? Rect.bottom b then Rect.bottom b else Rect.bottom cur).

Definition check_order (prev cur : rect) (result : bool) : bool :=
  let result := if negb (Rect.ltb prev cur) then false else result in
  if Rect.top cur =? Rect.top prev then
    if negb (Rect.bottom cur =? Rect.bottom prev) then false
    else if Rect.left cur <? Rect.right prev then false
    else result
  else if Rect.top cur <? Rect.bottom prev then false
  else result.

Fixpoint validate_loop (prev b : rect) (result : bool) (rs : list rect) : rect * bool :=
  match rs with
  | [] => (b, result)
  | cur :: rs' =>
    let result := check_rect cur result in
    let result := check_order prev cur result in
    validate_loop cur (extend b cur) result rs'
  end.

Definition validate (reg : t) : bool :=
  match mStorage reg with
  | [] => false
  | _ =>
    match getArray reg with
    | [] => false
    | cur :: rs =>
      let '(b, result) := validate_loop cur cur (check_rect cur true) rs in
      let result := if negb (Rect.eqb b (getBounds reg)) then false else result in
      if (length (mStorage reg) =? 2)%nat then false else result
    end
  end.

End Region.

Example subtract_example :
  Region.subtract (Region.of_rect (Rect.mk 0 0 10 10)) (Region.of_rect (Rect.mk 2 3 5 6)) =
  Some (Region.mk [Rect.mk 0 0 10 3; Rect.mk 0 3 2 6; Rect.mk 5 3 10 6; Rect.mk 0 6 10 10;
                   Rect.mk 0 0 10 10]).
Proof. reflexivity. Qed.
