(* ===== verification/RegionCorrect.v ===== *)
(** * Correctness of the region operations

    The rasterizer rebuilds the pixels it is given, in span order and with the
    tight bounding box; with the sweep theorem this gives the set semantics and
    the well-formedness of every boolean operation. *)

From S2P Require Import Prelude Geometry RegionHelper RegionSweep Region.
Import region_operator.

(** ** The rasterizer *)

Section Raster.

(** the end of the last interval, or [b] *)
Definition end_of (b : Z) (l : list interval) : Z := List.last (map snd l) b.

Lemma end_of_snoc b l i : end_of b (l ++ [i]) = i.2.
Proof. unfold end_of. rewrite map_app. apply List.last_last. Qed.

Lemma last_cons {A} (l : list A) x d : List.last (x :: l) d = List.last l x.
Proof. revert x d; induction l as [|y l IH]; intros x d; [done|].
  change (List.last (x :: y :: l) d) with (List.last (y :: l) d). by rewrite !IH. Qed.

Lemma end_of_cons b h t l : end_of b ((h, t) :: l) = end_of t l.
Proof. apply last_cons. Qed.

Lemma increasing_snoc b l i :
  increasing b (l ++ [i]) <->
  increasing b l /\ end_of b l <= i.1 /\ i.1 <= i.2 /\ i.1 < max_value /\ i.2 <= max_value.
Proof.
  revert b; induction l as [|[h t] l IH]; intros b; simpl.
  { destruct i; unfold end_of; simpl. tauto. }
  rewrite IH, end_of_cons. tauto.
Qed.

Lemma strip_app t b xs ys : strip t b (xs ++ ys) = strip t b xs ++ strip t b ys.
Proof. apply map_app. Qed.

Lemma strip_one t b i : strip t b [i] = [Rect.mk i.1 t i.2 b].
Proof. done. Qed.

Lemma length_strip t b xs : length (strip t b xs) = length xs.
Proof. apply length_map. Qed.

Definition bands_rects (bds : list band) : list rect := concat (map band_rects bds).

Lemma bands_rects_snoc bds bd : bands_rects (bds ++ [bd]) = bands_rects bds ++ band_rects bd.
Proof. unfold bands_rects. rewrite map_app, concat_app. simpl. by rewrite app_nil_r. Qed.

Lemma in_bands_snoc bds bd x y :
  in_bands (bds ++ [bd]) x y = in_bands bds x y || in_interval bd.1 y && covers bd.2 x.
Proof. unfold in_bands. rewrite existsb_app. simpl. by rewrite orb_false_r. Qed.

(** Bands that are proper, not empty, and one below the other. *)
Definition bands_ok (bds : list band) : Prop :=
  Forall (fun bd => band_ok bd /\ bd.2 <> []) bds /\ increasing INT32_MIN (map fst bds).

Lemma bands_ok_snoc bds bd :
  bands_ok (bds ++ [bd]) <->
  bands_ok bds /\ band_ok bd /\ bd.2 <> [] /\ end_of INT32_MIN (map fst bds) <= bd.1.1 /\
  bd.1.1 <= bd.1.2 /\ bd.1.1 < max_value /\ bd.1.2 <= max_value.
Proof.
  unfold bands_ok. rewrite Forall_app, Forall_singleton, map_app. simpl. rewrite increasing_snoc. tauto.
Qed.

Definition least (l : list Z) : Z := foldr Z.min INT32_MAX l.
Definition greatest (l : list Z) : Z := foldr Z.max INT32_MIN l.

Lemma least_app l1 l2 : least (l1 ++ l2) = Z.min (least l1) (least l2).
Proof.
  induction l1 as [|z l1 IH]; simpl; [|rewrite IH; lia].
  induction l2 as [|z l2 IH]; simpl; [done|]. unfold least in *. lia.
Qed.
Lemma greatest_app l1 l2 : greatest (l1 ++ l2) = Z.max (greatest l1) (greatest l2).
Proof.
  induction l1 as [|z l1 IH]; simpl; [|rewrite IH; lia].
  induction l2 as [|z l2 IH]; simpl; [done|]. unfold greatest in *. lia.
Qed.

Lemma greatest_one z : greatest [z] = Z.max z INT32_MIN.
Proof. done. Qed.

Lemma least_increasing b h t l : increasing b ((h, t) :: l) -> least (map fst ((h, t) :: l)) = h.
Proof.
  revert b h t; induction l as [|[h' t'] l IH]; intros b h t Hi; simpl in *.
  - unfold max_value in *. lia.
  - rewrite (IH t h' t') by tauto. lia.
Qed.

Lemma greatest_snoc b l i : increasing b (l ++ [i]) -> INT32_MIN <= b -> greatest (map snd (l ++ [i])) = i.2.
Proof.
  rewrite increasing_snoc. intros (Hi & He & Hi2 & _) Hb.
  rewrite map_app, greatest_app. cbn [map]. rewrite greatest_one.
  assert (greatest (map snd l) <= Z.max INT32_MIN (end_of b l)) as Hg.
  { clear He Hi2 i. revert b Hi Hb. induction l as [|[h t] l IH] using rev_ind; intros b Hi Hb.
    - apply Z.le_max_l.
    - apply increasing_snoc in Hi as (Hi & He & Hi2 & _). cbn [fst snd] in *.
      rewrite end_of_snoc, map_app, greatest_app. cbn [map snd]. rewrite greatest_one. specialize (IH b Hi Hb).
      apply Z.max_lub; [|lia]. etransitivity; [exact IH|]. lia. }
  assert (b <= end_of b l) as He'.
  { clear -Hi. induction l as [|[h t] l IH] using rev_ind; [done|].
    apply increasing_snoc in Hi as (Hi & He & Hi2 & _). rewrite end_of_snoc. simpl in *.
    specialize (IH Hi). lia. }
  lia.
Qed.

(** [storage] holds the rectangles of the closed bands [bds]; [head] and [tail]
    delimit the last of them. *)
Record rast_ok (bds : list band) (s : rasterizer.t) : Prop := {
  ro_storage : rasterizer.storage s = bands_rects bds;
  ro_bands : bands_ok bds;
  ro_tail : rasterizer.tail s = length (rasterizer.storage s);
  ro_head : rasterizer.head s = length (bands_rects (removelast bds));
  ro_left : Rect.left (rasterizer.bounds s) = least (map Rect.left (rasterizer.storage s));
  ro_right : Rect.right (rasterizer.bounds s) = greatest (map Rect.right (rasterizer.storage s));
  ro_top : Rect.top (rasterizer.bounds s) = 0;
  ro_bottom : Rect.bottom (rasterizer.bounds s) = 0 }.

Lemma rasterizer_new_ok : rast_ok [] rasterizer.new.
Proof. constructor; done. Qed.

Lemma map_left_strip t b xs : map Rect.left (strip t b xs) = map fst xs.
Proof. unfold strip. rewrite map_map. done. Qed.
Lemma map_right_strip t b xs : map Rect.right (strip t b xs) = map snd xs.
Proof. unfold strip. rewrite map_map. done. Qed.

Lemma front_strip t b x xs : rasterizer.front (strip t b (x :: xs)) = Rect.mk x.1 t x.2 b.
Proof. done. Qed.
Lemma back_strip t b xs x : rasterizer.back (strip t b (xs ++ [x])) = Rect.mk x.1 t x.2 b.
Proof. unfold rasterizer.back. rewrite strip_app. apply List.last_last. Qed.

Lemma same_columns_strip t b t' b' xs ys :
  length xs = length ys -> rasterizer.same_columns (strip t b xs) (strip t' b' ys) = true -> xs = ys.
Proof.
  revert ys; induction xs as [|[h e] xs IH]; intros [|[h' e'] ys] Hlen; simpl in *; try done.
  case_match; [done|]. bool_to_prop. intros. by rewrite (IH ys); simplify_eq/=.
Qed.

Lemma set_bottom_strip t b b' xs : map (rasterizer.set_bottom b') (strip t b xs) = strip t b' xs.
Proof. unfold strip. rewrite map_map. done. Qed.

(** The last span of the storage is the last band. *)
Lemma last_span_band bds bd s :
  rast_ok (bds ++ [bd]) s ->
  rasterizer.storage s = bands_rects bds ++ band_rects bd /\
  rasterizer.head s = length (bands_rects bds) /\
  (rasterizer.tail s - rasterizer.head s)%nat = length bd.2 /\
  take (rasterizer.tail s - rasterizer.head s) (drop (rasterizer.head s) (rasterizer.storage s)) = band_rects bd.
Proof.
  intros H. pose proof (ro_storage _ _ H) as Hs. rewrite bands_rects_snoc in Hs.
  pose proof (ro_head _ _ H) as Hh. rewrite removelast_last in Hh.
  assert ((rasterizer.tail s - rasterizer.head s)%nat = length bd.2) as Hn.
  { rewrite (ro_tail _ _ H), Hh, Hs, length_app. unfold band_rects. rewrite length_strip. lia. }
  split; [done|]. split; [done|]. split; [done|].
  rewrite Hn, Hh, Hs, drop_app_length. apply take_ge. unfold band_rects. rewrite length_strip. lia.
Qed.

Lemma in_interval_join a b c y : a <= b -> b <= c -> in_interval (a, c) y = in_interval (a, b) y || in_interval (b, c) y.
Proof. intros. unfold in_interval; simpl. interval_cases; done || lia. Qed.

(** Flushing the span into the storage closes its band, which may extend the band
    above it. *)
Lemma flush_merge bds bd s t b ys :
  rast_ok (bds ++ [bd]) s -> rasterizer.span s = strip t b ys -> ys <> [] ->
  bands_ok (bds ++ [bd] ++ [((t, b), ys)]) ->
  bd.1.2 = t -> bd.2 = ys -> rast_ok (bds ++ [((bd.1.1, b), ys)]) (rasterizer.flushSpan s).
Proof.
  intros Hs Hspan Hne Hok Ht Hys. destruct (last_span_band _ _ _ Hs) as (Hst & Hh & Hn & Hlast).
  assert (Hsame : rasterizer.same_columns (strip t b ys) (band_rects bd) = true).
  { unfold band_rects. rewrite Hys. generalize ys. induction ys0 as [|[h e] l IH]; [done|]. simpl. by rewrite !Z.eqb_refl. }
  rewrite app_assoc, bands_ok_snoc, bands_ok_snoc in Hok. destruct Hok as ((Hb & Hbd & Hbn & He & ? & ? & ?) & Hyok & _ & _ & ? & ? & ?).
  destruct ys as [|y ys]; [done|].
  unfold rasterizer.flushSpan. rewrite Hlast, Hspan, Hn, Hys, length_strip, Nat.eqb_refl.
  rewrite Hsame, front_strip. unfold band_rects at 1. rewrite Hys, front_strip. simpl Rect.top. simpl Rect.bottom.
  rewrite Ht, Z.eqb_refl.
  destruct Hs as [_ _ Hta Hhe Hle Hri Hto Hbo].
  assert (Hnew : take (rasterizer.head s) (rasterizer.storage s) ++ map (rasterizer.set_bottom b) (band_rects bd)
     ++ drop (rasterizer.tail s) (rasterizer.storage s) = bands_rects (bds ++ [((bd.1.1, b), y :: ys)])).
  { rewrite Hh, Hst, take_app_length, drop_ge, app_nil_r by (rewrite Hta, Hst; lia).
    rewrite bands_rects_snoc. f_equal. unfold band_rects; simpl. rewrite Hys. apply set_bottom_strip. }
  constructor; simpl rasterizer.storage; rewrite ?Hnew.
  - done.
  - apply bands_ok_snoc. destruct Hyok as (? & ? & ?), Hbd as (? & _ & _). unfold band_ok. simpl in *. split_and!; done || lia.
  - simpl. rewrite Hta, Hst, bands_rects_snoc, !length_app. unfold band_rects; simpl. by rewrite !length_strip, Hys.
  - simpl. by rewrite removelast_last.
  - simpl. rewrite Hle, Hst, bands_rects_snoc, !map_app. unfold band_rects. by rewrite !map_left_strip, Hys.
  - simpl. rewrite Hri, Hst, bands_rects_snoc, !map_app. unfold band_rects. by rewrite !map_right_strip, Hys.
  - done.
  - done.
Qed.

Lemma flush_append bds s t b ys bnd :
  rast_ok bds s -> bands_ok (bds ++ [((t, b), ys)]) ->
  bnd = Rect.mk (Rect.min (Rect.left (rasterizer.front (strip t b ys))) (Rect.left (rasterizer.bounds s)))
          (Rect.top (rasterizer.bounds s))
          (Rect.max (Rect.right (rasterizer.back (strip t b ys))) (Rect.right (rasterizer.bounds s)))
          (Rect.bottom (rasterizer.bounds s)) ->
  let st := rasterizer.storage s ++ strip t b ys in
  rast_ok (bds ++ [((t, b), ys)])
    (rasterizer.mk bnd st (length st - length (strip t b ys)) (length st) []).
Proof.
  intros [Hst _ Hta Hhe Hle Hri Hto Hbo] Hok ->. pose proof (proj1 (bands_ok_snoc _ _) Hok) as (_ & (_ & Hi & _) & Hne & _).
  simpl in Hi, Hne.
  constructor; simpl.
  - by rewrite Hst, bands_rects_snoc.
  - done.
  - done.
  - rewrite removelast_last, Hst, length_app. lia.
  - rewrite Hle, Rect.min_spec, map_app, least_app, map_left_strip.
    destruct ys as [|[h e] ys]; [done|]. rewrite (least_increasing _ _ _ _ Hi). simpl. lia.
  - rewrite Hri, Rect.max_spec, map_app, greatest_app, map_right_strip.
    destruct ys as [|y ys] using rev_ind; [done|]. rewrite back_strip.
    rewrite (greatest_snoc _ _ _ Hi) by lia. simpl. lia.
  - done.
  - done.
Qed.

Lemma in_bands_extend bds bd t b ys x y :
  bands_ok (bds ++ [bd] ++ [((t, b), ys)]) -> bd.1.2 = t -> bd.2 = ys ->
  in_bands (bds ++ [((bd.1.1, b), ys)]) x y = in_bands ((bds ++ [bd]) ++ [((t, b), ys)]) x y.
Proof.
  rewrite app_assoc, bands_ok_snoc, bands_ok_snoc. intros ((_ & [Hb _] & _) & [Hy _] & _) Ht Hys.
  rewrite !in_bands_snoc. destruct bd as [[t0 b0] xs]; simpl in *; subst.
  rewrite (in_interval_join t0 t b) by lia. btauto.
Qed.

Lemma flush_cases bds s t b ys :
  rast_ok bds s -> rasterizer.span s = strip t b ys -> bands_ok (bds ++ [((t, b), ys)]) ->
  rast_ok (bds ++ [((t, b), ys)]) (rasterizer.flushSpan s) \/
  exists bds0 bd, bds = bds0 ++ [bd] /\ bd.1.2 = t /\ bd.2 = ys /\
    rast_ok (bds0 ++ [((bd.1.1, b), ys)]) (rasterizer.flushSpan s).
Proof.
  intros Hs Hspan Hok.
  assert (ys <> []) as Hne by apply (proj1 (bands_ok_snoc _ _) Hok).
  destruct bds as [|bd bds _] using rev_ind.
  - left. unfold rasterizer.flushSpan. rewrite (ro_tail _ _ Hs), (ro_storage _ _ Hs), Hspan.
    destruct ys as [|y ys]; [done|]. simpl.
    pose proof (flush_append [] s t b (y :: ys) _ Hs Hok eq_refl) as H. rewrite (ro_storage _ _ Hs) in H. exact H.
  - destruct (last_span_band _ _ _ Hs) as (Hst & Hh & Hn & Hlast).
    destruct (decide (bd.1.2 = t /\ bd.2 = ys)) as [[Ht Hys]|Hdiff].
    + right. exists bds, bd. split_and!; try done. rewrite <- app_assoc in Hok. by eapply flush_merge.
    + left. unfold rasterizer.flushSpan. rewrite Hlast, Hspan, Hn, length_strip in *.
      assert ((if (length bd.2 =? length ys)%nat then
         if Rect.top (rasterizer.front (strip t b ys)) =? Rect.bottom (rasterizer.front (band_rects bd)) then
           rasterizer.same_columns (strip t b ys) (band_rects bd) else false else false) = false) as ->.
      { destruct (Nat.eqb_spec (length bd.2) (length ys)) as [Hl|]; [|done].
        destruct (Z.eqb_spec (Rect.top (rasterizer.front (strip t b ys))) (Rect.bottom (rasterizer.front (band_rects bd)))) as [Hf|]; [|done].
        apply not_true_is_false. intros Hsame. apply Hdiff. unfold band_rects in *.
        apply same_columns_strip in Hsame; [|done]. split; [|done]. subst ys.
        destruct bd.2 as [|i l]; done. }
      pose proof (flush_append _ s t b ys _ Hs Hok eq_refl) as H. rewrite length_strip in H. exact H.
Qed.

Lemma flush_ok bds s t b ys :
  rast_ok bds s -> rasterizer.span s = strip t b ys -> bands_ok (bds ++ [((t, b), ys)]) ->
  exists bds', rast_ok bds' (rasterizer.flushSpan s) /\ rasterizer.span (rasterizer.flushSpan s) = [] /\
    (forall x y, in_bands bds' x y = in_bands (bds ++ [((t, b), ys)]) x y) /\
    end_of INT32_MIN (map fst bds') = b /\ bds' <> [].
Proof.
  intros Hs Hspan Hok.
  assert (rasterizer.span (rasterizer.flushSpan s) = []) as Hnil by (unfold rasterizer.flushSpan; by case_match).
  destruct (flush_cases _ _ _ _ _ Hs Hspan Hok) as [H | (bds0 & bd & -> & Ht & Hys & H)];
    eexists; (split; [exact H|]; split; [done|]; split;
      [|split; [by rewrite map_app; apply end_of_snoc|by apply not_eq_sym, app_cons_not_nil]]).
  - done.
  - intros x y. apply in_bands_extend; [|done|done]. by rewrite app_assoc.
Qed.

(** ** Feeding the rasterizer *)

(** Closed bands [bds] and possibly the band of the current span. *)
Record feeding (bds cur : list band) (s : rasterizer.t) : Prop := {
  fd_ok : rast_ok bds s;
  fd_span : rasterizer.span s = bands_rects cur;
  fd_one : cur = [] \/ exists bd, cur = [bd];
  fd_bands : bands_ok (bds ++ cur) }.

Lemma band_ok_one t b h e :
  t < b -> INT32_MIN <= h -> h < e -> h < max_value -> e <= max_value -> band_ok ((t, b), [(h, e)]).
Proof. intros. split; [done|]. split; [simpl; lia|]. constructor; [simpl; lia|constructor]. Qed.

(** A rectangle that starts a new band. *)
Lemma feed_new bds cur s t b h e :
  feeding bds cur s -> band_ok ((t, b), [(h, e)]) ->
  end_of INT32_MIN (map fst (bds ++ cur)) <= t -> t < max_value -> b <= max_value ->
  exists bds', feeding bds' [((t, b), [(h, e)])] (rasterize s (Rect.mk h t e b)) /\
    forall x y, in_bands bds' x y = in_bands (bds ++ cur) x y.
Proof.
  intros [Hok Hspan Hone Hb] Hbd He Ht Hmax.
  assert (Hfin : forall bds0 s0, rast_ok bds0 s0 -> rasterizer.span s0 = [] ->
    end_of INT32_MIN (map fst bds0) <= t ->
    feeding bds0 [((t, b), [(h, e)])] (rasterizer.push s0 (Rect.mk h t e b))).
  { intros bds0 s0 [] Hsp He0. constructor; [constructor; done| | |].
    - simpl. by rewrite Hsp.
    - right. eauto.
    - apply bands_ok_snoc. destruct Hbd as (? & ? & ?). simpl in *. unfold band_ok. split_and!; simpl; done || lia. }
  destruct Hone as [-> | [bd ->]].
  - rewrite app_nil_r in *. exists bds. split; [|done]. unfold rasterize, rasterizer.step. rewrite Hspan. by apply Hfin.
  - destruct bd as [[t0 b0] ys].
    destruct (flush_ok bds s t0 b0 ys Hok) as (bds' & Hok' & Hsp' & Hpix & Hend & _); [|done|].
    { rewrite Hspan. unfold bands_rects, band_rects; simpl. by rewrite app_nil_r. }
    exists bds'. split; [|done]. rewrite map_app in He. cbn [map fst] in He. rewrite end_of_snoc in He. simpl in He.
    pose proof (proj1 (bands_ok_snoc _ _) Hb) as (_ & (Hlt & _) & Hne & _). simpl in *.
    assert (rasterize s (Rect.mk h t e b) = rasterizer.push (rasterizer.flushSpan s) (Rect.mk h t e b)) as ->.
    { unfold rasterize, rasterizer.step. rewrite Hspan. unfold bands_rects, band_rects; simpl. rewrite app_nil_r.
      destruct ys as [|y ys _] using rev_ind; [done|]. rewrite back_strip, strip_app. simpl Rect.top.
      destruct (strip t0 b0 ys); simpl; destruct (Z.eqb_spec t0 t); simpl; done || lia. }
    apply Hfin; [done|done|lia].
Qed.

Lemma covers_snoc l i x : covers (l ++ [i]) x = covers l x || in_interval i x.
Proof. rewrite covers_app. simpl. by rewrite orb_false_r. Qed.

(** A rectangle that continues the current span; it is appended to it, or joined to
    its last rectangle when they touch. *)
Lemma feed_more bds s t b ys h e :
  feeding bds [((t, b), ys)] s -> end_of INT32_MIN ys <= h -> h < e -> h < max_value -> e <= max_value ->
  exists ys', feeding bds [((t, b), ys')] (rasterize s (Rect.mk h t e b)) /\
    end_of INT32_MIN ys' = e /\ forall x, covers ys' x = covers ys x || in_interval (h, e) x.
Proof.
  intros [Hok Hspan Hone Hb] Hh He Hhm Hem.
  pose proof (proj1 (bands_ok_snoc _ _) Hb) as (Hbds & (Hlt & Hi & Hp) & Hne & Hrest). simpl in *.
  assert (Hfin : forall ys', rasterize s (Rect.mk h t e b) =
     rasterizer.mk (rasterizer.bounds s) (rasterizer.storage s) (rasterizer.head s) (rasterizer.tail s) (strip t b ys') ->
     increasing INT32_MIN ys' -> proper ys' -> ys' <> [] -> feeding bds [((t, b), ys')] (rasterize s (Rect.mk h t e b))).
  { intros ys' -> Hi' Hp' Hn'. constructor; [by destruct Hok; constructor| | |].
    - simpl. unfold bands_rects, band_rects; simpl. by rewrite app_nil_r.
    - right; eauto.
    - apply bands_ok_snoc. unfold band_ok. simpl. tauto. }
  destruct ys as [|[h0 e0] ys _] using rev_ind; [done|]. rewrite end_of_snoc in Hh. simpl in Hh.
  pose proof (proj1 (increasing_snoc _ _ _) Hi) as (Hi0 & He0 & ? & ? & ?). simpl in *.
  apply Forall_app in Hp as [Hp Hp0]. pose proof (proj1 (Forall_singleton _ _) Hp0) as Hp1. simpl in Hp1.
  unfold bands_rects, band_rects in Hspan; simpl in Hspan. rewrite app_nil_r in Hspan.
  assert (Hstep : rasterize s (Rect.mk h t e b) =
     rasterizer.mk (rasterizer.bounds s) (rasterizer.storage s) (rasterizer.head s) (rasterizer.tail s)
       (strip t b (if e0 =? h then ys ++ [(h0, e)] else (ys ++ [(h0, e0)]) ++ [(h, e)]))).
  { unfold rasterize, rasterizer.step. rewrite Hspan.
    destruct (strip t b (ys ++ [(h0, e0)])) eqn:Es; [by destruct ys|]. rewrite <- Es, back_strip.
    simpl Rect.top. simpl Rect.right. simpl Rect.left. rewrite Z.eqb_refl. simpl negb.
    destruct (Z.eqb_spec e0 h).
    - rewrite !strip_app, !strip_one, removelast_last. done.
    - unfold rasterizer.push. rewrite Hspan. by rewrite (strip_app _ _ _ [(h, e)]), Es. }
  destruct (Z.eqb_spec e0 h) as [<-|Hneq].
  - exists (ys ++ [(h0, e)]). split; [apply Hfin; [done| | |by destruct ys]|split; [apply end_of_snoc|]].
    + apply increasing_snoc. simpl. split_and!; done || lia.
    + apply Forall_app; split; [done|]. constructor; [simpl; lia|constructor].
    + intros x. rewrite !covers_snoc, (in_interval_join h0 e0 e) by lia. btauto.
  - exists ((ys ++ [(h0, e0)]) ++ [(h, e)]). split; [apply Hfin; [done| | |by destruct ys]|split; [apply end_of_snoc|]].
    + apply increasing_snoc. rewrite end_of_snoc. simpl. split_and!; done || lia.
    + apply Forall_app; split; [apply Forall_app; split; [done|]|]; (constructor; [simpl; lia|constructor]).
    + intros x. by rewrite covers_snoc.
Qed.

(** The rest of a band. *)
Lemma feed_row bds s t b ys xs :
  feeding bds [((t, b), ys)] s -> increasing (end_of INT32_MIN ys) xs -> proper xs ->
  exists ys', feeding bds [((t, b), ys')] (foldl rasterize s (strip t b xs)) /\
    forall x, covers ys' x = covers ys x || covers xs x.
Proof.
  revert s ys; induction xs as [|[h e] xs IH]; intros s ys Hf Hi Hp; simpl.
  { exists ys. split; [done|]. intros. by rewrite orb_false_r. }
  simpl in Hi. destruct Hi as (H1 & H2 & H3 & H4 & Hi). apply Forall_cons in Hp as [Hp0 Hp]. simpl in Hp0.
  destruct (feed_more _ _ _ _ _ h e Hf H1 Hp0 H3 H4) as (ys1 & Hf1 & He1 & Hc1).
  rewrite <- He1 in Hi. destruct (IH _ _ Hf1 Hi Hp) as (ys2 & Hf2 & Hc2).
  exists ys2. split; [done|]. intros x. rewrite Hc2, Hc1. btauto.
Qed.

(** A whole band, after bands that end above it. *)
Lemma feed_band bds cur s bd lo :
  feeding bds cur s -> band_ok bd -> end_of INT32_MIN (map fst (bds ++ cur)) <= lo ->
  lo <= bd.1.1 -> bd.1.1 < max_value -> bd.1.2 <= max_value ->
  exists bds' cur', feeding bds' cur' (foldl rasterize s (band_rects bd)) /\
    end_of INT32_MIN (map fst (bds' ++ cur')) <= bd.1.2 /\
    forall x y, in_bands (bds' ++ cur') x y = in_bands (bds ++ cur) x y || in_interval bd.1 y && covers bd.2 x.
Proof.
  destruct bd as [[t b] xs]. simpl. intros Hf (Hlt & Hi & Hp) Hlo Hle Ht Hb. simpl in *.
  destruct xs as [|[h e] xs].
  { exists bds, cur. split; [done|]. split; [lia|]. intros. rewrite andb_false_r, orb_false_r. done. }
  simpl in Hi. destruct Hi as (H1 & H2 & H3 & H4 & Hi). apply Forall_cons in Hp as [Hp0 Hp]. simpl in Hp0.
  destruct (feed_new bds cur s t b h e Hf) as (bds1 & Hf1 & Hc1); try lia.
  { by apply band_ok_one. }
  destruct (feed_row _ _ _ _ _ xs Hf1) as (ys & Hf2 & Hc2); [by simpl|done|].
  exists bds1, [((t, b), ys)]. split; [done|]. split.
  - rewrite map_app. cbn [map fst]. rewrite end_of_snoc. done.
  - intros x y. rewrite in_bands_snoc, Hc1. simpl. rewrite Hc2. simpl. by rewrite orb_false_r.
Qed.

Lemma feed_bands lo bds0 cur0 s bds :
  feeding bds0 cur0 s -> end_of INT32_MIN (map fst (bds0 ++ cur0)) <= lo ->
  Forall band_ok bds -> increasing lo (map fst bds) ->
  exists bds' cur', feeding bds' cur' (foldl rasterize s (concat (map band_rects bds))) /\
    forall x y, in_bands (bds' ++ cur') x y = in_bands (bds0 ++ cur0) x y || in_bands bds x y.
Proof.
  revert lo bds0 cur0 s; induction bds as [|bd bds IH]; intros lo bds0 cur0 s Hf Hlo Hok Hi; simpl.
  { exists bds0, cur0. split; [done|]. intros. by rewrite orb_false_r. }
  apply Forall_cons in Hok as [Hbd Hok]. simpl in Hi. destruct bd.1 as [t b] eqn:E.
  destruct Hi as (H1 & H2 & H3 & H4 & Hi).
  destruct (feed_band bds0 cur0 s bd lo Hf Hbd Hlo) as (bds1 & cur1 & Hf1 & He1 & Hc1); rewrite ?E; try done.
  rewrite E in He1. simpl in He1.
  destruct (IH b bds1 cur1 _ Hf1 He1 Hok Hi) as (bds2 & cur2 & Hf2 & Hc2).
  exists bds2, cur2. rewrite foldl_app. split; [done|]. intros. rewrite Hc2, Hc1, E. btauto.
Qed.

(** The bounding box of rectangles in span order. *)
Definition bbox (rs : list rect) : rect :=
  Rect.mk (least (map Rect.left rs)) (Rect.top (rasterizer.front rs))
          (greatest (map Rect.right rs)) (Rect.bottom (rasterizer.back rs)).

(** The vector that represents the bands. *)
Definition bands_storage (bds : list band) : list rect :=
  match bands_rects bds with
  | [] => [Rect.EMPTY_RECT]
  | [r] => [bbox [r]]
  | rs => rs ++ [bbox rs]
  end.

Lemma finish_closed bds s :
  rast_ok bds s -> rasterizer.span s = [] -> rasterizer.finish s = bands_storage bds.
Proof.
  intros Hs Hsp. unfold rasterizer.finish, bands_storage. rewrite Hsp.
  rewrite <- (ro_storage _ _ Hs).
  pose proof (ro_left _ _ Hs) as Hl. pose proof (ro_right _ _ Hs) as Hr.
  pose proof (ro_top _ _ Hs) as Ht. pose proof (ro_bottom _ _ Hs) as Hb.
  destruct (rasterizer.storage s) as [|r [|r' rs]]; simpl in *; rewrite ?Hl, ?Hr, ?Ht, ?Hb; done.
Qed.

Lemma finish_ok bds cur s :
  feeding bds cur s ->
  exists bds', bands_ok bds' /\ rasterizer.finish s = bands_storage bds' /\
    forall x y, in_bands bds' x y = in_bands (bds ++ cur) x y.
Proof.
  intros [Hok Hspan Hone Hb]. destruct Hone as [-> | [bd ->]].
  - rewrite app_nil_r. exists bds. split; [apply Hok|]. split; [by apply finish_closed|done].
  - destruct bd as [[t b] ys].
    destruct (flush_ok bds s t b ys Hok) as (bds' & Hok' & Hsp' & Hpix & _ & _); [|done|].
    { rewrite Hspan. unfold bands_rects, band_rects; simpl. by rewrite app_nil_r. }
    exists bds'. split; [apply Hok'|]. split; [|done].
    rewrite <- (finish_closed _ _ Hok' Hsp'). unfold rasterizer.finish. rewrite Hsp', Hspan.
    unfold bands_rects, band_rects; simpl. rewrite app_nil_r.
    pose proof (proj1 (bands_ok_snoc _ _) Hb) as (_ & _ & Hne & _). simpl in Hne. by destruct ys.
Qed.

(** The whole life of a rasterizer: fed with the rectangles of bands, it leaves a
    vector for the same pixels. *)
Lemma raster_spec bds :
  Forall band_ok bds -> increasing INT32_MIN (map fst bds) ->
  exists bds', bands_ok bds' /\
    rasterizer.finish (foldl rasterize rasterizer.new (concat (map band_rects bds))) = bands_storage bds' /\
    forall x y, in_bands bds' x y = in_bands bds x y.
Proof.
  intros Hok Hi.
  assert (feeding [] [] rasterizer.new) as Hf.
  { constructor; [apply rasterizer_new_ok|done|by left|split; [constructor|done]]. }
  destruct (feed_bands INT32_MIN [] [] _ bds Hf) as (bds1 & cur1 & Hf1 & Hc1); [done|done|done|].
  destruct (finish_ok _ _ _ Hf1) as (bds' & Hb & Hfin & Hpix).
  exists bds'. split; [done|]. split; [done|]. intros. by rewrite Hpix, Hc1.
Qed.

End Raster.

(** ** Well-formed regions *)

Definition untranslated : region := mkRegion [] 0 0.

(** A rectangle with ordered [int32_t] coordinates that starts below [max_value]. *)
Definition rect_wf (r : rect) : Prop :=
  Rect.in_range r /\ Rect.left r <= Rect.right r /\ Rect.top r <= Rect.bottom r /\
  Rect.left r < max_value /\ Rect.top r < max_value.

(** [b] comes after [a] in span order. *)
Definition after (a b : rect) : Prop :=
  Rect.top b = Rect.top a /\ Rect.bottom b = Rect.bottom a /\ Rect.right a <= Rect.left b \/
  Rect.top a < Rect.top b /\ Rect.bottom a <= Rect.top b.

Fixpoint ordered (rs : list rect) : Prop :=
  match rs with
  | a :: ((b :: _) as rs') => after a b /\ ordered rs'
  | _ => True
  end.

(** The invariant of [Region::mStorage]. *)
Record region_wf (R : Region.t) : Prop := {
  rw_nonempty : Region.getArray R <> [];
  rw_rects : Forall rect_wf (Region.getArray R);
  rw_order : ordered (Region.getArray R);
  rw_bounds : Region.getBounds R = bbox (Region.getArray R);
  rw_size : length (Region.mStorage R) <> 2%nat }.

(** Moving the region by [(dx, dy)] keeps its coordinates in [int32_t]. *)
Definition translatable (dx dy : Z) (R : Region.t) : Prop :=
  Forall (fun r => rect_wf (Rect.mk (Rect.left r + dx) (Rect.top r + dy) (Rect.right r + dx) (Rect.bottom r + dy)))
    (Region.getArray R).

Lemma contains_loop_existsb rs x y : Region.contains_loop rs x y = existsb (fun r => Rect.contains r x y) rs.
Proof.
  induction rs as [|r rs IH]; [done|]. simpl. rewrite IH. unfold Rect.contains at 2.
  by destruct (_ && _).
Qed.

Section Cursor.

Context (R : Region.t) (dx dy : Z) (Hwf : region_wf R) (Htr : translatable dx dy R).

Let g := mkRegion (Region.getArray R) dx dy.

Lemma translated_id r : r ∈ Region.getArray R ->
  tleft g r = Rect.left r + dx /\ tright g r = Rect.right r + dx /\
  ttop g r = Rect.top r + dy /\ tbottom g r = Rect.bottom r + dy.
Proof.
  intros Hin. pose proof (proj1 (Forall_forall _ _) Htr r Hin) as ((H1 & H2 & H3 & H4) & _).
  unfold tleft, tright, ttop, tbottom; simpl in *. by rewrite !int32_id.
Qed.

Lemma cursor_order rs : rs ⊆ Region.getArray R -> ordered rs -> span_order g rs.
Proof.
  induction rs as [|a [|b rs] IH]; intros Hsub Hord; [done|done|].
  destruct Hord as [Hab Hord]. split; [|apply IH; [set_solver|done]].
  destruct (translated_id a) as (Ha1 & Ha2 & Ha3 & Ha4); [set_solver|].
  destruct (translated_id b) as (Hb1 & Hb2 & Hb3 & Hb4); [set_solver|].
  unfold follows. rewrite Ha2, Hb1, Ha4, Hb3. destruct Hab as [(? & ? & ?)|(? & ?)]; [left|right]; lia.
Qed.

(** A cursor over a well-formed region holds rows, and they are its pixels. *)
Lemma cursor_rows :
  exists ws, rects g = rows_rects ws /\ rows_ok g ws /\ ws <> [] /\
    forall x y, in_rows g ws x y = Region.contains R (x - dx) (y - dy).
Proof.
  destruct (span_order_rows g (Region.getArray R)) as (ws & Hws & Hok & Hne & Hpix).
  - apply Forall_forall. intros r Hin. destruct (translated_id r Hin) as (H1 & H2 & H3 & H4).
    pose proof (proj1 (Forall_forall _ _) Htr r Hin) as (_ & ? & ? & ? & ?). simpl in *.
    unfold rect_ok. rewrite H1, H2, H3, H4. done.
  - by apply cursor_order, rw_order.
  - exists ws. split; [done|]. split; [done|]. split; [by apply Hne, rw_nonempty|].
    intros x y. rewrite Hpix. unfold Region.contains. rewrite contains_loop_existsb.
    assert (forall rs, rs ⊆ Region.getArray R ->
      existsb (fun r => tcontains g r x y) rs = existsb (fun r => Rect.contains r (x - dx) (y - dy)) rs) as Heq;
      [|by apply Heq].
    induction rs as [|r rs IH]; intros Hsub; [done|]. cbn [existsb]. rewrite IH by set_solver. f_equal.
    destruct (translated_id r) as (H1 & H2 & H3 & H4); [set_solver|].
    apply eq_true_iff_eq. rewrite Rect.containsP. unfold tcontains, y_interval, x_interval.
    rewrite H1, H2, H3, H4, andb_true_iff, !in_intervalP. simpl. lia.
Qed.

End Cursor.

Section Bands.

Lemma ordered_app l1 l2 :
  ordered l1 -> ordered l2 -> (forall a b, a ∈ l1 -> b ∈ l2 -> after a b) -> ordered (l1 ++ l2).
Proof.
  induction l1 as [|a [|a' l1] IH]; intros H1 H2 Hab; [done| |].
  - destruct l2 as [|b l2]; [done|]. split; [apply Hab; set_solver|done].
  - destruct H1 as [Ha H1]. split; [done|]. apply IH; [done|done|set_solver].
Qed.

Lemma increasing_elem b l i :
  increasing b l -> i ∈ l -> b <= i.1 /\ i.1 <= i.2 /\ i.1 < max_value /\ i.2 <= max_value.
Proof.
  revert b; induction l as [|[h e] l IH]; intros b Hi Hin; [set_solver|].
  simpl in Hi. destruct Hi as (? & ? & ? & ? & Hi). apply elem_of_cons in Hin as [->|Hin]; [simpl; lia|].
  specialize (IH _ Hi Hin). lia.
Qed.

Lemma ordered_strip t b lo xs : increasing lo xs -> ordered (strip t b xs).
Proof.
  revert lo; induction xs as [|[h e] [|[h' e'] xs] IH]; intros lo Hi; [done|done|].
  simpl in Hi. split; [left; simpl; lia|]. apply (IH e). simpl. tauto.
Qed.

Lemma elem_of_strip t b xs r : r ∈ strip t b xs <-> exists i, i ∈ xs /\ r = Rect.mk i.1 t i.2 b.
Proof. apply elem_of_map. Qed.

Lemma elem_of_bands_rects bds r :
  r ∈ bands_rects bds <-> exists bd, bd ∈ bds /\ r ∈ band_rects bd.
Proof. unfold bands_rects. rewrite elem_of_concat. split.
  - intros (l & (bd & Hbd & ->)%elem_of_map & Hr). eauto.
  - intros (bd & Hbd & Hr). exists (band_rects bd). rewrite elem_of_map. eauto.
Qed.

Lemma bands_elem_wf bds r : bands_ok bds -> r ∈ bands_rects bds -> rect_wf r /\ Rect.left r < Rect.right r /\ Rect.top r < Rect.bottom r.
Proof.
  intros [Hb Hi] Hr. apply elem_of_bands_rects in Hr as (bd & Hbd & Hr).
  apply elem_of_strip in Hr as (i & Hin & ->).
  destruct (proj1 (Forall_forall _ _) Hb bd Hbd) as ((Hlt & Hx & Hp) & _).
  pose proof (increasing_elem _ _ i Hx Hin). pose proof (proj1 (Forall_forall _ _) Hp i Hin) as Hpi. simpl in Hpi.
  assert (bd.1 ∈ map fst bds) as Hfst by (apply elem_of_map; eauto).
  pose proof (increasing_elem _ _ _ Hi Hfst).
  unfold rect_wf, Rect.in_range, in_int32; simpl. unfold max_value in *. lia.
Qed.

Lemma bands_ordered bds : bands_ok bds -> ordered (bands_rects bds).
Proof.
  intros [Hb Hi]. revert Hi. generalize INT32_MIN as lo.
  induction bds as [|bd bds IH]; intros lo Hi; [done|].
  apply Forall_cons in Hb as [[Hbd _] Hb]. simpl in Hi. destruct bd.1 as [t b] eqn:E.
  destruct Hi as (_ & _ & _ & _ & Hi). unfold bands_rects; simpl. fold (bands_rects bds).
  destruct Hbd as (Hlt & Hx & _). apply ordered_app; [by eapply ordered_strip|by eapply IH|].
  intros a c Ha Hc. right. apply elem_of_strip in Ha as (i & _ & ->). simpl.
  apply elem_of_bands_rects in Hc as (bd' & Hbd' & Hc). apply elem_of_strip in Hc as (i' & _ & ->). simpl.
  assert (bd'.1 ∈ map fst bds) as Hfst by (apply elem_of_map; eauto).
  pose proof (increasing_elem _ _ _ Hi Hfst). rewrite E in *. simpl in *. lia.
Qed.

Lemma bands_pixels bds x y : existsb (fun r => Rect.contains r x y) (bands_rects bds) = in_bands bds x y.
Proof.
  induction bds as [|bd bds IH]; [done|]. unfold bands_rects; simpl. rewrite existsb_app. fold (bands_rects bds).
  rewrite IH. f_equal. unfold band_rects, strip.
  induction bd.2 as [|i xs IHx]; simpl; [by rewrite andb_false_r|]. rewrite IHx.
  unfold Rect.contains, in_interval; simpl. btauto.
Qed.

(** The vector built from bands is well-formed and denotes the bands. *)
Lemma bands_storage_wf bds :
  bands_ok bds ->
  region_wf (Region.mk (bands_storage bds)) /\
  forall x y, Region.contains (Region.mk (bands_storage bds)) x y = in_bands bds x y.
Proof.
  intros Hok. pose proof (bands_ordered _ Hok) as Ho.
  assert (Forall rect_wf (bands_rects bds)) as Hw.
  { apply Forall_forall. intros r Hr. by apply (bands_elem_wf _ _ Hok). }
  unfold Region.contains. setoid_rewrite contains_loop_existsb. setoid_rewrite <- bands_pixels.
  unfold bands_storage. destruct (bands_rects bds) as [|r [|r' rs]] eqn:E.
  - split; [constructor; try done|].
    + constructor; [|constructor]. done.
    + intros x y. unfold Region.getArray, Rect.contains; simpl. interval_cases; done || lia.
  - assert (bbox [r] = r) as Hbb.
    { apply Forall_cons in Hw as [((? & ? & ? & ?) & _) _]. unfold in_int32 in *. destruct r as [l t rr b].
      unfold bbox, least, greatest; simpl in *. f_equal; lia. }
    rewrite Hbb. split; [constructor; done|done].
  - assert (Region.getArray (Region.mk ((r :: r' :: rs) ++ [bbox (r :: r' :: rs)])) = r :: r' :: rs) as HA.
    { transitivity (removelast ((r :: r' :: rs) ++ [bbox (r :: r' :: rs)])); [reflexivity|apply removelast_last]. }
    rewrite HA. split; [|done]. constructor; rewrite ?HA; try done.
    + apply (List.last_last (r :: r' :: rs)).
    + simpl. rewrite length_app. simpl. lia.
Qed.

End Bands.
