(* ===== verification/RegionTheorems.v ===== *)
(** * Theorems about regions

    Set semantics of the boolean operations, preservation of the invariant that
    [Region::validate] checks, translation, and the equivalence of [Rect::reduce]
    with the region computation it replaces. *)

From S2P Require Import Prelude Geometry RegionHelper RegionSweep Region RegionCorrect.
Import region_operator.

(** The rectangles of a region that a sweep produced have pixels, unless the
    region is the empty one. *)
Definition tidy (R : Region.t) : Prop :=
  Region.mStorage R = [Rect.EMPTY_RECT] \/
  Forall (fun r => Rect.left r < Rect.right r /\ Rect.top r < Rect.bottom r) (Region.getArray R).

Section Operations.

Lemma bands_storage_tidy bds : bands_ok bds -> tidy (Region.mk (bands_storage bds)).
Proof.
  intros Hok. pose proof (bands_storage_wf _ Hok) as [Hwf _].
  assert (H : Forall (fun r => Rect.left r < Rect.right r /\ Rect.top r < Rect.bottom r) (bands_rects bds)).
  { apply Forall_forall. intros r Hr. by apply (bands_elem_wf _ _ Hok). }
  unfold tidy, bands_storage in *. destruct (bands_rects bds) as [|r [|r' rs]] eqn:E; [by left|right|right].
  - assert (bbox [r] = r) as ->; [|done].
    assert (rect_wf r) as ((? & ? & ? & ?) & _) by (apply (bands_elem_wf bds); [done|rewrite E; set_solver]).
    unfold in_int32 in *. destruct r as [l t rr b]. unfold bbox, least, greatest; simpl in *. f_equal; lia.
  - assert (Region.getArray (Region.mk ((r :: r' :: rs) ++ [bbox (r :: r' :: rs)])) = r :: r' :: rs) as ->; [|done].
    transitivity (removelast ((r :: r' :: rs) ++ [bbox (r :: r' :: rs)])); [reflexivity|apply removelast_last].
Qed.

(** The sweep between two well-formed regions, rasterized. *)
Lemma sweep_regions op lhs rhs dx dy :
  region_wf lhs -> region_wf rhs -> translatable 0 0 lhs -> translatable dx dy rhs ->
  exists R,
    match run op (mkRegion (Region.getArray lhs) 0 0) (mkRegion (Region.getArray rhs) dx dy) rasterizer.new with
    | Some s => Some (Region.mk (rasterizer.finish s))
    | None => None
    end = Some R /\ region_wf R /\ tidy R /\
    forall x y, Region.contains R x y =
      combine_op op (Region.contains lhs x y) (Region.contains rhs (x - dx) (y - dy)).
Proof.
  intros Hl Hr Htl Htr.
  destruct (cursor_rows lhs 0 0 Hl Htl) as (lws & Hlr & Hlok & Hlne & Hlpix).
  destruct (cursor_rows rhs dx dy Hr Htr) as (rws & Hrr & Hrok & _ & Hrpix).
  destruct (run_spec op _ _ lws rws Hlr Hrr Hlok Hrok (or_introl Hlne)) as (bds & Hbds & Hrun).
  destruct (raster_spec bds (sweep_bands _ _ _ _ _ Hbds) (sweep_increasing _ _ _ _ _ Hbds)) as (bds' & Hok & Hfin & Hpix).
  exists (Region.mk (bands_storage bds')). rewrite Hrun, Hfin.
  destruct (bands_storage_wf _ Hok) as [Hwf Hc].
  split; [done|]. split; [done|]. split; [by apply bands_storage_tidy|].
  intros x y. rewrite Hc, Hpix, (sweep_pixels _ _ _ _ _ Hbds), Hlpix, Hrpix. by rewrite !Z.sub_0_r.
Qed.

Lemma translatable_0 R : region_wf R -> translatable 0 0 R.
Proof.
  intros Hwf. eapply Forall_impl; [apply Hwf|]. intros r Hr. simpl. rewrite !Z.add_0_r. by destruct r.
Qed.

Lemma boolean_operation_spec op lhs rhs dx dy :
  region_wf lhs -> region_wf rhs -> translatable dx dy rhs ->
  exists R, Region.boolean_operation op lhs rhs dx dy = Some R /\ region_wf R /\ tidy R /\
    forall x y, Region.contains R x y =
      combine_op op (Region.contains lhs x y) (Region.contains rhs (x - dx) (y - dy)).
Proof. intros. apply sweep_regions; auto using translatable_0. Qed.

Lemma rect_region_wf r : rect_wf r -> region_wf (Region.of_rect r).
Proof.
  intros Hr. constructor; try done; [by constructor|]. destruct Hr as ((? & ? & ? & ?) & _).
  unfold in_int32 in *. destruct r. unfold bbox, least, greatest, Region.getBounds; simpl in *. f_equal; lia.
Qed.

Lemma boolean_operation_rect_spec op dst lhs r :
  region_wf lhs -> rect_wf r -> Rect.isValid r = true ->
  exists R, Region.boolean_operation_rect op dst lhs r 0 0 = Some R /\ region_wf R /\ tidy R /\
    forall x y, Region.contains R x y = combine_op op (Region.contains lhs x y) (Rect.contains r x y).
Proof.
  intros Hl Hr Hv. unfold Region.boolean_operation_rect. rewrite Hv. simpl.
  pose proof (rect_region_wf r Hr) as Hrr.
  destruct (sweep_regions op lhs (Region.of_rect r) 0 0) as (R & HR & Hwf & Ht & Hc); auto using translatable_0.
  exists R. split; [exact HR|]. split; [done|]. split; [done|]. intros x y. rewrite Hc, !Z.sub_0_r. f_equal.
  unfold Region.contains. rewrite contains_loop_existsb. simpl. apply orb_false_r.
Qed.

End Operations.

(** The mask of each operation is the truth table it stands for. *)
Lemma combine_op_table a b :
  combine_op op_or a b = a || b /\ combine_op op_and a b = a && b /\
  combine_op op_xor a b = xorb a b /\ combine_op op_nand a b = a && negb b.
Proof. by destruct a, b. Qed.

(** ** Bounding boxes *)

Section Bounds.

Lemma after_trans a b c : rect_wf b -> after a b -> after b c -> after a c.
Proof. unfold after, rect_wf. intros. lia. Qed.

Lemma ordered_cons_all a rs : Forall rect_wf (a :: rs) -> ordered (a :: rs) -> Forall (after a) rs.
Proof.
  revert a; induction rs as [|b rs IH]; intros a Hw Ho; [constructor|].
  apply Forall_cons in Hw as [Ha Hw]. destruct Ho as [Hab Ho]. constructor; [done|].
  specialize (IH b Hw Ho). apply Forall_cons in Hw as [Hb _].
  eapply Forall_impl; [exact IH|]. intros c. by apply after_trans.
Qed.

Lemma ordered_front_back rs r :
  Forall rect_wf rs -> ordered rs -> r ∈ rs ->
  Rect.top (rasterizer.front rs) <= Rect.top r /\ Rect.bottom r <= Rect.bottom (rasterizer.back rs).
Proof.
  revert r; induction rs as [|a rs IH]; intros r Hw Ho Hr; [set_solver|].
  pose proof (ordered_cons_all _ _ Hw Ho) as Hall. apply Forall_cons in Hw as [Ha Hw].
  assert (ordered rs) as Ho' by (destruct rs; [done|apply Ho]).
  unfold rasterizer.front, rasterizer.back in *. rewrite last_cons. simpl List.hd.
  assert (Hback : forall z, z ∈ rs -> List.last rs a = List.last rs Rect.INVALID_RECT).
  { intros z Hz. destruct rs as [|b rs]; [set_solver|]. by rewrite !last_cons. }
  apply elem_of_cons in Hr as [->|Hr].
  - split; [lia|]. destruct rs as [|b rs]; [simpl; lia|]. rewrite (Hback b) by set_solver.
    destruct (IH b Hw Ho' ltac:(set_solver)) as [_ H].
    apply Forall_cons in Hall as [Hab _], Hw as [Hb _]. unfold after, rect_wf in *. lia.
  - rewrite (Hback r Hr). destruct (IH r Hw Ho' Hr) as [_ H]. split; [|done].
    pose proof (proj1 (Forall_forall _ _) Hall r Hr) as [?|?]; lia.
Qed.

Lemma least_le l z : z ∈ l -> least l <= z.
Proof. induction 1; simpl; lia. Qed.
Lemma greatest_ge l z : z ∈ l -> z <= greatest l.
Proof. induction 1; simpl; lia. Qed.

(** Every pixel of a well-formed region is in its bounds. *)
Lemma bounds_cover R x y :
  region_wf R -> Region.contains R x y = true -> Rect.contains (Region.getBounds R) x y = true.
Proof.
  intros Hwf. unfold Region.contains. rewrite contains_loop_existsb. intros (r & Hr & Hc)%existsb_exists.
  rewrite <- list_elem_of_In in Hr. apply Rect.containsP in Hc. apply Rect.containsP.
  rewrite (rw_bounds _ Hwf). unfold bbox; simpl.
  destruct (ordered_front_back _ r (rw_rects _ Hwf) (rw_order _ Hwf) Hr).
  assert (least (map Rect.left (Region.getArray R)) <= Rect.left r) by (apply least_le, elem_of_map; eauto).
  assert (Rect.right r <= greatest (map Rect.right (Region.getArray R))) by (apply greatest_ge, elem_of_map; eauto).
  lia.
Qed.

Lemma isEmpty_no_pixels R x y :
  region_wf R -> Rect.measurable (Region.getBounds R) -> Region.isEmpty R = true -> Region.contains R x y = false.
Proof.
  intros Hwf Hm He. apply not_true_is_false. intros Hc. apply bounds_cover in Hc; [|done].
  apply Rect.containsP in Hc. apply (Rect.isEmpty_measurable _ Hm) in He. lia.
Qed.

End Bounds.

(** ** Region::validate *)

Section Validate.

Definition has_pixels (r : rect) : Prop := Rect.left r < Rect.right r /\ Rect.top r < Rect.bottom r.

Lemma check_rect_valid r : rect_wf r -> Rect.isValid r = true -> Region.check_rect r true = true.
Proof.
  intros ((_ & _ & [_ Hr] & [_ Hb]) & _) Hv. unfold Region.check_rect. rewrite Hv. simpl.
  unfold max_value. interval_cases; done || lia.
Qed.

Lemma check_order_after a b : has_pixels a -> after a b -> Region.check_order a b true = true.
Proof.
  intros [Hx Hy] Hab. unfold Region.check_order.
  assert (Rect.ltb a b = true) as -> by (apply Rect.ltb_spec; unfold after in Hab; lia).
  simpl. destruct Hab as [(Ht & Hb & Hle) | (Ht & Hle)]; interval_cases; done || lia.
Qed.

Lemma validate_loop_ok prev b rs :
  Forall (fun r => rect_wf r /\ has_pixels r /\ Rect.isValid r = true) (prev :: rs) -> ordered (prev :: rs) ->
  Region.validate_loop prev b true rs = (foldl Region.extend b rs, true).
Proof.
  revert prev b; induction rs as [|c rs IH]; intros prev b Hw Ho; [done|].
  apply Forall_cons in Hw as [(_ & Hp & _) Hw]. destruct Ho as [Hpc Ho].
  pose proof Hw as [(Hc & _ & Hv) _]%Forall_cons. simpl. rewrite check_rect_valid by done.
  rewrite check_order_after by done. by apply IH.
Qed.

Lemma extend_fields b c :
  Region.extend b c = Rect.mk (Z.min (Rect.left b) (Rect.left c)) (Z.min (Rect.top b) (Rect.top c))
    (Z.max (Rect.right b) (Rect.right c)) (Z.max (Rect.bottom b) (Rect.bottom c)).
Proof. unfold Region.extend. f_equal; interval_cases; lia. Qed.

Lemma extend_bbox a rs :
  Forall rect_wf (a :: rs) -> ordered (a :: rs) -> foldl Region.extend a rs = bbox (a :: rs).
Proof.
  intros Hw Ho. pose proof (ordered_cons_all _ _ Hw Ho) as Hall. apply Forall_cons in Hw as [Ha Hw].
  assert (Hgen : forall rs b, Forall rect_wf rs -> ordered rs ->
     Forall (fun r => Rect.top b <= Rect.top r /\ Rect.bottom b <= Rect.bottom r) rs ->
     in_int32 (Rect.left b) -> in_int32 (Rect.right b) ->
     foldl Region.extend b rs = Rect.mk (Z.min (Rect.left b) (least (map Rect.left rs))) (Rect.top b)
       (Z.max (Rect.right b) (greatest (map Rect.right rs))) (Rect.bottom (List.last rs b))).
  { clear. induction rs as [|c rs IH]; intros b Hw Ho Hb Hl Hr.
    - simpl. destruct b; unfold in_int32 in *; simpl in *. f_equal; lia.
    - pose proof (ordered_cons_all _ _ Hw Ho) as Hc. apply Forall_cons in Hw as [((? & ? & ? & ?) & _) Hw].
      apply Forall_cons in Hb as [[Htop Hbot] Hb]. simpl foldl. rewrite IH; rewrite ?extend_fields, ?last_cons; unfold in_int32 in *; simpl; try lia.
      + f_equal; try (unfold least, greatest; simpl; lia).
        destruct rs as [|d rs]; [simpl; lia|]. by rewrite !last_cons.
      + done.
      + by destruct rs; [|apply Ho].
      + apply Forall_forall. intros r Hrin. pose proof (proj1 (Forall_forall _ _) Hc r Hrin) as Haft.
        pose proof (proj1 (Forall_forall _ _) Hw r Hrin) as (_ & _ & ? & _).
        pose proof (proj1 (Forall_forall _ _) Hb r Hrin). simpl in *. unfold after in Haft. lia. }
  destruct Ha as ((? & ? & ? & ?) & ? & ? & ?). rewrite Hgen; [|done| | |done|done].
  - unfold bbox, rasterizer.front, rasterizer.back. rewrite last_cons. simpl. done.
  - by destruct rs; [|apply Ho].
  - apply Forall_forall. intros r Hrin. pose proof (proj1 (Forall_forall _ _) Hall r Hrin) as Haft.
    pose proof (proj1 (Forall_forall _ _) Hw r Hrin) as (_ & _ & ? & _). unfold after in Haft. lia.
Qed.

Lemma region_wf_validate R :
  region_wf R -> tidy R -> Forall (fun r => Rect.isValid r = true) (Region.getArray R) ->
  Region.validate R = true.
Proof.
  intros Hwf Ht Hv. unfold Region.validate.
  destruct (Region.mStorage R) as [|m ms] eqn:Em; [by destruct (rw_nonempty _ Hwf); unfold Region.getArray; rewrite Em|].
  rewrite <- Em. pose proof (rw_bounds _ Hwf) as Hb. pose proof (rw_order _ Hwf) as Ho.
  pose proof (rw_rects _ Hwf) as Hw. pose proof (rw_nonempty _ Hwf) as Hne.
  rewrite (proj2 (Nat.eqb_neq _ _) (rw_size _ Hwf)).
  destruct Ht as [Ht|Ht].
  { unfold Region.getArray, Region.getBounds, Region.isRect in *. rewrite Ht in *. done. }
  destruct (Region.getArray R) as [|a rs]; [done|].
  pose proof Hw as [Ha _]%Forall_cons. pose proof Hv as [Hva _]%Forall_cons.
  rewrite check_rect_valid by done. rewrite validate_loop_ok; [|by apply Forall_and; split; [|apply Forall_and]|done].
  rewrite extend_bbox by done. rewrite Hb. by rewrite (proj2 (Rect.eqbP _ _) eq_refl).
Qed.

End Validate.

(** ** Coordinates of a result *)

Section Coordinates.

(** Coordinates between -2^30 and 2^30 - 1, so that no extent wraps. *)
Definition modest (r : rect) : Prop :=
  -1073741824 <= Rect.left r /\ Rect.right r <= 1073741823 /\
  -1073741824 <= Rect.top r /\ Rect.bottom r <= 1073741823.

Lemma modest_valid r : modest r -> has_pixels r -> Rect.isValid r = true.
Proof.
  intros (? & ? & ? & ?) [? ?].
  assert (Rect.measurable r) as Hm by (unfold Rect.measurable, Rect.in_range, in_int32, INT32_MIN, INT32_MAX; lia).
  apply (Rect.isValid_measurable r Hm). lia.
Qed.

Lemma contains_pixel R x y :
  Region.contains R x y = true <-> exists r, r ∈ Region.getArray R /\ Rect.contains r x y = true.
Proof.
  unfold Region.contains. rewrite contains_loop_existsb, existsb_exists. by setoid_rewrite list_elem_of_In.
Qed.

Lemma combine_op_true op a b : combine_op op a b = true -> a = true \/ b = true.
Proof. destruct a, b; simpl; auto. Qed.

Lemma result_modest op lhs rhs dx dy R :
  Forall modest (Region.getArray lhs) ->
  Forall (fun r => modest (Rect.mk (Rect.left r + dx) (Rect.top r + dy) (Rect.right r + dx) (Rect.bottom r + dy)))
    (Region.getArray rhs) ->
  (forall x y, Region.contains R x y =
      combine_op op (Region.contains lhs x y) (Region.contains rhs (x - dx) (y - dy))) ->
  Forall (fun r => has_pixels r -> modest r) (Region.getArray R).
Proof.
  intros Hl Hr Hc. apply Forall_forall. intros r Hin [Hx Hy].
  assert (Hpix : forall x y, Rect.contains r x y = true ->
    -1073741824 <= x < 1073741823 /\ -1073741824 <= y < 1073741823).
  { intros x y Hp. assert (Region.contains R x y = true) as HR by (apply contains_pixel; eauto).
    rewrite Hc in HR. apply combine_op_true in HR as [(q & Hq & Hqc)%contains_pixel|(q & Hq & Hqc)%contains_pixel].
    - pose proof (proj1 (Forall_forall _ _) Hl q Hq) as (? & ? & ? & ?). apply Rect.containsP in Hqc. lia.
    - pose proof (proj1 (Forall_forall _ _) Hr q Hq) as (? & ? & ? & ?). apply Rect.containsP in Hqc. simpl in *. lia. }
  assert (Rect.contains r (Rect.left r) (Rect.top r) = true) as H1 by (apply Rect.containsP; lia).
  assert (Rect.contains r (Rect.right r - 1) (Rect.bottom r - 1) = true) as H2 by (apply Rect.containsP; lia).
  apply Hpix in H1, H2. unfold modest. lia.
Qed.

(** Each side of the bounds of a tidy region touches one of its pixels. *)
Lemma least_elem l : l <> [] -> Forall (fun z => z <= INT32_MAX) l -> least l ∈ l.
Proof.
  induction l as [|z l IH]; [done|]. intros _ Hl. apply Forall_cons in Hl as [Hz Hl]. simpl.
  destruct l as [|z' l]; [simpl; replace (Z.min z INT32_MAX) with z by lia; set_solver|].
  specialize (IH ltac:(done) Hl). destruct (Z.min_spec z (least (z' :: l))) as [[_ ->]|[_ ->]]; set_solver.
Qed.
Lemma greatest_elem l : l <> [] -> Forall (fun z => INT32_MIN <= z) l -> greatest l ∈ l.
Proof.
  induction l as [|z l IH]; [done|]. intros _ Hl. apply Forall_cons in Hl as [Hz Hl]. simpl.
  destruct l as [|z' l]; [simpl; replace (Z.max z INT32_MIN) with z by lia; set_solver|].
  specialize (IH ltac:(done) Hl). destruct (Z.max_spec z (greatest (z' :: l))) as [[_ ->]|[_ ->]]; set_solver.
Qed.

Record touches (P : Z -> Z -> bool) (B : rect) : Prop := {
  touch_in : forall x y, P x y = true -> Rect.contains B x y = true;
  touch_left : exists y, P (Rect.left B) y = true;
  touch_right : exists y, P (Rect.right B - 1) y = true;
  touch_top : exists x, P x (Rect.top B) = true;
  touch_bottom : exists x, P x (Rect.bottom B - 1) = true }.

(** A set of pixels has one bounding box. *)
Lemma touches_unique P A B : touches P A -> touches P B -> A = B.
Proof.
  assert (forall A B, touches P A -> touches P B ->
    Rect.left A <= Rect.left B /\ Rect.top A <= Rect.top B /\ Rect.right B <= Rect.right A /\ Rect.bottom B <= Rect.bottom A) as H.
  { intros A' B' HA [_ [y1 H1] [y2 H2] [x1 H3] [x2 H4]].
    apply (touch_in _ _ HA), Rect.containsP in H1, H2, H3, H4. lia. }
  intros HA HB. pose proof (H _ _ HA HB). pose proof (H _ _ HB HA). destruct A, B; simpl in *. f_equal; lia.
Qed.

Lemma bounds_touch R :
  region_wf R -> Forall has_pixels (Region.getArray R) -> touches (Region.contains R) (Region.getBounds R).
Proof.
  intros Hwf Hp. pose proof (rw_nonempty _ Hwf) as Hne. pose proof (rw_rects _ Hwf) as Hw.
  assert (Hpix : forall r, r ∈ Region.getArray R -> has_pixels r /\
    forall x y, Rect.left r <= x < Rect.right r -> Rect.top r <= y < Rect.bottom r -> Region.contains R x y = true).
  { intros r Hr. split; [by apply (proj1 (Forall_forall _ _) Hp)|]. intros. apply contains_pixel. exists r.
    split; [done|]. by apply Rect.containsP. }
  constructor.
  - intros x y. by apply bounds_cover.
  - rewrite (rw_bounds _ Hwf). simpl.
    destruct (proj1 (elem_of_map Rect.left (Region.getArray R) (least (map Rect.left (Region.getArray R)))))
      as (r & Hr & ->).
    { apply least_elem; [by destruct (Region.getArray R)|]. apply Forall_map. eapply Forall_impl; [exact Hw|].
      intros r ((? & _) & _). unfold in_int32 in *. simpl. lia. }
    destruct (Hpix r Hr) as [[? ?] H]. exists (Rect.top r). apply H; lia.
  - rewrite (rw_bounds _ Hwf). simpl.
    destruct (proj1 (elem_of_map Rect.right (Region.getArray R) (greatest (map Rect.right (Region.getArray R)))))
      as (r & Hr & ->).
    { apply greatest_elem; [by destruct (Region.getArray R)|]. apply Forall_map. eapply Forall_impl; [exact Hw|].
      intros r ((_ & _ & ? & _) & _). unfold in_int32 in *. simpl. lia. }
    destruct (Hpix r Hr) as [[? ?] H]. exists (Rect.top r). apply H; lia.
  - rewrite (rw_bounds _ Hwf). simpl. destruct (Region.getArray R) as [|r rs]; [done|]. simpl.
    destruct (Hpix r ltac:(set_solver)) as [[? ?] H]. exists (Rect.left r). apply H; lia.
  - rewrite (rw_bounds _ Hwf). simpl. destruct (Region.getArray R) as [|r rs _] using rev_ind; [done|].
    unfold rasterizer.back. rewrite List.last_last.
    destruct (Hpix r ltac:(set_solver)) as [[? ?] H]. exists (Rect.left r). apply H; lia.
Qed.

Definition remains (r e : rect) (x y : Z) : bool := Rect.contains r x y && negb (Rect.contains e x y).

Lemma remainsP r e x y :
  remains r e x y = true <->
  (Rect.left r <= x < Rect.right r /\ Rect.top r <= y < Rect.bottom r) /\
  (x < Rect.left e \/ Rect.right e <= x \/ y < Rect.top e \/ Rect.bottom e <= y).
Proof.
  unfold remains. rewrite andb_true_iff, negb_true_iff, <- not_true_iff_false, !Rect.containsP. lia.
Qed.

(** The values of [reduce], by the sides on which the rectangle sticks out. *)
Lemma reduce_cases r e :
  let a := Rect.left r <? Rect.left e in let b := Rect.top r <? Rect.top e in
  let c := Rect.right e <? Rect.right r in let d := Rect.bottom e <? Rect.bottom r in
  Rect.reduce r e =
  match a, b, c, d with
  | false, false, false, false => Rect.EMPTY_RECT
  | true, false, false, false => Rect.mk (Rect.left r) (Rect.top r) (Z.min (Rect.right r) (Rect.left e)) (Rect.bottom r)
  | false, true, false, false => Rect.mk (Rect.left r) (Rect.top r) (Rect.right r) (Z.min (Rect.bottom r) (Rect.top e))
  | false, false, true, false => Rect.mk (Z.max (Rect.left r) (Rect.right e)) (Rect.top r) (Rect.right r) (Rect.bottom r)
  | false, false, false, true => Rect.mk (Rect.left r) (Z.max (Rect.top r) (Rect.bottom e)) (Rect.right r) (Rect.bottom r)
  | _, _, _, _ => r
  end.
Proof.
  unfold Rect.reduce. rewrite <- Rect.min_spec, <- Rect.max_spec, <- Rect.min_spec, <- Rect.max_spec.
  destruct (Rect.left r <? Rect.left e), (Rect.top r <? Rect.top e),
    (Rect.right e <? Rect.right r), (Rect.bottom e <? Rect.bottom r); reflexivity.
Qed.

(** Finds a remaining pixel on a given line, at one end of it or the other. *)
Ltac find_pixel r :=
  first [ exists (Rect.top r); apply remainsP; simpl; lia
        | exists (Rect.bottom r - 1); apply remainsP; simpl; lia
        | exists (Rect.left r); apply remainsP; simpl; lia
        | exists (Rect.right r - 1); apply remainsP; simpl; lia ].

(** [Rect::reduce] is the bounding box of the pixels that remain. *)
Lemma reduce_touches r e x0 y0 :
  has_pixels r -> Rect.left e <= Rect.right e -> Rect.top e <= Rect.bottom e ->
  remains r e x0 y0 = true -> touches (remains r e) (Rect.reduce r e).
Proof.
  intros [Hx Hy] He1 He2 H0%remainsP. pose proof (reduce_cases r e) as Hc. cbv zeta in Hc.
  repeat match type of Hc with context [?a <? ?b] => destruct (Z.ltb_spec a b) end; rewrite Hc; try lia.
  all: (constructor; simpl; [intros x y Hp%remainsP; apply Rect.containsP; simpl; lia
    | find_pixel r | find_pixel r | find_pixel r | find_pixel r]).
Qed.

End Coordinates.

(** [rect_wf] of a concrete rectangle. *)
Ltac solve_rect_wf :=
  unfold rect_wf, Rect.in_range, in_int32, max_value, INT32_MIN, INT32_MAX; simpl; lia.

(** ** The theorems *)

(** C27: For well-formed regions, [merge], [intersect], [subtract] and
    [mergeExclusive] return a well-formed region whose pixels are the union, the
    intersection, the difference and the symmetric difference of the operands'. *)
Theorem region_set_algebra a b :
  region_wf a -> region_wf b ->
  exists m i s x,
    Region.merge a b = Some m /\ Region.intersect a b = Some i /\
    Region.subtract a b = Some s /\ Region.mergeExclusive a b = Some x /\
    region_wf m /\ region_wf i /\ region_wf s /\ region_wf x /\
    forall px py,
      Region.contains m px py = Region.contains a px py || Region.contains b px py /\
      Region.contains i px py = Region.contains a px py && Region.contains b px py /\
      Region.contains s px py = Region.contains a px py && negb (Region.contains b px py) /\
      Region.contains x px py = xorb (Region.contains a px py) (Region.contains b px py).
Proof.
  intros Ha Hb. pose proof (translatable_0 b Hb) as Ht.
  destruct (boolean_operation_spec op_or a b 0 0 Ha Hb Ht) as (m & Hm & Hmw & _ & Hmp).
  destruct (boolean_operation_spec op_and a b 0 0 Ha Hb Ht) as (i & Hi & Hiw & _ & Hip).
  destruct (boolean_operation_spec op_nand a b 0 0 Ha Hb Ht) as (s & Hs & Hsw & _ & Hsp).
  destruct (boolean_operation_spec op_xor a b 0 0 Ha Hb Ht) as (x & Hx & Hxw & _ & Hxp).
  exists m, i, s, x. split_and!; try done. intros px py.
  rewrite Hmp, Hip, Hsp, Hxp, !Z.sub_0_r.
  destruct (combine_op_table (Region.contains a px py) (Region.contains b px py)) as (-> & -> & -> & ->). done.
Qed.

Lemma region_set_algebra_witness :
  let a := Region.of_rect (Rect.mk 0 0 10 10) in let b := Region.of_rect (Rect.mk 5 5 20 20) in
  region_wf a /\ region_wf b /\ exists m, Region.merge a b = Some m /\ Region.contains m 15 15 = true.
Proof.
  intros a b.
  assert (region_wf a) as Ha by (apply rect_region_wf; solve_rect_wf).
  assert (region_wf b) as Hb by (apply rect_region_wf; solve_rect_wf).
  split; [exact Ha|]. split; [exact Hb|].
  destruct (region_set_algebra a b Ha Hb) as (m & i & s & x & Hm & _ & _ & _ & _ & _ & _ & _ & Hp).
  exists m. split; [exact Hm|]. rewrite (proj1 (Hp 15 15)). reflexivity.
Defined.

(** The sweep with an offset and any operator mask ends, and combines the
    pixels of the left operand with those of the translated right operand by the
    truth table of the mask. *)
Theorem boolean_operation_pixels op lhs rhs dx dy :
  region_wf lhs -> region_wf rhs -> translatable dx dy rhs ->
  exists R, Region.boolean_operation op lhs rhs dx dy = Some R /\
    forall x y, Region.contains R x y =
      combine_op op (Region.contains lhs x y) (Region.contains rhs (x - dx) (y - dy)).
Proof.
  intros Hl Hr Ht. destruct (boolean_operation_spec op lhs rhs dx dy Hl Hr Ht) as (R & HR & _ & _ & Hp). eauto.
Qed.

Lemma boolean_operation_pixels_witness :
  let a := Region.of_rect (Rect.mk 0 0 10 10) in
  region_wf a /\ translatable 5 5 a /\
  exists R, Region.boolean_operation op_xor a a 5 5 = Some R /\ Region.contains R 7 7 = false.
Proof.
  intros a.
  assert (region_wf a) as Ha by (apply rect_region_wf; solve_rect_wf).
  assert (translatable 5 5 a) as Ht by
    (constructor; [solve_rect_wf|constructor]).
  split; [exact Ha|]. split; [exact Ht|].
  destruct (boolean_operation_pixels op_xor a a 5 5 Ha Ha Ht) as (R & HR & Hp).
  exists R. split; [exact HR|]. rewrite Hp. reflexivity.
Defined.

(** When the coordinates are small enough for extents not to wrap, the result
    of any boolean operation passes [Region::validate]: its rectangles are valid,
    sorted, disjoint in spans, and the stored bounds are exact. *)
Theorem boolean_operation_validates op lhs rhs :
  region_wf lhs -> region_wf rhs ->
  Forall modest (Region.getArray lhs) -> Forall modest (Region.getArray rhs) ->
  exists R, Region.boolean_operation op lhs rhs 0 0 = Some R /\ Region.validate R = true.
Proof.
  intros Hl Hr Hml Hmr.
  destruct (boolean_operation_spec op lhs rhs 0 0 Hl Hr (translatable_0 _ Hr)) as (R & HR & Hwf & Ht & Hp).
  exists R. split; [exact HR|]. apply region_wf_validate; [done|done|].
  assert (Forall (fun r => has_pixels r -> modest r) (Region.getArray R)) as Hm.
  { apply (result_modest op lhs rhs 0 0); [done| |done]. eapply Forall_impl; [exact Hmr|].
    intros r Hr'. unfold modest in *. simpl. lia. }
  destruct Ht as [Ht|Ht].
  - unfold Region.getArray, Region.isRect. rewrite Ht. repeat constructor.
  - apply Forall_forall. intros r Hin. apply modest_valid; [|by apply (proj1 (Forall_forall _ _) Ht)].
    apply (proj1 (Forall_forall _ _) Hm r Hin). by apply (proj1 (Forall_forall _ _) Ht).
Qed.

Lemma boolean_operation_validates_witness :
  let a := Region.of_rect (Rect.mk 0 0 10 10) in let b := Region.of_rect (Rect.mk 2 3 5 6) in
  region_wf a /\ region_wf b /\
  exists R, Region.boolean_operation op_nand a b 0 0 = Some R /\ Region.validate R = true.
Proof.
  intros a b.
  assert (region_wf a) as Ha by (apply rect_region_wf; solve_rect_wf).
  assert (region_wf b) as Hb by (apply rect_region_wf; solve_rect_wf).
  split; [exact Ha|]. split; [exact Hb|].
  apply (boolean_operation_validates op_nand a b Ha Hb); (constructor; [unfold modest; simpl; lia|constructor]).
Defined.

(** [Rect::reduce], documented as computing [(Region( *this) - exclude).bounds()]
    efficiently, returns exactly those bounds. *)
Theorem reduce_is_subtract_bounds r e :
  rect_wf r -> has_pixels r -> rect_wf e -> Rect.isValid e = true ->
  exists R, Region.subtract_rect (Region.of_rect r) e = Some R /\ Region.bounds R = Rect.reduce r e.
Proof.
  intros Hr Hpx He Hv.
  destruct (boolean_operation_rect_spec op_nand Region.new (Region.of_rect r) e) as (R & HR & Hwf & Ht & Hp); auto using rect_region_wf.
  exists R. split; [exact HR|].
  assert (Hpix : forall x y, Region.contains R x y = remains r e x y).
  { intros x y. rewrite Hp. unfold remains.
    replace (Region.contains (Region.of_rect r) x y) with (Rect.contains r x y); [by destruct (combine_op_table (Rect.contains r x y) (Rect.contains e x y)) as (_ & _ & _ & ->)|].
    unfold Region.contains. rewrite contains_loop_existsb. simpl. by rewrite orb_false_r. }
  destruct He as (_ & He1 & He2 & _). unfold Region.bounds.
  destruct Ht as [Ht|Ht].
  - unfold Region.getBounds. rewrite Ht. simpl.
    assert (Hno : forall x y, remains r e x y = false).
    { intros x y. rewrite <- Hpix. unfold Region.contains, Region.getArray, Region.isRect. rewrite Ht. simpl.
      interval_cases; done || lia. }
    pose proof (reduce_cases r e) as Hc. cbv zeta in Hc. destruct Hpx as [Hx Hy].
    pose proof (Hno (Rect.left r) (Rect.top r)) as H1. pose proof (Hno (Rect.right r - 1) (Rect.bottom r - 1)) as H2.
    apply not_true_iff_false in H1, H2. rewrite remainsP in H1, H2.
    repeat match type of Hc with context [?a <? ?b] => destruct (Z.ltb_spec a b) end; rewrite Hc; done || lia.
  - apply (touches_unique (remains r e)).
    + destruct (bounds_touch R Hwf Ht) as [H1 H2 H3 H4 H5]. setoid_rewrite Hpix in H2. setoid_rewrite Hpix in H3.
      setoid_rewrite Hpix in H4. setoid_rewrite Hpix in H5. constructor; try done. intros x y. rewrite <- Hpix. apply H1.
    + destruct (touch_left _ _ (bounds_touch R Hwf Ht)) as [y Hy]. rewrite Hpix in Hy.
      by eapply reduce_touches.
Qed.

Lemma reduce_is_subtract_bounds_witness :
  exists R, Region.subtract_rect (Region.of_rect (Rect.mk 0 0 10 10)) (Rect.mk 4 (-5) 30 30) = Some R /\
    Region.bounds R = Rect.mk 0 0 4 10.
Proof.
  apply (reduce_is_subtract_bounds (Rect.mk 0 0 10 10) (Rect.mk 4 (-5) 30 30));
    [solve_rect_wf
    |unfold has_pixels; simpl; lia
    |solve_rect_wf
    |reflexivity].
Defined.

(** [operator |=] ([orSelf]) gives the union also through its shortcut for an
    empty left operand. *)
Theorem orSelf_union self rhs :
  region_wf self -> region_wf rhs -> Rect.measurable (Region.getBounds self) ->
  exists R, Region.orSelf self rhs = Some R /\ region_wf R /\
    forall x y, Region.contains R x y = Region.contains self x y || Region.contains rhs x y.
Proof.
  intros Hs Hr Hm. unfold Region.orSelf. destruct (Region.isEmpty self) eqn:E.
  - exists rhs. split; [done|]. split; [done|]. intros x y. by rewrite (isEmpty_no_pixels self x y Hs Hm E).
  - destruct (boolean_operation_spec op_or self rhs 0 0 Hs Hr (translatable_0 _ Hr)) as (R & HR & Hwf & _ & Hp).
    exists R. split; [exact HR|]. split; [done|]. intros x y. rewrite Hp, !Z.sub_0_r. apply combine_op_table.
Qed.

Lemma orSelf_union_witness :
  let a := Region.new in let b := Region.of_rect (Rect.mk 2 3 5 6) in
  region_wf a /\ region_wf b /\ exists R, Region.orSelf a b = Some R /\ Region.contains R 2 3 = true.
Proof.
  intros a b.
  assert (region_wf a) as Ha by (apply (rect_region_wf (Rect.mk 0 0 0 0)); solve_rect_wf).
  assert (region_wf b) as Hb by (apply rect_region_wf; solve_rect_wf).
  split; [exact Ha|]. split; [exact Hb|].
  destruct (orSelf_union a b Ha Hb) as (R & HR & _ & Hp).
  - vm_compute. intuition discriminate.
  - exists R. split; [exact HR|]. rewrite Hp. reflexivity.
Defined.

(** An [INVALID_RECT] operand, which [boolean_operation] lets through, breaks
    the invariant: the union of an ordinary rectangle with it has overlapping spans
    and fails [Region::validate]. *)
Theorem invalid_rect_union_overlaps :
  Region.merge_rect (Region.of_rect (Rect.mk (-10) (-10) 10 10)) Rect.INVALID_RECT =
    Some (Region.mk [Rect.mk (-10) (-10) 10 0; Rect.mk (-10) (-1) 10 10; Rect.mk (-10) (-10) 10 10]) /\
  Region.validate (Region.mk [Rect.mk (-10) (-10) 10 0; Rect.mk (-10) (-1) 10 10; Rect.mk (-10) (-10) 10 10]) = false.
Proof. split; reflexivity. Qed.
