(* ===== verification/MemoryDealer.v ===== *)
(** * The heap allocator of libbinder (libs/binder/MemoryDealer.cpp)

    [SimpleBestFitAllocator] cuts a heap into chunks, measured in units of
    [kMemoryAlign] bytes and kept in address order in a doubly linked list. The
    list is a [list] here; a pointer to a node is its position. [getpagesize()] is
    the parameter [pagesize]. *)

From S2P Require Import Prelude.

Module SimpleBestFitAllocator.

Definition kMemoryAlign : Z := 32.
Definition PAGE_ALIGNED : Z := 1.

(** [size_t size : 28] *)
Definition bits28 (z : Z) : Z := z mod 268435456.

Record chunk_t := mkChunk { start : Z; size : Z; free : bool }.

#[global] Instance chunk_eq_dec : EqDecision chunk_t.
Proof. solve_decision. Defined.

(** the constructor of [chunk_t] *)
Definition new_chunk (st sz : Z) : chunk_t := mkChunk st (bits28 sz) true.

Record t := mk { mList : list chunk_t; mHeapSize : Z }.

Section Allocator.

Context (pagesize : Z).

(** [SimpleBestFitAllocator(size_t size)] *)
Definition new (sz : Z) : t :=
  let heap := Z.land (uint64 (sz + pagesize - 1)) (uint64 (Z.lnot (pagesize - 1))) in
  mk [new_chunk 0 (heap / kMemoryAlign)] heap.

(** units to skip for the chunk to start on a page, when that is requested *)
Definition extra_for (flags st : Z) : Z :=
  if negb (Z.land flags PAGE_ALIGNED =? 0)
  then int32 (Z.land (uint64 (- st)) (pagesize / kMemoryAlign - 1)) else 0.

(** The search loop of [alloc]: [i] is the position of the rest of the list and
    [best] the candidate [free_chunk] so far, with its position. *)
Fixpoint search (flags sz : Z) (l : list chunk_t) (i : nat) (best : option (nat * chunk_t))
    : option (nat * chunk_t) :=
  match l with
  | [] => best
  | cur :: l' =>
    let extra := extra_for flags (start cur) in
    if free cur && (uint64 (sz + extra) <=? size cur) then
      let best' := match best with
                   | None => Some (i, cur)
                   | Some (_, f) => if size cur <? size f then Some (i, cur) else best
                   end in
      if size cur =? sz then best' else search flags sz l' (S i) best'
    else search flags sz l' (S i) best
  end.

(** [alloc(size, flags)]: the offset or an error, and the list. *)
Definition alloc (l : list chunk_t) (sz flags : Z) : Z * list chunk_t :=
  if sz =? 0 then (0, l)
  else
    let sz := uint64 (uint64 (sz + kMemoryAlign) - 1) / kMemoryAlign in
    match search flags sz l 0 None with
    | None => (NO_MEMORY, l)
    | Some (i, c) =>
      let free_size := size c in
      let fresh := mkChunk (start c) (bits28 sz) false in
      if sz <? free_size then
        let extra := extra_for flags (start c) in
        let before := if negb (extra =? 0) then [new_chunk (start c) extra] else [] in
        let fresh := if negb (extra =? 0) then mkChunk (uint64 (start c + extra)) (size fresh) false else fresh in
        let tail_free := int64 (free_size - uint64 (sz + extra)) in
        let after := if 0 <? tail_free then [new_chunk (uint64 (start fresh + size fresh)) tail_free] else [] in
        (uint64 (start fresh * kMemoryAlign), take i l ++ before ++ [fresh] ++ after ++ drop (S i) l)
      else (uint64 (start c * kMemoryAlign), take i l ++ [fresh] ++ drop (S i) l)
    end.

(** The merging loop of [dealloc]: [before] holds the chunks before [cur], nearest
    first, and [rest] those after it. *)
Fixpoint coalesce (before : list chunk_t) (cur : chunk_t) (rest : list chunk_t) : list chunk_t :=
  let before' := match before with
                 | p :: ps =>
                   if free p || (size cur =? 0)
                   then mkChunk (start p) (bits28 (size p + size cur)) (free p) :: ps
                   else cur :: p :: ps
                 | [] => [cur]
                 end in
  match rest with
  | n :: rest' => if free n then coalesce before' n rest' else rev before' ++ rest
  | [] => rev before'
  end.

(** [dealloc(start)]: the new list, or [None] when no chunk starts there. The
    [LOG_FATAL_IF] checks of debug builds are not part of the function. *)
Fixpoint dealloc_from (st : Z) (before l : list chunk_t) : option (list chunk_t) :=
  match l with
  | [] => None
  | cur :: l' =>
    if start cur =? st then Some (coalesce before (mkChunk (start cur) (size cur) true) l')
    else dealloc_from st (cur :: before) l'
  end.
Definition dealloc (l : list chunk_t) (st : Z) : option (list chunk_t) :=
  dealloc_from (st / kMemoryAlign) [] l.

(** [allocate] and [deallocate], which take the lock *)
Definition allocate (a : t) (sz flags : Z) : Z * t :=
  let '(r, l) := alloc (mList a) sz flags in (r, mk l (mHeapSize a)).
Definition deallocate (a : t) (offset : Z) : status_t * t :=
  match dealloc (mList a) offset with
  | Some l => (NO_ERROR, mk l (mHeapSize a))
  | None => (NAME_NOT_FOUND, a)
  end.

End Allocator.

End SimpleBestFitAllocator.

Module MemoryDealer.

Import SimpleBestFitAllocator.

(** [MemoryDealer::allocate]: the offset and size of the [Allocation] it makes. The
    offset is a [ssize_t]; it makes none when it is negative. *)
Definition allocate (pagesize : Z) (a : t) (sz : Z) : option (Z * Z) * t :=
  let '(r, a') := SimpleBestFitAllocator.allocate pagesize a sz 0 in
  let offset := int64 r in
  (if 0 <=? offset then Some (offset, sz) else None, a').

(** [~Allocation]: an allocation of size zero has no chunk and is not freed. *)
Definition release (a : t) (alloc : Z * Z) : t :=
  if negb (alloc.2 =? 0) then (SimpleBestFitAllocator.deallocate a alloc.1).2 else a.

End MemoryDealer.

Import SimpleBestFitAllocator.

Example alloc_example :
  alloc 4096 (mList (new 4096 4096)) 100 0 = (0, [mkChunk 0 4 false; mkChunk 4 124 true]).
Proof. vm_compute. reflexivity. Qed.
