(* ===== verification/MemoryDealerTheorems.v ===== *)
(** * Theorems about the heap allocator

    The chunks tile the heap, free chunks are never adjacent, an allocation takes a
    best-fitting free chunk and disturbs no other allocation, freeing undoes it. *)

From S2P Require Import Prelude MemoryDealer.
Import SimpleBestFitAllocator.

(** ** The invariant *)

(** The chunks of [l] cover the units from [s] to [e] without gap or overlap. *)
Fixpoint tiles (s : Z) (l : list chunk_t) (e : Z) : Prop :=
  match l with
  | [] => s = e
  | c :: l' => start c = s /\ 0 < size c /\ tiles (s + size c) l' e
  end.

(** No two neighbours are both free. *)
Fixpoint coalesced (l : list chunk_t) : Prop :=
  match l with
  | c :: ((n :: _) as l') => (free c = false \/ free n = false) /\ coalesced l'
  | _ => True
  end.

(** [units] is the size of the heap in units; it fits the bit-field. *)
Record heap_ok (units : Z) (l : list chunk_t) : Prop := {
  heap_tiles : tiles 0 l units;
  heap_coalesced : coalesced l;
  heap_units : units < 268435456 }.

(** the allocated chunks, in address order *)
Definition live (l : list chunk_t) : list chunk_t := filter (fun c => free c = false) l.

(** Units for [sz] bytes. *)
Definition units_for (sz : Z) : Z := (sz + 31) / 32.

Section Tiling.

Lemma tiles_app s l1 l2 e : tiles s (l1 ++ l2) e <-> exists m, tiles s l1 m /\ tiles m l2 e.
Proof.
  revert s; induction l1 as [|c l1 IH]; intros s; simpl.
  - split; [eauto|]. by intros (m & -> & H).
  - rewrite IH. naive_solver.
Qed.

Lemma tiles_le s l e : tiles s l e -> s <= e.
Proof. revert s; induction l as [|c l IH]; simpl; intros s H; [lia|]. destruct H as (_ & ? & H). apply IH in H. lia. Qed.

Lemma tiles_elem s l e c : tiles s l e -> c ∈ l -> s <= start c /\ 0 < size c /\ start c + size c <= e.
Proof.
  revert s; induction l as [|d l IH]; intros s H Hin; [set_solver|]. simpl in H. destruct H as (<- & Hs & H).
  apply elem_of_cons in Hin as [->|Hin].
  - apply tiles_le in H. lia.
  - destruct (IH _ H Hin) as (? & ? & ?). lia.
Qed.

(** Chunks do not overlap: two that share a unit are the same. *)
Lemma tiles_disjoint s l e c d u :
  tiles s l e -> c ∈ l -> d ∈ l -> start c <= u < start c + size c -> start d <= u < start d + size d -> c = d.
Proof.
  revert s; induction l as [|x l IH]; intros s H Hc Hd Hu1 Hu2; [set_solver|]. simpl in H. destruct H as (Hx & Hs & H).
  apply elem_of_cons in Hc as [->|Hc]; apply elem_of_cons in Hd as [->|Hd]; [done| | |by eapply IH];
    [pose proof (tiles_elem _ _ _ _ H Hd)|pose proof (tiles_elem _ _ _ _ H Hc)]; lia.
Qed.

Lemma tiles_inj s l e c d : tiles s l e -> c ∈ l -> d ∈ l -> start c = start d -> c = d.
Proof.
  intros H Hc Hd Heq. pose proof (tiles_elem _ _ _ _ H Hc). pose proof (tiles_elem _ _ _ _ H Hd).
  eapply (tiles_disjoint _ _ _ c d (start c)); done || lia.
Qed.

Lemma tiles_NoDup s l e : tiles s l e -> NoDup l.
Proof.
  revert s; induction l as [|c l IH]; intros s Ht; [constructor|].
  simpl in Ht. destruct Ht as (Hc & Hs & Ht). constructor; [|by eapply IH].
  intros Hin. destruct (tiles_elem _ _ _ _ Ht Hin). lia.
Qed.

Lemma coalesced_app l1 l2 :
  coalesced (l1 ++ l2) <->
  coalesced l1 /\ coalesced l2 /\
  forall a b, last l1 = Some a -> head l2 = Some b -> free a = false \/ free b = false.
Proof.
  induction l1 as [|a [|b l1] IH]; simpl.
  - split; [|tauto]. intros H. split_and!; try done.
  - destruct l2 as [|b l2]; simpl.
    + split; [|tauto]. intros _. split_and!; try done.
    + split; [intros [H1 H2]; split_and!; try done; intros; simplify_eq; done|].
      intros (_ & H & Hab). split; [|done]. by apply Hab.
  - simpl in *. rewrite IH. tauto.
Qed.

Lemma bits28_id z : 0 <= z < 268435456 -> bits28 z = z.
Proof. apply Z.mod_small. Qed.

Lemma live_app l1 l2 : live (l1 ++ l2) = live l1 ++ live l2.
Proof. apply filter_app. Qed.
Lemma live_free c l : free c = true -> live (c :: l) = live l.
Proof. intros H. unfold live. rewrite filter_cons_False; [done|]. by rewrite H. Qed.
Lemma live_used c l : free c = false -> live (c :: l) = c :: live l.
Proof. intros H. unfold live. by rewrite filter_cons_True. Qed.

End Tiling.

(** ** The search *)

Section Search.

(** The page size is a power of two, at least a unit and at most 1 GB. *)
Context (pagesize k : Z) (Hk : 5 <= k <= 30) (Hpage : pagesize = 2 ^ k).

Lemma page_units : pagesize / kMemoryAlign = 2 ^ (k - 5).
Proof. unfold kMemoryAlign. rewrite Hpage. change 32 with (2 ^ 5). rewrite <- Z.pow_sub_r; lia. Qed.

Lemma page_units_range : 0 < 2 ^ (k - 5) <= 33554432.
Proof. split; [apply Z.pow_pos_nonneg; lia|]. change 33554432 with (2 ^ 25). apply Z.pow_le_mono_r; lia. Qed.

(** The skipped units are those up to the next page boundary. *)
Lemma extra_for_eq flags st :
  extra_for pagesize flags st = if Z.land flags PAGE_ALIGNED =? 0 then 0 else (- st) mod 2 ^ (k - 5).
Proof.
  unfold extra_for. destruct (Z.land flags PAGE_ALIGNED =? 0); simpl; [done|].
  pose proof page_units_range as Hr. rewrite page_units.
  replace (2 ^ (k - 5) - 1) with (Z.ones (k - 5)) by (rewrite Z.ones_equiv; lia).
  rewrite Z.land_ones by lia. unfold uint64. change 18446744073709551616 with (2 ^ 64).
  rewrite Z.mod_mod_divide by (exists (2 ^ (64 - (k - 5))); rewrite <- Z.pow_add_r by lia; f_equal; lia).
  pose proof (Z.mod_pos_bound (- st) (2 ^ (k - 5))).
  apply int32_id. unfold in_int32, INT32_MIN, INT32_MAX. lia.
Qed.

Lemma extra_range flags st : 0 <= extra_for pagesize flags st < 2147483648.
Proof.
  rewrite extra_for_eq. pose proof page_units_range as Hr.
  destruct (_ =? _); [lia|]. pose proof (Z.mod_pos_bound (- st) (2 ^ (k - 5))). lia.
Qed.

(** The chunk [c] can hold [n] units with the requested alignment. *)
Definition fits (flags n : Z) (c : chunk_t) : Prop :=
  free c = true /\ n + extra_for pagesize flags (start c) <= size c.

Definition better (flags n : Z) (l : list chunk_t) (best : option (nat * chunk_t)) (r : option (nat * chunk_t)) : Prop :=
  match r with
  | None => best = None /\ forall c, c ∈ l -> ~ fits flags n c
  | Some (_, c) =>
    (forall c', c' ∈ l -> fits flags n c' -> size c <= size c') /\
    (forall i f, best = Some (i, f) -> size c <= size f)
  end.

Lemma search_best flags n l i best :
  0 <= n < 1152921504606846976 -> (forall j f, best = Some (j, f) -> n <= size f) ->
  better flags n l best (search pagesize flags n l i best).
Proof.
  intros Hn. revert i best; induction l as [|c l IH]; intros i best Hb; simpl.
  { destruct best as [[j f]|]; simpl; split; [set_solver|naive_solver lia|done|set_solver]. }
  pose proof (extra_range flags (start c)) as He.
  assert (uint64 (n + extra_for pagesize flags (start c)) = n + extra_for pagesize flags (start c)) as ->
    by (apply uint64_id; lia).
  assert (Hstep : forall best', (forall j f, best' = Some (j, f) -> n <= size f) ->
    (fits flags n c -> exists j f, best' = Some (j, f) /\ size f <= size c) ->
    (forall j f, best = Some (j, f) -> exists j' f', best' = Some (j', f') /\ size f' <= size f) ->
    better flags n (c :: l) best (search pagesize flags n l (S i) best')).
  { intros best' Hb' Hc Hbb. specialize (IH (S i) best' Hb').
    destruct (search pagesize flags n l (S i) best') as [[j f]|]; simpl in *.
    - destruct IH as [IH1 IH2]. split.
      + intros c' [->|Hin]%elem_of_cons Hf; [|by apply IH1]. destruct (Hc Hf) as (j' & f' & Hj & Hle).
        specialize (IH2 _ _ Hj). lia.
      + intros j' f' Hj. destruct (Hbb _ _ Hj) as (j2 & f2 & Hj2 & Hle). specialize (IH2 _ _ Hj2). lia.
    - destruct IH as [-> IH]. split.
      + destruct best as [[j f]|]; [|done]. destruct (Hbb _ _ eq_refl) as (? & ? & ? & _). done.
      + intros c' [->|Hin]%elem_of_cons Hf; [|by apply (IH c')]. destruct (Hc Hf) as (? & ? & ? & _). done. }
  destruct (free c && _) eqn:Hfit; bool_to_prop.
  - set (best' := match best with None => _ | Some _ => _ end).
    assert (Hbest' : exists j f, best' = Some (j, f) /\ size f <= size c /\ n <= size f /\
       forall j' f', best = Some (j', f') -> size f <= size f').
    { unfold best'. destruct best as [[j f]|]; [|exists i, c; split_and!; done || lia].
      specialize (Hb j f eq_refl). destruct (size c <? size f) eqn:E; bool_to_prop.
      - exists i, c. split_and!; try done; try lia. intros; simplify_eq; lia.
      - exists j, f. split_and!; try done; try lia. intros; simplify_eq; lia. }
    destruct Hbest' as (j & f & Hj & Hfc & Hnf & Hbf). destruct (size c =? n) eqn:Heq; bool_to_prop.
    + rewrite Hj. simpl. split; [|done]. intros c' Hin [_ Hf]. pose proof (extra_range flags (start c')). lia.
    + apply Hstep; [intros; simplify_eq; congruence || (rewrite Hj in *; simplify_eq; lia)|eauto|].
      intros j' f' Hb'. exists j, f. split; [done|]. by eapply Hbf.
  - apply Hstep; [done| |intros; eauto with lia].
    intros [Hfr Hsz]. destruct Hfit as [Hf|Hf]; bool_to_prop; [congruence|lia].
Qed.

(** The chunk found is the one at its position, or the candidate it started from. *)
Lemma search_position flags n l i best j c :
  0 <= n < 1152921504606846976 ->
  search pagesize flags n l i best = Some (j, c) ->
  best = Some (j, c) \/ (exists p, j = (i + p)%nat /\ l !! p = Some c /\ fits flags n c).
Proof.
  intros Hn. revert i best; induction l as [|d l IH]; intros i best; simpl; [by left|].
  pose proof (extra_range flags (start d)) as He.
  rewrite uint64_id by lia.
  assert (Hhere : free d && (n + extra_for pagesize flags (start d) <=? size d) = true -> fits flags n d).
  { intros. bool_to_prop. by split. }
  assert (Hnext : forall b, search pagesize flags n l (S i) b = Some (j, c) ->
    b = Some (j, c) \/ exists p, j = (i + p)%nat /\ (d :: l) !! p = Some c /\ fits flags n c).
  { intros b Hs. destruct (IH _ _ Hs) as [->|(p & -> & Hp & Hf)]; [by left|]. right. exists (S p). split; [lia|done]. }
  destruct (free d && _) eqn:Hfit; [|by apply Hnext].
  assert (Hcand : forall b, (b = best \/ b = Some (i, d)) -> b = Some (j, c) ->
    best = Some (j, c) \/ exists p, j = (i + p)%nat /\ (d :: l) !! p = Some c /\ fits flags n c).
  { intros b [->| ->] Hb; [by left|]. simplify_eq. right. exists O. split; [lia|]. auto. }
  set (b' := match best with None => _ | Some _ => _ end).
  assert (b' = best \/ b' = Some (i, d)) as Hb' by (unfold b'; destruct best as [[??]|]; [case_match|]; auto).
  destruct (size d =? n); [by apply Hcand|]. intros Hs. destruct (Hnext _ Hs) as [Hb|?]; [by eapply Hcand|by right].
Qed.

(** ** What [alloc] does *)

(** A free chunk of [n] units at [s], or nothing when [n] is zero. *)
Definition piece (s n : Z) : list chunk_t := if n =? 0 then [] else [mkChunk s n true].

Lemma round_up sz : 0 <= sz <= 18446744073709551584 ->
  uint64 (uint64 (sz + kMemoryAlign) - 1) / kMemoryAlign = units_for sz.
Proof.
  unfold kMemoryAlign, units_for. intros H. destruct (decide (sz = 18446744073709551584)) as [->|]; [done|].
  rewrite (uint64_id (sz + 32)) by lia. rewrite uint64_id by lia. by replace (sz + 32 - 1) with (sz + 31) by lia.
Qed.

(** [alloc] carves [n] units out of a smallest chunk that fits; what is left of that
    chunk before and after stays free. *)
Definition carve (n e : Z) (l1 : list chunk_t) (c : chunk_t) (l2 : list chunk_t) : list chunk_t :=
  l1 ++ piece (start c) e ++ mkChunk (start c + e) n false :: piece (start c + e + n) (size c - n - e) ++ l2.

Lemma alloc_cases units l sz flags :
  heap_ok units l -> 0 < sz <= 18446744073709551584 ->
  let n := units_for sz in
  (alloc pagesize l sz flags = (NO_MEMORY, l) /\ forall c, c ∈ l -> ~ fits flags n c) \/
  exists l1 c l2, let e := extra_for pagesize flags (start c) in
    l = l1 ++ c :: l2 /\ fits flags n c /\ (forall c', c' ∈ l -> fits flags n c' -> size c <= size c') /\
    alloc pagesize l sz flags = ((start c + e) * 32, carve n e l1 c l2).
Proof.
  intros [Ht _ Hu] Hsz n.
  assert (Hn : 1 <= n < 1152921504606846976).
  { unfold n, units_for. split; [apply Z.div_le_lower_bound; lia|apply Z.div_lt_upper_bound; lia]. }
  unfold alloc. rewrite (proj2 (Z.eqb_neq sz 0)) by lia. rewrite round_up by lia. fold n.
  pose proof (search_best flags n l 0 None ltac:(lia) ltac:(done)) as Hb.
  destruct (search pagesize flags n l 0 None) as [[i c]|] eqn:Hs; [|left; by destruct Hb].
  right. destruct (search_position flags n l 0 None i c ltac:(lia) Hs) as [?|(p & -> & Hp & Hf)]; [done|].
  exists (take p l), c, (drop (S p) l). simpl in Hb. destruct Hb as [Hb _].
  split_and!; [by rewrite take_drop_middle|done|done|]. simpl Nat.add.
  destruct (tiles_elem _ _ _ c Ht) as (H0 & H1 & H2); [by eapply list_elem_of_lookup_2|].
  destruct Hf as [Hfree Hsize]. pose proof (extra_range flags (start c)) as He.
  unfold carve, piece, new_chunk, kMemoryAlign. simpl. rewrite (bits28_id n) by lia.
  set (e := extra_for pagesize flags (start c)) in *.
  destruct (n <? size c) eqn:Hlt; bool_to_prop.
  - assert (int64 (size c - uint64 (n + e)) = size c - n - e) as ->.
    { rewrite uint64_id by lia. unfold int64. rewrite Z.mod_small by lia. lia. }
    assert ((0 <? size c - n - e) = negb (size c - n - e =? 0)) as -> by lia.
    rewrite (bits28_id e) by lia. rewrite (bits28_id (size c - n - e)) by lia.
    destruct (e =? 0) eqn:E; destruct (_ - _ - _ =? 0); bool_to_prop; simpl;
      rewrite ?(uint64_id (start c + e)) by lia; repeat (rewrite uint64_id by lia); rewrite ?E, ?Z.add_0_r; done.
  - assert (e = 0) as -> by lia. assert (size c - n - 0 = 0) as -> by lia. simpl.
    rewrite uint64_id by lia. rewrite Z.add_0_r. done.
Qed.

End Search.

(** ** What [dealloc] does *)

Definition ends_used (l : list chunk_t) : Prop := forall a, last l = Some a -> free a = false.
Definition starts_used (l : list chunk_t) : Prop := forall b, head l = Some b -> free b = false.

Lemma rev_last {A} (l : list A) (x : A) : rev (l ++ [x]) = x :: rev l.
Proof. apply rev_unit. Qed.

(** One round of the merging loop absorbs the free chunk before [cur], if any. *)
Lemma absorb l1 s a cur :
  ends_used l1 -> s + a = start cur -> free cur = true -> 0 < size cur -> 0 <= a -> a + size cur < 268435456 ->
  match rev (l1 ++ piece s a) with
  | p :: ps =>
    if free p || (size cur =? 0) then mkChunk (start p) (bits28 (size p + size cur)) (free p) :: ps
    else cur :: p :: ps
  | [] => [cur]
  end = rev (l1 ++ [mkChunk s (a + size cur) true]).
Proof.
  intros Hl Hs Hf Hc Ha Hsum. rewrite rev_last. unfold piece. destruct (a =? 0) eqn:E; bool_to_prop.
  - subst a. replace s with (start cur) by lia. rewrite Z.add_0_l. destruct cur as [st sz fr]; simpl in *. subst fr.
    rewrite app_nil_r. destruct l1 as [|p l1 _] using rev_ind; [done|]. rewrite rev_last.
    rewrite (Hl p) by apply last_snoc. simpl. rewrite (proj2 (Z.eqb_neq sz 0)) by lia. done.
  - rewrite rev_last. simpl. rewrite bits28_id by lia. done.
Qed.

Lemma coalesce_shape l1 s a cur b l2 :
  ends_used l1 -> starts_used l2 -> s + a = start cur -> free cur = true -> 0 < size cur -> 0 <= a -> 0 <= b ->
  a + size cur + b < 268435456 ->
  coalesce (rev (l1 ++ piece s a)) cur (piece (start cur + size cur) b ++ l2) =
  l1 ++ mkChunk s (a + size cur + b) true :: l2.
Proof.
  intros H1 H2 Hs Hf Hc Ha Hb Hsum.
  assert (Hend : forall before, match l2 with
    | n :: l2' => if free n then coalesce before n l2' else rev before ++ l2
    | [] => rev before end = rev before ++ l2).
  { intros before. destruct l2 as [|n l2']; [by rewrite app_nil_r|]. by rewrite (H2 n). }
  destruct (decide (b = 0)) as [->|Hb0].
  - simpl. destruct l2 as [|n l2'] eqn:E; simpl; rewrite absorb by (done || lia);
      rewrite ?rev_involutive, ?(H2 n) by done; rewrite ?rev_involutive, Z.add_0_r, <- ?app_assoc; done.
  - assert (piece (start cur + size cur) b = [mkChunk (start cur + size cur) b true]) as ->.
    { unfold piece. by rewrite (proj2 (Z.eqb_neq b 0)). }
    simpl. rewrite absorb by (done || lia).
    replace [mkChunk s (a + size cur) true] with (piece s (a + size cur)).
    2:{ unfold piece. by rewrite (proj2 (Z.eqb_neq (a + size cur) 0)) by lia. }
    destruct l2 as [|n l2'] eqn:E; simpl; rewrite absorb by (simpl; done || lia);
      rewrite ?(H2 n) by done; rewrite rev_involutive, <- ?app_assoc; done.
Qed.

Lemma dealloc_from_shape st acc l1 c l2 :
  (forall x, x ∈ l1 -> start x <> st) -> start c = st ->
  dealloc_from st acc (l1 ++ c :: l2) = Some (coalesce (rev l1 ++ acc) (mkChunk (start c) (size c) true) l2).
Proof.
  revert acc. induction l1 as [|x l1 IH]; intros acc Hne Hc; simpl.
  - by rewrite Hc, Z.eqb_refl.
  - rewrite (proj2 (Z.eqb_neq (start x) st)) by (apply Hne; set_solver).
    rewrite IH by (try done; intros; apply Hne; set_solver). by rewrite <- app_assoc.
Qed.

Lemma dealloc_from_none st acc l : (forall x, x ∈ l -> start x <> st) -> dealloc_from st acc l = None.
Proof.
  revert acc. induction l as [|x l IH]; intros acc Hne; [done|]. simpl.
  rewrite (proj2 (Z.eqb_neq (start x) st)) by (apply Hne; set_solver). apply IH. intros; apply Hne; set_solver.
Qed.

(** The chunks before [c] start before it. *)
Lemma tiles_before s l1 c l2 e x : tiles s (l1 ++ c :: l2) e -> x ∈ l1 -> start x < start c.
Proof.
  intros (m & H1 & H2)%tiles_app Hx. destruct (tiles_elem _ _ _ _ H1 Hx) as (? & ? & ?).
  simpl in H2. lia.
Qed.

(** The neighbourhood of an allocated chunk: [a] free units from [s] up to it, and
    [b] free units after it. *)
Lemma neighbourhood units l1 c l2 :
  heap_ok units (l1 ++ c :: l2) -> free c = false ->
  exists l1' s a b l2', l1 = l1' ++ piece s a /\ l2 = piece (start c + size c) b ++ l2' /\
    ends_used l1' /\ starts_used l2' /\ s + a = start c /\ 0 <= a /\ 0 <= b /\
    a + size c + b < 268435456.
Proof.
  intros [Ht Hc Hu] Hf. apply coalesced_app in Hc as (Hc1 & Hc2 & _).
  assert (exists l1' s a, l1 = l1' ++ piece s a /\ ends_used l1' /\ s + a = start c /\ 0 <= a /\ 0 <= s) as
    (l1' & s & a & -> & He & Hs & Ha & Hs0).
  { apply tiles_app in Ht as (m & Ht1 & Ht2). simpl in Ht2.
    destruct l1 as [|p l1 _] using rev_ind.
    - exists [], (start c), 0. unfold ends_used. simpl in Ht1. split_and!; done || lia.
    - destruct (free p) eqn:Ep.
      + apply tiles_app in Ht1 as (m' & Ht1 & Ht1'). simpl in Ht1'.
        exists l1, (start p), (size p). unfold piece. rewrite (proj2 (Z.eqb_neq (size p) 0)) by lia.
        apply tiles_le in Ht1. split_and!; try lia.
        * f_equal. destruct p; simpl in *. by subst.
        * intros q Hq. apply coalesced_app in Hc1 as (_ & _ & Hc1).
          destruct (Hc1 q p Hq eq_refl); congruence.
      + exists (l1 ++ [p]), (start c), 0. apply tiles_le in Ht1. unfold piece; simpl. rewrite app_nil_r.
        split_and!; try lia; try done. intros q. rewrite last_snoc. by intros [= <-]. }
  assert (exists b l2', l2 = piece (start c + size c) b ++ l2' /\ starts_used l2' /\ 0 <= b /\
    start c + size c + b <= units) as (b & l2' & -> & Hl & Hb & Hbu).
  { apply tiles_app in Ht as (m & Ht1 & Ht2). simpl in Ht2. destruct Ht2 as (Hst & Hsz & Ht2).
    destruct l2 as [|n l2].
    - exists 0, []. simpl in Ht2. unfold starts_used. split_and!; done || lia.
    - simpl in Ht2. destruct Ht2 as (Hn & Hnz & Ht2). apply tiles_le in Ht2. destruct (free n) eqn:En.
      + exists (size n), l2. unfold piece. rewrite (proj2 (Z.eqb_neq (size n) 0)) by lia. split_and!; try lia.
        * simpl. f_equal. destruct n; simpl in *. subst. f_equal.
        * intros q Hq. destruct l2 as [|r l2]; [done|]. simpl in *. simplify_eq. destruct Hc2 as (_ & Hc2 & _).
          destruct Hc2; congruence.
      + exists 0, (n :: l2). split_and!; try done; try lia. intros q [= <-]. done. }
  exists l1', s, a, b, l2'. split_and!; try done. lia.
Qed.

(** ** The invariant is preserved *)

Lemma coalesced_cons c l : coalesced (c :: l) <-> (forall b, head l = Some b -> free c = false \/ free b = false) /\ coalesced l.
Proof.
  destruct l as [|n l]; simpl; [by split|].
  split; [intros [H1 H2]; split; [intros ? [= <-]|]; done|intros [H1 H2]; split; [by apply H1|done]].
Qed.

Lemma coalesced_free l1 f l2 : free f = true ->
  coalesced (l1 ++ f :: l2) <-> coalesced l1 /\ coalesced l2 /\ ends_used l1 /\ starts_used l2.
Proof.
  intros Hf. rewrite coalesced_app, coalesced_cons. unfold ends_used, starts_used. split.
  - intros (H1 & (H2 & H3) & H4). split_and!; try done.
    + intros a Ha. destruct (H4 a f Ha eq_refl); congruence.
    + intros b Hb. destruct (H2 b Hb); congruence.
  - intros (H1 & H2 & H3 & H4). split_and!; try done; [|intros a b Ha [= <-]; left; by apply H3].
    intros b Hb. right. by apply H4.
Qed.

Lemma coalesced_used l1 u l2 : free u = false -> coalesced (l1 ++ u :: l2) <-> coalesced l1 /\ coalesced l2.
Proof.
  intros Hf. rewrite coalesced_app, coalesced_cons. split; [tauto|].
  intros (H1 & H2). split_and!; try done; [by left|]. intros a b _ [= <-]. by right.
Qed.

Lemma coalesced_piece_l s a l2 : starts_used l2 -> coalesced (piece s a ++ l2) <-> coalesced l2.
Proof.
  intros H. unfold piece. destruct (a =? 0); [done|]. simpl app. rewrite coalesced_cons.
  split; [tauto|]. intros Hc. split; [|done]. intros b Hb. right. by apply H.
Qed.

Lemma coalesced_piece_r l1 s a : ends_used l1 -> coalesced (l1 ++ piece s a) <-> coalesced l1.
Proof.
  intros H. unfold piece. destruct (a =? 0); [by rewrite app_nil_r|]. rewrite coalesced_free by done.
  unfold starts_used. simpl. naive_solver.
Qed.

Lemma tiles_piece s a r e : 0 <= a -> tiles s (piece s a ++ r) e <-> tiles (s + a) r e.
Proof.
  intros Ha. unfold piece. destruct (a =? 0) eqn:E; bool_to_prop; simpl; [by subst; rewrite Z.add_0_r|].
  split; [tauto|]. intros. split_and!; done || lia.
Qed.

(** Allocating out of a free chunk and merging back are inverse on heaps. *)
Lemma heap_ok_carve units l1 s a n b l2 :
  0 <= a -> 0 < n -> 0 <= b -> ends_used l1 -> starts_used l2 -> tiles 0 l1 s ->
  heap_ok units (l1 ++ piece s a ++ mkChunk (s + a) n false :: piece (s + a + n) b ++ l2) <->
  heap_ok units (l1 ++ mkChunk s (a + n + b) true :: l2).
Proof.
  intros Ha Hn Hb H1 H2 Ht.
  assert (Hc : coalesced (l1 ++ piece s a ++ mkChunk (s + a) n false :: piece (s + a + n) b ++ l2) <->
    coalesced (l1 ++ mkChunk s (a + n + b) true :: l2)).
  { rewrite app_assoc, coalesced_used, coalesced_piece_l, coalesced_piece_r, coalesced_free by done. tauto. }
  assert (Hm : forall m, tiles 0 l1 m -> m = s).
  { clear -Ht. revert Ht. generalize 0. induction l1 as [|c l1 IH]; simpl; intros z Ht m; [congruence|].
    intros (_ & _ & H). destruct Ht as (_ & _ & Ht). by eapply IH. }
  assert (Htl : tiles 0 (l1 ++ piece s a ++ mkChunk (s + a) n false :: piece (s + a + n) b ++ l2) units <->
    tiles 0 (l1 ++ mkChunk s (a + n + b) true :: l2) units).
  { rewrite !tiles_app. split; intros (m & Hm1 & Hm2); exists m; (split; [done|]); apply Hm in Hm1; subst m.
    - rewrite tiles_piece in Hm2 by done. simpl in Hm2. destruct Hm2 as (_ & _ & Hm2).
      rewrite tiles_piece in Hm2 by done. simpl. split_and!; try lia.
      by replace (s + (a + n + b)) with (s + a + n + b) by lia.
    - simpl in Hm2. destruct Hm2 as (_ & _ & Hm2). rewrite tiles_piece by done. simpl. split_and!; try lia.
      rewrite tiles_piece by done. by replace (s + a + n + b) with (s + (a + n + b)) by lia. }
  split; intros [? ? ?]; constructor; tauto.
Qed.

Lemma heap_split units l1 c l2 : heap_ok units (l1 ++ c :: l2) -> tiles 0 l1 (start c) /\ 0 < size c /\
  start c + size c <= units /\ 0 <= start c.
Proof.
  intros [Ht _ _]. apply tiles_app in Ht as (m & Ht1 & Ht2). simpl in Ht2. destruct Ht2 as (-> & Hs & Ht2).
  pose proof (tiles_le _ _ _ Ht1). apply tiles_le in Ht2. split_and!; done || lia.
Qed.

Lemma heap_free units l1 c l2 : heap_ok units (l1 ++ c :: l2) -> free c = true -> ends_used l1 /\ starts_used l2.
Proof. intros [_ Hc _] Hf. by apply coalesced_free in Hc as (_ & _ & ? & ?). Qed.

(** The three outcomes of [dealloc]. *)
Lemma dealloc_cases units l off :
  heap_ok units l ->
  (dealloc l off = None /\ forall c, c ∈ l -> start c <> off / 32) \/
  (exists c, c ∈ l /\ free c = true /\ start c = off / 32 /\ dealloc l off = Some l) \/
  (exists l1 s a c b l2, l = l1 ++ piece s a ++ c :: piece (start c + size c) b ++ l2 /\
     free c = false /\ start c = off / 32 /\ s + a = start c /\ 0 <= a /\ 0 <= b /\ 0 < size c /\
     ends_used l1 /\ starts_used l2 /\ tiles 0 l1 s /\
     dealloc l off = Some (l1 ++ mkChunk s (a + size c + b) true :: l2)).
Proof.
  intros Hok. unfold dealloc, kMemoryAlign.
  destruct (decide (Exists (fun c => start c = off / 32) l)) as [Hex|Hno].
  2:{ left. assert (forall c, c ∈ l -> start c <> off / 32) as Hne by (intros c Hc Hs; apply Hno, Exists_exists; eauto).
      split; [by apply dealloc_from_none|done]. }
  right. apply Exists_exists in Hex as (c & Hin & Hst). apply list_elem_of_split in Hin as (l1 & l2 & ->).
  assert (Hd : dealloc_from (off / 32) [] (l1 ++ c :: l2) = Some (coalesce (rev l1) (mkChunk (start c) (size c) true) l2)).
  { rewrite dealloc_from_shape; [by rewrite app_nil_r| |done].
    intros x Hx. pose proof (tiles_before _ _ _ _ _ _ (heap_tiles _ _ Hok) Hx). lia. }
  destruct (heap_split _ _ _ _ Hok) as (Ht & Hsz & Hle & H0).
  pose proof (heap_units _ _ Hok) as Hu. rewrite Hd. destruct (free c) eqn:Hf.
  - left. exists c. split_and!; [set_solver|done..|]. f_equal. destruct (heap_free _ _ _ _ Hok Hf) as [He Hs].
    pose proof (coalesce_shape l1 (start c) 0 (mkChunk (start c) (size c) true) 0 l2) as Hsh. simpl in Hsh.
    rewrite app_nil_r in Hsh. rewrite Hsh by (done || lia). destruct c; simpl in *. subst. by rewrite Z.add_0_r.
  - right. destruct (neighbourhood _ _ _ _ Hok Hf) as (l1' & s & a & b & l2' & -> & -> & He & Hs & Hsa & Ha & Hb & Hsum).
    exists l1', s, a, c, b, l2'. split_and!; try done.
    + by rewrite <- app_assoc.
    + apply tiles_app in Ht as (m & Ht1 & Ht2). enough (s = m) by by subst.
      unfold piece in Ht2. destruct (a =? 0) eqn:E; bool_to_prop; simpl in Ht2; lia.
    + f_equal. apply (coalesce_shape l1' s a (mkChunk (start c) (size c) true) b l2'); done.
Qed.

Lemma live_piece s a : live (piece s a) = [].
Proof. unfold piece. by destruct (a =? 0). Qed.

Lemma heap_carve units l1 c l2 n e :
  heap_ok units (l1 ++ c :: l2) -> free c = true -> 0 <= e -> 0 < n -> n + e <= size c ->
  heap_ok units (carve n e l1 c l2) /\
  live (carve n e l1 c l2) ≡ₚ mkChunk (start c + e) n false :: live (l1 ++ c :: l2).
Proof.
  intros Hok Hf He Hn Hle. destruct (heap_free _ _ _ _ Hok Hf) as [H1 H2].
  destruct (heap_split _ _ _ _ Hok) as (Ht & _). split.
  - apply heap_ok_carve; try done; [lia|].
    replace (mkChunk _ _ true) with c; [done|]. destruct c; simpl in *. subst. f_equal. lia.
  - unfold carve. rewrite !live_app, live_used, live_app, !live_piece, live_free by done. simpl.
    by rewrite Permutation_middle.
Qed.

Lemma heap_merge units l1 s a c b l2 :
  heap_ok units (l1 ++ piece s a ++ c :: piece (start c + size c) b ++ l2) -> free c = false ->
  s + a = start c -> 0 <= a -> 0 <= b -> 0 < size c -> ends_used l1 -> starts_used l2 -> tiles 0 l1 s ->
  let l' := l1 ++ mkChunk s (a + size c + b) true :: l2 in
  heap_ok units l' /\ live (l1 ++ piece s a ++ c :: piece (start c + size c) b ++ l2) ≡ₚ c :: live l'.
Proof.
  intros Hok Hf Hsa Ha Hb Hsz H1 H2 Ht l'. split.
  - apply heap_ok_carve; try done. rewrite Hsa. by replace (mkChunk (start c) (size c) false) with c by (destruct c; simpl in *; congruence).
  - unfold l'. rewrite !live_app, live_used, live_app, !live_piece, live_free by done. simpl. by rewrite Permutation_middle.
Qed.

(** ** Properties *)

(** What a call to [alloc] must establish: either no free chunk is large enough, and
    nothing changes; or the block lies in a smallest such chunk, is aligned as
    requested, and joins the live blocks without disturbing them. *)
Definition alloc_contract (pagesize units : Z) (l : list chunk_t) (sz flags : Z) (res : Z * list chunk_t) : Prop :=
  let '(r, l') := res in
  let n := units_for sz in
  (r = NO_MEMORY /\ l' = l /\ forall c, c ∈ l -> ~ fits pagesize flags n c) \/
  (exists c, c ∈ l /\ fits pagesize flags n c /\ (forall c', c' ∈ l -> fits pagesize flags n c' -> size c <= size c') /\
     start c * 32 <= r /\ r + sz <= (start c + size c) * 32 /\ (32 | r) /\
     (Z.land flags PAGE_ALIGNED <> 0 -> (pagesize | r)) /\
     live l' ≡ₚ mkChunk (r / 32) n false :: live l /\ heap_ok units l').

Lemma units_for_bound sz : sz <= 32 * units_for sz.
Proof. unfold units_for. pose proof (Z.div_mod (sz + 31) 32). pose proof (Z.mod_pos_bound (sz + 31) 32). lia. Qed.
Lemma units_for_pos sz : 0 < sz -> 0 < units_for sz.
Proof. intros. unfold units_for. apply Z.div_str_pos. lia. Qed.

Lemma extra_aligns pagesize k flags st : 5 <= k <= 30 -> pagesize = 2 ^ k ->
  Z.land flags PAGE_ALIGNED <> 0 -> (pagesize | (st + extra_for pagesize flags st) * 32).
Proof.
  intros Hk Hp Hf. rewrite (extra_for_eq pagesize k) by done. rewrite (proj2 (Z.eqb_neq _ 0)) by done.
  rewrite Hp. replace (2 ^ k) with (2 ^ (k - 5) * 32) by (change 32 with (2 ^ 5); rewrite <- Z.pow_add_r by lia; f_equal; lia).
  apply Z.mul_divide_mono_r. pose proof (page_units_range k Hk).
  exists (- ((- st) / 2 ^ (k - 5))). pose proof (Z.div_mod (- st) (2 ^ (k - 5))). lia.
Qed.

(** On a well-formed heap, [alloc] of a non-zero size that does not overflow the
    rounding returns [NO_MEMORY] exactly when no free chunk can hold the block;
    otherwise it returns the offset of an aligned block inside a free chunk of
    minimal size (best fit), the live blocks are the old ones plus this one, and the
    heap is well-formed again: chunks tile it and no two neighbours are free. *)
Theorem alloc_best_fit pagesize k units l sz flags :
  5 <= k <= 30 -> pagesize = 2 ^ k -> heap_ok units l -> 0 < sz <= 18446744073709551584 ->
  alloc_contract pagesize units l sz flags (alloc pagesize l sz flags).
Proof.
  intros Hk Hp Hok Hsz. destruct (alloc_cases pagesize k Hk Hp units l sz flags Hok Hsz) as
    [[-> Hno]|(l1 & c & l2 & -> & [Hf Hle] & Hmin & ->)]; [by left|right].
  pose proof (extra_range pagesize k Hk Hp flags (start c)) as He.
  pose proof (units_for_pos sz ltac:(lia)) as Hn. pose proof (units_for_bound sz).
  destruct (heap_carve _ _ _ _ _ _ Hok Hf (proj1 He) Hn Hle) as [Hok' Hlive].
  exists c. rewrite Z.div_mul by done. split_and!; try done; try lia; [set_solver|apply Z.divide_factor_r|].
  by eapply extra_aligns.
Qed.

Lemma alloc_best_fit_witness :
  alloc_contract 4096 256 [mkChunk 0 4 false; mkChunk 4 252 true] 100 PAGE_ALIGNED
    (alloc 4096 [mkChunk 0 4 false; mkChunk 4 252 true] 100 PAGE_ALIGNED).
Proof.
  apply (alloc_best_fit 4096 12 256); [lia|reflexivity| |lia].
  constructor; simpl; [lia|tauto|lia].
Defined.

(** [dealloc] undoes [alloc] exactly: when an allocation succeeded, freeing the
    offset it returned gives back the very list of chunks from before, also when the
    allocation had split off the units up to a page boundary. *)
Theorem alloc_dealloc_roundtrip pagesize k units l sz flags r l' :
  5 <= k <= 30 -> pagesize = 2 ^ k -> heap_ok units l -> 0 < sz <= 18446744073709551584 ->
  alloc pagesize l sz flags = (r, l') -> 0 <= r -> dealloc l' r = Some l.
Proof.
  intros Hk Hp Hok Hsz Heq Hr. destruct (alloc_cases pagesize k Hk Hp units l sz flags Hok Hsz) as
    [[Hno _]|(l1 & c & l2 & -> & [Hf Hle] & _ & Ha)]; [rewrite Heq in Hno; by simplify_eq|].
  rewrite Heq in Ha. injection Ha as -> ->.
  pose proof (extra_range pagesize k Hk Hp flags (start c)) as He.
  pose proof (units_for_pos sz ltac:(lia)) as Hn.
  set (n := units_for sz) in *. set (e := extra_for pagesize flags (start c)) in *.
  destruct (heap_carve _ _ _ _ _ _ Hok Hf (proj1 He) Hn Hle) as [Hok' _].
  destruct (heap_free _ _ _ _ Hok Hf) as [He1 Hs2]. destruct (heap_split _ _ _ _ Hok) as (_ & Hsz' & Hu & H0).
  pose proof (heap_units _ _ Hok). unfold dealloc, kMemoryAlign, carve. rewrite Z.div_mul by done.
  rewrite app_assoc, dealloc_from_shape; [|intros x Hx|done].
  - f_equal. rewrite app_nil_r.
    pose proof (coalesce_shape l1 (start c) e (mkChunk (start c + e) n true) (size c - n - e) l2) as Hsh.
    simpl in Hsh |- *. rewrite Hsh by (done || lia). do 2 f_equal. destruct c; simpl in *; subst. f_equal. lia.
  - apply heap_tiles in Hok'. unfold carve in Hok'. rewrite app_assoc in Hok'.
    pose proof (tiles_before _ _ _ _ _ _ Hok' Hx). simpl in *. lia.
Qed.

Lemma alloc_dealloc_roundtrip_witness :
  dealloc (alloc 4096 [mkChunk 0 4 false; mkChunk 4 252 true] 100 PAGE_ALIGNED).2 4096 =
  Some [mkChunk 0 4 false; mkChunk 4 252 true].
Proof.
  apply (alloc_dealloc_roundtrip 4096 12 256 [mkChunk 0 4 false; mkChunk 4 252 true] 100 PAGE_ALIGNED); [lia|reflexivity| |lia|vm_compute; reflexivity|lia].
  constructor; simpl; [lia|tauto|lia].
Defined.

(** [dealloc] on a well-formed heap fails when no chunk starts at the offset,
    changes nothing when that chunk is already free, and otherwise removes exactly
    that block from the live ones; the merging leaves a well-formed heap. *)
Theorem dealloc_frees_one units l off :
  heap_ok units l ->
  match dealloc l off with
  | None => forall c, c ∈ l -> start c <> off / 32
  | Some l' => heap_ok units l' /\ exists c, c ∈ l /\ start c = off / 32 /\
      (if free c then l' = l else live l ≡ₚ c :: live l')
  end.
Proof.
  intros Hok. destruct (dealloc_cases _ _ off Hok) as
    [[-> Hne]|[(c & Hc & Hf & Hst & ->)|(l1 & s & a & c & b & l2 & -> & Hf & Hst & Hsa & Ha & Hb & Hsz & H1 & H2 & Ht & ->)]].
  - done.
  - split; [done|]. exists c. by rewrite Hf.
  - destruct (heap_merge _ _ _ _ _ _ _ Hok Hf Hsa Ha Hb Hsz H1 H2 Ht) as [Hok' Hl]. split; [done|].
    exists c. rewrite Hf. split_and!; [set_solver|done|exact Hl].
Qed.

Lemma dealloc_frees_one_witness :
  match dealloc [mkChunk 0 4 false; mkChunk 4 252 true] 0 with
  | None => forall c, c ∈ [mkChunk 0 4 false; mkChunk 4 252 true] -> start c <> 0 / 32
  | Some l' => heap_ok 256 l' /\ exists c, c ∈ [mkChunk 0 4 false; mkChunk 4 252 true] /\ start c = 0 / 32 /\
      (if free c then l' = [mkChunk 0 4 false; mkChunk 4 252 true] else live [mkChunk 0 4 false; mkChunk 4 252 true] ≡ₚ c :: live l')
  end.
Proof.
  apply (dealloc_frees_one 256 [mkChunk 0 4 false; mkChunk 4 252 true] 0).
  constructor; simpl; [lia|tauto|lia].
Defined.

(** ** A dealer and its clients *)

Section Dealer.

Context (pagesize k : Z) (Hk : 5 <= k <= 30) (Hpage : pagesize = 2 ^ k).

(** The allocator with the [Allocation]s (offset and size) its clients hold. *)
Definition dealer : Type := t * list (Z * Z).

(** the largest size that [alloc] rounds up to units without overflow, 2^64 - 32 *)
Definition largest_request : Z := 18446744073709551584.

(** a client asks for a block that is not larger, or gives one back *)
Inductive dealer_step : dealer -> dealer -> Prop :=
| dealer_allocate a held sz r a' :
    0 <= sz <= largest_request -> MemoryDealer.allocate pagesize a sz = (r, a') ->
    dealer_step (a, held) (a', from_option (fun x => x :: held) held r)
| dealer_release a held1 x held2 :
    dealer_step (a, held1 ++ x :: held2) (MemoryDealer.release a x, held1 ++ held2).

(** the chunk that backs an allocation *)
Definition backing (x : Z * Z) : chunk_t := mkChunk (x.1 / 32) (units_for x.2) false.

Definition has_block (x : Z * Z) : Prop := x.2 <> 0.
#[local] Instance has_block_dec x : Decision (has_block x).
Proof. unfold has_block. apply _. Defined.

Record dealer_ok (units : Z) (d : dealer) : Prop := {
  dealer_heap : heap_ok units (mList d.1);
  dealer_live : live (mList d.1) ≡ₚ map backing (filter has_block d.2);
  dealer_blocks : Forall (fun x => 0 <= x.2 /\ (32 | x.1)) d.2 }.

Lemma allocate_ok units a held sz r a' :
  dealer_ok units (a, held) -> 0 <= sz <= 18446744073709551584 ->
  MemoryDealer.allocate pagesize a sz = (r, a') -> dealer_ok units (a', from_option (fun x => x :: held) held r).
Proof.
  intros [Hh Hl Hb] Hsz. unfold MemoryDealer.allocate, allocate. simpl in *.
  destruct (decide (sz = 0)) as [->|Hnz].
  { unfold alloc. simpl. intros [= <- <-]. constructor; simpl; [done| |].
    - by rewrite filter_cons_False by (unfold has_block; simpl; tauto).
    - constructor; [simpl; split; [lia|apply Z.divide_0_r]|done]. }
  pose proof (heap_units _ _ Hh) as Hu.
  destruct (alloc_cases pagesize k Hk Hpage units (mList a) sz 0 Hh ltac:(lia)) as
    [[-> Hno]|(l1 & c & l2 & Hsp & [Hf Hle] & _ & ->)]; [by intros [= <- <-]; constructor|].
  rewrite Hsp in Hh. destruct (heap_split _ _ _ _ Hh) as (_ & Hs & Hend & H0).
  assert (extra_for pagesize 0 (start c) = 0) as Hz by done. rewrite Hz in *.
  pose proof (units_for_pos sz ltac:(lia)) as Hn.
  destruct (heap_carve _ _ _ _ _ _ Hh Hf (Z.le_refl 0) Hn Hle) as [Hok' Hlive].
  assert (int64 ((start c + 0) * 32) = start c * 32) as ->.
  { rewrite Z.add_0_r. unfold int64. rewrite Z.mod_small by lia. lia. }
  rewrite (proj2 (Z.leb_le 0 _)) by lia. intros [= <- <-]. constructor; simpl.
  - done.
  - rewrite Hlive, filter_cons_True by done. rewrite Hsp in Hl. simpl. rewrite Hl.
    assert (backing (start c * 32, sz) = mkChunk (start c + 0) (units_for sz) false) as ->; [|done].
    unfold backing. simpl. by rewrite Z.div_mul, Z.add_0_r by done.
  - constructor; [simpl; split; [lia|apply Z.divide_factor_r]|done].
Qed.

Lemma release_ok units a held1 x held2 :
  dealer_ok units (a, held1 ++ x :: held2) -> dealer_ok units (MemoryDealer.release a x, held1 ++ held2).
Proof.
  intros [Hh Hl Hb]. simpl in *. apply Forall_app in Hb as [Hb1 Hb2]. apply Forall_cons in Hb2 as [Hbx Hb2].
  assert (Forall (fun x => 0 <= x.2 /\ (32 | x.1)) (held1 ++ held2)) by (by apply Forall_app).
  unfold MemoryDealer.release. rewrite filter_app, filter_cons in Hl.
  destruct (x.2 =? 0) eqn:E; bool_to_prop; simpl.
  { rewrite decide_False in Hl by (unfold has_block; tauto). constructor; simpl; [done|by rewrite filter_app|done]. }
  rewrite decide_True in Hl by done. rewrite map_app in Hl. simpl in Hl.
  assert (Hin : backing x ∈ mList a).
  { eapply list_elem_of_filter with (P := fun c => free c = false). rewrite Hl. set_solver. }
  unfold deallocate. destruct (dealloc_cases _ _ x.1 Hh) as
    [[_ Hne]|[(c & Hc & Hf & Hst & ->)|(l1 & s & m & c & b & l2 & Hsp & Hf & Hst & Hsa & Ha & Hbb & Hsz & H1 & H2 & Ht & ->)]].
  - exfalso. by apply (Hne _ Hin).
  - exfalso. assert (c = backing x) as ->; [|done].
    eapply tiles_inj; [apply Hh|done..].
  - rewrite Hsp in Hh. destruct (heap_merge _ _ _ _ _ _ _ Hh Hf Hsa Ha Hbb Hsz H1 H2 Ht) as [Hok' Hlive].
    constructor; simpl; [done| |done]. assert (c = backing x) as ->.
    { eapply tiles_inj; [apply Hh| |by rewrite <- Hsp|done]. set_solver. }
    rewrite <- Hsp, Hl, <- Permutation_middle in Hlive. apply Permutation_cons_inv in Hlive.
    by rewrite <- Hlive, filter_app, map_app.
Qed.

(** The heap is the requested size rounded up to pages. *)
Lemma new_heap sz : 0 < sz -> sz + pagesize <= 18446744073709551616 ->
  mHeapSize (new pagesize sz) = (sz + pagesize - 1) / pagesize * pagesize.
Proof.
  intros Hs Hle. unfold new. simpl. assert (0 < pagesize) by (rewrite Hpage; apply Z.pow_pos_nonneg; lia).
  rewrite uint64_id by lia. set (a := sz + pagesize - 1).
  assert (uint64 (Z.lnot (pagesize - 1)) = Z.land (Z.lnot (pagesize - 1)) (Z.ones 64)) as -> by (by rewrite Z.land_ones).
  rewrite (Z.land_comm (Z.lnot _)), Z.land_assoc, (Z.land_ones a) by lia. rewrite Z.mod_small by (unfold a; lia).
  rewrite <- Z.ldiff_land. replace (pagesize - 1) with (Z.ones k) by (rewrite Z.ones_equiv; lia).
  rewrite Z.ldiff_ones_r, Z.shiftl_mul_pow2, Z.shiftr_div_pow2 by lia. by rewrite <- Hpage.
Qed.

Lemma new_size sz : 0 < sz -> sz + pagesize <= 18446744073709551616 -> sz <= mHeapSize (new pagesize sz) < sz + pagesize.
Proof.
  intros Hs Hle. rewrite new_heap by done. assert (0 < pagesize) by (rewrite Hpage; apply Z.pow_pos_nonneg; lia).
  pose proof (Z.div_mod (sz + pagesize - 1) pagesize). pose proof (Z.mod_pos_bound (sz + pagesize - 1) pagesize). lia.
Qed.

(** the units of the first chunk, of whose number 28 bits are kept *)
Definition first_units (sz : Z) : Z := bits28 (mHeapSize (new pagesize sz) / 32).

Lemma first_units_fit sz : 0 < sz -> sz + pagesize <= 18446744073709551616 -> 0 <= first_units sz < 268435456 /\ first_units sz * 32 <= mHeapSize (new pagesize sz).
Proof.
  intros Hs Hle. pose proof (new_size sz Hs Hle). unfold first_units, bits28. set (h := mHeapSize _) in *.
  assert (0 <= h / 32) by (apply Z.div_pos; lia). pose proof (Z.mod_pos_bound (h / 32) 268435456). pose proof (Z.mod_le (h / 32) 268435456). pose proof (Z.mul_div_le h 32 eq_refl). lia.
Qed.

Lemma new_ok sz : 0 < sz -> sz + pagesize <= 18446744073709551616 -> 0 < first_units sz -> dealer_ok (first_units sz) (new pagesize sz, []).
Proof.
  intros Hs Hle Hu. destruct (first_units_fit sz Hs Hle) as [[_ Hlt] _]. constructor; simpl; [|done|constructor]. constructor; simpl; [|done|done].
  unfold first_units in *. simpl in *. unfold kMemoryAlign. split; [done|]. split; [done|lia].
Qed.

(** If no bit is left, no block is ever given out. *)
Record no_units (d : dealer) : Prop := {
  no_units_heap : mList d.1 = [mkChunk 0 0 true];
  no_units_blocks : Forall (fun x => x.2 = 0) d.2 }.

Lemma no_units_step d d' : dealer_step d d' -> no_units d -> no_units d'.
Proof.
  intros [a held sz r a' Hsz E|a held1 x held2] [Hl Hb]; simpl in *.
  - unfold MemoryDealer.allocate, allocate, alloc in E. rewrite Hl in E. unfold largest_request in Hsz. destruct (sz =? 0) eqn:Ez; bool_to_prop.
    { injection E as <- <-. split; [done|]. by constructor. }
    rewrite (round_up sz) in E by exact Hsz. pose proof (units_for_pos sz ltac:(lia)) as Hn. pose proof (units_for_bound sz) as Hub.
    assert (units_for sz < 1152921504606846976) by (unfold units_for; apply Z.div_lt_upper_bound; lia).
    cbn [search] in E. change (extra_for pagesize 0 _) with 0 in E. simpl size in E. rewrite uint64_id, (proj2 (Z.leb_gt _ _)) in E by lia. simpl in E. injection E as <- <-. by split.
  - apply Forall_app in Hb as [Hb1 Hb2]. apply Forall_cons in Hb2 as [Hx Hb2]. unfold MemoryDealer.release. rewrite Hx. split; [done|]. by apply Forall_app.
Qed.

Lemma no_units_steps d d' : rtc dealer_step d d' -> no_units d -> no_units d'.
Proof. induction 1; eauto using no_units_step. Qed.

Lemma dealer_step_ok units d d' : dealer_step d d' -> dealer_ok units d -> dealer_ok units d'.
Proof. intros [] Hok; [by eapply allocate_ok|by apply release_ok]. Qed.

Lemma dealer_steps_ok units d d' : rtc dealer_step d d' -> dealer_ok units d -> dealer_ok units d'.
Proof. induction 1; eauto using dealer_step_ok. Qed.

(** Live blocks are inside the heap, *)
Lemma block_inside units a held x : dealer_ok units (a, held) -> x ∈ held -> has_block x -> 0 <= x.1 /\ x.1 + x.2 <= units * 32.
Proof.
  clear k Hk Hpage pagesize. intros [Hh Hl Hb] Hx Hnz. simpl in *. rewrite Forall_forall in Hb. destruct (Hb x Hx) as [Hx0 [o Ho]].
  assert (Hin : backing x ∈ live (mList a)) by (rewrite Hl; apply elem_of_map; exists x; split; [|done]; by apply list_elem_of_filter).
  apply list_elem_of_filter in Hin as [_ Hin]. destruct (tiles_elem _ _ _ _ (heap_tiles _ _ Hh) Hin) as (H1 & H2 & H3).
  unfold backing in *. simpl in *. rewrite Ho, Z.div_mul in * by done. pose proof (units_for_bound x.2). lia.
Qed.

(** and apart. *)
Lemma blocks_apart units a held i j x y :
  dealer_ok units (a, held) -> held !! i = Some x -> held !! j = Some y -> i <> j -> has_block x -> has_block y ->
  x.1 + x.2 <= y.1 \/ y.1 + y.2 <= x.1.
Proof.
  intros [Hh Hl Hb] Hi Hj Hij Hx Hy. simpl in *.
  assert (NoDup (live (mList a))) as Hnd.
  { apply NoDup_filter. eapply tiles_NoDup, heap_tiles, Hh. }
  rewrite Hl in Hnd.
  assert (exists h3, held ≡ₚ x :: y :: h3) as [h3 Hperm].
  { apply list_elem_of_split_length in Hi as (h1 & h2 & -> & ->). assert (y ∈ h1 ++ h2) as Hin.
    { apply lookup_app_Some in Hj as [Hj|[Hle Hj]]; apply elem_of_app.
      - left. by eapply list_elem_of_lookup_2.
      - right. destruct (j - length h1)%nat as [|m] eqn:E; [lia|]. by eapply list_elem_of_lookup_2. }
    apply elem_of_Permutation in Hin as [h3 Hin]. exists h3. by rewrite <- Permutation_middle, Hin. }
  assert (backing x <> backing y) as Hne.
  { rewrite Hperm, !filter_cons_True in Hnd by done. simpl in Hnd. apply NoDup_cons in Hnd as [Hnd _].
    intros Heq. apply Hnd, elem_of_cons. by left. }
  assert (Hback : forall z, z ∈ held -> has_block z -> backing z ∈ mList a).
  { intros z Hz Hbz. eapply list_elem_of_filter with (P := fun c => free c = false).
    change (backing z ∈ live (mList a)). rewrite Hl. apply elem_of_map. exists z. split; [|done]. by apply list_elem_of_filter. }
  apply list_elem_of_lookup_2 in Hi as Hxin, Hj as Hyin.
  pose proof (Hback x Hxin Hx) as Hbx. pose proof (Hback y Hyin Hy) as Hby.
  rewrite Forall_forall in Hb. destruct (Hb x Hxin) as [Hx0 [ox Hox]]. destruct (Hb y Hyin) as [Hy0 [oy Hoy]].
  pose proof (units_for_bound x.2). pose proof (units_for_bound y.2).
  pose proof (units_for_pos x.2). pose proof (units_for_pos y.2). unfold has_block in *.
  destruct (decide (x.1 + x.2 <= y.1)) as [|Hn1]; [by left|right]. destruct (decide (y.1 + y.2 <= x.1)) as [|Hn2]; [done|].
  exfalso. apply Hne. apply heap_tiles in Hh.
  eapply (tiles_disjoint _ _ _ _ _ (Z.max ox oy) Hh Hbx Hby); unfold backing; simpl;
    rewrite ?Hox, ?Hoy, Z.div_mul by done; lia.
Qed.

End Dealer.

(** C28: on a heap of any size, whatever sequence of releases and of allocations of at most
    [largest_request] = 2^64 - 32 bytes the clients of a dealer make, the [Allocation]s they
    hold (those of non-zero size) never share a byte, and all lie inside the heap, which is
    at least as large as requested. The bound on the requests is needed: an allocation of
    more bytes overflows and shares bytes with the next one ([alloc_size_overflow]). *)
Theorem dealer_blocks_disjoint pagesize k sz a held :
  5 <= k <= 30 -> pagesize = 2 ^ k -> 0 < sz -> sz + pagesize <= 18446744073709551616 ->
  rtc (dealer_step pagesize) (new pagesize sz, []) (a, held) ->
  sz <= mHeapSize (new pagesize sz) /\
  (forall x, x ∈ held -> x.2 <> 0 -> 0 <= x.1 /\ x.1 + x.2 <= mHeapSize (new pagesize sz)) /\
  (forall i j x y, held !! i = Some x -> held !! j = Some y -> i <> j -> x.2 <> 0 -> y.2 <> 0 ->
     x.1 + x.2 <= y.1 \/ y.1 + y.2 <= x.1).
Proof.
  intros Hk Hp Hsz Hle Hsteps. destruct (new_size pagesize k Hk Hp sz Hsz Hle) as [Hbig _]. destruct (first_units_fit pagesize k Hk Hp sz Hsz Hle) as [Hu Hin]. split; [done|].
  destruct (decide (first_units pagesize sz = 0)) as [Hz|Hnz].
  - assert (no_units (a, held)) as [_ Hb]; [|simpl in Hb; rewrite Forall_forall in Hb].
    { apply (no_units_steps pagesize k _ _ Hsteps). split; [|constructor]. unfold first_units in Hz. simpl in *. unfold new_chunk, kMemoryAlign. by rewrite Hz. }
    split; [intros x Hx Hnx; by rewrite Hb in Hnx|]. intros i j x y Hi _ _ Hnx. by rewrite (Hb x) in Hnx by (by eapply list_elem_of_lookup_2).
  - pose proof (dealer_steps_ok pagesize k Hk Hp _ _ _ Hsteps (new_ok pagesize k Hk Hp sz Hsz Hle ltac:(lia))) as Hok. split.
    + intros x Hx Hnx. edestruct block_inside as [H1 H2]; [exact Hok|exact Hx|exact Hnx|]. lia.
    + intros i j x y Hi Hj Hij Hx Hy. by eapply blocks_apart.
Qed.

Lemma dealer_blocks_disjoint_witness :
  let a := (MemoryDealer.allocate 4096 (MemoryDealer.allocate 4096 (new 4096 5000) 100).2 50).2 in
  mHeapSize (new 4096 5000) = 8192 /\
  (forall i j x y, [(128, 50); (0, 100)] !! i = Some x -> [(128, 50); (0, 100)] !! j = Some y -> i <> j ->
     x.2 <> 0 -> y.2 <> 0 -> x.1 + x.2 <= y.1 \/ y.1 + y.2 <= x.1).
Proof.
  intros a. split; [vm_compute; reflexivity|].
  eapply (dealer_blocks_disjoint 4096 12 5000 a); [lia|reflexivity|lia|lia|].
  eapply rtc_l; [apply (dealer_allocate 4096 _ _ 100 (Some (0, 100))); [unfold largest_request; lia|vm_compute; reflexivity]|].
  eapply rtc_l; [apply (dealer_allocate 4096 _ _ 50 (Some (128, 50))); [unfold largest_request; lia|vm_compute; reflexivity]|].
  apply rtc_refl.
Defined.

(** the rounding of [alloc] overflows for sizes within 31 bytes of [SIZE_MAX]: on a
    fresh 4 KB heap an allocation of [2^64 - 1] bytes succeeds at offset 0, taking no
    unit at all, and a following allocation of 32 bytes is given the same offset. *)
Theorem alloc_size_overflow :
  let '(r1, a1) := MemoryDealer.allocate 4096 (new 4096 4096) 18446744073709551615 in
  let '(r2, _) := MemoryDealer.allocate 4096 a1 32 in
  r1 = Some (0, 18446744073709551615) /\ r2 = Some (0, 32).
Proof. vm_compute. split; reflexivity. Qed.

(** A chunk keeps 28 bits of its size: on a heap of 8 GB the first chunk is empty, and no
    block is ever given out. *)
Theorem heap_of_8GB_is_empty : mHeapSize (new 4096 8589934592) = 8589934592 /\ (MemoryDealer.allocate 4096 (new 4096 8589934592) 32).1 = None.
Proof. vm_compute. split; reflexivity. Qed.
