(* ===== verification/BufferSlot.v ===== *)
(** * Buffer slots and queued items

    The data the buffer queue is made of: [BufferState] and [BufferSlot]
    (libs/gui/include/gui/BufferSlot.h), [BufferItem] (libs/gui/BufferItem.cpp), the
    attributes of a [GraphicBuffer] that decide whether it can be reused
    (libs/ui/GraphicBuffer.cpp), and the constants of the headers.

    Handles that the queue only stores and compares (EGL objects, listeners, HDR
    metadata, native handles) are numbers; a null [sp<>] is [None]. *)

From S2P Require Import Prelude Geometry RegionHelper Region.

Definition NUM_BUFFER_SLOTS : Z := 64.
Definition INVALID_BUFFER_SLOT : Z := -1.
Definition BUFFER_NEEDS_REALLOCATION : Z := 1.
Definition RELEASE_ALL_BUFFERS : Z := 2.

(** results of the consumer interface that are not errors *)
Definition STALE_BUFFER_SLOT : status_t := 1.
Definition NO_BUFFER_AVAILABLE : status_t := 2.
Definition PRESENT_LATER : status_t := 3.

Definition NATIVE_WINDOW_API_EGL : Z := 1.
Definition NATIVE_WINDOW_API_CPU : Z := 2.
Definition NATIVE_WINDOW_API_MEDIA : Z := 3.
Definition NATIVE_WINDOW_API_CAMERA : Z := 4.
Definition NATIVE_WINDOW_TRANSFORM_ROT_90 : Z := 4.
Definition NATIVE_WINDOW_TRANSFORM_INVERSE_DISPLAY : Z := 8.
Definition NATIVE_WINDOW_SCALING_MODE_FREEZE : Z := 0.
Definition NATIVE_WINDOW_SCALING_MODE_SCALE_TO_WINDOW : Z := 1.
Definition NATIVE_WINDOW_SCALING_MODE_SCALE_CROP : Z := 2.
Definition NATIVE_WINDOW_SCALING_MODE_NO_SCALE_CROP : Z := 3.
Definition HAL_DATASPACE_UNKNOWN : Z := 0.
Definition PIXEL_FORMAT_UNKNOWN : Z := 0.
Definition PIXEL_FORMAT_RGBA_8888 : Z := 1.
Definition EGL_NO_DISPLAY : Z := 0.
Definition EGL_NO_SYNC_KHR : Z := 0.

(** [transform & ~static_cast<uint32_t>(f)] *)
Definition without_flag (transform f : Z) : Z := Z.land transform (uint32 (Z.lnot f)).
Definition has_flag (transform f : Z) : bool := negb (Z.land transform f =? 0).

Inductive Fence := NO_FENCE | SyncFence (id : Z).

#[global] Instance Fence_eq_dec : EqDecision Fence.
Proof. solve_decision. Defined.

(** ** GraphicBuffer *)
Module GraphicBuffer.

Record t := mk {
  mId : Z; width : Z; height : Z; format : Z; layerCount : Z; usage : Z; mGenerationNumber : Z }.

#[global] Instance eq_dec : EqDecision t.
Proof. solve_decision. Defined.

Definition USAGE_PROTECTED : Z := 16384.

Definition needsReallocation (b : t) (inWidth inHeight inFormat inLayerCount inUsage : Z) : bool :=
  if negb (int32 inWidth =? width b) then true
  else if negb (int32 inHeight =? height b) then true
  else if negb (inFormat =? format b) then true
  else if negb (inLayerCount =? layerCount b) then true
  else if negb (Z.land (usage b) inUsage =? inUsage) then true
  else if negb (Z.land (usage b) USAGE_PROTECTED =? Z.land inUsage USAGE_PROTECTED) then true
  else false.

Definition setGenerationNumber (b : t) (generation : Z) : t :=
  mk (mId b) (width b) (height b) (format b) (layerCount b) (usage b) generation.

End GraphicBuffer.

(** ** BufferState *)
Module BufferState.

Record t := mk { mDequeueCount : Z; mQueueCount : Z; mAcquireCount : Z; mShared : bool }.

#[global] Instance eq_dec : EqDecision t.
Proof. solve_decision. Defined.

Definition new : t := mk 0 0 0 false.

Definition isDequeued (s : t) : bool := 0 <? mDequeueCount s.
Definition isQueued (s : t) : bool := 0 <? mQueueCount s.
Definition isAcquired (s : t) : bool := 0 <? mAcquireCount s.
Definition isFree (s : t) : bool := negb (isAcquired s) && negb (isDequeued s) && negb (isQueued s).
Definition isShared (s : t) : bool := mShared s.

Definition reset (_ : t) : t := new.

(** [mCount++] and [if (mCount > 0) mCount--] on a [uint32_t] *)
Definition incr (n : Z) : Z := uint32 (n + 1).
Definition decr (n : Z) : Z := if 0 <? n then n - 1 else n.

Definition dequeue (s : t) : t := mk (incr (mDequeueCount s)) (mQueueCount s) (mAcquireCount s) (mShared s).
Definition detachProducer (s : t) : t := mk (decr (mDequeueCount s)) (mQueueCount s) (mAcquireCount s) (mShared s).
Definition attachProducer (s : t) : t := mk (incr (mDequeueCount s)) (mQueueCount s) (mAcquireCount s) (mShared s).
Definition queue (s : t) : t := mk (decr (mDequeueCount s)) (incr (mQueueCount s)) (mAcquireCount s) (mShared s).
Definition cancel (s : t) : t := mk (decr (mDequeueCount s)) (mQueueCount s) (mAcquireCount s) (mShared s).
Definition freeQueued (s : t) : t := mk (mDequeueCount s) (decr (mQueueCount s)) (mAcquireCount s) (mShared s).
Definition acquire (s : t) : t := mk (mDequeueCount s) (decr (mQueueCount s)) (incr (mAcquireCount s)) (mShared s).
Definition acquireNotInQueue (s : t) : t := mk (mDequeueCount s) (mQueueCount s) (incr (mAcquireCount s)) (mShared s).
Definition release (s : t) : t := mk (mDequeueCount s) (mQueueCount s) (decr (mAcquireCount s)) (mShared s).
Definition detachConsumer (s : t) : t := mk (mDequeueCount s) (mQueueCount s) (decr (mAcquireCount s)) (mShared s).
Definition attachConsumer (s : t) : t := mk (mDequeueCount s) (mQueueCount s) (incr (mAcquireCount s)) (mShared s).

(** the assignment [mShared = b] *)
Definition set_shared (b : bool) (s : t) : t := mk (mDequeueCount s) (mQueueCount s) (mAcquireCount s) b.

Definition string (s : t) : String.string :=
  if isShared s then "SHARED"
  else if isFree s then "FREE"
  else if isAcquired s then "ACQUIRED"
  else if isDequeued s then "DEQUEUED"
  else if isQueued s then "QUEUED"
  else "UNKNOWN".

End BufferState.

(** ** BufferSlot *)
Module BufferSlot.

Record t := mk {
  mGraphicBuffer : option GraphicBuffer.t;
  mEglDisplay : Z;
  mBufferState : BufferState.t;
  mRequestBufferCalled : bool;
  mFrameNumber : Z;
  mEglFence : Z;
  mFence : option Fence;
  mAcquireCalled : bool;
  mNeedsReallocation : bool }.

Definition new : t :=
  mk None EGL_NO_DISPLAY BufferState.new false 0 EGL_NO_SYNC_KHR (Some NO_FENCE) false false.

Definition eta (s : t) : t :=
  mk (mGraphicBuffer s) (mEglDisplay s) (mBufferState s) (mRequestBufferCalled s) (mFrameNumber s)
     (mEglFence s) (mFence s) (mAcquireCalled s) (mNeedsReallocation s).

#[global] Instance set_mGraphicBuffer : Setter mGraphicBuffer := ltac:(setter_of eta mGraphicBuffer).
#[global] Instance set_mEglDisplay : Setter mEglDisplay := ltac:(setter_of eta mEglDisplay).
#[global] Instance set_mBufferState : Setter mBufferState := ltac:(setter_of eta mBufferState).
#[global] Instance set_mRequestBufferCalled : Setter mRequestBufferCalled := ltac:(setter_of eta mRequestBufferCalled).
#[global] Instance set_mFrameNumber : Setter mFrameNumber := ltac:(setter_of eta mFrameNumber).
#[global] Instance set_mEglFence : Setter mEglFence := ltac:(setter_of eta mEglFence).
#[global] Instance set_mFence : Setter mFence := ltac:(setter_of eta mFence).
#[global] Instance set_mAcquireCalled : Setter mAcquireCalled := ltac:(setter_of eta mAcquireCalled).
#[global] Instance set_mNeedsReallocation : Setter mNeedsReallocation := ltac:(setter_of eta mNeedsReallocation).

(** a transition of the state of the slot *)
Definition on_state (f : BufferState.t -> BufferState.t) (s : t) : t := s <| mBufferState := f (mBufferState s) |>.

End BufferSlot.

(** ** BufferItem *)
Module BufferItem.

Record t := mk {
  mGraphicBuffer : option GraphicBuffer.t;
  mFence : option Fence;
  mCrop : rect;
  mTransform : Z;
  mScalingMode : Z;
  mTimestamp : Z;
  mIsAutoTimestamp : bool;
  mDataSpace : Z;
  mHdrMetadata : Z;
  mFrameNumber : Z;
  mSlot : Z;
  mIsDroppable : bool;
  mAcquireCalled : bool;
  mTransformToDisplayInverse : bool;
  mSurfaceDamage : Region.t;
  mAutoRefresh : bool;
  mQueuedBuffer : bool;
  mIsStale : bool;
  mApi : Z }.

Definition new : t :=
  mk None None Rect.INVALID_RECT 0 NATIVE_WINDOW_SCALING_MODE_FREEZE 0 false HAL_DATASPACE_UNKNOWN 0 0
     INVALID_BUFFER_SLOT false false false Region.new false true false 0.

Definition eta (b : t) : t :=
  mk (mGraphicBuffer b) (mFence b) (mCrop b) (mTransform b) (mScalingMode b) (mTimestamp b) (mIsAutoTimestamp b)
     (mDataSpace b) (mHdrMetadata b) (mFrameNumber b) (mSlot b) (mIsDroppable b) (mAcquireCalled b)
     (mTransformToDisplayInverse b) (mSurfaceDamage b) (mAutoRefresh b) (mQueuedBuffer b) (mIsStale b) (mApi b).

#[global] Instance set_mGraphicBuffer : Setter mGraphicBuffer := ltac:(setter_of eta mGraphicBuffer).
#[global] Instance set_mAcquireCalled : Setter mAcquireCalled := ltac:(setter_of eta mAcquireCalled).
#[global] Instance set_mSurfaceDamage : Setter mSurfaceDamage := ltac:(setter_of eta mSurfaceDamage).
#[global] Instance set_mIsStale : Setter mIsStale := ltac:(setter_of eta mIsStale).

End BufferItem.
