(* ===== verification/OccupancyTracker.v ===== *)
(** * OccupancyTracker (libs/gui/OccupancyTracker.cpp)

    The history of how many frames were pending in a buffer queue. The average of
    a segment is a [float] of the source; it is kept as the terms it is computed
    from, the time spent at each occupancy and the total time. *)

From S2P Require Import Prelude.

Module OccupancyTracker.

Definition MAX_HISTORY_SIZE : nat := 10.
Definition NEW_SEGMENT_DELAY : Z := 100000000.
Definition LONG_SEGMENT_THRESHOLD : Z := 3.

Record Segment := mkSegment {
  totalTime : Z; numFrames : Z; occupancyAverage : gmap Z Z * Z; usedThirdBuffer : bool }.

Record PendingSegment := mkPending { pTotalTime : Z; pNumFrames : Z; mOccupancyTimes : gmap Z Z }.

Record t := mk {
  mPendingSegment : PendingSegment;
  mSegmentHistory : list Segment;
  mLastOccupancy : Z;
  mLastOccupancyChangeTime : Z }.

Definition clear : PendingSegment := mkPending 0 0 ∅.

Definition new : t := mk clear [] 0 0.

(** whether an occupancy of more than one frame was recorded *)
Definition used_third (times : gmap Z Z) : bool :=
  map_fold (fun occupancy _ used => used || (1 <? occupancy)) false times.

Definition recordPendingSegment (o : t) : t :=
  let p := mPendingSegment o in
  let history :=
    if LONG_SEGMENT_THRESHOLD <? pNumFrames p then
      let h := mkSegment (pTotalTime p) (pNumFrames p) (mOccupancyTimes p, pTotalTime p)
                         (used_third (mOccupancyTimes p)) :: mSegmentHistory o in
      if (MAX_HISTORY_SIZE <? length h)%nat then removelast h else h
    else mSegmentHistory o in
  mk clear history (mLastOccupancy o) (mLastOccupancyChangeTime o).

(** [now] is [systemTime()] *)
Definition registerOccupancyChange (o : t) (occupancy now : Z) : t :=
  let delta := int64 (now - mLastOccupancyChangeTime o) in
  let o :=
    if NEW_SEGMENT_DELAY <? delta then recordPendingSegment o
    else
      let p := mPendingSegment o in
      let times := match mOccupancyTimes p !! mLastOccupancy o with
                   | Some t0 => <[mLastOccupancy o := int64 (t0 + delta)]> (mOccupancyTimes p)
                   | None => <[mLastOccupancy o := delta]> (mOccupancyTimes p)
                   end in
      mk (mkPending (int64 (pTotalTime p + delta)) (pNumFrames p) times)
         (mSegmentHistory o) (mLastOccupancy o) (mLastOccupancyChangeTime o) in
  let p := mPendingSegment o in
  let p := if mLastOccupancy o <? occupancy
           then mkPending (pTotalTime p) (uint64 (pNumFrames p + 1)) (mOccupancyTimes p) else p in
  mk p (mSegmentHistory o) occupancy now.

(** the segments, newest first, and the tracker without them *)
Definition getSegmentHistory (o : t) (forceFlush : bool) : list Segment * t :=
  let o := if forceFlush then recordPendingSegment o else o in
  (mSegmentHistory o, mk (mPendingSegment o) [] (mLastOccupancy o) (mLastOccupancyChangeTime o)).

(** ** Properties *)

(** The time of the pending segment is what its occupancies add up to. *)
Definition total (times : gmap Z Z) : Z := map_fold (fun _ v acc => v + acc) 0 times.

Record ok (o : t) : Prop := {
  ok_history : (length (mSegmentHistory o) <= MAX_HISTORY_SIZE)%nat;
  ok_segments : Forall (fun s => LONG_SEGMENT_THRESHOLD < numFrames s /\ totalTime s = total (occupancyAverage s).1 /\
                                 (occupancyAverage s).2 = totalTime s) (mSegmentHistory o);
  ok_pending : pTotalTime (mPendingSegment o) = total (mOccupancyTimes (mPendingSegment o)) }.

Lemma total_insert times k v : total (<[k := v]> times) = v + total (delete k times).
Proof.
  unfold total. rewrite <- insert_delete_eq. apply (map_fold_insert_L (fun _ v acc => v + acc)).
  - intros; lia.
  - apply lookup_delete_eq.
Qed.

Lemma total_delete times k v : times !! k = Some v -> total times = v + total (delete k times).
Proof. intros Hk. rewrite <- total_insert. by rewrite insert_id. Qed.

Lemma record_ok o : ok o -> ok (recordPendingSegment o).
Proof.
  intros [Hh Hs Hp]. unfold recordPendingSegment.
  destruct (LONG_SEGMENT_THRESHOLD <? pNumFrames (mPendingSegment o)) eqn:E; bool_to_prop; [|by constructor].
  set (h := _ :: _). assert (Forall (fun s => LONG_SEGMENT_THRESHOLD < numFrames s /\ totalTime s = total (occupancyAverage s).1 /\
    (occupancyAverage s).2 = totalTime s) h) as Hh' by (constructor; [|done]; simpl; auto).
  destruct (MAX_HISTORY_SIZE <? length h)%nat eqn:E2.
  - apply Nat.ltb_lt in E2. unfold h in *. rewrite removelast_firstn_len in *. constructor; simpl mSegmentHistory; [|by apply Forall_take|done].
    rewrite length_firstn. simpl in *. lia.
  - apply Nat.ltb_ge in E2. constructor; simpl; [|done..]. unfold MAX_HISTORY_SIZE in *. unfold h in E2. simpl in E2. lia.
Qed.

(** Times are kept without overflow while they stay below a century or so. *)
Lemma int64_small z : - 9223372036854775808 <= z < 9223372036854775808 -> int64 z = z.
Proof. intros. unfold int64. rewrite Z.mod_small by lia. lia. Qed.

(** the changes [(occupancy, time)] in order of time, after [last] *)
Fixpoint in_order (last : Z) (l : list (Z * Z)) : Prop :=
  match l with
  | [] => True
  | (_, now) :: l => last <= now < 4611686018427387904 /\ in_order now l
  end.

Definition register_all (l : list (Z * Z)) (o : t) : t := foldl (fun o x => registerOccupancyChange o x.1 x.2) o l.

(** times are not negative, and not longer than the clock has run *)
Record timely (o : t) : Prop := {
  timely_ok : ok o;
  timely_values : map_Forall (fun _ v => 0 <= v) (mOccupancyTimes (mPendingSegment o));
  timely_total : pTotalTime (mPendingSegment o) <= mLastOccupancyChangeTime o < 4611686018427387904 }.

Lemma total_nonneg times : map_Forall (fun _ v => 0 <= v) times -> 0 <= total times.
Proof.
  induction times as [|k v times Hk IH] using map_ind; [done|].
  intros [Hv Hr]%map_Forall_insert; [|done]. rewrite total_insert, delete_id by done. specialize (IH Hr). lia.
Qed.

Lemma value_le_total times k v : map_Forall (fun _ v => 0 <= v) times -> times !! k = Some v -> 0 <= v <= total times.
Proof.
  intros Hf Hk. rewrite (total_delete _ _ _ Hk). pose proof (total_nonneg (delete k times) (map_Forall_delete _ _ _ Hf)).
  specialize (Hf k v Hk). simpl in Hf. lia.
Qed.

Lemma register_timely o occupancy now : timely o -> mLastOccupancyChangeTime o <= now < 4611686018427387904 -> 0 <= mLastOccupancyChangeTime o ->
  timely (registerOccupancyChange o occupancy now) /\ mLastOccupancyChangeTime (registerOccupancyChange o occupancy now) = now.
Proof.
  intros [Hok Hv Ht] Hnow H0. split; [|done]. unfold registerOccupancyChange. rewrite (int64_small (now - _)) by lia.
  set (delta := now - mLastOccupancyChangeTime o). destruct (NEW_SEGMENT_DELAY <? delta).
  - destruct (record_ok o Hok) as [K1 K2 K3]. destruct (_ <? occupancy); (constructor; [by constructor|done|]); simpl; lia.
  - destruct Hok as [K1 K2 K3]. pose proof (total_nonneg _ Hv). rewrite (int64_small (_ + delta)) by lia.
    set (times := match _ with Some _ => _ | None => _ end).
    assert (Htimes : total times = total (mOccupancyTimes (mPendingSegment o)) + delta /\ map_Forall (fun _ v => 0 <= v) times).
    { unfold times. destruct (mOccupancyTimes (mPendingSegment o) !! mLastOccupancy o) as [v|] eqn:Ek.
      - destruct (value_le_total _ _ _ Hv Ek). rewrite total_insert, (total_delete _ _ _ Ek), int64_small by lia.
        split; [lia|]. apply map_Forall_insert_2; [lia|done].
      - rewrite total_insert, delete_id by done. split; [lia|]. apply map_Forall_insert_2; [lia|done]. }
    destruct Htimes as [T1 T2]. destruct (_ <? occupancy); (constructor; [constructor; simpl; (done || lia)|done|simpl; lia]).
Qed.

(** From a new tracker and through any changes of the occupancy in order of time, the
    history never exceeds [MAX_HISTORY_SIZE] segments, every recorded segment is long
    enough and its total time is the sum of the times it spent at each occupancy, and
    the same holds of the pending segment: no time is lost or counted twice, and no
    counter overflows (for times below 2^62 ns). *)
Theorem occupancy_times_add_up (changes : list (Z * Z)) : in_order 0 changes -> ok (register_all changes new).
Proof.
  assert (Hgen : forall l o, timely o -> 0 <= mLastOccupancyChangeTime o -> in_order (mLastOccupancyChangeTime o) l -> ok (register_all l o)).
  { induction l as [|[occupancy now] l IH]; intros o Ho H0; simpl; [by intros _; apply Ho|]. intros [Hnow Hl].
    destruct (register_timely o occupancy now Ho Hnow H0) as [H1 H2]. apply IH; rewrite ?H2; [done|lia|done]. }
  apply (Hgen changes new); [|simpl; lia]. constructor; [constructor; simpl; [unfold MAX_HISTORY_SIZE; lia|constructor|done]|apply map_Forall_empty|simpl; lia].
Qed.

Lemma occupancy_times_add_up_witness : ok (register_all [(1, 10); (2, 50); (1, 70); (2, 200000000)] new).
Proof. apply occupancy_times_add_up. simpl. repeat split; lia. Defined.

End OccupancyTracker.
