(* ===== verification/BufferQueueCore.v ===== *)
(** * BufferQueueCore (libs/gui/BufferQueueCore.cpp, libs/gui/include/gui/BufferQueueCore.h)

    The state that the producer and the consumer of a buffer queue share, and the
    helpers that both call with the lock held. [std::set<int>] members are sorted
    lists (module [StdSet] of the prelude); [std::list<int>] and [Vector] members are lists.

    The calls that the queue makes to other components (listeners, EGL, condition
    variables, fences) are recorded in order in the field [events]. *)

From S2P Require Import Prelude Geometry RegionHelper Region BufferSlot OccupancyTracker.

(** A producer listener, with what its methods answer: whether its binder is remote,
    the result of [linkToDeath] on it, and [needsReleaseNotify()]. *)
Record IProducerListener := mkProducerListener {
  listener_id : Z; is_remote : bool; linkToDeath_result : status_t; needsReleaseNotify : bool }.

(** Calls out of the buffer queue. *)
Inductive event :=
| onFrameAvailable (listener : Z) (item : BufferItem.t)
| onFrameReplaced (listener : Z) (item : BufferItem.t)
| onBuffersReleased (listener : Z)
| onSidebandStreamChanged (listener : Z)
| onDisconnect (listener : Z)
| onFrameDequeued (listener : Z) (bufferId : Z)
| onFrameCancelled (listener : Z) (bufferId : Z)
| onFrameDetached (listener : Z) (bufferId : Z)
| addAndGetFrameTimestamps_call (listener : Z) (frameNumber : option Z)
| onBufferReleased (listener : Z)
| onBuffersDiscarded (listener : Z) (slots : list Z)
| linkToDeath_call (listener : Z)
| unlinkToDeath_call (listener : Z)
| eglDestroySyncKHR (display fence : Z)
| eglClientWaitSyncKHR (display fence : Z)
| fence_waitForever (fence : option Fence)
| notify_mDequeueCondition
| notify_mIsAllocatingCondition
| notify_mDequeueWaitingForAllocationCondition
| notify_mCallbackCondition.

Module BufferQueueCore.

Definition MAX_MAX_ACQUIRED_BUFFERS : Z := NUM_BUFFER_SLOTS - 2.
Definition CURRENTLY_CONNECTED_API : Z := -1.
Definition NO_CONNECTED_API : Z := 0.

Record SharedBufferCache := mkCache { crop : rect; transform : Z; scalingMode : Z; dataspace : Z }.

Record t := mk {
  mIsAbandoned : bool;
  mConsumerControlledByApp : bool;
  mConsumerName : string;
  mConsumerListener : option Z;
  mConsumerUsageBits : Z;
  mConsumerIsProtected : bool;
  mConnectedApi : Z;
  mConnectedPid : Z;
  mLinkedToDeath : option IProducerListener;
  mConnectedProducerListener : option IProducerListener;
  mBufferReleasedCbEnabled : bool;
  mSlots : list BufferSlot.t;
  mQueue : list BufferItem.t;
  mFreeSlots : list Z;
  mFreeBuffers : list Z;
  mUnusedSlots : list Z;
  mActiveBuffers : list Z;
  mDequeueBufferCannotBlock : bool;
  mQueueBufferCanDrop : bool;
  mLegacyBufferDrop : bool;
  mDefaultBufferFormat : Z;
  mDefaultWidth : Z;
  mDefaultHeight : Z;
  mDefaultBufferDataSpace : Z;
  mMaxBufferCount : Z;
  mMaxAcquiredBufferCount : Z;
  mMaxDequeuedBufferCount : Z;
  mBufferHasBeenQueued : bool;
  mFrameCounter : Z;
  mTransformHint : Z;
  mSidebandStream : option Z;
  mIsAllocating : bool;
  mAllowAllocation : bool;
  mBufferAge : Z;
  mGenerationNumber : Z;
  mAsyncMode : bool;
  mSharedBufferMode : bool;
  mAutoRefresh : bool;
  mSharedBufferSlot : Z;
  mSharedBufferCache : SharedBufferCache;
  mLastQueuedSlot : Z;
  mOccupancyTracker : OccupancyTracker.t;
  mUniqueId : Z;
  mAutoPrerotation : bool;
  mTransformHintInUse : Z;
  events : list event }.

Definition eta (c : t) : t :=
  mk (mIsAbandoned c) (mConsumerControlledByApp c) (mConsumerName c) (mConsumerListener c) (mConsumerUsageBits
     c) (mConsumerIsProtected c) (mConnectedApi c) (mConnectedPid c) (mLinkedToDeath c)
     (mConnectedProducerListener c) (mBufferReleasedCbEnabled c) (mSlots c) (mQueue c) (mFreeSlots c)
     (mFreeBuffers c) (mUnusedSlots c) (mActiveBuffers c) (mDequeueBufferCannotBlock c) (mQueueBufferCanDrop
     c) (mLegacyBufferDrop c) (mDefaultBufferFormat c) (mDefaultWidth c) (mDefaultHeight c)
     (mDefaultBufferDataSpace c) (mMaxBufferCount c) (mMaxAcquiredBufferCount c) (mMaxDequeuedBufferCount c)
     (mBufferHasBeenQueued c) (mFrameCounter c) (mTransformHint c) (mSidebandStream c) (mIsAllocating c)
     (mAllowAllocation c) (mBufferAge c) (mGenerationNumber c) (mAsyncMode c) (mSharedBufferMode c)
     (mAutoRefresh c) (mSharedBufferSlot c) (mSharedBufferCache c) (mLastQueuedSlot c) (mOccupancyTracker c)
     (mUniqueId c) (mAutoPrerotation c) (mTransformHintInUse c) (events c).

#[global] Instance set_mIsAbandoned : Setter mIsAbandoned := ltac:(setter_of eta mIsAbandoned).
#[global] Instance set_mConsumerControlledByApp : Setter mConsumerControlledByApp := ltac:(setter_of eta mConsumerControlledByApp).
#[global] Instance set_mConsumerName : Setter mConsumerName := ltac:(setter_of eta mConsumerName).
#[global] Instance set_mConsumerListener : Setter mConsumerListener := ltac:(setter_of eta mConsumerListener).
#[global] Instance set_mConsumerUsageBits : Setter mConsumerUsageBits := ltac:(setter_of eta mConsumerUsageBits).
#[global] Instance set_mConsumerIsProtected : Setter mConsumerIsProtected := ltac:(setter_of eta mConsumerIsProtected).
#[global] Instance set_mConnectedApi : Setter mConnectedApi := ltac:(setter_of eta mConnectedApi).
#[global] Instance set_mConnectedPid : Setter mConnectedPid := ltac:(setter_of eta mConnectedPid).
#[global] Instance set_mLinkedToDeath : Setter mLinkedToDeath := ltac:(setter_of eta mLinkedToDeath).
#[global] Instance set_mConnectedProducerListener : Setter mConnectedProducerListener := ltac:(setter_of eta mConnectedProducerListener).
#[global] Instance set_mBufferReleasedCbEnabled : Setter mBufferReleasedCbEnabled := ltac:(setter_of eta mBufferReleasedCbEnabled).
#[global] Instance set_mSlots : Setter mSlots := ltac:(setter_of eta mSlots).
#[global] Instance set_mQueue : Setter mQueue := ltac:(setter_of eta mQueue).
#[global] Instance set_mFreeSlots : Setter mFreeSlots := ltac:(setter_of eta mFreeSlots).
#[global] Instance set_mFreeBuffers : Setter mFreeBuffers := ltac:(setter_of eta mFreeBuffers).
#[global] Instance set_mUnusedSlots : Setter mUnusedSlots := ltac:(setter_of eta mUnusedSlots).
#[global] Instance set_mActiveBuffers : Setter mActiveBuffers := ltac:(setter_of eta mActiveBuffers).
#[global] Instance set_mDequeueBufferCannotBlock : Setter mDequeueBufferCannotBlock := ltac:(setter_of eta mDequeueBufferCannotBlock).
#[global] Instance set_mQueueBufferCanDrop : Setter mQueueBufferCanDrop := ltac:(setter_of eta mQueueBufferCanDrop).
#[global] Instance set_mLegacyBufferDrop : Setter mLegacyBufferDrop := ltac:(setter_of eta mLegacyBufferDrop).
#[global] Instance set_mDefaultBufferFormat : Setter mDefaultBufferFormat := ltac:(setter_of eta mDefaultBufferFormat).
#[global] Instance set_mDefaultWidth : Setter mDefaultWidth := ltac:(setter_of eta mDefaultWidth).
#[global] Instance set_mDefaultHeight : Setter mDefaultHeight := ltac:(setter_of eta mDefaultHeight).
#[global] Instance set_mDefaultBufferDataSpace : Setter mDefaultBufferDataSpace := ltac:(setter_of eta mDefaultBufferDataSpace).
#[global] Instance set_mMaxBufferCount : Setter mMaxBufferCount := ltac:(setter_of eta mMaxBufferCount).
#[global] Instance set_mMaxAcquiredBufferCount : Setter mMaxAcquiredBufferCount := ltac:(setter_of eta mMaxAcquiredBufferCount).
#[global] Instance set_mMaxDequeuedBufferCount : Setter mMaxDequeuedBufferCount := ltac:(setter_of eta mMaxDequeuedBufferCount).
#[global] Instance set_mBufferHasBeenQueued : Setter mBufferHasBeenQueued := ltac:(setter_of eta mBufferHasBeenQueued).
#[global] Instance set_mFrameCounter : Setter mFrameCounter := ltac:(setter_of eta mFrameCounter).
#[global] Instance set_mTransformHint : Setter mTransformHint := ltac:(setter_of eta mTransformHint).
#[global] Instance set_mSidebandStream : Setter mSidebandStream := ltac:(setter_of eta mSidebandStream).
#[global] Instance set_mIsAllocating : Setter mIsAllocating := ltac:(setter_of eta mIsAllocating).
#[global] Instance set_mAllowAllocation : Setter mAllowAllocation := ltac:(setter_of eta mAllowAllocation).
#[global] Instance set_mBufferAge : Setter mBufferAge := ltac:(setter_of eta mBufferAge).
#[global] Instance set_mGenerationNumber : Setter mGenerationNumber := ltac:(setter_of eta mGenerationNumber).
#[global] Instance set_mAsyncMode : Setter mAsyncMode := ltac:(setter_of eta mAsyncMode).
#[global] Instance set_mSharedBufferMode : Setter mSharedBufferMode := ltac:(setter_of eta mSharedBufferMode).
#[global] Instance set_mAutoRefresh : Setter mAutoRefresh := ltac:(setter_of eta mAutoRefresh).
#[global] Instance set_mSharedBufferSlot : Setter mSharedBufferSlot := ltac:(setter_of eta mSharedBufferSlot).
#[global] Instance set_mSharedBufferCache : Setter mSharedBufferCache := ltac:(setter_of eta mSharedBufferCache).
#[global] Instance set_mLastQueuedSlot : Setter mLastQueuedSlot := ltac:(setter_of eta mLastQueuedSlot).
#[global] Instance set_mOccupancyTracker : Setter mOccupancyTracker := ltac:(setter_of eta mOccupancyTracker).
#[global] Instance set_mUniqueId : Setter mUniqueId := ltac:(setter_of eta mUniqueId).
#[global] Instance set_mAutoPrerotation : Setter mAutoPrerotation := ltac:(setter_of eta mAutoPrerotation).
#[global] Instance set_mTransformHintInUse : Setter mTransformHintInUse := ltac:(setter_of eta mTransformHintInUse).
#[global] Instance set_events : Setter events := ltac:(setter_of eta events).

Definition emit (e : event) (c : t) : t := c <| events := events c ++ [e] |>.
(** a call to a listener that may be null *)
Definition notify {A} (l : option A) (e : A -> event) (c : t) : t :=
  match l with Some x => emit (e x) c | None => c end.

(** [mSlots[s]]. The array has no element outside 0 .. 63. *)
Definition slot_at (c : t) (s : Z) : BufferSlot.t :=
  if 0 <=? s then nth (Z.to_nat s) (mSlots c) BufferSlot.new else BufferSlot.new.
Definition set_slot (s : Z) (f : BufferSlot.t -> BufferSlot.t) (c : t) : t :=
  if 0 <=? s then c <| mSlots := alter f (Z.to_nat s) (mSlots c) |> else c.
Definition state_at (c : t) (s : Z) : BufferState.t := BufferSlot.mBufferState (slot_at c s).
Definition in_slots (s : Z) : bool := (0 <=? s) && (s <? NUM_BUFFER_SLOTS).

(** the number of active slots whose state satisfies [p] *)
Definition count_active (p : BufferState.t -> bool) (c : t) : Z :=
  Z.of_nat (length (List.filter (fun s => p (state_at c s)) (mActiveBuffers c))).

(** ** Counts *)

Definition getMinUndequeuedBufferCountLocked (c : t) : Z :=
  if mAsyncMode c || mDequeueBufferCannotBlock c then mMaxAcquiredBufferCount c + 1 else mMaxAcquiredBufferCount c.

Definition getMinMaxBufferCountLocked (c : t) : Z := getMinUndequeuedBufferCountLocked c + 1.

(** the overload with arguments *)
Definition getMaxBufferCountLocked_for (c : t) (asyncMode dequeueBufferCannotBlock : bool) (maxBufferCount : Z) : Z :=
  let maxCount := mMaxAcquiredBufferCount c + mMaxDequeuedBufferCount c +
                  (if asyncMode || dequeueBufferCannotBlock then 1 else 0) in
  Z.min maxBufferCount maxCount.

Definition getMaxBufferCountLocked (c : t) : Z :=
  let maxBufferCount := mMaxAcquiredBufferCount c + mMaxDequeuedBufferCount c +
                        (if mAsyncMode c || mDequeueBufferCannotBlock c then 1 else 0) in
  Z.min (mMaxBufferCount c) maxBufferCount.

(** ** Construction

    [mConnectedPid] is not initialised by the constructor: [pid] is whatever the
    memory held. [name] and [uniqueId] are the results of [getUniqueName()] and
    [getUniqueId()]. *)
Definition init (name : string) (pid uniqueId : Z) : t :=
  mk false false name None 0 false NO_CONNECTED_API pid None None false (replicate 64 BufferSlot.new) [] [] []
     [] [] false false true PIXEL_FORMAT_RGBA_8888 1 1 HAL_DATASPACE_UNKNOWN NUM_BUFFER_SLOTS 1 1 false 0 0
     None false true 0 0 false false false INVALID_BUFFER_SLOT (mkCache Rect.INVALID_RECT 0
     NATIVE_WINDOW_SCALING_MODE_FREEZE HAL_DATASPACE_UNKNOWN) INVALID_BUFFER_SLOT OccupancyTracker.new
     uniqueId false 0 [].

Definition new (name : string) (pid uniqueId : Z) : t :=
  let c := init name pid uniqueId in
  let numStartingBuffers := getMaxBufferCountLocked c in
  c <| mFreeSlots := StdSet.insert_all (seqZ 0 numStartingBuffers) [] |>
    <| mUnusedSlots := foldl (fun l s => s :: l) [] (seqZ numStartingBuffers (NUM_BUFFER_SLOTS - numStartingBuffers)) |>.

(** ** Freeing slots *)

Definition clearBufferSlotLocked (slot : Z) (c : t) : t :=
  let sl := slot_at c slot in
  let c := if negb (BufferSlot.mEglFence sl =? EGL_NO_SYNC_KHR)
           then emit (eglDestroySyncKHR (BufferSlot.mEglDisplay sl) (BufferSlot.mEglFence sl)) c else c in
  let c := set_slot slot (fun sl =>
             BufferSlot.mk None EGL_NO_DISPLAY BufferState.new false 0 EGL_NO_SYNC_KHR (Some NO_FENCE) false true) c in
  if mLastQueuedSlot c =? slot then c <| mLastQueuedSlot := INVALID_BUFFER_SLOT |> else c.

Definition clear_slots (l : list Z) (c : t) : t := foldl (fun c s => clearBufferSlotLocked s c) c l.

(** the body of the loops that move a slot to [mFreeSlots] and clear it *)
Definition free_slot (s : Z) (c : t) : t :=
  clearBufferSlotLocked s (c <| mFreeSlots := StdSet.insert s (mFreeSlots c) |>).
Definition free_slots (l : list Z) (c : t) : t := foldl (fun c s => free_slot s c) c l.

Definition freeAllBuffersLocked (c : t) : t :=
  let c := clear_slots (mFreeSlots c) c in
  let c := free_slots (mFreeBuffers c) c in
  let c := c <| mFreeBuffers := [] |> in
  let c := free_slots (mActiveBuffers c) c in
  let c := c <| mActiveBuffers := [] |> in
  c <| mQueue := map (fun b => b <| BufferItem.mIsStale := true |> <| BufferItem.mAcquireCalled := false |>) (mQueue c) |>.

Definition discardFreeBuffersLocked (c : t) : t :=
  let c := match mConnectedProducerListener c with
           | Some l => if (0 <? length (mFreeBuffers c))%nat
                       then emit (onBuffersDiscarded (listener_id l) (mFreeBuffers c)) c else c
           | None => c
           end in
  let c := free_slots (mFreeBuffers c) c in
  c <| mFreeBuffers := [] |>.

(** ** Changing the number of slots *)

(** [while (delta > 0)]: [n] is the rest of [delta]. *)
Fixpoint grow (n : nat) (c : t) : bool * t :=
  match n with
  | O => (true, c)
  | S n' =>
    match last (mUnusedSlots c) with
    | None => (false, c)
    | Some slot =>
      let c := c <| mUnusedSlots := removelast (mUnusedSlots c) |> in
      grow n' (c <| mFreeSlots := StdSet.insert slot (mFreeSlots c) |>)
    end
  end.

(** [while (delta < 0)]: [n] is the rest of [-delta]. *)
Fixpoint shrink (n : nat) (c : t) : bool * t :=
  match n with
  | O => (true, c)
  | S n' =>
    match mFreeSlots c, last (mFreeBuffers c) with
    | slot :: _, _ =>
      let c := clearBufferSlotLocked slot c in
      let c := c <| mUnusedSlots := mUnusedSlots c ++ [slot] |> in
      shrink n' (c <| mFreeSlots := StdSet.erase slot (mFreeSlots c) |>)
    | [], Some slot =>
      let c := clearBufferSlotLocked slot c in
      let c := c <| mUnusedSlots := mUnusedSlots c ++ [slot] |> in
      shrink n' (c <| mFreeBuffers := removelast (mFreeBuffers c) |>)
    | [], None => (false, c)
    end
  end.

Definition adjustAvailableSlotsLocked (delta : Z) (c : t) : bool * t :=
  if 0 <=? delta then
    if Z.of_nat (length (mUnusedSlots c)) <? delta then (false, c) else grow (Z.to_nat delta) c
  else
    if Z.of_nat (length (mFreeSlots c) + length (mFreeBuffers c)) <? - delta then (false, c)
    else shrink (Z.to_nat (- delta)) c.

(** ** The consistency check of debug builds

    Whether [validateConsistencyLocked] logs no error. *)
Definition validate_slot (c : t) (slot : Z) : bool :=
  let isInFreeSlots := StdSet.count slot (mFreeSlots c) in
  let isInFreeBuffers := bool_decide (slot ∈ mFreeBuffers c) in
  let isInActiveBuffers := StdSet.count slot (mActiveBuffers c) in
  let isInUnusedSlots := bool_decide (slot ∈ mUnusedSlots c) in
  let sl := slot_at c slot in
  let st := BufferSlot.mBufferState sl in
  let has_buffer := bool_decide (is_Some (BufferSlot.mGraphicBuffer sl)) in
  if isInUnusedSlots then
    negb isInFreeSlots && negb isInFreeBuffers && negb isInActiveBuffers && BufferState.isFree st && negb has_buffer
  else if isInFreeSlots then
    negb isInUnusedSlots && negb isInFreeBuffers && negb isInActiveBuffers && BufferState.isFree st && negb has_buffer
  else if isInFreeBuffers then
    negb isInUnusedSlots && negb isInFreeSlots && negb isInActiveBuffers && BufferState.isFree st && has_buffer
  else if isInActiveBuffers then
    negb isInUnusedSlots && negb isInFreeSlots && negb isInFreeBuffers &&
    negb (BufferState.isFree st && negb (BufferState.isShared st)) && negb (negb has_buffer && negb (mIsAllocating c))
  else false.

Definition allocatedSlots (c : t) : Z :=
  Z.of_nat (length (List.filter (fun slot => StdSet.count slot (mFreeSlots c) || bool_decide (slot ∈ mFreeBuffers c) ||
    StdSet.count slot (mActiveBuffers c)) (seqZ 0 NUM_BUFFER_SLOTS))).

Definition validateConsistencyLocked (c : t) : bool :=
  forallb (validate_slot c) (seqZ 0 NUM_BUFFER_SLOTS) && (allocatedSlots c =? getMaxBufferCountLocked c).

End BufferQueueCore.

Example new_is_consistent : BufferQueueCore.validateConsistencyLocked (BufferQueueCore.new "q" 0 1) = true.
Proof. vm_compute. reflexivity. Qed.
