(* ===== verification/BufferQueueProducer.v ===== *)
(** * BufferQueueProducer (libs/gui/BufferQueueProducer.cpp)

    One definition per operation of the producer interface. An operation that holds
    the lock from start to end is one function. An operation that releases the lock
    on the way (to wait on a condition variable, to allocate a buffer, to call back)
    is cut there into the pieces that run atomically; the file
    BufferQueueSystem.v puts them together and interleaves them.

    A piece that has to wait on a condition variable returns [Waits] with the state
    in which the lock is released; the thread resumes at the piece named in its
    comment, on the state it then finds. [Crashes] stands for undefined behaviour
    (a null pointer dereferenced, an index out of the array). *)

From S2P Require Import Prelude Geometry RegionHelper Region BufferSlot OccupancyTracker BufferQueueCore.
Import BufferQueueCore.

Inductive outcome (S A : Type) :=
| Returns (result : A) (state : S)
| Waits (state : S)
| Crashes.
Arguments Returns {S A}.
Arguments Waits {S A}.
Arguments Crashes {S A}.

Module BufferQueueProducer.

Definition BQ_LAYER_COUNT : Z := 1.

Record t := mk {
  mCore : BufferQueueCore.t;
  mConsumerName : string;
  mStickyTransform : Z;
  mConsumerIsSurfaceFlinger : bool;
  mLastQueueBufferFence : option Fence;
  mLastQueuedCrop : rect;
  mLastQueuedTransform : Z;
  mNextCallbackTicket : Z;
  mCurrentCallbackTicket : Z;
  mDequeueTimeout : Z;
  mDequeueWaitingForAllocation : bool }.

Definition eta (p : t) : t :=
  mk (mCore p) (mConsumerName p) (mStickyTransform p) (mConsumerIsSurfaceFlinger p) (mLastQueueBufferFence p)
     (mLastQueuedCrop p) (mLastQueuedTransform p) (mNextCallbackTicket p) (mCurrentCallbackTicket p)
     (mDequeueTimeout p) (mDequeueWaitingForAllocation p).

#[global] Instance set_mCore : Setter mCore := ltac:(setter_of eta mCore).
#[global] Instance set_mConsumerName : Setter mConsumerName := ltac:(setter_of eta mConsumerName).
#[global] Instance set_mStickyTransform : Setter mStickyTransform := ltac:(setter_of eta mStickyTransform).
#[global] Instance set_mLastQueueBufferFence : Setter mLastQueueBufferFence := ltac:(setter_of eta mLastQueueBufferFence).
#[global] Instance set_mLastQueuedCrop : Setter mLastQueuedCrop := ltac:(setter_of eta mLastQueuedCrop).
#[global] Instance set_mLastQueuedTransform : Setter mLastQueuedTransform := ltac:(setter_of eta mLastQueuedTransform).
#[global] Instance set_mNextCallbackTicket : Setter mNextCallbackTicket := ltac:(setter_of eta mNextCallbackTicket).
#[global] Instance set_mCurrentCallbackTicket : Setter mCurrentCallbackTicket := ltac:(setter_of eta mCurrentCallbackTicket).
#[global] Instance set_mDequeueTimeout : Setter mDequeueTimeout := ltac:(setter_of eta mDequeueTimeout).
#[global] Instance set_mDequeueWaitingForAllocation : Setter mDequeueWaitingForAllocation :=
  ltac:(setter_of eta mDequeueWaitingForAllocation).

Definition new (core : BufferQueueCore.t) (consumerIsSurfaceFlinger : bool) : t :=
  mk core EmptyString 0 consumerIsSurfaceFlinger (Some NO_FENCE) Rect.INVALID_RECT 0 0 0 (-1) false.

(** an update of the core that the producer points to *)
Definition on_core (f : BufferQueueCore.t -> BufferQueueCore.t) (p : t) : t := p <| mCore := f (mCore p) |>.

(** ** requestBuffer *)

Definition requestBuffer (p : t) (slot : Z) : status_t * option GraphicBuffer.t * t :=
  let c := mCore p in
  if mIsAbandoned c then (NO_INIT, None, p)
  else if mConnectedApi c =? NO_CONNECTED_API then (NO_INIT, None, p)
  else if (slot <? 0) || (NUM_BUFFER_SLOTS <=? slot) then (BAD_VALUE, None, p)
  else if negb (BufferState.isDequeued (state_at c slot)) then (BAD_VALUE, None, p)
  else
    (NO_ERROR, BufferSlot.mGraphicBuffer (slot_at c slot),
     p <| mCore := set_slot slot (fun s => s <| BufferSlot.mRequestBufferCalled := true |>) c |>).

(** ** setMaxDequeuedBufferCount and setAsyncMode

    Both wait while a buffer is being allocated, then start over. *)

Definition setMaxDequeuedBufferCount (p : t) (maxDequeuedBuffers : Z) : outcome t status_t :=
  let c := mCore p in
  if mIsAllocating c then Waits p
  else if mIsAbandoned c then Returns NO_INIT p
  else if maxDequeuedBuffers =? mMaxDequeuedBufferCount c then Returns NO_ERROR p
  else
    let dequeuedCount := count_active BufferState.isDequeued c in
    if maxDequeuedBuffers <? dequeuedCount then Returns BAD_VALUE p
    else
      let bufferCount := int32 (getMinUndequeuedBufferCountLocked c + maxDequeuedBuffers) in
      if NUM_BUFFER_SLOTS <? bufferCount then Returns BAD_VALUE p
      else if bufferCount <? getMinMaxBufferCountLocked c then Returns BAD_VALUE p
      else if mMaxBufferCount c <? bufferCount then Returns BAD_VALUE p
      else
        let delta := maxDequeuedBuffers - mMaxDequeuedBufferCount c in
        let '(ok, c) := adjustAvailableSlotsLocked delta c in
        if negb ok then Returns BAD_VALUE (p <| mCore := c |>)
        else
          let c := c <| mMaxDequeuedBufferCount := maxDequeuedBuffers |> in
          let listener := if delta <? 0 then mConsumerListener c else None in
          let c := emit notify_mDequeueCondition c in
          Returns NO_ERROR (p <| mCore := notify listener onBuffersReleased c |>).

Definition setAsyncMode (p : t) (async : bool) : outcome t status_t :=
  let c := mCore p in
  if mIsAllocating c then Waits p
  else if mIsAbandoned c then Returns NO_INIT p
  else if eqb async (mAsyncMode c) then Returns NO_ERROR p
  else if mMaxBufferCount c <? mMaxAcquiredBufferCount c + mMaxDequeuedBufferCount c +
                               (if async || mDequeueBufferCannotBlock c then 1 else 0) then Returns BAD_VALUE p
  else
    let delta := getMaxBufferCountLocked_for c async (mDequeueBufferCannotBlock c) (mMaxBufferCount c)
                 - getMaxBufferCountLocked c in
    let '(ok, c) := adjustAvailableSlotsLocked delta c in
    if negb ok then Returns BAD_VALUE (p <| mCore := c |>)
    else
      let c := c <| mAsyncMode := async |> in
      let c := emit notify_mDequeueCondition c in
      let listener := if delta <? 0 then mConsumerListener c else None in
      Returns NO_ERROR (p <| mCore := notify listener onBuffersReleased c |>).

(** ** Looking for a slot *)

Definition getFreeBufferLocked (c : BufferQueueCore.t) : Z * BufferQueueCore.t :=
  match mFreeBuffers c with
  | [] => (INVALID_BUFFER_SLOT, c)
  | slot :: rest => (slot, c <| mFreeBuffers := rest |>)
  end.

Definition getFreeSlotLocked (c : BufferQueueCore.t) : Z * BufferQueueCore.t :=
  match mFreeSlots c with
  | [] => (INVALID_BUFFER_SLOT, c)
  | slot :: _ => (slot, c <| mFreeSlots := StdSet.erase slot (mFreeSlots c) |>)
  end.

Inductive FreeSlotCaller := Dequeue | Attach.

(** One turn of the loop of [waitForFreeSlotThenRelock]: a result of the function (a
    status and the slot found), or the wait on [mDequeueCondition] after which the
    loop goes on. *)
Definition waitForFreeSlotThenRelock (p : t) (caller : FreeSlotCaller) : outcome t (status_t * Z) :=
  let c := mCore p in
  if mIsAbandoned c then Returns (NO_INIT, INVALID_BUFFER_SLOT) p
  else
    let dequeuedCount := count_active BufferState.isDequeued c in
    let acquiredCount := count_active BufferState.isAcquired c in
    if mBufferHasBeenQueued c && (mMaxDequeuedBufferCount c <=? dequeuedCount)
    then Returns (INVALID_OPERATION, INVALID_BUFFER_SLOT) p
    else
      let maxBufferCount := getMaxBufferCountLocked c in
      let tooManyBuffers := uint64 maxBufferCount <? Z.of_nat (length (mQueue c)) in
      let '(found, c) :=
        if tooManyBuffers then (INVALID_BUFFER_SLOT, c)
        else if mSharedBufferMode c && negb (mSharedBufferSlot c =? INVALID_BUFFER_SLOT)
        then (mSharedBufferSlot c, c)
        else
          match caller with
          | Dequeue =>
            let '(slot, c) := getFreeBufferLocked c in
            if negb (slot =? INVALID_BUFFER_SLOT) then (slot, c)
            else if mAllowAllocation c then getFreeSlotLocked c
            else (INVALID_BUFFER_SLOT, c)
          | Attach =>
            let '(slot, c) := getFreeSlotLocked c in
            if negb (slot =? INVALID_BUFFER_SLOT) then (slot, c) else getFreeBufferLocked c
          end in
      let p := p <| mCore := c |> in
      let tryAgain := (found =? INVALID_BUFFER_SLOT) || tooManyBuffers in
      if tryAgain then
        if (mDequeueBufferCannotBlock c || mAsyncMode c) && (acquiredCount <=? mMaxAcquiredBufferCount c)
        then Returns (WOULD_BLOCK, found) p
        else Waits p
      else Returns (NO_ERROR, found) p.

(** ** dequeueBuffer *)

(** the checks before the critical section *)
Definition dequeueBuffer_check (p : t) (width height : Z) : status_t * t :=
  let p := p <| mConsumerName := BufferQueueCore.mConsumerName (mCore p) |> in
  let c := mCore p in
  if mIsAbandoned c then (NO_INIT, p)
  else if mConnectedApi c =? NO_CONNECTED_API then (NO_INIT, p)
  else if (negb (width =? 0) && (height =? 0)) || ((width =? 0) && negb (height =? 0)) then (BAD_VALUE, p)
  else (NO_ERROR, p).

Record BufferRequest := mkRequest { req_width : Z; req_height : Z; req_format : Z; req_usage : Z }.

Definition needs_reallocation (b : GraphicBuffer.t) (r : BufferRequest) : bool :=
  GraphicBuffer.needsReallocation b (req_width r) (req_height r) (req_format r) BQ_LAYER_COUNT (req_usage r).

(** the attributes with the defaults of the queue filled in *)
Definition dequeueBuffer_defaults (c : BufferQueueCore.t) (r : BufferRequest) : BufferRequest :=
  let format := if req_format r =? 0 then mDefaultBufferFormat c else req_format r in
  let usage := Z.lor (req_usage r) (mConsumerUsageBits c) in
  if (req_width r =? 0) && (req_height r =? 0) then
    if mAutoPrerotation c && has_flag (mTransformHintInUse c) NATIVE_WINDOW_TRANSFORM_ROT_90
    then mkRequest (mDefaultHeight c) (mDefaultWidth c) format usage
    else mkRequest (mDefaultWidth c) (mDefaultHeight c) format usage
  else mkRequest (req_width r) (req_height r) format usage.

(** What the critical section leaves for the rest of the call. *)
Record DequeuedSlot := mkDequeued {
  outSlot : Z;
  outFence : option Fence;
  eglDisplay : Z;
  eglFence : Z;
  attachedByConsumer : bool;
  needsAllocation : bool;
  request : BufferRequest }.

(** The loop that finds a slot. It turns again only after it has freed a buffer that
    does not fit; [fuel] bounds the turns. *)
Fixpoint dequeueBuffer_find (fuel : nat) (p : t) (r : BufferRequest) : outcome t (status_t * Z) :=
  match fuel with
  | O => Crashes
  | S fuel' =>
    match waitForFreeSlotThenRelock p Dequeue with
    | Crashes => Crashes
    | Waits p => Waits p
    | Returns (status, found) p =>
      if negb (status =? NO_ERROR) then Returns (status, found) p
      else if found =? INVALID_BUFFER_SLOT then Returns (- EBUSY, found) p
      else
        let c := mCore p in
        if negb (mAllowAllocation c) then
          match BufferSlot.mGraphicBuffer (slot_at c found) with
          | None => Crashes
          | Some buffer =>
            if needs_reallocation buffer r then
              if mSharedBufferSlot c =? found then Returns (BAD_VALUE, found) p
              else dequeueBuffer_find fuel' (p <| mCore := free_slot found c |>) r
            else Returns (NO_ERROR, found) p
          end
        else Returns (NO_ERROR, found) p
    end
  end.

(** The rest of the critical section, once a slot is found. [Returns] with
    [inl status] is an error, with [inr d] the slot taken. *)
Definition dequeueBuffer_take (p : t) (r : BufferRequest) (found : Z) : outcome t (status_t + DequeuedSlot) :=
  let c := mCore p in
  let buffer := BufferSlot.mGraphicBuffer (slot_at c found) in
  if (mSharedBufferSlot c =? found) && bool_decide (buffer = None) then Crashes
  else
    let unfit := match buffer with Some b => needs_reallocation b r | None => true end in
    if (mSharedBufferSlot c =? found) && unfit then Returns (inl BAD_VALUE) p
    else
      let c := if negb (mSharedBufferSlot c =? found)
               then c <| mActiveBuffers := StdSet.insert found (mActiveBuffers c) |> else c in
      let attached := BufferSlot.mNeedsReallocation (slot_at c found) in
      let c := set_slot found (fun s => BufferSlot.on_state BufferState.dequeue (s <| BufferSlot.mNeedsReallocation := false |>)) c in
      let c :=
        if unfit then
          let c := set_slot found (fun s =>
            s <| BufferSlot.mAcquireCalled := false |> <| BufferSlot.mGraphicBuffer := None |>
              <| BufferSlot.mRequestBufferCalled := false |> <| BufferSlot.mEglDisplay := EGL_NO_DISPLAY |>
              <| BufferSlot.mEglFence := EGL_NO_SYNC_KHR |> <| BufferSlot.mFence := Some NO_FENCE |>) c in
          c <| mBufferAge := 0 |> <| mIsAllocating := true |>
        else
          c <| mBufferAge := uint64 (uint64 (mFrameCounter c + 1) - BufferSlot.mFrameNumber (slot_at c found)) |> in
      let sl := slot_at c found in
      let fence := if mSharedBufferMode c && (mSharedBufferSlot c =? found) then Some NO_FENCE else BufferSlot.mFence sl in
      let d := mkDequeued found fence (BufferSlot.mEglDisplay sl) (BufferSlot.mEglFence sl) attached unfit r in
      let c := set_slot found (fun s => s <| BufferSlot.mEglFence := EGL_NO_SYNC_KHR |> <| BufferSlot.mFence := Some NO_FENCE |>) c in
      let c :=
        if mSharedBufferMode c && (mSharedBufferSlot c =? INVALID_BUFFER_SLOT)
        then set_slot found (BufferSlot.on_state (BufferState.set_shared true)) (c <| mSharedBufferSlot := found |>)
        else c in
      let c :=
        if unfit then c
        else match BufferSlot.mGraphicBuffer (slot_at c found) with
             | Some b => notify (mConsumerListener c) (fun l => onFrameDequeued l (GraphicBuffer.mId b)) c
             | None => c
             end in
      Returns (inr d) (p <| mCore := c |>).

(** The loop and what follows it. A thread that waited on [mDequeueCondition] resumes
    here, with the attributes it had computed. *)
Definition dequeueBuffer_slot (p : t) (r : BufferRequest) : outcome t (status_t + DequeuedSlot) :=
  match dequeueBuffer_find (S (length (mFreeBuffers (mCore p)))) p r with
  | Crashes => Crashes
  | Waits p => Waits p
  | Returns (status, found) p =>
    if negb (status =? NO_ERROR) then Returns (inl status) p else dequeueBuffer_take p r found
  end.

(** After the wait for a running allocation. *)
Definition dequeueBuffer_resume (p : t) (r : BufferRequest) : outcome t (status_t + DequeuedSlot) :=
  dequeueBuffer_slot p (dequeueBuffer_defaults (mCore p) r).

(** The start of the critical section: whether the thread waits for an allocation
    that is running. *)
Definition dequeueBuffer_must_wait (p : t) : bool :=
  bool_decide (mFreeBuffers (mCore p) = []) && mIsAllocating (mCore p).
Definition dequeueBuffer_begin_wait (p : t) : t := p <| mDequeueWaitingForAllocation := true |>.
Definition dequeueBuffer_end_wait (p : t) : t :=
  on_core (emit notify_mDequeueWaitingForAllocationCondition) (p <| mDequeueWaitingForAllocation := false |>).

(** The second critical section, after the allocation: [error] is the result of
    [initCheck()] on the new buffer. *)
Definition dequeueBuffer_allocated (p : t) (d : DequeuedSlot) (error : status_t) (graphicBuffer : GraphicBuffer.t)
    : status_t * t :=
  let c := mCore p in
  let slot := outSlot d in
  let c :=
    if (error =? NO_ERROR) && negb (mIsAbandoned c) then
      let b := GraphicBuffer.setGenerationNumber graphicBuffer (mGenerationNumber c) in
      let c := set_slot slot (fun s => s <| BufferSlot.mGraphicBuffer := Some b |>) c in
      notify (mConsumerListener c) (fun l => onFrameDequeued l (GraphicBuffer.mId b)) c
    else c in
  let c := emit notify_mIsAllocatingCondition (c <| mIsAllocating := false |>) in
  if negb (error =? NO_ERROR) then (error, p <| mCore := free_slot slot c |>)
  else if mIsAbandoned c then (NO_INIT, p <| mCore := free_slot slot c |>)
  else (NO_ERROR, p <| mCore := c |>).

Record DequeueOutput := mkDequeueOutput { flags : status_t; out_slot : Z; out_fence : option Fence; outBufferAge : Z }.

Definition addAndGetFrameTimestamps (c : BufferQueueCore.t) (newTimestamps : option Z) (outDelta : bool) : BufferQueueCore.t :=
  if bool_decide (newTimestamps = None) && negb outDelta then c
  else notify (mConsumerListener c) (fun l => addAndGetFrameTimestamps_call l newTimestamps) c.

(** the end of the call, without the lock *)
Definition dequeueBuffer_return (p : t) (d : DequeuedSlot) (outTimestamps : bool) : DequeueOutput * t :=
  let flags := if needsAllocation d || attachedByConsumer d then BUFFER_NEEDS_REALLOCATION else NO_ERROR in
  let c := mCore p in
  let c := if negb (eglFence d =? EGL_NO_SYNC_KHR)
           then emit (eglDestroySyncKHR (eglDisplay d) (eglFence d)) (emit (eglClientWaitSyncKHR (eglDisplay d) (eglFence d)) c)
           else c in
  (mkDequeueOutput flags (outSlot d) (outFence d) (mBufferAge c),
   p <| mCore := addAndGetFrameTimestamps c None outTimestamps |>).

(** ** detachBuffer, detachNextBuffer, attachBuffer *)

Definition detachBuffer (p : t) (slot : Z) : status_t * t :=
  let c := mCore p in
  if mIsAbandoned c then (NO_INIT, p)
  else if mConnectedApi c =? NO_CONNECTED_API then (NO_INIT, p)
  else if mSharedBufferMode c || (mSharedBufferSlot c =? slot) then (BAD_VALUE, p)
  else if (slot <? 0) || (NUM_BUFFER_SLOTS <=? slot) then (BAD_VALUE, p)
  else if negb (BufferState.isDequeued (state_at c slot)) then (BAD_VALUE, p)
  else if negb (BufferSlot.mRequestBufferCalled (slot_at c slot)) then (BAD_VALUE, p)
  else
    let listener := mConsumerListener c in
    let c := match BufferSlot.mGraphicBuffer (slot_at c slot) with
             | Some gb => notify listener (fun l => onFrameDetached l (GraphicBuffer.mId gb)) c
             | None => c
             end in
    let c := set_slot slot (BufferSlot.on_state BufferState.detachProducer) c in
    let c := c <| mActiveBuffers := StdSet.erase slot (mActiveBuffers c) |> in
    let c := free_slot slot c in
    let c := emit notify_mDequeueCondition c in
    (NO_ERROR, p <| mCore := notify listener onBuffersReleased c |>).

(** the checks of [detachNextBuffer]; [outBuffer] and [outFence] say whether those pointers are set *)
Definition detachNextBuffer_check (p : t) (outBuffer outFence : bool) : status_t :=
  let c := mCore p in
  if negb outBuffer then BAD_VALUE
  else if negb outFence then BAD_VALUE
  else if mIsAbandoned c then NO_INIT
  else if mConnectedApi c =? NO_CONNECTED_API then NO_INIT
  else if mSharedBufferMode c then BAD_VALUE
  else NO_ERROR.

(** what follows the checks; a thread that waited for an allocation resumes here *)
Definition detachNextBuffer_take (p : t) : outcome t (status_t * option (option GraphicBuffer.t * option Fence)) :=
  let c := mCore p in
  if mIsAllocating c then Waits p
  else match mFreeBuffers c with
  | [] => Returns (NO_MEMORY, None) p
  | found :: _ =>
    let c := c <| mFreeBuffers := filter (fun s => s <> found) (mFreeBuffers c) |> in
    let c := c <| mFreeSlots := StdSet.insert found (mFreeSlots c) |> in
    let out := (BufferSlot.mGraphicBuffer (slot_at c found), BufferSlot.mFence (slot_at c found)) in
    let c := clearBufferSlotLocked found c in
    Returns (NO_ERROR, Some out) (p <| mCore := notify (mConsumerListener c) onBuffersReleased c |>)
  end.

(** the checks of [attachBuffer] *)
Definition attachBuffer_check (p : t) (outSlot : bool) (buffer : option GraphicBuffer.t) : status_t :=
  let c := mCore p in
  if negb outSlot then BAD_VALUE
  else match buffer with
  | None => BAD_VALUE
  | Some b =>
    if mIsAbandoned c then NO_INIT
    else if mConnectedApi c =? NO_CONNECTED_API then NO_INIT
    else if mSharedBufferMode c then BAD_VALUE
    else if negb (GraphicBuffer.mGenerationNumber b =? mGenerationNumber c) then BAD_VALUE
    else NO_ERROR
  end.

(** The rest of [attachBuffer]. A thread that waited on [mDequeueCondition] resumes here. *)
Definition attachBuffer_slot (p : t) (buffer : GraphicBuffer.t) : outcome t (status_t * Z) :=
  match waitForFreeSlotThenRelock p Attach with
  | Crashes => Crashes
  | Waits p => Waits p
  | Returns (status, found) p =>
    if negb (status =? NO_ERROR) then Returns (status, found) p
    else if found =? INVALID_BUFFER_SLOT then Returns (- EBUSY, found) p
    else
      let c := set_slot found (fun s =>
        BufferSlot.on_state BufferState.attachProducer
          (s <| BufferSlot.mGraphicBuffer := Some buffer |> <| BufferSlot.mEglFence := EGL_NO_SYNC_KHR |>
             <| BufferSlot.mFence := Some NO_FENCE |> <| BufferSlot.mRequestBufferCalled := true |>
             <| BufferSlot.mAcquireCalled := false |> <| BufferSlot.mNeedsReallocation := false |>)) (mCore p) in
      Returns (NO_ERROR, found) (p <| mCore := c <| mActiveBuffers := StdSet.insert found (mActiveBuffers c) |> |>)
  end.

(** [waitWhileAllocatingLocked] before it *)
Definition attachBuffer_wait (p : t) (buffer : GraphicBuffer.t) : outcome t (status_t * Z) :=
  if mIsAllocating (mCore p) then Waits p else attachBuffer_slot p buffer.

(** ** queueBuffer *)

Record QueueBufferInput := mkInput {
  in_timestamp : Z;
  in_isAutoTimestamp : bool;
  in_dataSpace : Z;
  in_crop : rect;
  in_scalingMode : Z;
  in_transform : Z;
  in_stickyTransform : Z;
  in_fence : option Fence;
  in_surfaceDamage : Region.t;
  in_getFrameTimestamps : bool;
  in_hdrMetadata : Z }.

Record QueueBufferOutput := mkOutput {
  o_width : Z; o_height : Z; o_transformHint : Z; o_numPendingBuffers : Z;
  o_nextFrameNumber : Z; o_bufferReplaced : bool; o_maxBufferCount : Z }.

(** What the critical section leaves for the callbacks. *)
Record QueuedFrame := mkQueued {
  callbackTicket : Z;
  q_item : BufferItem.t;
  q_acquireFence : option Fence;
  frameAvailableListener : option Z;
  frameReplacedListener : option Z;
  currentFrameNumber : Z;
  q_getFrameTimestamps : bool }.

Definition valid_scaling_mode (m : Z) : bool :=
  (m =? NATIVE_WINDOW_SCALING_MODE_FREEZE) || (m =? NATIVE_WINDOW_SCALING_MODE_SCALE_TO_WINDOW) ||
  (m =? NATIVE_WINDOW_SCALING_MODE_SCALE_CROP) || (m =? NATIVE_WINDOW_SCALING_MODE_NO_SCALE_CROP).

(** Giving up the frame queued in [slot], as [queueBuffer] does for a frame it
    replaces and [acquireBuffer] for a frame it drops; also says whether the slot went
    to the free list. *)
Definition free_queued_slot (slot : Z) (c : BufferQueueCore.t) : bool * BufferQueueCore.t :=
  let c := set_slot slot (BufferSlot.on_state BufferState.freeQueued) c in
  let c := if negb (mSharedBufferMode c) && BufferState.isFree (state_at c slot)
           then set_slot slot (BufferSlot.on_state (BufferState.set_shared false)) c else c in
  if negb (BufferState.isShared (state_at c slot)) then
    let c := c <| mActiveBuffers := StdSet.erase slot (mActiveBuffers c) |> in
    (true, c <| mFreeBuffers := mFreeBuffers c ++ [slot] |>)
  else (false, c).

(** the damage of a frame that replaces another *)
Definition merge_damage (new_damage last_damage : Region.t) : option Region.t :=
  if Rect.eqb (Region.bounds last_damage) Rect.INVALID_RECT || Rect.eqb (Region.bounds new_damage) Rect.INVALID_RECT
  then Some Region.INVALID_REGION
  else Region.orSelf new_damage last_damage.

(** the item that is queued, before the damage of a replaced frame is merged *)
Definition queueBuffer_item (p : t) (slot : Z) (input : QueueBufferInput) (dataSpace : Z) (c : BufferQueueCore.t)
    : BufferItem.t :=
  let sl := slot_at c slot in
  BufferItem.mk
    (BufferSlot.mGraphicBuffer sl) (in_fence input) (in_crop input)
    (without_flag (in_transform input) NATIVE_WINDOW_TRANSFORM_INVERSE_DISPLAY)
    (uint32 (in_scalingMode input)) (in_timestamp input) (in_isAutoTimestamp input) dataSpace (in_hdrMetadata input)
    (mFrameCounter c) slot
    (mAsyncMode c || (mConsumerIsSurfaceFlinger p && mQueueBufferCanDrop c) ||
     (mLegacyBufferDrop c && mQueueBufferCanDrop c) || (mSharedBufferMode c && (mSharedBufferSlot c =? slot)))
    (BufferSlot.mAcquireCalled sl)
    (has_flag (in_transform input) NATIVE_WINDOW_TRANSFORM_INVERSE_DISPLAY)
    (in_surfaceDamage input)
    (mSharedBufferMode c && mAutoRefresh c) true false (mConnectedApi c).

(** Puts the item at the end of the queue, or in place of the last one when that is
    droppable. The results: the item as queued, whether a buffer was replaced, and
    whether the frame counts as replaced rather than as available. *)
Definition queueBuffer_enqueue (item : BufferItem.t) (c : BufferQueueCore.t)
    : option (BufferItem.t * bool * bool * BufferQueueCore.t) :=
  match last (mQueue c) with
  | None => Some (item, false, false, c <| mQueue := [item] |>)
  | Some last_item =>
    if BufferItem.mIsDroppable last_item then
      let '(replaced, c) := if negb (BufferItem.mIsStale last_item)
                            then free_queued_slot (BufferItem.mSlot last_item) c else (false, c) in
      match merge_damage (BufferItem.mSurfaceDamage item) (BufferItem.mSurfaceDamage last_item) with
      | None => None
      | Some damage =>
        let item := item <| BufferItem.mSurfaceDamage := damage |> in
        Some (item, replaced, true, c <| mQueue := removelast (mQueue c) ++ [item] |>)
      end
    else Some (item, false, false, c <| mQueue := mQueue c ++ [item] |>)
  end.

(** The critical section. [now] is the time the occupancy tracker reads. *)
Definition queueBuffer_locked (p : t) (slot : Z) (input : QueueBufferInput) (output : QueueBufferOutput) (now : Z)
    : outcome t (status_t + (QueuedFrame * QueueBufferOutput)) :=
  if bool_decide (in_fence input = None) then Returns (inl BAD_VALUE) p
  else if negb (valid_scaling_mode (in_scalingMode input)) then Returns (inl BAD_VALUE) p
  else
    let c := mCore p in
    if mIsAbandoned c then Returns (inl NO_INIT) p
    else if mConnectedApi c =? NO_CONNECTED_API then Returns (inl NO_INIT) p
    else if (slot <? 0) || (NUM_BUFFER_SLOTS <=? slot) then Returns (inl BAD_VALUE) p
    else if negb (BufferState.isDequeued (state_at c slot)) then Returns (inl BAD_VALUE) p
    else if negb (BufferSlot.mRequestBufferCalled (slot_at c slot)) then Returns (inl BAD_VALUE) p
    else
      let c := if mSharedBufferMode c && (mSharedBufferSlot c =? INVALID_BUFFER_SLOT)
               then set_slot slot (BufferSlot.on_state (BufferState.set_shared true)) (c <| mSharedBufferSlot := slot |>)
               else c in
      let p := p <| mCore := c |> in
      match BufferSlot.mGraphicBuffer (slot_at c slot) with
      | None => Crashes
      | Some graphicBuffer =>
        let bufferRect := Rect.of_size (uint32 (GraphicBuffer.width graphicBuffer)) (uint32 (GraphicBuffer.height graphicBuffer)) in
        let croppedRect := (Rect.intersect (in_crop input) bufferRect).2 in
        if negb (Rect.eqb croppedRect (in_crop input)) then Returns (inl BAD_VALUE) p
        else
          let dataSpace := if in_dataSpace input =? HAL_DATASPACE_UNKNOWN then mDefaultBufferDataSpace c else in_dataSpace input in
          let c := set_slot slot (fun s => BufferSlot.on_state BufferState.queue (s <| BufferSlot.mFence := in_fence input |>)) c in
          let c := c <| mFrameCounter := uint64 (mFrameCounter c + 1) |> in
          let frame := mFrameCounter c in
          let c := set_slot slot (fun s => s <| BufferSlot.mFrameNumber := frame |>) c in
          let item := queueBuffer_item p slot input dataSpace c in
          let p := p <| mStickyTransform := in_stickyTransform input |> in
          let c := if mSharedBufferMode c
                   then c <| mSharedBufferCache := mkCache (in_crop input) (in_transform input) (uint32 (in_scalingMode input)) dataSpace |>
                   else c in
          match queueBuffer_enqueue item c with
          | None => Crashes
          | Some (item, bufferReplaced, isReplacement, c) =>
            let listener := mConsumerListener c in
            let c := emit notify_mDequeueCondition (c <| mBufferHasBeenQueued := true |>) in
            let c := c <| mLastQueuedSlot := slot |> in
            let c := c <| mTransformHintInUse := mTransformHint c |> in
            let pending := Z.of_nat (length (mQueue c)) in
            let output := mkOutput (mDefaultWidth c) (mDefaultHeight c) (mTransformHint c) (uint32 pending)
                            (uint64 (mFrameCounter c + 1)) bufferReplaced (o_maxBufferCount output) in
            let c := c <| mOccupancyTracker := OccupancyTracker.registerOccupancyChange (mOccupancyTracker c) pending now |> in
            let ticket := mNextCallbackTicket p in
            let p := p <| mNextCallbackTicket := int32 (ticket + 1) |> in
            let item := if mConsumerIsSurfaceFlinger p then item else item <| BufferItem.mGraphicBuffer := None |> in
            Returns (inr (mkQueued ticket item (in_fence input)
                            (if isReplacement then None else listener) (if isReplacement then listener else None)
                            frame (in_getFrameTimestamps input), output))
                    (p <| mCore := c |>)
          end
      end.

(** the frame event history, once the lock is released *)
Definition queueBuffer_timestamps (p : t) (f : QueuedFrame) : t :=
  on_core (fun c => addAndGetFrameTimestamps c (Some (currentFrameNumber f)) (q_getFrameTimestamps f)) p.

(** The callback, under [mCallbackMutex]: the thread waits for its turn, and tries
    again here. *)
Definition queueBuffer_callback (p : t) (f : QueuedFrame) : outcome t status_t :=
  if negb (callbackTicket f =? mCurrentCallbackTicket p) then Waits p
  else
    let c := mCore p in
    let c := match frameAvailableListener f with
             | Some l => emit (onFrameAvailable l (q_item f)) c
             | None => notify (frameReplacedListener f) (fun l => onFrameReplaced l (q_item f)) c
             end in
    let connectedApi := mConnectedApi c in
    let lastQueuedFence := mLastQueueBufferFence p in
    let p := p <| mLastQueueBufferFence := q_acquireFence f |> <| mLastQueuedCrop := BufferItem.mCrop (q_item f) |>
               <| mLastQueuedTransform := BufferItem.mTransform (q_item f) |>
               <| mCurrentCallbackTicket := int32 (mCurrentCallbackTicket p + 1) |> in
    let c := emit notify_mCallbackCondition c in
    let c := if connectedApi =? NATIVE_WINDOW_API_EGL then emit (fence_waitForever lastQueuedFence) c else c in
    Returns NO_ERROR (p <| mCore := c |>).

(** ** cancelBuffer *)

Definition cancelBuffer (p : t) (slot : Z) (fence : option Fence) : status_t * t :=
  let c := mCore p in
  if mIsAbandoned c then (NO_INIT, p)
  else if mConnectedApi c =? NO_CONNECTED_API then (NO_INIT, p)
  else if mSharedBufferMode c then (BAD_VALUE, p)
  else if (slot <? 0) || (NUM_BUFFER_SLOTS <=? slot) then (BAD_VALUE, p)
  else if negb (BufferState.isDequeued (state_at c slot)) then (BAD_VALUE, p)
  else match fence with
  | None => (BAD_VALUE, p)
  | Some _ =>
    let c := set_slot slot (BufferSlot.on_state BufferState.cancel) c in
    let c := if negb (mSharedBufferMode c) && BufferState.isFree (state_at c slot)
             then set_slot slot (BufferSlot.on_state (BufferState.set_shared false)) c else c in
    let c := if negb (BufferState.isShared (state_at c slot))
             then c <| mActiveBuffers := StdSet.erase slot (mActiveBuffers c) |> <| mFreeBuffers := mFreeBuffers c ++ [slot] |>
             else c in
    let c := match BufferSlot.mGraphicBuffer (slot_at c slot) with
             | Some gb => notify (mConsumerListener c) (fun l => onFrameCancelled l (GraphicBuffer.mId gb)) c
             | None => c
             end in
    let c := set_slot slot (fun s => s <| BufferSlot.mFence := fence |>) c in
    (NO_ERROR, p <| mCore := emit notify_mDequeueCondition c |>)
  end.

(** ** query *)

Inductive query_what :=
| NATIVE_WINDOW_WIDTH | NATIVE_WINDOW_HEIGHT | NATIVE_WINDOW_FORMAT | NATIVE_WINDOW_LAYER_COUNT
| NATIVE_WINDOW_MIN_UNDEQUEUED_BUFFERS | NATIVE_WINDOW_STICKY_TRANSFORM | NATIVE_WINDOW_CONSUMER_RUNNING_BEHIND
| NATIVE_WINDOW_CONSUMER_USAGE_BITS | NATIVE_WINDOW_DEFAULT_DATASPACE | NATIVE_WINDOW_BUFFER_AGE
| NATIVE_WINDOW_CONSUMER_IS_PROTECTED | other_query.

(** The status, and the value written when it is [NO_ERROR]. [outValue] says whether
    the pointer is set. *)
Definition query (p : t) (what : query_what) (outValue : bool) : status_t * Z :=
  let c := mCore p in
  if negb outValue then (BAD_VALUE, 0)
  else if mIsAbandoned c then (NO_INIT, 0)
  else match what with
  | NATIVE_WINDOW_WIDTH => (NO_ERROR, int32 (mDefaultWidth c))
  | NATIVE_WINDOW_HEIGHT => (NO_ERROR, int32 (mDefaultHeight c))
  | NATIVE_WINDOW_FORMAT => (NO_ERROR, int32 (mDefaultBufferFormat c))
  | NATIVE_WINDOW_LAYER_COUNT => (NO_ERROR, BQ_LAYER_COUNT)
  | NATIVE_WINDOW_MIN_UNDEQUEUED_BUFFERS => (NO_ERROR, getMinUndequeuedBufferCountLocked c)
  | NATIVE_WINDOW_STICKY_TRANSFORM => (NO_ERROR, int32 (mStickyTransform p))
  | NATIVE_WINDOW_CONSUMER_RUNNING_BEHIND => (NO_ERROR, if (1 <? length (mQueue c))%nat then 1 else 0)
  | NATIVE_WINDOW_CONSUMER_USAGE_BITS => (NO_ERROR, int32 (mConsumerUsageBits c))
  | NATIVE_WINDOW_DEFAULT_DATASPACE => (NO_ERROR, int32 (mDefaultBufferDataSpace c))
  | NATIVE_WINDOW_BUFFER_AGE => (NO_ERROR, if INT32_MAX <? mBufferAge c then 0 else int32 (mBufferAge c))
  | NATIVE_WINDOW_CONSUMER_IS_PROTECTED => (NO_ERROR, if mConsumerIsProtected c then 1 else 0)
  | other_query => (BAD_VALUE, 0)
  end.

(** ** connect and disconnect *)

Definition is_api (api : Z) : bool :=
  (api =? NATIVE_WINDOW_API_EGL) || (api =? NATIVE_WINDOW_API_CPU) || (api =? NATIVE_WINDOW_API_MEDIA) ||
  (api =? NATIVE_WINDOW_API_CAMERA).

(** [output] is [None] for a null pointer; [pid] is the calling process. *)
Definition connect (p : t) (listener : option IProducerListener) (api : Z) (producerControlledByApp : bool)
    (output : option QueueBufferOutput) (pid : Z) : status_t * option QueueBufferOutput * t :=
  let p := p <| mConsumerName := BufferQueueCore.mConsumerName (mCore p) |> in
  let c := mCore p in
  if mIsAbandoned c then (NO_INIT, output, p)
  else if bool_decide (mConsumerListener c = None) then (NO_INIT, output, p)
  else if bool_decide (is_Some output) then
    if negb (mConnectedApi c =? NO_CONNECTED_API) then (BAD_VALUE, output, p)
    else
      let delta := getMaxBufferCountLocked_for c (mAsyncMode c)
                     (if mDequeueTimeout p <? 0 then mConsumerControlledByApp c && producerControlledByApp else false)
                     (mMaxBufferCount c) - getMaxBufferCountLocked c in
      let '(ok, c) := adjustAvailableSlotsLocked delta c in
      if negb ok then (BAD_VALUE, output, p <| mCore := c |>)
      else
        let '(status, output, c) :=
          if is_api api then
            let c := c <| mConnectedApi := api |> in
            let c := c <| mTransformHintInUse := mTransformHint c |> in
            let out := mkOutput (mDefaultWidth c) (mDefaultHeight c) (mTransformHint c)
                         (uint32 (Z.of_nat (length (mQueue c)))) (uint64 (mFrameCounter c + 1)) false (mMaxBufferCount c) in
            match listener with
            | Some l =>
              let '(status, c) :=
                if is_remote l
                then (linkToDeath_result l, (emit (linkToDeath_call (listener_id l)) c) <| mLinkedToDeath := Some l |>)
                else (NO_ERROR, c) in
              (status, Some out,
               c <| mConnectedProducerListener := Some l |> <| mBufferReleasedCbEnabled := needsReleaseNotify l |>)
            | None => (NO_ERROR, Some out, c)
            end
          else (BAD_VALUE, output, c) in
        let c := c <| mConnectedPid := pid |> <| mBufferHasBeenQueued := false |>
                   <| mDequeueBufferCannotBlock := false |> <| mQueueBufferCanDrop := false |> <| mLegacyBufferDrop := true |> in
        let c := if mConsumerControlledByApp c && producerControlledByApp
                 then c <| mDequeueBufferCannotBlock := mDequeueTimeout p <? 0 |> <| mQueueBufferCanDrop := mDequeueTimeout p <=? 0 |>
                 else c in
        (status, output, p <| mCore := c <| mAllowAllocation := true |> |>)
  else (BAD_VALUE, output, p).

Inductive DisconnectMode := Api | AllLocal.

(** the body of the case for a known API *)
Definition disconnect_api (c : BufferQueueCore.t) (api : Z) : status_t * BufferQueueCore.t :=
  if mConnectedApi c =? api then
    let c := freeAllBuffersLocked c in
    let c := notify (mLinkedToDeath c) (fun l => unlinkToDeath_call (listener_id l)) c in
    let c := c <| mSharedBufferSlot := INVALID_BUFFER_SLOT |> <| mLinkedToDeath := None |>
               <| mConnectedProducerListener := None |> <| mConnectedApi := NO_CONNECTED_API |>
               <| mConnectedPid := -1 |> <| mSidebandStream := None |> in
    let c := emit notify_mDequeueCondition c in
    let c := c <| mAutoPrerotation := false |> in
    let listener := mConsumerListener c in
    (NO_ERROR, notify listener onDisconnect (notify listener onBuffersReleased c))
  else if mConnectedApi c =? NO_CONNECTED_API then (NO_INIT, c)
  else (BAD_VALUE, c).

(** After the check of the mode: waits while a buffer is being allocated, and resumes
    here. *)
Definition disconnect_locked (p : t) (api : Z) : outcome t status_t :=
  let c := mCore p in
  if mIsAllocating c then Waits p
  else if mIsAbandoned c then Returns NO_ERROR p
  else
    let current := api =? CURRENTLY_CONNECTED_API in
    let api := if current then mConnectedApi c else api in
    if current && (api =? NO_CONNECTED_API) then Returns NO_ERROR p
    else if is_api api then
      let '(status, c) := disconnect_api c api in Returns status (p <| mCore := c |>)
    else Returns BAD_VALUE p.

Definition disconnect (p : t) (api : Z) (mode : DisconnectMode) (pid : Z) : outcome t status_t :=
  match mode with
  | AllLocal =>
    if negb (pid =? mConnectedPid (mCore p)) then Returns NO_ERROR p
    else disconnect_locked p CURRENTLY_CONNECTED_API
  | Api => disconnect_locked p api
  end.

Definition binderDied (p : t) (pid : Z) : outcome t status_t := disconnect p (mConnectedApi (mCore p)) Api pid.

Definition setSidebandStream (p : t) (stream : option Z) : status_t * t :=
  let c := (mCore p) <| mSidebandStream := stream |> in
  (NO_ERROR, p <| mCore := notify (mConsumerListener c) onSidebandStreamChanged c |>).

(** ** allocateBuffers *)

(** the attributes of the buffer to allocate *)
Definition allocateBuffers_attributes (c : BufferQueueCore.t) (r : BufferRequest) : BufferRequest :=
  let useDefaultSize := (req_width r =? 0) && (req_height r =? 0) in
  let w := if 0 <? req_width r then req_width r else mDefaultWidth c in
  let h := if 0 <? req_height r then req_height r else mDefaultHeight c in
  let swap := useDefaultSize && mAutoPrerotation c && has_flag (mTransformHintInUse c) NATIVE_WINDOW_TRANSFORM_ROT_90 in
  mkRequest (if swap then h else w) (if swap then w else h)
    (if negb (req_format r =? 0) then req_format r else mDefaultBufferFormat c)
    (Z.lor (req_usage r) (mConsumerUsageBits c)).

(** The first critical section of a turn: the attributes to allocate with, or [None]
    when the call returns. A thread that waited resumes here. *)
Definition allocateBuffers_begin (p : t) (r : BufferRequest) : outcome t (option BufferRequest) :=
  let c := mCore p in
  if mIsAllocating c then Waits p
  else if negb (mAllowAllocation c) then Returns None p
  else if bool_decide (mFreeSlots c = []) then Returns None p
  else Returns (Some (allocateBuffers_attributes c r)) (p <| mCore := c <| mIsAllocating := true |> |>).

(** The allocation failed: the call returns. *)
Definition allocateBuffers_failed (p : t) : t :=
  p <| mCore := emit notify_mIsAllocatingCondition ((mCore p) <| mIsAllocating := false |>) |>.

#[global] Instance BufferRequest_eq_dec : EqDecision BufferRequest.
Proof. solve_decision. Defined.

(** The second critical section. The result says whether the turn went to the end of
    the section (where the thread waits while a dequeue waits for the allocation),
    rather than starting over because the attributes had changed. *)
Definition allocateBuffers_finish (p : t) (r alloc : BufferRequest) (graphicBuffer : GraphicBuffer.t) : bool * t :=
  let c := mCore p in
  if negb (bool_decide (allocateBuffers_attributes c r = alloc)) then
    (false, p <| mCore := emit notify_mIsAllocatingCondition (c <| mIsAllocating := false |>) |>)
  else
    let c :=
      match mFreeSlots c with
      | [] => c
      | slot :: _ =>
        let c := clearBufferSlotLocked slot c in
        let c := set_slot slot (fun s => s <| BufferSlot.mGraphicBuffer := Some graphicBuffer |> <| BufferSlot.mFence := Some NO_FENCE |>) c in
        let c := c <| mFreeBuffers := slot :: mFreeBuffers c |> in
        c <| mFreeSlots := StdSet.erase slot (mFreeSlots c) |>
      end in
    (true, p <| mCore := emit notify_mIsAllocatingCondition (c <| mIsAllocating := false |>) |>).

(** ** Settings *)

Definition allowAllocation (p : t) (allow : bool) : status_t * t :=
  (NO_ERROR, p <| mCore := (mCore p) <| mAllowAllocation := allow |> |>).

Definition setGenerationNumber (p : t) (generationNumber : Z) : status_t * t :=
  (NO_ERROR, p <| mCore := (mCore p) <| mGenerationNumber := generationNumber |> |>).

Definition getConsumerName (p : t) : string := mConsumerName p.

Definition setSharedBufferMode (p : t) (sharedBufferMode : bool) : status_t * t :=
  let c := mCore p in
  let c := if negb sharedBufferMode then c <| mSharedBufferSlot := INVALID_BUFFER_SLOT |> else c in
  (NO_ERROR, p <| mCore := c <| mSharedBufferMode := sharedBufferMode |> |>).

Definition setAutoRefresh (p : t) (autoRefresh : bool) : status_t * t :=
  (NO_ERROR, p <| mCore := (mCore p) <| mAutoRefresh := autoRefresh |> |>).

Definition setDequeueTimeout (p : t) (timeout : Z) : status_t * t :=
  let c := mCore p in
  let dequeueBufferCannotBlock := if 0 <=? timeout then false else mDequeueBufferCannotBlock c in
  let delta := getMaxBufferCountLocked_for c (mAsyncMode c) dequeueBufferCannotBlock (mMaxBufferCount c)
               - getMaxBufferCountLocked c in
  let '(ok, c) := adjustAvailableSlotsLocked delta c in
  if negb ok then (BAD_VALUE, p <| mCore := c |>)
  else
    let p := p <| mDequeueTimeout := timeout |> in
    let c := c <| mDequeueBufferCannotBlock := dequeueBufferCannotBlock |> in
    let c := if 0 <? timeout then c <| mQueueBufferCanDrop := false |> else c in
    (NO_ERROR, p <| mCore := c |>).

Definition setLegacyBufferDrop (p : t) (drop : bool) : status_t * t :=
  (NO_ERROR, p <| mCore := (mCore p) <| mLegacyBufferDrop := drop |> |>).

(** the buffer, the fence, and the crop and transform that the matrix is computed from *)
Definition getLastQueuedBuffer (p : t) : option GraphicBuffer.t * option Fence * option (rect * Z) :=
  let c := mCore p in
  if mLastQueuedSlot c =? INVALID_BUFFER_SLOT then (None, Some NO_FENCE, None)
  else (BufferSlot.mGraphicBuffer (slot_at c (mLastQueuedSlot c)), mLastQueueBufferFence p,
        Some (mLastQueuedCrop p, mLastQueuedTransform p)).

Definition getFrameTimestamps (p : t) : t := on_core (fun c => addAndGetFrameTimestamps c None true) p.

Definition getUniqueId (p : t) : Z := mUniqueId (mCore p).
Definition getConsumerUsage (p : t) : Z := mConsumerUsageBits (mCore p).

Definition setAutoPrerotation (p : t) (autoPrerotation : bool) : status_t * t :=
  (NO_ERROR, p <| mCore := (mCore p) <| mAutoPrerotation := autoPrerotation |> |>).

End BufferQueueProducer.
