(* ===== verification/BufferQueueConsumer.v ===== *)
(** * BufferQueueConsumer (libs/gui/BufferQueueConsumer.cpp)

    The operations of the consumer interface, on the shared core. The conventions are
    those of BufferQueueProducer.v. *)

From S2P Require Import Prelude Geometry RegionHelper Region BufferSlot OccupancyTracker BufferQueueCore.
From S2P Require Import BufferQueueProducer.
Import BufferQueueCore.

Module BufferQueueConsumer.

Definition MAX_REASONABLE_NSEC : Z := 1000000000.

(** ** acquireBuffer *)

Record DropResult := mkDrop { d_core : BufferQueueCore.t; d_queue : list BufferItem.t; numDroppedBuffers : nat;
                              d_listener : option IProducerListener }.

(** The loop that drops the frames that a later, timely frame supersedes. [q] is
    [mQueue]. *)
Fixpoint drop_late (c : BufferQueueCore.t) (q : list BufferItem.t) (expectedPresent maxFrameNumber : Z)
    (dropped : nat) (listener : option IProducerListener) : DropResult :=
  match q with
  | front :: ((bufferItem :: _) as q') =>
    if BufferItem.mIsAutoTimestamp front then mkDrop c q dropped listener
    else if negb (maxFrameNumber =? 0) && (maxFrameNumber <? BufferItem.mFrameNumber bufferItem)
    then mkDrop c q dropped listener
    else
      let desiredPresent := BufferItem.mTimestamp bufferItem in
      if (desiredPresent <? int64 (expectedPresent - MAX_REASONABLE_NSEC)) || (expectedPresent <? desiredPresent)
      then mkDrop c q dropped listener
      else if negb (BufferItem.mIsStale front) then
        let c := (BufferQueueProducer.free_queued_slot (BufferItem.mSlot front) c).2 in
        let listener := if mBufferReleasedCbEnabled c then mConnectedProducerListener c else listener in
        drop_late c q' expectedPresent maxFrameNumber (S dropped) listener
      else drop_late c q' expectedPresent maxFrameNumber dropped listener
  | _ => mkDrop c q dropped listener
  end.

(** whether the front buffer has to wait: not due, or too new for the consumer *)
Definition present_later (front : BufferItem.t) (expectedPresent maxFrameNumber : Z) : bool :=
  let desiredPresent := BufferItem.mTimestamp front in
  let bufferIsDue := (desiredPresent <=? expectedPresent) || (int64 (expectedPresent + MAX_REASONABLE_NSEC) <? desiredPresent) in
  let consumerIsReady := if 0 <? maxFrameNumber then BufferItem.mFrameNumber front <=? maxFrameNumber else true in
  negb bufferIsDue || negb consumerIsReady.

(** the item recreated for the shared buffer; the fields not listed in the source
    keep what the caller had in them *)
Definition shared_item (c : BufferQueueCore.t) (slot : Z) (outBuffer : BufferItem.t) : BufferItem.t :=
  let cache := mSharedBufferCache c in
  BufferItem.mk
    (BufferSlot.mGraphicBuffer (slot_at c slot)) (Some NO_FENCE) (crop cache)
    (without_flag (transform cache) NATIVE_WINDOW_TRANSFORM_INVERSE_DISPLAY) (scalingMode cache)
    (BufferItem.mTimestamp outBuffer) (BufferItem.mIsAutoTimestamp outBuffer) (dataspace cache)
    (BufferItem.mHdrMetadata outBuffer) (mFrameCounter c) slot (BufferItem.mIsDroppable outBuffer)
    (BufferSlot.mAcquireCalled (slot_at c slot))
    (has_flag (transform cache) NATIVE_WINDOW_TRANSFORM_INVERSE_DISPLAY) Region.INVALID_REGION
    (mSharedBufferMode c && mAutoRefresh c) false false (BufferItem.mApi outBuffer).

(** What is done with the item that is acquired, in the queue or not; [erase] removes
    the front of the queue. *)
Definition acquire_item (c : BufferQueueCore.t) (item : BufferItem.t) (now : Z) : BufferItem.t * BufferQueueCore.t :=
  let slot := BufferItem.mSlot item in
  let c :=
    if negb (BufferItem.mIsStale item) then
      let c := set_slot slot (fun s => s <| BufferSlot.mAcquireCalled := true |>) c in
      let c := if bool_decide (mQueue c = []) then set_slot slot (BufferSlot.on_state BufferState.acquireNotInQueue) c
               else set_slot slot (BufferSlot.on_state BufferState.acquire) c in
      set_slot slot (fun s => s <| BufferSlot.mFence := Some NO_FENCE |>) c
    else c in
  let item := if BufferItem.mAcquireCalled item then item <| BufferItem.mGraphicBuffer := None |> else item in
  let c := c <| mQueue := tail (mQueue c) |> in
  let c := emit notify_mDequeueCondition c in
  (item, c <| mOccupancyTracker := OccupancyTracker.registerOccupancyChange (mOccupancyTracker c) (Z.of_nat (length (mQueue c))) now |>).

(** the calls to [onBufferReleased] after the lock is released *)
Fixpoint notify_released (n : nat) (l : option IProducerListener) (c : BufferQueueCore.t) : BufferQueueCore.t :=
  match n with
  | O => c
  | S n' => notify_released n' l (notify l (fun x => onBufferReleased (listener_id x)) c)
  end.

(** The shared buffer is acquired although the queue is empty. A thread that waited
    for its allocation resumes here: the slot is read again, and the iterator into the
    queue is the one it had before. *)
Definition acquireBuffer_shared (c : BufferQueueCore.t) (outBuffer : BufferItem.t) (now : Z)
    : outcome BufferQueueCore.t (status_t * BufferItem.t) :=
  if mIsAllocating c then Waits c
  else
    let slot := mSharedBufferSlot c in
    if negb (in_slots slot) || negb (bool_decide (mQueue c = [])) then Crashes
    else
      let '(item, c) := acquire_item c (shared_item c slot outBuffer) now in
      Returns (NO_ERROR, item) c.

Definition acquireBuffer (c : BufferQueueCore.t) (outBuffer : BufferItem.t) (expectedPresent maxFrameNumber now : Z)
    : outcome BufferQueueCore.t (status_t * BufferItem.t) :=
  let numAcquiredBuffers := count_active BufferState.isAcquired c in
  if mMaxAcquiredBufferCount c + 1 <=? numAcquiredBuffers then Returns (INVALID_OPERATION, outBuffer) c
  else
    let sharedBufferAvailable := mSharedBufferMode c && mAutoRefresh c && negb (mSharedBufferSlot c =? INVALID_BUFFER_SLOT) in
    match mQueue c with
    | [] =>
      if negb sharedBufferAvailable then Returns (NO_BUFFER_AVAILABLE, outBuffer) c
      else acquireBuffer_shared c outBuffer now
    | _ :: _ =>
      let d := if negb (expectedPresent =? 0)
               then drop_late c (mQueue c) expectedPresent maxFrameNumber 0 None
               else mkDrop c (mQueue c) 0 None in
      let c := (d_core d) <| mQueue := d_queue d |> in
      match d_queue d with
      | [] => Crashes
      | front :: _ =>
        if negb (expectedPresent =? 0) && present_later front expectedPresent maxFrameNumber
        then Returns (PRESENT_LATER, outBuffer) c
        else
          let '(item, c) := acquire_item c front now in
          Returns (NO_ERROR, item) (notify_released (numDroppedBuffers d) (d_listener d) c)
      end
    end.

(** ** detachBuffer, attachBuffer, releaseBuffer *)

Definition detachBuffer (c : BufferQueueCore.t) (slot : Z) : status_t * BufferQueueCore.t :=
  if mIsAbandoned c then (NO_INIT, c)
  else if mSharedBufferMode c || (slot =? mSharedBufferSlot c) then (BAD_VALUE, c)
  else if (slot <? 0) || (NUM_BUFFER_SLOTS <=? slot) then (BAD_VALUE, c)
  else if negb (BufferState.isAcquired (state_at c slot)) then (BAD_VALUE, c)
  else
    let c := set_slot slot (BufferSlot.on_state BufferState.detachConsumer) c in
    let c := c <| mActiveBuffers := StdSet.erase slot (mActiveBuffers c) |> in
    let c := free_slot slot c in
    (NO_ERROR, emit notify_mDequeueCondition c).

(** the slot found for an attached buffer *)
Definition attachBuffer_find (c : BufferQueueCore.t) : option (Z * BufferQueueCore.t) :=
  match mFreeSlots c, mFreeBuffers c with
  | slot :: _, _ => Some (slot, c <| mFreeSlots := StdSet.erase slot (mFreeSlots c) |>)
  | [], slot :: _ => Some (slot, c <| mFreeBuffers := filter (fun s => s <> slot) (mFreeBuffers c) |>)
  | [], [] => None
  end.

Definition attachBuffer (c : BufferQueueCore.t) (outSlot : bool) (buffer : option GraphicBuffer.t)
    : status_t * Z * BufferQueueCore.t :=
  if negb outSlot then (BAD_VALUE, INVALID_BUFFER_SLOT, c)
  else match buffer with
  | None => (BAD_VALUE, INVALID_BUFFER_SLOT, c)
  | Some b =>
    if mSharedBufferMode c then (BAD_VALUE, INVALID_BUFFER_SLOT, c)
    else if mMaxAcquiredBufferCount c + 1 <=? count_active BufferState.isAcquired c
    then (INVALID_OPERATION, INVALID_BUFFER_SLOT, c)
    else if negb (GraphicBuffer.mGenerationNumber b =? mGenerationNumber c) then (BAD_VALUE, INVALID_BUFFER_SLOT, c)
    else match attachBuffer_find c with
    | None => (NO_MEMORY, INVALID_BUFFER_SLOT, c)
    | Some (found, c) =>
      let c := c <| mActiveBuffers := StdSet.insert found (mActiveBuffers c) |> in
      (NO_ERROR, found,
       set_slot found (fun s =>
         BufferSlot.on_state BufferState.attachConsumer
           (s <| BufferSlot.mGraphicBuffer := Some b |> <| BufferSlot.mNeedsReallocation := true |>
              <| BufferSlot.mFence := Some NO_FENCE |> <| BufferSlot.mFrameNumber := 0 |>
              <| BufferSlot.mAcquireCalled := false |>)) c)
    end
  end.

Definition releaseBuffer (c : BufferQueueCore.t) (slot frameNumber : Z) (releaseFence : option Fence) (eglDisplay eglFence : Z)
    : status_t * BufferQueueCore.t :=
  if (slot <? 0) || (NUM_BUFFER_SLOTS <=? slot) || bool_decide (releaseFence = None) then (BAD_VALUE, c)
  else if negb (frameNumber =? BufferSlot.mFrameNumber (slot_at c slot)) && negb (BufferState.isShared (state_at c slot))
  then (STALE_BUFFER_SLOT, c)
  else if negb (BufferState.isAcquired (state_at c slot)) then (BAD_VALUE, c)
  else
    let c := set_slot slot (fun s =>
      BufferSlot.on_state BufferState.release
        (s <| BufferSlot.mEglDisplay := eglDisplay |> <| BufferSlot.mEglFence := eglFence |>
           <| BufferSlot.mFence := releaseFence |>)) c in
    let c := if negb (mSharedBufferMode c) && BufferState.isFree (state_at c slot)
             then set_slot slot (BufferSlot.on_state (BufferState.set_shared false)) c else c in
    let c := if negb (BufferState.isShared (state_at c slot))
             then c <| mActiveBuffers := StdSet.erase slot (mActiveBuffers c) |> <| mFreeBuffers := mFreeBuffers c ++ [slot] |>
             else c in
    let listener := if mBufferReleasedCbEnabled c then mConnectedProducerListener c else None in
    let c := emit notify_mDequeueCondition c in
    (NO_ERROR, notify listener (fun l => onBufferReleased (listener_id l)) c).

(** ** connect and disconnect *)

Definition connect (c : BufferQueueCore.t) (consumerListener : option Z) (controlledByApp : bool) : status_t * BufferQueueCore.t :=
  match consumerListener with
  | None => (BAD_VALUE, c)
  | Some _ =>
    if mIsAbandoned c then (NO_INIT, c)
    else (NO_ERROR, c <| mConsumerListener := consumerListener |> <| mConsumerControlledByApp := controlledByApp |>)
  end.

Definition disconnect (c : BufferQueueCore.t) : status_t * BufferQueueCore.t :=
  match mConsumerListener c with
  | None => (BAD_VALUE, c)
  | Some _ =>
    let c := c <| mIsAbandoned := true |> <| mConsumerListener := None |> <| mQueue := [] |> in
    let c := freeAllBuffersLocked c in
    let c := c <| mSharedBufferSlot := INVALID_BUFFER_SLOT |> in
    (NO_ERROR, emit notify_mDequeueCondition c)
  end.

(** ** getReleasedBuffers *)

Definition released_mask (c : BufferQueueCore.t) : Z :=
  foldl (fun mask s => if negb (BufferSlot.mAcquireCalled (slot_at c s)) then Z.lor mask (Z.shiftl 1 s) else mask)
    0 (seqZ 0 NUM_BUFFER_SLOTS).

Definition getReleasedBuffers (c : BufferQueueCore.t) (outSlotMask : bool) : status_t * Z :=
  if negb outSlotMask then (BAD_VALUE, 0)
  else if mIsAbandoned c then (NO_INIT, 0)
  else
    (NO_ERROR,
     foldl (fun mask item => if BufferItem.mAcquireCalled item
                             then Z.land mask (uint64 (Z.lnot (Z.shiftl 1 (BufferItem.mSlot item)))) else mask)
       (released_mask c) (mQueue c)).

(** ** Settings *)

Definition setDefaultBufferSize (c : BufferQueueCore.t) (width height : Z) : status_t * BufferQueueCore.t :=
  if (width =? 0) || (height =? 0) then (BAD_VALUE, c)
  else (NO_ERROR, c <| mDefaultWidth := width |> <| mDefaultHeight := height |>).

Definition setMaxBufferCount (c : BufferQueueCore.t) (bufferCount : Z) : status_t * BufferQueueCore.t :=
  if (bufferCount <? 1) || (NUM_BUFFER_SLOTS <? bufferCount) then (BAD_VALUE, c)
  else if negb (mConnectedApi c =? NO_CONNECTED_API) then (INVALID_OPERATION, c)
  else if bufferCount <? mMaxAcquiredBufferCount c then (BAD_VALUE, c)
  else
    let delta := getMaxBufferCountLocked_for c (mAsyncMode c) (mDequeueBufferCannotBlock c) bufferCount
                 - getMaxBufferCountLocked c in
    let '(ok, c) := adjustAvailableSlotsLocked delta c in
    if negb ok then (BAD_VALUE, c)
    else (NO_ERROR, c <| mMaxBufferCount := bufferCount |>).

(** waits while a buffer is being allocated, then starts over *)
Definition setMaxAcquiredBufferCount (c : BufferQueueCore.t) (maxAcquiredBuffers : Z) : outcome BufferQueueCore.t status_t :=
  if (maxAcquiredBuffers <? 1) || (MAX_MAX_ACQUIRED_BUFFERS <? maxAcquiredBuffers) then Returns BAD_VALUE c
  else if mIsAllocating c then Waits c
  else if mIsAbandoned c then Returns NO_INIT c
  else if maxAcquiredBuffers =? mMaxAcquiredBufferCount c then Returns NO_ERROR c
  else if maxAcquiredBuffers <? count_active BufferState.isAcquired c then Returns BAD_VALUE c
  else if mMaxBufferCount c <? maxAcquiredBuffers + mMaxDequeuedBufferCount c +
                               (if mAsyncMode c || mDequeueBufferCannotBlock c then 1 else 0) then Returns BAD_VALUE c
  else
    let delta := maxAcquiredBuffers - mMaxAcquiredBufferCount c in
    let '(ok, c) := adjustAvailableSlotsLocked delta c in
    if negb ok then Returns BAD_VALUE c
    else
      let c := c <| mMaxAcquiredBufferCount := maxAcquiredBuffers |> in
      let listener := if (delta <? 0) && mBufferReleasedCbEnabled c then mConsumerListener c else None in
      Returns NO_ERROR (notify listener onBuffersReleased c).

(** also the name kept by the consumer object *)
Definition setConsumerName (c : BufferQueueCore.t) (name : string) : status_t * string * BufferQueueCore.t :=
  (NO_ERROR, name, c <| mConsumerName := name |>).
Definition setDefaultBufferFormat (c : BufferQueueCore.t) (defaultFormat : Z) : status_t * BufferQueueCore.t :=
  (NO_ERROR, c <| mDefaultBufferFormat := defaultFormat |>).
Definition setDefaultBufferDataSpace (c : BufferQueueCore.t) (defaultDataSpace : Z) : status_t * BufferQueueCore.t :=
  (NO_ERROR, c <| mDefaultBufferDataSpace := defaultDataSpace |>).
Definition setConsumerUsageBits (c : BufferQueueCore.t) (usage : Z) : status_t * BufferQueueCore.t :=
  (NO_ERROR, c <| mConsumerUsageBits := usage |>).
Definition setConsumerIsProtected (c : BufferQueueCore.t) (isProtected : bool) : status_t * BufferQueueCore.t :=
  (NO_ERROR, c <| mConsumerIsProtected := isProtected |>).
Definition setTransformHint (c : BufferQueueCore.t) (hint : Z) : status_t * BufferQueueCore.t :=
  (NO_ERROR, c <| mTransformHint := hint |>).
Definition getSidebandStream (c : BufferQueueCore.t) : option Z := mSidebandStream c.
Definition getOccupancyHistory (c : BufferQueueCore.t) (forceFlush : bool) : list OccupancyTracker.Segment * BufferQueueCore.t :=
  let '(history, o) := OccupancyTracker.getSegmentHistory (mOccupancyTracker c) forceFlush in
  (history, c <| mOccupancyTracker := o |>).
Definition discardFreeBuffers (c : BufferQueueCore.t) : status_t * BufferQueueCore.t :=
  (NO_ERROR, discardFreeBuffersLocked c).

End BufferQueueConsumer.
