(* ===== verification/BufferQueueInvariant.v ===== *)
(** * The invariant of the buffer queue

    Every slot is in exactly one of the four pools and its contents agree with the
    pool; the queue refers to the slots that are queued; the shared buffer, if any, is
    active. This file states the invariant and shows how the elementary moves of the
    operations act on it: a slot is taken out of its pool, changed, and put into
    another. *)

From S2P Require Import Prelude Geometry RegionHelper Region BufferSlot OccupancyTracker BufferQueueCore.
Import BufferQueueCore.

(** ** Slots by index *)

Definition valid_slot (s : Z) : Prop := 0 <= s < NUM_BUFFER_SLOTS.

Lemma slot_at_set_slot_eq c s f : length (mSlots c) = 64%nat -> valid_slot s ->
  slot_at (set_slot s f c) s = f (slot_at c s).
Proof.
  unfold valid_slot, NUM_BUFFER_SLOTS, slot_at, set_slot. intros Hlen Hs. rewrite (proj2 (Z.leb_le 0 s)) by lia. cbn.
  rewrite !nth_lookup, list_lookup_alter_eq.
  destruct (lookup_lt_is_Some_2 (mSlots c) (Z.to_nat s)) as [x Hx]; [lia|]. by rewrite Hx.
Qed.

Lemma slot_at_set_slot_ne c s s' f : s <> s' -> slot_at (set_slot s f c) s' = slot_at c s'.
Proof.
  unfold slot_at, set_slot. intros Hne. destruct (0 <=? s') eqn:E1; [|done]. destruct (0 <=? s) eqn:E2; [|done].
  bool_to_prop. cbn. rewrite !nth_lookup, list_lookup_alter_ne by lia. done.
Qed.

Lemma slot_at_set_slot c s s' f : length (mSlots c) = 64%nat -> valid_slot s ->
  slot_at (set_slot s f c) s' = if decide (s = s') then f (slot_at c s) else slot_at c s'.
Proof. intros. case_decide; subst; [by apply slot_at_set_slot_eq|by apply slot_at_set_slot_ne]. Qed.

Lemma length_set_slot s f c : length (mSlots (set_slot s f c)) = length (mSlots c).
Proof. unfold set_slot. destruct (0 <=? s); [|done]. cbn. apply length_alter. Qed.

(** [set_slot] leaves every other field alone. *)
Lemma set_slot_as s f c : valid_slot s -> set_slot s f c = c <| mSlots := alter f (Z.to_nat s) (mSlots c) |>.
Proof. unfold valid_slot, set_slot. intros. by rewrite (proj2 (Z.leb_le 0 s)) by lia. Qed.

(** ** Contents *)

(** No buffer, not in use. *)
Definition slot_empty (sl : BufferSlot.t) : Prop :=
  BufferSlot.mBufferState sl = BufferState.new /\ BufferSlot.mGraphicBuffer sl = None.

(** A buffer, not in use. *)
Definition slot_idle (sl : BufferSlot.t) : Prop :=
  BufferSlot.mBufferState sl = BufferState.new /\ is_Some (BufferSlot.mGraphicBuffer sl).

Definition DEQUEUED : BufferState.t := BufferState.mk 1 0 0 false.
Definition QUEUED : BufferState.t := BufferState.mk 0 1 0 false.
Definition ACQUIRED : BufferState.t := BufferState.mk 0 0 1 false.

(** The states in the table of BufferSlot.h other than FREE. *)
Definition counts_ok (st : BufferState.t) : Prop :=
  0 <= BufferState.mDequeueCount st /\ 0 <= BufferState.mQueueCount st /\ 0 <= BufferState.mAcquireCount st.
Definition in_use (st : BufferState.t) : Prop :=
  st = DEQUEUED \/ st = QUEUED \/ st = ACQUIRED \/ (BufferState.mShared st = true /\ counts_ok st).

(** A slot in use has a buffer unless it is being allocated. *)
Definition slot_active (allocating : Prop) (sl : BufferSlot.t) : Prop :=
  in_use (BufferSlot.mBufferState sl) /\ (is_Some (BufferSlot.mGraphicBuffer sl) \/ allocating).

(** ** Pools *)

(** The slot is in exactly one pool and agrees with it. [pending] are the slots of
    the dequeues that are allocating a buffer. *)
Definition slot_placed (pending : list Z) (c : t) (s : Z) : Prop :=
  let sl := slot_at c s in
  (s ∈ mUnusedSlots c /\ s ∉ mFreeSlots c /\ s ∉ mFreeBuffers c /\ s ∉ mActiveBuffers c /\ slot_empty sl) \/
  (s ∉ mUnusedSlots c /\ s ∈ mFreeSlots c /\ s ∉ mFreeBuffers c /\ s ∉ mActiveBuffers c /\ slot_empty sl) \/
  (s ∉ mUnusedSlots c /\ s ∉ mFreeSlots c /\ s ∈ mFreeBuffers c /\ s ∉ mActiveBuffers c /\ slot_idle sl) \/
  (s ∉ mUnusedSlots c /\ s ∉ mFreeSlots c /\ s ∉ mFreeBuffers c /\ s ∈ mActiveBuffers c /\ slot_active (s ∈ pending) sl).

Definition in_some_pool (c : t) (s : Z) : Prop :=
  s ∈ mUnusedSlots c \/ s ∈ mFreeSlots c \/ s ∈ mFreeBuffers c \/ s ∈ mActiveBuffers c.

Record pools (pending : list Z) (c : t) : Prop := {
  pools_length : length (mSlots c) = 64%nat;
  pools_unused : NoDup (mUnusedSlots c);
  pools_free : StdSet.ordered (mFreeSlots c);
  pools_buffers : NoDup (mFreeBuffers c);
  pools_active : StdSet.ordered (mActiveBuffers c);
  pools_range : forall s, in_some_pool c s -> valid_slot s;
  pools_placed : forall s, valid_slot s -> slot_placed pending c s }.

(** The pools are the same for [x] in both states. *)
Definition same_pools (c c' : t) (x : Z) : Prop :=
  (x ∈ mUnusedSlots c' <-> x ∈ mUnusedSlots c) /\ (x ∈ mFreeSlots c' <-> x ∈ mFreeSlots c) /\
  (x ∈ mFreeBuffers c' <-> x ∈ mFreeBuffers c) /\ (x ∈ mActiveBuffers c' <-> x ∈ mActiveBuffers c).

(** An operation that moves or changes the slot [s] only keeps the pools sound when it
    leaves [s] well placed. *)
Lemma pools_change pending pending' c c' s :
  pools pending c -> valid_slot s -> length (mSlots c') = length (mSlots c) ->
  NoDup (mUnusedSlots c') -> StdSet.ordered (mFreeSlots c') -> NoDup (mFreeBuffers c') -> StdSet.ordered (mActiveBuffers c') ->
  (forall x, x <> s -> same_pools c c' x) -> (forall x, x <> s -> slot_at c' x = slot_at c x) ->
  (forall x, x <> s -> x ∈ pending' <-> x ∈ pending) -> slot_placed pending' c' s -> pools pending' c'.
Proof.
  intros [Hlen Hu Hf Hb Ha Hr Hp] Hv Hlen' Hu' Hf' Hb' Ha' Hsame Hat Hpend Hs. constructor; auto; [congruence| |].
  - intros x Hx. destruct (decide (x = s)) as [->|Hne]; [done|]. apply Hr. unfold in_some_pool in *.
    destruct (Hsame x Hne) as (H1 & H2 & H3 & H4). tauto.
  - intros x Hx. destruct (decide (x = s)) as [->|Hne]; [done|].
    destruct (Hsame x Hne) as (H1 & H2 & H3 & H4). specialize (Hp x Hx). unfold slot_placed, slot_active in *.
    rewrite H1, H2, H3, H4, Hat, (Hpend x Hne) by done. done.
Qed.

(** Where a slot is, seen from one membership. *)
Lemma placed_active pending c s : pools pending c -> s ∈ mActiveBuffers c ->
  valid_slot s /\ s ∉ mUnusedSlots c /\ s ∉ mFreeSlots c /\ s ∉ mFreeBuffers c /\ slot_active (s ∈ pending) (slot_at c s).
Proof.
  intros H Hin. assert (Hv : valid_slot s) by (apply (pools_range _ _ H); unfold in_some_pool; tauto).
  pose proof (pools_placed _ _ H s Hv). unfold slot_placed in *. tauto.
Qed.
Lemma placed_free pending c s : pools pending c -> s ∈ mFreeSlots c ->
  valid_slot s /\ s ∉ mUnusedSlots c /\ s ∉ mFreeBuffers c /\ s ∉ mActiveBuffers c /\ slot_empty (slot_at c s).
Proof.
  intros H Hin. assert (Hv : valid_slot s) by (apply (pools_range _ _ H); unfold in_some_pool; tauto).
  pose proof (pools_placed _ _ H s Hv). unfold slot_placed in *. tauto.
Qed.
Lemma placed_buffer pending c s : pools pending c -> s ∈ mFreeBuffers c ->
  valid_slot s /\ s ∉ mUnusedSlots c /\ s ∉ mFreeSlots c /\ s ∉ mActiveBuffers c /\ slot_idle (slot_at c s).
Proof.
  intros H Hin. assert (Hv : valid_slot s) by (apply (pools_range _ _ H); unfold in_some_pool; tauto).
  pose proof (pools_placed _ _ H s Hv). unfold slot_placed in *. tauto.
Qed.
Lemma placed_unused pending c s : pools pending c -> s ∈ mUnusedSlots c ->
  valid_slot s /\ s ∉ mFreeSlots c /\ s ∉ mFreeBuffers c /\ s ∉ mActiveBuffers c /\ slot_empty (slot_at c s).
Proof.
  intros H Hin. assert (Hv : valid_slot s) by (apply (pools_range _ _ H); unfold in_some_pool; tauto).
  pose proof (pools_placed _ _ H s Hv). unfold slot_placed in *. tauto.
Qed.

(** A slot that is not in its initial state is active. *)
Lemma used_is_active pending c s : pools pending c -> valid_slot s -> state_at c s <> BufferState.new -> s ∈ mActiveBuffers c.
Proof.
  intros H Hv Hst. pose proof (pools_placed _ _ H s Hv) as Hp. unfold slot_placed, slot_empty, slot_idle, state_at in *. tauto.
Qed.

(** Solves the membership side conditions of a move of [s]. *)
Ltac pool_mem :=
  intros; unfold same_pools; cbn; autorewrite with membership;
  rewrite ?elem_of_app, ?list_elem_of_singleton, ?elem_of_cons, ?list_elem_of_filter; tauto.

(** ** The queue *)

(** the number of items of the queue that refer to the present contents of [s] *)
Definition queued_in (s : Z) (q : list BufferItem.t) : Z :=
  Z.of_nat (length (filter (fun i => BufferItem.mIsStale i = false /\ BufferItem.mSlot i = s) q)).

Record queue_sound (c : t) : Prop := {
  queue_counts : forall s, valid_slot s -> BufferState.mQueueCount (state_at c s) = queued_in s (mQueue c);
  queue_slots : forall i, i ∈ mQueue c -> BufferItem.mIsStale i = false -> valid_slot (BufferItem.mSlot i);
  queue_bound : Z.of_nat (length (mQueue c)) <= UINT32_MAX }.

(** ** The shared buffer *)

Definition shared_sound (c : t) : Prop :=
  mSharedBufferSlot c = INVALID_BUFFER_SLOT \/
  (mSharedBufferMode c = true /\ mSharedBufferSlot c ∈ mActiveBuffers c /\
   BufferState.mShared (state_at c (mSharedBufferSlot c)) = true).

(** ** Slots being allocated

    They are dequeued and have no buffer; they lose their slot only when the queue is
    abandoned. *)
Record pending_sound (pending : list Z) (c : t) : Prop := {
  pending_nodup : NoDup pending;
  pending_slots : forall s, s ∈ pending -> valid_slot s;
  pending_dequeued : forall s, s ∈ pending -> mIsAbandoned c = false ->
    s ∈ mActiveBuffers c /\ 0 < BufferState.mDequeueCount (state_at c s) /\ BufferState.mQueueCount (state_at c s) = 0 /\
    BufferState.mAcquireCount (state_at c s) = 0 /\ BufferSlot.mGraphicBuffer (slot_at c s) = None /\ BufferSlot.mRequestBufferCalled (slot_at c s) = false;
  pending_abandoned : forall s, s ∈ pending -> mIsAbandoned c = true -> s ∈ mFreeSlots c;
  pending_flag : pending <> [] -> mIsAllocating c = true }.

Record invariant (pending : list Z) (c : t) : Prop := {
  inv_pools : pools pending c;
  inv_queue : queue_sound c;
  inv_shared : shared_sound c;
  inv_pending : pending_sound pending c }.

(** ** What the invariant depends on *)

Definition view_of (c : t) :=
  (mSlots c, mQueue c, (mUnusedSlots c, mFreeSlots c, mFreeBuffers c, mActiveBuffers c),
   (mSharedBufferMode c, mSharedBufferSlot c), (mIsAbandoned c, mIsAllocating c)).

Lemma invariant_ext pending c c' : view_of c' = view_of c -> invariant pending c -> invariant pending c'.
Proof.
  unfold view_of. intros [= H1 H2 H3 H4 H5 H6 H7 H8 H9 H10].
  assert (Hat : forall s, slot_at c' s = slot_at c s) by (intros; unfold slot_at; by rewrite H1).
  assert (Hst : forall s, state_at c' s = state_at c s) by (intros; unfold state_at; by rewrite Hat).
  intros [[] [] Hsh []]. constructor; [| | |].
  - constructor; rewrite ?H1, ?H3, ?H4, ?H5, ?H6; auto; unfold in_some_pool, slot_placed in *; intros; rewrite ?Hat, ?H3, ?H4, ?H5, ?H6 in *; auto.
  - constructor; rewrite ?H2; auto. intros. rewrite Hst. auto.
  - unfold shared_sound in *. by rewrite H7, H8, H6, Hst.
  - constructor; rewrite ?H9, ?H10; auto; intros; rewrite ?Hst, ?Hat, ?H6, ?H4 in *; auto.
Qed.

Lemma view_emit e c : view_of (emit e c) = view_of c.
Proof. done. Qed.
Lemma view_notify {A} (l : option A) e c : view_of (notify l e c) = view_of c.
Proof. by destruct l. Qed.
Create Rewrite HintDb views.
#[export] Hint Rewrite @view_notify view_emit : views.

(** Two states that agree except on the pools and the contents of [s]. *)
Record only_slot (c c' : t) (s : Z) : Prop := {
  only_length : length (mSlots c') = length (mSlots c);
  only_at : forall x, x <> s -> slot_at c' x = slot_at c x;
  only_pools : forall x, x <> s -> same_pools c c' x;
  only_mode : mSharedBufferMode c' = mSharedBufferMode c;
  only_shared : mSharedBufferSlot c' = mSharedBufferSlot c;
  only_abandoned : mIsAbandoned c' = mIsAbandoned c }.

Record sorted_pools (c : t) : Prop := {
  sorted_unused : NoDup (mUnusedSlots c);
  sorted_free : StdSet.ordered (mFreeSlots c);
  sorted_buffers : NoDup (mFreeBuffers c);
  sorted_active : StdSet.ordered (mActiveBuffers c) }.

Lemma pools_sorted pending c : pools pending c -> sorted_pools c.
Proof. by intros []. Qed.

(** A change of one slot that is not being allocated. *)
Lemma invariant_change pending c c' s :
  invariant pending c -> valid_slot s -> s ∉ pending -> only_slot c c' s -> sorted_pools c' ->
  mIsAllocating c' = mIsAllocating c -> queue_sound c' ->
  (mSharedBufferSlot c = s -> s ∈ mActiveBuffers c' /\ BufferState.mShared (state_at c' s) = true) ->
  slot_placed pending c' s -> invariant pending c'.
Proof.
  intros [Hp Hq Hs Hpend] Hv Hnp [Hlen Hat Hpool Hmode Hshared Hab] [] Halloc Hq' Hsh Hplaced.
  assert (Hst : forall x, x <> s -> state_at c' x = state_at c x) by (intros; unfold state_at; by rewrite Hat).
  constructor; [by eapply pools_change|done| |].
  - unfold shared_sound in *. rewrite Hmode, Hshared. destruct Hs as [Hs|(Hm & Hact & Hflag)]; [by left|].
    right. split; [done|]. destruct (decide (mSharedBufferSlot c = s)) as [Heq|Hne].
    + rewrite Heq. by apply Hsh.
    + rewrite Hst by done. destruct (Hpool _ Hne) as (_ & _ & _ & H4). by rewrite H4.
  - destruct Hpend as [Hnd Hsl Hdq Habn Hfl]. constructor; rewrite ?Halloc, ?Hab; auto; intros x Hx Ha;
      assert (x <> s) as Hne by (intros ->; done); destruct (Hpool _ Hne) as (_ & H2 & _ & H4); rewrite ?Hst, ?Hat, ?H2, ?H4 by done; auto.
Qed.

(** ** Moving one slot *)

(** [s] changed by [f], with the given pools *)
Definition moved (s : Z) (f : BufferSlot.t -> BufferSlot.t) (unused free buffers active : list Z) (c : t) : t :=
  set_slot s f (c <| mUnusedSlots := unused |> <| mFreeSlots := free |> <| mFreeBuffers := buffers |> <| mActiveBuffers := active |>).

Section Moved.

Context (s : Z) (f : BufferSlot.t -> BufferSlot.t) (unused free buffers active : list Z) (c : t) (Hv : valid_slot s).

Lemma moved_as : moved s f unused free buffers active c =
  c <| mUnusedSlots := unused |> <| mFreeSlots := free |> <| mFreeBuffers := buffers |> <| mActiveBuffers := active |>
    <| mSlots := alter f (Z.to_nat s) (mSlots c) |>.
Proof. unfold moved. by rewrite set_slot_as. Qed.

Lemma moved_at_ne x : x <> s -> slot_at (moved s f unused free buffers active c) x = slot_at c x.
Proof. intros. unfold moved. by rewrite slot_at_set_slot_ne. Qed.

Lemma moved_at_eq : length (mSlots c) = 64%nat -> slot_at (moved s f unused free buffers active c) s = f (slot_at c s).
Proof. intros. unfold moved. by rewrite slot_at_set_slot_eq. Qed.

(** The queue counts are unchanged when [f] keeps the one of [s]. *)
Lemma moved_queue :
  length (mSlots c) = 64%nat -> queue_sound c ->
  BufferState.mQueueCount (BufferSlot.mBufferState (f (slot_at c s))) = BufferState.mQueueCount (state_at c s) ->
  queue_sound (moved s f unused free buffers active c).
Proof.
  intros Hlen [Hc Hs Hb] Hcount. constructor; rewrite ?moved_as; cbn; auto.
  intros x Hx. rewrite <- moved_as. unfold state_at. destruct (decide (x = s)) as [->|Hne].
  - rewrite moved_at_eq by done. rewrite Hcount. by apply Hc.
  - rewrite moved_at_ne by done. by apply Hc.
Qed.

Lemma invariant_moved pending :
  invariant pending c -> s ∉ pending ->
  NoDup unused -> StdSet.ordered free -> NoDup buffers -> StdSet.ordered active ->
  (forall x, x <> s -> (x ∈ unused <-> x ∈ mUnusedSlots c) /\ (x ∈ free <-> x ∈ mFreeSlots c) /\
                       (x ∈ buffers <-> x ∈ mFreeBuffers c) /\ (x ∈ active <-> x ∈ mActiveBuffers c)) ->
  BufferState.mQueueCount (BufferSlot.mBufferState (f (slot_at c s))) = BufferState.mQueueCount (state_at c s) ->
  (mSharedBufferSlot c = s -> s ∈ active /\ BufferState.mShared (BufferSlot.mBufferState (f (slot_at c s))) = true) ->
  ((s ∈ unused /\ s ∉ free /\ s ∉ buffers /\ s ∉ active /\ slot_empty (f (slot_at c s))) \/
   (s ∉ unused /\ s ∈ free /\ s ∉ buffers /\ s ∉ active /\ slot_empty (f (slot_at c s))) \/
   (s ∉ unused /\ s ∉ free /\ s ∈ buffers /\ s ∉ active /\ slot_idle (f (slot_at c s))) \/
   (s ∉ unused /\ s ∉ free /\ s ∉ buffers /\ s ∈ active /\ slot_active False (f (slot_at c s)))) ->
  invariant pending (moved s f unused free buffers active c).
Proof.
  intros Hinv Hnp Hu Hf Hb Ha Hsame Hcount Hshared Hplaced. pose proof (pools_length _ _ (inv_pools _ _ Hinv)) as Hlen.
  eapply (invariant_change pending c _ s); try done.
  - constructor; try (rewrite moved_as; cbn; done).
    + rewrite moved_as. cbn. apply length_alter.
    + intros. by apply moved_at_ne.
  - rewrite moved_as. by constructor.
  - by rewrite moved_as.
  - apply moved_queue; try done. apply Hinv.
  - unfold state_at. rewrite moved_at_eq by done. rewrite moved_as. cbn. done.
  - unfold slot_placed. rewrite moved_at_eq by done. rewrite moved_as. cbn. unfold slot_active in *. tauto.
Qed.

End Moved.

Lemma set_slot_set_slot s f g c : set_slot s g (set_slot s f c) = set_slot s (fun x => g (f x)) c.
Proof.
  unfold set_slot. destruct (0 <=? s) eqn:E; [|done]. cbn. rewrite list_alter_alter_eq. done.
Qed.

Lemma set_slot_if (b : bool) s f c : (if b then set_slot s f c else c) = set_slot s (fun x => if b then f x else x) c.
Proof.
  destruct b; [done|]. unfold set_slot. destruct (0 <=? s); [|done]. rewrite list_alter_id by done. by destruct c.
Qed.

(** The state of a slot after it was given back: the shared flag goes once the queue
    has left the shared mode and the slot is free. *)
Definition settle (mode : bool) (st : BufferState.t) : BufferState.t :=
  if negb mode && BufferState.isFree st then BufferState.set_shared false st else st.

Lemma settle_unshared mode st : counts_ok st -> BufferState.mShared st = true \/ st = BufferState.new ->
  BufferState.mShared (settle mode st) = false -> settle mode st = BufferState.new.
Proof.
  unfold settle, counts_ok, BufferState.isFree, BufferState.isAcquired, BufferState.isDequeued, BufferState.isQueued.
  intros Hc [Hs| ->]; [|by destruct mode]. destruct st as [d q a sh]; simpl in *. subst sh.
  destruct mode; simpl; [done|]. destruct (0 <? a) eqn:E1, (0 <? d) eqn:E2, (0 <? q) eqn:E3; simpl; try done.
  bool_to_prop. intros _. unfold BufferState.set_shared, BufferState.new. simpl. f_equal; lia.
Qed.

Lemma settle_shared mode st : mode = true -> settle mode st = st.
Proof. by intros ->. Qed.

Lemma settle_counts mode st : counts_ok st -> counts_ok (settle mode st).
Proof. unfold settle. by destruct (_ && _). Qed.

Lemma settle_queue_count mode st : BufferState.mQueueCount (settle mode st) = BufferState.mQueueCount st.
Proof. unfold settle. by destruct (_ && _). Qed.

(** ** Changing an active slot in place *)

Lemma active_slot pending c s : invariant pending c -> s ∈ mActiveBuffers c -> s ∉ pending ->
  valid_slot s /\ in_use (state_at c s) /\ is_Some (BufferSlot.mGraphicBuffer (slot_at c s)) /\
  s ∉ mUnusedSlots c /\ s ∉ mFreeSlots c /\ s ∉ mFreeBuffers c.
Proof. intros Hinv Hs Hnp. destruct (placed_active _ _ _ (inv_pools _ _ Hinv) Hs) as (? & ? & ? & ? & Ha & Hb). unfold state_at. tauto. Qed.

Lemma invariant_set_slot pending c s f :
  invariant pending c -> s ∈ mActiveBuffers c -> s ∉ pending ->
  in_use (BufferSlot.mBufferState (f (slot_at c s))) -> is_Some (BufferSlot.mGraphicBuffer (f (slot_at c s))) ->
  BufferState.mQueueCount (BufferSlot.mBufferState (f (slot_at c s))) = BufferState.mQueueCount (state_at c s) ->
  (mSharedBufferSlot c = s -> BufferState.mShared (BufferSlot.mBufferState (f (slot_at c s))) = true) ->
  invariant pending (set_slot s f c).
Proof.
  intros Hinv Hs Hnp Huse Hbuf Hcount Hsh. destruct (active_slot _ _ _ Hinv Hs Hnp) as (Hv & _ & _ & Hnu & Hnf & Hnb).
  apply (invariant_ext _ (moved s f (mUnusedSlots c) (mFreeSlots c) (mFreeBuffers c) (mActiveBuffers c) c)).
  { rewrite moved_as, set_slot_as by done. done. }
  destruct (pools_sorted _ _ (inv_pools _ _ Hinv)). apply invariant_moved; auto; unfold slot_active; tauto.
Qed.

(** ** Giving back a slot

    What [cancelBuffer], [releaseBuffer] and the dropping of a queued frame have in
    common: the contents of [s] become [sl], the queue [q]; a slot that is not shared
    any more goes to the end of [mFreeBuffers]. *)
Definition give_back (s : Z) (sl : BufferSlot.t) (q : list BufferItem.t) (c : t) : t :=
  let c := c <| mQueue := q |> in
  if BufferState.isShared (BufferSlot.mBufferState sl) then set_slot s (fun _ => sl) c
  else moved s (fun _ => sl) (mUnusedSlots c) (mFreeSlots c) (mFreeBuffers c ++ [s]) (StdSet.erase s (mActiveBuffers c)) c.

Lemma NoDup_snoc {A} (l : list A) x : NoDup l -> x ∉ l -> NoDup (l ++ [x]).
Proof.
  intros Hnd Hx. apply NoDup_app. split_and!; [done| |apply NoDup_singleton]. intros y Hy Hy'. apply list_elem_of_singleton in Hy'. by subst.
Qed.

(** The queue after it lost some items of [s], if any. *)
Record queue_without (s : Z) (q q' : list BufferItem.t) : Prop := {
  without_others : forall x, x <> s -> queued_in x q' = queued_in x q;
  without_sub : forall i, i ∈ q' -> i ∈ q;
  without_length : (length q' <= length q)%nat }.

Lemma queue_without_refl s q : queue_without s q q.
Proof. by constructor. Qed.

Lemma give_back_queue pending c s sl q : invariant pending c -> valid_slot s -> queue_without s (mQueue c) q ->
  BufferState.mQueueCount (BufferSlot.mBufferState sl) = queued_in s q -> queue_sound (give_back s sl q c).
Proof.
  intros Hinv Hv [H1 H2 H3] Hcount. destruct (inv_queue _ _ Hinv) as [Hc Hi Hb].
  pose proof (pools_length _ _ (inv_pools _ _ Hinv)) as Hlen.
  assert (Hmq : mQueue (give_back s sl q c) = q).
  { unfold give_back. case_match; [by rewrite set_slot_as|by rewrite moved_as]. }
  assert (Hat : forall x, slot_at (give_back s sl q c) x = if decide (x = s) then sl else slot_at c x).
  { intros x. unfold give_back. case_match; case_decide; subst.
    - by rewrite slot_at_set_slot_eq.
    - by rewrite slot_at_set_slot_ne.
    - by rewrite moved_at_eq.
    - by rewrite moved_at_ne. }
  constructor; rewrite ?Hmq; [|intros; apply Hi; auto|lia].
  intros x Hx. unfold state_at. rewrite Hat. case_decide; [by subst|]. rewrite H1 by done. by apply Hc.
Qed.

Lemma invariant_give_back pending c s sl q :
  invariant pending c -> s ∈ mActiveBuffers c -> s ∉ pending -> queue_without s (mQueue c) q ->
  is_Some (BufferSlot.mGraphicBuffer sl) -> counts_ok (BufferSlot.mBufferState sl) ->
  (BufferState.mShared (BufferSlot.mBufferState sl) = false -> BufferSlot.mBufferState sl = BufferState.new) ->
  (mSharedBufferSlot c = s -> BufferState.mShared (BufferSlot.mBufferState sl) = true) ->
  BufferState.mQueueCount (BufferSlot.mBufferState sl) = queued_in s q ->
  invariant pending (give_back s sl q c).
Proof.
  intros Hinv Hs Hnp Hq Hbuf Hcnt Hnew Hsh Hcount. destruct (active_slot _ _ _ Hinv Hs Hnp) as (Hv & _ & _ & Hnu & Hnf & Hnb).
  pose proof (give_back_queue _ _ _ _ _ Hinv Hv Hq Hcount) as Hqs. pose proof (pools_length _ _ (inv_pools _ _ Hinv)) as Hlen.
  pose proof (pools_sorted _ _ (inv_pools _ _ Hinv)) as [Sa Sb Sc Sd]. revert Hqs. unfold give_back, BufferState.isShared.
  destruct (BufferState.mShared (BufferSlot.mBufferState sl)) eqn:Eshared; cbn zeta; intros Hqs.
  - eapply (invariant_change pending c _ s); try done.
    + rewrite set_slot_as by done. constructor; cbn; try done; [apply length_alter|].
      intros x Hx. rewrite <- (slot_at_set_slot_ne c s x (fun _ => sl)) by done. by rewrite set_slot_as.
    + rewrite set_slot_as by done. by constructor.
    + by rewrite set_slot_as.
    + intros _. unfold state_at. rewrite slot_at_set_slot_eq by done. by rewrite set_slot_as.
    + unfold slot_placed. rewrite slot_at_set_slot_eq by done. rewrite set_slot_as by done. cbn. unfold slot_active, in_use. tauto.
  - eapply (invariant_change pending c _ s); try done.
    + constructor; try (rewrite moved_as by done; cbn; done).
      * rewrite moved_as by done. cbn. apply length_alter.
      * intros x Hx. by rewrite moved_at_ne.
      * intros x Hx. rewrite moved_as by done. unfold same_pools. cbn -[StdSet.erase]. rewrite StdSet.elem_of_erase, elem_of_app, list_elem_of_singleton. tauto.
    + rewrite moved_as by done. constructor; cbn -[StdSet.erase]; auto using NoDup_snoc with containers.
    + by rewrite moved_as.
    + intros Heq. exfalso. specialize (Hsh Heq). congruence.
    + unfold slot_placed. rewrite moved_at_eq by done. rewrite moved_as by done. cbn -[StdSet.erase].
      rewrite StdSet.elem_of_erase, elem_of_app, list_elem_of_singleton. unfold slot_idle. specialize (Hnew eq_refl). tauto.
Qed.

(** ** Clearing a slot *)

Definition cleared : BufferSlot.t :=
  BufferSlot.mk None EGL_NO_DISPLAY BufferState.new false 0 EGL_NO_SYNC_KHR (Some NO_FENCE) false true.

Lemma cleared_empty : slot_empty cleared.
Proof. by split. Qed.

Lemma view_clear s c : view_of (clearBufferSlotLocked s c) = view_of (set_slot s (fun _ => cleared) c).
Proof.
  unfold clearBufferSlotLocked. change (BufferSlot.mk _ _ _ _ _ _ _ _ _) with cleared.
  destruct (negb _); unfold emit, set_slot; destruct (0 <=? s); cbn; destruct (_ =? _); done.
Qed.

Lemma view_free_slot s c :
  view_of (free_slot s c) = view_of (set_slot s (fun _ => cleared) (c <| mFreeSlots := StdSet.insert s (mFreeSlots c) |>)).
Proof. unfold free_slot. apply view_clear. Qed.
