(* ===== verification/BufferQueueCoreSafety.v ===== *)
(** * The helpers of the core preserve the invariant

    [clearBufferSlotLocked], [freeAllBuffersLocked], [discardFreeBuffersLocked],
    [adjustAvailableSlotsLocked] and the constructor. *)

From S2P Require Import Prelude Geometry RegionHelper Region BufferSlot OccupancyTracker BufferQueueCore.
From S2P Require Import BufferQueueInvariant.
Import BufferQueueCore.

(** ** Loops over slots *)

(** the fields the loops leave alone *)
Definition frame_of (c : t) :=
  (mQueue c, (mUnusedSlots c, mFreeBuffers c, mActiveBuffers c), (mSharedBufferMode c, mSharedBufferSlot c),
   (mIsAbandoned c, mIsAllocating c)).

Lemma clear_frame s c : frame_of (clearBufferSlotLocked s c) = frame_of c /\
  mFreeSlots (clearBufferSlotLocked s c) = mFreeSlots c /\
  mSlots (clearBufferSlotLocked s c) = mSlots (set_slot s (fun _ => cleared) c).
Proof.
  pose proof (view_clear s c) as H. unfold view_of in H. injection H as H1 H2 H3 H4 H5 H6 H7 H8 H9 H10.
  unfold frame_of. rewrite H1, H2, H3, H4, H5, H6, H7, H8, H9, H10. unfold set_slot. by destruct (0 <=? s).
Qed.

Lemma slot_at_slots c c' : mSlots c = mSlots c' -> forall x, slot_at c x = slot_at c' x.
Proof. intros H x. unfold slot_at. by rewrite H. Qed.

Section Loops.

Context (l : list Z) (Hl : forall s, s ∈ l -> valid_slot s).

Lemma clear_slots_spec c : length (mSlots c) = 64%nat ->
  frame_of (clear_slots l c) = frame_of c /\ mFreeSlots (clear_slots l c) = mFreeSlots c /\
  length (mSlots (clear_slots l c)) = 64%nat /\
  forall x, slot_at (clear_slots l c) x = if decide (x ∈ l) then cleared else slot_at c x.
Proof.
  revert Hl c. induction l as [|s l' IH]; intros Hl' c Hlen; [done|]. simpl.
  destruct (clear_frame s c) as (H1 & H2 & H3).
  destruct (IH ltac:(set_solver) (clearBufferSlotLocked s c)) as (G1 & G2 & G3 & G4).
  { rewrite H3. by rewrite length_set_slot. }
  unfold clear_slots in *. split_and!; [congruence..|]. intros x. rewrite G4, (slot_at_slots _ _ H3).
  rewrite slot_at_set_slot by (try done; set_solver).
  repeat case_decide; set_solver.
Qed.

Lemma free_slots_spec c : length (mSlots c) = 64%nat ->
  frame_of (free_slots l c) = frame_of c /\ mFreeSlots (free_slots l c) = StdSet.insert_all l (mFreeSlots c) /\
  length (mSlots (free_slots l c)) = 64%nat /\
  forall x, slot_at (free_slots l c) x = if decide (x ∈ l) then cleared else slot_at c x.
Proof.
  revert Hl c. induction l as [|s l' IH]; intros Hl' c Hlen; [done|]. simpl.
  destruct (clear_frame s (c <| mFreeSlots := StdSet.insert s (mFreeSlots c) |>)) as (H1 & H2 & H3).
  destruct (IH ltac:(set_solver) (free_slot s c)) as (G1 & G2 & G3 & G4).
  { unfold free_slot. rewrite H3. by rewrite length_set_slot. }
  unfold free_slots, free_slot in *. split_and!; [rewrite G1; exact H1|rewrite G2, H2; done|done|].
  intros x. rewrite G4, (slot_at_slots _ _ H3). rewrite slot_at_set_slot by (try done; set_solver).
  repeat case_decide; set_solver.
Qed.

End Loops.

(** ** discardFreeBuffersLocked *)

Lemma frame_fields c c' : frame_of c = frame_of c' ->
  mQueue c = mQueue c' /\ mUnusedSlots c = mUnusedSlots c' /\ mFreeBuffers c = mFreeBuffers c' /\
  mActiveBuffers c = mActiveBuffers c' /\ mSharedBufferMode c = mSharedBufferMode c' /\
  mSharedBufferSlot c = mSharedBufferSlot c' /\ mIsAbandoned c = mIsAbandoned c' /\ mIsAllocating c = mIsAllocating c'.
Proof. unfold frame_of. intros [= ? ? ? ? ? ? ? ?]. auto 10. Qed.

(** The slots of a pool that is emptied into [mFreeSlots]. *)
Lemma discard_invariant pending c : invariant pending c -> invariant pending (discardFreeBuffersLocked c).
Proof.
  intros Hinv. unfold discardFreeBuffersLocked. set (c0 := match _ with Some _ => _ | None => _ end).
  assert (Hv0 : view_of c0 = view_of c) by (unfold c0; case_match; [case_match|]; done).
  apply (invariant_ext _ c c0 Hv0) in Hinv. clearbody c0. clear Hv0 c. rename c0 into c.
  pose proof Hinv as [Hp Hq Hs Hpend]. pose proof Hp as [Hlen Hnu Hof Hnb Hoa Hr Hpl].
  destruct (free_slots_spec (mFreeBuffers c) ltac:(intros; apply Hr; unfold in_some_pool; tauto) c Hlen) as (Hf & Hfs & Hlen' & Hat).
  apply frame_fields in Hf as (F1 & F2 & F3 & F4 & F5 & F6 & F7 & F8).
  set (c' := free_slots (mFreeBuffers c) c) in *.
  assert (Hat' : forall x, slot_at (c' <| mFreeBuffers := [] |>) x = if decide (x ∈ mFreeBuffers c) then cleared else slot_at c x).
  { intros x. rewrite <- Hat. done. }
  assert (Hsame : forall x, x ∈ mFreeBuffers c -> state_at c x = BufferState.new).
  { intros x Hx. apply (placed_buffer _ _ _ Hp) in Hx as (_ & _ & _ & _ & Hi). apply Hi. }
  assert (Hst : forall x, state_at (c' <| mFreeBuffers := [] |>) x = state_at c x).
  { intros x. unfold state_at. rewrite Hat'. case_decide; [|done]. symmetry. by apply Hsame. }
  constructor.
  - constructor; cbn; rewrite ?F2, ?F4, ?Hfs; auto with containers; [constructor| |].
    + unfold in_some_pool. cbn. rewrite F2, F4, Hfs. intros s. rewrite StdSet.elem_of_insert_all. intros. apply Hr. unfold in_some_pool.
      pose proof (not_elem_of_nil s). tauto.
    + intros s Hs'. specialize (Hpl s Hs'). unfold slot_placed in *. rewrite Hat'. cbn. rewrite F2, F4, Hfs, StdSet.elem_of_insert_all.
      pose proof (not_elem_of_nil s). pose proof cleared_empty. case_decide; tauto.
  - destruct Hq as [Hc Hi Hb]. constructor; cbn; rewrite ?F1; auto. intros. rewrite Hst. auto.
  - unfold shared_sound in *. rewrite Hst. cbn. by rewrite F4, F5, F6.
  - destruct Hpend as [P1 P2 P3 P4 P5]. constructor; cbn; rewrite ?F7, ?F8; auto.
    + intros s Hs1 Hs2. rewrite Hst, Hat'. destruct (P3 s Hs1 Hs2) as (Q1 & Q2 & Q3 & Q4 & Q5). rewrite F4.
      apply (placed_active _ _ _ Hp) in Q1 as Q1'. rewrite decide_False by tauto. auto.
    + intros s Hs1 Hs2. rewrite Hfs, StdSet.elem_of_insert_all. auto.
Qed.

(** ** freeAllBuffersLocked *)

Definition make_stale (b : BufferItem.t) : BufferItem.t :=
  b <| BufferItem.mIsStale := true |> <| BufferItem.mAcquireCalled := false |>.

Record all_freed (c c' : t) : Prop := {
  freed_pools : forall pending, pools pending c';
  freed_free : forall s, s ∈ mFreeSlots c' <-> s ∈ mFreeSlots c \/ s ∈ mFreeBuffers c \/ s ∈ mActiveBuffers c;
  freed_unused : mUnusedSlots c' = mUnusedSlots c;
  freed_buffers : mFreeBuffers c' = [];
  freed_active : mActiveBuffers c' = [];
  freed_queue : mQueue c' = map make_stale (mQueue c);
  freed_state : forall s, valid_slot s -> slot_empty (slot_at c' s);
  freed_mode : mSharedBufferMode c' = mSharedBufferMode c;
  freed_abandoned : mIsAbandoned c' = mIsAbandoned c;
  freed_allocating : mIsAllocating c' = mIsAllocating c }.

Lemma free_all_spec pending c : pools pending c -> all_freed c (freeAllBuffersLocked c).
Proof.
  intros Hp. pose proof Hp as [Hlen Hnu Hof Hnb Hoa Hr Hpl]. unfold freeAllBuffersLocked, in_some_pool in *.
  destruct (clear_slots_spec (mFreeSlots c) ltac:(intros; apply Hr; tauto) c Hlen) as (E1 & E2 & E3 & E4).
  set (c1 := clear_slots (mFreeSlots c) c) in *. clearbody c1. apply frame_fields in E1 as (F1 & F2 & F3 & F4 & F5 & F6 & F7 & F8).
  destruct (free_slots_spec (mFreeBuffers c1) ltac:(intros s ?; apply Hr; rewrite F3 in *; tauto) c1 E3) as (E1' & E2' & E3' & E4').
  set (c2 := free_slots (mFreeBuffers c1) c1) in *. clearbody c2. apply frame_fields in E1' as (F1' & F2' & F3' & F4' & F5' & F6' & F7' & F8').
  set (c3 := c2 <| mFreeBuffers := [] |>).
  destruct (free_slots_spec (mActiveBuffers c3) ltac:(unfold c3; cbn; intros s ?; apply Hr; rewrite F4', F4 in *; tauto) c3 E3') as (E1'' & E2'' & E3'' & E4'').
  set (c4 := free_slots (mActiveBuffers c3) c3) in *. clearbody c4. apply frame_fields in E1'' as (F1'' & F2'' & F3'' & F4'' & F5'' & F6'' & F7'' & F8'').
  change (mFreeSlots c4 = StdSet.insert_all (mActiveBuffers c2) (mFreeSlots c2)) in E2''.
  unfold c3 in *. cbn in F1'', F2'', F3'', F4'', F5'', F6'', F7'', F8''.
  set (c5 := (c4 <| mActiveBuffers := [] |>) <| mQueue := _ |>).
  assert (Hfree : forall s, s ∈ mFreeSlots c4 <-> s ∈ mFreeSlots c \/ s ∈ mFreeBuffers c \/ s ∈ mActiveBuffers c).
  { intros s. rewrite E2'', E2', !StdSet.elem_of_insert_all. rewrite F4', F4, F3, E2. tauto. }
  assert (Hat : forall s, slot_at c5 s = if decide (s ∈ mActiveBuffers c) then cleared else
    if decide (s ∈ mFreeBuffers c) then cleared else if decide (s ∈ mFreeSlots c) then cleared else slot_at c s).
  { intros s. change (slot_at c5 s) with (slot_at c4 s). rewrite E4''. cbn. rewrite F4', F4.
    change (slot_at (c2 <| mFreeBuffers := [] |>) s) with (slot_at c2 s). rewrite E4', F3, E4. done. }
  assert (Hempty : forall s, valid_slot s -> slot_empty (slot_at c5 s)).
  { intros s Hs. rewrite Hat. specialize (Hpl s Hs). unfold slot_placed in Hpl. pose proof cleared_empty.
    repeat case_decide; tauto. }
  assert (Hun : mUnusedSlots c4 = mUnusedSlots c) by congruence.
  constructor; cbn; try congruence; try done.
  - intros pending'. constructor; cbn; rewrite ?Hun; auto with containers.
    + rewrite E2'', E2', E2. auto with containers.
    + rewrite F3''. constructor.
    + constructor.
    + unfold in_some_pool. cbn. rewrite Hun, F3''. intros s. rewrite Hfree. intros. apply Hr. pose proof (not_elem_of_nil s). tauto.
    + intros s Hs. specialize (Hpl s Hs). unfold slot_placed in *. cbn. rewrite Hun, F3'', Hfree. specialize (Hempty s Hs).
      pose proof (not_elem_of_nil s). tauto.
  - change (map make_stale (mQueue c4) = map make_stale (mQueue c)). congruence.
Qed.

Lemma queued_in_stale s q : queued_in s (map make_stale q) = 0.
Proof. unfold queued_in. induction q as [|i q IH]; [done|]. simpl map. rewrite filter_cons_False; [done|]. by intros [? _]. Qed.

Lemma stale_items_sound c : length (mSlots c) = 64%nat ->
  (forall s, valid_slot s -> slot_empty (slot_at c s)) -> Z.of_nat (length (mQueue c)) <= UINT32_MAX ->
  (exists q, mQueue c = map make_stale q) -> queue_sound c.
Proof.
  intros Hlen He Hb [q Hq]. constructor; [| |done]; rewrite Hq in *.
  - intros s Hs. unfold state_at. destruct (He s Hs) as [-> _]. by rewrite queued_in_stale.
  - intros i Hi Hst. apply elem_of_map in Hi as (j & _ & ->). done.
Qed.

Lemma pending_nil c : pending_sound [] c.
Proof. constructor; [constructor| | | |done]; intros s Hs; by apply not_elem_of_nil in Hs. Qed.

(** what the producer leaves when it disconnects *)
Lemma free_all_invariant c : invariant [] c ->
  invariant [] ((freeAllBuffersLocked c) <| mSharedBufferSlot := INVALID_BUFFER_SLOT |>).
Proof.
  intros [Hp Hq Hs Hpend]. pose proof (free_all_spec _ _ Hp) as [G1 G2 G3 G4 G5 G6 G7 G8 G9 G10].
  specialize (G1 []). set (c' := freeAllBuffersLocked c) in *. clearbody c'. constructor.
  - destruct G1. by constructor.
  - apply stale_items_sound; cbn; try done; [apply G1| |eauto]. rewrite G6, length_map. apply Hq.
  - by left.
  - apply pending_nil.
Qed.

(** what the consumer leaves when it disconnects, allocations running or not *)
Lemma abandon_invariant pending c l : invariant pending c ->
  invariant pending ((freeAllBuffersLocked (c <| mIsAbandoned := true |> <| mConsumerListener := l |> <| mQueue := [] |>))
                       <| mSharedBufferSlot := INVALID_BUFFER_SLOT |>).
Proof.
  intros [Hp Hq Hs Hpend]. set (c1 := c <| mIsAbandoned := true |> <| mConsumerListener := l |> <| mQueue := [] |>).
  assert (Hp1 : pools pending c1) by (destruct Hp; by constructor).
  pose proof (free_all_spec _ _ Hp1) as [G1 G2 G3 G4 G5 G6 G7 G8 G9 G10].
  specialize (G1 pending). set (c' := freeAllBuffersLocked c1) in *. clearbody c'. constructor.
  - destruct G1. by constructor.
  - apply stale_items_sound; cbn; try done; [apply G1| |eauto]. rewrite G6. cbn. unfold UINT32_MAX. lia.
  - by left.
  - destruct Hpend as [P1 P2 P3 P4 P5]. constructor; cbn; rewrite ?G9, ?G10; auto; [done|].
    intros s Hs1 _. rewrite G2. cbn. destruct (mIsAbandoned c) eqn:E; [left; auto|]. right; right. by apply P3.
Qed.

(** ** adjustAvailableSlotsLocked *)

Lemma last_removelast {A} (l : list A) x : last l = Some x -> l = removelast l ++ [x].
Proof.
  intros Hl. destruct l as [|y l'] using rev_ind; [done|]. rewrite last_snoc in Hl. injection Hl as <-.
  by rewrite removelast_last.
Qed.

Lemma NoDup_last {A} (l : list A) x : NoDup l -> last l = Some x ->
  NoDup (removelast l) /\ x ∈ l /\ forall y, y ∈ removelast l <-> y <> x /\ y ∈ l.
Proof.
  intros Hnd Hl. apply last_removelast in Hl. set (r := removelast l) in *. clearbody r. subst l.
  apply NoDup_app in Hnd as (Hr & Hx & _). split_and!; [done|set_solver|]. intros y. split; [|set_solver].
  intros Hy. specialize (Hx y Hy). set_solver.
Qed.

Lemma view_moved_id c s u fr fb ac : valid_slot s ->
  view_of (c <| mUnusedSlots := u |> <| mFreeSlots := fr |> <| mFreeBuffers := fb |> <| mActiveBuffers := ac |>) =
  view_of (moved s (fun x => x) u fr fb ac c).
Proof. intros Hv. rewrite moved_as by done. rewrite list_alter_id by done. done. Qed.

(** No allocation is running in an abandoned queue. *)
Definition settled (pending : list Z) (c : t) : Prop := mIsAbandoned c = false \/ pending = [].

Lemma not_pending pending c s : invariant pending c -> settled pending c -> s ∉ mActiveBuffers c -> s ∉ pending.
Proof.
  intros Hinv [Hab| ->] Hs Hin; [|set_solver]. apply Hs. by apply (pending_dequeued _ _ (inv_pending _ _ Hinv)).
Qed.

(** the shared slot is active *)
Lemma shared_is_active pending c s : invariant pending c -> mSharedBufferSlot c = s -> valid_slot s -> s ∈ mActiveBuffers c.
Proof.
  intros Hinv Hs Hv. destruct (inv_shared _ _ Hinv) as [Hi|(_ & Ha & _)]; [|by subst].
  unfold valid_slot, INVALID_BUFFER_SLOT in *. lia.
Qed.

(** the fields that [adjustAvailableSlotsLocked] leaves alone *)
Definition config_of (c : t) :=
  (mQueue c, mActiveBuffers c, (mSharedBufferMode c, mSharedBufferSlot c), (mIsAbandoned c, mIsAllocating c),
   (mMaxBufferCount c, mMaxAcquiredBufferCount c, mMaxDequeuedBufferCount c),
   (mAsyncMode c, mDequeueBufferCannotBlock c, mConsumerControlledByApp c),
   (mFrameCounter c, mDefaultWidth c, mDefaultHeight c, mTransformHint c), (mConsumerListener c, mConnectedApi c)).

Lemma clear_config s c : config_of (clearBufferSlotLocked s c) = config_of c.
Proof. unfold clearBufferSlotLocked, emit, set_slot. destruct (negb _), (0 <=? s); cbn; by destruct (_ =? _). Qed.

Lemma grow_step pending c s : invariant pending c -> settled pending c -> last (mUnusedSlots c) = Some s ->
  invariant pending (c <| mUnusedSlots := removelast (mUnusedSlots c) |> <| mFreeSlots := StdSet.insert s (mFreeSlots c) |>).
Proof.
  intros Hinv Hset Hl. destruct (NoDup_last _ _ (pools_unused _ _ (inv_pools _ _ Hinv)) Hl) as (Hnd & Hin & Hrm).
  destruct (placed_unused _ _ _ (inv_pools _ _ Hinv) Hin) as (Hv & Hnf & Hnb & Hna & He).
  eapply invariant_ext; [apply (view_moved_id c s (removelast (mUnusedSlots c)) (StdSet.insert s (mFreeSlots c)) (mFreeBuffers c) (mActiveBuffers c) Hv)|].
  destruct (pools_sorted _ _ (inv_pools _ _ Hinv)). apply invariant_moved; auto with containers.
  - by eapply not_pending.
  - intros x Hx. rewrite Hrm, StdSet.elem_of_insert. tauto.
  - intros Hs. exfalso. apply Hna. by eapply shared_is_active.
  - rewrite Hrm, StdSet.elem_of_insert. tauto.
Qed.

(** the two branches of [shrink]: the slot goes to [mUnusedSlots] *)
Lemma shrink_step pending c s fr fb : invariant pending c -> settled pending c ->
  s ∈ mFreeSlots c \/ s ∈ mFreeBuffers c ->
  StdSet.ordered fr -> NoDup fb -> (forall x, x ∈ fr <-> x <> s /\ x ∈ mFreeSlots c) -> (forall x, x ∈ fb <-> x <> s /\ x ∈ mFreeBuffers c) ->
  invariant pending ((clearBufferSlotLocked s c) <| mUnusedSlots := mUnusedSlots c ++ [s] |> <| mFreeSlots := fr |> <| mFreeBuffers := fb |>).
Proof.
  intros Hinv Hset Hin Hfr Hfb Hmf Hmb. pose proof (inv_pools _ _ Hinv) as Hp.
  assert (Hplace : valid_slot s /\ s ∉ mUnusedSlots c /\ s ∉ mActiveBuffers c /\ state_at c s = BufferState.new).
  { destruct Hin as [Hin|Hin]; [destruct (placed_free _ _ _ Hp Hin) as (?&?&?&?&?&?)|destruct (placed_buffer _ _ _ Hp Hin) as (?&?&?&?&?&?)]; auto. }
  destruct Hplace as (Hv & Hnu & Hna & Hst).
  apply (invariant_ext _ (moved s (fun _ => cleared) (mUnusedSlots c ++ [s]) fr fb (mActiveBuffers c) c)).
  { pose proof (view_clear s c) as Hview. rewrite moved_as by done. rewrite set_slot_as in Hview by done.
    unfold view_of in *. injection Hview as H1 H2 H3 H4 H5 H6 H7 H8 H9 H10. cbn in *. congruence. }
  destruct (pools_sorted _ _ Hp). apply invariant_moved; auto with containers.
  - by eapply not_pending.
  - apply NoDup_app. split_and!; [done| |apply NoDup_singleton]. intros x Hx Hx'. apply list_elem_of_singleton in Hx'. by subst.
  - intros x Hx. rewrite Hmf, Hmb, elem_of_app, list_elem_of_singleton. tauto.
  - unfold state_at in Hst. unfold state_at. by rewrite Hst.
  - intros Hs. exfalso. apply Hna. by eapply shared_is_active.
  - rewrite Hmf, Hmb, elem_of_app, list_elem_of_singleton. pose proof cleared_empty. tauto.
Qed.

(** The pools after [adjustAvailableSlotsLocked] succeeded. *)
Record adjusted (pending : list Z) (delta : Z) (c c' : t) : Prop := {
  adjusted_inv : invariant pending c';
  adjusted_config : config_of c' = config_of c;
  adjusted_unused : Z.of_nat (length (mUnusedSlots c')) = Z.of_nat (length (mUnusedSlots c)) - delta }.

Lemma grow_adjusted pending n c : invariant pending c -> settled pending c -> (n <= length (mUnusedSlots c))%nat ->
  (grow n c).1 = true /\ adjusted pending (Z.of_nat n) c (grow n c).2.
Proof.
  revert c. induction n as [|n IH]; intros c Hinv Hset Hle; simpl.
  { split; [done|]. constructor; [done|done|lia]. }
  destruct (last (mUnusedSlots c)) as [s|] eqn:El; [|apply last_None in El; rewrite El in Hle; simpl in Hle; lia].
  pose proof (last_removelast _ _ El) as Hsplit. pose proof (f_equal length Hsplit) as Hlen. rewrite length_app in Hlen. simpl in Hlen.
  set (c1 := c <| mUnusedSlots := removelast (mUnusedSlots c) |> <| mFreeSlots := _ |>).
  destruct (IH c1) as [Hok [G1 G2 G3]]; [by apply grow_step|exact Hset|cbn; lia|].
  split; [done|]. constructor; [done|rewrite G2; done|]. rewrite G3. cbn. lia.
Qed.

Lemma shrink_adjusted pending n c : invariant pending c -> settled pending c -> (n <= length (mFreeSlots c) + length (mFreeBuffers c))%nat ->
  (shrink n c).1 = true /\ adjusted pending (- Z.of_nat n) c (shrink n c).2.
Proof.
  revert c. induction n as [|n IH]; intros c Hinv Hset Hle; simpl.
  { split; [done|]. constructor; [done|done|lia]. }
  assert (Hrest : forall c1 s, config_of c1 = config_of (clearBufferSlotLocked s c) -> mUnusedSlots c1 = mUnusedSlots c ++ [s] -> invariant pending c1 ->
    (n <= length (mFreeSlots c1) + length (mFreeBuffers c1))%nat -> (shrink n c1).1 = true /\ adjusted pending (- Z.of_nat (S n)) c (shrink n c1).2).
  { intros c1 s Hcfg Hun Hinv1 Hle1. rewrite clear_config in Hcfg. destruct (IH c1) as [Hok [G1 G2 G3]]; try done.
    - unfold settled in *. assert (mIsAbandoned c1 = mIsAbandoned c) as -> by (unfold config_of in Hcfg; congruence). done.
    - split; [done|]. constructor; [done|congruence|]. rewrite G3, Hun, length_app. simpl. lia. }
  destruct (mFreeSlots c) as [|s fr] eqn:Ef.
  - destruct (last (mFreeBuffers c)) as [s|] eqn:El; [|apply last_None in El; rewrite El in Hle; simpl in Hle; lia].
    destruct (clear_frame s c) as (Hfr & Hfs & _). apply frame_fields in Hfr as (F1 & F2 & F3 & F4 & F5 & F6 & F7 & F8).
    destruct (NoDup_last _ _ (pools_buffers _ _ (inv_pools _ _ Hinv)) El) as (Hnd & Hin & Hrm).
    pose proof (f_equal length (last_removelast _ _ El)) as Hlen. rewrite length_app in Hlen. simpl in Hlen, Hle.
    apply (Hrest _ s); [done|cbn; by rewrite F2| |cbn; rewrite Hfs, F3, Ef; simpl; lia].
    eapply invariant_ext; [|apply (shrink_step pending c s [] (removelast (mFreeBuffers c)))]; auto.
    + unfold view_of. cbn. by rewrite F2, F3, Hfs, Ef.
    + constructor.
    + intros x. rewrite Ef. pose proof (not_elem_of_nil x). tauto.
  - destruct (clear_frame s c) as (Hfr & Hfs & _). apply frame_fields in Hfr as (F1 & F2 & F3 & F4 & F5 & F6 & F7 & F8).
    assert (Hin : s ∈ mFreeSlots c) by (rewrite Ef; left).
    pose proof (pools_free _ _ (inv_pools _ _ Hinv)) as Hof.
    pose proof (StdSet.length_erase s (mFreeSlots c) (StdSet.ordered_NoDup _ Hof) Hin) as Hlen.
    apply (Hrest _ s); [done|cbn; by rewrite F2| |cbn -[StdSet.erase]; rewrite Hfs, F3; rewrite Ef in Hlen; simpl in Hlen, Hle; rewrite Ef; lia].
    eapply invariant_ext; [|apply (shrink_step pending c s (StdSet.erase s (mFreeSlots c)) (mFreeBuffers c))]; auto with containers.
    + unfold view_of. cbn -[StdSet.erase]. by rewrite F2, F3, Hfs.
    + apply Hinv.
    + intros x. apply StdSet.elem_of_erase.
    + intros x. destruct (placed_free _ _ _ (inv_pools _ _ Hinv) Hin) as (_ & _ & Hnb & _ & _). split; [|tauto]. intros Hx. split; [|done]. by intros ->.
Qed.

(** [adjustAvailableSlotsLocked] either fails and changes nothing, or makes exactly
    [delta] more slots available. *)
Lemma adjust_cases pending delta c : invariant pending c -> settled pending c ->
  adjustAvailableSlotsLocked delta c = (false, c) \/
  (exists c', adjustAvailableSlotsLocked delta c = (true, c') /\ adjusted pending delta c c').
Proof.
  intros Hinv Hset. unfold adjustAvailableSlotsLocked. destruct (0 <=? delta) eqn:E0; bool_to_prop.
  - destruct (_ <? _) eqn:E1; bool_to_prop; [by left|right].
    destruct (grow_adjusted pending (Z.to_nat delta) c Hinv Hset ltac:(lia)) as [H1 H2].
    exists (grow (Z.to_nat delta) c).2. rewrite Z2Nat.id in H2 by lia. split; [|done]. by rewrite (surjective_pairing (grow _ _)), H1.
  - destruct (_ <? _) eqn:E1; bool_to_prop; [by left|right].
    destruct (shrink_adjusted pending (Z.to_nat (- delta)) c Hinv Hset ltac:(lia)) as [H1 H2].
    exists (shrink (Z.to_nat (- delta)) c).2. rewrite Z2Nat.id, Z.opp_involutive in H2 by lia. split; [|done].
    by rewrite (surjective_pairing (shrink _ _)), H1.
Qed.
