(* ===== verification/BufferQueueProducerSafety.v ===== *)
(** * The operations of the producer preserve the invariant

    Each lemma names what the caller has to respect, if anything: that it uses only
    slots it was given (not one that is still being allocated), and the situations
    listed in BufferQueueFindings.v in which the code itself loses the invariant. *)

From S2P Require Import Prelude Geometry RegionHelper Region BufferSlot OccupancyTracker BufferQueueCore.
From S2P Require Import BufferQueueProducer BufferQueueInvariant BufferQueueCoreSafety.
Import BufferQueueCore BufferQueueProducer.

(** ** States *)

Lemma dequeued_in_use st : in_use st -> BufferState.isDequeued st = true ->
  st = DEQUEUED \/ (BufferState.mShared st = true /\ counts_ok st).
Proof. by intros [->|[->|[->|?]]]; auto. Qed.
Lemma acquired_in_use st : in_use st -> BufferState.isAcquired st = true ->
  st = ACQUIRED \/ (BufferState.mShared st = true /\ counts_ok st).
Proof. by intros [->|[->|[->|?]]]; auto. Qed.
Lemma queued_in_use st : in_use st -> 0 < BufferState.mQueueCount st ->
  st = QUEUED \/ (BufferState.mShared st = true /\ counts_ok st).
Proof. intros [->|[->|[->|?]]]; simpl; auto; lia. Qed.

Lemma incr_nonneg n : 0 <= BufferState.incr n.
Proof. unfold BufferState.incr, uint32. by apply Z.mod_pos_bound. Qed.
Lemma decr_nonneg n : 0 <= n -> 0 <= BufferState.decr n.
Proof. unfold BufferState.decr. destruct (0 <? n) eqn:E; bool_to_prop; lia. Qed.
#[export] Hint Resolve incr_nonneg decr_nonneg : containers.

(** A slot whose state is not the initial one is active. *)
Lemma dequeued_active pending c s : invariant pending c -> valid_slot s -> BufferState.isDequeued (state_at c s) = true -> s ∈ mActiveBuffers c.
Proof. intros Hinv Hv Hd. eapply used_is_active; [apply Hinv|done|]. intros Heq. by rewrite Heq in Hd. Qed.
Lemma acquired_active pending c s : invariant pending c -> valid_slot s -> BufferState.isAcquired (state_at c s) = true -> s ∈ mActiveBuffers c.
Proof. intros Hinv Hv Hd. eapply used_is_active; [apply Hinv|done|]. intros Heq. by rewrite Heq in Hd. Qed.

Lemma in_range_valid slot : (slot <? 0) || (NUM_BUFFER_SLOTS <=? slot) = false -> valid_slot slot.
Proof. intros. bool_to_prop. unfold valid_slot. lia. Qed.

Lemma no_shared_slot pending c : invariant pending c -> mSharedBufferMode c = false -> mSharedBufferSlot c = INVALID_BUFFER_SLOT.
Proof. intros Hinv Hm. destruct (inv_shared _ _ Hinv) as [?|(? & _)]; congruence. Qed.

Lemma valid_not_invalid s : valid_slot s -> s <> INVALID_BUFFER_SLOT.
Proof. unfold valid_slot, INVALID_BUFFER_SLOT. lia. Qed.

(** ** requestBuffer *)

Lemma requestBuffer_safe pending p slot : invariant pending (mCore p) -> slot ∉ pending ->
  invariant pending (mCore (requestBuffer p slot).2).
Proof.
  intros Hinv Hnp. unfold requestBuffer. repeat (case_match; simplify_eq; try done). cbn.
  match goal with H : (_ || _) = false |- _ => apply in_range_valid in H as Hv end. bool_to_prop.
  assert (Ha : slot ∈ mActiveBuffers (mCore p)) by (eapply dequeued_active; [done..|by destruct (BufferState.isDequeued _)]).
  destruct (active_slot _ _ _ Hinv Ha Hnp) as (_ & Hu & Hb & _).
  apply invariant_set_slot; try done. cbn. intros Hs. destruct (inv_shared _ _ Hinv) as [Hi|(_ & _ & Hf)]; [|by rewrite Hs in Hf].
  exfalso. by apply (valid_not_invalid slot); congruence.
Qed.

(** ** Operations that change the number of slots *)

Lemma adjust_safe pending delta c : invariant pending c -> settled pending c -> invariant pending (adjustAvailableSlotsLocked delta c).2.
Proof. intros Hinv Hset. destruct (adjust_cases pending delta c Hinv Hset) as [-> |(c' & -> & [])]; done. Qed.

Ltac use_adjust :=
  match goal with
  | Hi : invariant ?pd ?c, Hs : settled ?pd ?c, H : adjustAvailableSlotsLocked ?d _ = _ |- _ =>
    let Ha := fresh "Ha" in pose proof (adjust_safe pd d c Hi Hs) as Ha; rewrite H in Ha; cbn in Ha
  end.

Lemma setMaxDequeuedBufferCount_safe pending p n : invariant pending (mCore p) -> settled pending (mCore p) ->
  match setMaxDequeuedBufferCount p n with
  | Returns _ p' | Waits p' => invariant pending (mCore p')
  | Crashes => False
  end.
Proof.
  intros Hinv Hset. unfold setMaxDequeuedBufferCount. cbv zeta. repeat (case_match; simplify_eq; try done);
    use_adjust; try done;
  cbn; (eapply invariant_ext; [|eassumption]); rewrite ?view_notify; done.
Qed.

Lemma setAsyncMode_safe pending p b : invariant pending (mCore p) -> settled pending (mCore p) ->
  match setAsyncMode p b with
  | Returns _ p' | Waits p' => invariant pending (mCore p')
  | Crashes => False
  end.
Proof.
  intros Hinv Hset. unfold setAsyncMode. cbv zeta. repeat (case_match; simplify_eq; try done);
    use_adjust; try done;
  cbn; (eapply invariant_ext; [|eassumption]); rewrite ?view_notify; done.
Qed.

Lemma setDequeueTimeout_safe pending p n : invariant pending (mCore p) -> settled pending (mCore p) ->
  invariant pending (mCore (setDequeueTimeout p n).2).
Proof.
  intros Hinv Hset. unfold setDequeueTimeout. cbv zeta. destruct (adjustAvailableSlotsLocked _ _) as [ok c'] eqn:H.
  use_adjust.
  destruct (negb ok); [done|]. cbn. destruct (0 <? n); (eapply invariant_ext; [|eassumption]); done.
Qed.

Lemma connect_safe pending p l api b out pid : invariant pending (mCore p) -> settled pending (mCore p) ->
  invariant pending (mCore (connect p l api b out pid).2).
Proof.
  intros Hinv Hset. unfold connect. cbv zeta.
  change (mCore (p <| mConsumerName := _ |>)) with (mCore p).
  repeat (case_match; simplify_eq; try done);
    use_adjust; try done;
  cbn; simplify_eq; (eapply invariant_ext; [|eassumption]); done.
Qed.

(** ** Looking for a slot *)

(** Where a slot found by [waitForFreeSlotThenRelock] comes from. *)
Inductive found_in (caller : FreeSlotCaller) (c : BufferQueueCore.t) (found : Z) : BufferQueueCore.t -> Prop :=
| found_shared : mSharedBufferMode c = true -> mSharedBufferSlot c = found -> found_in caller c found c
| found_buffer rest : mFreeBuffers c = found :: rest -> mSharedBufferSlot c = INVALID_BUFFER_SLOT ->
    found_in caller c found (c <| mFreeBuffers := rest |>)
| found_free : found ∈ mFreeSlots c -> mSharedBufferSlot c = INVALID_BUFFER_SLOT ->
    (caller = Dequeue -> mAllowAllocation c = true) ->
    found_in caller c found (c <| mFreeSlots := StdSet.erase found (mFreeSlots c) |>).

Lemma with_core_id (p : t) : p <| mCore := mCore p |> = p.
Proof. by destruct p. Qed.

Definition wait_result (caller : FreeSlotCaller) (p : t) (o : outcome t (status_t * Z)) : Prop :=
  match o with
  | Crashes => False
  | Waits p' => p' = p
  | Returns (status, found) p' =>
    (status <> NO_ERROR /\ p' = p) \/
    (status = NO_ERROR /\ valid_slot found /\ mIsAbandoned (mCore p) = false /\
     exists c, p' = p <| mCore := c |> /\ found_in caller (mCore p) found c)
  end.

Lemma free_slot_valid pending c s : pools pending c -> s ∈ mFreeSlots c \/ s ∈ mFreeBuffers c \/ s ∈ mActiveBuffers c -> valid_slot s.
Proof. intros Hp Hs. apply (pools_range _ _ Hp). unfold in_some_pool. tauto. Qed.

Lemma getFreeBuffer_cases pending c : pools pending c ->
  getFreeBufferLocked c = (INVALID_BUFFER_SLOT, c) \/
  exists s rest, mFreeBuffers c = s :: rest /\ valid_slot s /\ getFreeBufferLocked c = (s, c <| mFreeBuffers := rest |>).
Proof.
  intros Hp. unfold getFreeBufferLocked. destruct (mFreeBuffers c) as [|s rest] eqn:E; [by left|right].
  exists s, rest. split_and!; try done. eapply free_slot_valid; [done|]. rewrite E. set_solver.
Qed.

Lemma getFreeSlot_cases pending c : pools pending c ->
  getFreeSlotLocked c = (INVALID_BUFFER_SLOT, c) \/
  exists s, s ∈ mFreeSlots c /\ valid_slot s /\ getFreeSlotLocked c = (s, c <| mFreeSlots := StdSet.erase s (mFreeSlots c) |>).
Proof.
  intros Hp. unfold getFreeSlotLocked. destruct (mFreeSlots c) as [|s rest] eqn:E; [by left|right].
  exists s. split_and!; [set_solver| |done]. eapply free_slot_valid; [done|]. rewrite E. set_solver.
Qed.

Lemma wait_cases pending p caller : invariant pending (mCore p) -> wait_result caller p (waitForFreeSlotThenRelock p caller).
Proof.
  intros Hinv. unfold waitForFreeSlotThenRelock. set (c := mCore p) in *. pose proof (inv_pools _ _ Hinv) as Hp. cbv zeta.
  destruct (mIsAbandoned c) eqn:Eab; [by left|]. destruct (_ && (_ <=? _)); [by left|].
  set (too := _ <? Z.of_nat _).
  (* the search: nothing, or a slot *)
  match goal with |- context [let '(found, c) := ?search in _] => set (r := search) end.
  assert (Hr : r = (INVALID_BUFFER_SLOT, c) \/ (too = false /\ valid_slot r.1 /\ found_in caller c r.1 r.2)).
  { unfold r. destruct too; [by left|]. destruct (mSharedBufferMode c && _) eqn:Es; bool_to_prop.
    { right. assert (valid_slot (mSharedBufferSlot c)).
      { destruct (inv_shared _ _ Hinv) as [Hi|(_ & Ha & _)]; [congruence|]. eapply free_slot_valid; eauto. }
      split_and!; try done. by apply found_shared. }
    assert (Hns : mSharedBufferSlot c = INVALID_BUFFER_SLOT).
    { destruct Es as [Es|Es]; bool_to_prop; [by eapply no_shared_slot|done]. }
    destruct caller.
    - destruct (getFreeBuffer_cases _ _ Hp) as [->|(s & rest & Hfb & Hv & ->)].
      + simpl. destruct (mAllowAllocation c) eqn:Eal; [|by left].
        destruct (getFreeSlot_cases _ _ Hp) as [->|(s & Hin & Hv & ->)]; [by left|right]. split_and!; try done. by apply found_free.
      + rewrite (proj2 (Z.eqb_neq s _)) by (by apply valid_not_invalid). right. split_and!; try done. by apply found_buffer.
    - destruct (getFreeSlot_cases _ _ Hp) as [->|(s & Hin & Hv & ->)].
      + simpl. destruct (getFreeBuffer_cases _ _ Hp) as [->|(s & rest & Hfb & Hv & ->)]; [by left|right].
        split_and!; try done. by apply found_buffer.
      + rewrite (proj2 (Z.eqb_neq s _)) by (by apply valid_not_invalid). right. split_and!; try done. by apply found_free. }
  clearbody r. destruct r as [found c']; simpl in Hr. destruct Hr as [[= -> ->]|(-> & Hv & Hf)].
  - simpl. unfold c. rewrite with_core_id. by destruct (_ && _); [left|].
  - rewrite (proj2 (Z.eqb_neq found _)) by (by apply valid_not_invalid). simpl. right. split_and!; try done. by exists c'.
Qed.

(** ** dequeueBuffer: the loop *)

Lemma found_not_pending pending c found c' : invariant pending c -> settled pending c -> found_in Dequeue c found c' \/ found_in Attach c found c' ->
  mSharedBufferSlot c ∉ pending -> found ∉ pending.
Proof.
  intros Hinv Hset Hf Hsp.
  assert (found = mSharedBufferSlot c \/ found ∈ mFreeBuffers c \/ found ∈ mFreeSlots c) as [-> |[Hin|Hin]]; [|done|..].
  { destruct Hf as [[]|[]]; auto; right; left; match goal with H : mFreeBuffers _ = _ |- _ => rewrite H end; set_solver. }
  - eapply not_pending; [done..|]. by destruct (placed_buffer _ _ found (inv_pools _ _ Hinv) Hin) as (? & ? & ? & ? & ?).
  - eapply not_pending; [done..|]. by destruct (placed_free _ _ found (inv_pools _ _ Hinv) Hin) as (? & ? & ? & ? & ?).
Qed.

(** A free buffer that does not fit is discarded. *)
Lemma discard_one pending c found rest : invariant pending c -> settled pending c -> mFreeBuffers c = found :: rest ->
  invariant pending (free_slot found (c <| mFreeBuffers := rest |>)).
Proof.
  intros Hinv Hset Hfb. pose proof (inv_pools _ _ Hinv) as Hp.
  destruct (placed_buffer _ _ found Hp) as (Hv & Hnu & Hnf & Hna & Hst & _); [rewrite Hfb; set_solver|].
  pose proof (pools_sorted _ _ Hp) as [Sa Sb Sc Sd]. rewrite Hfb in Sc. apply NoDup_cons in Sc as [Hnr Sc].
  apply (invariant_ext _ (moved found (fun _ => cleared) (mUnusedSlots c) (StdSet.insert found (mFreeSlots c)) rest (mActiveBuffers c) c)).
  { rewrite view_free_slot, set_slot_as, moved_as by done. done. }
  apply invariant_moved; auto with containers.
  - by eapply not_pending.
  - intros x Hx. rewrite StdSet.elem_of_insert, Hfb, elem_of_cons. tauto.
  - unfold state_at. by rewrite Hst.
  - intros Hs. exfalso. apply Hna. by eapply shared_is_active.
  - rewrite StdSet.elem_of_insert. pose proof cleared_empty. tauto.
Qed.

Definition find_result (pending : list Z) (p : t) (r : BufferRequest) (o : outcome t (status_t * Z)) : Prop :=
  match o with
  | Crashes => False
  | Waits p' => invariant pending (mCore p') /\ settled pending (mCore p')
  | Returns (status, found) p' =>
    (status <> NO_ERROR /\ invariant pending (mCore p')) \/
    (status = NO_ERROR /\ valid_slot found /\
     exists c, invariant pending c /\ mIsAbandoned c = false /\ mSharedBufferSlot c = mSharedBufferSlot (mCore p) /\ found_in Dequeue c found (mCore p'))
  end.

(** The loop always ends: every turn that starts over has consumed a free buffer. *)
Lemma dequeueBuffer_find_safe pending fuel p r :
  invariant pending (mCore p) -> settled pending (mCore p) -> mSharedBufferSlot (mCore p) ∉ pending ->
  (length (mFreeBuffers (mCore p)) < fuel)%nat -> find_result pending p r (dequeueBuffer_find fuel p r).
Proof.
  revert p. induction fuel as [|fuel IH]; intros p Hinv Hset Hsp Hfuel; [lia|]. simpl.
  pose proof (wait_cases pending p Dequeue Hinv) as Hw.
  destruct (waitForFreeSlotThenRelock p Dequeue) as [[status found] p1|p1|]; simpl in Hw; [|by subst|done].
  destruct Hw as [[Hst ->]|(-> & Hv & Hab & c1 & -> & Hf)].
  { rewrite (proj2 (Z.eqb_neq status _)) by done. by left. }
  simpl. rewrite (proj2 (Z.eqb_neq found _)) by (by apply valid_not_invalid).
  destruct (mAllowAllocation c1) eqn:Eal; simpl.
  { right. split_and!; try done. by exists (mCore p). }
  assert (Hdone : find_result pending p r (Returns (NO_ERROR, found) (p <| mCore := c1 |>))).
  { right. split_and!; try done. by exists (mCore p). }
  destruct Hf as [Hm Hs|rest Hfb Hns|Hin Hns Hal].
  - (* the shared buffer *)
    destruct (active_slot _ _ found Hinv) as (_ & _ & [b Hb] & _).
    { destruct (inv_shared _ _ Hinv) as [Hi|(_ & Ha & _)]; [|by rewrite <- Hs]. exfalso. apply (valid_not_invalid found Hv). congruence. }
    { by rewrite <- Hs. }
    rewrite Hb. destruct (needs_reallocation b r); [|done]. rewrite (proj2 (Z.eqb_eq _ found)) by done. left. done.
  - destruct (placed_buffer _ _ found (inv_pools _ _ Hinv)) as (_ & _ & _ & _ & _ & [b Hb]); [rewrite Hfb; set_solver|].
    change (slot_at (mCore p) <| mFreeBuffers := rest |> found) with (slot_at (mCore p) found). rewrite Hb.
    destruct (needs_reallocation b r); [|done]. cbn -[free_slot dequeueBuffer_find]. rewrite Hns.
    rewrite (proj2 (Z.eqb_neq _ found)) by (intros Heq; by apply (valid_not_invalid found)).
    pose proof (discard_one _ _ _ _ Hinv Hset Hfb) as Hinv'. set (c2 := free_slot found _) in *.
    assert (Hfr : frame_of c2 = frame_of ((mCore p) <| mFreeBuffers := rest |>)).
    { unfold c2, free_slot. destruct (clear_frame found ((mCore p) <| mFreeBuffers := rest |> <| mFreeSlots := StdSet.insert found (mFreeSlots (mCore p)) |>)) as (H1 & _). exact H1. }
    apply frame_fields in Hfr as (F1 & F2 & F3 & F4 & F5 & F6 & F7 & F8). cbn in F3, F6, F7. clearbody c2.
    specialize (IH (p <| mCore := c2 |>)). cbn in IH. rewrite F3, F6 in IH. unfold settled in *. rewrite F7 in IH.
    rewrite Hfb in Hfuel. simpl in Hfuel. specialize (IH Hinv' Hset Hsp ltac:(lia)).
    destruct (dequeueBuffer_find fuel _ r) as [[st fd] p2|p2|]; simpl in *; [|done|done].
    destruct IH as [?|(? & ? & c3 & ? & ? & Heq & ?)]; [by left|right]. split_and!; try done. exists c3. split_and!; congruence || done.
  - (* cannot be: without allocation only buffers and the shared slot are given out *)
    cbn in Eal. specialize (Hal eq_refl). congruence.
Qed.

(** ** dequeueBuffer: taking the slot *)

(** A free slot becomes the producer's; [alloc] says that it has no buffer yet. *)
Lemma invariant_take pending c c' s (alloc : bool) :
  invariant pending c -> mIsAbandoned c = false -> mSharedBufferSlot c = INVALID_BUFFER_SLOT ->
  s ∈ mFreeSlots c \/ s ∈ mFreeBuffers c ->
  only_slot c (c' <| mSharedBufferSlot := INVALID_BUFFER_SLOT |>) s -> sorted_pools c' ->
  s ∉ mUnusedSlots c' /\ s ∉ mFreeSlots c' /\ s ∉ mFreeBuffers c' /\ s ∈ mActiveBuffers c' ->
  state_at c' s = BufferState.mk 1 0 0 (mSharedBufferMode c) ->
  mQueue c' = mQueue c -> mSharedBufferSlot c' = (if mSharedBufferMode c then s else INVALID_BUFFER_SLOT) ->
  (if alloc then mIsAllocating c' = true /\ BufferSlot.mGraphicBuffer (slot_at c' s) = None /\
                 BufferSlot.mRequestBufferCalled (slot_at c' s) = false
   else mIsAllocating c' = mIsAllocating c /\ is_Some (BufferSlot.mGraphicBuffer (slot_at c' s))) ->
  invariant (if alloc then s :: pending else pending) c'.
Proof.
  intros Hinv Hab Hns Hin [Hlen Hat Hpool Hmode _ Hab'] [Sa Sb Sc Sd] Hpl Hst Hq Hshared Halloc. cbn in Hlen, Hmode, Hab'.
  pose proof Hinv as [Hp [Q1 Q2 Q3] _ [P1 P2 P3 P4 P5]].
  assert (Hplace : valid_slot s /\ s ∉ mActiveBuffers c /\ state_at c s = BufferState.new).
  { destruct Hin as [Hin|Hin]; [destruct (placed_free _ _ _ Hp Hin) as (?&?&?&?&?&?)|destruct (placed_buffer _ _ _ Hp Hin) as (?&?&?&?&?&?)]; auto. }
  destruct Hplace as (Hv & Hna & Hold).
  assert (Hnp : s ∉ pending) by (eapply not_pending; [done|by left|done]).
  assert (Hst' : forall x, x <> s -> state_at c' x = state_at c x) by (intros x Hx; unfold state_at; by rewrite <- (Hat x Hx)).
  assert (Huse : in_use (state_at c' s)).
  { rewrite Hst. destruct (mSharedBufferMode c); [|by left]. right; right; right. split; [done|]. unfold counts_ok. simpl. lia. }
  constructor.
  - eapply (pools_change pending _ c c' s); try done.
    + intros x Hx. destruct alloc; [|done]. rewrite elem_of_cons. tauto.
    + unfold slot_placed, slot_active. unfold state_at in Huse. destruct alloc; rewrite ?elem_of_cons; tauto.
  - constructor; rewrite ?Hq; auto. intros x Hx. destruct (decide (x = s)) as [->|Hne].
    + rewrite Hst. simpl. rewrite <- Q1 by done. by rewrite Hold.
    + rewrite Hst' by done. by apply Q1.
  - unfold shared_sound. rewrite Hshared, Hmode. destruct (mSharedBufferMode c) eqn:Em; [right|by left]. rewrite Hst. tauto.
  - assert (Hold' : forall x, x ∈ pending -> mIsAbandoned c' = false ->
      x ∈ mActiveBuffers c' /\ 0 < BufferState.mDequeueCount (state_at c' x) /\ BufferState.mQueueCount (state_at c' x) = 0 /\
      BufferState.mAcquireCount (state_at c' x) = 0 /\ BufferSlot.mGraphicBuffer (slot_at c' x) = None /\ BufferSlot.mRequestBufferCalled (slot_at c' x) = false).
    { intros x Hx _. assert (x <> s) as Hne by (by intros ->). destruct (Hpool x Hne) as (_ & _ & _ & H4). cbn in H4.
      rewrite Hst' by done. specialize (Hat x Hne). change (slot_at c' x = slot_at c x) in Hat. rewrite Hat, H4. by apply P3. }
    destruct alloc.
    + destruct Halloc as (Ha & Hb & Hr). constructor; try done.
      * by apply NoDup_cons.
      * intros x [->|Hx]%elem_of_cons; auto.
      * intros x [->|Hx]%elem_of_cons Hab2; [|by apply Hold']. rewrite Hst. simpl. split_and!; tauto || lia.
      * intros x _ Hab2. congruence.
    + destruct Halloc as (Ha & Hb). constructor; try done; [|rewrite Ha; done]. intros x _ Hab2. congruence.
Qed.

(** what [dequeueBuffer_take] does to the slot *)
Definition taken (unfit share : bool) (s : BufferSlot.t) : BufferSlot.t :=
  let s := BufferSlot.on_state BufferState.dequeue (s <| BufferSlot.mNeedsReallocation := false |>) in
  let s := if unfit then
    s <| BufferSlot.mAcquireCalled := false |> <| BufferSlot.mGraphicBuffer := None |>
      <| BufferSlot.mRequestBufferCalled := false |> <| BufferSlot.mEglDisplay := EGL_NO_DISPLAY |>
      <| BufferSlot.mEglFence := EGL_NO_SYNC_KHR |> <| BufferSlot.mFence := Some NO_FENCE |>
    else s in
  let s := s <| BufferSlot.mEglFence := EGL_NO_SYNC_KHR |> <| BufferSlot.mFence := Some NO_FENCE |> in
  if share then BufferSlot.on_state (BufferState.set_shared true) s else s.

(** The view after the slot was taken. *)
Lemma dequeueBuffer_take_view p r found :
  valid_slot found ->
  let c := mCore p in
  let unfit := match BufferSlot.mGraphicBuffer (slot_at c found) with Some b => needs_reallocation b r | None => true end in
  let shared := mSharedBufferSlot c =? found in
  let share := mSharedBufferMode c && (mSharedBufferSlot c =? INVALID_BUFFER_SLOT) in
  match dequeueBuffer_take p r found with
  | Crashes => shared = true /\ BufferSlot.mGraphicBuffer (slot_at c found) = None
  | Waits _ => False
  | Returns (inl status) p' => status = BAD_VALUE /\ p' = p /\ shared = true
  | Returns (inr d) p' =>
    outSlot d = found /\ needsAllocation d = unfit /\ (shared = true -> unfit = false) /\
    view_of (mCore p') =
    view_of ((set_slot found (taken unfit share) c)
      <| mActiveBuffers := if shared then mActiveBuffers c else StdSet.insert found (mActiveBuffers c) |>
      <| mIsAllocating := unfit || mIsAllocating c |>
      <| mSharedBufferSlot := if share then found else mSharedBufferSlot c |>)
  end.
Proof.
  intros Hv c unfit shared share. unfold dequeueBuffer_take. fold c. fold shared. cbv zeta. fold unfit.
  destruct (shared && bool_decide _) eqn:E1; bool_to_prop; [done|]. destruct (shared && unfit) eqn:E2; bool_to_prop; [done|].
  cbn [outSlot needsAllocation]. split_and!; [done|done|intros Hs; destruct E2; congruence|]. cbn [mCore].
  change (mCore (with_field mCore ?x p)) with x.
  rewrite !set_slot_as by done.
  destruct unfit eqn:Eu; [|case_match; rewrite ?view_notify]; unfold share; destruct shared eqn:Esh, (mSharedBufferMode c) eqn:Em; cbn;
    rewrite ?Em; cbn; try (destruct (mSharedBufferSlot c =? INVALID_BUFFER_SLOT) eqn:Ei); cbn;
    unfold view_of; cbn; rewrite ?list_alter_alter_eq; try done.
Qed.

Lemma taken_state unfit share sl :
  BufferSlot.mBufferState (taken unfit share sl) =
  (if share then BufferState.set_shared true else (fun x => x)) (BufferState.dequeue (BufferSlot.mBufferState sl)).
Proof. by destruct unfit, share. Qed.
Lemma taken_buffer unfit share sl :
  BufferSlot.mGraphicBuffer (taken unfit share sl) = if unfit then None else BufferSlot.mGraphicBuffer sl.
Proof. by destruct unfit, share. Qed.

Definition take_result (pending : list Z) (o : outcome t (status_t + DequeuedSlot)) : Prop :=
  match o with
  | Crashes => False
  | Waits p' => invariant pending (mCore p') /\ settled pending (mCore p')
  | Returns (inl status) p' => status <> NO_ERROR /\ invariant pending (mCore p')
  | Returns (inr d) p' =>
    outSlot d ∉ pending /\ mIsAbandoned (mCore p') = false /\
    invariant (if needsAllocation d then outSlot d :: pending else pending) (mCore p')
  end.

(** The free slot that was found is taken out of its pool and becomes active. *)
Lemma take_found_free pending c c1 found (unfit : bool) :
  invariant pending c -> mIsAbandoned c = false -> valid_slot found -> mSharedBufferSlot c = INVALID_BUFFER_SLOT ->
  (exists rest, mFreeBuffers c = found :: rest /\ c1 = c <| mFreeBuffers := rest |>) \/
  (found ∈ mFreeSlots c /\ c1 = c <| mFreeSlots := StdSet.erase found (mFreeSlots c) |>) ->
  (unfit = false -> is_Some (BufferSlot.mGraphicBuffer (slot_at c found))) ->
  invariant (if unfit then found :: pending else pending)
    ((set_slot found (taken unfit (mSharedBufferMode c)) c1)
      <| mActiveBuffers := StdSet.insert found (mActiveBuffers c) |> <| mIsAllocating := unfit || mIsAllocating c |>
      <| mSharedBufferSlot := if mSharedBufferMode c then found else INVALID_BUFFER_SLOT |>).
Proof.
  intros Hinv Hab Hv Hns Hfrom Hbuf. pose proof (inv_pools _ _ Hinv) as Hp. pose proof (pools_length _ _ Hp) as Hlen.
  pose proof (pools_sorted _ _ Hp) as [Sa Sb Sc Sd].
  assert (Hin : found ∈ mFreeSlots c \/ found ∈ mFreeBuffers c).
  { destruct Hfrom as [(rest & Hfb & _)|[Hf _]]; [right; rewrite Hfb; set_solver|by left]. }
  assert (Hplace : found ∉ mUnusedSlots c /\ found ∉ mActiveBuffers c /\ state_at c found = BufferState.new).
  { destruct Hin as [Hin|Hin]; [destruct (placed_free _ _ _ Hp Hin) as (?&?&?&?&?&?)|destruct (placed_buffer _ _ _ Hp Hin) as (?&?&?&?&?&?)]; auto. }
  destruct Hplace as (Hnu & Hna & Hold).
  assert (Hc1 : mSlots c1 = mSlots c /\ mQueue c1 = mQueue c /\ mUnusedSlots c1 = mUnusedSlots c /\ mSharedBufferMode c1 = mSharedBufferMode c /\
    mIsAbandoned c1 = mIsAbandoned c /\ StdSet.ordered (mFreeSlots c1) /\ NoDup (mFreeBuffers c1) /\
    found ∉ mFreeSlots c1 /\ found ∉ mFreeBuffers c1 /\
    forall x, x <> found -> (x ∈ mFreeSlots c1 <-> x ∈ mFreeSlots c) /\ (x ∈ mFreeBuffers c1 <-> x ∈ mFreeBuffers c)).
  { destruct Hfrom as [(rest & Hfb & ->)|[Hf ->]]; cbn -[StdSet.erase].
    - rewrite Hfb in Sc |- *. apply NoDup_cons in Sc as [Hnr Sc].
      destruct (placed_buffer _ _ found Hp) as (_ & _ & Hnf & _); [rewrite Hfb; set_solver|]. split_and!; try done. set_solver.
    - destruct (placed_free _ _ found Hp Hf) as (_ & _ & Hnb & _). split_and!; auto with containers;
        [rewrite StdSet.elem_of_erase; tauto|]. intros x Hx. rewrite StdSet.elem_of_erase. tauto. }
  destruct Hc1 as (C1 & C2 & C3 & C4 & C5 & C6 & C7 & C8 & C9 & C10).
  set (c' := with_field mSharedBufferSlot _ _).
  assert (Hat : forall x, slot_at c' x = if decide (found = x) then taken unfit (mSharedBufferMode c) (slot_at c found) else slot_at c x).
  { intros x. change (slot_at c' x) with (slot_at (set_slot found (taken unfit (mSharedBufferMode c)) c1) x).
    rewrite slot_at_set_slot by (congruence || done). by rewrite !(slot_at_slots _ _ C1). }
  assert (Hfields : mQueue c' = mQueue c /\ mUnusedSlots c' = mUnusedSlots c /\ mFreeSlots c' = mFreeSlots c1 /\ mFreeBuffers c' = mFreeBuffers c1 /\
    mSharedBufferMode c' = mSharedBufferMode c /\ mIsAbandoned c' = mIsAbandoned c /\ length (mSlots c') = length (mSlots c)).
  { unfold c'. rewrite set_slot_as by done. cbn. rewrite length_alter. split_and!; congruence. }
  destruct Hfields as (G1 & G2 & G3 & G4 & G5 & G6 & G7).
  apply (invariant_take pending c c' found unfit); try done.
  - constructor; try done.
    + intros x Hx. change (slot_at c' x = slot_at c x). rewrite Hat. by rewrite decide_False by done.
    + intros x Hx. unfold same_pools. cbn -[StdSet.insert c']. rewrite G2, G3, G4.
      change (mActiveBuffers c') with (StdSet.insert found (mActiveBuffers c)). rewrite StdSet.elem_of_insert.
      destruct (C10 x Hx). tauto.
  - constructor; rewrite ?G2, ?G3, ?G4; auto. change (StdSet.ordered (StdSet.insert found (mActiveBuffers c))). auto with containers.
  - rewrite G2, G3, G4. change (mActiveBuffers c') with (StdSet.insert found (mActiveBuffers c)). rewrite StdSet.elem_of_insert. tauto.
  - unfold state_at in *. rewrite Hat, decide_True by done. rewrite taken_state, Hold. by destruct (mSharedBufferMode c).
  - rewrite Hat, decide_True by done. rewrite taken_buffer. destruct unfit; [by destruct (mSharedBufferMode c)|]. split; [done|by apply Hbuf].
Qed.

(** Taking the shared buffer, which stays active. *)
Lemma take_shared pending c found :
  invariant pending c -> mSharedBufferSlot c = found -> found ∈ mActiveBuffers c -> found ∉ pending ->
  BufferState.mShared (state_at c found) = true -> invariant pending (set_slot found (taken false false) c).
Proof.
  intros Hinv Hs Ha Hnp Hsh. destruct (active_slot _ _ _ Hinv Ha Hnp) as (Hv & Hu & Hb & _).
  apply invariant_set_slot; try done. rewrite taken_state. unfold state_at in *. right; right; right.
  split; [done|]. destruct Hu as [Hu|[Hu|[Hu|[_ (C1 & C2 & C3)]]]]; [rewrite Hu in Hsh; done..|].
  unfold counts_ok. simpl. auto with containers.
Qed.

Lemma dequeueBuffer_take_safe pending p r found c :
  invariant pending c -> mIsAbandoned c = false -> mSharedBufferSlot c ∉ pending -> valid_slot found ->
  found_in Dequeue c found (mCore p) -> take_result pending (dequeueBuffer_take p r found).
Proof.
  intros Hinv Hab Hsp Hv Hfound. pose proof (dequeueBuffer_take_view p r found Hv) as Hview. cbv zeta in Hview.
  assert (Hnp : found ∉ pending) by (eapply (found_not_pending pending c); [done|by left|by left|done]).
  assert (Hab' : mIsAbandoned (mCore p) = false) by (by destruct Hfound).
  destruct (mSharedBufferSlot (mCore p) =? found) eqn:Es; bool_to_prop.
  - (* the shared buffer *)
    assert (mCore p = c) as Hc.
    { destruct Hfound as [| |]; [done|exfalso; cbn in Es; by apply (valid_not_invalid found Hv); congruence..]. }
    rewrite Hc in *. assert (found ∈ mActiveBuffers c /\ BufferState.mShared (state_at c found) = true) as [Ha Hf].
    { destruct (inv_shared _ _ Hinv) as [Hi|(_ & H1 & H2)]; [|by rewrite Es in *]. exfalso. apply (valid_not_invalid found Hv). congruence. }
    destruct (active_slot _ _ _ Hinv Ha Hnp) as (_ & _ & [b Hb] & _).
    destruct (dequeueBuffer_take p r found) as [[st|d] p'|p'|]; simpl; [| |done|].
    + destruct Hview as (-> & -> & _). rewrite Hc. done.
    + destruct Hview as (-> & -> & Hun & Hview). specialize (Hun eq_refl). rewrite Hun in Hview |- *.
      rewrite Es in Hview. rewrite (proj2 (Z.eqb_neq found INVALID_BUFFER_SLOT)) in Hview by (by apply valid_not_invalid).
      rewrite andb_false_r in Hview. rewrite <- Hab. split_and!; [done|unfold view_of in Hview; rewrite set_slot_as in Hview by done; cbn in Hview; congruence|].
      eapply invariant_ext; [exact Hview|]. eapply invariant_ext; [|by apply (take_shared pending c found)].
      rewrite set_slot_as by done. by rewrite <- Es.
    + destruct Hview as (_ & Hview). congruence.
  - assert (Hfree : mSharedBufferSlot c = INVALID_BUFFER_SLOT /\
      ((exists rest, mFreeBuffers c = found :: rest /\ mCore p = c <| mFreeBuffers := rest |>) \/
       (found ∈ mFreeSlots c /\ mCore p = c <| mFreeSlots := StdSet.erase found (mFreeSlots c) |>))).
    { destruct Hfound as [Hm Hs|rest Hfb Hns|Hin Hns _]; [done|split; [done|left; eauto]|split; [done|by right]]. }
    destruct Hfree as [Hns Hfrom].
    assert (Hsame : slot_at (mCore p) found = slot_at c found /\ mSharedBufferMode (mCore p) = mSharedBufferMode c /\
      mSharedBufferSlot (mCore p) = INVALID_BUFFER_SLOT /\ mActiveBuffers (mCore p) = mActiveBuffers c /\ mIsAllocating (mCore p) = mIsAllocating c).
    { destruct Hfrom as [(rest & _ & ->)|[_ ->]]; split_and!; done. }
    destruct Hsame as (S1 & S2 & S3 & S4 & S5). rewrite S1, S2, S3, S4, S5 in Hview. rewrite Z.eqb_refl, andb_true_r in Hview.
    destruct (dequeueBuffer_take p r found) as [[st|d] p'|p'|]; simpl; [by destruct Hview as (_ & _ & ?)| |done|by destruct Hview].
    destruct Hview as (-> & -> & _ & Hview).
    split_and!; [done|unfold view_of in Hview; rewrite set_slot_as in Hview by done; cbn in Hview; congruence|].
    eapply invariant_ext; [exact Hview|]. apply take_found_free; try done.
    intros Hun. case_match eqn:Eb; [done|]. done.
Qed.

(** The critical section of [dequeueBuffer] never crashes and keeps the invariant,
    unless the shared buffer itself is still being allocated. *)
Lemma dequeueBuffer_slot_safe pending p r :
  invariant pending (mCore p) -> settled pending (mCore p) -> mSharedBufferSlot (mCore p) ∉ pending ->
  take_result pending (dequeueBuffer_slot p r).
Proof.
  intros Hinv Hset Hsp. unfold dequeueBuffer_slot.
  pose proof (dequeueBuffer_find_safe pending (S (length (mFreeBuffers (mCore p)))) p r Hinv Hset Hsp ltac:(lia)) as Hf.
  destruct (dequeueBuffer_find _ p r) as [[status found] p1|p1|]; simpl in Hf; [|done|done].
  destruct Hf as [[Hst Hinv1]|(-> & Hv & c & Hinv1 & Hab & Hs & Hfound)].
  - rewrite (proj2 (Z.eqb_neq status _)) by done. done.
  - simpl. eapply dequeueBuffer_take_safe; [done|done|by rewrite Hs|done|done].
Qed.

(** ** dequeueBuffer: the allocation is finished *)

(** The slot gets its buffer; no other allocation may be running. *)
Lemma invariant_allocated c s b :
  invariant [s] c -> mIsAbandoned c = false ->
  invariant [] ((set_slot s (fun sl => sl <| BufferSlot.mGraphicBuffer := Some b |>) c) <| mIsAllocating := false |>).
Proof.
  intros Hinv Hab. pose proof Hinv as [Hp [Q1 Q2 Q3] Hs [P1 P2 P3 P4 P5]].
  assert (Hin : s ∈ [s]) by set_solver. pose proof (P2 s Hin) as Hv. destruct (P3 s Hin Hab) as (Ha & _).
  pose proof (pools_length _ _ Hp) as Hlen. pose proof (pools_sorted _ _ Hp) as [Sa Sb Sc Sd].
  destruct (placed_active _ _ _ Hp Ha) as (_ & Hnu & Hnf & Hnb & Huse & _).
  set (c' := with_field mIsAllocating _ _).
  assert (Hat : forall x, slot_at c' x = if decide (s = x) then (slot_at c s) <| BufferSlot.mGraphicBuffer := Some b |> else slot_at c x).
  { intros x. by rewrite <- (slot_at_set_slot c s x (fun sl => sl <| BufferSlot.mGraphicBuffer := Some b |>)). }
  assert (Hst : forall x, state_at c' x = state_at c x).
  { intros x. unfold state_at. rewrite Hat. by case_decide; subst. }
  assert (Hfields : mQueue c' = mQueue c /\ mUnusedSlots c' = mUnusedSlots c /\ mFreeSlots c' = mFreeSlots c /\ mFreeBuffers c' = mFreeBuffers c /\
    mActiveBuffers c' = mActiveBuffers c /\ mSharedBufferMode c' = mSharedBufferMode c /\ mSharedBufferSlot c' = mSharedBufferSlot c /\ length (mSlots c') = length (mSlots c)).
  { unfold c'. rewrite set_slot_as by done. cbn. by rewrite length_alter. }
  destruct Hfields as (F1 & F2 & F3 & F4 & F5 & F6 & F7 & F8). clearbody c'.
  constructor.
  - eapply (pools_change [s] [] c c' s); try done; rewrite ?F2, ?F3, ?F4, ?F5; try done.
    + intros x Hx. unfold same_pools. by rewrite F2, F3, F4, F5.
    + intros x Hx. rewrite Hat. by rewrite decide_False.
    + intros x Hx. set_solver.
    + unfold slot_placed. rewrite Hat, decide_True, F2, F3, F4, F5 by done. unfold slot_active. cbn. eauto 10.
  - constructor; rewrite ?F1; auto. intros. rewrite Hst. auto.
  - unfold shared_sound in *. by rewrite F6, F7, F5, Hst.
  - apply pending_nil.
Qed.

(** The queue was abandoned meanwhile: the slot is free already. *)
Lemma invariant_allocated_abandoned c s :
  invariant [s] c -> mIsAbandoned c = true -> invariant [] ((free_slot s c) <| mIsAllocating := false |>).
Proof.
  intros Hinv Hab. pose proof Hinv as [Hp [Q1 Q2 Q3] Hs [P1 P2 P3 P4 P5]].
  assert (Hin : s ∈ [s]) by set_solver. pose proof (P2 s Hin) as Hv. pose proof (P4 s Hin Hab) as Hf.
  pose proof (pools_length _ _ Hp) as Hlen. pose proof (pools_sorted _ _ Hp) as [Sa Sb Sc Sd].
  destruct (placed_free _ _ _ Hp Hf) as (_ & Hnu & Hnb & Hna & He).
  apply (invariant_ext _ ((moved s (fun _ => cleared) (mUnusedSlots c) (StdSet.insert s (mFreeSlots c)) (mFreeBuffers c) (mActiveBuffers c) c) <| mIsAllocating := false |>)).
  { pose proof (view_free_slot s c) as Hview. rewrite moved_as by done. rewrite set_slot_as in Hview by done.
    unfold view_of in *. cbn -[free_slot StdSet.insert] in *. congruence. }
  set (c' := moved _ _ _ _ _ _ _). assert (Hat : forall x, slot_at c' x = if decide (x = s) then cleared else slot_at c x).
  { intros x. unfold c'. case_decide; [subst; by rewrite moved_at_eq|by rewrite moved_at_ne]. }
  assert (Hst : forall x, state_at c' x = state_at c x).
  { intros x. unfold state_at. rewrite Hat. case_decide; [subst; by destruct He as [-> _]|done]. }
  assert (Hfields : mQueue c' = mQueue c /\ mUnusedSlots c' = mUnusedSlots c /\ mFreeSlots c' = StdSet.insert s (mFreeSlots c) /\ mFreeBuffers c' = mFreeBuffers c /\
    mActiveBuffers c' = mActiveBuffers c /\ mSharedBufferMode c' = mSharedBufferMode c /\ mSharedBufferSlot c' = mSharedBufferSlot c /\ length (mSlots c') = length (mSlots c)).
  { unfold c'. rewrite moved_as by done. cbn -[StdSet.insert]. by rewrite length_alter. }
  destruct Hfields as (G1 & G2 & G3 & G4 & G5 & G6 & G7 & G8). clearbody c'.
  constructor.
  - assert (Hp' : pools [] c').
    { eapply (pools_change [s] [] c c' s); try done; rewrite ?G2, ?G3, ?G4, ?G5; auto with containers.
      + intros x Hx. unfold same_pools. rewrite G2, G3, G4, G5, StdSet.elem_of_insert. tauto.
      + intros x Hx. rewrite Hat. by rewrite decide_False.
      + intros x Hx. set_solver.
      + unfold slot_placed. rewrite Hat, decide_True, G2, G3, G4, G5, StdSet.elem_of_insert by done. pose proof cleared_empty. tauto. }
    destruct Hp'. by constructor.
  - constructor; cbn; rewrite ?G1; auto. intros x Hx. change (BufferState.mQueueCount (state_at c' x) = queued_in x (mQueue c)). rewrite Hst. auto.
  - unfold shared_sound in *. change (state_at (c' <| mIsAllocating := false |>) ?x) with (state_at c' x). rewrite Hst. cbn. by rewrite G5, G6, G7.
  - apply pending_nil.
Qed.

Lemma dequeueBuffer_allocated_safe p d b :
  invariant [outSlot d] (mCore p) -> invariant [] (mCore (dequeueBuffer_allocated p d NO_ERROR b).2).
Proof.
  intros Hinv. unfold dequeueBuffer_allocated. cbv zeta. simpl (NO_ERROR =? NO_ERROR). cbn [negb andb].
  destruct (mIsAbandoned (mCore p)) eqn:Eab.
  - cbn -[free_slot]. rewrite Eab. cbn -[free_slot].
    eapply invariant_ext; [|by apply (invariant_allocated_abandoned (mCore p) (outSlot d))].
    unfold view_of, emit, free_slot, clearBufferSlotLocked. destruct (0 <=? outSlot d) eqn:E; unfold set_slot, slot_at; rewrite E; cbn;
      repeat case_match; done.
  - cbn [negb]. set (gb := GraphicBuffer.setGenerationNumber _ _).
    pose proof (pending_slots _ _ (inv_pending _ _ Hinv) (outSlot d) ltac:(set_solver)) as Hv.
    match goal with |- context [mIsAbandoned ?x] => replace (mIsAbandoned x) with false end.
    2:{ rewrite set_slot_as by done. unfold notify. case_match; cbn; done. }
    cbn -[set_slot]. eapply invariant_ext; [|apply (invariant_allocated (mCore p) (outSlot d) gb Hinv Eab)].
    rewrite view_emit. unfold notify. rewrite set_slot_as by done. case_match; done.
Qed.

(** ** detachBuffer, detachNextBuffer, attachBuffer *)

(** An active slot whose owner gives up its buffer. The slot must not be (or have
    been) the shared one: a shared slot may also be in the queue. *)
Lemma invariant_detach pending c s f :
  invariant pending c -> s ∈ mActiveBuffers c -> s ∉ pending -> mSharedBufferSlot c = INVALID_BUFFER_SLOT ->
  BufferState.mQueueCount (state_at c s) = 0 ->
  invariant pending (free_slot s ((set_slot s f c) <| mActiveBuffers := StdSet.erase s (mActiveBuffers c) |>)).
Proof.
  intros Hinv Ha Hnp Hns Hq. destruct (active_slot _ _ _ Hinv Ha Hnp) as (Hv & _ & _ & Hnu & Hnf & Hnb).
  pose proof (pools_sorted _ _ (inv_pools _ _ Hinv)) as [Sa Sb Sc Sd].
  apply (invariant_ext _ (moved s (fun _ => cleared) (mUnusedSlots c) (StdSet.insert s (mFreeSlots c)) (mFreeBuffers c) (StdSet.erase s (mActiveBuffers c)) c)).
  { rewrite view_free_slot, !set_slot_as, moved_as by done. unfold view_of. cbn -[StdSet.insert StdSet.erase]. by rewrite list_alter_alter_eq. }
  apply invariant_moved; auto with containers.
  - intros x Hx. rewrite StdSet.elem_of_insert, StdSet.elem_of_erase. tauto.
  - intros Hs. exfalso. apply (valid_not_invalid s Hv). congruence.
  - rewrite StdSet.elem_of_insert, StdSet.elem_of_erase. pose proof cleared_empty. tauto.
Qed.

Lemma detachBuffer_safe pending p slot :
  invariant pending (mCore p) -> slot ∉ pending -> BufferState.mShared (state_at (mCore p) slot) = false ->
  invariant pending (mCore (detachBuffer p slot).2).
Proof.
  intros Hinv Hnp Hsh. unfold detachBuffer. cbv zeta.
  destruct (mIsAbandoned _); [done|]. destruct (_ =? NO_CONNECTED_API); [done|].
  destruct (mSharedBufferMode (mCore p) || _) eqn:Em; [done|]. destruct ((slot <? 0) || _) eqn:Er; [done|].
  destruct (BufferState.isDequeued _) eqn:Ed; [|done]. destruct (BufferSlot.mRequestBufferCalled _); [|done].
  bool_to_prop. assert (Hv : valid_slot slot) by (unfold valid_slot; lia).
  pose proof (dequeued_active _ _ _ Hinv Hv Ed) as Ha. destruct (active_slot _ _ _ Hinv Ha Hnp) as (_ & Hu & _).
  destruct (dequeued_in_use _ Hu Ed) as [Hst|[? _]]; [|congruence]. cbn [negb snd].
  change (mCore (with_field mCore ?x p)) with x.
  set (c0 := match BufferSlot.mGraphicBuffer _ with Some _ => _ | None => _ end).
  assert (Hc0 : view_of c0 = view_of (mCore p)) by (unfold c0; case_match; by rewrite ?view_notify).
  assert (Hinv0 : invariant pending c0) by (by eapply invariant_ext).
  eapply invariant_ext; [rewrite view_notify, view_emit; reflexivity|].
  assert (Hact : mActiveBuffers (set_slot slot (BufferSlot.on_state BufferState.detachProducer) c0) = mActiveBuffers c0) by (by rewrite set_slot_as).
  rewrite Hact. unfold view_of in Hc0. injection Hc0 as V1 V2 V3 V4 V5 V6 V7 V8 V9 V10. apply invariant_detach; try done.
  - by rewrite V6.
  - rewrite V8. eapply no_shared_slot; [exact Hinv|done].
  - unfold state_at. rewrite (slot_at_slots _ _ V1). unfold state_at in Hst. by rewrite Hst.
Qed.

Lemma filter_ne_cons (s : Z) l : s ∉ l -> filter (fun x => x <> s) (s :: l) = l.
Proof.
  intros Hs. rewrite filter_cons_False by tauto. induction l as [|y l IH]; [done|].
  rewrite filter_cons_True by set_solver. rewrite IH; [done|set_solver].
Qed.

Lemma detachNextBuffer_safe pending p :
  invariant pending (mCore p) -> settled pending (mCore p) ->
  match detachNextBuffer_take p with Returns _ p' | Waits p' => invariant pending (mCore p') | Crashes => False end.
Proof.
  intros Hinv Hset. unfold detachNextBuffer_take. cbv zeta. destruct (mIsAllocating _); [done|].
  destruct (mFreeBuffers (mCore p)) as [|found rest] eqn:Efb; [done|].
  pose proof (pools_buffers _ _ (inv_pools _ _ Hinv)) as Hnd. rewrite Efb in Hnd. apply NoDup_cons in Hnd as [Hnr Hnd].
  rewrite filter_ne_cons by done. change (mCore (with_field mCore ?x p)) with x.
  eapply invariant_ext; [rewrite view_notify; reflexivity|].
  pose proof (discard_one _ _ _ _ Hinv Hset Efb) as H. exact H.
Qed.

Lemma attachBuffer_slot_safe pending p b :
  invariant pending (mCore p) -> mSharedBufferSlot (mCore p) ∉ pending ->
  match attachBuffer_slot p b with Returns _ p' | Waits p' => invariant pending (mCore p') | Crashes => False end.
Proof.
  intros Hinv Hsp. unfold attachBuffer_slot. pose proof (wait_cases pending p Attach Hinv) as Hw.
  destruct (waitForFreeSlotThenRelock p Attach) as [[status found] p1|p1|]; simpl in Hw; [|by subst|done].
  destruct Hw as [[Hst ->]|(-> & Hv & Hab & c1 & -> & Hf)].
  { by rewrite (proj2 (Z.eqb_neq status _)). }
  rewrite (proj2 (Z.eqb_neq found _)) by (by apply valid_not_invalid). cbn [negb Z.eqb NO_ERROR].
  change (mCore (with_field mCore ?x _)) with x.
  assert (Hnp : found ∉ pending) by (eapply (found_not_pending pending (mCore p)); [done|by left|by right|done]).
  set (f := fun s : BufferSlot.t => _). pose proof (pools_sorted _ _ (inv_pools _ _ Hinv)) as [Sa Sb Sc Sd].
  destruct Hf as [Hm Hs|rest Hfb Hns|Hin Hns _].
  - (* the shared buffer: its slot is active already *)
    destruct (inv_shared _ _ Hinv) as [Hi|(_ & Ha & Hsh)]; [exfalso; apply (valid_not_invalid found Hv); congruence|]. rewrite Hs in Ha, Hsh.
    destruct (active_slot _ _ _ Hinv Ha Hnp) as (_ & Hu & _ & Hnu & Hnf & Hnb).
    apply (invariant_ext _ (moved found f (mUnusedSlots (mCore p)) (mFreeSlots (mCore p)) (mFreeBuffers (mCore p)) (StdSet.insert found (mActiveBuffers (mCore p))) (mCore p))).
    { rewrite set_slot_as, moved_as by done. done. }
    assert (in_use (BufferSlot.mBufferState (f (slot_at (mCore p) found)))).
    { right; right; right. unfold state_at in *. split; [done|]. destruct Hu as [Hu|[Hu|[Hu|[_ (C1 & C2 & C3)]]]]; [rewrite Hu in Hsh; done..|].
      unfold counts_ok. simpl. auto with containers. }
    apply invariant_moved; auto with containers; rewrite ?StdSet.elem_of_insert; [|tauto|].
    + intros x Hx. rewrite StdSet.elem_of_insert. tauto.
    + do 3 right. split_and!; try tauto. split; [done|left; by eexists].
  - destruct (placed_buffer _ _ found (inv_pools _ _ Hinv)) as (_ & Hnu & Hnf & Hna & Hst & _); [rewrite Hfb; set_solver|].
    rewrite Hfb in Sc. apply NoDup_cons in Sc as [Hnr Sc].
    apply (invariant_ext _ (moved found f (mUnusedSlots (mCore p)) (mFreeSlots (mCore p)) rest (StdSet.insert found (mActiveBuffers (mCore p))) (mCore p))).
    { rewrite set_slot_as, moved_as by done. done. }
    apply invariant_moved; auto with containers; rewrite ?StdSet.elem_of_insert.
    + intros x Hx. rewrite StdSet.elem_of_insert, Hfb, elem_of_cons. tauto.
    + intros Hs. exfalso. apply (valid_not_invalid found Hv). congruence.
    + do 3 right. split_and!; try tauto. split; [left; cbn; by rewrite Hst|left; by eexists].
  - destruct (placed_free _ _ found (inv_pools _ _ Hinv) Hin) as (_ & Hnu & Hnb & Hna & Hst & _).
    apply (invariant_ext _ (moved found f (mUnusedSlots (mCore p)) (StdSet.erase found (mFreeSlots (mCore p))) (mFreeBuffers (mCore p)) (StdSet.insert found (mActiveBuffers (mCore p))) (mCore p))).
    { rewrite set_slot_as, moved_as by done. done. }
    apply invariant_moved; auto with containers; rewrite ?StdSet.elem_of_insert, ?StdSet.elem_of_erase.
    + intros x Hx. rewrite StdSet.elem_of_insert, StdSet.elem_of_erase. tauto.
    + intros Hs. exfalso. apply (valid_not_invalid found Hv). congruence.
    + do 3 right. split_and!; try tauto. split; [left; cbn; by rewrite Hst|left; by eexists].
Qed.

(** ** Giving a slot back: cancelBuffer, and the replaced frame of queueBuffer *)

(** The code that three operations share, after the count of the slot was decreased
    by [f]. *)
Definition settle_slot (s : Z) (c : BufferQueueCore.t) : BufferQueueCore.t :=
  let c := if negb (mSharedBufferMode c) && BufferState.isFree (state_at c s)
           then set_slot s (BufferSlot.on_state (BufferState.set_shared false)) c else c in
  if negb (BufferState.isShared (state_at c s))
  then c <| mActiveBuffers := StdSet.erase s (mActiveBuffers c) |> <| mFreeBuffers := mFreeBuffers c ++ [s] |>
  else c.

Lemma settle_slot_view s f c : valid_slot s -> length (mSlots c) = 64%nat ->
  view_of (settle_slot s (set_slot s f c)) =
  view_of (give_back s (BufferSlot.on_state (settle (mSharedBufferMode c)) (f (slot_at c s))) (mQueue c) c).
Proof.
  intros Hv Hlen. unfold settle_slot. cbv zeta.
  assert (mSharedBufferMode (set_slot s f c) = mSharedBufferMode c) as -> by (by rewrite set_slot_as).
  assert (state_at (set_slot s f c) s = BufferSlot.mBufferState (f (slot_at c s))) as -> by (unfold state_at; by rewrite slot_at_set_slot_eq).
  set (sl := f (slot_at c s)). set (cond := negb _ && _).
  assert (Hsl : BufferSlot.on_state (settle (mSharedBufferMode c)) sl = if cond then BufferSlot.on_state (BufferState.set_shared false) sl else sl).
  { unfold BufferSlot.on_state, settle. fold cond. destruct cond; [done|]. by destruct sl. }
  rewrite Hsl. clear Hsl. unfold give_back. cbv zeta.
  assert (Hset : forall g, mSlots (set_slot s (fun _ => g sl) c) = mSlots (set_slot s g (set_slot s f c))).
  { intros g. rewrite set_slot_set_slot, !set_slot_as by done. cbn. apply list_eq. intros i.
    destruct (decide (i = Z.to_nat s)) as [->|Hne]; [|by rewrite !list_lookup_alter_ne].
    rewrite !list_lookup_alter_eq. unfold valid_slot, NUM_BUFFER_SLOTS in Hv.
    destruct (lookup_lt_is_Some_2 (mSlots c) (Z.to_nat s)) as [x Hx]; [lia|]. rewrite Hx. simpl. f_equal. unfold sl, slot_at.
    rewrite (proj2 (Z.leb_le 0 s)) by lia. rewrite nth_lookup, Hx. done. }
  destruct cond.
  - rewrite set_slot_set_slot. unfold state_at. rewrite slot_at_set_slot_eq by done.
    specialize (Hset (BufferSlot.on_state (BufferState.set_shared false))). rewrite set_slot_set_slot, !set_slot_as in Hset by done. cbn in Hset.
    rewrite set_slot_as, moved_as by done. unfold view_of. cbn -[StdSet.erase]. by rewrite <- Hset.
  - specialize (Hset (fun x => x)). unfold state_at. rewrite slot_at_set_slot_eq by done. fold sl.
    rewrite set_slot_set_slot, !set_slot_as in Hset by done. cbn in Hset. change (fun x => f x) with f in Hset.
    unfold BufferState.isShared. destruct (BufferState.mShared _) eqn:E; cbn [negb]; rewrite ?set_slot_as, ?moved_as by done;
      unfold view_of; cbn -[StdSet.erase]; by rewrite <- Hset.
Qed.

(** [cancel], [release] and [freeQueued] leave the slot free or shared. *)
Lemma give_back_safe pending c s f q :
  invariant pending c -> s ∈ mActiveBuffers c -> s ∉ pending -> queue_without s (mQueue c) q ->
  BufferSlot.mGraphicBuffer (f (slot_at c s)) = BufferSlot.mGraphicBuffer (slot_at c s) ->
  let st := BufferSlot.mBufferState (f (slot_at c s)) in
  counts_ok st -> BufferState.mShared st = BufferState.mShared (state_at c s) ->
  (BufferState.mShared (state_at c s) = false -> st = BufferState.new) ->
  BufferState.mQueueCount st = queued_in s q ->
  invariant pending (give_back s (BufferSlot.on_state (settle (mSharedBufferMode c)) (f (slot_at c s))) q c).
Proof.
  intros Hinv Ha Hnp Hq Hb st Hc Hsh Hnew Hcount. destruct (active_slot _ _ _ Hinv Ha Hnp) as (Hv & Hu & Hbuf & _).
  apply invariant_give_back; try done; cbn; fold st.
  - by rewrite Hb.
  - by apply settle_counts.
  - apply settle_unshared; [done|]. destruct (BufferState.mShared (state_at c s)); [by left|right; auto].
  - intros Hs. destruct (inv_shared _ _ Hinv) as [Hi|(Hm & _ & Hf)].
    + exfalso. apply (valid_not_invalid s Hv). congruence.
    + rewrite settle_shared by done. rewrite Hsh. by rewrite <- Hs.
  - by rewrite settle_queue_count.
Qed.

Lemma set_fence_view s fence c : view_of (set_slot s (fun sl => sl <| BufferSlot.mFence := fence |>) c) =
  view_of (c <| mSlots := mSlots (set_slot s (fun sl => sl <| BufferSlot.mFence := fence |>) c) |>).
Proof. unfold set_slot. by destruct (0 <=? s). Qed.

(** Fields of a slot that the invariant does not look at. *)
Definition same_contents (f : BufferSlot.t -> BufferSlot.t) : Prop :=
  forall sl, BufferSlot.mBufferState (f sl) = BufferSlot.mBufferState sl /\ BufferSlot.mGraphicBuffer (f sl) = BufferSlot.mGraphicBuffer sl /\
             BufferSlot.mRequestBufferCalled (f sl) = BufferSlot.mRequestBufferCalled sl.

Lemma invariant_same_contents pending c s f : invariant pending c -> same_contents f -> invariant pending (set_slot s f c).
Proof.
  intros Hinv Hf. destruct (decide (valid_slot s)) as [Hv|Hnv].
  2:{ unfold set_slot. destruct (0 <=? s) eqn:E; [|done]. bool_to_prop.
      assert (alter f (Z.to_nat s) (mSlots c) = mSlots c) as ->; [|by destruct c].
      apply list_eq. intros i. destruct (decide (i = Z.to_nat s)) as [->|]; [|by rewrite list_lookup_alter_ne].
      rewrite list_lookup_alter_eq, lookup_ge_None_2; [done|]. rewrite (pools_length _ _ (inv_pools _ _ Hinv)).
      unfold valid_slot, NUM_BUFFER_SLOTS in Hnv. lia. }
  pose proof Hinv as [Hp Hq Hs Hpend]. pose proof (pools_length _ _ Hp) as Hlen.
  assert (Hat : forall x, BufferSlot.mBufferState (slot_at (set_slot s f c) x) = BufferSlot.mBufferState (slot_at c x) /\
    BufferSlot.mGraphicBuffer (slot_at (set_slot s f c) x) = BufferSlot.mGraphicBuffer (slot_at c x) /\
    BufferSlot.mRequestBufferCalled (slot_at (set_slot s f c) x) = BufferSlot.mRequestBufferCalled (slot_at c x)).
  { intros x. rewrite slot_at_set_slot by done. case_decide; [subst; apply Hf|done]. }
  assert (Hlen' : length (mSlots (set_slot s f c)) = 64%nat) by (by rewrite length_set_slot).
  assert (Hfields : set_slot s f c = c <| mSlots := mSlots (set_slot s f c) |>) by (by rewrite set_slot_as).
  set (sl := mSlots (set_slot s f c)) in *. rewrite Hfields in *. clear Hfields. constructor.
  - pose proof (pools_placed _ _ Hp) as Hpl. destruct Hp. constructor; try done. intros x Hx. specialize (Hpl x Hx).
    unfold slot_placed, slot_empty, slot_idle, slot_active in *. destruct (Hat x) as (-> & -> & _). done.
  - pose proof (queue_counts _ Hq) as Hqc. destruct Hq. constructor; try done. intros x Hx. unfold state_at. destruct (Hat x) as (-> & _). by apply Hqc.
  - unfold shared_sound, state_at in *. cbn -[slot_at]. destruct (Hat (mSharedBufferSlot c)) as (-> & _). done.
  - pose proof (pending_dequeued _ _ Hpend) as Hpd. destruct Hpend. constructor; try done. intros x H1 H2. unfold state_at. destruct (Hat x) as (-> & -> & ->). by apply Hpd.
Qed.

Lemma cancelBuffer_safe pending p slot fence :
  invariant pending (mCore p) -> slot ∉ pending -> invariant pending (mCore (cancelBuffer p slot fence).2).
Proof.
  intros Hinv Hnp. unfold cancelBuffer. cbv zeta.
  destruct (mIsAbandoned _); [done|]. destruct (_ =? NO_CONNECTED_API); [done|]. destruct (mSharedBufferMode (mCore p)) eqn:Em; [done|].
  destruct ((slot <? 0) || _) eqn:Er; [done|]. apply in_range_valid in Er as Hv. destruct (BufferState.isDequeued _) eqn:Ed; [|done].
  destruct fence as [fc|]; [|done]. cbn [negb snd]. change (mCore (with_field mCore ?x p)) with x.
  pose proof (dequeued_active _ _ _ Hinv Hv Ed) as Ha. destruct (active_slot _ _ _ Hinv Ha Hnp) as (_ & Hu & _).
  pose proof (pools_length _ _ (inv_pools _ _ Hinv)) as Hlen.
  eapply invariant_ext; [apply view_emit|]. apply invariant_same_contents; [|done].
  match goal with |- invariant _ (match _ with Some _ => notify _ _ ?x | None => _ end) => set (c3 := x); assert (Hx : invariant pending c3) end;
    [|clearbody c3; case_match; [eapply invariant_ext; [apply view_notify|]|]; exact Hx].
  eapply invariant_ext; [apply (settle_slot_view slot (BufferSlot.on_state BufferState.cancel) (mCore p) Hv Hlen)|].
  assert (HQ : BufferState.mQueueCount (state_at (mCore p) slot) = queued_in slot (mQueue (mCore p))) by (by apply (queue_counts _ (inv_queue _ _ Hinv))).
  destruct (dequeued_in_use _ Hu Ed) as [Hst|[Hsh (C1 & C2 & C3)]].
  - apply give_back_safe; try done; cbn; unfold state_at in *; rewrite ?Hst in *; try done.
  - apply give_back_safe; try done; unfold counts_ok; cbn; unfold state_at in *; auto with containers. congruence.
Qed.
