(* ===== verification/BufferQueueQueueSafety.v ===== *)
(** * queueBuffer and the remaining operations of the producer preserve the invariant *)

From S2P Require Import Prelude Geometry RegionHelper Region BufferSlot OccupancyTracker BufferQueueCore.
From S2P Require Import BufferQueueProducer BufferQueueInvariant BufferQueueCoreSafety.
From S2P Require Import BufferQueueProducerSafety.
Import BufferQueueCore BufferQueueProducer.

(** ** Counting the items of a slot *)

Lemma queued_in_app s q1 q2 : queued_in s (q1 ++ q2) = queued_in s q1 + queued_in s q2.
Proof. unfold queued_in. rewrite filter_app, length_app. lia. Qed.

Definition refers (s : Z) (i : BufferItem.t) : Z := if decide (BufferItem.mIsStale i = false /\ BufferItem.mSlot i = s) then 1 else 0.

Lemma queued_in_single s i : queued_in s [i] = refers s i.
Proof. unfold queued_in, refers. rewrite filter_cons. by case_decide. Qed.

Lemma queued_in_cons s i q : queued_in s (i :: q) = refers s i + queued_in s q.
Proof. change (i :: q) with ([i] ++ q). by rewrite queued_in_app, queued_in_single. Qed.

Lemma queued_in_nonneg s q : 0 <= queued_in s q <= Z.of_nat (length q).
Proof. unfold queued_in. pose proof (length_filter (fun i => BufferItem.mIsStale i = false /\ BufferItem.mSlot i = s) q). lia. Qed.

(** Dropping one item from a queue. *)
Lemma queue_without_item s q1 i q2 : refers s i = 1 \/ (forall x, refers x i = 0) -> queue_without s (q1 ++ i :: q2) (q1 ++ q2).
Proof.
  intros Hi. constructor.
  - intros x Hx. rewrite !queued_in_app, queued_in_cons. assert (refers x i = 0) as ->; [|lia].
    destruct Hi as [Hi|Hi]; [|done]. unfold refers in *. repeat case_decide; naive_solver.
  - set_solver.
  - rewrite !length_app. simpl. lia.
Qed.

Lemma refers_live i : BufferItem.mIsStale i = false -> refers (BufferItem.mSlot i) i = 1.
Proof. unfold refers. by intros; rewrite decide_True. Qed.
Lemma refers_stale i x : BufferItem.mIsStale i = true -> refers x i = 0.
Proof. unfold refers. intros H. rewrite decide_False; [done|]. rewrite H. naive_solver. Qed.

(** Removing a stale item changes nothing. *)
Lemma invariant_drop_stale pending c q1 i q2 : invariant pending c -> mQueue c = q1 ++ i :: q2 -> BufferItem.mIsStale i = true ->
  invariant pending (c <| mQueue := q1 ++ q2 |>).
Proof.
  intros [Hp [Q1 Q2 Q3] Hs Hpend] Hq Hst. rewrite Hq in *. constructor.
  - destruct Hp. by constructor.
  - constructor; cbn.
    + intros s Hs'. change (BufferState.mQueueCount (state_at c s) = queued_in s (q1 ++ q2)). rewrite Q1 by done.
      rewrite !queued_in_app, queued_in_cons, refers_stale by done. lia.
    + intros j Hj. apply Q2. set_solver.
    + rewrite length_app in *. simpl in Q3. lia.
  - exact Hs.
  - destruct Hpend. by constructor.
Qed.

(** ** Adding a frame *)

Lemma invariant_append pending c s f item :
  invariant pending c -> s ∈ mActiveBuffers c -> s ∉ pending -> BufferState.isDequeued (state_at c s) = true ->
  (forall sl, BufferSlot.mBufferState (f sl) = BufferState.queue (BufferSlot.mBufferState sl) /\
              BufferSlot.mGraphicBuffer (f sl) = BufferSlot.mGraphicBuffer sl) ->
  BufferItem.mIsStale item = false -> BufferItem.mSlot item = s -> Z.of_nat (length (mQueue c)) < UINT32_MAX ->
  invariant pending ((set_slot s f c) <| mQueue := mQueue c ++ [item] |>).
Proof.
  intros Hinv Ha Hnp Hd Hf Hst Hsl Hlen. pose proof (pools_length _ _ (inv_pools _ _ Hinv)) as Hslots.
  destruct (active_slot _ _ _ Hinv Ha Hnp) as (Hv & Hu & Hb & Hnu & Hnf & Hnb). destruct (Hf (slot_at c s)) as [Hfst Hfb].
  pose proof (queue_counts _ (inv_queue _ _ Hinv) s Hv) as Hcount. pose proof (queued_in_nonneg s (mQueue c)) as Hnn.
  assert (Hincr : BufferState.incr (BufferState.mQueueCount (state_at c s)) = queued_in s (mQueue c) + 1).
  { unfold BufferState.incr. rewrite Hcount. apply uint32_id. lia. }
  assert (Huse : in_use (BufferSlot.mBufferState (f (slot_at c s)))).
  { rewrite Hfst. destruct (dequeued_in_use _ Hu Hd) as [Heq|[Hsh (C1 & C2 & C3)]]; unfold state_at in *.
    - rewrite Heq. right. left. done.
    - right; right; right. split; [done|]. unfold counts_ok. simpl. auto with containers. }
  assert (Hat : forall x, slot_at ((set_slot s f c) <| mQueue := mQueue c ++ [item] |>) x = if decide (s = x) then f (slot_at c s) else slot_at c x).
  { intros x. by rewrite <- slot_at_set_slot. }
  pose proof (pools_sorted _ _ (inv_pools _ _ Hinv)) as [Sa Sb Sc Sd].
  set (c' := with_field mQueue _ _) in *.
  assert (Hfields : mQueue c' = mQueue c ++ [item] /\ mUnusedSlots c' = mUnusedSlots c /\ mFreeSlots c' = mFreeSlots c /\ mFreeBuffers c' = mFreeBuffers c /\
    mActiveBuffers c' = mActiveBuffers c /\ mSharedBufferMode c' = mSharedBufferMode c /\ mSharedBufferSlot c' = mSharedBufferSlot c /\
    length (mSlots c') = length (mSlots c) /\ mIsAbandoned c' = mIsAbandoned c /\ mIsAllocating c' = mIsAllocating c).
  { unfold c'. rewrite set_slot_as by done. cbn. by rewrite length_alter. }
  destruct Hfields as (F1 & F2 & F3 & F4 & F5 & F6 & F7 & F8 & F9 & F10). clearbody c'.
  eapply (invariant_change pending c c' s); try done.
  - constructor; try done; [intros x Hx; rewrite Hat; by rewrite decide_False|]. intros x Hx. unfold same_pools. by rewrite F2, F3, F4, F5.
  - by constructor; rewrite ?F2, ?F3, ?F4, ?F5.
  - destruct (inv_queue _ _ Hinv) as [Q1 Q2 Q3]. constructor; rewrite F1.
    + intros x Hx. rewrite queued_in_app, queued_in_single. unfold state_at. rewrite Hat. case_decide as Heq.
      * subst x. rewrite Hfst. simpl. unfold state_at in Hincr. rewrite Hincr, <- Hsl, refers_live by done. done.
      * change (BufferState.mQueueCount (state_at c x) = queued_in x (mQueue c) + refers x item). rewrite Q1 by done. unfold refers. rewrite decide_False; [lia|]. naive_solver.
    + intros i [Hi|Hi]%elem_of_app Hs; [by apply Q2|]. apply list_elem_of_singleton in Hi. subst. done.
    + rewrite length_app. simpl. lia.
  - intros Hs. rewrite F5. split; [done|]. unfold state_at. rewrite Hat, decide_True by done. rewrite Hfst. simpl.
    destruct (inv_shared _ _ Hinv) as [Hi|(_ & _ & Hsh)]; [exfalso; apply (valid_not_invalid s Hv); congruence|]. by rewrite Hs in Hsh.
  - unfold slot_placed, slot_active. rewrite Hat, decide_True, F2, F3, F4, F5, Hfb by done. tauto.
Qed.

(** The first frame in shared mode makes its slot the shared one. *)
Lemma invariant_become_shared pending c s :
  invariant pending c -> s ∈ mActiveBuffers c -> s ∉ pending -> mSharedBufferMode c = true -> mSharedBufferSlot c = INVALID_BUFFER_SLOT ->
  invariant pending (set_slot s (BufferSlot.on_state (BufferState.set_shared true)) (c <| mSharedBufferSlot := s |>)).
Proof.
  intros Hinv Ha Hnp Hm Hns. destruct (active_slot _ _ _ Hinv Ha Hnp) as (Hv & Hu & Hb & _).
  pose proof (pools_length _ _ (inv_pools _ _ Hinv)) as Hlen.
  assert (Hinv1 : invariant pending (set_slot s (BufferSlot.on_state (BufferState.set_shared true)) c)).
  { apply invariant_set_slot; try done. cbn. right; right; right. split; [done|]. unfold state_at in Hu.
    unfold counts_ok. simpl. destruct Hu as [->|[->|[->|[_ (C1 & C2 & C3)]]]]; simpl; lia. }
  pose proof Hinv1 as [Hp Hq _ Hpend]. assert (Hst : BufferState.mShared (state_at (set_slot s (BufferSlot.on_state (BufferState.set_shared true)) c) s) = true).
  { unfold state_at. by rewrite slot_at_set_slot_eq. }
  rewrite set_slot_as in * by done. constructor.
  - destruct Hp. by constructor.
  - destruct Hq. by constructor.
  - right. cbn. split_and!; try done.
  - destruct Hpend. by constructor.
Qed.

Lemma free_queued_is_settle slot c :
  (free_queued_slot slot c).2 = settle_slot slot (set_slot slot (BufferSlot.on_state BufferState.freeQueued) c).
Proof. unfold free_queued_slot, settle_slot. cbv zeta. by destruct (negb (BufferState.isShared _)). Qed.

(** Giving up a queued frame that is not stale. *)
Lemma invariant_drop pending c q1 i q2 :
  invariant pending c -> mQueue c = q1 ++ i :: q2 -> BufferItem.mIsStale i = false -> BufferItem.mSlot i ∉ pending ->
  invariant pending ((free_queued_slot (BufferItem.mSlot i) c).2 <| mQueue := q1 ++ q2 |>).
Proof.
  intros Hinv Hq Hst Hnp. set (s := BufferItem.mSlot i) in *. pose proof (pools_length _ _ (inv_pools _ _ Hinv)) as Hlen.
  assert (Hv : valid_slot s) by (apply (queue_slots _ (inv_queue _ _ Hinv)); [rewrite Hq; set_solver|done]).
  pose proof (queue_counts _ (inv_queue _ _ Hinv) s Hv) as Hcount. rewrite Hq, queued_in_app, queued_in_cons in Hcount.
  unfold s in Hcount at 3. rewrite refers_live in Hcount by done.
  pose proof (queued_in_nonneg s q1). pose proof (queued_in_nonneg s q2).
  assert (Ha : s ∈ mActiveBuffers c).
  { eapply used_is_active; [apply Hinv|done|]. intros Heq. rewrite Heq in Hcount. simpl in Hcount. lia. }
  destruct (active_slot _ _ _ Hinv Ha Hnp) as (_ & Hu & Hb & _).
  rewrite free_queued_is_settle. set (f := BufferSlot.on_state BufferState.freeQueued).
  apply (invariant_ext _ (give_back s (BufferSlot.on_state (settle (mSharedBufferMode c)) (f (slot_at c s))) (q1 ++ q2) c)).
  { pose proof (settle_slot_view s f c Hv Hlen) as Hview. unfold give_back in *. cbv zeta in *.
    destruct (BufferState.isShared _); rewrite ?set_slot_as, ?moved_as in * by done; unfold view_of in *; cbn -[StdSet.erase settle_slot] in *; congruence. }
  assert (Hdecr : BufferState.decr (BufferState.mQueueCount (state_at c s)) = queued_in s q1 + queued_in s q2).
  { unfold BufferState.decr. rewrite (proj2 (Z.ltb_lt 0 _)) by lia. lia. }
  apply give_back_safe; try done.
  - rewrite Hq. apply queue_without_item. left. by apply refers_live.
  - unfold counts_ok, f. cbn. unfold state_at in *. rewrite Hdecr.
    destruct Hu as [->|[->|[->|[_ (C1 & C2 & C3)]]]]; simpl; lia.
  - intros Hns. destruct (queued_in_use _ Hu ltac:(lia)) as [Heq|[? _]]; [|congruence]. unfold f. cbn. unfold state_at in Heq. by rewrite Heq.
  - rewrite queued_in_app. exact Hdecr.
Qed.

Lemma item_not_pending pending c i : invariant pending c -> settled pending c -> i ∈ mQueue c -> BufferItem.mIsStale i = false ->
  BufferItem.mSlot i ∉ pending.
Proof.
  intros Hinv Hset Hi Hst Hin. destruct Hset as [Hab| ->]; [|set_solver].
  pose proof (queue_slots _ (inv_queue _ _ Hinv) i Hi Hst) as Hv.
  destruct (pending_dequeued _ _ (inv_pending _ _ Hinv) _ Hin Hab) as (_ & _ & Hq & _).
  rewrite (queue_counts _ (inv_queue _ _ Hinv)) in Hq by done.
  apply list_elem_of_split in Hi as (q1 & q2 & Heq). rewrite Heq, queued_in_app, queued_in_cons, refers_live in Hq by done.
  pose proof (queued_in_nonneg (BufferItem.mSlot i) q1). pose proof (queued_in_nonneg (BufferItem.mSlot i) q2). lia.
Qed.

(** [queueBuffer_enqueue] on a slot whose state says that it is queued, but which is not in the queue yet: [c] is
    the state before the slot was changed by [f]. *)
Lemma enqueue_safe pending c s f item :
  invariant pending c -> settled pending c -> s ∈ mActiveBuffers c -> s ∉ pending -> BufferState.isDequeued (state_at c s) = true ->
  (forall sl, BufferSlot.mBufferState (f sl) = BufferState.queue (BufferSlot.mBufferState sl) /\
              BufferSlot.mGraphicBuffer (f sl) = BufferSlot.mGraphicBuffer sl) ->
  BufferItem.mIsStale item = false -> BufferItem.mSlot item = s -> Z.of_nat (length (mQueue c)) < UINT32_MAX ->
  forall c1, view_of c1 = view_of (set_slot s f c) ->
  match queueBuffer_enqueue item c1 with
  | Some (item', _, _, c') => invariant pending c' /\ last (mQueue c') = Some item' /\ BufferItem.mSlot item' = s /\ BufferItem.mFrameNumber item' = BufferItem.mFrameNumber item
  | None => True
  end.
Proof.
  intros Hinv Hset Ha Hnp Hd Hf Hst Hsl Hlen c1 Hview.
  destruct (active_slot _ _ _ Hinv Ha Hnp) as (Hv & _).
  assert (Happ : forall it, BufferItem.mIsStale it = false -> BufferItem.mSlot it = s -> invariant pending (c1 <| mQueue := mQueue c1 ++ [it] |>)).
  { intros it H1 H2. eapply invariant_ext; [|apply (invariant_append pending c s f it); done].
    rewrite set_slot_as in * by done. unfold view_of in *. cbn in *. congruence. }
  unfold queueBuffer_enqueue. destruct (last (mQueue c1)) as [lst|] eqn:El.
  2:{ split_and!; try done. apply last_None in El. specialize (Happ item Hst Hsl). rewrite El in Happ. exact Happ. }
  destruct (BufferItem.mIsDroppable lst); [|split_and!; [by apply Happ|apply last_snoc|done|done]].
  pose proof (last_removelast _ _ El) as Hsplit. set (q := removelast (mQueue c1)) in *.
  destruct (merge_damage _ _) as [dmg|]; [|repeat case_match; by simplify_eq].
  set (item' := with_field BufferItem.mSurfaceDamage dmg item).
  assert (Hinv' : invariant pending (c1 <| mQueue := q ++ lst :: [item'] |>)).
  { replace (q ++ lst :: [item']) with (mQueue c1 ++ [item']) by (rewrite Hsplit, <- app_assoc; done). by apply Happ. }
  assert (Hset' : settled pending (c1 <| mQueue := q ++ lst :: [item'] |>)).
  { unfold settled in *. cbn. replace (mIsAbandoned c1) with (mIsAbandoned c); [done|]. rewrite set_slot_as in Hview by done. unfold view_of in Hview. cbn in Hview. congruence. }
  destruct (BufferItem.mIsStale lst) eqn:Est; cbn [negb].
  - split_and!; [|apply last_snoc|done|done]. pose proof (invariant_drop_stale pending _ q lst [item'] Hinv' eq_refl Est) as Hfin. exact Hfin.
  - pose proof (item_not_pending pending _ lst Hinv' Hset' ltac:(cbn; set_solver) Est) as Hnpl.
    pose proof (invariant_drop pending _ q lst [item'] Hinv' eq_refl Est Hnpl) as Hfin.
    destruct (free_queued_slot (BufferItem.mSlot lst) c1) as [rep c2] eqn:Efree.
    split_and!; [|apply last_snoc|done|done]. eapply invariant_ext; [|exact Hfin].
    assert (Hq2 : mQueue c2 = mQueue c1 /\ view_of ((free_queued_slot (BufferItem.mSlot lst) (c1 <| mQueue := q ++ [lst; item'] |>)).2 <| mQueue := [] |>) = view_of (c2 <| mQueue := [] |>)).
    { pose proof (f_equal snd Efree) as E2. simpl in E2. rewrite <- E2. rewrite !free_queued_is_settle.
      unfold settle_slot, set_slot, state_at, slot_at. destruct (0 <=? BufferItem.mSlot lst) eqn:E0; cbn -[StdSet.erase]; try rewrite E0; cbn -[StdSet.erase];
        repeat (case_match; cbn -[StdSet.erase] in *; try congruence); done. }
    destruct Hq2 as [Hq2 Hv2]. rewrite Hq2. change (removelast (mQueue c1)) with q.
    unfold view_of in *. cbn -[free_queued_slot] in *. congruence.
Qed.

Lemma queueBuffer_locked_safe pending p slot input output now :
  invariant pending (mCore p) -> settled pending (mCore p) -> slot ∉ pending -> Z.of_nat (length (mQueue (mCore p))) < UINT32_MAX ->
  match queueBuffer_locked p slot input output now with
  | Returns _ p' => invariant pending (mCore p')
  | Waits _ => False
  | Crashes => True
  end.
Proof.
  intros Hinv Hset Hnp Hlen. unfold queueBuffer_locked. cbv zeta.
  destruct (bool_decide _); [done|]. destruct (valid_scaling_mode _); [|done]. destruct (mIsAbandoned _); [done|].
  destruct (_ =? NO_CONNECTED_API); [done|]. destruct ((slot <? 0) || _) eqn:Er; [done|]. apply in_range_valid in Er as Hv.
  destruct (BufferState.isDequeued _) eqn:Ed; [|done]. destruct (BufferSlot.mRequestBufferCalled _); [|done]. cbn [negb].
  pose proof (dequeued_active _ _ _ Hinv Hv Ed) as Ha. pose proof (pools_length _ _ (inv_pools _ _ Hinv)) as Hslots.
  set (c1 := if _ && _ then _ else _).
  assert (Hc1 : invariant pending c1 /\ settled pending c1 /\ slot ∈ mActiveBuffers c1 /\ BufferState.isDequeued (state_at c1 slot) = true /\
    mQueue c1 = mQueue (mCore p)).
  { unfold c1. destruct (mSharedBufferMode (mCore p) && _) eqn:Es; [|done]. bool_to_prop. split_and!.
    - by apply invariant_become_shared.
    - unfold settled in *. by rewrite set_slot_as.
    - by rewrite set_slot_as.
    - unfold state_at. by rewrite slot_at_set_slot_eq.
    - by rewrite set_slot_as. }
  destruct Hc1 as (Hinv1 & Hset1 & Ha1 & Hd1 & Hq1). clearbody c1.
  destruct (BufferSlot.mGraphicBuffer (slot_at c1 slot)) as [gb|]; [|done]. destruct (negb (Rect.eqb _ _)); [done|].
  match goal with |- context [queueBuffer_enqueue ?it ?cc] => set (item := it); set (c2 := cc) end.
  pose proof (enqueue_safe pending c1 slot (fun s => (BufferSlot.on_state BufferState.queue (s <| BufferSlot.mFence := in_fence input |>)) <| BufferSlot.mFrameNumber := uint64 (mFrameCounter c1 + 1) |>)
    item Hinv1 Hset1 Ha1 Hnp Hd1 ltac:(done) eq_refl eq_refl ltac:(rewrite Hq1; done) c2) as Henq.
  assert (Hfc : forall g, mFrameCounter (set_slot slot g c1) = mFrameCounter c1) by (intros; by rewrite set_slot_as).
  specialize (Henq ltac:(unfold c2; rewrite !Hfc; rewrite !set_slot_as by done; unfold view_of; cbn; destruct (mSharedBufferMode c1) eqn:Em; cbn; rewrite ?Em, list_alter_alter_eq; done)).
  destruct (queueBuffer_enqueue item c2) as [[[[it rep] isrep] c3]|]; [|done]. destruct Henq as (Hinv3 & _).
  change (mCore (with_field mCore ?x _)) with x. eapply invariant_ext; [|exact Hinv3]. done.
Qed.

(** ** The other operations *)

Lemma disconnect_locked_safe p api : invariant [] (mCore p) ->
  match disconnect_locked p api with Returns _ p' | Waits p' => invariant [] (mCore p') | Crashes => False end.
Proof.
  intros Hinv. unfold disconnect_locked. cbv zeta. destruct (mIsAllocating _); [done|]. destruct (mIsAbandoned _); [done|].
  destruct (_ && _); [done|]. destruct (is_api _); [|done].
  unfold disconnect_api. destruct (mConnectedApi (mCore p) =? _) eqn:E1; [|by destruct (mConnectedApi (mCore p) =? NO_CONNECTED_API)]. change (mCore (with_field mCore ?x p)) with x.
  eapply invariant_ext; [|apply free_all_invariant, Hinv].
  generalize (freeAllBuffersLocked (mCore p)). intros cf. rewrite !view_notify. unfold notify. by destruct (mLinkedToDeath cf).
Qed.

Lemma setSharedBufferMode_safe pending p b : invariant pending (mCore p) -> invariant pending (mCore (setSharedBufferMode p b).2).
Proof.
  intros [Hp Hq Hs Hpend]. unfold setSharedBufferMode. cbv zeta. cbn [snd]. change (mCore (with_field mCore ?x p)) with x.
  constructor; [destruct b, Hp; by constructor|destruct b, Hq; by constructor| |destruct b, Hpend; by constructor].
  destruct b; cbn; [|by left]. destruct Hs as [Hs|(H1 & H2 & H3)]; [by left|right]. done.
Qed.

Lemma allocating_invariant pending c b : invariant pending c -> (b = false -> pending = []) -> invariant pending (c <| mIsAllocating := b |>).
Proof.
  intros [Hp Hq Hs Hpend] Hb. constructor; [destruct Hp; by constructor|destruct Hq; by constructor|exact Hs|].
  destruct Hpend. constructor; try done. intros Hne. destruct b; [done|]. by specialize (Hb eq_refl).
Qed.

Lemma allocateBuffers_begin_safe pending p r : invariant pending (mCore p) ->
  match allocateBuffers_begin p r with Returns _ p' | Waits p' => invariant pending (mCore p') | Crashes => False end.
Proof.
  intros Hinv. unfold allocateBuffers_begin. cbv zeta. repeat (case_match; simplify_eq; try done). cbn. by apply allocating_invariant.
Qed.

Lemma allocateBuffers_failed_safe p : invariant [] (mCore p) -> invariant [] (mCore (allocateBuffers_failed p)).
Proof. intros Hinv. unfold allocateBuffers_failed. cbn. eapply invariant_ext; [apply view_emit|]. by apply allocating_invariant. Qed.

Lemma allocateBuffers_finish_safe p r al b : invariant [] (mCore p) -> invariant [] (mCore (allocateBuffers_finish p r al b).2).
Proof.
  intros Hinv. unfold allocateBuffers_finish. cbv zeta. destruct (negb _); cbn [snd]; change (mCore (with_field mCore ?x p)) with x;
    (eapply invariant_ext; [apply view_emit|]); (apply allocating_invariant; [|done]); [done|].
  destruct (mFreeSlots (mCore p)) as [|s rest] eqn:Ef; [done|]. assert (Hin : s ∈ mFreeSlots (mCore p)) by (rewrite Ef; left).
  destruct (placed_free _ _ s (inv_pools _ _ Hinv) Hin) as (Hv & Hnu & Hnb & Hna & Hst & _).
  pose proof (pools_sorted _ _ (inv_pools _ _ Hinv)) as [Sa Sb Sc Sd].
  destruct (clear_frame s (mCore p)) as (Hfr & Hfs & Hsl). apply frame_fields in Hfr as (F1 & F2 & F3 & F4 & F5 & F6 & F7 & F8).
  set (c1 := clearBufferSlotLocked s (mCore p)) in *. clearbody c1.
  set (f := fun _ : BufferSlot.t => (cleared <| BufferSlot.mGraphicBuffer := Some b |>) <| BufferSlot.mFence := Some NO_FENCE |>).
  apply (invariant_ext _ (moved s f (mUnusedSlots (mCore p)) (StdSet.erase s (mFreeSlots (mCore p))) (s :: mFreeBuffers (mCore p)) (mActiveBuffers (mCore p)) (mCore p))).
  { rewrite set_slot_as in * by done. rewrite moved_as by done. unfold view_of. cbn -[StdSet.erase] in *.
    rewrite Hsl, F1, F2, F3, F4, F5, F6, F7, F8, Hfs, list_alter_alter_eq. done. }
  apply invariant_moved; auto with containers.
  - set_solver.
  - by apply NoDup_cons.
  - intros x Hx. rewrite StdSet.elem_of_erase, elem_of_cons. tauto.
  - unfold state_at. by rewrite Hst.
  - intros Hs. exfalso. apply Hna. by eapply shared_is_active.
  - do 2 right. left. rewrite StdSet.elem_of_erase, elem_of_cons. split_and!; try tauto. split; [done|by eexists].
Qed.
