(* ===== verification/BufferQueueConsumerSafety.v ===== *)
(** * The operations of the consumer preserve the invariant *)

From S2P Require Import Prelude Geometry RegionHelper Region BufferSlot OccupancyTracker BufferQueueCore.
From S2P Require Import BufferQueueProducer BufferQueueConsumer BufferQueueInvariant BufferQueueCoreSafety.
From S2P Require Import BufferQueueProducerSafety BufferQueueQueueSafety.
Import BufferQueueCore BufferQueueConsumer.

(** ** acquireBuffer *)

(** An active slot changes while the queue loses items of that slot. *)
Lemma invariant_requeue pending c s f q :
  invariant pending c -> s ∈ mActiveBuffers c -> s ∉ pending -> queue_without s (mQueue c) q ->
  in_use (BufferSlot.mBufferState (f (slot_at c s))) ->
  BufferSlot.mGraphicBuffer (f (slot_at c s)) = BufferSlot.mGraphicBuffer (slot_at c s) ->
  BufferState.mShared (BufferSlot.mBufferState (f (slot_at c s))) = BufferState.mShared (state_at c s) ->
  BufferState.mQueueCount (BufferSlot.mBufferState (f (slot_at c s))) = queued_in s q ->
  invariant pending ((set_slot s f c) <| mQueue := q |>).
Proof.
  intros Hinv Ha Hnp [W1 W2 W3] Huse Hb Hsh Hcount. pose proof (pools_length _ _ (inv_pools _ _ Hinv)) as Hslots.
  destruct (active_slot _ _ _ Hinv Ha Hnp) as (Hv & _ & Hbuf & Hnu & Hnf & Hnb).
  assert (Hat : forall x, slot_at ((set_slot s f c) <| mQueue := q |>) x = if decide (s = x) then f (slot_at c s) else slot_at c x).
  { intros x. by rewrite <- slot_at_set_slot. }
  pose proof (pools_sorted _ _ (inv_pools _ _ Hinv)) as [Sa Sb Sc Sd]. set (c' := with_field mQueue _ _) in *.
  assert (Hfields : mQueue c' = q /\ mUnusedSlots c' = mUnusedSlots c /\ mFreeSlots c' = mFreeSlots c /\ mFreeBuffers c' = mFreeBuffers c /\
    mActiveBuffers c' = mActiveBuffers c /\ mSharedBufferMode c' = mSharedBufferMode c /\ mSharedBufferSlot c' = mSharedBufferSlot c /\
    length (mSlots c') = length (mSlots c) /\ mIsAbandoned c' = mIsAbandoned c /\ mIsAllocating c' = mIsAllocating c).
  { unfold c'. rewrite set_slot_as by done. cbn. by rewrite length_alter. }
  destruct Hfields as (F1 & F2 & F3 & F4 & F5 & F6 & F7 & F8 & F9 & F10). clearbody c'.
  eapply (invariant_change pending c c' s); try done.
  - constructor; try done; [intros x Hx; rewrite Hat; by rewrite decide_False|]. intros x Hx. unfold same_pools. by rewrite F2, F3, F4, F5.
  - by constructor; rewrite ?F2, ?F3, ?F4, ?F5.
  - destruct (inv_queue _ _ Hinv) as [Q1 Q2 Q3]. constructor; rewrite F1; [|intros; apply Q2; auto|lia].
    intros x Hx. unfold state_at. rewrite Hat. case_decide as Heq; [by subst|]. rewrite W1 by done. by apply Q1.
  - intros Hs. rewrite F5. split; [done|]. unfold state_at. rewrite Hat, decide_True by done. rewrite Hsh.
    destruct (inv_shared _ _ Hinv) as [Hi|(_ & _ & Hf)]; [exfalso; apply (valid_not_invalid s Hv); congruence|]. by rewrite Hs in Hf.
  - unfold slot_placed, slot_active. rewrite Hat, decide_True, F2, F3, F4, F5, Hb by done. tauto.
Qed.

(** [free_queued_slot] does not look at the queue. *)
Lemma free_queued_other_queue s c q q' :
  view_of ((BufferQueueProducer.free_queued_slot s (c <| mQueue := q |>)).2 <| mQueue := q' |>) =
  view_of ((BufferQueueProducer.free_queued_slot s c).2 <| mQueue := q' |>).
Proof.
  rewrite !free_queued_is_settle. unfold settle_slot, set_slot, state_at, slot_at.
  destruct (0 <=? s) eqn:E0; cbn -[StdSet.erase]; try rewrite E0; cbn -[StdSet.erase];
    repeat (case_match; cbn -[StdSet.erase] in *; try congruence); done.
Qed.

Lemma free_queued_fields s c :
  mIsAbandoned (BufferQueueProducer.free_queued_slot s c).2 = mIsAbandoned c /\
  mIsAllocating (BufferQueueProducer.free_queued_slot s c).2 = mIsAllocating c /\
  mMaxAcquiredBufferCount (BufferQueueProducer.free_queued_slot s c).2 = mMaxAcquiredBufferCount c /\
  mFrameCounter (BufferQueueProducer.free_queued_slot s c).2 = mFrameCounter c.
Proof.
  rewrite free_queued_is_settle. unfold settle_slot, set_slot, state_at, slot_at.
  destruct (0 <=? s) eqn:E0; cbn -[StdSet.erase]; repeat (case_match; cbn -[StdSet.erase] in *; try congruence); done.
Qed.

(** The frames that are dropped: the queue that is left is a suffix of the old one. *)
Lemma drop_late_safe pending q : forall c expected maxFrame n l,
  invariant pending (c <| mQueue := q |>) -> settled pending c ->
  let d := drop_late c q expected maxFrame n l in
  invariant pending ((d_core d) <| mQueue := d_queue d |>) /\ settled pending (d_core d) /\ d_queue d `suffix_of` q /\
  (q <> [] -> d_queue d <> []) /\ mIsAllocating (d_core d) = mIsAllocating c.
Proof.
  induction q as [|front q IH]; intros c expected maxFrame n l Hinv Hset; [done|].
  simpl drop_late. destruct q as [|second q]; [done|]. cbv zeta.
  destruct (BufferItem.mIsAutoTimestamp front); [done|]. destruct (_ && (maxFrame <? _)); [done|].
  destruct ((_ <? _) || _); [done|].
  destruct (BufferItem.mIsStale front) eqn:Est; cbn [negb].
  - specialize (IH c expected maxFrame n l). cbv zeta in IH. destruct IH as (I1 & I2 & I3 & I4 & I5); [|done|].
    { pose proof (invariant_drop_stale pending _ [] front (second :: q) Hinv eq_refl Est) as H. exact H. }
    split_and!; try done; [by apply suffix_cons_r|]. intros _. by apply I4.
  - set (c1 := (BufferQueueProducer.free_queued_slot (BufferItem.mSlot front) c).2).
    destruct (free_queued_fields (BufferItem.mSlot front) c) as (G1 & G2 & _). fold c1 in G1, G2.
    specialize (IH c1 expected maxFrame (S n) (if mBufferReleasedCbEnabled c1 then mConnectedProducerListener c1 else l)).
    cbv zeta in IH. destruct IH as (I1 & I2 & I3 & I4 & I5).
    { pose proof (item_not_pending pending _ front Hinv Hset ltac:(cbn; set_solver) Est) as Hnp.
      pose proof (invariant_drop pending _ [] front (second :: q) Hinv eq_refl Est Hnp) as H.
      eapply invariant_ext; [|exact H]. symmetry. apply (free_queued_other_queue (BufferItem.mSlot front) c (front :: second :: q) (second :: q)). }
    { unfold settled in *. by rewrite G1. }
    split_and!; try done; [by apply suffix_cons_r|intros _; by apply I4|congruence].
Qed.

Definition acquired (s : BufferSlot.t) : BufferSlot.t :=
  (BufferSlot.on_state BufferState.acquire (s <| BufferSlot.mAcquireCalled := true |>)) <| BufferSlot.mFence := Some NO_FENCE |>.

(** Acquiring the front of the queue. *)
Lemma acquire_front_safe pending c front rest now :
  invariant pending c -> settled pending c -> mQueue c = front :: rest -> invariant pending (acquire_item c front now).2.
Proof.
  intros Hinv Hset Hq. unfold acquire_item. cbv zeta. cbn [snd]. destruct (BufferItem.mIsStale front) eqn:Est; cbn [negb].
  { pose proof (invariant_drop_stale pending _ [] front rest Hinv Hq Est) as H. eapply invariant_ext; [|exact H].
    unfold view_of. cbn. by rewrite Hq. }
  set (s := BufferItem.mSlot front). pose proof (pools_length _ _ (inv_pools _ _ Hinv)) as Hlen.
  assert (Hin : front ∈ mQueue c) by (rewrite Hq; left).
  assert (Hv : valid_slot s) by (by apply (queue_slots _ (inv_queue _ _ Hinv))).
  pose proof (item_not_pending pending _ front Hinv Hset Hin Est) as Hnp. fold s in Hnp.
  pose proof (queue_counts _ (inv_queue _ _ Hinv) s Hv) as Hcount. rewrite Hq, queued_in_cons in Hcount.
  assert (refers s front = 1) as Href by (by apply refers_live). rewrite Href in Hcount. pose proof (queued_in_nonneg s rest).
  assert (Ha : s ∈ mActiveBuffers c).
  { eapply used_is_active; [apply Hinv|done|]. intros Heq. rewrite Heq in Hcount. simpl in Hcount. lia. }
  destruct (active_slot _ _ _ Hinv Ha Hnp) as (_ & Hu & _).
  assert (Hfin : invariant pending ((set_slot s acquired c) <| mQueue := rest |>)).
  { assert (Hdecr : BufferState.decr (BufferState.mQueueCount (state_at c s)) = queued_in s rest).
    { unfold BufferState.decr. rewrite (proj2 (Z.ltb_lt 0 _)) by lia. lia. }
    apply invariant_requeue; try done.
    - rewrite Hq. apply (queue_without_item s [] front rest). by left.
    - cbn. unfold state_at in *. destruct (queued_in_use _ Hu ltac:(lia)) as [->|[Hsh (C1 & C2 & C3)]]; [by do 2 right; left|].
      do 3 right. split; [done|]. unfold counts_ok. simpl. auto with containers. }
  rewrite !set_slot_as in * by done. rewrite bool_decide_eq_false_2 by (cbn; rewrite Hq; done).
  eapply invariant_ext; [|exact Hfin]. unfold view_of. cbn. rewrite Hq, !list_alter_alter_eq. done.
Qed.

(** Acquiring the shared buffer outside of the queue. *)
Lemma acquire_shared_safe pending c out now :
  invariant pending c -> mQueue c = [] -> valid_slot (mSharedBufferSlot c) -> mSharedBufferSlot c ∉ pending ->
  invariant pending (acquire_item c (shared_item c (mSharedBufferSlot c) out) now).2.
Proof.
  intros Hinv Hq Hv Hnp. set (s := mSharedBufferSlot c) in *. pose proof (pools_length _ _ (inv_pools _ _ Hinv)) as Hlen.
  assert (s ∈ mActiveBuffers c /\ BufferState.mShared (state_at c s) = true) as [Ha Hsh].
  { destruct (inv_shared _ _ Hinv) as [Hi|(_ & ? & ?)]; [|done]. exfalso. by apply (valid_not_invalid s Hv). }
  destruct (active_slot _ _ _ Hinv Ha Hnp) as (_ & Hu & Hb & _).
  set (f := fun sl : BufferSlot.t => (BufferSlot.on_state BufferState.acquireNotInQueue (sl <| BufferSlot.mAcquireCalled := true |>)) <| BufferSlot.mFence := Some NO_FENCE |>).
  assert (Hfin : invariant pending (set_slot s f c)).
  { apply invariant_set_slot; try done. cbn. unfold state_at in *. destruct Hu as [Hu|[Hu|[Hu|[_ (C1 & C2 & C3)]]]]; [rewrite Hu in Hsh; done..|].
    do 3 right. split; [done|]. unfold counts_ok. simpl. auto with containers. }
  unfold acquire_item. cbv zeta. cbn [snd BufferItem.mIsStale BufferItem.mSlot shared_item negb]. rewrite !set_slot_as in * by done.
  rewrite bool_decide_eq_true_2 by done. eapply invariant_ext; [|exact Hfin]. unfold view_of. cbn. rewrite Hq, !list_alter_alter_eq. done.
Qed.

Lemma notify_released_view n l c : view_of (notify_released n l c) = view_of c.
Proof. revert c. induction n as [|n IH]; intros c; [done|]. simpl. rewrite IH. apply view_notify. Qed.

Lemma acquireBuffer_shared_safe pending c out now : invariant pending c -> 
  match acquireBuffer_shared c out now with Returns _ c' | Waits c' => invariant pending c' | Crashes => True end.
Proof.
  intros Hinv. unfold acquireBuffer_shared. destruct (mIsAllocating c) eqn:Eal; [done|]. cbv zeta.
  destruct (negb (in_slots _) || _) eqn:E; [done|]. bool_to_prop. unfold in_slots in *. bool_to_prop.
  assert (pending = []) as ->.
  { destruct pending; [done|]. pose proof (pending_flag _ _ (inv_pending _ _ Hinv) ltac:(done)). congruence. }
  pose proof (acquire_shared_safe [] c out now Hinv ltac:(done) ltac:(unfold valid_slot; lia) ltac:(set_solver)) as H'.
  destruct (acquire_item c _ now) as [item c']. exact H'.
Qed.

Lemma acquireBuffer_safe pending c out expected maxFrame now : invariant pending c -> settled pending c ->
  match acquireBuffer c out expected maxFrame now with Returns _ c' | Waits c' => invariant pending c' | Crashes => True end.
Proof.
  intros Hinv Hset. unfold acquireBuffer. cbv zeta. destruct (_ <=? _); [done|].
  destruct (mQueue c) as [|i q] eqn:Eq; [destruct (negb _); [done|]; by apply acquireBuffer_shared_safe|].
  match goal with |- context [if negb (expected =? 0) then drop_late ?a ?b ?e ?f ?g ?h else ?y] => set (d := if negb (expected =? 0) then drop_late a b e f g h else y) end. assert (Hq0 : invariant pending (c <| mQueue := i :: q |>)) by (rewrite <- Eq; eapply invariant_ext; [|exact Hinv]; done).
  assert (Hd : invariant pending ((d_core d) <| mQueue := d_queue d |>) /\ settled pending (d_core d)).
  { unfold d. destruct (negb (expected =? 0)); [|done].
    destruct (drop_late_safe pending (i :: q) c expected maxFrame 0 None Hq0 Hset) as (I1 & I2 & _). done. }
  destruct Hd as [Hd1 Hd2]. clearbody d. destruct (d_queue d) as [|front rest] eqn:Edq; [done|].
  destruct (_ && present_later _ _ _); [done|].
  pose proof (acquire_front_safe pending _ front rest now Hd1 Hd2 eq_refl) as H.
  destruct (acquire_item _ front now) as [item c']. eapply invariant_ext; [apply notify_released_view|]. exact H.
Qed.

(** ** The other operations *)

Lemma consumer_detachBuffer_safe pending c slot :
  invariant pending c -> slot ∉ pending -> BufferState.mShared (state_at c slot) = false -> invariant pending (detachBuffer c slot).2.
Proof.
  intros Hinv Hnp Hsh. unfold detachBuffer. cbv zeta. destruct (mIsAbandoned _); [done|].
  destruct (mSharedBufferMode c || _) eqn:Em; [done|]. destruct ((slot <? 0) || _) eqn:Er; [done|]. apply in_range_valid in Er as Hv.
  destruct (BufferState.isAcquired _) eqn:Ed; [|done]. bool_to_prop. cbn [negb snd].
  pose proof (acquired_active _ _ _ Hinv Hv Ed) as Ha. destruct (active_slot _ _ _ Hinv Ha Hnp) as (_ & Hu & _).
  destruct (acquired_in_use _ Hu Ed) as [Hst|[? _]]; [|congruence].
  eapply invariant_ext; [apply view_emit|].
  assert (mActiveBuffers (set_slot slot (BufferSlot.on_state BufferState.detachConsumer) c) = mActiveBuffers c) as -> by (by rewrite set_slot_as).
  apply invariant_detach; try done; [by eapply no_shared_slot|by rewrite Hst].
Qed.

Lemma filter_ne_cons' (s : Z) l rest : l = s :: rest -> NoDup l -> filter (fun x => x <> s) l = rest.
Proof. intros -> Hnd. apply NoDup_cons in Hnd as [Hnr _]. by apply filter_ne_cons. Qed.

Lemma consumer_attachBuffer_safe pending c out b : invariant pending c -> settled pending c -> invariant pending (attachBuffer c out b).2.
Proof.
  intros Hinv Hset. unfold attachBuffer. destruct (negb out); [done|]. destruct b as [b|]; [|done].
  destruct (mSharedBufferMode c) eqn:Em; [done|]. destruct (_ <=? _); [done|]. destruct (negb _); [done|].
  set (f := fun s : BufferSlot.t => _). pose proof (inv_pools _ _ Hinv) as Hp. pose proof (pools_sorted _ _ Hp) as [Sa Sb Sc Sd].
  assert (Hput : forall s fr fb, valid_slot s -> s ∉ mActiveBuffers c -> s ∉ mUnusedSlots c -> state_at c s = BufferState.new ->
    StdSet.ordered fr -> NoDup fb -> s ∉ fr -> s ∉ fb -> (forall x, x <> s -> (x ∈ fr <-> x ∈ mFreeSlots c) /\ (x ∈ fb <-> x ∈ mFreeBuffers c)) ->
    invariant pending (moved s f (mUnusedSlots c) fr fb (StdSet.insert s (mActiveBuffers c)) c)).
  { intros s fr fb Hv Hna Hnu Hst Hfr Hfb Hnf Hnb Hsame. apply invariant_moved; auto with containers.
    - by eapply not_pending.
    - intros x Hx. rewrite StdSet.elem_of_insert. destruct (Hsame x Hx). tauto.
    - intros Hs. exfalso. apply Hna. by eapply shared_is_active.
    - do 3 right. rewrite StdSet.elem_of_insert. split_and!; try tauto. split; [do 2 right; left|left; by eexists].
      cbn. unfold state_at in Hst. by rewrite Hst. }
  unfold attachBuffer_find. destruct (mFreeSlots c) as [|s fr] eqn:Efr.
  - destruct (mFreeBuffers c) as [|s fb] eqn:Efb; [done|]. cbn [snd]. assert (Hin : s ∈ mFreeBuffers c) by (rewrite Efb; left).
    destruct (placed_buffer _ _ s Hp Hin) as (Hv & Hnu & Hnf & Hna & Hst & _). apply NoDup_cons in Sc as [Hnr Sc].
    rewrite filter_ne_cons by done.
    eapply invariant_ext; [|apply (Hput s [] fb)]; try done; [|set_solver|set_solver].
    rewrite set_slot_as, moved_as by done. unfold view_of. cbn -[StdSet.insert]. by rewrite Efr.
  - cbn [snd]. assert (Hin : s ∈ mFreeSlots c) by (rewrite Efr; left).
    destruct (placed_free _ _ s Hp Hin) as (Hv & Hnu & Hnb & Hna & Hst & _). rewrite <- Efr in *.
    eapply invariant_ext; [|apply (Hput s (StdSet.erase s (mFreeSlots c)) (mFreeBuffers c))]; auto with containers.
    + rewrite StdSet.elem_of_erase. tauto.
    + intros x Hx. rewrite StdSet.elem_of_erase. tauto.
Qed.

Lemma releaseBuffer_safe pending c slot frame fence dpy egl : invariant pending c ->
  invariant pending (releaseBuffer c slot frame fence dpy egl).2.
Proof.
  intros Hinv. unfold releaseBuffer. cbv zeta. destruct ((slot <? 0) || _ || _) eqn:Er; [done|].
  apply orb_false_iff in Er as [Er _]. apply in_range_valid in Er as Hv. destruct (_ && _); [done|].
  destruct (BufferState.isAcquired _) eqn:Ed; [|done]. cbn [negb snd].
  pose proof (acquired_active _ _ _ Hinv Hv Ed) as Ha. pose proof (pools_length _ _ (inv_pools _ _ Hinv)) as Hlen.
  eapply invariant_ext; [apply view_notify|]. eapply invariant_ext; [apply view_emit|].
  set (f := fun s : BufferSlot.t => _).
  eapply invariant_ext; [apply (settle_slot_view slot f c Hv Hlen)|].
  assert (HQ : BufferState.mQueueCount (state_at c slot) = queued_in slot (mQueue c)) by (by apply (queue_counts _ (inv_queue _ _ Hinv))).
  destruct (placed_active _ _ _ (inv_pools _ _ Hinv) Ha) as (_ & _ & Hnf & _ & Hu & _).
  assert (Hnp : slot ∉ pending).
  { intros Hin. destruct (mIsAbandoned c) eqn:Hab; [by apply Hnf, (pending_abandoned _ _ (inv_pending _ _ Hinv))|]. destruct (pending_dequeued _ _ (inv_pending _ _ Hinv) _ Hin Hab) as (_ & _ & _ & Hac & _).
    unfold BufferState.isAcquired in Ed. bool_to_prop. lia. }
  destruct (acquired_in_use _ Hu Ed) as [Hst|[Hsh (C1 & C2 & C3)]]; unfold state_at in *.
  - apply give_back_safe; try done; unfold state_at; cbn; rewrite ?Hst in *; try done.
  - apply give_back_safe; try done; unfold counts_ok, state_at; cbn; auto with containers. congruence.
Qed.

(** ** Limits *)

Lemma setMaxBufferCount_safe pending c n : invariant pending c -> settled pending c -> invariant pending (setMaxBufferCount c n).2.
Proof.
  intros Hinv Hset. unfold setMaxBufferCount. destruct (_ || _); [done|]. destruct (negb _); [done|]. destruct (_ <? _); [done|].
  cbv zeta. pose proof (adjust_safe pending (getMaxBufferCountLocked_for c (mAsyncMode c) (mDequeueBufferCannotBlock c) n - getMaxBufferCountLocked c) c Hinv Hset) as H.
  destruct (adjustAvailableSlotsLocked _ c) as [ok c']. destruct ok; [|done]. eapply invariant_ext; [|exact H]. done.
Qed.

Lemma setMaxAcquiredBufferCount_safe pending c n : invariant pending c -> settled pending c ->
  match setMaxAcquiredBufferCount c n with Returns _ c' | Waits c' => invariant pending c' | Crashes => False end.
Proof.
  intros Hinv Hset. unfold setMaxAcquiredBufferCount. destruct (_ || _); [done|]. destruct (mIsAllocating c); [done|]. destruct (mIsAbandoned c); [done|].
  destruct (_ =? _); [done|]. destruct (_ <? _); [done|]. destruct (_ <? _); [done|]. cbv zeta.
  pose proof (adjust_safe pending (n - mMaxAcquiredBufferCount c) c Hinv Hset) as H.
  destruct (adjustAvailableSlotsLocked _ c) as [ok c']. destruct ok; [|done]. cbn [negb].
  eapply invariant_ext; [apply view_notify|]. eapply invariant_ext; [|exact H]. done.
Qed.

(** ** connect, disconnect and the constructor *)

Lemma consumer_disconnect_safe pending c : invariant pending c -> invariant pending (disconnect c).2.
Proof.
  intros Hinv. unfold disconnect. destruct (mConsumerListener c); [|done]. cbn [snd]. eapply invariant_ext; [apply view_emit|].
  by apply abandon_invariant.
Qed.

Lemma slot_at_new name pid id s : slot_at (new name pid id) s = BufferSlot.new.
Proof.
  unfold slot_at. case_match; [|done]. change (mSlots (new name pid id)) with (replicate 64 BufferSlot.new).
  rewrite nth_lookup. destruct (replicate 64 BufferSlot.new !! Z.to_nat s) eqn:E; [|done]. apply lookup_replicate_1 in E. by destruct E as [-> _].
Qed.

(** The constructor establishes the invariant. *)
Lemma new_invariant name pid id : invariant [] (new name pid id).
Proof.
  assert (Hf : mFreeSlots (new name pid id) = [0; 1]) by done.
  assert (Hu : forall s, s ∈ mUnusedSlots (new name pid id) <-> 2 <= s < 64).
  { intros s. change (mUnusedSlots (new name pid id)) with (foldl (fun l s => s :: l) [] (seqZ 2 62)).
    assert (forall l acc, s ∈ foldl (fun (l : list Z) s => s :: l) acc l <-> s ∈ l \/ s ∈ acc) as Hfold.
    { induction l as [|x l IH]; intros acc; simpl; [set_solver|]. rewrite IH. set_solver. }
    rewrite Hfold, elem_of_seqZ. set_solver by lia. }
  constructor.
  - constructor; rewrite ?Hf; try done.
    + apply (bool_decide_unpack (NoDup (mUnusedSlots (new name pid id)))). vm_compute. exact I.
    + repeat constructor; lia.
    + constructor.
    + constructor.
    + intros s [H|[H|[H|H]]]; [apply Hu in H|rewrite Hf in H|..]; unfold valid_slot, NUM_BUFFER_SLOTS; set_solver by lia.
    + intros s Hv. unfold slot_placed, slot_empty. rewrite slot_at_new, Hu, Hf. unfold valid_slot, NUM_BUFFER_SLOTS in Hv.
      change (mFreeBuffers _) with (@nil Z). change (mActiveBuffers _) with (@nil Z). set_unfold.
      destruct (decide (2 <= s)); [left|right; left]; split_and!; try done; lia || naive_solver lia.
  - constructor; try done; [|set_solver]. intros s _. unfold state_at. by rewrite slot_at_new.
  - by left.
  - apply pending_nil.
Qed.
