(* ===== verification/BufferQueueSystem.v ===== *)
(** * The buffer queue with its callers

    The producer and the consumer are called from any number of threads. A call holds
    the lock of the core from one release of it to the next; a call that waits on a
    condition variable, allocates a buffer or calls back without the lock has released
    it. [thread] has one constructor per such point of the code, with the local
    variables that are live there. [start] runs a call up to its first release of the
    lock, [resume] goes on from such a point; [step] interleaves them in any order. A
    wait may end at any time (spurious wake-ups are allowed by the code, which always
    tests its condition again). *)

From S2P Require Import Prelude Geometry RegionHelper Region BufferSlot OccupancyTracker BufferQueueCore.
From S2P Require Import BufferQueueProducer BufferQueueConsumer.
Import BufferQueueCore BufferQueueProducer.

(** ** Calls and the points at which a call is suspended *)

Inductive call :=
| Call_requestBuffer (slot : Z)
| Call_setMaxDequeuedBufferCount (maxDequeuedBuffers : Z)
| Call_setAsyncMode (async : bool)
| Call_dequeueBuffer (r : BufferRequest) (outTimestamps : bool)
| Call_detachBuffer (slot : Z)
| Call_detachNextBuffer (outBuffer outFence : bool)
| Call_attachBuffer (outSlot : bool) (buffer : option GraphicBuffer.t)
| Call_queueBuffer (slot : Z) (input : QueueBufferInput) (output : QueueBufferOutput)
| Call_cancelBuffer (slot : Z) (fence : option Fence)
| Call_connect (listener : option IProducerListener) (api : Z) (producerControlledByApp : bool)
    (output : option QueueBufferOutput) (pid : Z)
| Call_disconnect (api : Z) (mode : DisconnectMode) (pid : Z)
| Call_binderDied (pid : Z)
| Call_setSidebandStream (stream : option Z)
| Call_allocateBuffers (r : BufferRequest)
| Call_allowAllocation (allow : bool)
| Call_setGenerationNumber (generationNumber : Z)
| Call_setSharedBufferMode (sharedBufferMode : bool)
| Call_setAutoRefresh (autoRefresh : bool)
| Call_setDequeueTimeout (timeout : Z)
| Call_setLegacyBufferDrop (drop : bool)
| Call_getFrameTimestamps
| Call_setAutoPrerotation (autoPrerotation : bool)
| Consumer_acquireBuffer (outBuffer : BufferItem.t) (expectedPresent maxFrameNumber : Z)
| Consumer_detachBuffer (slot : Z)
| Consumer_attachBuffer (outSlot : bool) (buffer : option GraphicBuffer.t)
| Consumer_releaseBuffer (slot frameNumber : Z) (releaseFence : option Fence) (eglDisplay eglFence : Z)
| Consumer_connect (consumerListener : option Z) (controlledByApp : bool)
| Consumer_disconnect
| Consumer_setDefaultBufferSize (width height : Z)
| Consumer_setMaxBufferCount (bufferCount : Z)
| Consumer_setMaxAcquiredBufferCount (maxAcquiredBuffers : Z)
| Consumer_setConsumerName (name : string)
| Consumer_setDefaultBufferFormat (defaultFormat : Z)
| Consumer_setDefaultBufferDataSpace (defaultDataSpace : Z)
| Consumer_setConsumerUsageBits (usage : Z)
| Consumer_setConsumerIsProtected (isProtected : bool)
| Consumer_setTransformHint (hint : Z)
| Consumer_getOccupancyHistory (forceFlush : bool)
| Consumer_discardFreeBuffers.

Inductive thread :=
| DequeueBegin (r : BufferRequest) (outTimestamps : bool)
| DequeueWaitingAllocation (r : BufferRequest) (outTimestamps : bool)
| DequeueWaitingSlot (r : BufferRequest) (outTimestamps timed : bool)
| DequeueAllocating (d : DequeuedSlot) (outTimestamps : bool)
| DequeueReturning (d : DequeuedSlot) (outTimestamps : bool)
| AttachWaiting (buffer : GraphicBuffer.t)
| AttachWaitingSlot (buffer : GraphicBuffer.t) (timed : bool)
| DetachNextWaiting
| QueueTimestamps (f : QueuedFrame) (output : QueueBufferOutput)
| QueueCallback (f : QueuedFrame) (output : QueueBufferOutput)
| SetMaxDequeuedWaiting (maxDequeuedBuffers : Z)
| SetAsyncWaiting (async : bool)
| DisconnectWaiting (api : Z)
| AllocateBegin (r : BufferRequest)
| Allocating (r alloc : BufferRequest)
| AllocateYield (r : BufferRequest)
| SetMaxAcquiredWaiting (maxAcquiredBuffers : Z)
| AcquireSharedWaiting (outBuffer : BufferItem.t).

(** What a call returns to its caller. *)
Inductive reply :=
| Status (status : status_t)
| Requested (status : status_t) (buffer : option GraphicBuffer.t)
| Dequeued (output : DequeueOutput)
| Detached (status : status_t) (buffer : option (option GraphicBuffer.t * option Fence))
| Attached (status : status_t) (slot : Z)
| Queued (status : status_t) (output : QueueBufferOutput)
| Connected (status : status_t) (output : option QueueBufferOutput)
| Acquired (status : status_t) (item : BufferItem.t)
| History (segments : list OccupancyTracker.Segment).

Inductive next := Done (r : reply) | Then (th : thread).

(** What the rest of the system supplies to a step: the time, the result of the
    allocation, and whether a timed wait has timed out. *)
Record env := mkEnv { now : Z; alloc_error : status_t; alloc_buffer : GraphicBuffer.t; timed_out : bool }.

(** ** Running a call *)

(** [None]: undefined behaviour *)
Definition of_outcome {A} (o : outcome t A) (returns : A -> next) (waits : thread) : option (next * t) :=
  match o with
  | Returns a p => Some (returns a, p)
  | Waits p => Some (Then waits, p)
  | Crashes => None
  end.

Definition of_status (r : status_t * t) : option (next * t) := Some (Done (Status r.1), r.2).

(** an operation of the consumer on the core *)
Definition of_core (p : t) (r : status_t * BufferQueueCore.t) : option (next * t) :=
  Some (Done (Status r.1), p <| mCore := r.2 |>).
Definition lift_core {A} (p : t) (o : outcome BufferQueueCore.t A) : outcome t A :=
  match o with
  | Returns a c => Returns a (p <| mCore := c |>)
  | Waits c => Waits (p <| mCore := c |>)
  | Crashes => Crashes
  end.

Definition timed (p : t) : bool := 0 <=? mDequeueTimeout p.

(** [dequeueBuffer] once the thread looks for a slot *)
Definition after_slot (o : outcome t (status_t + DequeuedSlot)) (r : BufferRequest) (ts : bool) : option (next * t) :=
  match o with
  | Returns (inl status) p => Some (Done (Status status), p)
  | Returns (inr d) p => Some (Then (if needsAllocation d then DequeueAllocating d ts else DequeueReturning d ts), p)
  | Waits p => Some (Then (DequeueWaitingSlot r ts (timed p)), p)
  | Crashes => None
  end.

Definition attach_slot (p : t) (b : GraphicBuffer.t) : option (next * t) :=
  of_outcome (attachBuffer_slot p b) (fun a => Done (Attached a.1 a.2)) (AttachWaitingSlot b (timed p)).

Definition attach_wait (p : t) (b : GraphicBuffer.t) : option (next * t) :=
  if mIsAllocating (mCore p) then Some (Then (AttachWaiting b), p) else attach_slot p b.

Definition allocate_begin (p : t) (r : BufferRequest) : option (next * t) :=
  of_outcome (allocateBuffers_begin p r)
    (fun a => match a with Some al => Then (Allocating r al) | None => Done (Status NO_ERROR) end) (AllocateBegin r).

Definition start (p : t) (k : call) (e : env) : option (next * t) :=
  let c := mCore p in
  match k with
  | Call_requestBuffer slot => let '(st, b, p) := requestBuffer p slot in Some (Done (Requested st b), p)
  | Call_setMaxDequeuedBufferCount n =>
    of_outcome (setMaxDequeuedBufferCount p n) (fun st => Done (Status st)) (SetMaxDequeuedWaiting n)
  | Call_setAsyncMode b => of_outcome (setAsyncMode p b) (fun st => Done (Status st)) (SetAsyncWaiting b)
  | Call_dequeueBuffer r ts =>
    let '(st, p) := dequeueBuffer_check p (req_width r) (req_height r) in
    Some (if st =? NO_ERROR then Then (DequeueBegin r ts) else Done (Status st), p)
  | Call_detachBuffer slot => of_status (detachBuffer p slot)
  | Call_detachNextBuffer outBuffer outFence =>
    let st := detachNextBuffer_check p outBuffer outFence in
    if st =? NO_ERROR then of_outcome (detachNextBuffer_take p) (fun a => Done (Detached a.1 a.2)) DetachNextWaiting
    else Some (Done (Status st), p)
  | Call_attachBuffer outSlot buffer =>
    let st := attachBuffer_check p outSlot buffer in
    match buffer with
    | Some b => if st =? NO_ERROR then attach_wait p b else Some (Done (Status st), p)
    | None => Some (Done (Status st), p)
    end
  | Call_queueBuffer slot input output =>
    match queueBuffer_locked p slot input output (now e) with
    | Returns (inl st) p => Some (Done (Status st), p)
    | Returns (inr (f, output)) p => Some (Then (QueueTimestamps f output), p)
    | Waits _ | Crashes => None
    end
  | Call_cancelBuffer slot fence => of_status (cancelBuffer p slot fence)
  | Call_connect l api byApp output pid =>
    let '(st, output, p) := connect p l api byApp output pid in Some (Done (Connected st output), p)
  | Call_disconnect api mode pid =>
    of_outcome (disconnect p api mode pid) (fun st => Done (Status st))
      (DisconnectWaiting (match mode with Api => api | AllLocal => CURRENTLY_CONNECTED_API end))
  | Call_binderDied pid =>
    of_outcome (binderDied p pid) (fun st => Done (Status st)) (DisconnectWaiting (mConnectedApi c))
  | Call_setSidebandStream stream => of_status (setSidebandStream p stream)
  | Call_allocateBuffers r => allocate_begin p r
  | Call_allowAllocation b => of_status (allowAllocation p b)
  | Call_setGenerationNumber n => of_status (setGenerationNumber p n)
  | Call_setSharedBufferMode b => of_status (setSharedBufferMode p b)
  | Call_setAutoRefresh b => of_status (setAutoRefresh p b)
  | Call_setDequeueTimeout n => of_status (setDequeueTimeout p n)
  | Call_setLegacyBufferDrop b => of_status (setLegacyBufferDrop p b)
  | Call_getFrameTimestamps => Some (Done (Status NO_ERROR), getFrameTimestamps p)
  | Call_setAutoPrerotation b => of_status (setAutoPrerotation p b)
  | Consumer_acquireBuffer out expected maxFrame =>
    of_outcome (lift_core p (BufferQueueConsumer.acquireBuffer c out expected maxFrame (now e)))
      (fun a => Done (Acquired a.1 a.2)) (AcquireSharedWaiting out)
  | Consumer_detachBuffer slot => of_core p (BufferQueueConsumer.detachBuffer c slot)
  | Consumer_attachBuffer outSlot b =>
    let '(st, slot, c) := BufferQueueConsumer.attachBuffer c outSlot b in Some (Done (Attached st slot), p <| mCore := c |>)
  | Consumer_releaseBuffer slot frame fence dpy egl => of_core p (BufferQueueConsumer.releaseBuffer c slot frame fence dpy egl)
  | Consumer_connect l byApp => of_core p (BufferQueueConsumer.connect c l byApp)
  | Consumer_disconnect => of_core p (BufferQueueConsumer.disconnect c)
  | Consumer_setDefaultBufferSize w h => of_core p (BufferQueueConsumer.setDefaultBufferSize c w h)
  | Consumer_setMaxBufferCount n => of_core p (BufferQueueConsumer.setMaxBufferCount c n)
  | Consumer_setMaxAcquiredBufferCount n =>
    of_outcome (lift_core p (BufferQueueConsumer.setMaxAcquiredBufferCount c n)) (fun st => Done (Status st)) (SetMaxAcquiredWaiting n)
  | Consumer_setConsumerName name =>
    let '(st, _, c) := BufferQueueConsumer.setConsumerName c name in of_core p (st, c)
  | Consumer_setDefaultBufferFormat x => of_core p (BufferQueueConsumer.setDefaultBufferFormat c x)
  | Consumer_setDefaultBufferDataSpace x => of_core p (BufferQueueConsumer.setDefaultBufferDataSpace c x)
  | Consumer_setConsumerUsageBits x => of_core p (BufferQueueConsumer.setConsumerUsageBits c x)
  | Consumer_setConsumerIsProtected x => of_core p (BufferQueueConsumer.setConsumerIsProtected c x)
  | Consumer_setTransformHint x => of_core p (BufferQueueConsumer.setTransformHint c x)
  | Consumer_getOccupancyHistory b =>
    let '(h, c) := BufferQueueConsumer.getOccupancyHistory c b in Some (Done (History h), p <| mCore := c |>)
  | Consumer_discardFreeBuffers => of_core p (BufferQueueConsumer.discardFreeBuffers c)
  end.

Definition resume (p : t) (th : thread) (e : env) : option (next * t) :=
  match th with
  | DequeueBegin r ts =>
    if dequeueBuffer_must_wait p then Some (Then (DequeueWaitingAllocation r ts), dequeueBuffer_begin_wait p)
    else after_slot (dequeueBuffer_resume p r) (dequeueBuffer_defaults (mCore p) r) ts
  | DequeueWaitingAllocation r ts =>
    if mIsAllocating (mCore p) then Some (Then th, p)
    else let p := dequeueBuffer_end_wait p in
         after_slot (dequeueBuffer_resume p r) (dequeueBuffer_defaults (mCore p) r) ts
  | DequeueWaitingSlot r ts timed =>
    if timed && timed_out e then Some (Done (Status TIMED_OUT), p) else after_slot (dequeueBuffer_slot p r) r ts
  | DequeueAllocating d ts =>
    let '(st, p) := dequeueBuffer_allocated p d (alloc_error e) (alloc_buffer e) in
    Some (if st =? NO_ERROR then Then (DequeueReturning d ts) else Done (Status st), p)
  | DequeueReturning d ts => let '(out, p) := dequeueBuffer_return p d ts in Some (Done (Dequeued out), p)
  | AttachWaiting b => attach_wait p b
  | AttachWaitingSlot b timed =>
    if timed && timed_out e then Some (Done (Status TIMED_OUT), p) else attach_slot p b
  | DetachNextWaiting => of_outcome (detachNextBuffer_take p) (fun a => Done (Detached a.1 a.2)) DetachNextWaiting
  | QueueTimestamps f output => Some (Then (QueueCallback f output), queueBuffer_timestamps p f)
  | QueueCallback f output => of_outcome (queueBuffer_callback p f) (fun st => Done (Queued st output)) th
  | SetMaxDequeuedWaiting n => of_outcome (setMaxDequeuedBufferCount p n) (fun st => Done (Status st)) th
  | SetAsyncWaiting b => of_outcome (setAsyncMode p b) (fun st => Done (Status st)) th
  | DisconnectWaiting api => of_outcome (disconnect_locked p api) (fun st => Done (Status st)) th
  | AllocateBegin r => allocate_begin p r
  | Allocating r al =>
    if alloc_error e =? NO_ERROR then
      let '(finished, p) := allocateBuffers_finish p r al (alloc_buffer e) in
      Some (Then (if finished then AllocateYield r else AllocateBegin r), p)
    else Some (Done (Status NO_ERROR), allocateBuffers_failed p)
  | AllocateYield r => Some (Then (if mDequeueWaitingForAllocation p then th else AllocateBegin r), p)
  | SetMaxAcquiredWaiting n =>
    of_outcome (lift_core p (BufferQueueConsumer.setMaxAcquiredBufferCount (mCore p) n)) (fun st => Done (Status st)) th
  | AcquireSharedWaiting out =>
    of_outcome (lift_core p (BufferQueueConsumer.acquireBuffer_shared (mCore p) out (now e))) (fun a => Done (Acquired a.1 a.2)) th
  end.

(** ** Interleaving *)

Record system := mkSystem { producer : t; threads : list thread }.

Definition core (s : system) : BufferQueueCore.t := mCore (producer s).
Definition suspended (n : next) : list thread := match n with Done _ => [] | Then th => [th] end.

(** A step: a call is made, or a suspended thread runs on. *)
Inductive action :=
| Start (k : call)
| Resume (i : nat).

Definition perform (s : system) (a : action) (e : env) : option system :=
  match a with
  | Start k =>
    match start (producer s) k e with
    | Some (n, p) => Some (mkSystem p (threads s ++ suspended n))
    | None => None
    end
  | Resume i =>
    match threads s !! i with
    | Some th =>
      match resume (producer s) th e with
      | Some (n, p) => Some (mkSystem p (take i (threads s) ++ suspended n ++ drop (S i) (threads s)))
      | None => None
      end
    | None => None
    end
  end.

Fixpoint perform_all (s : system) (l : list (action * env)) : option system :=
  match l with
  | [] => Some s
  | (a, e) :: l => match perform s a e with Some s => perform_all s l | None => None end
  end.

Definition initial (name : string) (pid uniqueId : Z) (consumerIsSurfaceFlinger : bool) : system :=
  mkSystem (BufferQueueProducer.new (BufferQueueCore.new name pid uniqueId) consumerIsSurfaceFlinger) [].

(** ** The threads that allocate *)

(** the slot that a dequeue is allocating a buffer for *)
Definition allocating_slot (th : thread) : option Z :=
  match th with DequeueAllocating d _ => Some (outSlot d) | _ => None end.
Definition pending (s : system) : list Z := omap allocating_slot (threads s).

Definition is_allocating (th : thread) : bool :=
  match th with DequeueAllocating _ _ | Allocating _ _ => true | _ => false end.
Definition allocations (s : system) : nat := length (List.filter is_allocating (threads s)).
