(* ===== verification/BufferQueueSystemSafety.v ===== *)
(** * The interleaved buffer queue keeps the invariant

    Every step of the system of BufferQueueSystem.v keeps the invariant, under the
    conditions of [legal]: what the callers owe to the queue (a producer uses the slots
    it was given only), and the situations in which the code itself loses the
    invariant, which BufferQueueFindings.v shows one by one. *)

From S2P Require Import Prelude Geometry RegionHelper Region BufferSlot OccupancyTracker BufferQueueCore.
From S2P Require Import BufferQueueProducer BufferQueueConsumer BufferQueueInvariant BufferQueueCoreSafety.
From S2P Require Import BufferQueueProducerSafety BufferQueueQueueSafety BufferQueueConsumerSafety.
From S2P Require Import BufferQueueSystem.
Import BufferQueueCore BufferQueueProducer.

(** ** The order of the pending slots does not matter *)

Lemma invariant_perm l l' c : l ≡ₚ l' -> invariant l c -> invariant l' c.
Proof.
  intros Hp [[P1 P2 P3 P4 P5 P6 P7] Hq Hs [Q1 Q2 Q3 Q4 Q5]].
  assert (Hin : forall s, s ∈ l' <-> s ∈ l) by (intros; by rewrite Hp).
  constructor; [constructor; auto|done|done|constructor].
  - intros s Hv. specialize (P7 s Hv). unfold slot_placed, slot_active in *. by rewrite Hin.
  - by rewrite <- Hp.
  - intros s ?%Hin. auto.
  - intros s ?%Hin. auto.
  - intros s ?%Hin. auto.
  - intros Hne. apply Q5. intros ->. apply Hne. symmetry. by apply Permutation_nil_l.
Qed.

Lemma not_allocating_nil l c : invariant l c -> mIsAllocating c = false -> l = [].
Proof.
  intros Hinv Hal. destruct l; [done|]. pose proof (pending_flag _ _ (inv_pending _ _ Hinv) ltac:(done)). congruence.
Qed.

Lemma settled_nil c : settled [] c.
Proof. by right. Qed.

(** ** Legal steps *)

(** The limits on the number of buffers leave room for the slots that were counted. *)
Definition unclipped (c : BufferQueueCore.t) : Prop :=
  mMaxAcquiredBufferCount c + mMaxDequeuedBufferCount c + (if mAsyncMode c || mDequeueBufferCannotBlock c then 1 else 0) <= mMaxBufferCount c.

Definition legal_call (l : list Z) (c : BufferQueueCore.t) (k : call) : Prop :=
  match k with
  | Call_requestBuffer slot | Call_cancelBuffer slot _ => slot ∉ l
  | Call_queueBuffer slot _ _ => slot ∉ l /\ Z.of_nat (length (mQueue c)) < UINT32_MAX
  | Call_detachBuffer slot | Consumer_detachBuffer slot => slot ∉ l /\ BufferState.mShared (state_at c slot) = false
  | Call_attachBuffer _ _ => mSharedBufferSlot c ∉ l
  | Call_setDequeueTimeout _ | Consumer_setMaxBufferCount _ | Consumer_attachBuffer _ _ | Consumer_acquireBuffer _ _ _ => settled l c
  | Call_setMaxDequeuedBufferCount n => unclipped c /\ in_int32 n
  | Consumer_setMaxAcquiredBufferCount _ => unclipped c
  | _ => True
  end.

Definition legal_resume (l : list Z) (c : BufferQueueCore.t) (th : thread) (e : env) : Prop :=
  match th with
  | DequeueBegin _ _ | DequeueWaitingSlot _ _ _ | AttachWaitingSlot _ _ => mSharedBufferSlot c ∉ l
  | DequeueAllocating _ _ => alloc_error e = NO_ERROR
  | SetMaxDequeuedWaiting n => unclipped c /\ in_int32 n
  | SetMaxAcquiredWaiting _ => unclipped c
  | _ => True
  end.

Definition legal (s : system) (a : action) (e : env) : Prop :=
  match a with
  | Start k => legal_call (pending s) (core s) k
  | Resume i => match threads s !! i with Some th => legal_resume (pending s) (core s) th e | None => True end
  end.

(** The states reached by legal steps in which no two allocations overlap. *)
Inductive reachable : system -> Prop :=
| reachable_initial name pid id sf : reachable (initial name pid id sf)
| reachable_step s a e s' : reachable s -> legal s a e -> perform s a e = Some s' -> (allocations s' <= 1)%nat -> reachable s'.

(** ** One piece of a call *)

Definition slot_of (n : next) : list Z := omap allocating_slot (suspended n).

(** what a piece of a call owes to the others *)
Definition kept (l : list Z) (r : option (next * t)) : Prop :=
  match r with Some (n, p) => invariant (slot_of n ++ l) (mCore p) | None => True end.

Lemma kept_outcome {A} l (o : outcome t A) f w : allocating_slot w = None -> (forall a, slot_of (f a) = []) ->
  match o with Returns _ p | Waits p => invariant l (mCore p) | Crashes => True end -> kept l (of_outcome o f w).
Proof. destruct o; cbn; intros Hw Hf H; try done; [by rewrite Hf|]. unfold slot_of. cbn. by rewrite Hw. Qed.

Lemma kept_core {A} l p (o : outcome BufferQueueCore.t A) f w : allocating_slot w = None -> (forall a, slot_of (f a) = []) ->
  match o with Returns _ c | Waits c => invariant l c | Crashes => True end -> kept l (of_outcome (lift_core p o) f w).
Proof. intros Hw Hf H. apply kept_outcome; auto. by destruct o. Qed.

(** Pieces that wait while a buffer is allocated find no slot pending. *)
Lemma kept_waiting l p (r : option (next * t)) :
  invariant l (mCore p) -> (mIsAllocating (mCore p) = true -> kept l r) -> (l = [] -> kept [] r) -> kept l r.
Proof.
  intros Hinv Hw Hr. destruct (mIsAllocating (mCore p)) eqn:Ea; [auto|]. pose proof (not_allocating_nil _ _ Hinv Ea) as ->. auto.
Qed.

Lemma after_slot_kept l o r ts : take_result l o -> kept l (after_slot o r ts).
Proof.
  destruct o as [[st|d] p|p|]; cbn; [by intros [_ ?]| |by intros [? _]|done].
  intros (_ & _ & H). destruct (needsAllocation d); exact H.
Qed.

Lemma dequeue_slot_kept l p r ts : invariant l (mCore p) -> mSharedBufferSlot (mCore p) ∉ l ->
  kept l (after_slot (dequeueBuffer_slot p r) r ts).
Proof.
  intros Hinv Hsp. destruct (mIsAbandoned (mCore p)) eqn:Ea.
  - unfold dequeueBuffer_slot, dequeueBuffer_find, waitForFreeSlotThenRelock. rewrite Ea. exact Hinv.
  - apply after_slot_kept, dequeueBuffer_slot_safe; try done. by left.
Qed.

Lemma attach_slot_kept l p b : invariant l (mCore p) -> mSharedBufferSlot (mCore p) ∉ l -> kept l (attach_slot p b).
Proof.
  intros Hinv Hsp. apply kept_outcome; try done. pose proof (attachBuffer_slot_safe l p b Hinv Hsp) as H. by destruct (attachBuffer_slot p b).
Qed.

Lemma attach_wait_kept l p b : invariant l (mCore p) -> kept l (attach_wait p b).
Proof.
  intros Hinv. unfold attach_wait. destruct (mIsAllocating (mCore p)) eqn:Ea; [exact Hinv|].
  pose proof (not_allocating_nil _ _ Hinv Ea) as ->. apply attach_slot_kept; [done|set_solver].
Qed.

Lemma connect_kept l p li api b out pid : invariant l (mCore p) -> invariant l (mCore (connect p li api b out pid).2).
Proof.
  intros Hinv. destruct (mIsAbandoned (mCore p)) eqn:Ea; [|apply connect_safe; [done|by left]].
  unfold connect. cbv zeta. cbn -[adjustAvailableSlotsLocked]. rewrite Ea. exact Hinv.
Qed.

Lemma queue_kept l p slot input output now : invariant l (mCore p) -> slot ∉ l -> Z.of_nat (length (mQueue (mCore p))) < UINT32_MAX ->
  match queueBuffer_locked p slot input output now with Returns _ p' => invariant l (mCore p') | Waits _ => False | Crashes => True end.
Proof.
  intros Hinv Hs Hq. destruct (mIsAbandoned (mCore p)) eqn:Ea; [|apply queueBuffer_locked_safe; try done; by left].
  unfold queueBuffer_locked. rewrite Ea. destruct (bool_decide _); [done|]. by destruct (negb (valid_scaling_mode _)).
Qed.

Lemma disconnect_kept l p api w : allocating_slot w = None -> invariant l (mCore p) ->
  kept l (of_outcome (disconnect_locked p api) (fun st => Done (Status st)) w).
Proof.
  intros Hw Hinv. apply (kept_waiting l p); [done| |].
  - intros Ha. unfold disconnect_locked. rewrite Ha. cbn. unfold slot_of. cbn. by rewrite Hw.
  - intros ->. apply kept_outcome; try done. pose proof (disconnect_locked_safe p api Hinv) as H. by destruct (disconnect_locked p api).
Qed.

Lemma setMaxDequeued_kept l p n w : allocating_slot w = None -> invariant l (mCore p) ->
  kept l (of_outcome (setMaxDequeuedBufferCount p n) (fun st => Done (Status st)) w).
Proof.
  intros Hw Hinv. apply (kept_waiting l p); [done| |].
  - intros Ha. unfold setMaxDequeuedBufferCount. rewrite Ha. cbn. unfold slot_of. cbn. by rewrite Hw.
  - intros ->. apply kept_outcome; try done. pose proof (setMaxDequeuedBufferCount_safe [] p n Hinv (settled_nil _)) as H.
    by destruct (setMaxDequeuedBufferCount p n).
Qed.

Lemma setAsync_kept l p b w : allocating_slot w = None -> invariant l (mCore p) ->
  kept l (of_outcome (setAsyncMode p b) (fun st => Done (Status st)) w).
Proof.
  intros Hw Hinv. apply (kept_waiting l p); [done| |].
  - intros Ha. unfold setAsyncMode. rewrite Ha. cbn. unfold slot_of. cbn. by rewrite Hw.
  - intros ->. apply kept_outcome; try done. pose proof (setAsyncMode_safe [] p b Hinv (settled_nil _)) as H. by destruct (setAsyncMode p b).
Qed.

Lemma setMaxAcquired_kept l p n w : allocating_slot w = None -> invariant l (mCore p) ->
  kept l (of_outcome (lift_core p (BufferQueueConsumer.setMaxAcquiredBufferCount (mCore p) n)) (fun st => Done (Status st)) w).
Proof.
  intros Hw Hinv. apply (kept_waiting l p); [done| |].
  - intros Ha. apply kept_core; try done. unfold BufferQueueConsumer.setMaxAcquiredBufferCount. rewrite Ha. by destruct (_ || _).
  - intros ->. apply kept_core; try done. pose proof (setMaxAcquiredBufferCount_safe [] (mCore p) n Hinv (settled_nil _)) as H.
    by destruct (BufferQueueConsumer.setMaxAcquiredBufferCount _ _).
Qed.

Lemma detachNext_kept l p : invariant l (mCore p) ->
  kept l (of_outcome (detachNextBuffer_take p) (fun a => Done (Detached a.1 a.2)) DetachNextWaiting).
Proof.
  intros Hinv. apply (kept_waiting l p); [done| |].
  - intros Ha. unfold detachNextBuffer_take. by rewrite Ha.
  - intros ->. apply kept_outcome; try done. pose proof (detachNextBuffer_safe [] p Hinv (settled_nil _)) as H. by destruct (detachNextBuffer_take p).
Qed.

Lemma allocate_begin_kept l p r : invariant l (mCore p) -> kept l (allocate_begin p r).
Proof.
  intros Hinv. pose proof (allocateBuffers_begin_safe l p r Hinv) as H. apply kept_outcome; try done; [by intros [?|]|].
  by destruct (allocateBuffers_begin p r).
Qed.

Create HintDb kept.
#[export] Hint Resolve dequeue_slot_kept attach_slot_kept attach_wait_kept disconnect_kept setMaxDequeued_kept setAsync_kept
  setMaxAcquired_kept detachNext_kept allocate_begin_kept : kept.

(** ** start and resume *)

(** Operations that do not touch what the invariant is about. *)
Ltac same_view := eapply invariant_ext; [|eassumption]; try (apply view_notify); done.

Lemma frame_timestamps_view c n b : view_of (addAndGetFrameTimestamps c n b) = view_of c.
Proof. unfold addAndGetFrameTimestamps. destruct (_ && _); [done|]. apply view_notify. Qed.

Lemma consumer_settings_kept l c : invariant l c ->
  (forall x y, invariant l (BufferQueueConsumer.connect c x y).2) /\
  (forall x y, invariant l (BufferQueueConsumer.setDefaultBufferSize c x y).2) /\
  (forall x, invariant l (BufferQueueConsumer.getOccupancyHistory c x).2).
Proof.
  intros Hinv. split_and!.
  - intros [x|] y; [|done]. unfold BufferQueueConsumer.connect. destruct (mIsAbandoned c); [done|]. same_view.
  - intros x y. unfold BufferQueueConsumer.setDefaultBufferSize. destruct (_ || _); [done|]. same_view.
  - intros x. unfold BufferQueueConsumer.getOccupancyHistory. destruct (OccupancyTracker.getSegmentHistory _ _). same_view.
Qed.

Lemma start_kept l p k e : invariant l (mCore p) -> legal_call l (mCore p) k -> kept l (start p k e).
Proof.
  intros Hinv Hlegal. destruct (consumer_settings_kept l _ Hinv) as (S1 & S2 & S3).
  destruct k; simpl in Hlegal; cbn -[connect]; auto with kept; try (cbn; same_view).
  - pose proof (requestBuffer_safe l p slot Hinv Hlegal) as H. by destruct (requestBuffer p slot) as [[st b] p'].
  - destruct (dequeueBuffer_check _ _ _) as [st p'] eqn:E. assert (mCore p' = mCore p) as Hc.
    { unfold dequeueBuffer_check in E. repeat (case_match; simplify_eq; try done). }
    cbn. destruct (st =? NO_ERROR); cbn; by rewrite Hc.
  - destruct Hlegal. by apply detachBuffer_safe.
  - destruct (_ =? _); [auto with kept|exact Hinv].
  - destruct buffer; [|exact Hinv]. destruct (_ =? _); [auto with kept|exact Hinv].
  - destruct Hlegal as [H1 H2]. pose proof (queue_kept l p slot input output (now e) Hinv H1 H2) as H.
    destruct (queueBuffer_locked _ _ _ _ _) as [[st|[f o]] p'|p'|]; done.
  - by apply cancelBuffer_safe.
  - pose proof (connect_kept l p listener api producerControlledByApp output pid Hinv) as H.
    by destruct (connect _ _ _ _ _ _) as [[st o] p'].
  - destruct mode; cbn; [by apply disconnect_kept|]. destruct (negb _); [exact Hinv|by apply disconnect_kept].
  - eapply invariant_ext; [apply view_notify|]. same_view.
  - by apply setSharedBufferMode_safe.
  - by apply setDequeueTimeout_safe.
  - apply kept_core; try done. pose proof (acquireBuffer_safe l (mCore p) outBuffer expectedPresent maxFrameNumber (now e) Hinv Hlegal) as H.
    by destruct (BufferQueueConsumer.acquireBuffer _ _ _ _ _).
  - destruct Hlegal. by apply consumer_detachBuffer_safe.
  - pose proof (consumer_attachBuffer_safe l (mCore p) outSlot0 buffer Hinv Hlegal) as H.
    by destruct (BufferQueueConsumer.attachBuffer _ _ _) as [[st x] c'].
  - by apply releaseBuffer_safe.
  - by apply consumer_disconnect_safe.
  - by apply setMaxBufferCount_safe.
  - by apply discard_invariant.
Qed.

(** a thread that is not allocating *)
Lemma resume_kept l p th e : invariant l (mCore p) -> legal_resume l (mCore p) th e -> is_allocating th = false -> kept l (resume p th e).
Proof.
  intros Hinv Hlegal Hal. destruct th; try discriminate Hal; simpl in Hlegal; simpl resume; auto with kept; try same_view.
  - destruct (dequeueBuffer_must_wait p); [exact Hinv|]. by apply dequeue_slot_kept.
  - destruct (mIsAllocating (mCore p)) eqn:Ea; [exact Hinv|]. pose proof (not_allocating_nil _ _ Hinv Ea) as ->.
    apply (dequeue_slot_kept [] (dequeueBuffer_end_wait p)); [|set_solver]. eapply invariant_ext; [|exact Hinv]. done.
  - destruct (_ && _); [exact Hinv|]. by apply dequeue_slot_kept.
  - cbn. eapply invariant_ext; [apply frame_timestamps_view|]. destruct (negb _); same_view.
  - destruct (_ && _); [exact Hinv|]. by apply attach_slot_kept.
  - apply kept_outcome; try done. unfold queueBuffer_callback. destruct (negb _); [done|]. cbv zeta. cbn [mCore].
    change (mCore (with_field mCore ?x _)) with x. eapply invariant_ext; [|exact Hinv].
    destruct (_ =? NATIVE_WINDOW_API_EGL), (frameAvailableListener f); rewrite ?view_emit, ?view_notify; done.
  - destruct (mDequeueWaitingForAllocation p); exact Hinv.
  - apply kept_core; try done. pose proof (acquireBuffer_shared_safe l (mCore p) outBuffer (now e) Hinv) as H.
    by destruct (BufferQueueConsumer.acquireBuffer_shared _ _ _).
Qed.

(** a thread that is allocating, alone *)
Lemma resume_allocating_kept p th e :
  is_allocating th = true -> invariant (option_list (allocating_slot th)) (mCore p) -> legal_resume (option_list (allocating_slot th)) (mCore p) th e ->
  kept [] (resume p th e).
Proof.
  intros Hal Hinv Hlegal. destruct th; try discriminate Hal; cbn in Hinv, Hlegal; simpl resume.
  - pose proof (dequeueBuffer_allocated_safe p d (alloc_buffer e) Hinv) as H. rewrite Hlegal.
    destruct (dequeueBuffer_allocated _ _ _ _) as [st p']. cbn in *. by destruct (st =? NO_ERROR).
  - destruct (_ =? _); [|by apply allocateBuffers_failed_safe].
    pose proof (allocateBuffers_finish_safe p r alloc (alloc_buffer e) Hinv) as H.
    destruct (allocateBuffers_finish _ _ _ _) as [[] p']; exact H.
Qed.

(** ** The whole system *)

Lemma pending_length l : (length (omap allocating_slot l) <= length (List.filter is_allocating l))%nat.
Proof. induction l as [|th l IH]; [done|]. destruct th; cbn; lia. Qed.

Section OneThread.

Context (ths : list thread) (i : nat) (th : thread) (Hi : ths !! i = Some th).

Let rest := take i ths ++ drop (S i) ths.

Lemma threads_split : ths ≡ₚ th :: rest.
Proof. unfold rest. rewrite <- (take_drop_middle ths i th Hi) at 1. by rewrite Permutation_middle. Qed.

Lemma omap_perm l l' : l ≡ₚ l' -> omap allocating_slot l ≡ₚ omap allocating_slot l'.
Proof. induction 1; simpl; repeat case_match; try constructor; try done. by etrans. Qed.

Lemma pending_split : omap allocating_slot ths ≡ₚ option_list (allocating_slot th) ++ omap allocating_slot rest.
Proof. rewrite (omap_perm _ _ threads_split). simpl. by destruct (allocating_slot th). Qed.

Lemma pending_after n : omap allocating_slot (take i ths ++ suspended n ++ drop (S i) ths) ≡ₚ slot_of n ++ omap allocating_slot rest.
Proof. unfold rest, slot_of. rewrite !omap_app. by rewrite Permutation_app_swap_app. Qed.

Lemma alone : is_allocating th = true -> (length (List.filter is_allocating ths) <= 1)%nat -> omap allocating_slot rest = [].
Proof.
  intros Hal Hle. rewrite <- (take_drop_middle ths i th Hi), List.filter_app in Hle. simpl in Hle. rewrite Hal in Hle.
  rewrite length_app in Hle. simpl in Hle. pose proof (pending_length rest) as Hp. unfold rest in *.
  rewrite List.filter_app, length_app in Hp. apply length_zero_iff_nil. lia.
Qed.

End OneThread.

Lemma not_allocating_slot th : is_allocating th = false -> allocating_slot th = None.
Proof. by destruct th. Qed.

Lemma perform_invariant s a e s' :
  invariant (pending s) (core s) -> (allocations s <= 1)%nat -> legal s a e -> perform s a e = Some s' ->
  invariant (pending s') (core s').
Proof.
  intros Hinv Hone Hlegal Hstep. destruct a as [k|i]; simpl in *.
  - pose proof (start_kept _ (producer s) k e Hinv Hlegal) as H.
    destruct (start (producer s) k e) as [[n p]|]; [|done]. simplify_eq. unfold core. cbn in *. eapply invariant_perm; [|exact H].
    unfold pending, slot_of. cbn. rewrite omap_app. apply Permutation_app_comm.
  - destruct (threads s !! i) as [th|] eqn:Eth; [|done].
    assert (Hkept : kept (omap allocating_slot (take i (threads s) ++ drop (S i) (threads s))) (resume (producer s) th e)).
    { pose proof (pending_split _ _ _ Eth) as Hsplit. destruct (is_allocating th) eqn:Eal.
      - rewrite (alone _ _ _ Eth Eal Hone) in *. rewrite app_nil_r in Hsplit. apply resume_allocating_kept; [done| |by destruct th].
        by eapply invariant_perm.
      - rewrite (not_allocating_slot _ Eal) in Hsplit. cbn in Hsplit. apply resume_kept; [by eapply invariant_perm| |done].
        unfold pending in Hlegal. destruct th; try done; simpl in *; by rewrite <- Hsplit. }
    destruct (resume (producer s) th e) as [[n p]|]; [|done]. simplify_eq. cbn in *. eapply invariant_perm; [|exact Hkept].
    symmetry. apply pending_after.
Qed.

Lemma reachable_invariant s : reachable s -> invariant (pending s) (core s) /\ (allocations s <= 1)%nat.
Proof.
  induction 1 as [name pid id sf|s a e s' _ [IH1 IH2] Hlegal Hstep Hone].
  - split; [apply new_invariant|cbn; lia].
  - split; [by eapply perform_invariant|done].
Qed.

(** ** Runs

    A run is a list of legal steps, checked one by one. *)

#[export] Instance settled_dec l c : Decision (settled l c).
Proof. unfold settled. apply _. Defined.
#[export] Instance unclipped_dec c : Decision (unclipped c).
Proof. unfold unclipped. apply _. Defined.
#[export] Instance in_int32_dec n : Decision (in_int32 n).
Proof. unfold in_int32. apply _. Defined.
#[export] Instance legal_dec s a e : Decision (legal s a e).
Proof. unfold legal. destruct a as [k|i]; [destruct k|destruct (threads s !! i) as [[]|]]; simpl; apply _. Defined.

Fixpoint run (s : system) (l : list (action * env)) : option system :=
  match l with
  | [] => Some s
  | (a, e) :: l =>
    if decide (legal s a e) then
      match perform s a e with
      | Some s' => if (allocations s' <=? 1)%nat then run s' l else None
      | None => None
      end
    else None
  end.

Lemma run_reachable l s s' : reachable s -> run s l = Some s' -> reachable s'.
Proof.
  revert s. induction l as [|[a e] l IH]; intros s Hs; simpl; [by intros [= <-]|].
  destruct (decide (legal s a e)) as [Hl|]; [|done]. destruct (perform s a e) as [s1|] eqn:Ep; [|done].
  destruct (_ <=? _)%nat eqn:Ea; [|done]. apply Nat.leb_le in Ea. apply IH. by eapply reachable_step.
Qed.
