(* ===== verification/BufferQueueSlotCount.v ===== *)
(** * The number of available slots

    The slots that are not in [mUnusedSlots] are as many as [getMaxBufferCountLocked]
    says. Only the operations that change a limit move slots in or out of that pool;
    all others leave the pool and the limits alone. *)

From S2P Require Import Prelude Geometry RegionHelper Region BufferSlot OccupancyTracker BufferQueueCore.
From S2P Require Import BufferQueueProducer BufferQueueConsumer BufferQueueInvariant BufferQueueCoreSafety.
From S2P Require Import BufferQueueProducerSafety BufferQueueQueueSafety BufferQueueConsumerSafety.
From S2P Require Import BufferQueueSystem BufferQueueSystemSafety.
Import BufferQueueCore BufferQueueProducer.

Definition limits_of (c : BufferQueueCore.t) :=
  (mUnusedSlots c, (mMaxBufferCount c, mMaxAcquiredBufferCount c, mMaxDequeuedBufferCount c), (mAsyncMode c, mDequeueBufferCannotBlock c)).

(** The unused slots are those that the limits leave over. *)
Record slots_counted (c : BufferQueueCore.t) : Prop := {
  counted_unused : Z.of_nat (length (mUnusedSlots c)) = NUM_BUFFER_SLOTS - getMaxBufferCountLocked c;
  counted_acquired : 1 <= mMaxAcquiredBufferCount c <= MAX_MAX_ACQUIRED_BUFFERS }.

Lemma slots_counted_ext c c' : limits_of c' = limits_of c -> slots_counted c -> slots_counted c'.
Proof.
  unfold limits_of. intros [= H1 H2 H3 H4 H5 H6] [Hu Ha]. constructor; unfold getMaxBufferCountLocked in *; by rewrite ?H1, ?H2, ?H3, ?H4, ?H5, ?H6.
Qed.

(** ** Operations that leave the limits alone *)

Lemma limits_emit e c : limits_of (emit e c) = limits_of c.
Proof. done. Qed.
Lemma limits_notify {A} (l : option A) e c : limits_of (notify l e c) = limits_of c.
Proof. by destruct l. Qed.
Lemma limits_set_slot s f c : limits_of (set_slot s f c) = limits_of c.
Proof. unfold set_slot. by destruct (0 <=? s). Qed.
Create Rewrite HintDb limits.

(** Removes the updates of other fields. *)
Ltac limits :=
  repeat first
    [ match goal with
      | |- context [limits_of (with_field ?f ?v ?c)] =>
        let H := fresh in assert (H : forall x, limits_of (with_field f v x) = limits_of x) by (intros; reflexivity); rewrite (H c); clear H
      | |- context [limits_of (emit ?e ?c)] => rewrite (limits_emit e c)
      | |- context [mCore (with_field mCore ?v ?p)] => change (mCore (with_field mCore v p)) with v
      | |- context [mCore (with_field ?f ?v ?p)] => change (mCore (with_field f v p)) with (mCore p)
      | |- context [limits_of (notify ?l ?e ?c)] => rewrite (limits_notify l e c)
      | |- context [limits_of (set_slot ?s ?f ?c)] => rewrite (limits_set_slot s f c)
      | |- context [limits_of (if ?b then _ else _)] => destruct b
      end
    | progress autorewrite with limits ]; try done.

Lemma limits_clear s c : limits_of (clearBufferSlotLocked s c) = limits_of c.
Proof. unfold clearBufferSlotLocked. limits. Qed.
#[export] Hint Rewrite limits_clear : limits.
Lemma limits_free_slot s c : limits_of (free_slot s c) = limits_of c.
Proof. unfold free_slot. limits. Qed.
#[export] Hint Rewrite limits_free_slot : limits.
Lemma limits_clear_slots l c : limits_of (clear_slots l c) = limits_of c.
Proof. unfold clear_slots. revert c. induction l as [|s l IH]; intros c; [done|]. simpl. rewrite IH. limits. Qed.
Lemma limits_free_slots l c : limits_of (free_slots l c) = limits_of c.
Proof. unfold free_slots. revert c. induction l as [|s l IH]; intros c; [done|]. simpl. rewrite IH. limits. Qed.
#[export] Hint Rewrite limits_clear_slots limits_free_slots : limits.
Lemma limits_free_all c : limits_of (freeAllBuffersLocked c) = limits_of c.
Proof. unfold freeAllBuffersLocked. limits. Qed.
Lemma limits_discard c : limits_of (discardFreeBuffersLocked c) = limits_of c.
Proof. unfold discardFreeBuffersLocked. destruct (mConnectedProducerListener c); limits. Qed.
Lemma limits_free_queued s c : limits_of (free_queued_slot s c).2 = limits_of c.
Proof. unfold free_queued_slot. destruct (negb (BufferState.isShared _)); cbn [snd]; limits. Qed.
#[export] Hint Rewrite limits_free_all limits_discard limits_free_queued : limits.

(** the core in an outcome *)
Definition same_limits {A} (p : t) (o : outcome t A) : Prop :=
  match o with Returns _ p' | Waits p' => limits_of (mCore p') = limits_of (mCore p) | Crashes => True end.

Lemma limits_get_free_buffer c : limits_of (getFreeBufferLocked c).2 = limits_of c.
Proof. unfold getFreeBufferLocked. by destruct (mFreeBuffers c). Qed.
Lemma limits_get_free_slot c : limits_of (getFreeSlotLocked c).2 = limits_of c.
Proof. unfold getFreeSlotLocked. by destruct (mFreeSlots c). Qed.

Lemma limits_wait p caller : same_limits p (waitForFreeSlotThenRelock p caller).
Proof.
  unfold waitForFreeSlotThenRelock. destruct (mIsAbandoned _); [done|]. cbv zeta. destruct (_ && _); [done|].
  match goal with |- same_limits p (let '(found, c) := ?x in _) => assert (H : limits_of x.2 = limits_of (mCore p)); [|destruct x as [found c]] end.
  { destruct (_ <? _); [done|]. destruct (_ && negb _); [done|]. pose proof (limits_get_free_buffer (mCore p)) as Hb.
    pose proof (limits_get_free_slot (mCore p)) as Hs. destruct caller.
    - destruct (getFreeBufferLocked (mCore p)) as [x c']. destruct (negb _); [done|]. destruct (mAllowAllocation c'); [|done].
      cbn in *. rewrite <- Hb. apply limits_get_free_slot.
    - destruct (getFreeSlotLocked (mCore p)) as [x c']. destruct (negb _); [done|]. cbn in *. rewrite <- Hs. apply limits_get_free_buffer. }
  cbn in H. destruct (_ || _); [|exact H]. destruct (_ && _); exact H.
Qed.

Lemma limits_find fuel p r : same_limits p (dequeueBuffer_find fuel p r).
Proof.
  revert p. induction fuel as [|fuel IH]; intros p; [done|]. simpl.
  pose proof (limits_wait p Dequeue) as Hw. destruct (waitForFreeSlotThenRelock p Dequeue) as [[st found] p1|p1|]; [|done|done].
  cbn in Hw. destruct (negb _); [done|]. destruct (found =? _); [done|]. destruct (negb _); [|done].
  destruct (BufferSlot.mGraphicBuffer _); [|done]. destruct (needs_reallocation _ _); [|done]. destruct (_ =? found); [done|].
  pose proof (IH (p1 <| mCore := free_slot found (mCore p1) |>)) as H. unfold same_limits in *.
  destruct (dequeueBuffer_find _ _ _); [| |done]; rewrite H; limits.
Qed.

Lemma limits_take p r found : same_limits p (dequeueBuffer_take p r found).
Proof.
  unfold dequeueBuffer_take. destruct (_ && bool_decide _); [done|]. cbv zeta. destruct (_ && _); [done|]. cbn [same_limits].
  limits; repeat case_match; limits.
Qed.

Lemma limits_slot p r : same_limits p (dequeueBuffer_slot p r).
Proof.
  unfold dequeueBuffer_slot. pose proof (limits_find (S (length (mFreeBuffers (mCore p)))) p r) as H.
  destruct (dequeueBuffer_find _ p r) as [[st found] p1|p1|]; [|done|done]. cbn in H. destruct (negb _); [done|].
  pose proof (limits_take p1 r found) as Ht. unfold same_limits in *. destruct (dequeueBuffer_take p1 r found); congruence.
Qed.

Lemma limits_attach p b : same_limits p (attachBuffer_slot p b).
Proof.
  unfold attachBuffer_slot. pose proof (limits_wait p Attach) as Hw.
  destruct (waitForFreeSlotThenRelock p Attach) as [[st found] p1|p1|]; [|done|done]. cbn in Hw.
  destruct (negb _); [done|]. destruct (found =? _); [done|]. cbn [same_limits]. rewrite <- Hw. limits.
Qed.

Lemma limits_enqueue item c i r b c' : queueBuffer_enqueue item c = Some (i, r, b, c') -> limits_of c' = limits_of c.
Proof.
  unfold queueBuffer_enqueue. destruct (last (mQueue c)) as [li|]; [|by intros [= <- <- <- <-]].
  destruct (BufferItem.mIsDroppable li); [|by intros [= <- <- <- <-]]. pose proof (limits_free_queued (BufferItem.mSlot li) c) as Hf.
  destruct (negb _); [destruct (free_queued_slot _ c) as [x c1]|]; destruct (merge_damage _ _); try done; by intros [= <- <- <- <-].
Qed.

Lemma limits_queue p slot input output now : same_limits p (queueBuffer_locked p slot input output now).
Proof.
  unfold queueBuffer_locked. destruct (bool_decide _); [done|]. destruct (negb (valid_scaling_mode _)); [done|]. cbv zeta.
  destruct (mIsAbandoned _); [done|]. destruct (_ =? NO_CONNECTED_API); [done|]. destruct (_ || _); [done|]. destruct (negb _); [done|].
  destruct (negb _); [done|]. set (c0 := if _ && _ then set_slot _ _ _ else _).
  assert (H0 : limits_of c0 = limits_of (mCore p)) by (unfold c0; limits). clearbody c0.
  destruct (BufferSlot.mGraphicBuffer _) as [gb|]; [|done]. destruct (negb _); [exact H0|].
  match goal with |- context [queueBuffer_enqueue ?i ?c] =>
    assert (Hc : limits_of c = limits_of (mCore p)) by (rewrite <- H0; limits);
    destruct (queueBuffer_enqueue i c) as [[[[j r] b] c1]|] eqn:E; [|exact I]; apply limits_enqueue in E; rewrite Hc in E end.
  exact E.
Qed.

Lemma limits_disconnect p api : same_limits p (disconnect_locked p api).
Proof.
  unfold disconnect_locked. destruct (mIsAllocating _); [done|]. destruct (mIsAbandoned _); [done|]. cbv zeta.
  destruct (_ && _); [done|]. destruct (is_api _); [|done]. unfold disconnect_api. destruct (_ =? _).
  - cbn [same_limits]. limits.
  - by destruct (_ =? NO_CONNECTED_API).
Qed.

Lemma limits_drop_late q : forall c expected maxFrame n l,
  limits_of (BufferQueueConsumer.d_core (BufferQueueConsumer.drop_late c q expected maxFrame n l)) = limits_of c.
Proof.
  induction q as [|front q IH]; intros c expected maxFrame n l; [done|]. simpl. destruct q as [|second q]; [done|].
  destruct (BufferItem.mIsAutoTimestamp front); [done|]. destruct (_ && _); [done|]. destruct (_ || _); [done|].
  destruct (negb _); [|apply IH]. rewrite IH. apply limits_free_queued.
Qed.

Lemma limits_acquire_item c item now : limits_of (BufferQueueConsumer.acquire_item c item now).2 = limits_of c.
Proof. unfold BufferQueueConsumer.acquire_item. cbn [snd]. limits. Qed.

Definition same_core_limits {A} (c : BufferQueueCore.t) (o : outcome BufferQueueCore.t A) : Prop :=
  match o with Returns _ c' | Waits c' => limits_of c' = limits_of c | Crashes => True end.

Lemma limits_acquire_shared c out now : same_core_limits c (BufferQueueConsumer.acquireBuffer_shared c out now).
Proof.
  unfold BufferQueueConsumer.acquireBuffer_shared. destruct (mIsAllocating c); [done|]. cbv zeta. destruct (_ || _); [done|].
  pose proof (limits_acquire_item c (BufferQueueConsumer.shared_item c (mSharedBufferSlot c) out) now) as H.
  by destruct (BufferQueueConsumer.acquire_item _ _ _).
Qed.

Lemma limits_notify_released n l c : limits_of (BufferQueueConsumer.notify_released n l c) = limits_of c.
Proof. revert c. induction n as [|n IH]; intros c; [done|]. simpl. rewrite IH. limits. Qed.

Lemma limits_acquire c out expected maxFrame now : same_core_limits c (BufferQueueConsumer.acquireBuffer c out expected maxFrame now).
Proof.
  unfold BufferQueueConsumer.acquireBuffer. cbv zeta. destruct (_ <=? _); [done|]. destruct (mQueue c) as [|i q] eqn:Eq.
  - destruct (negb _); [done|]. apply limits_acquire_shared.
  - match goal with |- context [if negb (expected =? 0) then ?x else ?y] => set (d := if negb (expected =? 0) then x else y) end.
    assert (Hd : limits_of (BufferQueueConsumer.d_core d) = limits_of c) by (unfold d; destruct (negb _); [apply limits_drop_late|done]).
    clearbody d. destruct (BufferQueueConsumer.d_queue d) as [|front rest]; [done|]. destruct (_ && _); [exact Hd|].
    pose proof (limits_acquire_item ((BufferQueueConsumer.d_core d) <| mQueue := front :: rest |>) front now) as H.
    destruct (BufferQueueConsumer.acquire_item _ _ _) as [item c']. cbn in *. rewrite limits_notify_released, H. exact Hd.
Qed.

(** ** Operations that change a limit *)

(** [adjustAvailableSlotsLocked] by the change of the number of buffers *)
Lemma counted_adjust l delta c c' c'' : slots_counted c -> adjusted l delta c c' ->
  mUnusedSlots c'' = mUnusedSlots c' -> getMaxBufferCountLocked c'' = getMaxBufferCountLocked c + delta ->
  1 <= mMaxAcquiredBufferCount c'' <= MAX_MAX_ACQUIRED_BUFFERS -> slots_counted c''.
Proof. intros [Hu Ha] [_ _ Hadj] Heq Hmax Hacq. constructor; [|done]. rewrite Heq, Hadj, Hmax. lia. Qed.

Lemma config_limits c c' : config_of c' = config_of c ->
  mMaxBufferCount c' = mMaxBufferCount c /\ mMaxAcquiredBufferCount c' = mMaxAcquiredBufferCount c /\
  mMaxDequeuedBufferCount c' = mMaxDequeuedBufferCount c /\ mAsyncMode c' = mAsyncMode c /\
  mDequeueBufferCannotBlock c' = mDequeueBufferCannotBlock c.
Proof. unfold config_of. intros [=]. auto. Qed.

(** Runs [adjustAvailableSlotsLocked] in the goal. *)
Ltac adjust_count Hinv Hset Hcount :=
  match goal with |- context [adjustAvailableSlotsLocked ?delta ?c] =>
    destruct (adjust_cases _ delta c Hinv Hset) as [->|(c' & -> & Hadj)];
      [exact Hcount|destruct (config_limits _ _ (adjusted_config _ _ _ _ Hadj)) as (L1 & L2 & L3 & L4 & L5)] end.
Ltac count_from Hcount Hadj :=
  eapply (counted_adjust _ _ _ _ _ Hcount Hadj); [done|unfold unclipped, getMaxBufferCountLocked, getMaxBufferCountLocked_for in *; cbn in *|cbn].

Definition outcome_counted {A} (o : outcome t A) : Prop :=
  match o with Returns _ p | Waits p => slots_counted (mCore p) | Crashes => True end.

Lemma setMaxDequeued_counted l p n : invariant l (mCore p) -> settled l (mCore p) -> slots_counted (mCore p) -> unclipped (mCore p) ->
  in_int32 n -> outcome_counted (setMaxDequeuedBufferCount p n).
Proof.
  intros Hinv Hset Hcount Hclip Hn. unfold setMaxDequeuedBufferCount. cbv zeta.
  destruct (mIsAllocating _); [exact Hcount|]. destruct (mIsAbandoned _); [exact Hcount|]. destruct (_ =? _); [exact Hcount|].
  destruct (n <? _); [exact Hcount|]. destruct (NUM_BUFFER_SLOTS <? _) eqn:E1; [exact Hcount|].
  destruct (_ <? getMinMaxBufferCountLocked _) eqn:E2; [exact Hcount|]. destruct (mMaxBufferCount _ <? _) eqn:E3; [exact Hcount|]. bool_to_prop. adjust_count Hinv Hset Hcount. cbn [negb outcome_counted].
  change (mCore (with_field mCore ?x _)) with x. eapply slots_counted_ext; [apply limits_notify|].
  destruct (counted_acquired _ Hcount) as [A1 A2]. unfold MAX_MAX_ACQUIRED_BUFFERS, NUM_BUFFER_SLOTS in *.
  unfold getMinMaxBufferCountLocked, getMinUndequeuedBufferCountLocked in *. count_from Hcount Hadj; rewrite ?L1, ?L2, ?L3, ?L4, ?L5; [|apply Hcount].
  apply int32_id in Hn. revert E1 E2 E3 Hclip. unfold int32 in *. destruct (_ || _); intros; Z.to_euclidean_division_equations; lia.
Qed.

Lemma setAsync_counted l p b : invariant l (mCore p) -> settled l (mCore p) -> slots_counted (mCore p) ->
  outcome_counted (setAsyncMode p b).
Proof.
  intros Hinv Hset Hcount. unfold setAsyncMode. cbv zeta.
  destruct (mIsAllocating _); [exact Hcount|]. destruct (mIsAbandoned _); [exact Hcount|]. destruct (eqb _ _); [exact Hcount|].
  destruct (mMaxBufferCount _ <? _); [exact Hcount|]. adjust_count Hinv Hset Hcount. cbn [negb outcome_counted].
  change (mCore (with_field mCore ?x _)) with x. eapply slots_counted_ext; [apply limits_notify|].
  count_from Hcount Hadj; rewrite ?L1, ?L2, ?L3, ?L4, ?L5; [lia|apply Hcount].
Qed.

Lemma setMaxAcquired_counted l c n : invariant l c -> settled l c -> slots_counted c -> unclipped c ->
  match BufferQueueConsumer.setMaxAcquiredBufferCount c n with Returns _ c' | Waits c' => slots_counted c' | Crashes => True end.
Proof.
  intros Hinv Hset Hcount Hclip. unfold BufferQueueConsumer.setMaxAcquiredBufferCount. cbv zeta.
  destruct (_ || (MAX_MAX_ACQUIRED_BUFFERS <? n)) eqn:Er; [exact Hcount|]. destruct (mIsAllocating _); [exact Hcount|].
  destruct (mIsAbandoned _); [exact Hcount|]. destruct (_ =? _); [exact Hcount|]. destruct (n <? count_active _ _); [exact Hcount|].
  destruct (mMaxBufferCount c <? _) eqn:E; [exact Hcount|]. bool_to_prop. adjust_count Hinv Hset Hcount. cbn [negb].
  eapply slots_counted_ext; [apply limits_notify|]. count_from Hcount Hadj; rewrite ?L1, ?L2, ?L3, ?L4, ?L5; [|lia].
  destruct (mAsyncMode c || _); lia.
Qed.

Lemma setMaxBufferCount_counted l c n : invariant l c -> settled l c -> slots_counted c ->
  slots_counted (BufferQueueConsumer.setMaxBufferCount c n).2.
Proof.
  intros Hinv Hset Hcount. unfold BufferQueueConsumer.setMaxBufferCount. cbv zeta. destruct (_ || _); [exact Hcount|].
  destruct (negb _); [exact Hcount|]. destruct (n <? _); [exact Hcount|]. adjust_count Hinv Hset Hcount. cbn [negb snd].
  count_from Hcount Hadj; rewrite ?L1, ?L2, ?L3, ?L4, ?L5; [lia|apply Hcount].
Qed.

Lemma setDequeueTimeout_counted l p n : invariant l (mCore p) -> settled l (mCore p) -> slots_counted (mCore p) ->
  slots_counted (mCore (setDequeueTimeout p n).2).
Proof.
  intros Hinv Hset Hcount. unfold setDequeueTimeout. cbv zeta. adjust_count Hinv Hset Hcount. cbn [negb snd].
  change (mCore (with_field mCore ?x _)) with x.
  assert (Hx : slots_counted (c' <| mDequeueBufferCannotBlock := if 0 <=? n then false else mDequeueBufferCannotBlock (mCore p) |>)).
  { count_from Hcount Hadj; rewrite ?L1, ?L2, ?L3, ?L4, ?L5; [lia|apply Hcount]. }
  destruct (0 <? n); [|exact Hx]. eapply slots_counted_ext; [|exact Hx]. done.
Qed.

Lemma connect_counted l p li api b out pid : invariant l (mCore p) -> slots_counted (mCore p) ->
  slots_counted (mCore (connect p li api b out pid).2).
Proof.
  intros Hinv Hcount. unfold connect. cbv zeta. change (mCore (with_field BufferQueueProducer.mConsumerName _ p)) with (mCore p).
  change (mDequeueTimeout (with_field BufferQueueProducer.mConsumerName _ p)) with (mDequeueTimeout p).
  destruct (mIsAbandoned (mCore p)) eqn:Ea; [exact Hcount|].
  destruct (bool_decide (mConsumerListener _ = _)); [exact Hcount|]. destruct (bool_decide (is_Some out)); [|exact Hcount].
  destruct (negb _); [exact Hcount|]. assert (Hset : settled l (mCore p)) by (by left). adjust_count Hinv Hset Hcount. cbn [negb].
  match goal with |- context [if is_api api then ?a else ?b] => set (x := if is_api api then a else b) end.
  assert (Hx : limits_of x.2 = limits_of c' /\ mConsumerControlledByApp x.2 = mConsumerControlledByApp (mCore p)).
  { unfold x. clear x. assert (mConsumerControlledByApp c' = mConsumerControlledByApp (mCore p)) as <- by (pose proof (adjusted_config _ _ _ _ Hadj) as Hc; unfold config_of in Hc; congruence).
    destruct (is_api api); [|done]. destruct li as [li|]; [|done]. by destruct (is_remote li). }
  destruct x as [[st o] c2]. destruct Hx as [Hx Hby].
  cbn [snd] in *. change (mCore (with_field mCore ?x _)) with x. cbn [mConsumerControlledByApp with_field].
  unfold limits_of in Hx. injection Hx as G1 G2 G3 G4 G5 G6.
  set (c3 := if _ && _ then _ else _).
  assert (Hc3 : mUnusedSlots c3 = mUnusedSlots c' /\ mMaxBufferCount c3 = mMaxBufferCount c' /\ mMaxAcquiredBufferCount c3 = mMaxAcquiredBufferCount c' /\
    mMaxDequeuedBufferCount c3 = mMaxDequeuedBufferCount c' /\ mAsyncMode c3 = mAsyncMode c' /\
    mDequeueBufferCannotBlock c3 = if mDequeueTimeout p <? 0 then mConsumerControlledByApp (mCore p) && b else false).
  { unfold c3. cbn. rewrite Hby. destruct (mConsumerControlledByApp (mCore p) && b); cbn; split_and!; try done; by destruct (_ <? 0). }
  clearbody c3. destruct Hc3 as (H1 & H2 & H3 & H4 & H5 & H6).
  eapply (counted_adjust _ _ _ _ _ Hcount Hadj); [exact H1| |cbn; rewrite H3, L2; apply Hcount].
  unfold getMaxBufferCountLocked, getMaxBufferCountLocked_for. cbn. rewrite H2, H3, H4, H5, H6, L1, L2, L3, L4. lia.
Qed.

(** ** Every step *)

Definition next_counted (r : option (next * t)) : Prop := match r with Some (_, p) => slots_counted (mCore p) | None => True end.

Lemma next_outcome {A} (o : outcome t A) f w : outcome_counted o -> next_counted (of_outcome o f w).
Proof. by destruct o. Qed.
Lemma next_lift {A} p (o : outcome BufferQueueCore.t A) f w :
  match o with Returns _ c | Waits c => slots_counted c | Crashes => True end -> next_counted (of_outcome (lift_core p o) f w).
Proof. by destruct o. Qed.
Lemma counted_same {A} p (o : outcome t A) : slots_counted (mCore p) -> same_limits p o -> outcome_counted o.
Proof. intros Hc. destruct o; cbn; intros; try done; by eapply slots_counted_ext. Qed.
Lemma counted_same_core {A} c (o : outcome BufferQueueCore.t A) : slots_counted c -> same_core_limits c o ->
  match o with Returns _ c | Waits c => slots_counted c | Crashes => True end.
Proof. intros Hc. destruct o; cbn; intros; try done; by eapply slots_counted_ext. Qed.

Lemma counted_after_slot p r r' ts : slots_counted (mCore p) -> next_counted (after_slot (dequeueBuffer_slot p r) r' ts).
Proof.
  intros Hc. pose proof (counted_same _ _ Hc (limits_slot p r)) as H. by destruct (dequeueBuffer_slot p r) as [[st|d] p'|p'|].
Qed.
Lemma counted_attach p b : slots_counted (mCore p) -> next_counted (attach_wait p b) /\ next_counted (attach_slot p b).
Proof.
  intros Hc. assert (next_counted (attach_slot p b)) as H by (apply next_outcome; by eapply counted_same, limits_attach).
  split; [|done]. unfold attach_wait. by destruct (mIsAllocating _).
Qed.
Lemma counted_detach_next p w : slots_counted (mCore p) -> next_counted (of_outcome (detachNextBuffer_take p) (fun a => Done (Detached a.1 a.2)) w).
Proof.
  intros Hc. apply next_outcome. eapply counted_same; [done|]. unfold detachNextBuffer_take. destruct (mIsAllocating _); [done|].
  destruct (mFreeBuffers _); [done|]. cbn [same_limits]. limits.
Qed.
Lemma counted_disconnect p api f w : slots_counted (mCore p) -> next_counted (of_outcome (disconnect_locked p api) f w).
Proof. intros Hc. apply next_outcome. eapply counted_same, limits_disconnect. done. Qed.
Lemma counted_allocate p r : slots_counted (mCore p) -> next_counted (allocate_begin p r).
Proof.
  intros Hc. apply next_outcome. eapply counted_same; [done|]. unfold allocateBuffers_begin. destruct (mIsAllocating _); [done|].
  destruct (negb _); [done|]. by destruct (bool_decide _).
Qed.

(** The waiting setters find no allocation running when they change a limit. *)
Lemma counted_set_max_dequeued l p n f w : invariant l (mCore p) -> slots_counted (mCore p) -> unclipped (mCore p) /\ in_int32 n ->
  next_counted (of_outcome (setMaxDequeuedBufferCount p n) f w).
Proof.
  intros Hinv Hc [Hu Hn]. apply next_outcome. destruct (mIsAllocating (mCore p)) eqn:Ea.
  - unfold setMaxDequeuedBufferCount. rewrite Ea. exact Hc.
  - pose proof (not_allocating_nil _ _ Hinv Ea) as ->. apply (setMaxDequeued_counted []); auto using settled_nil.
Qed.
Lemma counted_set_async l p b f w : invariant l (mCore p) -> slots_counted (mCore p) -> next_counted (of_outcome (setAsyncMode p b) f w).
Proof.
  intros Hinv Hc. apply next_outcome. destruct (mIsAllocating (mCore p)) eqn:Ea.
  - unfold setAsyncMode. rewrite Ea. exact Hc.
  - pose proof (not_allocating_nil _ _ Hinv Ea) as ->. apply (setAsync_counted []); auto using settled_nil.
Qed.
Lemma counted_set_max_acquired l p n f w : invariant l (mCore p) -> slots_counted (mCore p) -> unclipped (mCore p) ->
  next_counted (of_outcome (lift_core p (BufferQueueConsumer.setMaxAcquiredBufferCount (mCore p) n)) f w).
Proof.
  intros Hinv Hc Hu. apply next_lift. destruct (mIsAllocating (mCore p)) eqn:Ea.
  - unfold BufferQueueConsumer.setMaxAcquiredBufferCount. rewrite Ea. by destruct (_ || _).
  - pose proof (not_allocating_nil _ _ Hinv Ea) as ->. apply (setMaxAcquired_counted []); auto using settled_nil.
Qed.
Create HintDb counted.
#[export] Hint Resolve counted_after_slot counted_detach_next counted_disconnect counted_allocate counted_set_max_dequeued
  counted_set_async counted_set_max_acquired : counted.

(** An operation that returns and leaves the limits alone. *)
Ltac same_count Hc := eapply slots_counted_ext; [|exact Hc].

Lemma start_counted l p k e : invariant l (mCore p) -> legal_call l (mCore p) k -> slots_counted (mCore p) -> next_counted (start p k e).
Proof.
  intros Hinv Hlegal Hc. destruct k; simpl in Hlegal; simpl start; eauto with counted; try (cbn; same_count Hc; done).
  - destruct (requestBuffer p slot) as [[st b] p'] eqn:E. same_count Hc. unfold requestBuffer in E. repeat (case_match; simplify_eq; try done). limits.
  - destruct (dequeueBuffer_check _ _ _) as [st p'] eqn:E. same_count Hc. unfold dequeueBuffer_check in E. repeat (case_match; simplify_eq; try done).
  - same_count Hc. unfold detachBuffer. cbv zeta. repeat (case_match; try done); cbn [snd]; limits.
  - destruct (_ =? _); [auto with counted|exact Hc].
  - destruct buffer; [|exact Hc]. destruct (_ =? _); [|exact Hc]. by apply counted_attach.
  - pose proof (counted_same _ _ Hc (limits_queue p slot input output (now e))) as H.
    destruct (queueBuffer_locked _ _ _ _ _) as [[st|[f o]] p'|p'|]; done.
  - same_count Hc. unfold cancelBuffer. cbv zeta. repeat (case_match; try done); cbn [snd]; limits.
  - pose proof (connect_counted l p listener api producerControlledByApp output pid Hinv Hc) as H.
    by destruct (connect _ _ _ _ _ _) as [[st o] p'].
  - destruct mode; cbn; [auto with counted|]. destruct (negb _); [exact Hc|auto with counted].
  - same_count Hc. unfold setSidebandStream. cbn [snd]. limits.
  - same_count Hc. unfold setSharedBufferMode. cbn [snd]. limits.
  - by apply (setDequeueTimeout_counted l).
  - same_count Hc. unfold getFrameTimestamps, on_core, addAndGetFrameTimestamps. limits.
  - apply next_lift. eapply counted_same_core, limits_acquire. done.
  - same_count Hc. cbn. unfold BufferQueueConsumer.detachBuffer. repeat (case_match; try done); cbn [snd]; limits.
  - destruct (BufferQueueConsumer.attachBuffer _ _ _) as [[st x] c'] eqn:E. cbn. same_count Hc.
    unfold BufferQueueConsumer.attachBuffer, BufferQueueConsumer.attachBuffer_find in E. repeat (case_match; simplify_eq; try done); limits.
  - same_count Hc. cbn. unfold BufferQueueConsumer.releaseBuffer. cbv zeta. repeat (case_match; try done); cbn [snd]; limits.
  - same_count Hc. cbn. unfold BufferQueueConsumer.connect. by repeat case_match.
  - same_count Hc. cbn. unfold BufferQueueConsumer.disconnect. case_match; [|done]. cbn [snd]. limits.
  - same_count Hc. cbn. unfold BufferQueueConsumer.setDefaultBufferSize. by case_match.
  - cbn. by apply (setMaxBufferCount_counted l).
  - same_count Hc. cbn. limits.
Qed.

Lemma resume_counted l p th e : invariant l (mCore p) -> legal_resume l (mCore p) th e -> slots_counted (mCore p) -> next_counted (resume p th e).
Proof.
  intros Hinv Hlegal Hc. destruct th; simpl in Hlegal; simpl resume; eauto with counted; try (cbn; same_count Hc; done).
  - destruct (dequeueBuffer_must_wait p); [exact Hc|]. by apply counted_after_slot.
  - destruct (mIsAllocating (mCore p)); [exact Hc|]. apply counted_after_slot. same_count Hc. done.
  - destruct (_ && _); [exact Hc|]. by apply counted_after_slot.
  - destruct (dequeueBuffer_allocated _ _ _ _) as [st p'] eqn:E. same_count Hc. unfold dequeueBuffer_allocated in E. revert E. cbv zeta.
    repeat (case_match; try discriminate); intros [= _ <-]; limits.
  - same_count Hc. unfold dequeueBuffer_return, addAndGetFrameTimestamps. cbn [snd]. limits.
  - by apply counted_attach.
  - destruct (_ && _); [exact Hc|]. by apply counted_attach.
  - same_count Hc. unfold queueBuffer_timestamps, on_core, addAndGetFrameTimestamps. limits.
  - apply next_outcome. eapply counted_same; [done|]. unfold queueBuffer_callback. destruct (negb _); [done|]. cbv zeta. cbn [same_limits].
    destruct (frameAvailableListener f); limits.
  - destruct (_ =? _); [|same_count Hc; done]. destruct (allocateBuffers_finish _ _ _ _) as [b p'] eqn:E. same_count Hc.
    unfold allocateBuffers_finish in E. revert E. cbv zeta. destruct (negb _); [by intros [= _ <-]|]. destruct (mFreeSlots _); intros [= _ <-]; limits.
  - apply next_lift. eapply counted_same_core, limits_acquire_shared. done.
Qed.

Lemma reachable_counted s : reachable s -> slots_counted (core s).
Proof.
  induction 1 as [name pid id sf|s a e s' Hs IH Hlegal Hstep Hone]; [constructor; vm_compute; done|].
  destruct (reachable_invariant s Hs) as [Hinv _]. destruct a as [k|i]; simpl in *.
  - pose proof (start_counted _ _ k e Hinv Hlegal IH) as H. destruct (start _ _ _) as [[n p]|]; [|done]. by simplify_eq.
  - destruct (threads s !! i) as [th|]; [|done]. pose proof (resume_counted _ _ th e Hinv Hlegal IH) as H.
    destruct (resume _ _ _) as [[n p]|]; [|done]. by simplify_eq.
Qed.
