(* ===== verification/BufferQueueTheorems.v ===== *)
(** * What the buffer queue guarantees

    It begins with short histories of a buffer queue, which show that the hypotheses of the
    theorems can be met and exhibit the situations of BufferQueueFindings.v. *)

From S2P Require Import Prelude Geometry RegionHelper Region BufferSlot OccupancyTracker BufferQueueCore.
From S2P Require Import BufferQueueProducer BufferQueueConsumer BufferQueueInvariant BufferQueueCoreSafety.
From S2P Require Import BufferQueueProducerSafety BufferQueueQueueSafety BufferQueueConsumerSafety.
From S2P Require Import BufferQueueSystem BufferQueueSystemSafety BufferQueueSlotCount.
Import BufferQueueCore BufferQueueProducer.

(** ** Scenarios *)

Definition pixel_buffer (id : Z) : GraphicBuffer.t := GraphicBuffer.mk id 1 1 PIXEL_FORMAT_RGBA_8888 BQ_LAYER_COUNT 0 0.
Definition default_env : env := mkEnv 0 NO_ERROR (pixel_buffer 1) false.
Definition no_request : BufferRequest := mkRequest 0 0 0 0.
Definition no_output : QueueBufferOutput := mkOutput 0 0 0 0 0 false 0.
(** a frame to be shown at [time] *)
Definition frame_at (time : Z) : QueueBufferInput :=
  mkInput time false HAL_DATASPACE_UNKNOWN (Rect.mk 0 0 1 1) NATIVE_WINDOW_SCALING_MODE_FREEZE 0 0 (Some NO_FENCE)
    (Region.of_rect (Rect.mk 0 0 1 1)) false 0.

Definition call (k : BufferQueueSystem.call) : action * env := (Start k, default_env).
(** thread 0 runs on *)
Definition continue : action * env := (Resume 0, default_env).

Definition connected : list (action * env) :=
  [call (Consumer_connect (Some 7) false); call (Call_connect None NATIVE_WINDOW_API_CPU false (Some no_output) 100)].
(** the end of [dequeueBuffer] comes after the search, the allocation and the return *)
Definition dequeued_new : list (action * env) := [call (Call_dequeueBuffer no_request false); continue; continue; continue].
Definition queued (slot time : Z) : list (action * env) :=
  [call (Call_requestBuffer slot); call (Call_queueBuffer slot (frame_at time) no_output); continue; continue].
Definition acquired : list (action * env) := [call (Consumer_acquireBuffer BufferItem.new 0 0)].
Definition released (slot frame : Z) : list (action * env) := [call (Consumer_releaseBuffer slot frame (Some NO_FENCE) 0 0)].

Definition empty_queue : system := initial "queue" 0 1 false.
(** One frame goes round, a second one is on its way. *)
Definition one_frame : list (action * env) :=
  connected ++ dequeued_new ++ queued 0 10 ++ acquired ++ released 0 1 ++ [call (Call_dequeueBuffer no_request false); continue].

Example one_frame_runs :
  match run empty_queue one_frame with
  | Some s => (mFreeSlots (core s), mFreeBuffers (core s), mActiveBuffers (core s), length (threads s)) = ([1], [], [0], 1%nat)
  | None => False
  end.
Proof. vm_compute. reflexivity. Qed.

(** The state a history leads to, if its steps are legal. *)
Definition after (l : list (action * env)) : system := default empty_queue (run empty_queue l).

Lemma run_from_empty l : (if run empty_queue l then true else false) = true -> reachable (after l).
Proof. unfold after. destruct (run empty_queue l) as [s|] eqn:Hs; [intros _|done]. simpl. eapply run_reachable; [|exact Hs]. constructor. Qed.

Lemma run_invariant l : (if run empty_queue l then true else false) = true -> pending (after l) = [] -> invariant [] (mCore (producer (after l))).
Proof. intros Hr Hp. rewrite <- Hp. fold (core (after l)). apply reachable_invariant, run_from_empty, Hr. Qed.

(** ** The consistency check of debug builds *)

Lemma in_use_not_free st : in_use st -> BufferState.isFree st && negb (BufferState.isShared st) = false.
Proof. intros [->|[->|[->|[Hsh _]]]]; [done..|]. unfold BufferState.isShared. rewrite Hsh. apply andb_false_r. Qed.

Lemma count_elem s l : StdSet.count s l = bool_decide (s ∈ l).
Proof. done. Qed.

Lemma placed_valid l c s : invariant l c -> valid_slot s -> validate_slot c s = true.
Proof.
  intros Hinv Hv. pose proof (pools_placed _ _ (inv_pools _ _ Hinv) s Hv) as Hp. unfold validate_slot. rewrite !count_elem.
  destruct Hp as [(H1 & H2 & H3 & H4 & He & Hb)|[(H1 & H2 & H3 & H4 & He & Hb)|[(H1 & H2 & H3 & H4 & He & Hb)|(H1 & H2 & H3 & H4 & Hu & Hb)]]];
    repeat first [rewrite (bool_decide_eq_true_2 (s ∈ _)) by done|rewrite (bool_decide_eq_false_2 (s ∈ _)) by done]; cbn zeta.
  - rewrite He, Hb. done.
  - rewrite He, Hb. done.
  - rewrite He. rewrite bool_decide_eq_true_2 by done. done.
  - rewrite in_use_not_free by done. destruct Hb as [Hb|Hp]; [by rewrite bool_decide_eq_true_2 by done|].
    rewrite (pending_flag _ _ (inv_pending _ _ Hinv)); [by rewrite andb_false_r|]. intros ->. set_solver.
Qed.

(** [l] takes [n] of the slots. *)
Lemma length_filter_out (l : list Z) f : NoDup l -> (forall s, s ∈ l -> valid_slot s) ->
  (forall s, valid_slot s -> f s = negb (bool_decide (s ∈ l))) ->
  (length (List.filter f (seqZ 0 NUM_BUFFER_SLOTS)) + length l = 64)%nat.
Proof.
  intros Hnd Hl Hf. assert (l ≡ₚ List.filter (fun s => bool_decide (s ∈ l)) (seqZ 0 NUM_BUFFER_SLOTS)) as Hp.
  { apply NoDup_Permutation; [done|apply NoDup_ListNoDup, List.NoDup_filter, NoDup_ListNoDup, NoDup_seqZ|].
    intros s. rewrite (list_elem_of_In (List.filter _ _)), List.filter_In, <- list_elem_of_In, elem_of_seqZ, bool_decide_eq_true.
    split; [|tauto]. intros Hs. specialize (Hl s Hs). unfold valid_slot, NUM_BUFFER_SLOTS in *. split; [lia|done]. }
  rewrite (Permutation_length Hp). assert (forall q, (forall s, s ∈ q -> valid_slot s) ->
    (length (List.filter f q) + length (List.filter (fun s => bool_decide (s ∈ l)) q) = length q)%nat) as Hsplit.
  { induction q as [|s q IH]; intros Hq; [done|]. simpl. rewrite (Hf s) by (apply Hq; left).
    specialize (IH ltac:(intros; apply Hq; by right)). destruct (bool_decide _); simpl; lia. }
  rewrite Hsplit; [by rewrite length_seqZ|]. intros s ?%elem_of_seqZ. unfold valid_slot. lia.
Qed.

Lemma allocated_count l c : invariant l c -> slots_counted c -> allocatedSlots c = getMaxBufferCountLocked c.
Proof.
  intros Hinv [Hu _]. unfold allocatedSlots. pose proof (inv_pools _ _ Hinv) as Hp.
  pose proof (length_filter_out (mUnusedSlots c) (fun slot => StdSet.count slot (mFreeSlots c) || bool_decide (slot ∈ mFreeBuffers c) ||
    StdSet.count slot (mActiveBuffers c)) (pools_unused _ _ Hp)) as H.
  unfold NUM_BUFFER_SLOTS in *. cut (forall n, (n + length (mUnusedSlots c) = 64)%nat -> Z.of_nat n = getMaxBufferCountLocked c); [|lia].
  intros Hcut. apply Hcut, H.
  - intros s Hs. apply (pools_range _ _ Hp). by left.
  - intros s Hv. pose proof (pools_placed _ _ Hp s Hv) as Hpl. rewrite !count_elem. unfold slot_placed in Hpl. cbn zeta in Hpl.
    destruct (decide (s ∈ mUnusedSlots c)) as [Hin|Hnin].
    + rewrite (bool_decide_eq_true_2 _ Hin). by rewrite !bool_decide_eq_false_2 by tauto.
    + rewrite (bool_decide_eq_false_2 _ Hnin). simpl. apply orb_true_iff. rewrite orb_true_iff, !bool_decide_eq_true. tauto.
Qed.

(** C1: However the calls of a producer and a consumer interleave, the consistency
    check that debug builds run on the slots finds no error: every slot is in exactly
    one pool, its contents agree with the pool, and as many slots are in use as the
    limits allow. [reachable] asks of the callers that they use slots they own, and
    leaves out failed and overlapping allocations, for which the claim fails. *)
Theorem consistency_maintained (s : system) : reachable s -> validateConsistencyLocked (core s) = true.
Proof.
  intros Hs. destruct (reachable_invariant s Hs) as [Hinv _]. unfold validateConsistencyLocked. apply andb_true_iff. split.
  - apply forallb_forall. intros x Hx. eapply placed_valid; [done|]. apply list_elem_of_In, elem_of_seqZ in Hx. unfold valid_slot. lia.
  - apply Z.eqb_eq. eapply allocated_count; [done|by apply reachable_counted].
Qed.

Lemma consistency_maintained_witness :
  reachable (after one_frame) /\ validateConsistencyLocked (core (after one_frame)) = true.
Proof.
  assert (reachable (after one_frame)) as H by (apply run_from_empty; vm_compute; reflexivity).
  split; [exact H|]. apply consistency_maintained, H.
Defined.

(** ** dequeueBuffer *)

(** the slot that a dequeue prefers: the oldest free buffer, else the lowest empty slot *)
Definition next_free (c : BufferQueueCore.t) : option Z := head (mFreeBuffers c ++ mFreeSlots c).

Definition take_next (s : Z) (c : BufferQueueCore.t) : BufferQueueCore.t :=
  match mFreeBuffers c with
  | _ :: rest => c <| mFreeBuffers := rest |>
  | [] => c <| mFreeSlots := StdSet.erase s (mFreeSlots c) |>
  end.

(** The situation in which a dequeue gets a slot at once. *)
Record can_dequeue (c : BufferQueueCore.t) : Prop := {
  can_live : mIsAbandoned c = false;
  can_unshared : mSharedBufferMode c = false;
  can_allocate : mAllowAllocation c = true;
  can_count : mBufferHasBeenQueued c = true -> count_active BufferState.isDequeued c < mMaxDequeuedBufferCount c;
  can_queue : Z.of_nat (length (mQueue c)) <= getMaxBufferCountLocked c <= INT32_MAX }.

Lemma can_dequeue_wait p : invariant [] (mCore p) -> can_dequeue (mCore p) ->
  waitForFreeSlotThenRelock p Dequeue =
  match next_free (mCore p) with
  | Some s => Returns (NO_ERROR, s) (p <| mCore := take_next s (mCore p) |>)
  | None =>
    if (mDequeueBufferCannotBlock (mCore p) || mAsyncMode (mCore p)) &&
       (count_active BufferState.isAcquired (mCore p) <=? mMaxAcquiredBufferCount (mCore p))
    then Returns (WOULD_BLOCK, INVALID_BUFFER_SLOT) p else Waits p
  end.
Proof.
  intros Hinv [C1 C2 C3 C4 C5]. unfold waitForFreeSlotThenRelock, next_free, take_next. cbv zeta. rewrite C1.
  assert (mBufferHasBeenQueued (mCore p) && (mMaxDequeuedBufferCount (mCore p) <=? count_active BufferState.isDequeued (mCore p)) = false) as ->.
  { destruct (mBufferHasBeenQueued _); [|done]. simpl. apply Z.leb_gt. auto. }
  assert (uint64 (getMaxBufferCountLocked (mCore p)) <? Z.of_nat (length (mQueue (mCore p))) = false) as ->.
  { apply Z.ltb_ge. rewrite uint64_id; [lia|]. unfold INT32_MAX in *. lia. }
  rewrite C2. cbn [andb]. unfold getFreeBufferLocked, getFreeSlotLocked.
  assert (Hne : forall s, s ∈ mFreeBuffers (mCore p) \/ s ∈ mFreeSlots (mCore p) -> (s =? INVALID_BUFFER_SLOT) = false).
  { intros s Hs. apply Z.eqb_neq, valid_not_invalid. apply (pools_range _ _ (inv_pools _ _ Hinv)). unfold in_some_pool. tauto. }
  destruct (mFreeBuffers (mCore p)) as [|s rest] eqn:Efb.
  - rewrite Z.eqb_refl. cbn [negb]. rewrite C3.
    destruct (mFreeSlots (mCore p)) as [|s rest] eqn:Efs; cbn.
    + rewrite with_core_id. done.
    + rewrite (Hne s) by (right; left). done.
  - rewrite (Hne s) by (left; left). cbn. rewrite (Hne s) by (left; left). done.
Qed.

(** whether the buffer in the slot cannot serve the request *)
Definition unfit (c : BufferQueueCore.t) (r : BufferRequest) (s : Z) : bool :=
  match BufferSlot.mGraphicBuffer (slot_at c s) with Some b => needs_reallocation b r | None => true end.

(** what a dequeue of [s] has done *)
Record dequeued_slot (c : BufferQueueCore.t) (r : BufferRequest) (s : Z) (d : DequeuedSlot) (c' : BufferQueueCore.t) : Prop := {
  dequeued_out : outSlot d = s;
  dequeued_fit : needsAllocation d = unfit c r s;
  dequeued_state : state_at c' s = DEQUEUED;
  dequeued_contents : BufferSlot.mGraphicBuffer (slot_at c' s) = if unfit c r s then None else BufferSlot.mGraphicBuffer (slot_at c s);
  dequeued_others : forall x, x <> s -> slot_at c' x = slot_at c x;
  dequeued_pools : mActiveBuffers c' = StdSet.insert s (mActiveBuffers c) /\ s ∉ mActiveBuffers c /\ s ∉ mFreeSlots c' ++ mFreeBuffers c';
  dequeued_queue : mQueue c' = mQueue c;
  dequeued_allocating : mIsAllocating c' = unfit c r s || mIsAllocating c }.

Lemma next_free_take c s : invariant [] c -> next_free c = Some s ->
  valid_slot s /\ s ∉ mActiveBuffers c /\ state_at c s = BufferState.new /\ s ∉ mFreeSlots (take_next s c) ++ mFreeBuffers (take_next s c) /\
  mSlots (take_next s c) = mSlots c /\ mActiveBuffers (take_next s c) = mActiveBuffers c /\ mQueue (take_next s c) = mQueue c /\
  mSharedBufferMode (take_next s c) = mSharedBufferMode c /\ mSharedBufferSlot (take_next s c) = mSharedBufferSlot c /\
  mIsAllocating (take_next s c) = mIsAllocating c /\ mAllowAllocation (take_next s c) = mAllowAllocation c.
Proof.
  intros Hinv Hs. pose proof (inv_pools _ _ Hinv) as Hp. unfold next_free, take_next in *. pose proof (pools_buffers _ _ Hp) as Hnd.
  destruct (mFreeBuffers c) as [|x rest] eqn:Efb; simpl in Hs.
  - assert (Hin : s ∈ mFreeSlots c) by (destruct (mFreeSlots c); simplify_eq/=; left).
    destruct (placed_free _ _ s Hp Hin) as (Hv & Hnu & Hnb & Hna & He & _). split_and!; try done.
    cbn -[StdSet.erase]. rewrite Efb, app_nil_r, StdSet.elem_of_erase. tauto.
  - injection Hs as ->. destruct (placed_buffer _ _ s Hp) as (Hv & Hnu & Hnf & Hna & He & _); [rewrite Efb; left|].
    apply NoDup_cons in Hnd as [Hnr _]. split_and!; try done. cbn. rewrite elem_of_app. tauto.
Qed.

(** C24: A dequeue in the usual state (not abandoned, not shared, allocation allowed,
    fewer buffers dequeued than the limit, a queue within its bound) takes the oldest
    free buffer or else the lowest empty slot: that slot was nobody's, becomes
    DEQUEUED and active, and no other slot changes; it is to be allocated exactly when
    its buffer is missing or does not fit. With no free slot the call waits, or
    returns WOULD_BLOCK when it must not wait, and nothing changes. *)
Theorem dequeue_takes_next_free (p : t) (r : BufferRequest) :
  invariant [] (mCore p) -> can_dequeue (mCore p) ->
  match next_free (mCore p) with
  | Some s => exists d p', dequeueBuffer_slot p r = Returns (inr d) p' /\ dequeued_slot (mCore p) r s d (mCore p')
  | None => dequeueBuffer_slot p r = Returns (inl WOULD_BLOCK) p \/ dequeueBuffer_slot p r = Waits p
  end.
Proof.
  intros Hinv Hcan. pose proof (can_dequeue_wait p Hinv Hcan) as Hw. unfold dequeueBuffer_slot. simpl dequeueBuffer_find.
  destruct (next_free (mCore p)) as [s|] eqn:Es; [|rewrite Hw; destruct (_ && _); auto].
  destruct (next_free_take _ _ Hinv Es) as (Hv & Hna & Hnew & Hnin & T1 & T2 & T3 & T4 & T5 & T6 & T7).
  set (c1 := take_next s (mCore p)) in *. rewrite Hw. simpl. rewrite (proj2 (Z.eqb_neq s _)) by (by apply valid_not_invalid).
  rewrite T7, (can_allocate _ Hcan). simpl. pose proof (dequeueBuffer_take_view (p <| mCore := c1 |>) r s Hv) as Hview.
  change (mCore (with_field mCore ?x p)) with x in Hview. cbv zeta in Hview.
  assert (Hns : mSharedBufferSlot (mCore p) = INVALID_BUFFER_SLOT) by (eapply no_shared_slot; [done|apply Hcan]).
  pose proof (pools_length _ _ (inv_pools _ _ Hinv)) as Hlen.
  assert (Hat : forall x, slot_at c1 x = slot_at (mCore p) x) by (intros; unfold slot_at; by rewrite T1).
  rewrite T5, T4, T2, T6, Hns, (can_unshared _ Hcan), (proj2 (Z.eqb_neq INVALID_BUFFER_SLOT s)), Hat in Hview
    by (intros Heq; by apply (valid_not_invalid s)).
  fold (unfit (mCore p) r s) in Hview. cbn [andb] in Hview.
  destruct (dequeueBuffer_take _ r s) as [[st|d] p'|p'|]; [by destruct Hview as (_ & _ & ?)| |done|by destruct Hview].
  destruct Hview as (H1 & H2 & _ & Hview). exists d, p'. split; [done|].
  rewrite set_slot_as in Hview by done. unfold view_of in Hview. injection Hview as V1 V2 V3 V4 V5 V6 V7 V8 V9 V10. cbn -[StdSet.insert] in *.
  assert (Hat' : forall x, slot_at (mCore p') x = if decide (s = x) then taken (unfit (mCore p) r s) false (slot_at (mCore p) s) else slot_at (mCore p) x).
  { intros x. rewrite <- (slot_at_set_slot (mCore p) s x) by done. rewrite set_slot_as by done. unfold slot_at. cbn. by rewrite V1, T1. }
  constructor; try done.
  - unfold state_at in *. by rewrite Hat', decide_True, taken_state, Hnew by done.
  - by rewrite Hat', decide_True, taken_buffer by done.
  - intros x Hx. by rewrite Hat', decide_False by done.
  - split_and!; [done|done|]. by rewrite V4, V5.
  - congruence.
Qed.

Lemma dequeue_takes_next_free_witness :
  exists d p', dequeueBuffer_slot (producer (after connected)) no_request = Returns (inr d) p' /\
    dequeued_slot (mCore (producer (after connected))) no_request 0 d (mCore p').
Proof.
  assert (next_free (mCore (producer (after connected))) = Some 0) as Hn by (vm_compute; reflexivity).
  assert (invariant [] (mCore (producer (after connected)))) as Hinv by (apply run_invariant; vm_compute; reflexivity).
  assert (can_dequeue (mCore (producer (after connected)))) as Hcan by (constructor; [vm_compute; reflexivity..|vm_compute; discriminate|vm_compute; split; discriminate]).
  pose proof (dequeue_takes_next_free (producer (after connected)) no_request Hinv Hcan) as H.
  rewrite Hn in H. exact H.
Defined.

(** ** queueBuffer *)

(** whether a new frame takes the place of the last one, and the frames that stay *)
Definition replaces_last (q : list BufferItem.t) : bool := match last q with Some i => BufferItem.mIsDroppable i | None => false end.
Definition frames_kept (q : list BufferItem.t) : list BufferItem.t := if replaces_last q then removelast q else q.

Lemma free_queued_rest s c :
  mQueue (free_queued_slot s c).2 = mQueue c /\ mFrameCounter (free_queued_slot s c).2 = mFrameCounter c /\
  mConsumerListener (free_queued_slot s c).2 = mConsumerListener c.
Proof.
  unfold free_queued_slot, set_slot, state_at, slot_at. destruct (0 <=? s); cbn -[StdSet.erase];
    repeat (case_match; cbn -[StdSet.erase] in *; try congruence); done.
Qed.

Lemma enqueue_cases item c it rep isrep c' : queueBuffer_enqueue item c = Some (it, rep, isrep, c') ->
  mQueue c' = frames_kept (mQueue c) ++ [it] /\ isrep = replaces_last (mQueue c) /\
  (exists damage, it = item <| BufferItem.mSurfaceDamage := damage |>) /\
  mFrameCounter c' = mFrameCounter c /\ mConsumerListener c' = mConsumerListener c.
Proof.
  assert (Hid : exists damage, item = item <| BufferItem.mSurfaceDamage := damage |>).
  { exists (BufferItem.mSurfaceDamage item). by destruct item. }
  unfold queueBuffer_enqueue, frames_kept, replaces_last. destruct (last (mQueue c)) as [i|] eqn:El.
  2:{ intros [= <- <- <- <-]. apply last_None in El. rewrite El. done. }
  destruct (BufferItem.mIsDroppable i); [|by intros [= <- <- <- <-]].
  destruct (free_queued_rest (BufferItem.mSlot i) c) as (F1 & F2 & F3).
  destruct (negb _); [destruct (free_queued_slot _ c) as [x c1]; cbn in F1, F2, F3; rewrite <- F1|];
    (destruct (merge_damage _ _) as [dmg|]; [|done]); intros [= <- <- <- <-]; split_and!; try done; by eexists.
Qed.

(** the item carries what the producer queued *)
Record frame_of_input (c : BufferQueueCore.t) (slot : Z) (input : QueueBufferInput) (i : BufferItem.t) : Prop := {
  frame_slot : BufferItem.mSlot i = slot;
  frame_number : BufferItem.mFrameNumber i = uint64 (mFrameCounter c + 1);
  frame_buffer : BufferItem.mGraphicBuffer i = BufferSlot.mGraphicBuffer (slot_at c slot);
  frame_fence : BufferItem.mFence i = in_fence input;
  frame_crop : BufferItem.mCrop i = in_crop input;
  frame_time : BufferItem.mTimestamp i = in_timestamp input;
  frame_live : BufferItem.mIsStale i = false;
  frame_acquired : BufferItem.mAcquireCalled i = BufferSlot.mAcquireCalled (slot_at c slot) }.

(** C25: A successful [queueBuffer] puts one frame at the end of the queue, in place of
    the last frame when that one is droppable. The frame carries the slot, its buffer,
    the input's fence, crop and timestamp and the next frame number; the frame counter
    advances by one; the call takes the next callback ticket, and the consumer's
    listener is to be told that a frame is available, or was replaced, never both. *)
Theorem queue_appends_frame (p : t) (slot : Z) (input : QueueBufferInput) (output : QueueBufferOutput) (time : Z)
    (f : QueuedFrame) (o : QueueBufferOutput) (p' : t) :
  length (mSlots (mCore p)) = 64%nat ->
  queueBuffer_locked p slot input output time = Returns (inr (f, o)) p' ->
  (exists item, mQueue (mCore p') = frames_kept (mQueue (mCore p)) ++ [item] /\ frame_of_input (mCore p) slot input item) /\
  mFrameCounter (mCore p') = uint64 (mFrameCounter (mCore p) + 1) /\
  currentFrameNumber f = mFrameCounter (mCore p') /\
  callbackTicket f = mNextCallbackTicket p /\ mNextCallbackTicket p' = int32 (mNextCallbackTicket p + 1) /\
  (frameAvailableListener f, frameReplacedListener f) =
    (if replaces_last (mQueue (mCore p)) then (None, mConsumerListener (mCore p)) else (mConsumerListener (mCore p), None)).
Proof.
  intros Hlen. unfold queueBuffer_locked. cbv zeta.
  destruct (bool_decide _); [done|]. destruct (negb (valid_scaling_mode _)); [done|]. destruct (mIsAbandoned _); [done|].
  destruct (_ =? NO_CONNECTED_API); [done|]. destruct ((slot <? 0) || _) eqn:Er; [done|]. apply in_range_valid in Er as Hv.
  destruct (negb _); [done|]. destruct (negb _); [done|].
  set (c1 := if _ && _ then set_slot _ _ _ else _).
  assert (Hc1 : mQueue c1 = mQueue (mCore p) /\ mFrameCounter c1 = mFrameCounter (mCore p) /\ mConsumerListener c1 = mConsumerListener (mCore p) /\
    length (mSlots c1) = 64%nat /\ BufferSlot.mGraphicBuffer (slot_at c1 slot) = BufferSlot.mGraphicBuffer (slot_at (mCore p) slot) /\
    BufferSlot.mAcquireCalled (slot_at c1 slot) = BufferSlot.mAcquireCalled (slot_at (mCore p) slot)).
  { unfold c1. destruct (_ && _); [|done]. rewrite length_set_slot, slot_at_set_slot_eq by done. rewrite set_slot_as by done. done. }
  clearbody c1. destruct Hc1 as (C1 & C2 & C3 & C4 & C5 & C6).
  destruct (BufferSlot.mGraphicBuffer (slot_at c1 slot)) as [gb|] eqn:Egb; [|done]. destruct (negb (Rect.eqb _ _)); [done|].
  match goal with |- context [queueBuffer_item ?p ?s ?i ?d ?cc] => set (cq := cc) end.
  assert (Hcq : BufferSlot.mGraphicBuffer (slot_at cq slot) = BufferSlot.mGraphicBuffer (slot_at c1 slot) /\
    BufferSlot.mAcquireCalled (slot_at cq slot) = BufferSlot.mAcquireCalled (slot_at c1 slot) /\
    mQueue cq = mQueue c1 /\ mFrameCounter cq = uint64 (mFrameCounter c1 + 1) /\ mConsumerListener cq = mConsumerListener c1).
  { unfold cq. rewrite slot_at_set_slot_eq by (cbn -[set_slot]; rewrite ?length_set_slot; done).
    match goal with |- context [slot_at (with_field mFrameCounter ?v ?x) slot] => change (slot_at (with_field mFrameCounter v x) slot) with (slot_at x slot) end.
    rewrite slot_at_set_slot_eq by done. rewrite !set_slot_as by done. done. }
  clearbody cq. destruct Hcq as (Q1 & Q2 & Q3 & Q4 & Q5).
  match goal with |- context [queueBuffer_enqueue ?it ?cc] => set (item := it); set (c2 := cc) end.
  assert (Hc2 : mQueue c2 = mQueue cq /\ mFrameCounter c2 = mFrameCounter cq /\ mConsumerListener c2 = mConsumerListener cq).
  { unfold c2. by destruct (mSharedBufferMode cq). }
  assert (Hitem : frame_of_input (mCore p) slot input item).
  { constructor; unfold item, queueBuffer_item; cbn; congruence. }
  clearbody item c2. destruct Hc2 as (D1 & D2 & D3).
  destruct (queueBuffer_enqueue item c2) as [[[[it rep] isrep] c3]|] eqn:Eenq; [|done].
  apply enqueue_cases in Eenq as (E1 & E2 & [dmg ->] & E4 & E5).
  intros [= <- <- <-]. cbn. rewrite E1, E2, E4, E5, D1, D2, D3, Q3, Q4, Q5, C1, C2, C3. split_and!; try done.
  - eexists. split; [done|]. destruct Hitem. by constructor.
  - rewrite set_slot_as by done. cbn. by rewrite C2.
  - destruct (replaces_last (mQueue (mCore p))); reflexivity.
Qed.

(** a slot dequeued and requested, the queue still empty *)
Definition ready_to_queue : list (action * env) := connected ++ dequeued_new ++ [call (Call_requestBuffer 0)].

Lemma queue_appends_frame_witness :
  match queueBuffer_locked (producer (after ready_to_queue)) 0 (frame_at 10) no_output 5 with
  | Returns (inr (f, o)) p' =>
    (exists item, mQueue (mCore p') = frames_kept (mQueue (mCore (producer (after ready_to_queue)))) ++ [item] /\
       frame_of_input (mCore (producer (after ready_to_queue))) 0 (frame_at 10) item)
  | _ => False
  end.
Proof.
  assert (length (mSlots (mCore (producer (after ready_to_queue)))) = 64%nat) as Hl by (vm_compute; reflexivity).
  destruct (queueBuffer_locked (producer (after ready_to_queue)) 0 (frame_at 10) no_output 5) as [[st|[f o]] p'|p'|] eqn:E;
    [vm_compute in E; discriminate| |vm_compute in E; discriminate..].
  exact (proj1 (queue_appends_frame _ 0 (frame_at 10) no_output 5 f o p' Hl E)).
Defined.

(** ** acquireBuffer *)

Section Dropping.
Import BufferQueueConsumer.

Context (expected maxFrame : Z).

(** frame [b] is due, not too new, and makes the earlier frame [a] superfluous *)
Definition supersedes (b a : BufferItem.t) : Prop :=
  BufferItem.mIsAutoTimestamp a = false /\ (maxFrame = 0 \/ BufferItem.mFrameNumber b <= maxFrame) /\
  int64 (expected - MAX_REASONABLE_NSEC) <= BufferItem.mTimestamp b <= expected.

(** each of the frames is superseded by the next, the last one by [front] *)
Fixpoint all_superseded (dropped : list BufferItem.t) (front : BufferItem.t) : Prop :=
  match dropped with
  | [] => True
  | a :: rest => supersedes (default front (head rest)) a /\ all_superseded rest front
  end.

Lemma drop_late_cases q : forall c n l,
  let d := drop_late c q expected maxFrame n l in
  d = mkDrop c q n l \/
  exists a dropped front rest, q = (a :: dropped) ++ front :: rest /\ d_queue d = front :: rest /\ all_superseded (a :: dropped) front.
Proof.
  induction q as [|a q IH]; intros c n l; [by left|]. simpl drop_late. destruct q as [|b q]; [by left|]. cbv zeta.
  destruct (BufferItem.mIsAutoTimestamp a) eqn:Eau; [by left|]. destruct (_ && (maxFrame <? _)) eqn:Em; [by left|].
  destruct ((_ <? _) || _) eqn:Ets; [by left|]. right.
  assert (Hsup : supersedes b a).
  { split; [done|]. bool_to_prop. split; [|lia]. destruct Em as [Em|Em]; bool_to_prop; auto. }
  match goal with |- context [if negb (BufferItem.mIsStale a) then ?x else ?y] => assert (Hd : exists c' n' l', (if negb (BufferItem.mIsStale a) then x else y) = drop_late c' (b :: q) expected maxFrame n' l') end.
  { destruct (BufferItem.mIsStale a); cbn [negb]; [by exists c, n, l|].
    set (c1 := (free_queued_slot (BufferItem.mSlot a) c).2). by exists c1, (S n), (if mBufferReleasedCbEnabled c1 then mConnectedProducerListener c1 else l). }
  destruct Hd as (c' & n' & l' & ->). destruct (IH c' n' l') as [->|(x & dropped & front & rest & H1 & H2 & H3)].
  - exists a, [], b, q. split_and!; done.
  - exists a, (x :: dropped), front, rest. injection H1 as -> ->. split_and!; try done; apply H3.
Qed.

Lemma superseding_is_presented dropped a front : 0 <= maxFrame -> all_superseded (a :: dropped) front ->
  present_later front expected maxFrame = false.
Proof.
  intros Hm. revert a. induction dropped as [|b dropped IH]; intros a; [|intros [_ H]; by apply (IH b)].
  intros [(_ & Hf & Hts) _]. unfold present_later. simpl in *. rewrite (proj2 (Z.leb_le _ expected)) by lia. cbn.
  destruct (0 <? maxFrame) eqn:E; [|done]. bool_to_prop. by rewrite (proj2 (Z.leb_le _ maxFrame)) by lia.
Qed.

End Dropping.

Lemma with_queue_id (c : BufferQueueCore.t) : c <| mQueue := mQueue c |> = c.
Proof. by destruct c. Qed.

(** When [acquireBuffer] answers PRESENT_LATER it has dropped nothing: the queue
    and every slot are as before, and so is the caller's item. (The loop that drops
    late frames only leaves a front frame behind that is due and not too new for the
    consumer.) *)
Theorem present_later_changes_nothing (c : BufferQueueCore.t) (out : BufferItem.t) (expected maxFrame time : Z)
    (item : BufferItem.t) (c' : BufferQueueCore.t) :
  0 <= maxFrame ->
  BufferQueueConsumer.acquireBuffer c out expected maxFrame time = Returns (PRESENT_LATER, item) c' -> c' = c /\ item = out.
Proof.
  intros Hm. unfold BufferQueueConsumer.acquireBuffer. cbv zeta. destruct (_ <=? _); [done|].
  destruct (mQueue c) as [|i q] eqn:Eq.
  - destruct (negb _); [done|]. unfold BufferQueueConsumer.acquireBuffer_shared. destruct (mIsAllocating c); [done|]. cbv zeta.
    destruct (_ || _); [done|]. by destruct (BufferQueueConsumer.acquire_item _ _ _).
  - destruct (negb (expected =? 0)) eqn:Ee; cbn [andb].
    + destruct (drop_late_cases expected maxFrame (i :: q) c 0 None) as [->|(a & dropped & front & rest & H1 & H2 & H3)].
      * cbn [BufferQueueConsumer.d_queue BufferQueueConsumer.d_core]. destruct (BufferQueueConsumer.present_later _ _ _).
        -- intros [= <- <-]. split; [|done]. rewrite <- Eq. apply with_queue_id.
        -- by destruct (BufferQueueConsumer.acquire_item _ _ _).
      * rewrite H2, (superseding_is_presented expected maxFrame dropped a front Hm H3). by destruct (BufferQueueConsumer.acquire_item _ _ _).
    + cbn [BufferQueueConsumer.d_queue]. by destruct (BufferQueueConsumer.acquire_item _ _ _).
Qed.

(** two frames, for the times 10 and 2000000010 *)
Definition two_frames : list (action * env) :=
  connected ++ [call (Call_setMaxDequeuedBufferCount 2)] ++ dequeued_new ++ queued 0 10 ++ dequeued_new ++ queued 1 1500000010.

Definition status_of {A} (o : outcome BufferQueueCore.t (status_t * A)) : option status_t :=
  match o with Returns a _ => Some a.1 | _ => None end.

Lemma status_of_returns {A} (o : outcome BufferQueueCore.t (status_t * A)) st : status_of o = Some st -> exists a c, o = Returns (st, a) c.
Proof. destruct o as [[st' a] c|c|]; [|done|done]. intros [= ->]. eauto. Qed.

Lemma present_later_changes_nothing_witness :
  exists item c', BufferQueueConsumer.acquireBuffer (mCore (producer (after two_frames))) BufferItem.new 5 0 5 = Returns (PRESENT_LATER, item) c' /\
    c' = mCore (producer (after two_frames)) /\ item = BufferItem.new.
Proof.
  destruct (status_of_returns (BufferQueueConsumer.acquireBuffer (mCore (producer (after two_frames))) BufferItem.new 5 0 5) PRESENT_LATER) as (item & c' & E);
    [vm_compute; reflexivity|]. exists item, c'. split; [exact E|].
  exact (present_later_changes_nothing (mCore (producer (after two_frames))) BufferItem.new 5 0 5 item c' ltac:(lia) E).
Defined.

(** What the consumer gets for a queued frame: no buffer when it has it already. *)
Definition delivered (i : BufferItem.t) : BufferItem.t :=
  if BufferItem.mAcquireCalled i then i <| BufferItem.mGraphicBuffer := None |> else i.

Lemma acquire_item_result c i time : (BufferQueueConsumer.acquire_item c i time).1 = delivered i /\
  mQueue (BufferQueueConsumer.acquire_item c i time).2 = tail (mQueue c).
Proof.
  unfold BufferQueueConsumer.acquire_item. split; [done|]. cbn [snd].
  match goal with |- mQueue (with_field mOccupancyTracker _ (emit _ (with_field mQueue (tail (mQueue ?x)) ?y))) = _ => change (tail (mQueue x) = tail (mQueue c)) end.
  f_equal. destruct (BufferItem.mIsStale i); cbn [negb]; [done|]. unfold set_slot. destruct (0 <=? BufferItem.mSlot i); by destruct (bool_decide _).
Qed.

Lemma notify_released_queue n l c : mQueue (BufferQueueConsumer.notify_released n l c) = mQueue c.
Proof. revert c. induction n as [|n IH]; intros c; [done|]. simpl. rewrite IH. by destruct l. Qed.

(** C26: A successful [acquireBuffer] on a queue that is not empty takes frames off the
    front in order: some frames are dropped, the next one is delivered and the rest
    stays. A frame is dropped only if the caller gave a time and the frame after it is
    due by then, at most a second old, and not beyond the caller's maximum frame
    number; without a time nothing is dropped. *)
Theorem acquire_in_order (c : BufferQueueCore.t) (out : BufferItem.t) (expected maxFrame time : Z) (item : BufferItem.t) (c' : BufferQueueCore.t) :
  mQueue c <> [] ->
  BufferQueueConsumer.acquireBuffer c out expected maxFrame time = Returns (NO_ERROR, item) c' ->
  exists dropped front, mQueue c = dropped ++ front :: mQueue c' /\ item = delivered front /\
    all_superseded expected maxFrame dropped front /\ (expected = 0 -> dropped = []).
Proof.
  intros Hq. unfold BufferQueueConsumer.acquireBuffer. cbv zeta. destruct (_ <=? _); [done|].
  destruct (mQueue c) as [|i q] eqn:Eq; [done|].
  match goal with |- context [if negb (expected =? 0) then ?x else ?y] => set (d := if negb (expected =? 0) then x else y) end.
  assert (Hd : exists dropped front rest, i :: q = dropped ++ front :: rest /\ BufferQueueConsumer.d_queue d = front :: rest /\
    all_superseded expected maxFrame dropped front /\ (expected = 0 -> dropped = [])).
  { unfold d. destruct (expected =? 0) eqn:Ee; bool_to_prop; cbn [negb]; [by exists [], i, q|].
    destruct (drop_late_cases expected maxFrame (i :: q) c 0 None) as [->|(a & dropped & front & rest & H1 & H2 & H3)]; [by exists [], i, q|].
    by exists (a :: dropped), front, rest. }
  clearbody d. destruct Hd as (dropped & front & rest & H1 & H2 & H3 & H4). rewrite H2. destruct (_ && _); [done|].
  pose proof (acquire_item_result ((BufferQueueConsumer.d_core d) <| mQueue := front :: rest |>) front time) as [R1 R2].
  destruct (BufferQueueConsumer.acquire_item _ _ _) as [it c2]. cbn in R1, R2. intros [= <- <-].
  exists dropped, front. rewrite notify_released_queue, R2, R1. done.
Qed.

Lemma acquire_in_order_witness :
  exists item c', BufferQueueConsumer.acquireBuffer (mCore (producer (after two_frames))) BufferItem.new 1500000020 0 5 = Returns (NO_ERROR, item) c' /\
    exists dropped front, mQueue (mCore (producer (after two_frames))) = dropped ++ front :: mQueue c' /\ item = delivered front /\
      all_superseded 1500000020 0 dropped front /\ (1500000020 = 0 -> dropped = []).
Proof.
  destruct (status_of_returns (BufferQueueConsumer.acquireBuffer (mCore (producer (after two_frames))) BufferItem.new 1500000020 0 5) NO_ERROR) as (item & c' & E);
    [vm_compute; reflexivity|]. exists item, c'. split; [exact E|].
  assert (mQueue (mCore (producer (after two_frames))) <> []) as Hne by (vm_compute; discriminate).
  exact (acquire_in_order (mCore (producer (after two_frames))) BufferItem.new 1500000020 0 5 item c' Hne E).
Defined.

(** ** getReleasedBuffers *)

Lemma testbit_pow2 k s : 0 <= s -> Z.testbit (Z.shiftl 1 k) s = (k =? s).
Proof.
  intros Hs. destruct (Z_lt_le_dec k 0).
  - rewrite Z.shiftl_spec by lia. destruct (k =? s) eqn:E; bool_to_prop; [lia|]. apply (Z.bits_above_log2 1); simpl; lia.
  - rewrite Z.shiftl_1_l, Z.pow2_bits_eqb by lia. done.
Qed.

Lemma testbit_clear m k s : valid_slot s -> Z.testbit (Z.land m (uint64 (Z.lnot (Z.shiftl 1 k)))) s = Z.testbit m s && negb (k =? s).
Proof.
  unfold valid_slot, NUM_BUFFER_SLOTS. intros Hs. rewrite Z.land_spec. f_equal. unfold uint64. change 18446744073709551616 with (2 ^ 64).
  rewrite Z.mod_pow2_bits_low by lia. rewrite Z.lnot_spec by lia. by rewrite testbit_pow2 by lia.
Qed.

Lemma released_mask_bits c s l m : 0 <= s ->
  Z.testbit (foldl (fun mask s => if negb (BufferSlot.mAcquireCalled (slot_at c s)) then Z.lor mask (Z.shiftl 1 s) else mask) m l) s =
  Z.testbit m s || (bool_decide (s ∈ l) && negb (BufferSlot.mAcquireCalled (slot_at c s))).
Proof.
  intros Hs. revert m. induction l as [|x l IH]; intros m; simpl; [by rewrite orb_false_r|].
  rewrite IH. destruct (decide (x = s)) as [->|Hne].
  - rewrite (bool_decide_eq_true_2 (s ∈ s :: l)) by left. destruct (negb (BufferSlot.mAcquireCalled (slot_at c s))) eqn:E.
    + rewrite Z.lor_spec, testbit_pow2, Z.eqb_refl by done. by destruct (Z.testbit m s).
    + by rewrite !andb_false_r.
  - assert (bool_decide (s ∈ x :: l) = bool_decide (s ∈ l)) as ->.
    { apply bool_decide_ext. rewrite elem_of_cons. naive_solver. }
    destruct (negb (BufferSlot.mAcquireCalled (slot_at c x))); [|done].
    by rewrite Z.lor_spec, testbit_pow2, (proj2 (Z.eqb_neq x s)), orb_false_r by done.
Qed.

(** whether a frame of slot [s], already known to the consumer, is on its way *)
Definition in_flight (c : BufferQueueCore.t) (s : Z) : bool :=
  existsb (fun i => BufferItem.mAcquireCalled i && (BufferItem.mSlot i =? s)) (mQueue c).

(** The mask that [getReleasedBuffers] returns has the bit of a slot set exactly
    when the consumer need not keep the slot's buffer: it has not acquired the buffer
    now in the slot, and no queued frame will hand it that buffer without sending it
    again. *)
Theorem released_mask_exact (c : BufferQueueCore.t) (s : Z) : valid_slot s -> mIsAbandoned c = false ->
  exists mask, BufferQueueConsumer.getReleasedBuffers c true = (NO_ERROR, mask) /\
    Z.testbit mask s = negb (BufferSlot.mAcquireCalled (slot_at c s)) && negb (in_flight c s).
Proof.
  intros Hs Ha. unfold BufferQueueConsumer.getReleasedBuffers. rewrite Ha. cbn [negb]. eexists. split; [reflexivity|]. unfold in_flight.
  assert (Hq : forall q m, Z.testbit (foldl (fun mask item => if BufferItem.mAcquireCalled item
      then Z.land mask (uint64 (Z.lnot (Z.shiftl 1 (BufferItem.mSlot item)))) else mask) m q) s =
    Z.testbit m s && negb (existsb (fun i => BufferItem.mAcquireCalled i && (BufferItem.mSlot i =? s)) q)).
  { induction q as [|i q IH]; intros m; simpl; [by rewrite andb_true_r|]. rewrite IH.
    destruct (BufferItem.mAcquireCalled i); cbn; [|done]. rewrite testbit_clear by done. by rewrite negb_orb, andb_assoc. }
  rewrite Hq. f_equal. unfold BufferQueueConsumer.released_mask. pose proof Hs as [H0 H1].
  rewrite released_mask_bits by lia. rewrite Z.bits_0. cbn [orb]. rewrite bool_decide_eq_true_2; [done|].
  apply elem_of_seqZ. lia.
Qed.

Lemma released_mask_exact_witness :
  exists mask, BufferQueueConsumer.getReleasedBuffers (mCore (producer (after two_frames))) true = (NO_ERROR, mask) /\
    Z.testbit mask 1 = negb (BufferSlot.mAcquireCalled (slot_at (mCore (producer (after two_frames))) 1)) &&
                       negb (in_flight (mCore (producer (after two_frames))) 1).
Proof.
  apply (released_mask_exact (mCore (producer (after two_frames))) 1); [unfold valid_slot, NUM_BUFFER_SLOTS; lia|vm_compute; reflexivity].
Defined.

(** ** adjustAvailableSlotsLocked *)

(** [adjustAvailableSlotsLocked] succeeds exactly when enough slots can be moved;
    then exactly [delta] slots have become available, the invariant and all settings
    hold as before. When it fails it has changed nothing. *)
Theorem adjust_all_or_nothing (c : BufferQueueCore.t) (delta : Z) : invariant [] c ->
  let possible := if 0 <=? delta then delta <= Z.of_nat (length (mUnusedSlots c))
                  else - delta <= Z.of_nat (length (mFreeSlots c) + length (mFreeBuffers c)) in
  (possible -> exists c', adjustAvailableSlotsLocked delta c = (true, c') /\ invariant [] c' /\ config_of c' = config_of c /\
     Z.of_nat (length (mUnusedSlots c')) = Z.of_nat (length (mUnusedSlots c)) - delta) /\
  (~ possible -> adjustAvailableSlotsLocked delta c = (false, c)).
Proof.
  intros Hinv possible. destruct (adjust_cases [] delta c Hinv (settled_nil c)) as [Hf|(c' & Ht & [A1 A2 A3])]; split; intros Hp.
  - exfalso. unfold possible in Hp. revert Hf. unfold adjustAvailableSlotsLocked. destruct (0 <=? delta) eqn:E0; bool_to_prop.
    + rewrite (proj2 (Z.ltb_ge _ delta)) by done.
      destruct (grow_adjusted [] (Z.to_nat delta) c Hinv (settled_nil c) ltac:(lia)) as [Hg _]. by destruct (grow _ _); simplify_eq/=.
    + rewrite (proj2 (Z.ltb_ge _ (- delta))) by done.
      destruct (shrink_adjusted [] (Z.to_nat (- delta)) c Hinv (settled_nil c) ltac:(lia)) as [Hg _]. by destruct (shrink _ _); simplify_eq/=.
  - done.
  - by exists c'.
  - exfalso. unfold possible in Hp. revert Ht. unfold adjustAvailableSlotsLocked.
    destruct (0 <=? delta); rewrite (proj2 (Z.ltb_lt _ _)) by lia; done.
Qed.

Lemma adjust_all_or_nothing_witness :
  exists c', adjustAvailableSlotsLocked 3 (mCore (producer (after two_frames))) = (true, c') /\ invariant [] c' /\
    config_of c' = config_of (mCore (producer (after two_frames))) /\
    Z.of_nat (length (mUnusedSlots c')) = Z.of_nat (length (mUnusedSlots (mCore (producer (after two_frames))))) - 3.
Proof.
  assert (invariant [] (mCore (producer (after two_frames)))) as Hinv by (apply run_invariant; vm_compute; reflexivity).
  apply (proj1 (adjust_all_or_nothing (mCore (producer (after two_frames))) 3 Hinv)).
  apply (Z.leb_le 3). vm_compute. reflexivity.
Defined.

(** ** Queued frames *)

(** However the calls interleave, a frame in the queue that is not stale refers to
    a slot that is in use, queued, and holds a buffer: what [acquireBuffer] will hand
    out exists. *)
Theorem queued_frames_have_buffers (s : system) (i : BufferItem.t) :
  reachable s -> mIsAbandoned (core s) = false -> i ∈ mQueue (core s) -> BufferItem.mIsStale i = false ->
  BufferItem.mSlot i ∈ mActiveBuffers (core s) /\ BufferState.isQueued (state_at (core s) (BufferItem.mSlot i)) = true /\
  is_Some (BufferSlot.mGraphicBuffer (slot_at (core s) (BufferItem.mSlot i))).
Proof.
  intros Hs Hab Hi Hst. destruct (reachable_invariant s Hs) as [Hinv _].
  pose proof (queue_slots _ (inv_queue _ _ Hinv) i Hi Hst) as Hv.
  pose proof (item_not_pending _ _ i Hinv (or_introl Hab) Hi Hst) as Hnp.
  assert (Hcount : 0 < BufferState.mQueueCount (state_at (core s) (BufferItem.mSlot i))).
  { rewrite (queue_counts _ (inv_queue _ _ Hinv)) by done. apply list_elem_of_split in Hi as (q1 & q2 & ->).
    rewrite queued_in_app, queued_in_cons, refers_live by done.
    pose proof (queued_in_nonneg (BufferItem.mSlot i) q1). pose proof (queued_in_nonneg (BufferItem.mSlot i) q2). lia. }
  assert (Ha : BufferItem.mSlot i ∈ mActiveBuffers (core s)).
  { eapply used_is_active; [apply Hinv|done|]. intros Heq. rewrite Heq in Hcount. simpl in Hcount. lia. }
  destruct (active_slot _ _ _ Hinv Ha Hnp) as (_ & _ & Hb & _). split_and!; [done| |done].
  unfold BufferState.isQueued. by apply Z.ltb_lt.
Qed.

Lemma queued_frames_have_buffers_witness :
  exists i, i ∈ mQueue (core (after two_frames)) /\ BufferItem.mSlot i ∈ mActiveBuffers (core (after two_frames)) /\
    BufferState.isQueued (state_at (core (after two_frames)) (BufferItem.mSlot i)) = true /\
    is_Some (BufferSlot.mGraphicBuffer (slot_at (core (after two_frames)) (BufferItem.mSlot i))).
Proof.
  assert (reachable (after two_frames)) as Hs by (apply run_from_empty; vm_compute; reflexivity).
  assert (mIsAbandoned (core (after two_frames)) = false) as Ha by (vm_compute; reflexivity).
  assert (forallb (fun i => negb (BufferItem.mIsStale i)) (mQueue (core (after two_frames))) = true) as Hst by (vm_compute; reflexivity).
  assert (length (mQueue (core (after two_frames))) = 2%nat) as Hlen by (vm_compute; reflexivity).
  destruct (mQueue (core (after two_frames))) as [|i q] eqn:Eq; [discriminate|].
  assert (BufferItem.mIsStale i = false) as Hi by (simpl in Hst; by destruct (BufferItem.mIsStale i)).
  exists i. split; [left|]. apply queued_frames_have_buffers; [exact Hs|exact Ha|rewrite Eq; left|exact Hi].
Defined.
