(* ===== verification/BufferQueueFindings.v ===== *)
(** * Where the buffer queue loses its invariant

    Each history below consists of calls that the interfaces accept; [perform_all] runs
    it without the restrictions of [legal]. They are the reason for those restrictions. *)

From S2P Require Import Prelude Geometry RegionHelper Region BufferSlot OccupancyTracker BufferQueueCore.
From S2P Require Import BufferQueueProducer BufferQueueConsumer BufferQueueSystem BufferQueueSystemSafety.
From S2P Require Import BufferQueueTheorems.
Import BufferQueueCore BufferQueueProducer.

(** the state after a history of calls *)
Definition history (l : list (action * env)) : system := default empty_queue (perform_all empty_queue l).
Definition happens (l : list (action * env)) : bool := if perform_all empty_queue l then true else false.

Definition resume_thread (i : nat) : action * env := (Resume i, default_env).
Definition big_request : BufferRequest := mkRequest 2 2 0 0.

(** ** A failed allocation *)

Definition allocation_failed : list (action * env) :=
  connected ++ [call (Call_dequeueBuffer no_request false); continue; (Resume 0, mkEnv 0 NO_MEMORY (pixel_buffer 1) false)].

(** When the allocation of a dequeued slot fails, [dequeueBuffer] returns the slot to
    [mFreeSlots] but leaves it in [mActiveBuffers]: it is in two pools at once, and the
    consistency check fails. *)
Theorem failed_allocation_leaves_slot_active :
  happens allocation_failed = true /\ threads (history allocation_failed) = [] /\
  (mFreeSlots (core (history allocation_failed)), mActiveBuffers (core (history allocation_failed))) = ([0; 1], [0]) /\
  validateConsistencyLocked (core (history allocation_failed)) = false.
Proof. vm_compute. auto. Qed.

(** ** Clipped limits *)

Definition clipped_limits : list (action * env) :=
  [call (Consumer_connect (Some 7) false); call (Call_setMaxDequeuedBufferCount 5); call (Consumer_setMaxBufferCount 3);
   call (Call_setMaxDequeuedBufferCount 2)].

(** [setMaxDequeuedBufferCount] moves slots by the difference of the old and the new
    limit although the number of slots had been clipped by [setMaxBufferCount]: after
    the limits 5, then 3 in all, then 2, no slot is left while the limits promise
    three, so that every dequeue waits for ever. *)
Theorem clipped_limit_loses_slots :
  happens clipped_limits = true /\ getMaxBufferCountLocked (core (history clipped_limits)) = 3 /\
  allocatedSlots (core (history clipped_limits)) = 0 /\
  mFreeSlots (core (history clipped_limits)) ++ mFreeBuffers (core (history clipped_limits)) ++ mActiveBuffers (core (history clipped_limits)) = [].
Proof. vm_compute. auto. Qed.

(** ** Overlapping allocations *)

(** two free buffers *)
Definition two_free_buffers : list (action * env) :=
  connected ++ [call (Call_setMaxDequeuedBufferCount 2)] ++ dequeued_new ++ dequeued_new ++
  [call (Call_cancelBuffer 0 (Some NO_FENCE)); call (Call_cancelBuffer 1 (Some NO_FENCE))].

(** Two threads dequeue larger buffers, the first finishes its allocation, the producer
    disconnects, and the second finishes. *)
Definition overlapping : list (action * env) :=
  two_free_buffers ++
  [call (Call_dequeueBuffer big_request false); resume_thread 0;
   call (Call_dequeueBuffer big_request false); resume_thread 1;
   resume_thread 0].
Definition overlapping_disconnected : list (action * env) :=
  overlapping ++ [call (Call_disconnect NATIVE_WINDOW_API_CPU Api 100); resume_thread 1].

(** [dequeueBuffer] only waits for a running allocation when there is no free buffer.
    Two dequeues can allocate at once, and the first to finish clears [mIsAllocating]
    while the other slot has no buffer yet. A disconnect then does not wait for the
    second allocation, which puts its buffer into a slot that is free and returns
    success. *)
Theorem overlapping_allocations_unguarded :
  happens overlapping = true /\ mIsAllocating (core (history overlapping)) = false /\
  allocations (history overlapping) = 1%nat /\ validateConsistencyLocked (core (history overlapping)) = false /\
  happens overlapping_disconnected = true /\ 1 ∈ mFreeSlots (core (history overlapping_disconnected)) /\
  is_Some (BufferSlot.mGraphicBuffer (slot_at (core (history overlapping_disconnected)) 1)).
Proof.
  split_and!; try (vm_compute; reflexivity).
  - apply (bool_decide_unpack (1 ∈ mFreeSlots (core (history overlapping_disconnected)))). vm_compute. exact I.
  - apply (bool_decide_unpack (is_Some (BufferSlot.mGraphicBuffer (slot_at (core (history overlapping_disconnected)) 1)))). vm_compute. exact I.
Qed.

(** ** Leaving the shared mode *)

Definition left_shared_mode : list (action * env) :=
  connected ++ [call (Call_setSharedBufferMode true)] ++ dequeued_new ++ queued 0 10 ++ acquired ++ released 0 1 ++
  [call (Call_setSharedBufferMode false)].
(** the other buffer goes to the consumer, then the producer dequeues *)
Definition starved : list (action * env) :=
  left_shared_mode ++ dequeued_new ++ queued 1 20 ++ acquired ++ [call (Call_dequeueBuffer no_request false); continue].

(** If the shared buffer is free when the producer leaves the shared mode, no later
    operation clears its shared flag: the slot stays active, nobody owns it, and it is
    never dequeued again. With two slots, one of which the consumer holds, the next
    dequeue waits although the other slot is free. *)
Theorem leaving_shared_mode_leaks_slot :
  happens starved = true /\ state_at (core (history starved)) 0 = BufferState.mk 0 0 0 true /\
  mSharedBufferSlot (core (history starved)) = INVALID_BUFFER_SLOT /\ mActiveBuffers (core (history starved)) = [0; 1] /\
  threads (history starved) = [DequeueWaitingSlot (mkRequest 1 1 1 0) false false].
Proof. split_and!; vm_compute; reflexivity. Qed.

Definition detached_shared : list (action * env) :=
  connected ++ [call (Call_setSharedBufferMode true)] ++ dequeued_new ++ queued 0 10 ++
  [call (Call_dequeueBuffer no_request false); continue; continue; call (Call_setSharedBufferMode false); call (Call_detachBuffer 0)].

(** A buffer that was shared can be dequeued and queued at once. Once the shared mode
    is left [detachBuffer] accepts it: the slot is cleared and free, and the queue still
    holds a frame for it that is not marked stale; acquiring that frame makes a free
    slot acquired. *)
Theorem detaching_shared_buffer_leaves_frame :
  happens detached_shared = true /\ mFreeSlots (core (history detached_shared)) = [0; 1] /\
  map (fun i => (BufferItem.mSlot i, BufferItem.mIsStale i)) (mQueue (core (history detached_shared))) = [(0, false)] /\
  happens (detached_shared ++ acquired) = true /\ mFreeSlots (core (history (detached_shared ++ acquired))) = [0; 1] /\
  BufferState.isAcquired (state_at (core (history (detached_shared ++ acquired))) 0) = true.
Proof. split_and!; vm_compute; reflexivity. Qed.

(** ** The shared buffer during its allocation *)

Definition shared_lost : list (action * env) :=
  connected ++ [call (Call_setSharedBufferMode true); call (Call_setAutoRefresh true);
    call (Call_dequeueBuffer no_request false); resume_thread 0; call (Consumer_acquireBuffer BufferItem.new 0 0);
    call (Call_setSharedBufferMode false); resume_thread 0].

(** [acquireBuffer] waits for the allocation of the shared buffer and then reads
    [mSharedBufferSlot] without testing it again. If the shared mode was left in
    between it indexes [mSlots] with -1. *)
Theorem acquire_after_wait_out_of_bounds :
  happens shared_lost = true /\ mSharedBufferSlot (core (history shared_lost)) = INVALID_BUFFER_SLOT /\
  threads (history shared_lost) !! 1%nat = Some (AcquireSharedWaiting BufferItem.new) /\
  perform (history shared_lost) (Resume 1) default_env = None.
Proof. split_and!; vm_compute; reflexivity. Qed.

Definition shared_unallocated : list (action * env) :=
  two_free_buffers ++
  [call (Call_setSharedBufferMode true); call (Call_dequeueBuffer big_request false); resume_thread 0;
   call (Call_dequeueBuffer no_request false)].

(** A dequeue in the shared mode does not wait for the allocation of the shared buffer
    when there are free buffers: it finds the shared slot, which has no buffer yet, and
    dereferences the null pointer. *)
Theorem dequeue_shared_unallocated_crashes :
  happens shared_unallocated = true /\ mSharedBufferSlot (core (history shared_unallocated)) = 0 /\
  BufferSlot.mGraphicBuffer (slot_at (core (history shared_unallocated)) 0) = None /\
  perform (history shared_unallocated) (Resume 1) default_env = None.
Proof. split_and!; vm_compute; reflexivity. Qed.

(** ** attachBuffer after disconnect *)

Definition attached_abandoned : list (action * env) :=
  connected ++ [call (Call_dequeueBuffer no_request false); resume_thread 0; call Consumer_disconnect;
    call (Consumer_attachBuffer true (Some (pixel_buffer 2))); resume_thread 0].

(** The consumer's [attachBuffer] does not test [mIsAbandoned]. A buffer attached
    after the disconnect can take the slot that a dequeue is still allocating, and the
    end of that dequeue clears the slot and makes it free while it is active. *)
Theorem attach_after_disconnect_shares_slot :
  happens attached_abandoned = true /\ 0 ∈ mFreeSlots (core (history attached_abandoned)) /\
  0 ∈ mActiveBuffers (core (history attached_abandoned)) /\ threads (history attached_abandoned) = [].
Proof.
  split_and!; try (vm_compute; reflexivity).
  - apply (bool_decide_unpack (0 ∈ mFreeSlots (core (history attached_abandoned)))). vm_compute. exact I.
  - apply (bool_decide_unpack (0 ∈ mActiveBuffers (core (history attached_abandoned)))). vm_compute. exact I.
Qed.

(** ** A waiting producer is not woken *)

Definition raised_limit : list (action * env) :=
  connected ++ dequeued_new ++ queued 0 10 ++ dequeued_new ++ queued 1 20 ++
  [call (Call_dequeueBuffer no_request false); continue].

(** A producer waits because both buffers are queued. The consumer raises
    [mMaxAcquiredBufferCount] to 2, which makes a third slot free, but the call sends
    nothing to [mDequeueCondition], as the description of [getMaxBufferCountLocked]
    asks: no event is added although the waiting thread would find a slot. *)
Theorem raising_limit_does_not_wake :
  threads (history raised_limit) = [DequeueWaitingSlot (mkRequest 1 1 1 0) false false] /\
  events (core (history (raised_limit ++ [call (Consumer_setMaxAcquiredBufferCount 2)]))) = events (core (history raised_limit)) /\
  threads (history (raised_limit ++ [call (Consumer_setMaxAcquiredBufferCount 2); continue])) =
    [DequeueAllocating (mkDequeued 2 (Some NO_FENCE) EGL_NO_DISPLAY EGL_NO_SYNC_KHR false true (mkRequest 1 1 1 0)) false].
Proof. split_and!; vm_compute; reflexivity. Qed.
