(* ===== verification/ServiceAccess.v ===== *)
(** * What the service manager asks others (cmds/servicemanager/Access.cpp, Vintf part of
    cmds/servicemanager/ServiceManager.cpp, libs/binder/Stability.cpp)

    [Module Access] is the access control: the interface [Access.t], which the service
    manager uses, and its implementation over SELinux. [Module Vintf] looks names up in
    the manifests of the device. SELinux, libvintf and the binder driver are not part of
    the repository: their answers are the records [Selinux], [HalManifest] and the
    fields of the caller's context. *)

From S2P Require Import Prelude.
From Stdlib Require Import Ascii String.
#[local] Open Scope string_scope.
#[local] Open Scope Z_scope.

(** ** std::string *)

Module StdString.

(** [find(c)]: the position of the first [c]; [None] is [npos] *)
Fixpoint find (c : ascii) (s : string) : option nat :=
  match s with
  | EmptyString => None
  | String a s' => if Ascii.eqb a c then Some 0%nat else S <$> find c s'
  end.

(** [rfind(c)]: the position of the last [c] *)
Fixpoint rfind (c : ascii) (s : string) : option nat :=
  match s with
  | EmptyString => None
  | String a s' =>
    match rfind c s' with
    | Some n => Some (S n)
    | None => if Ascii.eqb a c then Some 0%nat else None
    end
  end.

(** [rfind(c, pos)]: the last [c] at a position not after [pos]; [None] as [pos] is [npos] *)
Definition rfind_upto (c : ascii) (s : string) (pos : option nat) : option nat :=
  match pos with
  | Some p => rfind c (substring 0 (S p) s)
  | None => rfind c s
  end.

(** [substr(pos)] *)
Definition substr_from (pos : nat) (s : string) : string := substring pos (String.length s - pos) s.

End StdString.

(** ** Access control *)

Module Access.

Record CallingContext := mkContext { debugPid : Z; uid : Z; sid : string }.

(** The virtual functions of [class Access]. *)
Record t := mk {
  getCallingContext : CallingContext;
  canFind : CallingContext -> string -> bool;
  canAdd : CallingContext -> string -> bool;
  canList : CallingContext -> bool }.

(** The caller of the current transaction, as [IPCThreadState::self()] reports it. *)
Record IPCThreadState := mkIPC { callingPid : Z; callingUid : Z; callingSid : option string }.

(** libselinux: [getpidcon], [selabel_lookup] in the handle of the service contexts and
    [selinux_check_access] (source context, target context, class, permission). *)
Record Selinux := mkSelinux {
  getpidcon : Z -> option string;
  selabel_lookup : string -> option string;
  selinux_check_access : string -> string -> string -> string -> Z }.

Section Implementation.

Context (se : Selinux) (mThisProcessContext : string) (ipc : IPCThreadState).

Definition getPidcon (pid : Z) : string :=
  match getpidcon se pid with Some lookup => lookup | None => EmptyString end.

Definition selinux_getCallingContext : CallingContext :=
  mkContext (callingPid ipc) (callingUid ipc)
    match callingSid ipc with Some s => s | None => getPidcon (callingPid ipc) end.

Definition actionAllowed (sctx : CallingContext) (tctx perm : string) : bool :=
  0 =? selinux_check_access se (sid sctx) tctx "service_manager" perm.

Definition actionAllowedFromLookup (sctx : CallingContext) (name perm : string) : bool :=
  match selabel_lookup se name with
  | None => false
  | Some tctx => actionAllowed sctx tctx perm
  end.

Definition selinux_access : t :=
  mk selinux_getCallingContext
     (fun ctx name => actionAllowedFromLookup ctx name "find")
     (fun ctx name => actionAllowedFromLookup ctx name "add")
     (fun ctx => actionAllowed ctx mThisProcessContext "list").

End Implementation.

End Access.

(** ** Stability of a binder *)

Module Stability.

Definition UNDECLARED : Z := 0.
Definition VENDOR : Z := 3.
Definition SYSTEM : Z := 12.
Definition VINTF : Z := 63.

Definition isDeclaredLevel (stability : Z) : bool :=
  (stability =? VENDOR) || (stability =? SYSTEM) || (stability =? VINTF).

Definition check (provided required : Z) : bool :=
  let stable := Z.land provided required =? required in
  if negb (provided =? UNDECLARED) && negb (isDeclaredLevel provided) then false else stable.

(** on the level that the category of the binder holds *)
Definition requiresVintfDeclaration (level : Z) : bool := check level VINTF.

End Stability.

(** ** The manifests of the device *)

Module Vintf.

(** libvintf: what the code asks of an instance of a manifest, and of a manifest. *)
Record ManifestInstance := mkInstance {
  is_aidl : bool;
  mi_package : string;
  mi_interface : string;
  mi_instance : string;
  mi_updatableViaApex : option string }.

Record HalManifest := mkManifest {
  hasAidlInstance : string -> string -> string -> bool;
  getAidlInstances : string -> string -> list string;
  instances : list ManifestInstance }.

(** [func] gets what it has accumulated and the manifest; [true] stops the search. A
    missing manifest is skipped. *)
Fixpoint forEachManifest {A} (func : A -> HalManifest -> A * bool) (a : A) (manifests : list (option HalManifest)) : A * bool :=
  match manifests with
  | [] => (a, false)
  | None :: ms => forEachManifest func a ms
  | Some m :: ms => let '(a, stop) := func a m in if stop then (a, true) else forEachManifest func a ms
  end.

(** [HalManifest::forEachInstance]: [false] stops it *)
Fixpoint forEachInstance {A} (func : A -> ManifestInstance -> A * bool) (a : A) (l : list ManifestInstance) : A :=
  match l with
  | [] => a
  | i :: l' => let '(a, continue) := func a i in if continue then forEachInstance func a l' else a
  end.

Record AidlName := mkName { package : string; iface : string; instance : string }.

Definition fill (name : string) : option AidlName :=
  let firstSlash := StdString.find "/" name in
  let lastDot := StdString.rfind_upto "." name firstSlash in
  match firstSlash, lastDot with
  | Some firstSlash, Some lastDot =>
    Some (mkName (substring 0 lastDot name)
                 (substring (lastDot + 1) (firstSlash - lastDot - 1) name)
                 (StdString.substr_from (firstSlash + 1) name))
  | _, _ => None
  end.

Section Manifests.

(** the device manifest and the framework manifest *)
Context (manifests : list (option HalManifest)).

Definition isVintfDeclared (name : string) : bool :=
  match fill name with
  | None => false
  | Some aname =>
    (forEachManifest (fun a m => (a, hasAidlInstance m (package aname) (iface aname) (instance aname))) tt manifests).2
  end.

Definition getVintfUpdatableApex (name : string) : option string :=
  match fill name with
  | None => None
  | Some aname =>
    (forEachManifest (fun updatableViaApex m =>
       (forEachInstance (fun u i =>
          if negb (is_aidl i) then (u, true)
          else if negb (String.eqb (mi_package i) (package aname)) then (u, true)
          else if negb (String.eqb (mi_interface i) (iface aname)) then (u, true)
          else if negb (String.eqb (mi_instance i) (instance aname)) then (u, true)
          else (mi_updatableViaApex i, false)) updatableViaApex (instances m), false)) None manifests).1
  end.

Definition getVintfInstances (interface : string) : list string :=
  match StdString.rfind "." interface with
  | None => []
  | Some lastDot =>
    let package := substring 0 lastDot interface in
    let iface := StdString.substr_from (lastDot + 1) interface in
    (forEachManifest (fun ret m => ((ret ++ getAidlInstances m package iface)%list, false)) [] manifests).1
  end.

(** [level] is the stability of the binder *)
Definition meetsDeclarationRequirements (level : Z) (name : string) : bool :=
  if negb (Stability.requiresVintfDeclaration level) then true else isVintfDeclared name.

End Manifests.

Example fill_example :
  fill "some.package.foo.IFoo/default" = Some (mkName "some.package.foo" "IFoo" "default") /\
  fill "activity" = None /\ fill "foo/a.b" = None.
Proof. by vm_compute. Qed.

End Vintf.
