(* ===== verification/ServiceManager.v ===== *)
(** * ServiceManager (cmds/servicemanager/ServiceManager.cpp, ServiceManager.h)

    The registry of the services of a device, with the callbacks of those who wait for
    a service and of the services that want to know whether they have clients. One
    definition per operation. A [std::map] is a [gmap] whose iteration visits the keys
    in increasing order; a reference into a map is a key that is looked up again at
    each use. A [CHECK] that fails, or a null pointer that is dereferenced, ends the
    process: the operation then gives [None].

    An [sp<IBinder>] is the identity of the object, or [None]; a callback interface is
    stood for by its binder ([IInterface::asBinder]). The calls to callbacks and the
    start of a lazy service are recorded in order in the field [events]. *)

From S2P Require Import Prelude ServiceAccess.
From Stdlib Require Import Ascii String.
#[local] Open Scope string_scope.
#[local] Open Scope Z_scope.

Definition IBinder := Z.

(** binder::Status; the codes are those of libs/binder/include/binder/Status.h *)
Inductive ExceptionCode := EX_SECURITY | EX_ILLEGAL_ARGUMENT | EX_NULL_POINTER | EX_ILLEGAL_STATE | EX_UNSUPPORTED_OPERATION.
Inductive Status := ok | fromExceptionCode (code : ExceptionCode).

#[export] Instance ExceptionCode_eq_dec : EqDecision ExceptionCode.
Proof. solve_decision. Defined.
#[export] Instance Status_eq_dec : EqDecision Status.
Proof. solve_decision. Defined.

(** ** The surroundings of a call *)

(** The user ids of the platform (cutils/multiuser.h, cutils/android_filesystem_config.h,
    which are not part of the repository). *)
Record Platform := mkPlatform {
  multiuser_get_app_id : Z -> Z;
  AID_APP : Z;
  AID_ISOLATED_START : Z;
  AID_ISOLATED_END : Z }.

(** A remote binder: an RPC binder or one of the driver, with its handle. *)
Inductive BpBinder := RpcBinder | DriverBinder (handle : Z).

(** What the rest of the system answers during one call: the access control, the calling
    process, for each binder its remote part, its stability and the result of
    [linkToDeath], for each handle the strong count of its node if the driver can tell
    it, and the two manifests. *)
Record env := mkEnv {
  mAccess : Access.t;
  callingPid : Z;
  remoteBinder : IBinder -> option BpBinder;
  stability_of : IBinder -> Z;
  linkToDeath : IBinder -> status_t;
  node_strong_count : Z -> option Z;
  manifests : list (option Vintf.HalManifest) }.

Inductive event :=
| onRegistration (callback : IBinder) (name : string) (binder : option IBinder)
| onClients (callback : IBinder) (binder : option IBinder) (hasClients : bool)
| interface_start (name : string).

#[export] Instance event_eq_dec : EqDecision event.
Proof. solve_decision. Defined.

(** [ProcessState::getStrongRefCountForNode] (libs/binder/ProcessState.cpp) *)
Definition getStrongRefCountForNode (e : env) (binder : BpBinder) : Z :=
  match binder with
  | RpcBinder => -1
  | DriverBinder handle => match node_strong_count e handle with Some strong_count => strong_count | None => -1 end
  end.

(** ** The state *)

Module Service.

Record t := mk {
  binder : option IBinder;
  allowIsolated : bool;
  dumpPriority : Z;
  hasClients : bool;
  guaranteeClient : bool;
  debugPid : Z }.

Definition eta (s : t) : t := mk (binder s) (allowIsolated s) (dumpPriority s) (hasClients s) (guaranteeClient s) (debugPid s).
#[global] Instance set_hasClients : Setter hasClients := ltac:(setter_of eta hasClients).
#[global] Instance set_guaranteeClient : Setter guaranteeClient := ltac:(setter_of eta guaranteeClient).

(** [None] when [binder] is null *)
Definition getNodeStrongRefCount (e : env) (s : t) : option Z :=
  b ← binder s;
  Some match remoteBinder e b with
       | None => -1
       | Some bpBinder => getStrongRefCountForNode e bpBinder
       end.

End Service.

Notation CallbackMap := (gmap string (list IBinder)).

Record t := mk {
  mNameToService : gmap string Service.t;
  mNameToRegistrationCallback : CallbackMap;
  mNameToClientCallback : CallbackMap;
  events : list event }.

Definition eta (s : t) : t := mk (mNameToService s) (mNameToRegistrationCallback s) (mNameToClientCallback s) (events s).
#[global] Instance set_mNameToService : Setter mNameToService := ltac:(setter_of eta mNameToService).
#[global] Instance set_mNameToRegistrationCallback : Setter mNameToRegistrationCallback := ltac:(setter_of eta mNameToRegistrationCallback).
#[global] Instance set_mNameToClientCallback : Setter mNameToClientCallback := ltac:(setter_of eta mNameToClientCallback).
#[global] Instance set_events : Setter events := ltac:(setter_of eta events).

Definition emit (l : list event) (s : t) : t := s <| events := (events s ++ l)%list |>.

(** the keys of a [std::map], in the order of its iterators *)
Definition keys {A} (m : gmap string A) : list string := merge_sort String.le (map_to_list m).*1.

Definition initial : t := mk ∅ ∅ ∅ [].

(** The tests of the destructor. *)
Definition destructor_checks (s : t) : bool :=
  forallb (fun name => match mNameToRegistrationCallback s !! name with Some [] => false | _ => true end) (keys (mNameToRegistrationCallback s)) &&
  forallb (fun name => match mNameToService s !! name with
                       | Some service => bool_decide (Service.binder service <> None) | None => true end) (keys (mNameToService s)).

(** ** Names *)

Definition valid_char (c : ascii) : bool :=
  let n := Z.of_nat (nat_of_ascii c) in
  Ascii.eqb c "_" || Ascii.eqb c "-" || Ascii.eqb c "." || Ascii.eqb c "/" ||
  ((97 <=? n) && (n <=? 122)) || ((65 <=? n) && (n <=? 90)) || ((48 <=? n) && (n <=? 57)).

Fixpoint valid_chars (name : string) : bool :=
  match name with EmptyString => true | String c name' => valid_char c && valid_chars name' end.

Definition isValidServiceName (name : string) : bool :=
  if (String.length name =? 0)%nat then false
  else if (127 <? String.length name)%nat then false
  else valid_chars name.

Section ServiceManager.

(** [vendor]: compiled with VENDORSERVICEMANAGER *)
Context (pf : Platform) (vendor : bool).

(** ** Finding a service *)

Definition isIsolated (ctx : Access.CallingContext) : bool :=
  let appid := multiuser_get_app_id pf (Access.uid ctx) in
  (AID_ISOLATED_START pf <=? appid) && (appid <=? AID_ISOLATED_END pf).

Definition update_service (name : string) (f : Service.t -> Service.t) (s : t) : t :=
  s <| mNameToService := alter f name (mNameToService s) |>.

Definition tryStartService (name : string) (s : t) : t := emit [interface_start name] s.

Definition tryGetService (e : env) (s : t) (name : string) (startIfNotFound : bool) : option IBinder * t :=
  let ctx := Access.getCallingContext (mAccess e) in
  let service := mNameToService s !! name in
  let refused := match service with Some sv => negb (Service.allowIsolated sv) && isIsolated ctx | None => false end in
  if refused then (None, s)
  else
    let out := service ≫= Service.binder in
    if negb (Access.canFind (mAccess e) ctx name) then (None, s)
    else
      let s := if bool_decide (out = None) && startIfNotFound then tryStartService name s else s in
      let s := if bool_decide (out <> None)
               then update_service name (fun sv => sv <| Service.guaranteeClient := true |>) s else s in
      (out, s).

Definition getService (e : env) (s : t) (name : string) : Status * option IBinder * t :=
  let '(out, s) := tryGetService e s name true in (ok, out, s).
Definition checkService (e : env) (s : t) (name : string) : Status * option IBinder * t :=
  let '(out, s) := tryGetService e s name false in (ok, out, s).

(** ** Adding a service *)

(** the loop over the callbacks that wait for [name] *)
Fixpoint notify_registration (name : string) (binder : IBinder) (callbacks : list IBinder) (s : t) : t :=
  match callbacks with
  | [] => s
  | cb :: callbacks' =>
    let s := update_service name (fun sv => sv <| Service.guaranteeClient := true |>) s in
    notify_registration name binder callbacks' (emit [onRegistration cb name (Some binder)] s)
  end.

Definition addService (e : env) (s : t) (name : string) (binder : option IBinder) (allowIsolated : bool) (dumpPriority : Z) : Status * t :=
  let ctx := Access.getCallingContext (mAccess e) in
  if AID_APP pf <=? multiuser_get_app_id pf (Access.uid ctx) then (fromExceptionCode EX_SECURITY, s)
  else if negb (Access.canAdd (mAccess e) ctx name) then (fromExceptionCode EX_SECURITY, s)
  else
    match binder with
    | None => (fromExceptionCode EX_ILLEGAL_ARGUMENT, s)
    | Some b =>
      if negb (isValidServiceName name) then (fromExceptionCode EX_ILLEGAL_ARGUMENT, s)
      else if negb vendor && negb (Vintf.meetsDeclarationRequirements (manifests e) (stability_of e b) name)
      then (fromExceptionCode EX_ILLEGAL_ARGUMENT, s)
      else if bool_decide (remoteBinder e b <> None) && negb (linkToDeath e b =? OK) then (fromExceptionCode EX_ILLEGAL_STATE, s)
      else
        let service := Service.mk (Some b) allowIsolated dumpPriority false false (Access.debugPid ctx) in
        let s := s <| mNameToService := <[name := service]> (mNameToService s) |> in
        let s := match mNameToRegistrationCallback s !! name with
                 | Some callbacks => notify_registration name b callbacks s
                 | None => s
                 end in
        (ok, s)
    end.

(** ** Listing *)

Definition has_priority (dumpPriority : Z) (s : t) (name : string) : bool :=
  match mNameToService s !! name with
  | Some service => negb (Z.land (Service.dumpPriority service) dumpPriority =? 0)
  | None => false
  end.

(** [outList] is the vector of the caller *)
Definition listServices (e : env) (s : t) (dumpPriority : Z) (outList : list string) : option (Status * list string) :=
  if negb (Access.canList (mAccess e) (Access.getCallingContext (mAccess e))) then Some (fromExceptionCode EX_SECURITY, outList)
  else if negb (bool_decide (outList = [])) then None
  else Some (ok, foldl (fun outList name => if has_priority dumpPriority s name then (outList ++ [name])%list else outList)
                   outList (keys (mNameToService s))).

Definition getServiceDebugInfo (e : env) (s : t) (outReturn : list (string * Z)) : Status * list (string * Z) :=
  if negb (Access.canList (mAccess e) (Access.getCallingContext (mAccess e))) then (fromExceptionCode EX_SECURITY, outReturn)
  else (ok, foldl (fun out name => match mNameToService s !! name with
                                   | Some service => (out ++ [(name, Service.debugPid service)])%list
                                   | None => out end) outReturn (keys (mNameToService s))).

(** ** Registration callbacks *)

(** [m[name].push_back(cb)] *)
Definition push_back (name : string) (cb : IBinder) (m : CallbackMap) : CallbackMap :=
  <[name := (default [] (m !! name) ++ [cb])%list]> m.

Definition registerForNotifications (e : env) (s : t) (name : string) (callback : option IBinder) : option (Status * t) :=
  let ctx := Access.getCallingContext (mAccess e) in
  if negb (Access.canFind (mAccess e) ctx name) then Some (fromExceptionCode EX_SECURITY, s)
  else if negb (isValidServiceName name) then Some (fromExceptionCode EX_ILLEGAL_ARGUMENT, s)
  else
    match callback with
    | None => Some (fromExceptionCode EX_NULL_POINTER, s)
    | Some cb =>
      if negb (linkToDeath e cb =? OK) then Some (fromExceptionCode EX_ILLEGAL_STATE, s)
      else
        let s := s <| mNameToRegistrationCallback := push_back name cb (mNameToRegistrationCallback s) |> in
        match mNameToService s !! name with
        | None => Some (ok, s)
        | Some service =>
          match Service.binder service with
          | None => None
          | Some b => Some (ok, emit [onRegistration cb name (Some b)] s)
          end
        end
    end.

(** the loop that erases the listeners with binder [who] *)
Fixpoint erase_listeners (who : option IBinder) (listeners : list IBinder) : bool * list IBinder :=
  match listeners with
  | [] => (false, [])
  | l :: listeners' =>
    let '(found, rest) := erase_listeners who listeners' in
    if bool_decide (Some l = who) then (true, rest) else (found, l :: rest)
  end.

(** [removeRegistrationCallback] and [removeClientCallback] at the entry of [name] *)
Definition remove_callback (who : option IBinder) (name : string) (m : CallbackMap) : bool * CallbackMap :=
  match m !! name with
  | None => (false, m)
  | Some listeners =>
    let '(found, listeners) := erase_listeners who listeners in
    (found, if bool_decide (listeners = []) then delete name m else <[name := listeners]> m)
  end.

Definition unregisterForNotifications (e : env) (s : t) (name : string) (callback : option IBinder) : Status * t :=
  let ctx := Access.getCallingContext (mAccess e) in
  if negb (Access.canFind (mAccess e) ctx name) then (fromExceptionCode EX_SECURITY, s)
  else
    let '(found, m) := remove_callback callback name (mNameToRegistrationCallback s) in
    let s := s <| mNameToRegistrationCallback := m |> in
    if negb found then (fromExceptionCode EX_ILLEGAL_STATE, s) else (ok, s).

(** ** Declarations *)

(** [outReturn] is the variable of the caller *)
Definition isDeclared (e : env) (name : string) (outReturn : bool) : Status * bool :=
  if negb (Access.canFind (mAccess e) (Access.getCallingContext (mAccess e)) name) then (fromExceptionCode EX_SECURITY, outReturn)
  else (ok, if vendor then false else Vintf.isVintfDeclared (manifests e) name).

Definition getDeclaredInstances (e : env) (interface : string) : Status * list string :=
  let ctx := Access.getCallingContext (mAccess e) in
  let allInstances := if vendor then [] else Vintf.getVintfInstances (manifests e) interface in
  let outReturn := foldl (fun out i => if Access.canFind (mAccess e) ctx (interface ++ "/" ++ i) then (out ++ [i])%list else out) [] allInstances in
  if bool_decide (outReturn = []) && negb (bool_decide (allInstances = [])) then (fromExceptionCode EX_SECURITY, outReturn)
  else (ok, outReturn).

Definition updatableViaApex (e : env) (name : string) (outReturn : option string) : Status * option string :=
  if negb (Access.canFind (mAccess e) (Access.getCallingContext (mAccess e)) name) then (fromExceptionCode EX_SECURITY, outReturn)
  else (ok, if vendor then None else Vintf.getVintfUpdatableApex (manifests e) name).

(** ** Death of a binder *)

Definition binderDied (s : t) (who : IBinder) : t :=
  let s := s <| mNameToService :=
    foldl (fun m name => match m !! name with
                         | Some service => if bool_decide (Some who = Service.binder service) then delete name m else m
                         | None => m end) (mNameToService s) (keys (mNameToService s)) |> in
  let s := s <| mNameToRegistrationCallback :=
    foldl (fun m name => (remove_callback (Some who) name m).2) (mNameToRegistrationCallback s) (keys (mNameToRegistrationCallback s)) |> in
  s <| mNameToClientCallback :=
    foldl (fun m name => (remove_callback (Some who) name m).2) (mNameToClientCallback s) (keys (mNameToClientCallback s)) |>.

(** ** Client callbacks *)

Definition registerClientCallback (e : env) (s : t) (name : string) (service cb : option IBinder) : Status * t :=
  match cb with
  | None => (fromExceptionCode EX_NULL_POINTER, s)
  | Some cb =>
    if negb (Access.canAdd (mAccess e) (Access.getCallingContext (mAccess e)) name) then (fromExceptionCode EX_SECURITY, s)
    else
      match mNameToService s !! name with
      | None => (fromExceptionCode EX_ILLEGAL_ARGUMENT, s)
      | Some sv =>
        if negb (Service.debugPid sv =? callingPid e) then (fromExceptionCode EX_UNSUPPORTED_OPERATION, s)
        else if negb (bool_decide (Service.binder sv = service)) then (fromExceptionCode EX_ILLEGAL_ARGUMENT, s)
        else if negb (linkToDeath e cb =? OK) then (fromExceptionCode EX_ILLEGAL_STATE, s)
        else (ok, s <| mNameToClientCallback := push_back name cb (mNameToClientCallback s) |>)
      end
  end.

Definition sendClientCallbackNotifications (s : t) (serviceName : string) (hasClients : bool) : option t :=
  match mNameToService s !! serviceName with
  | None => Some s
  | Some service =>
    if negb (xorb hasClients (Service.hasClients service)) then None
    else
      match mNameToClientCallback s !! serviceName with
      | None => None
      | Some callbacks =>
        let s := emit (map (fun callback => onClients callback (Service.binder service) hasClients) callbacks) s in
        Some (update_service serviceName (fun sv => sv <| Service.hasClients := hasClients |>) s)
      end
  end.

(** what [service.hasClients] reads in state [s] *)
Definition recorded (s : t) (name : string) : bool :=
  match mNameToService s !! name with Some sv => Service.hasClients sv | None => false end.

Definition send_if (b : bool) (s : t) (serviceName : string) (hasClients : bool) : option t :=
  if b then sendClientCallbackNotifications s serviceName hasClients else Some s.

Definition handleServiceClientCallback (e : env) (s : t) (serviceName : string) (isCalledOnInterval : bool) : option (Z * t) :=
  match mNameToService s !! serviceName, mNameToClientCallback s !! serviceName with
  | Some service, Some _ =>
    count ← Service.getNodeStrongRefCount e service;
    if count =? -1 then Some (count, s)
    else
      let hasClients := 1 <? count in
      s ← (if Service.guaranteeClient service then
             s ← send_if (negb (recorded s serviceName) && negb hasClients) s serviceName true;
             Some (update_service serviceName (fun sv => sv <| Service.guaranteeClient := false |>) s)
           else Some s);
      s ← (if isCalledOnInterval then
             s ← send_if (hasClients && negb (recorded s serviceName)) s serviceName true;
             send_if (negb hasClients && recorded s serviceName) s serviceName false
           else Some s);
      Some (count, s)
  | _, _ => Some (-1, s)
  end.

Fixpoint handle_each (e : env) (names : list string) (s : t) : option t :=
  match names with
  | [] => Some s
  | name :: names' => r ← handleServiceClientCallback e s name true; handle_each e names' r.2
  end.

Definition handleClientCallbacks (e : env) (s : t) : option t := handle_each e (keys (mNameToService s)) s.

(** ** Removing a service *)

Definition tryUnregisterService (e : env) (s : t) (name : string) (binder : option IBinder) : option (Status * t) :=
  match binder with
  | None => Some (fromExceptionCode EX_NULL_POINTER, s)
  | Some _ =>
    if negb (Access.canAdd (mAccess e) (Access.getCallingContext (mAccess e)) name) then Some (fromExceptionCode EX_SECURITY, s)
    else
      match mNameToService s !! name with
      | None => Some (fromExceptionCode EX_ILLEGAL_STATE, s)
      | Some service =>
        if negb (Service.debugPid service =? callingPid e) then Some (fromExceptionCode EX_UNSUPPORTED_OPERATION, s)
        else if negb (bool_decide (binder = Service.binder service)) then Some (fromExceptionCode EX_ILLEGAL_STATE, s)
        else if Service.guaranteeClient service then Some (fromExceptionCode EX_ILLEGAL_STATE, s)
        else
          r ← handleServiceClientCallback e s name false;
          let clients := int32 r.1 in
          let s := r.2 in
          if (clients <? 0) || (2 <? clients)
          then Some (fromExceptionCode EX_ILLEGAL_STATE, update_service name (fun sv => sv <| Service.guaranteeClient := true |>) s)
          else Some (ok, s <| mNameToService := delete name (mNameToService s) |>)
      end
  end.

(** ** Calls *)

(** What reaches the service manager: transactions, deaths and the timer of main.cpp. *)
Inductive call :=
| Call_getService (name : string)
| Call_checkService (name : string)
| Call_addService (name : string) (binder : option IBinder) (allowIsolated : bool) (dumpPriority : Z)
| Call_listServices (dumpPriority : Z)
| Call_registerForNotifications (name : string) (callback : option IBinder)
| Call_unregisterForNotifications (name : string) (callback : option IBinder)
| Call_isDeclared (name : string)
| Call_getDeclaredInstances (interface : string)
| Call_updatableViaApex (name : string)
| Call_registerClientCallback (name : string) (service cb : option IBinder)
| Call_tryUnregisterService (name : string) (binder : option IBinder)
| Call_getServiceDebugInfo
| Death (who : IBinder)
| Timer.

Inductive reply :=
| Reply (status : Status)
| Reply_binder (status : Status) (out : option IBinder)
| Reply_names (status : Status) (out : list string)
| Reply_bool (status : Status) (out : bool)
| Reply_apex (status : Status) (out : option string)
| Reply_debug (status : Status) (out : list (string * Z))
| No_reply.

(** The server stub passes empty results. *)
Definition perform (e : env) (s : t) (k : call) : option (reply * t) :=
  match k with
  | Call_getService name => let '(st, out, s) := getService e s name in Some (Reply_binder st out, s)
  | Call_checkService name => let '(st, out, s) := checkService e s name in Some (Reply_binder st out, s)
  | Call_addService name binder iso prio => let '(st, s) := addService e s name binder iso prio in Some (Reply st, s)
  | Call_listServices prio => r ← listServices e s prio []; Some (Reply_names r.1 r.2, s)
  | Call_registerForNotifications name cb => r ← registerForNotifications e s name cb; Some (Reply r.1, r.2)
  | Call_unregisterForNotifications name cb => let '(st, s) := unregisterForNotifications e s name cb in Some (Reply st, s)
  | Call_isDeclared name => let '(st, out) := isDeclared e name false in Some (Reply_bool st out, s)
  | Call_getDeclaredInstances i => let '(st, out) := getDeclaredInstances e i in Some (Reply_names st out, s)
  | Call_updatableViaApex name => let '(st, out) := updatableViaApex e name None in Some (Reply_apex st out, s)
  | Call_registerClientCallback name service cb => let '(st, s) := registerClientCallback e s name service cb in Some (Reply st, s)
  | Call_tryUnregisterService name binder => r ← tryUnregisterService e s name binder; Some (Reply r.1, r.2)
  | Call_getServiceDebugInfo => let '(st, out) := getServiceDebugInfo e s [] in Some (Reply_debug st out, s)
  | Death who => Some (No_reply, binderDied s who)
  | Timer => s ← handleClientCallbacks e s; Some (No_reply, s)
  end.

(** The states that any sequence of calls leads to. *)
Inductive reachable : t -> Prop :=
| reachable_initial : reachable initial
| reachable_call s e k r s' : reachable s -> perform e s k = Some (r, s') -> reachable s'.

End ServiceManager.
