(* ===== verification/ServiceManagerLemmas.v ===== *)
(** * Lemmas about the service manager

    Names in the form [package.iface/instance], iteration over a [std::map], the loops
    of [binderDied], and the invariant of the registry. *)

From S2P Require Import Prelude ServiceAccess ServiceManager.
From Stdlib Require Import Ascii String.
#[local] Open Scope string_scope.
#[local] Open Scope Z_scope.

(** ** std::string *)

Fixpoint has_char (c : ascii) (s : string) : bool :=
  match s with EmptyString => false | String a s' => Ascii.eqb a c || has_char c s' end.

Lemma append_cons x a b : String x a ++ b = String x (a ++ b).
Proof. done. Qed.

Lemma append_nil b : EmptyString ++ b = b.
Proof. done. Qed.

Create Rewrite HintDb strings.
#[export] Hint Rewrite append_cons append_nil : strings.
(** [simpl] that also computes with [append] *)
Ltac string_simpl := repeat (progress (simpl in *; autorewrite with strings in * )).

Lemma find_app c a b : has_char c a = false -> StdString.find c (a ++ String c b) = Some (String.length a).
Proof.
  induction a as [|x a IH]; string_simpl; intros H.
  - by rewrite Ascii.eqb_refl.
  - bool_to_prop. by rewrite H, IH.
Qed.

Lemma find_split c s n : StdString.find c s = Some n ->
  exists a b, s = a ++ String c b /\ n = String.length a /\ has_char c a = false.
Proof.
  revert n. induction s as [|x s IH]; intros n; string_simpl; [done|]. destruct (Ascii.eqb x c) eqn:E.
  - intros [= <-]. apply Ascii.eqb_eq in E as ->. by exists EmptyString, s.
  - destruct (StdString.find c s) as [m|]; string_simpl; [|done]. intros [= <-].
    destruct (IH m eq_refl) as (a & b & -> & -> & Ha). exists (String x a), b. string_simpl. by rewrite E.
Qed.

Lemma rfind_none c s : has_char c s = false -> StdString.rfind c s = None.
Proof. induction s as [|x s IH]; string_simpl; intros H; [done|]. bool_to_prop. by rewrite IH, H. Qed.

Lemma rfind_app c a b : has_char c b = false -> StdString.rfind c (a ++ String c b) = Some (String.length a).
Proof.
  intros H. induction a as [|x a IH]; string_simpl.
  - by rewrite rfind_none, Ascii.eqb_refl.
  - by rewrite IH.
Qed.

Lemma rfind_split c s n : StdString.rfind c s = Some n ->
  exists a b, s = a ++ String c b /\ n = String.length a /\ has_char c b = false.
Proof.
  revert n. induction s as [|x s IH]; intros n; string_simpl; [done|]. destruct (StdString.rfind c s) as [m|] eqn:Er.
  - intros [= <-]. destruct (IH m eq_refl) as (a & b & -> & -> & Hb). by exists (String x a), b.
  - destruct (Ascii.eqb x c) eqn:E; [|done]. intros [= <-]. apply Ascii.eqb_eq in E as ->. exists EmptyString, s.
    split; [done|]. split; [done|]. clear -Er. induction s as [|y s IH]; [done|]. string_simpl.
    destruct (StdString.rfind c s); [done|]. destruct (Ascii.eqb y c); [done|]. by apply IH.
Qed.

Lemma has_char_app c a b : has_char c (a ++ b) = has_char c a || has_char c b.
Proof. induction a as [|x a IH]; string_simpl; [done|]. by rewrite IH, orb_assoc. Qed.

Lemma length_append a b : String.length (a ++ b) = (String.length a + String.length b)%nat.
Proof. induction a; string_simpl; auto. Qed.

Lemma append_assoc a b c : (a ++ b) ++ c = a ++ (b ++ c).
Proof. induction a as [|x a IH]; string_simpl; [done|]. by rewrite IH. Qed.

Lemma substring_all s n : (String.length s <= n)%nat -> substring 0 n s = s.
Proof. revert n. induction s as [|x s IH]; intros [|n]; string_simpl; intros H; try done; [lia|]. rewrite IH; [done|lia]. Qed.

Lemma substring_prefix a b n : n = String.length a -> substring 0 n (a ++ b) = a.
Proof. intros ->. induction a as [|x a IH]; string_simpl; [by destruct b|]. by rewrite IH. Qed.

Lemma substring_skip a b n m : substring (String.length a + n) m (a ++ b) = substring n m b.
Proof. induction a as [|x a IH]; string_simpl; [done|done]. Qed.

(** the parts of a name are where [fill] looks for them *)
Lemma fill_parts p i n : has_char "/" p = false -> has_char "/" i = false -> has_char "." i = false ->
  Vintf.fill (p ++ "." ++ i ++ "/" ++ n) = Some (Vintf.mkName p i n).
Proof.
  intros Hp Hi1 Hi2. unfold Vintf.fill. set (name := p ++ "." ++ i ++ "/" ++ n).
  assert (name = (p ++ String "." i) ++ String "/" n) as Hname by (unfold name; by rewrite append_assoc).
  assert (StdString.find "/" name = Some (String.length (p ++ String "." i))) as ->.
  { rewrite Hname. apply find_app. rewrite has_char_app. string_simpl. by rewrite Hp, Hi1. }
  cbn [StdString.rfind_upto].
  assert (substring 0 (S (String.length (p ++ String "." i))) name = p ++ String "." (i ++ "/")) as ->.
  { rewrite Hname. replace ((p ++ String "." i) ++ String "/" n) with ((p ++ String "." (i ++ "/")) ++ n)
      by (by rewrite !append_assoc; string_simpl; rewrite append_assoc).
    apply substring_prefix. rewrite !length_append. string_simpl. rewrite length_append. string_simpl. lia. }
  rewrite rfind_app by (rewrite has_char_app; string_simpl; by rewrite Hi2).
  f_equal. f_equal.
  - apply substring_prefix. done.
  - rewrite length_append. string_simpl. unfold name. rewrite (substring_skip p (String "." (i ++ "/" ++ n)) 1). string_simpl.
    change (String "/" n) with ("/" ++ n). destruct (i ++ "/" ++ n) eqn:E; [by destruct i|]. rewrite <- E.
    apply substring_prefix. lia.
  - rewrite Hname. unfold StdString.substr_from. rewrite (substring_skip _ (String "/" n) 1). string_simpl.
    destruct n as [|x n']; [by destruct (_ - _)%nat|]. apply substring_all. rewrite length_append. string_simpl. lia.
Qed.

Lemma fill_inv name a : Vintf.fill name = Some a ->
  exists p i n, name = p ++ "." ++ i ++ "/" ++ n /\ has_char "/" p = false /\ has_char "/" i = false /\ has_char "." i = false.
Proof.
  unfold Vintf.fill. destruct (StdString.find "/" name) as [fs|] eqn:Ef; [|done]. cbn [StdString.rfind_upto].
  destruct (find_split _ _ _ Ef) as (l & n & -> & -> & Hl).
  assert (substring 0 (S (String.length l)) (l ++ String "/" n) = l ++ "/") as ->.
  { replace (l ++ String "/" n) with ((l ++ "/") ++ n) by (by rewrite append_assoc).
    apply substring_prefix. rewrite length_append. string_simpl. lia. }
  destruct (StdString.rfind "." (l ++ "/")) as [ld|] eqn:Er; [intros _|done].
  destruct (rfind_split _ _ _ Er) as (p & b & Hpb & -> & Hb).
  assert (exists i, b = i ++ "/" /\ l = p ++ String "." i) as (i & -> & ->).
  { clear -Hpb. revert l Hpb. induction p as [|x p IH]; intros [|y l]; string_simpl; intros [= -> Hpb].
    - exists l. split; [by rewrite Hpb|done].
    - by destruct p.
    - destruct (IH l Hpb) as (i & -> & ->). by exists i. }
  rewrite has_char_app in Hl, Hb. string_simpl. bool_to_prop. exists p, i, n. rewrite append_assoc. split; [done|]. naive_solver.
Qed.

(** ** Iteration over a map *)

Section Keys.
Context {A : Type}.
Implicit Types m : gmap string A.

Lemma elem_of_keys m name : name ∈ keys m <-> is_Some (m !! name).
Proof.
  unfold keys. rewrite (merge_sort_Permutation String.le), list_elem_of_fmap. split.
  - intros [[k v] [-> Hin]]. apply elem_of_map_to_list in Hin. by exists v.
  - intros [v Hv]. exists (name, v). split; [done|]. by apply elem_of_map_to_list.
Qed.

Lemma NoDup_keys m : NoDup (keys m).
Proof. unfold keys. rewrite (merge_sort_Permutation String.le). apply NoDup_fst_map_to_list. Qed.

Lemma keys_sorted m : StronglySorted String.le (keys m).
Proof. apply StronglySorted_merge_sort; apply _. Qed.

(** A loop that treats the entries of a map one by one. *)
Lemma foldl_entries (body : gmap string A -> string -> gmap string A) (f : A -> option A) m :
  (forall m name n, body m name !! n = if decide (n = name) then m !! n ≫= f else m !! n) ->
  foldl body m (keys m) = omap f m.
Proof.
  intros Hbody. assert (forall l m0 n, NoDup l -> foldl body m0 l !! n = if decide (n ∈ l) then m0 !! n ≫= f else m0 !! n) as Hfold.
  { induction l as [|x l IH]; intros m0 n Hl; simpl; [done|]. apply NoDup_cons in Hl as [Hx Hl].
    rewrite IH by done. rewrite Hbody. destruct (decide (n = x)) as [->|Hne].
    - rewrite (decide_False (P := x ∈ l)) by done. by rewrite decide_True by set_solver.
    - destruct (decide (n ∈ l)); [by rewrite decide_True by set_solver|by rewrite decide_False by set_solver]. }
  apply map_eq. intros n. rewrite Hfold, lookup_omap by apply NoDup_keys. destruct (decide (n ∈ keys m)) as [|Hn]; [done|].
  rewrite elem_of_keys, <- eq_None_not_Some in Hn. by rewrite Hn.
Qed.

End Keys.

(** ** Callbacks *)

(** the listeners that remain when [who] goes; an entry does not stay empty *)
Definition without (who : option IBinder) (l : list IBinder) : list IBinder := filter (fun b => Some b <> who) l.
Definition remaining (who : IBinder) (l : list IBinder) : option (list IBinder) :=
  if bool_decide (without (Some who) l = []) then None else Some (without (Some who) l).

Lemma erase_listeners_spec who l :
  erase_listeners who l = (bool_decide (Exists (fun b => Some b = who) l), without who l).
Proof.
  induction l as [|x l IH]; simpl; [done|]. rewrite IH. unfold without. rewrite filter_cons.
  destruct (decide (Some x = who)) as [Hx|Hx].
  - rewrite bool_decide_eq_true_2, decide_False by tauto. f_equal. symmetry. apply bool_decide_eq_true. by constructor.
  - rewrite bool_decide_eq_false_2, decide_True by tauto. f_equal. apply bool_decide_ext. rewrite Exists_cons. tauto.
Qed.

Lemma without_none who l : ~ Exists (fun b => Some b = who) l -> without who l = l.
Proof.
  unfold without. induction l as [|x l IH]; intros H; [done|]. rewrite Exists_cons in H.
  rewrite filter_cons, decide_True, IH by tauto. done.
Qed.

Lemma lookup_remove_callback who name m n :
  (remove_callback (Some who) name m).2 !! n = if decide (n = name) then m !! n ≫= remaining who else m !! n.
Proof.
  unfold remove_callback. destruct (decide (n = name)) as [->|Hne].
  - destruct (m !! name) as [l|] eqn:El; simpl; [|by rewrite El]. rewrite erase_listeners_spec. simpl. unfold remaining.
    case_bool_decide; simpl; [by rewrite lookup_delete_eq|by rewrite lookup_insert_eq].
  - destruct (m !! name) as [l|] eqn:El; [|done]. rewrite erase_listeners_spec. simpl.
    case_bool_decide; simpl; [by rewrite lookup_delete_ne|by rewrite lookup_insert_ne].
Qed.

(** the loops of [binderDied] *)
Lemma binderDied_spec s who : binderDied s who =
  mk (omap (fun sv => if bool_decide (Some who = Service.binder sv) then None else Some sv) (mNameToService s))
     (omap (remaining who) (mNameToRegistrationCallback s)) (omap (remaining who) (mNameToClientCallback s)) (events s).
Proof.
  unfold binderDied, with_field, set_mNameToService, set_mNameToRegistrationCallback, set_mNameToClientCallback. cbn.
  f_equal; apply foldl_entries; [|intros; apply lookup_remove_callback..].
  intros m name n. destruct (decide (n = name)) as [->|Hne].
  - destruct (m !! name) as [sv|] eqn:Es; simpl; [|done]. case_bool_decide; [apply lookup_delete_eq|done].
  - destruct (m !! name) as [sv|]; [|done]. case_bool_decide; [by apply lookup_delete_ne|done].
Qed.

(** ** The invariant of the registry *)

Definition no_empty (m : CallbackMap) : Prop := forall name l, m !! name = Some l -> l <> [].

Record wf (s : t) : Prop := {
  wf_binder name sv : mNameToService s !! name = Some sv -> Service.binder sv <> None;
  wf_name name : is_Some (mNameToService s !! name) -> isValidServiceName name = true;
  wf_callback_name name : is_Some (mNameToRegistrationCallback s !! name) -> isValidServiceName name = true;
  wf_registration : no_empty (mNameToRegistrationCallback s);
  wf_client : no_empty (mNameToClientCallback s) }.

Lemma no_empty_push name cb m : no_empty m -> no_empty (push_back name cb m).
Proof.
  intros H n l. unfold push_back. destruct (decide (n = name)) as [->|Hne].
  - rewrite lookup_insert_eq. intros [= <-]. by destruct (default [] _).
  - rewrite lookup_insert_ne by done. apply H.
Qed.

Lemma no_empty_remaining who m : no_empty (omap (remaining who) m).
Proof.
  intros n l. rewrite lookup_omap. destruct (m !! n); simpl; [|done]. unfold remaining.
  case_bool_decide; naive_solver.
Qed.

Lemma no_empty_remove who name m : no_empty m -> no_empty (remove_callback who name m).2.
Proof.
  intros H n l. unfold remove_callback. destruct (m !! name) as [l0|] eqn:El; [|apply H].
  rewrite erase_listeners_spec. simpl. case_bool_decide as Hl.
  - intros [_ Hn]%lookup_delete_Some. eauto.
  - intros [[-> <-]|[_ Hn]]%lookup_insert_Some; eauto.
Qed.

(** Two states that differ in the flags of services and in the events only. *)
Definition same_registration (a b : Service.t) : Prop :=
  Service.binder a = Service.binder b /\ Service.allowIsolated a = Service.allowIsolated b /\
  Service.dumpPriority a = Service.dumpPriority b /\ Service.debugPid a = Service.debugPid b.

Record flags_only (s s' : t) : Prop := {
  fo_services name : option_Forall2 same_registration (mNameToService s !! name) (mNameToService s' !! name);
  fo_registration : mNameToRegistrationCallback s' = mNameToRegistrationCallback s;
  fo_client : mNameToClientCallback s' = mNameToClientCallback s }.

#[export] Instance same_registration_refl : Reflexive same_registration.
Proof. by repeat split. Qed.

#[export] Instance flags_only_preorder : PreOrder flags_only.
Proof.
  split.
  - intros s. split; [|done..]. intros name. reflexivity.
  - intros s1 s2 s3 [H1 H2 H3] [H4 H5 H6]. split; [|congruence..]. intros name. specialize (H1 name). specialize (H4 name).
    destruct H1; inversion H4; subst; constructor. unfold same_registration in *. intuition congruence.
Qed.

Lemma flags_only_update f name s : (forall sv, same_registration sv (f sv)) -> flags_only s (update_service name f s).
Proof.
  intros Hf. split; [|done..]. intros n. cbn. destruct (decide (n = name)) as [->|Hne].
  - rewrite lookup_alter_eq. destruct (mNameToService s !! name); simpl; constructor; auto.
  - by rewrite lookup_alter_ne.
Qed.

Lemma flags_only_emit l s : flags_only s (emit l s).
Proof. split; [|done..]. intros n. reflexivity. Qed.

Lemma wf_flags s s' : flags_only s s' -> wf s -> wf s'.
Proof.
  intros [Hs Hr Hc] [H1 H2 H3 H4 H5]. constructor; rewrite ?Hr, ?Hc; auto.
  - intros name sv Hsv. specialize (Hs name). rewrite Hsv in Hs. inversion Hs as [x y [Hb _] Hx|]; subst. rewrite <- Hb. eauto.
  - intros name [sv Hsv]. apply H2. specialize (Hs name). rewrite Hsv in Hs. inversion Hs; subst; eauto.
Qed.

Lemma wf_emit l s : wf s -> wf (emit l s).
Proof. apply wf_flags, flags_only_emit. Qed.

Lemma alter_twice {A} (f g h : A -> A) (m : gmap string A) name : (forall x, f (g x) = h x) -> alter f name (alter g name m) = alter h name m.
Proof.
  intros H. apply map_eq. intros n. destruct (decide (n = name)) as [->|Hne].
  - rewrite !lookup_alter_eq. destruct (m !! name); simpl; [by rewrite H|done].
  - by rewrite !lookup_alter_ne.
Qed.

Lemma untouched f name s : (forall sv, mNameToService s !! name = Some sv -> f sv = sv) -> emit [] (update_service name f s) = s.
Proof.
  intros H. unfold emit, update_service, with_field, set_mNameToService, set_events. destruct s as [m r c ev]. cbn in *.
  rewrite app_nil_r. f_equal. by apply alter_id.
Qed.

(** ** Client callbacks

    While the clients of the service [name] are checked only its two flags change and
    notices are sent; [checked] describes such a state. *)

Definition set_flags (hasClients guarantee : bool) (sv : Service.t) : Service.t :=
  sv <| Service.hasClients := hasClients |> <| Service.guaranteeClient := guarantee |>.

(** the notices that the flags and the count of clients call for *)
Definition transitions (recorded guarantee hasClients : bool) : list bool :=
  match recorded, hasClients with
  | true, true => []
  | true, false => [false]
  | false, true => [true]
  | false, false => if guarantee then [true; false] else []
  end.

Definition notices (callbacks : list IBinder) (binder : option IBinder) (l : list bool) : list event :=
  List.concat (map (fun b => map (fun cb => onClients cb binder b) callbacks) l).

Section Checked.

Context (s : t) (name : string) (sv : Service.t) (callbacks : list IBinder).
Hypothesis Hservice : mNameToService s !! name = Some sv.
Hypothesis Hclient : mNameToClientCallback s !! name = Some callbacks.

Definition checked (b g : bool) (l : list bool) : t :=
  emit (notices callbacks (Service.binder sv) l) (update_service name (set_flags b g) s).

Lemma checked_start : s = checked (Service.hasClients sv) (Service.guaranteeClient sv) [].
Proof. symmetry. apply untouched. intros x Hx. rewrite Hservice in Hx. injection Hx as <-. by destruct sv. Qed.

Lemma checked_service b g l : mNameToService (checked b g l) !! name = Some (set_flags b g sv).
Proof. cbn. rewrite lookup_alter_eq, Hservice. done. Qed.

Lemma checked_guarantee b g g' l :
  update_service name (fun sv => sv <| Service.guaranteeClient := g' |>) (checked b g l) = checked b g' l.
Proof.
  unfold checked, emit, update_service, with_field, set_mNameToService, set_events. cbn. f_equal. by apply alter_twice.
Qed.

Lemma checked_send b g l c :
  sendClientCallbackNotifications (checked b g l) name c = if xorb c b then Some (checked c g (l ++ [c])) else None.
Proof.
  unfold sendClientCallbackNotifications. rewrite checked_service. cbn. destruct (xorb c b); [|done]. cbn. rewrite Hclient. f_equal.
  unfold checked, emit, update_service, with_field, set_mNameToService, set_events. cbn. f_equal.
  - by apply alter_twice.
  - unfold notices. rewrite map_app, List.concat_app. simpl. by rewrite app_nil_r, app_assoc.
Qed.

Lemma checked_recorded b g l : recorded (checked b g l) name = b.
Proof. unfold recorded. by rewrite checked_service. Qed.

Lemma handle_interval e count : Service.getNodeStrongRefCount e sv = Some count -> count <> -1 ->
  handleServiceClientCallback e s name true =
    Some (count, checked (1 <? count) false (transitions (Service.hasClients sv) (Service.guaranteeClient sv) (1 <? count))).
Proof.
  intros Hcount Hne. unfold handleServiceClientCallback. rewrite Hservice, Hclient. simpl. rewrite Hcount. simpl.
  rewrite (proj2 (Z.eqb_neq count (-1))) by done. unfold send_if. rewrite checked_start.
  destruct (1 <? count), (Service.hasClients sv), (Service.guaranteeClient sv); simpl;
    repeat (rewrite ?checked_recorded, ?checked_send, ?checked_guarantee; simpl); done.
Qed.

Lemma handle_on_demand e count : Service.getNodeStrongRefCount e sv = Some count -> Service.guaranteeClient sv = false ->
  handleServiceClientCallback e s name false = Some (count, s).
Proof.
  intros Hcount Hg. unfold handleServiceClientCallback. rewrite Hservice, Hclient. simpl. rewrite Hcount. simpl.
  rewrite Hg. by destruct (count =? -1).
Qed.

Lemma handle_unknown e i : Service.getNodeStrongRefCount e sv = Some (-1) -> handleServiceClientCallback e s name i = Some (-1, s).
Proof. intros Hcount. unfold handleServiceClientCallback. rewrite Hservice, Hclient. simpl. by rewrite Hcount. Qed.

End Checked.

(** ** The check of all clients *)

(** what the timer makes of the service [name]: its notices and its flags *)
Definition due (e : env) (s : t) (name : string) : list event :=
  match mNameToService s !! name, mNameToClientCallback s !! name with
  | Some sv, Some callbacks =>
    match Service.getNodeStrongRefCount e sv with
    | Some count => if count =? -1 then []
                    else notices callbacks (Service.binder sv) (transitions (Service.hasClients sv) (Service.guaranteeClient sv) (1 <? count))
    | None => []
    end
  | _, _ => []
  end.

Definition flags_after (e : env) (s : t) (name : string) (sv : Service.t) : Service.t :=
  match mNameToClientCallback s !! name, Service.getNodeStrongRefCount e sv with
  | Some _, Some count => if count =? -1 then sv else set_flags (1 <? count) false sv
  | _, _ => sv
  end.

Lemma strong_count_known e s name sv : wf s -> mNameToService s !! name = Some sv ->
  exists count, Service.getNodeStrongRefCount e sv = Some count.
Proof.
  intros Hwf Hsv. pose proof (wf_binder _ Hwf _ _ Hsv) as Hb. unfold Service.getNodeStrongRefCount.
  destruct (Service.binder sv) as [b|]; [eexists; reflexivity|done].
Qed.

Lemma handle_one e s name : wf s -> exists count,
  handleServiceClientCallback e s name true = Some (count, emit (due e s name) (update_service name (flags_after e s name) s)).
Proof.
  intros Hwf. unfold due. destruct (mNameToService s !! name) as [sv|] eqn:Hsv.
  2: { exists (-1). rewrite untouched by congruence. unfold handleServiceClientCallback. by rewrite Hsv. }
  destruct (strong_count_known e s name sv Hwf Hsv) as [count Hcount].
  destruct (mNameToClientCallback s !! name) as [cbs|] eqn:Hcb.
  2: { exists (-1). rewrite untouched. - unfold handleServiceClientCallback. by rewrite Hsv, Hcb.
       - intros x _. unfold flags_after. by rewrite Hcb. }
  rewrite Hcount. destruct (count =? -1) eqn:Ec; bool_to_prop; exists count.
  - subst. rewrite untouched; [by eapply handle_unknown|]. intros x Hx. unfold flags_after.
    rewrite Hsv in Hx. injection Hx as <-. by rewrite Hcb, Hcount.
  - erewrite handle_interval by done. f_equal. f_equal. unfold checked, emit, update_service, with_field, set_events, set_mNameToService.
    cbn. f_equal. apply alter_ext. intros x Hx. rewrite Hsv in Hx. injection Hx as <-. unfold flags_after.
    by rewrite Hcb, Hcount, (proj2 (Z.eqb_neq _ _) Ec).
Qed.

Lemma flags_after_same e s name sv : same_registration sv (flags_after e s name sv).
Proof. unfold flags_after. by repeat case_match. Qed.

Lemma handle_each_spec e s names : wf s -> NoDup names -> exists s',
  handle_each e names s = Some s' /\ flags_only s s' /\
  events s' = (events s ++ List.concat (map (due e s) names))%list /\
  forall n, mNameToService s' !! n = if decide (n ∈ names) then flags_after e s n <$> mNameToService s !! n else mNameToService s !! n.
Proof.
  revert s. induction names as [|x names IH]; intros s Hwf Hnd; simpl.
  { exists s. rewrite app_nil_r. split; [done|]. split; [reflexivity|]. split; [done|]. done. }
  apply NoDup_cons in Hnd as [Hx Hnd]. destruct (handle_one e s x Hwf) as [count ->]. simpl.
  set (s1 := emit (due e s x) (update_service x (flags_after e s x) s)).
  assert (flags_only s s1) as Hfo by (etransitivity; [apply flags_only_update, flags_after_same|apply flags_only_emit]).
  destruct (IH s1) as (s' & -> & Hfo' & Hev & Hlook); [by eapply wf_flags|done|]. exists s'.
  assert (forall n, n <> x -> mNameToService s1 !! n = mNameToService s !! n) as Hne by (intros; cbn; by apply lookup_alter_ne).
  split; [done|]. split; [by etransitivity|]. split.
  - rewrite Hev. cbn. rewrite <- app_assoc. f_equal. f_equal. f_equal. apply map_ext_in. intros n Hn.
    unfold due. cbn. rewrite lookup_alter_ne; [done|]. intros ->. by apply Hx, list_elem_of_In.
  - intros n. rewrite Hlook. destruct (decide (n = x)) as [->|Hnx].
    + rewrite decide_False by done. rewrite decide_True by set_solver. cbn. by rewrite lookup_alter_eq.
    + rewrite Hne by done. destruct (decide (n ∈ names)); [by rewrite decide_True by set_solver|by rewrite decide_False by set_solver].
Qed.
