(* ===== verification/ServiceRegistry.v ===== *)
(** * The service manager refines a plain registry

    [Module Registry] is the abstract specification: the services by name and the
    callbacks that wait for a name. [perform_refines] shows that every call acts on the
    registry as its reply says and that callbacks hear of registrations accordingly. *)

From S2P Require Import Prelude ServiceAccess ServiceManager ServiceManagerLemmas.
From Stdlib Require Import Ascii String.
#[local] Open Scope string_scope.
#[local] Open Scope Z_scope.

Module Registry.

Record t := mk { services : gmap string IBinder; waiting : CallbackMap }.

(** the effect of a call that got reply [r], and whom it tells of a service *)
Definition step (a : t) (k : call) (r : reply) : t * list event :=
  match k, r with
  | Call_addService name (Some b) _ _, Reply ok =>
    (mk (<[name := b]> (services a)) (waiting a), map (fun cb => onRegistration cb name (Some b)) (default [] (waiting a !! name)))
  | Call_registerForNotifications name (Some cb), Reply ok =>
    (mk (services a) (push_back name cb (waiting a)),
     match services a !! name with Some b => [onRegistration cb name (Some b)] | None => [] end)
  | Call_unregisterForNotifications name (Some cb), Reply ok =>
    (mk (services a) (partial_alter (fun l => l ≫= remaining cb) name (waiting a)), [])
  | Call_tryUnregisterService name _, Reply ok => (mk (delete name (services a)) (waiting a), [])
  | Death who, _ => (mk (filter (fun kv => kv.2 <> who) (services a)) (omap (remaining who) (waiting a)), [])
  | _, _ => (a, [])
  end.

(** what a lookup may answer *)
Definition answer (a : t) (k : call) (r : reply) : Prop :=
  match k, r with
  | Call_getService name, Reply_binder st out | Call_checkService name, Reply_binder st out =>
    st = ok /\ (out = None \/ out = services a !! name)
  | _, _ => True
  end.

End Registry.

Definition is_registration (ev : event) : Prop := match ev with onRegistration _ _ _ => True | _ => False end.
#[export] Instance is_registration_dec ev : Decision (is_registration ev).
Proof. destruct ev; apply _. Defined.

Definition registry (s : t) : Registry.t := Registry.mk (omap Service.binder (mNameToService s)) (mNameToRegistrationCallback s).

Record refined (s : t) (k : call) (r : reply) (s' : t) : Prop := {
  refined_wf : wf s';
  refined_registry : registry s' = (Registry.step (registry s) k r).1;
  refined_events : exists l, events s' = (events s ++ l)%list /\ filter is_registration l = (Registry.step (registry s) k r).2;
  refined_answer : Registry.answer (registry s) k r }.

Lemma registry_flags s s' : flags_only s s' -> registry s' = registry s.
Proof.
  intros [Hs Hr _]. unfold registry. rewrite Hr. f_equal. apply map_eq. intros n. rewrite !lookup_omap.
  specialize (Hs n). destruct Hs as [x y [Hb _]|]; [by simpl|done].
Qed.

(** calls that leave the registry alone *)
Lemma refined_same s k r s' l :
  wf s -> flags_only s s' -> Registry.step (registry s) k r = (registry s, []) -> Registry.answer (registry s) k r ->
  events s' = (events s ++ l)%list -> filter is_registration l = [] -> refined s k r s'.
Proof.
  intros Hwf Hfo Hstep Hans Hev Hl. split; rewrite ?Hstep; [by eapply wf_flags|by apply registry_flags|by exists l|done].
Qed.

Lemma refined_refl s k r : wf s -> Registry.step (registry s) k r = (registry s, []) -> Registry.answer (registry s) k r -> refined s k r s.
Proof. intros. eapply (refined_same _ _ _ _ []); try done. by rewrite app_nil_r. Qed.

(** closes the branches in which a call changes nothing *)
Ltac unchanged := solve [apply refined_refl; [done|cbn; by repeat case_match|cbn; by repeat case_match]].

(** takes the early return of [H], on which nothing has changed *)
Ltac early_return H :=
  match type of H with
  | (if ?b then _ else _) = _ => destruct b eqn:?; [simplify_eq/=; unchanged|]
  end.

Lemma flags_only_guarantee name g s : flags_only s (update_service name (fun sv => sv <| Service.guaranteeClient := g |>) s).
Proof. apply flags_only_update. by intros []. Qed.

Section Operations.

Context (pf : Platform) (vendor : bool).

Lemma tryGetService_cases e s name b : wf s -> let '(out, s') := tryGetService pf e s name b in
  flags_only s s' /\ (out = None \/ out = Registry.services (registry s) !! name) /\
  exists l, events s' = (events s ++ l)%list /\ filter is_registration l = [].
Proof.
  intros Hwf. assert (exists l, events s = (events s ++ l)%list /\ filter is_registration l = []) as Hnil by (exists []; by rewrite app_nil_r).
  unfold tryGetService. destruct (match mNameToService s !! name with Some _ => _ | None => _ end); [by split; [reflexivity|eauto]|].
  destruct (Access.canFind _ _ _); simpl; [|by split; [reflexivity|eauto]]. rewrite lookup_omap.
  destruct (mNameToService s !! name ≫= Service.binder) as [b0|] eqn:E; simpl.
  - split; [apply flags_only_guarantee|]. auto.
  - destruct b; simpl.
    + split; [apply flags_only_emit|]. split; [auto|]. by exists [interface_start name].
    + split; [reflexivity|]. auto.
Qed.

Lemma notify_registration_spec name b cbs s :
  flags_only s (notify_registration name b cbs s) /\
  events (notify_registration name b cbs s) = (events s ++ map (fun cb => onRegistration cb name (Some b)) cbs)%list.
Proof.
  revert s. induction cbs as [|cb cbs IH]; intros s; simpl; [split; [reflexivity|by rewrite app_nil_r]|].
  destruct (IH (emit [onRegistration cb name (Some b)] (update_service name (fun sv => sv <| Service.guaranteeClient := true |>) s))) as [H1 H2].
  split.
  - etransitivity; [|exact H1]. etransitivity; [apply flags_only_guarantee|apply flags_only_emit].
  - rewrite H2. cbn. by rewrite <- app_assoc.
Qed.

Lemma filter_registrations name b cbs :
  filter is_registration (map (fun cb => onRegistration cb name (Some b)) cbs) = map (fun cb => onRegistration cb name (Some b)) cbs.
Proof. induction cbs as [|cb cbs IH]; simpl; [done|]. by rewrite filter_cons_True, IH. Qed.

Lemma addService_refined e s name binder iso prio st s' : wf s -> addService pf vendor e s name binder iso prio = (st, s') ->
  refined s (Call_addService name binder iso prio) (Reply st) s'.
Proof.
  intros Hwf H. unfold addService in H. do 2 early_return H. destruct binder as [b|]; [|simplify_eq; unchanged]. do 3 early_return H.
  bool_to_prop. set (s1 := s <| mNameToService := _ |>) in H.
  assert (wf s1) as Hwf1.
  { destruct Hwf as [H1 H2 H3 H4 H5]. split; cbn; auto.
    - intros n sv [[-> <-]|[_ Hn]]%lookup_insert_Some; [done|eauto].
    - intros n. rewrite lookup_insert_is_Some. intros [<-|[_ Hn]]; auto. }
  assert (registry s1 = Registry.mk (<[name := b]> (Registry.services (registry s))) (mNameToRegistrationCallback s)) as Hreg.
  { unfold registry. cbn. f_equal. by rewrite (omap_insert_Some _ _ _ _ b). }
  cbn in H. destruct (mNameToRegistrationCallback s !! name) as [cbs|] eqn:Hcbs; simplify_eq.
  - destruct (notify_registration_spec name b cbs s1) as [Hfo Hev]. split; [by eapply wf_flags| | |done].
    + rewrite (registry_flags _ _ Hfo). exact Hreg.
    + rewrite Hev. eexists. split; [reflexivity|]. cbn. rewrite Hcbs. apply filter_registrations.
  - split; [done|exact Hreg| |done]. exists []. cbn. by rewrite app_nil_r, Hcbs.
Qed.

Lemma registerForNotifications_refined e s name callback : wf s -> exists st s',
  registerForNotifications e s name callback = Some (st, s') /\ refined s (Call_registerForNotifications name callback) (Reply st) s'.
Proof.
  intros Hwf. unfold registerForNotifications. case_match; [eexists _, _; split; [done|unchanged]|].
  destruct (isValidServiceName name) eqn:Hname; simpl; [|eexists _, _; split; [done|unchanged]].
  destruct callback as [cb|]; [|eexists _, _; split; [done|unchanged]].
  case_match; [eexists _, _; split; [done|unchanged]|]. cbn. set (s1 := s <| mNameToRegistrationCallback := _ |>).
  assert (wf s1) as Hwf1.
  { destruct Hwf as [H1 H2 H3 H4 H5]. split; cbn; auto using no_empty_push.
    intros n. unfold push_back. rewrite lookup_insert_is_Some. intros [<-|[_ Hn]]; auto. }
  assert (registry s1 = Registry.mk (Registry.services (registry s)) (push_back name cb (mNameToRegistrationCallback s))) as Hreg by done.
  destruct (mNameToService s !! name) as [sv|] eqn:Hsv.
  - destruct (Service.binder sv) as [b|] eqn:Hb; [|by destruct (wf_binder _ Hwf _ _ Hsv)].
    eexists _, _. split; [done|]. split; [by apply wf_emit|exact Hreg| |done]. eexists. split; [reflexivity|].
    cbn. by rewrite lookup_omap, Hsv; simpl; rewrite Hb.
  - eexists _, _. split; [done|]. split; [done|exact Hreg| |done]. exists []. cbn. by rewrite app_nil_r, lookup_omap, Hsv.
Qed.

Lemma unregisterForNotifications_refined e s name callback st s' : wf s -> unregisterForNotifications e s name callback = (st, s') ->
  refined s (Call_unregisterForNotifications name callback) (Reply st) s'.
Proof.
  intros Hwf H. unfold unregisterForNotifications in H. early_return H. unfold remove_callback in H.
  assert (s <| mNameToRegistrationCallback := mNameToRegistrationCallback s |> = s) as Hid by by destruct s.
  destruct (mNameToRegistrationCallback s !! name) as [l|] eqn:El; [|rewrite Hid in H; simplify_eq/=; unchanged].
  rewrite erase_listeners_spec in H. case_bool_decide as Hex; simplify_eq/=.
  - destruct callback as [cb|]; [|exfalso; clear -Hex; by induction Hex].
    set (m := if bool_decide _ then _ else _).
    assert (m = partial_alter (fun l => l ≫= remaining cb) name (mNameToRegistrationCallback s)) as Hm.
    { apply map_eq. intros n. subst m. destruct (decide (n = name)) as [->|Hne].
      - rewrite lookup_partial_alter_eq, El. simpl. unfold remaining. case_bool_decide; [apply lookup_delete_eq|apply lookup_insert_eq].
      - rewrite lookup_partial_alter_ne by done. case_bool_decide; [by apply lookup_delete_ne|by apply lookup_insert_ne]. }
    split; [|unfold registry; cbn; by rewrite <- Hm|exists []; cbn; by rewrite app_nil_r|done].
    destruct Hwf as [H1 H2 H3 H4 H5]. split; cbn; auto.
    + intros n Hn. apply H3. rewrite Hm in Hn. destruct (decide (n = name)) as [->|]; [by rewrite El|].
      by rewrite lookup_partial_alter_ne in Hn.
    + pose proof (no_empty_remove (Some cb) name _ H4) as Hne. unfold remove_callback in Hne. by rewrite El, erase_listeners_spec in Hne.
  - rewrite (without_none _ _ Hex), bool_decide_eq_false_2 by exact (wf_registration _ Hwf _ _ El).
    rewrite insert_id by done. rewrite Hid. unchanged.
Qed.

Lemma binderDied_refined s who : wf s -> refined s (Death who) No_reply (binderDied s who).
Proof.
  intros [H1 H2 H3 H4 H5]. rewrite binderDied_spec. split; [split; cbn| |exists []; cbn; by rewrite app_nil_r|done].
  - intros n sv. rewrite lookup_omap. intros (sv' & Hn & Hsv)%bind_Some. case_bool_decide; simplify_eq. eauto.
  - intros n. rewrite lookup_omap. intros [sv Hsv]. apply H2. destruct (mNameToService s !! n); [done|by simpl in Hsv].
  - intros n. rewrite lookup_omap. intros [l Hl]. apply H3. destruct (mNameToRegistrationCallback s !! n); [done|by simpl in Hl].
  - apply no_empty_remaining.
  - apply no_empty_remaining.
  - unfold registry. cbn. f_equal. apply map_eq. intros n. rewrite map_lookup_filter, !lookup_omap.
    destruct (mNameToService s !! n) as [sv|] eqn:Hsv; simpl; [|done].
    destruct (Service.binder sv) as [b|] eqn:Hb; [|by destruct (H1 _ _ Hsv)]. simpl. case_bool_decide; simplify_eq; simpl.
    + by rewrite option_guard_False by tauto.
    + by rewrite option_guard_True, Hb by congruence.
Qed.

(** the outcome of [tryUnregisterService] when it comes to ask for the clients *)
Definition removable (e : env) (s : t) (name : string) (sv : Service.t) : bool :=
  match mNameToClientCallback s !! name, Service.getNodeStrongRefCount e sv with
  | Some _, Some count => (0 <=? int32 count) && (int32 count <=? 2)
  | _, _ => false
  end.

Lemma handle_before_removal e s name sv : wf s -> mNameToService s !! name = Some sv -> Service.guaranteeClient sv = false ->
  exists count, handleServiceClientCallback e s name false = Some (count, s) /\
    ((int32 count <? 0) || (2 <? int32 count)) = negb (removable e s name sv).
Proof.
  intros Hwf Hsv Hg. destruct (strong_count_known e s name sv Hwf Hsv) as [count Hcount]. unfold removable.
  destruct (mNameToClientCallback s !! name) as [cbs|] eqn:Hcb.
  - exists count. split; [by eapply handle_on_demand|]. rewrite Hcount. lia.
  - exists (-1). split; [|done]. unfold handleServiceClientCallback. by rewrite Hsv, Hcb.
Qed.

Lemma wf_delete name s : wf s -> wf (s <| mNameToService := delete name (mNameToService s) |>).
Proof.
  intros [H1 H2 H3 H4 H5]. split; cbn; auto.
  - intros n sv [_ Hn]%lookup_delete_Some. eauto.
  - intros n. rewrite lookup_delete_is_Some. intros [_ Hn]. auto.
Qed.

Lemma tryUnregisterService_refined e s name binder : wf s -> exists st s',
  tryUnregisterService e s name binder = Some (st, s') /\ refined s (Call_tryUnregisterService name binder) (Reply st) s'.
Proof.
  intros Hwf. unfold tryUnregisterService. destruct binder as [b|]; [|eexists _, _; split; [done|unchanged]].
  case_match; [eexists _, _; split; [done|unchanged]|].
  destruct (mNameToService s !! name) as [sv|] eqn:Hsv; [|eexists _, _; split; [done|unchanged]].
  case_match; [eexists _, _; split; [done|unchanged]|]. case_match; [eexists _, _; split; [done|unchanged]|].
  destruct (Service.guaranteeClient sv) eqn:Hg; [eexists _, _; split; [done|unchanged]|].
  destruct (handle_before_removal e s name sv Hwf Hsv Hg) as (count & -> & Hcount). simpl. rewrite Hcount.
  destruct (removable e s name sv); simpl; eexists _, _; (split; [done|]).
  - split; [by apply wf_delete|unfold registry; cbn; by rewrite omap_delete|exists []; cbn; by rewrite app_nil_r|done].
  - eapply (refined_same _ _ _ _ []); try done; [apply flags_only_guarantee|cbn; by rewrite app_nil_r].
Qed.

Lemma registerClientCallback_refined e s name service cb st s' : wf s -> registerClientCallback e s name service cb = (st, s') ->
  refined s (Call_registerClientCallback name service cb) (Reply st) s'.
Proof.
  intros Hwf H. unfold registerClientCallback in H. destruct cb as [cb|]; [|simplify_eq; unchanged]. early_return H.
  destruct (mNameToService s !! name) as [sv|] eqn:Hsv; [|simplify_eq; unchanged]. do 3 early_return H. simplify_eq.
  destruct Hwf as [H1 H2 H3 H4 H5]. split; [split; cbn; auto using no_empty_push|done|exists []; cbn; by rewrite app_nil_r|done].
Qed.

Lemma filter_notices cbs b l : filter is_registration (notices cbs b l) = [].
Proof.
  unfold notices. induction l as [|x l IH]; simpl; [done|]. rewrite filter_app, IH, app_nil_r.
  clear IH. induction cbs as [|cb cbs IH]; simpl; [done|]. by rewrite filter_cons_False, IH by (intros []).
Qed.

Lemma filter_due e s names : filter is_registration (List.concat (map (due e s) names)) = [].
Proof.
  induction names as [|n names IH]; simpl; [done|]. rewrite filter_app, IH, app_nil_r. unfold due.
  repeat case_match; auto using filter_notices.
Qed.

Lemma handleClientCallbacks_refined e s : wf s -> exists s', handleClientCallbacks e s = Some s' /\ refined s Timer No_reply s'.
Proof.
  intros Hwf. destruct (handle_each_spec e s (keys (mNameToService s)) Hwf (NoDup_keys _)) as (s' & Hs & Hfo & Hev & _).
  exists s'. split; [done|]. eapply refined_same; try done. apply filter_due.
Qed.

(** ** All calls *)

Lemma perform_refined e s k : wf s -> exists r s', perform pf vendor e s k = Some (r, s') /\ refined s k r s'.
Proof.
  intros Hwf. destruct k; simpl.
  - unfold getService. pose proof (tryGetService_cases e s name true Hwf) as H. destruct (tryGetService _ _ _ _ _) as [out s'].
    destruct H as (Hfo & Hout & l & Hev & Hl). eexists _, _. split; [done|]. by eapply refined_same.
  - unfold checkService. pose proof (tryGetService_cases e s name false Hwf) as H. destruct (tryGetService _ _ _ _ _) as [out s'].
    destruct H as (Hfo & Hout & l & Hev & Hl). eexists _, _. split; [done|]. by eapply refined_same.
  - destruct (addService _ _ _ _ _ _ _ _) as [st s'] eqn:E. eexists _, _. split; [done|]. by eapply addService_refined.
  - unfold listServices. case_match; simpl; eexists _, _; (split; [done|unchanged]).
  - destruct (registerForNotifications_refined e s name callback Hwf) as (st & s' & -> & H). eexists _, _. by split.
  - destruct (unregisterForNotifications _ _ _ _) as [st s'] eqn:E. eexists _, _. split; [done|]. by eapply unregisterForNotifications_refined.
  - destruct (isDeclared _ _ _ _). eexists _, _. split; [done|unchanged].
  - destruct (getDeclaredInstances _ _ _). eexists _, _. split; [done|unchanged].
  - destruct (updatableViaApex _ _ _ _). eexists _, _. split; [done|unchanged].
  - destruct (registerClientCallback _ _ _ _ _) as [st s'] eqn:E. eexists _, _. split; [done|]. by eapply registerClientCallback_refined.
  - destruct (tryUnregisterService_refined e s name binder Hwf) as (st & s' & -> & H). eexists _, _. by split.
  - destruct (getServiceDebugInfo _ _ _). eexists _, _. split; [done|unchanged].
  - eexists _, _. split; [done|]. by apply binderDied_refined.
  - destruct (handleClientCallbacks_refined e s Hwf) as (s' & -> & H). eexists _, _. by split.
Qed.

Lemma wf_initial : wf initial.
Proof. split; cbn; intros n; [intros ?|..]; rewrite ?lookup_empty; done. Qed.

Lemma reachable_wf s : reachable pf vendor s -> wf s.
Proof.
  induction 1 as [|s e k r s' _ IH Hp]; [apply wf_initial|]. destruct (perform_refined e s k IH) as (r' & s'' & Hp' & Hr).
  rewrite Hp in Hp'. simplify_eq. apply Hr.
Qed.

End Operations.
