(* ===== verification/ServiceManagerTheorems.v ===== *)
(** * What the service manager guarantees *)

From S2P Require Import Prelude ServiceAccess ServiceManager ServiceManagerLemmas ServiceRegistry.
From Stdlib Require Import Ascii String.
#[local] Open Scope string_scope.
#[local] Open Scope Z_scope.

(** ** A device for the witnesses

    The user ids are those of Android; every process may do everything, all binders are
    remote, alive, of system stability and have [n] strong references. *)

Definition android : Platform := mkPlatform (fun uid => uid mod 100000) 10000 99000 99999.

Definition permissive (uid n : Z) : env :=
  mkEnv (Access.mk (Access.mkContext 1 uid EmptyString) (fun _ _ => true) (fun _ _ => true) (fun _ => true)) 1
    (fun b => Some (DriverBinder b)) (fun _ => Stability.SYSTEM) (fun _ => OK) (fun _ => Some n) [].

Definition forbidding : env :=
  mkEnv (Access.mk (Access.mkContext 2 1000 EmptyString) (fun _ _ => false) (fun _ _ => false) (fun _ => false)) 2
    (fun b => Some (DriverBinder b)) (fun _ => Stability.SYSTEM) (fun _ => OK) (fun _ => Some 2) [].

(** a history, and the state it leads to *)
Fixpoint perform_all (s : t) (l : list (env * call)) : option t :=
  match l with
  | [] => Some s
  | (e, k) :: l' => r ← perform android false e s k; perform_all r.2 l'
  end.

Definition after (l : list (env * call)) : t := default initial (perform_all initial l).

Lemma perform_all_reachable l s s' : reachable android false s -> perform_all s l = Some s' -> reachable android false s'.
Proof.
  revert s. induction l as [|[e k] l IH]; intros s Hs; simpl; [by intros [= <-]|].
  destruct (perform _ _ e s k) as [[r s1]|] eqn:E; [|done]. simpl. apply IH. by econstructor.
Qed.

Lemma after_reachable l : reachable android false (after l).
Proof.
  unfold after. destruct (perform_all initial l) as [s|] eqn:E; [|constructor].
  eapply perform_all_reachable; [|exact E]. constructor.
Qed.

(** two services, the first with a client callback, and someone who waits for a third *)
Definition two_services : list (env * call) :=
  [(permissive 1000 2, Call_addService "media.log" (Some 5) false 8);
   (permissive 1000 2, Call_addService "activity" (Some 6) true 1);
   (permissive 1000 2, Call_registerClientCallback "media.log" (Some 5) (Some 7));
   (permissive 1000 2, Call_registerForNotifications "power" (Some 8))].

Section Theorems.

Context (pf : Platform) (vendor : bool).

(** ** Refinement *)

Lemma destructor_checks_wf s : wf s -> destructor_checks s = true.
Proof.
  intros Hwf. unfold destructor_checks. apply andb_true_iff. split; apply forallb_forall; intros n _.
  - destruct (mNameToRegistrationCallback s !! n) as [[|]|] eqn:E; try done. by destruct (wf_registration _ Hwf _ _ E).
  - destruct (mNameToService s !! n) as [sv|] eqn:E; [|done]. apply bool_decide_eq_true. by eapply wf_binder.
Qed.

(** C3: The service manager refines the plain registry of [Module Registry]. In every
    state it can reach, any call ends without a failed CHECK or a null pointer, and it
    acts on the services and on the waiting callbacks as its reply says: a refused call
    changes neither, a registration tells exactly the callbacks waiting for that name, in
    order, a lookup answers with the registered binder or with nothing. The tests of the
    destructor hold at all times. *)
Theorem service_manager_refines_registry s e k : reachable pf vendor s ->
  destructor_checks s = true /\
  exists r s', perform pf vendor e s k = Some (r, s') /\
    registry s' = (Registry.step (registry s) k r).1 /\
    (exists l, events s' = (events s ++ l)%list /\ filter is_registration l = (Registry.step (registry s) k r).2) /\
    Registry.answer (registry s) k r.
Proof.
  intros Hr%reachable_wf. split; [by apply destructor_checks_wf|].
  destruct (perform_refined pf vendor e s k Hr) as (r & s' & Hp & [_ H1 H2 H3]). eauto 8.
Qed.

(** ** Adding and finding *)

(** the calls that take the binder [b] away from [name] *)
Definition takes_away (name : string) (b : IBinder) (k : call) : bool :=
  match k with
  | Call_addService n _ _ _ | Call_tryUnregisterService n _ => String.eqb n name
  | Death who => who =? b
  | _ => false
  end.

Lemma step_keeps a k r name b : takes_away name b k = false -> Registry.services a !! name = Some b ->
  Registry.services (Registry.step a k r).1 !! name = Some b.
Proof.
  intros Hk Hb. destruct k, r; simpl in *; try done; repeat case_match; simpl; try done; subst; simpl in *;
    try (rewrite lookup_insert_ne by (intros ->; by rewrite String.eqb_refl in Hk); done);
    try (rewrite lookup_delete_ne by (intros ->; by rewrite String.eqb_refl in Hk); done);
    rewrite map_lookup_filter, Hb; simpl; rewrite option_guard_True by (simpl; bool_to_prop; congruence); done.
Qed.

(** [runs s l s'] : the calls [l] lead from [s] to [s'] *)
Inductive runs : t -> list call -> t -> Prop :=
| runs_nil s : runs s [] s
| runs_cons s e k r s1 l s2 : perform pf vendor e s k = Some (r, s1) -> runs s1 l s2 -> runs s (k :: l) s2.

Lemma runs_keep s l s' name b : wf s -> runs s l s' -> forallb (fun k => negb (takes_away name b k)) l = true ->
  Registry.services (registry s) !! name = Some b -> wf s' /\ Registry.services (registry s') !! name = Some b.
Proof.
  intros Hwf Hruns. induction Hruns as [s|s e k r s1 l s2 Hp Hruns IH]; simpl; [done|]. intros [Hk Hl]%andb_true_iff Hb.
  destruct (perform_refined pf vendor e s k Hwf) as (r' & s1' & Hp' & [H1 H2 _ _]). rewrite Hp in Hp'. simplify_eq.
  apply IH; auto. rewrite H2. apply step_keeps; [by apply negb_true_iff|done].
Qed.

(** the caller may look [name] up *)
Definition may_find (e : env) (s : t) (name : string) : bool :=
  let ctx := Access.getCallingContext (mAccess e) in
  Access.canFind (mAccess e) ctx name &&
  match mNameToService s !! name with Some sv => Service.allowIsolated sv || negb (isIsolated pf ctx) | None => true end.

Lemma find_registered e s name b : Registry.services (registry s) !! name = Some b -> may_find e s name = true ->
  (getService pf e s name).1 = (ok, Some b) /\ (checkService pf e s name).1 = (ok, Some b).
Proof.
  unfold may_find, getService, checkService, tryGetService. cbn. rewrite lookup_omap. intros Hb [Hf Hi]%andb_true_iff.
  destruct (mNameToService s !! name) as [sv|]; simpl in *; [|done]. rewrite Hf, Hb.
  assert (negb (Service.allowIsolated sv) && isIsolated pf (Access.getCallingContext (mAccess e)) = false) as -> by
    (destruct (Service.allowIsolated sv), (isIsolated _ _); done).
  done.
Qed.

(** C30: A service that was added successfully is found under its name, with the binder
    that was added, after any calls that neither add that name again, nor unregister it,
    nor report the death of the binder: whoever may find it, and is not an isolated
    process unless the service allows it, gets it from getService and from checkService;
    anybody else gets a null binder. *)
Theorem registered_service_is_found s e name b iso prio s1 l s2 e' :
  reachable pf vendor s -> addService pf vendor e s name (Some b) iso prio = (ok, s1) ->
  runs s1 l s2 -> forallb (fun k => negb (takes_away name b k)) l = true ->
  let out := if may_find e' s2 name then Some b else None in
  (getService pf e' s2 name).1 = (ok, out) /\ (checkService pf e' s2 name).1 = (ok, out).
Proof.
  intros Hr%reachable_wf Hadd Hruns Hl. destruct (addService_refined _ _ _ _ _ _ _ _ _ _ Hr Hadd) as [Hwf1 Hreg _ _].
  destruct (runs_keep _ _ _ name b Hwf1 Hruns Hl) as [_ Hb]; [rewrite Hreg; simpl; apply lookup_insert_eq|].
  destruct (may_find e' s2 name) eqn:Hm; [by apply find_registered|].
  unfold may_find in Hm. unfold getService, checkService, tryGetService.
  destruct (mNameToService s2 !! name) as [sv|]; simpl; destruct (Access.canFind _ _ _); simpl in *; try done;
    by destruct (Service.allowIsolated sv), (isIsolated _ _).
Qed.

(** ** Death *)

Lemma default_remaining who (m : CallbackMap) name :
  default [] (omap (remaining who) m !! name) = without (Some who) (default [] (m !! name)).
Proof.
  rewrite lookup_omap. destruct (m !! name) as [l|]; simpl; [|done]. unfold remaining. case_bool_decide as H; simpl; [by rewrite H|done].
Qed.

(** When a binder dies, every service it provided is gone and it is removed from
    every list of callbacks, however often it was in one; an entry whose list becomes
    empty is removed. All other services and callbacks stay, with their flags and in
    their order, and nobody is called. *)
Theorem death_forgets s who : let s' := binderDied s who in
  (forall name sv, mNameToService s' !! name = Some sv <-> mNameToService s !! name = Some sv /\ Service.binder sv <> Some who) /\
  (forall name, default [] (mNameToRegistrationCallback s' !! name) = filter (fun cb => cb <> who) (default [] (mNameToRegistrationCallback s !! name)) /\
                mNameToRegistrationCallback s' !! name <> Some []) /\
  (forall name, default [] (mNameToClientCallback s' !! name) = filter (fun cb => cb <> who) (default [] (mNameToClientCallback s !! name)) /\
                mNameToClientCallback s' !! name <> Some []) /\
  events s' = events s.
Proof.
  assert (forall l, without (Some who) l = filter (fun cb => cb <> who) l) as Hf by (intros; apply list_filter_iff; naive_solver).
  intros s'. unfold s'. rewrite binderDied_spec. cbn. split; [|split; [|split; [|done]]].
  - intros name sv. rewrite lookup_omap, bind_Some. split.
    + intros (sv' & Hn & H). case_bool_decide; naive_solver.
    + intros [Hn Hb]. exists sv. by rewrite bool_decide_eq_false_2.
  - intros name. rewrite default_remaining. split; [apply Hf|]. intros H. by destruct (no_empty_remaining _ _ _ _ H).
  - intros name. rewrite default_remaining. split; [apply Hf|]. intros H. by destruct (no_empty_remaining _ _ _ _ H).
Qed.

(** ** Clients *)

Lemma due_settled e s s' name : flags_only s s' ->
  mNameToService s' !! name = flags_after e s name <$> mNameToService s !! name -> due e s' name = [].
Proof.
  intros [_ _ Hc] Hs. unfold due. rewrite Hs, Hc. destruct (mNameToService s !! name) as [sv|]; simpl; [|done]. unfold flags_after.
  destruct (mNameToClientCallback s !! name) as [cbs|]; [|done].
  destruct (Service.getNodeStrongRefCount e sv) as [count|] eqn:Ec; [|by rewrite Ec].
  destruct (count =? -1) eqn:E; [by rewrite Ec, E|]. change (Service.getNodeStrongRefCount e (set_flags (1 <? count) false sv)) with (Service.getNodeStrongRefCount e sv).
  rewrite Ec, E. simpl. by destruct (1 <? count).
Qed.

(** C31: The timer tells the client callbacks of each service, in the order of the names,
    exactly the changes: true when clients came, false when they went, and true then
    false when a client came and went between two checks (which only the guarantee
    flag shows). It then has recorded whether there are clients and cleared the
    guarantee; a service without callbacks, or whose references the driver cannot
    count, is left alone. No CHECK fails, and a second check on the same counts tells
    nobody anything. *)
Theorem timer_notifies_changes s e : reachable pf vendor s -> exists s',
  handleClientCallbacks e s = Some s' /\
  events s' = (events s ++ List.concat (map (due e s) (keys (mNameToService s))))%list /\
  (forall name, mNameToService s' !! name = flags_after e s name <$> mNameToService s !! name) /\
  (exists s'', handleClientCallbacks e s' = Some s'' /\ events s'' = events s').
Proof.
  intros Hr%reachable_wf. destruct (handle_each_spec e s _ Hr (NoDup_keys (mNameToService s))) as (s' & Hs & Hfo & Hev & Hlook).
  assert (forall name, mNameToService s' !! name = flags_after e s name <$> mNameToService s !! name) as Hall.
  { intros name. rewrite Hlook. case_decide as Hn; [done|]. rewrite elem_of_keys, <- eq_None_not_Some in Hn. by rewrite Hn. }
  exists s'. split; [done|]. split; [done|]. split; [done|].
  destruct (handle_each_spec e s' _ (wf_flags _ _ Hfo Hr) (NoDup_keys (mNameToService s'))) as (s'' & Hs' & _ & Hev' & _).
  exists s''. split; [done|]. rewrite Hev'.
  assert (List.concat (map (due e s') (keys (mNameToService s'))) = []) as ->; [|apply app_nil_r].
  apply concat_nil_Forall, List.Forall_forall. intros l (name & <- & _)%in_map_iff. by eapply due_settled.
Qed.

(** the branches in which [tryUnregisterService] returns early *)
Ltac refused :=
  eexists _, _; split; [done|]; split; [split; [done|intros (? & ? & ? & ?); destruct_and?; congruence]|split; [done|by auto]].

(** C32: tryUnregisterService removes a service exactly when the caller may add the name,
    is the process that registered it, names the registered binder, no client is about
    to come, the service has client callbacks and the driver counts at most the two
    references that the service manager and the transaction hold. The callbacks stay.
    In all other cases the service stays registered; at most its guarantee flag is set. *)
Theorem unregister_only_unused s e name b : reachable pf vendor s -> exists st s',
  tryUnregisterService e s name (Some b) = Some (st, s') /\
  (st = ok <-> Access.canAdd (mAccess e) (Access.getCallingContext (mAccess e)) name = true /\
     exists sv count, mNameToService s !! name = Some sv /\ Service.debugPid sv = callingPid e /\ Service.binder sv = Some b /\
       Service.guaranteeClient sv = false /\ is_Some (mNameToClientCallback s !! name) /\
       Service.getNodeStrongRefCount e sv = Some count /\ 0 <= int32 count <= 2) /\
  (st = ok -> s' = s <| mNameToService := delete name (mNameToService s) |>) /\
  (st <> ok -> s' = s \/ s' = update_service name (fun sv => sv <| Service.guaranteeClient := true |>) s).
Proof.
  intros Hr%reachable_wf. unfold tryUnregisterService.
  destruct (Access.canAdd _ _ _) eqn:Hadd; simpl; [|refused].
  destruct (mNameToService s !! name) as [sv|] eqn:Hsv; [|refused].
  destruct (Service.debugPid sv =? callingPid e) eqn:Hpid; bool_to_prop; simpl; [|refused].
  case_bool_decide as Hb; simpl; [|refused].
  destruct (Service.guaranteeClient sv) eqn:Hg; [refused|].
  destruct (handle_before_removal e s name sv Hr Hsv Hg) as (count & -> & Hcount). simpl. rewrite Hcount. unfold removable.
  destruct (strong_count_known e s name sv Hr Hsv) as [n Hn]. rewrite Hn.
  destruct (mNameToClientCallback s !! name) as [cbs|]; simpl.
  - destruct ((0 <=? int32 n) && (int32 n <=? 2)) eqn:Hle; simpl; eexists _, _; (split; [done|]).
    + split; [|done]. split; [|done]. intros _. split; [done|]. exists sv, n. repeat split; try done; lia.
    + split; [|split; [done|by auto]]. split; [done|]. intros (_ & sv' & c & ? & ? & ? & ? & ? & ? & ?). simplify_eq. lia.
  - eexists _, _. split; [done|]. split; [|split; [done|by auto]]. split; [done|]. intros (_ & sv' & c & ? & ? & ? & ? & [? ?] & ?). done.
Qed.

(** ** Listing *)

Lemma foldl_filter {A} (p : A -> bool) l acc :
  foldl (fun out x => if p x then (out ++ [x])%list else out) acc l = (acc ++ filter (fun x => p x = true) l)%list.
Proof.
  revert acc. induction l as [|x l IH]; intros acc; simpl; [by rewrite app_nil_r|]. rewrite IH, filter_cons.
  destruct (p x); [by rewrite decide_True, <- app_assoc|by rewrite decide_False].
Qed.

Lemma sorted_filter {A} (R : A -> A -> Prop) (P : A -> Prop) `{forall x, Decision (P x)} l : StronglySorted R l -> StronglySorted R (filter P l).
Proof.
  induction 1 as [|x l Hl IH Hx]; [constructor|]. rewrite filter_cons. case_decide; [|done]. constructor; [done|].
  apply Forall_forall. intros y [_ Hy]%list_elem_of_filter. by eapply Forall_forall in Hx.
Qed.

(** listServices gives a caller who may list every service whose dump priority has a
    bit of the mask, each once, in increasing order of the names, and no other; anybody
    else gets an error and no name. *)
Theorem list_services_exact e s mask :
  let may_list := Access.canList (mAccess e) (Access.getCallingContext (mAccess e)) in
  exists names, listServices e s mask [] = Some (if may_list then ok else fromExceptionCode EX_SECURITY, names) /\
    (may_list = false -> names = []) /\
    (may_list = true -> StronglySorted String.le names /\ NoDup names /\
       forall name, name ∈ names <-> exists sv, mNameToService s !! name = Some sv /\ Z.land (Service.dumpPriority sv) mask <> 0).
Proof.
  intros may_list. unfold listServices. fold may_list. destruct may_list; simpl; [|by eexists; split; [done|]].
  eexists. split; [rewrite foldl_filter; reflexivity|]. simpl. split; [done|]. intros _. split; [|split].
  - apply sorted_filter, keys_sorted.
  - apply NoDup_filter, NoDup_keys.
  - intros name. rewrite list_elem_of_filter, elem_of_keys. unfold has_priority. split.
    + intros [Hp [sv Hsv]]. rewrite Hsv in Hp. bool_to_prop. eauto.
    + intros (sv & Hsv & Hp). rewrite Hsv. split; [|by eauto]. by apply negb_true_iff, Z.eqb_neq.
Qed.

(** ** Access control *)

(** whether a reply tells the caller anything *)
Definition reveals (r : reply) : bool :=
  match r with
  | Reply ok => true
  | Reply_binder _ (Some _) | Reply_bool ok _ | Reply_apex ok _ | Reply_debug ok _ => true
  | Reply_names _ names => negb (bool_decide (names = []))
  | _ => false
  end.

Definition transaction (k : call) : bool := match k with Death _ | Timer => false | _ => true end.

(** C33: A caller to whom the access control allows nothing cannot change anything and
    learns nothing: each of its transactions leaves the whole state as it was (no
    callback is called and no service is started either) and its reply is an error, a
    null binder or an empty list. *)
Theorem no_permission_no_effect e s k :
  (forall ctx name, Access.canFind (mAccess e) ctx name = false) -> (forall ctx name, Access.canAdd (mAccess e) ctx name = false) ->
  (forall ctx, Access.canList (mAccess e) ctx = false) -> transaction k = true ->
  exists r, perform pf vendor e s k = Some (r, s) /\ reveals r = false.
Proof.
  intros Hf Ha Hl Hk.
  assert (forall name b, tryGetService pf e s name b = (None, s)) as Hget by (intros; unfold tryGetService; rewrite Hf; by case_match).
  assert (forall name b iso p, addService pf vendor e s name b iso p = (fromExceptionCode EX_SECURITY, s)) as Hadd
    by (intros; unfold addService; rewrite Ha; by case_match).
  assert (forall interface, (getDeclaredInstances vendor e interface).2 = []) as Hdecl.
  { intros interface. unfold getDeclaredInstances. rewrite foldl_filter. simpl.
    set (l := if vendor then _ else _). assert (filter (fun i => Access.canFind (mAccess e) (Access.getCallingContext (mAccess e))
      (interface ++ "/" ++ i) = true) l = []) as ->; [|by case_match].
    induction l as [|x l' IH]; [done|]. by rewrite filter_cons, decide_False by (by rewrite Hf). }
  destruct k; simpl in *; try done; unfold getService, checkService, listServices, registerForNotifications,
    unregisterForNotifications, isDeclared, updatableViaApex, registerClientCallback, tryUnregisterService, getServiceDebugInfo;
    rewrite ?Hget, ?Hadd, ?Hf, ?Hl, ?Ha; simpl; try (eexists; split; [reflexivity|done]).
  - specialize (Hdecl interface). destruct (getDeclaredInstances vendor e interface) as [st out]. simpl in Hdecl. subst.
    eexists. split; [reflexivity|done].
  - destruct cb; eexists; (split; [reflexivity|done]).
  - destruct binder; eexists; (split; [reflexivity|done]).
Qed.

(** ** Names *)

(** A name in the form package.iface/instance, the package without a slash and the
    interface without a slash or a dot, is split into just these parts; and every name
    that [AidlName::fill] accepts has that form and is the concatenation of its parts. *)
Theorem aidl_name_parts :
  (forall p i n, has_char "/" p = false -> has_char "/" i = false -> has_char "." i = false ->
     Vintf.fill (p ++ "." ++ i ++ "/" ++ n) = Some (Vintf.mkName p i n)) /\
  (forall name a, Vintf.fill name = Some a ->
     name = Vintf.package a ++ "." ++ Vintf.iface a ++ "/" ++ Vintf.instance a /\
     has_char "/" (Vintf.package a) = false /\ has_char "/" (Vintf.iface a) = false /\ has_char "." (Vintf.iface a) = false).
Proof.
  split; [exact fill_parts|]. intros name a H. destruct (fill_inv _ _ H) as (p & i & n & -> & Hp & Hi1 & Hi2).
  rewrite fill_parts in H by done. by injection H as <-.
Qed.

End Theorems.

(** ** Witnesses *)

Lemma service_manager_refines_registry_witness :
  reachable android false (after two_services) /\
  destructor_checks (after two_services) = true /\
  exists r s', perform android false (permissive 1000 2) (after two_services) (Call_addService "power" (Some 9) false 8) = Some (r, s') /\
    registry s' = (Registry.step (registry (after two_services)) (Call_addService "power" (Some 9) false 8) r).1 /\
    (exists l, events s' = (events (after two_services) ++ l)%list /\
       filter is_registration l = (Registry.step (registry (after two_services)) (Call_addService "power" (Some 9) false 8) r).2) /\
    Registry.answer (registry (after two_services)) (Call_addService "power" (Some 9) false 8) r.
Proof. split; [apply after_reachable|]. apply service_manager_refines_registry, after_reachable. Defined.

Lemma registered_service_is_found_witness :
  (getService android (permissive 99001 2) (after (take 2 two_services)) "activity").1 = (ok, Some 6) /\
  (getService android (permissive 99001 2) (after two_services) "activity").1 = (ok, Some 6) /\
  (getService android (permissive 99001 2) (after two_services) "media.log").1 = (ok, None).
Proof.
  split; [|split].
  - refine (proj1 (registered_service_is_found android false (after (take 1 two_services)) (permissive 1000 2) "activity" 6 true 1
      (after (take 2 two_services)) [] (after (take 2 two_services)) (permissive 99001 2) _ _ _ _));
      [apply after_reachable|by vm_compute|constructor|done].
  - refine (proj1 (registered_service_is_found android false (after (take 1 two_services)) (permissive 1000 2) "activity" 6 true 1
      (after (take 2 two_services)) (map snd (drop 2 two_services)) (after two_services) (permissive 99001 2) _ _ _ _));
      [apply after_reachable|by vm_compute| |by vm_compute].
    eapply (runs_cons _ _ _ (permissive 1000 2) _ _ (after (take 3 two_services))); [by vm_compute|].
    eapply (runs_cons _ _ _ (permissive 1000 2) _ _ (after two_services)); [by vm_compute|constructor].
  - refine (proj1 (registered_service_is_found android false initial (permissive 1000 2) "media.log" 5 false 8
      (after (take 1 two_services)) (map snd (drop 1 two_services)) (after two_services) (permissive 99001 2) _ _ _ _));
      [constructor|by vm_compute| |by vm_compute].
    eapply (runs_cons _ _ _ (permissive 1000 2) _ _ (after (take 2 two_services))); [by vm_compute|].
    eapply (runs_cons _ _ _ (permissive 1000 2) _ _ (after (take 3 two_services))); [by vm_compute|].
    eapply (runs_cons _ _ _ (permissive 1000 2) _ _ (after two_services)); [by vm_compute|constructor].
Defined.

Lemma timer_notifies_changes_witness : exists s',
  handleClientCallbacks (permissive 1000 2) (after two_services) = Some s' /\
  due (permissive 1000 2) (after two_services) "media.log" = [onClients 7 (Some 5) true] /\
  (exists s'', handleClientCallbacks (permissive 1000 2) s' = Some s'' /\ events s'' = events s').
Proof.
  destruct (timer_notifies_changes android false (after two_services) (permissive 1000 2) (after_reachable _)) as (s' & H1 & _ & _ & H2).
  exists s'. split; [exact H1|]. split; [by vm_compute|exact H2].
Defined.

Lemma unregister_only_unused_witness : exists st s',
  tryUnregisterService (permissive 1000 2) (after two_services) "media.log" (Some 5) = Some (st, s') /\ st = ok.
Proof.
  destruct (unregister_only_unused android false (after two_services) (permissive 1000 2) "media.log" 5 (after_reachable _))
    as (st & s' & H1 & H2 & _).
  exists st, s'. split; [exact H1|]. apply H2. split; [done|]. eexists _, 2. repeat split; try (by vm_compute); by eexists.
Defined.

Lemma no_permission_no_effect_witness : exists r,
  perform android false forbidding (after two_services) (Call_getService "media.log") = Some (r, after two_services) /\ reveals r = false.
Proof. apply no_permission_no_effect; by intros. Defined.

(** ** Gaps *)

(** registerForNotifications hands the binder of an existing service to the callback
    without setting the guarantee that getService and addService set for this case. If
    the server asks next, while the driver does not yet count the new client, the
    service is unregistered although its binder has just been given out; after a
    getService the same request is refused. *)
Theorem registering_gives_no_guarantee :
  let handed_out := perform_all (after two_services) [(permissive 1000 2, Call_registerForNotifications "media.log" (Some 8))] in
  let looked_up := perform_all (after two_services) [(permissive 1000 2, Call_getService "media.log")] in
  (s ← handed_out; last (events s)) = Some (onRegistration 8 "media.log" (Some 5)) /\
  (s ← handed_out; fst <$> tryUnregisterService (permissive 1000 2) s "media.log" (Some 5)) = Some ok /\
  (s ← looked_up; fst <$> tryUnregisterService (permissive 1000 2) s "media.log" (Some 5)) = Some (fromExceptionCode EX_ILLEGAL_STATE).
Proof. by vm_compute. Qed.

(** The client callbacks of a name outlive its service. When a service is
    unregistered and another process registers a service of that name, the callback of
    the first is told about the clients of the second, although only the server itself
    may register for them. *)
Theorem client_callback_outlives_service :
  let other := mkEnv (Access.mk (Access.mkContext 3 1000 EmptyString) (fun _ _ => true) (fun _ _ => true) (fun _ => true)) 3
    (fun b => Some (DriverBinder b)) (fun _ => Stability.SYSTEM) (fun _ => OK) (fun _ => Some 2) [] in
  let replaced := perform_all (after two_services)
    [(permissive 1000 2, Call_tryUnregisterService "media.log" (Some 5)); (other, Call_addService "media.log" (Some 11) false 8);
     (other, Timer)] in
  (s ← replaced; last (events s)) = Some (onClients 7 (Some 11) true) /\
  fst <$> (s ← replaced; Some (registerClientCallback (permissive 1000 2) s "media.log" (Some 11) (Some 7))) =
    Some (fromExceptionCode EX_UNSUPPORTED_OPERATION).
Proof. by vm_compute. Qed.
