(* ===== verification/Parcel.v ===== *)
(** * Parcel (libs/binder/Parcel.cpp, libs/binder/include/binder/Parcel.h)

    The container in which the arguments of a transaction travel. [mData] is the block of
    memory, a list of [mDataCapacity] bytes; [mObjects] holds the offsets of the binders
    and file descriptors in it ([mObjectsSize] is its length).

    An operation is a function of the parcel in the monad [M]: it gives a result and the
    new parcel, or [None] when the process ends: a LOG_ALWAYS_FATAL, or an access to
    memory outside the block. The target is little endian with 64-bit [size_t].

    Not in the repository, and so fields of the record [env]: the allocator, ashmem, and
    the kernel's [flat_binder_object]. What the parcel does to the reference counts of
    binders, to file descriptors and to a block it does not own is recorded in [events]. *)

From S2P Require Import Prelude.

Module Parcel.

(** ** Errors (libs/binder/ndk/include_ndk/android/binder_status.h) *)

Definition BAD_TYPE : status_t := UNKNOWN_ERROR + 1.
Definition FDS_NOT_ALLOWED : status_t := UNKNOWN_ERROR + 7.
Definition UNEXPECTED_NULL : status_t := UNKNOWN_ERROR + 8.
Definition PERMISSION_DENIED : status_t := -1.
Definition NOT_ENOUGH_DATA : status_t := -61.
Definition SIZE_MAX : Z := 18446744073709551615.

(** ** Bytes *)

(** the [n] bytes of [z], the least significant first *)
Fixpoint le_bytes (n : nat) (z : Z) : list Z :=
  match n with O => [] | S n' => z mod 256 :: le_bytes n' (z / 256) end.

Fixpoint le_value (l : list Z) : Z :=
  match l with [] => 0 | b :: l' => b + 256 * le_value l' end.

(** ** The kernel's objects, the allocator and ashmem *)

Record flat_binder_object := mkFlat {
  hdr_type : Z;
  flags : Z;
  binder : Z;
  handle : Z;
  cookie : Z }.

Record env := mkEnv {
  (** a block of that many bytes, with whatever is in them *)
  malloc : Z -> option (list Z);
  (** whether the array of object offsets can be given that size *)
  objects_available : Z -> bool;
  (** [ashmem_valid] and [ashmem_get_size_region] of a file descriptor *)
  ashmem_size : Z -> option Z;
  (** whether [getStrongProxyForHandle] finds a proxy *)
  proxy_available : Z -> bool;
  (** [fcntl(fd, F_DUPFD_CLOEXEC, 0)] *)
  dup_fd : Z -> Z;
  sizeof_flat : Z;
  flat_bytes : flat_binder_object -> list Z;
  flat_of_bytes : list Z -> flat_binder_object;
  BINDER_TYPE_BINDER : Z;
  BINDER_TYPE_HANDLE : Z;
  BINDER_TYPE_FD : Z }.

Inductive event :=
| acquired (obj : flat_binder_object)
| released (obj : flat_binder_object)
| closed_fd (fd : Z)
| owner_released.

(** ** The parcel *)

Record t := mk {
  mError : status_t;
  mData : option (list Z);
  mDataSize : Z;
  mDataCapacity : Z;
  mDataPos : Z;
  mObjects : list Z;
  mObjectsCapacity : Z;
  mNextObjectHint : Z;
  mObjectsSorted : bool;
  mRequestHeaderPresent : bool;
  mWorkSourceRequestHeaderPosition : Z;
  mFdsKnown : bool;
  mHasFds : bool;
  mAllowFds : bool;
  mDeallocZero : bool;
  mOwner : bool;
  mSession : bool;
  mOpenAshmemSize : Z;
  (** what this parcel adds to the counters of all parcels *)
  gParcelGlobalAllocSize : Z;
  gParcelGlobalAllocCount : Z;
  events : list event }.

Definition eta (p : t) : t :=
  mk (mError p) (mData p) (mDataSize p) (mDataCapacity p) (mDataPos p) (mObjects p) (mObjectsCapacity p) (mNextObjectHint p)
     (mObjectsSorted p) (mRequestHeaderPresent p) (mWorkSourceRequestHeaderPosition p) (mFdsKnown p) (mHasFds p) (mAllowFds p)
     (mDeallocZero p) (mOwner p) (mSession p) (mOpenAshmemSize p) (gParcelGlobalAllocSize p) (gParcelGlobalAllocCount p) (events p).
#[global] Instance set_mError : Setter mError := ltac:(setter_of eta mError).
#[global] Instance set_mData : Setter mData := ltac:(setter_of eta mData).
#[global] Instance set_mDataSize : Setter mDataSize := ltac:(setter_of eta mDataSize).
#[global] Instance set_mDataCapacity : Setter mDataCapacity := ltac:(setter_of eta mDataCapacity).
#[global] Instance set_mDataPos : Setter mDataPos := ltac:(setter_of eta mDataPos).
#[global] Instance set_mObjects : Setter mObjects := ltac:(setter_of eta mObjects).
#[global] Instance set_mObjectsCapacity : Setter mObjectsCapacity := ltac:(setter_of eta mObjectsCapacity).
#[global] Instance set_mNextObjectHint : Setter mNextObjectHint := ltac:(setter_of eta mNextObjectHint).
#[global] Instance set_mObjectsSorted : Setter mObjectsSorted := ltac:(setter_of eta mObjectsSorted).
#[global] Instance set_mRequestHeaderPresent : Setter mRequestHeaderPresent := ltac:(setter_of eta mRequestHeaderPresent).
#[global] Instance set_mWorkSourceRequestHeaderPosition : Setter mWorkSourceRequestHeaderPosition := ltac:(setter_of eta mWorkSourceRequestHeaderPosition).
#[global] Instance set_mFdsKnown : Setter mFdsKnown := ltac:(setter_of eta mFdsKnown).
#[global] Instance set_mHasFds : Setter mHasFds := ltac:(setter_of eta mHasFds).
#[global] Instance set_mAllowFds : Setter mAllowFds := ltac:(setter_of eta mAllowFds).
#[global] Instance set_mDeallocZero : Setter mDeallocZero := ltac:(setter_of eta mDeallocZero).
#[global] Instance set_mOwner : Setter mOwner := ltac:(setter_of eta mOwner).
#[global] Instance set_mSession : Setter mSession := ltac:(setter_of eta mSession).
#[global] Instance set_mOpenAshmemSize : Setter mOpenAshmemSize := ltac:(setter_of eta mOpenAshmemSize).
#[global] Instance set_gParcelGlobalAllocSize : Setter gParcelGlobalAllocSize := ltac:(setter_of eta gParcelGlobalAllocSize).
#[global] Instance set_gParcelGlobalAllocCount : Setter gParcelGlobalAllocCount := ltac:(setter_of eta gParcelGlobalAllocCount).
#[global] Instance set_events : Setter events := ltac:(setter_of eta events).

Definition mObjectsSize (p : t) : Z := Z.of_nat (length (mObjects p)).

(** ** The monad *)

Definition M (A : Type) : Type := t -> option (A * t).
#[global] Instance M_ret : MRet M := fun A a p => Some (a, p).
#[global] Instance M_bind : MBind M := fun A B f m p => match m p with Some (a, p') => f a p' | None => None end.

Definition gets {A} (f : t -> A) : M A := fun p => Some (f p, p).
Definition modify (f : t -> t) : M unit := fun p => Some (tt, f p).
(** the process ends *)
Definition fatal {A} : M A := fun _ => None.

Definition emit (ev : event) : M unit := modify (fun p => p <| events := events p ++ [ev] |>).

(** [memcpy] to and from [mData + pos] *)
Definition store (pos : Z) (bytes : list Z) (d : list Z) : list Z :=
  take (Z.to_nat pos) d ++ bytes ++ drop (Z.to_nat pos + length bytes) d.

Definition write_mem (pos : Z) (bytes : list Z) : M unit :=
  d ← gets mData;
  let d := default [] d in
  if (0 <=? pos) && (pos + Z.of_nat (length bytes) <=? Z.of_nat (length d)) || bool_decide (bytes = [])
  then modify (fun p => p <| mData := store pos bytes <$> mData p |>) else fatal.

Definition read_mem (pos len : Z) : M (list Z) :=
  d ← gets mData;
  let d := default [] d in
  if (0 <=? pos) && (pos + len <=? Z.of_nat (length d)) || (len =? 0)
  then mret (take (Z.to_nat len) (drop (Z.to_nat pos) d)) else fatal.

(** [PAD_SIZE_UNSAFE] and [pad_size] *)
Definition PAD_SIZE_UNSAFE (s : Z) : Z := Z.land (s + 3) (Z.lnot 3).
Definition pad_size (s : Z) : M Z := if SIZE_MAX - 3 <? s then fatal else mret (PAD_SIZE_UNSAFE s).

Fixpoint for_each {A} (f : A -> M unit) (l : list A) : M unit :=
  match l with [] => mret tt | a :: l' => _ ← f a; for_each f l' end.

Section Operations.

Context (e : env).

(** ** Objects *)

Definition acquire_object (obj : flat_binder_object) : M unit :=
  if hdr_type obj =? BINDER_TYPE_BINDER e then
    if negb (binder obj =? 0) then emit (acquired obj) else mret tt
  else if hdr_type obj =? BINDER_TYPE_HANDLE e then
    if proxy_available e (handle obj) then emit (acquired obj) else mret tt
  else if hdr_type obj =? BINDER_TYPE_FD e then
    match ashmem_size e (handle obj) with
    | Some size =>
      if negb (cookie obj =? 0) && (0 <? size)
      then modify (fun p => p <| mOpenAshmemSize := uint64 (mOpenAshmemSize p + size) |>) else mret tt
    | None => mret tt
    end
  else mret tt.

Definition release_object (obj : flat_binder_object) : M unit :=
  if hdr_type obj =? BINDER_TYPE_BINDER e then
    if negb (binder obj =? 0) then emit (released obj) else mret tt
  else if hdr_type obj =? BINDER_TYPE_HANDLE e then
    if proxy_available e (handle obj) then emit (released obj) else mret tt
  else if hdr_type obj =? BINDER_TYPE_FD e then
    if negb (cookie obj =? 0) then
      _ ← match ashmem_size e (handle obj) with
          | Some size =>
            if 0 <? size then modify (fun p => p <| mOpenAshmemSize := mOpenAshmemSize p - Z.min (mOpenAshmemSize p) size |>) else mret tt
          | None => mret tt
          end;
      emit (closed_fd (handle obj))
    else mret tt
  else mret tt.

Definition flat_at (off : Z) : M flat_binder_object :=
  bytes ← read_mem off (sizeof_flat e); mret (flat_of_bytes e bytes).

(** from the last object to the first *)
Definition releaseObjects : M unit :=
  objects ← gets mObjects;
  for_each (fun off => flat ← flat_at off; release_object flat) (rev objects).

(** the first [n] objects, the last of them first *)
Definition acquireObjects (n : nat) : M unit :=
  objects ← gets mObjects;
  for_each (fun off => flat ← flat_at off; acquire_object flat) (rev (take n objects)).

Definition is_fd (flat : flat_binder_object) : bool := hdr_type flat =? BINDER_TYPE_FD e.

Fixpoint any_fd (objects : list Z) : M bool :=
  match objects with
  | [] => mret false
  | off :: objects' => flat ← flat_at off; if is_fd flat then mret true else any_fd objects'
  end.

Definition scanForFds : M unit :=
  objects ← gets mObjects;
  hasFds ← any_fd objects;
  modify (fun p => p <| mHasFds := hasFds |> <| mFdsKnown := true |>).

Definition hasFileDescriptors : M bool :=
  known ← gets mFdsKnown;
  _ ← (if negb known then scanForFds else mret tt);
  gets mHasFds.

Definition closeFileDescriptors : M unit :=
  objects ← gets mObjects;
  for_each (fun off => flat ← flat_at off; if is_fd flat then emit (closed_fd (handle flat)) else mret tt) (rev objects).

(** ** Memory *)

(** [initState]; the counters and the record of events are not members of the object *)
Definition initState : M unit :=
  modify (fun p => mk NO_ERROR None 0 0 0 [] 0 0 false false 0 true false true false false false 0
                      (gParcelGlobalAllocSize p) (gParcelGlobalAllocCount p) (events p)).

(** a new [Parcel] *)
Definition new : t := mk NO_ERROR None 0 0 0 [] 0 0 false false 0 true false true false false false 0 0 0 [].

Definition freeDataNoInit : M unit :=
  owner ← gets mOwner;
  if (owner : bool) then emit owner_released
  else
    _ ← releaseObjects;
    data ← gets mData;
    match data with
    | Some _ => modify (fun p => p <| gParcelGlobalAllocSize := gParcelGlobalAllocSize p - mDataCapacity p |>
                                   <| gParcelGlobalAllocCount := gParcelGlobalAllocCount p - 1 |>)
    | None => mret tt
    end.

Definition freeData : M unit := _ ← freeDataNoInit; initState.

(** [realloc]: the bytes that fit are kept *)
Definition realloc (data : option (list Z)) (newCapacity : Z) : option (list Z) :=
  let old := default [] data in
  fresh ← malloc e newCapacity;
  Some (take (Z.to_nat newCapacity) old ++ drop (length old) fresh).

Definition reallocZeroFree (data : option (list Z)) (oldCapacity newCapacity : Z) (zero : bool) : option (list Z) :=
  if negb zero then realloc data newCapacity
  else
    newData ← malloc e newCapacity;
    Some (store 0 (take (Z.to_nat (Z.min oldCapacity newCapacity)) (default [] data)) newData).

Definition out_of_memory : M status_t := _ ← modify (fun p => p <| mError := NO_MEMORY |>); mret NO_MEMORY.

(** how many objects stay when the data is cut to [desired] bytes: the loop drops
    objects from the end *)
Fixpoint drop_objects (desired : Z) (rev_objects : list Z) : nat :=
  match rev_objects with
  | [] => 0
  | off :: rest => if off <? desired then S (length rest) else drop_objects desired rest
  end.

Definition kept_objects (desired : Z) (p : t) : nat :=
  if desired <? mDataSize p then
    if desired =? 0 then 0 else drop_objects desired (rev (mObjects p))
  else length (mObjects p).

(** [continueWrite], the branch in which the data belongs to somebody else *)
Definition take_possession (desired : Z) (objectsSize : nat) : M status_t :=
  if desired =? 0 then _ ← freeData; mret NO_ERROR
  else
    match malloc e desired with
    | None => out_of_memory
    | Some data =>
      if negb (Nat.eqb objectsSize 0) && negb (objects_available e (Z.of_nat objectsSize)) then out_of_memory
      else
        _ ← (if negb (Nat.eqb objectsSize 0) then acquireObjects objectsSize else mret tt);
        _ ← emit owner_released;
        _ ← modify (fun p =>
          let size := Z.min (mDataSize p) desired in
          p <| mData := Some (match mData p with Some old => store 0 (take (Z.to_nat size) old) data | None => data end) |>
            <| mOwner := false |>
            <| gParcelGlobalAllocSize := gParcelGlobalAllocSize p + desired |>
            <| gParcelGlobalAllocCount := gParcelGlobalAllocCount p + 1 |>
            <| mObjects := take objectsSize (mObjects p) |>
            <| mDataSize := size |>
            <| mDataCapacity := desired |>
            <| mObjectsCapacity := Z.of_nat objectsSize |>
            <| mNextObjectHint := 0 |>
            <| mObjectsSorted := false |>);
        mret NO_ERROR
    end.

(** the objects that are cut off give up what they hold *)
Definition drop_tail_objects (objectsSize : nat) : M unit :=
  objects ← gets mObjects;
  if Nat.ltb objectsSize (length objects) then
    _ ← for_each (fun off =>
          flat ← flat_at off;
          _ ← (if is_fd flat then modify (fun p => p <| mFdsKnown := false |>) else mret tt);
          release_object flat) (drop objectsSize objects);
    modify (fun p =>
      p <| mObjects := take objectsSize (mObjects p) |>
        <| mObjectsCapacity := if Nat.eqb objectsSize 0 then 0
                               else if objects_available e (Z.of_nat objectsSize) then Z.of_nat objectsSize else mObjectsCapacity p |>
        <| mNextObjectHint := 0 |>
        <| mObjectsSorted := false |>)
  else mret tt.

(** the branch in which the parcel owns its data *)
Definition resize_own (desired : Z) (objectsSize : nat) : M status_t :=
  _ ← drop_tail_objects objectsSize;
  p ← gets id;
  if mDataCapacity p <? desired then
    match reallocZeroFree (mData p) (mDataCapacity p) desired (mDeallocZero p) with
    | Some data =>
      _ ← modify (fun p => p <| gParcelGlobalAllocSize := gParcelGlobalAllocSize p + desired - mDataCapacity p |>
                             <| mData := Some data |> <| mDataCapacity := desired |>);
      mret NO_ERROR
    | None => out_of_memory
    end
  else
    _ ← modify (fun p => p <| mDataSize := Z.min (mDataSize p) desired |> <| mDataPos := Z.min (mDataPos p) desired |>);
    mret NO_ERROR.

Definition first_data (desired : Z) : M status_t :=
  match malloc e desired with
  | None => out_of_memory
  | Some data =>
    _ ← modify (fun p => p <| gParcelGlobalAllocSize := gParcelGlobalAllocSize p + desired |>
                           <| gParcelGlobalAllocCount := gParcelGlobalAllocCount p + 1 |>
                           <| mData := Some data |> <| mDataSize := 0 |> <| mDataPos := 0 |> <| mDataCapacity := desired |>);
    mret NO_ERROR
  end.

Definition continueWrite (desired : Z) : M status_t :=
  if INT32_MAX <? desired then mret BAD_VALUE
  else
    objectsSize ← gets (kept_objects desired);
    owner ← gets mOwner;
    data ← gets mData;
    if (owner : bool) then take_possession desired objectsSize
    else match data with
         | Some _ => resize_own desired objectsSize
         | None => first_data desired
         end.

Definition growData (len : Z) : M status_t :=
  if INT32_MAX <? len then mret BAD_VALUE
  else
    size ← gets mDataSize;
    if SIZE_MAX - size <? len then mret NO_MEMORY
    else if SIZE_MAX / 3 <? size + len then mret NO_MEMORY
    else
      let newSize := ((size + len) * 3) / 2 in
      if newSize <=? size then mret NO_MEMORY else continueWrite (Z.max newSize 128).

Definition restartWrite (desired : Z) : M status_t :=
  if INT32_MAX <? desired then mret BAD_VALUE
  else
    owner ← gets mOwner;
    if (owner : bool) then _ ← freeData; continueWrite desired
    else
      p ← gets id;
      let data := reallocZeroFree (mData p) (mDataCapacity p) desired (mDeallocZero p) in
      if bool_decide (data = None) && (mDataCapacity p <? desired) then out_of_memory
      else
        (* the objects are read through [mData], which [realloc] has given back *)
        _ ← (if negb (bool_decide (mObjects p = [])) && (bool_decide (data <> None) || (desired =? 0) && negb (mDeallocZero p)) then fatal else releaseObjects);
        _ ← (if bool_decide (data <> None) || (desired =? 0) then
               modify (fun p => p <| gParcelGlobalAllocSize := gParcelGlobalAllocSize p + desired - mDataCapacity p |>
                                  <| gParcelGlobalAllocCount := gParcelGlobalAllocCount p + (if mData p then 0 else 1) |>
                                  <| mData := data |> <| mDataCapacity := desired |>)
             else mret tt);
        _ ← modify (fun p => p <| mDataSize := 0 |> <| mDataPos := 0 |> <| mObjects := [] |> <| mObjectsCapacity := 0 |>
                               <| mNextObjectHint := 0 |> <| mObjectsSorted := false |> <| mHasFds := false |>
                               <| mFdsKnown := true |> <| mAllowFds := true |>);
        mret NO_ERROR.

(** ** Position and size *)

Definition dataSize : M Z := gets (fun p => if mDataPos p <? mDataSize p then mDataSize p else mDataPos p).
Definition dataPosition : M Z := gets mDataPos.
Definition dataCapacity : M Z := gets mDataCapacity.

Definition dataAvail : M Z :=
  size ← dataSize; pos ← dataPosition;
  let result := size - pos in
  if INT32_MAX <? result then fatal else mret result.

Definition setDataSize (size : Z) : M status_t :=
  if INT32_MAX <? size then mret BAD_VALUE
  else
    err ← continueWrite size;
    _ ← (if err =? NO_ERROR then modify (fun p => p <| mDataSize := size |>) else mret tt);
    mret err.

Definition setDataPosition (pos : Z) : M unit :=
  if INT32_MAX <? pos then fatal
  else modify (fun p => p <| mDataPos := pos |> <| mNextObjectHint := 0 |> <| mObjectsSorted := false |>).

Definition setDataCapacity (size : Z) : M status_t :=
  if INT32_MAX <? size then mret BAD_VALUE
  else
    capacity ← gets mDataCapacity;
    if capacity <? size then continueWrite size else mret NO_ERROR.

Definition setData (buffer : list Z) : M status_t :=
  let len := Z.of_nat (length buffer) in
  if INT32_MAX <? len then mret BAD_VALUE
  else
    err ← restartWrite len;
    if err =? NO_ERROR then
      _ ← write_mem 0 buffer;
      _ ← modify (fun p => p <| mDataSize := len |> <| mFdsKnown := false |>);
      mret err
    else mret err.

(** [-1], [0] or [1], like [memcmp] *)
Fixpoint memcmp (l1 l2 : list Z) : Z :=
  match l1, l2 with
  | a :: l1', b :: l2' => if a <? b then -1 else if b <? a then 1 else memcmp l1' l2'
  | _, _ => 0
  end.
Definition compareData (other : t) : M Z :=
  size ← dataSize;
  let other_size := if mDataPos other <? mDataSize other then mDataSize other else mDataPos other in
  if negb (size =? other_size) then mret (if size <? other_size then -1 else 1)
  else
    bytes ← read_mem 0 size;
    let d := default [] (mData other) in
    if size <=? Z.of_nat (length d) then mret (memcmp bytes (take (Z.to_nat size) d)) else fatal.

Definition allowFds : M bool := gets mAllowFds.
Definition pushAllowFds (allowFds : bool) : M bool :=
  origValue ← gets mAllowFds;
  _ ← (if negb allowFds then modify (fun p => p <| mAllowFds := false |>) else mret tt);
  mret origValue.
Definition restoreAllowFds (lastValue : bool) : M unit := modify (fun p => p <| mAllowFds := lastValue |>).

Definition markSensitive : M unit := modify (fun p => p <| mDeallocZero := true |>).
(** with a session *)
Definition markForRpc : M unit :=
  p ← gets id;
  if bool_decide (mData p <> None) && negb (mOwner p) then fatal else modify (fun p => p <| mSession := true |>).
(** [rpc]: the binder is a proxy of an RPC session *)
Definition markForBinder (rpc : bool) : M unit :=
  data ← gets mData;
  if bool_decide (data <> None) then fatal else if rpc then markForRpc else mret tt.
Definition isForRpc : M bool := gets mSession.

Definition objectsCount : M Z := gets mObjectsSize.
Definition errorCheck : M status_t := gets mError.
Definition setError (err : status_t) : M unit := modify (fun p => p <| mError := err |>).

(** ** Writing bytes *)

Definition finishWrite (len : Z) : M status_t :=
  if INT32_MAX <? len then mret BAD_VALUE
  else
    _ ← modify (fun p => let pos := uint64 (mDataPos p + len) in
                         p <| mDataPos := pos |> <| mDataSize := Z.max (mDataSize p) pos |>);
    mret NO_ERROR.

Definition writeUnpadded (data : list Z) : M status_t :=
  let len := Z.of_nat (length data) in
  let restart_write := pos ← gets mDataPos; _ ← write_mem pos data; finishWrite len in
  if INT32_MAX <? len then mret BAD_VALUE
  else
    p ← gets id;
    let end_ := uint64 (mDataPos p + len) in
    if end_ <? mDataPos p then mret BAD_VALUE
    else if end_ <=? mDataCapacity p then restart_write
    else err ← growData len; if err =? NO_ERROR then restart_write else mret err.

(** the masks for the last word of a padded block *)
Definition pad_mask (n : Z) : Z :=
  if n =? 1 then 16777215 else if n =? 2 then 65535 else if n =? 3 then 255 else 0.

(** Gives the position of the block, [None] for a null pointer. *)
Definition writeInplace (len : Z) : M (option Z) :=
  if INT32_MAX <? len then mret None
  else
    padded ← pad_size len;
    let restart_write :=
      data ← gets mDataPos;
      _ ← (if negb (padded =? len) then
             word ← read_mem (data + padded - 4) 4;
             write_mem (data + padded - 4) (le_bytes 4 (Z.land (le_value word) (pad_mask (padded - len))))
           else mret tt);
      _ ← finishWrite padded;
      mret (Some data) in
    p ← gets id;
    if uint64 (mDataPos p + padded) <? mDataPos p then mret None
    else if uint64 (mDataPos p + padded) <=? mDataCapacity p then restart_write
    else err ← growData padded; if err =? NO_ERROR then restart_write else mret None.

Definition write (data : list Z) : M status_t :=
  let len := Z.of_nat (length data) in
  if INT32_MAX <? len then mret BAD_VALUE
  else
    d ← writeInplace len;
    match d with
    | Some pos => _ ← write_mem pos data; mret NO_ERROR
    | None => gets mError
    end.

(** [writeAligned<T>] for a [T] of [n] bytes *)
Definition writeAligned (n : nat) (val : Z) : M status_t :=
  let sizeof := Z.of_nat n in
  let restart_write := pos ← gets mDataPos; _ ← write_mem pos (le_bytes n val); finishWrite sizeof in
  p ← gets id;
  if uint64 (mDataPos p + sizeof) <=? mDataCapacity p then restart_write
  else err ← growData sizeof; if err =? NO_ERROR then restart_write else mret err.

(** ** Writing values *)

Definition writeInt32 (val : Z) : M status_t := writeAligned 4 val.
Definition writeUint32 (val : Z) : M status_t := writeAligned 4 val.
Definition writeInt64 (val : Z) : M status_t := writeAligned 8 val.
Definition writeUint64 (val : Z) : M status_t := writeAligned 8 val.
Definition writePointer (val : Z) : M status_t := writeAligned 8 val.
(** a [float] or [double] is its bits *)
Definition writeFloat (bits : Z) : M status_t := writeAligned 4 bits.
Definition writeDouble (bits : Z) : M status_t := writeAligned 8 bits.
Definition writeBool (val : bool) : M status_t := writeInt32 (if val then 1 else 0).
Definition writeChar (val : Z) : M status_t := writeInt32 val.
Definition writeByte (val : Z) : M status_t := writeInt32 val.

(** [len] elements of [n] bytes each; a null array is [None] *)
Definition write_array (n : nat) (len : Z) (val : option (list Z)) : M status_t :=
  if INT32_MAX <? len then mret BAD_VALUE
  else
    match val with
    | None => writeInt32 (-1)
    | Some l =>
      ret ← writeInt32 (uint32 len);
      if ret =? NO_ERROR then write (concat (map (le_bytes n) l)) else mret ret
    end.
Definition writeInt32Array (len : Z) (val : option (list Z)) : M status_t := write_array 4 len val.
Definition writeByteArray (len : Z) (val : option (list Z)) : M status_t := write_array 1 len val.

(** the string without its terminator *)
Definition writeCString (str : list Z) : M status_t := write (str ++ [0]).

(** [writeString8] and [writeString16]: characters of [n] bytes *)
Definition write_string (n : nat) (str : option (list Z)) : M status_t :=
  match str with
  | None => writeInt32 (-1)
  | Some chars =>
    let len := Z.of_nat (length chars) in
    err ← writeInt32 len;
    if err =? NO_ERROR then
      let len := Z.of_nat n * len in
      data ← writeInplace (len + Z.of_nat n);
      match data with
      | Some pos =>
        _ ← write_mem pos (concat (map (le_bytes n) chars));
        _ ← write_mem (pos + len) (le_bytes n 0);
        mret NO_ERROR
      | None => gets mError
      end
    else mret err
  end.
Definition writeString8 (str : option (list Z)) : M status_t := write_string 1 str.
Definition writeString16 (str : option (list Z)) : M status_t := write_string 2 str.

(** ** Writing objects *)

Definition writeObject (val : flat_binder_object) (nullMetaData : bool) : M status_t :=
  let restart_write :=
    pos ← gets mDataPos;
    _ ← write_mem pos (flat_bytes e val);
    allow ← gets mAllowFds;
    if is_fd val && negb allow then mret FDS_NOT_ALLOWED
    else
      _ ← (if is_fd val then modify (fun p => p <| mHasFds := true |> <| mFdsKnown := true |>) else mret tt);
      _ ← (if nullMetaData || negb (binder val =? 0) then
             _ ← acquire_object val;
             modify (fun p => p <| mObjects := mObjects p ++ [mDataPos p] |>)
           else mret tt);
      finishWrite (sizeof_flat e) in
  p ← gets id;
  let enoughData := uint64 (mDataPos p + sizeof_flat e) <=? mDataCapacity p in
  let enoughObjects := mObjectsSize p <? mObjectsCapacity p in
  err ← (if negb enoughData then growData (sizeof_flat e) else mret NO_ERROR);
  if negb (err =? NO_ERROR) then mret err
  else if negb enoughObjects then
    (* [growData] does not add objects *)
    size ← gets mObjectsSize;
    if SIZE_MAX - 2 <? size then mret NO_MEMORY
    else if SIZE_MAX / 3 <? size + 2 then mret NO_MEMORY
    else
      let newSize := ((size + 2) * 3) / 2 in
      if SIZE_MAX / 8 <? newSize then mret NO_MEMORY
      else if negb (objects_available e newSize) then mret NO_MEMORY
      else _ ← modify (fun p => p <| mObjectsCapacity := newSize |>); restart_write
  else restart_write.

(** [flags] is [0x7f | FLAT_BINDER_FLAG_ACCEPTS_FDS] *)
Definition writeFileDescriptor (flags fd : Z) (takeOwnership : bool) : M status_t :=
  rpc ← gets mSession;
  if (rpc : bool) then mret BAD_TYPE
  else writeObject (mkFlat (BINDER_TYPE_FD e) flags 0 fd (if takeOwnership then 1 else 0)) true.

(** [error] is [-errno] *)
Definition writeDupFileDescriptor (flags fd error : Z) : M status_t :=
  let dupFd := dup_fd e fd in
  if dupFd <? 0 then mret error
  else
    err ← writeFileDescriptor flags dupFd true;
    _ ← (if negb (err =? OK) then emit (closed_fd dupFd) else mret tt);
    mret err.

Definition writeParcelFileDescriptor (flags fd : Z) (takeOwnership : bool) : M status_t :=
  _ ← writeInt32 0; writeFileDescriptor flags fd takeOwnership.

Definition writeDupParcelFileDescriptor (flags fd error : Z) : M status_t :=
  let dupFd := dup_fd e fd in
  if dupFd <? 0 then mret error
  else
    err ← writeParcelFileDescriptor flags dupFd true;
    _ ← (if negb (err =? OK) then emit (closed_fd dupFd) else mret tt);
    mret err.

Definition writeUniqueFileDescriptor (flags fd error : Z) : M status_t := writeDupFileDescriptor flags fd error.

(** [fds] and [ints] are the two parts of the handle's data; [None] is a null handle or one
    of another version *)
Fixpoint write_handle_fds (flags error : Z) (fds : list Z) : M status_t :=
  match fds with
  | [] => mret NO_ERROR
  | fd :: fds' => err ← writeDupFileDescriptor flags fd error; if err =? NO_ERROR then write_handle_fds flags error fds' else mret err
  end.
Definition writeNativeHandle (flags error : Z) (handle : option (list Z * list Z)) : M status_t :=
  match handle with
  | None => mret BAD_TYPE
  | Some (fds, ints) =>
    err ← writeInt32 (Z.of_nat (length fds));
    if negb (err =? NO_ERROR) then mret err
    else
      err ← writeInt32 (Z.of_nat (length ints));
      if negb (err =? NO_ERROR) then mret err
      else
        err ← write_handle_fds flags error fds;
        if negb (err =? NO_ERROR) then mret err else write (concat (map (le_bytes 4) ints))
  end.

(** ** Reading bytes *)

(** the loop that compares neighbours from the end *)
Fixpoint descending (rev_objects : list Z) : bool :=
  match rev_objects with
  | curr :: ((prev :: _) as rest) => if curr <? prev then false else descending rest
  | _ => true
  end.

(** one turn of the insertion sort: [sorted] is the sorted part, its end first *)
Fixpoint insert_sorted (temp : Z) (sorted : list Z) : list Z :=
  match sorted with
  | x :: rest => if temp <? x then x :: insert_sorted temp rest else temp :: sorted
  | [] => [temp]
  end.
Definition insertion_sort (objects : list Z) : list Z := rev (foldl (fun sorted temp => insert_sorted temp sorted) [] objects).

(** the loop over the objects from the hint on: [None] when the bytes from [pos] to
    [upperBound] overlap an object, else the new hint *)
Fixpoint check_objects (pos upperBound : Z) (objects : list Z) (nextObject : Z) : option Z :=
  match objects with
  | [] => Some nextObject
  | off :: objects' =>
    if off <? upperBound then
      if pos <? off + sizeof_flat e then None else check_objects pos upperBound objects' (nextObject + 1)
    else Some nextObject
  end.

Definition validateReadData (upperBound : Z) : M status_t :=
  p ← gets id;
  _ ← (if mObjectsSorted p || (mObjectsSize p <=? 1) then mret tt
       else if descending (rev (mObjects p)) then modify (fun p => p <| mObjectsSorted := true |>)
       else modify (fun p => p <| mObjects := insertion_sort (mObjects p) |> <| mNextObjectHint := 0 |> <| mObjectsSorted := true |>));
  p ← gets id;
  match check_objects (mDataPos p) upperBound (drop (Z.to_nat (mNextObjectHint p)) (mObjects p)) (mNextObjectHint p) with
  | None => mret PERMISSION_DENIED
  | Some hint => _ ← modify (fun p => p <| mNextObjectHint := hint |>); mret NO_ERROR
  end.

(** moves on by [len] bytes, after the test that they are not part of an object *)
Definition advance (len : Z) : M status_t :=
  p ← gets id;
  err ← (if 0 <? mObjectsSize p then validateReadData (mDataPos p + len) else mret NO_ERROR);
  _ ← modify (fun p => p <| mDataPos := mDataPos p + len |>);
  mret err.

(** the test of [read] and [readInplace] that the data holds [len] bytes *)
Definition enough_data (p : t) (len padded : Z) : bool :=
  (mDataPos p <=? uint64 (mDataPos p + padded)) && (uint64 (mDataPos p + padded) <=? mDataSize p) && (len <=? padded).

(** the bytes read, when the status is [NO_ERROR] *)
Definition read (len : Z) : M (status_t * list Z) :=
  if INT32_MAX <? len then mret (BAD_VALUE, [])
  else
    padded ← pad_size len;
    p ← gets id;
    if enough_data p len padded then
      err ← advance padded;
      if negb (err =? NO_ERROR) then mret (err, [])
      else bytes ← read_mem (mDataPos p) len; mret (NO_ERROR, bytes)
    else mret (NOT_ENOUGH_DATA, []).

(** the position of the bytes, [None] for a null pointer *)
Definition readInplace (len : Z) : M (option Z) :=
  if INT32_MAX <? len then mret None
  else
    padded ← pad_size len;
    p ← gets id;
    if enough_data p len padded then
      err ← advance padded;
      mret (if negb (err =? NO_ERROR) then None else Some (mDataPos p))
    else mret None.

(** [readAligned<T>] for a [T] of [n] bytes: the status and the value stored, if any *)
Definition readAligned (n : nat) : M (status_t * option Z) :=
  let sizeof := Z.of_nat n in
  p ← gets id;
  if uint64 (mDataPos p + sizeof) <=? mDataSize p then
    err ← advance sizeof;
    if negb (err =? NO_ERROR) then mret (err, None)
    else bytes ← read_mem (mDataPos p) sizeof; mret (NO_ERROR, Some (le_value bytes))
  else mret (NOT_ENOUGH_DATA, None).

(** the variant that gives [0] on an error *)
Definition readAligned_or_0 (n : nat) : M Z := r ← readAligned n; mret (match r with (_, Some v) => v | (_, None) => 0 end).

(** ** Reading values *)

Definition readInt32 : M (status_t * option Z) := r ← readAligned 4; mret (r.1, int32 <$> r.2).
Definition readInt32_or_0 : M Z := v ← readAligned_or_0 4; mret (int32 v).
Definition readUint32 : M (status_t * option Z) := readAligned 4.
Definition readInt64 : M (status_t * option Z) := r ← readAligned 8; mret (r.1, int64 <$> r.2).
Definition readUint64 : M (status_t * option Z) := readAligned 8.
Definition readPointer : M (status_t * option Z) := readAligned 8.
Definition readFloat : M (status_t * option Z) := readAligned 4.
Definition readDouble : M (status_t * option Z) := readAligned 8.

(** these store a value in every case *)
Definition readBool : M (status_t * bool) := r ← readInt32; mret (r.1, negb (default 0 r.2 =? 0)).
Definition readChar : M (status_t * Z) := r ← readInt32; mret (r.1, default 0 r.2 mod 65536).
Definition int8 (z : Z) : Z := (z + 128) mod 256 - 128.
Definition readByte : M (status_t * Z) := r ← readInt32; mret (r.1, int8 (default 0 r.2)).

(** the position of the first zero *)
Fixpoint memchr0 (l : list Z) : option nat :=
  match l with [] => None | b :: l' => if b =? 0 then Some 0%nat else S <$> memchr0 l' end.

Definition readCString : M (option (list Z)) :=
  p ← gets id;
  if mDataPos p <? mDataSize p then
    str ← read_mem (mDataPos p) (mDataSize p - mDataPos p);
    match memchr0 str with
    | Some len =>
      padded ← pad_size (Z.of_nat len + 1);
      _ ← modify (fun p => p <| mDataPos := mDataPos p + padded |>);
      mret (Some (take len str))
    | None => mret None
    end
  else mret None.

(** the values of [n] bytes each in a list of bytes *)
Fixpoint words (n : nat) (count : nat) (bytes : list Z) : list Z :=
  match count with O => [] | S c => le_value (take n bytes) :: words n c (drop n bytes) end.

(** [readString8Inplace] and [readString16Inplace]: the characters, [None] for null *)
Definition read_string_inplace (n : nat) : M (option (list Z)) :=
  size ← readInt32_or_0;
  if (0 <=? size) && (size <? INT32_MAX) then
    str ← readInplace ((size + 1) * Z.of_nat n);
    match str with
    | Some pos =>
      terminator ← read_mem (pos + size * Z.of_nat n) (Z.of_nat n);
      if le_value terminator =? 0 then
        bytes ← read_mem pos (size * Z.of_nat n);
        mret (Some (words n (Z.to_nat size) bytes))
      else mret None
    | None => mret None
    end
  else mret None.

Definition readString8 : M (status_t * list Z) :=
  s ← read_string_inplace 1; mret (match s with Some l => (0, l) | None => (UNEXPECTED_NULL, []) end).
Definition readString16 : M (status_t * list Z) :=
  s ← read_string_inplace 2; mret (match s with Some l => (0, l) | None => (UNEXPECTED_NULL, []) end).

(** [__builtin_smul_overflow] into an [int32_t] *)
Definition kMaxAllocationSize : Z := 1000000.
Definition readOutVectorSizeWithCheck (elmSize : Z) : M (status_t * option Z) :=
  r ← readInt32;
  match r with
  | (status, Some size) =>
    if negb (status =? OK) then mret (status, Some size)
    else if size <? 0 then mret (OK, Some size)
    else if INT32_MAX <? elmSize then fatal
    else if (elmSize * size <? INT32_MIN) || (INT32_MAX <? elmSize * size) then mret (NO_MEMORY, Some size)
    else if kMaxAllocationSize <=? elmSize * size then mret (NO_MEMORY, Some size)
    else mret (OK, Some size)
  | (status, None) => mret (status, None)
  end.

(** ** Reading objects *)

(** the search from the hint forwards, and then backwards *)
Fixpoint search_forward (dpos : Z) (objects : list Z) (opos last : nat) (fuel : nat) : nat :=
  match fuel with
  | O => opos
  | S fuel' =>
    if Nat.ltb opos last && (nth opos objects 0 <? dpos) then search_forward dpos objects (S opos) last fuel' else opos
  end.
Fixpoint search_backward (dpos : Z) (objects : list Z) (opos : nat) : nat :=
  match opos with
  | O => 0%nat
  | S opos' => if dpos <? nth opos objects 0 then search_backward dpos objects opos' else opos
  end.

Definition find_object (objects : list Z) (hint dpos : Z) : option nat :=
  let n := length objects in
  if Nat.eqb n 0 then None
  else
    let opos := if hint <? Z.of_nat n then search_forward dpos objects (Z.to_nat hint) (n - 1) n else (n - 1)%nat in
    if nth opos objects 0 =? dpos then Some opos
    else
      let opos := search_backward dpos objects opos in
      if nth opos objects 0 =? dpos then Some opos else None.

(** [None] for a null pointer *)
Definition readObject (nullMetaData : bool) : M (option flat_binder_object) :=
  p ← gets id;
  let dpos := mDataPos p in
  if uint64 (dpos + sizeof_flat e) <=? mDataSize p then
    obj ← flat_at dpos;
    _ ← modify (fun p => p <| mDataPos := dpos + sizeof_flat e |>);
    if negb nullMetaData && ((cookie obj =? 0) && (binder obj =? 0)) then mret (Some obj)
    else
      match find_object (mObjects p) (mNextObjectHint p) dpos with
      | Some opos => _ ← modify (fun p => p <| mNextObjectHint := Z.of_nat opos + 1 |>); mret (Some obj)
      | None => mret None
      end
  else mret None.

Definition readFileDescriptor : M Z :=
  flat ← readObject true;
  match flat with
  | Some obj => if is_fd obj then mret (handle obj) else mret BAD_TYPE
  | None => mret BAD_TYPE
  end.

Definition readUniqueFileDescriptor : M (status_t * option Z) :=
  got ← readFileDescriptor;
  if got =? BAD_TYPE then mret (BAD_TYPE, None)
  else
    let fd := dup_fd e got in
    if fd <? 0 then mret (BAD_VALUE, Some fd) else mret (OK, Some fd).

(** The descriptors of a handle are duplicated one after the other; [None] when one cannot
    be: those before it are closed again. *)
Fixpoint read_handle_fds (n : nat) (acc : list Z) : M (option (list Z)) :=
  match n with
  | O => mret (Some acc)
  | S n' =>
    got ← readFileDescriptor;
    let fd := dup_fd e got in
    if fd <? 0 then _ ← for_each (fun fd => emit (closed_fd fd)) acc; mret None
    else read_handle_fds n' (acc ++ [fd])
  end.

(** [native_handle_create] refuses negative and large numbers: [create] *)
Definition readNativeHandle (create : Z -> Z -> bool) : M (option (list Z * list Z)) :=
  r ← readInt32;
  match r with
  | (0, Some numFds) =>
    r ← readInt32;
    match r with
    | (0, Some numInts) =>
      if negb (create numFds numInts) then mret None
      else
        fds ← read_handle_fds (Z.to_nat numFds) [];
        match fds with
        | None => mret None
        | Some fds =>
          r ← read (uint64 (4 * numInts));
          if r.1 =? NO_ERROR then mret (Some (fds, map int32 (words 4 (Z.to_nat numInts) r.2)))
          else _ ← for_each (fun fd => emit (closed_fd fd)) fds; mret None
        end
    | _ => mret None
    end
  | _ => mret None
  end.

(** ** Whole parcels *)

(** the first and the last index of an object between [offset] and [offset + len] *)
Fixpoint index_range (objects : list Z) (offset len i firstIndex lastIndex : Z) : Z * Z :=
  match objects with
  | [] => (firstIndex, lastIndex)
  | off :: objects' =>
    if (offset <=? off) && (off + sizeof_flat e <=? offset + len)
    then index_range objects' offset len (i + 1) (if firstIndex =? -1 then i else firstIndex) i
    else index_range objects' offset len (i + 1) firstIndex lastIndex
  end.

(** One object that was appended: a file descriptor is duplicated. The error so far is
    passed on. *)
Definition adopt_object (off : Z) (err : status_t) : M status_t :=
  _ ← modify (fun p => p <| mObjects := mObjects p ++ [off] |>);
  flat ← flat_at off;
  _ ← acquire_object flat;
  if is_fd flat then
    _ ← write_mem off (flat_bytes e (mkFlat (hdr_type flat) (flags flat) (binder flat) (dup_fd e (handle flat)) 1));
    _ ← modify (fun p => p <| mHasFds := true |> <| mFdsKnown := true |>);
    allow ← gets mAllowFds;
    mret (if (allow : bool) then err else FDS_NOT_ALLOWED)
  else mret err.

Fixpoint adopt_objects (offs : list Z) (err : status_t) : M status_t :=
  match offs with
  | [] => mret err
  | off :: offs' => err ← adopt_object off err; adopt_objects offs' err
  end.

(** [parcel] is another object *)
Definition appendFrom (parcel : t) (offset len : Z) : M status_t :=
  rpc ← gets mSession;
  if xorb (mSession parcel) rpc then mret BAD_TYPE
  else if len =? 0 then mret NO_ERROR
  else if INT32_MAX <? len then mret BAD_VALUE
  else if (mDataSize parcel <? offset) || (mDataSize parcel <? len) || (mDataSize parcel <? uint64 (offset + len)) then mret BAD_VALUE
  else
    startPos ← gets (fun p => int32 (mDataPos p));
    let '(firstIndex, lastIndex) := index_range (mObjects parcel) offset len 0 (-1) (-2) in
    let numObjects := lastIndex - firstIndex + 1 in
    p ← gets id;
    err ← (if mDataCapacity p <? uint64 (mDataSize p + len) then growData len else mret NO_ERROR);
    if negb (err =? NO_ERROR) then mret err
    else
      pos ← gets mDataPos;
      _ ← write_mem pos (take (Z.to_nat len) (drop (Z.to_nat offset) (default [] (mData parcel))));
      _ ← modify (fun p => p <| mDataPos := mDataPos p + len |> <| mDataSize := mDataSize p + len |>);
      if 0 <? numObjects then
        p ← gets id;
        let total := mObjectsSize p + numObjects in
        let newSize := (total * 3) / 2 in
        if (mObjectsCapacity p <? total) &&
           ((SIZE_MAX / 3 <? total) || (SIZE_MAX / 8 <? newSize) || negb (objects_available e newSize)) then mret NO_MEMORY
        else
          _ ← (if mObjectsCapacity p <? total then modify (fun p => p <| mObjectsCapacity := newSize |>) else mret tt);
          adopt_objects (map (fun off => off - offset + startPos)
                             (take (Z.to_nat numObjects) (drop (Z.to_nat firstIndex) (mObjects parcel)))) NO_ERROR
      else mret NO_ERROR.

(** [None]: a bad offset; [Some false]: an unknown type *)
Fixpoint check_received (objects : list Z) (minOffset : Z) : M (option bool) :=
  match objects with
  | [] => mret (Some true)
  | offset :: objects' =>
    if offset <? minOffset then mret None
    else
      flat ← flat_at offset;
      if (hdr_type flat =? BINDER_TYPE_BINDER e) || (hdr_type flat =? BINDER_TYPE_HANDLE e) || (hdr_type flat =? BINDER_TYPE_FD e)
      then check_received objects' (offset + sizeof_flat e) else mret (Some false)
  end.

(** [data] is the block that the driver has filled; a release function is given *)
Definition ipcSetDataReference (data objects : list Z) : M unit :=
  _ ← freeData;
  _ ← modify (fun p => p <| mData := Some data |> <| mDataSize := Z.of_nat (length data) |> <| mDataCapacity := Z.of_nat (length data) |>
                         <| mObjects := objects |> <| mObjectsCapacity := Z.of_nat (length objects) |> <| mOwner := true |>);
  r ← check_received objects 0;
  _ ← match r with
      | Some true => mret tt
      | Some false => _ ← releaseObjects; modify (fun p => p <| mObjects := [] |>)
      | None => modify (fun p => p <| mObjects := [] |>)
      end;
  scanForFds.

(** ** Headers of a transaction *)

Definition updateWorkSourceRequestHeaderPosition : M unit :=
  modify (fun p => if mRequestHeaderPresent p then p
                   else p <| mWorkSourceRequestHeaderPosition := mDataPos p |> <| mRequestHeaderPresent := true |>).

(** 'S', 'Y', 'S', 'T' *)
Definition kHeader : Z := 1398362964.
Definition STRICT_MODE_PENALTY_GATHER : Z := -2147483648.
Definition kUnsetWorkSource : Z := -1.

(** [policy] is the strict mode policy of the thread, [workSource] the work source it
    propagates, if it does *)
Definition writeInterfaceToken (policy : Z) (workSource : option Z) (interface : list Z) : M status_t :=
  rpc ← gets mSession;
  _ ← (if negb rpc then
         _ ← writeInt32 (Z.lor policy STRICT_MODE_PENALTY_GATHER);
         _ ← updateWorkSourceRequestHeaderPosition;
         _ ← writeInt32 (match workSource with Some uid => uid | None => kUnsetWorkSource end);
         writeInt32 kHeader
       else mret NO_ERROR);
  writeString16 (Some interface).

(** What the header says of the caller: strict mode policy and work source. *)
Record CallerHeader := mkHeader { strictPolicy : Z; workSource : Z }.

(** whether the interface is the expected one, and the header if there is one *)
Definition enforceInterface (interface : list Z) : M (bool * option CallerHeader) :=
  rpc ← gets mSession;
  header ← (if negb rpc then
              policy ← readInt32_or_0;
              _ ← updateWorkSourceRequestHeaderPosition;
              source ← readInt32_or_0;
              header ← readInt32_or_0;
              mret (Some (mkHeader policy source, header))
            else mret None);
  if match header with Some (_, h) => negb (h =? kHeader) | None => false end
  then mret (false, fst <$> header)
  else
    str ← read_string_inplace 2;
    (* a null string has length 0 *)
    mret (bool_decide (default [] str = interface), fst <$> header).

Definition replaceCallingWorkSourceUid (uid : Z) : M bool :=
  present ← gets mRequestHeaderPresent;
  if negb present then mret false
  else
    initialPosition ← dataPosition;
    header ← gets mWorkSourceRequestHeaderPosition;
    _ ← setDataPosition header;
    err ← writeInt32 uid;
    _ ← setDataPosition initialPosition;
    mret (err =? NO_ERROR).

Definition readCallingWorkSourceUid : M Z :=
  present ← gets mRequestHeaderPresent;
  if negb present then mret (uint32 kUnsetWorkSource)
  else
    initialPosition ← dataPosition;
    header ← gets mWorkSourceRequestHeaderPosition;
    _ ← setDataPosition header;
    uid ← readInt32_or_0;
    _ ← setDataPosition initialPosition;
    mret (uint32 uid).

End Operations.

End Parcel.
