(* ===== verification/ParcelData.v ===== *)
(** * Recursive parcelling (writeData and readData of libs/binder/include/binder/Parcel.h)

    The overloads and templates [writeData] and [readData] are recursive functions over
    the types of the data, [Inductive type]. Left out are the types that are not plain
    data (binders, file descriptors, parcelables) and UTF-8 strings, whose conversion is
    not in the repository. *)

From S2P Require Import Prelude Parcel.
Import Parcel.

Module ParcelData.

Inductive type :=
| Bool | Int8 | Uint8 | Char16 | Int32 | Uint32 | Int64 | Uint64 | Float | Double
| String16
| Vector (T : type)
| Nullable (T : type).

(** the values of a type; numbers, characters and the bits of floats are [Z] *)
Fixpoint value (T : type) : Type :=
  match T with
  | Bool => bool
  | Int8 | Uint8 | Char16 | Int32 | Uint32 | Int64 | Uint64 | Float | Double => Z
  | String16 => list Z
  | Vector T => list (value T)
  | Nullable T => option (value T)
  end.

(** the types that may be the argument of [std::optional]; others do not compile *)
Definition nullable_type (T : type) : bool := match T with Vector _ | String16 => true | _ => false end.

(** [is_pointer_equivalent_array_v], with the size of an element *)
Definition packed_size (T : type) : option nat :=
  match T with
  | Int8 | Uint8 => Some 1%nat
  | Int32 | Uint32 | Float => Some 4%nat
  | Int64 | Uint64 | Double => Some 8%nat
  | _ => None
  end.

(** the types whose vectors are written as a block of [int32_t] *)
Definition widened (T : type) : bool := match T with Bool | Char16 => true | _ => false end.

(** a scalar as a number, and back *)
Definition to_word (T : type) : value T -> Z :=
  match T with
  | Bool => fun b => if b then 1 else 0
  | Int8 | Uint8 | Char16 | Int32 | Uint32 | Int64 | Uint64 | Float | Double => fun z => z
  | _ => fun _ => 0
  end.

Definition of_word (T : type) (w : Z) : value T :=
  match T with
  | Bool => negb (w =? 0)
  | Int8 => int8 w
  | Uint8 => w mod 256
  | Char16 => w mod 65536
  | Int32 => int32 w
  | Uint32 | Float => uint32 w
  | Int64 => int64 w
  | Uint64 | Double => uint64 w
  | String16 => []
  | Vector _ => []
  | Nullable _ => None
  end.

Definition kNullVectorSize : Z := -1.

Section Operations.

Context (e : env).

(** the loop over the elements of a vector *)
Fixpoint write_elements {A} (write : A -> M status_t) (c : list A) : M status_t :=
  match c with
  | [] => mret OK
  | t :: c' => status ← write t; if negb (status =? OK) then mret status else write_elements write c'
  end.

Fixpoint writeData (T : type) : value T -> M status_t :=
  match T with
  | Bool => fun t => writeBool e t
  | Int8 => fun t => writeByte e t
  | Uint8 => fun t => writeByte e (int8 t)
  | Char16 => fun t => writeChar e t
  | Int32 => fun t => writeInt32 e t
  | Uint32 => fun t => writeUint32 e t
  | Int64 => fun t => writeInt64 e t
  | Uint64 => fun t => writeUint64 e t
  | Float => fun t => writeFloat e t
  | Double => fun t => writeDouble e t
  | String16 => fun t => Parcel.writeString16 e (Some t)
  | Nullable T' => fun c =>
    if negb (nullable_type T') then fatal
    else match c with
         | None => writeInt32 e kNullVectorSize
         | Some c => writeData T' c
         end
  | Vector T' => fun c =>
    let size := Z.of_nat (length c) in
    if INT32_MAX <? size then mret BAD_VALUE
    else
      _ ← writeInt32 e size;
      match packed_size T' with
      | Some n =>
        if SIZE_MAX / Z.of_nat n <? size then mret BAD_VALUE
        else write e (concat (map (fun t => le_bytes n (to_word T' t)) c))
      | None =>
        if widened T' then
          data ← writeInplace e (size * 4);
          match data with
          | None => mret BAD_VALUE
          | Some pos => _ ← write_mem pos (concat (map (fun t => le_bytes 4 (to_word T' t)) c)); mret OK
          end
        else write_elements (writeData T') c
      end
  end.

(** [n] elements; the values when the status is [OK] *)
Fixpoint read_elements {A} (read : M (status_t * option A)) (n : nat) : M (status_t * option (list A)) :=
  match n with
  | O => mret (OK, Some [])
  | S n' =>
    r ← read;
    match r with
    | (status, Some t) =>
      if negb (status =? OK) then mret (status, None)
      else rs ← read_elements read n'; mret (rs.1, cons t <$> rs.2)
    | (status, None) => mret (status, None)
    end
  end.

(** The status and, when it is [OK], the value that was stored. *)
Fixpoint readData (T : type) : M (status_t * option (value T)) :=
  match T with
  | Bool => r ← readBool e; mret (r.1, if r.1 =? OK then Some r.2 else None)
  | Int8 => r ← readByte e; mret (r.1, if r.1 =? OK then Some r.2 else None)
  | Uint8 => r ← readByte e; mret (r.1, if r.1 =? OK then Some (r.2 mod 256) else None)
  | Char16 => r ← readChar e; mret (r.1, if r.1 =? OK then Some r.2 else None)
  | Int32 => readInt32 e
  | Uint32 => readUint32 e
  | Int64 => readInt64 e
  | Uint64 => readUint64 e
  | Float => readFloat e
  | Double => readDouble e
  | String16 => r ← readString16 e; mret (r.1, if r.1 =? OK then Some r.2 else None)
  | Nullable T' =>
    startPos ← dataPosition;
    r ← readInt32 e;
    match r with
    | (status, Some peek) =>
      if negb (status =? OK) then mret (status, None)
      else if negb (nullable_type T') then fatal
      else if peek =? kNullVectorSize then mret (OK, Some None)
      else _ ← setDataPosition startPos; r ← readData T'; mret (r.1, Some <$> r.2)
    | (status, None) => mret (status, None)
    end
  | Vector T' =>
    r ← readInt32 e;
    match r with
    | (status, Some size) =>
      if negb (status =? OK) then mret (status, None)
      else if size <? 0 then mret (UNEXPECTED_NULL, None)
      else
        availableBytes ← dataAvail;
        if availableBytes <? size then mret (BAD_VALUE, None)
        else
          match packed_size T' with
          | Some n =>
            data ← readInplace e (size * Z.of_nat n);
            match data with
            | None => mret (BAD_VALUE, None)
            | Some pos =>
              bytes ← read_mem pos (size * Z.of_nat n);
              mret (OK, Some (map (of_word T') (words n (Z.to_nat size) bytes)))
            end
          | None =>
            if widened T' then
              data ← readInplace e (size * 4);
              match data with
              | None => mret (BAD_VALUE, None)
              | Some pos => bytes ← read_mem pos (size * 4); mret (OK, Some (map (of_word T') (words 4 (Z.to_nat size) bytes)))
              end
            else read_elements (readData T') (Z.to_nat size)
          end
    | (status, None) => mret (status, None)
    end
  end.

End Operations.

End ParcelData.
