(* ===== verification/ParcelLemmas.v ===== *)
(** * Lemmas about parcels

    [holds bytes p]: the parcel owns its memory, contains [bytes] and is positioned at
    their end; every write extends [bytes]. [reads_at pre post p]: it is positioned
    between [pre] and [post]; every read moves bytes from [post] to [pre]. *)

From S2P Require Import Prelude Parcel.
Import Parcel.

(** ** The monad *)

Lemma bind_step {A B} (m : M A) (f : A -> M B) p a p' : m p = Some (a, p') -> (m ≫= f) p = f a p'.
Proof. unfold mbind, M_bind. by intros ->. Qed.

Lemma bind_gets {A B} (g : t -> A) (f : A -> M B) p : (gets g ≫= f) p = f (g p) p.
Proof. done. Qed.

Lemma bind_id {B} (f : t -> M B) p : (gets id ≫= f) p = f p p.
Proof. done. Qed.

Lemma bind_modify {B} g (f : unit -> M B) p : (modify g ≫= f) p = f tt (g p).
Proof. done. Qed.

Lemma bind_ret {A B} (a : A) (f : A -> M B) p : (mret a ≫= f) p = f a p.
Proof. done. Qed.

(** executes the steps that read or change fields *)
Ltac msteps := repeat (rewrite bind_id || rewrite bind_gets || rewrite bind_modify || rewrite bind_ret).

(** ** Bytes *)

Lemma length_le_bytes n z : length (le_bytes n z) = n.
Proof. revert z. induction n; intros z; simpl; auto. Qed.

Lemma le_value_bytes n z : le_value (le_bytes n z) = z mod 256 ^ Z.of_nat n.
Proof.
  revert z. induction n as [|n IH]; intros z; [by rewrite Z.mod_1_r|]. cbn [le_bytes le_value].
  rewrite IH, Nat2Z.inj_succ, Z.pow_succ_r by lia.
  rewrite (Z.rem_mul_r z 256 (256 ^ Z.of_nat n)) by lia. lia.
Qed.

Lemma length_concat_bytes n l : length (concat (map (le_bytes n) l)) = (n * length l)%nat.
Proof. induction l as [|x l IH]; simpl; [lia|]. rewrite length_app, length_le_bytes, IH. lia. Qed.

Lemma words_bytes n l : words n (length l) (concat (map (le_bytes n) l)) = map (fun z => z mod 256 ^ Z.of_nat n) l.
Proof.
  induction l as [|x l IH]; [done|]. cbn [length words map concat].
  rewrite take_app_length', drop_app_length' by (by rewrite length_le_bytes). by rewrite le_value_bytes, IH.
Qed.

Lemma le_bytes_zero n : le_bytes n 0 = replicate n 0.
Proof. induction n as [|n IH]; [done|]. cbn [le_bytes replicate]. change (0 / 256) with 0. by rewrite IH. Qed.

(** ** Padding *)

Lemma pad_div s : PAD_SIZE_UNSAFE s = 4 * ((s + 3) / 4).
Proof.
  unfold PAD_SIZE_UNSAFE. change (Z.lnot 3) with (Z.lnot (Z.ones 2)).
  rewrite <- Z.ldiff_land, Z.ldiff_ones_r, Z.shiftr_div_pow2, Z.shiftl_mul_pow2 by lia. change (2 ^ 2) with 4. lia.
Qed.

Lemma pad_spec s : 0 <= s -> s <= PAD_SIZE_UNSAFE s < s + 4 /\ (PAD_SIZE_UNSAFE s) mod 4 = 0.
Proof.
  intros Hs. rewrite pad_div. pose proof (Z.div_mod (s + 3) 4 ltac:(lia)). pose proof (Z.mod_pos_bound (s + 3) 4 ltac:(lia)).
  assert ((4 * ((s + 3) / 4)) mod 4 = 0) by (rewrite Z.mul_comm; apply Z.mod_mul; lia). lia.
Qed.

Lemma pad_size_ret s p : 0 <= s <= INT32_MAX -> pad_size s p = Some (PAD_SIZE_UNSAFE s, p).
Proof. intros H. unfold pad_size, SIZE_MAX, INT32_MAX in *. destruct (_ <? s) eqn:E; bool_to_prop; [lia|done]. Qed.

Lemma pad_multiple s : 0 <= s -> s mod 4 = 0 -> PAD_SIZE_UNSAFE s = s.
Proof. intros H Hm. rewrite pad_div. Z.to_euclidean_division_equations. lia. Qed.

Lemma pad_mask_zeros v k : 0 < k < 4 ->
  drop (Z.to_nat (4 - k)) (le_bytes 4 (Z.land v (pad_mask k))) = replicate (Z.to_nat k) 0.
Proof.
  intros Hk. assert (Z.land v (pad_mask k) = v mod 2 ^ (8 * (4 - k))) as ->.
  { rewrite <- Z.land_ones by lia. f_equal. assert (k = 1 \/ k = 2 \/ k = 3) as [->|[->| ->]] by lia; reflexivity. }
  set (m := 2 ^ (8 * (4 - k))). assert (0 < m) as Hm by (apply Z.pow_pos_nonneg; lia). pose proof (Z.mod_pos_bound v m Hm) as Hw.
  generalize dependent (v mod m). intros w Hw. assert (k = 1 \/ k = 2 \/ k = 3) as [->|[->| ->]] by lia; vm_compute in m; subst m;
    (change (Z.to_nat (4 - 1)) with 3%nat || change (Z.to_nat (4 - 2)) with 2%nat || change (Z.to_nat (4 - 3)) with 1%nat);
    cbn -[Z.modulo Z.div]; rewrite !Z.div_div by lia; by rewrite !(Z.div_small w) by (cbn; lia).
Qed.

(** ** Memory *)

Lemma length_store pos bytes d : 0 <= pos -> pos + Z.of_nat (length bytes) <= Z.of_nat (length d) -> length (store pos bytes d) = length d.
Proof. intros. unfold store. rewrite !length_app, length_take, length_drop. lia. Qed.

Lemma store_after pos bytes pre rest : Z.to_nat pos = length pre -> (length bytes <= length rest)%nat ->
  store pos bytes (pre ++ rest) = pre ++ bytes ++ drop (length bytes) rest.
Proof.
  intros Hp Hl. unfold store. rewrite Hp, take_app_length. f_equal. f_equal. rewrite <- drop_drop, drop_app_length. done.
Qed.

Lemma write_mem_step pos bytes p d : mData p = Some d -> 0 <= pos -> pos + Z.of_nat (length bytes) <= Z.of_nat (length d) ->
  write_mem pos bytes p = Some (tt, p <| mData := Some (store pos bytes d) |>).
Proof.
  intros Hd Hp Hl. unfold write_mem. rewrite bind_gets, Hd. cbn. rewrite (proj2 (Z.leb_le _ _) Hp), (proj2 (Z.leb_le _ _) Hl). cbn.
  unfold modify. by rewrite Hd.
Qed.

Lemma write_nothing pos p : mData p = None -> write_mem pos [] p = Some (tt, p).
Proof.
  intros H. unfold write_mem. rewrite bind_gets, (bool_decide_eq_true_2 ([] = [])), orb_true_r by done.
  destruct p. cbn in *. by subst.
Qed.

Lemma read_mem_step pos len p d pre bytes post : mData p = Some d -> d = pre ++ bytes ++ post -> pos = Z.of_nat (length pre) ->
  len = Z.of_nat (length bytes) -> read_mem pos len p = Some (bytes, p).
Proof.
  intros Hd -> -> ->. unfold read_mem. rewrite bind_gets, Hd. cbn -[Z.leb Z.add].
  rewrite (proj2 (Z.leb_le 0 _)), (proj2 (Z.leb_le _ (Z.of_nat (length (pre ++ bytes ++ post))))) by (rewrite ?length_app; lia). cbn.
  by rewrite !Nat2Z.id, drop_app_length, take_app_length.
Qed.

(** ** Writing at the end *)

Record holds (bytes : list Z) (p : t) : Prop := {
  h_owner : mOwner p = false;
  h_objects : mObjects p = [];
  h_pos : mDataPos p = Z.of_nat (length bytes);
  h_size : mDataSize p = Z.of_nat (length bytes);
  h_error : mError p = NO_ERROR;
  h_data : exists rest, default [] (mData p) = bytes ++ rest /\ mDataCapacity p = Z.of_nat (length bytes + length rest);
  h_capacity : mDataCapacity p <= INT32_MAX }.

(** the number of bytes up to which the parcel can grow: two thirds of [INT32_MAX] *)
Definition GROWTH_LIMIT : Z := 1431655765.

Lemma holds_new : holds [] new.
Proof. split; try done. by exists []. Qed.

Section Writing.

Context (e : env).

(** The allocator always finds a block. *)
Definition malloc_succeeds : Prop := forall n, 0 <= n <= INT32_MAX -> exists l, malloc e n = Some l /\ Z.of_nat (length l) = n.

Hypothesis Hmalloc : malloc_succeeds.

Lemma reallocZeroFree_spec data old capacity zero n :
  default [] data = old -> capacity = Z.of_nat (length old) -> capacity <= n <= INT32_MAX -> exists rest,
  reallocZeroFree e data capacity n zero = Some (old ++ rest) /\ Z.of_nat (length old + length rest) = n.
Proof.
  intros Hold Hcap Hn. destruct (Hmalloc n ltac:(lia)) as (fresh & Hf & Hl). exists (drop (length old) fresh).
  rewrite length_drop. split; [|lia]. unfold reallocZeroFree, realloc. rewrite Hf, Hold. destruct zero; simpl; f_equal.
  - rewrite take_ge by lia. done.
  - by rewrite take_ge by lia.
Qed.

Lemma drop_no_objects p : mObjects p = [] -> drop_tail_objects e 0 p = Some (tt, p).
Proof. intros H. unfold drop_tail_objects. by rewrite bind_gets, H. Qed.

Lemma grow_spec bytes p len : holds bytes p -> 0 < len -> Z.of_nat (length bytes) + len <= GROWTH_LIMIT -> exists p',
  growData e len p = Some (NO_ERROR, p') /\ holds bytes p' /\ Z.of_nat (length bytes) + len <= mDataCapacity p'.
Proof.
  intros [Ho Hob Hp Hs He (rest & Hd & Hc) Hcap] Hlen Hlim. unfold GROWTH_LIMIT, growData, INT32_MAX, SIZE_MAX in *.
  destruct (2147483647 <? len) eqn:E1; bool_to_prop; [lia|]. rewrite bind_gets, Hs.
  destruct (_ <? len) eqn:E2; bool_to_prop; [lia|]. change (18446744073709551615 / 3) with 6148914691236517205. destruct (_ <? _ + len) eqn:E3; bool_to_prop; [lia|].
  set (newSize := (_ + len) * 3 / 2). assert (Z.of_nat (length bytes) + len <= newSize <= 2147483647) as Hnew
    by (unfold newSize; Z.to_euclidean_division_equations; lia).
  destruct (newSize <=? _) eqn:E4; bool_to_prop; [lia|]. set (desired := Z.max newSize 128).
  assert (Z.of_nat (length bytes) + len <= desired <= 2147483647) as Hdes by lia. clearbody desired. clear E1 E2 E3 E4 Hnew newSize.
  unfold continueWrite, INT32_MAX. destruct (2147483647 <? desired) eqn:E1; bool_to_prop; [lia|].
  msteps. rewrite Ho. unfold kept_objects. rewrite Hob, Hs. destruct (desired <? _) eqn:E2; bool_to_prop; [lia|].
  destruct (mData p) as [d|] eqn:Edata; simpl in Hd.
  - unfold resize_own. rewrite (bind_step _ _ _ _ _ (drop_no_objects p Hob)).
    msteps. rewrite Hc. destruct (_ <? desired) eqn:E3; bool_to_prop.
    + destruct (reallocZeroFree_spec (Some d) d (mDataCapacity p) (mDeallocZero p) desired) as (rest' & Hre & Hlen'); try done;
        [subst d; rewrite length_app; lia|unfold INT32_MAX; lia|].
      rewrite Edata, <- Hc, Hre. eexists. split; [reflexivity|]. split; [|cbn; lia]. split; cbn; try done.
      exists (rest ++ rest'). rewrite app_assoc, <- Hd. split; [done|]. subst d. rewrite length_app in *. lia.
    + eexists. split; [reflexivity|]. split; [|cbn; lia]. split; cbn; try done; try lia. by exists rest; rewrite Edata.
  - destruct bytes; [|done]. simpl in *. unfold first_data. destruct (Hmalloc desired) as (l & -> & Hl); [unfold INT32_MAX; lia|].
    eexists. split; [reflexivity|]. split; [|cbn; lia]. split; cbn; try done. exists l. split; [done|]. lia.
Qed.

(** [finishWrite] makes [n] more bytes of the block part of the data *)
Lemma finish_spec bytes p n : holds bytes p -> Z.of_nat (length bytes) + n <= mDataCapacity p -> 0 <= n -> exists p' new,
  finishWrite n p = Some (NO_ERROR, p') /\ holds (bytes ++ new) p' /\ Z.of_nat (length new) = n /\ mData p' = mData p /\
  new = take (Z.to_nat n) (drop (length bytes) (default [] (mData p))).
Proof.
  intros [Ho Hob Hp Hs He (rest & Hd & Hc) Hcap] Hn Hpos. unfold finishWrite, INT32_MAX in *.
  destruct (2147483647 <? n) eqn:E; bool_to_prop; [lia|]. msteps. cbv zeta. eexists _, (take (Z.to_nat n) rest).
  split; [reflexivity|]. assert (Z.of_nat (length (take (Z.to_nat n) rest)) = n) as Hlen by (rewrite length_take; lia).
  split; [|split; [done|split; [done|by rewrite Hd, drop_app_length]]].
  split; cbn; rewrite ?length_app; try done.
  - rewrite Hp. unfold uint64. rewrite Z.mod_small; lia.
  - rewrite Hp, Hs. unfold uint64. rewrite Z.mod_small; lia.
  - exists (drop (Z.to_nat n) rest). rewrite <- app_assoc, take_drop. split; [done|]. rewrite length_drop. lia.
Qed.

(** writing inside the data *)
Lemma overwrite_spec pre old post p new : holds (pre ++ old ++ post) p -> length new = length old -> exists p',
  write_mem (Z.of_nat (length pre)) new p = Some (tt, p') /\ holds (pre ++ new ++ post) p' /\ mDataCapacity p' = mDataCapacity p.
Proof.
  intros [Ho Hob Hp Hs He (rest & Hd & Hc) Hcap] Hl. destruct (mData p) as [d|] eqn:Ed; simpl in Hd.
  - subst d. erewrite write_mem_step; [|exact Ed|lia|rewrite !length_app; lia]. eexists. split; [reflexivity|]. split; [|done].
    rewrite <- !app_assoc, store_after, Hl, drop_app_length by (rewrite ?length_app; lia).
    split; cbn; try done; rewrite ?length_app in *; rewrite ?Hl; try done. exists rest. rewrite <- !app_assoc, ?length_app. split; [done|lia].
  - destruct pre; [|done]. destruct old; [|done]. destruct post; [|done]. destruct new; [|done]. simpl in *.
    rewrite (write_nothing _ p Ed). eexists. split; [reflexivity|]. split; [|done]. split; try done. exists rest. by rewrite Ed.
Qed.

(** writing at the end, where the block has room *)
Lemma append_spec bytes p new : holds bytes p -> Z.of_nat (length bytes + length new) <= mDataCapacity p -> exists p',
  (pos ← gets mDataPos; _ ← write_mem pos new; finishWrite (Z.of_nat (length new))) p = Some (NO_ERROR, p') /\ holds (bytes ++ new) p'.
Proof.
  intros H Hroom. pose proof H as [Ho Hob Hp Hs He (rest & Hd & Hc) Hcap]. rewrite bind_gets, Hp.
  destruct (mData p) as [d|] eqn:Ed; simpl in Hd.
  - rewrite (bind_step _ _ _ _ _ (write_mem_step (Z.of_nat (length bytes)) new p d Ed ltac:(lia) ltac:(subst d; rewrite length_app; lia))).
    subst d. rewrite store_after by lia. set (p1 := p <| mData := _ |>).
    assert (holds bytes p1) as H1.
    { split; try done. exists (new ++ drop (length new) rest). split; [done|]. cbn. rewrite length_app, length_drop. lia. }
    destruct (finish_spec bytes p1 (Z.of_nat (length new)) H1) as (p' & l & Hf & Hh & _ & _ & Hl); [cbn; lia|lia|].
    exists p'. split; [exact Hf|]. rewrite Hl in Hh. cbn in Hh. by rewrite drop_app_length, Nat2Z.id, take_app_length in Hh.
  - destruct bytes; [|done]. destruct rest; [|done]. destruct new; [|simpl in *; lia]. simpl in *.
    destruct (finish_spec [] p 0 H) as (p' & l & Hf & Hh & Hl & _); [simpl; lia|lia|]. destruct l; [|simpl in Hl; lia].
    exists p'. split; [|done]. by rewrite (bind_step _ _ _ _ _ (write_nothing _ p Ed)).
Qed.

Lemma writeAligned_spec bytes p n z : holds bytes p -> (0 < n)%nat -> Z.of_nat (length bytes) + Z.of_nat n <= GROWTH_LIMIT -> exists p',
  writeAligned e n z p = Some (NO_ERROR, p') /\ holds (bytes ++ le_bytes n z) p'.
Proof.
  intros H Hn Hlim. unfold writeAligned. rewrite bind_id, (h_pos _ _ H).
  unfold uint64. rewrite Z.mod_small by (unfold GROWTH_LIMIT in *; lia). pose proof (append_spec bytes) as Happ.
  specialize (fun p => Happ p (le_bytes n z)). rewrite length_le_bytes in Happ. destruct (_ <=? mDataCapacity p) eqn:E; bool_to_prop.
  - apply Happ; [done|lia].
  - destruct (grow_spec bytes p (Z.of_nat n) H) as (p1 & Hg & H1 & Hc); [lia|done|]. rewrite (bind_step _ _ _ _ _ Hg). cbn [Z.eqb].
    apply Happ; [done|lia].
Qed.

(** makes room for [len] bytes *)
Lemma reserve_spec bytes p len : holds bytes p -> 0 <= len -> Z.of_nat (length bytes) + len <= GROWTH_LIMIT -> exists p',
  holds bytes p' /\ Z.of_nat (length bytes) + len <= mDataCapacity p' /\
  forall A (k : M A) failed, (if uint64 (mDataPos p + len) <=? mDataCapacity p then k
    else err ← growData e len; if err =? NO_ERROR then k else failed err) p = k p'.
Proof.
  intros H Hn Hlim. rewrite (h_pos _ _ H). unfold uint64. rewrite Z.mod_small by (unfold GROWTH_LIMIT in *; lia).
  destruct (_ <=? mDataCapacity p) eqn:E; bool_to_prop; [by exists p|].
  destruct (decide (len = 0)) as [->|].
  { destruct H as [_ _ _ _ _ (rest & _ & Hc) _]. lia. }
  destruct (grow_spec bytes p len H) as (p1 & Hg & H1 & Hc); [lia|done|]. exists p1. split; [done|]. split; [done|].
  intros A k failed. by rewrite (bind_step _ _ _ _ _ Hg).
Qed.

(** the mask on the last word leaves zeros where the padding is *)
Lemma mask_spec bytes p len padded : holds bytes p -> 0 <= len -> padded = PAD_SIZE_UNSAFE len -> padded <> len ->
  Z.of_nat (length bytes) + padded <= mDataCapacity p -> exists p' body,
  (word ← read_mem (Z.of_nat (length bytes) + padded - 4) 4;
   write_mem (Z.of_nat (length bytes) + padded - 4) (le_bytes 4 (Z.land (le_value word) (pad_mask (padded - len))))) p = Some (tt, p') /\
  holds bytes p' /\ mDataCapacity p' = mDataCapacity p /\ Z.of_nat (length body) = len /\
  exists rest, default [] (mData p') = bytes ++ body ++ replicate (Z.to_nat (padded - len)) 0 ++ rest.
Proof.
  intros H Hlen Hpad Hne Hroom. pose proof (pad_spec len Hlen) as [Hp Hm]. rewrite <- Hpad in Hp, Hm.
  pose proof H as [Ho Hob Hpos Hs He (rest & Hd & Hc) Hcap].
  destruct (mData p) as [d|] eqn:Ed; simpl in Hd; [|destruct bytes; [|done]; destruct rest; [|done]; simpl in *; lia].
  assert (4 <= padded) by (Z.to_euclidean_division_equations; lia).
  set (a := take (Z.to_nat (padded - 4)) rest). set (c := drop (Z.to_nat padded) rest).
  set (word := take 4 (drop (Z.to_nat (padded - 4)) rest)).
  assert (rest = a ++ word ++ c) as Hrest.
  { unfold a, word, c. rewrite <- (take_drop (Z.to_nat (padded - 4)) rest) at 1. f_equal.
    rewrite <- (take_drop 4 (drop (Z.to_nat (padded - 4)) rest)) at 1. f_equal. rewrite drop_drop. f_equal. lia. }
  assert (length a = Z.to_nat (padded - 4)) as La by (unfold a; rewrite length_take; lia).
  assert (length word = 4%nat) as Lw by (unfold word; rewrite length_take, length_drop; lia). clearbody a c word. subst rest d.
  rewrite (bind_step _ _ _ _ _ (read_mem_step (Z.of_nat (length bytes) + padded - 4) 4 p _ (bytes ++ a) word c Ed
    ltac:(by rewrite <- app_assoc) ltac:(rewrite length_app; lia) ltac:(by rewrite Lw))).
  set (word' := le_bytes 4 _). assert (length word' = 4%nat) as Lw' by apply length_le_bytes.
  rewrite (write_mem_step _ word' p _ Ed) by (rewrite ?length_app; lia). rewrite app_assoc, store_after by (rewrite ?length_app; lia).
  rewrite Lw', drop_app_length' by done. exists (p <| mData := Some ((bytes ++ a) ++ word' ++ c) |>), (a ++ take (Z.to_nat (4 - (padded - len))) word').
  split; [done|]. split; [|split; [done|split; [rewrite length_app, length_take; lia|]]].
  - split; cbn; try done. exists (a ++ word' ++ c). rewrite <- app_assoc. split; [done|]. rewrite !length_app in *. lia.
  - exists c. cbn. rewrite <- !app_assoc. do 2 f_equal.
    assert (replicate (Z.to_nat (padded - len)) 0 = drop (Z.to_nat (4 - (padded - len))) word') as -> by (symmetry; apply pad_mask_zeros; lia).
    by rewrite app_assoc, take_drop.
Qed.

Lemma writeInplace_spec bytes p len : holds bytes p -> 0 <= len -> Z.of_nat (length bytes) + PAD_SIZE_UNSAFE len <= GROWTH_LIMIT -> exists p' body,
  writeInplace e len p = Some (Some (Z.of_nat (length bytes)), p') /\ Z.of_nat (length body) = len /\
  holds (bytes ++ body ++ replicate (Z.to_nat (PAD_SIZE_UNSAFE len - len)) 0) p'.
Proof.
  intros H Hlen Hlim. pose proof (pad_spec len Hlen) as [Hp _]. unfold writeInplace.
  destruct (INT32_MAX <? len) eqn:E; bool_to_prop; [unfold GROWTH_LIMIT, INT32_MAX in *; lia|].
  rewrite (bind_step _ _ _ _ _ (pad_size_ret len p ltac:(lia))). set (padded := PAD_SIZE_UNSAFE len) in *. rewrite bind_id.
  destruct (reserve_spec bytes p padded H) as (p1 & H1 & Hroom & Hk); [lia|done|].
  assert (uint64 (mDataPos p + padded) <? mDataPos p = false) as ->.
  { rewrite (h_pos _ _ H). unfold uint64. rewrite Z.mod_small by (unfold GROWTH_LIMIT in *; lia). apply Z.ltb_ge. lia. }
  rewrite (Hk _ _ (fun _ => mret None)). rewrite bind_gets, (h_pos _ _ H1). destruct (padded =? len) eqn:Epad; bool_to_prop; cbn [negb].
  - rewrite bind_ret. destruct (finish_spec bytes p1 padded H1 Hroom) as (p' & body & Hf & Hh & Hl & _); [lia|].
    rewrite (bind_step _ _ _ _ _ Hf). exists p', body. split; [done|]. split; [lia|]. rewrite Epad, Z.sub_diag. by rewrite app_nil_r.
  - destruct (mask_spec bytes p1 len padded H1 Hlen eq_refl Epad Hroom) as (p2 & body & Hmask & H2 & Hcap & Hbody & rest & Hrest).
    rewrite (bind_step _ _ _ _ _ Hmask).
    destruct (finish_spec bytes p2 padded H2) as (p' & new & Hf & Hh & Hl & _ & Hnew); [lia|lia|]. rewrite (bind_step _ _ _ _ _ Hf).
    exists p', body. split; [done|]. split; [done|]. rewrite Hrest, drop_app_length, app_assoc in Hnew.
    rewrite take_app_length' in Hnew by (rewrite length_app, length_replicate; lia). by rewrite Hnew in Hh.
Qed.

(** the bytes with their padding *)
Definition padded_bytes (data : list Z) : list Z :=
  data ++ replicate (Z.to_nat (PAD_SIZE_UNSAFE (Z.of_nat (length data)) - Z.of_nat (length data))) 0.

Lemma length_padded data : Z.of_nat (length (padded_bytes data)) = PAD_SIZE_UNSAFE (Z.of_nat (length data)).
Proof. unfold padded_bytes. rewrite length_app, length_replicate. pose proof (pad_spec (Z.of_nat (length data)) ltac:(lia)). lia. Qed.

Lemma write_spec bytes p data : holds bytes p -> Z.of_nat (length bytes + length (padded_bytes data)) <= GROWTH_LIMIT -> exists p',
  write e data p = Some (NO_ERROR, p') /\ holds (bytes ++ padded_bytes data) p'.
Proof.
  intros H Hlim. rewrite Nat2Z.inj_add, length_padded in Hlim. unfold write. pose proof (pad_spec (Z.of_nat (length data)) ltac:(lia)).
  destruct (INT32_MAX <? _) eqn:E; bool_to_prop; [unfold GROWTH_LIMIT, INT32_MAX in *; lia|].
  destruct (writeInplace_spec bytes p (Z.of_nat (length data)) H ltac:(lia) Hlim) as (p1 & body & Hw & Hb & H1).
  rewrite (bind_step _ _ _ _ _ Hw). destruct (overwrite_spec bytes body _ p1 data H1) as (p2 & Ho & H2 & _); [lia|].
  rewrite (bind_step _ _ _ _ _ Ho). by exists p2.
Qed.

Lemma write_string_spec bytes p n str : holds bytes p -> (0 < n)%nat ->
  let text := concat (map (le_bytes n) str) ++ le_bytes n 0 in
  Z.of_nat (length bytes + 4 + length (padded_bytes text)) <= GROWTH_LIMIT -> exists p',
  write_string e n (Some str) p = Some (NO_ERROR, p') /\ holds (bytes ++ le_bytes 4 (Z.of_nat (length str)) ++ padded_bytes text) p'.
Proof.
  intros H Hn text Hlim. unfold write_string.
  destruct (writeAligned_spec bytes p 4 (Z.of_nat (length str)) H) as (p1 & Hw & H1); [lia|lia|].
  unfold writeInt32. rewrite (bind_step _ _ _ _ _ Hw), Z.eqb_refl.
  assert (Z.of_nat (length text) = Z.of_nat n * Z.of_nat (length str) + Z.of_nat n) as Hl
    by (unfold text; rewrite length_app, length_concat_bytes, length_le_bytes; lia).
  destruct (writeInplace_spec _ p1 (Z.of_nat (length text)) H1) as (p2 & body & Hi & Hb & H2);
    [lia|rewrite length_app, length_le_bytes; rewrite !Nat2Z.inj_add, length_padded in Hlim; lia|].
  cbv zeta. rewrite <- Hl, (bind_step _ _ _ _ _ Hi).
  set (chars := concat (map (le_bytes n) str)) in *. set (pre := bytes ++ le_bytes 4 (Z.of_nat (length str))) in *.
  set (b1 := take (length chars) body). set (b2 := drop (length chars) body). set (z := replicate _ 0) in H2.
  assert (body = b1 ++ b2) as Hbb by (symmetry; apply take_drop). assert (length text = (length chars + n)%nat) as Hlt
    by (unfold text; by rewrite length_app, length_le_bytes).
  rewrite Hbb in H2. rewrite <- app_assoc in H2. destruct (overwrite_spec pre b1 (b2 ++ z) p2 chars H2) as (p3 & Ho & H3 & _);
    [unfold b1; rewrite length_take; lia|]. rewrite (bind_step _ _ _ _ _ Ho). rewrite app_assoc in H3.
  destruct (overwrite_spec (pre ++ chars) b2 z p3 (le_bytes n 0) H3) as (p4 & Ho4 & H4 & _);
    [unfold b2; rewrite length_le_bytes, length_drop; lia|].
  replace (Z.of_nat (length pre) + Z.of_nat n * Z.of_nat (length str)) with (Z.of_nat (length (pre ++ chars)))
    by (rewrite length_app; unfold chars at 1; rewrite length_concat_bytes; lia).
  rewrite (bind_step _ _ _ _ _ Ho4). exists p4. split; [done|]. unfold padded_bytes, text, pre in *. rewrite <- !app_assoc in *. exact H4.
Qed.

End Writing.

(** ** Reading *)

Record reads_at (pre post : list Z) (p : t) : Prop := {
  r_objects : mObjects p = [];
  r_pos : mDataPos p = Z.of_nat (length pre);
  r_size : mDataSize p = Z.of_nat (length (pre ++ post));
  r_data : exists rest, default [] (mData p) = pre ++ post ++ rest;
  r_bound : mDataSize p <= INT32_MAX }.

(** what was written can be read from the start *)
Lemma holds_rewind bytes p : holds bytes p -> exists p', setDataPosition 0 p = Some (tt, p') /\ reads_at [] bytes p'.
Proof.
  intros [Ho Hob Hp Hs He (rest & Hd & Hc) Hcap]. eexists. split; [reflexivity|]. split; cbn; try done; [by exists rest|]. lia.
Qed.

Section Reading.

Context (e : env).

Lemma advance_spec pre x post p len : reads_at pre (x ++ post) p -> len = Z.of_nat (length x) -> exists p',
  advance e len p = Some (NO_ERROR, p') /\ reads_at (pre ++ x) post p'.
Proof.
  intros [Hob Hp Hs (rest & Hd) Hb] ->. unfold advance. rewrite bind_id. unfold mObjectsSize. rewrite Hob.
  change (0 <? Z.of_nat (length (@nil Z))) with false. cbv iota. rewrite bind_ret, bind_modify. eexists. split; [reflexivity|]. split; cbn; try done.
  - rewrite Hp, length_app. lia.
  - rewrite Hs. by rewrite app_assoc.
  - exists rest. by rewrite <- !app_assoc in *.
Qed.

(** bytes that have been passed are still there *)
Lemma read_back a x b pre post p : reads_at pre post p -> pre = a ++ x ++ b ->
  read_mem (Z.of_nat (length a)) (Z.of_nat (length x)) p = Some (x, p).
Proof.
  intros [Hob Hp Hs (rest & Hd) Hb] ->. destruct (mData p) as [d|] eqn:Ed; simpl in Hd.
  - eapply (read_mem_step _ _ _ _ a x (b ++ post ++ rest)); [done|by rewrite Hd, <- !app_assoc|done|done].
  - destruct a, x; try done. unfold read_mem. rewrite bind_gets, Ed. done.
Qed.

Lemma position_small pre x post p : reads_at pre (x ++ post) p ->
  uint64 (Z.of_nat (length pre) + Z.of_nat (length x)) = Z.of_nat (length pre) + Z.of_nat (length x) /\
  Z.of_nat (length pre) + Z.of_nat (length x) <= mDataSize p <= INT32_MAX.
Proof.
  intros [Hob Hp Hs (rest & Hd) Hb]. rewrite !length_app in Hs. unfold INT32_MAX in *. split; [|lia].
  unfold uint64. apply Z.mod_small. lia.
Qed.

Lemma readAligned_spec pre post p n z : reads_at pre (le_bytes n z ++ post) p -> exists p',
  readAligned e n p = Some ((NO_ERROR, Some (z mod 256 ^ Z.of_nat n)), p') /\ reads_at (pre ++ le_bytes n z) post p'.
Proof.
  intros H. destruct (position_small _ _ _ _ H) as [Hu Hs]. rewrite length_le_bytes in Hu, Hs.
  destruct (advance_spec _ _ _ _ (Z.of_nat n) H) as (p' & Ha & H'); [by rewrite length_le_bytes|].
  unfold readAligned. rewrite bind_id, (r_pos _ _ _ H), Hu. rewrite (proj2 (Z.leb_le _ _)) by lia.
  rewrite (bind_step _ _ _ _ _ Ha), Z.eqb_refl. pose proof (read_back pre (le_bytes n z) [] _ _ _ H' ltac:(by rewrite app_nil_r)) as Hr. rewrite length_le_bytes in Hr.
  cbn [negb]. rewrite (bind_step _ _ _ _ _ Hr). exists p'. by rewrite le_value_bytes.
Qed.

Lemma readInt32_spec pre post p z : in_int32 z -> reads_at pre (le_bytes 4 z ++ post) p -> exists p',
  readInt32 e p = Some ((NO_ERROR, Some z), p') /\ reads_at (pre ++ le_bytes 4 z) post p'.
Proof.
  intros Hz H. destruct (readAligned_spec _ _ _ _ _ H) as (p' & Hr & H'). exists p'. split; [|done]. unfold readInt32.
  rewrite (bind_step _ _ _ _ _ Hr). unfold mret, M_ret. cbn. repeat f_equal. unfold int32, in_int32, INT32_MIN, INT32_MAX in *.
  rewrite <- Zplus_mod_idemp_l. change (256 ^ 4) with 4294967296. rewrite Zmod_mod, Zplus_mod_idemp_l, Z.mod_small by lia. lia.
Qed.

Lemma readInt32_or_0_spec pre post p z : in_int32 z -> reads_at pre (le_bytes 4 z ++ post) p -> exists p',
  readInt32_or_0 e p = Some (z, p') /\ reads_at (pre ++ le_bytes 4 z) post p'.
Proof.
  intros Hz H. destruct (readInt32_spec _ _ _ _ Hz H) as (p' & Hr & H'). exists p'. split; [|done].
  unfold readInt32_or_0, readAligned_or_0. unfold readInt32 in Hr. unfold mbind, M_bind in *.
  destruct (readAligned e 4 p) as [[[st v] p1]|]; [|done]. unfold mret, M_ret in *. destruct v; cbn in *; by simplify_eq.
Qed.

Lemma readInplace_spec pre x post p : reads_at pre (padded_bytes x ++ post) p -> exists p',
  readInplace e (Z.of_nat (length x)) p = Some (Some (Z.of_nat (length pre)), p') /\ reads_at (pre ++ padded_bytes x) post p'.
Proof.
  intros H. destruct (position_small _ _ _ _ H) as [Hu Hs]. rewrite length_padded in Hu, Hs.
  pose proof (pad_spec (Z.of_nat (length x)) ltac:(lia)) as [Hpad _].
  destruct (advance_spec _ _ _ _ (PAD_SIZE_UNSAFE (Z.of_nat (length x))) H) as (p' & Ha & H'); [by rewrite length_padded|].
  unfold readInplace. rewrite (proj2 (Z.ltb_ge _ _)) by lia. rewrite (bind_step _ _ _ _ _ (pad_size_ret (Z.of_nat (length x)) p ltac:(lia))), bind_id.
  unfold enough_data. rewrite (r_pos _ _ _ H), Hu, !(proj2 (Z.leb_le _ _)) by lia. cbn [andb].
  rewrite (bind_step _ _ _ _ _ Ha). exists p'. by rewrite Z.eqb_refl.
Qed.

Lemma read_string_spec n pre post p str : (0 < n)%nat -> Forall (fun c => 0 <= c < 256 ^ Z.of_nat n) str -> Z.of_nat (length str) < INT32_MAX ->
  let text := concat (map (le_bytes n) str) ++ le_bytes n 0 in
  reads_at pre (le_bytes 4 (Z.of_nat (length str)) ++ padded_bytes text ++ post) p -> exists p',
  read_string_inplace e n p = Some (Some str, p') /\ reads_at (pre ++ le_bytes 4 (Z.of_nat (length str)) ++ padded_bytes text) post p'.
Proof.
  intros Hn Hstr Hlen text H. destruct (readInt32_or_0_spec _ _ _ (Z.of_nat (length str)) ltac:(unfold in_int32, INT32_MIN, INT32_MAX in *; lia) H) as (p1 & Hr & H1).
  destruct (readInplace_spec _ _ _ _ H1) as (p2 & Hi & H2). unfold read_string_inplace. rewrite (bind_step _ _ _ _ _ Hr).
  rewrite (proj2 (Z.leb_le _ _)), (proj2 (Z.ltb_lt _ _)) by lia. cbn [andb].
  assert ((Z.of_nat (length str) + 1) * Z.of_nat n = Z.of_nat (length text)) as ->
    by (unfold text; rewrite length_app, length_concat_bytes, length_le_bytes; lia).
  rewrite (bind_step _ _ _ _ _ Hi). set (pre1 := pre ++ le_bytes 4 _) in *. set (chars := concat (map (le_bytes n) str)) in *.
  assert (Z.of_nat (length str) * Z.of_nat n = Z.of_nat (length chars)) as Hc by (unfold chars; rewrite length_concat_bytes; lia).
  rewrite Hc. unfold padded_bytes in H2. set (z := replicate _ 0) in H2. unfold text in H2.
  pose proof (read_back (pre1 ++ chars) (le_bytes n 0) z _ _ _ H2 ltac:(by rewrite <- !app_assoc)) as Ht.
  rewrite length_le_bytes, length_app, Nat2Z.inj_add in Ht. rewrite (bind_step _ _ _ _ _ Ht), le_value_bytes, Z.mod_0_l, Z.eqb_refl by lia.
  pose proof (read_back pre1 chars (le_bytes n 0 ++ z) _ _ _ H2 ltac:(by rewrite <- !app_assoc)) as Hchars.
  rewrite (bind_step _ _ _ _ _ Hchars), Nat2Z.id. exists p2. split.
  - unfold chars. rewrite words_bytes. unfold mret, M_ret. do 3 f_equal. rewrite <- (map_id str) at 2. apply map_ext_Forall.
    eapply Forall_impl; [exact Hstr|]. intros c Hc'. by apply Z.mod_small.
  - unfold padded_bytes, text, pre1 in *. by rewrite <- !app_assoc in *.
Qed.

End Reading.
