(* ===== verification/ParcelTheorems.v ===== *)
(** * What parcels guarantee

    Round trips of all data types: [encode] is the wire format, [writeData] appends it and
    [readData] takes it apart again. *)

From S2P Require Import Prelude Parcel ParcelData ParcelLemmas.
Import Parcel ParcelData.

(** ** The wire format *)

Fixpoint encode (T : type) : value T -> list Z :=
  match T with
  | Bool => fun b => le_bytes 4 (if b then 1 else 0)
  | Int8 | Char16 | Int32 | Uint32 | Float => fun z => le_bytes 4 z
  | Uint8 => fun z => le_bytes 4 (int8 z)
  | Int64 | Uint64 | Double => fun z => le_bytes 8 z
  | String16 => fun str => le_bytes 4 (Z.of_nat (length str)) ++ padded_bytes (concat (map (le_bytes 2) str) ++ le_bytes 2 0)
  | Nullable T' => fun c => match c with None => le_bytes 4 (-1) | Some c => encode T' c end
  | Vector T' => fun c =>
    le_bytes 4 (Z.of_nat (length c)) ++
    match packed_size T' with
    | Some n => padded_bytes (concat (map (fun t => le_bytes n (to_word T' t)) c))
    | None => if widened T' then concat (map (fun t => le_bytes 4 (to_word T' t)) c) else concat (map (encode T') c)
    end
  end.

(** the values that the C++ type has *)
Fixpoint fits (T : type) : value T -> Prop :=
  match T with
  | Bool => fun _ => True
  | Int8 => fun z => -128 <= z < 128
  | Uint8 => fun z => 0 <= z < 256
  | Char16 => fun z => 0 <= z < 65536
  | Int32 => fun z => in_int32 z
  | Uint32 | Float => fun z => 0 <= z < 4294967296
  | Int64 => fun z => -9223372036854775808 <= z < 9223372036854775808
  | Uint64 | Double => fun z => 0 <= z < 18446744073709551616
  | String16 => fun str => Forall (fun c => 0 <= c < 65536) str
  | Nullable T' => fun c => match c with None => True | Some c => fits T' c end
  | Vector T' => fun c => Forall (fits T') c
  end.

(** the types that compile *)
Fixpoint well_typed (T : type) : bool :=
  match T with
  | Nullable T' => nullable_type T' && well_typed T'
  | Vector T' => well_typed T'
  | _ => true
  end.

Lemma encode_length T v : (4 <= length (encode T v))%nat.
Proof.
  induction T; simpl; rewrite ?length_app, ?length_le_bytes; try lia. destruct v; [by apply IHT|simpl; lia].
Qed.

Lemma map_le_bytes {A} n (f : A -> Z) l : map (fun t => le_bytes n (f t)) l = map (le_bytes n) (map f l).
Proof. by rewrite map_map. Qed.

Lemma length_elements T c : (length c <= length (concat (map (encode T) c)))%nat.
Proof. induction c as [|t c IH]; simpl; [lia|]. rewrite length_app. pose proof (encode_length T t). lia. Qed.

Lemma padded_words l : padded_bytes (concat (map (le_bytes 4) l)) = concat (map (le_bytes 4) l).
Proof.
  unfold padded_bytes. rewrite length_concat_bytes, pad_multiple, Z.sub_diag by (Z.to_euclidean_division_equations; lia). apply app_nil_r.
Qed.

(** a scalar survives the way through [n] bytes *)
Lemma of_to_word T n z : packed_size T = Some n \/ widened T = true /\ n = 4%nat -> fits T z ->
  of_word T (to_word T z mod 256 ^ Z.of_nat n) = z.
Proof.
  intros Hn Hf. destruct T; destruct Hn as [Hn|[Hn Hn']]; simpl in *; try done; try injection Hn as <-; subst; simpl.
  all: try (by destruct z).
  all: try change (256 ^ 1) with 256; try change (256 ^ 4) with 4294967296; try change (256 ^ 8) with 18446744073709551616.
  all: unfold int8, int32, int64, uint32, uint64, in_int32, INT32_MIN, INT32_MAX in *; Z.to_euclidean_division_equations; lia.
Qed.

Lemma map_of_to_word T n c : packed_size T = Some n \/ widened T = true /\ n = 4%nat -> Forall (fits T) c ->
  map (of_word T) (map (fun z => z mod 256 ^ Z.of_nat n) (map (to_word T) c)) = c.
Proof. intros Hn Hf. rewrite !map_map. induction Hf as [|t c Ht _ IH]; simpl; [done|]. by rewrite of_to_word, IH. Qed.

(** ** Writing *)

Section Writing.

Context (e : env) (Hmalloc : malloc_succeeds e).

Lemma write_elements_spec T c bytes p :
  (forall t bytes p, holds bytes p -> Z.of_nat (length bytes + length (encode T t)) <= GROWTH_LIMIT -> exists p',
     writeData e T t p = Some (OK, p') /\ holds (bytes ++ encode T t) p') ->
  holds bytes p -> Z.of_nat (length bytes + length (concat (map (encode T) c))) <= GROWTH_LIMIT -> exists p',
  write_elements (writeData e T) c p = Some (OK, p') /\ holds (bytes ++ concat (map (encode T) c)) p'.
Proof.
  intros Hw. revert bytes p. induction c as [|t c IH]; intros bytes p H Hlim; simpl in *.
  { exists p. by rewrite app_nil_r. }
  rewrite length_app in Hlim. destruct (Hw t bytes p H ltac:(lia)) as (p1 & Hw1 & H1). rewrite (bind_step _ _ _ _ _ Hw1), Z.eqb_refl. cbn [negb].
  destruct (IH _ p1 H1) as (p2 & Hw2 & H2); [rewrite length_app; lia|]. exists p2. split; [done|]. by rewrite app_assoc.
Qed.

Lemma writeData_spec T : well_typed T = true -> forall v bytes p, holds bytes p ->
  Z.of_nat (length bytes + length (encode T v)) <= GROWTH_LIMIT -> exists p',
  writeData e T v p = Some (OK, p') /\ holds (bytes ++ encode T v) p'.
Proof.
  induction T; intros Hty v bytes p H Hlim; cbn [well_typed encode] in Hty, Hlim.
  1-10: rewrite length_le_bytes in Hlim; cbn [writeData encode];
    unfold writeBool, writeByte, writeChar, writeFloat, writeDouble, writeInt32, writeUint32, writeInt64, writeUint64;
    unfold writeInt32; eapply (writeAligned_spec e Hmalloc bytes p _ _ H); lia.
  - cbn [writeData encode]. eapply (write_string_spec e Hmalloc bytes p 2 v H); [lia|]. rewrite length_app, length_le_bytes in Hlim. lia.
  - rewrite length_app, length_le_bytes in Hlim. change (list (value T)) in v.
    assert (Z.of_nat (length v) <= INT32_MAX) as Hv.
    { unfold GROWTH_LIMIT, INT32_MAX in *. pose proof (length_elements T v). destruct (packed_size T) as [n|] eqn:En.
      - rewrite map_le_bytes in Hlim. rewrite !Nat2Z.inj_add, length_padded, length_concat_bytes, length_map in Hlim.
        pose proof (pad_spec (Z.of_nat (n * length v)) ltac:(lia)). destruct T; simplify_eq/=; lia.
      - destruct (widened T); [rewrite map_le_bytes, length_concat_bytes, length_map in Hlim|]; lia. }
    cbn [writeData encode]. cbv zeta. rewrite (proj2 (Z.ltb_ge _ _)) by done.
    destruct (writeAligned_spec e Hmalloc bytes p 4 (Z.of_nat (length v)) H) as (p1 & Hw & H1); [lia|lia|].
    unfold writeInt32. rewrite (bind_step _ _ _ _ _ Hw). rewrite (app_assoc bytes). destruct (packed_size T) as [n|] eqn:En.
    + rewrite (proj2 (Z.ltb_ge (SIZE_MAX / Z.of_nat n) _)) by (etransitivity; [exact Hv|]; destruct T; simplify_eq/=; done).
      eapply (write_spec e Hmalloc _ p1 _ H1). rewrite length_app, length_le_bytes. lia.
    + destruct (widened T).
      * rewrite map_le_bytes in *. destruct (writeInplace_spec e Hmalloc _ p1 (Z.of_nat (length v) * 4) H1) as (p2 & body & Hi & Hb & H2);
          [lia|rewrite pad_multiple by (Z.to_euclidean_division_equations; lia); rewrite length_app, length_le_bytes;
               rewrite length_concat_bytes, length_map in Hlim; lia|].
        rewrite (bind_step _ _ _ _ _ Hi). rewrite pad_multiple, Z.sub_diag in H2 by (Z.to_euclidean_division_equations; lia).
        destruct (overwrite_spec _ body [] p2 (concat (map (le_bytes 4) (map (to_word T) v))) H2) as (p3 & Ho & H3 & _);
          [rewrite length_concat_bytes, length_map; lia|].
        rewrite (bind_step _ _ _ _ _ Ho). exists p3. by rewrite app_nil_r in H3.
      * apply write_elements_spec; [by intros; apply IHT|done|]. rewrite length_app, length_le_bytes. lia.
  - apply andb_true_iff in Hty as [Hn Hty]. cbn [writeData encode]. rewrite Hn. cbn [negb]. destruct v as [v|].
    + by apply IHT.
    + rewrite length_le_bytes in Hlim. eapply (writeAligned_spec e Hmalloc bytes p _ _ H); lia.
Qed.

End Writing.

(** ** Reading *)

Section Reading.

Context (e : env).

Lemma data_available pre post p : reads_at pre post p -> dataAvail p = Some (Z.of_nat (length post), p).
Proof.
  intros [_ Hp Hs _ Hb]. unfold dataAvail, dataSize, dataPosition. rewrite !bind_gets, Hp, Hs. rewrite Hs in Hb.
  rewrite length_app in *. cbv zeta.
  assert ((if Z.of_nat (length pre) <? Z.of_nat (length pre + length post) then Z.of_nat (length pre + length post)
           else Z.of_nat (length pre)) = Z.of_nat (length pre + length post)) as -> by (case_match; bool_to_prop; lia).
  rewrite (proj2 (Z.ltb_ge _ _)) by lia. unfold mret, M_ret. do 2 f_equal. lia.
Qed.

Lemma read_elements_spec T c pre post p :
  (forall t pre post p, fits T t -> reads_at pre (encode T t ++ post) p -> exists p',
     readData e T p = Some ((OK, Some t), p') /\ reads_at (pre ++ encode T t) post p') ->
  Forall (fits T) c -> reads_at pre (concat (map (encode T) c) ++ post) p -> exists p',
  read_elements (readData e T) (length c) p = Some ((OK, Some c), p') /\ reads_at (pre ++ concat (map (encode T) c)) post p'.
Proof.
  intros Hr Hc. revert pre p. induction Hc as [|t c Ht Hc IH]; intros pre p H; cbn [length map concat read_elements] in *.
  { exists p. by rewrite app_nil_r. }
  rewrite <- app_assoc in H. destruct (Hr _ _ _ _ Ht H) as (p1 & H1 & R1). rewrite (bind_step _ _ _ _ _ H1), Z.eqb_refl. cbn [negb].
  destruct (IH _ p1 R1) as (p2 & H2 & R2). rewrite (bind_step _ _ _ _ _ H2). exists p2. by rewrite app_assoc.
Qed.

(** an [int32_t] that holds a scalar *)
Lemma read_scalar {A} (f : Z -> A) w v pre post p : in_int32 w -> f w = v -> reads_at pre (le_bytes 4 w ++ post) p -> exists p',
  (r ← readInt32 e; mret (r.1, f (default 0 r.2))) p = Some ((NO_ERROR, v), p') /\ reads_at (pre ++ le_bytes 4 w) post p'.
Proof. intros Hw <- H. destruct (readInt32_spec e _ _ _ _ Hw H) as (p' & Hr & H'). rewrite (bind_step _ _ _ _ _ Hr). by exists p'. Qed.

(** data of fixed size *)
Lemma read_fixed n w v (f : Z -> Z) pre post p : f (w mod 256 ^ Z.of_nat n) = v -> reads_at pre (le_bytes n w ++ post) p -> exists p',
  (r ← readAligned e n; mret (r.1, f <$> r.2)) p = Some ((NO_ERROR, Some v), p') /\ reads_at (pre ++ le_bytes n w) post p'.
Proof. intros <- H. destruct (readAligned_spec e _ _ _ _ _ H) as (p' & Hr & H'). rewrite (bind_step _ _ _ _ _ Hr). by exists p'. Qed.

(** the values of a packed vector *)
Lemma read_packed T n c pre post p : packed_size T = Some n \/ widened T = true /\ n = 4%nat -> Forall (fits T) c ->
  reads_at pre (padded_bytes (concat (map (fun t => le_bytes n (to_word T t)) c)) ++ post) p -> exists p',
  (data ← readInplace e (Z.of_nat (length c) * Z.of_nat n);
   match data with
   | None => mret (BAD_VALUE, None)
   | Some pos => bytes ← read_mem pos (Z.of_nat (length c) * Z.of_nat n);
                 mret (OK, Some (map (of_word T) (words n (Z.to_nat (Z.of_nat (length c))) bytes)))
   end) p = Some ((OK, Some c), p') /\
  reads_at (pre ++ padded_bytes (concat (map (fun t => le_bytes n (to_word T t)) c))) post p'.
Proof.
  intros Hn Hc H. rewrite map_le_bytes in *. set (x := concat _) in *.
  assert (Z.of_nat (length c) * Z.of_nat n = Z.of_nat (length x)) as -> by (unfold x; rewrite length_concat_bytes, length_map; lia).
  destruct (readInplace_spec e _ _ _ _ H) as (p' & Hi & H'). rewrite (bind_step _ _ _ _ _ Hi).
  unfold padded_bytes in H' at 1. rewrite (bind_step _ _ _ _ _ (read_back pre x _ _ _ _ H' eq_refl)), Nat2Z.id.
  exists p'. split; [|done]. unfold x. rewrite <- (length_map (to_word T) c), words_bytes, map_of_to_word by done. done.
Qed.

Lemma readAligned_value n z pre post p : 0 <= z < 256 ^ Z.of_nat n -> reads_at pre (le_bytes n z ++ post) p -> exists p',
  readAligned e n p = Some ((OK, Some z), p') /\ reads_at (pre ++ le_bytes n z) post p'.
Proof. intros Hz H. destruct (readAligned_spec e _ _ _ _ _ H) as (p' & Hr & H'). exists p'. by rewrite Z.mod_small in Hr. Qed.

(** the first word of the types that can be null: the number of elements *)
Definition elements (T : type) : value T -> nat :=
  match T with String16 => fun str => length str | Vector _ => fun c => length c | _ => fun _ => 0%nat end.

Lemma nullable_first T v : nullable_type T = true ->
  exists rest, encode T v = le_bytes 4 (Z.of_nat (elements T v)) ++ rest /\ (elements T v <= length rest)%nat.
Proof.
  destruct T; try done; intros _; cbn [encode elements]; eexists; (split; [reflexivity|]).
  - apply Nat2Z.inj_le. rewrite length_padded. match goal with |- _ <= PAD_SIZE_UNSAFE ?s => pose proof (pad_spec s ltac:(lia)) as [H _] end.
    rewrite length_app, length_concat_bytes in H |- *. lia.
  - change (list (value T)) in v. pose proof (length_elements T v) as H. destruct (packed_size T) as [n|] eqn:En.
    + apply Nat2Z.inj_le. rewrite length_padded, map_le_bytes, length_concat_bytes, length_map.
      pose proof (pad_spec (Z.of_nat (n * length v)) ltac:(lia)). destruct T; simplify_eq/=; lia.
    + destruct (widened T); [|done]. rewrite map_le_bytes, length_concat_bytes, length_map.
      change (length (v : list (value T)) <= 4 * length (v : list (value T)))%nat. lia.
Qed.

Lemma count_fits pre count rest post p : reads_at pre ((le_bytes 4 (Z.of_nat count) ++ rest) ++ post) p -> (count <= length rest)%nat ->
  in_int32 (Z.of_nat count) /\ Z.of_nat count < INT32_MAX.
Proof.
  intros [_ _ Hs _ Hb] Hc. rewrite Hs, !length_app, length_le_bytes in Hb. unfold in_int32, INT32_MIN, INT32_MAX in *. lia.
Qed.

Lemma readData_spec T : well_typed T = true -> forall v pre post p, fits T v -> reads_at pre (encode T v ++ post) p -> exists p',
  readData e T p = Some ((OK, Some v), p') /\ reads_at (pre ++ encode T v) post p'.
Proof.
  induction T; intros Hty v pre post p Hf H; cbn [well_typed fits encode] in *; cbn [readData].
  - destruct (read_scalar (fun w => negb (w =? 0)) (if v then 1 else 0) v _ _ _ ltac:(by destruct v) ltac:(by destruct v) H) as (p' & Hr & H').
    exists p'. split; [|done]. by rewrite (bind_step _ _ _ _ _ Hr).
  - destruct (read_scalar int8 v v _ _ _ ltac:(unfold in_int32, INT32_MIN, INT32_MAX; lia)
      ltac:(unfold int8; rewrite Z.mod_small; lia) H) as (p' & Hr & H').
    exists p'. split; [|done]. by rewrite (bind_step _ _ _ _ _ Hr).
  - assert (-128 <= int8 v < 128 /\ int8 v mod 256 = v) as [Hi Hm] by (unfold int8; Z.to_euclidean_division_equations; lia).
    destruct (read_scalar int8 (int8 v) (int8 v) _ _ _ ltac:(unfold in_int32, INT32_MIN, INT32_MAX; lia)
      ltac:(unfold int8 at 1; rewrite Z.mod_small; lia) H) as (p' & Hr & H').
    exists p'. split; [|done]. rewrite (bind_step _ _ _ _ _ Hr). cbn [fst snd]. by rewrite Hm.
  - destruct (read_scalar (fun w => w mod 65536) v v _ _ _ ltac:(unfold in_int32, INT32_MIN, INT32_MAX; lia)
      ltac:(by apply Z.mod_small) H) as (p' & Hr & H').
    exists p'. split; [|done]. by rewrite (bind_step _ _ _ _ _ Hr).
  - by apply readInt32_spec.
  - by apply readAligned_value.
  - apply read_fixed; [|done]. change (256 ^ Z.of_nat 8) with 18446744073709551616. unfold int64. Z.to_euclidean_division_equations. lia.
  - by apply readAligned_value.
  - by apply readAligned_value.
  - by apply readAligned_value.
  - destruct (nullable_first String16 v eq_refl) as (rest & Henc & Hc). cbn [encode elements] in Henc, Hc. pose proof H as Hp. rewrite Henc in Hp.
    destruct (count_fits _ _ _ _ _ Hp Hc) as [_ Hv]. rewrite <- app_assoc in H.
    destruct (read_string_spec e 2 _ _ _ v ltac:(lia) Hf Hv H) as (p' & Hr & H'). exists p'. split; [|done].
    unfold readString16. unfold mbind at 1, M_bind at 1. by rewrite (bind_step _ _ _ _ _ Hr).
  - destruct (nullable_first (Vector T) v eq_refl) as (rest & Henc & Hc). pose proof H as Hp.
    change (list (value T)) in v. cbn [encode elements] in Henc, Hc. apply app_inv_head in Henc. rewrite Henc in Hp, H |- *.
    destruct (count_fits _ _ _ _ _ Hp Hc) as [Hv _]. rewrite <- app_assoc in H.
    destruct (readInt32_spec e _ _ _ _ Hv H) as (p1 & Hr & H1). rewrite (bind_step _ _ _ _ _ Hr), Z.eqb_refl. cbn [negb].
    rewrite (proj2 (Z.ltb_ge _ _)) by lia. rewrite (bind_step _ _ _ _ _ (data_available _ _ _ H1)).
    rewrite (proj2 (Z.ltb_ge _ _)) by (rewrite length_app; lia). rewrite app_assoc. subst rest. destruct (packed_size T) as [n|] eqn:En.
    + apply read_packed; [by left|done|done].
    + destruct (widened T) eqn:Ew.
      * rewrite map_le_bytes, <- padded_words, <- map_le_bytes in *. apply (read_packed T 4); [by right|done|done].
      * rewrite Nat2Z.id. apply read_elements_spec; [by intros; apply IHT|done|done].
  - apply andb_true_iff in Hty as [Hn Hty]. unfold dataPosition. rewrite bind_gets. destruct v as [v|].
    + destruct (nullable_first T v Hn) as (rest & Henc & Hc). pose proof H as Hp. rewrite Henc in Hp.
      destruct (count_fits _ _ _ _ _ Hp Hc) as [Hv _]. rewrite <- app_assoc in Hp.
      destruct (readInt32_spec e _ _ _ _ Hv Hp) as (p1 & Hr & H1). rewrite (bind_step _ _ _ _ _ Hr), Z.eqb_refl, Hn. cbn [negb].
      rewrite (proj2 (Z.eqb_neq _ _)) by (unfold kNullVectorSize; lia). unfold setDataPosition.
      rewrite (proj2 (Z.ltb_ge _ _)) by (destruct H as [_ Hpos Hs _ Hb]; rewrite Hpos; rewrite length_app in Hs; lia).
      rewrite bind_modify. set (p2 := p1 <| mDataPos := _ |> <| _ := _ |> <| _ := _ |>).
      destruct (IHT Hty v pre post p2 Hf) as (p3 & Hr3 & H3).
      { destruct H as [A1 A2 A3 A4 A5], H1 as [B1 B2 B3 (r & B4) B5]. split; cbn; try done.
        - rewrite B3. by rewrite Henc, <- !app_assoc.
        - exists r. rewrite B4, Henc. by rewrite <- !app_assoc. }
      rewrite (bind_step _ _ _ _ _ Hr3). by exists p3.
    + destruct (readInt32_spec e _ _ _ (-1) ltac:(done) H) as (p1 & Hr & H1).
      rewrite (bind_step _ _ _ _ _ Hr), Z.eqb_refl, Hn. cbn [negb]. by exists p1.
Qed.

End Reading.

(** ** Round trips *)

(** an argument of a call: a type and a value of it *)
Definition argument : Type := { T : type & value T }.

Definition good_argument (a : argument) : Prop := well_typed (projT1 a) = true /\ fits (projT1 a) (projT2 a).

(** the arguments one after the other, as the generated proxies and stubs do *)
Definition write_arguments (e : env) (l : list argument) : M status_t := write_elements (fun a => writeData e (projT1 a) (projT2 a)) l.

Fixpoint read_arguments (e : env) (types : list type) : M (status_t * option (list argument)) :=
  match types with
  | [] => mret (OK, Some [])
  | T :: types' =>
    r ← readData e T;
    match r with
    | (status, Some v) =>
      if negb (status =? OK) then mret (status, None)
      else rs ← read_arguments e types'; mret (rs.1, cons (existT T v) <$> rs.2)
    | (status, None) => mret (status, None)
    end
  end.

Definition encode_argument (a : argument) : list Z := encode (projT1 a) (projT2 a).

Lemma write_arguments_spec e l bytes p : malloc_succeeds e -> Forall good_argument l -> holds bytes p ->
  Z.of_nat (length bytes + length (concat (map encode_argument l))) <= GROWTH_LIMIT -> exists p',
  write_arguments e l p = Some (OK, p') /\ holds (bytes ++ concat (map encode_argument l)) p'.
Proof.
  intros Hm Hl. revert bytes p. unfold write_arguments. induction Hl as [|[T v] l [Ht _] _ IH]; intros bytes p H Hlim; cbn [map concat write_elements] in *.
  { exists p. by rewrite app_nil_r. }
  rewrite length_app in Hlim. destruct (writeData_spec e Hm T Ht v bytes p H) as (p1 & H1 & R1); [unfold encode_argument in Hlim; simpl in Hlim; lia|].
  rewrite (bind_step _ _ _ _ _ H1), Z.eqb_refl. cbn [negb]. destruct (IH _ p1 R1) as (p2 & H2 & R2).
  { rewrite length_app. unfold encode_argument at 1 in Hlim. simpl in Hlim. lia. }
  exists p2. split; [done|]. by rewrite app_assoc.
Qed.

Lemma read_arguments_spec e l pre post p : Forall good_argument l -> reads_at pre (concat (map encode_argument l) ++ post) p -> exists p',
  read_arguments e (map (@projT1 _ _) l) p = Some ((OK, Some l), p') /\ reads_at (pre ++ concat (map encode_argument l)) post p'.
Proof.
  intros Hl. revert pre p. induction Hl as [|[T v] l [Ht Hf] _ IH]; intros pre p H; cbn [map concat read_arguments projT1] in *.
  { exists p. by rewrite app_nil_r. }
  rewrite <- app_assoc in H. destruct (readData_spec e T Ht v _ _ _ Hf H) as (p1 & H1 & R1).
  rewrite (bind_step _ _ _ _ _ H1), Z.eqb_refl. cbn [negb]. destruct (IH _ p1 R1) as (p2 & H2 & R2).
  rewrite (bind_step _ _ _ _ _ H2). exists p2. split; [done|]. by rewrite app_assoc.
Qed.

(** C4: Whatever arguments are written to an empty parcel with writeData (numbers, bools,
    characters, strings, vectors and nullable values of these, nested to any depth) are
    read back by readData, equal and in order, from the start of the parcel, and reading
    ends where writing did. Writing succeeds as long as there is memory and the data
    stays below two thirds of INT32_MAX, the size up to which growData can grow. *)
Theorem parcel_round_trip e l : malloc_succeeds e -> Forall good_argument l ->
  Z.of_nat (length (concat (map encode_argument l))) <= GROWTH_LIMIT ->
  exists p1 p2 p3, write_arguments e l new = Some (OK, p1) /\ setDataPosition 0 p1 = Some (tt, p2) /\
    read_arguments e (map (@projT1 _ _) l) p2 = Some ((OK, Some l), p3) /\
    mDataPos p3 = mDataSize p1 /\ mDataSize p1 = Z.of_nat (length (concat (map encode_argument l))).
Proof.
  intros Hm Hl Hlim. destruct (write_arguments_spec e l [] new Hm Hl holds_new Hlim) as (p1 & Hw & H1).
  destruct (holds_rewind _ _ H1) as (p2 & Hs & H2). rewrite <- (app_nil_r (concat _)) in H2.
  destruct (read_arguments_spec e l [] [] p2 Hl H2) as (p3 & Hr & H3). exists p1, p2, p3.
  split; [done|]. split; [done|]. split; [done|]. by rewrite (r_pos _ _ _ H3), (h_size _ _ H1).
Qed.

(** an allocator that fills blocks with [0xAA]; ashmem and the driver are not used *)
Definition plain_env : env :=
  mkEnv (fun n => Some (replicate (Z.to_nat n) 170)) (fun _ => true) (fun _ => None) (fun _ => true) (fun fd => fd) 24
    (fun o => le_bytes 4 (hdr_type o) ++ le_bytes 4 (flags o) ++ le_bytes 8 (Z.lor (binder o) (handle o)) ++ le_bytes 8 (cookie o))
    (fun l => let w := le_value (take 8 (drop 8 l)) in
              mkFlat (le_value (take 4 l)) (le_value (take 4 (drop 4 l))) w (int32 w) (le_value (drop 16 l))) 1 2 3.

Lemma plain_malloc : malloc_succeeds plain_env.
Proof. intros n Hn. eexists. split; [reflexivity|]. rewrite length_replicate. lia. Qed.

(** the first example of the comment in Parcel.h, and a few more types *)
Definition sample : list argument :=
  [existT (Vector (Vector (Vector Int32))) [[[1]; [2; 3]; [4]]; []; [[10]; [20]; [30; 40]]];
   existT (Nullable (Vector (Nullable String16))) (Some [None; Some [104; 105]]);
   existT (Vector Bool) [true; false; true]; existT Uint8 200; existT (Vector Int8) [-1; 2; -3; 4; 5]; existT Int64 (-5)].

Lemma parcel_round_trip_witness : exists p1 p2 p3,
  write_arguments plain_env sample new = Some (OK, p1) /\ setDataPosition 0 p1 = Some (tt, p2) /\
  read_arguments plain_env (map (@projT1 _ _) sample) p2 = Some ((OK, Some sample), p3) /\
  mDataPos p3 = mDataSize p1 /\ mDataSize p1 = Z.of_nat (length (concat (map encode_argument sample))).
Proof.
  apply parcel_round_trip; [exact plain_malloc| |by vm_compute].
  repeat constructor; simpl; unfold in_int32, INT32_MIN, INT32_MAX; repeat (constructor || lia).
Defined.
