(* ===== verification/ParcelSafety.v ===== *)
(** * Parcels stay within their memory

    [wp m Q p]: from the parcel [p] the operation [m] ends, without a fatal error and
    without an access outside the block, with a result and a parcel that satisfy [Q]. The
    invariant [sound] is kept by the operations that read or write data, whatever the
    bytes and the objects of the parcel are. *)

From S2P Require Import Prelude Parcel ParcelData ParcelLemmas.
Import Parcel.

(** ** Weakest preconditions *)

Definition wp {A} (m : M A) (Q : A -> t -> Prop) (p : t) : Prop := exists a p', m p = Some (a, p') /\ Q a p'.

Lemma wp_bind {A B} (m : M A) (f : A -> M B) Q p : wp m (fun a => wp (f a) Q) p -> wp (m ≫= f) Q p.
Proof. intros (a & p' & Ha & Hq). unfold wp. by rewrite (bind_step _ _ _ _ _ Ha). Qed.

Lemma wp_ret {A} (a : A) Q p : Q a p -> wp (mret a) Q p.
Proof. intros H. by exists a, p. Qed.

Lemma wp_gets {A} (g : t -> A) Q p : Q (g p) p -> wp (gets g) Q p.
Proof. intros H. by exists (g p), p. Qed.

Lemma wp_id (Q : t -> t -> Prop) p : Q p p -> wp (gets id) Q p.
Proof. apply (wp_gets id). Qed.

Lemma wp_modify g Q p : Q tt (g p) -> wp (modify g) Q p.
Proof. intros H. by exists tt, (g p). Qed.

Lemma wp_mono {A} (m : M A) (Q Q' : A -> t -> Prop) p : wp m Q p -> (forall a p', Q a p' -> Q' a p') -> wp m Q' p.
Proof. intros (a & p' & Hm & Hq) H. exists a, p'. auto. Qed.

(** one step of a program whose first operation is elementary *)
Ltac wp_step :=
  lazymatch goal with
  | |- wp (mret _) _ _ => apply wp_ret
  | |- wp (gets id) _ _ => apply wp_id
  | |- wp (gets _) _ _ => apply wp_gets
  | |- wp dataPosition _ _ => apply wp_gets
  | |- wp (modify _) _ _ => apply wp_modify
  | |- wp (emit _) _ _ => apply wp_modify
  | |- wp (_ ≫= _) _ _ => apply wp_bind
  end.
Ltac wp_steps := repeat wp_step.

(** an operation with a specification [H] *)
Tactic Notation "wp_call" uconstr(H) "as" simple_intropattern(a) simple_intropattern(p) simple_intropattern(Hp) :=
  eapply wp_mono; [eapply H|intros a p Hp].

Section Safety.

Context (e : env).

(** What is known of the allocator and of the kernel's objects: a block has the size asked
    for, an object is written as as many bytes as it takes. *)
Record env_ok : Prop := {
  malloc_sized n l : 0 <= n -> malloc e n = Some l -> Z.of_nat (length l) = n;
  flat_sized o : Z.of_nat (length (flat_bytes e o)) = sizeof_flat e;
  flat_small : 0 < sizeof_flat e <= 1000 }.

Hypothesis Henv : env_ok.

(** ** The invariant

    The position may be up to three bytes past the end: [readCString] skips the padding
    of a string also where there is none. *)

(** the fields that describe the block; the objects lie inside it *)
Record layout := mkLayout { l_size : Z; l_capacity : Z; l_pos : Z; l_objects : list Z; l_owner : bool; l_block : Z; l_null : bool }.

Definition layout_of (p : t) : layout :=
  mkLayout (mDataSize p) (mDataCapacity p) (mDataPos p) (mObjects p) (mOwner p)
           (Z.of_nat (length (default [] (mData p)))) (bool_decide (mData p = None)).

Definition inside (l : layout) (off : Z) : Prop := 0 <= off /\ off + sizeof_flat e <= l_capacity l.

Record consistent (l : layout) : Prop := {
  s_block : l_block l = l_capacity l;
  s_pos : 0 <= l_pos l <= l_size l + 3;
  s_size : 0 <= l_size l <= l_capacity l;
  s_capacity : l_capacity l <= INT32_MAX;
  s_objects : Forall (inside l) (l_objects l);
  s_owner : l_owner l = true -> l_size l = l_capacity l }.

Definition sound (p : t) : Prop := consistent (layout_of p).

Lemma sound_ext p p' : layout_of p' = layout_of p -> sound p -> sound p'.
Proof. unfold sound. by intros ->. Qed.

(** from a sound parcel [m] ends in a sound parcel *)
Definition safe {A} (m : M A) : Prop := forall p, sound p -> wp m (fun _ => sound) p.

(** [m] leaves the layout alone *)
Definition keeps {A} (m : M A) : Prop := forall p, sound p -> wp m (fun _ p' => layout_of p' = layout_of p) p.

Lemma keeps_safe {A} (m : M A) : keeps m -> safe m.
Proof. intros H p Hp. wp_call (H p Hp) as a p' E. unfold sound in *. by rewrite E. Qed.

Lemma keeps_bind {A B} (m : M A) (f : A -> M B) : keeps m -> (forall a, keeps (f a)) -> keeps (m ≫= f).
Proof.
  intros Hm Hf p Hp. wp_steps. wp_call (Hm p Hp) as a p1 E1. unfold sound in *.
  wp_call (Hf a p1 ltac:(unfold sound; by rewrite E1)) as b p2 E2. congruence.
Qed.

Lemma keeps_ret {A} (a : A) : keeps (mret a).
Proof. intros p _. by apply wp_ret. Qed.

Lemma keeps_modify g : (forall p, layout_of (g p) = layout_of p) -> keeps (modify g).
Proof. intros H p _. apply wp_modify, H. Qed.

Lemma keeps_emit ev : keeps (emit ev).
Proof. by apply keeps_modify. Qed.

Lemma safe_bind {A B} (m : M A) (f : A -> M B) : safe m -> (forall a, safe (f a)) -> safe (m ≫= f).
Proof. intros Hm Hf p Hp. wp_steps. wp_call (Hm p Hp) as a p1 H1. by apply Hf. Qed.

Lemma safe_ret {A} (a : A) : safe (mret a).
Proof. apply keeps_safe, keeps_ret. Qed.

Lemma safe_gets {A} (g : t -> A) : safe (gets g).
Proof. intros p Hp. by apply wp_gets. Qed.

(** ** Objects *)

Lemma keeps_acquire o : keeps (acquire_object e o).
Proof. unfold acquire_object. repeat case_match; auto using keeps_ret, keeps_emit; by apply keeps_modify. Qed.

Lemma keeps_release o : keeps (release_object e o).
Proof.
  unfold release_object. repeat case_match; auto using keeps_ret, keeps_emit; apply keeps_bind; auto using keeps_ret, keeps_emit; by apply keeps_modify.
Qed.

Lemma read_mem_wp pos len p : sound p -> 0 <= pos -> 0 <= len -> pos + len <= mDataCapacity p ->
  wp (read_mem pos len) (fun bytes p' => p' = p /\ Z.of_nat (length bytes) = len) p.
Proof.
  intros Hp Hpos Hlen Hend. unfold read_mem. wp_steps. cbv zeta. pose proof (s_block _ Hp) as Hb. cbn in Hb.
  rewrite Hb, (proj2 (Z.leb_le 0 pos)), (proj2 (Z.leb_le (pos + len) _)) by lia. apply wp_ret. split; [done|].
  rewrite length_take, length_drop. lia.
Qed.

Lemma flat_at_wp off p : sound p -> inside (layout_of p) off -> wp (flat_at e off) (fun _ p' => p' = p) p.
Proof.
  intros Hp [Hoff Hend]. unfold flat_at. wp_steps. destruct (flat_small Henv). cbn in Hend.
  wp_call (read_mem_wp off (sizeof_flat e) p) as bytes p' [-> _]; try lia; [done|]. by apply wp_ret.
Qed.

(** a loop over objects *)
Lemma for_each_wp (f : flat_binder_object -> M unit) p l : sound p -> (forall o, keeps (f o)) -> Forall (inside (layout_of p)) l ->
  wp (for_each (fun off => o ← flat_at e off; f o) l) (fun _ p' => layout_of p' = layout_of p) p.
Proof.
  intros Hp Hf. revert p Hp. induction l as [|off l IH]; intros p Hp Hl; [by apply wp_ret|]. inversion Hl as [|? ? Hoff Hl']; subst.
  cbn [for_each]. wp_steps. wp_call (flat_at_wp off p Hp Hoff) as o p1 ->. wp_call (Hf o p Hp) as ? p2 E2.
  wp_call (IH p2) as ? p3 E3; unfold sound in *; congruence.
Qed.

Lemma releaseObjects_keeps : keeps (releaseObjects e).
Proof.
  intros p Hp. unfold releaseObjects. wp_steps. apply for_each_wp; auto using keeps_release. apply Forall_rev, (s_objects _ Hp).
Qed.

Lemma acquireObjects_keeps n : keeps (acquireObjects e n).
Proof.
  intros p Hp. unfold acquireObjects. wp_steps. apply for_each_wp; auto using keeps_acquire.
  apply Forall_rev, Forall_take, (s_objects _ Hp).
Qed.

Lemma closeFileDescriptors_keeps : keeps (closeFileDescriptors e).
Proof.
  intros p Hp. unfold closeFileDescriptors. wp_steps. apply for_each_wp; [done| |apply Forall_rev, (s_objects _ Hp)].
  intros o. case_match; auto using keeps_emit, keeps_ret.
Qed.

Lemma any_fd_wp l p : sound p -> Forall (inside (layout_of p)) l -> wp (any_fd e l) (fun _ p' => p' = p) p.
Proof.
  intros Hp. induction 1 as [|off l Hoff Hl IH]; [by apply wp_ret|]. cbn [any_fd]. wp_steps.
  wp_call (flat_at_wp off p Hp Hoff) as o p1 ->. case_match; [by apply wp_ret|done].
Qed.

Lemma scanForFds_keeps : keeps (scanForFds e).
Proof.
  intros p Hp. unfold scanForFds. wp_steps. wp_call (any_fd_wp _ p Hp (s_objects _ Hp)) as b p1 ->. by wp_steps.
Qed.

Lemma hasFileDescriptors_keeps : keeps (hasFileDescriptors e).
Proof.
  intros p Hp. unfold hasFileDescriptors. wp_steps. case_match; [wp_call (scanForFds_keeps p Hp) as ? p1 E1|]; by wp_steps.
Qed.

(** ** The block *)

Lemma freeDataNoInit_keeps : keeps (freeDataNoInit e).
Proof.
  intros p Hp. unfold freeDataNoInit. wp_steps. case_match; [by wp_steps|]. wp_steps.
  wp_call (releaseObjects_keeps p Hp) as ? p1 E1. wp_steps. case_match; wp_steps; by rewrite <- E1.
Qed.

Lemma consistent_empty : consistent (mkLayout 0 0 0 [] false 0 true).
Proof. split; simpl; try done; lia. Qed.

Lemma freeData_wp p : sound p -> wp (freeData e) (fun _ p' => layout_of p' = mkLayout 0 0 0 [] false 0 true) p.
Proof. intros Hp. unfold freeData, initState. wp_steps. wp_call (freeDataNoInit_keeps p Hp) as ? p1 E1. by wp_steps. Qed.

Lemma reallocZeroFree_sized data old n zero l : 0 <= n -> Z.of_nat (length (default [] data)) = old ->
  reallocZeroFree e data old n zero = Some l -> Z.of_nat (length l) = n.
Proof.
  intros Hn Hold. unfold reallocZeroFree, realloc. destruct (malloc e n) as [fresh|] eqn:Hm; [|by destruct zero].
  pose proof (malloc_sized Henv _ _ Hn Hm) as Hl. destruct zero; simpl; intros [= <-].
  - rewrite length_store; rewrite ?length_take; lia.
  - rewrite length_app, length_drop, length_take. lia.
Qed.

Lemma kept_all desired p : mDataSize p <= desired -> kept_objects desired p = length (mObjects p).
Proof. intros H. unfold kept_objects. by rewrite (proj2 (Z.ltb_ge _ _)). Qed.

(** What must hold when the data of somebody else is copied to [desired] bytes: the
    position and the objects that are kept are in them. *)
Definition cut_ok (desired : Z) (p : t) : Prop := mOwner p = true ->
  mDataPos p <= desired + 3 /\ Forall (fun off => off + sizeof_flat e <= desired) (take (kept_objects desired p) (mObjects p)).

Lemma cut_ok_growth desired p : sound p -> mDataSize p <= desired -> cut_ok desired p.
Proof.
  intros Hp Hd Ho. pose proof (s_owner _ Hp Ho) as Hs. pose proof (s_pos _ Hp). cbn in *. split; [lia|]. rewrite kept_all, firstn_all by done.
  eapply Forall_impl; [exact (s_objects _ Hp)|]. intros off [_ Hoff]. cbn in Hoff. lia.
Qed.

(** the parcel has [desired] bytes of its own *)
Record resized (desired : Z) (p p' : t) : Prop := {
  rs_sound : sound p';
  rs_room : desired <= mDataCapacity p';
  rs_pos : mDataPos p' <= mDataPos p /\ mDataPos p' <= desired + 3;
  rs_size : mDataSize p' <= mDataSize p;
  rs_owner : mOwner p' = false }.

Definition resize_result (desired : Z) (p : t) (err : status_t) (p' : t) : Prop :=
  sound p' /\ (err = NO_ERROR -> resized desired p p').

Lemma resize_done desired p p' : resized desired p p' -> resize_result desired p NO_ERROR p'.
Proof. intros H. split; [apply H|done]. Qed.

Lemma out_of_memory_wp desired p p0 : sound p0 -> wp out_of_memory (resize_result desired p) p0.
Proof. intros Hp. unfold out_of_memory. wp_steps. split; done. Qed.

Lemma take_possession_wp desired p : sound p -> 0 <= desired <= INT32_MAX -> cut_ok desired p -> mOwner p = true ->
  wp (take_possession e desired (kept_objects desired p)) (resize_result desired p) p.
Proof.
  intros Hp Hd Hcut Ho. destruct (Hcut Ho) as [Hpos Hin]. pose proof (s_pos _ Hp) as Hp0. pose proof (s_size _ Hp) as Hs0. cbn in Hp0, Hs0.
  unfold take_possession. destruct (desired =? 0) eqn:E0; bool_to_prop.
  { wp_steps. wp_call (freeData_wp p Hp) as ? p1 E1. wp_steps. injection E1 as E2 E3 E4 E5 E6 E7 E8. apply resize_done.
    split; [|lia|lia|lia|done]. unfold sound, layout_of. rewrite E2, E3, E4, E5, E6, E7, E8. apply consistent_empty. }
  destruct (malloc e desired) as [data|] eqn:Hm; [|by apply out_of_memory_wp]. pose proof (malloc_sized Henv _ _ (proj1 Hd) Hm) as Hl.
  case_match; [by apply out_of_memory_wp|]. wp_steps.
  assert (keeps (if negb (kept_objects desired p =? 0)%nat then acquireObjects e (kept_objects desired p) else mret ())) as Hk
    by (case_match; auto using acquireObjects_keeps, keeps_ret).
  wp_call (Hk p Hp) as ? p1 E1. injection E1 as E2 E3 E4 E5 E6 E7 E8. wp_steps. apply resize_done. split; cbn; [|lia|lia|lia|done].
  pose proof (s_block _ Hp) as Hb. cbn in Hb. split; cbn; try done.
  - destruct (mData p1) as [old|]; [|done]. simpl in E7. rewrite length_store; rewrite ?length_take; lia.
  - pose proof (s_owner _ Hp Ho) as Hsz. cbn in Hsz. lia.
  - lia.
  - lia.
  - rewrite E5. pose proof (Forall_take _ (kept_objects desired p) _ (s_objects _ Hp)) as H0. cbn in H0. rewrite Forall_forall in *.
    intros off Hoff. split; [apply (H0 off Hoff)|cbn; by apply Hin].
Qed.

Lemma drop_tail_wp n p : sound p ->
  wp (drop_tail_objects e n) (fun _ p' => layout_of p' = layout_of p \/ layout_of p' =
    mkLayout (mDataSize p) (mDataCapacity p) (mDataPos p) (take n (mObjects p)) (mOwner p) (l_block (layout_of p)) (l_null (layout_of p))) p.
Proof.
  intros Hp. unfold drop_tail_objects. wp_steps. case_match; [|wp_steps; by left]. wp_steps.
  eapply wp_mono; [apply for_each_wp with (f := fun flat => (_ ← (if is_fd e flat then modify (fun p => p <| mFdsKnown := false |>) else mret tt); release_object e flat))|].
  - done.
  - intros o. apply keeps_bind; [|intros; apply keeps_release]. case_match; [by apply keeps_modify|apply keeps_ret].
  - apply Forall_drop, (s_objects _ Hp).
  - intros ? p1 E1. wp_steps. right. injection E1 as E2 E3 E4 E5 E6 E7 E8. unfold layout_of. cbn. by rewrite E2, E3, E4, E5, E6, E7, E8.
Qed.
Lemma drop_tail_layout n p p' : layout_of p' = layout_of p \/ layout_of p' =
    mkLayout (mDataSize p) (mDataCapacity p) (mDataPos p) (take n (mObjects p)) (mOwner p) (l_block (layout_of p)) (l_null (layout_of p)) ->
  sound p -> sound p' /\ mDataSize p' = mDataSize p /\ mDataCapacity p' = mDataCapacity p /\ mDataPos p' = mDataPos p /\ mOwner p' = mOwner p.
Proof.
  intros [E|E] Hp; unfold sound; rewrite E; injection E as E1 E2 E3 E4 E5 E6 E7; (split; [|done]); [done|].
  destruct Hp. split; try done. by apply Forall_take.
Qed.

Lemma resize_own_wp desired n p : sound p -> 0 <= desired <= INT32_MAX -> mOwner p = false ->
  wp (resize_own e desired n) (resize_result desired p) p.
Proof.
  intros Hp Hd Ho. unfold resize_own. wp_steps. wp_call (drop_tail_wp n p Hp) as ? p1 E1.
  destruct (drop_tail_layout n p p1 E1 Hp) as (H1 & Es & Ec & Ep & Eo). clear E1.
  pose proof (s_block _ H1) as Hb. pose proof (s_pos _ H1) as Hp1. pose proof (s_size _ H1) as Hs1. pose proof (s_capacity _ H1) as Hc1. cbn in Hb, Hp1, Hs1, Hc1.
  wp_steps. destruct (_ <? desired) eqn:E; bool_to_prop.
  - destruct (reallocZeroFree _ _ _ _ _) as [data|] eqn:Hr; [|by apply out_of_memory_wp].
    apply reallocZeroFree_sized in Hr; [|lia|done]. wp_steps. apply resize_done. split; cbn; [|lia|lia|lia|congruence].
    split; cbn; try done; try lia; [|by rewrite Eo, Ho].
    eapply Forall_impl; [exact (s_objects _ H1)|]. intros off [? Hoff]. cbn in Hoff. split; cbn; lia.
  - wp_steps. apply resize_done. split; cbn; [|lia|lia|lia|congruence].
    split; cbn; try done; try lia; [exact (s_objects _ H1)|by rewrite Eo, Ho].
Qed.

Lemma first_data_wp desired p : sound p -> 0 <= desired <= INT32_MAX -> mOwner p = false -> mData p = None ->
  wp (first_data e desired) (resize_result desired p) p.
Proof.
  intros Hp Hd Ho Hn. pose proof (s_pos _ Hp) as Hpos. pose proof (s_block _ Hp) as Hb. pose proof (s_size _ Hp) as Hs.
  cbn in Hpos, Hb, Hs. rewrite Hn in Hb. simpl in Hb.
  unfold first_data. destruct (malloc e desired) as [data|] eqn:Hm; [|by apply out_of_memory_wp].
  pose proof (malloc_sized Henv _ _ (proj1 Hd) Hm) as Hl. wp_steps. apply resize_done. split; cbn; [|lia|lia|lia|done].
  split; cbn; try done; try lia; [|by rewrite Ho]. eapply Forall_impl; [exact (s_objects _ Hp)|]. intros off [? Hoff]. cbn in Hoff. split; cbn; lia.
Qed.

Lemma continueWrite_wp desired p : sound p -> 0 <= desired -> cut_ok desired p -> wp (continueWrite e desired) (resize_result desired p) p.
Proof.
  intros Hp Hd Hcut. unfold continueWrite. destruct (_ <? desired) eqn:E; bool_to_prop; [by apply wp_ret|]. wp_steps.
  destruct (mOwner p) eqn:Ho; [by apply take_possession_wp|].
  destruct (mData p) eqn:Hdata; [by apply resize_own_wp|by apply first_data_wp].
Qed.

(** Growing by [len] bytes makes room for them at the current position. *)
Definition grown (len : Z) (err : status_t) (p : t) : Prop := sound p /\ (err = NO_ERROR -> mDataPos p + len <= mDataCapacity p).

Lemma growData_resized len p : sound p -> 0 <= len ->
  wp (growData e len) (fun err p' => grown len err p' /\ (err = NO_ERROR -> exists desired, mDataSize p + len <= desired /\ resized desired p p')) p.
Proof.
  intros Hp Hlen. pose proof (s_pos _ Hp) as Hpos. pose proof (s_size _ Hp) as Hs. cbn in Hpos, Hs.
  unfold growData. case_match; [by apply wp_ret|]. wp_steps. repeat (case_match; [by apply wp_ret|]). bool_to_prop.
  set (newSize := (_ + len) * 3 / 2) in *. assert (mDataSize p + len <= newSize /\ mDataSize p + len + 3 <= Z.max newSize 128) as Hnew
    by (unfold newSize; Z.to_euclidean_division_equations; lia).
  wp_call (continueWrite_wp (Z.max newSize 128) p Hp ltac:(lia) (cut_ok_growth (Z.max newSize 128) p Hp ltac:(lia))) as err p' [H' Hr].
  split; [split; [done|]|]; intros Herr; destruct (Hr Herr); [lia|]. eexists. split; [|by apply Hr]. lia.
Qed.

Lemma growData_wp len p : sound p -> 0 <= len -> wp (growData e len) (grown len) p.
Proof. intros Hp Hlen. wp_call (growData_resized len p Hp Hlen) as err p' [H _]. exact H. Qed.

(** the test for room in front of the writing operations *)
Lemma reserve_wp len p {A} (k : M A) failed Q : sound p -> 0 <= len <= INT32_MAX + 3 ->
  (forall p', sound p' -> mDataPos p' + len <= mDataCapacity p' -> wp k Q p') -> (forall err p', sound p' -> wp (failed err) Q p') ->
  wp (if uint64 (mDataPos p + len) <=? mDataCapacity p then k else err ← growData e len; if err =? NO_ERROR then k else failed err) Q p.
Proof.
  intros Hp Hlen Hk Hf. pose proof (s_pos _ Hp) as Hpos. pose proof (s_size _ Hp) as Hs. pose proof (s_capacity _ Hp) as Hc. cbn in Hpos, Hs, Hc.
  rewrite uint64_id by (unfold INT32_MAX in *; lia). destruct (_ <=? _) eqn:E; bool_to_prop; [by apply Hk|]. wp_steps.
  wp_call (growData_wp len p Hp ltac:(lia)) as err p' [H' Hroom]. destruct (err =? NO_ERROR) eqn:E2; bool_to_prop; auto.
Qed.

(** ** Writing *)

Lemma write_mem_wp pos bytes p : sound p -> 0 <= pos -> pos + Z.of_nat (length bytes) <= mDataCapacity p ->
  wp (write_mem pos bytes) (fun _ p' => layout_of p' = layout_of p) p.
Proof.
  intros Hp Hpos Hend. pose proof (s_block _ Hp) as Hb. cbn in Hb. unfold write_mem. wp_steps. cbv zeta.
  rewrite Hb, (proj2 (Z.leb_le 0 pos)), (proj2 (Z.leb_le (pos + _) _)) by lia. apply wp_modify. unfold layout_of. cbn. f_equal.
  - destruct (mData p); [|done]. simpl in *. rewrite length_store; lia.
  - by destruct (mData p).
Qed.

Lemma finishWrite_wp len p : sound p -> 0 <= len -> mDataPos p + len <= mDataCapacity p ->
  wp (finishWrite len) (fun _ p' => sound p' /\ mDataCapacity p' = mDataCapacity p) p.
Proof.
  intros Hp Hlen Hend. pose proof (s_pos _ Hp) as Hpos. pose proof (s_size _ Hp) as Hs. pose proof (s_capacity _ Hp) as Hc. cbn in Hpos, Hs, Hc.
  unfold finishWrite. case_match; [by apply wp_ret|]. wp_steps. split; [|done]. rewrite uint64_id by (unfold INT32_MAX in *; lia).
  destruct Hp as [? ? ? ? ? Ho]. split; cbn in *; try done; try lia. intros Hown. specialize (Ho Hown). lia.
Qed.

(** writes bytes at the position and moves on *)
Lemma append_wp bytes len p : sound p -> len = Z.of_nat (length bytes) -> mDataPos p + len <= mDataCapacity p ->
  wp (pos ← gets mDataPos; _ ← write_mem pos bytes; finishWrite len) (fun _ => sound) p.
Proof.
  intros Hp -> Hend. pose proof (s_pos _ Hp) as Hpos. cbn in Hpos. wp_steps. wp_call (write_mem_wp (mDataPos p) bytes p Hp ltac:(lia) Hend) as ? p1 E1.
  pose proof (sound_ext _ _ E1 Hp) as H1. injection E1 as E2 E3 E4 E5 E6 E7 E8. eapply wp_mono; [apply finishWrite_wp; [done|lia|lia]|by intros ? ? []].
Qed.

Lemma writeAligned_safe n val : (n <= 8)%nat -> safe (writeAligned e n val).
Proof.
  intros Hn p Hp. unfold writeAligned. wp_step. wp_step. apply reserve_wp; [done|unfold INT32_MAX; lia| |].
  - intros p' Hp' Hroom. apply append_wp; [done|by rewrite length_le_bytes|done].
  - intros err p' Hp'. by apply wp_ret.
Qed.

Lemma writeUnpadded_safe data : safe (writeUnpadded e data).
Proof.
  intros p Hp. unfold writeUnpadded. case_match; [by apply wp_ret|]. bool_to_prop. wp_step. wp_step. cbv zeta. case_match; [by apply wp_ret|].
  apply (reserve_wp _ _ _ mret); [done|lia| |].
  - intros p' Hp' Hroom. by apply append_wp.
  - intros err p' Hp'. by apply wp_ret.
Qed.
Lemma safe_writeInt32 val : safe (writeInt32 e val).
Proof. apply writeAligned_safe. lia. Qed.

(** a block that has been reserved *)
Definition reserved (len : Z) (r : option Z) (p : t) : Prop :=
  sound p /\ match r with Some pos => 0 <= pos /\ pos + len <= mDataCapacity p | None => True end.

(** the last word of the block is masked *)
Lemma mask_wp len padded data p : sound p -> padded = PAD_SIZE_UNSAFE len -> 0 <= len -> 0 <= data -> data + padded <= mDataCapacity p ->
  wp (if negb (padded =? len) then
        word ← read_mem (data + padded - 4) 4;
        write_mem (data + padded - 4) (le_bytes 4 (Z.land (le_value word) (pad_mask (padded - len))))
      else mret tt) (fun _ p' => layout_of p' = layout_of p) p.
Proof.
  intros Hp Hpad Hlen Hdata Hroom. destruct (padded =? len) eqn:E; bool_to_prop; [by apply wp_ret|]. pose proof (pad_spec len Hlen) as [H1 H2].
  rewrite <- Hpad in H1, H2. assert (4 <= padded) by (Z.to_euclidean_division_equations; lia). cbn [negb]. wp_steps.
  wp_call (read_mem_wp (data + padded - 4) 4 p) as word p1 [-> _]; try lia; [done|]. apply write_mem_wp; [done|lia|]. rewrite length_le_bytes. lia.
Qed.

Lemma writeInplace_wp len p : sound p -> 0 <= len -> wp (writeInplace e len) (reserved len) p.
Proof.
  intros Hp Hlen. unfold writeInplace. case_match; [by apply wp_ret|]. bool_to_prop. pose proof (pad_spec len Hlen) as [Hpad _].
  wp_step. exists (PAD_SIZE_UNSAFE len), p. split; [apply pad_size_ret; lia|]. set (padded := PAD_SIZE_UNSAFE len) in *. wp_step. wp_step.
  case_match; [by apply wp_ret|]. apply (reserve_wp _ _ _ (fun _ => mret None)); [done|lia| |].
  - intros p' Hp' Hroom. wp_steps. pose proof (s_pos _ Hp') as Hpos'. cbn in Hpos'.
    wp_call (mask_wp len padded (mDataPos p') p' Hp' eq_refl Hlen ltac:(lia) Hroom) as ? p1 E1.
    pose proof (sound_ext _ _ E1 Hp') as H1. injection E1 as E2 E3 E4 E5 E6 E7 E8. wp_step. eapply wp_mono; [apply finishWrite_wp; [done|lia|lia]|].
    intros ? p2 [H2 Hc]. wp_steps. split; [done|lia].
  - intros err p' Hp'. by apply wp_ret.
Qed.

Lemma fill_wp pos bytes len r p : reserved len r p -> r = Some pos -> Z.of_nat (length bytes) <= len ->
  wp (write_mem pos bytes) (fun _ p' => sound p' /\ mDataCapacity p' = mDataCapacity p) p.
Proof.
  intros [Hp Hr] -> Hl. eapply wp_mono; [apply write_mem_wp; [done|lia|lia]|]. intros ? p' E. split; [by apply (sound_ext p)|].
  by injection E.
Qed.

Lemma write_safe data : safe (write e data).
Proof.
  intros p Hp. unfold write. case_match; [by apply wp_ret|]. wp_step. wp_call (writeInplace_wp (Z.of_nat (length data)) p Hp ltac:(lia)) as r p1 H1.
  destruct r as [pos|]; [|apply safe_gets, H1]. wp_steps. wp_call (fill_wp pos data _ _ p1 H1 eq_refl ltac:(lia)) as ? p2 [H2 _]. by apply wp_ret.
Qed.

Lemma write_string_safe n str : (n <= 8)%nat -> safe (write_string e n str).
Proof.
  intros Hn. destruct str as [chars|]; [|apply safe_writeInt32]. intros p Hp. unfold write_string. wp_step. wp_call (safe_writeInt32 _ p Hp) as err p1 H1.
  case_match; [|by apply wp_ret]. cbv zeta. wp_step. set (len := Z.of_nat n * Z.of_nat (length chars)).
  wp_call (writeInplace_wp (len + Z.of_nat n) p1 H1 ltac:(lia)) as r p2 H2. destruct r as [pos|]; [|apply safe_gets, H2]. wp_steps.
  wp_call (fill_wp pos (concat (map (le_bytes n) chars)) _ _ p2 H2 eq_refl ltac:(rewrite length_concat_bytes; lia)) as ? p3 [H3 Hc3].
  destruct H2 as [_ H2]. wp_step. eapply wp_mono; [apply write_mem_wp; [done|lia|rewrite length_le_bytes; lia]|]. intros ? p4 E4. wp_steps.
  by apply (sound_ext p3).
Qed.

Lemma write_array_safe n len val : safe (write_array e n len val).
Proof.
  unfold write_array. case_match; [apply safe_ret|]. destruct val as [l|]; [|apply safe_writeInt32].
  apply safe_bind; [apply safe_writeInt32|]. intros ret. case_match; auto using write_safe, safe_ret.
Qed.

(** *** Objects *)

Lemma push_object_wp val p : sound p -> mDataPos p + sizeof_flat e <= mDataCapacity p ->
  wp (_ ← acquire_object e val; modify (fun p => p <| mObjects := mObjects p ++ [mDataPos p] |>))
     (fun _ p' => sound p' /\ mDataPos p' = mDataPos p /\ mDataCapacity p' = mDataCapacity p) p.
Proof.
  intros Hp Hroom. wp_steps. wp_call (keeps_acquire val p Hp) as ? p1 E1. wp_steps. cbn. pose proof (sound_ext _ _ E1 Hp) as H1.
  injection E1 as E2 E3 E4 E5 E6 E7 E8. split; [|done]. destruct H1 as [? Hpos ? ? Hobj ?]. split; cbn in *; try done. apply Forall_app. split; [exact Hobj|].
  constructor; [|done]. split; cbn; lia.
Qed.

(** the object becomes known, and part of the data *)
Lemma enter_object_wp val nullMetaData p : sound p -> mDataPos p + sizeof_flat e <= mDataCapacity p ->
  wp (_ ← (if nullMetaData || negb (binder val =? 0) then
             _ ← acquire_object e val; modify (fun p => p <| mObjects := mObjects p ++ [mDataPos p] |>)
           else mret tt);
      finishWrite (sizeof_flat e)) (fun _ => sound) p.
Proof.
  intros Hp Hroom. destruct (flat_small Henv) as [Hs _]. wp_step.
  assert (forall p', sound p' -> mDataPos p' + sizeof_flat e <= mDataCapacity p' -> wp (finishWrite (sizeof_flat e)) (fun _ => sound) p') as Hf
    by (intros p' Hp' Hr'; eapply wp_mono; [apply finishWrite_wp; [done|lia|done]|by intros ? ? []]).
  case_match; [|wp_step; by apply Hf]. eapply wp_mono; [by apply push_object_wp|]. intros ? p' (H' & Ep & Ec). apply Hf; [done|lia].
Qed.

Lemma place_object_wp val nullMetaData p : sound p -> mDataPos p + sizeof_flat e <= mDataCapacity p ->
  wp (pos ← gets mDataPos;
      _ ← write_mem pos (flat_bytes e val);
      allow ← gets mAllowFds;
      if is_fd e val && negb allow then mret FDS_NOT_ALLOWED
      else
        _ ← (if is_fd e val then modify (fun p => p <| mHasFds := true |> <| mFdsKnown := true |>) else mret tt);
        _ ← (if nullMetaData || negb (binder val =? 0) then
               _ ← acquire_object e val; modify (fun p => p <| mObjects := mObjects p ++ [mDataPos p] |>)
             else mret tt);
        finishWrite (sizeof_flat e)) (fun _ => sound) p.
Proof.
  intros Hp Hroom. wp_steps. pose proof (s_pos _ Hp) as Hpos. cbn in Hpos.
  wp_call (write_mem_wp (mDataPos p) (flat_bytes e val) p Hp ltac:(lia) ltac:(rewrite (flat_sized Henv); lia)) as ? p1 E1.
  pose proof (sound_ext _ _ E1 Hp) as H1. injection E1 as E2 E3 E4 E5 E6 E7 E8. wp_steps. case_match; [by apply wp_ret|]. wp_step.
  case_match; wp_step; apply enter_object_wp; try done; cbn; lia.
Qed.

Lemma writeObject_safe val nullMetaData : safe (writeObject e val nullMetaData).
Proof.
  intros p Hp. unfold writeObject. cbv zeta. wp_step. wp_step. wp_step. destruct (flat_small Henv) as [Hs1 Hs2].
  apply (wp_mono _ (grown (sizeof_flat e))).
  - pose proof (s_pos _ Hp) as Hpos. pose proof (s_size _ Hp) as Hs. pose proof (s_capacity _ Hp) as Hc. cbn in Hpos, Hs, Hc.
    rewrite uint64_id by (unfold INT32_MAX in *; lia). destruct (_ <=? _) eqn:E; bool_to_prop; cbn [negb]; [by apply wp_ret|].
    apply growData_wp; [done|lia].
  - intros err p1 [H1 Hroom]. destruct (err =? NO_ERROR) eqn:E; bool_to_prop; cbn [negb]; [|by apply wp_ret]. specialize (Hroom E).
    case_match; [|by apply place_object_wp]. wp_step. wp_step. repeat (case_match; [by apply wp_ret|]). wp_step. wp_step. by apply place_object_wp.
Qed.

Lemma writeFileDescriptor_safe flags fd takeOwnership : safe (writeFileDescriptor e flags fd takeOwnership).
Proof. apply safe_bind; [apply safe_gets|]. intros rpc. case_match; auto using safe_ret, writeObject_safe. Qed.

Lemma close_after_safe (m : M status_t) fd : safe m ->
  safe (err ← m; _ ← (if negb (err =? OK) then emit (closed_fd fd) else mret tt); mret err).
Proof.
  intros Hm. apply safe_bind; [done|]. intros err. apply safe_bind; [|intros; apply safe_ret]. case_match; auto using safe_ret, keeps_safe, keeps_emit.
Qed.

Lemma writeDupFileDescriptor_safe flags fd error : safe (writeDupFileDescriptor e flags fd error).
Proof. unfold writeDupFileDescriptor. cbv zeta. case_match; [apply safe_ret|]. apply close_after_safe, writeFileDescriptor_safe. Qed.

Lemma writeDupParcelFileDescriptor_safe flags fd error : safe (writeDupParcelFileDescriptor e flags fd error).
Proof.
  unfold writeDupParcelFileDescriptor. cbv zeta. case_match; [apply safe_ret|]. apply close_after_safe.
  apply safe_bind; [apply safe_writeInt32|]. intros _. apply writeFileDescriptor_safe.
Qed.

Lemma writeNativeHandle_safe flags error handle : safe (writeNativeHandle e flags error handle).
Proof.
  destruct handle as [[fds ints]|]; [|apply safe_ret]. unfold writeNativeHandle.
  do 2 (apply safe_bind; [apply safe_writeInt32|intros ?]; case_match; [apply safe_ret|]).
  apply safe_bind; [|intros ?; case_match; auto using safe_ret, write_safe].
  induction fds as [|fd fds IH]; [apply safe_ret|]. apply safe_bind; [apply writeDupFileDescriptor_safe|]. intros ?. case_match; [done|apply safe_ret].
Qed.

End Safety.

(** * Reading does not leave the data

    The operations that read keep the invariant [sound]. *)
Import Parcel ParcelData.

(** ** The sort of the objects *)

Lemma insert_sorted_perm x l : insert_sorted x l ≡ₚ x :: l.
Proof. induction l as [|y l IH]; simpl; [done|]. case_match; [|done]. rewrite IH. constructor. Qed.

Lemma insertion_sort_perm l : insertion_sort l ≡ₚ l.
Proof.
  unfold insertion_sort. enough (forall acc, foldl (fun sorted temp => insert_sorted temp sorted) acc l ≡ₚ acc ++ l) as H.
  { etransitivity; [symmetry; apply Permutation_rev|apply (H [])]. }
  induction l as [|x l IH]; intros acc; simpl; [by rewrite app_nil_r|]. rewrite IH, insert_sorted_perm. by rewrite <- Permutation_middle.
Qed.

Section Reading.

Context (e : env).
Hypothesis Henv : env_ok e.

Notation sound := (sound e).
Notation safe := (safe e).

(** the same layout, with the objects in another order *)
Definition reordered (p p' : t) : Prop :=
  mObjects p' ≡ₚ mObjects p /\ mData p' = mData p /\ mDataSize p' = mDataSize p /\ mDataCapacity p' = mDataCapacity p /\
  mDataPos p' = mDataPos p /\ mOwner p' = mOwner p.

Lemma reordered_sound p p' : reordered p p' -> sound p -> sound p'.
Proof.
  intros (Ho & Ed & Es & Ec & Ep & Eo) [H1 H2 H3 H4 H5 H6]. split; cbn in *; rewrite ?Ed, ?Es, ?Ec, ?Ep, ?Eo; try done.
  rewrite Ho. eapply Forall_impl; [exact H5|]. intros off [? Hoff]. split; [done|]. cbn in *. by rewrite Ec.
Qed.

Lemma validateReadData_wp upper p : wp (validateReadData e upper) (fun _ p' => reordered p p') p.
Proof.
  unfold validateReadData. wp_step. wp_step. wp_step. apply (wp_mono _ (fun _ p' => reordered p p')).
  - repeat case_match; wp_step; repeat split; cbn; auto using insertion_sort_perm.
  - intros ? p1 H1. wp_step. wp_step. case_match; wp_steps; exact H1.
Qed.

(** moves on within the data *)
Lemma advance_wp len p : sound p -> 0 <= len -> mDataPos p + len <= mDataSize p ->
  wp (advance e len) (fun _ p' => sound p' /\ mDataPos p' = mDataPos p + len /\ mDataSize p' = mDataSize p) p.
Proof.
  intros Hp Hlen Hend. unfold advance. wp_step. wp_step. wp_step. apply (wp_mono _ (fun _ p' => reordered p p')).
  - case_match; [apply validateReadData_wp|by wp_step].
  - intros err p1 H1. pose proof (reordered_sound _ _ H1 Hp) as Hp1. destruct H1 as (_ & _ & Es & Ec & Ep & _). wp_steps. cbn. split; [|lia].
    destruct Hp1 as [? Hpos ? ? ? ?]. split; cbn in *; try done. lia.
Qed.

Lemma readAligned_safe n : (n <= 8)%nat -> safe (readAligned e n).
Proof.
  intros Hn p Hp. pose proof (s_pos _ _ Hp) as Hpos. pose proof (s_size _ _ Hp) as Hs. pose proof (s_capacity _ _ Hp) as Hc. cbn in Hpos, Hs, Hc.
  unfold readAligned. cbv zeta. wp_step. wp_step. rewrite uint64_id by (unfold INT32_MAX in *; lia). destruct (_ <=? _) eqn:E; bool_to_prop; [|by apply wp_ret].
  wp_step. wp_call (advance_wp (Z.of_nat n) p Hp ltac:(lia) E) as err p1 (H1 & Ep & Es). case_match; [by apply wp_ret|]. wp_step.
  pose proof (s_size _ _ H1) as Hs1. cbn in Hs1. wp_call (read_mem_wp e (mDataPos p) (Z.of_nat n) p1 H1 ltac:(lia) ltac:(lia) ltac:(lia)) as bytes p2 [-> _].
  by apply wp_ret.
Qed.

Lemma readInt32_safe : safe (readInt32 e).
Proof. apply safe_bind; [apply readAligned_safe; lia|intros; apply safe_ret]. Qed.

Lemma readInt32_or_0_safe : safe (readInt32_or_0 e).
Proof. apply safe_bind; [apply safe_bind; [apply readAligned_safe; lia|]|]; intros; apply safe_ret. Qed.

(** a block inside the data *)
Definition located (len : Z) (r : option Z) (p : t) : Prop :=
  sound p /\ match r with Some pos => 0 <= pos /\ pos + len <= mDataSize p | None => True end.

Lemma enough_data_spec p len padded : sound p -> 0 <= len -> 0 <= padded <= INT32_MAX + 3 -> enough_data p len padded = true ->
  mDataPos p + padded <= mDataSize p /\ len <= padded.
Proof.
  intros Hp Hlen Hpad H. pose proof (s_pos _ _ Hp) as Hpos. pose proof (s_size _ _ Hp) as Hs. pose proof (s_capacity _ _ Hp) as Hc. cbn in Hpos, Hs, Hc.
  unfold enough_data in H. rewrite !uint64_id in H by (unfold INT32_MAX in *; lia). bool_to_prop. lia.
Qed.

Lemma readInplace_wp len p : sound p -> 0 <= len -> wp (readInplace e len) (located len) p.
Proof.
  intros Hp Hlen. unfold readInplace. case_match; [by apply wp_ret|]. bool_to_prop. pose proof (pad_spec len Hlen) as [Hpad _].
  wp_step. exists (PAD_SIZE_UNSAFE len), p. split; [apply pad_size_ret; lia|]. wp_step. wp_step. pose proof (s_pos _ _ Hp) as Hpos. cbn in Hpos.
  destruct (enough_data _ _ _) eqn:E; [|by apply wp_ret]. apply enough_data_spec in E as [E _]; [|done|lia|lia]. wp_step.
  wp_call (advance_wp (PAD_SIZE_UNSAFE len) p Hp ltac:(lia) E) as err p1 (H1 & Ep & Es). wp_step. split; [done|]. destruct (negb _); [done|lia].
Qed.

Lemma located_wp pos off n len r p : located len r p -> r = Some pos -> 0 <= off -> 0 <= n -> off + n <= len ->
  wp (read_mem (pos + off) n) (fun _ p' => p' = p) p.
Proof.
  intros [Hp Hr] -> Ho Hn Hl. pose proof (s_size _ _ Hp) as Hs. cbn in Hs.
  wp_call (read_mem_wp e (pos + off) n p Hp ltac:(lia) Hn ltac:(lia)) as bytes p' [-> _]. done.
Qed.

Lemma read_safe len : 0 <= len -> safe (read e len).
Proof.
  intros Hlen p Hp. unfold read. case_match; [by apply wp_ret|]. bool_to_prop. pose proof (pad_spec len Hlen) as [Hpad _].
  wp_step. exists (PAD_SIZE_UNSAFE len), p. split; [apply pad_size_ret; lia|]. wp_step. wp_step.
  destruct (enough_data _ _ _) eqn:E; [|by apply wp_ret]. apply enough_data_spec in E as [E _]; [|done|lia|lia]. wp_step.
  pose proof (s_pos _ _ Hp) as Hpos. pose proof (s_size _ _ Hp) as Hs. cbn in Hpos, Hs.
  wp_call (advance_wp (PAD_SIZE_UNSAFE len) p Hp ltac:(lia) E) as err p1 (H1 & Ep & Es). case_match; [by apply wp_ret|]. wp_step.
  pose proof (s_size _ _ H1) as Hs1. cbn in Hs1. wp_call (read_mem_wp e (mDataPos p) len p1 H1 ltac:(lia) ltac:(lia) ltac:(lia)) as bytes p2 [-> _].
  by apply wp_ret.
Qed.

Lemma memchr0_bound l n : memchr0 l = Some n -> (n < length l)%nat.
Proof.
  revert n. induction l as [|b l IH]; intros n; simpl; [done|]. case_match; [intros [= <-]; lia|]. destruct (memchr0 l) as [k|]; [|done].
  intros [= <-]. specialize (IH k eq_refl). lia.
Qed.

Lemma readCString_safe : safe readCString.
Proof.
  intros p Hp. pose proof (s_pos _ _ Hp) as Hpos. pose proof (s_size _ _ Hp) as Hs. pose proof (s_capacity _ _ Hp) as Hc. cbn in Hpos, Hs, Hc.
  unfold readCString. wp_step. wp_step. destruct (_ <? _) eqn:E; bool_to_prop; [|by apply wp_ret]. wp_step.
  wp_call (read_mem_wp e (mDataPos p) (mDataSize p - mDataPos p) p Hp ltac:(lia) ltac:(lia) ltac:(lia)) as str p1 [-> Hl].
  destruct (memchr0 str) as [n|] eqn:En; [|by apply wp_ret]. apply memchr0_bound in En. wp_step. exists (PAD_SIZE_UNSAFE (Z.of_nat n + 1)), p.
  split; [apply pad_size_ret; lia|]. pose proof (pad_spec (Z.of_nat n + 1) ltac:(lia)) as [Hpad _]. wp_steps. destruct Hp. split; cbn in *; try done. lia.
Qed.

Lemma read_string_inplace_safe n : (n <= 8)%nat -> safe (read_string_inplace e n).
Proof.
  intros Hn p Hp. unfold read_string_inplace. wp_step. wp_call (readInt32_or_0_safe p Hp) as size p1 H1. case_match; [|by apply wp_ret]. bool_to_prop.
  wp_step. wp_call (readInplace_wp ((size + 1) * Z.of_nat n) p1 H1 ltac:(lia)) as r p2 H2. destruct r as [pos|]; [|apply wp_ret, H2].
  wp_step. wp_call (located_wp pos (size * Z.of_nat n) (Z.of_nat n) _ _ p2 H2 eq_refl ltac:(lia) ltac:(lia) ltac:(lia)) as t p3 ->.
  case_match; [|apply wp_ret, H2]. wp_step. rewrite <- (Z.add_0_r pos).
  wp_call (located_wp pos 0 (size * Z.of_nat n) _ _ p2 H2 eq_refl ltac:(lia) ltac:(lia) ltac:(lia)) as bytes p4 ->. apply wp_ret, H2.
Qed.

Lemma readOutVectorSizeWithCheck_safe elmSize : elmSize <= INT32_MAX -> safe (readOutVectorSizeWithCheck e elmSize).
Proof.
  intros He. apply safe_bind; [apply readInt32_safe|]. intros [st [size|]]; [|apply safe_ret].
  rewrite (proj2 (Z.ltb_ge _ elmSize)) by done. repeat case_match; apply safe_ret.
Qed.

Lemma readObject_safe nullMetaData : safe (readObject e nullMetaData).
Proof.
  intros p Hp. pose proof (s_pos _ _ Hp) as Hpos. pose proof (s_size _ _ Hp) as Hs. pose proof (s_capacity _ _ Hp) as Hc. cbn in Hpos, Hs, Hc.
  destruct (flat_small _ Henv). unfold readObject. cbv zeta. wp_step. wp_step. rewrite uint64_id by (unfold INT32_MAX in *; lia).
  destruct (_ <=? _) eqn:E; bool_to_prop; [|by apply wp_ret]. wp_step.
  wp_call (flat_at_wp e Henv (mDataPos p) p Hp) as o p1 ->; [split; cbn; lia|]. wp_step. wp_step.
  assert (sound (p <| mDataPos := mDataPos p + sizeof_flat e |>)) as H1 by (destruct Hp; split; cbn in *; try done; lia).
  case_match; [by apply wp_ret|]. case_match; [wp_steps; exact H1|by apply wp_ret].
Qed.

Lemma readFileDescriptor_safe : safe (readFileDescriptor e).
Proof. apply safe_bind; [apply readObject_safe|]. intros [o|]; [case_match|]; apply safe_ret. Qed.

Lemma readUniqueFileDescriptor_safe : safe (readUniqueFileDescriptor e).
Proof. apply safe_bind; [apply readFileDescriptor_safe|]. intros got. cbv zeta. repeat case_match; apply safe_ret. Qed.

Lemma close_all_safe fds : safe (for_each (fun fd => emit (closed_fd fd)) fds).
Proof. induction fds as [|fd fds IH]; [apply safe_ret|]. apply safe_bind; [apply keeps_safe, keeps_emit|done]. Qed.

Lemma read_handle_fds_safe n acc : safe (read_handle_fds e n acc).
Proof.
  revert acc. induction n as [|n IH]; intros acc; [apply safe_ret|]. apply safe_bind; [apply readFileDescriptor_safe|]. intros got. cbv zeta.
  case_match; [|done]. apply safe_bind; [apply close_all_safe|intros; apply safe_ret].
Qed.

Lemma readNativeHandle_safe create : safe (readNativeHandle e create).
Proof.
  apply safe_bind; [apply readInt32_safe|]. intros [[] [numFds|]]; try apply safe_ret.
  apply safe_bind; [apply readInt32_safe|]. intros [[] [numInts|]]; try apply safe_ret. case_match; [apply safe_ret|].
  apply safe_bind; [apply read_handle_fds_safe|]. intros [fds|]; [|apply safe_ret].
  apply safe_bind; [apply read_safe, uint64_range|]. intros r. case_match; [apply safe_ret|].
  apply safe_bind; [apply close_all_safe|intros; apply safe_ret].
Qed.

End Reading.
