(* ===== verification/ParcelObjects.v ===== *)
(** * Reading around the objects

    A read that would return bytes of an object (a binder or a file descriptor) is
    refused. [validateReadData] only looks at the objects from a hint on; [hint_ok] says
    why that is enough. *)

From S2P Require Import Prelude Parcel ParcelLemmas ParcelSafety.
Import Parcel.

(** ** The order of the objects *)

Lemma StronglySorted_rev (l : list Z) : StronglySorted Z.ge l -> StronglySorted Z.le (rev l).
Proof.
  induction 1 as [|x l Hs IH Hx]; simpl; [constructor|]. apply StronglySorted_app_2; [|done|repeat constructor].
  intros y z Hy Hz. apply list_elem_of_singleton in Hz as ->. rewrite Forall_forall in Hx.
  apply list_elem_of_In, in_rev, list_elem_of_In in Hy. specialize (Hx y Hy). lia.
Qed.

Lemma insert_sorted_ge x l : StronglySorted Z.ge l -> StronglySorted Z.ge (insert_sorted x l).
Proof.
  induction 1 as [|y l Hs IH Hy]; simpl; [repeat constructor|]. destruct (x <? y) eqn:E; bool_to_prop.
  - constructor; [done|]. rewrite insert_sorted_perm. constructor; [lia|done].
  - constructor; [by constructor|]. constructor; [lia|]. eapply Forall_impl; [exact Hy|]. simpl. lia.
Qed.

Lemma insertion_sort_sorted l : StronglySorted Z.le (insertion_sort l).
Proof.
  apply StronglySorted_rev. enough (forall acc, StronglySorted Z.ge acc -> StronglySorted Z.ge (foldl (fun sorted temp => insert_sorted temp sorted) acc l))
    by (apply H; constructor).
  induction l as [|x l IH]; intros acc Hacc; simpl; [done|]. by apply IH, insert_sorted_ge.
Qed.

Lemma descending_sorted l : descending (rev l) = true -> StronglySorted Z.le l.
Proof.
  intros H. rewrite <- (rev_involutive l). apply StronglySorted_rev, Sorted_StronglySorted; [intros x y z; lia|].
  induction (rev l) as [|x [|y l'] IH]; [constructor|repeat constructor|]. cbn [descending] in H.
  destruct (x <? y) eqn:E; bool_to_prop; [done|]. constructor; [by apply IH|constructor; lia].
Qed.

Lemma short_sorted (l : list Z) : (length l <= 1)%nat -> StronglySorted Z.le l.
Proof. destruct l as [|x [|]]; simpl; intros; [constructor|repeat constructor|lia]. Qed.

Section Objects.

Context (e : env).

(** the bytes from [lo] to [hi] touch the object at [off] *)
Definition touches (lo hi off : Z) : Prop := off < hi /\ lo < off + sizeof_flat e.

Lemma check_objects_spec pos upper l n : StronglySorted Z.le l ->
  match check_objects e pos upper l n with
  | None => Exists (touches pos upper) l
  | Some hint => Forall (fun off => ~ touches pos upper off) l /\ n <= hint /\
                 Forall (fun off => off + sizeof_flat e <= pos) (take (Z.to_nat (hint - n)) l)
  end.
Proof.
  intros Hs. revert n. induction Hs as [|off l Hs IH Hoff]; intros n; cbn [check_objects].
  { split; [constructor|]. split; [lia|]. rewrite take_nil. constructor. }
  destruct (off <? upper) eqn:E1; bool_to_prop.
  - destruct (pos <? _) eqn:E2; bool_to_prop; [apply Exists_cons_hd; split; lia|]. specialize (IH (n + 1)).
    destruct (check_objects _ _ _ _ _) as [hint|]; [|by apply Exists_cons_tl]. destruct IH as (H1 & H2 & H3). split; [|split; [lia|]].
    + constructor; [|done]. intros [? ?]. lia.
    + replace (Z.to_nat (hint - n)) with (S (Z.to_nat (hint - (n + 1)))) by lia. by constructor.
  - split; [|split; [lia|rewrite Z.sub_diag; constructor]]. constructor; [intros [? ?]; lia|].
    eapply Forall_impl; [exact Hoff|]. simpl. intros o Ho [? ?]. lia.
Qed.

(** The hint is right when the objects before it end before the position. *)
Record hint_ok (p : t) : Prop := {
  h_nonneg : 0 <= mNextObjectHint p;
  h_sorted : mObjectsSorted p = true -> StronglySorted Z.le (mObjects p);
  h_before : StronglySorted Z.le (mObjects p) -> Forall (fun off => off + sizeof_flat e <= mDataPos p) (take (Z.to_nat (mNextObjectHint p)) (mObjects p)) }.

(** [setDataPosition] forgets the hint *)
Lemma hint_ok_reset pos p p' : setDataPosition pos p = Some (tt, p') -> hint_ok p'.
Proof. unfold setDataPosition. case_match; [done|]. intros [= <-]. by split. Qed.

Lemma hint_ok_later p p' : mNextObjectHint p' = mNextObjectHint p -> mObjectsSorted p' = mObjectsSorted p -> mObjects p' = mObjects p ->
  mDataPos p <= mDataPos p' -> hint_ok p -> hint_ok p'.
Proof.
  intros E1 E2 E3 Hpos [H1 H2 H3]. split; rewrite ?E1, ?E2, ?E3; try done. intros Hs. eapply Forall_impl; [exact (H3 Hs)|]. simpl. lia.
Qed.

(** the sort *)
Lemma order_objects_wp p : hint_ok p ->
  wp (if mObjectsSorted p || (mObjectsSize p <=? 1) then mret tt
      else if descending (rev (mObjects p)) then modify (fun p => p <| mObjectsSorted := true |>)
      else modify (fun p => p <| mObjects := insertion_sort (mObjects p) |> <| mNextObjectHint := 0 |> <| mObjectsSorted := true |>))
     (fun _ p' => reordered p p' /\ hint_ok p' /\ StronglySorted Z.le (mObjects p')) p.
Proof.
  intros Hh. assert (reordered p p) as Hr by (by repeat split).
  destruct (mObjectsSorted p) eqn:Es; [|destruct (_ <=? 1) eqn:El; [|destruct (descending _) eqn:Ed]]; bool_to_prop; cbn [orb]; wp_steps.
  - split; [done|]. split; [done|]. by apply (h_sorted _ Hh).
  - split; [done|]. split; [done|]. apply short_sorted. unfold mObjectsSize in El. lia.
  - apply descending_sorted in Ed. split; [exact Hr|]. split; [|done]. destruct Hh. by split.
  - pose proof (insertion_sort_sorted (mObjects p)) as Hs. split; [|split; [|done]]; [|by split].
    split; [apply insertion_sort_perm|exact (proj2 Hr)].
Qed.

(** The reads are refused exactly when they touch an object. *)
Lemma validate_spec upper p : hint_ok p -> mDataPos p <= upper ->
  wp (validateReadData e upper) (fun err p' => reordered p p' /\ hint_ok p' /\
    (err = NO_ERROR /\ Forall (fun off => ~ touches (mDataPos p) upper off) (mObjects p) \/
     err = PERMISSION_DENIED /\ Exists (touches (mDataPos p) upper) (mObjects p))) p.
Proof.
  intros Hh Hup. unfold validateReadData. wp_step. wp_step. wp_step. eapply wp_mono; [by apply order_objects_wp|]. intros [] p1 (Hr & Hh1 & Hs).
  wp_step. wp_step. pose proof Hr as (Hperm & _ & _ & _ & Epos & _). pose proof (h_before _ Hh1 Hs) as Hbefore. set (n := Z.to_nat (mNextObjectHint p1)) in *.
  assert (StronglySorted Z.le (drop n (mObjects p1))) as Hs' by (rewrite <- (take_drop n (mObjects p1)) in Hs; by apply StronglySorted_app_1_r in Hs).
  pose proof (check_objects_spec (mDataPos p1) upper _ (mNextObjectHint p1) Hs') as Hc. destruct (check_objects _ _ _ _ _) as [hint|]; wp_steps.
  - destruct Hc as (Hfree & Hle & Hskip). pose proof (h_nonneg _ Hh1). split; [exact Hr|]. split; [split; cbn; [lia|apply Hh1|]|].
    + intros _. rewrite <- (take_drop n (mObjects p1)). replace (Z.to_nat hint) with (n + Z.to_nat (hint - mNextObjectHint p1))%nat by lia.
      rewrite firstn_app, length_take. apply Forall_app. split; [by apply Forall_take|].
      destruct (decide (n <= length (mObjects p1))%nat); [|rewrite drop_ge by lia; rewrite take_nil; constructor].
      rewrite Nat.min_l by done. by replace (n + Z.to_nat (hint - mNextObjectHint p1) - n)%nat with (Z.to_nat (hint - mNextObjectHint p1)) by lia.
    + left. split; [done|]. rewrite <- Hperm, <- (take_drop n (mObjects p1)), <- Epos. apply Forall_app. split; [|done].
      eapply Forall_impl; [exact Hbefore|]. intros off Hoff [_ ?]. simpl in Hoff. lia.
  - split; [done|]. split; [done|]. right. split; [done|]. rewrite <- Hperm, <- (take_drop n (mObjects p1)), <- Epos. apply Exists_app. by right.
Qed.

(** ** Reads keep the hint right *)

Lemma advance_spec' len p : hint_ok p -> 0 <= len ->
  wp (advance e len) (fun err p' => hint_ok p' /\ mObjects p' ≡ₚ mObjects p /\ mData p' = mData p /\ mDataPos p' = mDataPos p + len /\
    (err = NO_ERROR /\ Forall (fun off => ~ touches (mDataPos p) (mDataPos p + len) off) (mObjects p) \/
     err = PERMISSION_DENIED /\ Exists (touches (mDataPos p) (mDataPos p + len)) (mObjects p))) p.
Proof.
  intros Hh Hlen. unfold advance. wp_step. wp_step. wp_step.
  apply (wp_mono _ (fun err p' => reordered p p' /\ hint_ok p' /\
    (err = NO_ERROR /\ Forall (fun off => ~ touches (mDataPos p) (mDataPos p + len) off) (mObjects p) \/
     err = PERMISSION_DENIED /\ Exists (touches (mDataPos p) (mDataPos p + len)) (mObjects p)))).
  - destruct (_ <? _) eqn:E; bool_to_prop; [apply validate_spec; [done|lia]|]. wp_step. split; [by repeat split|]. split; [done|]. left. split; [done|].
    unfold mObjectsSize in E. destruct (mObjects p); [constructor|simpl in E; lia].
  - intros err p' (Hr & Hh' & Hcase). destruct Hr as (Hperm & Ed & _ & _ & Epos & _). wp_steps. cbn. split; [|by rewrite Epos].
    eapply hint_ok_later; [..|exact Hh']; try done. cbn. lia.
Qed.

Lemma search_forward_bound dpos objects opos last fuel : (opos <= last)%nat -> (search_forward dpos objects opos last fuel <= last)%nat.
Proof.
  revert opos. induction fuel as [|fuel IH]; intros opos H; cbn [search_forward]; [done|]. destruct (Nat.ltb opos last) eqn:E; simpl; [|done].
  apply Nat.ltb_lt in E. case_match; [apply IH; lia|lia].
Qed.

Lemma search_backward_bound dpos objects opos : (search_backward dpos objects opos <= opos)%nat.
Proof. induction opos as [|opos IH]; cbn [search_backward]; [lia|]. case_match; lia. Qed.

Lemma find_object_spec objects hint dpos opos : 0 <= hint -> find_object objects hint dpos = Some opos -> objects !! opos = Some dpos.
Proof.
  intros Hhint. unfold find_object. destruct (Nat.eqb _ 0) eqn:E; [done|]. apply Nat.eqb_neq in E.
  set (o := if hint <? _ then _ else _). assert (o <= length objects - 1)%nat as Ho.
  { unfold o. destruct (hint <? _) eqn:Eh; bool_to_prop; [apply search_forward_bound; lia|lia]. }
  pose proof (search_backward_bound dpos objects o) as Hb. generalize dependent (search_backward dpos objects o). intros b Hb.
  assert (forall i, (i <= length objects - 1)%nat -> (nth i objects 0 =? dpos) = true -> objects !! i = Some dpos) as Hnth.
  { intros i Hi Hn. bool_to_prop. rewrite <- Hn. destruct (nth_lookup_or_length objects i 0); [done|lia]. }
  repeat (case_match; [intros [= <-]; apply Hnth; [lia|done]|]). done.
Qed.

Lemma sorted_prefix (l : list Z) i x : StronglySorted Z.le l -> l !! i = Some x -> Forall (fun y => y <= x) (take (S i) l).
Proof.
  intros Hs Hi. rewrite (take_S_r _ _ _ Hi). apply Forall_app. split; [|by constructor]. rewrite <- (take_drop_middle _ _ _ Hi) in Hs.
  apply Forall_forall. intros y Hy. apply (StronglySorted_app_1_elem_of _ _ _ _ x Hs Hy). by left.
Qed.

Lemma readObject_hint nullMetaData p : sound e p -> env_ok e -> hint_ok p -> wp (readObject e nullMetaData) (fun _ p' => hint_ok p') p.
Proof.
  intros Hp Henv Hh. unfold readObject. cbv zeta. wp_step. wp_step. pose proof (s_pos _ _ Hp) as Hpos. pose proof (s_size _ _ Hp) as Hs.
  pose proof (s_capacity _ _ Hp) as Hc. cbn in Hpos, Hs, Hc. destruct (flat_small _ Henv). rewrite uint64_id by (unfold INT32_MAX in *; lia).
  destruct (_ <=? _) eqn:E; bool_to_prop; [|by apply wp_ret]. wp_step. wp_call (flat_at_wp e Henv (mDataPos p) p Hp) as o p1 ->; [split; cbn; lia|].
  wp_step. wp_step. assert (hint_ok (p <| mDataPos := mDataPos p + sizeof_flat e |>)) as H1 by (eapply hint_ok_later; [..|exact Hh]; try done; cbn; lia).
  case_match; [by apply wp_ret|]. destruct (find_object _ _ _) as [opos|] eqn:Ef; [|by apply wp_ret]. wp_steps.
  apply find_object_spec in Ef; [|apply Hh]. split; cbn; [lia|apply Hh|]. intros Hsort. replace (Z.to_nat (Z.of_nat opos + 1)) with (S opos) by lia.
  eapply Forall_impl; [by apply (sorted_prefix _ _ (mDataPos p))|]. simpl. lia.
Qed.

(** ** Sequences of reads *)

Inductive read_step (p p' : t) : Prop :=
| step_position pos : 0 <= pos <= mDataSize p -> setDataPosition pos p = Some (tt, p') -> read_step p p'
| step_read len r : 0 <= len -> read e len p = Some (r, p') -> read_step p p'
| step_aligned n r : (n <= 8)%nat -> readAligned e n p = Some (r, p') -> read_step p p'
| step_object nullMetaData r : readObject e nullMetaData p = Some (r, p') -> read_step p p'.

Lemma wp_result {A} (m : M A) Q p a p' : wp m Q p -> m p = Some (a, p') -> Q a p'.
Proof. intros (a0 & p0 & H & HQ) H'. by simplify_eq. Qed.

Lemma read_mem_same pos len p bytes p' : read_mem pos len p = Some (bytes, p') -> p' = p /\ bytes = take (Z.to_nat len) (drop (Z.to_nat pos) (default [] (mData p))).
Proof. unfold read_mem. rewrite bind_gets. cbv zeta. case_match; [|done]. by intros [= <- <-]. Qed.

Lemma readAligned_hint n p : (n <= 8)%nat -> sound e p -> hint_ok p -> wp (readAligned e n) (fun _ => hint_ok) p.
Proof.
  intros Hn Hp Hh. destruct (readAligned_safe e n Hn p Hp) as (a & p' & E & _). exists a, p'. split; [done|].
  unfold readAligned in E. cbv zeta in E. rewrite bind_id in E. case_match; [|by injection E as <- <-].
  destruct (advance_spec' (Z.of_nat n) p Hh ltac:(lia)) as (err & p1 & Ea & H1 & _). rewrite (bind_step _ _ _ _ _ Ea) in E.
  case_match; [by injection E as <- <-|]. unfold mbind, M_bind in E. destruct (read_mem _ _ p1) as [[bytes p2]|] eqn:Er; [|done].
  apply read_mem_same in Er as [-> _]. by injection E as <- <-.
Qed.

(** where there is enough data, [read] gives the bytes or is refused *)
Lemma read_spec len p : sound e p -> hint_ok p -> 0 <= len <= INT32_MAX -> mDataPos p + PAD_SIZE_UNSAFE len <= mDataSize p ->
  exists err bytes p', read e len p = Some ((err, bytes), p') /\ hint_ok p' /\ mObjects p' ≡ₚ mObjects p /\ mDataPos p' = mDataPos p + PAD_SIZE_UNSAFE len /\
    (err = NO_ERROR /\ bytes = take (Z.to_nat len) (drop (Z.to_nat (mDataPos p)) (default [] (mData p))) /\
     Forall (fun off => ~ touches (mDataPos p) (mDataPos p + PAD_SIZE_UNSAFE len) off) (mObjects p) \/
     err = PERMISSION_DENIED /\ bytes = [] /\ Exists (touches (mDataPos p) (mDataPos p + PAD_SIZE_UNSAFE len)) (mObjects p)).
Proof.
  intros Hp Hh Hlen Hend. destruct (read_safe e len (proj1 Hlen) p Hp) as ([err bytes] & p' & E & _). exists err, bytes, p'. split; [done|].
  pose proof (pad_spec len (proj1 Hlen)) as [Hpad _]. pose proof (s_pos _ _ Hp) as Hpos. pose proof (s_size _ _ Hp) as Hs. pose proof (s_capacity _ _ Hp) as Hc. cbn in Hpos, Hs, Hc.
  unfold read in E. rewrite (proj2 (Z.ltb_ge _ _) (proj2 Hlen)), (bind_step _ _ _ _ _ (pad_size_ret len p Hlen)), bind_id in E.
  assert (enough_data p len (PAD_SIZE_UNSAFE len) = true) as He
    by (unfold enough_data; rewrite !uint64_id by (unfold INT32_MAX in *; lia); rewrite !(proj2 (Z.leb_le _ _)) by lia; done).
  rewrite He in E. destruct (advance_spec' (PAD_SIZE_UNSAFE len) p Hh ltac:(lia)) as (err1 & p1 & Ea & H1 & H2 & H3 & H4 & Hcase).
  rewrite (bind_step _ _ _ _ _ Ea) in E. destruct Hcase as [[-> Hfree]|[-> Hex]]; cbn [Z.eqb negb NO_ERROR PERMISSION_DENIED] in E.
  - unfold mbind, M_bind in E. destruct (read_mem _ _ p1) as [[bytes1 p2]|] eqn:Er; [|done]. apply read_mem_same in Er as [-> ->]. injection E as <- <- <-.
    rewrite H3. auto 10.
  - injection E as <- <- <-. auto 10.
Qed.

Lemma read_hint len p : 0 <= len -> sound e p -> hint_ok p -> wp (read e len) (fun _ => hint_ok) p.
Proof.
  intros Hlen Hp Hh. destruct (read_safe e len Hlen p Hp) as (a & p' & E & _). exists a, p'. split; [done|].
  unfold read in E. case_match; [by injection E as <- <-|]. bool_to_prop. rewrite (bind_step _ _ _ _ _ (pad_size_ret len p ltac:(lia))), bind_id in E.
  case_match; [|by injection E as <- <-]. pose proof (pad_spec len Hlen) as [Hpad _].
  destruct (advance_spec' (PAD_SIZE_UNSAFE len) p Hh ltac:(lia)) as (err & p1 & Ea & H1 & _). rewrite (bind_step _ _ _ _ _ Ea) in E.
  case_match; [by injection E as <- <-|]. unfold mbind, M_bind in E. destruct (read_mem _ _ p1) as [[bytes p2]|] eqn:Er; [|done].
  apply read_mem_same in Er as [-> _]. by injection E as <- <-.
Qed.

Lemma read_step_inv p p' : env_ok e -> read_step p p' -> sound e p /\ hint_ok p -> sound e p' /\ hint_ok p'.
Proof.
  intros He [pos Hpos Hs|len r Hl Hs|n r Hn Hs|nm r Hs] [Hp Hh].
  - split; [|by eapply hint_ok_reset]. unfold setDataPosition in Hs. case_match; [done|]. injection Hs as <-. destruct Hp. split; cbn in *; try done. lia.
  - split; [exact (wp_result _ _ _ _ _ (read_safe e len Hl p Hp) Hs)|exact (wp_result _ _ _ _ _ (read_hint len p Hl Hp Hh) Hs)].
  - split; [exact (wp_result _ _ _ _ _ (readAligned_safe e n Hn p Hp) Hs)|exact (wp_result _ _ _ _ _ (readAligned_hint n p Hn Hp Hh) Hs)].
  - split; [exact (wp_result _ _ _ _ _ (readObject_safe e He nm p Hp) Hs)|exact (wp_result _ _ _ _ _ (readObject_hint nm p Hp He Hh) Hs)].
Qed.

Lemma read_steps_inv p p' : env_ok e -> rtc read_step p p' -> sound e p /\ hint_ok p -> sound e p' /\ hint_ok p'.
Proof. intros He. induction 1; eauto using read_step_inv. Qed.

End Objects.
