(* ===== verification/ParcelMemory.v ===== *)
(** * The memory safety of whole parcels

    The operations on the size of the data and on whole parcels, and the data types; then
    [request], one operation of a parcel, and the theorem that no sequence of requests
    leaves the block of memory. *)

From S2P Require Import Prelude Parcel ParcelData ParcelLemmas ParcelTheorems ParcelSafety.
Import Parcel ParcelData.

Section Whole.

Context (e : env).
Hypothesis Henv : env_ok e.

Notation sound := (sound e).
Notation safe := (safe e).

(** ** Data types *)

Lemma write_elements_safe {A} (f : A -> M status_t) c : (forall x, safe (f x)) -> safe (write_elements f c).
Proof. intros Hf. induction c as [|x c IH]; [apply safe_ret|]. apply safe_bind; [done|]. intros st. case_match; auto using safe_ret. Qed.

Lemma fill_words_safe {A} n (f : A -> Z) c : (n <= 8)%nat ->
  safe (data ← writeInplace e (Z.of_nat (length c) * Z.of_nat n);
        match data with
        | None => mret BAD_VALUE
        | Some pos => _ ← write_mem pos (concat (map (fun t => le_bytes n (f t)) c)); mret OK
        end).
Proof.
  intros Hn p Hp. wp_step. wp_call (writeInplace_wp e Henv (Z.of_nat (length c) * Z.of_nat n) p Hp ltac:(lia)) as r p1 H1.
  destruct r as [pos|]; [|apply wp_ret, H1]. wp_step. eapply wp_mono; [eapply fill_wp; [exact H1|done|]|intros ? p2 [H2 _]; by apply wp_ret].
  rewrite map_le_bytes, length_concat_bytes, length_map. lia.
Qed.

Theorem writeData_safe T v : well_typed T = true -> safe (writeData e T v).
Proof.
  induction T as [| | | | | | | | | | |T IH|T IH]; intros HT; simpl in v;
    try (apply writeAligned_safe; [done|lia]); [apply write_string_safe; [done|lia]| |]; cbn [writeData]; simpl in HT; bool_to_prop.
  - case_match; [apply safe_ret|]. apply safe_bind; [apply writeAligned_safe; [done|lia]|]. intros _.
    destruct (packed_size T) as [n|] eqn:En; [case_match; auto using safe_ret, write_safe|].
    destruct (widened T); [apply (fill_words_safe 4); lia|]. apply write_elements_safe. intros x. by apply IH.
  - rewrite H. cbn [negb]. destruct v; [by apply IH|]. apply writeAligned_safe; [done|lia].
Qed.

Lemma read_elements_safe {A} (m : M (status_t * option A)) n : safe m -> safe (read_elements m n).
Proof.
  intros Hm. induction n as [|n IH]; [apply safe_ret|]. apply safe_bind; [done|]. intros [st [x|]]; [|apply safe_ret].
  case_match; [apply safe_ret|]. apply safe_bind; [done|]. intros; apply safe_ret.
Qed.

Lemma read_words_safe {A} n size (f : list Z -> A) : 0 <= size -> (n <= 8)%nat ->
  safe (data ← readInplace e (size * Z.of_nat n);
        match data with
        | None => mret (BAD_VALUE, None)
        | Some pos => bytes ← read_mem pos (size * Z.of_nat n); mret (OK, Some (f bytes))
        end).
Proof.
  intros Hs Hn p Hp. wp_step. wp_call (readInplace_wp e (size * Z.of_nat n) p Hp ltac:(lia)) as r p1 H1.
  destruct r as [pos|]; [|apply wp_ret, H1]. wp_step. rewrite <- (Z.add_0_r pos).
  wp_call (located_wp e pos 0 (size * Z.of_nat n) _ _ p1 H1 eq_refl ltac:(lia) ltac:(lia) ltac:(lia)) as bytes p2 ->. apply wp_ret, H1.
Qed.

Lemma dataAvail_safe : safe dataAvail.
Proof.
  intros p Hp. pose proof (s_pos _ _ Hp) as Hpos. pose proof (s_size _ _ Hp) as Hs. pose proof (s_capacity _ _ Hp) as Hc. cbn in Hpos, Hs, Hc.
  unfold dataAvail, dataSize. wp_steps. cbv zeta. destruct (mDataPos p <? mDataSize p); rewrite (proj2 (Z.ltb_ge _ _)) by (unfold INT32_MAX in *; lia); by apply wp_ret.
Qed.

Lemma setDataPosition_wp pos p : sound p -> 0 <= pos <= mDataSize p -> wp (setDataPosition pos) (fun _ => sound) p.
Proof.
  intros Hp Hpos. pose proof (s_size _ _ Hp) as Hs. pose proof (s_capacity _ _ Hp) as Hc. cbn in Hs, Hc. unfold setDataPosition.
  rewrite (proj2 (Z.ltb_ge _ _)) by lia. wp_steps. destruct Hp. split; cbn in *; try done. lia.
Qed.

(** a number that was read lies inside the data, so that one can go back to it *)
Lemma peek_wp p : sound p -> wp (readInt32 e) (fun r p' => sound p' /\ (r.2 <> None -> mDataPos p <= mDataSize p')) p.
Proof.
  intros Hp. pose proof (s_pos _ _ Hp) as Hpos. pose proof (s_size _ _ Hp) as Hs. pose proof (s_capacity _ _ Hp) as Hc. cbn in Hpos, Hs, Hc.
  unfold readInt32, readAligned. cbv zeta. wp_steps. rewrite uint64_id by (unfold INT32_MAX in *; lia).
  destruct (_ <=? _) eqn:E; bool_to_prop; [|by wp_steps]. wp_steps. wp_call (advance_wp e 4 p Hp ltac:(lia) ltac:(lia)) as err p1 (H1 & Ep & Es).
  case_match; wp_steps; [by split|]. pose proof (s_size _ _ H1) as Hs1. cbn in Hs1.
  wp_call (read_mem_wp e (mDataPos p) 4 p1 H1 ltac:(lia) ltac:(lia) ltac:(lia)) as bytes p2 [-> _]. wp_steps. split; [done|]. simpl. intros _. lia.
Qed.

Theorem readData_safe T : well_typed T = true -> safe (readData e T).
Proof.
  induction T as [| | | | | | | | | | |T IH|T IH]; intros HT; cbn [readData];
    try solve [apply readAligned_safe; lia | apply readInt32_safe | apply safe_bind; [|intros; apply safe_ret];
               first [apply readAligned_safe; lia | apply safe_bind; [apply readInt32_safe|intros; apply safe_ret]]].
  - apply safe_bind; [apply safe_bind; [apply read_string_inplace_safe; lia|]|]; intros; apply safe_ret.
  - apply safe_bind; [apply readInt32_safe|]. intros [st [size|]]; [|apply safe_ret]. case_match; [apply safe_ret|]. case_match; [apply safe_ret|]. bool_to_prop.
    apply safe_bind; [apply dataAvail_safe|]. intros avail. case_match; [apply safe_ret|].
    destruct (packed_size T) as [n|] eqn:En; [apply read_words_safe; [done|by destruct T; simplify_eq/=; lia]|].
    destruct (widened T); [apply (read_words_safe 4); [done|lia]|]. by apply read_elements_safe, IH.
  - simpl in HT. bool_to_prop. rename H into Hn, H0 into HT'. rewrite Hn. cbn [negb]. intros p Hp. wp_steps. wp_call (peek_wp p Hp) as [st [peek|]] p1 [H1 Hin]; [|by wp_steps].
    case_match; [by wp_steps|]. case_match; [by wp_steps|]. pose proof (s_pos _ _ Hp) as Hpos. cbn in Hpos. wp_step.
    wp_call (setDataPosition_wp (mDataPos p) p1 H1 ltac:(split; [lia|by apply Hin])) as ? p2 H2. wp_step. wp_call (IH HT' p2 H2) as r p3 H3. by wp_steps.
Qed.

(** ** The size of the data *)

Lemma setDataSize_wp size p : sound p -> 0 <= size -> cut_ok e size p -> wp (setDataSize e size) (fun _ => sound) p.
Proof.
  intros Hp Hs Hcut. unfold setDataSize. case_match; [by apply wp_ret|]. bool_to_prop. wp_step.
  wp_call (continueWrite_wp e Henv size p Hp Hs Hcut) as err p1 [H1 Hr]. wp_step. destruct (err =? NO_ERROR) eqn:E; bool_to_prop; wp_steps; [|done].
  destruct (Hr E) as [_ Hroom Hpos _ Ho]. pose proof (s_pos _ _ H1) as Hpos1. cbn in Hpos1. destruct H1. split; cbn in *; try done; try lia. by rewrite Ho.
Qed.

Lemma setDataCapacity_safe size : safe (setDataCapacity e size).
Proof.
  intros p Hp. pose proof (s_size _ _ Hp) as Hs. cbn in Hs. unfold setDataCapacity. case_match; [by apply wp_ret|]. bool_to_prop. wp_steps.
  destruct (_ <? size) eqn:E; bool_to_prop; [|by apply wp_ret].
  wp_call (continueWrite_wp e Henv size p Hp ltac:(lia) (cut_ok_growth e size p Hp ltac:(lia))) as err p1 [H1 _]. done.
Qed.

(** [restartWrite] gives an empty parcel with room for [desired] bytes *)
Definition restarted (desired : Z) (err : status_t) (p : t) : Prop :=
  sound p /\ (err = NO_ERROR -> desired <= mDataCapacity p /\ mDataPos p = 0 /\ mOwner p = false).

Lemma consistent_restart (d : option (list Z)) cap : Z.of_nat (length (default [] d)) = cap -> cap <= INT32_MAX ->
  consistent e (mkLayout 0 cap 0 [] false (Z.of_nat (length (default [] d))) (bool_decide (d = None))).
Proof. intros Hl Hc. split; cbn; try done; lia. Qed.

Lemma release_nothing p Q : mObjects p = [] -> Q tt p -> wp (releaseObjects e) Q p.
Proof. intros H HQ. exists tt, p. split; [|done]. unfold releaseObjects. by rewrite bind_gets, H. Qed.

Lemma restartWrite_wp desired p : sound p -> 0 <= desired -> mObjects p = [] \/ mOwner p = true ->
  wp (restartWrite e desired) (restarted desired) p.
Proof.
  intros Hp Hd Hobj. unfold restartWrite. case_match; [by apply wp_ret|]. bool_to_prop. wp_steps. destruct (mOwner p) eqn:Ho.
  - wp_step. wp_call (freeData_wp e Henv p Hp) as ? p1 E1. assert (sound p1) as H1 by (unfold ParcelSafety.sound; rewrite E1; apply consistent_empty).
    injection E1 as E2 E3 E4 E5 E6 E7 E8. wp_call (continueWrite_wp e Henv desired p1 H1 Hd ltac:(apply cut_ok_growth; [done|lia])) as err p2 [H2 Hr].
    split; [done|]. intros Herr. destruct (Hr Herr) as [_ Hroom Hpos _ Ho2]. pose proof (s_pos _ _ H2) as Hpos2. cbn in Hpos2. split; [done|]. split; [lia|done].
  - destruct Hobj as [Hobj|]; [|done]. wp_steps. pose proof (s_block _ _ Hp) as Hb. pose proof (s_capacity _ _ Hp) as Hc. cbn in Hb, Hc.
    destruct (reallocZeroFree _ _ _ _ _) as [data|] eqn:Hr.
    + apply reallocZeroFree_sized in Hr; [|done|done|done]. rewrite (bool_decide_eq_false_2 (Some data = None)), (bool_decide_eq_true_2 (Some data <> None)) by done.
      cbn [andb orb]. rewrite Hobj, (bool_decide_eq_true_2 ([] = [])) by done. cbn [negb andb]. wp_step.
      apply release_nothing; [done|]. wp_steps. split; [|intros _; by cbn]. unfold ParcelSafety.sound, layout_of. cbn. rewrite Ho. by apply (consistent_restart (Some data)).
    + rewrite (bool_decide_eq_true_2 (None = None)), (bool_decide_eq_false_2 (None <> None)) by tauto. cbn [andb orb].
      destruct (_ <? desired) eqn:Ecap; bool_to_prop; [unfold out_of_memory; wp_steps; by split|].
      rewrite Hobj, (bool_decide_eq_true_2 ([] = [])) by done. cbn [negb andb]. wp_step. apply release_nothing; [done|]. wp_step.
      destruct (desired =? 0) eqn:E0; bool_to_prop; wp_steps; (split; [unfold ParcelSafety.sound, layout_of; cbn; rewrite Ho|intros _; cbn; by split]).
      * by apply (consistent_restart None).
      * by apply consistent_restart.
Qed.

Lemma setData_wp buffer p : sound p -> mObjects p = [] \/ mOwner p = true -> wp (setData e buffer) (fun _ => sound) p.
Proof.
  intros Hp Hobj. unfold setData. cbv zeta. case_match; [by apply wp_ret|]. wp_step.
  wp_call (restartWrite_wp (Z.of_nat (length buffer)) p Hp ltac:(lia) Hobj) as err p1 [H1 Hr].
  destruct (err =? NO_ERROR) eqn:E; bool_to_prop; [|by apply wp_ret]. destruct (Hr E) as (Hroom & Hpos & Ho). wp_step.
  wp_call (write_mem_wp e 0 buffer p1 H1 ltac:(lia) ltac:(lia)) as ? p2 E2. pose proof (sound_ext _ _ _ E2 H1) as H2. injection E2 as F1 F2 F3 F4 F5 F6 F7.
  wp_steps. destruct H2. split; cbn in *; try done; try lia. rewrite F5, Ho. done.
Qed.

(** ** Received data *)

Lemma check_received_wp objects min p : sound p -> Forall (inside e (layout_of p)) objects -> wp (check_received e objects min) (fun _ p' => p' = p) p.
Proof.
  intros Hp H. revert min. induction H as [|off objects Hoff H IH]; intros min; [by apply wp_ret|]. cbn [check_received]. case_match; [by apply wp_ret|].
  wp_step. wp_call (flat_at_wp e Henv off p Hp Hoff) as o p1 ->. case_match; [apply IH|by apply wp_ret].
Qed.

(** what the driver guarantees of the offsets that it passes on *)
Definition offsets_ok (data objects : list Z) : Prop :=
  Forall (fun off => 0 <= off /\ off + sizeof_flat e <= Z.of_nat (length data)) objects.

Lemma no_objects_sound p : sound p -> sound (p <| mObjects := [] |>).
Proof. intros []. split; cbn in *; done. Qed.

Lemma ipcSetDataReference_wp data objects p : sound p -> Z.of_nat (length data) <= INT32_MAX -> offsets_ok data objects ->
  wp (ipcSetDataReference e data objects) (fun _ => sound) p.
Proof.
  intros Hp Hlen Hoffs. unfold ipcSetDataReference. wp_step. wp_call (freeData_wp e Henv p Hp) as ? p1 E1. injection E1 as E2 E3 E4 E5 E6 E7 E8.
  wp_step. wp_step. set (p2 := _ <| mOwner := true |>). assert (sound p2) as H2.
  { split; cbn; try done; try lia. }
  wp_step. wp_call (check_received_wp objects 0 p2 H2 Hoffs) as r p3 ->. wp_step.
  apply (wp_mono _ (fun _ => sound)); [|intros ? p4 H4; by apply (keeps_safe e _ (scanForFds_keeps e Henv))].
  destruct r as [[|]|]; wp_steps; [done| |by apply no_objects_sound]. wp_call (releaseObjects_keeps e Henv p2 H2) as ? p4 F4. wp_steps.
  apply no_objects_sound. by apply (sound_ext e p2).
Qed.
(** ** Appending a part of another parcel *)

Lemma adopt_object_wp off err p : sound p -> inside e (layout_of p) off ->
  wp (adopt_object e off err) (fun _ p' => sound p' /\ mDataCapacity p' = mDataCapacity p) p.
Proof.
  intros Hp Hoff. unfold adopt_object. wp_step. wp_step. set (p1 := _ <| mObjects := _ |>).
  assert (sound p1) as H1 by (destruct Hp; split; cbn in *; try done; apply Forall_app; split; [done|by constructor]).
  wp_step. wp_call (flat_at_wp e Henv off p1 H1 Hoff) as flat p2 ->. wp_step. wp_call (keeps_acquire e flat p1 H1) as ? p2 E2.
  pose proof (sound_ext _ _ _ E2 H1) as H2. injection E2 as F1 F2 F3 F4 F5 F6 F7. cbn in F2. case_match; [|by apply wp_ret]. wp_step.
  destruct Hoff as [Ho1 Ho2]. cbn in Ho2. set (bytes := flat_bytes e _).
  wp_call (write_mem_wp e off bytes p2 H2 Ho1 ltac:(unfold bytes; rewrite (flat_sized _ Henv); lia)) as ? p3 E3. pose proof (sound_ext _ _ _ E3 H2) as H3.
  injection E3 as G1 G2 G3 G4 G5 G6 G7. wp_steps. split; [exact H3|cbn; lia].
Qed.

Lemma adopt_objects_wp offs err p : sound p -> Forall (inside e (layout_of p)) offs -> wp (adopt_objects e offs err) (fun _ => sound) p.
Proof.
  intros Hp H. revert p Hp H err. induction offs as [|off offs IH]; intros p Hp H err; [by apply wp_ret|]. inversion H as [|? ? Hoff H']; subst.
  cbn [adopt_objects]. wp_step. wp_call (adopt_object_wp off err p Hp Hoff) as err' p1 [H1 Ec]. apply IH; [done|].
  eapply Forall_impl; [exact H'|]. intros o [? Ho]. split; [done|]. cbn in *. lia.
Qed.

(** the objects between the first and the last one of the range *)
Definition appended_objects (parcel : t) (offset len : Z) : list Z :=
  let '(firstIndex, lastIndex) := index_range e (mObjects parcel) offset len 0 (-1) (-2) in
  take (Z.to_nat (lastIndex - firstIndex + 1)) (drop (Z.to_nat firstIndex) (mObjects parcel)).

Definition append_ok (parcel : t) (offset len : Z) (p : t) : Prop :=
  sound parcel /\ 0 <= offset /\ 0 <= len /\ mDataPos p <= mDataSize p /\
  Forall (fun off => offset <= off /\ off + sizeof_flat e <= offset + len) (appended_objects parcel offset len).

(** room for [len] bytes after the data *)
Lemma room_wp len p : sound p -> 0 < len <= INT32_MAX -> mDataPos p <= mDataSize p ->
  wp (if mDataCapacity p <? uint64 (mDataSize p + len) then growData e len else mret NO_ERROR)
     (fun err p' => sound p' /\ (err = NO_ERROR ->
        mDataPos p' <= mDataPos p /\ mDataPos p' + len <= mDataCapacity p' /\ mDataSize p' + len <= mDataCapacity p' /\
        mDataPos p + len <= mDataCapacity p' /\ mOwner p' = false)) p.
Proof.
  intros Hp Hlen Hpos. pose proof (s_size _ _ Hp) as Hs. pose proof (s_capacity _ _ Hp) as Hc. cbn in Hs, Hc.
  rewrite uint64_id by (unfold INT32_MAX in *; lia). destruct (_ <? _) eqn:E; bool_to_prop.
  - wp_call (growData_resized e Henv len p Hp ltac:(lia)) as err p' [[H' Hg] Hr]. split; [done|]. intros Herr. specialize (Hg Herr).
    destruct (Hr Herr) as (desired & Hd & []). repeat split; try done; lia.
  - apply wp_ret. split; [done|]. intros _. repeat split; try lia. destruct (mOwner p) eqn:Ho; [|done].
    pose proof (s_owner _ _ Hp Ho) as Hown. cbn in Hown. lia.
Qed.

Lemma bytes_of_other parcel offset len : sound parcel -> 0 <= offset -> 0 <= len -> offset + len <= mDataSize parcel ->
  Z.of_nat (length (take (Z.to_nat len) (drop (Z.to_nat offset) (default [] (mData parcel))))) = len.
Proof.
  intros Hp Ho Hl He. pose proof (s_block _ _ Hp) as Hb. pose proof (s_size _ _ Hp) as Hs. cbn in Hb, Hs. rewrite length_take, length_drop. lia.
Qed.

Lemma appendFrom_wp parcel offset len p : sound p -> append_ok parcel offset len p -> wp (appendFrom e parcel offset len) (fun _ => sound) p.
Proof.
  intros Hp (Hother & Ho & Hl & Hpos & Hoffs). pose proof (s_size _ _ Hother) as Hs0. pose proof (s_capacity _ _ Hother) as Hc0.
  pose proof (s_pos _ _ Hp) as Hpos0. pose proof (s_size _ _ Hp) as Hs. pose proof (s_capacity _ _ Hp) as Hc. cbn in *.
  unfold appendFrom. wp_steps. repeat (case_match; [by apply wp_ret|]). bool_to_prop. wp_steps. unfold appended_objects in Hoffs.
  rewrite uint64_id in * by (unfold INT32_MAX in *; lia). rewrite int32_id by (unfold in_int32, INT32_MIN in *; lia).
  destruct (index_range _ _ _ _ _ _ _) as [firstIndex lastIndex]. wp_steps.
  wp_call (room_wp len p Hp ltac:(lia) Hpos) as err p1 [Q1 Hroom]. destruct (err =? NO_ERROR) eqn:E; bool_to_prop; cbn [negb]; [|by apply wp_ret].
  destruct (Hroom E) as (Hp1 & Hr1 & Hr2 & Hr3 & Hown). wp_step. wp_step. wp_step. pose proof (s_pos _ _ Q1) as Hpos1. cbn in Hpos1.
  pose proof (bytes_of_other parcel offset len Hother Ho Hl ltac:(lia)) as Hbytes.
  wp_call (write_mem_wp e (mDataPos p1) _ p1 Q1 ltac:(lia) ltac:(rewrite Hbytes; lia)) as ? p2 E2. pose proof (sound_ext _ _ _ E2 Q1) as Q2.
  injection E2 as F1 F2 F3 F4 F5 F6 F7. wp_step. wp_step. set (p3 := _ <| mDataSize := _ |>).
  assert (sound p3) as Q3 by (destruct Q2; split; cbn in *; try done; try lia; by rewrite F5, Hown).
  case_match; [|by apply wp_ret]. wp_step. wp_step. cbv zeta. case_match; [by apply wp_ret|]. wp_step.
  assert (Forall (inside e (layout_of p3)) (map (fun off => off - offset + mDataPos p)
    (take (Z.to_nat (lastIndex - firstIndex + 1)) (drop (Z.to_nat firstIndex) (mObjects parcel))))) as Hin.
  { apply Forall_map. eapply Forall_impl; [exact Hoffs|]. intros off [? ?]. split; cbn; lia. }
  case_match; wp_step; by apply adopt_objects_wp.
Qed.

(** ** The header of a transaction *)

Lemma writeInterfaceToken_safe policy source interface : safe (writeInterfaceToken e policy source interface).
Proof.
  apply safe_bind; [apply safe_gets|]. intros rpc. apply safe_bind; [|intros; apply write_string_safe; [done|lia]].
  case_match; [|apply safe_ret]. repeat (apply safe_bind; [|intros _]); try apply safe_writeInt32; try done.
  intros p Hp. apply wp_modify. case_match; exact Hp.
Qed.

Lemma enforceInterface_safe interface : safe (enforceInterface e interface).
Proof.
  apply safe_bind; [apply safe_gets|]. intros rpc. apply safe_bind.
  - case_match; [|apply safe_ret]. apply safe_bind; [apply readInt32_or_0_safe|intros policy].
    apply safe_bind; [intros p Hp; apply wp_modify; case_match; exact Hp|intros _].
    do 2 (apply safe_bind; [apply readInt32_or_0_safe|intros ?]). apply safe_ret.
  - intros header. destruct (match header with Some _ => _ | None => _ end); [apply safe_ret|].
    apply safe_bind; [apply read_string_inplace_safe; lia|]. intros; apply safe_ret.
Qed.

(** ** Requests *)

Inductive request :=
| WriteData (T : type) (v : value T)
| ReadData (T : type)
| Write (data : list Z)
| WriteUnpadded (data : list Z)
| WriteCString (str : list Z)
| WriteString8 (str : option (list Z))
| WriteByteArray (len : Z) (val : option (list Z))
| WriteInt32Array (len : Z) (val : option (list Z))
| WriteObject (val : flat_binder_object) (nullMetaData : bool)
| WriteDupFileDescriptor (flags fd error : Z)
| WriteDupParcelFileDescriptor (flags fd error : Z)
| WriteNativeHandle (flags error : Z) (handle : option (list Z * list Z))
| WriteInterfaceToken (policy : Z) (workSource : option Z) (interface : list Z)
| Read (len : Z)
| ReadCString
| ReadString8
| ReadVectorSize (elmSize : Z)
| ReadObject (nullMetaData : bool)
| ReadUniqueFileDescriptor
| ReadNativeHandle (create : Z -> Z -> bool)
| EnforceInterface (interface : list Z)
| HasFileDescriptors
| CloseFileDescriptors
| PushAllowFds (allowFds : bool)
| RestoreAllowFds (lastValue : bool)
| MarkSensitive
| SetDataPosition (pos : Z)
| SetDataSize (size : Z)
| SetDataCapacity (size : Z)
| SetData (buffer : list Z)
| AppendFrom (parcel : t) (offset len : Z)
| IpcSetDataReference (data objects : list Z)
| FreeData.

Definition ignore {A} (m : M A) : M unit := _ ← m; mret tt.

Definition perform (r : request) : M unit :=
  match r with
  | WriteData T v => ignore (writeData e T v)
  | ReadData T => ignore (readData e T)
  | Write data => ignore (write e data)
  | WriteUnpadded data => ignore (writeUnpadded e data)
  | WriteCString str => ignore (writeCString e str)
  | WriteString8 str => ignore (writeString8 e str)
  | WriteByteArray len val => ignore (writeByteArray e len val)
  | WriteInt32Array len val => ignore (writeInt32Array e len val)
  | WriteObject val nullMetaData => ignore (writeObject e val nullMetaData)
  | WriteDupFileDescriptor flags fd error => ignore (writeDupFileDescriptor e flags fd error)
  | WriteDupParcelFileDescriptor flags fd error => ignore (writeDupParcelFileDescriptor e flags fd error)
  | WriteNativeHandle flags error handle => ignore (writeNativeHandle e flags error handle)
  | WriteInterfaceToken policy source interface => ignore (writeInterfaceToken e policy source interface)
  | Read len => ignore (read e len)
  | ReadCString => ignore readCString
  | ReadString8 => ignore (readString8 e)
  | ReadVectorSize elmSize => ignore (readOutVectorSizeWithCheck e elmSize)
  | ReadObject nullMetaData => ignore (readObject e nullMetaData)
  | ReadUniqueFileDescriptor => ignore (readUniqueFileDescriptor e)
  | ReadNativeHandle create => ignore (readNativeHandle e create)
  | EnforceInterface interface => ignore (enforceInterface e interface)
  | HasFileDescriptors => ignore (hasFileDescriptors e)
  | CloseFileDescriptors => closeFileDescriptors e
  | PushAllowFds allowFds => ignore (pushAllowFds allowFds)
  | RestoreAllowFds lastValue => restoreAllowFds lastValue
  | MarkSensitive => markSensitive
  | SetDataPosition pos => setDataPosition pos
  | SetDataSize size => ignore (setDataSize e size)
  | SetDataCapacity size => ignore (setDataCapacity e size)
  | SetData buffer => ignore (setData e buffer)
  | AppendFrom parcel offset len => ignore (appendFrom e parcel offset len)
  | IpcSetDataReference data objects => ipcSetDataReference e data objects
  | FreeData => freeData e
  end.

(** What the code relies on its callers for: positions inside the data, parcels without
    objects for [setData], no object cut in two when received data is shortened, the
    driver's offsets. *)
Definition legal (r : request) (p : t) : Prop :=
  match r with
  | WriteData T _ | ReadData T => well_typed T = true
  | Read len => 0 <= len
  | ReadVectorSize elmSize => elmSize <= INT32_MAX
  | SetDataPosition pos => 0 <= pos <= mDataSize p
  | SetDataSize size => 0 <= size /\ cut_ok e size p
  | SetData _ => mObjects p = [] \/ mOwner p = true
  | AppendFrom parcel offset len => append_ok parcel offset len p
  | IpcSetDataReference data objects => Z.of_nat (length data) <= INT32_MAX /\ offsets_ok data objects
  | _ => True
  end.

Lemma ignore_wp {A} (m : M A) p : wp m (fun _ => sound) p -> wp (ignore m) (fun _ => sound) p.
Proof. intros H. unfold ignore. wp_step. wp_call H as a p' Hp. by apply wp_ret. Qed.

Lemma perform_wp r p : sound p -> legal r p -> wp (perform r) (fun _ => sound) p.
Proof.
  intros Hp Hr. destruct r; simpl in Hr; cbn [perform]; try apply ignore_wp.
  - by apply writeData_safe.
  - by apply readData_safe.
  - by apply write_safe.
  - by apply writeUnpadded_safe.
  - by apply write_safe.
  - apply (write_string_safe e Henv 1 str ltac:(lia) p Hp).
  - apply (write_array_safe e Henv 1 len val p Hp).
  - apply (write_array_safe e Henv 4 len val p Hp).
  - by apply writeObject_safe.
  - by apply writeDupFileDescriptor_safe.
  - by apply writeDupParcelFileDescriptor_safe.
  - by apply writeNativeHandle_safe.
  - by apply writeInterfaceToken_safe.
  - by apply read_safe.
  - by apply readCString_safe.
  - apply (safe_bind e _ _ (read_string_inplace_safe e 1 ltac:(lia)) (fun a => safe_ret e _) p Hp).
  - by apply readOutVectorSizeWithCheck_safe.
  - by apply readObject_safe.
  - by apply readUniqueFileDescriptor_safe.
  - by apply readNativeHandle_safe.
  - by apply enforceInterface_safe.
  - by apply (keeps_safe e _ (hasFileDescriptors_keeps e Henv)).
  - by apply (keeps_safe e _ (closeFileDescriptors_keeps e Henv)).
  - unfold pushAllowFds. wp_steps. case_match; by wp_steps.
  - unfold restoreAllowFds. by wp_steps.
  - unfold markSensitive. by wp_steps.
  - by apply setDataPosition_wp.
  - destruct Hr. by apply setDataSize_wp.
  - by apply setDataCapacity_safe.
  - by apply setData_wp.
  - by apply appendFrom_wp.
  - destruct Hr. by apply ipcSetDataReference_wp.
  - wp_call (freeData_wp e Henv p Hp) as ? p1 E1. unfold ParcelSafety.sound. rewrite E1. apply consistent_empty.
Qed.

(** each request is legal when its turn comes *)
Fixpoint legal_run (rs : list request) (p : t) : Prop :=
  match rs with
  | [] => True
  | r :: rs' => legal r p /\ forall p', perform r p = Some (tt, p') -> legal_run rs' p'
  end.

Lemma run_wp rs p : sound p -> legal_run rs p -> wp (for_each perform rs) (fun _ => sound) p.
Proof.
  revert p. induction rs as [|r rs IH]; intros p Hp Hl; [by apply wp_ret|]. destruct Hl as [Hr Hrs]. destruct (perform_wp r p Hp Hr) as ([] & p1 & E & H1).
  cbn [for_each]. wp_step. exists tt, p1. split; [done|]. apply IH; auto.
Qed.

End Whole.

Lemma new_sound e : sound e new.
Proof. apply consistent_empty. Qed.
