(* ===== verification/ParcelGuarantees.v ===== *)
(** * Safety of parcels

    No legal sequence of operations leaves the memory of the parcel; reads do not disclose
    or misread objects; and what happens where the callers are not careful. *)

From S2P Require Import Prelude Parcel ParcelData ParcelLemmas ParcelTheorems ParcelSafety ParcelObjects ParcelMemory.
Import Parcel ParcelData.

(** C2: No sequence of legal requests on a parcel, whatever values are written, whatever
    bytes and objects are received from the driver and then read as whatever types, ends
    the process or touches a byte outside the block that holds the data; and the fields
    stay consistent: the block has mDataCapacity bytes, the data lies inside it, the
    position in the data (or at most three bytes behind it), and the objects inside the
    block. *)
Theorem parcel_memory_safe e rs : env_ok e -> legal_run e rs new ->
  exists p, for_each (perform e) rs new = Some (tt, p) /\ sound e p.
Proof. intros He Hrs. destruct (run_wp e He rs new (new_sound e) Hrs) as ([] & p & Hr & Hp). by exists p. Qed.

Lemma plain_env_ok : env_ok plain_env.
Proof.
  split; [|intros o; done|by vm_compute].
  intros n l Hn [= <-]. rewrite length_replicate. lia.
Qed.

(** a file descriptor *)
Definition some_fd : flat_binder_object := mkFlat 3 0 7 7 1.

(** written, read back as other types, and then received bytes that are not what is read *)
Definition requests : list request :=
  [WriteData (Vector Int32) [1; 2; 3]; WriteObject some_fd true; WriteString8 (Some [65; 66]); SetDataPosition 4; ReadData (Vector String16); ReadObject true;
   SetDataSize 20; SetDataPosition 16; WriteData Int64 9;
   IpcSetDataReference (le_bytes 4 1000 ++ flat_bytes plain_env some_fd ++ [65; 66; 0]) [4]; ReadString8; SetDataPosition 28; ReadCString; ReadData Int32; FreeData].

Lemma parcel_memory_safe_witness : exists p, for_each (perform plain_env) requests new = Some (tt, p) /\ sound plain_env p.
Proof.
  apply parcel_memory_safe; [exact plain_env_ok|].
  repeat (split; [first [by vm_compute | split; [by vm_compute|by intros [=]] | split; [by vm_compute|apply Forall_cons; split; [by vm_compute|constructor]]]
                 |intros p' Hp'; vm_compute in Hp'; injection Hp' as <-]); exact I.
Defined.

(** C29: After any sequence of reads and changes of position, a read of bytes that are there
    is refused with PERMISSION_DENIED exactly when the bytes (with their padding) overlap
    a binder or file descriptor recorded in the parcel; otherwise it gives the bytes of
    the data at the position. The search for such an object starts at mNextObjectHint, and
    the objects are sorted on the way, but none is overlooked and none is lost. *)
Theorem reads_respect_objects e p0 p len : env_ok e -> sound e p0 -> mNextObjectHint p0 = 0 -> mObjectsSorted p0 = false ->
  rtc (read_step e) p0 p -> 0 <= len <= INT32_MAX -> mDataPos p + PAD_SIZE_UNSAFE len <= mDataSize p ->
  exists err bytes p', read e len p = Some ((err, bytes), p') /\ mObjects p' ≡ₚ mObjects p /\ mDataPos p' = mDataPos p + PAD_SIZE_UNSAFE len /\
    (err = NO_ERROR /\ bytes = take (Z.to_nat len) (drop (Z.to_nat (mDataPos p)) (default [] (mData p))) /\
     Forall (fun off => ~ touches e (mDataPos p) (mDataPos p + PAD_SIZE_UNSAFE len) off) (mObjects p) \/
     err = PERMISSION_DENIED /\ bytes = [] /\ Exists (touches e (mDataPos p) (mDataPos p + PAD_SIZE_UNSAFE len)) (mObjects p)).
Proof.
  intros He Hp0 Hhint Hsort Hsteps Hlen Hend. assert (hint_ok e p0) as Hh0 by (split; rewrite ?Hhint, ?Hsort; try done; constructor).
  destruct (read_steps_inv e p0 p He Hsteps (conj Hp0 Hh0)) as [Hp Hh].
  destruct (read_spec e len p Hp Hh Hlen Hend) as (err & bytes & p' & Hr & _ & Hrest). by exists err, bytes, p'.
Qed.

(** two file descriptors written in the wrong order *)
Definition unsorted_parcel : t :=
  default new (snd <$> for_each (perform plain_env)
    [Write (replicate 64 1); SetDataPosition 32; WriteObject some_fd true; SetDataPosition 4; WriteObject some_fd true; SetDataPosition 0] new).

(** after a number has been read *)
Definition sorted_parcel : t := default new (snd <$> readAligned plain_env 4 unsorted_parcel).

Lemma reads_respect_objects_witness : exists err bytes p',
  read plain_env 2 sorted_parcel = Some ((err, bytes), p') /\ mObjects p' ≡ₚ mObjects sorted_parcel /\ mDataPos p' = mDataPos sorted_parcel + PAD_SIZE_UNSAFE 2 /\
  (err = NO_ERROR /\ bytes = take 2 (drop (Z.to_nat (mDataPos sorted_parcel)) (default [] (mData sorted_parcel))) /\
   Forall (fun off => ~ touches plain_env (mDataPos sorted_parcel) (mDataPos sorted_parcel + PAD_SIZE_UNSAFE 2) off) (mObjects sorted_parcel) \/
   err = PERMISSION_DENIED /\ bytes = [] /\ Exists (touches plain_env (mDataPos sorted_parcel) (mDataPos sorted_parcel + PAD_SIZE_UNSAFE 2)) (mObjects sorted_parcel)).
Proof.
  apply (reads_respect_objects plain_env unsorted_parcel sorted_parcel 2).
  - exact plain_env_ok.
  - split; try (by vm_compute). vm_compute. repeat constructor; by intros.
  - by vm_compute.
  - by vm_compute.
  - apply rtc_once, (step_aligned _ _ _ 4 (NO_ERROR, Some 16843009)); [lia|by vm_compute].
  - by vm_compute.
  - by vm_compute.
Defined.

(** ** Where callers are not careful *)

(** setDataPosition accepts a position behind the data, and growData makes room behind
    the data, not behind the position: after four bytes have been written, a write at
    position 1000 grows the block to 128 bytes and then stores behind its end. *)
Theorem write_beyond_data :
  exists p, for_each (perform plain_env) [WriteData Int32 1; SetDataPosition 1000] new = Some (tt, p) /\
  mDataCapacity p = 128 /\ writeInt32 plain_env 2 p = None.
Proof. eexists. split; [vm_compute; reflexivity|]. split; vm_compute; reflexivity. Qed.

(** A write that growData refuses reports success. A block of more than two thirds of
    INT32_MAX bytes written to an empty parcel needs more than INT32_MAX bytes of
    capacity; writeInplace gives a null pointer, write then returns mError, which nothing
    has set: the status is NO_ERROR and the parcel is still empty. *)
Theorem refused_growth_reports_success e data : 1431655766 <= Z.of_nat (length data) <= INT32_MAX - 3 ->
  write e data new = Some (NO_ERROR, new).
Proof.
  intros Hlen. unfold write. cbv zeta. rewrite (proj2 (Z.ltb_ge _ _)) by lia. pose proof (pad_spec (Z.of_nat (length data)) ltac:(lia)) as [Hpad _].
  enough (writeInplace e (Z.of_nat (length data)) new = Some (None, new)) as H by by rewrite (bind_step _ _ _ _ _ H).
  unfold writeInplace. rewrite (proj2 (Z.ltb_ge _ _)) by lia. rewrite (bind_step _ _ _ _ _ (pad_size_ret (Z.of_nat (length data)) new ltac:(unfold INT32_MAX in *; lia))), bind_id.
  set (padded := PAD_SIZE_UNSAFE _) in *. cbn [mDataPos mDataCapacity new]. rewrite Z.add_0_l, uint64_id by (unfold INT32_MAX in *; lia).
  rewrite (proj2 (Z.ltb_ge _ _)), (proj2 (Z.leb_gt _ _)) by lia.
  enough (growData e padded new = Some (BAD_VALUE, new)) as H by by rewrite (bind_step _ _ _ _ _ H).
  unfold growData. rewrite (proj2 (Z.ltb_ge _ _)) by lia. rewrite bind_gets. cbn [mDataSize new]. rewrite Z.add_0_l.
  unfold SIZE_MAX, INT32_MAX in *. change (18446744073709551615 / 3) with 6148914691236517205. rewrite !(proj2 (Z.ltb_ge _ _)) by lia.
  assert (2147483647 < padded * 3 / 2) as Hnew by (Z.to_euclidean_division_equations; lia). rewrite (proj2 (Z.leb_gt _ _)) by lia.
  unfold continueWrite, INT32_MAX. by rewrite (proj2 (Z.ltb_lt _ _)) by lia.
Qed.

Lemma refused_growth_reports_success_witness :
  write plain_env (replicate (Z.to_nat 1500000000) 7) new = Some (NO_ERROR, new).
Proof. apply refused_growth_reports_success. rewrite length_replicate, Z2Nat.id by lia. unfold INT32_MAX. lia. Defined.

(** Received data that is cut in the middle of an object keeps the object: the offset is
    below the new size. The copy of ten bytes ends inside the object, and releasing it
    reads behind the end of the block. *)
Theorem cut_object_overrun :
  exists p, for_each (perform plain_env)
    [IpcSetDataReference (le_bytes 4 1000 ++ flat_bytes plain_env some_fd) [4]; SetDataSize 10] new = Some (tt, p) /\
  mDataCapacity p = 10 /\ mObjects p = [4] /\ freeData plain_env p = None.
Proof. eexists. split; [vm_compute; reflexivity|]. repeat split; vm_compute; reflexivity. Qed.
