(* ===== verification/VSyncTracker.v ===== *)
(** * VSyncTracker (services/surfaceflinger/Scheduler/VSyncTracker.h)

    The interface through which the dispatcher and the reactor use a model of the display's
    vsync signal, and what they rely on. *)

From S2P Require Import Prelude.

Class VSyncTracker (T : Type) := {
  addVsyncTimestamp : T -> Z -> option (bool * T);
  nextAnticipatedVSyncTimeFrom : T -> Z -> option Z;
  currentPeriod : T -> option Z;
  setPeriod : T -> Z -> T;
  resetModel : T -> T;
  needsMoreSamples : T -> bool }.

(** What users of a tracker rely on: there is a set of states, kept by all operations (with
    periods that are positive and not too long), in which a prediction is made, and lies
    after the time asked for and within a horizon. *)
Class VSyncTrackerLaws (T : Type) `{!VSyncTracker T} := {
  tracker_ok : T -> Prop;
  max_period : Z;
  horizon : Z;
  next_ahead (t : T) x : tracker_ok t -> exists y, nextAnticipatedVSyncTimeFrom t x = Some y /\ x <= y <= x + horizon;
  period_positive (t : T) : tracker_ok t -> exists p, currentPeriod t = Some p /\ 0 < p <= horizon;
  add_ok (t : T) x b t' : tracker_ok t -> addVsyncTimestamp t x = Some (b, t') -> tracker_ok t';
  setPeriod_ok (t : T) p : tracker_ok t -> 0 < p <= max_period -> tracker_ok (setPeriod t p);
  resetModel_ok (t : T) : tracker_ok t -> tracker_ok (resetModel t) }.
