(* ===== verification/VSyncPredictor.v ===== *)
(** * VSyncPredictor (services/surfaceflinger/Scheduler/VSyncPredictor.cpp)

    The model of the display's vsync signal: from the timestamps of past vsyncs it computes
    a period and an intercept by linear regression, and predicts from them.

    Times are [nsecs_t]. In the regression, where products of times are summed, arithmetic
    that leaves [int64_t] is undefined behaviour and gives [None]; so do a division by zero
    and a LOG_ALWAYS_FATAL. [mRateMap] is a [gmap]; which entry [mRateMap.begin()] is,
    nobody knows: a parameter. *)

From S2P Require Import Prelude.

Module VSyncPredictor.

Record t := mk {
  kHistorySize : Z;
  kMinimumSamplesForPrediction : Z;
  kOutlierTolerancePercent : Z;
  mIdealPeriod : Z;
  mKnownTimestamp : option Z;
  (** ideal period to (period, intercept) *)
  mRateMap : gmap Z (Z * Z);
  mLastTimestampIndex : Z;
  mTimestamps : list Z }.

Definition eta (p : t) : t :=
  mk (kHistorySize p) (kMinimumSamplesForPrediction p) (kOutlierTolerancePercent p) (mIdealPeriod p) (mKnownTimestamp p)
     (mRateMap p) (mLastTimestampIndex p) (mTimestamps p).
#[global] Instance set_mIdealPeriod : Setter mIdealPeriod := ltac:(setter_of eta mIdealPeriod).
#[global] Instance set_mKnownTimestamp : Setter mKnownTimestamp := ltac:(setter_of eta mKnownTimestamp).
#[global] Instance set_mRateMap : Setter mRateMap := ltac:(setter_of eta mRateMap).
#[global] Instance set_mLastTimestampIndex : Setter mLastTimestampIndex := ltac:(setter_of eta mLastTimestampIndex).
#[global] Instance set_mTimestamps : Setter mTimestamps := ltac:(setter_of eta mTimestamps).

Definition kMaxPercent : Z := 100.
Definition kScalingFactor : Z := 1000.
Definition kSizeLimit : nat := 30.

Definition size (p : t) : Z := Z.of_nat (length (mTimestamps p)).

(** [std::max_element] and [std::min_element] of a vector that is not empty *)
Definition max_element (x : Z) (l : list Z) : Z := foldl Z.max x l.
Definition min_element (x : Z) (l : list Z) : Z := foldl Z.min x l.

Definition clearTimestamps (p : t) : t :=
  match mTimestamps p with
  | [] => p
  | x :: l =>
    let maxRb := max_element x l in
    p <| mKnownTimestamp := Some (match mKnownTimestamp p with Some known => Z.max known maxRb | None => maxRb end) |>
      <| mTimestamps := [] |>
      <| mLastTimestampIndex := 0 |>
  end.

Definition resetModel (p : t) : t :=
  clearTimestamps (p <| mRateMap := <[mIdealPeriod p := (mIdealPeriod p, 0)]> (mRateMap p) |>).

Definition new (idealPeriod historySize minimumSamplesForPrediction outlierTolerancePercent : Z) : t :=
  resetModel (mk historySize minimumSamplesForPrediction (Z.min outlierTolerancePercent kMaxPercent) idealPeriod None ∅ 0 []).

Definition next (p : t) (i : Z) : Z := (i + 1) mod size p.

(** The comparisons are made on [size_t]. *)
Definition validate (p : t) (timestamp : Z) : option bool :=
  if (mLastTimestampIndex p <? 0) || bool_decide (mTimestamps p = []) then Some true
  else
    aValidTimestamp ← mTimestamps p !! Z.to_nat (mLastTimestampIndex p);
    if mIdealPeriod p =? 0 then None
    else
      let percent := Z.quot (Z.rem (timestamp - aValidTimestamp) (mIdealPeriod p) * kMaxPercent) (mIdealPeriod p) in
      Some ((uint64 percent <? kOutlierTolerancePercent p) || (uint64 (kMaxPercent - kOutlierTolerancePercent p) <? uint64 percent)).

(** *** The regression *)

Fixpoint accumulate (sum : Z) (l : list Z) : option Z :=
  match l with [] => Some sum | x :: l' => sum ← checked (sum + x); accumulate sum l' end.

Definition calculate_mean (l : list Z) : option Z :=
  sum ← accumulate 0 l;
  if bool_decide (l = []) then None else Some (Z.quot sum (Z.of_nat (length l))).

(** [top] and [bottom] of the slope *)
Fixpoint slope_sums (points : list (Z * Z)) (top bottom : Z) : option (Z * Z) :=
  match points with
  | [] => Some (top, bottom)
  | (y, x) :: points' =>
    yx ← checked (y * x); top ← checked (top + yx);
    xx ← checked (x * x); bottom ← checked (bottom + xx);
    slope_sums points' top bottom
  end.

Definition ordinal (currentPeriod ts : Z) : Z := Z.quot (ts + Z.quot currentPeriod 2) currentPeriod * kScalingFactor.

(** [None]: undefined; [Some None]: no slope; else the period and the intercept *)
Definition regression (x : Z) (l : list Z) (currentPeriod : Z) : option (option (Z * Z)) :=
  if currentPeriod =? 0 then None
  else
    let oldest_ts := min_element x l in
    let vsyncTS := map (fun ts => ts - oldest_ts) (x :: l) in
    let ordinals := map (ordinal currentPeriod) vsyncTS in
    meanTS ← calculate_mean vsyncTS;
    meanOrdinal ← calculate_mean ordinals;
    sums ← slope_sums (zip (map (fun ts => ts - meanTS) vsyncTS) (map (fun o => o - meanOrdinal) ordinals)) 0 0;
    let '(top, bottom) := sums in
    if bottom =? 0 then Some None
    else
      scaled ← checked (top * kScalingFactor);
      let anticipatedPeriod := Z.quot scaled bottom in
      product ← checked (anticipatedPeriod * meanOrdinal);
      Some (Some (anticipatedPeriod, meanTS - Z.quot product kScalingFactor)).

(** the model is wrong: back to the ideal period *)
Definition reject (p : t) : t := clearTimestamps (p <| mRateMap := <[mIdealPeriod p := (mIdealPeriod p, 0)]> (mRateMap p) |>).

(** the timestamp goes into the ring buffer *)
Definition remember (p : t) (timestamp : Z) : option t :=
  if negb (size p =? kHistorySize p) then
    let p := p <| mTimestamps := mTimestamps p ++ [timestamp] |> in
    Some (p <| mLastTimestampIndex := next p (mLastTimestampIndex p) |>)
  else if size p =? 0 then None
  else
    let p := p <| mLastTimestampIndex := next p (mLastTimestampIndex p) |> in
    Some (p <| mTimestamps := <[Z.to_nat (mLastTimestampIndex p) := timestamp]> (mTimestamps p) |>).

Definition update_model (p : t) : option (bool * t) :=
  model ← mRateMap p !! mIdealPeriod p;
  match mTimestamps p with
  | [] => None
  | x :: l =>
    r ← regression x l model.1;
    match r with
    | None => Some (false, reject p)
    | Some (anticipatedPeriod, intercept) =>
      if mIdealPeriod p =? 0 then None
      else
        scaled ← checked (Z.abs (anticipatedPeriod - mIdealPeriod p) * kMaxPercent);
        let percent := Z.quot scaled (mIdealPeriod p) in
        if kOutlierTolerancePercent p <=? uint64 percent then Some (false, reject p)
        else Some (true, p <| mRateMap := <[mIdealPeriod p := (anticipatedPeriod, intercept)]> (mRateMap p) |>)
    end
  end.

Definition addVsyncTimestamp (p : t) (timestamp : Z) : option (bool * t) :=
  valid ← validate p timestamp;
  if negb valid then
    Some (false,
      if size p <? kMinimumSamplesForPrediction p then clearTimestamps p
      else match mTimestamps p with
           | x :: l => p <| mKnownTimestamp := Some (Z.max timestamp (max_element x l)) |>
           | [] => p <| mKnownTimestamp := Some timestamp |>
           end)
  else
    p ← remember p timestamp;
    if size p <? kMinimumSamplesForPrediction p
    then Some (true, p <| mRateMap := <[mIdealPeriod p := (mIdealPeriod p, 0)]> (mRateMap p) |>)
    else update_model p.

Definition getVSyncPredictionModel (p : t) : option (Z * Z) := mRateMap p !! mIdealPeriod p.

Definition currentPeriod (p : t) : option Z := fst <$> mRateMap p !! mIdealPeriod p.

Definition nextAnticipatedVSyncTimeFrom (p : t) (timePoint : Z) : option Z :=
  model ← getVSyncPredictionModel p;
  let '(slope, intercept) := model in
  match mTimestamps p with
  | [] =>
    let knownTimestamp := match mKnownTimestamp p with Some known => known | None => timePoint end in
    if mIdealPeriod p =? 0 then None
    else
      let numPeriodsOut := Z.quot (timePoint - knownTimestamp) (mIdealPeriod p) + 1 in
      Some (knownTimestamp + numPeriodsOut * mIdealPeriod p)
  | x :: l =>
    let oldest := min_element x l in
    let zeroPoint := oldest + intercept in
    if slope =? 0 then None
    else
      let ordinalRequest := Z.quot (timePoint - zeroPoint + slope) slope in
      let prediction := ordinalRequest * slope + intercept + oldest in
      if prediction <? timePoint then None else Some prediction
  end.

Definition needsMoreSamples (p : t) : bool := size p <? kMinimumSamplesForPrediction p.

Section SetPeriod.

(** the key of [mRateMap.begin()] *)
Context (begin : gmap Z (Z * Z) -> Z).

(** the map of models is bounded *)
Definition make_room (p : t) : t :=
  if Nat.eqb (base.size (mRateMap p)) kSizeLimit then p <| mRateMap := delete (begin (mRateMap p)) (mRateMap p) |> else p.

Definition setPeriod (p : t) (period : Z) : t :=
  let p := make_room p in
  let p := p <| mIdealPeriod := period |> in
  let p := match mRateMap p !! period with
           | None => p <| mRateMap := <[mIdealPeriod p := (period, 0)]> (mRateMap p) |>
           | Some _ => p
           end in
  clearTimestamps p.

End SetPeriod.

End VSyncPredictor.
