(* ===== verification/VSyncPredictorTheorems.v ===== *)
(** * What the vsync predictor guarantees

    The invariant [wf] is kept by all operations; in it predictions are made, lie ahead,
    and follow the period. The predictor implements the interface [VSyncTracker]. *)

From S2P Require Import Prelude VSyncTracker VSyncPredictor.
Import VSyncPredictor.

(** ** Arithmetic *)

Lemma quot_bounds n s : 0 < s -> (0 <= n -> n - s < Z.quot n s * s <= n) /\ (n <= 0 -> n <= Z.quot n s * s < n + s).
Proof.
  intros Hs. pose proof (Z.quot_rem' n s) as H. split; intros Hn.
  - pose proof (Z.rem_bound_pos n s Hn Hs). lia.
  - pose proof (Z.rem_bound_pos_neg n s Hs Hn). lia.
Qed.

(** the multiple of the period after [a] that the code computes *)
Lemma next_multiple a s : 0 < s -> a < Z.quot (a + s) s * s < a + 2 * s /\ (0 <= a + s -> Z.quot (a + s) s * s <= a + s).
Proof. intros Hs. destruct (quot_bounds (a + s) s Hs) as [H1 H2]. destruct (Z.le_ge_cases 0 (a + s)); lia. Qed.

Lemma next_multiple' a s : 0 < s -> a < (Z.quot a s + 1) * s < a + 2 * s.
Proof. intros Hs. destruct (quot_bounds a s Hs) as [H1 H2]. destruct (Z.le_ge_cases 0 a); lia. Qed.

(** ** The invariant *)

Record wf (p : t) : Prop := {
  wf_ideal : 0 < mIdealPeriod p;
  wf_history : 0 < kHistorySize p;
  wf_percent : 0 <= kOutlierTolerancePercent p <= kMaxPercent;
  wf_known : is_Some (mRateMap p !! mIdealPeriod p);
  wf_periods : map_Forall (fun _ model => 0 < model.1) (mRateMap p);
  wf_index : 0 <= mLastTimestampIndex p /\ (mTimestamps p <> [] -> mLastTimestampIndex p < size p);
  wf_size : size p <= kHistorySize p }.

(** a model is recorded for the ideal period *)
Lemma wf_model p v : wf p -> 0 < v.1 -> wf (p <| mRateMap := <[mIdealPeriod p := v]> (mRateMap p) |>).
Proof.
  intros [] Hv. split; cbn; try done; [by rewrite lookup_insert_eq|]. by apply map_Forall_insert_2.
Qed.

Lemma wf_clear p : wf p -> wf (clearTimestamps p).
Proof. intros H. unfold clearTimestamps. destruct (mTimestamps p) as [|x l] eqn:E; [done|]. destruct H. split; cbn; try done. unfold size. cbn. lia. Qed.

Lemma wf_reject p : wf p -> wf (reject p).
Proof. intros H. apply wf_clear, wf_model; [done|apply H]. Qed.

Lemma wf_reset p : wf p -> wf (resetModel p).
Proof. apply wf_reject. Qed.

Lemma wf_new period history samples percent : 0 < period -> 0 < history -> 0 <= percent -> wf (new period history samples percent).
Proof.
  intros. unfold new, resetModel, clearTimestamps. cbn. split; cbn; try done; try lia.
  - unfold kMaxPercent. lia.
  - by rewrite lookup_insert_eq.
  - apply map_Forall_insert_2; [done|apply map_Forall_empty].
  - unfold size. cbn. lia.
Qed.

Lemma wf_setPeriod begin p period : wf p -> 0 < period -> wf (setPeriod begin p period).
Proof.
  intros [Hi Hh Hp Hk Hps Hx Hs] Hperiod. unfold setPeriod. apply wf_clear.
  assert (map_Forall (fun _ model => 0 < model.1) (mRateMap (make_room begin p))) as Hm
    by (unfold make_room; case_match; [by apply map_Forall_delete|done]).
  assert (make_room begin p = p <| mRateMap := mRateMap (make_room begin p) |>) as E by (unfold make_room; by case_match; destruct p).
  rewrite E. destruct (mRateMap (make_room begin p) !! period) as [v|] eqn:Ev; cbn; rewrite Ev; split; cbn; try done.
  - by rewrite lookup_insert_eq.
  - by apply map_Forall_insert_2.
Qed.

Lemma wf_remember p ts p' : wf p -> remember p ts = Some p' -> wf p' /\ mTimestamps p' <> [].
Proof.
  intros [Hi Hh Hp Hk Hps Hx Hs] Hr. unfold remember in Hr. destruct (size p =? kHistorySize p) eqn:E; bool_to_prop; cbn [negb] in Hr.
  - destruct (size p =? 0) eqn:E0; bool_to_prop; [done|]. injection Hr as <-. unfold next, size in *. cbn.
    assert (0 <= (mLastTimestampIndex p + 1) mod Z.of_nat (length (mTimestamps p)) < Z.of_nat (length (mTimestamps p))) as Hmod by (apply Z.mod_pos_bound; lia).
    assert (<[Z.to_nat ((mLastTimestampIndex p + 1) mod Z.of_nat (length (mTimestamps p))) := ts]> (mTimestamps p) <> []) as Hne.
    { intros H%(f_equal length). rewrite length_insert in H. simpl in H. lia. }
    split; [|done]. split; cbn; unfold size; cbn; rewrite ?length_insert; try done; lia.
  - injection Hr as <-. unfold next, size in *. cbn. rewrite length_app. cbn [length].
    assert (0 <= (mLastTimestampIndex p + 1) mod Z.of_nat (length (mTimestamps p) + 1) < Z.of_nat (length (mTimestamps p) + 1)) as Hmod by (apply Z.mod_pos_bound; lia).
    assert (mTimestamps p ++ [ts] <> []) as Hne by (by destruct (mTimestamps p)).
    split; [|done]. split; cbn; unfold size; cbn; rewrite ?length_app; try done; cbn [length]; lia.
Qed.

(** after an update the model is the ideal one, or near it *)
Lemma updated_period p b p' :
  wf p -> update_model p = Some (b, p') ->
  p' = reject p \/ exists v, p' = p <| mRateMap := <[mIdealPeriod p := v]> (mRateMap p) |> /\ 0 < v.1 < 2 * mIdealPeriod p.
Proof.
  intros Hp H. unfold update_model in H. destruct (mRateMap p !! mIdealPeriod p) as [model|]; [|done]. simpl in H.
  destruct (mTimestamps p) as [|x l]; [done|]. destruct (regression x l model.1) as [[[period intercept]|]|]; simpl in H; [|by injection H as <- <-; left|done].
  destruct (mIdealPeriod p =? 0) eqn:E0; [done|]. unfold checked in H. case_match; simpl in H; [|done].
  destruct (kOutlierTolerancePercent p <=? _) eqn:E; injection H as <- <-; [by left|]. right. exists (period, intercept). split; [done|]. simpl. bool_to_prop.
  pose proof (wf_ideal _ Hp) as Hi. pose proof (wf_percent _ Hp) as Hpc. unfold kMaxPercent in *.
  destruct (quot_bounds (Z.abs (period - mIdealPeriod p) * 100) (mIdealPeriod p) Hi) as [Hq _]. specialize (Hq ltac:(lia)).
  set (q := Z.quot _ _) in *. assert (0 <= q) by (apply Z.quot_pos; lia).
  assert (q < 100).
  { unfold uint64 in E. rewrite Z.mod_small in E; [lia|]. split; [done|]. nia. }
  nia.
Qed.

Lemma wf_update_model p b p' : wf p -> update_model p = Some (b, p') -> wf p'.
Proof. intros Hp [->|(v & -> & Hv)]%updated_period; [by apply wf_reject| |done]. apply wf_model; [done|lia]. Qed.

Lemma validate_defined p ts : wf p -> is_Some (validate p ts).
Proof.
  intros []. unfold validate. destruct (_ || _) eqn:E; [by eexists|]. apply orb_false_iff in E as [_ E%bool_decide_eq_false].
  destruct (lookup_lt_is_Some_2 (mTimestamps p) (Z.to_nat (mLastTimestampIndex p))) as [v ->].
  { destruct wf_index0 as [? Hlt]. specialize (Hlt E). unfold size in Hlt. lia. }
  simpl. destruct (mIdealPeriod p =? 0) eqn:E0; bool_to_prop; [lia|by eexists].
Qed.

Lemma remember_defined p ts : wf p -> is_Some (remember p ts).
Proof.
  intros []. unfold remember. destruct (size p =? kHistorySize p) eqn:E; bool_to_prop; cbn [negb]; [|by eexists].
  destruct (size p =? 0) eqn:E0; bool_to_prop; [lia|by eexists].
Qed.

Lemma wf_add p ts b p' : wf p -> addVsyncTimestamp p ts = Some (b, p') -> wf p'.
Proof.
  intros Hp H. unfold addVsyncTimestamp in H. destruct (validate p ts) as [[]|]; simpl in H; [| |done].
  - destruct (remember p ts) as [p1|] eqn:Er; simpl in H; [|done]. destruct (wf_remember _ _ _ Hp Er) as [Hp1 _].
    destruct (size p1 <? _); [|by eapply wf_update_model]. injection H as <- <-. apply wf_model; [done|apply Hp1].
  - injection H as <- <-. destruct (size p <? kMinimumSamplesForPrediction p); [by apply wf_clear|]. destruct Hp. by destruct (mTimestamps p) eqn:E; split; cbn; rewrite ?E.
Qed.

(** ** Predictions *)

(** the grid the predictions lie on *)
Definition anchor (p : t) : option Z :=
  match mTimestamps p with
  | [] => mKnownTimestamp p
  | x :: l => Some (min_element x l + default 0 (snd <$> mRateMap p !! mIdealPeriod p))
  end.

Definition pitch (p : t) : Z :=
  match mTimestamps p with [] => mIdealPeriod p | _ => default 0 (currentPeriod p) end.

Definition predicts (p : t) (tp y : Z) : Prop :=
  tp < y < tp + 2 * pitch p /\
  match anchor p with
  | Some a => (pitch p | y - a) /\ (a <= tp -> y <= tp + pitch p)
  | None => y = tp + pitch p
  end.

Lemma pitch_positive p : wf p -> 0 < pitch p.
Proof.
  intros []. unfold pitch, currentPeriod. destruct wf_known0 as [v Hv]. case_match; [done|]. rewrite Hv. by apply (wf_periods0 _ _ Hv).
Qed.

Lemma next_predicts p tp : wf p -> exists y, nextAnticipatedVSyncTimeFrom p tp = Some y /\ predicts p tp y.
Proof.
  intros Hp. pose proof (pitch_positive p Hp) as Hpos. destruct Hp. destruct wf_known0 as [[slope intercept] Hv].
  unfold nextAnticipatedVSyncTimeFrom, getVSyncPredictionModel, predicts, anchor, pitch, currentPeriod in *. rewrite Hv in *. simpl in *.
  destruct (mTimestamps p) as [|x l]; simpl in *.
  - destruct (mIdealPeriod p =? 0) eqn:E; bool_to_prop; [lia|]. destruct (mKnownTimestamp p) as [k|]; eexists; (split; [done|]).
    + destruct (quot_bounds (tp - k) (mIdealPeriod p) wf_ideal0). pose proof (next_multiple' (tp - k) _ wf_ideal0).
      split; [lia|]. split; [by exists (Z.quot (tp - k) (mIdealPeriod p) + 1); lia|lia].
    + rewrite Z.sub_diag, Z.quot_0_l by lia. lia.
  - destruct (slope =? 0) eqn:E; bool_to_prop; [lia|].
    destruct (next_multiple (tp - (min_element x l + intercept)) slope Hpos) as [H1 H2].
    set (q := Z.quot _ _) in *. destruct (_ <? tp) eqn:E1; bool_to_prop; [lia|]. eexists. split; [done|].
    split; [lia|]. split; [by exists q; lia|lia].
Qed.

Lemma next_monotone p tp tp' y y' :
  wf p -> tp <= tp' -> nextAnticipatedVSyncTimeFrom p tp = Some y -> nextAnticipatedVSyncTimeFrom p tp' = Some y' -> y <= y'.
Proof.
  intros [] Htp. unfold nextAnticipatedVSyncTimeFrom, getVSyncPredictionModel. destruct wf_known0 as [[slope intercept] Hv]. rewrite Hv. simpl.
  pose proof (wf_periods0 _ _ Hv) as Hslope. simpl in Hslope. destruct (mTimestamps p) as [|x l].
  - destruct (mIdealPeriod p =? 0); [done|]. destruct (mKnownTimestamp p) as [k|]; intros [= <-] [= <-].
    + pose proof (Z.quot_le_mono (tp - k) (tp' - k) (mIdealPeriod p) wf_ideal0). nia.
    + rewrite !Z.sub_diag. lia.
  - destruct (slope =? 0); [done|]. destruct (_ <? tp); [done|]. destruct (_ <? tp'); [done|]. intros [= <-] [= <-].
    pose proof (Z.quot_le_mono (tp - (min_element x l + intercept) + slope) (tp' - (min_element x l + intercept) + slope) slope Hslope). nia.
Qed.

(** ** The models stay near their periods *)

Definition bounded (longest : Z) (p : t) : Prop := mIdealPeriod p <= longest /\ map_Forall (fun _ model => model.1 <= 2 * longest) (mRateMap p).

Lemma bounded_model longest p v : bounded longest p -> v.1 <= 2 * longest -> bounded longest (p <| mRateMap := <[mIdealPeriod p := v]> (mRateMap p) |>).
Proof. intros [H1 H2] Hv. split; [done|]. by apply map_Forall_insert_2. Qed.

Lemma bounded_clear longest p : bounded longest p -> bounded longest (clearTimestamps p).
Proof. intros H. unfold clearTimestamps. by destruct (mTimestamps p). Qed.

Lemma bounded_reject longest p : wf p -> bounded longest p -> bounded longest (reject p).
Proof. intros Hp H. apply bounded_clear, bounded_model; [done|]. destruct H. pose proof (wf_ideal p Hp). simpl. lia. Qed.

Lemma bounded_setPeriod longest begin p period : bounded longest p -> 0 < period <= longest -> bounded longest (setPeriod begin p period).
Proof.
  intros [H1 H2] Hperiod. unfold setPeriod. apply bounded_clear.
  assert (map_Forall (fun _ model => model.1 <= 2 * longest) (mRateMap (make_room begin p))) as Hm
    by (unfold make_room; case_match; [by apply map_Forall_delete|done]).
  cbn. case_match; split; cbn; try lia; [done|]. apply map_Forall_insert_2; [simpl; lia|done].
Qed.

Lemma bounded_add longest p ts b p' : wf p -> bounded longest p -> addVsyncTimestamp p ts = Some (b, p') -> bounded longest p'.
Proof.
  intros Hp Hb H. unfold addVsyncTimestamp in H. destruct (validate p ts) as [[]|]; simpl in H; [| |done].
  - destruct (remember p ts) as [p1|] eqn:Er; simpl in H; [|done]. destruct (wf_remember _ _ _ Hp Er) as [Hp1 _].
    assert (bounded longest p1) as Hb1.
    { unfold remember in Er. destruct (negb _); [by injection Er as <-|]. destruct (size p =? 0); [done|by injection Er as <-]. }
    destruct (size p1 <? _); [injection H as <- <-; apply bounded_model; [done|destruct Hb1; pose proof (wf_ideal p1 Hp1); simpl; lia]|].
    eapply updated_period in H; [|done]. destruct H as [->|(v & -> & Hv)]; [by apply bounded_reject|]. apply bounded_model; [done|]. destruct Hb1. lia.
  - injection H as <- <-. destruct (size p <? kMinimumSamplesForPrediction p); [by apply bounded_clear|]. by destruct (mTimestamps p).
Qed.

(** ** The predictor as a tracker *)

Section Tracker.

Context (begin : gmap Z (Z * Z) -> Z) (longest : Z).

#[export] Instance predictor_tracker : VSyncTracker VSyncPredictor.t := {|
  VSyncTracker.addVsyncTimestamp := addVsyncTimestamp;
  VSyncTracker.nextAnticipatedVSyncTimeFrom := nextAnticipatedVSyncTimeFrom;
  VSyncTracker.currentPeriod := currentPeriod;
  VSyncTracker.setPeriod := setPeriod begin;
  VSyncTracker.resetModel := resetModel;
  VSyncTracker.needsMoreSamples := needsMoreSamples |}.

Definition predictor_ok (p : t) : Prop := wf p /\ bounded longest p.

Lemma pitch_bounded p : predictor_ok p -> pitch p <= 2 * longest.
Proof.
  intros [Hp [H1 H2]]. pose proof (wf_ideal p Hp). unfold pitch, currentPeriod. destruct (wf_known p Hp) as [v Hv]. rewrite Hv.
  destruct (mTimestamps p); [lia|]. by apply (H2 _ _ Hv).
Qed.

#[export] Program Instance predictor_laws : VSyncTrackerLaws VSyncPredictor.t := {| tracker_ok := predictor_ok; max_period := longest; horizon := 4 * longest |}.
Next Obligation. intros p x Hp. destruct (next_predicts p x (proj1 Hp)) as (y & Hy & [Hb _]). pose proof (pitch_bounded p Hp). exists y. split; [done|lia]. Qed.
Next Obligation.
  intros p [Hp [H1 H2]]. simpl. unfold currentPeriod. destruct (wf_known p Hp) as [v Hv]. rewrite Hv. eexists. split; [done|].
  pose proof (wf_periods p Hp _ _ Hv). pose proof (H2 _ _ Hv). pose proof (wf_ideal p Hp). simpl in *. lia.
Qed.
Next Obligation. intros p x b p' [Hp Hb] H. split; [by eapply wf_add|by eapply bounded_add]. Qed.
Next Obligation. intros p period [Hp Hb] H. split; [apply wf_setPeriod; [done|lia]|by apply bounded_setPeriod]. Qed.
Next Obligation. intros p [Hp Hb]. split; [by apply wf_reset|by apply bounded_reject]. Qed.

End Tracker.

Section Run.

Context (begin : gmap Z (Z * Z) -> Z).

(** the operations that change the state *)
Inductive op := Add (timestamp : Z) | SetPeriod (period : Z) | Reset.

Definition perform (p : t) (o : op) : option t :=
  match o with
  | Add timestamp => snd <$> addVsyncTimestamp p timestamp
  | SetPeriod period => Some (setPeriod begin p period)
  | Reset => Some (resetModel p)
  end.

Definition op_ok (o : op) : Prop := match o with SetPeriod period => 0 < period | _ => True end.

Fixpoint run (p : t) (os : list op) : option t :=
  match os with [] => Some p | o :: os' => p ← perform p o; run p os' end.

Lemma wf_run os p p' : wf p -> Forall op_ok os -> run p os = Some p' -> wf p'.
Proof.
  revert p. induction os as [|o os IH]; intros p Hp Hos H; [by injection H as <-|]. inversion Hos; subst. simpl in H.
  destruct (perform p o) as [p1|] eqn:E; [|done]. simpl in H. eapply IH; [|done..].
  destruct o; simpl in E; [|injection E as <-; by apply wf_setPeriod|injection E as <-; by apply wf_reset].
  destruct (addVsyncTimestamp p timestamp) as [[b p2]|] eqn:Ea; [|done]. injection E as <-. by eapply wf_add.
Qed.

(** C34: The vsync predictor, from whatever timestamps, period changes and resets have
    reached it, answers every query (neither the missing model, nor a zero period, nor the
    fatal check fails); the prediction lies after the time asked for and less than two
    periods away, it is on the grid of the model, and is the first grid point after a time
    not before the grid's anchor; predictions are monotone in the time. *)
Theorem predictions_ahead period history samples percent os p :
  0 < period -> 0 < history -> 0 <= percent -> Forall op_ok os ->
  run (new period history samples percent) os = Some p ->
  0 < pitch p /\
  (forall tp, exists y, nextAnticipatedVSyncTimeFrom p tp = Some y /\ predicts p tp y) /\
  (forall tp tp' y y', tp <= tp' -> nextAnticipatedVSyncTimeFrom p tp = Some y -> nextAnticipatedVSyncTimeFrom p tp' = Some y' -> y <= y').
Proof.
  intros H1 H2 H3 Hos H. pose proof (wf_run os _ _ (wf_new period history samples percent H1 H2 H3) Hos H) as Hp.
  split_and!; [by apply pitch_positive|intros tp; by apply next_predicts|]. intros. by eapply next_monotone.
Qed.

End Run.

Definition recorded_ops : list op :=
  [Add 1000; Add 1100; Add 1205; Add 1300; SetPeriod 50; Add 1352; Add 1401; Add 1449; Add 1501; Reset; Add 1551; Add 1599; Add 1650; SetPeriod 100].

Lemma predictions_ahead_witness :
  exists p, run (fun _ => 0) (new 100 4 3 20) recorded_ops = Some p /\ nextAnticipatedVSyncTimeFrom p 1660 = Some 1750 /\ 0 < pitch p.
Proof.
  eexists. split; [vm_compute; reflexivity|]. split; [vm_compute; reflexivity|].
  eapply (predictions_ahead (fun _ => 0) 100 4 3 20 recorded_ops); [lia..| |vm_compute; reflexivity]. repeat constructor.
Defined.
