(* ===== verification/VSyncRegression.v ===== *)
(** * The arithmetic of the vsync regression

    When the sums and products of the regression fit in [int64_t], when they do not, and
    what the comparison on [size_t] in [validate] accepts. *)

From S2P Require Import Prelude VSyncPredictor VSyncPredictorTheorems.
Import VSyncPredictor.

Definition INT64_MAX : Z := 9223372036854775807.

Lemma checked_fits z : Z.abs z <= INT64_MAX -> checked z = Some z.
Proof.
  intros H. unfold checked. unfold INT64_MAX in H. by replace (_ && _) with true by (symmetry; apply andb_true_iff; split; apply Z.leb_le; lia).
Qed.

(** ** Sums *)

Lemma accumulate_fits l B sum :
  Forall (fun x => 0 <= x <= B) l -> 0 <= sum -> sum + Z.of_nat (length l) * B <= INT64_MAX ->
  exists s, accumulate sum l = Some s /\ sum <= s <= sum + Z.of_nat (length l) * B.
Proof.
  revert sum. induction l as [|x l IH]; intros sum Hl Hsum Hb; [by eexists; split; [done|]; simpl; lia|].
  inversion Hl; subst. simpl length in *. rewrite Nat2Z.inj_succ in *.
  assert (0 <= Z.of_nat (length l) * B) by nia. simpl. rewrite checked_fits by lia. simpl.
  destruct (IH (sum + x)) as (s & -> & Hs); [done|lia|lia|]. exists s. split; [done|lia].
Qed.

Lemma mean_fits l B :
  l <> [] -> Forall (fun x => 0 <= x <= B) l -> Z.of_nat (length l) * B <= INT64_MAX ->
  exists m, calculate_mean l = Some m /\ 0 <= m <= B.
Proof.
  intros Hne Hl Hb. unfold calculate_mean. destruct (accumulate_fits l B 0 Hl ltac:(lia) ltac:(lia)) as (s & -> & Hs). simpl.
  rewrite bool_decide_false by done. eexists. split; [done|].
  assert (0 < Z.of_nat (length l)) by (destruct l; [done|simpl; lia]). split; [apply Z.quot_pos; lia|].
  apply (Z.mul_le_mono_pos_r _ _ (Z.of_nat (length l))); [done|]. destruct (quot_bounds s (Z.of_nat (length l))) as [Hq _]; [done|]. specialize (Hq ltac:(lia)). lia.
Qed.

Lemma slope_sums_fits points A B top bottom :
  Forall (fun pt => Z.abs pt.1 <= A /\ Z.abs pt.2 <= B) points -> 0 <= bottom ->
  Z.abs top + Z.of_nat (length points) * (A * B) <= INT64_MAX -> bottom + Z.of_nat (length points) * (B * B) <= INT64_MAX ->
  exists top' bottom', slope_sums points top bottom = Some (top', bottom') /\
    Z.abs top' <= Z.abs top + Z.of_nat (length points) * (A * B) /\ bottom <= bottom' /\
    Forall (fun pt => bottom + pt.2 * pt.2 <= bottom') points /\
    (Forall (fun pt => pt.2 = 0) points -> bottom' = bottom).
Proof.
  revert top bottom. induction points as [|[y x] points IH]; intros top bottom Hl Hb Ht Hbb.
  { exists top, bottom. split; [done|]. split_and!; [simpl; lia..|constructor|done]. }
  inversion Hl as [|? ? [Hy Hx] Hl']; subst. simpl fst in *. simpl snd in *. simpl length in *. rewrite Nat2Z.inj_succ in *.
  assert (Z.abs (y * x) <= A * B) by (rewrite Z.abs_mul; apply Z.mul_le_mono_nonneg; lia).
  assert (0 <= x * x <= B * B) by nia.
  assert (0 <= Z.of_nat (length points) * (A * B)) by nia. assert (0 <= Z.of_nat (length points) * (B * B)) by nia.
  simpl. rewrite (checked_fits (y * x)) by lia. simpl. rewrite (checked_fits (top + y * x)) by lia. simpl.
  rewrite (checked_fits (x * x)) by lia. simpl. rewrite (checked_fits (bottom + x * x)) by lia. simpl.
  destruct (IH (top + y * x) (bottom + x * x)) as (top' & bottom' & -> & G1 & G2 & G3 & G4); [done|lia..|].
  exists top', bottom'. split; [done|]. split_and!; [lia|lia| |].
  - constructor; [simpl; lia|]. eapply Forall_impl; [exact G3|]. simpl. lia.
  - intros [H5 H6]%Forall_cons. simpl in H5. rewrite (G4 H6). subst. lia.
Qed.

(** ** The spread of the ordinals *)

Lemma accumulate_constant n o sum s : accumulate sum (replicate n o) = Some s -> s = sum + Z.of_nat n * o.
Proof.
  revert sum. induction n as [|n IH]; intros sum H; simpl in H; [injection H as <-; lia|].
  unfold checked in H. case_match; [|done]. simpl in H. apply IH in H. lia.
Qed.

(** The ordinals are multiples of the scaling factor: they all equal their mean, or one is
    half a factor away from it. *)
Lemma ordinals_spread l m :
  Forall (fun o => (kScalingFactor | o)) l -> calculate_mean l = Some m ->
  Forall (fun o => o = m) l \/ Exists (fun o => 500 <= Z.abs (o - m)) l.
Proof.
  intros Hl Hm. destruct (decide (Exists (fun o => 500 <= Z.abs (o - m)) l)) as [|Hn]; [by right|left].
  apply not_Exists_Forall in Hn; [|intros ?; apply _]. unfold calculate_mean in Hm. destruct l as [|o l']; [constructor|].
  assert (o :: l' = replicate (length (o :: l')) o) as E.
  { symmetry. apply replicate_as_elem_of. split; [done|]. intros o' Ho'.
    rewrite Forall_forall in Hn, Hl. pose proof (Hn o ltac:(left)). pose proof (Hn o' Ho'). simpl in *.
    destruct (Hl o ltac:(left)) as [k ?], (Hl o' Ho') as [k' ?]. unfold kScalingFactor in *. lia. }
  destruct (accumulate 0 (o :: l')) as [s|] eqn:Es; [|done]. cbn [mbind option_bind] in Hm. rewrite bool_decide_false in Hm by done.
  rewrite E in Es. apply accumulate_constant in Es. injection Hm as <-. subst s. rewrite Z.add_0_l.
  rewrite (Z.mul_comm _ o), Z.quot_mul by (simpl; lia). rewrite E. apply Forall_replicate. done.
Qed.

(** ** The regression within a second *)

Definition second : Z := 1000000000.

(** 240 Hz *)
Definition shortest_period : Z := 4000000.

Definition within_a_second (l : list Z) : Prop := forall a b, a ∈ l -> b ∈ l -> a - b <= second.

Lemma min_element_spec x l : min_element x l ∈ x :: l /\ Forall (fun y => min_element x l <= y) (x :: l).
Proof.
  unfold min_element. revert x. induction l as [|y l IH]; intros x; simpl; [split; [by left|by repeat constructor]|].
  destruct (IH (Z.min x y)) as [Hin Hall]. inversion_clear Hall as [|? ? Hle Hl]. split.
  - apply elem_of_cons in Hin as [->|Hin]; [|by do 2 right]. destruct (Z.min_spec x y) as [[_ ->]|[_ ->]]; [by left|right; by left].
  - constructor; [lia|]. constructor; [lia|done].
Qed.

(** the offsets from the oldest timestamp, and their ordinals *)
Definition offsets (x : Z) (l : list Z) : list Z := map (fun ts => ts - min_element x l) (x :: l).

Lemma offsets_bound x l : within_a_second (x :: l) -> Forall (fun o => 0 <= o <= second) (offsets x l).
Proof.
  intros H. destruct (min_element_spec x l) as [Hin Hall]. apply Forall_map, Forall_forall. intros y Hy. simpl.
  rewrite Forall_forall in Hall. specialize (Hall _ Hy). specialize (H _ _ Hy Hin). simpl in Hall. lia.
Qed.

Lemma ordinal_bound cp o : shortest_period <= cp -> 0 <= o <= second -> 0 <= ordinal cp o <= 251000 /\ (kScalingFactor | ordinal cp o).
Proof.
  unfold shortest_period, second, ordinal, kScalingFactor. intros Hcp Ho. split; [|by eexists].
  assert (0 <= Z.quot cp 2 < cp) as Hh by (split; [apply Z.quot_pos; lia|apply Z.quot_lt; lia]).
  destruct (quot_bounds (o + Z.quot cp 2) cp) as [Hq _]; [lia|]. specialize (Hq ltac:(lia)). set (q := Z.quot (o + _) cp) in *.
  assert (0 <= q) by (apply Z.quot_pos; lia). nia.
Qed.

Lemma centered_points (ts os : list Z) mt mo T O :
  Forall (fun x => 0 <= x <= T) ts -> Forall (fun o => 0 <= o <= O) os -> 0 <= mt <= T -> 0 <= mo <= O ->
  Forall (fun pt => Z.abs pt.1 <= T /\ Z.abs pt.2 <= O) (zip (map (fun x => x - mt) ts) (map (fun o => o - mo) os)).
Proof.
  intros Ht Ho. revert os Ho. induction Ht as [|x ts Hx Ht IH]; intros os Ho Hmt Hmo; [constructor|].
  destruct Ho as [|o os Ho Hos]; [constructor|]. simpl. constructor; [simpl; lia|by apply IH].
Qed.

Lemma second_coordinates (ts os : list Z) mt mo (P : Z -> Prop) :
  length ts = length os ->
  Forall (fun pt => P pt.2) (zip (map (fun x => x - mt) ts) (map (fun o => o - mo) os)) <-> Forall (fun o => P (o - mo)) os.
Proof.
  intros H. revert os H. induction ts as [|x ts IH]; intros [|o os] H; simpl in *; [by split; constructor|done|done|].
  rewrite !Forall_cons, IH by lia. done.
Qed.

Lemma regression_fits x l cp :
  shortest_period <= cp -> (length (x :: l) <= 20)%nat -> within_a_second (x :: l) ->
  exists r, regression x l cp = Some r /\ match r with Some (period, _) => Z.abs period <= 20080000000000 | None => True end.
Proof.
  intros Hcp Hlen Hw. unfold regression. destruct (cp =? 0) eqn:E0; bool_to_prop; [unfold shortest_period in Hcp; lia|]. fold (offsets x l).
  pose proof (offsets_bound x l Hw) as Ho. set (ts := offsets x l) in *. set (os := map (ordinal cp) ts).
  assert (Forall (fun o => 0 <= o <= 251000) os /\ Forall (fun o => (kScalingFactor | o)) os) as [Hos Hk].
  { split; apply Forall_map; (eapply Forall_impl; [exact Ho|]); intros o Hb; by apply ordinal_bound. }
  assert (length ts = length (x :: l) /\ length os = length ts) as [Hlt Hlo] by (unfold os, ts, offsets; by rewrite !length_map).
  assert (0 < length ts)%nat by (rewrite Hlt; simpl; lia). unfold second in *. clearbody os. clearbody ts.
  destruct (mean_fits ts 1000000000) as (mt & -> & Hmt); [by intros E; rewrite E in *; simpl in *; lia|done|unfold INT64_MAX; lia|].
  destruct (mean_fits os 251000) as (mo & Emo & Hmo); [by intros E; rewrite E in *; simpl in *; lia|done|unfold INT64_MAX; lia|].
  rewrite Emo. simpl. set (points := zip _ _).
  assert (length points <= 20)%nat by (unfold points; rewrite length_zip_with, !length_map; lia).
  destruct (slope_sums_fits points 1000000000 251000 0 0) as (top & bottom & -> & Htop & Hbottom & Hsq & Hz);
    [by apply centered_points|lia|unfold INT64_MAX; simpl; lia..|].
  simpl. destruct (bottom =? 0) eqn:Eb; bool_to_prop; [by eexists|].
  assert (250000 <= bottom) as Hbig.
  { destruct (ordinals_spread os mo Hk Emo) as [Hall|(o & Hin & Hge)%Exists_exists].
    - destruct Eb. apply Hz. apply (second_coordinates ts os mt mo (fun z => z = 0)); [done|]. eapply Forall_impl; [exact Hall|]. simpl. lia.
    - apply (second_coordinates ts os mt mo (fun z => 0 + z * z <= bottom)) in Hsq; [|done]. rewrite Forall_forall in Hsq. specialize (Hsq _ Hin). simpl in Hsq. nia. }
  unfold kScalingFactor. rewrite checked_fits by (unfold INT64_MAX; lia). simpl.
  assert (Z.abs (Z.quot (top * 1000) bottom) <= 20080000000000) as Hq.
  { destruct (quot_bounds (top * 1000) bottom) as [Hq1 Hq2]; [lia|]. set (q := Z.quot _ _) in *. destruct (Z.le_ge_cases 0 (top * 1000)) as [Hp|Hp].
    - specialize (Hq1 Hp). nia.
    - specialize (Hq2 Hp). nia. }
  rewrite checked_fits by (unfold INT64_MAX; rewrite Z.abs_mul; nia). simpl. eexists. split; [done|]. done.
Qed.

(** ** Adding a timestamp *)

Lemma remember_keeps p ts p' :
  remember p ts = Some p' ->
  (forall x, x ∈ mTimestamps p' -> x ∈ ts :: mTimestamps p) /\ mRateMap p' = mRateMap p /\ mIdealPeriod p' = mIdealPeriod p /\
  kHistorySize p' = kHistorySize p /\ kMinimumSamplesForPrediction p' = kMinimumSamplesForPrediction p.
Proof.
  unfold remember. destruct (negb _); [|destruct (size p =? 0); [done|]]; intros [= <-]; cbn; split_and!; try done; intros x Hx.
  - apply elem_of_app in Hx as [Hx|Hx%list_elem_of_singleton]; [by right|subst; by left].
  - apply list_elem_of_lookup_1 in Hx as [i Hi]. apply list_lookup_insert_Some in Hi as [(_ & <- & _)|[_ Hi]]; [by left|right; by eapply list_elem_of_lookup_2].
Qed.

Lemma update_model_fits p cp :
  wf p -> mTimestamps p <> [] -> kHistorySize p <= 20 -> mIdealPeriod p <= second -> currentPeriod p = Some cp -> shortest_period <= cp ->
  within_a_second (mTimestamps p) -> is_Some (update_model p).
Proof.
  intros Hp Hne Hh Hi Hcp Hshort Hw. pose proof (wf_size p Hp) as Hs. pose proof (wf_ideal p Hp). unfold update_model, currentPeriod in *. destruct (mRateMap p !! mIdealPeriod p) as [model|]; [|done].
  injection Hcp as <-. simpl. unfold size in Hs. destruct (mTimestamps p) as [|x l]; [done|].
  destruct (regression_fits x l model.1) as (r & -> & Hr); [done|lia|done|]. simpl. destruct r as [[period intercept]|]; [|by eexists].
  destruct (mIdealPeriod p =? 0) eqn:E0; bool_to_prop; [lia|]. unfold kMaxPercent, second in *. rewrite checked_fits by (unfold INT64_MAX; lia).
  simpl. destruct (_ <=? _); by eexists.
Qed.

(** C40: In the configuration of the scheduler (a history of at most twenty timestamps) and
    for display rates up to 240 Hz, adding a timestamp to the predictor is defined as long
    as the retained timestamps and the new one lie within a second of each other: no sum or
    product of the regression leaves [int64_t], nothing is divided by zero and no index is
    out of range. *)
Theorem samples_within_a_second p ts cp :
  wf p -> kHistorySize p <= 20 -> mIdealPeriod p <= second -> currentPeriod p = Some cp -> shortest_period <= cp ->
  within_a_second (ts :: mTimestamps p) -> is_Some (addVsyncTimestamp p ts).
Proof.
  intros Hp Hh Hi Hcp Hshort Hw. unfold addVsyncTimestamp. destruct (validate_defined p ts Hp) as [[] ->]; simpl; [|by eexists].
  destruct (remember_defined p ts Hp) as [p' E]. rewrite E. simpl. destruct (size p' <? _); [by eexists|].
  destruct (wf_remember _ _ _ Hp E) as [Hp' Hne]. destruct (remember_keeps _ _ _ E) as (Hin & Hm & Hid & Hk & _).
  apply (update_model_fits p' cp); [done|done|lia|by rewrite Hid|by unfold currentPeriod; rewrite Hm, Hid|done|].
  intros a b Ha%Hin Hb%Hin. by apply Hw.
Qed.

(** a display at 60 Hz, with the scheduler's constants *)
Definition display : t := new 16666666 20 6 20.

Fixpoint feed (p : t) (l : list Z) : option t :=
  match l with [] => Some p | ts :: l' => r ← addVsyncTimestamp p ts; feed r.2 l' end.

Lemma wf_feed l : forall p p', wf p -> feed p l = Some p' -> wf p'.
Proof.
  induction l as [|ts l IH]; intros p p' Hp E; simpl in E; [by injection E as <-|]. destruct (addVsyncTimestamp p ts) as [[b p1]|] eqn:Ea; simpl in E; [|done].
  eapply IH; [by eapply wf_add|exact E].
Qed.

(** the display after ten vsyncs that come a little late and early in turn *)
Definition jitter (i : nat) : Z := Z.of_nat i * 16666666 + (if Nat.even i then 100000 else -100000).
Definition ticking : t := default display (feed display (map jitter (seq 1 10))).

Definition within_a_secondb (l : list Z) : bool := forallb (fun a => forallb (fun b => a - b <=? second) l) l.
Lemma within_a_secondb_sound l : within_a_secondb l = true -> within_a_second l.
Proof.
  unfold within_a_secondb. rewrite forallb_forall. intros H a b Ha Hb. rewrite list_elem_of_In in Ha, Hb. specialize (H a Ha). rewrite forallb_forall in H. by apply Z.leb_le, H.
Qed.

(** the regression runs on eleven timestamps and changes the model *)
Lemma samples_within_a_second_witness : is_Some (addVsyncTimestamp ticking (jitter 11)) /\ size ticking = 10 /\ (mRateMap ticking !! 16666666 <> Some (16666666, 0)).
Proof.
  split; [|split; [vm_compute; reflexivity|vm_compute; congruence]].
  apply (samples_within_a_second ticking (jitter 11) (default 0 (currentPeriod ticking))); [|vm_compute; congruence|vm_compute; congruence|vm_compute; reflexivity|vm_compute; congruence|].
  - apply (wf_feed (map jitter (seq 1 10)) display); [apply (wf_new 16666666 20 6 20); lia|vm_compute; reflexivity].
  - apply within_a_secondb_sound. vm_compute. reflexivity.
Defined.

(** One sample per second is more than the regression can hold: at 60 Hz and with the
    scheduler's constants, timestamps that are each accepted as lying on the period, but
    come one second apart, make [top * kScalingFactor] overflow (undefined behaviour) when
    the thirteenth arrives. *)
Theorem sparse_samples_overflow :
  is_Some (feed display (map (fun i => Z.of_nat i * (60 * 16666666)) (seq 0 12))) /\
  feed display (map (fun i => Z.of_nat i * (60 * 16666666)) (seq 0 13)) = None.
Proof. split; [eexists; vm_compute; reflexivity|by vm_compute]. Qed.

(** [validate] does not check a timestamp that is earlier than the last one: whatever
    its distance to the period, the negative percentage is compared as a [size_t] and the
    timestamp is taken. (The same distance after the last one is refused.) *)
Theorem early_timestamps_accepted p last ts :
  wf p -> mTimestamps p !! Z.to_nat (mLastTimestampIndex p) = Some last -> mIdealPeriod p * kMaxPercent <= INT64_MAX ->
  Z.quot (Z.rem (ts - last) (mIdealPeriod p) * kMaxPercent) (mIdealPeriod p) < 0 -> validate p ts = Some true.
Proof.
  intros Hp Hl Hfit Hneg. pose proof (wf_ideal p Hp) as Hi. pose proof (wf_percent p Hp) as Hpc. unfold validate. destruct (_ || _); [done|]. rewrite Hl. simpl.
  destruct (mIdealPeriod p =? 0) eqn:E; bool_to_prop; [lia|]. f_equal. apply orb_true_iff. right. apply Z.ltb_lt.
  set (q := Z.quot _ _) in *. unfold kMaxPercent in *. assert (- 100 <= q) as Hq.
  { destruct (quot_bounds (Z.rem (ts - last) (mIdealPeriod p) * 100) (mIdealPeriod p) Hi) as [Hq1 Hq2]. fold q in Hq1, Hq2.
    pose proof (Z.rem_bound_abs (ts - last) (mIdealPeriod p) ltac:(lia)) as Hr. destruct (Z.le_ge_cases 0 (Z.rem (ts - last) (mIdealPeriod p) * 100)) as [H|H]; [specialize (Hq1 H)|specialize (Hq2 H)]; nia. }
  unfold uint64. rewrite (Z.mod_small (100 - _)) by lia.
  rewrite <- (Z.mod_add q 1), (Z.mod_small (q + _)) by lia. lia.
Qed.

Definition one_sample : t := mk 4 3 20 100 None {[100 := (100, 0)]} 0 [1000].

Lemma early_timestamps_accepted_witness :
  feed (new 100 4 3 20) [1000] = Some one_sample /\ validate one_sample 1050 = Some false /\ validate one_sample 950 = Some true.
Proof.
  split; [by vm_compute|]. split; [by vm_compute|].
  apply (early_timestamps_accepted one_sample 1000 950); [|reflexivity|vm_compute; congruence|reflexivity].
  apply (wf_add (new 100 4 3 20) 1000 true); [apply (wf_new 100 4 3 20); lia|by vm_compute].
Defined.
