(* ===== verification/VSyncDispatch.v ===== *)
(** * VSyncDispatchTimerQueue (services/surfaceflinger/Scheduler/VSyncDispatchTimerQueue.cpp)

    Callbacks that are to run a given time before a vsync. Each registered callback has an
    entry, armed with the wakeup time for its target vsync; one timer is set for the
    earliest wakeup, and when it fires, all entries that are due are dispatched together.

    - [Entry] is [VSyncDispatchTimerQueueEntry], [Queue] is [VSyncDispatchTimerQueue], with
      the single alarm of its [TimeKeeper] (Timer.cpp) as a field. The tracker, which the
      dispatcher shares with the reactor, is an argument of the operations that use it.
    - The clock readings an operation makes are its arguments [now]; so is the [order] in
      which an unordered_map is iterated.
    - An operation is [None] where the code would dereference an empty optional, where the
      sum with [mIntendedWakeupTime] leaves [int64_t], where the tracker fails, and when a
      time reaches [kInvalidTime].
    - [Registration] is [VSyncCallbackRegistration]. Traces, names and the two
      timestamps kept for debugging are left out. *)

From S2P Require Import Prelude VSyncTracker VSyncPredictor.

(** [std::numeric_limits<int64_t>::max()] *)
Definition kInvalidTime : Z := 9223372036854775807.

Inductive ScheduleResult := Scheduled | CannotSchedule | ScheduleError.
Inductive CancelResult := Cancelled | TooLate | CancelError.

Module Entry.

Record ArmingInfo := arming { mActualWakeupTime : Z; mActualVsyncTime : Z }.
Record WorkloadUpdateInfo := workload { duration : Z; earliestVsync : Z }.

Record t := mk {
  mWorkDuration : Z;
  mEarliestVsync : Z;
  mMinVsyncDistance : Z;
  mArmedInfo : option ArmingInfo;
  mLastDispatchTime : option Z;
  mWorkloadUpdateInfo : option WorkloadUpdateInfo }.

Definition eta (e : t) : t :=
  mk (mWorkDuration e) (mEarliestVsync e) (mMinVsyncDistance e) (mArmedInfo e) (mLastDispatchTime e) (mWorkloadUpdateInfo e).
#[global] Instance set_mWorkDuration : Setter mWorkDuration := ltac:(setter_of eta mWorkDuration).
#[global] Instance set_mEarliestVsync : Setter mEarliestVsync := ltac:(setter_of eta mEarliestVsync).
#[global] Instance set_mArmedInfo : Setter mArmedInfo := ltac:(setter_of eta mArmedInfo).
#[global] Instance set_mLastDispatchTime : Setter mLastDispatchTime := ltac:(setter_of eta mLastDispatchTime).
#[global] Instance set_mWorkloadUpdateInfo : Setter mWorkloadUpdateInfo := ltac:(setter_of eta mWorkloadUpdateInfo).

Definition new (minVsyncDistance : Z) : t := mk 0 0 minVsyncDistance None None None.

Definition wakeupTime (e : t) : option Z := mActualWakeupTime <$> mArmedInfo e.
Definition targetVsync (e : t) : option Z := mActualVsyncTime <$> mArmedInfo e.
Definition lastExecutedVsyncTarget (e : t) : option Z := mLastDispatchTime e.
Definition hasPendingWorkloadUpdate (e : t) : bool := match mWorkloadUpdateInfo e with Some _ => true | None => false end.

(** the times for a target, which have to be times *)
Definition arming_for (nextVsyncTime workDuration : Z) : option ArmingInfo :=
  if (nextVsyncTime <? kInvalidTime) && (nextVsyncTime - workDuration <? kInvalidTime)
  then Some (arming (nextVsyncTime - workDuration) nextVsyncTime) else None.

Section Tracker.

Context {T : Type} `{!VSyncTracker T}.

Definition schedule (e : t) (workDuration earliestVsync : Z) (tracker : T) (now : Z) : option (ScheduleResult * t) :=
  nextVsyncTime ← nextAnticipatedVSyncTimeFrom tracker (Z.max earliestVsync (now + workDuration));
  let wouldSkipAVsyncTarget :=
    match mArmedInfo e with Some info => mActualVsyncTime info + mMinVsyncDistance e <? nextVsyncTime | None => false end in
  if wouldSkipAVsyncTarget then Some (Scheduled, e)
  else
    nextVsyncTime ←
      match mLastDispatchTime e with
      | Some last =>
        if (nextVsyncTime <=? last + mMinVsyncDistance e) && (last - mMinVsyncDistance e <=? nextVsyncTime)
        then nextAnticipatedVSyncTimeFrom tracker (last + mMinVsyncDistance e)
        else Some nextVsyncTime
      | None => Some nextVsyncTime
      end;
    info ← arming_for nextVsyncTime workDuration;
    Some (Scheduled,
      e <| mWorkDuration := workDuration |>
        <| mEarliestVsync := earliestVsync |>
        <| mArmedInfo := Some info |>).

Definition addPendingWorkloadUpdate (e : t) (workDuration earliestVsync : Z) : t :=
  e <| mWorkloadUpdateInfo := Some (workload workDuration earliestVsync) |>.

Definition update (e : t) (tracker : T) (now : Z) : option t :=
  match mArmedInfo e, mWorkloadUpdateInfo e with
  | None, None => Some e
  | _, pending =>
    let e :=
      match pending with
      | Some info =>
        e <| mEarliestVsync := earliestVsync info |>
          <| mWorkDuration := duration info |>
          <| mWorkloadUpdateInfo := None |>
      | None => e
      end in
    nextVsyncTime ← nextAnticipatedVSyncTimeFrom tracker (Z.max (mEarliestVsync e) (now + mWorkDuration e));
    info ← arming_for nextVsyncTime (mWorkDuration e);
    Some (e <| mArmedInfo := Some info |>)
  end.

End Tracker.

Definition disarm (e : t) : t := e <| mArmedInfo := None |>.

Definition executing (e : t) : option (Z * t) :=
  info ← mArmedInfo e;
  let e := disarm (e <| mLastDispatchTime := Some (mActualVsyncTime info) |>) in
  last ← mLastDispatchTime e;
  Some (last, e).

End Entry.

Module Queue.

Record t := mk {
  mTimerSlack : Z;
  mMinVsyncDistance : Z;
  mCallbackToken : Z;
  mCallbacks : gmap Z Entry.t;
  mIntendedWakeupTime : Z;
  (** when the timer of [mTimeKeeper] will expire *)
  alarm : option Z }.

Definition eta (q : t) : t :=
  mk (mTimerSlack q) (mMinVsyncDistance q) (mCallbackToken q) (mCallbacks q) (mIntendedWakeupTime q) (alarm q).
#[global] Instance set_mCallbackToken : Setter mCallbackToken := ltac:(setter_of eta mCallbackToken).
#[global] Instance set_mCallbacks : Setter mCallbacks := ltac:(setter_of eta mCallbacks).
#[global] Instance set_mIntendedWakeupTime : Setter mIntendedWakeupTime := ltac:(setter_of eta mIntendedWakeupTime).
#[global] Instance set_alarm : Setter alarm := ltac:(setter_of eta alarm).

Definition new (timerSlack minVsyncDistance : Z) : t :=
  mk timerSlack minVsyncDistance 0 ∅ kInvalidTime None.

(** [Timer::alarmAt] and [Timer::alarmCancel] *)
Definition alarmAt (q : t) (time : Z) : t := q <| alarm := Some time |>.
Definition alarmCancel (q : t) : t := q <| alarm := None |>.

Definition cancelTimer (q : t) : t := alarmCancel (q <| mIntendedWakeupTime := kInvalidTime |>).

Definition setTimer (q : t) (targetTime : Z) : t :=
  let q := q <| mIntendedWakeupTime := targetTime |> in
  alarmAt q (mIntendedWakeupTime q).

Record Invocation := invocation { callback : Z; vsyncTimestamp : Z; wakeupTimestamp : Z }.

Section Tracker.

Context {T : Type} `{!VSyncTracker T}.

(** one entry of the loop that finds the earliest wakeup *)
Definition rearm_entry (tracker : T) (now : Z) (skipped : bool) (e : Entry.t) (min : option Z) : option (Entry.t * option Z) :=
  if (match Entry.wakeupTime e with None => true | Some _ => false end) && negb (Entry.hasPendingWorkloadUpdate e) then Some (e, min)
  else
    e ← (if skipped then Some e else Entry.update e tracker now);
    wakeupTime ← Entry.wakeupTime e;
    Some (e, Some (match min with
                   | Some min => if wakeupTime <? min then wakeupTime else min
                   | None => wakeupTime
                   end)).

Fixpoint rearm_loop (tracker : T) (now : Z) (skip : option Z) (order : list Z) (callbacks : gmap Z Entry.t) (min : option Z) :
    option (gmap Z Entry.t * option Z) :=
  match order with
  | [] => Some (callbacks, min)
  | k :: order' =>
    e ← callbacks !! k;
    r ← rearm_entry tracker now (bool_decide (skip = Some k)) e min;
    rearm_loop tracker now skip order' (<[k := r.1]> callbacks) r.2
  end.

Definition rearmTimerSkippingUpdateFor (q : t) (tracker : T) (now : Z) (skip : option Z) (order : list Z) : option t :=
  r ← rearm_loop tracker now skip order (mCallbacks q) None;
  let q := q <| mCallbacks := r.1 |> in
  match r.2 with
  | Some min => if min <? mIntendedWakeupTime q then Some (setTimer q min) else Some (cancelTimer q)
  | None => Some (cancelTimer q)
  end.

Definition rearmTimer (q : t) (tracker : T) (now : Z) (order : list Z) : option t :=
  rearmTimerSkippingUpdateFor q tracker now None order.

(** the entries that are due are marked and collected *)
Fixpoint collect (now intended slack : Z) (order : list Z) (callbacks : gmap Z Entry.t) : option (gmap Z Entry.t * list Invocation) :=
  match order with
  | [] => Some (callbacks, [])
  | k :: order' =>
    e ← callbacks !! k;
    match Entry.wakeupTime e with
    | None => collect now intended slack order' callbacks
    | Some wakeupTime =>
      let lagAllowance := Z.max (now - intended) 0 in
      limit ← checked (intended + slack);
      limit ← checked (limit + lagAllowance);
      if wakeupTime <? limit then
        r ← Entry.executing e;
        last ← Entry.lastExecutedVsyncTarget r.2;
        rest ← collect now intended slack order' (<[k := r.2]> callbacks);
        Some (rest.1, invocation k last wakeupTime :: rest.2)
      else collect now intended slack order' callbacks
    end
  end.

(** the part of [timerCallback] under the mutex; the invocations are run after it *)
Definition timerCallback (q : t) (tracker : T) (now now' : Z) (order order' : list Z) : option (list Invocation * t) :=
  r ← collect now (mIntendedWakeupTime q) (mTimerSlack q) order (mCallbacks q);
  let q := q <| mCallbacks := r.1 |> in
  let q := q <| mIntendedWakeupTime := kInvalidTime |> in
  q ← rearmTimer q tracker now' order';
  Some (r.2, q).

Definition registerCallback (q : t) : Z * t :=
  let q := q <| mCallbackToken := mCallbackToken q + 1 |> in
  let token := mCallbackToken q in
  (token, match mCallbacks q !! token with
          | Some _ => q
          | None => q <| mCallbacks := <[token := Entry.new (mMinVsyncDistance q)]> (mCallbacks q) |>
          end).

(** The entry that is erased, which the caller then waits for. *)
Definition unregisterCallback (q : t) (token : Z) : option Entry.t * t :=
  (mCallbacks q !! token, q <| mCallbacks := delete token (mCallbacks q) |>).

Definition schedule (q : t) (token workDuration earliestVsync : Z) (tracker : T) (now : Z) (order : list Z) : option (ScheduleResult * t) :=
  match mCallbacks q !! token with
  | None => Some (ScheduleError, q)
  | Some e =>
    if mIntendedWakeupTime q <? now then
      Some (Scheduled, q <| mCallbacks := <[token := Entry.addPendingWorkloadUpdate e workDuration earliestVsync]> (mCallbacks q) |>)
    else
      r ← Entry.schedule e workDuration earliestVsync tracker now;
      let q := q <| mCallbacks := <[token := r.2]> (mCallbacks q) |> in
      match r.1 with
      | CannotSchedule => Some (r.1, q)
      | _ =>
        if match Entry.wakeupTime r.2 with Some w => w <? mIntendedWakeupTime q - mTimerSlack q | None => true end
        then q ← rearmTimerSkippingUpdateFor q tracker now (Some token) order; Some (r.1, q)
        else Some (r.1, q)
      end
  end.

Definition cancel (q : t) (token : Z) (tracker : T) (now : Z) (order : list Z) : option (CancelResult * t) :=
  match mCallbacks q !! token with
  | None => Some (CancelError, q)
  | Some e =>
    match Entry.wakeupTime e with
    | Some wakeupTime =>
      let q := q <| mCallbacks := <[token := Entry.disarm e]> (mCallbacks q) |> in
      if wakeupTime =? mIntendedWakeupTime q then
        let q := q <| mIntendedWakeupTime := kInvalidTime |> in
        q ← rearmTimer q tracker now order;
        Some (Cancelled, q)
      else Some (Cancelled, q)
    | None => Some (TooLate, q)
    end
  end.

End Tracker.

End Queue.

(** ** The handle of a client *)

Module Registration.

Record t := mk { mToken : Z; mValidToken : bool }.

Definition new (q : Queue.t) : t * Queue.t :=
  let '(token, q) := Queue.registerCallback q in (mk token true, q).

(** the move constructor: the new handle, and the one moved from *)
Definition move (other : t) : t * t := (mk (mToken other) (mValidToken other), mk (mToken other) false).

(** [this], [other] after the move assignment *)
Definition assign (this other : t) : t * t := (mk (mToken other) (mValidToken other), mk (mToken other) false).

Definition destroy (r : t) (q : Queue.t) : option Entry.t * Queue.t :=
  if mValidToken r then Queue.unregisterCallback q (mToken r) else (None, q).

Section Tracker.

Context {T : Type} `{!VSyncTracker T}.

Definition schedule (r : t) (q : Queue.t) (workDuration earliestVsync : Z) (tracker : T) (now : Z) (order : list Z) :
    option (ScheduleResult * Queue.t) :=
  if negb (mValidToken r) then Some (ScheduleError, q)
  else Queue.schedule q (mToken r) workDuration earliestVsync tracker now order.

Definition cancel (r : t) (q : Queue.t) (tracker : T) (now : Z) (order : list Z) : option (CancelResult * Queue.t) :=
  if negb (mValidToken r) then Some (CancelError, q) else Queue.cancel q (mToken r) tracker now order.

End Tracker.

End Registration.
