(* ===== verification/VSyncDispatchInvariant.v ===== *)
(** * The invariant of the vsync dispatcher

    Proved against the laws of the interface [VSyncTracker]: with bounded arguments no
    operation fails; whenever a callback is armed or has a pending update the timer is set,
    and set no later than the slack after the callback's wakeup time. *)

From S2P Require Import Prelude VSyncTracker VSyncPredictor VSyncDispatch.

(** what the times given to the dispatcher are bounded by: 18 years *)
Definition time_limit : Z := 576460752303423488.

Definition iterates {A} (order : list Z) (m : gmap Z A) : Prop := NoDup order /\ forall k, k ∈ order <-> is_Some (m !! k).

Lemma iterates_dom {A B} order (m : gmap Z A) (m' : gmap Z B) :
  iterates order m -> (forall k, is_Some (m' !! k) <-> is_Some (m !! k)) -> iterates order m'.
Proof. intros [Hn H] Hm. split; [done|]. intros k. by rewrite H, Hm. Qed.

Section Invariant.

Context {T : Type} `{!VSyncTracker T, !VSyncTrackerLaws T}.
Context (horizon_fits : horizon (T := T) <= time_limit).

Definition sane (tracker : T) (now : Z) : Prop := tracker_ok tracker /\ 0 <= now <= time_limit.

Definition request_ok (workDuration earliestVsync : Z) : Prop := Z.abs workDuration <= time_limit /\ earliestVsync <= time_limit.

(** ** Entries *)

Record entry_ok (e : Entry.t) : Prop := {
  entry_request : request_ok (Entry.mWorkDuration e) (Entry.mEarliestVsync e);
  entry_distance : 0 <= Entry.mMinVsyncDistance e <= time_limit;
  entry_pending info : Entry.mWorkloadUpdateInfo e = Some info -> request_ok (Entry.duration info) (Entry.earliestVsync info);
  entry_armed info : Entry.mArmedInfo e = Some info ->
    Entry.mActualWakeupTime info + Entry.mWorkDuration e = Entry.mActualVsyncTime info /\ 0 <= Entry.mActualWakeupTime info <= 7 * time_limit }.

Lemma arming_fits y work : y <= 6 * time_limit -> Z.abs work <= time_limit -> Entry.arming_for y work = Some (Entry.arming (y - work) y).
Proof.
  unfold time_limit, Entry.arming_for, kInvalidTime. intros. by replace (_ && _) with true by (symmetry; apply andb_true_iff; split; apply Z.ltb_lt; lia).
Qed.

Lemma entry_ok_new distance : 0 <= distance <= time_limit -> entry_ok (Entry.new distance).
Proof. intros H. by split. Qed.

Lemma entry_ok_disarm e : entry_ok e -> entry_ok (Entry.disarm e).
Proof. intros []. by split. Qed.

Lemma entry_ok_pending e work earliest : entry_ok e -> request_ok work earliest -> entry_ok (Entry.addPendingWorkloadUpdate e work earliest).
Proof. intros [] H. split; cbn; try done. by intros info [= <-]. Qed.

Lemma entry_ok_arm e work earliest y pending :
  entry_ok e -> request_ok work earliest -> y <= 6 * time_limit -> 0 <= y - work -> (pending = None \/ pending = Entry.mWorkloadUpdateInfo e) ->
  entry_ok (Entry.mk work earliest (Entry.mMinVsyncDistance e) (Some (Entry.arming (y - work) y)) (Entry.mLastDispatchTime e) pending).
Proof.
  intros [] [Hr1 Hr2] Hy Hw Hp. split; cbn; try done; [by destruct Hp as [-> | ->]; auto|]. intros info [= <-]. cbn. lia.
Qed.

(** What scheduling does: the callback stays armed for its target when the vsync found is
    beyond it, and is armed otherwise, for a vsync far enough from the last dispatch, which
    wakes it neither in the past nor before the vsync asked for. *)
Lemma schedule_spec e work earliest tracker now :
  entry_ok e -> sane tracker now -> request_ok work earliest ->
  exists e', Entry.schedule e work earliest tracker now = Some (Scheduled, e') /\ entry_ok e' /\
    Entry.mWorkloadUpdateInfo e' = Entry.mWorkloadUpdateInfo e /\ Entry.mLastDispatchTime e' = Entry.mLastDispatchTime e /\
    ((e' = e /\ is_Some (Entry.wakeupTime e)) \/
     exists y, Entry.mArmedInfo e' = Some (Entry.arming (y - work) y) /\ now <= y - work /\ earliest <= y /\
       forall last, Entry.mLastDispatchTime e = Some last -> y < last - Entry.mMinVsyncDistance e \/ last + Entry.mMinVsyncDistance e <= y).
Proof.
  intros He (Ht & Hnow) [Hr1 Hr2]. unfold Entry.schedule.
  destruct (next_ahead tracker (Z.max earliest (now + work)) Ht) as (y & -> & Hy1 & Hy2). cbn [mbind option_bind].
  destruct (match Entry.mArmedInfo e with Some _ => _ | None => _ end) eqn:Eskip.
  { exists e. split_and!; try done. left. split; [done|]. unfold Entry.wakeupTime. destruct (Entry.mArmedInfo e); [by eexists|done]. }
  pose proof (entry_distance e He) as Hd. clear Eskip.
  destruct (Entry.mLastDispatchTime e) as [last|] eqn:El.
  - destruct (_ && _) eqn:Eb; bool_to_prop.
    + destruct (next_ahead tracker (last + Entry.mMinVsyncDistance e) Ht) as (z & -> & Hz1 & Hz2). cbn [mbind option_bind].
      rewrite arming_fits by lia. cbn [mbind option_bind]. eexists. split; [done|]. split; [apply (entry_ok_arm e work earliest); [done|done|lia|lia|by right]|]. split_and!; try done.
      right. exists z. split_and!; [done|lia|lia|]. intros ? [= <-]. lia.
    + cbn [mbind option_bind]. rewrite arming_fits by lia. cbn [mbind option_bind]. eexists. split; [done|].
      split; [apply (entry_ok_arm e work earliest); [done|done|lia|lia|by right]|]. split_and!; try done.
      right. exists y. split_and!; [done|lia|lia|]. intros ? [= <-]. destruct Eb; bool_to_prop; lia.
  - cbn [mbind option_bind]. rewrite arming_fits by lia. cbn [mbind option_bind]. eexists. split; [done|].
    split; [apply (entry_ok_arm e work earliest); [done|done|lia|lia|by right]|]. split_and!; try done. right. exists y. split_and!; [done|lia|lia|done].
Qed.

Definition active (e : Entry.t) : bool := match Entry.wakeupTime e with Some _ => true | None => Entry.hasPendingWorkloadUpdate e end.

(** an update: the entry is armed for a wakeup not in the past, and nothing is pending *)
Lemma update_spec e tracker now :
  entry_ok e -> sane tracker now -> active e = true ->
  exists e' w, Entry.update e tracker now = Some e' /\ entry_ok e' /\ Entry.wakeupTime e' = Some w /\ now <= w /\ Entry.hasPendingWorkloadUpdate e' = false.
Proof.
  intros He (Ht & Hnow) Ha. unfold Entry.update.
  assert (exists work earliest, request_ok work earliest /\
    (match Entry.mWorkloadUpdateInfo e with
     | Some info => e <| Entry.mEarliestVsync := Entry.earliestVsync info |> <| Entry.mWorkDuration := Entry.duration info |> <| Entry.mWorkloadUpdateInfo := None |>
     | None => e end) = Entry.mk work earliest (Entry.mMinVsyncDistance e) (Entry.mArmedInfo e) (Entry.mLastDispatchTime e) None) as (work & earliest & Hr & E).
  { destruct (Entry.mWorkloadUpdateInfo e) as [info|] eqn:Ep.
    - exists (Entry.duration info), (Entry.earliestVsync info). split; [by apply (entry_pending e He)|done].
    - exists (Entry.mWorkDuration e), (Entry.mEarliestVsync e). split; [apply He|]. destruct e. cbn in *. by rewrite Ep. }
  destruct (next_ahead tracker (Z.max earliest (now + work)) Ht) as (y & Ey & Hy1 & Hy2). destruct Hr as [Hr1 Hr2].
  exists (Entry.mk work earliest (Entry.mMinVsyncDistance e) (Some (Entry.arming (y - work) y)) (Entry.mLastDispatchTime e) None), (y - work).
  split; [|split_and!; [apply entry_ok_arm; [done|done|lia|lia|by left]|done|lia|done]].
  unfold active, Entry.wakeupTime, Entry.hasPendingWorkloadUpdate in Ha.
  destruct (Entry.mArmedInfo e), (Entry.mWorkloadUpdateInfo e); try done; cbv zeta; rewrite E; cbn;
    rewrite Ey; cbn [mbind option_bind]; by rewrite arming_fits by lia.
Qed.

(** ** The earliest wakeup *)

(** the minimum found covers an entry *)
Definition covered (min : option Z) (e : Entry.t) : Prop :=
  active e = true -> exists w m, Entry.wakeupTime e = Some w /\ min = Some m /\ m <= w.

Definition no_later (min' min : option Z) : Prop := forall m, min = Some m -> exists m', min' = Some m' /\ m' <= m.

Lemma covered_no_later min min' e : no_later min' min -> covered min e -> covered min' e.
Proof. intros Hn Hc (w & m & Hw & Hm & Hle)%Hc. destruct (Hn m Hm) as (m' & -> & ?). exists w, m'. split_and!; [done|done|lia]. Qed.

Lemma rearm_entry_spec tracker now skipped e min :
  entry_ok e -> sane tracker now -> (skipped = true -> is_Some (Entry.wakeupTime e)) ->
  exists e' min', Queue.rearm_entry tracker now skipped e min = Some (e', min') /\ entry_ok e' /\ (skipped = true -> e' = e) /\
    covered min' e' /\ no_later min' min /\ (min' = min \/ (is_Some min' /\ min' = Entry.wakeupTime e')).
Proof.
  intros He Hs Hskip. unfold Queue.rearm_entry. destruct (_ && _) eqn:E.
  { bool_to_prop. exists e, min. split_and!; try done; [|by intros m ->; exists m|by left]. intros Ha. unfold active in Ha. destruct (Entry.wakeupTime e); [done|congruence]. }
  assert (exists e' w, (if skipped then Some e else Entry.update e tracker now) = Some e' /\ Entry.wakeupTime e' = Some w /\ entry_ok e' /\ (skipped = true -> e' = e)) as (e' & w & -> & Hw & He' & Hsk).
  { destruct skipped; [destruct (Hskip eq_refl) as [w Hw]; by exists e, w|]. destruct (update_spec e tracker now He Hs) as (e' & w & ? & ? & ? & _); [|by exists e', w].
    unfold active. destruct (Entry.wakeupTime e); [done|]. by destruct (Entry.hasPendingWorkloadUpdate e). }
  cbn [mbind option_bind]. rewrite Hw. cbn [mbind option_bind]. eexists _, _. split; [done|]. split; [done|]. split; [done|]. rewrite Hw. split; [|split].
  - intros _. eexists w, _. split_and!; [done..|]. destruct min; [|lia]. destruct (w <? z) eqn:Ew; bool_to_prop; lia.
  - intros m ->. eexists. split; [done|]. destruct (w <? m) eqn:Ew; bool_to_prop; lia.
  - destruct min as [m|]; [destruct (w <? m)|]; eauto.
Qed.

Lemma rearm_loop_spec tracker now skip order cb min :
  sane tracker now -> NoDup order -> (forall k, k ∈ order -> is_Some (cb !! k)) -> map_Forall (fun _ => entry_ok) cb ->
  (forall k e, skip = Some k -> cb !! k = Some e -> is_Some (Entry.wakeupTime e)) ->
  exists cb' min', Queue.rearm_loop tracker now skip order cb min = Some (cb', min') /\
    map_Forall (fun _ => entry_ok) cb' /\ (forall k, is_Some (cb' !! k) <-> is_Some (cb !! k)) /\ (forall k, k ∉ order \/ skip = Some k -> cb' !! k = cb !! k) /\
    (forall k e, k ∈ order -> cb' !! k = Some e -> covered min' e) /\ no_later min' min /\
    (min' = min \/ exists k e, k ∈ order /\ cb' !! k = Some e /\ is_Some min' /\ min' = Entry.wakeupTime e).
Proof.
  intros Hs. revert cb min. induction order as [|k order IH]; intros cb min Hnd Hin Hok Hskip.
  { exists cb, min. split_and!; try done; [intros k e Hk; by apply not_elem_of_nil in Hk|by intros m ->; exists m|by left]. }
  apply NoDup_cons in Hnd as [Hk Hnd]. destruct (Hin k ltac:(left)) as [e Ee]. cbn [Queue.rearm_loop]. rewrite Ee. cbn [mbind option_bind].
  destruct (rearm_entry_spec tracker now (bool_decide (skip = Some k)) e min) as (e' & min1 & -> & He' & Hsame & Hcov & Hno & Hmin); [by eapply Hok|done| |].
  { intros Hd%bool_decide_eq_true. by eapply Hskip. }
  cbn [mbind option_bind fst snd]. rewrite bool_decide_eq_true in Hsame.
  destruct (IH (<[k := e']> cb) min1) as (cb' & min' & -> & Hok' & Hdom & Hout & Hcov' & Hno' & Hmin'); [done| | | |].
  { intros k' Hk'. destruct (decide (k' = k)) as [->|]; [by rewrite lookup_insert_eq|]. rewrite lookup_insert_ne by done. apply Hin. by right. }
  { by apply map_Forall_insert_2. }
  { intros k' e1 Hsk. destruct (decide (k' = k)) as [->|]; [|rewrite lookup_insert_ne by done; by apply Hskip].
    rewrite lookup_insert_eq, (Hsame Hsk). intros [= <-]. by eapply Hskip. }
  assert (cb' !! k = Some e') as Ek by (rewrite Hout by (by left); by rewrite lookup_insert_eq).
  exists cb', min'. split; [done|]. split_and!; [done| | | | |].
  - intros k'. rewrite Hdom. destruct (decide (k' = k)) as [->|]; [by rewrite lookup_insert_eq, Ee|by rewrite lookup_insert_ne].
  - intros k' Hk'. destruct (decide (k' = k)) as [->|Hne].
    + destruct Hk' as [Hk'|Hk']; [by destruct Hk'; left|]. by rewrite Ek, Ee, (Hsame Hk').
    + rewrite Hout, lookup_insert_ne; [done|done|]. destruct Hk' as [Hk'|]; [|by right]. left. set_solver.
  - intros k' e1 [->|Hk']%elem_of_cons He1; [|by eapply Hcov']. rewrite Ek in He1. injection He1 as <-. by eapply covered_no_later.
  - intros m (m1 & Hm1 & Hle)%Hno. destruct (Hno' m1 Hm1) as (m' & -> & ?). exists m'. split; [done|lia].
  - destruct Hmin' as [->|(k' & e1 & Hk' & ? & ? & ?)]; [|right; exists k', e1; split_and!; try done; by right].
    destruct Hmin as [->|[? ?]]; [by left|right]. exists k, e'. split_and!; try done. by left.
Qed.

(** ** The queue *)

(** the part that does not concern the timer *)
Record queue_base (q : Queue.t) : Prop := {
  queue_slack : 0 <= Queue.mTimerSlack q <= time_limit;
  queue_distance : 0 <= Queue.mMinVsyncDistance q <= time_limit;
  queue_entries : map_Forall (fun _ => entry_ok) (Queue.mCallbacks q);
  queue_tokens k : is_Some (Queue.mCallbacks q !! k) -> k <= Queue.mCallbackToken q }.

(** the timer is set for every callback that is waiting *)
Record queue_ok (q : Queue.t) : Prop := {
  queue_base_ok : queue_base q;
  queue_intended : Queue.mIntendedWakeupTime q = kInvalidTime \/ 0 <= Queue.mIntendedWakeupTime q <= 7 * time_limit;
  queue_armed k e w : Queue.mCallbacks q !! k = Some e -> Entry.wakeupTime e = Some w ->
    Queue.mIntendedWakeupTime q <> kInvalidTime /\ Queue.mIntendedWakeupTime q <= w + Queue.mTimerSlack q;
  queue_pending k e : Queue.mCallbacks q !! k = Some e -> Entry.hasPendingWorkloadUpdate e = true -> Queue.mIntendedWakeupTime q <> kInvalidTime;
  queue_alarm time : Queue.alarm q = Some time -> time = Queue.mIntendedWakeupTime q }.

Definition settled (q : Queue.t) : Prop := Queue.mIntendedWakeupTime q <> kInvalidTime -> Queue.alarm q = Some (Queue.mIntendedWakeupTime q).

Definition same_tokens (q q' : Queue.t) : Prop := forall k, is_Some (Queue.mCallbacks q' !! k) <-> is_Some (Queue.mCallbacks q !! k).

Lemma wakeup_bound e w : entry_ok e -> Entry.wakeupTime e = Some w -> 0 <= w <= 7 * time_limit.
Proof. intros He. unfold Entry.wakeupTime. destruct (Entry.mArmedInfo e) as [info|] eqn:E; [|done]. intros [= <-]. by apply (entry_armed e He info). Qed.

Lemma rearm_spec q tracker now skip order :
  queue_base q -> sane tracker now -> iterates order (Queue.mCallbacks q) ->
  match skip with
  | None => Queue.mIntendedWakeupTime q = kInvalidTime
  | Some k => exists e w, Queue.mCallbacks q !! k = Some e /\ Entry.wakeupTime e = Some w /\ w < Queue.mIntendedWakeupTime q
  end ->
  exists q', Queue.rearmTimerSkippingUpdateFor q tracker now skip order = Some q' /\ queue_ok q' /\ settled q' /\ same_tokens q q'.
Proof.
  intros [] Hs [Hnd Hiter] Hpre. unfold Queue.rearmTimerSkippingUpdateFor.
  destruct (rearm_loop_spec tracker now skip order (Queue.mCallbacks q) None) as (cb & min & -> & Hok & Hdom & Hout & Hcov & _ & Hmin); [done|done|by intros k ?%Hiter|done| |].
  { intros k e -> He. destruct Hpre as (e' & w & He' & Hw & _). rewrite He in He'. injection He' as <-. by eexists. }
  cbn [mbind option_bind fst snd].
  assert (forall k e, cb !! k = Some e -> covered min e) as Hall by (intros k e He; apply (Hcov k); [apply Hiter, Hdom; by eexists|done]).
  assert (forall m, min = Some m -> 0 <= m <= 7 * time_limit) as Hbound.
  { intros m ->. destruct Hmin as [|(k & e & _ & He & _ & Hw)]; [done|]. eapply wakeup_bound; [by eapply Hok|done]. }
  assert (forall m, min = Some m -> m < Queue.mIntendedWakeupTime q) as Hless.
  { intros m ->. specialize (Hbound m eq_refl). destruct skip as [k|]; [|rewrite Hpre; unfold kInvalidTime, time_limit in *; lia].
    destruct Hpre as (e & w & He & Hw & Hlt). rewrite <- Hout in He by (by right). destruct (Hall k e He) as (w' & m' & Hw' & [= <-] & Hle); [by unfold active; rewrite Hw|].
    rewrite Hw in Hw'. injection Hw' as <-. lia. }
  destruct min as [m|].
  - cbn. specialize (Hless m eq_refl). specialize (Hbound m eq_refl). rewrite (proj2 (Z.ltb_lt _ _) Hless).
    assert (m <> kInvalidTime) by (unfold kInvalidTime, time_limit in *; lia).
    eexists. split; [done|]. split; [|split; [by intros ?|exact Hdom]]. split; cbn; [split; cbn; try done; by intros k ?%Hdom%queue_tokens0|by right| |done|congruence].
    intros k e w He Hw. split; [done|]. destruct (Hall k e He) as (w' & m' & Hw' & [= <-] & Hle); [by unfold active; rewrite Hw|]. rewrite Hw in Hw'. injection Hw' as <-. lia.
  - assert (forall k e, cb !! k = Some e -> active e = false) as Hnone.
    { intros k e He. destruct (active e) eqn:Ea; [|done]. by destruct (Hall k e He Ea) as (? & ? & ? & ? & ?). }
    eexists. split; [done|]. split; [|split; [intros Hc; by destruct Hc|exact Hdom]]. split; cbn; [split; cbn; try done; by intros k ?%Hdom%queue_tokens0|by left| | |done].
    + intros k e w He%Hnone Hw. unfold active in He. by rewrite Hw in He.
    + intros k e He%Hnone Hp. unfold active in He. destruct (Entry.wakeupTime e); congruence.
Qed.

End Invariant.
