(* ===== verification/VSyncDispatchOps.v ===== *)
(** * The operations of the vsync dispatcher keep its invariant

    and what each of them does. *)

From S2P Require Import Prelude VSyncTracker VSyncPredictor VSyncDispatch VSyncDispatchInvariant.

Lemma checked_small z : Z.abs z <= 15 * time_limit -> checked z = Some z.
Proof.
  unfold time_limit, checked. intros. by replace (_ && _) with true by (symmetry; apply andb_true_iff; split; apply Z.leb_le; lia).
Qed.

(** ** Collecting what is due *)

Definition due (limit : Z) (e : Entry.t) : bool := match Entry.wakeupTime e with Some w => w <? limit | None => false end.

(** an entry after it was marked as executing, if it was due *)
Definition dispatched (limit : Z) (e : Entry.t) : Entry.t :=
  if due limit e then Entry.disarm (e <| Entry.mLastDispatchTime := Entry.targetVsync e |>) else e.

Definition due_invocation (limit : Z) (cb : gmap Z Entry.t) (k : Z) : option Queue.Invocation :=
  e ← cb !! k;
  info ← Entry.mArmedInfo e;
  if Entry.mActualWakeupTime info <? limit
  then Some (Queue.invocation k (Entry.mActualVsyncTime info) (Entry.mActualWakeupTime info)) else None.

Lemma entry_ok_dispatched limit e : entry_ok e -> entry_ok (dispatched limit e).
Proof. intros He. unfold dispatched. destruct (due limit e); [|done]. apply entry_ok_disarm. destruct He. by split. Qed.

Lemma due_invocations_ext limit cb cb' (order : list Z) :
  (forall k, k ∈ order -> cb' !! k = cb !! k) -> omap (due_invocation limit cb') order = omap (due_invocation limit cb) order.
Proof.
  induction order as [|j order IH]; intros H; [done|]. cbn. assert (due_invocation limit cb' j = due_invocation limit cb j) as ->.
  { unfold due_invocation. rewrite H by (by left). done. }
  rewrite IH; [done|]. intros k Hk. apply H. by right.
Qed.

Lemma collect_spec now intended slack order cb :
  NoDup order -> (forall k, k ∈ order -> is_Some (cb !! k)) -> 0 <= slack <= time_limit -> 0 <= now <= time_limit ->
  (forall k e w, cb !! k = Some e -> Entry.wakeupTime e = Some w -> 0 <= intended <= 7 * time_limit) ->
  exists cb', Queue.collect now intended slack order cb = Some (cb', omap (due_invocation (Z.max now intended + slack) cb) order) /\
    forall k, cb' !! k = if decide (k ∈ order) then dispatched (Z.max now intended + slack) <$> cb !! k else cb !! k.
Proof.
  set (limit := Z.max now intended + slack). intros Hnd Hin Hslack Hnow Hb. revert cb Hin Hb.
  induction order as [|k order IH]; intros cb Hin Hb; [by exists cb|]. apply NoDup_cons in Hnd as [Hk Hnd].
  destruct (Hin k ltac:(left)) as [e Ee].
  assert (forall cb', cb' !! k = Some (dispatched limit e) -> (forall k', k' <> k -> cb' !! k' = cb !! k') ->
    exists cb'', Queue.collect now intended slack order cb' = Some (cb'', omap (due_invocation limit cb) order) /\
      forall k', cb'' !! k' = if decide (k' ∈ k :: order) then dispatched limit <$> cb !! k' else cb !! k') as Hrest.
  { intros cb' Ek Hne. destruct (IH Hnd cb') as (cb'' & -> & Hcb).
    - intros k' Hk'. rewrite Hne by (by intros ->). apply Hin. by right.
    - intros k' e' w He' Hw. destruct (decide (k' = k)) as [->|Hk']; [|rewrite Hne in He' by done; by eapply Hb].
      rewrite Ek in He'. injection He' as <-. unfold dispatched in Hw. destruct (due limit e); [done|by eapply Hb].
    - exists cb''. split; [do 2 f_equal|].
      + apply due_invocations_ext. intros j Hj. apply Hne. by intros ->.
      + intros k'. rewrite Hcb. destruct (decide (k' = k)) as [->|Hk'].
        * rewrite decide_False by done. rewrite decide_True by (by left). by rewrite Ek, Ee.
        * rewrite Hne by done. destruct (decide (k' ∈ order)); [by rewrite decide_True by (by right)|]. rewrite decide_False; [done|]. set_solver. }
  cbn [Queue.collect omap list_omap]. unfold due_invocation at 1. rewrite Ee. cbn [mbind option_bind].
  unfold dispatched, due, Entry.wakeupTime, Entry.targetVsync, Entry.executing in *. destruct (Entry.mArmedInfo e) as [info|] eqn:Ei; cbn [fmap option_fmap option_map mbind option_bind] in *.
  - assert (0 <= intended <= 7 * time_limit) as Hi by (eapply (Hb k e); [done|by rewrite Ei]).
    rewrite (checked_small (intended + slack)) by lia. cbn [mbind option_bind]. rewrite (checked_small (_ + _)) by lia. cbn [mbind option_bind].
    replace (intended + slack + Z.max (now - intended) 0) with limit by (unfold limit; lia).
    destruct (_ <? limit) eqn:El.
    + cbn. destruct (Hrest (<[k := Entry.disarm (e <| Entry.mLastDispatchTime := Some (Entry.mActualVsyncTime info) |>)]> cb)) as (cb'' & Hc & Hcb);
        [by rewrite lookup_insert_eq|by intros; rewrite lookup_insert_ne|]. exists cb''. by rewrite Hc.
    + by apply Hrest.
  - by apply Hrest.
Qed.

(** ** What the loop that rearms the timer leaves alone *)

Section Ops.

Context {T : Type} `{!VSyncTracker T, !VSyncTrackerLaws T}.
Context (horizon_fits : horizon (T := T) <= time_limit).

Lemma update_keeps e (tracker : T) now e' :
  Entry.update e tracker now = Some e' -> Entry.mLastDispatchTime e' = Entry.mLastDispatchTime e /\ (active e = false -> e' = e) /\ (active e = true -> active e' = true).
Proof.
  unfold Entry.update, active, Entry.wakeupTime, Entry.hasPendingWorkloadUpdate.
  destruct (Entry.mArmedInfo e), (Entry.mWorkloadUpdateInfo e); cbn; intros H;
    repeat match type of H with context [?x ≫= _] => destruct x; cbn in H; [|done] end; by injection H as <-.
Qed.

Lemma rearm_keeps tracker now skip order cb min cb' min' :
  Queue.rearm_loop (T := T) tracker now skip order cb min = Some (cb', min') ->
  forall k e, cb !! k = Some e -> exists e', cb' !! k = Some e' /\ Entry.mLastDispatchTime e' = Entry.mLastDispatchTime e /\
    (active e = false -> e' = e) /\ (active e = true -> active e' = true).
Proof.
  revert cb min. induction order as [|j order IH]; intros cb min H k e He; cbn in H; [injection H as <- <-; by exists e|].
  destruct (cb !! j) as [ej|] eqn:Ej; [|done]. cbn in H. destruct (Queue.rearm_entry _ _ _ _ _) as [[e1 m1]|] eqn:Er; [|done]. cbn in H.
  assert (Entry.mLastDispatchTime e1 = Entry.mLastDispatchTime ej /\ (active ej = false -> e1 = ej) /\ (active ej = true -> active e1 = true)) as (Hl & Ha & Hb).
  { unfold Queue.rearm_entry in Er. destruct (_ && _); [by injection Er as <- <-|]. destruct (bool_decide _); cbn in Er.
    - destruct (Entry.wakeupTime ej); [|done]. by injection Er as <- <-.
    - destruct (Entry.update ej tracker now) as [e2|] eqn:Eu; [|done]. cbn in Er. destruct (Entry.wakeupTime e2); [|done]. injection Er as <- <-. by eapply update_keeps. }
  destruct (decide (k = j)) as [->|Hne].
  - rewrite Ej in He. injection He as <-. destruct (IH _ _ H j e1) as (e' & -> & Hl' & Ha' & Hb'); [by rewrite lookup_insert_eq|].
    exists e'. split_and!; [done|congruence| |by auto]. intros Hej. specialize (Ha Hej). subst. by apply Ha'.
  - apply (IH _ _ H). by rewrite lookup_insert_ne.
Qed.

(** ** The operations of the queue *)

(** replacing the entry of a registered callback *)
Lemma queue_base_insert q k e : queue_base q -> is_Some (Queue.mCallbacks q !! k) -> entry_ok e -> queue_base (q <| Queue.mCallbacks := <[k := e]> (Queue.mCallbacks q) |>).
Proof.
  intros [] Hk He. split; cbn; try done; [by apply map_Forall_insert_2|]. intros k'. destruct (decide (k' = k)) as [->|]; [by intros _; apply queue_tokens|]. rewrite lookup_insert_ne by done. apply queue_tokens.
Qed.

Lemma queue_ok_insert q k e :
  queue_ok q -> is_Some (Queue.mCallbacks q !! k) -> entry_ok e ->
  (forall w, Entry.wakeupTime e = Some w -> Queue.mIntendedWakeupTime q <> kInvalidTime /\ Queue.mIntendedWakeupTime q <= w + Queue.mTimerSlack q) ->
  (Entry.hasPendingWorkloadUpdate e = true -> Queue.mIntendedWakeupTime q <> kInvalidTime) ->
  queue_ok (q <| Queue.mCallbacks := <[k := e]> (Queue.mCallbacks q) |>).
Proof.
  intros Hq Hk He Hw Hp. destruct Hq. split; cbn; try done; [by apply queue_base_insert| |].
  - intros k' e'. destruct (decide (k' = k)) as [->|]; [by rewrite lookup_insert_eq; intros w [= <-]; apply Hw|rewrite lookup_insert_ne by done; apply queue_armed].
  - intros k' e'. destruct (decide (k' = k)) as [->|]; [by rewrite lookup_insert_eq; intros [= <-]|rewrite lookup_insert_ne by done; apply queue_pending].
Qed.

Lemma same_tokens_insert q k e : is_Some (Queue.mCallbacks q !! k) -> same_tokens q (q <| Queue.mCallbacks := <[k := e]> (Queue.mCallbacks q) |>).
Proof. intros Hk k'. cbn. destruct (decide (k' = k)) as [->|]; [by rewrite lookup_insert_eq|by rewrite lookup_insert_ne]. Qed.

Lemma register_ok q : queue_ok q -> queue_ok (Queue.registerCallback q).2.
Proof.
  intros [[] Hi Ha Hp Hal]. unfold Queue.registerCallback. cbn. set (k := Queue.mCallbackToken q + 1).
  destruct (Queue.mCallbacks q !! k) as [e|] eqn:E; [specialize (queue_tokens k ltac:(by eexists)); lia|].
  split; cbn; try done.
  - split; cbn; try done; [apply map_Forall_insert_2; [by apply entry_ok_new|done]|]. intros k'. destruct (decide (k' = k)) as [->|]; [by intros _; unfold k|].
    rewrite lookup_insert_ne by done. intros ?%queue_tokens. lia.
  - intros k' e w. destruct (decide (k' = k)) as [->|]; [by rewrite lookup_insert_eq; intros [= <-]|rewrite lookup_insert_ne by done; apply Ha].
  - intros k' e. destruct (decide (k' = k)) as [->|]; [by rewrite lookup_insert_eq; intros [= <-]|rewrite lookup_insert_ne by done; apply Hp].
Qed.

Lemma unregister_ok q k : queue_ok q -> queue_ok (Queue.unregisterCallback q k).2.
Proof.
  intros [[] Hi Ha Hp Hal]. split; cbn; try done.
  - split; cbn; try done; [by apply map_Forall_delete|]. intros k' [e [_ He]%lookup_delete_Some]. apply queue_tokens. by eexists.
  - intros k' e w [_ He]%lookup_delete_Some. by eapply Ha.
  - intros k' e [_ He]%lookup_delete_Some. by eapply Hp.
Qed.

(** After an operation the timer is as it was, or was set anew. *)
Definition kept (q q' : Queue.t) : Prop := Queue.mIntendedWakeupTime q' = Queue.mIntendedWakeupTime q /\ Queue.alarm q' = Queue.alarm q.

Lemma schedule_ok q k work earliest (tracker : T) now order :
  queue_ok q -> sane tracker now -> request_ok work earliest -> iterates order (Queue.mCallbacks q) ->
  exists r q', Queue.schedule q k work earliest tracker now order = Some (r, q') /\ queue_ok q' /\ (kept q q' \/ settled q') /\ same_tokens q q' /\
    (r = ScheduleError <-> Queue.mCallbacks q !! k = None).
Proof.
  intros Hq Hs Hr Hord. unfold Queue.schedule. destruct (Queue.mCallbacks q !! k) as [e|] eqn:Ee; [|exists ScheduleError, q; split_and!; try done; by left].
  pose proof (queue_base_ok q Hq) as Hb. pose proof (queue_entries q Hb k e Ee) as He.
  assert (is_Some (Queue.mCallbacks q !! k)) as Hk by by eexists.
  destruct (Queue.mIntendedWakeupTime q <? now) eqn:En; bool_to_prop.
  { assert (Queue.mIntendedWakeupTime q <> kInvalidTime) as Hv by (destruct Hs as (_ & ?); unfold kInvalidTime, time_limit in *; lia).
    eexists _, _. split; [done|]. split_and!; [|by left|by apply same_tokens_insert|done].
    apply queue_ok_insert; [done|done|by apply entry_ok_pending| |done]. intros w Hw. by apply (queue_armed q Hq k e). }
  destruct (schedule_spec horizon_fits e work earliest tracker now He Hs Hr) as (e' & -> & He' & Hpend & _ & Harm). cbn [mbind option_bind fst snd].
  assert (exists w, Entry.wakeupTime e' = Some w) as [w Hw].
  { destruct Harm as [[-> [w Hw]]|(y & Hy & _)]; [by exists w|]. eexists. unfold Entry.wakeupTime. by rewrite Hy. }
  rewrite Hw. cbn. destruct (w <? _) eqn:Ew; bool_to_prop.
  - pose proof (queue_slack q Hb). destruct (rearm_spec horizon_fits (q <| Queue.mCallbacks := <[k := e']> (Queue.mCallbacks q) |>) tracker now (Some k) order) as (q' & -> & Hok & Hset & Htok);
      [by apply queue_base_insert|done| |by exists e', w; cbn; rewrite lookup_insert_eq; split_and!; [done|done|lia]|].
    { eapply iterates_dom; [done|]. by apply same_tokens_insert. }
    cbn. exists Scheduled, q'. split_and!; [done|done|by right| |done]. intros k'. rewrite (Htok k'). by apply same_tokens_insert.
  - exists Scheduled. eexists. split; [done|]. split_and!; [|by left|by apply same_tokens_insert|done].
    assert (w < kInvalidTime - Queue.mTimerSlack q) as Hbw. { pose proof (wakeup_bound e' w He' Hw). pose proof (queue_slack q Hb). unfold kInvalidTime, time_limit in *. lia. }
    apply queue_ok_insert; [done..| |].
    + intros w' [= <-]%(eq_trans (eq_sym Hw)). split; [lia|]. lia.
    + unfold Entry.hasPendingWorkloadUpdate. rewrite Hpend. by apply (queue_pending q Hq k e).
Qed.

Lemma cancel_ok q k (tracker : T) now order :
  queue_ok q -> sane tracker now -> iterates order (Queue.mCallbacks q) ->
  exists r q', Queue.cancel q k tracker now order = Some (r, q') /\ queue_ok q' /\ (kept q q' \/ settled q') /\ same_tokens q q'.
Proof.
  intros Hq Hs Hord. unfold Queue.cancel. destruct (Queue.mCallbacks q !! k) as [e|] eqn:Ee; [|eexists _, q; split_and!; try done; by left].
  pose proof (queue_base_ok q Hq) as Hb. pose proof (queue_entries q Hb k e Ee) as He.
  assert (is_Some (Queue.mCallbacks q !! k)) as Hk by by eexists.
  destruct (Entry.wakeupTime e) as [w|] eqn:Ew; [|eexists _, q; split_and!; try done; by left].
  cbn. destruct (w =? _) eqn:Ei; bool_to_prop.
  - destruct (rearm_spec horizon_fits (q <| Queue.mCallbacks := <[k := Entry.disarm e]> (Queue.mCallbacks q) |> <| Queue.mIntendedWakeupTime := kInvalidTime |>) tracker now None order) as (q' & E & Hok & Hset & Htok);
      [|done|by eapply iterates_dom; [done|]; apply (same_tokens_insert q k (Entry.disarm e))|done|].
    { destruct (queue_base_insert q k (Entry.disarm e) Hb Hk (entry_ok_disarm e He)). by split. }
    unfold Queue.rearmTimer. rewrite E. cbn. exists Cancelled, q'. split_and!; [done|done|by right|]. intros k'. rewrite (Htok k'). by apply (same_tokens_insert q k (Entry.disarm e)).
  - eexists _, _. split; [done|]. split_and!; [|by left|by apply same_tokens_insert].
    apply queue_ok_insert; [done|done|by apply entry_ok_disarm|done|]. by apply (queue_pending q Hq k e).
Qed.

(** The timer callback hands out exactly the callbacks whose wakeup lies before the slack
    after now (or after the time the timer was set for); each is recorded as dispatched for
    its target vsync, and is armed again only by an update that was pending. *)
Lemma timerCallback_ok q (tracker : T) now now' order order' :
  queue_ok q -> sane tracker now -> sane tracker now' -> iterates order (Queue.mCallbacks q) -> iterates order' (Queue.mCallbacks q) ->
  let limit := Z.max now (Queue.mIntendedWakeupTime q) + Queue.mTimerSlack q in
  exists q', Queue.timerCallback q tracker now now' order order' = Some (omap (due_invocation limit (Queue.mCallbacks q)) order, q') /\
    queue_ok q' /\ settled q' /\ same_tokens q q' /\
    forall k e, Queue.mCallbacks q !! k = Some e -> due limit e = true ->
      exists e', Queue.mCallbacks q' !! k = Some e' /\ Entry.mLastDispatchTime e' = Entry.targetVsync e /\
        (Entry.hasPendingWorkloadUpdate e = false -> Entry.wakeupTime e' = None).
Proof.
  intros Hq Hs Hs' Hord Hord' limit. pose proof (queue_base_ok q Hq) as Hb. destruct Hb as [Hslack Hdist Hent Htok]. unfold Queue.timerCallback.
  destruct (collect_spec now (Queue.mIntendedWakeupTime q) (Queue.mTimerSlack q) order (Queue.mCallbacks q)) as (cb & Ec & Hcb);
    [apply Hord|by intros k ?%Hord|done|apply Hs| |].
  { intros k e w He Hw. destruct (queue_armed q Hq k e w He Hw) as [Hv _]. by destruct (queue_intended q Hq). }
  fold limit in Ec, Hcb. rewrite Ec. cbn [mbind option_bind fst snd].
  assert (forall k, cb !! k = dispatched limit <$> Queue.mCallbacks q !! k) as Hcb'.
  { intros k. rewrite Hcb. destruct (decide (k ∈ order)) as [|Hn]; [done|]. destruct (Queue.mCallbacks q !! k) as [e|] eqn:E; [|done]. destruct Hn. apply Hord. by eexists. }
  clear Hcb. assert (forall k, is_Some (cb !! k) <-> is_Some (Queue.mCallbacks q !! k)) as Hdom by (intros k; rewrite Hcb'; by rewrite fmap_is_Some).
  set (q1 := q <| Queue.mCallbacks := cb |> <| Queue.mIntendedWakeupTime := kInvalidTime |>).
  destruct (rearm_spec horizon_fits q1 tracker now' None order') as (q' & E & Hok & Hset & Hsame); [|done|by eapply iterates_dom|done|].
  { split; cbn; try done; [|by intros k ?%Hdom%Htok]. intros k e He. rewrite Hcb' in He. destruct (Queue.mCallbacks q !! k) as [e0|] eqn:E0; [|done].
    injection He as <-. by eapply entry_ok_dispatched, Hent. }
  unfold Queue.rearmTimer. rewrite E. cbn. exists q'. split_and!; [done|done|done| |].
  - intros k. rewrite (Hsame k). apply Hdom.
  - intros k e He Hdue. unfold Queue.rearmTimerSkippingUpdateFor in E. destruct (Queue.rearm_loop _ _ _ _ _ _) as [[cb' m]|] eqn:El; [|done].
    destruct (rearm_keeps _ _ _ _ _ _ _ _ El k (dispatched limit e)) as (e' & He' & Hl & Ha & _); [unfold q1; cbn; by rewrite Hcb', He|].
    exists e'. split; [|split].
    + cbn in E. destruct m as [m|]; [destruct (m <? _)|]; by injection E as <-.
    + rewrite Hl. unfold dispatched. by rewrite Hdue.
    + intros Hp. rewrite Ha; unfold dispatched; by rewrite Hdue.
Qed.

End Ops.
