(* ===== verification/VSyncDispatchSystem.v ===== *)
(** * The dispatcher at work

    The dispatcher with the thread of its timer (Scheduler/Timer.cpp) and its clients: a
    transition system in which the operations, which hold the mutex, interleave with the
    steps of the timer thread, which does not hold it while it wakes up and while it runs
    the callbacks. The theorems hold for every tracker that satisfies the laws. *)

From S2P Require Import Prelude VSyncTracker VSyncPredictor VSyncPredictorTheorems.
From S2P Require Import VSyncDispatch VSyncDispatchInvariant VSyncDispatchOps.

(** Where [Timer::dispatch] is: in epoll_wait; awake, before it reads the timer; about to
    call [timerCallback]; or running the invocations [timerCallback] has collected (the
    one it is in, which has [mRunning] set, and the ones to come). *)
Inductive thread := Waiting | Woken | Firing | Running (current : option Queue.Invocation) (rest : list Queue.Invocation).

Record system (T : Type) := sys {
  queue : Queue.t;
  tracker : T;
  timer : thread;
  (** the callbacks that were unregistered: those whose [unregisterCallback] waits for a
      running callback, and those it has returned for *)
  unregistering : list Z;
  unregistered : list Z }.
Arguments sys {T}. Arguments queue {T}. Arguments tracker {T}. Arguments timer {T}. Arguments unregistering {T}. Arguments unregistered {T}.

Inductive event (T : Type) :=
  | Register
  | Unregister (token : Z)
  | UnregisterReturns (token : Z)
  | Schedule (token workDuration earliestVsync now : Z) (order : list Z)
  | Cancel (token now : Z) (order : list Z)
  | Learn (tracker : T)
  | EpollWait (now : Z)
  | Read (now : Z)
  | TimerCallback (now now' : Z) (order order' : list Z)
  | Start
  | Finish
  | Return.
Arguments Register {T}. Arguments Unregister {T}. Arguments UnregisterReturns {T}. Arguments Schedule {T}. Arguments Cancel {T}. Arguments Learn {T}.
Arguments EpollWait {T}. Arguments Read {T}. Arguments TimerCallback {T}. Arguments Start {T}. Arguments Finish {T}. Arguments Return {T}.

Section System.

Context {T : Type} `{!VSyncTracker T}.

Definition with_queue (s : system T) (q : Queue.t) : system T := sys q (tracker s) (timer s) (unregistering s) (unregistered s).
Definition with_timer (s : system T) (th : thread) : system T := sys (queue s) (tracker s) th (unregistering s) (unregistered s).

Definition expired (q : Queue.t) (now : Z) : bool := match Queue.alarm q with Some time => time <=? now | None => false end.

Definition current (th : thread) : option Z := match th with Running c _ => Queue.callback <$> c | _ => None end.

(** what can happen in a state *)
Definition enabled (s : system T) (e : event T) : bool :=
  match e with
  | UnregisterReturns k => bool_decide (k ∈ unregistering s) && negb (bool_decide (current (timer s) = Some k))
  | EpollWait now => match timer s with Waiting => expired (queue s) now | _ => false end
  | Read _ => match timer s with Woken => true | _ => false end
  | TimerCallback _ _ _ _ => match timer s with Firing => true | _ => false end
  | Start => match timer s with Running None (_ :: _) => true | _ => false end
  | Finish => match timer s with Running (Some _) _ => true | _ => false end
  | Return => match timer s with Running None [] => true | _ => false end
  | _ => true
  end.

Definition step (s : system T) (e : event T) : option (system T) :=
  match e with
  | Register => Some (with_queue s (Queue.registerCallback (queue s)).2)
  | Unregister k =>
    let s' := with_queue s (Queue.unregisterCallback (queue s) k).2 in
    match (Queue.unregisterCallback (queue s) k).1 with
    | Some _ => Some (sys (queue s') (tracker s) (timer s) (k :: unregistering s) (unregistered s))
    | None => Some s'
    end
  | UnregisterReturns k => Some (sys (queue s) (tracker s) (timer s) (list_difference (unregistering s) [k]) (k :: unregistered s))
  | Schedule k work earliest now order => r ← Queue.schedule (queue s) k work earliest (tracker s) now order; Some (with_queue s r.2)
  | Cancel k now order => r ← Queue.cancel (queue s) k (tracker s) now order; Some (with_queue s r.2)
  | Learn t => Some (sys (queue s) t (timer s) (unregistering s) (unregistered s))
  | EpollWait _ => Some (with_timer s Woken)
  | Read now => Some (with_timer (with_queue s (if expired (queue s) now then Queue.alarmCancel (queue s) else queue s)) Firing)
  | TimerCallback now now' order order' =>
    r ← Queue.timerCallback (queue s) (tracker s) now now' order order';
    Some (with_timer (with_queue s r.2) (Running None r.1))
  | Start => match timer s with Running None (i :: rest) => Some (with_timer s (Running (Some i) rest)) | _ => None end
  | Finish => match timer s with Running (Some _) rest => Some (with_timer s (Running None rest)) | _ => None end
  | Return => Some (with_timer s Waiting)
  end.

Fixpoint run (s : system T) (es : list (event T)) : option (system T) :=
  match es with [] => Some s | e :: es' => if enabled s e then s ← step s e; run s es' else None end.

Definition start (timerSlack minVsyncDistance : Z) (t : T) : system T := sys (Queue.new timerSlack minVsyncDistance) t Waiting [] [].

Context `{!VSyncTrackerLaws T}.
Context (horizon_fits : horizon (T := T) <= time_limit).

(** the arguments an event is given: bounded times, an order in which the map can be iterated *)
Definition event_ok (s : system T) (e : event T) : Prop :=
  match e with
  | Schedule _ work earliest now order => request_ok work earliest /\ 0 <= now <= time_limit /\ iterates order (Queue.mCallbacks (queue s))
  | Cancel _ now order => 0 <= now <= time_limit /\ iterates order (Queue.mCallbacks (queue s))
  | Learn t => tracker_ok t
  | TimerCallback now now' order order' =>
    0 <= now <= time_limit /\ 0 <= now' <= time_limit /\ iterates order (Queue.mCallbacks (queue s)) /\ iterates order' (Queue.mCallbacks (queue s))
  | _ => True
  end.

Inductive reachable (s0 : system T) : system T -> Prop :=
  | reachable_start : reachable s0 s0
  | reachable_step s e s' : reachable s0 s -> enabled s e = true -> event_ok s e -> step s e = Some s' -> reachable s0 s'.

(** ** The invariant *)

(** [timerCallback] is about to be called *)
Definition imminent (th : thread) : Prop := th = Woken \/ th = Firing.

Record system_ok (s : system T) : Prop := {
  system_queue : queue_ok (queue s);
  system_tracker : tracker_ok (tracker s);
  system_timer : Queue.mIntendedWakeupTime (queue s) <> kInvalidTime -> Queue.alarm (queue s) = Some (Queue.mIntendedWakeupTime (queue s)) \/ imminent (timer s) }.

Lemma start_ok slack distance t : 0 <= slack <= time_limit -> 0 <= distance <= time_limit -> tracker_ok t -> system_ok (start slack distance t).
Proof.
  intros. split; cbn; [|done|done]. split; cbn; try done; [|by left]. by split; cbn; [done|done|apply map_Forall_empty|intros k [e He]; rewrite lookup_empty in He].
Qed.

Lemma with_queue_ok s q' : system_ok s -> queue_ok q' -> (kept (queue s) q' \/ settled q') -> system_ok (with_queue s q').
Proof.
  intros [Hq Ht Hal] Hq' Hk. split; cbn; [done..|]. intros Hv. destruct Hk as [[E1 E2]|Hs]; [|left; by apply Hs]. rewrite E1, E2 in *. by apply Hal.
Qed.

Lemma with_timer_ok s th : system_ok s -> (imminent (timer s) -> imminent th) -> system_ok (with_timer s th).
Proof. intros [] H. split; cbn; [done..|]. intros Hv. destruct (system_timer0 Hv); auto. Qed.

(** every event that can happen succeeds and keeps the invariant *)
Lemma step_ok s e : system_ok s -> enabled s e = true -> event_ok s e -> exists s', step s e = Some s' /\ system_ok s'.
Proof.
  intros Hs He Hok. pose proof (system_queue s Hs) as Hq. pose proof (system_tracker s Hs) as Ht. destruct e; cbn [enabled event_ok step] in *.
  - eexists. split; [done|]. apply with_queue_ok; [done|by apply register_ok|]. left. unfold kept, Queue.registerCallback. cbn. by case_match.
  - assert (system_ok (with_queue s (Queue.unregisterCallback (queue s) token).2)) as H by (apply with_queue_ok; [done|by apply unregister_ok|by left]).
    destruct (_.1); eexists; (split; [done|]); [|done]. by destruct H.
  - eexists. split; [done|]. by destruct Hs.
  - destruct Hok as (Hr & Hnow & Hord). destruct (schedule_ok horizon_fits (queue s) token workDuration earliestVsync (tracker s) now order) as (r & q' & -> & Hq' & Hk & _); [done..|].
    eexists. split; [done|]. by apply with_queue_ok.
  - destruct Hok as [Hnow Hord]. destruct (cancel_ok horizon_fits (queue s) token (tracker s) now order) as (r & q' & -> & Hq' & Hk & _); [done..|].
    eexists. split; [done|]. by apply with_queue_ok.
  - eexists. split; [done|]. by destruct Hs.
  - eexists. split; [done|]. apply with_timer_ok; [done|]. intros _. by left.
  - eexists. split; [done|]. destruct (expired (queue s) now); [|by apply with_timer_ok; [destruct s|intros _; right]].
    destruct Hs as [[] ? ?]. split; cbn; [|done|intros _; right; by right]. by split; cbn; try done; destruct queue_base_ok; split.
  - destruct Hok as (Hnow & Hnow' & Hord & Hord'). destruct (timerCallback_ok horizon_fits (queue s) (tracker s) now now' order order') as (q' & -> & Hq' & Hset & _); [done..|].
    eexists. split; [done|]. cbn. split; cbn; [done|done|]. intros Hv. left. by apply Hset.
  - destruct (timer s) as [| | |[] [|i rest]] eqn:E; try done. eexists. split; [done|]. apply with_timer_ok; [done|]. rewrite E. by intros [].
  - destruct (timer s) as [| | |[] rest] eqn:E; try done. eexists. split; [done|]. apply with_timer_ok; [done|]. rewrite E. by intros [].
  - destruct (timer s) as [| | |[] [|i rest]] eqn:E; try done. eexists. split; [done|]. apply with_timer_ok; [done|]. rewrite E. by intros [].
Qed.

Lemma reachable_ok s0 s : system_ok s0 -> reachable s0 s -> system_ok s.
Proof.
  intros H0 H. induction H as [|s e s' _ IH He Hok Hstep]; [done|]. destruct (step_ok s e IH He Hok) as (s1 & E & Hs). rewrite Hstep in E. by injection E as <-.
Qed.

End System.
