(* ===== verification/VSyncDispatchTheorems.v ===== *)
(** * What the vsync dispatcher guarantees

    No wakeup is lost, the timer hands out exactly the callbacks that are due, and
    scheduling arms a callback for a vsync it can make; then the scenarios in which
    the dispatcher does not do what its interface says. *)

From S2P Require Import Prelude VSyncTracker VSyncPredictor VSyncPredictorTheorems.
From S2P Require Import VSyncDispatch VSyncDispatchInvariant VSyncDispatchOps VSyncDispatchSystem.

(** ** Guarantees *)

Section Guarantees.

Context {T : Type} `{!VSyncTracker T, !VSyncTrackerLaws T}.
Context (slack distance : Z) (t0 : T).
Context (Hslack : 0 <= slack <= time_limit) (Hdistance : 0 <= distance <= time_limit) (Ht0 : tracker_ok t0).
Context (horizon_fits : horizon (T := T) <= time_limit).

Lemma from_start s : reachable (start slack distance t0) s -> system_ok s.
Proof. apply (reachable_ok horizon_fits). by apply start_ok. Qed.

(** C6: Whatever clients, tracker and timer thread do, no wakeup is lost. Every event that
    can happen in a reachable state succeeds: no empty optional is dereferenced and the sum
    with [mIntendedWakeupTime] never overflows, also when that is [kInvalidTime]. For every
    callback that is armed or has a workload update pending, the timer is set for
    [mIntendedWakeupTime], or the timer thread is about to call [timerCallback]; and that
    time is at most the slack after the callback's wakeup. *)
Theorem no_wakeup_lost s :
  reachable (start slack distance t0) s ->
  (forall e, enabled s e = true -> event_ok s e -> is_Some (step s e)) /\
  (forall k e, Queue.mCallbacks (queue s) !! k = Some e -> active e = true ->
    let intended := Queue.mIntendedWakeupTime (queue s) in
    intended <> kInvalidTime /\ (Queue.alarm (queue s) = Some intended \/ imminent (timer s)) /\
    forall w, Entry.wakeupTime e = Some w -> intended <= w + Queue.mTimerSlack (queue s)).
Proof.
  intros Hs%from_start. split.
  - intros e He Hok. destruct (step_ok horizon_fits s e Hs He Hok) as (s' & E & _). by eexists.
  - intros k e He Ha intended. destruct (system_queue s Hs).
    assert (intended <> kInvalidTime) as Hv.
    { unfold active in Ha. destruct (Entry.wakeupTime e) as [w|] eqn:Ew; [by apply (queue_armed k e w)|by apply (queue_pending k e)]. }
    split_and!; [done|by apply (system_timer s Hs)|]. intros w Hw. by apply (queue_armed k e w).
Qed.

(** C35: The timer callback dispatches exactly the callbacks that are due: the invocations
    it hands out are those of the armed entries whose wakeup lies before now (or the time
    the timer was set for) plus the slack, each with its target vsync and its wakeup time,
    in the order of the map. Each of them is recorded as dispatched for that vsync, and is
    disarmed unless a workload update was pending; all callbacks stay registered. *)
Theorem timer_dispatches_what_is_due s now now' order order' :
  reachable (start slack distance t0) s -> timer s = Firing -> event_ok s (TimerCallback now now' order order') ->
  let limit := Z.max now (Queue.mIntendedWakeupTime (queue s)) + Queue.mTimerSlack (queue s) in
  exists s', step s (TimerCallback now now' order order') = Some s' /\
    timer s' = Running None (omap (due_invocation limit (Queue.mCallbacks (queue s))) order) /\
    same_tokens (queue s) (queue s') /\
    forall k e, Queue.mCallbacks (queue s) !! k = Some e -> due limit e = true ->
      exists e', Queue.mCallbacks (queue s') !! k = Some e' /\ Entry.mLastDispatchTime e' = Entry.targetVsync e /\
        (Entry.hasPendingWorkloadUpdate e = false -> Entry.wakeupTime e' = None).
Proof.
  intros Hs%from_start Ht (Hn & Hn' & Ho & Ho') limit. pose proof (system_tracker s Hs).
  destruct (timerCallback_ok horizon_fits (queue s) (tracker s) now now' order order') as (q' & E & _ & _ & Hsame & Hdue); [by apply (system_queue s Hs)|done..|].
  cbn [step]. rewrite E. eexists. split; [done|]. by split_and!.
Qed.

(** C36: An armed callback is run: with the timer thread idle, once the slack after the
    wakeup time has passed, the thread wakes up, and the timer callback it then makes
    hands out the callback with its target vsync. (The slack has to be positive: at
    exactly the wakeup time a callback is not yet due.) *)
Theorem armed_callback_dispatched s k e info now1 now2 now3 now4 order order' :
  reachable (start slack distance t0) s -> 0 < Queue.mTimerSlack (queue s) ->
  timer s = Waiting -> Queue.mCallbacks (queue s) !! k = Some e -> Entry.mArmedInfo e = Some info ->
  Entry.mActualWakeupTime info + Queue.mTimerSlack (queue s) <= now1 -> now1 <= now2 -> now2 <= now3 -> now3 <= now4 <= time_limit ->
  iterates order (Queue.mCallbacks (queue s)) -> iterates order' (Queue.mCallbacks (queue s)) ->
  exists s' invocations, run s [EpollWait now1; Read now2; TimerCallback now3 now4 order order'] = Some s' /\ timer s' = Running None invocations /\
    Queue.invocation k (Entry.mActualVsyncTime info) (Entry.mActualWakeupTime info) ∈ invocations.
Proof.
  intros Hs%from_start Hpos Ht He Hi H1 H2 H3 H4 Ho Ho'. pose proof (system_tracker s Hs) as Htr. pose proof (system_queue s Hs) as Hq.
  assert (Entry.wakeupTime e = Some (Entry.mActualWakeupTime info)) as Hw by (unfold Entry.wakeupTime; by rewrite Hi).
  destruct (queue_armed _ Hq k e _ He Hw) as [Hv Hle]. pose proof (wakeup_bound e _ (queue_entries _ (queue_base_ok _ Hq) k e He) Hw) as Hwb.
  assert (Queue.alarm (queue s) = Some (Queue.mIntendedWakeupTime (queue s))) as Ea.
  { destruct (system_timer s Hs Hv) as [|[H|H]]; [done|rewrite Ht in H; done..]. }
  assert (forall now, now1 <= now -> expired (queue s) now = true) as Hex by (intros now Hnow; unfold expired; rewrite Ea; apply Z.leb_le; lia).
  cbn [run]. unfold enabled at 1. rewrite Ht, (Hex now1) by lia. cbn -[Queue.timerCallback]. rewrite (Hex now2) by lia.
  destruct (timerCallback_ok horizon_fits (Queue.alarmCancel (queue s)) (tracker s) now3 now4 order order') as (q' & -> & _); [|by repeat split; try done; lia..|by destruct Ho|by destruct Ho'|].
  { destruct Hq as [[] ? ? ? ?]. by split; cbn; try done; split. }
  cbn. eexists _, _. split; [done|]. split; [done|]. apply list_elem_of_omap. exists k. split; [apply Ho; by eexists|].
  unfold due_invocation. cbn. rewrite He. cbn. rewrite Hi. cbn. destruct (_ <? _) eqn:El; [done|]. bool_to_prop. lia.
Qed.

(** Scheduling a registered callback succeeds and leaves it armed. Before the timer is
    due it is armed for the first vsync the tracker predicts at or after both the earliest
    vsync asked for and the work duration from now: so it wakes up neither in the past nor
    for an earlier vsync; or, if that vsync was dispatched already, for a later one at
    least the minimum distance away; unless it was armed for an earlier vsync, which it
    keeps. Once the timer is due the request is left for the timer callback. *)
Theorem schedule_arms_callback s k e work earliest now order :
  reachable (start slack distance t0) s -> Queue.mCallbacks (queue s) !! k = Some e -> event_ok s (Schedule k work earliest now order) ->
  exists s' e', step s (Schedule k work earliest now order) = Some s' /\ Queue.mCallbacks (queue s') !! k = Some e' /\ active e' = true /\
    if Queue.mIntendedWakeupTime (queue s) <? now
    then e' = Entry.addPendingWorkloadUpdate e work earliest
    else (e' = e /\ is_Some (Entry.wakeupTime e)) \/
         exists y, Entry.mArmedInfo e' = Some (Entry.arming (y - work) y) /\ now <= y - work /\ earliest <= y /\
           forall last, Entry.mLastDispatchTime e = Some last -> y < last - Entry.mMinVsyncDistance e \/ last + Entry.mMinVsyncDistance e <= y.
Proof.
  intros Hs%from_start He (Hr & Hn & Ho). pose proof (system_tracker s Hs). pose proof (system_queue s Hs) as Hq. cbn [step].
  assert (sane (tracker s) now) as Hsane by done. pose proof (queue_entries _ (queue_base_ok _ Hq) k e He) as Hek.
  destruct (schedule_ok horizon_fits (queue s) k work earliest (tracker s) now order Hq Hsane Hr Ho) as (r & q' & E & _). rewrite E. cbn [mbind option_bind snd].
  unfold Queue.schedule in E. rewrite He in E. destruct (_ <? now).
  { injection E as <- <-. eexists _, _. split; [done|]. cbn. rewrite lookup_insert_eq. split_and!; [done| |done]. unfold active. by destruct (Entry.wakeupTime _). }
  destruct (schedule_spec horizon_fits e work earliest (tracker s) now Hek Hsane Hr) as (e' & Es & He' & _ & _ & Harm). rewrite Es in E. cbn [mbind option_bind fst snd] in E.
  exists (with_queue s q'), e'. split; [done|].
  assert (exists w, Entry.wakeupTime e' = Some w) as [w Hw] by (destruct Harm as [[-> [w Hw]]|(y & Hy & _)]; [by exists w|]; eexists; unfold Entry.wakeupTime; by rewrite Hy).
  split; [|split; [by unfold active; rewrite Hw|done]]. cbn in E. rewrite Hw in E. destruct (w <? _); [|injection E as <- <-; cbn; by rewrite lookup_insert_eq].
  unfold Queue.rearmTimerSkippingUpdateFor in E. destruct (Queue.rearm_loop _ _ _ _ _ _) as [[cb m]|] eqn:El; [|done]. cbn in E.
  assert (cb !! k = Some e') as Ecb; [|destruct m as [m|]; [destruct (m <? _)|]; by injection E as <- <-].
  destruct (rearm_loop_spec horizon_fits (tracker s) now (Some k) order (<[k := e']> (Queue.mCallbacks (queue s))) None) as (cb' & m' & E' & _ & _ & Hout & _);
    [done|apply Ho| |apply map_Forall_insert_2; [done|apply (queue_base_ok _ Hq)]| |].
  - intros k' Hk'%Ho. destruct (decide (k' = k)) as [->|]; [by rewrite lookup_insert_eq|by rewrite lookup_insert_ne].
  - intros k' e1 [= <-]. rewrite lookup_insert_eq. intros [= <-]. by eexists.
  - pose proof (eq_trans (eq_sym E') El) as [= <- <-]. rewrite Hout by (by right). by rewrite lookup_insert_eq.
Qed.

End Guarantees.

(** ** Concrete runs *)

Section Runs.

Context {T : Type} `{!VSyncTracker T, !VSyncTrackerLaws T}.

Definition iteratesb {A} (order : list Z) (m : gmap Z A) : bool := bool_decide (NoDup order) && bool_decide (list_to_set order = dom m).

Lemma iteratesb_sound {A} order (m : gmap Z A) : iteratesb order m = true -> iterates order m.
Proof. unfold iteratesb. intros H. bool_to_prop. split; [done|]. intros k. rewrite <- elem_of_dom, <- H0. by rewrite elem_of_list_to_set. Qed.

Definition timeb (z : Z) : bool := (0 <=? z) && (z <=? time_limit).

Definition event_okb (s : system T) (e : event T) : bool :=
  match e with
  | Schedule _ work earliest now order => timeb (Z.abs work) && (earliest <=? time_limit) && timeb now && iteratesb order (Queue.mCallbacks (queue s))
  | Cancel _ now order => timeb now && iteratesb order (Queue.mCallbacks (queue s))
  | Learn _ => false
  | TimerCallback now now' order order' => timeb now && timeb now' && iteratesb order (Queue.mCallbacks (queue s)) && iteratesb order' (Queue.mCallbacks (queue s))
  | _ => true
  end.

Lemma event_okb_sound s e : event_okb s e = true -> event_ok s e.
Proof. destruct e; cbn; try done; unfold timeb, request_ok; intros H; bool_to_prop; split_and!; try lia; by apply iteratesb_sound. Qed.

Fixpoint checked_run (s : system T) (es : list (event T)) : option (system T) :=
  match es with [] => Some s | e :: es' => if enabled s e && event_okb s e then s ← step s e; checked_run s es' else None end.

Lemma checked_run_reachable s0 s es s' : reachable s0 s -> checked_run s es = Some s' -> reachable s0 s'.
Proof.
  revert s. induction es as [|e es IH]; intros s Hs H; cbn [checked_run] in H; [by injection H as <-|].
  destruct (_ && _) eqn:E; [|done]. apply andb_true_iff in E as [E1 E2]. destruct (step s e) as [s1|] eqn:Es; [|done]. cbn in H.
  eapply IH; [|done]. eapply reachable_step; [done|done|by apply event_okb_sound|done].
Qed.

End Runs.

(** a display with a vsync at every multiple of 100, a slack of 5, a distance of 10 *)
#[local] Instance ticks_tracker : VSyncTracker VSyncPredictor.t := predictor_tracker (fun _ => 0).
#[local] Instance ticks_laws : VSyncTrackerLaws VSyncPredictor.t := predictor_laws (fun _ => 0) 1000000000.

Definition ticks : VSyncPredictor.t := VSyncPredictor.mk 4 3 20 100 None {[100 := (100, 0)]} 0 [0].

Lemma ticks_ok : tracker_ok ticks.
Proof. split; [apply (wf_add (VSyncPredictor.new 100 4 3 20) 0 true); [apply wf_new; lia|by vm_compute]|]. split; [done|]. by apply map_Forall_singleton. Qed.

Definition idle : system VSyncPredictor.t := start 5 10 ticks.

(** two callbacks, for the vsyncs at 100 and at 500 *)
Definition two_callbacks : list (event VSyncPredictor.t) := [Register; Register; Schedule 1 20 90 0 [1; 2]; Schedule 2 20 490 0 [2; 1]].

Definition armed : system VSyncPredictor.t := default idle (checked_run idle two_callbacks).
Definition firing : system VSyncPredictor.t := default idle (checked_run armed [EpollWait 80; Read 80]).

Lemma armed_reachable : reachable idle armed.
Proof. eapply (checked_run_reachable idle idle two_callbacks); [constructor|by vm_compute]. Qed.

Lemma firing_reachable : reachable idle firing.
Proof. eapply (checked_run_reachable idle armed [EpollWait 80; Read 80]); [apply armed_reachable|by vm_compute]. Qed.

Lemma slack_ok : 0 <= 5 <= time_limit.
Proof. unfold time_limit. lia. Qed.
Lemma distance_ok : 0 <= 10 <= time_limit.
Proof. unfold time_limit. lia. Qed.
Lemma horizon_ok : horizon (T := VSyncPredictor.t) <= time_limit.
Proof. vm_compute. congruence. Qed.

Lemma no_wakeup_lost_witness : exists e, Queue.mCallbacks (queue armed) !! 2 = Some e /\ active e = true /\ Queue.mIntendedWakeupTime (queue armed) <> kInvalidTime.
Proof.
  eexists. split; [vm_compute; reflexivity|]. split; [vm_compute; reflexivity|].
  eapply (proj2 (no_wakeup_lost 5 10 ticks slack_ok distance_ok ticks_ok horizon_ok armed armed_reachable) 2); vm_compute; reflexivity.
Defined.

Lemma timer_dispatches_what_is_due_witness :
  exists s', step firing (TimerCallback 81 82 [1; 2] [2; 1]) = Some s' /\ timer s' = Running None [Queue.invocation 1 100 80].
Proof.
  destruct (timer_dispatches_what_is_due 5 10 ticks slack_ok distance_ok ticks_ok horizon_ok firing 81 82 [1; 2] [2; 1] firing_reachable) as (s' & Hs & Ht & _).
  - vm_compute; reflexivity.
  - apply event_okb_sound. vm_compute; reflexivity.
  - exists s'. split; [exact Hs|]. rewrite Ht. vm_compute; reflexivity.
Defined.

Lemma armed_callback_dispatched_witness :
  exists s' invocations, run armed [EpollWait 90; Read 91; TimerCallback 92 93 [2; 1] [1; 2]] = Some s' /\ timer s' = Running None invocations /\ Queue.invocation 1 100 80 ∈ invocations.
Proof.
  eapply (armed_callback_dispatched 5 10 ticks slack_ok distance_ok ticks_ok horizon_ok armed 1 _ (Entry.arming 80 100) 90 91 92 93 [2; 1] [1; 2] armed_reachable);
    try (vm_compute; congruence); try (vm_compute; reflexivity); try lia; try (apply iteratesb_sound; vm_compute; reflexivity).
  unfold time_limit. lia.
Defined.

Lemma schedule_arms_callback_witness :
  exists s' e', step armed (Schedule 2 30 190 50 [1; 2]) = Some s' /\ Queue.mCallbacks (queue s') !! 2 = Some e' /\ Entry.mArmedInfo e' = Some (Entry.arming 170 200).
Proof.
  destruct (schedule_arms_callback 5 10 ticks slack_ok distance_ok ticks_ok horizon_ok armed 2 (Entry.mk 20 490 10 (Some (Entry.arming 480 500)) None None) 30 190 50 [1; 2] armed_reachable) as (s' & e' & Hs & He & _).
  - vm_compute; reflexivity.
  - apply event_okb_sound. vm_compute; reflexivity.
  - exists s', e'. split; [exact Hs|]. split; [exact He|]. revert He. injection Hs as <-. vm_compute. by intros [= <-].
Defined.

(** ** Where the dispatcher does not keep its word *)

(** The timer thread has woken up for one callback when that one is cancelled: the timer is
    set for the next callback, 399 later, and [timerCallback], which goes by
    [mIntendedWakeupTime], dispatches that one at once. *)
Theorem dispatched_early :
  exists s', run firing [Cancel 1 80 [1; 2]; TimerCallback 81 81 [1; 2] [1; 2]] = Some s' /\ timer s' = Running None [Queue.invocation 2 500 480].
Proof. eexists. split; vm_compute; reflexivity. Qed.

(** A callback is scheduled again when the timer is due, and then cancelled: [cancel]
    answers [Cancelled], and leaves the callback armed by the pending update. *)
Theorem cancelled_callback_stays_armed :
  exists q e, q = queue (default idle (run armed [Schedule 1 30 190 81 [1; 2]])) /\
    (exists q', Queue.cancel q 1 ticks 81 [1; 2] = Some (Cancelled, q') /\ Queue.mCallbacks q' !! 1 = Some e) /\
    Entry.wakeupTime e = Some 170.
Proof. eexists _, _. split; [reflexivity|]. split; [eexists; split; vm_compute; reflexivity|vm_compute; reflexivity]. Qed.

(** [unregisterCallback] returns, and the callback, which was collected but not started,
    starts afterwards. *)
Theorem unregistered_callback_runs :
  exists s', run firing [TimerCallback 81 81 [1; 2] [1; 2]; Unregister 1; UnregisterReturns 1; Start] = Some s' /\
    1 ∈ unregistered s' /\ timer s' = Running (Some (Queue.invocation 1 100 80)) [].
Proof. eexists. split; [vm_compute; reflexivity|]. split; [by left|reflexivity]. Qed.

(** A workload update that is pending when a callback is dispatched arms it for the same
    vsync again. *)
Theorem dispatched_twice_for_a_vsync :
  exists s' e, run firing [Schedule 1 10 90 81 [1; 2]; TimerCallback 81 81 [1; 2] [1; 2]] = Some s' /\
    timer s' = Running None [Queue.invocation 1 100 80] /\ Queue.mCallbacks (queue s') !! 1 = Some e /\
    Entry.mLastDispatchTime e = Some 100 /\ Entry.mArmedInfo e = Some (Entry.arming 90 100).
Proof. eexists _, _. split; [vm_compute; reflexivity|]. split_and!; vm_compute; reflexivity. Qed.

Lemma entry_schedule_result {T} `{!VSyncTracker T} e work earliest (t : T) now r : Entry.schedule e work earliest t now = Some r -> r.1 = Scheduled.
Proof.
  unfold Entry.schedule. intros H. destruct (nextAnticipatedVSyncTimeFrom t _) as [y|]; [|done]. cbn in H.
  destruct (match Entry.mArmedInfo e with Some _ => _ | None => _ end); [by injection H as <-|].
  destruct (match Entry.mLastDispatchTime e with Some _ => _ | None => _ end) as [z|]; [|done]. cbn in H.
  destruct (Entry.arming_for z work); [|done]. by injection H as <-.
Qed.

(** [schedule] never answers [CannotSchedule]. *)
Theorem never_cannot_schedule {T} `{!VSyncTracker T} q k work earliest (t : T) now order q' :
  Queue.schedule q k work earliest t now order <> Some (CannotSchedule, q').
Proof.
  unfold Queue.schedule. destruct (Queue.mCallbacks q !! k) as [e|]; [|done]. destruct (_ <? now); [done|].
  destruct (Entry.schedule e work earliest t now) as [[r e']|] eqn:E; [|done]. apply entry_schedule_result in E. cbn in E. subst. cbn.
  destruct (match Entry.wakeupTime e' with Some _ => _ | None => _ end); [|done]. by destruct (Queue.rearmTimerSkippingUpdateFor _ _ _ _ _).
Qed.

(** Assigning to a registration by move forgets the token it held: when both handles are
    gone, the callback is still registered. *)
Theorem move_assignment_leaks :
  let '(a, q) := Registration.new (Queue.new 5 10) in
  let '(b, q) := Registration.new q in
  let '(a, b) := Registration.assign a b in
  let q := (Registration.destroy b (Registration.destroy a q).2).2 in
  Registration.mToken a = 2 /\ Registration.mValidToken b = false /\ is_Some (Queue.mCallbacks q !! 1) /\ Queue.mCallbacks q !! 2 = None.
Proof. vm_compute. split_and!; [done|done|by eexists|done]. Qed.
