(* ===== verification/VSyncReactor.v ===== *)
(** * VSyncReactor (services/surfaceflinger/Scheduler/VSyncReactor.cpp)

    The part that feeds the tracker and drives the dispatcher. Present fences and samples of
    the hardware vsync become timestamps of the tracker; a change of the display's period
    waits until samples confirm it. Listeners get a callback at every vsync: a
    [CallbackRepeater] schedules its callback with the dispatcher again whenever it has run.

    [mClock->now()] and the clock readings of the dispatcher are arguments, and so is, for
    each fence, what its [getCachedSignalTime] gives at the time of the call. [None] is a
    failed LOG_ALWAYS_FATAL_IF, or a failure of the tracker or the dispatcher. *)

From S2P Require Import Prelude VSyncTracker VSyncDispatch.

(** libs/ui/include/ui/Fence.h *)
Definition SIGNAL_TIME_PENDING : Z := 9223372036854775807.
Definition SIGNAL_TIME_INVALID : Z := -1.

(** ** Repeated callbacks *)

Module CallbackRepeater.

Record t := mk { mRegistration : Registration.t; mStopped : bool; mPeriod : Z; mOffset : Z; mLastCallTime : Z }.

Definition eta (r : t) : t := mk (mRegistration r) (mStopped r) (mPeriod r) (mOffset r) (mLastCallTime r).
#[global] Instance set_mStopped : Setter mStopped := ltac:(setter_of eta mStopped).
#[global] Instance set_mPeriod : Setter mPeriod := ltac:(setter_of eta mPeriod).
#[global] Instance set_mOffset : Setter mOffset := ltac:(setter_of eta mOffset).
#[global] Instance set_mLastCallTime : Setter mLastCallTime := ltac:(setter_of eta mLastCallTime).

Definition new (q : Queue.t) (period offset notBefore : Z) : t * Queue.t :=
  let '(registration, q) := Registration.new q in (mk registration false period offset notBefore, q).

Definition calculateWorkload (r : t) : Z := mPeriod r - mOffset r.

Definition setPeriod (r : t) (period : Z) : t := if period =? mPeriod r then r else r <| mPeriod := period |>.

Section Tracker.

Context {T : Type} `{!VSyncTracker T}.

Definition start (r : t) (q : Queue.t) (offset : Z) (tracker : T) (now : Z) (order : list Z) : option (t * Queue.t) :=
  let r := r <| mStopped := false |> <| mOffset := offset |> in
  s ← Registration.schedule (mRegistration r) q (calculateWorkload r) (mLastCallTime r) tracker now order;
  match s.1 with Scheduled => Some (r, s.2) | _ => None end.

Definition stop (r : t) (q : Queue.t) (tracker : T) (now : Z) (order : list Z) : option (t * Queue.t) :=
  if mStopped r then None
  else
    let r := r <| mStopped := true |> in
    c ← Registration.cancel (mRegistration r) q tracker now order;
    Some (r, c.2).

(** [callback]: before the listener is called, and after *)
Definition callback_begin (r : t) (vsynctime : Z) : t := r <| mLastCallTime := vsynctime |>.

Definition callback_end (r : t) (q : Queue.t) (vsynctime : Z) (tracker : T) (now : Z) (order : list Z) : option Queue.t :=
  if mStopped r then Some q
  else
    s ← Registration.schedule (mRegistration r) q (calculateWorkload r) vsynctime tracker now order;
    match s.1 with Scheduled => Some s.2 | _ => None end.

Definition destroy (r : t) (q : Queue.t) (tracker : T) (now : Z) (order : list Z) : option (option Entry.t * Queue.t) :=
  c ← Registration.cancel (mRegistration r) q tracker now order;
  Some (Registration.destroy (mRegistration r) c.2).

End Tracker.

End CallbackRepeater.

(** ** The reactor *)

Module VSyncReactor.

Section Reactor.

Context {T : Type} `{!VSyncTracker T}.

Record t := mk {
  mTracker : T;
  mDispatch : Queue.t;
  mPendingLimit : Z;
  mSupportKernelIdleTimer : bool;
  mInternalIgnoreFences : bool;
  mExternalIgnoreFences : bool;
  mUnfiredFences : list Z;
  mMoreSamplesNeeded : bool;
  mPeriodConfirmationInProgress : bool;
  mPeriodTransitioningTo : option Z;
  mLastHwVsync : option Z;
  mCallbacks : gmap Z CallbackRepeater.t }.

Definition eta (r : t) : t :=
  mk (mTracker r) (mDispatch r) (mPendingLimit r) (mSupportKernelIdleTimer r) (mInternalIgnoreFences r) (mExternalIgnoreFences r)
     (mUnfiredFences r) (mMoreSamplesNeeded r) (mPeriodConfirmationInProgress r) (mPeriodTransitioningTo r) (mLastHwVsync r) (mCallbacks r).
#[global] Instance set_mTracker : Setter mTracker := ltac:(setter_of eta mTracker).
#[global] Instance set_mDispatch : Setter mDispatch := ltac:(setter_of eta mDispatch).
#[global] Instance set_mInternalIgnoreFences : Setter mInternalIgnoreFences := ltac:(setter_of eta mInternalIgnoreFences).
#[global] Instance set_mExternalIgnoreFences : Setter mExternalIgnoreFences := ltac:(setter_of eta mExternalIgnoreFences).
#[global] Instance set_mUnfiredFences : Setter mUnfiredFences := ltac:(setter_of eta mUnfiredFences).
#[global] Instance set_mMoreSamplesNeeded : Setter mMoreSamplesNeeded := ltac:(setter_of eta mMoreSamplesNeeded).
#[global] Instance set_mPeriodConfirmationInProgress : Setter mPeriodConfirmationInProgress := ltac:(setter_of eta mPeriodConfirmationInProgress).
#[global] Instance set_mPeriodTransitioningTo : Setter mPeriodTransitioningTo := ltac:(setter_of eta mPeriodTransitioningTo).
#[global] Instance set_mLastHwVsync : Setter mLastHwVsync := ltac:(setter_of eta mLastHwVsync).
#[global] Instance set_mCallbacks : Setter mCallbacks := ltac:(setter_of eta mCallbacks).

Definition new (tracker : T) (dispatch : Queue.t) (pendingFenceLimit : Z) (supportKernelIdleTimer : bool) : t :=
  mk tracker dispatch pendingFenceLimit supportKernelIdleTimer false false [] false false None None ∅.

(** *** Present fences *)

Definition updateIgnorePresentFencesInternal (r : t) : t :=
  if mExternalIgnoreFences r || mInternalIgnoreFences r then r <| mUnfiredFences := [] |> else r.

Definition setIgnorePresentFencesInternal (r : t) (ignoration : bool) : t :=
  updateIgnorePresentFencesInternal (r <| mInternalIgnoreFences := ignoration |>).

Definition setIgnorePresentFences (r : t) (ignoration : bool) : t :=
  updateIgnorePresentFencesInternal (r <| mExternalIgnoreFences := ignoration |>).

(** the fences that have fired leave the list: what is left, the tracker, and whether it
    accepted all timestamps *)
Fixpoint fire (getCachedSignalTime : Z -> Z) (fences : list Z) (tracker : T) (timestampAccepted : bool) : option (list Z * T * bool) :=
  match fences with
  | [] => Some ([], tracker, timestampAccepted)
  | fence :: fences' =>
    let time := getCachedSignalTime fence in
    if time =? SIGNAL_TIME_PENDING then
      r ← fire getCachedSignalTime fences' tracker timestampAccepted;
      let '(unfired, tracker, accepted) := r in Some (fence :: unfired, tracker, accepted)
    else if time =? SIGNAL_TIME_INVALID then fire getCachedSignalTime fences' tracker timestampAccepted
    else
      a ← addVsyncTimestamp tracker time;
      fire getCachedSignalTime fences' a.2 (timestampAccepted && a.1)
  end.

Definition addPresentFence (r : t) (fence : option Z) (getCachedSignalTime : Z -> Z) : option (bool * t) :=
  match fence with
  | None => Some (false, r)
  | Some fence =>
    let signalTime := getCachedSignalTime fence in
    if signalTime =? SIGNAL_TIME_INVALID then Some (true, r)
    else if mExternalIgnoreFences r || mInternalIgnoreFences r then Some (true, r)
    else
      f ← fire getCachedSignalTime (mUnfiredFences r) (mTracker r) true;
      let '(unfired, tracker, timestampAccepted) := f in
      let r := r <| mUnfiredFences := unfired |> <| mTracker := tracker |> in
      p ← (if signalTime =? SIGNAL_TIME_PENDING then
             unfired ← (if mPendingLimit r =? Z.of_nat (length (mUnfiredFences r))
                        then match mUnfiredFences r with [] => None | _ :: rest => Some rest end
                        else Some (mUnfiredFences r));
             Some (r <| mUnfiredFences := unfired ++ [fence] |>, timestampAccepted)
           else
             a ← addVsyncTimestamp (mTracker r) signalTime;
             Some (r <| mTracker := a.2 |>, timestampAccepted && a.1));
      let '(r, timestampAccepted) := p in
      let r := if negb timestampAccepted then
                 (setIgnorePresentFencesInternal (r <| mMoreSamplesNeeded := true |>) true) <| mPeriodConfirmationInProgress := true |>
               else r in
      Some (mMoreSamplesNeeded r, r)
  end.

(** *** Queries *)

Definition getPeriod (r : t) : option Z := currentPeriod (mTracker r).

Definition computeNextRefresh (r : t) (periodOffset now : Z) : option Z :=
  period ← (if periodOffset =? 0 then Some 0 else currentPeriod (mTracker r));
  nextAnticipatedVSyncTimeFrom (mTracker r) (now + periodOffset * period).

Definition expectedPresentTime (r : t) (now : Z) : option Z := nextAnticipatedVSyncTimeFrom (mTracker r) now.

(** *** Changes of the period *)

Definition startPeriodTransition (r : t) (newPeriod : Z) : t :=
  setIgnorePresentFencesInternal
    (r <| mPeriodConfirmationInProgress := true |> <| mPeriodTransitioningTo := Some newPeriod |> <| mMoreSamplesNeeded := true |>) true.

Definition endPeriodTransition (r : t) : t :=
  r <| mPeriodTransitioningTo := None |> <| mPeriodConfirmationInProgress := false |> <| mLastHwVsync := None |>.

Definition setPeriod (r : t) (period : Z) : option t :=
  let r := r <| mLastHwVsync := None |> in
  same ← (if mSupportKernelIdleTimer r then Some false else current ← getPeriod r; Some (period =? current));
  Some (if same : bool then
          (setIgnorePresentFencesInternal (endPeriodTransition r) false) <| mMoreSamplesNeeded := false |>
        else startPeriodTransition r period).

Definition beginResync (r : t) : t := r <| mTracker := resetModel (mTracker r) |>.

(** *** Samples of the hardware vsync *)

Definition periodConfirmed (r : t) (vsync_timestamp : Z) (HwcVsyncPeriod : option Z) : option bool :=
  if negb (mPeriodConfirmationInProgress r) then Some false
  else match mLastHwVsync r, HwcVsyncPeriod with
  | None, None => Some false
  | _, _ =>
    current ← getPeriod r;
    let periodIsChanging := match mPeriodTransitioningTo r with Some to => negb (to =? current) | None => false end in
    let HwcVsyncPeriod := if mSupportKernelIdleTimer r && negb periodIsChanging then None else HwcVsyncPeriod in
    let period := match mPeriodTransitioningTo r with Some to => to | None => current end in
    let allowance := Z.quot (period * 1) 10 in
    match HwcVsyncPeriod with
    | Some given => Some (Z.abs (given - period) <? allowance)
    | None =>
      last ← mLastHwVsync r;
      let distance := vsync_timestamp - last in
      Some (Z.abs (distance - period) <? allowance)
    end
  end.

(** the period the display has changed to, which the tracker and the listeners take over *)
Definition adopt (r : t) (period : Z) : t :=
  r <| mTracker := VSyncTracker.setPeriod (mTracker r) period |>
    <| mCallbacks := (fun c => CallbackRepeater.setPeriod c period) <$> mCallbacks r |>.

(** The result, [*periodFlushed] and the state; [*periodFlushed] is not always written. *)
Definition addResyncSample (r : t) (timestamp : Z) (hwcVsyncPeriod : option Z) (periodFlushed : bool) : option (bool * bool * t) :=
  confirmed ← periodConfirmed r timestamp hwcVsyncPeriod;
  p ← (if confirmed : bool then
         let '(r, periodFlushed) := match mPeriodTransitioningTo r with Some to => (adopt r to, true) | None => (r, periodFlushed) end in
         tracker ← match mLastHwVsync r with
                   | Some last => a ← addVsyncTimestamp (mTracker r) last; Some a.2
                   | None => Some (mTracker r)
                   end;
         a ← addVsyncTimestamp tracker timestamp;
         let r := endPeriodTransition (r <| mTracker := a.2 |>) in
         Some (r <| mMoreSamplesNeeded := needsMoreSamples (mTracker r) |>, periodFlushed)
       else if mPeriodConfirmationInProgress r then
         Some (r <| mLastHwVsync := Some timestamp |> <| mMoreSamplesNeeded := true |>, false)
       else
         a ← addVsyncTimestamp (mTracker r) timestamp;
         let r := r <| mTracker := a.2 |> in
         Some (r <| mMoreSamplesNeeded := needsMoreSamples (mTracker r) |>, false));
  let '(r, periodFlushed) := p in
  let r := if negb (mMoreSamplesNeeded r) then setIgnorePresentFencesInternal r false else r in
  Some (mMoreSamplesNeeded r, periodFlushed, r).

(** *** Listeners *)

Definition maxListeners : nat := 4.

(** [now] is read for a new repeater, [now'] when it is scheduled *)
Definition addEventListener (r : t) (phase callback now now' : Z) (order : list Z) : option (status_t * t) :=
  p ← match mCallbacks r !! callback with
      | Some repeater => Some (Some (repeater, mDispatch r))
      | None =>
        if Nat.leb maxListeners (base.size (mCallbacks r)) then Some None
        else
          period ← currentPeriod (mTracker r);
          Some (Some (CallbackRepeater.new (mDispatch r) period phase now))
      end;
  match p with
  | None => Some (NO_MEMORY, r)
  | Some (repeater, q) =>
    s ← CallbackRepeater.start repeater q phase (mTracker r) now' order;
    Some (NO_ERROR, r <| mCallbacks := <[callback := s.1]> (mCallbacks r) |> <| mDispatch := s.2 |>)
  end.

Definition removeEventListener (r : t) (callback now : Z) (order : list Z) : option (status_t * t) :=
  repeater ← mCallbacks r !! callback;
  s ← CallbackRepeater.stop repeater (mDispatch r) (mTracker r) now order;
  Some (NO_ERROR, r <| mCallbacks := <[callback := s.1]> (mCallbacks r) |> <| mDispatch := s.2 |>).

Definition changePhaseOffset (r : t) (callback phase now : Z) (order : list Z) : option (status_t * t) :=
  repeater ← mCallbacks r !! callback;
  s ← CallbackRepeater.start repeater (mDispatch r) phase (mTracker r) now order;
  Some (NO_ERROR, r <| mCallbacks := <[callback := s.1]> (mCallbacks r) |> <| mDispatch := s.2 |>).

End Reactor.

Arguments t : clear implicits.

End VSyncReactor.
