(* ===== verification/VSyncReactorTheorems.v ===== *)
(** * What the vsync reactor guarantees

    The invariant of its flags, and how a change of the period is confirmed. *)

From S2P Require Import Prelude VSyncTracker VSyncPredictor VSyncPredictorTheorems VSyncDispatch VSyncReactor.
Import VSyncReactor.

Section Reactor.

Context {T : Type} `{!VSyncTracker T, !VSyncTrackerLaws T}.
Implicit Types r : VSyncReactor.t T.

Definition ignoring r : bool := mExternalIgnoreFences r || mInternalIgnoreFences r.

Record reactor_ok r : Prop := {
  ok_confirmation : mPeriodConfirmationInProgress r = true -> mInternalIgnoreFences r = true;
  ok_samples : mInternalIgnoreFences r = true -> mMoreSamplesNeeded r = true;
  ok_transition p : mPeriodTransitioningTo r = Some p -> mPeriodConfirmationInProgress r = true /\ 0 < p <= max_period (T := T);
  ok_last : is_Some (mLastHwVsync r) -> mPeriodConfirmationInProgress r = true;
  ok_ignored : ignoring r = true -> mUnfiredFences r = [];
  ok_limit : Z.of_nat (length (mUnfiredFences r)) <= mPendingLimit r /\ 0 < mPendingLimit r;
  ok_tracker : tracker_ok (mTracker r) }.

Lemma reactor_new_ok tracker q limit idle : tracker_ok tracker -> 0 < limit -> reactor_ok (VSyncReactor.new tracker q limit idle).
Proof. intros. split; cbn; try done; lia. Qed.

(** ** Fences *)

Lemma updateIgnore_ok r :
  (mPeriodConfirmationInProgress r = true -> mInternalIgnoreFences r = true) -> (mInternalIgnoreFences r = true -> mMoreSamplesNeeded r = true) ->
  (forall p, mPeriodTransitioningTo r = Some p -> mPeriodConfirmationInProgress r = true /\ 0 < p <= max_period (T := T)) ->
  (is_Some (mLastHwVsync r) -> mPeriodConfirmationInProgress r = true) ->
  Z.of_nat (length (mUnfiredFences r)) <= mPendingLimit r /\ 0 < mPendingLimit r -> tracker_ok (mTracker r) ->
  reactor_ok (updateIgnorePresentFencesInternal r).
Proof.
  intros H1 H2 H3 H4 H5 H6. unfold updateIgnorePresentFencesInternal. destruct (_ || _) eqn:E; split; cbn; try done; try lia.
  unfold ignoring. intros Hi. congruence.
Qed.

Lemma setIgnorePresentFences_ok r b : reactor_ok r -> reactor_ok (setIgnorePresentFences r b).
Proof. intros []. by apply updateIgnore_ok. Qed.

Lemma fire_ok signal fences (t : T) b fences' t' b' :
  tracker_ok t -> fire signal fences t b = Some (fences', t', b') -> tracker_ok t' /\ (length fences' <= length fences)%nat /\ (forall f, f ∈ fences' -> signal f = SIGNAL_TIME_PENDING).
Proof.
  revert t b fences'. induction fences as [|f fences IH]; intros t b fences' Ht H; cbn in H; [injection H as <- <- <-; split_and!; [done|done|by intros f Hf%not_elem_of_nil]|].
  destruct (signal f =? SIGNAL_TIME_PENDING) eqn:E; bool_to_prop.
  - destruct (fire signal fences t b) as [[[u t1] b1]|] eqn:Ef; [|done]. injection H as <- -> ->. destruct (IH _ _ _ Ht Ef) as (H1 & H2 & H3).
    split_and!; [done|cbn; lia|]. intros f' [->|Hf]%elem_of_cons; auto.
  - destruct (signal f =? SIGNAL_TIME_INVALID); [destruct (IH _ _ _ Ht H) as (? & ? & ?); split_and!; [done|cbn; lia|done]|].
    destruct (addVsyncTimestamp t (signal f)) as [[a t1]|] eqn:Ea; [|done]. cbn in H. destruct (IH _ _ _ (add_ok _ _ _ _ Ht Ea) H) as (? & ? & ?). split_and!; [done|cbn; lia|done].
Qed.

Lemma with_fences_ok r fences t' :
  reactor_ok r -> ignoring r = false -> tracker_ok t' -> Z.of_nat (length fences) <= mPendingLimit r -> reactor_ok (r <| mUnfiredFences := fences |> <| mTracker := t' |>).
Proof. intros [] Hi Ht Hl. split; cbn; try done; [|lia]. unfold ignoring in *. cbn. congruence. Qed.

Lemma addPresentFence_ok r fence signal b r' : reactor_ok r -> addPresentFence r fence signal = Some (b, r') -> reactor_ok r'.
Proof.
  intros Hr H. unfold addPresentFence in H. destruct fence as [f|]; [|by injection H as <- <-].
  destruct (signal f =? SIGNAL_TIME_INVALID); [by injection H as <- <-|]. destruct (_ || _) eqn:Ei; [by injection H as <- <-|]. change (ignoring r = false) in Ei.
  destruct (fire _ _ _ _) as [[[unfired t1] accepted]|] eqn:Ef; [|done]. cbn in H.
  destruct (fire_ok _ _ _ _ _ _ _ (ok_tracker r Hr) Ef) as (Ht & Hlen & _). destruct (ok_limit r Hr) as [Hl1 Hl2].
  assert (forall r1 a, reactor_ok r1 -> Some (mMoreSamplesNeeded (if negb a then (setIgnorePresentFencesInternal (r1 <| mMoreSamplesNeeded := true |>) true) <| mPeriodConfirmationInProgress := true |> else r1),
      if negb a then (setIgnorePresentFencesInternal (r1 <| mMoreSamplesNeeded := true |>) true) <| mPeriodConfirmationInProgress := true |> else r1) = Some (b, r') -> reactor_ok r') as Hend.
  { intros r1 a H1 [= _ <-]. destruct a; [done|]. destruct H1. cbn. unfold setIgnorePresentFencesInternal, updateIgnorePresentFencesInternal. cbn. rewrite orb_true_r.
    split; cbn; try done; [|lia]. intros p Hp. by apply ok_transition0 in Hp as [_ ?]. }
  destruct (signal f =? SIGNAL_TIME_PENDING).
  - destruct (mPendingLimit r =? Z.of_nat (length unfired)) eqn:El; bool_to_prop; [destruct unfired as [|f0 unfired]; [done|]|]; cbn in H.
    + eapply Hend; [|exact H]. apply (with_fences_ok r (unfired ++ [f]) t1); [done|exact Ei|done|]. rewrite length_app. simpl length in *. lia.
    + eapply Hend; [|exact H]. apply (with_fences_ok r (unfired ++ [f]) t1); [done|exact Ei|done|]. rewrite length_app. simpl length. lia.
  - destruct (addVsyncTimestamp t1 (signal f)) as [[a t2]|] eqn:Ea; [|done]. cbn in H. eapply Hend; [|exact H].
    apply (with_fences_ok r unfired t2); [done|exact Ei|by eapply add_ok|lia].
Qed.

(** ** The period *)

Lemma setPeriod_reactor_ok r p r' : reactor_ok r -> 0 < p <= max_period (T := T) -> VSyncReactor.setPeriod r p = Some r' -> reactor_ok r'.
Proof.
  intros [] Hp H. unfold VSyncReactor.setPeriod in H. destruct (if mSupportKernelIdleTimer _ then _ else _) as [same|]; [|done]. cbn in H. injection H as <-.
  destruct same.
  - unfold setIgnorePresentFencesInternal, updateIgnorePresentFencesInternal, endPeriodTransition, ignoring in *. cbn.
    destruct (mExternalIgnoreFences r) eqn:Ee; cbn; split; cbn; try done; try lia; try (by intros []). unfold ignoring. cbn. by rewrite Ee.
  - unfold startPeriodTransition, setIgnorePresentFencesInternal. apply updateIgnore_ok; cbn; try done. by intros ? [= <-].
Qed.

Lemma beginResync_ok r : reactor_ok r -> reactor_ok (beginResync r).
Proof. intros []. split; cbn; try done. by apply resetModel_ok. Qed.

(** a sample: the tracker and the flags *)
Lemma addResyncSample_ok r ts period flushed more flushed' r' :
  reactor_ok r -> addResyncSample r ts period flushed = Some (more, flushed', r') -> reactor_ok r' /\ more = mMoreSamplesNeeded r'.
Proof.
  intros Hr H. unfold addResyncSample in H. destruct (periodConfirmed r ts period) as [c|] eqn:Ec; [|done]. cbn [mbind option_bind] in H.
  assert (forall r1 f, (mPeriodConfirmationInProgress r1 = true -> mInternalIgnoreFences r1 = true /\ mMoreSamplesNeeded r1 = true) ->
      (forall p, mPeriodTransitioningTo r1 = Some p -> mPeriodConfirmationInProgress r1 = true /\ 0 < p <= max_period (T := T)) ->
      (is_Some (mLastHwVsync r1) -> mPeriodConfirmationInProgress r1 = true) -> (ignoring r1 = true -> mUnfiredFences r1 = []) ->
      Z.of_nat (length (mUnfiredFences r1)) <= mPendingLimit r1 /\ 0 < mPendingLimit r1 -> tracker_ok (mTracker r1) ->
      Some (mMoreSamplesNeeded (if negb (mMoreSamplesNeeded r1) then setIgnorePresentFencesInternal r1 false else r1), f,
            if negb (mMoreSamplesNeeded r1) then setIgnorePresentFencesInternal r1 false else r1) = Some (more, flushed', r') ->
      reactor_ok r' /\ more = mMoreSamplesNeeded r') as Hend.
  { intros r1 f H1 H2 H3 H4 H5 H6 [= <- _ <-]. split; [|done]. destruct (mMoreSamplesNeeded r1) eqn:Em; cbn [negb]; [split; try done; by apply H1|].
    unfold setIgnorePresentFencesInternal. apply updateIgnore_ok; cbn; try done. by intros [_ ?]%H1. }
  destruct Hr. destruct c.
  - assert (exists r1 f1, (match mPeriodTransitioningTo r with Some to => (adopt r to, true) | None => (r, flushed) end) = (r1, f1) /\
        tracker_ok (mTracker r1) /\ mLastHwVsync r1 = mLastHwVsync r /\ mUnfiredFences r1 = mUnfiredFences r /\ mPendingLimit r1 = mPendingLimit r /\ ignoring r1 = ignoring r)
      as (r1 & f1 & E1 & Ht1 & _ & EU & EP & EI).
    { destruct (mPeriodTransitioningTo r) as [to|] eqn:Eto; eexists _, _; (split; [done|]); split_and!; try done. cbn. apply setPeriod_ok; [done|]. by apply ok_transition0. }
    rewrite E1 in H. destruct (match mLastHwVsync r1 with Some _ => _ | None => _ end) as [t2|] eqn:E2; [|done]. cbn [mbind option_bind] in H.
    assert (tracker_ok t2) as Ht2.
    { destruct (mLastHwVsync r1); [|by injection E2 as <-]. destruct (addVsyncTimestamp (mTracker r1) z) as [[a t3]|] eqn:Ea; [|done]. injection E2 as <-. by eapply add_ok. }
    destruct (addVsyncTimestamp t2 ts) as [[a t3]|] eqn:Ea; [|done]. cbn in H. eapply Hend; [..|exact H]; cbn; try done; try (by intros []).
    + unfold ignoring in *. cbn. rewrite EI, EU. done.
    + by rewrite EU, EP.
    + by eapply add_ok.
  - destruct (mPeriodConfirmationInProgress r) eqn:Ep.
    + apply (Hend (r <| mLastHwVsync := Some ts |> <| mMoreSamplesNeeded := true |>) false); [..|exact H]; cbn; rewrite ?Ep; auto.
    + destruct (addVsyncTimestamp (mTracker r) ts) as [[a t3]|] eqn:Ea; [|done]. cbn in H. eapply Hend; [..|exact H]; cbn; try done; try (by rewrite Ep).
      by eapply add_ok.
Qed.

(** ** Confirming a change of the period *)

(** a sample that is the period away from the last one, give or take a tenth *)
Definition on_period (p distance : Z) : bool := Z.abs (distance - p) <? Z.quot (p * 1) 10.

(** waiting for a sample that confirms the period [p] *)
Definition confirming r (p : Z) (last : option Z) : Prop :=
  mPeriodConfirmationInProgress r = true /\ mPeriodTransitioningTo r = Some p /\ mLastHwVsync r = last.

Lemma first_sample r p ts flushed : confirming r p None ->
  exists r', addResyncSample r ts None flushed = Some (true, false, r') /\ confirming r' p (Some ts) /\ mTracker r' = mTracker r /\ mCallbacks r' = mCallbacks r.
Proof.
  intros (H1 & H2 & H3). unfold addResyncSample, periodConfirmed. rewrite H1, H3. cbn [negb mbind option_bind]. eexists. split; [done|]. by split_and!.
Qed.

Lemma late_sample r p last ts flushed : reactor_ok r -> confirming r p (Some last) -> on_period p (ts - last) = false ->
  exists r', addResyncSample r ts None flushed = Some (true, false, r') /\ confirming r' p (Some ts) /\ mTracker r' = mTracker r /\ mCallbacks r' = mCallbacks r.
Proof.
  intros Hr (H1 & H2 & H3) Hd. destruct (period_positive _ (ok_tracker r Hr)) as (c & Hc & _). unfold addResyncSample, periodConfirmed, getPeriod. rewrite H1, H2, H3, Hc.
  cbn [negb mbind option_bind]. destruct (_ && _); cbn [mbind option_bind]; change (Z.abs (ts - last - p) <? Z.quot (p * 1) 10) with (on_period p (ts - last)); rewrite Hd;
    cbn [mbind option_bind]; (eexists; split; [done|]); by split_and!.
Qed.

Lemma confirming_sample r p last ts flushed t1 t2 a1 a2 :
  reactor_ok r -> confirming r p (Some last) -> on_period p (ts - last) = true ->
  addVsyncTimestamp (VSyncTracker.setPeriod (mTracker r) p) last = Some (a1, t1) -> addVsyncTimestamp t1 ts = Some (a2, t2) ->
  exists r', addResyncSample r ts None flushed = Some (needsMoreSamples t2, true, r') /\ mTracker r' = t2 /\
    mPeriodConfirmationInProgress r' = false /\ mInternalIgnoreFences r' = needsMoreSamples t2 /\
    mCallbacks r' = (fun c => CallbackRepeater.setPeriod c p) <$> mCallbacks r.
Proof.
  intros Hr (H1 & H2 & H3) Hd Ha1 Ha2. destruct (period_positive _ (ok_tracker r Hr)) as (c & Hc & _). pose proof (ok_confirmation r Hr H1) as Hint.
  unfold addResyncSample, periodConfirmed, getPeriod. rewrite H1, H2, H3, Hc. cbn [negb mbind option_bind].
  assert (forall b : bool, (match (if b then None else None) with Some given => Some (Z.abs (given - p) <? Z.quot (p * 1) 10) | None => Some (Z.abs (ts - last - p) <? Z.quot (p * 1) 10) end) = Some true) as Hc'.
  { intros b. rewrite <- Hd. by destruct b. }
  rewrite Hc'. cbn [mbind option_bind]. cbn. rewrite H3. cbn. rewrite Ha1. cbn. rewrite Ha2. cbn.
  destruct (needsMoreSamples t2) eqn:En; cbn; [by eexists; split_and!|].
  unfold setIgnorePresentFencesInternal, updateIgnorePresentFencesInternal. cbn. destruct (mExternalIgnoreFences r); cbn; by eexists; split_and!.
Qed.

(** A change of the period is taken over when two consecutive samples of the hardware
    vsync confirm it: the request leaves the tracker as it is; the first sample is
    remembered; a second one a period away (give or take a tenth) makes the tracker change
    to the new period and learn both samples, passes the period on to all listeners, and
    reports the change; any other second sample takes the place of the first. *)
Theorem period_change_confirmed r c p t1 t2 flushed flushed' :
  reactor_ok r -> mSupportKernelIdleTimer r = false -> getPeriod r = Some c -> p <> c ->
  exists r1 r2, VSyncReactor.setPeriod r p = Some r1 /\ mTracker r1 = mTracker r /\
    addResyncSample r1 t1 None flushed = Some (true, false, r2) /\ mTracker r2 = mTracker r /\
    (0 < p <= max_period (T := T) ->
     if on_period p (t2 - t1)
     then forall a1 a2 tracker1 tracker2,
       addVsyncTimestamp (VSyncTracker.setPeriod (mTracker r) p) t1 = Some (a1, tracker1) -> addVsyncTimestamp tracker1 t2 = Some (a2, tracker2) ->
       exists r3, addResyncSample r2 t2 None flushed' = Some (needsMoreSamples tracker2, true, r3) /\ mTracker r3 = tracker2 /\
         mPeriodConfirmationInProgress r3 = false /\ mInternalIgnoreFences r3 = needsMoreSamples tracker2 /\
         map_Forall (fun _ listener => CallbackRepeater.mPeriod listener = p) (mCallbacks r3)
     else exists r3, addResyncSample r2 t2 None flushed' = Some (true, false, r3) /\ mTracker r3 = mTracker r /\ confirming r3 p (Some t2)).
Proof.
  intros Hr Hk Hc Hne. assert (VSyncReactor.setPeriod r p = Some (startPeriodTransition (r <| mLastHwVsync := None |>) p)) as E1.
  { unfold VSyncReactor.setPeriod, getPeriod in *. cbn. rewrite Hk, Hc. cbn. by rewrite (proj2 (Z.eqb_neq p c) Hne). }
  set (r1 := startPeriodTransition _ p) in E1.
  assert (confirming r1 p None /\ mTracker r1 = mTracker r) as [Hconf Htr].
  { unfold r1, startPeriodTransition, setIgnorePresentFencesInternal, updateIgnorePresentFencesInternal, confirming. cbn. rewrite orb_true_r. by split_and!. }
  destruct (first_sample r1 p t1 flushed Hconf) as (r2 & E2 & Hconf2 & Htr2 & _). exists r1, r2. split_and!; [done|done|done|congruence|]. intros Hp.
  destruct (addResyncSample_ok _ _ _ _ _ _ _ (setPeriod_reactor_ok _ _ _ Hr Hp E1) E2) as [Hr2 _]. rewrite <- Htr, <- Htr2.
  destruct (on_period p (t2 - t1)) eqn:Ed.
  - intros a1 a2 k1 k2 Ha1 Ha2. destruct (confirming_sample r2 p t1 t2 flushed' k1 k2 a1 a2) as (r3 & E3 & H1 & H2 & H3 & H4); [done..|].
    exists r3. split_and!; [done..|]. rewrite H4. intros i x Hx. apply lookup_fmap_Some in Hx as (y & <- & _). unfold CallbackRepeater.setPeriod. by destruct (p =? _) eqn:Ep; bool_to_prop.
  - destruct (late_sample r2 p t1 t2 flushed' Hr2 Hconf2 Ed) as (r3 & E3 & H1 & H2 & _). by exists r3.
Qed.

End Reactor.

(** a display with a vsync at every multiple of 100 *)
Definition ticking : VSyncPredictor.t := VSyncPredictor.mk 4 3 20 100 None {[100 := (100, 0)]} 0 [0].

#[local] Instance ticking_tracker : VSyncTracker VSyncPredictor.t := predictor_tracker (fun _ => 0).
#[local] Instance ticking_laws : VSyncTrackerLaws VSyncPredictor.t := predictor_laws (fun _ => 0) 1000000000.

Lemma ticking_ok : tracker_ok ticking.
Proof. split; [apply (wf_add (VSyncPredictor.new 100 4 3 20) 0 true); [apply wf_new; lia|by vm_compute]|]. split; [done|]. by apply map_Forall_singleton. Qed.

Definition quiet : VSyncReactor.t VSyncPredictor.t := VSyncReactor.new ticking (Queue.new 5 10) 20 false.

Lemma period_change_confirmed_witness :
  exists r1 r2 r3, VSyncReactor.setPeriod quiet 50 = Some r1 /\ addResyncSample r1 1000 None false = Some (true, false, r2) /\
    addResyncSample r2 1052 None false = Some (true, true, r3) /\ currentPeriod (mTracker r3) = Some 50.
Proof.
  destruct (period_change_confirmed quiet 100 50 1000 1052 false false) as (r1 & r2 & E1 & _ & E2 & _ & H).
  - apply reactor_new_ok; [apply ticking_ok|lia].
  - reflexivity.
  - reflexivity.
  - lia.
  - change (on_period 50 (1052 - 1000)) with true in H. edestruct H as (r3 & E3 & Ht & _); [by vm_compute|vm_compute; reflexivity|vm_compute; reflexivity|].
    exists r1, r2, r3. split; [exact E1|]. split; [exact E2|]. split; [exact E3|]. rewrite Ht. vm_compute. reflexivity.
Defined.

(** With support for the kernel's idle timer, a period the composer reports is dropped when
    the period is not changing; without a last hardware sample, [*mLastHwVsync] is then
    read although it is empty. *)
Theorem idle_timer_reads_empty_optional :
  exists r, VSyncReactor.setPeriod (VSyncReactor.new ticking (Queue.new 5 10) 20 true) 100 = Some r /\
    mLastHwVsync r = None /\ addResyncSample r 1000 (Some 100) false = None.
Proof. eexists. split; [reflexivity|]. by split. Qed.
