(* ===== verification/VSyncStack.v ===== *)
(** * The vsync scheduler put together

    The reactor with its listeners, the dispatcher and the timer thread, as one transition
    system. Each operation of the reactor is one step: it holds [mMutex], and what the timer
    thread does to the dispatcher in between could as well come before. The callback of a
    listener is run by the timer thread in two locked parts with the listener's own code
    between them ([CallbackRepeater::callback]). The tracer of predicted vsyncs, a debugging
    aid, is left out. *)

From S2P Require Import Prelude VSyncTracker VSyncDispatch VSyncDispatchInvariant VSyncDispatchOps VSyncDispatchSystem VSyncDispatchTheorems.
From S2P Require Import VSyncReactor VSyncReactorTheorems.
Import VSyncReactor.

(** ** Callbacks that stay active *)

Definition keeps_active (except : option Z) (q q' : Queue.t) : Prop :=
  forall k e, Some k <> except -> Queue.mCallbacks q !! k = Some e -> active e = true -> exists e', Queue.mCallbacks q' !! k = Some e' /\ active e' = true.

Section Queue.

Context {T : Type} `{!VSyncTracker T, !VSyncTrackerLaws T}.
Context (horizon_fits : horizon (T := T) <= time_limit).

Lemma rearm_active q (tracker : T) now skip order q' :
  Queue.rearmTimerSkippingUpdateFor q tracker now skip order = Some q' -> keeps_active None q q'.
Proof.
  unfold Queue.rearmTimerSkippingUpdateFor. destruct (Queue.rearm_loop _ _ _ _ _ _) as [[cb m]|] eqn:E; [|done]. cbn. intros H k e _ He Ha.
  destruct (rearm_keeps _ _ _ _ _ _ _ _ E k e He) as (e' & He' & _ & _ & Hact). exists e'. split; [|by auto].
  destruct m as [m|]; [destruct (m <? _)|]; by injection H as <-.
Qed.

Lemma insert_active q k e : active e = true -> keeps_active None q (q <| Queue.mCallbacks := <[k := e]> (Queue.mCallbacks q) |>).
Proof. intros He k' e' _ Hk' Ha. cbn. destruct (decide (k' = k)) as [->|]; [exists e; by rewrite lookup_insert_eq|exists e'; by rewrite lookup_insert_ne]. Qed.

Lemma schedule_active q k work earliest (tracker : T) now order :
  queue_ok q -> sane tracker now -> request_ok work earliest -> iterates order (Queue.mCallbacks q) -> is_Some (Queue.mCallbacks q !! k) ->
  exists q', Queue.schedule q k work earliest tracker now order = Some (Scheduled, q') /\ queue_ok q' /\ (kept q q' \/ settled q') /\ same_tokens q q' /\
    keeps_active None q q' /\ exists e, Queue.mCallbacks q' !! k = Some e /\ active e = true.
Proof.
  intros Hq Hs Hr Hord [e He]. destruct (schedule_ok horizon_fits q k work earliest tracker now order Hq Hs Hr Hord) as (r & q' & E & Hq' & Hk & Hsame & Hres).
  exists q'. assert (r = Scheduled) as ->.
  { destruct r; [done|by destruct (never_cannot_schedule q k work earliest tracker now order q')|]. rewrite He in Hres. by destruct Hres as [Hres _]; specialize (Hres eq_refl). }
  assert (exists e', active e' = true /\ keeps_active None (q <| Queue.mCallbacks := <[k := e']> (Queue.mCallbacks q) |>) q') as (e' & Ha & Hkeep).
  { assert (forall q0, keeps_active None q0 q0) as Hrefl by (intros q0 k' e' _ ? ?; by exists e').
    unfold Queue.schedule in E. rewrite He in E. destruct (_ <? now); [injection E as <-; eexists; split; [|apply Hrefl]; unfold active; by destruct (Entry.wakeupTime _)|].
    destruct (schedule_spec horizon_fits e work earliest tracker now) as (e' & Es & _ & _ & _ & Harm); [by eapply queue_entries, He; apply Hq|done..|].
    rewrite Es in E. cbn in E. exists e'. split; [unfold active, Entry.wakeupTime in *; destruct Harm as [[-> [w Hw]]|(y & Hy & _)]; [by rewrite Hw|by rewrite Hy]|].
    destruct (match Entry.wakeupTime e' with Some _ => _ | None => _ end); [|injection E as <-; apply Hrefl].
    destruct (Queue.rearmTimerSkippingUpdateFor _ _ _ _ _) as [q1|] eqn:Er; [|done]. injection E as <-. by eapply rearm_active. }
  split_and!; try done; [|apply (Hkeep k e'); [done|cbn; by rewrite lookup_insert_eq|done]]. intros k' e0 _ Hk' Ha'.
  destruct (insert_active q k e' Ha k' e0) as (e1 & H1 & H2); [done..|]. by apply (Hkeep k' e1).
Qed.

Lemma cancel_active q k (tracker : T) now order r q' : Queue.cancel q k tracker now order = Some (r, q') -> keeps_active (Some k) q q'.
Proof.
  unfold Queue.cancel. destruct (Queue.mCallbacks q !! k) as [e|] eqn:He; [|by intros [= <- <-] k' e' _ ? ?; exists e'].
  assert (keeps_active (Some k) q (q <| Queue.mCallbacks := <[k := Entry.disarm e]> (Queue.mCallbacks q) |>)) as Hd.
  { intros k' e' Hne Hk' Ha. exists e'. cbn. split; [|done]. rewrite lookup_insert_ne; [done|congruence]. }
  destruct (Entry.wakeupTime e); [|by intros [= <- <-] k' e' _ ? ?; exists e']. cbn. destruct (_ =? _); [|by intros [= <- <-]].
  unfold Queue.rearmTimer. destruct (Queue.rearmTimerSkippingUpdateFor _ _ _ _ _) as [q1|] eqn:Er; [|done]. intros [= <- <-] k' e' Hne Hk' Ha.
  destruct (Hd k' e' Hne Hk' Ha) as (e1 & H1 & H2). by eapply (rearm_active _ _ _ _ _ _ Er k' e1).
Qed.

Lemma register_active q : queue_ok q ->
  keeps_active None q (Queue.registerCallback q).2 /\ Queue.mCallbacks q !! (Queue.registerCallback q).1 = None /\
  Queue.mCallbacks (Queue.registerCallback q).2 = <[(Queue.registerCallback q).1 := Entry.new (Queue.mMinVsyncDistance q)]> (Queue.mCallbacks q).
Proof.
  intros Hq. unfold Queue.registerCallback. cbn. set (k := Queue.mCallbackToken q + 1).
  destruct (Queue.mCallbacks q !! k) as [e|] eqn:E; [pose proof (queue_tokens q (queue_base_ok q Hq) k ltac:(by eexists)); lia|].
  split_and!; [|done|done]. intros k' e' _ Hk' Ha. exists e'. cbn. split; [|done]. rewrite lookup_insert_ne; [done|congruence].
Qed.

Lemma timerCallback_active q (tracker : T) now now' order order' invocations q' :
  queue_ok q -> sane tracker now -> iterates order (Queue.mCallbacks q) ->
  Queue.timerCallback q tracker now now' order order' = Some (invocations, q') ->
  forall k e, Queue.mCallbacks q !! k = Some e -> active e = true ->
    (exists e', Queue.mCallbacks q' !! k = Some e' /\ active e' = true) \/ exists i, i ∈ invocations /\ Queue.callback i = k.
Proof.
  intros Hq Hs Hord H k e He Ha. unfold Queue.timerCallback in H. destruct (queue_base_ok q Hq) as [Hslack _ _ _].
  destruct (collect_spec now (Queue.mIntendedWakeupTime q) (Queue.mTimerSlack q) order (Queue.mCallbacks q)) as (cb & Ec & Hcb);
    [apply Hord|by intros j ?%Hord|done|apply Hs| |].
  { intros j ej w Hej Hw. destruct (queue_armed q Hq j ej w Hej Hw) as [Hv _]. by destruct (queue_intended q Hq). }
  rewrite Ec in H. cbn [mbind option_bind fst snd] in H. set (limit := _ + _) in *.
  unfold Queue.rearmTimer in H. destruct (Queue.rearmTimerSkippingUpdateFor _ _ _ _ _) as [q1|] eqn:Er; [|done]. injection H as <- <-.
  assert (k ∈ order) as Hk by (apply Hord; by eexists).
  destruct (due limit e) eqn:Ed.
  - right. unfold due, Entry.wakeupTime in Ed. destruct (Entry.mArmedInfo e) as [info|] eqn:Ei; [|done]. cbn in Ed.
    exists (Queue.invocation k (Entry.mActualVsyncTime info) (Entry.mActualWakeupTime info)). split; [|done].
    apply list_elem_of_omap. exists k. split; [done|]. unfold due_invocation. rewrite He. cbn. rewrite Ei. cbn. by rewrite Ed.
  - left. eapply (rearm_active _ _ _ _ _ _ Er k e); [done| |done]. cbn. rewrite Hcb, decide_True, He by done. cbn. unfold dispatched. by rewrite Ed.
Qed.

End Queue.

(** ** The transition system *)

(** how far the callback the timer thread is in has come *)
Inductive stage := Entered | InListener | Left.

Record stack (T : Type) := st { reactor : VSyncReactor.t T; thread_state : thread; where_in : stage }.
Arguments st {T}. Arguments reactor {T}. Arguments thread_state {T}. Arguments where_in {T}.

Inductive action :=
  | AddEventListener (phase callback now now' : Z) (order : list Z)
  | RemoveEventListener (callback now : Z) (order : list Z)
  | ChangePhaseOffset (callback phase now : Z) (order : list Z)
  | AddPresentFence (fence : option Z) (getCachedSignalTime : Z -> Z)
  | SetIgnorePresentFences (ignoration : bool)
  | SetPeriod (period : Z)
  | BeginResync
  | AddResyncSample (timestamp : Z) (hwcVsyncPeriod : option Z) (periodFlushed : bool)
  | TimerWakes (now : Z)
  | TimerReads (now : Z)
  | TimerFires (now now' : Z) (order order' : list Z)
  | CallbackStarts
  | CallbackBegin (callback : Z)
  | CallbackEnd (callback now : Z) (order : list Z)
  | CallbackReturns
  | TimerReturns.

(** half of [time_limit]: the difference of a period and an offset still fits *)
Definition half_limit : Z := 288230376151711744.

Section Stack.

Context {T : Type} `{!VSyncTracker T}.
Implicit Types s : stack T.

Definition token_of (l : CallbackRepeater.t) : Z := Registration.mToken (CallbackRepeater.mRegistration l).

Definition system_of s : system T := sys (mDispatch (reactor s)) (mTracker (reactor s)) (thread_state s) [] [].

(** the listener whose callback the timer thread is in, with the vsync it is for *)
Definition in_callback s (c : Z) : option (CallbackRepeater.t * Z) :=
  match thread_state s with
  | Running (Some i) _ =>
    l ← mCallbacks (reactor s) !! c;
    if token_of l =? Queue.callback i then Some (l, Queue.vsyncTimestamp i) else None
  | _ => None
  end.

(** what can happen; listeners are removed and changed by clients that have added them *)
Definition possible s (a : action) : bool :=
  match a with
  | RemoveEventListener c _ _ => match mCallbacks (reactor s) !! c with Some l => negb (CallbackRepeater.mStopped l) | None => false end
  | ChangePhaseOffset c _ _ _ => match mCallbacks (reactor s) !! c with Some _ => true | None => false end
  | TimerWakes now => enabled (system_of s) (EpollWait now)
  | TimerReads now => enabled (system_of s) (Read now)
  | TimerFires now now' order order' => enabled (system_of s) (TimerCallback now now' order order')
  | CallbackStarts => enabled (system_of s) Start
  | CallbackBegin c => match in_callback s c, where_in s with Some _, Entered => true | _, _ => false end
  | CallbackEnd c _ _ => match in_callback s c, where_in s with Some _, InListener => true | _, _ => false end
  | CallbackReturns => enabled (system_of s) Finish && match where_in s with Left => true | _ => false end
  | TimerReturns => enabled (system_of s) Return
  | _ => true
  end.

Definition on_timer s (e : event T) (w : stage) : option (stack T) :=
  s' ← step (system_of s) e;
  Some (st ((reactor s) <| mDispatch := queue s' |>) (timer s') w).

Definition on_reactor s (r : option (VSyncReactor.t T)) : option (stack T) := r ← r; Some (st r (thread_state s) (where_in s)).

Definition act s (a : action) : option (stack T) :=
  match a with
  | AddEventListener phase c now now' order => on_reactor s (snd <$> addEventListener (reactor s) phase c now now' order)
  | RemoveEventListener c now order => on_reactor s (snd <$> removeEventListener (reactor s) c now order)
  | ChangePhaseOffset c phase now order => on_reactor s (snd <$> changePhaseOffset (reactor s) c phase now order)
  | AddPresentFence fence signal => on_reactor s (snd <$> addPresentFence (reactor s) fence signal)
  | SetIgnorePresentFences b => on_reactor s (Some (setIgnorePresentFences (reactor s) b))
  | SetPeriod p => on_reactor s (VSyncReactor.setPeriod (reactor s) p)
  | BeginResync => on_reactor s (Some (beginResync (reactor s)))
  | AddResyncSample ts p flushed => on_reactor s (snd <$> addResyncSample (reactor s) ts p flushed)
  | TimerWakes now => on_timer s (EpollWait now) (where_in s)
  | TimerReads now => on_timer s (Read now) (where_in s)
  | TimerFires now now' order order' => on_timer s (TimerCallback now now' order order') (where_in s)
  | CallbackStarts => on_timer s Start Entered
  | CallbackBegin c =>
    lv ← in_callback s c;
    let r := reactor s in
    Some (st (r <| mCallbacks := <[c := CallbackRepeater.callback_begin lv.1 lv.2]> (mCallbacks r) |>) (thread_state s) InListener)
  | CallbackEnd c now order =>
    lv ← in_callback s c;
    q ← CallbackRepeater.callback_end lv.1 (mDispatch (reactor s)) lv.2 (mTracker (reactor s)) now order;
    Some (st ((reactor s) <| mDispatch := q |>) (thread_state s) Left)
  | CallbackReturns => on_timer s Finish (where_in s)
  | TimerReturns => on_timer s Return (where_in s)
  end.

Context `{!VSyncTrackerLaws T}.

(** the queue a listener is started with *)
Definition queue_for (r : VSyncReactor.t T) (c : Z) : Queue.t :=
  match mCallbacks r !! c with Some _ => mDispatch r | None => (Queue.registerCallback (mDispatch r)).2 end.

(** bounded times, periods the tracker can take, an order in which a map can be iterated *)
Definition action_ok s (a : action) : Prop :=
  match a with
  | AddEventListener phase c now now' order =>
    Z.abs phase <= half_limit /\ 0 <= now <= time_limit /\ 0 <= now' <= time_limit /\ iterates order (Queue.mCallbacks (queue_for (reactor s) c)) /\
    forall l, mCallbacks (reactor s) !! c = Some l -> CallbackRepeater.mLastCallTime l <= time_limit
  | ChangePhaseOffset c phase now order =>
    Z.abs phase <= half_limit /\ 0 <= now <= time_limit /\ iterates order (Queue.mCallbacks (mDispatch (reactor s))) /\
    forall l, mCallbacks (reactor s) !! c = Some l -> CallbackRepeater.mLastCallTime l <= time_limit
  | RemoveEventListener _ now order => 0 <= now <= time_limit /\ iterates order (Queue.mCallbacks (mDispatch (reactor s)))
  | SetPeriod p => 0 < p <= max_period (T := T)
  | TimerFires now now' order order' => event_ok (system_of s) (TimerCallback now now' order order')
  | CallbackEnd c now order =>
    0 <= now <= time_limit /\ iterates order (Queue.mCallbacks (mDispatch (reactor s))) /\ forall l v, in_callback s c = Some (l, v) -> v <= time_limit
  | _ => True
  end.

Inductive reaches (s0 : stack T) : stack T -> Prop :=
  | reaches_start : reaches s0 s0
  | reaches_act s a s' : reaches s0 s -> possible s a = true -> action_ok s a -> act s a = Some s' -> reaches s0 s'.

Definition boot (tracker : T) (timerSlack minVsyncDistance pendingFenceLimit : Z) (supportKernelIdleTimer : bool) : stack T :=
  st (VSyncReactor.new tracker (Queue.new timerSlack minVsyncDistance) pendingFenceLimit supportKernelIdleTimer) Waiting Left.

(** ** The invariant *)

(** The callback of a token is waiting for its time, or has been handed to the timer thread
    and has not yet been scheduled again. *)
Definition served s (k : Z) : Prop :=
  (exists e, Queue.mCallbacks (mDispatch (reactor s)) !! k = Some e /\ active e = true) \/
  match thread_state s with
  | Running c rest => (exists i, i ∈ rest /\ Queue.callback i = k) \/ (where_in s <> Left /\ Queue.callback <$> c = Some k)
  | _ => False
  end.

Record listener_ok (q : Queue.t) (l : CallbackRepeater.t) : Prop := {
  listener_valid : Registration.mValidToken (CallbackRepeater.mRegistration l) = true;
  listener_registered : is_Some (Queue.mCallbacks q !! token_of l);
  listener_period : 0 < CallbackRepeater.mPeriod l <= half_limit;
  listener_offset : Z.abs (CallbackRepeater.mOffset l) <= half_limit }.

Record stack_ok s : Prop := {
  stack_system : system_ok (system_of s);
  stack_reactor : reactor_ok (reactor s);
  stack_listeners : map_Forall (fun _ => listener_ok (mDispatch (reactor s))) (mCallbacks (reactor s));
  stack_distinct c c' l l' : mCallbacks (reactor s) !! c = Some l -> mCallbacks (reactor s) !! c' = Some l' -> token_of l = token_of l' -> c = c';
  stack_served c l : mCallbacks (reactor s) !! c = Some l -> CallbackRepeater.mStopped l = false -> served s (token_of l) }.

End Stack.
