(* ===== verification/VSyncStackTheorems.v ===== *)
(** * What the vsync scheduler guarantees to its listeners

    The invariant of the whole: the dispatcher's and the reactor's invariants hold, every
    listener has a registered callback of its own, and the callback of a listener that is
    not stopped is waiting for its time or in the hands of the timer thread. *)

From S2P Require Import Prelude VSyncTracker VSyncPredictor VSyncPredictorTheorems.
From S2P Require Import VSyncDispatch VSyncDispatchInvariant VSyncDispatchOps VSyncDispatchSystem VSyncReactor VSyncReactorTheorems VSyncStack.
Import VSyncReactor.

Section Stack.

Context {T : Type} `{!VSyncTracker T, !VSyncTrackerLaws T}.
Context (horizon_half : horizon (T := T) <= half_limit) (period_half : max_period (T := T) <= half_limit).
Implicit Types s : stack T.

Lemma horizon_fits : horizon (T := T) <= time_limit.
Proof using horizon_half. unfold half_limit, time_limit in *. lia. Qed.

Lemma request_fits l earliest : 0 < CallbackRepeater.mPeriod l <= half_limit -> Z.abs (CallbackRepeater.mOffset l) <= half_limit -> earliest <= time_limit ->
  request_ok (CallbackRepeater.calculateWorkload l) earliest.
Proof. unfold request_ok, CallbackRepeater.calculateWorkload, half_limit, time_limit. lia. Qed.

(** ** Steps of a listener *)

Lemma tokens_kept q q' k : same_tokens q q' -> is_Some (Queue.mCallbacks q !! k) -> is_Some (Queue.mCallbacks q' !! k).
Proof. intros H. by rewrite (H k). Qed.

(** a listener and the dispatcher change, the other listeners stay served *)
Lemma listener_step s c l' q' w :
  stack_ok s -> queue_ok q' -> (kept (mDispatch (reactor s)) q' \/ settled q') ->
  (forall k, is_Some (Queue.mCallbacks (mDispatch (reactor s)) !! k) -> is_Some (Queue.mCallbacks q' !! k)) ->
  listener_ok q' l' -> (forall c2 l2, c2 <> c -> mCallbacks (reactor s) !! c2 = Some l2 -> token_of l2 <> token_of l') ->
  keeps_active (Some (token_of l')) (mDispatch (reactor s)) q' ->
  (CallbackRepeater.mStopped l' = false -> exists e, Queue.mCallbacks q' !! token_of l' = Some e /\ active e = true) ->
  (w = where_in s \/ exists i rest, thread_state s = Running (Some i) rest /\ Queue.callback i = token_of l') ->
  stack_ok (st ((reactor s) <| mCallbacks := <[c := l']> (mCallbacks (reactor s)) |> <| mDispatch := q' |>) (thread_state s) w).
Proof.
  intros Hs Hq' Hk Hdom Hl Hne Hact Hself Hw. destruct Hs as [Hsys Hr Hls Hd Hserved]. split; cbn.
  - apply (with_queue_ok (system_of s) q'); done.
  - by destruct Hr.
  - apply map_Forall_insert_2; [done|]. intros c2 l2 Hl2. destruct (Hls c2 l2 Hl2). split; auto.
  - intros c1 c2 l1 l2. destruct (decide (c1 = c)) as [->|H1], (decide (c2 = c)) as [->|H2]; rewrite ?lookup_insert_eq, ?lookup_insert_ne by done; [done| | |by apply Hd].
    + intros [= <-] Hl2 E. by destruct (Hne c2 l2 H2 Hl2).
    + intros Hl1 [= <-] E. by destruct (Hne c1 l1 H1 Hl1).
  - intros c1 l1. destruct (decide (c1 = c)) as [->|H1]; [rewrite lookup_insert_eq; intros [= <-] Hst; left; by apply Hself|]. rewrite lookup_insert_ne by done. intros Hl1 Hst.
    pose proof (Hne c1 l1 H1 Hl1) as Hne1. destruct (Hserved c1 l1 Hl1 Hst) as [(e & He & Ha)|Hth].
    + left. cbn. eapply Hact; [congruence|done|done].
    + right. cbn. destruct (thread_state s) as [| | |cur rest] eqn:Et; try done. destruct Hth as [|[Hx Hy]]; [by left|right].
      destruct Hw as [->|(i & rest' & [= -> ->] & Hi)]; [done|]. injection Hy as Hy. congruence.
Qed.

Lemma sane_now s now : stack_ok s -> 0 <= now <= time_limit -> sane (mTracker (reactor s)) now.
Proof. intros Hs Hn. split; [apply (stack_system s Hs)|done]. Qed.

(** starting a listener that is registered *)
Lemma start_listener l q offset (tracker : T) now order :
  listener_ok q l -> Z.abs offset <= half_limit -> CallbackRepeater.mLastCallTime l <= time_limit ->
  queue_ok q -> sane tracker now -> iterates order (Queue.mCallbacks q) ->
  exists q' e, CallbackRepeater.start l q offset tracker now order = Some (l <| CallbackRepeater.mStopped := false |> <| CallbackRepeater.mOffset := offset |>, q') /\
    queue_ok q' /\ (kept q q' \/ settled q') /\ same_tokens q q' /\ keeps_active None q q' /\ Queue.mCallbacks q' !! token_of l = Some e /\ active e = true.
Proof.
  intros [Hv Hreg Hp _] Ho Hlast Hq Hs Hord. unfold CallbackRepeater.start, Registration.schedule. cbn. rewrite Hv. cbn [negb].
  destruct (schedule_active horizon_fits q (token_of l) (CallbackRepeater.calculateWorkload (l <| CallbackRepeater.mStopped := false |> <| CallbackRepeater.mOffset := offset |>))
    (CallbackRepeater.mLastCallTime l) tracker now order) as (q' & E & Hq' & Hk & Hsame & Hact & e & He & Ha); [done|done|by apply request_fits|done|done|].
  unfold token_of in E. rewrite E. cbn. exists q', e. by split_and!.
Qed.

(** the listener's state after it was started *)
Lemma started_ok q q' l offset : listener_ok q l -> Z.abs offset <= half_limit -> same_tokens q q' ->
  listener_ok q' (l <| CallbackRepeater.mStopped := false |> <| CallbackRepeater.mOffset := offset |>).
Proof. intros [] Ho Hsame. split; cbn; try done. by eapply tokens_kept. Qed.

Lemma keeps_all k q q' : keeps_active None q q' -> keeps_active (Some k) q q'.
Proof. intros H k' e _. by apply H. Qed.

Lemma changePhase_ok s c phase now order :
  stack_ok s -> possible s (ChangePhaseOffset c phase now order) = true -> action_ok s (ChangePhaseOffset c phase now order) ->
  exists s', act s (ChangePhaseOffset c phase now order) = Some s' /\ stack_ok s'.
Proof.
  intros Hs Hp (Ho & Hn & Hord & Hlast). cbn [act possible] in *. unfold changePhaseOffset. destruct (mCallbacks (reactor s) !! c) as [l|] eqn:El; [|done].
  pose proof (stack_listeners s Hs c l El) as Hl. pose proof (sane_now s now Hs Hn) as Hsane.
  destruct (start_listener l (mDispatch (reactor s)) phase (mTracker (reactor s)) now order) as (q' & e & E & Hq' & Hk & Hsame & Hact & He & Ha);
    [done|done|by apply Hlast|apply (stack_system s Hs)|done|done|].
  cbn [mbind option_bind]. rewrite E. eexists. split; [done|]. cbn.
  apply (listener_step s c _ q'); [done|done|done|intros ?; by apply tokens_kept|by apply (started_ok (mDispatch (reactor s)))| |by apply keeps_all|by exists e|by left].
  intros c2 l2 Hne Hl2 Et. apply Hne. by apply (stack_distinct s Hs c2 c l2 l).
Qed.

Lemma addListener_ok s phase c now now' order :
  stack_ok s -> action_ok s (AddEventListener phase c now now' order) ->
  exists s', act s (AddEventListener phase c now now' order) = Some s' /\ stack_ok s'.
Proof.
  intros Hs (Ho & Hn & Hn' & Hord & Hlast). cbn [act]. unfold addEventListener, queue_for in *. pose proof (sane_now s now' Hs Hn') as Hsane.
  pose proof (system_queue _ (stack_system s Hs)) as Hq. cbn in Hq.
  destruct (mCallbacks (reactor s) !! c) as [l|] eqn:El; cbn [mbind option_bind].
  - pose proof (stack_listeners s Hs c l El) as Hl.
    destruct (start_listener l (mDispatch (reactor s)) phase (mTracker (reactor s)) now' order) as (q' & e & E & Hq' & Hk & Hsame & Hact & He & Ha); [done|done|by apply Hlast|done|done|done|].
    rewrite E. eexists. split; [done|]. cbn.
    apply (listener_step s c _ q'); [done|done|done|intros ?; by apply tokens_kept|by apply (started_ok (mDispatch (reactor s)))| |by apply keeps_all|by exists e|by left].
    intros c2 l2 Hne Hl2 Et. apply Hne. by apply (stack_distinct s Hs c2 c l2 l).
  - destruct (Nat.leb _ _); cbn [mbind option_bind]; [eexists; split; [done|]; by destruct s|].
    destruct (period_positive _ (ok_tracker _ (stack_reactor s Hs))) as (p & -> & Hp). cbn [mbind option_bind].
    unfold CallbackRepeater.new, Registration.new. destruct (register_active (mDispatch (reactor s)) Hq) as (Hact0 & Hfresh & Hins). pose proof (register_ok _ Hq) as Hq0.
    assert (kept (mDispatch (reactor s)) (Queue.registerCallback (mDispatch (reactor s))).2) as Hk0 by (unfold kept, Queue.registerCallback; cbn; by case_match).
    destruct (Queue.registerCallback (mDispatch (reactor s))) as [k q0]. cbn [fst snd] in *.
    set (l := CallbackRepeater.mk (Registration.mk k true) false p phase now).
    assert (listener_ok q0 l) as Hl by (split; cbn; [done|rewrite Hins; unfold token_of; cbn; by rewrite lookup_insert_eq|lia|done]).
    destruct (start_listener l q0 phase (mTracker (reactor s)) now' order) as (q' & e & E & Hq' & Hk & Hsame & Hact & He & Ha); [done|done|apply Hn|done|done|done|].
    rewrite E. eexists. split; [done|]. cbn.
    apply (listener_step s c _ q'); [done|done| | |by apply (started_ok q0)| | |by exists e|by left].
    + destruct Hk as [[E1 E2]|]; [left|by right]. destruct Hk0. split; congruence.
    + intros k' Hk'. eapply tokens_kept; [done|]. rewrite Hins. destruct (decide (k' = k)) as [->|]; [by rewrite lookup_insert_eq|by rewrite lookup_insert_ne].
    + intros c2 l2 Hne Hl2 Et. destruct (listener_registered _ _ (stack_listeners s Hs c2 l2 Hl2)) as [x Hx]. unfold token_of in Et at 2. cbn in Et. congruence.
    + intros k' e' _ Hk' Ha'. destruct (Hact0 k' e') as (e1 & ? & ?); [done..|]. by apply (Hact k' e1).
Qed.

Lemma removeListener_ok s c now order :
  stack_ok s -> possible s (RemoveEventListener c now order) = true -> action_ok s (RemoveEventListener c now order) ->
  exists s', act s (RemoveEventListener c now order) = Some s' /\ stack_ok s'.
Proof.
  intros Hs Hp (Hn & Hord). cbn [act possible] in *. unfold removeEventListener, CallbackRepeater.stop, Registration.cancel.
  destruct (mCallbacks (reactor s) !! c) as [l|] eqn:El; [|done]. cbn [mbind option_bind]. destruct (CallbackRepeater.mStopped l) eqn:Est; [done|].
  pose proof (stack_listeners s Hs c l El) as Hl. pose proof (sane_now s now Hs Hn) as Hsane. cbn. rewrite (listener_valid _ _ Hl). cbn [negb].
  destruct (cancel_ok horizon_fits (mDispatch (reactor s)) (token_of l) (mTracker (reactor s)) now order) as (r & q' & E & Hq' & Hk & Hsame); [apply (stack_system s Hs)|done|done|].
  unfold token_of in E. rewrite E. eexists. split; [done|]. cbn.
  apply (listener_step s c _ q'); [done|done|done|intros ?; by apply tokens_kept| | |by eapply cancel_active|done|by left].
  - destruct Hl. split; cbn; try done. by eapply tokens_kept.
  - intros c2 l2 Hne Hl2 Et. apply Hne. by apply (stack_distinct s Hs c2 c l2 l).
Qed.

(** ** Steps of the reactor *)

(** what leaves the dispatcher alone, and changes the listeners' period at most *)
Definition quiet_change (r r' : VSyncReactor.t T) : Prop :=
  mDispatch r' = mDispatch r /\
  (mCallbacks r' = mCallbacks r \/ exists p, 0 < p <= max_period (T := T) /\ mCallbacks r' = (fun l => CallbackRepeater.setPeriod l p) <$> mCallbacks r).

Lemma ignore_quiet r b : mDispatch (setIgnorePresentFencesInternal r b) = mDispatch (T := T) r /\ mCallbacks (setIgnorePresentFencesInternal r b) = mCallbacks r.
Proof. unfold setIgnorePresentFencesInternal, updateIgnorePresentFencesInternal. by case_match. Qed.

Lemma addPresentFence_quiet r fence signal b r' : addPresentFence r fence signal = Some (b, r') -> quiet_change r r'.
Proof.
  intros H. unfold addPresentFence in H. assert (quiet_change r r) as Hrefl by (split; [done|by left]).
  destruct fence as [f|]; [|by injection H as <- <-]. destruct (signal f =? SIGNAL_TIME_INVALID); [by injection H as <- <-|]. destruct (_ || _); [by injection H as <- <-|].
  destruct (fire _ _ _ _) as [[[unfired t1] accepted]|]; [|done]. cbn [mbind option_bind] in H. destruct (signal f =? SIGNAL_TIME_PENDING).
  - destruct (_ =? Z.of_nat _); [cbn in H; destruct unfired; [done|]|]; cbn in H; injection H as _ <-; destruct accepted; cbn; try done;
      match goal with |- context [setIgnorePresentFencesInternal ?x ?y] => destruct (ignore_quiet x y) as [E1 E2] end; split; cbn; rewrite ?E1, ?E2; by eauto.
  - destruct (addVsyncTimestamp _ _) as [[a t2]|]; [|done]. cbn in H. injection H as _ <-. destruct (accepted && a); cbn; try done.
    match goal with |- context [setIgnorePresentFencesInternal ?x ?y] => destruct (ignore_quiet x y) as [E1 E2] end. split; cbn; rewrite ?E1, ?E2; by eauto.
Qed.

Lemma setPeriod_quiet r p r' : VSyncReactor.setPeriod r p = Some r' -> quiet_change r r'.
Proof.
  intros H. unfold VSyncReactor.setPeriod in H. destruct (if mSupportKernelIdleTimer _ then _ else _) as [same|]; [|done]. cbn in H. injection H as <-.
  unfold startPeriodTransition. destruct same; match goal with |- context [setIgnorePresentFencesInternal ?x ?y] => destruct (ignore_quiet x y) as [E1 E2] end; split; cbn; rewrite ?E1, ?E2; by eauto.
Qed.

Lemma addResyncSample_quiet r ts p flushed x r' : reactor_ok r -> addResyncSample r ts p flushed = Some (x, r') -> quiet_change r r'.
Proof.
  intros Hr H. unfold addResyncSample in H. destruct (periodConfirmed r ts p) as [c|]; [|done]. cbn [mbind option_bind] in H.
  assert (forall r1 (b : bool), quiet_change r r1 -> quiet_change r (if b then setIgnorePresentFencesInternal r1 false else r1)) as Hend.
  { intros r1 b [H1 H2]. destruct b; [|done]. destruct (ignore_quiet r1 false) as [E1 E2]. split; [congruence|]. by rewrite E2. }
  destruct c.
  - destruct (mPeriodTransitioningTo r) as [to|] eqn:Eto; cbn [fst snd] in H; (destruct (match mLastHwVsync _ with Some _ => _ | None => _ end); [|done]); cbn [mbind option_bind] in H;
      (destruct (addVsyncTimestamp _ ts) as [[a t2]|]; [|done]); injection H as _ <-; apply Hend; (split; [done|]); [right|by left].
    exists to. split; [by apply (ok_transition r Hr)|done].
  - destruct (mPeriodConfirmationInProgress r); [injection H as _ <-; apply (Hend (r <| mLastHwVsync := Some ts |> <| mMoreSamplesNeeded := true |>) false); split; by eauto|].
    destruct (addVsyncTimestamp _ ts) as [[a t2]|]; [|done]. injection H as _ <-. apply Hend. split; by eauto.
Qed.

Lemma reactor_step s r' : stack_ok s -> reactor_ok r' -> quiet_change (reactor s) r' -> stack_ok (st r' (thread_state s) (where_in s)).
Proof using period_half.
  intros [Hsys Hr Hls Hd Hserved] Hr' [Ed Hc].
  assert (forall c l', mCallbacks r' !! c = Some l' -> exists l, mCallbacks (reactor s) !! c = Some l /\ token_of l' = token_of l /\
    CallbackRepeater.mStopped l' = CallbackRepeater.mStopped l /\ listener_ok (mDispatch r') l') as Hback.
  { intros c l' Hl'. destruct Hc as [E|(p & Hp & E)]; rewrite E in Hl'.
    - exists l'. rewrite Ed. split_and!; try done. by apply (Hls c).
    - apply lookup_fmap_Some in Hl' as (l & <- & Hl). exists l. rewrite Ed. destruct (Hls c l Hl). unfold CallbackRepeater.setPeriod.
      destruct (p =? _); split_and!; try done. split; cbn; try done. lia. }
  split; cbn.
  - destruct Hsys. split; cbn in *; rewrite ?Ed; try done. by apply ok_tracker.
  - done.
  - intros c l' Hl'. by destruct (Hback c l' Hl') as (l & _ & _ & _ & ?).
  - intros c c' l l' H1 H2 E. destruct (Hback _ _ H1) as (l1 & Hl1 & E1 & _), (Hback _ _ H2) as (l2 & Hl2 & E2 & _). apply (Hd c c' l1 l2); congruence.
  - intros c l' H1 Hst. destruct (Hback _ _ H1) as (l & Hl & -> & Est & _). rewrite Est in Hst. destruct (Hserved c l Hl Hst) as [|]; [left; by rewrite <- Ed in *|by right].
Qed.

(** ** Steps of the timer thread *)

(** the dispatcher's invariant is kept by the timer's events *)
Lemma timer_step s e w (s' : system T) :
  stack_ok s -> enabled (system_of s) e = true -> event_ok (system_of s) e -> step (system_of s) e = Some s' -> tracker s' = mTracker (reactor s) ->
  (forall k, is_Some (Queue.mCallbacks (mDispatch (reactor s)) !! k) -> is_Some (Queue.mCallbacks (queue s') !! k)) ->
  (forall k, served s k -> served (st ((reactor s) <| mDispatch := queue s' |>) (timer s') w) k) ->
  stack_ok (st ((reactor s) <| mDispatch := queue s' |>) (timer s') w).
Proof using horizon_half.
  intros [Hsys Hr Hls Hd Hserved] He Hok E Etr Hdom Hsv. destruct (step_ok horizon_fits (system_of s) e Hsys He Hok) as (s1 & E1 & H1). rewrite E in E1. injection E1 as <-.
  split; cbn; try done; [|by destruct Hr| |by intros; eapply Hsv, Hserved].
  - destruct H1. split; cbn; try done. by rewrite <- Etr.
  - intros c l Hl. destruct (Hls c l Hl). split; auto.
Qed.

Lemma callbackBegin_ok s c : stack_ok s -> possible s (CallbackBegin c) = true -> exists s', act s (CallbackBegin c) = Some s' /\ stack_ok s'.
Proof.
  intros Hs Hp. cbn [possible act] in *. destruct (in_callback s c) as [[l v]|] eqn:Ei; [|done]. destruct (where_in s) eqn:Ew; try done. cbn. eexists. split; [done|].
  unfold in_callback in Ei. destruct (thread_state s) as [| | |[i|] rest] eqn:Et; try done. destruct (mCallbacks (reactor s) !! c) as [l0|] eqn:El; [|done]. cbn in Ei.
  destruct (_ =? _) eqn:Ek; [|done]. injection Ei as -> <-. destruct Hs as [Hsys Hr Hls Hd Hserved]. split; cbn; try done.
  - unfold system_of in *. by rewrite Et in Hsys.
  - by destruct Hr.
  - apply map_Forall_insert_2; [|done]. by destruct (Hls c l El).
  - intros c1 c2 l1 l2 H1 H2. assert (forall c' l', <[c := CallbackRepeater.callback_begin l (Queue.vsyncTimestamp i)]> (mCallbacks (reactor s)) !! c' = Some l' ->
      exists l0, mCallbacks (reactor s) !! c' = Some l0 /\ token_of l' = token_of l0) as Hb.
    { intros c' l'. destruct (decide (c' = c)) as [->|]; [rewrite lookup_insert_eq; intros [= <-]; by exists l|rewrite lookup_insert_ne by done; by exists l']. }
    destruct (Hb _ _ H1) as (a & Ha & ->), (Hb _ _ H2) as (b & Hb' & ->). by apply Hd.
  - intros c1 l1 H1 Hst. assert (exists l0, mCallbacks (reactor s) !! c1 = Some l0 /\ token_of l1 = token_of l0 /\ CallbackRepeater.mStopped l0 = false) as (l0 & H0 & -> & Hst0).
    { destruct (decide (c1 = c)) as [->|]; [rewrite lookup_insert_eq in H1; injection H1 as <-; by exists l|rewrite lookup_insert_ne in H1 by done; by exists l1]. }
    destruct (Hserved c1 l0 H0 Hst0) as [?|Hth]; [by left|right]. cbn. rewrite Et in Hth. destruct Hth as [|[_ ?]]; [by left|by right].
Qed.

Lemma callbackEnd_ok s c now order :
  stack_ok s -> possible s (CallbackEnd c now order) = true -> action_ok s (CallbackEnd c now order) -> exists s', act s (CallbackEnd c now order) = Some s' /\ stack_ok s'.
Proof.
  intros Hs Hp (Hn & Hord & Hv). cbn [possible act] in *. destruct (in_callback s c) as [[l v]|] eqn:Ei; [|done]. specialize (Hv l v eq_refl).
  destruct (where_in s) eqn:Ew; try done. cbn [mbind option_bind fst snd].
  assert (mCallbacks (reactor s) !! c = Some l /\ exists i rest, thread_state s = Running (Some i) rest /\ Queue.callback i = token_of l) as [El Hth].
  { unfold in_callback in Ei. destruct (thread_state s) as [| | |[i|] rest]; try done. destruct (mCallbacks (reactor s) !! c) as [l0|]; [|done]. cbn in Ei.
    destruct (_ =? _) eqn:Ek; [|done]. injection Ei as -> <-. bool_to_prop. split; [done|]. by exists i, rest. }
  pose proof (stack_listeners s Hs c l El) as Hl. cbn in Hl. assert (forall c2 l2, c2 <> c -> mCallbacks (reactor s) !! c2 = Some l2 -> token_of l2 <> token_of l) as Hne.
  { intros c2 l2 Hne Hl2 E. apply Hne. by apply (stack_distinct s Hs c2 c l2 l). }
  assert (forall q', queue_ok q' -> (kept (mDispatch (reactor s)) q' \/ settled q') -> same_tokens (mDispatch (reactor s)) q' -> keeps_active None (mDispatch (reactor s)) q' ->
    (CallbackRepeater.mStopped l = false -> exists e, Queue.mCallbacks q' !! token_of l = Some e /\ active e = true) ->
    stack_ok (st ((reactor s) <| mDispatch := q' |>) (thread_state s) Left)) as Hend.
  { intros q' Hq' Hk Hsame Hact Hself. pose proof (listener_step s c l q' Left Hs Hq' Hk) as H. rewrite (insert_id _ _ _ El) in H.
    apply H; [intros ?; by apply tokens_kept| |done|by apply keeps_all|done|by right]. destruct Hl. split; try done. by eapply tokens_kept. }
  unfold CallbackRepeater.callback_end, Registration.schedule. destruct (CallbackRepeater.mStopped l) eqn:Est.
  - cbn. eexists. split; [done|]. apply Hend; [apply (stack_system s Hs)|by left|done|by intros k e _ ? ?; exists e|done].
  - rewrite (listener_valid _ _ Hl). cbn [negb].
    destruct (schedule_active horizon_fits (mDispatch (reactor s)) (token_of l) (CallbackRepeater.calculateWorkload l) v (mTracker (reactor s)) now order) as (q' & E & Hq' & Hk & Hsame & Hact & Hself);
      [apply (stack_system s Hs)|by apply sane_now|by apply request_fits; [apply Hl|apply Hl|]|done|apply Hl|].
    unfold token_of in E. rewrite E. cbn. eexists. split; [done|]. by apply Hend.
Qed.

(** the timer's events, on the whole *)
Lemma on_timer_ok s e w :
  stack_ok s -> enabled (system_of s) e = true -> event_ok (system_of s) e ->
  match e with
  | EpollWait _ | Read _ | TimerCallback _ _ _ _ => True
  | Start => w = Entered
  | Finish => where_in s = Left
  | Return => True
  | _ => False
  end -> exists s', on_timer s e w = Some s' /\ stack_ok s'.
Proof using horizon_half.
  intros Hs He Hok Hev. destruct (step_ok horizon_fits (system_of s) e (stack_system s Hs) He Hok) as (s' & E & _).
  unfold on_timer. rewrite E. eexists. split; [done|]. pose proof (system_queue _ (stack_system s Hs)) as Hq. cbn in Hq.
  assert (tracker s' = mTracker (reactor s) /\ (forall k, is_Some (Queue.mCallbacks (mDispatch (reactor s)) !! k) -> is_Some (Queue.mCallbacks (queue s') !! k)) /\
    (forall k, served s k -> served (st ((reactor s) <| mDispatch := queue s' |>) (timer s') w) k)) as (H1 & H2 & H3); [|by eapply timer_step].
  destruct e; try done; cbn [step enabled] in *.
  - injection E as <-. cbn in *. destruct (thread_state s) eqn:Et; try done. split_and!; [done|done|]. intros k [Hk|Hk]; [by left|by rewrite Et in Hk].
  - injection E as <-. cbn in *. destruct (thread_state s) eqn:Et; try done. split_and!; [done|by destruct (expired _ _)|].
    intros k [Hk|Hk]; [left; cbn; by destruct (expired _ _)|by rewrite Et in Hk].
  - destruct Hok as (Hn & Hn' & Hord & Hord'). pose proof (sane_now s now Hs Hn) as Hsane. pose proof (sane_now s now' Hs Hn') as Hsane'.
    destruct (timerCallback_ok horizon_fits (mDispatch (reactor s)) (mTracker (reactor s)) now now' order order') as (q' & E' & _ & _ & Hsame & _); [done..|].
    cbn in E, He. rewrite E' in E. injection E as <-. cbn. destruct (thread_state s) eqn:Et; try done. split_and!; [done|intros ?; by apply tokens_kept|].
    intros k [(e & Hk & Ha)|Hk]; [|by rewrite Et in Hk]. destruct (timerCallback_active _ _ _ _ _ _ _ _ Hq Hsane Hord E' k e Hk Ha) as [|]; [by left|right; by left].
  - cbn in *. destruct (thread_state s) as [| | |[] [|i rest]] eqn:Et; try done. injection E as <-. cbn. split_and!; [done|done|].
    intros k [Hk|Hk]; [by left|right]. rewrite Et in Hk. cbn. destruct Hk as [(j & [->|Hj]%elem_of_cons & <-)|[_ ?]]; [right; by subst|left; by exists j|done].
  - cbn in *. destruct (thread_state s) as [| | |[i|] rest] eqn:Et; try done. injection E as <-. cbn. split_and!; [done|done|].
    intros k [Hk|Hk]; [by left|right]. rewrite Et in Hk. cbn. destruct Hk as [|[? _]]; [by left|done].
  - cbn in *. destruct (thread_state s) as [| | |[i|] [|j rest]] eqn:Et; try done. injection E as <-. cbn. split_and!; [done|done|].
    intros k [Hk|Hk]; [by left|]. rewrite Et in Hk. destruct Hk as [(j & Hj & _)|[_ ?]]; [by apply not_elem_of_nil in Hj|done].
Qed.

(** ** Everything that can happen *)

(** the actions that feed the tracker, which may fail *)
Definition feeds_tracker (a : action) : bool := match a with AddPresentFence _ _ | AddResyncSample _ _ _ => true | _ => false end.

Lemma act_defined s a : stack_ok s -> possible s a = true -> action_ok s a -> feeds_tracker a = false -> exists s', act s a = Some s' /\ stack_ok s'.
Proof.
  intros Hs Hp Hok Hf. pose proof (stack_reactor s Hs) as Hr. destruct a; try done.
  - by apply addListener_ok.
  - by apply removeListener_ok.
  - by apply changePhase_ok.
  - eexists. split; [done|]. apply reactor_step; [done|by apply setIgnorePresentFences_ok|]. unfold setIgnorePresentFences, updateIgnorePresentFencesInternal. case_match; split; by eauto.
  - cbn [act]. destruct (VSyncReactor.setPeriod (reactor s) period) as [r'|] eqn:E.
    + eexists. split; [done|]. apply reactor_step; [done|by eapply setPeriod_reactor_ok|by eapply setPeriod_quiet].
    + exfalso. unfold VSyncReactor.setPeriod, getPeriod in E. destruct (period_positive _ (ok_tracker _ Hr)) as (c & Hc & _). cbn in E. rewrite Hc in E. by destruct (mSupportKernelIdleTimer _).
  - eexists. split; [done|]. apply reactor_step; [done|by apply beginResync_ok|split; by eauto].
  - by apply on_timer_ok.
  - by apply on_timer_ok.
  - by apply on_timer_ok.
  - by apply on_timer_ok.
  - by apply callbackBegin_ok.
  - by apply callbackEnd_ok.
  - cbn [possible act] in *. apply andb_true_iff in Hp as [Hp Hw]. apply on_timer_ok; [done..|]. by destruct (where_in s).
  - by apply on_timer_ok.
Qed.

Lemma act_ok s a s' : stack_ok s -> possible s a = true -> action_ok s a -> act s a = Some s' -> stack_ok s'.
Proof.
  intros Hs Hp Hok E. pose proof (stack_reactor s Hs) as Hr. destruct (feeds_tracker a) eqn:Ef.
  - destruct a; try done; cbn in E.
    + destruct (addPresentFence _ _ _) as [[b r']|] eqn:Ea; [|done]. injection E as <-. apply reactor_step; [done|by eapply addPresentFence_ok|by eapply addPresentFence_quiet].
    + destruct (addResyncSample _ _ _ _) as [[[m f] r']|] eqn:Ea; [|done]. injection E as <-. apply reactor_step; [done|by eapply addResyncSample_ok|by eapply addResyncSample_quiet].
  - destruct (act_defined s a Hs Hp Hok Ef) as (s1 & E1 & H1). congruence.
Qed.

Lemma reaches_ok s0 s : stack_ok s0 -> reaches s0 s -> stack_ok s.
Proof. intros H0 H. induction H as [|s a s' _ IH Hp Hok E]; [done|]. by eapply act_ok. Qed.

Lemma boot_ok tracker slack distance limit idle :
  tracker_ok tracker -> 0 <= slack <= time_limit -> 0 <= distance <= time_limit -> 0 < limit -> stack_ok (boot tracker slack distance limit idle).
Proof using.
  intros. split; cbn; [by apply start_ok|by apply reactor_new_ok|apply map_Forall_empty|..]; intros c; intros; by rewrite lookup_empty in *.
Qed.

End Stack.
