(* ===== verification/VSyncGuarantees.v ===== *)
(** * The guarantees of the vsync scheduler

    to the clients of [DispSync], for every tracker that satisfies the laws, and in
    particular for the predictor. *)

From S2P Require Import Prelude VSyncTracker VSyncPredictor VSyncPredictorTheorems VSyncRegression.
From S2P Require Import VSyncDispatch VSyncDispatchInvariant VSyncDispatchOps VSyncDispatchSystem VSyncDispatchTheorems.
From S2P Require Import VSyncReactor VSyncReactorTheorems VSyncStack VSyncStackTheorems.
Import VSyncReactor.

Section Guarantees.

Context {T : Type} `{!VSyncTracker T, !VSyncTrackerLaws T}.
Context (horizon_half : horizon (T := T) <= half_limit) (period_half : max_period (T := T) <= half_limit).
Context (tracker0 : T) (slack distance limit : Z) (idle : bool).
Context (Htracker : tracker_ok tracker0) (Hslack : 0 <= slack <= time_limit) (Hdistance : 0 <= distance <= time_limit) (Hlimit : 0 < limit).

Lemma from_boot s : reaches (boot tracker0 slack distance limit idle) s -> stack_ok s.
Proof. apply (reaches_ok horizon_half period_half). by apply boot_ok. Qed.

(** C5: A listener that was added and not removed keeps being served, whatever the order
    of clients, samples, fences, changes of the period and steps of the timer thread. Its
    callback is waiting in the dispatcher, with the timer set no later than the slack after
    its wakeup (or the timer thread on its way); or the timer thread has it among the
    callbacks it will run; or it is running and will be scheduled again. And nothing fails:
    adding, removing and changing listeners, changing the period, and all steps of the
    timer thread succeed (no LOG_ALWAYS_FATAL_IF of the reactor is hit). *)
Theorem listeners_are_served s :
  reaches (boot tracker0 slack distance limit idle) s ->
  (forall a, possible s a = true -> action_ok s a -> feeds_tracker a = false -> is_Some (act s a)) /\
  (forall c l, mCallbacks (reactor s) !! c = Some l -> CallbackRepeater.mStopped l = false ->
    let q := mDispatch (reactor s) in let intended := Queue.mIntendedWakeupTime q in
    (exists e, Queue.mCallbacks q !! token_of l = Some e /\ active e = true /\ intended <> kInvalidTime /\
       (Queue.alarm q = Some intended \/ imminent (thread_state s)) /\ forall w, Entry.wakeupTime e = Some w -> intended <= w + Queue.mTimerSlack q) \/
    (exists current rest, thread_state s = Running current rest /\
       ((exists i, i ∈ rest /\ Queue.callback i = token_of l) \/ (where_in s <> Left /\ Queue.callback <$> current = Some (token_of l))))).
Proof.
  intros Hs%from_boot. split.
  - intros a Hp Hok Hf. destruct (act_defined horizon_half period_half s a Hs Hp Hok Hf) as (s' & E & _). by eexists.
  - intros c l Hl Hst q intended. pose proof (system_queue _ (stack_system s Hs)) as Hq. cbn in Hq. destruct (stack_served s Hs c l Hl Hst) as [(e & He & Ha)|Hth].
    + left. exists e. assert (intended <> kInvalidTime) as Hv.
      { unfold active in Ha. destruct (Entry.wakeupTime e) as [w|] eqn:Ew; [by apply (queue_armed q Hq (token_of l) e w)|by apply (queue_pending q Hq (token_of l) e)]. }
      split_and!; [done..| |]; [by apply (system_timer _ (stack_system s Hs))|]. intros w Hw. by apply (queue_armed q Hq (token_of l) e w).
    + right. destruct (thread_state s) as [| | |current rest]; try done. by exists current, rest.
Qed.

(** The reactor's confirmation of the period is a consistent state machine: while a
    period is being confirmed the present fences are ignored; while they are ignored for
    that reason the hardware vsync is asked for; a period that is being changed to, and a
    last hardware sample, exist only during a confirmation; no fence is kept while fences
    are ignored, and never more than the limit; the tracker keeps a positive period. *)
Theorem confirmation_state_machine s :
  reaches (boot tracker0 slack distance limit idle) s ->
  let r := reactor s in
  (mPeriodConfirmationInProgress r = true -> mInternalIgnoreFences r = true) /\
  (mInternalIgnoreFences r = true -> mMoreSamplesNeeded r = true) /\
  (forall p, mPeriodTransitioningTo r = Some p -> mPeriodConfirmationInProgress r = true /\ 0 < p <= max_period (T := T)) /\
  (is_Some (mLastHwVsync r) -> mPeriodConfirmationInProgress r = true) /\
  (mExternalIgnoreFences r || mInternalIgnoreFences r = true -> mUnfiredFences r = []) /\
  Z.of_nat (length (mUnfiredFences r)) <= mPendingLimit r /\
  exists p, getPeriod r = Some p /\ 0 < p.
Proof.
  intros Hs%from_boot r. destruct (stack_reactor s Hs) as [H1 H2 H3 H4 H5 [H6 _] H7]. fold r in H1, H2, H3, H4, H5, H6, H7.
  destruct (period_positive _ H7) as (p & Hp & Hpos). split_and!; try done. exists p. split; [done|lia].
Qed.

End Guarantees.

(** ** A run *)

#[local] Instance sixty_tracker : VSyncTracker VSyncPredictor.t := predictor_tracker (fun _ => 0).
#[local] Instance sixty_laws : VSyncTrackerLaws VSyncPredictor.t := predictor_laws (fun _ => 0) 1000000000.

Lemma display_ok : tracker_ok display.
Proof. split; [apply (wf_new 16666666 20 6 20); lia|]. split; [done|]. unfold display, VSyncPredictor.new, VSyncPredictor.resetModel, VSyncPredictor.clearTimestamps. cbn [VSyncPredictor.mTimestamps]. apply map_Forall_insert_2; [done|apply map_Forall_empty]. Qed.

(** with the constants of the scheduler: a slack of 0.5 ms, a distance of 3 ms, 20 fences *)
Definition booted : stack VSyncPredictor.t := boot display 500000 3000000 20 false.

Section Runs.

Context {T : Type} `{!VSyncTracker T, !VSyncTrackerLaws T}.

Definition action_okb (s : stack T) (a : action) : bool :=
  match a with
  | AddEventListener phase c now now' order =>
    (Z.abs phase <=? half_limit) && timeb now && timeb now' && iteratesb order (Queue.mCallbacks (queue_for (reactor s) c)) &&
    match mCallbacks (reactor s) !! c with Some l => CallbackRepeater.mLastCallTime l <=? time_limit | None => true end
  | SetPeriod p => (0 <? p) && (p <=? max_period (T := T))
  | TimerFires now now' order order' => event_okb (system_of s) (TimerCallback now now' order order')
  | TimerWakes _ | TimerReads _ | CallbackStarts | AddResyncSample _ _ _ => true
  | _ => false
  end.

Lemma action_okb_sound s a : action_okb s a = true -> action_ok s a.
Proof.
  destruct a; cbn [action_okb action_ok]; try done; intros H.
  - unfold timeb in H. destruct (mCallbacks (reactor s) !! callback) as [l0|]; bool_to_prop; split_and!; try lia; try (by apply iteratesb_sound); by intros ? [= <-].
  - bool_to_prop. lia.
  - by apply event_okb_sound.
Qed.

Fixpoint checked_acts (s : stack T) (acts : list action) : option (stack T) :=
  match acts with [] => Some s | a :: acts' => if possible s a && action_okb s a then s ← act s a; checked_acts s acts' else None end.

Lemma checked_acts_reaches s0 s acts s' : reaches s0 s -> checked_acts s acts = Some s' -> reaches s0 s'.
Proof.
  revert s. induction acts as [|a acts IH]; intros s Hs H; cbn [checked_acts] in H; [by injection H as <-|].
  destruct (_ && _) eqn:E; [|done]. apply andb_true_iff in E as [E1 E2]. destruct (act s a) as [s1|] eqn:Es; [|done]. cbn in H.
  eapply IH; [|done]. eapply reaches_act; [done|done|by apply action_okb_sound|done].
Qed.

End Runs.

(** two listeners; the display changes to 90 Hz; the timer fires and the first is called *)
Definition session : list action :=
  [AddEventListener 2000000 7 0 10 [1]; AddEventListener (-1000000) 8 20 30 [2; 1];
   SetPeriod 11111111; AddResyncSample 40000000 None false; AddResyncSample 51111111 None false;
   TimerWakes 60000000; TimerReads 60000100; TimerFires 60000200 60000300 [1; 2] [2; 1]; CallbackStarts].

Definition after : stack VSyncPredictor.t := default booted (checked_acts booted session).

Lemma after_reached : reaches booted after.
Proof. apply (checked_acts_reaches booted booted session); [constructor|]. unfold after. by vm_compute. Qed.

Lemma halves : horizon (T := VSyncPredictor.t) <= half_limit /\ max_period (T := VSyncPredictor.t) <= half_limit.
Proof. split; vm_compute; congruence. Qed.

Lemma scheduler_slack : 0 <= 500000 <= time_limit.
Proof. unfold time_limit. lia. Qed.
Lemma scheduler_distance : 0 <= 3000000 <= time_limit.
Proof. unfold time_limit. lia. Qed.

Lemma listeners_are_served_witness :
  exists l, mCallbacks (reactor after) !! 8 = Some l /\ CallbackRepeater.mStopped l = false /\
    ((exists e, Queue.mCallbacks (mDispatch (reactor after)) !! 2 = Some e /\ active e = true) \/ exists current rest, thread_state after = Running current rest).
Proof.
  eexists. split; [vm_compute; reflexivity|]. split; [vm_compute; reflexivity|].
  destruct (proj2 (listeners_are_served (proj1 halves) (proj2 halves) display 500000 3000000 20 false display_ok scheduler_slack scheduler_distance eq_refl after after_reached)
    8 (CallbackRepeater.mk (Registration.mk 2 true) false 11111111 (-1000000) 20)) as [(e & He & Ha & _)|(current & rest & H & _)].
  - vm_compute; reflexivity.
  - reflexivity.
  - left. exists e. split; [exact He|exact Ha].
  - right. exists current, rest. exact H.
Defined.

(** after the first sample the change to 90 Hz is being confirmed *)
Definition during : stack VSyncPredictor.t := default booted (checked_acts booted (take 4 session)).

Lemma confirmation_state_machine_witness :
  mPeriodConfirmationInProgress (reactor during) = true /\ mInternalIgnoreFences (reactor during) = true /\ mMoreSamplesNeeded (reactor during) = true.
Proof.
  assert (reaches booted during) as H.
  { apply (checked_acts_reaches booted booted (take 4 session)); [constructor|]. unfold during. vm_compute. reflexivity. }
  destruct (confirmation_state_machine (proj1 halves) (proj2 halves) display 500000 3000000 20 false display_ok scheduler_slack scheduler_distance eq_refl during H) as (H1 & H2 & _).
  split; [vm_compute; reflexivity|]. split; [apply H1; vm_compute; reflexivity|]. apply H2. vm_compute. reflexivity.
Defined.
