(* ===== verification/PointerCoords.v ===== *)
(** * Pointer coordinates (include/input/Input.h, libs/input/Input.cpp)

    The axes of one pointer, packed: a bit per axis that is present, and the values of
    these axes in the order of their numbers. Floating-point numbers are the binary32
    numbers of the Standard Library's specification of IEEE 754. The sets of bits come
    from system/core (utils/BitSet.h): they are an interface, with what its documentation
    says of the operations as laws. *)

From Stdlib Require Import SpecFloat.
From S2P Require Import Prelude.

(** ** float *)

Definition float32 := spec_float.

Module F32.

Definition zero : float32 := S754_zero false.
Definition one : float32 := S754_finite false 8388608 (-23).
Definition add : float32 -> float32 -> float32 := SFadd 24 128.
Definition sub : float32 -> float32 -> float32 := SFsub 24 128.
Definition mul : float32 -> float32 -> float32 := SFmul 24 128.
Definition div : float32 -> float32 -> float32 := SFdiv 24 128.
Definition opp : float32 -> float32 := SFopp.
(** the conversion of an integer *)
Definition of_Z (z : Z) : float32 := binary_normalize 24 128 z 0 false.
Definition eqb : float32 -> float32 -> bool := SFeqb.
(** [int32_t(f)]: towards zero; undefined for what does not fit *)
Definition to_int32 (f : float32) : option Z :=
  match f with
  | S754_zero _ => Some 0
  | S754_finite sign m e =>
    let magnitude := if 0 <=? e then Z.shiftl (Z.pos m) e else Z.shiftr (Z.pos m) (- e) in
    let z := if sign then - magnitude else magnitude in
    if (INT32_MIN <=? z) && (z <=? INT32_MAX) then Some z else None
  | _ => None
  end.

End F32.

(** ** Sets of bits *)

(** the bits of a set of [width] bits that [marked] says are in it, the first one first *)
Definition bits_below (marked : Z -> bool) (width : Z) : list Z := filter (fun n => marked n = true) (seqZ 0 width).

Module BitSet32.

Class ops := {
  hasBit : Z -> Z -> bool;
  count : Z -> Z;
  isEmpty : Z -> bool;
  firstMarkedBit : Z -> Z;
  markBit : Z -> Z -> Z;
  clearBit : Z -> Z -> Z;
  hasBit_range : forall b n, hasBit b n = true -> 0 <= n < 32;
  count_spec : forall b, count b = Z.of_nat (length (bits_below (hasBit b) 32));
  isEmpty_spec : forall b, isEmpty b = true <-> bits_below (hasBit b) 32 = [];
  firstMarkedBit_spec : forall b n, head (bits_below (hasBit b) 32) = Some n -> firstMarkedBit b = n;
  hasBit_zero : forall n, hasBit 0 n = false;
  hasBit_mark : forall b n m, 0 <= n < 32 -> 0 <= m < 32 -> hasBit (markBit b n) m = (m =? n) || hasBit b m;
  hasBit_clear : forall b n m, 0 <= n < 32 -> 0 <= m < 32 -> hasBit (clearBit b n) m = negb (m =? n) && hasBit b m;
  hasBit_lor : forall a b n, hasBit (Z.lor a b) n = hasBit a n || hasBit b n }.

Section Members.
Context `{B : ops}.

(** the bits of a set, in the order in which [clearFirstMarkedBit] takes them *)
Definition members (b : Z) : list Z := bits_below (hasBit b) 32.

End Members.

End BitSet32.

Module BitSet64.

Class ops := {
  hasBit : Z -> Z -> bool;
  count : Z -> Z;
  isEmpty : Z -> bool;
  getIndexOfBit : Z -> Z -> Z;
  markBit : Z -> Z -> Z;
  hasBit_zero : forall n, hasBit 0 n = false;
  count_spec : forall b, count b = Z.of_nat (length (bits_below (hasBit b) 64));
  isEmpty_spec : forall b, isEmpty b = true <-> bits_below (hasBit b) 64 = [];
  getIndexOfBit_spec : forall b n, 0 <= n < 64 -> getIndexOfBit b n = Z.of_nat (length (bits_below (hasBit b) n));
  hasBit_mark : forall b n m, 0 <= n < 64 -> 0 <= m < 64 -> hasBit (markBit b n) m = (m =? n) || hasBit b m }.

End BitSet64.

(** ** The coordinates *)

Module PointerCoords.

Definition MAX_AXES : Z := 30.
Definition AMOTION_EVENT_AXIS_X : Z := 0.
Definition AMOTION_EVENT_AXIS_Y : Z := 1.
Definition AMOTION_EVENT_AXIS_TOUCH_MAJOR : Z := 4.
Definition AMOTION_EVENT_AXIS_TOUCH_MINOR : Z := 5.
Definition AMOTION_EVENT_AXIS_TOOL_MAJOR : Z := 6.
Definition AMOTION_EVENT_AXIS_TOOL_MINOR : Z := 7.

Record t := mk { bits : Z; values : list float32 }.

Definition empty : t := mk 0 (replicate 30 F32.zero).

Definition clear (c : t) : t := mk 0 (values c).

(** [for (i = count; i > index; i--) values[i] = values[i - 1];] with [n] turns to go *)
Fixpoint shift (n index : nat) (vs : list float32) : list float32 :=
  match n with
  | O => vs
  | S n' => shift n' index (<[(index + n)%nat := default F32.zero (vs !! (index + n')%nat)]> vs)
  end.

Section Bits.
Context `{B : BitSet64.ops}.

Definition isEmpty (c : t) : bool := BitSet64.isEmpty (bits c).

Definition getAxisValue (c : t) (axis : Z) : float32 :=
  if (axis <? 0) || (63 <? axis) || negb (BitSet64.hasBit (bits c) axis) then F32.zero
  else default F32.zero (values c !! Z.to_nat (BitSet64.getIndexOfBit (bits c) axis)).

Definition setAxisValue (c : t) (axis : Z) (value : float32) : status_t * t :=
  if (axis <? 0) || (63 <? axis) then (NAME_NOT_FOUND, c)
  else
    let index := Z.to_nat (BitSet64.getIndexOfBit (bits c) axis) in
    if BitSet64.hasBit (bits c) axis then (OK, mk (bits c) (<[index := value]> (values c)))
    else if F32.eqb value F32.zero then (OK, c)
    else if MAX_AXES <=? BitSet64.count (bits c) then (NO_MEMORY, c)
    else
      let moved := shift (Z.to_nat (BitSet64.count (bits c)) - index) index (values c) in
      (OK, mk (BitSet64.markBit (bits c) axis) (<[index := value]> moved)).

Definition scaleAxisValue (c : t) (axis : Z) (scaleFactor : float32) : t :=
  let value := getAxisValue c axis in
  if F32.eqb value F32.zero then c else (setAxisValue c axis (F32.mul value scaleFactor)).2.

Definition scale (c : t) (globalScaleFactor windowXScale windowYScale : float32) : t :=
  let c := scaleAxisValue c AMOTION_EVENT_AXIS_X windowXScale in
  let c := scaleAxisValue c AMOTION_EVENT_AXIS_Y windowYScale in
  let c := scaleAxisValue c AMOTION_EVENT_AXIS_TOUCH_MAJOR globalScaleFactor in
  let c := scaleAxisValue c AMOTION_EVENT_AXIS_TOUCH_MINOR globalScaleFactor in
  let c := scaleAxisValue c AMOTION_EVENT_AXIS_TOOL_MAJOR globalScaleFactor in
  scaleAxisValue c AMOTION_EVENT_AXIS_TOOL_MINOR globalScaleFactor.

Definition applyOffset (c : t) (xOffset yOffset : float32) : t :=
  let c := (setAxisValue c AMOTION_EVENT_AXIS_X (F32.add (getAxisValue c AMOTION_EVENT_AXIS_X) xOffset)).2 in
  (setAxisValue c AMOTION_EVENT_AXIS_Y (F32.add (getAxisValue c AMOTION_EVENT_AXIS_Y) yOffset)).2.

(** ** Packing *)

(** the axes that are stored, in their order *)
Definition axes (c : t) : list Z := bits_below (BitSet64.hasBit (bits c)) 64.

Definition well_formed (c : t) : Prop := length (values c) = 30%nat /\ (length (axes c) <= 30)%nat.

End Bits.

End PointerCoords.

(** ** Bits *)

Lemma elem_of_bits_below f w n : n ∈ bits_below f w <-> f n = true /\ 0 <= n < w.
Proof. unfold bits_below. rewrite list_elem_of_filter, elem_of_seqZ. intuition lia. Qed.

Lemma bits_below_succ f n : 0 <= n -> bits_below f (n + 1) = bits_below f n ++ (if f n then [n] else []).
Proof.
  intros Hn. unfold bits_below. rewrite seqZ_app by lia. rewrite filter_app. f_equal.
  change (seqZ (0 + n) 1) with [0 + (0 + n)]. rewrite filter_cons, filter_nil, !Z.add_0_l.
  destruct (f n) eqn:E; case_decide; congruence.
Qed.

(** the number of marked bits before [n] *)
Definition rank (f : Z -> bool) (n : Z) : nat := length (bits_below f n).

Lemma rank_succ f n : 0 <= n -> rank f (n + 1) = (rank f n + (if f n then 1 else 0))%nat.
Proof. intros Hn. unfold rank. rewrite bits_below_succ, length_app by done. by destruct (f n). Qed.

Lemma rank_mono f n m : 0 <= n -> n <= m -> (rank f n <= rank f m)%nat.
Proof.
  intros Hn Hm. replace m with (n + Z.of_nat (Z.to_nat (m - n))) by lia.
  induction (Z.to_nat (m - n)) as [|k IH]; [by rewrite Z.add_0_r|].
  replace (n + Z.of_nat (S k)) with (n + Z.of_nat k + 1) by lia. rewrite rank_succ by lia. lia.
Qed.

Lemma rank_lt f n m : 0 <= n -> n < m -> f n = true -> (rank f n < rank f m)%nat.
Proof. intros Hn Hm E. pose proof (rank_mono f (n + 1) m). rewrite rank_succ, E in H by lia. lia. Qed.

Lemma rank_mark f g n k : (forall m, 0 <= m < 64 -> g m = (m =? n) || f m) -> f n = false -> 0 <= n < 64 -> 0 <= k <= 64 ->
  rank g k = (rank f k + (if (n <? k)%Z then 1 else 0))%nat.
Proof.
  intros Hg Hf Hn Hk. replace k with (Z.of_nat (Z.to_nat k)) in * by lia.
  induction (Z.to_nat k) as [|j IH]; [by split_if|].
  replace (Z.of_nat (S j)) with (Z.of_nat j + 1) in * by lia. rewrite !rank_succ, IH, Hg by lia.
  destruct (decide (Z.of_nat j = n)) as [->|Hne].
  - rewrite Z.eqb_refl, Hf, Z.ltb_irrefl, (proj2 (Z.ltb_lt n (n + 1))) by lia. simpl. lia.
  - rewrite (proj2 (Z.eqb_neq _ _) Hne). simpl.
    destruct (n <? Z.of_nat j) eqn:E1, (n <? Z.of_nat j + 1) eqn:E2; bool_to_prop; destruct (f (Z.of_nat j)); lia.
Qed.

Module PointerCoordsFacts.
Import PointerCoords.

(** ** Moving the values *)

Lemma length_shift n index vs : length (shift n index vs) = length vs.
Proof. revert vs; induction n as [|n IH]; intros vs; simpl; [done|]. by rewrite IH, length_insert. Qed.

Lemma shift_lookup n index vs i : (index + n < length vs)%nat ->
  shift n index vs !! i = if decide (index < i <= index + n)%nat then vs !! (i - 1)%nat else vs !! i.
Proof.
  revert vs; induction n as [|n IH]; intros vs Hlen; simpl; [by rewrite decide_False by lia|].
  rewrite IH by (rewrite length_insert; lia).
  destruct (lookup_lt_is_Some_2 vs (index + n)) as [x Hx]; [lia|]. rewrite Hx. simpl.
  repeat case_decide; try lia; rewrite ?list_lookup_insert_ne by lia; [done| |done].
  replace i with (index + S n)%nat by lia. rewrite list_lookup_insert_eq by lia. by replace (index + S n - 1)%nat with (index + n)%nat by lia.
Qed.

Section Bits.
Context `{B : BitSet64.ops}.

Lemma index_of_rank c a : 0 <= a < 64 -> Z.to_nat (BitSet64.getIndexOfBit (bits c) a) = rank (BitSet64.hasBit (bits c)) a.
Proof. intros Ha. rewrite BitSet64.getIndexOfBit_spec by done. by rewrite Nat2Z.id. Qed.

Lemma getAxisValue_stored c a : 0 <= a < 64 ->
  getAxisValue c a = if BitSet64.hasBit (bits c) a then default F32.zero (values c !! rank (BitSet64.hasBit (bits c)) a) else F32.zero.
Proof.
  intros Ha. unfold getAxisValue. rewrite (proj2 (Z.ltb_ge a 0)), (proj2 (Z.ltb_ge 63 a)), index_of_rank by lia. simpl.
  by destruct (BitSet64.hasBit (bits c) a).
Qed.

Lemma getAxisValue_range c a : ~ 0 <= a < 64 -> getAxisValue c a = F32.zero.
Proof. intros Ha. unfold getAxisValue. destruct (a <? 0) eqn:E1, (63 <? a) eqn:E2; bool_to_prop; try done; lia. Qed.

(** *** An axis that is present *)

Lemma set_present c axis v : well_formed c -> 0 <= axis < 64 -> BitSet64.hasBit (bits c) axis = true ->
  exists c', setAxisValue c axis v = (OK, c') /\ well_formed c' /\ forall a, getAxisValue c' a = if decide (a = axis) then v else getAxisValue c a.
Proof.
  intros [Hlen Hax] Ha Hb. unfold setAxisValue. rewrite (proj2 (Z.ltb_ge axis 0)), (proj2 (Z.ltb_ge 63 axis)), Hb by lia. simpl.
  eexists; split; [done|]. rewrite index_of_rank by done.
  assert (Hlt : (rank (BitSet64.hasBit (bits c)) axis < 30)%nat).
  { pose proof (rank_lt _ axis 64 ltac:(lia) ltac:(lia) Hb). unfold axes in Hax. unfold rank at 2 in H. lia. }
  split; [split; simpl; [by rewrite length_insert|done]|].
  intros a. destruct (decide (0 <= a < 64)) as [Hr|Hr]; [|rewrite !getAxisValue_range by done; by rewrite decide_False by (intros ->; tauto)].
  rewrite !getAxisValue_stored by done. simpl. destruct (decide (a = axis)) as [->|Hne].
  - rewrite Hb, list_lookup_insert_eq by lia. done.
  - destruct (BitSet64.hasBit (bits c) a) eqn:Hba; [|done]. rewrite list_lookup_insert_ne; [done|].
    destruct (Z.lt_ge_cases a axis); [pose proof (rank_lt _ a axis ltac:(lia) ltac:(lia) Hba)|pose proof (rank_lt _ axis a ltac:(lia) ltac:(lia) Hb)]; lia.
Qed.

(** *** An axis that is added *)

Lemma set_absent c axis v : well_formed c -> 0 <= axis < 64 -> BitSet64.hasBit (bits c) axis = false -> F32.eqb v F32.zero = false ->
  (length (axes c) < 30)%nat ->
  exists c', setAxisValue c axis v = (OK, c') /\ well_formed c' /\ forall a, getAxisValue c' a = if decide (a = axis) then v else getAxisValue c a.
Proof.
  intros [Hlen Hax] Ha Hb Hz Hroom. unfold setAxisValue.
  rewrite (proj2 (Z.ltb_ge axis 0)), (proj2 (Z.ltb_ge 63 axis)), Hb, Hz, BitSet64.count_spec, index_of_rank by lia. simpl.
  change (bits_below (BitSet64.hasBit (bits c)) 64) with (axes c). rewrite (proj2 (Z.leb_gt MAX_AXES _)) by (unfold MAX_AXES; lia).
  eexists; split; [done|]. rewrite Nat2Z.id.
  set (f := BitSet64.hasBit (bits c)) in *. set (g := BitSet64.hasBit (BitSet64.markBit (bits c) axis)).
  assert (Hg : forall m, 0 <= m < 64 -> g m = (m =? axis) || f m) by (intros; by apply BitSet64.hasBit_mark).
  assert (Hfull : (rank f axis <= length (axes c))%nat) by (apply (rank_mono f axis 64); lia).
  assert (Hmark : forall k, 0 <= k <= 64 -> rank g k = (rank f k + (if (axis <? k)%Z then 1 else 0))%nat) by (intros; by apply (rank_mark f g axis)).
  split; [split; simpl|].
  - by rewrite length_insert, length_shift.
  - change (rank g 64 <= 30)%nat. rewrite Hmark, (proj2 (Z.ltb_lt axis 64)) by lia. change (rank f 64) with (length (axes c)). lia.
  - intros a. destruct (decide (0 <= a < 64)) as [Hr|Hr]; [|rewrite !getAxisValue_range by done; by rewrite decide_False by (intros ->; tauto)].
    rewrite !getAxisValue_stored by done. simpl. fold f g. rewrite Hg, Hmark by lia.
    destruct (decide (a = axis)) as [->|Hne].
    + rewrite Z.eqb_refl, Z.ltb_irrefl, Nat.add_0_r. simpl. rewrite list_lookup_insert_eq; [done|]. rewrite length_shift. lia.
    + rewrite (proj2 (Z.eqb_neq _ _) Hne). simpl. destruct (f a) eqn:Hfa; [|done].
      pose proof (rank_lt f a 64 ltac:(lia) ltac:(lia) Hfa) as Hin. change (rank f 64) with (length (axes c)) in Hin.
      destruct (axis <? a) eqn:E; bool_to_prop.
      * pose proof (rank_mono f axis a ltac:(lia) ltac:(lia)).
        rewrite list_lookup_insert_ne, shift_lookup by lia. rewrite decide_True by lia. by rewrite Nat.add_sub.
      * pose proof (rank_lt f a axis ltac:(lia) ltac:(lia) Hfa).
        rewrite Nat.add_0_r, list_lookup_insert_ne, shift_lookup by lia. by rewrite decide_False by lia.
Qed.

(** A value that is set is read back, and the other axes keep theirs; a zero is not
    stored, and what does not fit is refused. *)
Lemma setAxisValue_correct c axis v : well_formed c ->
  let r := setAxisValue c axis v in
  well_formed r.2 /\
  (r.1 = OK -> forall a, getAxisValue r.2 a = if decide (a = axis) then (if F32.eqb v F32.zero && negb (BitSet64.hasBit (bits c) axis) then F32.zero else v) else getAxisValue c a) /\
  (r.1 <> OK -> r.2 = c /\ (r.1 = NAME_NOT_FOUND /\ ~ 0 <= axis < 64 \/ r.1 = NO_MEMORY /\ length (axes c) = 30%nat)).
Proof.
  intros Hwf. destruct (decide (0 <= axis < 64)) as [Ha|Ha]; simpl.
  2:{ assert (E : setAxisValue c axis v = (NAME_NOT_FOUND, c)); [|rewrite E; simpl; naive_solver].
      unfold setAxisValue. destruct (axis <? 0) eqn:E1, (63 <? axis) eqn:E2; bool_to_prop; try done; lia. }
  destruct (BitSet64.hasBit (bits c) axis) eqn:Hb.
  { destruct (set_present c axis v Hwf Ha Hb) as (c' & -> & Hwf' & Hget). simpl. rewrite andb_false_r. naive_solver. }
  destruct (F32.eqb v F32.zero) eqn:Hz.
  { assert (E : setAxisValue c axis v = (OK, c)).
    { unfold setAxisValue. by rewrite (proj2 (Z.ltb_ge axis 0)), (proj2 (Z.ltb_ge 63 axis)), Hb, Hz by lia. }
    rewrite E. simpl. split; [done|]. split; [|done]. intros _ a. case_decide; [subst|done]. rewrite getAxisValue_stored by done. by rewrite Hb. }
  destruct (decide (length (axes c) < 30)%nat) as [Hroom|Hroom].
  { destruct (set_absent c axis v Hwf Ha Hb Hz Hroom) as (c' & -> & Hwf' & Hget). simpl. naive_solver. }
  assert (E : setAxisValue c axis v = (NO_MEMORY, c)).
  { unfold setAxisValue. rewrite (proj2 (Z.ltb_ge axis 0)), (proj2 (Z.ltb_ge 63 axis)), Hb, Hz, BitSet64.count_spec by lia. simpl.
    change (bits_below (BitSet64.hasBit (bits c)) 64) with (axes c). by rewrite (proj2 (Z.leb_le MAX_AXES _)) by (unfold MAX_AXES; lia). }
  rewrite E. simpl. split; [done|]. split; [done|]. intros _. split; [done|]. right. split; [done|]. destruct Hwf. lia.
Qed.

Lemma scaleAxisValue_wf c axis k : well_formed c -> well_formed (scaleAxisValue c axis k).
Proof. intros. unfold scaleAxisValue. case_match; [done|]. by apply setAxisValue_correct. Qed.

Lemma scale_wf c g x y : well_formed c -> well_formed (scale c g x y).
Proof. intros. unfold scale. by repeat apply scaleAxisValue_wf. Qed.

Lemma applyOffset_wf c x y : well_formed c -> well_formed (applyOffset c x y).
Proof. intros. unfold applyOffset. by repeat apply setAxisValue_correct. Qed.

End Bits.

End PointerCoordsFacts.

Import PointerCoords PointerCoordsFacts.

(** ** The map *)

(** setting an axis, with the status that is returned *)
Definition map_set (m : gmap Z float32) (axis : Z) (value : float32) : status_t * gmap Z float32 :=
  if bool_decide (0 <= axis < 64) then
    if bool_decide (is_Some (m !! axis)) then (OK, <[axis := value]> m)
    else if F32.eqb value F32.zero then (OK, m)
    else if bool_decide (size m < 30)%nat then (OK, <[axis := value]> m)
    else (NO_MEMORY, m)
  else (NAME_NOT_FOUND, m).

Definition map_get (m : gmap Z float32) (axis : Z) : float32 := default F32.zero (m !! axis).

Section Refinement.
Context `{B : BitSet64.ops}.

Record represents (c : t) (m : gmap Z float32) : Prop := {
  rep_wf : well_formed c;
  rep_get : forall a, getAxisValue c a = map_get m a;
  rep_dom : forall a, is_Some (m !! a) <-> a ∈ axes c }.

Lemma rep_present c m a : represents c m -> 0 <= a < 64 -> bool_decide (is_Some (m !! a)) = BitSet64.hasBit (bits c) a.
Proof.
  intros Hr Ha. pose proof (rep_dom c m Hr a) as Hd. unfold axes in Hd. rewrite elem_of_bits_below in Hd.
  destruct (BitSet64.hasBit (bits c) a); [apply bool_decide_true|apply bool_decide_false]; tauto || (rewrite Hd; intros [? _]; done).
Qed.

Lemma rep_size c m : represents c m -> size m = length (axes c).
Proof.
  intros Hr. assert (Hd : dom m = list_to_set (axes c)).
  { apply set_eq. intros a. rewrite elem_of_dom, elem_of_list_to_set. apply (rep_dom c m Hr). }
  rewrite <- size_dom, Hd, size_list_to_set; [done|]. apply NoDup_filter, NoDup_seqZ.
Qed.

Lemma rep_empty vs : length vs = 30%nat -> represents (mk 0 vs) ∅.
Proof.
  intros Hlen. assert (Hax : axes (mk 0 vs) = []).
  { unfold axes. destruct (bits_below _ 64) as [|n l] eqn:E; [done|]. assert (Hn : n ∈ n :: l) by set_solver. rewrite <- E in Hn. apply elem_of_bits_below in Hn as [Hn _].
    simpl in Hn. by rewrite BitSet64.hasBit_zero in Hn. }
  split.
  - split; [done|]. rewrite Hax. simpl. lia.
  - intros a. unfold map_get. rewrite lookup_empty. simpl. unfold getAxisValue. simpl. rewrite BitSet64.hasBit_zero. by rewrite orb_true_r.
  - intros a. rewrite lookup_empty, Hax. split; [by intros [? [=]]|by intros ?%elem_of_nil].
Qed.

(** the bits after an axis was stored *)
Lemma set_axes c axis v c' : setAxisValue c axis v = (OK, c') -> 0 <= axis < 64 -> BitSet64.hasBit (bits c) axis = true \/ F32.eqb v F32.zero = false ->
  forall a, a ∈ axes c' <-> a = axis \/ a ∈ axes c.
Proof.
  unfold setAxisValue. intros E Ha Hstored a. rewrite (proj2 (Z.ltb_ge axis 0)), (proj2 (Z.ltb_ge 63 axis)) in E by lia. simpl in E. unfold axes. rewrite !elem_of_bits_below.
  destruct (BitSet64.hasBit (bits c) axis) eqn:Hb; [injection E as <-; simpl; split; [tauto|]; by intros [->|?]|]. destruct Hstored as [?|Hz]; [done|]. rewrite Hz in E.
  destruct (_ <=? _); [done|]. injection E as <-. simpl. split.
  - intros [Hm Hr]. rewrite BitSet64.hasBit_mark in Hm by done. apply orb_true_iff in Hm as [->%Z.eqb_eq|?]; auto.
  - intros [->|[Hm Hr]]; (split; [|done]); rewrite BitSet64.hasBit_mark by done; apply orb_true_iff; [left; apply Z.eqb_refl|by right].
Qed.

(** a value that was stored *)
Lemma rep_stored c m axis v c' : represents c m -> 0 <= axis < 64 -> setAxisValue c axis v = (OK, c') -> well_formed c' ->
  (forall a, getAxisValue c' a = if decide (a = axis) then v else getAxisValue c a) ->
  BitSet64.hasBit (bits c) axis = true \/ F32.eqb v F32.zero = false -> represents c' (<[axis := v]> m).
Proof.
  intros Hr Ha E Hwf Hget Hst. split; [done| |].
  - intros a. rewrite Hget, (rep_get c m Hr). unfold map_get. case_decide; [subst; by rewrite lookup_insert_eq|by rewrite lookup_insert_ne].
  - intros a. rewrite (set_axes c axis v c' E Ha Hst), <- (rep_dom c m Hr a). destruct (decide (a = axis)) as [->|Hne].
    + rewrite lookup_insert_eq. split; [by left|eauto].
    + rewrite lookup_insert_ne by done. naive_solver.
Qed.

Lemma set_refines c m axis v : represents c m ->
  (setAxisValue c axis v).1 = (map_set m axis v).1 /\ represents (setAxisValue c axis v).2 (map_set m axis v).2.
Proof.
  intros Hr. pose proof (rep_wf c m Hr) as Hwf. unfold map_set. case_bool_decide as Ha.
  2:{ assert (E : setAxisValue c axis v = (NAME_NOT_FOUND, c)); [|by rewrite E].
      unfold setAxisValue. destruct (axis <? 0) eqn:E1, (63 <? axis) eqn:E2; bool_to_prop; try done; lia. }
  rewrite (rep_present c m axis Hr Ha), (rep_size c m Hr). destruct (BitSet64.hasBit (bits c) axis) eqn:Hb.
  { destruct (set_present c axis v Hwf Ha Hb) as (c' & E & Hwf' & Hget). rewrite E. split; [done|]. by apply (rep_stored c m); [..|left]. }
  destruct (F32.eqb v F32.zero) eqn:Hz.
  { assert (E : setAxisValue c axis v = (OK, c)); [|by rewrite E].
    unfold setAxisValue. by rewrite (proj2 (Z.ltb_ge axis 0)), (proj2 (Z.ltb_ge 63 axis)), Hb, Hz by lia. }
  case_bool_decide as Hroom.
  { destruct (set_absent c axis v Hwf Ha Hb Hz Hroom) as (c' & E & Hwf' & Hget). rewrite E. split; [done|]. by apply (rep_stored c m); [..|right]. }
  assert (E : setAxisValue c axis v = (NO_MEMORY, c)); [|by rewrite E].
  unfold setAxisValue. rewrite (proj2 (Z.ltb_ge axis 0)), (proj2 (Z.ltb_ge 63 axis)), Hb, Hz, BitSet64.count_spec by lia. simpl.
  change (bits_below (BitSet64.hasBit (bits c)) 64) with (axes c). by rewrite (proj2 (Z.leb_le MAX_AXES _)) by (unfold MAX_AXES; lia).
Qed.

(** the results of a sequence of calls, and what they leave *)
Definition set_all {S : Type} (set : S -> Z -> float32 -> status_t * S) (s : S) (calls : list (Z * float32)) : list status_t * S :=
  foldl (fun r call => let r' := set r.2 call.1 call.2 in (r.1 ++ [r'.1], r'.2)) ([], s) calls.

(** From cleared coordinates on, any sequence of calls of [setAxisValue] returns the
    statuses and leaves the values of a map with room for 30 axes: an axis has the value
    that was last set, also after other axes moved its slot; an axis beyond 63 and the
    31st axis are refused and change nothing, and setting an absent axis to zero succeeds
    without taking room. *)
Theorem coords_refine_map (c : t) (calls : list (Z * float32)) (Hlen : length (values c) = 30%nat) :
  let r := set_all setAxisValue (clear c) calls in
  let m := set_all map_set ∅ calls in
  r.1 = m.1 /\ forall axis, getAxisValue r.2 axis = map_get m.2 axis.
Proof.
  unfold set_all. assert (Hgen : forall l c m, represents c m ->
    let r := foldl (fun r call => let r' := setAxisValue r.2 call.1 call.2 in (r.1 ++ [r'.1], r'.2)) (l, c) calls in
    let q := foldl (fun r call => let r' := map_set r.2 call.1 call.2 in (r.1 ++ [r'.1], r'.2)) (l, m) calls in
    r.1 = q.1 /\ represents r.2 q.2).
  { induction calls as [|[axis v] calls IH]; intros l c' m Hr; simpl; [done|]. destruct (set_refines c' m axis v Hr) as [Es Hr']. rewrite Es. by apply IH. }
  destruct (Hgen [] (clear c) ∅ (rep_empty _ Hlen)) as [Es Hr]. split; [exact Es|]. intros axis. apply (rep_get _ _ Hr).
Qed.

End Refinement.
