(* ===== verification/InputEvents.v ===== *)
(** * Input events (services/inputflinger/dispatcher/Entry.h, InputTarget.h and the helpers of
    InputDispatcher.cpp)

    Key and motion events as the dispatcher passes them on, their validation, the targets
    they are sent to, and the splitting of a motion event between windows.

    - The arrays of [MAX_POINTERS] pointers with their count are lists; an index beyond the
      array is undefined behaviour, [None].
    - Events are values; where the code mutates an event that several queues share, the
      dispatch entries that hold it carry its address (InputConnection.v).
    - A [BitSet32] (system/core) is the integer it wraps, under the interface of
      PointerCoords.v. *)

From S2P Require Import Prelude Geometry Region PointerCoords.

(** ** Constants (include/android/input.h, include/input/Input.h) *)

Definition AKEY_EVENT_ACTION_DOWN : Z := 0.
Definition AKEY_EVENT_ACTION_UP : Z := 1.
Definition AKEY_EVENT_FLAG_CANCELED : Z := 32.
Definition AKEY_EVENT_FLAG_FALLBACK : Z := 1024.

Definition AMOTION_EVENT_ACTION_MASK : Z := 255.
Definition AMOTION_EVENT_ACTION_POINTER_INDEX_MASK : Z := 65280.
Definition AMOTION_EVENT_ACTION_POINTER_INDEX_SHIFT : Z := 8.
Definition AMOTION_EVENT_ACTION_DOWN : Z := 0.
Definition AMOTION_EVENT_ACTION_UP : Z := 1.
Definition AMOTION_EVENT_ACTION_MOVE : Z := 2.
Definition AMOTION_EVENT_ACTION_CANCEL : Z := 3.
Definition AMOTION_EVENT_ACTION_OUTSIDE : Z := 4.
Definition AMOTION_EVENT_ACTION_POINTER_DOWN : Z := 5.
Definition AMOTION_EVENT_ACTION_POINTER_UP : Z := 6.
Definition AMOTION_EVENT_ACTION_HOVER_MOVE : Z := 7.
Definition AMOTION_EVENT_ACTION_SCROLL : Z := 8.
Definition AMOTION_EVENT_ACTION_HOVER_ENTER : Z := 9.
Definition AMOTION_EVENT_ACTION_HOVER_EXIT : Z := 10.
Definition AMOTION_EVENT_ACTION_BUTTON_PRESS : Z := 11.
Definition AMOTION_EVENT_ACTION_BUTTON_RELEASE : Z := 12.
Definition AMOTION_EVENT_FLAG_WINDOW_IS_OBSCURED : Z := 1.
Definition AMOTION_EVENT_FLAG_WINDOW_IS_PARTIALLY_OBSCURED : Z := 2.

Definition AINPUT_SOURCE_CLASS_POINTER : Z := 2.
Definition AINPUT_SOURCE_CLASS_NAVIGATION : Z := 4.
Definition AINPUT_SOURCE_CLASS_JOYSTICK : Z := 16.

Definition MAX_POINTERS : Z := 16.
Definition MAX_POINTER_ID : Z := 31.

(** a bit of [flags] is set: [flags & mask] as a condition *)
Definition has (flags mask : Z) : bool := negb (Z.land flags mask =? 0).

(** ** Pointers and events *)

Record PointerProperties := properties { id : Z; toolType : Z }.
Record pointer := touch { property : PointerProperties; coord : PointerCoords.t }.

Module KeyEntry.

Record t := mk {
  id : Z; eventTime : Z; policyFlags : Z;
  deviceId : Z; source : Z; displayId : Z;
  action : Z; flags : Z; keyCode : Z; scanCode : Z; metaState : Z; repeatCount : Z; downTime : Z;
  injectionState : option Z }.

Definition eta (e : t) : t :=
  mk (id e) (eventTime e) (policyFlags e) (deviceId e) (source e) (displayId e) (action e) (flags e) (keyCode e) (scanCode e) (metaState e) (repeatCount e) (downTime e) (injectionState e).
#[global] Instance set_policyFlags : Setter policyFlags := ltac:(setter_of eta policyFlags).
#[global] Instance set_flags : Setter flags := ltac:(setter_of eta flags).
#[global] Instance set_repeatCount : Setter repeatCount := ltac:(setter_of eta repeatCount).
#[global] Instance set_injectionState : Setter injectionState := ltac:(setter_of eta injectionState).

End KeyEntry.

Module MotionEntry.

Record t := mk {
  id : Z; eventTime : Z; policyFlags : Z;
  deviceId : Z; source : Z; displayId : Z;
  action : Z; actionButton : Z; flags : Z; metaState : Z; buttonState : Z; classification : Z; edgeFlags : Z;
  xPrecision : float32; yPrecision : float32; xCursorPosition : float32; yCursorPosition : float32; downTime : Z;
  pointers : list pointer; injectionState : option Z }.

Definition eta (e : t) : t :=
  mk (id e) (eventTime e) (policyFlags e) (deviceId e) (source e) (displayId e) (action e) (actionButton e) (flags e) (metaState e) (buttonState e)
     (classification e) (edgeFlags e) (xPrecision e) (yPrecision e) (xCursorPosition e) (yCursorPosition e) (downTime e) (pointers e) (injectionState e).
#[global] Instance set_id : Setter id := ltac:(setter_of eta id).
#[global] Instance set_eventTime : Setter eventTime := ltac:(setter_of eta eventTime).
#[global] Instance set_policyFlags : Setter policyFlags := ltac:(setter_of eta policyFlags).
#[global] Instance set_deviceId : Setter deviceId := ltac:(setter_of eta deviceId).
#[global] Instance set_action : Setter action := ltac:(setter_of eta action).
#[global] Instance set_pointers : Setter pointers := ltac:(setter_of eta pointers).
#[global] Instance set_injectionState : Setter injectionState := ltac:(setter_of eta injectionState).

Definition pointerCount (e : t) : Z := Z.of_nat (length (pointers e)).

End MotionEntry.

Inductive EventEntry := Key (e : KeyEntry.t) | Motion (e : MotionEntry.t) | Focus (id : Z) (hasFocus : bool) | ConfigurationChanged | DeviceReset (deviceId : Z).

Definition injectionState (e : EventEntry) : option Z :=
  match e with Key k => KeyEntry.injectionState k | Motion m => MotionEntry.injectionState m | _ => None end.

(** ** Validation *)

Definition getMotionEventActionPointerIndex (action : Z) : Z :=
  Z.shiftr (Z.land action AMOTION_EVENT_ACTION_POINTER_INDEX_MASK) AMOTION_EVENT_ACTION_POINTER_INDEX_SHIFT.

Definition isValidKeyAction (action : Z) : bool := (action =? AKEY_EVENT_ACTION_DOWN) || (action =? AKEY_EVENT_ACTION_UP).

Definition isValidMotionAction (action actionButton pointerCount : Z) : bool :=
  let masked := Z.land action AMOTION_EVENT_ACTION_MASK in
  if bool_decide (masked ∈ [AMOTION_EVENT_ACTION_DOWN; AMOTION_EVENT_ACTION_UP; AMOTION_EVENT_ACTION_CANCEL; AMOTION_EVENT_ACTION_MOVE; AMOTION_EVENT_ACTION_OUTSIDE;
                            AMOTION_EVENT_ACTION_HOVER_ENTER; AMOTION_EVENT_ACTION_HOVER_MOVE; AMOTION_EVENT_ACTION_HOVER_EXIT; AMOTION_EVENT_ACTION_SCROLL]) then true
  else if (masked =? AMOTION_EVENT_ACTION_POINTER_DOWN) || (masked =? AMOTION_EVENT_ACTION_POINTER_UP) then
    let index := getMotionEventActionPointerIndex action in (0 <=? index) && (index <? pointerCount)
  else if (masked =? AMOTION_EVENT_ACTION_BUTTON_PRESS) || (masked =? AMOTION_EVENT_ACTION_BUTTON_RELEASE) then negb (actionButton =? 0)
  else false.

(** the ids are in range, and none occurs twice *)
Fixpoint valid_ids (seen : list Z) (ps : list pointer) : bool :=
  match ps with
  | [] => true
  | p :: ps' =>
    let i := id (property p) in
    if (i <? 0) || (MAX_POINTER_ID <? i) then false
    else if bool_decide (i ∈ seen) then false
    else valid_ids (i :: seen) ps'
  end.

Definition validateMotionEvent (action actionButton : Z) (ps : list pointer) : bool :=
  let pointerCount := Z.of_nat (length ps) in
  if negb (isValidMotionAction action actionButton pointerCount) then false
  else if (pointerCount <? 1) || (MAX_POINTERS <? pointerCount) then false
  else valid_ids [] ps.

(** an input channel: the identity of the object, its token and its file descriptor *)
Module InputChannel.

Record t := mk { object : Z; token : Z; fd : Z }.

End InputChannel.

(** ** Targets (InputTarget.h, InputTarget.cpp) *)

Record PointerInfo := info { xOffset : float32; yOffset : float32; windowXScale : float32; windowYScale : float32 }.

Module InputTarget.

Definition FLAG_FOREGROUND : Z := 1.
Definition FLAG_WINDOW_IS_OBSCURED : Z := 2.
Definition FLAG_SPLIT : Z := 4.
Definition FLAG_ZERO_COORDS : Z := 8.
Definition FLAG_DISPATCH_AS_IS : Z := 256.
Definition FLAG_DISPATCH_AS_OUTSIDE : Z := 512.
Definition FLAG_DISPATCH_AS_HOVER_ENTER : Z := 1024.
Definition FLAG_DISPATCH_AS_HOVER_EXIT : Z := 2048.
Definition FLAG_DISPATCH_AS_SLIPPERY_EXIT : Z := 4096.
Definition FLAG_DISPATCH_AS_SLIPPERY_ENTER : Z := 8192.
Definition FLAG_DISPATCH_MASK : Z := 16128.
Definition FLAG_WINDOW_IS_PARTIALLY_OBSCURED : Z := 16384.

Record t := mk { flags : Z; globalScaleFactor : float32; pointerIds : Z; pointerInfos : list PointerInfo }.

Definition eta (i : t) : t := mk (flags i) (globalScaleFactor i) (pointerIds i) (pointerInfos i).
#[global] Instance set_flags : Setter flags := ltac:(setter_of eta flags).
#[global] Instance set_globalScaleFactor : Setter globalScaleFactor := ltac:(setter_of eta globalScaleFactor).
#[global] Instance set_pointerIds : Setter pointerIds := ltac:(setter_of eta pointerIds).
#[global] Instance set_pointerInfos : Setter pointerInfos := ltac:(setter_of eta pointerInfos).

(** a target with the default initializers: no offset and a scale of 1.0f *)
Definition new : t := mk 0 F32.one 0 (replicate 16 (info F32.zero F32.zero F32.one F32.one)).

Definition setDefaultPointerInfo (i : t) (p : PointerInfo) : t := i <| pointerIds := 0 |> <| pointerInfos := <[0%nat := p]> (pointerInfos i) |>.
Definition getDefaultPointerInfo (i : t) : option PointerInfo := pointerInfos i !! 0%nat.

Section Bits.
Context `{B32 : BitSet32.ops}.

Definition useDefaultPointerInfo (i : t) : bool := BitSet32.isEmpty (pointerIds i).

(** The array is indexed by the pointer's id. *)
Fixpoint store (p : PointerInfo) (ids : list Z) (infos : list PointerInfo) : option (list PointerInfo) :=
  match ids with
  | [] => Some infos
  | i :: ids' => if (0 <=? i) && (i <? Z.of_nat (length infos)) then store p ids' (<[Z.to_nat i := p]> infos) else None
  end.

Definition addPointers (i : t) (newPointerIds : Z) (p : PointerInfo) : option t :=
  if BitSet32.isEmpty newPointerIds then Some (setDefaultPointerInfo i p)
  else
    infos ← store p (BitSet32.members newPointerIds) (pointerInfos i);
    Some (i <| pointerIds := Z.lor (pointerIds i) newPointerIds |> <| pointerInfos := infos |>).

End Bits.

End InputTarget.

(** ** Splitting a motion event *)

Section Split.
Context `{B32 : BitSet32.ops}.

(** the search for the pointer's index in the split event: the loop has no other bound *)
Fixpoint find_pointer (pointerId : Z) (ps : list pointer) (splitPointerIndex : Z) : option Z :=
  match ps with
  | [] => None
  | p :: ps' => if pointerId =? id (property p) then Some splitPointerIndex else find_pointer pointerId ps' (splitPointerIndex + 1)
  end.

Definition split_action (e : MotionEntry.t) (pointerIds : Z) (splitPointers : list pointer) : option Z :=
  let action := MotionEntry.action e in
  let maskedAction := Z.land action AMOTION_EVENT_ACTION_MASK in
  if (maskedAction =? AMOTION_EVENT_ACTION_POINTER_DOWN) || (maskedAction =? AMOTION_EVENT_ACTION_POINTER_UP) then
    p ← MotionEntry.pointers e !! Z.to_nat (getMotionEventActionPointerIndex action);
    let pointerId := id (property p) in
    if BitSet32.hasBit pointerIds pointerId then
      if BitSet32.count pointerIds =? 1 then
        Some (if maskedAction =? AMOTION_EVENT_ACTION_POINTER_DOWN then AMOTION_EVENT_ACTION_DOWN else AMOTION_EVENT_ACTION_UP)
      else
        splitPointerIndex ← find_pointer pointerId splitPointers 0;
        Some (Z.lor maskedAction (Z.shiftl splitPointerIndex AMOTION_EVENT_ACTION_POINTER_INDEX_SHIFT))
    else Some AMOTION_EVENT_ACTION_MOVE
  else Some action.

(** [Some None] is the null pointer: the event is dropped. *)
Definition splitMotionEvent (e : MotionEntry.t) (pointerIds newId : Z) : option (option MotionEntry.t) :=
  let splitPointers := filter (fun p => BitSet32.hasBit pointerIds (id (property p)) = true) (MotionEntry.pointers e) in
  if negb (Z.of_nat (length splitPointers) =? BitSet32.count pointerIds) then Some None
  else
    action ← split_action e pointerIds splitPointers;
    Some (Some (e <| MotionEntry.id := newId |> <| MotionEntry.action := action |> <| MotionEntry.pointers := splitPointers |>)).

End Split.

(** ** Windows (include/input/InputWindow.h, libs/input/InputWindow.cpp)

    What the window manager and the compositor say of a window, and the geometric
    questions the dispatcher asks. A token is a number, 0 is the null pointer. *)

Module InputWindowInfo.

Definition FLAG_NOT_FOCUSABLE : Z := 8.
Definition FLAG_NOT_TOUCHABLE : Z := 16.
Definition FLAG_NOT_TOUCH_MODAL : Z := 32.
Definition FLAG_WATCH_OUTSIDE_TOUCH : Z := 262144.
Definition FLAG_SPLIT_TOUCH : Z := 8388608.
Definition FLAG_SLIPPERY : Z := 536870912.

Definition TYPE_STATUS_BAR : Z := 2000.
Definition TYPE_INPUT_METHOD : Z := 2011.
Definition TYPE_INPUT_METHOD_DIALOG : Z := 2012.
Definition TYPE_WALLPAPER : Z := 2013.
Definition TYPE_SECURE_SYSTEM_OVERLAY : Z := 2015.
Definition TYPE_NAVIGATION_BAR : Z := 2019.
Definition TYPE_INPUT_CONSUMER : Z := 2022.
Definition TYPE_NAVIGATION_BAR_PANEL : Z := 2024.
Definition TYPE_MAGNIFICATION_OVERLAY : Z := 2027.
Definition TYPE_ACCESSIBILITY_OVERLAY : Z := 2032.
Definition TYPE_DOCK_DIVIDER : Z := 2034.
Definition TYPE_NOTIFICATION_SHADE : Z := 2040.
Definition TYPE_TRUSTED_APPLICATION_OVERLAY : Z := 2042.

Definition INPUT_FEATURE_NO_INPUT_CHANNEL : Z := 2.
Definition INPUT_FEATURE_DISABLE_USER_ACTIVITY : Z := 4.

Definition ADISPLAY_ID_NONE : Z := -1.

(** [name], which only appears in logs, is left out, and so are [surfaceInset] and the crop of
    the touchable region, which only the compositor reads *)
Record t := mk {
  token : Z; id : Z; layoutParamsFlags : Z; layoutParamsType : Z; dispatchingTimeout : Z;
  frameLeft : Z; frameTop : Z; frameRight : Z; frameBottom : Z;
  globalScaleFactor : float32; windowXScale : float32; windowYScale : float32; touchableRegion : Region.t;
  visible : bool; canReceiveKeys : bool; hasFocus : bool; hasWallpaper : bool; paused : bool;
  ownerPid : Z; ownerUid : Z; inputFeatures : Z; displayId : Z; portalToDisplayId : Z; applicationToken : Z }.

(** the default member initializers *)
Definition new : t :=
  mk 0 (-1) 0 0 (-1) (-1) (-1) (-1) (-1) F32.one F32.one F32.one Region.new false false false false false (-1) (-1) 0 ADISPLAY_ID_NONE ADISPLAY_ID_NONE 0.

Definition touchableRegionContainsPoint (w : t) (x y : Z) : bool := Region.contains (touchableRegion w) x y.

Definition frameContainsPoint (w : t) (x y : Z) : bool := (frameLeft w <=? x) && (x <? frameRight w) && (frameTop w <=? y) && (y <? frameBottom w).

Definition isTrustedOverlay (w : t) : bool :=
  bool_decide (layoutParamsType w ∈
    [TYPE_INPUT_METHOD; TYPE_INPUT_METHOD_DIALOG; TYPE_MAGNIFICATION_OVERLAY; TYPE_STATUS_BAR; TYPE_NOTIFICATION_SHADE; TYPE_NAVIGATION_BAR;
     TYPE_NAVIGATION_BAR_PANEL; TYPE_SECURE_SYSTEM_OVERLAY; TYPE_DOCK_DIVIDER; TYPE_ACCESSIBILITY_OVERLAY; TYPE_INPUT_CONSUMER; TYPE_TRUSTED_APPLICATION_OVERLAY]).

Definition supportsSplitTouch (w : t) : bool := has (layoutParamsFlags w) FLAG_SPLIT_TOUCH.

Definition overlaps (w other : t) : bool :=
  (frameLeft w <? frameRight other) && (frameLeft other <? frameRight w) && (frameTop w <? frameBottom other) && (frameTop other <? frameBottom w).

Definition getDispatchingTimeout (w : t) (defaultValue : Z) : Z := if token w =? 0 then defaultValue else dispatchingTimeout w.

(** [InputWindowHandle::releaseChannel]: the handle forgets its token *)
Definition releaseChannel (w : t) : t :=
  mk 0 (id w) (layoutParamsFlags w) (layoutParamsType w) (dispatchingTimeout w) (frameLeft w) (frameTop w) (frameRight w) (frameBottom w)
    (globalScaleFactor w) (windowXScale w) (windowYScale w) (touchableRegion w) (visible w) (canReceiveKeys w) (hasFocus w) (hasWallpaper w) (paused w)
    (ownerPid w) (ownerUid w) (inputFeatures w) (displayId w) (portalToDisplayId w) (applicationToken w).

End InputWindowInfo.

(** An application handle (include/input/InputApplication.h): the identity of the object,
    its token and timeout, and whether [updateInfo] says that it is still valid. *)
Module InputApplication.

Record t := mk { handle : Z; token : Z; dispatchingTimeout : Z }.

Definition getDispatchingTimeout (a : t) (defaultValue : Z) : Z := if token a =? 0 then defaultValue else dispatchingTimeout a.

End InputApplication.
