(* ===== verification/InputSplit.v ===== *)
(** * Splitting motion events between windows

    A window that got only some of the pointers of a touch gets events about these. The
    search for the index of a pointer in the split event has no bound of its own in the
    code: it ends because the pointer is there. *)

From S2P Require Import Prelude PointerCoords InputEvents.

Definition pointer_ids (ps : list pointer) : list Z := map (fun p => id (property p)) ps.

(** ** Validation *)

Lemma valid_ids_spec ps : forall seen, valid_ids seen ps = true <->
  NoDup (pointer_ids ps) /\ (forall i, i ∈ pointer_ids ps -> 0 <= i <= MAX_POINTER_ID /\ i ∉ seen).
Proof.
  induction ps as [|p ps IH]; intros seen; simpl; [split; [intros _; split; [constructor|set_solver]|done]|].
  destruct ((id (property p) <? 0) || (MAX_POINTER_ID <? id (property p))) eqn:E1.
  { split; [done|]. intros [_ Hall]. destruct (Hall (id (property p))) as [Hr _]; [set_solver|]. apply orb_true_iff in E1 as [E1|E1]; bool_to_prop; lia. }
  apply orb_false_iff in E1 as [E1 E2]. bool_to_prop. case_bool_decide as Hs; [split; [done|]; intros [_ Hall]; destruct (Hall (id (property p))); set_solver|].
  rewrite IH. split.
  - intros [Hnd Hall]. split; [constructor; [|done]|].
    + intros Hin. destruct (Hall _ Hin). set_solver.
    + intros i [->|Hi]%elem_of_cons; [split; [lia|done]|]. destruct (Hall i Hi). set_solver.
  - intros [Hnd Hall]. apply NoDup_cons in Hnd as [Hp Hnd]. split; [done|]. intros i Hi. destruct (Hall i ltac:(set_solver)) as [Hr Hn]. split; [done|]. intros [->|?]%elem_of_cons; done.
Qed.

Lemma validate_motion_spec action button ps : validateMotionEvent action button ps = true ->
  NoDup (pointer_ids ps) /\ (1 <= length ps <= 16)%nat /\ (forall i, i ∈ pointer_ids ps -> 0 <= i <= MAX_POINTER_ID) /\
  (Z.land action AMOTION_EVENT_ACTION_MASK ∈ [AMOTION_EVENT_ACTION_POINTER_DOWN; AMOTION_EVENT_ACTION_POINTER_UP] ->
   is_Some (ps !! Z.to_nat (getMotionEventActionPointerIndex action))).
Proof.
  unfold validateMotionEvent. destruct (isValidMotionAction _ _ _) eqn:Ea; simpl; [|done]. destruct (_ || _) eqn:El; [done|]. intros Hv%valid_ids_spec. destruct Hv as [Hnd Hr].
  bool_to_prop. unfold MAX_POINTERS in *. split; [done|]. split; [lia|]. split; [intros i Hi; by apply Hr|]. intros Hm. apply lookup_lt_is_Some_2.
  unfold isValidMotionAction in Ea. apply elem_of_cons in Hm as [Hm|Hm%list_elem_of_singleton]; rewrite Hm in Ea; simpl in Ea; bool_to_prop; lia.
Qed.

(** ** The index of the pointer *)

Lemma action_index masked i : 0 <= masked < 256 -> 0 <= i < 256 -> getMotionEventActionPointerIndex (Z.lor masked (Z.shiftl i AMOTION_EVENT_ACTION_POINTER_INDEX_SHIFT)) = i.
Proof.
  intros Hm Hi. unfold getMotionEventActionPointerIndex, AMOTION_EVENT_ACTION_POINTER_INDEX_SHIFT, AMOTION_EVENT_ACTION_POINTER_INDEX_MASK.
  rewrite Z.shiftr_land, Z.shiftr_lor, Z.shiftr_shiftl_r by lia. change (Z.shiftr 65280 8) with (Z.ones 8). rewrite Z.sub_diag, Z.shiftr_0_r, Z.land_ones by lia.
  rewrite Z.shiftr_div_pow2 by lia. change (2 ^ 8) with 256. rewrite Z.div_small by lia. rewrite Z.lor_0_l. by apply Z.mod_small.
Qed.

Lemma action_masked masked i : 0 <= masked < 256 -> Z.land (Z.lor masked (Z.shiftl i AMOTION_EVENT_ACTION_POINTER_INDEX_SHIFT)) AMOTION_EVENT_ACTION_MASK = masked.
Proof.
  intros Hm. unfold AMOTION_EVENT_ACTION_POINTER_INDEX_SHIFT. rewrite Z.land_lor_distr_l. change AMOTION_EVENT_ACTION_MASK with (Z.ones 8).
  rewrite !Z.land_ones, Z.shiftl_mul_pow2, Z.mod_mul, Z.lor_0_r by lia. by apply Z.mod_small.
Qed.

(** the search ends at the pointer *)
Lemma find_pointer_found pid ps : forall k, pid ∈ pointer_ids ps -> exists i p, find_pointer pid ps k = Some (k + Z.of_nat i) /\ ps !! i = Some p /\ id (property p) = pid.
Proof.
  induction ps as [|p ps IH]; intros k Hin; simpl; [set_solver|]. destruct (pid =? id (property p)) eqn:E; bool_to_prop.
  - exists 0%nat, p. simpl. rewrite Z.add_0_r. auto.
  - destruct (IH (k + 1)) as (i & q & Hf & Hq & Hid); [set_solver|]. exists (S i), q. split; [rewrite Hf; f_equal; lia|done].
Qed.

Section Split.
Context `{B32 : BitSet32.ops}.

(** the pointers of the event that are in the set *)
Definition kept (ids : Z) (ps : list pointer) : list pointer := filter (fun p => BitSet32.hasBit ids (id (property p)) = true) ps.

Lemma kept_ids ids ps : pointer_ids (kept ids ps) = filter (fun i => BitSet32.hasBit ids i = true) (pointer_ids ps).
Proof. unfold kept. induction ps as [|p ps IH]; [done|]. simpl. rewrite !filter_cons. case_decide; simpl; by rewrite IH. Qed.

(** all pointers of the set are there if and only if the numbers agree *)
Lemma kept_count ids ps : NoDup (pointer_ids ps) ->
  Z.of_nat (length (kept ids ps)) = BitSet32.count ids <-> (forall i, BitSet32.hasBit ids i = true -> i ∈ pointer_ids ps).
Proof.
  intros Hnd. assert (Hlen : length (kept ids ps) = length (filter (fun i => BitSet32.hasBit ids i = true) (pointer_ids ps))).
  { rewrite <- kept_ids. unfold pointer_ids. by rewrite length_map. }
  rewrite Hlen, BitSet32.count_spec, Nat2Z.inj_iff. set (l := filter _ (pointer_ids ps)). set (b := bits_below (BitSet32.hasBit ids) 32).
  assert (Hl : NoDup l) by (by apply NoDup_filter). assert (Hb : NoDup b) by (apply NoDup_filter, NoDup_seqZ).
  assert (Hsub : l ⊆ b).
  { intros i [Hi _]%list_elem_of_filter. apply elem_of_bits_below. split; [done|]. by eapply BitSet32.hasBit_range. }
  split.
  - intros E i Hi. assert (Hib : i ∈ b) by (apply elem_of_bits_below; split; [done|by eapply BitSet32.hasBit_range]).
    assert (Hp : l ≡ₚ b) by (apply submseteq_length_Permutation; [by apply NoDup_submseteq|lia]). rewrite <- Hp in Hib. by apply list_elem_of_filter in Hib as [_ ?].
  - intros H. apply Permutation_length, NoDup_Permutation; [done|done|]. intros i. split; [apply Hsub|]. intros [Hi _]%elem_of_bits_below. apply list_elem_of_filter. auto.
Qed.

(** what the action of the split event is *)
Definition split_action_ok (e m : MotionEntry.t) (ids : Z) : Prop :=
  let masked := Z.land (MotionEntry.action e) AMOTION_EVENT_ACTION_MASK in
  if bool_decide (masked ∈ [AMOTION_EVENT_ACTION_POINTER_DOWN; AMOTION_EVENT_ACTION_POINTER_UP]) then
    forall p, MotionEntry.pointers e !! Z.to_nat (getMotionEventActionPointerIndex (MotionEntry.action e)) = Some p ->
      if BitSet32.hasBit ids (id (property p)) then
        if BitSet32.count ids =? 1 then MotionEntry.action m = (if masked =? AMOTION_EVENT_ACTION_POINTER_DOWN then AMOTION_EVENT_ACTION_DOWN else AMOTION_EVENT_ACTION_UP)
        else Z.land (MotionEntry.action m) AMOTION_EVENT_ACTION_MASK = masked /\
             MotionEntry.pointers m !! Z.to_nat (getMotionEventActionPointerIndex (MotionEntry.action m)) = Some p
      else MotionEntry.action m = AMOTION_EVENT_ACTION_MOVE
  else MotionEntry.action m = MotionEntry.action e.

Lemma pointer_by_id ps i j p q : NoDup (pointer_ids ps) -> ps !! i = Some p -> ps !! j = Some q -> id (property p) = id (property q) -> p = q.
Proof.
  intros Hnd Hi Hj E. enough (i = j) by congruence. eapply (NoDup_lookup (pointer_ids ps)); [done| |]; unfold pointer_ids;
    change (map (fun p => id (property p)) ps) with ((fun p => id (property p)) <$> ps); rewrite list_lookup_fmap; [by rewrite Hi|by rewrite Hj, E].
Qed.

(** C38: a valid motion event is split in finitely many steps, for any set of pointers: the
    search for the pointer's index ends. Either a pointer of the set is missing from the
    event, and nothing is sent; or the result has exactly the pointers of the set, in
    their order, and its action tells about the same pointer as that of the event: as the
    beginning or the end of the touch if it is the only one, by its index among the kept
    ones, or as a move if it is not kept. *)
Theorem split_event_ends (e : MotionEntry.t) (ids newId : Z)
    (Hvalid : validateMotionEvent (MotionEntry.action e) (MotionEntry.actionButton e) (MotionEntry.pointers e) = true) :
  exists r, splitMotionEvent e ids newId = Some r /\
    match r with
    | None => exists i, BitSet32.hasBit ids i = true /\ i ∉ pointer_ids (MotionEntry.pointers e)
    | Some m => (forall i, BitSet32.hasBit ids i = true <-> i ∈ pointer_ids (MotionEntry.pointers m)) /\
                MotionEntry.pointers m = kept ids (MotionEntry.pointers e) /\ split_action_ok e m ids
    end.
Proof.
  destruct (validate_motion_spec _ _ _ Hvalid) as (Hnd & Hlen & Hr & Hidx). unfold splitMotionEvent. fold (kept ids (MotionEntry.pointers e)).
  pose proof (kept_count ids _ Hnd) as Hcount. destruct (Z.of_nat (length (kept ids (MotionEntry.pointers e))) =? BitSet32.count ids) eqn:Ec; bool_to_prop; simpl.
  2:{ exists None. split; [done|]. destruct (decide (Exists (fun i => i ∉ pointer_ids (MotionEntry.pointers e)) (bits_below (BitSet32.hasBit ids) 32))) as [Hex|Hex].
      - apply Exists_exists in Hex as (i & Hi & Hn). apply elem_of_bits_below in Hi as [Hi _]. eauto.
      - exfalso. apply Ec, Hcount. intros i Hi. apply dec_stable. intros Hn. apply Hex, Exists_exists. exists i. split; [|done].
        apply elem_of_bits_below. split; [done|by eapply BitSet32.hasBit_range]. }
  assert (Hall : forall i, BitSet32.hasBit ids i = true <-> i ∈ pointer_ids (kept ids (MotionEntry.pointers e))).
  { intros i. rewrite kept_ids, list_elem_of_filter. split; [|tauto]. intros Hi. split; [done|]. by apply Hcount. }
  assert (Hact : exists action, split_action e ids (kept ids (MotionEntry.pointers e)) = Some action /\
    split_action_ok e (e <| MotionEntry.id := newId |> <| MotionEntry.action := action |> <| MotionEntry.pointers := kept ids (MotionEntry.pointers e) |>) ids).
  { unfold split_action, split_action_ok. set (masked := Z.land (MotionEntry.action e) AMOTION_EVENT_ACTION_MASK) in *. simpl.
    assert (Hm : 0 <= masked < 256) by (unfold masked; change AMOTION_EVENT_ACTION_MASK with (Z.ones 8); rewrite Z.land_ones by lia; apply Z.mod_pos_bound; lia).
    assert (Ep : (masked =? AMOTION_EVENT_ACTION_POINTER_DOWN) || (masked =? AMOTION_EVENT_ACTION_POINTER_UP) =
      bool_decide (masked ∈ [AMOTION_EVENT_ACTION_POINTER_DOWN; AMOTION_EVENT_ACTION_POINTER_UP])).
    { apply eq_iff_eq_true. rewrite orb_true_iff, !Z.eqb_eq, bool_decide_eq_true, !elem_of_cons, elem_of_nil. tauto. }
    rewrite Ep. case_bool_decide as Hp; [|eauto]. destruct (Hidx Hp) as [p Hpp]. rewrite Hpp. simpl. destruct (BitSet32.hasBit ids (id (property p))) eqn:Eb.
    2:{ eexists; split; [done|]. intros q [= <-]. by rewrite Eb. }
    destruct (BitSet32.count ids =? 1) eqn:E1; [eexists; split; [done|]; intros q [= <-]; by rewrite Eb|].
    destruct (find_pointer_found (id (property p)) (kept ids (MotionEntry.pointers e)) 0) as (i & q & Hf & Hq & Hid); [by apply Hall|].
    rewrite Hf. simpl. eexists; split; [done|]. intros q' [= <-]. rewrite Eb. split; [by apply action_masked|].
    assert (Hi : 0 <= Z.of_nat i < 256).
    { assert (i < length (kept ids (MotionEntry.pointers e)))%nat by (by eapply lookup_lt_Some). pose proof (length_filter (fun p => BitSet32.hasBit ids (id (property p)) = true) (MotionEntry.pointers e)).
      unfold kept in *. lia. }
    rewrite action_index by lia. rewrite Z.add_0_l, Nat2Z.id, Hq. f_equal.
    apply list_elem_of_lookup_2, list_elem_of_filter in Hq as [_ Hq]. apply list_elem_of_lookup in Hq as [j Hj]. eapply pointer_by_id; eauto. }
  destruct Hact as (action & Ea & Hok). rewrite Ea. simpl. eexists; split; [done|]. simpl. split; [exact Hall|]. split; [done|exact Hok].
Qed.

End Split.
