(* ===== verification/InputState.v ===== *)
(** * InputState and TouchState (services/inputflinger/dispatcher)

    What the dispatcher remembers of the events it has sent to a window: the keys that are
    down and the motions that are under way, from which it tells inconsistent events from
    consistent ones and synthesizes cancelations; and which windows the current touch is
    sent to. The ids of synthesized events, which come from a random generator, are an
    argument. *)

From S2P Require Import Prelude PointerCoords InputEvents.

Definition INVALID_POINTER_INDEX : Z := -1.

(** ** Cancelation options (CancelationOptions.h) *)

Module CancelationOptions.

Inductive Mode := CANCEL_ALL_EVENTS | CANCEL_POINTER_EVENTS | CANCEL_NON_POINTER_EVENTS | CANCEL_FALLBACK_EVENTS.

Record t := mk { mode : Mode; keyCode : option Z; deviceId : option Z; displayId : option Z }.

Definition new (mode : Mode) : t := mk mode None None None.

End CancelationOptions.

(** ** The state (InputState.h) *)

Module KeyMemento.

Record t := mk {
  deviceId : Z; source : Z; displayId : Z; keyCode : Z; scanCode : Z; metaState : Z; flags : Z; downTime : Z; policyFlags : Z }.

End KeyMemento.

Module MotionMemento.

Record t := mk {
  deviceId : Z; source : Z; displayId : Z; flags : Z;
  xPrecision : float32; yPrecision : float32; xCursorPosition : float32; yCursorPosition : float32; downTime : Z;
  pointers : list pointer; firstNewPointerIdx : Z; hovering : bool; policyFlags : Z }.

Definition eta (m : t) : t :=
  mk (deviceId m) (source m) (displayId m) (flags m) (xPrecision m) (yPrecision m) (xCursorPosition m) (yCursorPosition m) (downTime m)
     (pointers m) (firstNewPointerIdx m) (hovering m) (policyFlags m).
#[global] Instance set_pointers : Setter pointers := ltac:(setter_of eta pointers).
#[global] Instance set_firstNewPointerIdx : Setter firstNewPointerIdx := ltac:(setter_of eta firstNewPointerIdx).

Definition setPointers (m : t) (entry : MotionEntry.t) : t := m <| pointers := MotionEntry.pointers entry |>.

(** [None]: the arrays of [other] have no room for the pointers of [m]. *)
Definition mergePointerStateTo (m other : t) : option t :=
  if bool_decide (pointers m = []) then Some other
  else
    let all := pointers other ++ pointers m in
    if MAX_POINTERS <? Z.of_nat (length all) then None
    else
      let first := if firstNewPointerIdx other <? 0 then Z.of_nat (length (pointers other)) else firstNewPointerIdx other in
      Some (other <| pointers := all |> <| firstNewPointerIdx := first |>).

End MotionMemento.

Module InputState.

Record t := mk { mKeyMementos : list KeyMemento.t; mMotionMementos : list MotionMemento.t; mFallbackKeys : gmap Z Z }.

Definition eta (s : t) : t := mk (mKeyMementos s) (mMotionMementos s) (mFallbackKeys s).
#[global] Instance set_mKeyMementos : Setter mKeyMementos := ltac:(setter_of eta mKeyMementos).
#[global] Instance set_mMotionMementos : Setter mMotionMementos := ltac:(setter_of eta mMotionMementos).
#[global] Instance set_mFallbackKeys : Setter mFallbackKeys := ltac:(setter_of eta mFallbackKeys).

Definition new : t := mk [] [] ∅.

Definition isNeutral (s : t) : bool := match mKeyMementos s, mMotionMementos s with [], [] => true | _, _ => false end.

Definition isHovering (s : t) (deviceId source displayId : Z) : bool :=
  existsb (fun m => (MotionMemento.deviceId m =? deviceId) && (MotionMemento.source m =? source) && (MotionMemento.displayId m =? displayId) && MotionMemento.hovering m)
    (mMotionMementos s).

(** *** Mementos *)

Definition same_key (entry : KeyEntry.t) (m : KeyMemento.t) : bool :=
  (KeyMemento.deviceId m =? KeyEntry.deviceId entry) && (KeyMemento.source m =? KeyEntry.source entry) && (KeyMemento.displayId m =? KeyEntry.displayId entry) &&
  (KeyMemento.keyCode m =? KeyEntry.keyCode entry) && (KeyMemento.scanCode m =? KeyEntry.scanCode entry).

Definition same_motion (entry : MotionEntry.t) (hovering : bool) (m : MotionMemento.t) : bool :=
  (MotionMemento.deviceId m =? MotionEntry.deviceId entry) && (MotionMemento.source m =? MotionEntry.source entry) &&
  (MotionMemento.displayId m =? MotionEntry.displayId entry) && Bool.eqb (MotionMemento.hovering m) hovering.

(** the index of the first memento that matches *)
Fixpoint find_index {A} (f : A -> bool) (l : list A) : option nat :=
  match l with [] => None | x :: l' => if f x then Some 0%nat else S <$> find_index f l' end.

Definition findKeyMemento (s : t) (entry : KeyEntry.t) : option nat := find_index (same_key entry) (mKeyMementos s).
Definition findMotionMemento (s : t) (entry : MotionEntry.t) (hovering : bool) : option nat := find_index (same_motion entry hovering) (mMotionMementos s).

Definition erase {A} (index : option nat) (l : list A) : list A := match index with Some i => delete i l | None => l end.

Definition addKeyMemento (s : t) (entry : KeyEntry.t) (flags : Z) : t :=
  s <| mKeyMementos := mKeyMementos s ++
    [KeyMemento.mk (KeyEntry.deviceId entry) (KeyEntry.source entry) (KeyEntry.displayId entry) (KeyEntry.keyCode entry) (KeyEntry.scanCode entry)
                   (KeyEntry.metaState entry) flags (KeyEntry.downTime entry) (KeyEntry.policyFlags entry)] |>.

Definition motion_memento (entry : MotionEntry.t) (flags : Z) (hovering : bool) : MotionMemento.t :=
  MotionMemento.mk (MotionEntry.deviceId entry) (MotionEntry.source entry) (MotionEntry.displayId entry) flags
    (MotionEntry.xPrecision entry) (MotionEntry.yPrecision entry) (MotionEntry.xCursorPosition entry) (MotionEntry.yCursorPosition entry) (MotionEntry.downTime entry)
    (MotionEntry.pointers entry) INVALID_POINTER_INDEX hovering (MotionEntry.policyFlags entry).

Definition addMotionMemento (s : t) (entry : MotionEntry.t) (flags : Z) (hovering : bool) : t :=
  s <| mMotionMementos := mMotionMementos s ++ [motion_memento entry flags hovering] |>.

(** *** Tracking *)

(** whether the event is consistent and is to be delivered, and the state after it *)
Definition trackKey (s : t) (entry : KeyEntry.t) (action flags : Z) : bool * t :=
  if action =? AKEY_EVENT_ACTION_UP then
    let s := if has (KeyEntry.flags entry) AKEY_EVENT_FLAG_FALLBACK
             then s <| mFallbackKeys := filter (fun kv => kv.2 <> KeyEntry.keyCode entry) (mFallbackKeys s) |> else s in
    (true, s <| mKeyMementos := erase (findKeyMemento s entry) (mKeyMementos s) |>)
  else if action =? AKEY_EVENT_ACTION_DOWN then
    let s := s <| mKeyMementos := erase (findKeyMemento s entry) (mKeyMementos s) |> in
    (true, addKeyMemento s entry flags)
  else (true, s).

Section Track.
Context `{B64 : BitSet64.ops}.

(** [entry.pointerCoords[0].isEmpty()]; an entry has at least one pointer *)
Definition first_empty (entry : MotionEntry.t) : bool := match MotionEntry.pointers entry with p :: _ => PointerCoords.isEmpty (coord p) | [] => true end.

Definition track_move (s : t) (entry : MotionEntry.t) (flags : Z) : bool * t :=
  if has (MotionEntry.source entry) AINPUT_SOURCE_CLASS_NAVIGATION then (true, s)
  else
    let index := findMotionMemento s entry false in
    if has (MotionEntry.source entry) AINPUT_SOURCE_CLASS_JOYSTICK then
      (true,
        match index with
        | Some i =>
          if first_empty entry then s <| mMotionMementos := delete i (mMotionMementos s) |>
          else s <| mMotionMementos := alter (fun m => MotionMemento.setPointers m entry) i (mMotionMementos s) |>
        | None => if first_empty entry then s else addMotionMemento s entry flags false
        end)
    else
      match index with
      | Some i =>
        match mMotionMementos s !! i with
        | Some m =>
          if MotionMemento.firstNewPointerIdx m <? 0 then (true, s <| mMotionMementos := <[i := MotionMemento.setPointers m entry]> (mMotionMementos s) |>)
          else (false, s)
        | None => (false, s)
        end
      | None => (false, s)
      end.

(** the end of a motion: it is erased if it was under way *)
Definition track_end (s : t) (entry : MotionEntry.t) (hovering : bool) : bool * t :=
  match findMotionMemento s entry hovering with
  | Some i => (true, s <| mMotionMementos := delete i (mMotionMementos s) |>)
  | None => (false, s)
  end.

(** the beginning of a motion *)
Definition track_begin (s : t) (entry : MotionEntry.t) (flags : Z) (hovering : bool) : bool * t :=
  let s := s <| mMotionMementos := erase (findMotionMemento s entry hovering) (mMotionMementos s) |> in
  (true, addMotionMemento s entry flags hovering).

Definition trackMotion (s : t) (entry : MotionEntry.t) (action flags : Z) : bool * t :=
  let actionMasked := Z.land action AMOTION_EVENT_ACTION_MASK in
  if bool_decide (actionMasked ∈ [AMOTION_EVENT_ACTION_UP; AMOTION_EVENT_ACTION_CANCEL]) then track_end s entry false
  else if actionMasked =? AMOTION_EVENT_ACTION_DOWN then track_begin s entry flags false
  else if bool_decide (actionMasked ∈ [AMOTION_EVENT_ACTION_POINTER_UP; AMOTION_EVENT_ACTION_POINTER_DOWN; AMOTION_EVENT_ACTION_MOVE]) then track_move s entry flags
  else if actionMasked =? AMOTION_EVENT_ACTION_HOVER_EXIT then track_end s entry true
  else if bool_decide (actionMasked ∈ [AMOTION_EVENT_ACTION_HOVER_ENTER; AMOTION_EVENT_ACTION_HOVER_MOVE]) then track_begin s entry flags true
  else (true, s).

End Track.

(** *** Cancelation *)

Definition matches (wanted : option Z) (value : Z) : bool := match wanted with Some w => value =? w | None => true end.

Definition shouldCancelKey (m : KeyMemento.t) (options : CancelationOptions.t) : bool :=
  matches (CancelationOptions.keyCode options) (KeyMemento.keyCode m) && matches (CancelationOptions.deviceId options) (KeyMemento.deviceId m) &&
  matches (CancelationOptions.displayId options) (KeyMemento.displayId m) &&
  match CancelationOptions.mode options with
  | CancelationOptions.CANCEL_ALL_EVENTS | CancelationOptions.CANCEL_NON_POINTER_EVENTS => true
  | CancelationOptions.CANCEL_FALLBACK_EVENTS => has (KeyMemento.flags m) AKEY_EVENT_FLAG_FALLBACK
  | _ => false
  end.

Definition shouldCancelMotion (m : MotionMemento.t) (options : CancelationOptions.t) : bool :=
  matches (CancelationOptions.deviceId options) (MotionMemento.deviceId m) && matches (CancelationOptions.displayId options) (MotionMemento.displayId m) &&
  match CancelationOptions.mode options with
  | CancelationOptions.CANCEL_ALL_EVENTS => true
  | CancelationOptions.CANCEL_POINTER_EVENTS => has (MotionMemento.source m) AINPUT_SOURCE_CLASS_POINTER
  | CancelationOptions.CANCEL_NON_POINTER_EVENTS => negb (has (MotionMemento.source m) AINPUT_SOURCE_CLASS_POINTER)
  | _ => false
  end.

Definition cancel_key (currentTime eventId : Z) (m : KeyMemento.t) : KeyEntry.t :=
  KeyEntry.mk eventId currentTime (KeyMemento.policyFlags m) (KeyMemento.deviceId m) (KeyMemento.source m) (KeyMemento.displayId m)
    AKEY_EVENT_ACTION_UP (Z.lor (KeyMemento.flags m) AKEY_EVENT_FLAG_CANCELED) (KeyMemento.keyCode m) (KeyMemento.scanCode m) (KeyMemento.metaState m) 0 (KeyMemento.downTime m) None.

(** a motion event made from a memento *)
Definition motion_event (currentTime eventId action : Z) (pointers : list pointer) (m : MotionMemento.t) : MotionEntry.t :=
  MotionEntry.mk eventId currentTime (MotionMemento.policyFlags m) (MotionMemento.deviceId m) (MotionMemento.source m) (MotionMemento.displayId m)
    action 0 (MotionMemento.flags m) 0 0 0 0 (MotionMemento.xPrecision m) (MotionMemento.yPrecision m) (MotionMemento.xCursorPosition m) (MotionMemento.yCursorPosition m)
    (MotionMemento.downTime m) pointers None.

Definition cancel_motion (currentTime eventId : Z) (m : MotionMemento.t) : MotionEntry.t :=
  motion_event currentTime eventId (if MotionMemento.hovering m then AMOTION_EVENT_ACTION_HOVER_EXIT else AMOTION_EVENT_ACTION_CANCEL) (MotionMemento.pointers m) m.

(** [nextId i] is the id of the [i]-th event that is made. *)
Definition synthesizeCancelationEvents (s : t) (currentTime : Z) (options : CancelationOptions.t) (nextId : nat -> Z) : list EventEntry :=
  let keys := filter (fun m => shouldCancelKey m options = true) (mKeyMementos s) in
  let motions := filter (fun m => shouldCancelMotion m options = true) (mMotionMementos s) in
  imap (fun i m => Key (cancel_key currentTime (nextId i) m)) keys ++
  imap (fun i m => Motion (cancel_motion currentTime (nextId (length keys + i)%nat) m)) motions.

(** *** Pointers that a window does not know yet *)

(** the event that tells of the pointer [i] *)
Definition pointer_down (currentTime eventId : Z) (m : MotionMemento.t) (i : nat) : MotionEntry.t :=
  let pointerCount := Z.of_nat (S i) in
  let action := if pointerCount <=? 1 then AMOTION_EVENT_ACTION_DOWN
                else Z.lor AMOTION_EVENT_ACTION_POINTER_DOWN (Z.shiftl (Z.of_nat i) AMOTION_EVENT_ACTION_POINTER_INDEX_SHIFT) in
  motion_event currentTime eventId action (take (S i) (MotionMemento.pointers m)) m.

Definition needs_down (m : MotionMemento.t) : bool :=
  has (MotionMemento.source m) AINPUT_SOURCE_CLASS_POINTER && (0 <=? MotionMemento.firstNewPointerIdx m).

Definition down_events (currentTime : Z) (nextId : nat -> Z) (m : MotionMemento.t) : list MotionEntry.t :=
  let first := Z.to_nat (MotionMemento.firstNewPointerIdx m) in
  map (fun i => pointer_down currentTime (nextId i) m i) (seq first (length (MotionMemento.pointers m) - first)).

(** [nextId j i]: the id for the pointer [i] of the memento [j] *)
Definition synthesizePointerDownEvents (s : t) (currentTime : Z) (nextId : nat -> nat -> Z) : list MotionEntry.t * t :=
  (concat (imap (fun j m => if needs_down m then down_events currentTime (nextId j) m else []) (mMotionMementos s)),
   s <| mMotionMementos := map (fun m => if needs_down m then m <| MotionMemento.firstNewPointerIdx := INVALID_POINTER_INDEX |> else m) (mMotionMementos s) |>).

(** *** Merging *)

Definition same_device (m other : MotionMemento.t) : bool :=
  (MotionMemento.deviceId m =? MotionMemento.deviceId other) && (MotionMemento.source m =? MotionMemento.source other) && (MotionMemento.displayId m =? MotionMemento.displayId other).

Definition merge_memento (m : MotionMemento.t) (others : list MotionMemento.t) : option (list MotionMemento.t) :=
  match find_index (same_device m) others with
  | Some j =>
    other ← others !! j;
    merged ← MotionMemento.mergePointerStateTo m other;
    Some (<[j := merged]> others)
  | None => Some (others ++ [m <| MotionMemento.firstNewPointerIdx := 0 |>])
  end.

(** The mementos of [this] and of [other] after the merge; those that are copied are
    marked as new in [this] too. *)
Fixpoint merge_mementos (ms others : list MotionMemento.t) : option (list MotionMemento.t * list MotionMemento.t) :=
  match ms with
  | [] => Some ([], others)
  | m :: ms' =>
    if has (MotionMemento.source m) AINPUT_SOURCE_CLASS_POINTER then
      others' ← merge_memento m others;
      r ← merge_mementos ms' others';
      let m := match find_index (same_device m) others with Some _ => m | None => m <| MotionMemento.firstNewPointerIdx := 0 |> end in
      Some (m :: r.1, r.2)
    else r ← merge_mementos ms' others; Some (m :: r.1, r.2)
  end.

(** both states; they are those of different connections *)
Definition mergePointerStateTo (s other : t) : option (t * t) :=
  r ← merge_mementos (mMotionMementos s) (mMotionMementos other);
  Some (s <| mMotionMementos := r.1 |>, other <| mMotionMementos := r.2 |>).

(** *** The rest *)

Definition clear (s : t) : t := new.

Definition getFallbackKey (s : t) (originalKeyCode : Z) : Z := default (-1) (mFallbackKeys s !! originalKeyCode).
Definition setFallbackKey (s : t) (originalKeyCode fallbackKeyCode : Z) : t := s <| mFallbackKeys := <[originalKeyCode := fallbackKeyCode]> (mFallbackKeys s) |>.
Definition removeFallbackKey (s : t) (originalKeyCode : Z) : t := s <| mFallbackKeys := delete originalKeyCode (mFallbackKeys s) |>.

End InputState.

(** ** The windows of a touch (TouchState.cpp) *)

Module TouchState.

(** a window handle is known by a number; its token and flags are what its info says *)
Record TouchedWindow := touched { windowHandle : Z; targetFlags : Z; pointerIds : Z }.

(** a gesture monitor, with the offset of the portal it watches through (Monitor.h) *)
Record TouchedMonitor := touched_monitor { monitor : InputChannel.t; xOffset : float32; yOffset : float32 }.

Record t := mk { down : bool; split : bool; deviceId : Z; source : Z; displayId : Z; windows : list TouchedWindow; portalWindows : list Z; gestureMonitors : list TouchedMonitor }.

Definition eta (s : t) : t := mk (down s) (split s) (deviceId s) (source s) (displayId s) (windows s) (portalWindows s) (gestureMonitors s).
#[global] Instance set_down : Setter down := ltac:(setter_of eta down).
#[global] Instance set_deviceId : Setter deviceId := ltac:(setter_of eta deviceId).
#[global] Instance set_source : Setter source := ltac:(setter_of eta source).
#[global] Instance set_displayId : Setter displayId := ltac:(setter_of eta displayId).
#[global] Instance set_split : Setter split := ltac:(setter_of eta split).
#[global] Instance set_windows : Setter windows := ltac:(setter_of eta windows).
#[global] Instance set_portalWindows : Setter portalWindows := ltac:(setter_of eta portalWindows).
#[global] Instance set_gestureMonitors : Setter gestureMonitors := ltac:(setter_of eta gestureMonitors).

Definition ADISPLAY_ID_NONE : Z := -1.

Definition new : t := mk false false (-1) 0 ADISPLAY_ID_NONE [] [] [].
Definition reset (s : t) : t := new.
Definition copyFrom (s other : t) : t :=
  mk (down other) (split other) (deviceId other) (source other) (displayId other) (windows other) (portalWindows other) (gestureMonitors other).

(** the flags of a window that is touched again *)
Definition update_window (flags pointers : Z) (w : TouchedWindow) : TouchedWindow :=
  let newFlags := Z.lor (targetFlags w) flags in
  touched (windowHandle w)
    (if has flags InputTarget.FLAG_DISPATCH_AS_SLIPPERY_EXIT then Z.ldiff newFlags InputTarget.FLAG_DISPATCH_AS_IS else newFlags)
    (Z.lor (pointerIds w) pointers).

Fixpoint add_or_update (handle flags pointers : Z) (ws : list TouchedWindow) : list TouchedWindow :=
  match ws with
  | [] => [touched handle flags pointers]
  | w :: ws' => if windowHandle w =? handle then update_window flags pointers w :: ws' else w :: add_or_update handle flags pointers ws'
  end.

Definition addOrUpdateWindow (s : t) (handle flags pointers : Z) : t :=
  let s := if has flags InputTarget.FLAG_SPLIT then s <| split := true |> else s in
  s <| windows := add_or_update handle flags pointers (windows s) |>.

Definition addPortalWindow (s : t) (handle : Z) : t :=
  if bool_decide (handle ∈ portalWindows s) then s else s <| portalWindows := portalWindows s ++ [handle] |>.

Definition addGestureMonitors (s : t) (newMonitors : list TouchedMonitor) : t := s <| gestureMonitors := gestureMonitors s ++ newMonitors |>.

Definition filterNonAsIsTouchWindows (s : t) : t :=
  s <| windows :=
    omap (fun w =>
      if has (targetFlags w) (Z.lor InputTarget.FLAG_DISPATCH_AS_IS InputTarget.FLAG_DISPATCH_AS_SLIPPERY_ENTER)
      then Some (touched (windowHandle w) (Z.lor (Z.ldiff (targetFlags w) InputTarget.FLAG_DISPATCH_MASK) InputTarget.FLAG_DISPATCH_AS_IS) (pointerIds w))
      else None) (windows s) |>.

Definition filterNonMonitors (s : t) : t := s <| windows := [] |> <| portalWindows := [] |>.

Definition getFirstForegroundWindowHandle (s : t) : option Z :=
  windowHandle <$> head (filter (fun w => has (targetFlags w) InputTarget.FLAG_FOREGROUND = true) (windows s)).

Section Info.

(** [windowHandle->getToken()] and whether [FLAG_SLIPPERY] is set in its layout flags *)
Context (getToken : Z -> Z) (slippery : Z -> bool).

Definition removeWindowByToken (s : t) (token : Z) : t :=
  s <| windows := InputState.erase (InputState.find_index (fun w => getToken (windowHandle w) =? token) (windows s)) (windows s) |>.

Fixpoint slippery_loop (haveSlipperyForegroundWindow : bool) (ws : list TouchedWindow) : bool :=
  match ws with
  | [] => haveSlipperyForegroundWindow
  | w :: ws' =>
    if has (targetFlags w) InputTarget.FLAG_FOREGROUND
    then if haveSlipperyForegroundWindow || negb (slippery (windowHandle w)) then false else slippery_loop true ws'
    else slippery_loop haveSlipperyForegroundWindow ws'
  end.

Definition isSlippery (s : t) : bool := slippery_loop false (windows s).

End Info.

End TouchState.
