(* ===== verification/InputProtocol.v ===== *)
(** * The protocol of motion events

    What an application may rely on in the stream of events of its window: a touch is
    moved, ended or canceled only after it has begun, a hover likewise. The [stream] below
    is the state of an observer of the events, and the tracked state of InputState.v is
    shown to be that of the observer. Joysticks, whose moves need no beginning, are not
    observed, and moves of navigation devices are always allowed, as in the code. *)

From S2P Require Import Prelude PointerCoords InputEvents InputState.

(** ** The observer *)

(** a device: its id, source and display *)
Definition device : Type := Z * Z * Z.

Record stream := observed { touching : gset device; hovering : gset device }.

Definition stream_empty : stream := observed ∅ ∅.

Definition source_of (dev : device) : Z := dev.1.2.

Definition may (b : bool) (s : stream) : option stream := if b then Some s else None.

(** [None]: the event does not follow the protocol *)
Definition observe (s : stream) (dev : device) (action : Z) : option stream :=
  let masked := Z.land action AMOTION_EVENT_ACTION_MASK in
  if has (source_of dev) AINPUT_SOURCE_CLASS_JOYSTICK then Some s
  else if bool_decide (masked ∈ [AMOTION_EVENT_ACTION_UP; AMOTION_EVENT_ACTION_CANCEL])
  then may (bool_decide (dev ∈ touching s)) (observed (touching s ∖ {[dev]}) (hovering s))
  else if masked =? AMOTION_EVENT_ACTION_DOWN then Some (observed ({[dev]} ∪ touching s) (hovering s))
  else if bool_decide (masked ∈ [AMOTION_EVENT_ACTION_POINTER_UP; AMOTION_EVENT_ACTION_POINTER_DOWN; AMOTION_EVENT_ACTION_MOVE])
  then may (has (source_of dev) AINPUT_SOURCE_CLASS_NAVIGATION || bool_decide (dev ∈ touching s)) s
  else if masked =? AMOTION_EVENT_ACTION_HOVER_EXIT then may (bool_decide (dev ∈ hovering s)) (observed (touching s) (hovering s ∖ {[dev]}))
  else if bool_decide (masked ∈ [AMOTION_EVENT_ACTION_HOVER_ENTER; AMOTION_EVENT_ACTION_HOVER_MOVE])
  then may (negb (action =? AMOTION_EVENT_ACTION_HOVER_MOVE) || bool_decide (dev ∈ hovering s)) (observed (touching s) ({[dev]} ∪ hovering s))
  else Some s.

(** the observer's view of an event: its device and action, if it is a motion *)
Fixpoint observe_all (s : stream) (l : list (option (device * Z))) : option stream :=
  match l with
  | [] => Some s
  | None :: l' => observe_all s l'
  | Some (dev, action) :: l' => s ← observe s dev action; observe_all s l'
  end.

Lemma observe_all_app s l l' : observe_all s (l ++ l') = s' ← observe_all s l; observe_all s' l'.
Proof.
  revert s; induction l as [|[[dev a]|] l IH]; intros s; simpl; [done| |apply IH].
  destruct (observe s dev a); simpl; [apply IH|done].
Qed.

Lemma observe_all_prefix s l l' : is_Some (observe_all s (l ++ l')) -> is_Some (observe_all s l).
Proof. rewrite observe_all_app. destruct (observe_all s l); [by eexists|]. by intros [? [=]]. Qed.

(** ** Lists *)

Section Lists.
Context {A : Type}.
Implicit Types (f : A -> bool) (l : list A).

Lemma find_index_Some f l i : InputState.find_index f l = Some i -> exists x, l !! i = Some x /\ f x = true.
Proof.
  revert i; induction l as [|x l IH]; intros i; simpl; [done|]. destruct (f x) eqn:E; [intros [= <-]; eauto|].
  destruct (InputState.find_index f l) as [j|]; [|done]. intros [= <-]. simpl. eauto.
Qed.

Lemma find_index_None f l : InputState.find_index f l = None -> forall x, x ∈ l -> f x = false.
Proof.
  induction l as [|x l IH]; simpl; intros E y Hy; [set_solver|]. destruct (f x) eqn:Ef; [done|].
  destruct (InputState.find_index f l); [done|]. apply elem_of_cons in Hy as [->|Hy]; auto.
Qed.

Lemma find_index_is_Some f l x : x ∈ l -> f x = true -> exists i, InputState.find_index f l = Some i.
Proof.
  intros Hx Hf. destruct (InputState.find_index f l) eqn:E; [eauto|]. rewrite (find_index_None f l E x Hx) in Hf. done.
Qed.

Lemma delete_sub l i y : y ∈ delete i l -> y ∈ l.
Proof. revert i; induction l as [|x l IH]; intros [|i]; simpl; rewrite ?elem_of_cons; naive_solver. Qed.

(** In a list with distinct keys, taking out an element takes out its key. *)
Lemma elem_of_delete {K} (key : A -> K) l i x y : NoDup (map key l) -> l !! i = Some x -> y ∈ delete i l <-> y ∈ l /\ key y <> key x.
Proof.
  revert i; induction l as [|z l IH]; intros i Hnd Hi; [done|]. simpl in Hnd. apply NoDup_cons in Hnd as [Hz Hnd].
  destruct i as [|i]; simpl in *.
  - injection Hi as ->. split.
    + intros Hy. split; [set_solver|]. intros E. apply Hz. rewrite <- E. apply elem_of_map. eauto.
    + intros [[->|Hy]%elem_of_cons Hne]; done.
  - rewrite !elem_of_cons, (IH i) by done. split; [|naive_solver].
    intros [->|[Hy Hne]]; [|naive_solver]. split; [by left|]. intros E. apply Hz. rewrite E. apply elem_of_map. exists x. split; [|done].
    by eapply list_elem_of_lookup_2.
Qed.

Lemma NoDup_map_delete {K} (key : A -> K) l i : NoDup (map key l) -> NoDup (map key (delete i l)).
Proof.
  revert i; induction l as [|z l IH]; intros i Hnd; [done|]. simpl in Hnd. apply NoDup_cons in Hnd as [Hz Hnd].
  destruct i as [|i]; simpl; [done|]. constructor; [|by apply IH].
  intros (y & Hy & E)%elem_of_map. apply Hz. rewrite E. apply elem_of_map. exists y. split; [|done]. by eapply delete_sub.
Qed.

Lemma map_alter_key {K} (key : A -> K) (f : A -> A) i l : (forall x, key (f x) = key x) -> map key (alter f i l) = map key l.
Proof.
  intros Hf. revert i; induction l as [|x l IH]; intros i; [by destruct i|]. destruct i as [|i]; simpl; [by rewrite Hf|].
  f_equal. apply IH.
Qed.

Lemma map_insert_key {K} (key : A -> K) i l x y : l !! i = Some y -> key x = key y -> map key (<[i := x]> l) = map key l.
Proof.
  intros Hi Hk. revert i Hi; induction l as [|z l IH]; intros i Hi; [done|]. destruct i as [|i]; simpl in *; [by injection Hi as ->; rewrite Hk|].
  f_equal. by apply IH.
Qed.

End Lists.

(** ** The tracked state *)

(** what tells mementos apart *)
Definition memento_device (m : MotionMemento.t) : device := (MotionMemento.deviceId m, MotionMemento.source m, MotionMemento.displayId m).
Definition memento_key (m : MotionMemento.t) : device * bool := (memento_device m, MotionMemento.hovering m).
Definition entry_device (e : MotionEntry.t) : device := (MotionEntry.deviceId e, MotionEntry.source e, MotionEntry.displayId e).
Definition key_key (m : KeyMemento.t) : Z * Z * Z * Z * Z :=
  (KeyMemento.deviceId m, KeyMemento.source m, KeyMemento.displayId m, KeyMemento.keyCode m, KeyMemento.scanCode m).
Definition entry_key (e : KeyEntry.t) : Z * Z * Z * Z * Z :=
  (KeyEntry.deviceId e, KeyEntry.source e, KeyEntry.displayId e, KeyEntry.keyCode e, KeyEntry.scanCode e).

(** No two mementos are of the same device or key, every motion has pointers, and none of
    them is new to the window. *)
Definition distinct (s : InputState.t) : Prop :=
  NoDup (map memento_key (InputState.mMotionMementos s)) /\ NoDup (map key_key (InputState.mKeyMementos s)).
Definition settled (m : MotionMemento.t) : Prop := MotionMemento.pointers m <> [] /\ MotionMemento.firstNewPointerIdx m < 0.
Definition tracked_ok (s : InputState.t) : Prop := distinct s /\ Forall settled (InputState.mMotionMementos s).

(** the devices of the mementos *)
Definition observed_devices (h : bool) (ms : list MotionMemento.t) : gset device :=
  list_to_set (map memento_device (filter (fun m => MotionMemento.hovering m = h /\ has (MotionMemento.source m) AINPUT_SOURCE_CLASS_JOYSTICK = false) ms)).

(** the observer's state that a tracked state stands for *)
Definition view (s : InputState.t) : stream :=
  observed (observed_devices false (InputState.mMotionMementos s)) (observed_devices true (InputState.mMotionMementos s)).

Lemma elem_of_observed h ms dev :
  dev ∈ observed_devices h ms <-> has (source_of dev) AINPUT_SOURCE_CLASS_JOYSTICK = false /\ exists m, m ∈ ms /\ memento_key m = (dev, h).
Proof.
  unfold observed_devices. rewrite elem_of_list_to_set, elem_of_map. split.
  - intros (m & Hm & ->). apply list_elem_of_filter in Hm as [[E1 E2] Hm]. split; [done|]. exists m. unfold memento_key. by rewrite E1.
  - intros (Hj & m & Hm & [= E1 E2]). exists m. split; [|done]. apply list_elem_of_filter. subst dev. done.
Qed.

Lemma same_motion_spec e h m : InputState.same_motion e h m = true <-> memento_key m = (entry_device e, h).
Proof.
  unfold InputState.same_motion, memento_key, memento_device, entry_device. rewrite !andb_true_iff, !Z.eqb_eq, Bool.eqb_true_iff.
  split; [intros [[[-> ->] ->] ->]; done|intros E; injection E; auto].
Qed.

Lemma same_key_spec e m : InputState.same_key e m = true <-> key_key m = entry_key e.
Proof. 
  unfold InputState.same_key, key_key, entry_key. rewrite !andb_true_iff, !Z.eqb_eq.
  split; [intros [[[[-> ->] ->] ->] ->]; done|intros E; injection E; auto].
Qed.

Lemma find_motion_Some s e h i : InputState.findMotionMemento s e h = Some i ->
  exists m, InputState.mMotionMementos s !! i = Some m /\ memento_key m = (entry_device e, h).
Proof. intros (m & Hm & E%same_motion_spec)%find_index_Some. eauto. Qed.

Lemma find_motion_None s e h : InputState.findMotionMemento s e h = None -> forall m, m ∈ InputState.mMotionMementos s -> memento_key m <> (entry_device e, h).
Proof. intros E m Hm Hk%same_motion_spec. unfold InputState.findMotionMemento in E. by rewrite (find_index_None _ _ E m Hm) in Hk. Qed.

Lemma find_motion_view s e h :
  has (MotionEntry.source e) AINPUT_SOURCE_CLASS_JOYSTICK = false ->
  is_Some (InputState.findMotionMemento s e h) <-> entry_device e ∈ observed_devices h (InputState.mMotionMementos s).
Proof.
  intros Hj. rewrite elem_of_observed. split.
  - intros [i (m & Hm & Hk)%find_motion_Some]. split; [done|]. exists m. split; [by eapply list_elem_of_lookup_2|done].
  - intros (_ & m & Hm & Hk%same_motion_spec). by apply (find_index_is_Some _ _ m).
Qed.

(** *** How the observed devices change *)

Lemma observed_keys h ms ms' : map memento_key ms = map memento_key ms' -> observed_devices h ms = observed_devices h ms'.
Proof.
  intros E. assert (Hin : forall k, (exists m, m ∈ ms /\ memento_key m = k) <-> (exists m, m ∈ ms' /\ memento_key m = k)).
  { intros k. setoid_rewrite (eq_comm _ k). rewrite <- !elem_of_map. by rewrite E. }
  apply set_eq. intros dev. by rewrite !elem_of_observed, Hin.
Qed.

Lemma observed_delete ms i m dev h h' : NoDup (map memento_key ms) -> ms !! i = Some m -> memento_key m = (dev, h) ->
  observed_devices h' (delete i ms) = if Bool.eqb h' h then observed_devices h' ms ∖ {[dev]} else observed_devices h' ms.
Proof.
  intros Hnd Hi Hk. apply set_eq. intros dev'. rewrite elem_of_observed. setoid_rewrite (elem_of_delete memento_key ms i m); [|done..]. rewrite Hk.
  destruct (Bool.eqb h' h) eqn:E; [apply eqb_prop in E as ->; rewrite elem_of_difference, elem_of_singleton|apply eqb_false_iff in E]; rewrite elem_of_observed; naive_solver congruence.
Qed.

Lemma memento_key_eq m dev h : memento_key m = (dev, h) <-> memento_device m = dev /\ MotionMemento.hovering m = h.
Proof. unfold memento_key. split; [intros E; injection E; auto|intros [-> ->]; done]. Qed.

Lemma observed_add ms m h : observed_devices h (ms ++ [m]) =
  if Bool.eqb h (MotionMemento.hovering m) && negb (has (MotionMemento.source m) AINPUT_SOURCE_CLASS_JOYSTICK)
  then {[memento_device m]} ∪ observed_devices h ms else observed_devices h ms.
Proof.
  assert (H : forall dev, dev ∈ observed_devices h (ms ++ [m]) <->
    dev ∈ observed_devices h ms \/ (dev = memento_device m /\ h = MotionMemento.hovering m /\ has (MotionMemento.source m) AINPUT_SOURCE_CLASS_JOYSTICK = false)).
  { intros dev. rewrite !elem_of_observed. setoid_rewrite elem_of_app. setoid_rewrite list_elem_of_singleton. setoid_rewrite memento_key_eq. split.
    - intros (Hj & m' & [Hm| ->] & <- & <-); [left; eauto|right; done].
    - intros [(Hj & m' & Hm & Hk)|(-> & -> & Hj)]; (split; [done|]); eauto 6. }
  apply set_eq. intros dev. rewrite H.
  destruct (Bool.eqb h _) eqn:E1, (has (MotionMemento.source m) _) eqn:E2; simpl; rewrite ?elem_of_union, ?elem_of_singleton;
    rewrite ?eqb_true_iff, ?eqb_false_iff in E1; intuition congruence.
Qed.

(** *** Tracking *)

Lemma distinct_add ms m : NoDup (map memento_key ms) -> (forall m', m' ∈ ms -> memento_key m' <> memento_key m) -> NoDup (map memento_key (ms ++ [m])).
Proof.
  intros Hnd Hne. rewrite map_app. apply NoDup_app. split; [done|]. split; [|apply NoDup_singleton].
  intros k (m' & Hm & ->)%elem_of_map Hk%list_elem_of_singleton. by apply (Hne m').
Qed.

Lemma erase_none e h s : forall m, NoDup (map memento_key (InputState.mMotionMementos s)) ->
  m ∈ InputState.erase (InputState.findMotionMemento s e h) (InputState.mMotionMementos s) -> memento_key m <> (entry_device e, h).
Proof.
  intros m Hnd Hm. destruct (InputState.findMotionMemento s e h) as [i|] eqn:E; simpl in Hm; [|by apply (find_motion_None s)].
  apply find_motion_Some in E as (m' & Hi & Hk). apply (elem_of_delete memento_key _ i m') in Hm as [_ Hne]; [congruence|done..].
Qed.

(** the state without the memento of the entry *)
Lemma observed_erase s e h h' : NoDup (map memento_key (InputState.mMotionMementos s)) ->
  observed_devices h' (InputState.erase (InputState.findMotionMemento s e h) (InputState.mMotionMementos s)) =
  if Bool.eqb h' h then observed_devices h' (InputState.mMotionMementos s) ∖ {[entry_device e]} else observed_devices h' (InputState.mMotionMementos s).
Proof.
  intros Hnd. destruct (InputState.findMotionMemento s e h) as [i|] eqn:E; simpl.
  - apply find_motion_Some in E as (m & Hi & Hk). by apply (observed_delete _ i m).
  - destruct (Bool.eqb h' h) eqn:Eh; [|done]. apply eqb_prop in Eh as ->. apply set_eq. intros dev. rewrite elem_of_difference, elem_of_singleton.
    split; [|naive_solver]. intros Hd. split; [done|]. intros ->. apply elem_of_observed in Hd as (_ & m & Hm & Hk). by apply (find_motion_None s e h E m Hm).
Qed.

Lemma settled_erase s i : Forall settled (InputState.mMotionMementos s) -> Forall settled (InputState.erase i (InputState.mMotionMementos s)).
Proof. rewrite !Forall_forall. destruct i; simpl; intros Hs m Hm; [|auto]. apply Hs. by eapply delete_sub. Qed.

Lemma NoDup_erase {A K} (key : A -> K) i l : NoDup (map key l) -> NoDup (map key (InputState.erase i l)).
Proof. destruct i; simpl; [apply NoDup_map_delete|done]. Qed.

(** The mementos with [ms] in place of the motions. *)
Lemma tracked_motions s ms : tracked_ok s -> NoDup (map memento_key ms) -> Forall settled ms -> tracked_ok (s <| InputState.mMotionMementos := ms |>).
Proof. intros [[_ Hk] _] Hnd Hs. done. Qed.

Section Track.
Context `{B64 : BitSet64.ops}.

Lemma track_end_view s e h : tracked_ok s -> let r := InputState.track_end s e h in
  tracked_ok r.2 /\
  (r.1 = true -> entry_device e ∈ observed_devices h (InputState.mMotionMementos s) \/ has (MotionEntry.source e) AINPUT_SOURCE_CLASS_JOYSTICK = true) /\
  (r.1 = false -> r.2 = s) /\
  (forall h', observed_devices h' (InputState.mMotionMementos r.2) =
     if Bool.eqb h' h then observed_devices h' (InputState.mMotionMementos s) ∖ {[entry_device e]} else observed_devices h' (InputState.mMotionMementos s)).
Proof.
  intros Hok. pose proof Hok as [[Hnd Hkeys] Hset]. pose proof (observed_erase s e h) as Hobs. unfold InputState.track_end.
  destruct (InputState.findMotionMemento s e h) as [i|] eqn:E; simpl in *.
  - split; [apply tracked_motions; [done|by apply NoDup_map_delete|by apply (settled_erase s (Some i))]|]. split; [|split; [done|auto]].
    intros _. destruct (has (MotionEntry.source e) AINPUT_SOURCE_CLASS_JOYSTICK) eqn:Hj; [by right|left]. apply find_motion_view; [done|by rewrite E].
  - split; [done|]. split; [done|]. split; [done|auto].
Qed.

Lemma track_begin_view s e flags h : tracked_ok s -> MotionEntry.pointers e <> [] -> let r := InputState.track_begin s e flags h in
  tracked_ok r.2 /\ r.1 = true /\
  (forall h', observed_devices h' (InputState.mMotionMementos r.2) =
     if Bool.eqb h' h && negb (has (MotionEntry.source e) AINPUT_SOURCE_CLASS_JOYSTICK)
     then {[entry_device e]} ∪ observed_devices h' (InputState.mMotionMementos s) else observed_devices h' (InputState.mMotionMementos s)).
Proof.
  intros Hok Hp. pose proof Hok as [[Hnd Hkeys] Hset]. simpl. split.
  - apply (tracked_motions s); [done| |].
    + apply distinct_add; [by apply NoDup_erase|]. intros m Hm. by apply (erase_none e h s).
    + apply Forall_app. split; [by apply settled_erase|]. constructor; [|done]. split; [done|simpl; unfold INVALID_POINTER_INDEX; lia].
  - split; [done|]. intros h'. unfold InputState.addMotionMemento. cbn [InputState.mMotionMementos with_field InputState.set_mMotionMementos].
    rewrite observed_add, observed_erase by done. change (MotionMemento.hovering (InputState.motion_memento e flags h)) with h.
    change (MotionMemento.source (InputState.motion_memento e flags h)) with (MotionEntry.source e).
    change (memento_device (InputState.motion_memento e flags h)) with (entry_device e).
    destruct (Bool.eqb h' h) eqn:Eh, (has (MotionEntry.source e) AINPUT_SOURCE_CLASS_JOYSTICK) eqn:Hj; simpl; try done.
    + apply set_eq. intros dev. rewrite elem_of_difference, elem_of_singleton. split; [naive_solver|]. intros Hd. split; [done|].
      intros ->. apply elem_of_observed in Hd as [Hd _]. unfold source_of, entry_device in Hd. simpl in Hd. congruence.
    + apply set_eq. intros dev. rewrite !elem_of_union, elem_of_difference, !elem_of_singleton. destruct (decide (dev = entry_device e)); naive_solver.
Qed.

Lemma joystick_unobserved e h ms : has (MotionEntry.source e) AINPUT_SOURCE_CLASS_JOYSTICK = true -> observed_devices h ms ∖ {[entry_device e]} = observed_devices h ms.
Proof.
  intros Hj. apply set_eq. intros dev. rewrite elem_of_difference, elem_of_singleton. split; [naive_solver|]. intros Hd. split; [done|].
  intros ->. apply elem_of_observed in Hd as [Hd _]. unfold source_of, entry_device in Hd. simpl in Hd. congruence.
Qed.

(** a state whose motions have the same keys *)
Lemma same_keys_view s ms : tracked_ok s -> map memento_key ms = map memento_key (InputState.mMotionMementos s) -> Forall settled ms ->
  let s' := s <| InputState.mMotionMementos := ms |> in tracked_ok s' /\ view s' = view s.
Proof.
  intros Hok Hk Hs. split; [apply tracked_motions; [done| |done]; rewrite Hk; apply Hok|].
  unfold view. simpl. by rewrite !(observed_keys _ _ _ Hk).
Qed.

Lemma settled_set_pointers m e : settled m -> MotionEntry.pointers e <> [] -> settled (MotionMemento.setPointers m e).
Proof. by intros [_ H] Hp. Qed.

Lemma track_joystick_view s e flags : tracked_ok s -> MotionEntry.pointers e <> [] ->
  has (MotionEntry.source e) AINPUT_SOURCE_CLASS_NAVIGATION = false -> has (MotionEntry.source e) AINPUT_SOURCE_CLASS_JOYSTICK = true ->
  let r := InputState.track_move s e flags in r.1 = true /\ tracked_ok r.2 /\ view r.2 = view s.
Proof.
  intros Hok Hp Hn Hj. pose proof Hok as [[Hnd Hkeys] Hset]. unfold InputState.track_move. rewrite Hn, Hj. simpl. split; [done|].
  destruct (InputState.findMotionMemento s e false) as [i|] eqn:E.
  - case_match.
    + pose proof (track_end_view s e false Hok) as (Hok' & _ & _ & Hv). unfold InputState.track_end in *. rewrite E in *. simpl in *. split; [done|].
      unfold view. simpl. rewrite !Hv. simpl. by rewrite joystick_unobserved.
    + apply same_keys_view; [done|by apply map_alter_key|].
      apply Forall_alter; [done|]. intros m Hm Hs. by apply settled_set_pointers.
  - case_match; [done|]. destruct (track_begin_view s e flags false Hok Hp) as (Hok' & _ & Hv). simpl in Hok', Hv. rewrite E in Hok', Hv. simpl in Hok', Hv.
    assert (Es : s <| InputState.mMotionMementos := InputState.mMotionMementos s |> = s) by by destruct s. rewrite Es in *. split; [done|].
    unfold view. rewrite !Hv, Hj. by rewrite !andb_false_r.
Qed.

Lemma track_move_view s e flags : tracked_ok s -> MotionEntry.pointers e <> [] -> let r := InputState.track_move s e flags in
  tracked_ok r.2 /\ view r.2 = view s /\ (r.1 = false -> r.2 = s) /\
  (r.1 = true -> has (MotionEntry.source e) AINPUT_SOURCE_CLASS_JOYSTICK = true \/ has (MotionEntry.source e) AINPUT_SOURCE_CLASS_NAVIGATION = true \/
     entry_device e ∈ observed_devices false (InputState.mMotionMementos s)).
Proof.
  intros Hok Hp. pose proof Hok as [[Hnd Hkeys] Hset].
  destruct (has (MotionEntry.source e) AINPUT_SOURCE_CLASS_NAVIGATION) eqn:Hn; [unfold InputState.track_move; rewrite Hn; simpl; tauto|].
  destruct (has (MotionEntry.source e) AINPUT_SOURCE_CLASS_JOYSTICK) eqn:Hj.
  { destruct (track_joystick_view s e flags Hok Hp Hn Hj) as (Hr & Hok' & Hv). simpl. rewrite Hr. split; [done|]. split; [done|]. split; [done|by left]. }
  unfold InputState.track_move. rewrite Hn, Hj. destruct (InputState.findMotionMemento s e false) as [i|] eqn:E; [|simpl; naive_solver].
  assert (Hin : entry_device e ∈ observed_devices false (InputState.mMotionMementos s)) by (apply find_motion_view; [done|by rewrite E]).
  apply find_motion_Some in E as (m & Hi & Hk). rewrite Hi.
  assert (Hm : settled m) by (by eapply Forall_lookup_1). rewrite (proj2 (Z.ltb_lt _ _) (proj2 Hm)). simpl.
  destruct (same_keys_view s (<[i := MotionMemento.setPointers m e]> (InputState.mMotionMementos s))) as [Hok' Hv]; [done|by eapply map_insert_key| |by intuition].
  apply Forall_insert; [done|by apply settled_set_pointers].
Qed.

Lemma isHovering_view s e : has (MotionEntry.source e) AINPUT_SOURCE_CLASS_JOYSTICK = false ->
  InputState.isHovering s (MotionEntry.deviceId e) (MotionEntry.source e) (MotionEntry.displayId e) = true -> entry_device e ∈ observed_devices true (InputState.mMotionMementos s).
Proof.
  intros Hj (m & Hm & E)%existsb_exists. apply elem_of_observed. split; [done|]. exists m. split; [by apply list_elem_of_In|].
  rewrite !andb_true_iff, !Z.eqb_eq in E. destruct E as [[[E1 E2] E3] E4]. apply memento_key_eq. unfold memento_device, entry_device. by rewrite E1, E2, E3.
Qed.

(** What is delivered follows the protocol, and the tracked state is the observer's;
    what is not delivered changes nothing. *)
Lemma trackMotion_view s e action flags : tracked_ok s -> MotionEntry.pointers e <> [] ->
  (action = AMOTION_EVENT_ACTION_HOVER_MOVE -> InputState.isHovering s (MotionEntry.deviceId e) (MotionEntry.source e) (MotionEntry.displayId e) = true) ->
  let r := InputState.trackMotion s e action flags in
  tracked_ok r.2 /\ (r.1 = true -> observe (view s) (entry_device e) action = Some (view r.2)) /\ (r.1 = false -> r.2 = s).
Proof.
  intros Hok Hp Hh. unfold InputState.trackMotion, observe. change (source_of (entry_device e)) with (MotionEntry.source e).
  set (masked := Z.land action AMOTION_EVENT_ACTION_MASK). simpl.
  destruct (bool_decide (masked ∈ [AMOTION_EVENT_ACTION_UP; AMOTION_EVENT_ACTION_CANCEL])).
  { destruct (track_end_view s e false Hok) as (Hok' & Hin & Hsame & Hv). split; [done|]. split; [|done]. intros Hr. unfold view. rewrite !Hv. simpl.
    destruct (has (MotionEntry.source e) AINPUT_SOURCE_CLASS_JOYSTICK) eqn:Hj; [by rewrite joystick_unobserved|].
    rewrite bool_decide_true; [done|]. by destruct (Hin Hr). }
  destruct (masked =? AMOTION_EVENT_ACTION_DOWN).
  { destruct (track_begin_view s e flags false Hok Hp) as (Hok' & Hr & Hv). split; [done|]. split; [|by rewrite Hr]. intros _. unfold view. rewrite !Hv.
    by destruct (has (MotionEntry.source e) AINPUT_SOURCE_CLASS_JOYSTICK). }
  destruct (bool_decide (masked ∈ [AMOTION_EVENT_ACTION_POINTER_UP; AMOTION_EVENT_ACTION_POINTER_DOWN; AMOTION_EVENT_ACTION_MOVE])).
  { destruct (track_move_view s e flags Hok Hp) as (Hok' & Hv & Hsame & Hin). split; [done|]. split; [|done]. intros Hr. rewrite Hv.
    destruct (has (MotionEntry.source e) AINPUT_SOURCE_CLASS_JOYSTICK) eqn:Hj; [done|].
    destruct (has (MotionEntry.source e) AINPUT_SOURCE_CLASS_NAVIGATION) eqn:Hn; [done|]. simpl. rewrite bool_decide_true; [done|]. by destruct (Hin Hr) as [?|[?|?]]. }
  destruct (masked =? AMOTION_EVENT_ACTION_HOVER_EXIT).
  { destruct (track_end_view s e true Hok) as (Hok' & Hin & Hsame & Hv). split; [done|]. split; [|done]. intros Hr. unfold view. rewrite !Hv. simpl.
    destruct (has (MotionEntry.source e) AINPUT_SOURCE_CLASS_JOYSTICK) eqn:Hj; [by rewrite joystick_unobserved|].
    rewrite bool_decide_true; [done|]. by destruct (Hin Hr). }
  destruct (bool_decide (masked ∈ [AMOTION_EVENT_ACTION_HOVER_ENTER; AMOTION_EVENT_ACTION_HOVER_MOVE])).
  { destruct (track_begin_view s e flags true Hok Hp) as (Hok' & Hr & Hv). split; [done|]. split; [|by rewrite Hr]. intros _. unfold view. rewrite !Hv.
    destruct (has (MotionEntry.source e) AINPUT_SOURCE_CLASS_JOYSTICK) eqn:Hj; [done|]. simpl.
    destruct (action =? AMOTION_EVENT_ACTION_HOVER_MOVE) eqn:Ea; [|done]. apply Z.eqb_eq in Ea. rewrite bool_decide_true; [done|]. apply isHovering_view; auto. }
  split; [done|]. split; [|done]. intros _. by destruct (has (MotionEntry.source e) AINPUT_SOURCE_CLASS_JOYSTICK).
Qed.

Lemma trackKey_view s k action flags : tracked_ok s -> let r := InputState.trackKey s k action flags in r.1 = true /\ tracked_ok r.2 /\ view r.2 = view s.
Proof.
  intros [[Hnd Hk] Hs]. unfold InputState.trackKey.
  destruct (action =? AKEY_EVENT_ACTION_UP); [|destruct (action =? AKEY_EVENT_ACTION_DOWN); [|done]]; (split; [done|]).
  - destruct (has _ _); (split; [|done]); repeat split; simpl; auto; by apply NoDup_erase.
  - split; [|done]. repeat split; simpl; auto. rewrite map_app. apply NoDup_app. split; [by apply NoDup_erase|]. split; [|apply NoDup_singleton].
    intros x (m & Hm & ->)%elem_of_map Hx%list_elem_of_singleton. unfold InputState.findKeyMemento in Hm.
    destruct (InputState.find_index _ _) as [i|] eqn:E; simpl in Hm.
    + apply find_index_Some in E as (m' & Hi & E%same_key_spec). apply (elem_of_delete key_key _ i m') in Hm as [_ Hne]; [|done..]. apply Hne. by rewrite E.
    + pose proof (find_index_None _ _ E m Hm) as Hf. apply same_key_spec in Hx. simpl in Hx. congruence.
Qed.

End Track.
