(* ===== verification/InputConnection.v ===== *)
(** * Connections of the input dispatcher (services/inputflinger/dispatcher)

    How events are put into the queues of one connection to an application and written to
    its socket: [createDispatchEntry], the enqueueing functions, [startDispatchCycleLocked]
    and [abortBrokenDispatchCycleLocked] of InputDispatcher.cpp, Connection.h, the
    [DispatchEntry] of Entry.h, AnrTracker.cpp and [InputPublisher] of
    libs/input/InputTransport.cpp.

    - A function acts on the dispatcher's shared state [d] and on the connection [c]; it is
      [None] where the process would end or the behaviour is undefined.
    - The channel of a connection is the list of the messages that were written to it. What
      the system call that writes says is an argument, [send], by sequence number; the
      signature of a message, a function of its other fields, is left out.
    - New ids of events (random numbers), new addresses and the clock are arguments. *)

From S2P Require Import Prelude PointerCoords InputEvents InputState.

Definition AINPUT_SOURCE_CLASS_MASK : Z := 255.
Definition DEAD_OBJECT : status_t := -32.

(** ** Messages and their publication (InputTransport.cpp) *)

Record KeyMessage := key_message {
  k_seq : Z; k_eventId : Z; k_deviceId : Z; k_source : Z; k_displayId : Z; k_action : Z; k_flags : Z; k_keyCode : Z; k_scanCode : Z; k_metaState : Z;
  k_repeatCount : Z; k_downTime : Z; k_eventTime : Z }.

Record MotionMessage := motion_message {
  m_seq : Z; m_eventId : Z; m_deviceId : Z; m_source : Z; m_displayId : Z; m_action : Z; m_actionButton : Z; m_flags : Z; m_edgeFlags : Z; m_metaState : Z;
  m_buttonState : Z; m_classification : Z; m_xScale : float32; m_yScale : float32; m_xOffset : float32; m_yOffset : float32;
  m_xPrecision : float32; m_yPrecision : float32; m_xCursorPosition : float32; m_yCursorPosition : float32; m_downTime : Z; m_eventTime : Z;
  m_pointers : list pointer }.

Inductive InputMessage :=
  | KeyMsg (m : KeyMessage)
  | MotionMsg (m : MotionMessage)
  | FocusMsg (seq eventId : Z) (hasFocus inTouchMode : bool).

Module InputPublisher.

(** the result of [::send], after the attempts that were interrupted *)
Inductive send_result := Complete | Incomplete | Failed (errno : positive).

Definition sendMessage (r : send_result) (msg : InputMessage) (channel : list InputMessage) : status_t * list InputMessage :=
  match r with
  | Complete => (OK, channel ++ [msg])
  | Incomplete => (DEAD_OBJECT, channel)
  | Failed errno =>
    (if bool_decide (errno = 11%positive) then WOULD_BLOCK
     else if bool_decide (errno ∈ [32; 107; 111; 104]%positive) then DEAD_OBJECT
     else - Z.pos errno, channel)
  end.

Definition publishKeyEvent (r : send_result) (m : KeyMessage) (channel : list InputMessage) : status_t * list InputMessage :=
  if k_seq m =? 0 then (BAD_VALUE, channel) else sendMessage r (KeyMsg m) channel.

Definition publishMotionEvent (r : send_result) (m : MotionMessage) (channel : list InputMessage) : status_t * list InputMessage :=
  let pointerCount := Z.of_nat (length (m_pointers m)) in
  if m_seq m =? 0 then (BAD_VALUE, channel)
  else if (MAX_POINTERS <? pointerCount) || (pointerCount <? 1) then (BAD_VALUE, channel)
  else sendMessage r (MotionMsg m) channel.

Definition publishFocusEvent (r : send_result) (seq eventId : Z) (hasFocus inTouchMode : bool) (channel : list InputMessage) : status_t * list InputMessage :=
  sendMessage r (FocusMsg seq eventId hasFocus inTouchMode) channel.

End InputPublisher.

(** ** Dispatch entries (Entry.h, Entry.cpp) *)

Module DispatchEntry.

(** [entry] is the address of the event, [eventEntry] its contents *)
Record t := mk {
  seq : Z; entry : Z; eventEntry : EventEntry; targetFlags : Z;
  xOffset : float32; yOffset : float32; globalScaleFactor : float32; windowXScale : float32; windowYScale : float32;
  deliveryTime : Z; timeoutTime : Z; resolvedEventId : Z; resolvedAction : Z; resolvedFlags : Z }.

Definition eta (d : t) : t :=
  mk (seq d) (entry d) (eventEntry d) (targetFlags d) (xOffset d) (yOffset d) (globalScaleFactor d) (windowXScale d) (windowYScale d)
     (deliveryTime d) (timeoutTime d) (resolvedEventId d) (resolvedAction d) (resolvedFlags d).
#[global] Instance set_eventEntry : Setter eventEntry := ltac:(setter_of eta eventEntry).
#[global] Instance set_deliveryTime : Setter deliveryTime := ltac:(setter_of eta deliveryTime).
#[global] Instance set_timeoutTime : Setter timeoutTime := ltac:(setter_of eta timeoutTime).
#[global] Instance set_resolvedEventId : Setter resolvedEventId := ltac:(setter_of eta resolvedEventId).
#[global] Instance set_resolvedAction : Setter resolvedAction := ltac:(setter_of eta resolvedAction).
#[global] Instance set_resolvedFlags : Setter resolvedFlags := ltac:(setter_of eta resolvedFlags).

Definition hasForegroundTarget (d : t) : bool := has (targetFlags d) InputTarget.FLAG_FOREGROUND.

(** the sequence number, and the counter after it: 0 is never returned *)
Definition nextSeq (sNextSeqAtomic : Z) : Z * Z :=
  let next := int32 (sNextSeqAtomic + 1) in
  if uint32 sNextSeqAtomic =? 0 then (uint32 next, int32 (next + 1)) else (uint32 sNextSeqAtomic, next).

End DispatchEntry.

(** ** The time at which connections are not responding (AnrTracker.cpp) *)

Module AnrTracker.

(** the multiset, smallest first *)
Definition t := list (Z * Z).

Definition before (a b : Z * Z) : bool := (a.1 <? b.1) || ((a.1 =? b.1) && (a.2 <? b.2)).

Fixpoint insert_sorted (x : Z * Z) (s : t) : t :=
  match s with [] => [x] | y :: s' => if before x y then x :: s else y :: insert_sorted x s' end.

Definition insert (s : t) (timeoutTime token : Z) : t := insert_sorted (timeoutTime, token) s.

Fixpoint erase_one (x : Z * Z) (s : t) : t :=
  match s with [] => [] | y :: s' => if bool_decide (y = x) then s' else y :: erase_one x s' end.

Definition erase (s : t) (timeoutTime token : Z) : t := erase_one (timeoutTime, token) s.
Definition eraseToken (s : list (Z * Z)) (token : Z) : t := filter (fun x => x.2 <> token) s.
Definition empty (s : t) : bool := match s with [] => true | _ => false end.
Definition firstTimeout (s : t) : Z := match s with [] => 9223372036854775807 | x :: _ => x.1 end.
Definition firstToken (s : t) : option Z := snd <$> head s.
Definition clear (s : t) : t := [].

End AnrTracker.

(** ** A connection (Connection.h) *)

Module Connection.

Inductive Status := STATUS_NORMAL | STATUS_BROKEN | STATUS_ZOMBIE.
#[global] Instance Status_eq_dec : EqDecision Status := ltac:(solve_decision).

(** [address] is the identity of the object *)
Record t := mk {
  address : Z; inputChannel : InputChannel.t; monitor : bool; status : Status; responsive : bool; inputState : InputState.t;
  outboundQueue : list DispatchEntry.t; waitQueue : list DispatchEntry.t; channel : list InputMessage }.

Definition eta (c : t) : t :=
  mk (address c) (inputChannel c) (monitor c) (status c) (responsive c) (inputState c) (outboundQueue c) (waitQueue c) (channel c).
#[global] Instance set_status : Setter status := ltac:(setter_of eta status).
#[global] Instance set_responsive : Setter responsive := ltac:(setter_of eta responsive).
#[global] Instance set_inputState : Setter inputState := ltac:(setter_of eta inputState).
#[global] Instance set_outboundQueue : Setter outboundQueue := ltac:(setter_of eta outboundQueue).
#[global] Instance set_waitQueue : Setter waitQueue := ltac:(setter_of eta waitQueue).
#[global] Instance set_channel : Setter channel := ltac:(setter_of eta channel).

(** [inputChannel->getConnectionToken()] *)
Definition token (c : t) : Z := InputChannel.token (inputChannel c).

Definition new (address : Z) (inputChannel : InputChannel.t) (monitor : bool) : t := mk address inputChannel monitor STATUS_NORMAL true InputState.new [] [] [].

Definition findWaitQueueEntry (c : t) (seq : Z) : option nat := InputState.find_index (fun e => DispatchEntry.seq e =? seq) (waitQueue c).

End Connection.

(** ** The dispatcher's shared state (InputDispatcher.h) *)

(** commands to run later; a connection is known by its address *)
Inductive CommandEntry :=
  | DispatchCycleFinished (connection eventTime seq : Z) (handled : bool)
  | NotifyInputChannelBroken (connection : Z)
  | OnPointerDownOutsideFocus (newToken : Z)
  | NotifyAnr (application : option InputApplication.t) (token : option Z)
  | PokeUserActivity (eventTime eventType : Z)
  | InterceptKeyBeforeDispatching (keyEntry token : Z)
  | NotifyConfigurationChanged (eventTime : Z)
  | NotifyFocusChanged (oldToken newToken : Z).

Module Dispatcher.

(** [handles] are the window handles, objects that the lists refer to by their identity;
    [pendingForegroundDispatches] and [injectionResults] are fields of the injection states;
    [DEFAULT_INPUT_DISPATCHING_TIMEOUT] depends on a property of the device. *)
Record t := mk {
  sNextSeqAtomic : Z; mAnrTracker : AnrTracker.t; mCommandQueue : list CommandEntry; pendingForegroundDispatches : gmap Z Z;
  handles : gmap Z InputWindowInfo.t; mWindowHandlesByDisplay : list (Z * list Z); mFocusedWindowHandlesByDisplay : gmap Z Z; mFocusedDisplayId : Z;
  mInTouchMode : bool; mTouchStatesByDisplay : list (Z * TouchState.t);
  mFocusedApplicationHandlesByDisplay : gmap Z InputApplication.t; mNoFocusedWindowTimeoutTime : option Z;
  mAwaitedFocusedApplication : option InputApplication.t; mAwaitedApplicationDisplayId : Z; DEFAULT_INPUT_DISPATCHING_TIMEOUT : Z;
  mLastHoverWindowHandle : option Z; mKeyIsWaitingForEventsTimeout : option Z; injectionResults : gmap Z Z }.

Definition eta (d : t) : t :=
  mk (sNextSeqAtomic d) (mAnrTracker d) (mCommandQueue d) (pendingForegroundDispatches d) (handles d) (mWindowHandlesByDisplay d) (mFocusedWindowHandlesByDisplay d)
     (mFocusedDisplayId d) (mInTouchMode d) (mTouchStatesByDisplay d) (mFocusedApplicationHandlesByDisplay d) (mNoFocusedWindowTimeoutTime d)
     (mAwaitedFocusedApplication d) (mAwaitedApplicationDisplayId d) (DEFAULT_INPUT_DISPATCHING_TIMEOUT d) (mLastHoverWindowHandle d) (mKeyIsWaitingForEventsTimeout d) (injectionResults d).
#[global] Instance set_sNextSeqAtomic : Setter sNextSeqAtomic := ltac:(setter_of eta sNextSeqAtomic).
#[global] Instance set_mAnrTracker : Setter mAnrTracker := ltac:(setter_of eta mAnrTracker).
#[global] Instance set_mCommandQueue : Setter mCommandQueue := ltac:(setter_of eta mCommandQueue).
#[global] Instance set_pendingForegroundDispatches : Setter pendingForegroundDispatches := ltac:(setter_of eta pendingForegroundDispatches).
#[global] Instance set_mTouchStatesByDisplay : Setter mTouchStatesByDisplay := ltac:(setter_of eta mTouchStatesByDisplay).
#[global] Instance set_mFocusedApplicationHandlesByDisplay : Setter mFocusedApplicationHandlesByDisplay := ltac:(setter_of eta mFocusedApplicationHandlesByDisplay).
#[global] Instance set_mNoFocusedWindowTimeoutTime : Setter mNoFocusedWindowTimeoutTime := ltac:(setter_of eta mNoFocusedWindowTimeoutTime).
#[global] Instance set_mAwaitedFocusedApplication : Setter mAwaitedFocusedApplication := ltac:(setter_of eta mAwaitedFocusedApplication).
#[global] Instance set_mAwaitedApplicationDisplayId : Setter mAwaitedApplicationDisplayId := ltac:(setter_of eta mAwaitedApplicationDisplayId).
#[global] Instance set_handles : Setter handles := ltac:(setter_of eta handles).
#[global] Instance set_mWindowHandlesByDisplay : Setter mWindowHandlesByDisplay := ltac:(setter_of eta mWindowHandlesByDisplay).
#[global] Instance set_mFocusedWindowHandlesByDisplay : Setter mFocusedWindowHandlesByDisplay := ltac:(setter_of eta mFocusedWindowHandlesByDisplay).
#[global] Instance set_mFocusedDisplayId : Setter mFocusedDisplayId := ltac:(setter_of eta mFocusedDisplayId).
#[global] Instance set_mInTouchMode : Setter mInTouchMode := ltac:(setter_of eta mInTouchMode).
#[global] Instance set_mLastHoverWindowHandle : Setter mLastHoverWindowHandle := ltac:(setter_of eta mLastHoverWindowHandle).
#[global] Instance set_mKeyIsWaitingForEventsTimeout : Setter mKeyIsWaitingForEventsTimeout := ltac:(setter_of eta mKeyIsWaitingForEventsTimeout).
#[global] Instance set_injectionResults : Setter injectionResults := ltac:(setter_of eta injectionResults).

Definition postCommandLocked (d : t) (command : CommandEntry) : t := d <| mCommandQueue := mCommandQueue d ++ [command] |>.

Definition add_pending (d : t) (e : EventEntry) (n : Z) : t :=
  match injectionState e with
  | Some i => d <| pendingForegroundDispatches := <[i := default 0 (pendingForegroundDispatches d !! i) + n]> (pendingForegroundDispatches d) |>
  | None => d
  end.
(** the result in the injection state of the event, if it was injected *)
Definition setInjectionResult (d : t) (e : EventEntry) (injectionResult : Z) : t :=
  match injectionState e with Some i => d <| injectionResults := <[i := injectionResult]> (injectionResults d) |> | None => d end.
Definition incrementPendingForegroundDispatches (d : t) (e : EventEntry) : t := add_pending d e 1.
Definition decrementPendingForegroundDispatches (d : t) (e : EventEntry) : t := add_pending d e (-1).

Definition getInfo (d : t) (windowHandle : Z) : InputWindowInfo.t := default InputWindowInfo.new (handles d !! windowHandle).
Definition getToken (d : t) (windowHandle : Z) : Z := InputWindowInfo.token (getInfo d windowHandle).

(** the first window with the token, in the order in which the displays are visited *)
Definition getWindowHandleLocked (d : t) (token : Z) : option Z :=
  if token =? 0 then None
  else head (filter (fun w => getToken d w = token) (concat (map snd (mWindowHandlesByDisplay d)))).

Definition getDispatchingTimeoutLocked (d : t) (token : Z) : Z :=
  match getWindowHandleLocked d token with
  | Some window => InputWindowInfo.getDispatchingTimeout (getInfo d window) (DEFAULT_INPUT_DISPATCHING_TIMEOUT d)
  | None => DEFAULT_INPUT_DISPATCHING_TIMEOUT d
  end.

(** an action [DOWN] of a pointer in a window that does not have the focus *)
Definition dispatchPointerDownOutsideFocus (d : t) (source action newToken : Z) : t :=
  if negb (Z.land source AINPUT_SOURCE_CLASS_MASK =? AINPUT_SOURCE_CLASS_POINTER) || negb (Z.land action AMOTION_EVENT_ACTION_MASK =? AMOTION_EVENT_ACTION_DOWN) then d
  else match getWindowHandleLocked d newToken with
  | None => d
  | Some _ =>
    let hasFocusChanged := match mFocusedWindowHandlesByDisplay d !! mFocusedDisplayId d with
                           | Some focused => negb (getToken d focused =? newToken)
                           | None => true
                           end in
    if hasFocusChanged then postCommandLocked d (OnPointerDownOutsideFocus newToken) else d
  end.

End Dispatcher.

(** ** Dispatching to a connection *)

Section Dispatch.
Context `{B32 : BitSet32.ops} `{B64 : BitSet64.ops}.

Notation D := Dispatcher.t.
Notation C := Connection.t.

(** *** Making entries *)

(** the coordinates of a pointer with the info [curr], in the frame of the info [first] *)
Definition normalize (first curr : PointerInfo) (c : PointerCoords.t) : PointerCoords.t :=
  let scaleXDiff := F32.div (windowXScale curr) (windowXScale first) in
  let scaleYDiff := F32.div (windowYScale curr) (windowYScale first) in
  let c := PointerCoords.applyOffset c (xOffset curr) (yOffset curr) in
  let c := PointerCoords.scale c F32.one scaleXDiff scaleYDiff in
  PointerCoords.applyOffset c (F32.opp (xOffset first)) (F32.opp (yOffset first)).

Definition pointer_info (target : InputTarget.t) (pointerId : Z) : option PointerInfo :=
  if pointerId <? 0 then None else InputTarget.pointerInfos target !! Z.to_nat pointerId.

Definition normalize_pointer (target : InputTarget.t) (first : PointerInfo) (p : pointer) : option pointer :=
  curr ← pointer_info target (id (property p));
  Some (touch (property p) (normalize first curr (coord p))).

(** an entry before the event's id, action and flags are resolved; [newAddress] is that of
    the event with the combined coordinates *)
Definition createDispatchEntry (seq : Z) (target : InputTarget.t) (entry newAddress : Z) (e : EventEntry) (flags : Z) : option DispatchEntry.t :=
  let make entry e i :=
    DispatchEntry.mk seq entry e flags (xOffset i) (yOffset i) (InputTarget.globalScaleFactor target) (windowXScale i) (windowYScale i) 0 0 0 0 0 in
  if InputTarget.useDefaultPointerInfo target then
    i ← InputTarget.getDefaultPointerInfo target;
    Some (make entry e i)
  else
    match e with
    | Motion m =>
      first ← pointer_info target (BitSet32.firstMarkedBit (InputTarget.pointerIds target));
      ps ← mapM (normalize_pointer target first) (MotionEntry.pointers m);
      Some (make newAddress (Motion (m <| MotionEntry.pointers := ps |>)) first)
    | _ => None
    end.

(** *** Enqueueing *)

(** the action and the event's id, or none for a new one *)
Definition resolve_action (dispatchMode : Z) (m : MotionEntry.t) : Z * option Z :=
  if has dispatchMode InputTarget.FLAG_DISPATCH_AS_OUTSIDE then (AMOTION_EVENT_ACTION_OUTSIDE, None)
  else if has dispatchMode InputTarget.FLAG_DISPATCH_AS_HOVER_EXIT then (AMOTION_EVENT_ACTION_HOVER_EXIT, None)
  else if has dispatchMode InputTarget.FLAG_DISPATCH_AS_HOVER_ENTER then (AMOTION_EVENT_ACTION_HOVER_ENTER, None)
  else if has dispatchMode InputTarget.FLAG_DISPATCH_AS_SLIPPERY_EXIT then (AMOTION_EVENT_ACTION_CANCEL, None)
  else if has dispatchMode InputTarget.FLAG_DISPATCH_AS_SLIPPERY_ENTER then (AMOTION_EVENT_ACTION_DOWN, None)
  else (MotionEntry.action m, Some (MotionEntry.id m)).

Definition DEFAULT_RESOLVED_EVENT_ID : Z := -1073741824.

(** [newId] is the next id; it is taken too when the event's own id is the default value *)
Definition resolve_id (own : option Z) (newId : Z) : Z :=
  match own with Some i => if i =? DEFAULT_RESOLVED_EVENT_ID then newId else i | None => newId end.

Definition resolve_flags (targetFlags flags : Z) : Z :=
  let flags := if has targetFlags InputTarget.FLAG_WINDOW_IS_OBSCURED then Z.lor flags AMOTION_EVENT_FLAG_WINDOW_IS_OBSCURED else flags in
  if has targetFlags InputTarget.FLAG_WINDOW_IS_PARTIALLY_OBSCURED then Z.lor flags AMOTION_EVENT_FLAG_WINDOW_IS_PARTIALLY_OBSCURED else flags.

(** a move is an enter if nothing was hovering *)
Definition fill_in_hover (s : InputState.t) (m : MotionEntry.t) (action : Z) : Z :=
  if (action =? AMOTION_EVENT_ACTION_HOVER_MOVE) && negb (InputState.isHovering s (MotionEntry.deviceId m) (MotionEntry.source m) (MotionEntry.displayId m))
  then AMOTION_EVENT_ACTION_HOVER_ENTER else action.

Definition resolve (x : DispatchEntry.t) (eventId action flags : Z) : DispatchEntry.t :=
  x <| DispatchEntry.resolvedEventId := eventId |> <| DispatchEntry.resolvedAction := action |> <| DispatchEntry.resolvedFlags := flags |>.

Definition push_back (d : D) (c : C) (x : DispatchEntry.t) : D * C :=
  (if DispatchEntry.hasForegroundTarget x then Dispatcher.incrementPendingForegroundDispatches d (DispatchEntry.eventEntry x) else d,
   c <| Connection.outboundQueue := Connection.outboundQueue c ++ [x] |>).

Definition enqueue_key (d : D) (c : C) (x : DispatchEntry.t) (k : KeyEntry.t) : D * C :=
  let x := resolve x (KeyEntry.id k) (KeyEntry.action k) (KeyEntry.flags k) in
  let r := InputState.trackKey (Connection.inputState c) k (KeyEntry.action k) (KeyEntry.flags k) in
  let c := c <| Connection.inputState := r.2 |> in
  if r.1 then push_back d c x else (d, c).

Definition enqueue_motion (d : D) (c : C) (x : DispatchEntry.t) (m : MotionEntry.t) (dispatchMode newId : Z) : D * C :=
  let resolved := resolve_action dispatchMode m in
  let action := fill_in_hover (Connection.inputState c) m resolved.1 in
  let flags := resolve_flags (DispatchEntry.targetFlags x) (MotionEntry.flags m) in
  let r := InputState.trackMotion (Connection.inputState c) m action flags in
  let c := c <| Connection.inputState := r.2 |> in
  if r.1 then
    let d := Dispatcher.dispatchPointerDownOutsideFocus d (MotionEntry.source m) action (Connection.token c) in
    push_back d c (resolve x (resolve_id resolved.2 newId) action flags)
  else (d, c).

Definition enqueueDispatchEntryLocked (d : D) (c : C) (entry newAddress : Z) (e : EventEntry) (target : InputTarget.t) (dispatchMode newId : Z) : option (D * C) :=
  if negb (has (InputTarget.flags target) dispatchMode) then Some (d, c)
  else
    let flags := Z.lor (Z.ldiff (InputTarget.flags target) InputTarget.FLAG_DISPATCH_MASK) dispatchMode in
    let s := DispatchEntry.nextSeq (Dispatcher.sNextSeqAtomic d) in
    let d := d <| Dispatcher.sNextSeqAtomic := s.2 |> in
    x ← createDispatchEntry s.1 target entry newAddress e flags;
    match DispatchEntry.eventEntry x with
    | Key k => Some (enqueue_key d c x k)
    | Motion m => Some (enqueue_motion d c x m dispatchMode newId)
    | Focus _ _ => Some (push_back d c x)
    | ConfigurationChanged | DeviceReset _ => None
    end.

(** *** Publishing *)

(** the message of an entry, and its publication *)
Definition key_msg (x : DispatchEntry.t) (k : KeyEntry.t) : KeyMessage :=
  key_message (DispatchEntry.seq x) (DispatchEntry.resolvedEventId x) (KeyEntry.deviceId k) (KeyEntry.source k) (KeyEntry.displayId k)
    (DispatchEntry.resolvedAction x) (DispatchEntry.resolvedFlags x) (KeyEntry.keyCode k) (KeyEntry.scanCode k) (KeyEntry.metaState k)
    (KeyEntry.repeatCount k) (KeyEntry.downTime k) (KeyEntry.eventTime k).

Definition scale_pointer (f : PointerCoords.t -> PointerCoords.t) (p : pointer) : pointer := touch (property p) (f (coord p)).

Definition motion_msg (x : DispatchEntry.t) (m : MotionEntry.t) : MotionMessage :=
  let zero := has (DispatchEntry.targetFlags x) InputTarget.FLAG_ZERO_COORDS in
  let placed := has (MotionEntry.source m) AINPUT_SOURCE_CLASS_POINTER && negb zero in
  let xScale := if placed then DispatchEntry.windowXScale x else F32.one in
  let yScale := if placed then DispatchEntry.windowYScale x else F32.one in
  let xOffset := if placed then F32.mul (DispatchEntry.xOffset x) xScale else F32.zero in
  let yOffset := if placed then F32.mul (DispatchEntry.yOffset x) yScale else F32.zero in
  let usingCoords :=
    if placed then
      if F32.eqb (DispatchEntry.globalScaleFactor x) F32.one then MotionEntry.pointers m
      else map (scale_pointer (fun c => PointerCoords.scale c (DispatchEntry.globalScaleFactor x) F32.one F32.one)) (MotionEntry.pointers m)
    else if zero then map (scale_pointer PointerCoords.clear) (MotionEntry.pointers m)
    else MotionEntry.pointers m in
  motion_message (DispatchEntry.seq x) (DispatchEntry.resolvedEventId x) (MotionEntry.deviceId m) (MotionEntry.source m) (MotionEntry.displayId m)
    (DispatchEntry.resolvedAction x) (MotionEntry.actionButton m) (DispatchEntry.resolvedFlags x) (MotionEntry.edgeFlags m) (MotionEntry.metaState m)
    (MotionEntry.buttonState m) (MotionEntry.classification m) xScale yScale xOffset yOffset
    (MotionEntry.xPrecision m) (MotionEntry.yPrecision m) (MotionEntry.xCursorPosition m) (MotionEntry.yCursorPosition m)
    (MotionEntry.downTime m) (MotionEntry.eventTime m) usingCoords.

Definition publish (d : D) (r : InputPublisher.send_result) (x : DispatchEntry.t) (channel : list InputMessage) : option (status_t * list InputMessage) :=
  match DispatchEntry.eventEntry x with
  | Key k => Some (InputPublisher.publishKeyEvent r (key_msg x k) channel)
  | Motion m => Some (InputPublisher.publishMotionEvent r (motion_msg x m) channel)
  | Focus id hasFocus => Some (InputPublisher.publishFocusEvent r (DispatchEntry.seq x) id hasFocus (Dispatcher.mInTouchMode d) channel)
  | ConfigurationChanged | DeviceReset _ => None
  end.

(** *** Breaking *)

Definition releaseDispatchEntry (d : D) (x : DispatchEntry.t) : D :=
  if DispatchEntry.hasForegroundTarget x then Dispatcher.decrementPendingForegroundDispatches d (DispatchEntry.eventEntry x) else d.

Definition drainDispatchQueue (d : D) (queue : list DispatchEntry.t) : D := foldl releaseDispatchEntry d queue.

Definition abortBrokenDispatchCycleLocked (d : D) (c : C) (notify : bool) : D * C :=
  let d := drainDispatchQueue d (Connection.outboundQueue c) in
  let d := drainDispatchQueue d (Connection.waitQueue c) in
  let c := c <| Connection.outboundQueue := [] |> <| Connection.waitQueue := [] |> in
  if bool_decide (Connection.status c = Connection.STATUS_NORMAL) then
    (if notify then Dispatcher.postCommandLocked d (NotifyInputChannelBroken (Connection.address c)) else d,
     c <| Connection.status := Connection.STATUS_BROKEN |>)
  else (d, c).

(** *** The dispatch cycle *)

(** one turn of the loop for the first entry: the state after it, and whether the loop goes on *)
Definition dispatch_first (d : D) (c : C) (currentTime : Z) (r : InputPublisher.send_result) (x : DispatchEntry.t) (rest : list DispatchEntry.t) : option (bool * D * C) :=
  let timeout := Dispatcher.getDispatchingTimeoutLocked d (Connection.token c) in
  let x := x <| DispatchEntry.deliveryTime := currentTime |> <| DispatchEntry.timeoutTime := currentTime + timeout |> in
  let c := c <| Connection.outboundQueue := x :: rest |> in
  p ← publish d r x (Connection.channel c);
  let c := c <| Connection.channel := p.2 |> in
  if negb (p.1 =? OK) then
    if p.1 =? WOULD_BLOCK then
      match Connection.waitQueue c with
      | [] => let r := abortBrokenDispatchCycleLocked d c true in Some (false, r.1, r.2)
      | _ => Some (false, d, c)
      end
    else let r := abortBrokenDispatchCycleLocked d c true in Some (false, r.1, r.2)
  else
    let c := c <| Connection.outboundQueue := rest |> <| Connection.waitQueue := Connection.waitQueue c ++ [x] |> in
    Some (true,
      if Connection.responsive c then d <| Dispatcher.mAnrTracker := AnrTracker.insert (Dispatcher.mAnrTracker d) (DispatchEntry.timeoutTime x) (Connection.token c) |> else d,
      c).

(** the loop; [fuel] is a bound on the length of the queue, which every turn shortens *)
Fixpoint dispatch_loop (fuel : nat) (d : D) (c : C) (currentTime : Z) (send : Z -> InputPublisher.send_result) : option (D * C) :=
  match fuel with
  | O => Some (d, c)
  | S fuel =>
    if negb (bool_decide (Connection.status c = Connection.STATUS_NORMAL)) then Some (d, c)
    else
      match Connection.outboundQueue c with
      | [] => Some (d, c)
      | x :: rest =>
        r ← dispatch_first d c currentTime (send (DispatchEntry.seq x)) x rest;
        match r with
        | (true, d, c) => dispatch_loop fuel d c currentTime send
        | (false, d, c) => Some (d, c)
        end
      end
  end.

Definition startDispatchCycleLocked (d : D) (c : C) (currentTime : Z) (send : Z -> InputPublisher.send_result) : option (D * C) :=
  dispatch_loop (length (Connection.outboundQueue c)) d c currentTime send.

(** the modes in the order in which they are enqueued *)
Definition dispatch_modes : list Z :=
  [InputTarget.FLAG_DISPATCH_AS_HOVER_EXIT; InputTarget.FLAG_DISPATCH_AS_OUTSIDE; InputTarget.FLAG_DISPATCH_AS_HOVER_ENTER; InputTarget.FLAG_DISPATCH_AS_IS;
   InputTarget.FLAG_DISPATCH_AS_SLIPPERY_EXIT; InputTarget.FLAG_DISPATCH_AS_SLIPPERY_ENTER].

(** The random choices of a call, which the mode or the number of an event tells apart. *)
Record fresh := choices { freshId : Z -> Z; freshAddress : Z -> Z }.

Fixpoint enqueue_modes (d : D) (c : C) (entry : Z) (e : EventEntry) (target : InputTarget.t) (new : fresh) (modes : list Z) : option (D * C) :=
  match modes with
  | [] => Some (d, c)
  | mode :: modes' =>
    r ← enqueueDispatchEntryLocked d c entry (freshAddress new mode) e target mode (freshId new mode);
    enqueue_modes r.1 r.2 entry e target new modes'
  end.

Definition enqueueDispatchEntriesLocked (d : D) (c : C) (currentTime entry : Z) (e : EventEntry) (target : InputTarget.t) (new : fresh)
    (send : Z -> InputPublisher.send_result) : option (D * C) :=
  let wasEmpty := match Connection.outboundQueue c with [] => true | _ => false end in
  r ← enqueue_modes d c entry e target new dispatch_modes;
  if wasEmpty && match Connection.outboundQueue r.2 with [] => false | _ => true end
  then startDispatchCycleLocked r.1 r.2 currentTime send else Some r.

(** [freshId new (-1)] and [freshAddress new (-1)] are those of the split event. *)
Definition prepareDispatchCycleLocked (d : D) (c : C) (currentTime entry : Z) (e : EventEntry) (target : InputTarget.t) (new : fresh)
    (send : Z -> InputPublisher.send_result) : option (D * C) :=
  if negb (bool_decide (Connection.status c = Connection.STATUS_NORMAL)) then Some (d, c)
  else if has (InputTarget.flags target) InputTarget.FLAG_SPLIT then
    match e with
    | Motion m =>
      if BitSet32.count (InputTarget.pointerIds target) =? MotionEntry.pointerCount m then enqueueDispatchEntriesLocked d c currentTime entry e target new send
      else
        split ← splitMotionEvent m (InputTarget.pointerIds target) (freshId new (-1));
        match split with
        | None => Some (d, c)
        | Some m' => enqueueDispatchEntriesLocked d c currentTime (freshAddress new (-1)) (Motion m') target new send
        end
    | _ => None
    end
  else enqueueDispatchEntriesLocked d c currentTime entry e target new send.

(** *** Synthesized events *)

(** the target of synthesized events: the whole window *)
Definition window_target (d : D) (token : Z) : InputTarget.t :=
  let target :=
    match Dispatcher.getWindowHandleLocked d token with
    | Some h =>
      let w := Dispatcher.getInfo d h in
      (InputTarget.setDefaultPointerInfo InputTarget.new
        (info (F32.of_Z (int32 (- InputWindowInfo.frameLeft w))) (F32.of_Z (int32 (- InputWindowInfo.frameTop w))) (InputWindowInfo.windowXScale w) (InputWindowInfo.windowYScale w)))
        <| InputTarget.globalScaleFactor := InputWindowInfo.globalScaleFactor w |>
    | None => InputTarget.new
    end in
  target <| InputTarget.flags := InputTarget.FLAG_DISPATCH_AS_IS |>.

(** the events as they are, the [i]-th at the address [freshAddress new i] *)
Fixpoint enqueue_all (d : D) (c : C) (target : InputTarget.t) (new : fresh) (i : Z) (es : list EventEntry) : option (D * C) :=
  match es with
  | [] => Some (d, c)
  | e :: es' =>
    r ← enqueueDispatchEntryLocked d c (freshAddress new i) (freshAddress new i) e target InputTarget.FLAG_DISPATCH_AS_IS (freshId new i);
    enqueue_all r.1 r.2 target new (i + 1) es'
  end.

Definition synthesizeCancelationEventsForConnectionLocked (d : D) (c : C) (currentTime : Z) (options : CancelationOptions.t) (nextId : nat -> Z) (new : fresh)
    (send : Z -> InputPublisher.send_result) : option (D * C) :=
  if bool_decide (Connection.status c = Connection.STATUS_BROKEN) then Some (d, c)
  else
    match InputState.synthesizeCancelationEvents (Connection.inputState c) currentTime options nextId with
    | [] => Some (d, c)
    | cancelationEvents =>
      r ← enqueue_all d c (window_target d (Connection.token c)) new 0 cancelationEvents;
      startDispatchCycleLocked r.1 r.2 currentTime send
    end.

Definition synthesizePointerDownEventsForConnectionLocked (d : D) (c : C) (currentTime : Z) (nextId : nat -> nat -> Z) (new : fresh)
    (send : Z -> InputPublisher.send_result) : option (D * C) :=
  if bool_decide (Connection.status c = Connection.STATUS_BROKEN) then Some (d, c)
  else
    let r := InputState.synthesizePointerDownEvents (Connection.inputState c) currentTime nextId in
    let c := c <| Connection.inputState := r.2 |> in
    match r.1 with
    | [] => Some (d, c)
    | downEvents =>
      r ← enqueue_all d c (window_target d (Connection.token c)) new 0 (map Motion downEvents);
      startDispatchCycleLocked r.1 r.2 currentTime send
    end.

End Dispatch.
