(* ===== verification/InputStreams.v ===== *)
(** * The streams of events that connections send

    The history of a connection is what it has written to its socket and what waits to be
    written. Enqueueing an event, publishing, breaking and canceling keep the history
    within the protocol of InputProtocol.v and the tracked state that of its observer. *)

From S2P Require Import Prelude PointerCoords InputEvents InputState InputProtocol InputConnection.

(** ** Histories *)

Definition entry_view (x : DispatchEntry.t) : option (device * Z) :=
  match DispatchEntry.eventEntry x with Motion m => Some (entry_device m, DispatchEntry.resolvedAction x) | _ => None end.

Definition message_view (m : InputMessage) : option (device * Z) :=
  match m with MotionMsg m => Some ((m_deviceId m, m_source m, m_displayId m), m_action m) | _ => None end.

Definition sent (c : Connection.t) : list (option (device * Z)) := map message_view (Connection.channel c).
Definition history (c : Connection.t) : list (option (device * Z)) := sent c ++ map entry_view (Connection.outboundQueue c).

(** the mementos of a connection that may still be merged into another one *)
Definition has_pointers (m : MotionMemento.t) : Prop := MotionMemento.pointers m <> [].
Definition mergeable (s : InputState.t) : Prop := distinct s /\ Forall has_pointers (InputState.mMotionMementos s).

(** Whatever happened, what was sent follows the protocol; and as long as the connection
    works, the tracked state is what an observer of the whole history has seen. *)
Definition conn_ok (c : Connection.t) : Prop :=
  match Connection.status c with
  | Connection.STATUS_NORMAL => tracked_ok (Connection.inputState c) /\ observe_all stream_empty (history c) = Some (view (Connection.inputState c))
  | Connection.STATUS_BROKEN => mergeable (Connection.inputState c) /\ is_Some (observe_all stream_empty (sent c))
  | Connection.STATUS_ZOMBIE => is_Some (observe_all stream_empty (sent c))
  end.

Definition event_ok (e : EventEntry) : Prop := match e with Motion m => MotionEntry.pointers m <> [] | _ => True end.

(** what no operation of the dispatch cycle changes: it does not unregister the channel,
    does not repair it, and only adds to what waits for an answer while it works *)
Definition same_identity (c c' : Connection.t) : Prop :=
  Connection.address c' = Connection.address c /\ Connection.inputChannel c' = Connection.inputChannel c /\ Connection.monitor c' = Connection.monitor c /\
  (Connection.status c' = Connection.STATUS_ZOMBIE -> Connection.status c = Connection.STATUS_ZOMBIE) /\
  (Connection.status c' = Connection.STATUS_NORMAL -> Connection.status c = Connection.STATUS_NORMAL /\ Connection.waitQueue c `prefix_of` Connection.waitQueue c').

#[export] Hint Extern 0 (_ `prefix_of` _) => reflexivity : core.

#[global] Instance same_identity_preorder : PreOrder same_identity.
Proof. split; [done|]. 
  intros a b c (H1 & H2 & H3 & H4 & H5) (H6 & H7 & H8 & H9 & H10). split; [congruence|]. split; [congruence|]. split; [congruence|]. split; [auto|].
  intros Hc. destruct (H10 Hc) as [Hb Hp]. destruct (H5 Hb) as [Ha Hp']. split; [done|]. by etrans.
Qed.

Lemma settled_mergeable s : tracked_ok s -> mergeable s.
Proof. intros [Hd Hs]. split; [done|]. eapply Forall_impl; [exact Hs|]. by intros m [H _]. Qed.

Lemma conn_ok_sent c : conn_ok c -> is_Some (observe_all stream_empty (sent c)).
Proof.
  unfold conn_ok. destruct (Connection.status c); [|tauto|tauto]. intros [_ H]. apply (observe_all_prefix _ _ (map entry_view (Connection.outboundQueue c))).
  fold (history c). by rewrite H.
Qed.

Section Streams.
Context `{B32 : BitSet32.ops} `{B64 : BitSet64.ops}.

(** ** Enqueueing *)

Lemma mapM_length {A B} (f : A -> option B) l l' : mapM f l = Some l' -> length l' = length l.
Proof. intros H%mapM_Some_1. symmetry. by eapply Forall2_length. Qed.

(** an entry holds the event, up to the coordinates of its pointers *)
Lemma createDispatchEntry_event seq target entry na e flags x : createDispatchEntry seq target entry na e flags = Some x ->
  DispatchEntry.seq x = seq /\ DispatchEntry.targetFlags x = flags /\
  (DispatchEntry.eventEntry x = e \/
   exists m ps, e = Motion m /\ DispatchEntry.eventEntry x = Motion (m <| MotionEntry.pointers := ps |>) /\ length ps = length (MotionEntry.pointers m)).
Proof.
  unfold createDispatchEntry. destruct (InputTarget.useDefaultPointerInfo target).
  - destruct (InputTarget.getDefaultPointerInfo target); simpl; [|done]. intros [= <-]. eauto.
  - destruct e as [|m| | |]; try done. destruct (pointer_info _ _); simpl; [|done]. destruct (mapM _ _) as [ps|] eqn:E; simpl; [|done].
    intros [= <-]. repeat split; [done..|]. right. exists m, ps. split; [done|]. split; [done|]. by eapply mapM_length.
Qed.

Lemma push_back_conn d c x : (push_back d c x).2 = c <| Connection.outboundQueue := Connection.outboundQueue c ++ [x] |>.
Proof. done. Qed.

Lemma history_push c x s : history (c <| Connection.inputState := s |> <| Connection.outboundQueue := Connection.outboundQueue c ++ [x] |>) = history c ++ [entry_view x].
Proof. unfold history, sent. simpl. by rewrite map_app, app_assoc. Qed.

Lemma fill_in_hover_spec s m action : fill_in_hover s m action = AMOTION_EVENT_ACTION_HOVER_MOVE ->
  InputState.isHovering s (MotionEntry.deviceId m) (MotionEntry.source m) (MotionEntry.displayId m) = true.
Proof.
  unfold fill_in_hover. destruct (InputState.isHovering _ _ _ _); [done|]. rewrite andb_true_r. destruct (action =? _) eqn:E; [done|]. apply Z.eqb_neq in E. done.
Qed.

(** what enqueueing an event does to a connection that works *)
Lemma enqueue_motion_ok d c x m mode newId : Connection.status c = Connection.STATUS_NORMAL -> conn_ok c ->
  DispatchEntry.eventEntry x = Motion m -> MotionEntry.pointers m <> [] ->
  let r := enqueue_motion d c x m mode newId in
  conn_ok r.2 /\ Connection.status r.2 = Connection.STATUS_NORMAL /\ same_identity c r.2.
Proof.
  intros Hst Hok Hx Hp. unfold conn_ok in Hok. rewrite Hst in Hok. destruct Hok as [Htr Hobs]. unfold enqueue_motion.
  set (action := fill_in_hover _ _ _). set (flags := resolve_flags _ _).
  destruct (trackMotion_view (Connection.inputState c) m action flags Htr Hp) as (Htr' & Hdel & Hdrop); [apply fill_in_hover_spec|].
  destruct (InputState.trackMotion (Connection.inputState c) m action flags) as [b s'] eqn:E. simpl in *. destruct b; simpl.
  - split; [|by split; [|split]]. unfold conn_ok. simpl. rewrite Hst. split; [done|].
    rewrite history_push, observe_all_app, Hobs. unfold entry_view. simpl. rewrite Hx. simpl. by rewrite Hdel.
  - rewrite (Hdrop eq_refl). split; [|by split; [|split]]. unfold conn_ok. simpl. rewrite Hst. by rewrite Hdrop in Htr'.
Qed.

Lemma enqueue_ok d c entry na e target mode newId d' c' :
  enqueueDispatchEntryLocked d c entry na e target mode newId = Some (d', c') -> Connection.status c = Connection.STATUS_NORMAL -> conn_ok c -> event_ok e ->
  conn_ok c' /\ Connection.status c' = Connection.STATUS_NORMAL /\ same_identity c c'.
Proof.
  intros E Hst Hok He. unfold enqueueDispatchEntryLocked in E. destruct (negb _); [by injection E as <- <-|].
  destruct (createDispatchEntry _ _ _ _ _ _) as [x|] eqn:Ex; simpl in E; [|done]. apply createDispatchEntry_event in Ex as (_ & _ & Ev).
  assert (Hx : event_ok (DispatchEntry.eventEntry x)).
  { destruct Ev as [->|(m & ps & -> & -> & Hlen)]; [done|]. simpl in *. intros ->. by destruct (MotionEntry.pointers m). }
  destruct (DispatchEntry.eventEntry x) as [k|m|id f| |dev] eqn:Em; try done; apply (f_equal (option_map snd)) in E; injection E as E; rewrite <- E.
  - unfold enqueue_key. unfold conn_ok in Hok. rewrite Hst in Hok. destruct Hok as [Htr Hobs].
    destruct (trackKey_view (Connection.inputState c) k (KeyEntry.action k) (KeyEntry.flags k) Htr) as (Hr & Htr' & Hv). rewrite Hr, push_back_conn.
    split; [|by split; [|split]]. unfold conn_ok. simpl. rewrite Hst. split; [done|].
    rewrite history_push, observe_all_app, Hobs. unfold entry_view. simpl. rewrite Em. simpl. by rewrite Hv.
  - by apply enqueue_motion_ok.
  - split; [|by split; [|split]]. unfold conn_ok in *. simpl. rewrite Hst in *. destruct Hok as [Htr Hobs]. split; [done|].
    change (history _) with (sent c ++ map entry_view (Connection.outboundQueue c ++ [x])). rewrite map_app, app_assoc, observe_all_app. fold (history c). rewrite Hobs.
    unfold entry_view. simpl. by rewrite Em.
Qed.

Lemma enqueue_modes_ok modes : forall d c entry e target new d' c',
  enqueue_modes d c entry e target new modes = Some (d', c') -> Connection.status c = Connection.STATUS_NORMAL -> conn_ok c -> event_ok e ->
  conn_ok c' /\ Connection.status c' = Connection.STATUS_NORMAL /\ same_identity c c'.
Proof.
  induction modes as [|mode modes IH]; intros d c entry e target new d' c' E Hst Hok He; simpl in E; [by injection E as <- <-|].
  destruct (enqueueDispatchEntryLocked _ _ _ _ _ _ _ _) as [[d1 c1]|] eqn:E1; simpl in E; [|done].
  destruct (enqueue_ok _ _ _ _ _ _ _ _ _ _ E1 Hst Hok He) as (Hok1 & Hst1 & Hs1).
  destruct (IH _ _ _ _ _ _ _ _ E Hst1 Hok1 He) as (Hok2 & Hst2 & Hs2). split; [done|]. split; [done|]. by etrans.
Qed.

Lemma enqueue_all_ok es : forall d c target new i d' c',
  enqueue_all d c target new i es = Some (d', c') -> Connection.status c = Connection.STATUS_NORMAL -> conn_ok c -> Forall event_ok es ->
  conn_ok c' /\ Connection.status c' = Connection.STATUS_NORMAL /\ same_identity c c'.
Proof.
  induction es as [|e es IH]; intros d c target new i d' c' E Hst Hok He; simpl in E; [by injection E as <- <-|].
  destruct (enqueueDispatchEntryLocked _ _ _ _ _ _ _ _) as [[d1 c1]|] eqn:E1; simpl in E; [|done]. apply Forall_cons in He as [He1 He].
  destruct (enqueue_ok _ _ _ _ _ _ _ _ _ _ E1 Hst Hok He1) as (Hok1 & Hst1 & Hs1).
  destruct (IH _ _ _ _ _ _ _ E Hst1 Hok1 He) as (Hok2 & Hst2 & Hs2). split; [done|]. split; [done|]. by etrans.
Qed.

(** ** Publishing and breaking *)

Lemma abort_ok d c notify : conn_ok c -> let r := abortBrokenDispatchCycleLocked d c notify in
  conn_ok r.2 /\ same_identity c r.2 /\ Connection.status r.2 <> Connection.STATUS_NORMAL /\ Connection.channel r.2 = Connection.channel c.
Proof.
  intros Hok. pose proof (conn_ok_sent c Hok) as Hsent. unfold conn_ok in Hok. unfold abortBrokenDispatchCycleLocked. simpl.
  case_bool_decide as Hst; simpl in Hst.
  - rewrite Hst in Hok. simpl. split; [split; [apply settled_mergeable, Hok|done]|]. by split; [split|].
  - split; [unfold conn_ok; simpl; by destruct (Connection.status c)|]. by split; [split|].
Qed.

(** publishing writes the message of the entry, or nothing *)
Lemma publish_view d r x channel status channel' : publish d r x channel = Some (status, channel') ->
  status = OK /\ map message_view channel' = map message_view channel ++ [entry_view x] \/ status <> OK /\ channel' = channel.
Proof.
  assert (Hsend : forall msg st ch, InputPublisher.sendMessage r msg channel = (st, ch) -> st = OK /\ ch = channel ++ [msg] \/ st <> OK /\ ch = channel).
  { intros msg st ch. destruct r as [| |errno]; simpl; intros [= <- <-]; [by left|by right|right]. split; [|done]. repeat case_bool_decide; done. }
  unfold publish. destruct (DispatchEntry.eventEntry x) as [k|m|id f| |dev] eqn:Ex; intros E; try done; injection E as E; unfold entry_view; rewrite Ex.
  - unfold InputPublisher.publishKeyEvent in E. destruct (_ =? 0); [injection E as <- <-; by right|]. destruct (Hsend _ _ _ E) as [[-> ->]|]; [left|by right].
    by rewrite map_app.
  - unfold InputPublisher.publishMotionEvent in E. destruct (_ =? 0); [injection E as <- <-; by right|]. destruct (_ || _); [injection E as <- <-; by right|].
    destruct (Hsend _ _ _ E) as [[-> ->]|]; [left|by right]. by rewrite map_app.
  - destruct (Hsend _ _ _ E) as [[-> ->]|]; [left|by right]. by rewrite map_app.
Qed.

(** the first entry with the times of its delivery *)
Definition stamped (d : Dispatcher.t) (c : Connection.t) (currentTime : Z) (x : DispatchEntry.t) : DispatchEntry.t :=
  x <| DispatchEntry.deliveryTime := currentTime |>
    <| DispatchEntry.timeoutTime := currentTime + Dispatcher.getDispatchingTimeoutLocked d (Connection.token c) |>.

(** The three ways in which a turn of the dispatch loop ends. *)
Lemma dispatch_first_cases d c currentTime r x rest b d' c' : dispatch_first d c currentTime r x rest = Some (b, d', c') ->
  let y := stamped d c currentTime x in
  (b = true /\ (exists channel', publish d r y (Connection.channel c) = Some (OK, channel') /\
     c' = c <| Connection.outboundQueue := rest |> <| Connection.waitQueue := Connection.waitQueue c ++ [y] |> <| Connection.channel := channel' |>) /\
     d' = (if Connection.responsive c then d <| Dispatcher.mAnrTracker := AnrTracker.insert (Dispatcher.mAnrTracker d) (DispatchEntry.timeoutTime y) (Connection.token c) |> else d)) \/
  (b = false /\ Connection.waitQueue c <> [] /\ d' = d /\ c' = c <| Connection.outboundQueue := y :: rest |>) \/
  (b = false /\ (d', c') = abortBrokenDispatchCycleLocked d (c <| Connection.outboundQueue := y :: rest |>) true).
Proof.
  unfold dispatch_first. fold (stamped d c currentTime x). set (y := stamped d c currentTime x). simpl.
  destruct (publish d r y (Connection.channel c)) as [[st ch]|] eqn:Ep; simpl; [|done].
  pose proof (publish_view _ _ _ _ _ _ Ep) as Hp. destruct (st =? OK) eqn:Es; simpl.
  - apply Z.eqb_eq in Es as ->. intros [= <- <- <-]. left. split; [done|]. split; [|done]. exists ch. split; [done|]. by destruct c.
  - apply Z.eqb_neq in Es. destruct Hp as [[? _]|[_ ->]]; [done|].
    assert (Ec : c <| Connection.outboundQueue := y :: rest |> <| Connection.channel := Connection.channel c |> = c <| Connection.outboundQueue := y :: rest |>) by by destruct c.
    rewrite Ec. right. destruct (st =? WOULD_BLOCK); [destruct (Connection.waitQueue c) eqn:Ew|]; simplify_eq; [right|left|right]; rewrite <- ?surjective_pairing; done.
Qed.

Lemma dispatch_loop_ok fuel : forall d c currentTime send d' c',
  dispatch_loop fuel d c currentTime send = Some (d', c') -> conn_ok c -> conn_ok c' /\ same_identity c c'.
Proof.
  induction fuel as [|fuel IH]; intros d c currentTime send d' c' E Hok; simpl in E; [by injection E as <- <-|].
  case_bool_decide as Hst; simpl in E; [|by injection E as <- <-]. destruct (Connection.outboundQueue c) as [|x rest] eqn:Eq; [by injection E as <- <-|].
  destruct (dispatch_first d c currentTime _ x rest) as [[[b d1] c1]|] eqn:E1; simpl in E; [|done].
  assert (Hok1 : conn_ok c1 /\ same_identity c c1).
  { pose proof Hok as Hok0. unfold conn_ok in Hok. rewrite Hst in Hok. destruct Hok as [Htr Hobs].
    assert (Hstamp : conn_ok (c <| Connection.outboundQueue := stamped d c currentTime x :: rest |>)).
    { unfold conn_ok. simpl. rewrite Hst. split; [done|]. unfold history in *. rewrite Eq in Hobs. done. }
    destruct (dispatch_first_cases _ _ _ _ _ _ _ _ _ E1) as [(_ & (ch & Hp & ->) & _)|[(_ & _ & _ & ->)|(_ & E2)]].
    - split; [|repeat split; try done; by eexists]. unfold conn_ok. simpl. rewrite Hst. split; [done|]. apply publish_view in Hp as [[_ Hp]|[? _]]; [|done].
      unfold history, sent in *. simpl. rewrite Hp, <- app_assoc. rewrite Eq in Hobs. done.
    - by split.
    - destruct (abort_ok d (c <| Connection.outboundQueue := stamped d c currentTime x :: rest |>) true Hstamp) as (Hok1 & Hs1 & _). rewrite <- E2 in *. done. }
  destruct Hok1 as [Hok1 Hs1]. destruct b; [|by injection E as <- <-]. destruct (IH _ _ _ _ _ _ E Hok1) as [Hok2 Hs2]. split; [done|by etrans].
Qed.

Lemma start_cycle_ok d c currentTime send d' c' : startDispatchCycleLocked d c currentTime send = Some (d', c') -> conn_ok c -> conn_ok c' /\ same_identity c c'.
Proof. apply dispatch_loop_ok. Qed.

End Streams.
