(* ===== verification/InputCancel.v ===== *)
(** * Cancelation

    Synthesizing cancelation events for a connection sends exactly one event for each key
    that is down and each motion under way that the options select, and takes exactly
    these out of the tracked state. *)

From S2P Require Import Prelude PointerCoords InputEvents InputState InputProtocol InputConnection InputStreams.

(** ** Taking out by key *)

Lemma filter_ext_in {A} (P Q : A -> Prop) `{!forall x, Decision (P x)} `{!forall x, Decision (Q x)} (l : list A) : (forall x, x ∈ l -> P x <-> Q x) -> filter P l = filter Q l.
Proof.
  induction l as [|x l IH]; intros Hl; [done|]. rewrite !filter_cons, IH by (intros; apply Hl; set_solver).
  pose proof (Hl x ltac:(set_solver)). repeat case_decide; tauto.
Qed.

Lemma filter_all_in {A} (P : A -> Prop) `{!forall x, Decision (P x)} (l : list A) : (forall x, x ∈ l -> P x) -> filter P l = l.
Proof. induction l as [|x l IH]; intros Hl; [done|]. rewrite filter_cons, decide_True, IH by set_solver. done. Qed.

Lemma filter_twice {A} (P Q : A -> Prop) `{!forall x, Decision (P x)} `{!forall x, Decision (Q x)} (l : list A) :
  filter P (filter Q l) = filter (fun x => Q x /\ P x) l.
Proof. induction l as [|x l IH]; [done|]. rewrite !filter_cons. repeat case_decide; rewrite ?filter_cons; repeat case_decide; rewrite ?IH; tauto || done. Qed.

Section Filter.
Context {A K : Type} `{EqDecision K} (key : A -> K).

Lemma delete_filter l i x : NoDup (map key l) -> l !! i = Some x -> delete i l = filter (fun y => key y <> key x) l.
Proof.
  revert i; induction l as [|z l IH]; intros i Hnd Hi; [done|]. simpl in Hnd. apply NoDup_cons in Hnd as [Hz Hnd]. rewrite filter_cons. destruct i as [|i]; simpl in *.
  - injection Hi as ->. rewrite decide_False by tauto. symmetry. apply filter_all_in. intros y Hy E. apply Hz. rewrite <- E. apply elem_of_map. eauto.
  - rewrite decide_True; [by rewrite <- (IH i)|]. intros E. apply Hz. rewrite E. apply elem_of_map. exists x. split; [by eapply list_elem_of_lookup_2|done].
Qed.

Lemma NoDup_map_filter (P : A -> Prop) `{!forall x, Decision (P x)} (l : list A) : NoDup (map key l) -> NoDup (map key (filter P l)).
Proof.
  induction l as [|x l IH]; [done|]. simpl. intros [Hx Hnd]%NoDup_cons. rewrite filter_cons. case_decide; [|auto]. simpl. constructor; [|auto].
  intros (y & [_ Hy]%list_elem_of_filter & Ek)%elem_of_map. apply Hx. rewrite Ek. apply elem_of_map. eauto.
Qed.

(** taking out the elements that [f] selects, by their keys *)
Lemma filter_keys (f : A -> bool) (l : list A) : NoDup (map key l) ->
  filter (fun x => key x ∉ map key (filter (fun y => f y = true) l)) l = filter (fun x => f x = false) l.
Proof.
  intros Hnd. apply filter_ext_in. intros x Hx. rewrite elem_of_map. split.
  - intros H. destruct (f x) eqn:E; [|done]. exfalso. apply H. exists x. by rewrite list_elem_of_filter.
  - intros E (y & [Ey Hy]%list_elem_of_filter & Ek). enough (x = y) by congruence.
    apply list_elem_of_lookup in Hx as [i Hi], Hy as [j Hj]. enough (i = j) by congruence.
    eapply (NoDup_lookup (map key l)); [done| |]; change (map key l) with (key <$> l); rewrite list_lookup_fmap; [by rewrite Hi|by rewrite Hj, Ek].
Qed.

End Filter.

(** ** Enqueueing for a whole window *)

Section Cancel.
Context `{B32 : BitSet32.ops} `{B64 : BitSet64.ops}.

Lemma isEmpty_zero : BitSet32.isEmpty 0 = true.
Proof.
  apply BitSet32.isEmpty_spec. destruct (bits_below (BitSet32.hasBit 0) 32) as [|n l] eqn:E; [done|].
  assert (Hn : n ∈ bits_below (BitSet32.hasBit 0) 32) by (rewrite E; set_solver). apply elem_of_bits_below in Hn as [Hn _]. by rewrite BitSet32.hasBit_zero in Hn.
Qed.

(** the entry of an event that goes to a window as it is *)
Lemma window_entry d token seq entry na e flags : exists x, createDispatchEntry seq (window_target d token) entry na e flags = Some x /\
  DispatchEntry.eventEntry x = e /\ DispatchEntry.targetFlags x = flags.
Proof.
  unfold createDispatchEntry, InputTarget.useDefaultPointerInfo, InputTarget.getDefaultPointerInfo, window_target.
  destruct (Dispatcher.getWindowHandleLocked d token); simpl; rewrite isEmpty_zero; simpl; eauto.
Qed.

(** what was put into the queue: events as they are *)
Definition entry_event (x : DispatchEntry.t) : EventEntry * Z := (DispatchEntry.eventEntry x, DispatchEntry.resolvedAction x).
Definition event_action (e : EventEntry) : Z := match e with Key k => KeyEntry.action k | Motion m => MotionEntry.action m | _ => 0 end.
Definition as_is (e : EventEntry) : EventEntry * Z := (e, event_action e).

(** [c'] is [c] with another tracked state and more entries in its queue *)
Definition enqueued (c : Connection.t) (s : InputState.t) (xs : list DispatchEntry.t) : Connection.t :=
  c <| Connection.inputState := s |> <| Connection.outboundQueue := Connection.outboundQueue c ++ xs |>.

Lemma enqueue_window d0 token d c entry na m newId : MotionEntry.action m <> AMOTION_EVENT_ACTION_HOVER_MOVE ->
  exists d' x flags, let r := InputState.trackMotion (Connection.inputState c) m (MotionEntry.action m) flags in
    enqueueDispatchEntryLocked d c entry na (Motion m) (window_target d0 token) InputTarget.FLAG_DISPATCH_AS_IS newId = Some (d', enqueued c r.2 (if r.1 then [x] else [])) /\
    entry_event x = as_is (Motion m).
Proof.
  intros Ha. unfold enqueueDispatchEntryLocked. change (InputTarget.flags (window_target d0 token)) with InputTarget.FLAG_DISPATCH_AS_IS.
  change (negb (has InputTarget.FLAG_DISPATCH_AS_IS InputTarget.FLAG_DISPATCH_AS_IS)) with false. cbv iota zeta.
  destruct (window_entry d0 token (DispatchEntry.nextSeq (Dispatcher.sNextSeqAtomic d)).1 entry na (Motion m)
    (Z.lor (Z.ldiff InputTarget.FLAG_DISPATCH_AS_IS InputTarget.FLAG_DISPATCH_MASK) InputTarget.FLAG_DISPATCH_AS_IS)) as (x & Ex & Hx & _).
  rewrite Ex. cbn [mbind option_bind]. rewrite Hx. unfold enqueue_motion.
  change (resolve_action InputTarget.FLAG_DISPATCH_AS_IS m) with (MotionEntry.action m, Some (MotionEntry.id m)). cbn [fst snd].
  assert (Ef : fill_in_hover (Connection.inputState c) m (MotionEntry.action m) = MotionEntry.action m).
  { unfold fill_in_hover. by rewrite (proj2 (Z.eqb_neq _ _) Ha). }
  rewrite Ef. set (flags := resolve_flags _ _).
  destruct (InputState.trackMotion (Connection.inputState c) m (MotionEntry.action m) flags) as [[] s'] eqn:Et; cbn [fst snd].
  - eexists _, (resolve x _ _ _), flags. rewrite Et. split; [done|]. unfold entry_event, as_is. simpl. by rewrite Hx.
  - eexists _, (resolve x 0 (MotionEntry.action m) 0), flags. rewrite Et. split; [|unfold entry_event, as_is; simpl; by rewrite Hx].
    unfold enqueued, with_field, Connection.set_inputState, Connection.set_outboundQueue. simpl. by rewrite app_nil_r.
Qed.

Lemma enqueue_window_motion d0 token d c entry na m newId s' :
  MotionEntry.action m <> AMOTION_EVENT_ACTION_HOVER_MOVE ->
  (forall flags, InputState.trackMotion (Connection.inputState c) m (MotionEntry.action m) flags = (true, s')) ->
  exists d' x, enqueueDispatchEntryLocked d c entry na (Motion m) (window_target d0 token) InputTarget.FLAG_DISPATCH_AS_IS newId = Some (d', enqueued c s' [x]) /\
    entry_event x = as_is (Motion m).
Proof.
  intros Ha Ht. destruct (enqueue_window d0 token d c entry na m newId Ha) as (d' & x & flags & E & Hx). rewrite Ht in E. exists d', x. by split.
Qed.

Lemma enqueue_window_key d0 token d c entry na k newId :
  exists d' x, enqueueDispatchEntryLocked d c entry na (Key k) (window_target d0 token) InputTarget.FLAG_DISPATCH_AS_IS newId =
    Some (d', enqueued c (InputState.trackKey (Connection.inputState c) k (KeyEntry.action k) (KeyEntry.flags k)).2 [x]) /\ entry_event x = as_is (Key k).
Proof.
  unfold enqueueDispatchEntryLocked. change (InputTarget.flags (window_target d0 token)) with InputTarget.FLAG_DISPATCH_AS_IS.
  change (negb (has InputTarget.FLAG_DISPATCH_AS_IS InputTarget.FLAG_DISPATCH_AS_IS)) with false. cbv iota zeta.
  destruct (window_entry d0 token (DispatchEntry.nextSeq (Dispatcher.sNextSeqAtomic d)).1 entry na (Key k)
    (Z.lor (Z.ldiff InputTarget.FLAG_DISPATCH_AS_IS InputTarget.FLAG_DISPATCH_MASK) InputTarget.FLAG_DISPATCH_AS_IS)) as (x & Ex & Hx & _).
  rewrite Ex. simpl. rewrite Hx. unfold enqueue_key.
  assert (Hr : (InputState.trackKey (Connection.inputState c) k (KeyEntry.action k) (KeyEntry.flags k)).1 = true).
  { unfold InputState.trackKey. by repeat case_match. }
  rewrite Hr. eexists _, _. split; [done|]. unfold entry_event, as_is. simpl. by rewrite Hx.
Qed.

(** ** Events that cancel *)

Lemma erase_filter s e h : NoDup (map memento_key (InputState.mMotionMementos s)) ->
  InputState.erase (InputState.findMotionMemento s e h) (InputState.mMotionMementos s) = filter (fun m => memento_key m <> (entry_device e, h)) (InputState.mMotionMementos s).
Proof.
  intros Hnd. destruct (InputState.findMotionMemento s e h) as [i|] eqn:E; simpl.
  - apply find_motion_Some in E as (m & Hi & Hk). rewrite (delete_filter memento_key _ i m) by done. by rewrite Hk.
  - symmetry. apply filter_all_in. by apply find_motion_None.
Qed.

Lemma erase_key_filter s k : NoDup (map key_key (InputState.mKeyMementos s)) ->
  InputState.erase (InputState.findKeyMemento s k) (InputState.mKeyMementos s) = filter (fun m => key_key m <> entry_key k) (InputState.mKeyMementos s).
Proof.
  intros Hnd. unfold InputState.findKeyMemento. destruct (InputState.find_index _ _) as [i|] eqn:E; simpl.
  - apply find_index_Some in E as (m & Hi & Hk%same_key_spec). rewrite (delete_filter key_key _ i m) by done. by rewrite Hk.
  - symmetry. apply filter_all_in. intros m Hm Hk%same_key_spec. by rewrite (find_index_None _ _ E m Hm) in Hk.
Qed.

(** the cancelation of a motion that is tracked is delivered and ends it *)
Lemma track_cancel s m t id flags : NoDup (map memento_key (InputState.mMotionMementos s)) -> m ∈ InputState.mMotionMementos s ->
  let e := InputState.cancel_motion t id m in
  InputState.trackMotion s e (MotionEntry.action e) flags =
    (true, s <| InputState.mMotionMementos := filter (fun x => memento_key x <> memento_key m) (InputState.mMotionMementos s) |>).
Proof.
  intros Hnd Hm e.
  assert (Hend : InputState.trackMotion s e (MotionEntry.action e) flags = InputState.track_end s e (MotionMemento.hovering m)).
  { unfold e, InputState.cancel_motion. by destruct (MotionMemento.hovering m). }
  rewrite Hend. unfold InputState.track_end. pose proof (erase_filter s e (MotionMemento.hovering m) Hnd) as Ef.
  destruct (find_index_is_Some (InputState.same_motion e (MotionMemento.hovering m)) (InputState.mMotionMementos s) m Hm) as [i Ei]; [by apply same_motion_spec|].
  unfold InputState.findMotionMemento in *. rewrite Ei in *. simpl in Ef. rewrite Ef. done.
Qed.

Lemma cancel_key_state s m t id : NoDup (map key_key (InputState.mKeyMementos s)) ->
  let k := InputState.cancel_key t id m in let s' := (InputState.trackKey s k (KeyEntry.action k) (KeyEntry.flags k)).2 in
  InputState.mKeyMementos s' = filter (fun x => key_key x <> key_key m) (InputState.mKeyMementos s) /\ InputState.mMotionMementos s' = InputState.mMotionMementos s.
Proof.
  intros Hnd k. pose proof (erase_key_filter s k Hnd) as Ef. unfold InputState.trackKey. cbn [KeyEntry.action k InputState.cancel_key]. simpl.
  destruct (has _ _); simpl; (split; [exact Ef|done]).
Qed.

(** *** One after the other *)

Lemma enqueued_app c s s' xs ys : enqueued (enqueued c s xs) s' ys = enqueued c s' (xs ++ ys).
Proof. destruct c. unfold enqueued. simpl. unfold with_field, Connection.set_inputState, Connection.set_outboundQueue. simpl. by rewrite app_assoc. Qed.

Lemma enqueued_nil c : enqueued c (Connection.inputState c) [] = c.
Proof. destruct c. unfold enqueued, with_field, Connection.set_inputState, Connection.set_outboundQueue. simpl. by rewrite app_nil_r. Qed.

Lemma cancel_motions d0 token t (ids : nat -> Z) todo : forall d c new i n,
  NoDup (map memento_key (InputState.mMotionMementos (Connection.inputState c))) -> NoDup (map memento_key todo) ->
  (forall m, m ∈ todo -> m ∈ InputState.mMotionMementos (Connection.inputState c)) ->
  let es := imap (fun j m => Motion (InputState.cancel_motion t (ids (n + j)%nat) m)) todo in
  exists d' xs, enqueue_all d c (window_target d0 token) new i es =
    Some (d', enqueued c ((Connection.inputState c) <| InputState.mMotionMementos :=
                filter (fun x => memento_key x ∉ map memento_key todo) (InputState.mMotionMementos (Connection.inputState c)) |>) xs) /\
    map entry_event xs = map as_is es.
Proof.
  induction todo as [|m todo IH]; intros d c new i n Hnd Htodo Hin.
  - exists d, []. split; [|done]. simpl. rewrite filter_all_in by (intros; apply not_elem_of_nil). f_equal. f_equal.
    rewrite <- (enqueued_nil c) at 1. f_equal. by destruct (Connection.inputState c).
  - simpl in Htodo. apply NoDup_cons in Htodo as [Hm Htodo]. cbn [imap enqueue_all].
    set (e := InputState.cancel_motion t (ids (n + 0)%nat) m). set (s := Connection.inputState c) in *.
    pose proof (track_cancel s m t (ids (n + 0)%nat)) as Ht.
    destruct (enqueue_window_motion d0 token d c (freshAddress new i) (freshAddress new i) e (freshId new i)
      (s <| InputState.mMotionMementos := filter (fun x => memento_key x <> memento_key m) (InputState.mMotionMementos s) |>)) as (d1 & x & E1 & Hx).
    { unfold e, InputState.cancel_motion. simpl. by destruct (MotionMemento.hovering m). }
    { intros flags. apply Ht; [done|set_solver]. }
    rewrite E1. simpl. set (c1 := enqueued c _ [x]).
    destruct (IH d1 c1 new (i + 1) (S n)) as (d2 & xs & E2 & Hxs).
    { by apply NoDup_map_filter. }
    { done. }
    { intros m' Hm'. apply list_elem_of_filter. split; [|set_solver]. intros Ek. apply Hm. rewrite <- Ek. apply elem_of_map. eauto. }
    exists d2, (x :: xs). split.
    + assert (Ees : imap ((fun j m0 => Motion (InputState.cancel_motion t (ids (n + j)%nat) m0)) ∘ S) todo =
        imap (fun j m0 => Motion (InputState.cancel_motion t (ids (S n + j)%nat) m0)) todo).
      { apply imap_ext. intros j m' _. simpl. by rewrite Nat.add_succ_r. }
      rewrite Ees, E2. unfold c1. rewrite enqueued_app. f_equal. f_equal. simpl. f_equal.
      unfold with_field, InputState.set_mMotionMementos. simpl. f_equal. rewrite filter_twice. apply filter_ext_in. intros y _. cbn [map]. rewrite not_elem_of_cons. tauto.
    + simpl. rewrite Hx. f_equal. rewrite Hxs. f_equal. apply imap_ext. intros j m' _. simpl. by rewrite Nat.add_succ_r.
Qed.

Lemma cancel_keys d0 token t (ids : nat -> Z) todo : forall d c new i n,
  NoDup (map key_key (InputState.mKeyMementos (Connection.inputState c))) ->
  let es := imap (fun j m => Key (InputState.cancel_key t (ids (n + j)%nat) m)) todo in
  exists d' s' xs, enqueue_all d c (window_target d0 token) new i es = Some (d', enqueued c s' xs) /\ map entry_event xs = map as_is es /\
    InputState.mKeyMementos s' = filter (fun x => key_key x ∉ map key_key todo) (InputState.mKeyMementos (Connection.inputState c)) /\
    InputState.mMotionMementos s' = InputState.mMotionMementos (Connection.inputState c).
Proof.
  induction todo as [|m todo IH]; intros d c new i n Hnd.
  - exists d, (Connection.inputState c), []. rewrite enqueued_nil. split; [done|]. split; [done|]. split; [|done]. symmetry. apply filter_all_in. intros; apply not_elem_of_nil.
  - cbn [imap enqueue_all]. set (k := InputState.cancel_key t (ids (n + 0)%nat) m).
    destruct (enqueue_window_key d0 token d c (freshAddress new i) (freshAddress new i) k (freshId new i)) as (d1 & x & E1 & Hx).
    destruct (cancel_key_state (Connection.inputState c) m t (ids (n + 0)%nat) Hnd) as [Ek Em]. fold k in Ek, Em.
    rewrite E1. cbn [mbind option_bind fst snd]. set (s1 := (InputState.trackKey _ k _ _).2) in *. set (c1 := enqueued c s1 [x]).
    destruct (IH d1 c1 new (i + 1) (S n)) as (d2 & s2 & xs & E2 & Hxs & Hk2 & Hm2).
    { change (Connection.inputState c1) with s1. rewrite Ek. by apply NoDup_map_filter. }
    exists d2, s2, (x :: xs). split; [|split; [|split]].
    + assert (Ees : imap ((fun j m0 => Key (InputState.cancel_key t (ids (n + j)%nat) m0)) ∘ S) todo =
        imap (fun j m0 => Key (InputState.cancel_key t (ids (S n + j)%nat) m0)) todo).
      { apply imap_ext. intros j m' _. simpl. by rewrite Nat.add_succ_r. }
      rewrite Ees, E2. unfold c1. by rewrite enqueued_app.
    + simpl. rewrite Hx. f_equal. rewrite Hxs. f_equal. apply imap_ext. intros j m' _. simpl. by rewrite Nat.add_succ_r.
    + rewrite Hk2. change (Connection.inputState c1) with s1. rewrite Ek, filter_twice. apply filter_ext_in. intros y _. cbn [map]. rewrite not_elem_of_cons. tauto.
    + rewrite Hm2. change (Connection.inputState c1) with s1. by rewrite Em.
Qed.

Lemma enqueue_all_app d c target new es es' : forall i, enqueue_all d c target new i (es ++ es') =
  r ← enqueue_all d c target new i es; enqueue_all r.1 r.2 target new (i + Z.of_nat (length es)) es'.
Proof.
  revert d c; induction es as [|e es IH]; intros d c i; simpl; [by rewrite Z.add_0_r|].
  destruct (enqueueDispatchEntryLocked _ _ _ _ _ _ _ _) as [[d1 c1]|]; simpl; [|done]. rewrite IH. by replace (i + 1 + Z.of_nat (length es)) with (i + Z.pos (Pos.of_succ_nat (length es))) by lia.
Qed.

(** ** All of them *)

(** The events that cancel are put into the queue, in their order, and what they cancel
    is not tracked any more. *)
Lemma enqueue_cancelation d0 token t options nextId d c new : distinct (Connection.inputState c) ->
  let s := Connection.inputState c in let es := InputState.synthesizeCancelationEvents s t options nextId in
  exists d' s' xs, enqueue_all d c (window_target d0 token) new 0 es = Some (d', enqueued c s' xs) /\ map entry_event xs = map as_is es /\
    InputState.mKeyMementos s' = filter (fun m => InputState.shouldCancelKey m options = false) (InputState.mKeyMementos s) /\
    InputState.mMotionMementos s' = filter (fun m => InputState.shouldCancelMotion m options = false) (InputState.mMotionMementos s).
Proof.
  intros [Hnd Hkeys]. simpl. set (s := Connection.inputState c). unfold InputState.synthesizeCancelationEvents.
  set (keys := filter (fun m => InputState.shouldCancelKey m options = true) _). set (motions := filter (fun m => InputState.shouldCancelMotion m options = true) _).
  destruct (cancel_keys d0 token t nextId keys d c new 0 0 Hkeys) as (d1 & s1 & xs1 & E1 & Hx1 & Hk1 & Hm1). simpl in E1, Hx1.
  rewrite enqueue_all_app, E1. simpl.
  destruct (cancel_motions d0 token t nextId motions d1 (enqueued c s1 xs1) new (0 + Z.of_nat (length (imap (fun i m => Key (InputState.cancel_key t (nextId i) m)) keys)))
    (length keys)) as (d2 & xs2 & E2 & Hx2).
  { simpl. by rewrite Hm1. }
  { by apply NoDup_map_filter. }
  { intros m [_ Hm]%list_elem_of_filter. simpl. by rewrite Hm1. }
  rewrite Z.add_0_l in *. rewrite E2. eexists d2, _, (xs1 ++ xs2). rewrite enqueued_app. split; [done|]. split; [by rewrite !map_app, Hx1, Hx2|]. simpl.
  split; [rewrite Hk1; unfold keys; by rewrite (filter_keys key_key)|]. rewrite Hm1. unfold motions. by rewrite (filter_keys memento_key).
Qed.

(** ** What the observer sees *)

Definition cancel_view (m : MotionMemento.t) : option (device * Z) :=
  Some (memento_device m, if MotionMemento.hovering m then AMOTION_EVENT_ACTION_HOVER_EXIT else AMOTION_EVENT_ACTION_CANCEL).

Lemma observed_filter ms dev h h' :
  observed_devices h' (filter (fun m => memento_key m <> (dev, h)) ms) = if Bool.eqb h' h then observed_devices h' ms ∖ {[dev]} else observed_devices h' ms.
Proof.
  apply set_eq. intros dev'.
  assert (Hl : dev' ∈ observed_devices h' (filter (fun m => memento_key m <> (dev, h)) ms) <-> dev' ∈ observed_devices h' ms /\ (dev', h') <> (dev, h)).
  { rewrite !elem_of_observed. setoid_rewrite list_elem_of_filter. split.
    - intros (Hj & m & [Hne Hm] & Hk). rewrite Hk in Hne. eauto.
    - intros [(Hj & m & Hm & Hk) Hne]. split; [done|]. exists m. rewrite Hk. auto. }
  rewrite Hl. destruct (Bool.eqb h' h) eqn:E.
  - apply eqb_prop in E as ->. rewrite elem_of_difference, elem_of_singleton. split; intros [H1 H2]; (split; [done|]); [by intros ->|by intros [= ->]].
  - apply eqb_false_iff in E. split; [tauto|]. intros H. split; [done|]. by intros [= -> ->].
Qed.

Lemma observe_cancel s m : m ∈ InputState.mMotionMementos s ->
  observe (view s) (memento_device m) (if MotionMemento.hovering m then AMOTION_EVENT_ACTION_HOVER_EXIT else AMOTION_EVENT_ACTION_CANCEL) =
  Some (view (s <| InputState.mMotionMementos := filter (fun x => memento_key x <> memento_key m) (InputState.mMotionMementos s) |>)).
Proof.
  intros Hm. unfold view at 2. change (InputState.mMotionMementos (_ <| InputState.mMotionMementos := ?ms |>)) with ms.
  pose proof (observed_filter (InputState.mMotionMementos s) (memento_device m) (MotionMemento.hovering m)) as Hf.
  change (memento_device m, MotionMemento.hovering m) with (memento_key m) in Hf. rewrite !Hf. unfold observe.
  destruct (has (source_of (memento_device m)) AINPUT_SOURCE_CLASS_JOYSTICK) eqn:Hj.
  - assert (Hno : forall h, observed_devices h (InputState.mMotionMementos s) ∖ {[memento_device m]} = observed_devices h (InputState.mMotionMementos s)).
    { intros h. apply set_eq. intros dev. rewrite elem_of_difference, elem_of_singleton. split; [tauto|]. intros Hd. split; [done|]. intros ->.
      apply elem_of_observed in Hd as [Hd _]. congruence. }
    destruct (MotionMemento.hovering m); cbn [Bool.eqb]; by rewrite Hno.
  - assert (Hin : memento_device m ∈ observed_devices (MotionMemento.hovering m) (InputState.mMotionMementos s)).
    { apply elem_of_observed. split; [done|]. eauto. }
    destruct (MotionMemento.hovering m); simpl; by rewrite bool_decide_true.
Qed.

Lemma observe_cancels todo : forall s, (forall m, m ∈ todo -> m ∈ InputState.mMotionMementos s) -> NoDup (map memento_key todo) ->
  observe_all (view s) (map cancel_view todo) =
  Some (view (s <| InputState.mMotionMementos := filter (fun x => memento_key x ∉ map memento_key todo) (InputState.mMotionMementos s) |>)).
Proof.
  induction todo as [|m todo IH]; intros s Hin Hnd.
  - simpl. rewrite filter_all_in by (intros; apply not_elem_of_nil). by destruct s.
  - cbn [map] in Hnd. apply NoDup_cons in Hnd as [Hm Hnd]. cbn [map observe_all cancel_view]. rewrite observe_cancel by set_solver. cbn [mbind option_bind].
    rewrite IH; [|intros m' Hm'|done].
    + f_equal. f_equal. simpl. unfold with_field, InputState.set_mMotionMementos. simpl. f_equal. rewrite filter_twice. apply filter_ext_in.
      intros y _. cbn [map]. rewrite not_elem_of_cons. tauto.
    + apply list_elem_of_filter. split; [|set_solver]. intros Ek. apply Hm. rewrite <- Ek. apply elem_of_map. eauto.
Qed.

Lemma entry_event_view xs es : map entry_event xs = map as_is es -> map entry_view xs = map (fun e => match e with Motion m => Some (entry_device m, MotionEntry.action m) | _ => None end) es.
Proof.
  revert es; induction xs as [|x xs IH]; intros [|e es] E; try done. cbn [map] in *. injection E as E1 E2 E3. rewrite (IH es E3). f_equal.
  unfold entry_view. rewrite E1, E2. by destruct e.
Qed.

(** the observer of the events that cancel *)
Lemma observe_cancelation s t options nextId xs : distinct s ->
  map entry_event xs = map as_is (InputState.synthesizeCancelationEvents s t options nextId) ->
  observe_all (view s) (map entry_view xs) =
  Some (view (s <| InputState.mMotionMementos := filter (fun m => InputState.shouldCancelMotion m options = false) (InputState.mMotionMementos s) |>)).
Proof.
  intros [Hnd _] Hxs%entry_event_view. rewrite Hxs. unfold InputState.synthesizeCancelationEvents. rewrite map_app, observe_all_app.
  assert (Hkeys : forall (l : list KeyMemento.t) (f : nat -> KeyMemento.t -> KeyEntry.t) v,
    observe_all v (map (fun e => match e with Motion m => Some (entry_device m, MotionEntry.action m) | _ => None end) (imap (fun i m => Key (f i m)) l)) = Some v).
  { induction l as [|k l IH]; intros f v; [done|]. simpl. apply (IH (f ∘ S)). }
  rewrite (Hkeys _ (fun i m => InputState.cancel_key t (nextId i) m)). cbn [mbind option_bind].
  set (motions := filter _ _) at 2.
  assert (Hm : map (fun e => match e with Motion m => Some (entry_device m, MotionEntry.action m) | _ => None end)
    (imap (fun i m => Motion (InputState.cancel_motion t (nextId (length (filter (fun m0 => InputState.shouldCancelKey m0 options = true) (InputState.mKeyMementos s)) + i)%nat) m)) motions)
    = map cancel_view motions).
  { generalize (length (filter (fun m0 => InputState.shouldCancelKey m0 options = true) (InputState.mKeyMementos s))). induction motions as [|m l IH]; intros n; [done|].
    cbn [imap map]. f_equal. rewrite <- (IH (S n)). f_equal. apply imap_ext. intros i m' _. simpl. by rewrite Nat.add_succ_r. }
  rewrite Hm, observe_cancels.
  - unfold motions. by rewrite (filter_keys memento_key).
  - intros m [_ H]%list_elem_of_filter. done.
  - by apply NoDup_map_filter.
Qed.

End Cancel.
