(* ===== verification/InputTransfer.v ===== *)
(** * Moving a touch to another window

    Merging the pointers of one connection into the tracked state of another one, and the
    events that tell its window about them. Where no pointer hovers, the other window gets
    a consistent stream: a touch begins before its pointers go down one by one. *)

From S2P Require Import Prelude PointerCoords InputEvents InputState InputProtocol InputConnection InputStreams InputCancel.

Definition is_pointer (m : MotionMemento.t) : bool := has (MotionMemento.source m) AINPUT_SOURCE_CLASS_POINTER.

(** no pointer hovers *)
Definition no_hover (ms : list MotionMemento.t) : Prop := forall m, m ∈ ms -> is_pointer m = true -> MotionMemento.hovering m = false.

(** ** Merging *)

(** What holds of the other state while mementos are merged into [others0]: the pointers
    from [firstNewPointerIdx] on are new, and all of them are if the motion is. *)
Record merging (others0 others : list MotionMemento.t) : Prop := {
  merging_distinct : NoDup (map memento_key others);
  merging_pointers : forall m, m ∈ others -> MotionMemento.firstNewPointerIdx m < Z.of_nat (length (MotionMemento.pointers m)) /\ has_pointers m;
  merging_hover : no_hover others;
  merging_fresh : forall m, m ∈ others -> 0 <= MotionMemento.firstNewPointerIdx m -> is_pointer m = true;
  merging_new : forall m, m ∈ others -> MotionMemento.firstNewPointerIdx m = 0 -> memento_key m ∉ map memento_key others0;
  merging_old : forall m, m ∈ others -> MotionMemento.firstNewPointerIdx m <> 0 -> memento_key m ∈ map memento_key others0;
  merging_kept : forall k, k ∈ map memento_key others0 -> k ∈ map memento_key others }.

Lemma merging_start others : NoDup (map memento_key others) -> Forall settled others -> no_hover others -> merging others others.
Proof.
  intros Hnd Hs Hh. rewrite Forall_forall in Hs. split; [done| |done|..|done].
  - intros m Hm. destruct (Hs m Hm). split; [lia|done].
  - intros m Hm Hf. destruct (Hs m Hm). lia.
  - intros m Hm Hf. destruct (Hs m Hm). lia.
  - intros m Hm _. apply elem_of_map. eauto.
Qed.

Lemma same_device_spec m o : InputState.same_device m o = true <-> memento_device m = memento_device o.
Proof.
  unfold InputState.same_device, memento_device. rewrite !andb_true_iff, !Z.eqb_eq. split; [intros [[-> ->] ->]; done|intros E; injection E; auto].
Qed.

(** a memento without the mark that its pointers are new *)
Lemma merge_step others0 others m others' : merging others0 others -> is_pointer m = true -> MotionMemento.hovering m = false -> has_pointers m ->
  InputState.merge_memento m others = Some others' -> merging others0 others'.
Proof.
  intros Hm Hp Hh Hps. unfold InputState.merge_memento. destruct (InputState.find_index (InputState.same_device m) others) as [j|] eqn:Ej.
  - destruct (find_index_Some _ _ _ Ej) as (o & Ho & Hd%same_device_spec). rewrite Ho. cbn [mbind option_bind].
    destruct (MotionMemento.mergePointerStateTo m o) as [o'|] eqn:Eo; cbn [mbind option_bind]; [|done]. intros [= <-].
    assert (Hin : o ∈ others) by (by eapply list_elem_of_lookup_2).
    destruct (merging_pointers _ _ Hm o Hin) as [Hlt Hpo].
    assert (Hpt : is_pointer o = true) by (unfold is_pointer in *; unfold memento_device in Hd; injection Hd as _ <- _; done).
    assert (Ho' : memento_key o' = memento_key o /\ is_pointer o' = true /\ (MotionMemento.firstNewPointerIdx o' = 0 <-> MotionMemento.firstNewPointerIdx o = 0) /\
      MotionMemento.firstNewPointerIdx o' < Z.of_nat (length (MotionMemento.pointers o')) /\ has_pointers o').
    { unfold MotionMemento.mergePointerStateTo in Eo. rewrite bool_decide_false in Eo by done. case_match; [done|]. injection Eo as <-.
      assert (1 <= length (MotionMemento.pointers m))%nat by (unfold has_pointers in Hps; destruct (MotionMemento.pointers m); simpl; [done|lia]).
      assert (1 <= length (MotionMemento.pointers o))%nat by (unfold has_pointers in Hpo; destruct (MotionMemento.pointers o); simpl; [done|lia]).
      split; [done|]. split; [done|]. simpl. rewrite length_app. split; [|split].
      - destruct (MotionMemento.firstNewPointerIdx o <? 0) eqn:E; bool_to_prop; lia.
      - destruct (MotionMemento.firstNewPointerIdx o <? 0) eqn:E; bool_to_prop; lia.
      - unfold has_pointers in *. simpl. intros E%app_eq_nil. destruct E. done. }
    destruct Ho' as (Hk & Hpo' & Hz & Hlt' & Hps').
    assert (Hins : forall x, x ∈ <[j := o']> others -> x ∈ others \/ x = o').
    { intros x (i & Hi)%list_elem_of_lookup. destruct (decide (i = j)) as [->|Hne].
      - rewrite list_lookup_insert_eq in Hi by (by eapply lookup_lt_Some). right. congruence.
      - rewrite list_lookup_insert_ne in Hi by done. left. by eapply list_elem_of_lookup_2. }
    assert (Hkeys : map memento_key (<[j := o']> others) = map memento_key others) by (by eapply map_insert_key).
    destruct Hm as [M1 M2 M3 M4 M5 M6 M7]. split.
    + by rewrite Hkeys.
    + intros x [Hx| ->]%Hins; auto.
    + intros x [Hx| ->]%Hins; auto. intros _. pose proof (M3 o Hin Hpt) as Hho. unfold memento_key in Hk. injection Hk as _ _ _ ->. done.
    + intros x [Hx| ->]%Hins; auto.
    + intros x [Hx| ->]%Hins; auto. rewrite Hz, Hk. auto.
    + intros x [Hx| ->]%Hins; auto. rewrite Hz, Hk. auto.
    + by rewrite Hkeys.
  - intros [= <-]. set (n := m <| MotionMemento.firstNewPointerIdx := 0 |>).
    assert (Hnew : forall x, x ∈ others -> memento_key x <> memento_key n).
    { intros x Hx E. unfold memento_key in E. pose proof (find_index_None _ _ Ej x Hx) as Hf. apply not_true_iff_false in Hf. apply Hf.
      apply same_device_spec. assert (Hd := f_equal fst E). simpl in Hd. by rewrite Hd. }
    assert (Hin : forall x, x ∈ others ++ [n] -> x ∈ others \/ x = n) by (intros x; rewrite elem_of_app, list_elem_of_singleton; tauto).
    destruct Hm as [M1 M2 M3 M4 M5 M6 M7]. split.
    + by apply distinct_add.
    + intros x [Hx| ->]%Hin; auto. split; [|done]. simpl. unfold has_pointers in Hps. destruct (MotionMemento.pointers m); simpl; [done|lia].
    + intros x [Hx| ->]%Hin; auto.
    + intros x [Hx| ->]%Hin; auto.
    + intros x [Hx| ->]%Hin; auto. intros _ (y & Hy & Ek)%M7%elem_of_map. by apply (Hnew y).
    + intros x [Hx| ->]%Hin; auto. done.
    + intros k Hk%M7. rewrite map_app, elem_of_app. by left.
Qed.

(** What a merge does to the state that it reads, ... *)
Lemma merge_mementos_from ms : forall others ms' others', Forall has_pointers ms -> InputState.merge_mementos ms others = Some (ms', others') ->
  map memento_key ms' = map memento_key ms /\ Forall has_pointers ms' /\ Forall2 (fun m m' => is_pointer m = false -> m' = m) ms ms'.
Proof.
  induction ms as [|m ms IH]; intros others ms' others' Hps E; simpl in E; [by injection E as <- <-|]. apply Forall_cons in Hps as [Hp Hps].
  destruct (has (MotionMemento.source m) AINPUT_SOURCE_CLASS_POINTER) eqn:Ep.
  - destruct (InputState.merge_memento m others) as [others1|]; cbn [mbind option_bind] in E; [|done].
    destruct (InputState.merge_mementos ms others1) as [[ms1 others2]|] eqn:E2; cbn [mbind option_bind] in E; [|done]. injection E as <- <-.
    destruct (IH _ _ _ Hps E2) as (Hk2 & Hp2 & Hf2). simpl. rewrite Hk2. split; [by destruct (InputState.find_index _ _)|].
    split; (constructor; [|done]); [by destruct (InputState.find_index _ _)|unfold is_pointer; congruence].
  - destruct (InputState.merge_mementos ms others) as [[ms1 others2]|] eqn:E2; cbn [mbind option_bind] in E; [|done]. injection E as <- <-.
    destruct (IH _ _ _ Hps E2) as (Hk2 & Hp2 & Hf2). simpl. rewrite Hk2. split; [done|]. split; by constructor.
Qed.

(** ... and to the state that it changes. *)
Lemma merge_mementos_into others0 ms : forall others ms' others', merging others0 others -> no_hover ms -> Forall has_pointers ms ->
  InputState.merge_mementos ms others = Some (ms', others') -> merging others0 others'.
Proof.
  induction ms as [|m ms IH]; intros others ms' others' Hm Hh Hps E; simpl in E; [by injection E as <- <-|].
  apply Forall_cons in Hps as [Hp Hps]. assert (Hh' : no_hover ms) by (intros x Hx; apply Hh; set_solver).
  destruct (has (MotionMemento.source m) AINPUT_SOURCE_CLASS_POINTER) eqn:Ep.
  - destruct (InputState.merge_memento m others) as [others1|] eqn:E1; cbn [mbind option_bind] in E; [|done].
    destruct (InputState.merge_mementos ms others1) as [[ms1 others2]|] eqn:E2; cbn [mbind option_bind] in E; [|done]. injection E as <- <-.
    eapply IH; [|done|done|done]. eapply merge_step; [done|done|apply Hh; [set_solver|done]|done|done].
  - destruct (InputState.merge_mementos ms others) as [[ms1 others2]|] eqn:E2; cbn [mbind option_bind] in E; [|done]. injection E as <- <-. by eapply IH.
Qed.

(** merging into a state of which nothing but [mergeable] is known *)
Lemma merge_mementos_mergeable ms : forall others ms' others', NoDup (map memento_key others) -> Forall has_pointers others -> Forall has_pointers ms ->
  InputState.merge_mementos ms others = Some (ms', others') -> NoDup (map memento_key others') /\ Forall has_pointers others'.
Proof.
  induction ms as [|m ms IH]; intros others ms' others' Hnd Ho Hps E; simpl in E; [by injection E as <- <-|]. apply Forall_cons in Hps as [Hp Hps].
  destruct (has _ _).
  - destruct (InputState.merge_memento m others) as [others1|] eqn:E1; cbn [mbind option_bind] in E; [|done].
    destruct (InputState.merge_mementos ms others1) as [[ms1 others2]|] eqn:E2; cbn [mbind option_bind] in E; [|done]. injection E as <- <-.
    enough (NoDup (map memento_key others1) /\ Forall has_pointers others1) as [Hnd1 Ho1] by (by eapply IH).
    unfold InputState.merge_memento in E1. destruct (InputState.find_index _ _) as [j|] eqn:Ej.
    + destruct (find_index_Some _ _ _ Ej) as (o & Hj & _). rewrite Hj in E1. cbn [mbind option_bind] in E1.
      destruct (MotionMemento.mergePointerStateTo m o) as [o'|] eqn:Eo; cbn [mbind option_bind] in E1; [|done]. injection E1 as <-.
      unfold MotionMemento.mergePointerStateTo in Eo. rewrite bool_decide_false in Eo by done. case_match; [done|]. injection Eo as <-.
      split; [by erewrite map_insert_key|]. apply Forall_insert; [done|]. unfold has_pointers in *. simpl. intros Ea%app_eq_nil. by destruct Ea.
    + injection E1 as <-. split; [|apply Forall_app; split; [done|by constructor]].
      apply distinct_add; [done|]. intros x Hx Ek. pose proof (find_index_None _ _ Ej x Hx) as Hf. apply not_true_iff_false in Hf. apply Hf.
      apply same_device_spec. assert (Hd := f_equal fst Ek). simpl in Hd. by rewrite Hd.
  - destruct (InputState.merge_mementos ms others) as [[ms1 others2]|] eqn:E2; cbn [mbind option_bind] in E; [|done]. injection E as <- <-. by eapply IH.
Qed.

(** ** Telling the window *)

(** a touch begins *)
Definition add_touch (dev : device) (st : stream) : stream :=
  if has (source_of dev) AINPUT_SOURCE_CLASS_JOYSTICK then st else observed ({[dev]} ∪ touching st) (hovering st).

Lemma observe_down st dev : observe st dev AMOTION_EVENT_ACTION_DOWN = Some (add_touch dev st).
Proof. unfold observe, add_touch. by destruct (has _ _). Qed.

Lemma observe_pointer_down st dev action : Z.land action AMOTION_EVENT_ACTION_MASK = AMOTION_EVENT_ACTION_POINTER_DOWN ->
  has (source_of dev) AINPUT_SOURCE_CLASS_JOYSTICK = true \/ dev ∈ touching st -> observe st dev action = Some st.
Proof.
  intros Ha Hd. unfold observe. rewrite Ha. destruct (has (source_of dev) AINPUT_SOURCE_CLASS_JOYSTICK) eqn:E; [done|].
  destruct Hd as [?|Hd]; [done|]. simpl. rewrite bool_decide_true by done. by rewrite orb_true_r.
Qed.

Lemma pointer_index_masked i : Z.land (Z.lor AMOTION_EVENT_ACTION_POINTER_DOWN (Z.shiftl i AMOTION_EVENT_ACTION_POINTER_INDEX_SHIFT)) AMOTION_EVENT_ACTION_MASK = AMOTION_EVENT_ACTION_POINTER_DOWN.
Proof.
  rewrite Z.land_lor_distr_l. change AMOTION_EVENT_ACTION_MASK with (Z.ones 8). rewrite !Z.land_ones, Z.shiftl_mul_pow2 by (unfold AMOTION_EVENT_ACTION_POINTER_INDEX_SHIFT; lia).
  unfold AMOTION_EVENT_ACTION_POINTER_INDEX_SHIFT. by rewrite Z.mod_mul.
Qed.

(** the event of the first pointer begins the touch, those of the others add to it *)
Lemma pointer_down_first t id m : MotionEntry.action (InputState.pointer_down t id m 0) = AMOTION_EVENT_ACTION_DOWN.
Proof. done. Qed.

Lemma pointer_down_next t id m i : (1 <= i)%nat ->
  Z.land (MotionEntry.action (InputState.pointer_down t id m i)) AMOTION_EVENT_ACTION_MASK = AMOTION_EVENT_ACTION_POINTER_DOWN.
Proof.
  intros Hi. unfold InputState.pointer_down. cbn [MotionEntry.action InputState.motion_event]. rewrite (proj2 (Z.leb_gt _ _)) by lia. apply pointer_index_masked.
Qed.

Lemma pointer_down_pointers t id m i : has_pointers m -> MotionEntry.pointers (InputState.pointer_down t id m i) <> [].
Proof. unfold has_pointers. simpl. by destruct (MotionMemento.pointers m). Qed.

Lemma history_enqueued c s xs : history (enqueued c s xs) = history c ++ map entry_view xs.
Proof. unfold history, sent, enqueued. simpl. by rewrite map_app, app_assoc. Qed.

Section Announce.
Context `{B32 : BitSet32.ops} `{B64 : BitSet64.ops}.
Context (d0 : Dispatcher.t) (token t : Z).

(** *** One pointer *)

Lemma view_add_touch s m flags : tracked_ok s -> MotionEntry.pointers m <> [] ->
  let r := InputState.trackMotion s m AMOTION_EVENT_ACTION_DOWN flags in r.1 = true /\ tracked_ok r.2 /\ view r.2 = add_touch (entry_device m) (view s).
Proof.
  intros Hok Hp. destruct (track_begin_view s m flags false Hok Hp) as (Hok' & Hr & Hv). unfold InputState.trackMotion. simpl.
  split; [done|]. split; [done|]. unfold view at 1. simpl in Hv. rewrite !Hv. unfold add_touch. change (source_of (entry_device m)) with (MotionEntry.source m).
  by destruct (has _ _).
Qed.

Lemma announce_first d c m new i id na : tracked_ok (Connection.inputState c) -> has_pointers m ->
  exists d' s' x, enqueueDispatchEntryLocked d c na na (Motion (InputState.pointer_down t id m 0)) (window_target d0 token) InputTarget.FLAG_DISPATCH_AS_IS (freshId new i) =
    Some (d', enqueued c s' [x]) /\ tracked_ok s' /\ view s' = add_touch (memento_device m) (view (Connection.inputState c)) /\
    entry_view x = Some (memento_device m, AMOTION_EVENT_ACTION_DOWN).
Proof.
  intros Hok Hp. set (e := InputState.pointer_down t id m 0).
  destruct (enqueue_window d0 token d c na na e (freshId new i)) as (d' & x & flags & E & Hx); [done|].
  destruct (view_add_touch (Connection.inputState c) e flags Hok (pointer_down_pointers t id m 0 Hp)) as (Hr & Hok' & Hv).
  change (MotionEntry.action e) with AMOTION_EVENT_ACTION_DOWN in E. rewrite Hr in E. eexists d', _, x. split; [exact E|]. split; [done|]. split; [exact Hv|].
  unfold entry_view. injection Hx as Hx1 Hx2. by rewrite Hx1, Hx2.
Qed.

Lemma announce_next d c m new i id na j st : tracked_ok (Connection.inputState c) -> has_pointers m -> (1 <= j)%nat ->
  has (source_of (memento_device m)) AINPUT_SOURCE_CLASS_JOYSTICK = true \/ memento_device m ∈ touching st ->
  exists d' s' xs, enqueueDispatchEntryLocked d c na na (Motion (InputState.pointer_down t id m j)) (window_target d0 token) InputTarget.FLAG_DISPATCH_AS_IS (freshId new i) =
    Some (d', enqueued c s' xs) /\ tracked_ok s' /\ view s' = view (Connection.inputState c) /\ observe_all st (map entry_view xs) = Some st.
Proof.
  intros Hok Hp Hj Hd. set (e := InputState.pointer_down t id m j). pose proof (pointer_down_next t id m j Hj) as Ha. fold e in Ha.
  destruct (enqueue_window d0 token d c na na e (freshId new i)) as (d' & x & flags & E & Hx).
  { intros Hh. rewrite Hh in Ha. done. }
  destruct (track_move_view (Connection.inputState c) e flags Hok (pointer_down_pointers t id m j Hp)) as (Hok' & Hv & _).
  assert (Et : InputState.trackMotion (Connection.inputState c) e (MotionEntry.action e) flags = InputState.track_move (Connection.inputState c) e flags).
  { unfold InputState.trackMotion. by rewrite Ha. }
  rewrite Et in E. eexists d', _, _. split; [exact E|]. split; [done|]. split; [done|].
  destruct (InputState.track_move (Connection.inputState c) e flags).1; [|done]. simpl. unfold entry_view. injection Hx as Hx1 Hx2. rewrite Hx1, Hx2. simpl.
  by rewrite observe_pointer_down.
Qed.

(** *** One motion *)

Lemma announce_rest idxs : forall d c m new i ids st, tracked_ok (Connection.inputState c) -> has_pointers m -> Forall (fun j => 1 <= j)%nat idxs ->
  has (source_of (memento_device m)) AINPUT_SOURCE_CLASS_JOYSTICK = true \/ memento_device m ∈ touching st ->
  exists d' s' xs, enqueue_all d c (window_target d0 token) new i (map Motion (map (fun j => InputState.pointer_down t (ids j) m j) idxs)) = Some (d', enqueued c s' xs) /\
    tracked_ok s' /\ view s' = view (Connection.inputState c) /\ observe_all st (map entry_view xs) = Some st.
Proof.
  induction idxs as [|j idxs IH]; intros d c m new i ids st Hok Hp Hj Hd.
  - exists d, (Connection.inputState c), []. by rewrite enqueued_nil.
  - apply Forall_cons in Hj as [Hj Hjs]. cbn [map enqueue_all].
    destruct (announce_next d c m new i (ids j) (freshAddress new i) j st Hok Hp Hj Hd) as (d1 & s1 & xs1 & E1 & Hok1 & Hv1 & Ho1). rewrite E1. cbn [mbind option_bind fst snd].
    destruct (IH d1 (enqueued c s1 xs1) m new (i + 1) ids st Hok1 Hp Hjs Hd) as (d2 & s2 & xs2 & E2 & Hok2 & Hv2 & Ho2).
    exists d2, s2, (xs1 ++ xs2). rewrite E2, enqueued_app. split; [done|]. split; [done|]. split; [by rewrite Hv2|].
    rewrite map_app, observe_all_app, Ho1. done.
Qed.

Lemma announce_motion d c m new i ids st : tracked_ok (Connection.inputState c) -> has_pointers m -> 0 <= MotionMemento.firstNewPointerIdx m ->
  (MotionMemento.firstNewPointerIdx m <> 0 -> has (source_of (memento_device m)) AINPUT_SOURCE_CLASS_JOYSTICK = true \/ memento_device m ∈ touching st) ->
  let add := if MotionMemento.firstNewPointerIdx m =? 0 then add_touch (memento_device m) else fun st => st in
  exists d' s' xs, enqueue_all d c (window_target d0 token) new i (map Motion (InputState.down_events t ids m)) = Some (d', enqueued c s' xs) /\
    tracked_ok s' /\ view s' = add (view (Connection.inputState c)) /\ observe_all st (map entry_view xs) = Some (add st).
Proof.
  intros Hok Hp Hf Hd. unfold InputState.down_events. destruct (MotionMemento.firstNewPointerIdx m =? 0) eqn:E0; bool_to_prop; simpl.
  - rewrite E0. assert (Hlen : (1 <= length (MotionMemento.pointers m))%nat) by (unfold has_pointers in Hp; destruct (MotionMemento.pointers m); simpl; [done|lia]).
    change (Z.to_nat 0) with 0%nat. rewrite Nat.sub_0_r. destruct (length (MotionMemento.pointers m)) as [|n]; [lia|]. cbn [seq map enqueue_all].
    destruct (announce_first d c m new i (ids 0%nat) (freshAddress new i) Hok Hp) as (d1 & s1 & x & E1 & Hok1 & Hv1 & Hx). rewrite E1. cbn [mbind option_bind fst snd].
    destruct (announce_rest (seq 1 n) d1 (enqueued c s1 [x]) m new (i + 1) ids (add_touch (memento_device m) st) Hok1 Hp) as (d2 & s2 & xs & E2 & Hok2 & Hv2 & Ho2).
    { apply Forall_forall. intros j Hj%elem_of_seq. lia. }
    { unfold add_touch. destruct (has _ _); [by left|right]. set_solver. }
    exists d2, s2, (x :: xs). rewrite E2, enqueued_app. split; [done|]. split; [done|]. split; [by rewrite Hv2|].
    cbn [map observe_all]. rewrite Hx, observe_down. done.
  - destruct (announce_rest (seq (Z.to_nat (MotionMemento.firstNewPointerIdx m)) (length (MotionMemento.pointers m) - Z.to_nat (MotionMemento.firstNewPointerIdx m))) d c m new i ids st Hok Hp)
      as (d2 & s2 & xs & E2 & Hok2 & Hv2 & Ho2); [|auto|eauto 10].
    apply Forall_forall. intros j Hj%elem_of_seq. lia.
Qed.

(** *** All of them *)

(** the devices of motions that the window does not know *)
Definition fresh_devices (ms : list MotionMemento.t) : gset device :=
  list_to_set (map memento_device (filter (fun m => (InputState.needs_down m = true /\ MotionMemento.firstNewPointerIdx m = 0) /\
    has (MotionMemento.source m) AINPUT_SOURCE_CLASS_JOYSTICK = false) ms)).

Lemma fresh_cons m ms : fresh_devices (m :: ms) =
  (if InputState.needs_down m && (MotionMemento.firstNewPointerIdx m =? 0) && negb (has (MotionMemento.source m) AINPUT_SOURCE_CLASS_JOYSTICK) then {[memento_device m]} else ∅) ∪ fresh_devices ms.
Proof.
  unfold fresh_devices. rewrite filter_cons.
  destruct (InputState.needs_down m) eqn:E1, (MotionMemento.firstNewPointerIdx m =? 0) eqn:E2, (has (MotionMemento.source m) _) eqn:E3; bool_to_prop; cbn [andb negb];
    case_decide as Hd; cbn [map list_to_set]; (try (destruct Hd as [[? ?] ?]; congruence)); (try (exfalso; apply Hd; done)); (by rewrite (left_id_L ∅ (∪))) || done.
Qed.

Lemma announce_all ms : forall d c new i (ids : nat -> nat -> Z) n st, tracked_ok (Connection.inputState c) -> Forall has_pointers ms ->
  (forall m, m ∈ ms -> InputState.needs_down m = true -> MotionMemento.firstNewPointerIdx m <> 0 ->
     has (source_of (memento_device m)) AINPUT_SOURCE_CLASS_JOYSTICK = true \/ memento_device m ∈ touching st) ->
  view (Connection.inputState c) = observed (fresh_devices ms ∪ touching st) (hovering st) ->
  exists d' s' xs, enqueue_all d c (window_target d0 token) new i
      (map Motion (concat (imap (fun j m => if InputState.needs_down m then InputState.down_events t (ids (n + j)%nat) m else []) ms))) = Some (d', enqueued c s' xs) /\
    tracked_ok s' /\ observe_all st (map entry_view xs) = Some (view s').
Proof.
  induction ms as [|m ms IH]; intros d c new i ids n st Hok Hps Hold Hv.
  - exists d, (Connection.inputState c), []. rewrite enqueued_nil. split; [done|]. split; [done|]. rewrite Hv. simpl. f_equal. destruct st; simpl. f_equal. set_solver.
  - apply Forall_cons in Hps as [Hp Hps]. cbn [imap concat]. rewrite map_app, enqueue_all_app, fresh_cons in *.
    assert (Ei : imap ((fun j m0 => if InputState.needs_down m0 then InputState.down_events t (ids (n + j)%nat) m0 else []) ∘ S) ms =
      imap (fun j m0 => if InputState.needs_down m0 then InputState.down_events t (ids (S n + j)%nat) m0 else []) ms).
    { apply imap_ext. intros j m' _. simpl. by rewrite Nat.add_succ_r. }
    destruct (InputState.needs_down m) eqn:End; cbn [map enqueue_all mbind option_bind fst snd] in *.
    2:{ rewrite Ei, Z.add_0_r. apply IH; [done|done|intros m' Hm'; apply Hold; set_solver|]. rewrite Hv. f_equal. simpl. set_solver. }
    assert (Hf : 0 <= MotionMemento.firstNewPointerIdx m) by (unfold InputState.needs_down in End; bool_to_prop; done).
    destruct (announce_motion d c m new i (ids (n + 0)%nat) st Hok Hp Hf) as (d1 & s1 & xs1 & E1 & Hok1 & Hv1 & Ho1); [by apply Hold; [set_solver|]|].
    rewrite E1. cbn [mbind option_bind fst snd]. rewrite Ei.
    set (st1 := (if MotionMemento.firstNewPointerIdx m =? 0 then add_touch (memento_device m) else fun st => st) st) in *.
    destruct (IH d1 (enqueued c s1 xs1) new (i + Z.of_nat (length (map Motion (InputState.down_events t (ids (n + 0)%nat) m)))) ids (S n) st1) as (d2 & s2 & xs2 & E2 & Hok2 & Ho2).
    + done.
    + done.
    + intros m' Hm' Hn' Hz'. destruct (Hold m') as [?|Hin]; [set_solver|done|done|by left|right]. unfold st1, add_touch. repeat case_match; set_solver.
    + change (Connection.inputState (enqueued c s1 xs1)) with s1. rewrite Hv1, Hv. unfold st1, add_touch. change (source_of (memento_device m)) with (MotionMemento.source m).
      destruct (MotionMemento.firstNewPointerIdx m =? 0), (has (MotionMemento.source m) _); simpl; f_equal; set_solver.
    + exists d2, s2, (xs1 ++ xs2). rewrite E2, enqueued_app. split; [done|]. split; [done|]. rewrite map_app, observe_all_app, Ho1. done.
Qed.

End Announce.

(** * The pointers of a touch that moves

    When the pointers of one connection are merged into another one, none is lost and none
    is made up; and the window that gets them is told of each. *)

(** the pointers of a device, in the order of the mementos *)
Definition of_device (dev : device) (ms : list MotionMemento.t) : list MotionMemento.t := filter (fun m => memento_device m = dev) ms.
Definition pointers_at (ms : list MotionMemento.t) (dev : device) : list pointer := concat (map MotionMemento.pointers (of_device dev ms)).

(** the pointers that go over: those of pointer devices *)
Definition moved (ms : list MotionMemento.t) (dev : device) : list pointer :=
  if has (source_of dev) AINPUT_SOURCE_CLASS_POINTER then pointers_at ms dev else [].

(** ** One memento of each pointer device *)

Lemma of_device_single ms dev : NoDup (map memento_key ms) -> no_hover ms -> has (source_of dev) AINPUT_SOURCE_CLASS_POINTER = true ->
  of_device dev ms = [] \/ exists m, of_device dev ms = [m] /\ m ∈ ms /\ memento_device m = dev.
Proof.
  intros Hnd Hh Hp. pose proof (NoDup_map_filter memento_key (fun m => memento_device m = dev) ms Hnd) as Hk.
  assert (Hin : forall m, m ∈ of_device dev ms -> m ∈ ms /\ memento_device m = dev) by (intros m [? ?]%list_elem_of_filter; done).
  unfold of_device in *. destruct (filter _ ms) as [|x [|y l]]; [by left|right; exists x; split; [done|apply Hin; set_solver]|]. exfalso.
  destruct (Hin x ltac:(set_solver)) as [Hx Dx], (Hin y ltac:(set_solver)) as [Hy Dy]. cbn [map] in Hk. apply NoDup_cons in Hk as [Hk _]. apply Hk.
  assert (Hkey : forall m, m ∈ ms -> memento_device m = dev -> memento_key m = (dev, false)).
  { intros m Hm Hd. unfold memento_key. rewrite Hd, (Hh m Hm); [done|]. unfold is_pointer. rewrite <- Hd in Hp. exact Hp. }
  rewrite (Hkey x), <- (Hkey y) by done. set_solver.
Qed.

Lemma pointers_at_cons m ms dev : pointers_at (m :: ms) dev = (if decide (memento_device m = dev) then MotionMemento.pointers m else []) ++ pointers_at ms dev.
Proof. unfold pointers_at, of_device. rewrite filter_cons. by case_decide. Qed.

Lemma pointers_at_app ms ms' dev : pointers_at (ms ++ ms') dev = pointers_at ms dev ++ pointers_at ms' dev.
Proof. unfold pointers_at, of_device. by rewrite filter_app, map_app, concat_app. Qed.

Lemma pointers_at_none ms dev : (forall m, m ∈ ms -> memento_device m <> dev) -> pointers_at ms dev = [].
Proof.
  induction ms as [|m ms IH]; intros H; [done|]. rewrite pointers_at_cons, decide_False, IH by set_solver. done.
Qed.

(** ** Merging one memento *)

(** in place of [o], the only memento of its device, [o'] *)
Lemma pointers_at_insert ms j o o' dev : NoDup (map memento_key ms) -> no_hover ms -> is_pointer o = true -> ms !! j = Some o -> memento_device o' = memento_device o ->
  pointers_at (<[j := o']> ms) dev = (if decide (memento_device o = dev) then MotionMemento.pointers o' else pointers_at ms dev) /\
  pointers_at ms (memento_device o) = MotionMemento.pointers o.
Proof.
  intros Hnd Hh Hp Hj Hd. destruct (of_device_single ms (memento_device o) Hnd Hh Hp) as [Hf|(m & Hf & _)].
  { exfalso. assert (Ho : o ∈ of_device (memento_device o) ms) by (apply list_elem_of_filter; split; [done|by eapply list_elem_of_lookup_2]). rewrite Hf in Ho. set_solver. }
  destruct (list_elem_of_split_length ms j o Hj) as (l1 & l2 & -> & ->). unfold of_device in Hf. rewrite filter_app, filter_cons, decide_True in Hf by done.
  assert (Hno : filter (fun m => memento_device m = memento_device o) l1 = [] /\ filter (fun m => memento_device m = memento_device o) l2 = []).
  { apply (f_equal length) in Hf. rewrite length_app in Hf. simpl in Hf. split; apply length_zero_iff_nil; lia. }
  assert (Hl : pointers_at l1 (memento_device o) = [] /\ pointers_at l2 (memento_device o) = []).
  { unfold pointers_at, of_device. by destruct Hno as [-> ->]. }
  destruct Hl as [Hl1 Hl2]. rewrite insert_app_r_alt, Nat.sub_diag by lia. cbn [insert list_insert]. rewrite !pointers_at_app, !pointers_at_cons, Hd. split.
  - case_decide as Hdev; [|done]. rewrite <- Hdev, Hl1, Hl2. by rewrite app_nil_r.
  - rewrite Hl1, Hl2, decide_True by done. by rewrite app_nil_r.
Qed.

(** what the memento adds, and that it can *)
Lemma merge_memento_pointers others0 others m : merging others0 others -> is_pointer m = true -> has_pointers m ->
  (length (pointers_at others (memento_device m)) + length (MotionMemento.pointers m) <= 16)%nat ->
  exists others', InputState.merge_memento m others = Some others' /\
    forall dev, pointers_at others' dev = pointers_at others dev ++ if decide (memento_device m = dev) then MotionMemento.pointers m else [].
Proof.
  intros Hm Hp Hps Hroom. unfold InputState.merge_memento. destruct (InputState.find_index (InputState.same_device m) others) as [j|] eqn:Ej.
  - destruct (find_index_Some _ _ _ Ej) as (o & Ho & Hd%same_device_spec). rewrite Ho. cbn [mbind option_bind]. rewrite Hd in *.
    assert (Hpo : is_pointer o = true) by (unfold is_pointer in *; unfold memento_device in Hd; injection Hd as _ <- _; done).
    pose proof (fun o' dev => pointers_at_insert others j o o' dev (merging_distinct _ _ Hm) (merging_hover _ _ Hm) Hpo Ho) as Hins.
    assert (Hold : pointers_at others (memento_device o) = MotionMemento.pointers o) by (by apply (Hins o (memento_device o))).
    unfold MotionMemento.mergePointerStateTo. rewrite bool_decide_false by done. rewrite Hold in Hroom.
    rewrite (proj2 (Z.ltb_ge _ _)) by (rewrite length_app; unfold MAX_POINTERS; lia). cbn [mbind option_bind]. eexists. split; [done|]. intros dev.
    destruct (Hins (o <| MotionMemento.pointers := MotionMemento.pointers o ++ MotionMemento.pointers m |>
      <| MotionMemento.firstNewPointerIdx := if MotionMemento.firstNewPointerIdx o <? 0 then Z.of_nat (length (MotionMemento.pointers o)) else MotionMemento.firstNewPointerIdx o |>) dev) as [E _];
      [done|]. rewrite E. case_decide as Hdev; [|by rewrite app_nil_r]. simpl. by rewrite <- Hdev, Hold.
  - eexists. split; [done|]. intros dev. rewrite pointers_at_app, pointers_at_cons. f_equal. unfold pointers_at at 1, of_device. simpl. by rewrite app_nil_r.
Qed.

(** ** Which pointers are new *)

(** A memento of a pointer device says from where on its pointers are new. *)
Definition marked (others0 others : list MotionMemento.t) : Prop := forall x, x ∈ others -> is_pointer x = true ->
  (MotionMemento.firstNewPointerIdx x < 0 /\ MotionMemento.pointers x = pointers_at others0 (memento_device x)) \/
  MotionMemento.firstNewPointerIdx x = Z.of_nat (length (pointers_at others0 (memento_device x))).

Lemma marked_start others : NoDup (map memento_key others) -> no_hover others -> Forall settled others -> marked others others.
Proof.
  intros Hnd Hh Hs x Hx Hp. left. rewrite Forall_forall in Hs. destruct (Hs x Hx) as [_ Hf]. split; [done|].
  apply list_elem_of_lookup in Hx as [j Hj]. symmetry. by apply (pointers_at_insert others j x x (memento_device x)).
Qed.

Lemma marked_step others0 others m others' : merging others0 others -> marked others0 others -> is_pointer m = true -> has_pointers m ->
  InputState.merge_memento m others = Some others' -> marked others0 others'.
Proof.
  intros Hm Hmk Hp Hps. unfold InputState.merge_memento. destruct (InputState.find_index (InputState.same_device m) others) as [j|] eqn:Ej.
  - destruct (find_index_Some _ _ _ Ej) as (o & Ho & Hd%same_device_spec). rewrite Ho. cbn [mbind option_bind].
    unfold MotionMemento.mergePointerStateTo. rewrite bool_decide_false by done. case_match; cbn [mbind option_bind]; [done|]. intros [= <-] x Hx Hpx.
    apply list_elem_of_lookup in Hx as [i Hi]. destruct (decide (i = j)) as [->|Hne].
    + rewrite list_lookup_insert_eq in Hi by (by eapply lookup_lt_Some). injection Hi as <-. right. simpl.
      change (memento_device _) with (memento_device o).
      destruct (Hmk o) as [[Hf Hpo]|Hf]; [by eapply list_elem_of_lookup_2|exact Hpx| |].
      * rewrite (proj2 (Z.ltb_lt _ _) Hf). by rewrite Hpo.
      * rewrite (proj2 (Z.ltb_ge _ _)) by lia. done.
    + rewrite list_lookup_insert_ne in Hi by done. apply Hmk; [by eapply list_elem_of_lookup_2|done].
  - intros [= <-] x [Hx|Hx]%elem_of_app Hpx; [auto|]. apply list_elem_of_singleton in Hx as ->. right. simpl. change (memento_device _) with (memento_device m).
    rewrite pointers_at_none; [done|]. intros y Hy Hd.
    assert (Hk : memento_key y ∈ map memento_key others) by (apply (merging_kept _ _ Hm), elem_of_map; eauto).
    apply elem_of_map in Hk as (z & Hz & Ek). pose proof (find_index_None _ _ Ej z Hz) as Hf. apply not_true_iff_false in Hf. apply Hf, same_device_spec.
    assert (Hd' := f_equal fst Ek). simpl in Hd'. congruence.
Qed.

(** ** All of them *)

Lemma moved_cons m ms dev : moved (m :: ms) dev = (if decide (memento_device m = dev) then (if is_pointer m then MotionMemento.pointers m else []) else []) ++ moved ms dev.
Proof.
  unfold moved, is_pointer. rewrite pointers_at_cons. destruct (has (source_of dev) AINPUT_SOURCE_CLASS_POINTER) eqn:E; case_decide as Hd; try done.
  - subst dev. unfold source_of, memento_device in E. simpl in E. by rewrite E.
  - subst dev. unfold source_of, memento_device in E. simpl in E. by rewrite E.
Qed.

Lemma merge_mementos_pointers ms : forall others0 others, merging others0 others -> marked others0 others -> no_hover ms -> Forall has_pointers ms ->
  (forall dev, (length (pointers_at others dev) + length (moved ms dev) <= 16)%nat) ->
  exists ms' others', InputState.merge_mementos ms others = Some (ms', others') /\ merging others0 others' /\ marked others0 others' /\
    forall dev, pointers_at others' dev = pointers_at others dev ++ moved ms dev.
Proof.
  induction ms as [|m ms IH]; intros others0 others Hm Hmk Hh Hps Hroom; simpl.
  { eexists _, _. split; [done|]. split; [done|]. split; [done|]. intros dev. unfold moved, pointers_at. simpl. by destruct (has _ _); rewrite app_nil_r. }
  apply Forall_cons in Hps as [Hp Hps]. assert (Hh' : no_hover ms) by (intros x Hx; apply Hh; set_solver).
  fold (is_pointer m). destruct (is_pointer m) eqn:Ep.
  - destruct (merge_memento_pointers others0 others m Hm Ep Hp) as (others1 & E1 & Hat).
    { specialize (Hroom (memento_device m)). rewrite moved_cons, decide_True, Ep, length_app in Hroom by done. lia. }
    rewrite E1. cbn [mbind option_bind].
    destruct (IH others0 others1) as (ms' & others' & E2 & Hm2 & Hmk2 & Hat2); [apply (merge_step others0 others m); [done|done|by apply Hh; [set_solver|]|done|done]|by eapply marked_step|done|done| |].
    { intros dev. specialize (Hroom dev). rewrite moved_cons, Ep in Hroom. rewrite Hat. rewrite !length_app in *. lia. }
    rewrite E2. cbn [mbind option_bind fst snd]. eexists _, _. split; [done|]. split; [done|]. split; [done|]. intros dev. rewrite Hat2, Hat, moved_cons, Ep. by rewrite app_assoc.
  - destruct (IH others0 others) as (ms' & others' & E2 & Hm2 & Hmk2 & Hat2); [done..| |].
    { intros dev. specialize (Hroom dev). rewrite moved_cons, Ep in Hroom. rewrite length_app in Hroom. lia. }
    rewrite E2. cbn [mbind option_bind fst snd]. eexists _, _. split; [done|]. split; [done|]. split; [done|]. intros dev. rewrite Hat2, moved_cons, Ep. by case_decide.
Qed.

(** ** The events that tell of them *)

Definition new_pointers (m : MotionMemento.t) : nat :=
  if InputState.needs_down m then (length (MotionMemento.pointers m) - Z.to_nat (MotionMemento.firstNewPointerIdx m))%nat else 0%nat.

Lemma down_events_of_device t ids m dev : length (filter (fun e => entry_device e = dev) (InputState.down_events t ids m)) =
  if decide (memento_device m = dev) then (length (MotionMemento.pointers m) - Z.to_nat (MotionMemento.firstNewPointerIdx m))%nat else 0%nat.
Proof.
  unfold InputState.down_events. set (l := seq _ _). rewrite <- (length_seq (length (MotionMemento.pointers m) - _) (Z.to_nat (MotionMemento.firstNewPointerIdx m))). fold l.
  induction l as [|i l IH]; simpl; [by case_decide|]. rewrite filter_cons. change (entry_device (InputState.pointer_down t (ids i) m i)) with (memento_device m). case_decide; simpl; by rewrite IH.
Qed.

Lemma announced_of_device t dev ms : forall (ids : nat -> nat -> Z) n,
  length (filter (fun e => entry_device e = dev) (concat (imap (fun j m => if InputState.needs_down m then InputState.down_events t (ids (n + j)%nat) m else []) ms))) =
  list_sum (map new_pointers (of_device dev ms)).
Proof.
  induction ms as [|m ms IH]; intros ids n; [done|]. cbn [imap concat]. rewrite filter_app, length_app.
  rewrite (imap_ext _ (fun j m0 => if InputState.needs_down m0 then InputState.down_events t (ids (S n + j)%nat) m0 else [])) by (intros j m' _; simpl; by rewrite Nat.add_succ_r).
  rewrite IH. unfold of_device at 2. rewrite filter_cons. fold (of_device dev ms). unfold new_pointers at 2.
  destruct (InputState.needs_down m) eqn:E; [rewrite down_events_of_device|simpl]; case_decide; simpl; rewrite ?E; done || (unfold new_pointers; by rewrite E).
Qed.

(** the window is told of as many pointers as are new *)
Lemma marked_announced others0 others dev t ids added : merging others0 others -> marked others0 others -> has (source_of dev) AINPUT_SOURCE_CLASS_POINTER = true ->
  pointers_at others dev = pointers_at others0 dev ++ added ->
  length (filter (fun e => entry_device e = dev) (concat (imap (fun j m => if InputState.needs_down m then InputState.down_events t (ids j) m else []) others))) = length added.
Proof.
  intros Hm Hmk Hp Hat. pose proof (announced_of_device t dev others ids 0) as Ha. cbn [Nat.add] in Ha. rewrite Ha. clear Ha.
  assert (Hlen := f_equal length Hat). rewrite length_app in Hlen. unfold pointers_at at 1 in Hlen.
  destruct (of_device_single others dev (merging_distinct _ _ Hm) (merging_hover _ _ Hm) Hp) as [E|(x & E & Hx & Hd)]; rewrite E in *; simpl in *; [lia|].
  rewrite app_nil_r in Hlen. rewrite Nat.add_0_r.
  assert (Hpx : is_pointer x = true) by (unfold is_pointer; rewrite <- Hd in Hp; exact Hp).
  destruct (merging_pointers _ _ Hm x Hx) as [Hlt _]. unfold new_pointers, InputState.needs_down. fold (is_pointer x). rewrite Hpx. simpl.
  destruct (Hmk x Hx Hpx) as [[Hf Hps]|Hf]; rewrite Hd in *.
  - rewrite (proj2 (Z.leb_gt _ _)) by lia. rewrite Hps in Hlen. lia.
  - rewrite (proj2 (Z.leb_le _ _)) by lia. lia.
Qed.
