(* ===== verification/InputOperations.v ===== *)
(** * Operations on a connection keep its stream consistent

    The operations of InputConnection.v as a whole, from the lemmas on their parts. *)

From S2P Require Import Prelude PointerCoords InputEvents InputState InputProtocol InputConnection InputStreams InputCancel InputTransfer.

Section Operations.
Context `{B32 : BitSet32.ops} `{B64 : BitSet64.ops}.

(** ** What enqueueing leaves alone *)

Definition same_frame (c c' : Connection.t) : Prop :=
  Connection.channel c' = Connection.channel c /\ Connection.status c' = Connection.status c /\ Connection.waitQueue c' = Connection.waitQueue c /\
  Connection.responsive c' = Connection.responsive c /\ same_identity c c'.

Lemma same_frame_refl c : same_frame c c.
Proof. by repeat split. Qed.

Lemma same_frame_trans c1 c2 c3 : same_frame c1 c2 -> same_frame c2 c3 -> same_frame c1 c3.
Proof. intros (H1 & H2 & H3 & H4 & H5) (H6 & H7 & H8 & H9 & H10). split; [congruence|]. split; [congruence|]. split; [congruence|]. split; [congruence|]. by etrans. Qed.

Lemma same_frame_enqueued c s xs : same_frame c (enqueued c s xs).
Proof. by repeat split. Qed.

Lemma enqueue_frame d c entry na e target mode newId d' c' : enqueueDispatchEntryLocked d c entry na e target mode newId = Some (d', c') -> same_frame c c'.
Proof.
  unfold enqueueDispatchEntryLocked. destruct (negb _); [intros [= <- <-]; apply same_frame_refl|].
  destruct (createDispatchEntry _ _ _ _ _ _) as [x|]; simpl; [|done]. destruct (DispatchEntry.eventEntry x) as [k|m|id f| |dev]; intros E; try done;
    apply (f_equal (option_map snd)) in E; injection E as E; rewrite <- E.
  - unfold enqueue_key. by destruct (InputState.trackKey _ _ _ _) as [[] s'].
  - unfold enqueue_motion. by destruct (InputState.trackMotion _ _ _ _) as [[] s'].
  - done.
Qed.

Lemma enqueue_all_frame es : forall d c target new i d' c', enqueue_all d c target new i es = Some (d', c') -> same_frame c c'.
Proof.
  induction es as [|e es IH]; intros d c target new i d' c' E; simpl in E; [injection E as <- <-; apply same_frame_refl|].
  destruct (enqueueDispatchEntryLocked _ _ _ _ _ _ _ _) as [[d1 c1]|] eqn:E1; simpl in E; [|done].
  eapply same_frame_trans; [by eapply enqueue_frame|by eapply IH].
Qed.

(** a connection that does not work sends nothing *)
Lemma start_idle d c currentTime send : Connection.status c <> Connection.STATUS_NORMAL -> startDispatchCycleLocked d c currentTime send = Some (d, c).
Proof. intros Hst. unfold startDispatchCycleLocked. destruct (length _); simpl; [done|]. by rewrite bool_decide_false. Qed.

(** ** Dispatching an event *)

(** a target that splits names a pointer *)
Definition target_ok (target : InputTarget.t) : Prop := has (InputTarget.flags target) InputTarget.FLAG_SPLIT = true -> 0 < BitSet32.count (InputTarget.pointerIds target).

Lemma entries_ok d c currentTime entry e target new send d' c' :
  enqueueDispatchEntriesLocked d c currentTime entry e target new send = Some (d', c') -> Connection.status c = Connection.STATUS_NORMAL -> conn_ok c -> event_ok e ->
  conn_ok c' /\ same_identity c c'.
Proof.
  unfold enqueueDispatchEntriesLocked. intros E Hst Hok He. destruct (enqueue_modes _ _ _ _ _ _ _) as [[d1 c1]|] eqn:E1; simpl in E; [|done].
  destruct (enqueue_modes_ok _ _ _ _ _ _ _ _ _ E1 Hst Hok He) as (Hok1 & _ & Hs1). destruct (_ && _); [|by injection E as <- <-].
  destruct (start_cycle_ok _ _ _ _ _ _ E Hok1) as [Hok2 Hs2]. split; [done|by etrans].
Qed.

Lemma split_pointers e ids newId m : splitMotionEvent e ids newId = Some (Some m) ->
  MotionEntry.pointers m = filter (fun p => BitSet32.hasBit ids (id (property p)) = true) (MotionEntry.pointers e) /\ MotionEntry.pointerCount m = BitSet32.count ids.
Proof.
  unfold splitMotionEvent, MotionEntry.pointerCount. case_match eqn:E; [done|]. bool_to_prop. destruct (split_action _ _ _); simpl; [|done]. intros [= <-]. done.
Qed.

Lemma prepare_ok d c currentTime entry e target new send d' c' :
  prepareDispatchCycleLocked d c currentTime entry e target new send = Some (d', c') -> conn_ok c -> event_ok e -> target_ok target ->
  conn_ok c' /\ same_identity c c'.
Proof.
  unfold prepareDispatchCycleLocked. intros E Hok He Ht. case_bool_decide as Hst; simpl in E; [|by injection E as <- <-].
  destruct (has (InputTarget.flags target) InputTarget.FLAG_SPLIT) eqn:Esp; [|by eapply entries_ok].
  destruct e as [|m| | |]; try done. destruct (_ =? _); [by eapply entries_ok|].
  destruct (splitMotionEvent _ _ _) as [[m'|]|] eqn:Em; simpl in E; [|by injection E as <- <-|done].
  eapply entries_ok; [done..|]. simpl. apply split_pointers in Em as [_ Hc]. specialize (Ht Esp). unfold MotionEntry.pointerCount in Hc. intros Hnil. rewrite Hnil in Hc. simpl in Hc. lia.
Qed.

(** ** Canceling *)

Lemma cancel_conn_ok d c currentTime options nextId new send d' c' :
  synthesizeCancelationEventsForConnectionLocked d c currentTime options nextId new send = Some (d', c') -> conn_ok c -> conn_ok c' /\ same_identity c c'.
Proof.
  unfold synthesizeCancelationEventsForConnectionLocked. intros E Hok. case_bool_decide as Hb; [by injection E as <- <-|].
  destruct (InputState.synthesizeCancelationEvents _ _ _ _) as [|e0 es0] eqn:Ees; [by injection E as <- <-|]. rewrite <- Ees in E.
  destruct (enqueue_all _ _ _ _ _ _) as [[d1 c1]|] eqn:E1; simpl in E; [|done]. pose proof (enqueue_all_frame _ _ _ _ _ _ _ _ E1) as Hf.
  destruct (decide (Connection.status c = Connection.STATUS_NORMAL)) as [Hst|Hst].
  - assert (Hes : Forall event_ok (InputState.synthesizeCancelationEvents (Connection.inputState c) currentTime options nextId)).
    { unfold conn_ok in Hok. rewrite Hst in Hok. destruct Hok as [[_ Hs] _]. rewrite Forall_forall in Hs. apply Forall_forall. intros e He.
      unfold InputState.synthesizeCancelationEvents in He. apply elem_of_app in He as [He|He]; apply elem_of_lookup_imap_1 in He as (i & m & -> & Hm); [done|].
      apply list_elem_of_lookup_2, list_elem_of_filter in Hm as [_ Hm]. by destruct (Hs m Hm). }
    destruct (enqueue_all_ok _ _ _ _ _ _ _ _ E1 Hst Hok Hes) as (Hok1 & _ & Hs1). destruct (start_cycle_ok _ _ _ _ _ _ E Hok1) as [Hok2 Hs2]. split; [done|by etrans].
  - destruct Hf as (Hch & Hst1 & _ & _ & Hid). rewrite start_idle in E by congruence. injection E as <- <-. split; [|done].
    pose proof (conn_ok_sent c Hok) as Hsent. unfold conn_ok. rewrite Hst1. unfold sent. rewrite Hch. by destruct (Connection.status c).
Qed.

(** ** Transferring *)

Lemma observed_same_keys s s' : map memento_key (InputState.mMotionMementos s') = map memento_key (InputState.mMotionMementos s) -> view s' = view s.
Proof. intros E. unfold view. by rewrite !(observed_keys _ _ _ E). Qed.

Lemma same_keys_lookup {A K} (key : A -> K) (l l' : list A) i x y : map key l = map key l' -> l !! i = Some x -> l' !! i = Some y -> key x = key y.
Proof.
  revert l' i; induction l as [|z l IH]; intros [|z' l'] i E Hx Hy; try done. injection E as E1 E2. destruct i as [|i]; simpl in *; [congruence|by eapply IH].
Qed.

(** the connection that gives its pointers away, after the merge *)
Lemma cancel_merged d c ms' currentTime nextId new send d' c' : conn_ok c -> Connection.status c <> Connection.STATUS_ZOMBIE ->
  map memento_key ms' = map memento_key (InputState.mMotionMementos (Connection.inputState c)) -> Forall has_pointers ms' ->
  Forall2 (fun m m' => is_pointer m = false -> m' = m) (InputState.mMotionMementos (Connection.inputState c)) ms' ->
  let cm := c <| Connection.inputState := (Connection.inputState c) <| InputState.mMotionMementos := ms' |> |> in
  synthesizeCancelationEventsForConnectionLocked d cm currentTime (CancelationOptions.new CancelationOptions.CANCEL_POINTER_EVENTS) nextId new send = Some (d', c') ->
  conn_ok c' /\ same_identity c c'.
Proof.
  intros Hok Hz Hk Hps Hsame cm E. set (s := Connection.inputState c) in *. set (sm := s <| InputState.mMotionMementos := ms' |>).
  unfold synthesizeCancelationEventsForConnectionLocked in E. unfold conn_ok in Hok. change (Connection.status cm) with (Connection.status c) in E.
  destruct (Connection.status c) eqn:Hst; [|rewrite bool_decide_true in E by done; injection E as <- <-|done].
  2:{ split; [|by repeat split]. unfold conn_ok. simpl. rewrite Hst. destruct Hok as [[[Hnd Hkk] Hp] Hs]. split; [|done]. split; [split; [|done]|done]. simpl. by rewrite Hk. }
  rewrite bool_decide_false in E by done. destruct Hok as [[[Hnd Hkk] Hset] Hobs]. fold s in Hobs.
  assert (Hdm : distinct sm) by (split; [simpl; by rewrite Hk|done]).
  assert (Hleft : forall m, m ∈ filter (fun m => InputState.shouldCancelMotion m (CancelationOptions.new CancelationOptions.CANCEL_POINTER_EVENTS) = false) ms' -> settled m).
  { intros m [Hc Hm]%list_elem_of_filter. simpl in Hc. unfold InputState.shouldCancelMotion in Hc. simpl in Hc.
    apply list_elem_of_lookup in Hm as [i Hi]. destruct (Forall2_lookup_r _ _ _ _ _ Hsame Hi) as (m0 & Hi0 & Hm0).
    assert (Hp0 : is_pointer m0 = false).
    { assert (Ek : memento_key m = memento_key m0) by (by eapply same_keys_lookup).
      unfold memento_key, memento_device in Ek. injection Ek as _ Es _ _. unfold is_pointer. by rewrite <- Es. }
    rewrite (Hm0 Hp0). by eapply Forall_lookup_1. }
  assert (Hview : view sm = view s) by (by apply observed_same_keys).
  destruct (InputState.synthesizeCancelationEvents (Connection.inputState cm) _ _ _) as [|e0 es0] eqn:Ees.
  { injection E as <- <-. split; [|by repeat split]. unfold conn_ok. simpl. rewrite Hst. split; [|change (history cm) with (history c); rewrite Hobs; f_equal; symmetry; exact Hview].
    split; [done|]. simpl. apply Forall_forall. intros m Hm. apply Hleft. apply list_elem_of_filter. split; [|done].
    destruct (InputState.shouldCancelMotion m _) eqn:Ec; [|done]. exfalso. apply (f_equal length) in Ees. unfold InputState.synthesizeCancelationEvents in Ees.
    rewrite length_app, !length_imap in Ees. simpl in Ees.
    assert (Hin : m ∈ filter (fun m => InputState.shouldCancelMotion m (CancelationOptions.new CancelationOptions.CANCEL_POINTER_EVENTS) = true) ms') by (by apply list_elem_of_filter).
    destruct (filter (fun m => InputState.shouldCancelMotion m (CancelationOptions.new CancelationOptions.CANCEL_POINTER_EVENTS) = true) ms'); [by apply not_elem_of_nil in Hin|simpl in Ees; lia]. }
  rewrite <- Ees in E. destruct (enqueue_cancelation d (Connection.token cm) currentTime (CancelationOptions.new CancelationOptions.CANCEL_POINTER_EVENTS) nextId d cm new Hdm)
    as (d1 & s1 & xs & E1 & Hxs & Hk1 & Hm1).
  rewrite E1 in E. cbn [mbind option_bind fst snd] in E.
  enough (Hok1 : conn_ok (enqueued cm s1 xs)) by (destruct (start_cycle_ok _ _ _ _ _ _ E Hok1) as [Hok2 Hs2]; split; [done|etrans; [|exact Hs2]; by repeat split]).
  unfold conn_ok. simpl. rewrite Hst. split.
  - split; [split|]; rewrite ?Hm1, ?Hk1; [by apply NoDup_map_filter; simpl; rewrite Hk|by apply NoDup_map_filter|]. apply Forall_forall. exact Hleft.
  - rewrite history_enqueued, observe_all_app. change (history cm) with (history c). rewrite Hobs. cbn [mbind option_bind]. rewrite <- Hview.
    rewrite (observe_cancelation sm currentTime (CancelationOptions.new CancelationOptions.CANCEL_POINTER_EVENTS) nextId xs Hdm Hxs). f_equal. unfold view. simpl. by rewrite Hm1.
Qed.

(** what the window of the other connection does not know yet *)
Lemma merging_view others0 others : merging others0 others ->
  observed_devices false others = fresh_devices others ∪ observed_devices false others0 /\ observed_devices true others = observed_devices true others0.
Proof.
  intros Hm. assert (Hkept : forall dev h, dev ∈ observed_devices h others0 -> dev ∈ observed_devices h others).
  { intros dev h. rewrite !elem_of_observed. intros (Hj & m & Hin & Hk). split; [done|].
    assert (Hk' : memento_key m ∈ map memento_key others) by (apply (merging_kept _ _ Hm); apply elem_of_map; eauto).
    apply elem_of_map in Hk' as (m' & Hin' & Ek). exists m'. split; [done|congruence]. }
  assert (Hold : forall m dev h, m ∈ others -> MotionMemento.firstNewPointerIdx m <> 0 -> memento_key m = (dev, h) -> has (source_of dev) AINPUT_SOURCE_CLASS_JOYSTICK = false ->
    dev ∈ observed_devices h others0).
  { intros m dev h Hin Hf Hk Hj. pose proof (merging_old _ _ Hm m Hin Hf) as (m0 & Hin0 & Ek)%elem_of_map. apply elem_of_observed. split; [done|]. exists m0. split; [done|congruence]. }
  split; apply set_eq; intros dev; [rewrite elem_of_union|]; (split; [rewrite elem_of_observed; intros (Hj & m & Hin & Hk)|]).
  - destruct (decide (MotionMemento.firstNewPointerIdx m = 0)) as [Hz|Hz]; [left|right; by eapply Hold].
    apply elem_of_list_to_set, elem_of_map. exists m. apply memento_key_eq in Hk as [<- Hh]. split; [|done]. apply list_elem_of_filter. split; [|done]. split; [|done]. split; [|done].
    unfold InputState.needs_down. pose proof (merging_fresh _ _ Hm m Hin ltac:(lia)) as Hp. unfold is_pointer in Hp. rewrite Hp. simpl. apply Z.leb_le. lia.
  - intros [(m & [[Hn Hj] Hin]%list_elem_of_filter & ->)%elem_of_list_to_set%elem_of_map|Hd]; [|by apply Hkept].
    apply elem_of_observed. split; [done|]. exists m. split; [done|]. apply memento_key_eq. split; [done|]. apply (merging_hover _ _ Hm); [done|].
    destruct Hn as [Hn _]. unfold InputState.needs_down in Hn. by bool_to_prop.
  - eapply Hold; [done| |done|done]. intros Hz. pose proof (merging_fresh _ _ Hm m Hin ltac:(lia)) as Hp. pose proof (merging_hover _ _ Hm m Hin Hp) as Hh.
    apply memento_key_eq in Hk as [_ Hk]. congruence.
  - apply Hkept.
Qed.

(** the mementos with all pointers marked as known *)
Definition all_known (ms : list MotionMemento.t) : list MotionMemento.t :=
  map (fun m => if InputState.needs_down m then m <| MotionMemento.firstNewPointerIdx := INVALID_POINTER_INDEX |> else m) ms.

Lemma all_known_keys ms : map memento_key (all_known ms) = map memento_key ms.
Proof. induction ms as [|m ms IH]; [done|]. simpl. rewrite IH. f_equal. by destruct (InputState.needs_down m). Qed.

Lemma all_known_settled others0 others : merging others0 others -> Forall settled (all_known others).
Proof.
  intros Hm. apply Forall_forall. intros x (m & Hin & ->)%elem_of_map. destruct (merging_pointers _ _ Hm m Hin) as [_ Hp].
  destruct (InputState.needs_down m) eqn:En; [by split|]. split; [done|]. unfold InputState.needs_down in En. apply Z.nle_gt. intros Hf.
  pose proof (merging_fresh _ _ Hm m Hin Hf) as Hpt. unfold is_pointer in Hpt. rewrite Hpt in En. simpl in En. bool_to_prop. lia.
Qed.

(** the connection that gets the pointers, after the merge *)
Lemma announce_merged d c others currentTime nextId new send d' c' : conn_ok c -> Connection.status c = Connection.STATUS_NORMAL ->
  merging (InputState.mMotionMementos (Connection.inputState c)) others ->
  let cm := c <| Connection.inputState := (Connection.inputState c) <| InputState.mMotionMementos := others |> |> in
  synthesizePointerDownEventsForConnectionLocked d cm currentTime nextId new send = Some (d', c') -> conn_ok c' /\ same_identity c c'.
Proof.
  intros Hok Hst Hm cm E. unfold synthesizePointerDownEventsForConnectionLocked in E. change (Connection.status cm) with (Connection.status c) in E.
  rewrite bool_decide_false in E by congruence. unfold conn_ok in Hok. rewrite Hst in Hok. destruct Hok as [[[_ Hkk] _] Hobs].
  set (s := Connection.inputState c) in *. set (s1 := s <| InputState.mMotionMementos := all_known others |>). set (c1 := c <| Connection.inputState := s1 |>).
  destruct (merging_view _ _ Hm) as [Hvf Hvt].
  destruct (announce_all d (Connection.token c1) currentTime others d c1 new 0 nextId 0 (view s)) as (d2 & s2 & xs & E2 & Hok2 & Ho2).
  - split; [split; [simpl; rewrite all_known_keys; apply Hm|done]|]. by eapply all_known_settled.
  - apply Forall_forall. intros m Hin. by apply (merging_pointers _ _ Hm).
  - intros m Hin Hn Hz. destruct (has (source_of (memento_device m)) AINPUT_SOURCE_CLASS_JOYSTICK) eqn:Hj; [by left|right].
    pose proof (merging_old _ _ Hm m Hin Hz) as (m0 & Hin0 & Ek)%elem_of_map. apply elem_of_observed. split; [done|]. exists m0. split; [done|]. rewrite <- Ek.
    apply memento_key_eq. split; [done|]. apply (merging_hover _ _ Hm); [done|]. unfold InputState.needs_down in Hn. by bool_to_prop.
  - unfold view at 1. change (InputState.mMotionMementos (Connection.inputState c1)) with (all_known others). rewrite !(observed_keys _ _ _ (all_known_keys others)), Hvf, Hvt. done.
  - assert (Hok3 : conn_ok (enqueued c1 s2 xs)).
    { unfold conn_ok. simpl. rewrite Hst. split; [done|]. rewrite history_enqueued, observe_all_app. change (history c1) with (history c). rewrite Hobs. exact Ho2. }
    cbn [Nat.add] in E2. simpl in E. change (map (fun m => if InputState.needs_down m then m <| MotionMemento.firstNewPointerIdx := INVALID_POINTER_INDEX |> else m) others) with (all_known others) in E.
    destruct (concat _) as [|e0 es0] eqn:Ees in E.
    + rewrite Ees in E2. assert (Ec := f_equal (option_map snd) E2). cbn [enqueue_all map option_map snd] in Ec. apply Some_inj in Ec. rewrite <- Ec in Hok3.
      injection E as <- <-. split; [exact Hok3|by repeat split].
    + assert (E' : (r ← enqueue_all d c1 (window_target d (Connection.token c1)) new 0 (map Motion (e0 :: es0)); startDispatchCycleLocked r.1 r.2 currentTime send) = Some (d', c')) by exact E.
      rewrite <- Ees, E2 in E'. cbn [mbind option_bind fst snd] in E'.
      destruct (start_cycle_ok _ _ _ _ _ _ E' Hok3) as [Hok4 Hs4]. split; [done|]. etrans; [|exact Hs4]. by repeat split.
Qed.

(** A connection that is broken only has to be mergeable. *)
Lemma merged_broken c others : conn_ok c -> Connection.status c = Connection.STATUS_BROKEN -> NoDup (map memento_key others) -> Forall has_pointers others ->
  conn_ok (c <| Connection.inputState := (Connection.inputState c) <| InputState.mMotionMementos := others |> |>).
Proof. unfold conn_ok. intros Hok Hst Hnd Hp. simpl. rewrite Hst in *. destruct Hok as [[[_ Hk] _] Hs]. done. Qed.

End Operations.
