(* ===== verification/InputDispatcher.v ===== *)
(** * The input dispatcher's connections (services/inputflinger/dispatcher/InputDispatcher.cpp)

    The operations on all connections: dispatching an event to its targets, cancelation,
    the answers of applications, the detection of applications that do not respond, the
    transfer of a touch between windows, gesture monitors that take a touch over, and the
    registration of channels. Every operation holds the dispatcher's lock; those that
    release it while they ask the policy are cut there, and [running] says what the
    dispatcher's thread will do with the answer. *)

From S2P Require Import Prelude PointerCoords InputEvents InputState InputConnection.

Definition AKEYCODE_UNKNOWN : Z := 0.
Definition USER_ACTIVITY_EVENT_OTHER : Z := 0.
Definition USER_ACTIVITY_EVENT_BUTTON : Z := 1.
Definition USER_ACTIVITY_EVENT_TOUCH : Z := 2.
Definition LONG_LONG_MAX : Z := 9223372036854775807.
Definition LONG_LONG_MIN : Z := -9223372036854775808.

(** what the dispatcher's thread goes on with when the policy has answered *)
Inductive Running :=
  | CancelFallback (connection seq originalKeyCode fallbackKeyCode : Z)
  | Fallback (connection seq entry : Z) (key : KeyEntry.t) (fallbackKeyCode : Z) (initialDown : bool)
  | Anr (application : option InputApplication.t) (token : option Z)
  | Intercept (keyEntry : Z).

Module InputDispatcher.

(** Connections are objects, known by their address; the maps are association lists in
    the order in which they are iterated. *)
Record t := mk {
  shared : Dispatcher.t; connections : gmap Z Connection.t; mConnectionsByFd : list (Z * Z); mInputChannelsByToken : gmap Z InputChannel.t;
  mGlobalMonitorsByDisplay : list (Z * list InputChannel.t); mGestureMonitorsByDisplay : list (Z * list InputChannel.t); running : option Running }.

Definition eta (w : t) : t :=
  mk (shared w) (connections w) (mConnectionsByFd w) (mInputChannelsByToken w) (mGlobalMonitorsByDisplay w) (mGestureMonitorsByDisplay w) (running w).
#[global] Instance set_shared : Setter shared := ltac:(setter_of eta shared).
#[global] Instance set_connections : Setter connections := ltac:(setter_of eta connections).
#[global] Instance set_mConnectionsByFd : Setter mConnectionsByFd := ltac:(setter_of eta mConnectionsByFd).
#[global] Instance set_mInputChannelsByToken : Setter mInputChannelsByToken := ltac:(setter_of eta mInputChannelsByToken).
#[global] Instance set_mGlobalMonitorsByDisplay : Setter mGlobalMonitorsByDisplay := ltac:(setter_of eta mGlobalMonitorsByDisplay).
#[global] Instance set_mGestureMonitorsByDisplay : Setter mGestureMonitorsByDisplay := ltac:(setter_of eta mGestureMonitorsByDisplay).
#[global] Instance set_running : Setter running := ltac:(setter_of eta running).

(** [f] on the connection at an address *)
Definition on_connection (w : t) (address : Z) (f : Dispatcher.t -> Connection.t -> option (Dispatcher.t * Connection.t)) : option t :=
  c ← connections w !! address;
  r ← f (shared w) c;
  Some (w <| shared := r.1 |> <| connections := <[address := r.2]> (connections w) |>).

Definition on_state (f : InputState.t -> InputState.t) (d : Dispatcher.t) (c : Connection.t) : option (Dispatcher.t * Connection.t) :=
  Some (d, c <| Connection.inputState := f (Connection.inputState c) |>).

(** the address of the first connection with the token *)
Definition getConnectionLocked (w : t) (token : Z) : option Z :=
  if token =? 0 then None
  else head (filter (fun a => (Connection.token <$> connections w !! a) = Some token) (map snd (mConnectionsByFd w))).

(** The arguments that stand for the outside world in one call: random ids and addresses
    (by connection), the results of writing to the sockets, and the time. *)
Record env := environment { now : Z; fresh_for : Z -> fresh; nextId_for : Z -> nat -> Z; downId_for : Z -> nat -> nat -> Z; send_for : Z -> Z -> InputPublisher.send_result }.

Section Dispatcher.
Context `{B32 : BitSet32.ops} `{B64 : BitSet64.ops}.

(** ** Dispatching *)

Definition getTargetDisplayId (d : Dispatcher.t) (e : EventEntry) : Z :=
  match e with
  | Key k => if KeyEntry.displayId k =? InputWindowInfo.ADISPLAY_ID_NONE then Dispatcher.mFocusedDisplayId d else KeyEntry.displayId k
  | Motion m => if MotionEntry.displayId m =? InputWindowInfo.ADISPLAY_ID_NONE then Dispatcher.mFocusedDisplayId d else MotionEntry.displayId m
  | _ => InputWindowInfo.ADISPLAY_ID_NONE
  end.

(** [MotionEvent::isTouchEvent] (libs/input/Input.cpp) *)
Definition isTouchEvent (source action : Z) : bool :=
  has source AINPUT_SOURCE_CLASS_POINTER &&
  bool_decide (Z.land action AMOTION_EVENT_ACTION_MASK ∈
    [AMOTION_EVENT_ACTION_DOWN; AMOTION_EVENT_ACTION_MOVE; AMOTION_EVENT_ACTION_UP; AMOTION_EVENT_ACTION_POINTER_DOWN; AMOTION_EVENT_ACTION_POINTER_UP;
     AMOTION_EVENT_ACTION_CANCEL; AMOTION_EVENT_ACTION_OUTSIDE]).

Definition pokeUserActivityLocked (d : Dispatcher.t) (e : EventEntry) : option Dispatcher.t :=
  let disabled := match Dispatcher.mFocusedWindowHandlesByDisplay d !! getTargetDisplayId d e with
                  | Some h => has (InputWindowInfo.inputFeatures (Dispatcher.getInfo d h)) InputWindowInfo.INPUT_FEATURE_DISABLE_USER_ACTIVITY
                  | None => false
                  end in
  match e with
  | Focus _ _ => Some d
  | Motion m =>
    if disabled || (MotionEntry.action m =? AMOTION_EVENT_ACTION_CANCEL) then Some d
    else Some (Dispatcher.postCommandLocked d (PokeUserActivity (MotionEntry.eventTime m)
           (if isTouchEvent (MotionEntry.source m) (MotionEntry.action m) then USER_ACTIVITY_EVENT_TOUCH else USER_ACTIVITY_EVENT_OTHER)))
  | Key k =>
    if disabled || has (KeyEntry.flags k) AKEY_EVENT_FLAG_CANCELED then Some d
    else Some (Dispatcher.postCommandLocked d (PokeUserActivity (KeyEntry.eventTime k) USER_ACTIVITY_EVENT_BUTTON))
  | _ => if disabled then Some d else None
  end.

(** the targets with the tokens of their channels *)
Fixpoint dispatch_targets (w : t) (v : env) (entry : Z) (e : EventEntry) (inputTargets : list (Z * InputTarget.t)) : option t :=
  match inputTargets with
  | [] => Some w
  | (token, target) :: rest =>
    match getConnectionLocked w token with
    | Some a =>
      w ← on_connection w a (fun d c => prepareDispatchCycleLocked d c (now v) entry e target (fresh_for v a) (send_for v a));
      dispatch_targets w v entry e rest
    | None => dispatch_targets w v entry e rest
    end
  end.

Definition dispatchEventLocked (w : t) (v : env) (entry : Z) (e : EventEntry) (inputTargets : list (Z * InputTarget.t)) : option t :=
  d ← pokeUserActivityLocked (shared w) e;
  dispatch_targets (w <| shared := d |>) v entry e inputTargets.

(** ** Cancelation *)

Definition cancel_connection (w : t) (v : env) (options : CancelationOptions.t) (a : Z) : option t :=
  on_connection w a (fun d c => synthesizeCancelationEventsForConnectionLocked d c (now v) options (nextId_for v a) (fresh_for v a) (send_for v a)).

Fixpoint cancel_connections (w : t) (v : env) (options : CancelationOptions.t) (addresses : list Z) : option t :=
  match addresses with
  | [] => Some w
  | a :: rest => w ← cancel_connection w v options a; cancel_connections w v options rest
  end.

Definition synthesizeCancelationEventsForAllConnectionsLocked (w : t) (v : env) (options : CancelationOptions.t) : option t :=
  cancel_connections w v options (map snd (mConnectionsByFd w)).

Definition synthesizeCancelationEventsForInputChannelLocked (w : t) (v : env) (options : CancelationOptions.t) (token : Z) : option t :=
  match getConnectionLocked w token with
  | Some a => cancel_connection w v options a
  | None => Some w
  end.

Fixpoint cancel_channels (w : t) (v : env) (options : CancelationOptions.t) (tokens : list Z) : option t :=
  match tokens with
  | [] => Some w
  | token :: rest => w ← synthesizeCancelationEventsForInputChannelLocked w v options token; cancel_channels w v options rest
  end.

Definition monitor_tokens (monitorsByDisplay : list (Z * list InputChannel.t)) : list Z := map InputChannel.token (concat (map snd monitorsByDisplay)).

Definition synthesizeCancelationEventsForMonitorsLocked (w : t) (v : env) (options : CancelationOptions.t) : option t :=
  w ← cancel_channels w v options (monitor_tokens (mGlobalMonitorsByDisplay w));
  cancel_channels w v options (monitor_tokens (mGestureMonitorsByDisplay w)).

(** ** Answers of the applications *)

Definition finishDispatchCycleLocked (w : t) (currentTime a seq : Z) (handled : bool) : option t :=
  c ← connections w !! a;
  if bool_decide (Connection.status c ∈ [Connection.STATUS_BROKEN; Connection.STATUS_ZOMBIE]) then Some w
  else Some (w <| shared := Dispatcher.postCommandLocked (shared w) (DispatchCycleFinished a currentTime seq handled) |>).

(** the loop of [handleReceiveCallback] that reads the signals *)
Fixpoint receive_signals (w : t) (currentTime a : Z) (signals : list (Z * bool)) : option t :=
  match signals with
  | [] => Some w
  | (seq, handled) :: rest => w ← finishDispatchCycleLocked w currentTime a seq handled; receive_signals w currentTime a rest
  end.

Definition isConnectionResponsive (currentTime : Z) (c : Connection.t) : bool :=
  forallb (fun e => currentTime <=? DispatchEntry.timeoutTime e) (Connection.waitQueue c).

(** takes the entry out of the wait queue *)
Definition dequeue_finished (currentTime : Z) (restartEvent : bool) (i : nat) (e : DispatchEntry.t) (d : Dispatcher.t) (c : Connection.t) : Dispatcher.t * Connection.t :=
  let c := c <| Connection.waitQueue := delete i (Connection.waitQueue c) |> in
  let d := d <| Dispatcher.mAnrTracker := AnrTracker.erase (Dispatcher.mAnrTracker d) (DispatchEntry.timeoutTime e) (Connection.token c) |> in
  let c := if Connection.responsive c then c else c <| Connection.responsive := isConnectionResponsive currentTime c |> in
  if restartEvent && bool_decide (Connection.status c = Connection.STATUS_NORMAL)
  then (d, c <| Connection.outboundQueue := e :: Connection.outboundQueue c |>)
  else (releaseDispatchEntry d e, c).

(** what [doDispatchCycleFinishedLockedInterruptible] does after the event's policy actions *)
Definition finish_event (w : t) (v : env) (a seq : Z) (restartEvent : bool) : option t :=
  on_connection w a (fun d c =>
    let r :=
      match Connection.findWaitQueueEntry c seq with
      | Some i => match Connection.waitQueue c !! i with Some e => dequeue_finished (now v) restartEvent i e d c | None => (d, c) end
      | None => (d, c)
      end in
    startDispatchCycleLocked r.1 r.2 (now v) (send_for v a)).

(** [afterKeyEventLockedInterruptible] until it asks the policy *)
Definition after_key (w : t) (v : env) (a : Z) (x : DispatchEntry.t) (k : KeyEntry.t) (handled : bool) : option t :=
  let seq := DispatchEntry.seq x in
  if has (KeyEntry.flags k) AKEY_EVENT_FLAG_FALLBACK then finish_event w v a seq false
  else
    c ← connections w !! a;
    let originalKeyCode := KeyEntry.keyCode k in
    let fallbackKeyCode := InputState.getFallbackKey (Connection.inputState c) originalKeyCode in
    w ← (if KeyEntry.action k =? AKEY_EVENT_ACTION_UP then on_connection w a (on_state (fun s => InputState.removeFallbackKey s originalKeyCode)) else Some w);
    if handled || negb (DispatchEntry.hasForegroundTarget x) then
      if negb (fallbackKeyCode =? -1) then Some (w <| running := Some (CancelFallback a seq originalKeyCode fallbackKeyCode) |>)
      else finish_event w v a seq false
    else
      let initialDown := (KeyEntry.action k =? AKEY_EVENT_ACTION_DOWN) && (KeyEntry.repeatCount k =? 0) in
      if (fallbackKeyCode =? -1) && negb initialDown then finish_event w v a seq false
      else Some (w <| running := Some (Fallback a seq (DispatchEntry.entry x) k fallbackKeyCode initialDown) |>).

Definition doDispatchCycleFinishedLockedInterruptible (w : t) (v : env) (a seq : Z) (handled : bool) : option t :=
  c ← connections w !! a;
  match x ← (i ← Connection.findWaitQueueEntry c seq; Connection.waitQueue c !! i); Some x with
  | None => Some w
  | Some x =>
    match DispatchEntry.eventEntry x with
    | Key k => after_key w v a x k handled
    | _ => finish_event w v a seq false
    end
  end.

Definition cancel_fallback (w : t) (v : env) (a fallbackKeyCode : Z) : option t :=
  cancel_connection w v (CancelationOptions.mk CancelationOptions.CANCEL_FALLBACK_EVENTS (Some fallbackKeyCode) None None) a.

(** the key event at an address has changed: every dispatch entry that holds it sees it *)
Definition set_event (entry : Z) (k : KeyEntry.t) (x : DispatchEntry.t) : DispatchEntry.t :=
  match DispatchEntry.eventEntry x with
  | Key _ => if DispatchEntry.entry x =? entry then x <| DispatchEntry.eventEntry := Key k |> else x
  | _ => x
  end.

Definition set_events (entry : Z) (k : KeyEntry.t) (c : Connection.t) : Connection.t :=
  c <| Connection.outboundQueue := map (set_event entry k) (Connection.outboundQueue c) |>
    <| Connection.waitQueue := map (set_event entry k) (Connection.waitQueue c) |>.

Definition fallback_event (k event : KeyEntry.t) (fallbackKeyCode : Z) : KeyEntry.t :=
  KeyEntry.mk (KeyEntry.id k) (KeyEntry.eventTime event) (KeyEntry.policyFlags k) (KeyEntry.deviceId event) (KeyEntry.source event) (KeyEntry.displayId event)
    (KeyEntry.action k) (Z.lor (KeyEntry.flags event) AKEY_EVENT_FLAG_FALLBACK) fallbackKeyCode (KeyEntry.scanCode event) (KeyEntry.metaState event)
    (KeyEntry.repeatCount event) (KeyEntry.downTime event) (KeyEntry.injectionState k).

(** the policy has been told to cancel the fallback key *)
Definition fallback_canceled (w : t) (v : env) (a seq originalKeyCode fallbackKeyCode : Z) : option t :=
  w ← (if negb (fallbackKeyCode =? AKEYCODE_UNKNOWN) then cancel_fallback w v a fallbackKeyCode else Some w);
  w ← on_connection w a (on_state (fun s => InputState.removeFallbackKey s originalKeyCode));
  finish_event w v a seq false.

(** the policy has said which key is to be sent instead, if any *)
Definition fallback_chosen (w : t) (v : env) (a seq entry : Z) (k : KeyEntry.t) (fallbackKeyCode : Z) (initialDown : bool) (event : option KeyEntry.t) : option t :=
  c ← connections w !! a;
  let originalKeyCode := KeyEntry.keyCode k in
  if negb (bool_decide (Connection.status c = Connection.STATUS_NORMAL)) then
    w ← on_connection w a (on_state (fun s => InputState.removeFallbackKey s originalKeyCode));
    finish_event w v a seq false
  else
    let chosen := match event with Some e => KeyEntry.keyCode e | None => AKEYCODE_UNKNOWN end in
    w ← (if initialDown then on_connection w a (on_state (fun s => InputState.setFallbackKey s originalKeyCode chosen)) else Some w);
    let fallbackKeyCode := if initialDown then chosen else fallbackKeyCode in
    let unwanted := match event with Some e => negb (fallbackKeyCode =? KeyEntry.keyCode e) | None => true end in
    if negb (fallbackKeyCode =? AKEYCODE_UNKNOWN) && unwanted then
      w ← cancel_fallback w v a fallbackKeyCode;
      w ← (if negb (KeyEntry.action k =? AKEY_EVENT_ACTION_UP)
           then on_connection w a (on_state (fun s => InputState.setFallbackKey s originalKeyCode AKEYCODE_UNKNOWN)) else Some w);
      finish_event w v a seq false
    else
      match event with
      | Some e => finish_event (w <| connections := set_events entry (fallback_event k e fallbackKeyCode) <$> connections w |>) v a seq true
      | None => finish_event w v a seq false
      end.

(** ** Applications that do not respond *)

Definition resetNoFocusedWindowTimeoutLocked (d : Dispatcher.t) : Dispatcher.t :=
  d <| Dispatcher.mNoFocusedWindowTimeoutTime := None |> <| Dispatcher.mAwaitedFocusedApplication := None |>.

(** [valid] is what [updateInfo] of the handle says *)
Definition setFocusedApplication (w : t) (displayId : Z) (inputApplicationHandle : option InputApplication.t) (valid : bool) : t :=
  let d := shared w in
  let old := Dispatcher.mFocusedApplicationHandlesByDisplay d !! displayId in
  let same x y := bool_decide (InputApplication.handle <$> x = InputApplication.handle <$> y) in
  let d := if same old (Dispatcher.mAwaitedFocusedApplication d) && negb (same inputApplicationHandle old) then resetNoFocusedWindowTimeoutLocked d else d in
  let apps := Dispatcher.mFocusedApplicationHandlesByDisplay d in
  let apps := match inputApplicationHandle, valid, old with
              | Some app, true, _ => if same old (Some app) then apps else <[displayId := app]> apps
              | _, _, Some _ => delete displayId apps
              | _, _, None => apps
              end in
  w <| shared := d <| Dispatcher.mFocusedApplicationHandlesByDisplay := apps |> |>.

(** [None]: the name of the application that is focused is asked for, and there is none *)
Definition processNoFocusedWindowAnrLocked (d : Dispatcher.t) (awaited : InputApplication.t) : option Dispatcher.t :=
  focused ← Dispatcher.mFocusedApplicationHandlesByDisplay d !! Dispatcher.mAwaitedApplicationDisplayId d;
  if negb (InputApplication.token focused =? InputApplication.token awaited) then Some d
  else match Dispatcher.mFocusedWindowHandlesByDisplay d !! Dispatcher.mAwaitedApplicationDisplayId d with
  | Some _ => Some d
  | None => Some (Dispatcher.postCommandLocked d (NotifyAnr (Some awaited) None))
  end.

(** [onAnrLocked] for a connection *)
Definition onAnrLocked (d : Dispatcher.t) (c : Connection.t) : Dispatcher.t :=
  match Connection.waitQueue c with [] => d | _ => Dispatcher.postCommandLocked d (NotifyAnr None (Some (Connection.token c))) end.

(** the connections whose timeouts are due *)
Definition process_connection_anrs (w : t) (currentTime nextAnrCheck : Z) : option (Z * t) :=
  let tracker := Dispatcher.mAnrTracker (shared w) in
  let nextAnrCheck := Z.min nextAnrCheck (AnrTracker.firstTimeout tracker) in
  if currentTime <? nextAnrCheck then Some (nextAnrCheck, w)
  else
    token ← AnrTracker.firstToken tracker;
    match getConnectionLocked w token with
    | None => Some (nextAnrCheck, w)
    | Some a =>
      w ← on_connection w a (fun d c =>
        let c := c <| Connection.responsive := false |> in
        let d := d <| Dispatcher.mAnrTracker := AnrTracker.eraseToken (Dispatcher.mAnrTracker d) (Connection.token c) |> in
        Some (onAnrLocked d c, c));
      Some (LONG_LONG_MIN, w)
    end.

Definition processAnrsLocked (w : t) (currentTime : Z) : option (Z * t) :=
  match Dispatcher.mNoFocusedWindowTimeoutTime (shared w), Dispatcher.mAwaitedFocusedApplication (shared w) with
  | Some timeout, Some awaited =>
    if timeout <=? currentTime then
      d ← processNoFocusedWindowAnrLocked (shared w) awaited;
      Some (LONG_LONG_MIN, w <| shared := resetNoFocusedWindowTimeoutLocked d |>)
    else process_connection_anrs w currentTime timeout
  | _, _ => process_connection_anrs w currentTime LONG_LONG_MAX
  end.

(** the entries that time out before the new time get it; the tracker has them again *)
Fixpoint extend_entries (newTimeout token : Z) (tracker : AnrTracker.t) (queue : list DispatchEntry.t) : AnrTracker.t * list DispatchEntry.t :=
  match queue with
  | [] => (tracker, [])
  | e :: rest =>
    if DispatchEntry.timeoutTime e <=? newTimeout then
      let r := extend_entries newTimeout token (AnrTracker.insert tracker newTimeout token) rest in
      (r.1, e <| DispatchEntry.timeoutTime := newTimeout |> :: r.2)
    else let r := extend_entries newTimeout token tracker rest in (r.1, e :: r.2)
  end.

Definition extend_connection (newTimeout : Z) (d : Dispatcher.t) (c : Connection.t) : option (Dispatcher.t * Connection.t) :=
  let r := extend_entries newTimeout (Connection.token c) (Dispatcher.mAnrTracker d) (Connection.waitQueue c) in
  Some (d <| Dispatcher.mAnrTracker := r.1 |>, c <| Connection.responsive := true |> <| Connection.waitQueue := r.2 |>).

Definition extendAnrTimeoutsLocked (w : t) (currentTime : Z) (application : option InputApplication.t) (connectionToken : option Z) (timeoutExtension : Z) : option t :=
  let newTimeout := currentTime + timeoutExtension in
  let w := match connectionToken, application with
           | None, Some app => w <| shared := (shared w) <| Dispatcher.mNoFocusedWindowTimeoutTime := Some newTimeout |>
                                                         <| Dispatcher.mAwaitedFocusedApplication := Some app |> |>
           | _, _ => w
           end in
  match a ← (token ← connectionToken; getConnectionLocked w token); Some a with
  | None => Some w
  | Some a => on_connection w a (extend_connection newTimeout)
  end.

Definition cancelEventsForAnrLocked (w : t) (v : env) (a : Z) : option t :=
  c ← connections w !! a;
  if bool_decide (Connection.status c = Connection.STATUS_NORMAL)
  then cancel_connection w v (CancelationOptions.new CancelationOptions.CANCEL_ALL_EVENTS) a else Some w.

(** [doNotifyAnrLockedInterruptible] after the policy has answered *)
Definition anr_answered (w : t) (v : env) (application : option InputApplication.t) (token : option Z) (timeoutExtension : Z) : option t :=
  if 0 <? timeoutExtension then extendAnrTimeoutsLocked w (now v) application token timeoutExtension
  else
    match a ← (token ← token; getConnectionLocked w token); Some a with
    | None => Some w
    | Some a => cancelEventsForAnrLocked w v a
    end.

(** ** Commands *)

(** the first command of the queue, until it asks the policy *)
Definition run_command (w : t) (v : env) : option t :=
  match Dispatcher.mCommandQueue (shared w) with
  | [] => None
  | command :: rest =>
    let w := w <| shared := (shared w) <| Dispatcher.mCommandQueue := rest |> |> in
    match command with
    | DispatchCycleFinished a _ seq handled => doDispatchCycleFinishedLockedInterruptible w v a seq handled
    | NotifyAnr application token => Some (w <| running := Some (Anr application token) |>)
    | InterceptKeyBeforeDispatching keyEntry _ => Some (w <| running := Some (Intercept keyEntry) |>)
    | NotifyInputChannelBroken _ | OnPointerDownOutsideFocus _ | PokeUserActivity _ _ | NotifyConfigurationChanged _ | NotifyFocusChanged _ _ => Some w
    end
  end.

(** the policy's answer: the key to send instead, how much longer to wait for an
    application, how much later to dispatch a key *)
Record answer := answered { fallback_key : option KeyEntry.t; timeout_extension : Z; delay : Z }.

Definition resume (w : t) (v : env) (r : Running) (ans : answer) : option t :=
  let w := w <| running := None |> in
  match r with
  | CancelFallback a seq originalKeyCode fallbackKeyCode => fallback_canceled w v a seq originalKeyCode fallbackKeyCode
  | Fallback a seq entry k fallbackKeyCode initialDown => fallback_chosen w v a seq entry k fallbackKeyCode initialDown (fallback_key ans)
  | Anr application token => anr_answered w v application token (timeout_extension ans)
  | Intercept _ => Some w
  end.

(** ** Channels *)

(** [map[key] = value] *)
Fixpoint assign {A} (key : Z) (value : A) (l : list (Z * A)) : list (Z * A) :=
  match l with
  | [] => [(key, value)]
  | (k, v) :: l' => if k =? key then (key, value) :: l' else (k, v) :: assign key value l'
  end.

Definition lookup_list {A} (l : list (Z * A)) (key : Z) : option A := snd <$> head (filter (fun kv => kv.1 = key) l).

(** a new connection, at a new address *)
Definition add_connection (w : t) (a : Z) (channel : InputChannel.t) (monitor : bool) : t :=
  w <| connections := <[a := Connection.new a channel monitor]> (connections w) |>
    <| mConnectionsByFd := assign (InputChannel.fd channel) a (mConnectionsByFd w) |>
    <| mInputChannelsByToken := <[InputChannel.token channel := channel]> (mInputChannelsByToken w) |>.

Definition registerInputChannel (w : t) (a : Z) (channel : InputChannel.t) : status_t * t :=
  match getConnectionLocked w (InputChannel.token channel) with
  | Some _ => (BAD_VALUE, w)
  | None => (OK, add_connection w a channel false)
  end.

Definition registerInputMonitor (w : t) (a : Z) (channel : InputChannel.t) (displayId : Z) (isGestureMonitor : bool) : status_t * t :=
  if displayId <? 0 then (BAD_VALUE, w)
  else if InputChannel.token channel =? 0 then (BAD_VALUE, w)
  else
    let w := add_connection w a channel true in
    let add ms := assign displayId (default [] (lookup_list ms displayId) ++ [channel]) ms in
    (OK, if isGestureMonitor then w <| mGestureMonitorsByDisplay := add (mGestureMonitorsByDisplay w) |>
         else w <| mGlobalMonitorsByDisplay := add (mGlobalMonitorsByDisplay w) |>).

(** the first monitor with the channel, of each display; displays without monitors go *)
Definition removeMonitorChannelLocked (channel : InputChannel.t) (monitorsByDisplay : list (Z * list InputChannel.t)) : list (Z * list InputChannel.t) :=
  filter (fun dm => dm.2 <> [])
    (map (fun dm => (dm.1, InputState.erase (InputState.find_index (fun c => InputChannel.object c =? InputChannel.object channel) dm.2) dm.2)) monitorsByDisplay).

Definition removeConnectionLocked (w : t) (a token : Z) : t :=
  w <| shared := (shared w) <| Dispatcher.mAnrTracker := AnrTracker.eraseToken (Dispatcher.mAnrTracker (shared w)) token |> |>
    <| mConnectionsByFd := filter (fun fa => fa.2 <> a) (mConnectionsByFd w) |>.

Definition unregisterInputChannelLocked (w : t) (channel : InputChannel.t) (notify : bool) : option (status_t * t) :=
  match getConnectionLocked w (InputChannel.token channel) with
  | None => Some (BAD_VALUE, w)
  | Some a =>
    c ← connections w !! a;
    let w := removeConnectionLocked w a (Connection.token c) in
    let w := w <| mInputChannelsByToken := delete (InputChannel.token channel) (mInputChannelsByToken w) |> in
    let w := if Connection.monitor c
             then w <| mGlobalMonitorsByDisplay := removeMonitorChannelLocked channel (mGlobalMonitorsByDisplay w) |>
                    <| mGestureMonitorsByDisplay := removeMonitorChannelLocked channel (mGestureMonitorsByDisplay w) |>
             else w in
    w ← on_connection w a (fun d c =>
      let r := abortBrokenDispatchCycleLocked d c notify in
      Some (r.1, r.2 <| Connection.status := Connection.STATUS_ZOMBIE |>));
    Some (OK, w)
  end.

Definition unregisterInputChannel (w : t) (channel : InputChannel.t) : option (status_t * t) := unregisterInputChannelLocked w channel false.

(** ** Touches that move *)

Definition findGestureMonitorDisplayByTokenLocked (w : t) (token : Z) : option Z :=
  fst <$> head (filter (fun dm => token ∈ map InputChannel.token dm.2) (mGestureMonitorsByDisplay w)).

(** the tokens of the windows that have a channel *)
Definition touched_channels (w : t) (state : TouchState.t) : list Z :=
  filter (fun token => is_Some (mInputChannelsByToken w !! token)) (map (fun x => Dispatcher.getToken (shared w) (TouchState.windowHandle x)) (TouchState.windows state)).

Definition pilferPointers (w : t) (v : env) (token : Z) : option (status_t * t) :=
  match findGestureMonitorDisplayByTokenLocked w token with
  | None => Some (BAD_VALUE, w)
  | Some displayId =>
    match lookup_list (Dispatcher.mTouchStatesByDisplay (shared w)) displayId with
    | None => Some (BAD_VALUE, w)
    | Some state =>
      if negb (bool_decide (token ∈ map (fun m => InputChannel.token (TouchState.monitor m)) (TouchState.gestureMonitors state))) || negb (TouchState.down state) then Some (BAD_VALUE, w)
      else
        let options := CancelationOptions.mk CancelationOptions.CANCEL_POINTER_EVENTS None (Some (TouchState.deviceId state)) (Some displayId) in
        w ← cancel_channels w v options (touched_channels w state);
        let d := shared w in
        Some (OK, w <| shared := d <| Dispatcher.mTouchStatesByDisplay := assign displayId (TouchState.filterNonMonitors state) (Dispatcher.mTouchStatesByDisplay d) |> |>)
    end
  end.

(** the window [from] of a touch is replaced by [to] *)
Definition transfer_window (from to : Z) (state : TouchState.t) : option TouchState.t :=
  i ← InputState.find_index (fun x => TouchState.windowHandle x =? from) (TouchState.windows state);
  x ← TouchState.windows state !! i;
  let newTargetFlags := Z.land (TouchState.targetFlags x)
    (Z.lor (Z.lor InputTarget.FLAG_FOREGROUND InputTarget.FLAG_SPLIT) InputTarget.FLAG_DISPATCH_AS_IS) in
  let state := state <| TouchState.windows := delete i (TouchState.windows state) |> in
  Some (TouchState.addOrUpdateWindow state to newTargetFlags (TouchState.pointerIds x)).

(** the first touch that has the window *)
Fixpoint transfer_touch (from to : Z) (states : list (Z * TouchState.t)) : option (list (Z * TouchState.t)) :=
  match states with
  | [] => None
  | (k, state) :: rest =>
    match transfer_window from to state with
    | Some state => Some ((k, state) :: rest)
    | None => r ← transfer_touch from to rest; Some ((k, state) :: r)
    end
  end.

(** the pointers that are down in one connection go to the other one *)
Definition transfer_pointers (w : t) (v : env) (from to : Z) : option t :=
  cf ← connections w !! from;
  ct ← connections w !! to;
  s ← InputState.mergePointerStateTo (Connection.inputState cf) (Connection.inputState ct);
  let w := w <| connections := <[to := ct <| Connection.inputState := s.2 |>]> (<[from := cf <| Connection.inputState := s.1 |>]> (connections w)) |> in
  w ← cancel_connection w v (CancelationOptions.new CancelationOptions.CANCEL_POINTER_EVENTS) from;
  on_connection w to (fun d c => synthesizePointerDownEventsForConnectionLocked d c (now v) (downId_for v to) (fresh_for v to) (send_for v to)).

Definition transferTouchFocus (w : t) (v : env) (fromToken toToken : Z) : option (bool * t) :=
  if fromToken =? toToken then Some (true, w)
  else
    let d := shared w in
    match Dispatcher.getWindowHandleLocked d fromToken, Dispatcher.getWindowHandleLocked d toToken with
    | Some from, Some to =>
      if negb (InputWindowInfo.displayId (Dispatcher.getInfo d from) =? InputWindowInfo.displayId (Dispatcher.getInfo d to)) then Some (false, w)
      else
        match transfer_touch from to (Dispatcher.mTouchStatesByDisplay d) with
        | None => Some (false, w)
        | Some states =>
          let w := w <| shared := d <| Dispatcher.mTouchStatesByDisplay := states |> |> in
          match getConnectionLocked w fromToken, getConnectionLocked w toToken with
          | Some cf, Some ct => w ← transfer_pointers w v cf ct; Some (true, w)
          | _, _ => Some (true, w)
          end
        end
    | _, _ => Some (false, w)
    end.

End Dispatcher.

End InputDispatcher.
