(* ===== verification/InputTargets.v ===== *)
(** * Finding the windows an event goes to (services/inputflinger/dispatcher/InputDispatcher.cpp)

    Keys go to the focused window, touches to the window under the pointer and to those
    that the touch already goes to. [findTouchedWindowTargetsLocked] works on a copy of the
    touch's state, [tempTouchState], which replaces the original at the end only if an
    injected event is permitted.

    - A portal window shows another display, in which the search goes on. It follows at most
      as many portals as there are displays: one more and it would go round for ever, until
      the stack is full ([None]).
    - [perm] says who injected an event and what the policy answers about permissions.
    - A target is paired with the token of its channel. *)

From S2P Require Import Prelude Region PointerCoords InputEvents InputState InputConnection InputDispatcher.

Definition INPUT_EVENT_INJECTION_PENDING : Z := -1.
Definition INPUT_EVENT_INJECTION_SUCCEEDED : Z := 0.
Definition INPUT_EVENT_INJECTION_PERMISSION_DENIED : Z := 1.
Definition INPUT_EVENT_INJECTION_FAILED : Z := 2.
Definition AINPUT_SOURCE_MOUSE : Z := 8194.
Definition KEY_WAITING_FOR_EVENTS_TIMEOUT : Z := 500000000.

(** why an event is not dispatched *)
Inductive DropReason := NOT_DROPPED | POLICY | APP_SWITCH | DISABLED | BLOCKED | STALE.
#[global] Instance DropReason_eq_dec : EqDecision DropReason := ltac:(solve_decision).

(** the injector's process and user (InjectionState.h), by the object; the policy's answer *)
Record permissions := mk_permissions { injectorPid : Z -> Z; injectorUid : Z -> Z; checkInjectEventsPermissionNonReentrant : Z -> Z -> bool }.

Definition hasInjectionPermission (perm : permissions) (pid uid : Z) : bool := (uid =? 0) || checkInjectEventsPermissionNonReentrant perm pid uid.

Module InputTargets.
Import InputDispatcher.

Notation info_of d h := (Dispatcher.getInfo d h).

Definition getWindowHandlesLocked (d : Dispatcher.t) (displayId : Z) : list Z := default [] (lookup_list (Dispatcher.mWindowHandlesByDisplay d) displayId).

(** ** The window at a point *)

Inductive found := NoWindow | Window (windowHandle : Z) | PortalTo (displayId : Z).

Definition touched_at (info : InputWindowInfo.t) (x y : Z) : bool :=
  let flags := InputWindowInfo.layoutParamsFlags info in
  let isTouchModal := negb (has flags (Z.lor InputWindowInfo.FLAG_NOT_FOCUSABLE InputWindowInfo.FLAG_NOT_TOUCH_MODAL)) in
  negb (has flags InputWindowInfo.FLAG_NOT_TOUCHABLE) && (isTouchModal || InputWindowInfo.touchableRegionContainsPoint info x y).

(** the windows of one display, from front to back *)
Fixpoint search_windows (d : Dispatcher.t) (displayId x y : Z) (addOutsideTargets addPortalWindows : bool) (s : TouchState.t) (windowHandles : list Z) : found * TouchState.t :=
  match windowHandles with
  | [] => (NoWindow, s)
  | h :: rest =>
    let info := info_of d h in
    if (InputWindowInfo.displayId info =? displayId) && InputWindowInfo.visible info then
      if touched_at info x y then
        let portal := InputWindowInfo.portalToDisplayId info in
        if negb (portal =? InputWindowInfo.ADISPLAY_ID_NONE) && negb (portal =? displayId)
        then (PortalTo portal, if addPortalWindows then TouchState.addPortalWindow s h else s)
        else (Window h, s)
      else
        let s := if addOutsideTargets && has (InputWindowInfo.layoutParamsFlags info) InputWindowInfo.FLAG_WATCH_OUTSIDE_TOUCH
                 then TouchState.addOrUpdateWindow s h InputTarget.FLAG_DISPATCH_AS_OUTSIDE 0 else s in
        search_windows d displayId x y addOutsideTargets addPortalWindows s rest
    else search_windows d displayId x y addOutsideTargets addPortalWindows s rest
  end.

Fixpoint search_displays (fuel : nat) (d : Dispatcher.t) (displayId x y : Z) (addOutsideTargets addPortalWindows : bool) (s : TouchState.t) : option (option Z * TouchState.t) :=
  match fuel with
  | O => None
  | S fuel' =>
    let r := search_windows d displayId x y addOutsideTargets addPortalWindows s (getWindowHandlesLocked d displayId) in
    match r.1 with
    | NoWindow => Some (None, r.2)
    | Window h => Some (Some h, r.2)
    | PortalTo portal => search_displays fuel' d portal x y addOutsideTargets addPortalWindows r.2
    end
  end.

Definition findTouchedWindowAtLocked (d : Dispatcher.t) (displayId x y : Z) (s : TouchState.t) (addOutsideTargets addPortalWindows : bool) : option (option Z * TouchState.t) :=
  search_displays (S (length (Dispatcher.mWindowHandlesByDisplay d))) d displayId x y addOutsideTargets addPortalWindows s.

(** ** Monitors *)

Definition addGestureMonitors (monitors : list InputChannel.t) (xOffset yOffset : float32) : list TouchState.TouchedMonitor :=
  map (fun m => TouchState.touched_monitor m xOffset yOffset) monitors.

(** [-windowInfo->frameLeft] as a float, and the top *)
Definition leftOffset (info : InputWindowInfo.t) : float32 := F32.of_Z (int32 (- InputWindowInfo.frameLeft info)).
Definition topOffset (info : InputWindowInfo.t) : float32 := F32.of_Z (int32 (- InputWindowInfo.frameTop info)).

Definition findTouchedGestureMonitorsLocked (w : t) (displayId : Z) (portalWindows : list Z) : list TouchState.TouchedMonitor :=
  let monitors_of display := default [] (lookup_list (mGestureMonitorsByDisplay w) display) in
  addGestureMonitors (monitors_of displayId) F32.zero F32.zero ++
  concat (map (fun h => let info := info_of (shared w) h in
                        addGestureMonitors (monitors_of (InputWindowInfo.portalToDisplayId info)) (leftOffset info) (topOffset info)) portalWindows).

(** the connection of a channel exists and responds *)
Definition responsive (w : t) (token : Z) : bool :=
  match c ← (a ← getConnectionLocked w token; connections w !! a); Some c with Some c => Connection.responsive c | None => false end.

Definition selectResponsiveMonitorsLocked (w : t) (monitors : list TouchState.TouchedMonitor) : list TouchState.TouchedMonitor :=
  filter (fun m => responsive w (InputChannel.token (TouchState.monitor m)) = true) monitors.

(** ** Permission and occlusion *)

(** [None] is no window *)
Definition checkInjectionPermission (d : Dispatcher.t) (perm : permissions) (windowHandle : option Z) (injectionState : option Z) : bool :=
  match injectionState with
  | None => true
  | Some i =>
    match windowHandle with
    | Some h => (InputWindowInfo.ownerUid (info_of d h) =? injectorUid perm i) || hasInjectionPermission perm (injectorPid perm i) (injectorUid perm i)
    | None => hasInjectionPermission perm (injectorPid perm i) (injectorUid perm i)
    end
  end.

Definition haveSameToken (d : Dispatcher.t) (first second : Z) : bool := (first =? second) || (Dispatcher.getToken d first =? Dispatcher.getToken d second).

Definition canBeObscuredBy (d : Dispatcher.t) (windowHandle otherHandle : Z) : bool :=
  let info := info_of d windowHandle in
  let otherInfo := info_of d otherHandle in
  if haveSameToken d windowHandle otherHandle then false
  else if negb (InputWindowInfo.visible otherInfo) then false
  else if InputWindowInfo.ownerPid info =? InputWindowInfo.ownerPid otherInfo then false
  else if InputWindowInfo.isTrustedOverlay otherInfo then false
  else InputWindowInfo.displayId otherInfo =? InputWindowInfo.displayId info.

(** the search of a window above [windowHandle] that obscures it as [bounds] says *)
Fixpoint obscured_by (d : Dispatcher.t) (windowHandle : Z) (bounds : InputWindowInfo.t -> bool) (windowHandles : list Z) : bool :=
  match windowHandles with
  | [] => false
  | other :: rest =>
    if windowHandle =? other then false
    else if canBeObscuredBy d windowHandle other && bounds (info_of d other) then true
    else obscured_by d windowHandle bounds rest
  end.

Definition isWindowObscuredAtPointLocked (d : Dispatcher.t) (windowHandle x y : Z) : bool :=
  obscured_by d windowHandle (fun other => InputWindowInfo.frameContainsPoint other x y) (getWindowHandlesLocked d (InputWindowInfo.displayId (info_of d windowHandle))).

Definition isWindowObscuredLocked (d : Dispatcher.t) (windowHandle : Z) : bool :=
  let info := info_of d windowHandle in
  obscured_by d windowHandle (fun other => InputWindowInfo.overlaps other info) (getWindowHandlesLocked d (InputWindowInfo.displayId info)).

Section Targets.
Context `{B32 : BitSet32.ops} `{B64 : BitSet64.ops}.

(** ** Targets *)

Definition targets := list (Z * InputTarget.t).

(** [None]: a pointer has no place in the target *)
Fixpoint update_target (token pointerIds : Z) (p : PointerInfo) (ts : targets) : option targets :=
  match ts with
  | [] => Some []
  | (k, target) :: rest =>
    if k =? token then target ← InputTarget.addPointers target pointerIds p; Some ((k, target) :: rest)
    else rest ← update_target token pointerIds p rest; Some ((k, target) :: rest)
  end.

Definition addWindowTargetLocked (w : t) (windowHandle targetFlags pointerIds : Z) (inputTargets : targets) : option targets :=
  let info := info_of (shared w) windowHandle in
  let token := InputWindowInfo.token info in
  let p := InputEvents.info (leftOffset info) (topOffset info) (InputWindowInfo.windowXScale info) (InputWindowInfo.windowYScale info) in
  if existsb (fun t => t.1 =? token) inputTargets then update_target token pointerIds p inputTargets
  else
    match mInputChannelsByToken w !! token with
    | None => Some inputTargets
    | Some channel =>
      target ← InputTarget.addPointers
        (InputTarget.new <| InputTarget.flags := targetFlags |> <| InputTarget.globalScaleFactor := InputWindowInfo.globalScaleFactor info |>) pointerIds p;
      Some (inputTargets ++ [(InputChannel.token channel, target)])
    end.

Definition addMonitoringTargetLocked (channel : InputChannel.t) (xOffset yOffset : float32) (inputTargets : targets) : targets :=
  inputTargets ++ [(InputChannel.token channel,
    InputTarget.setDefaultPointerInfo (InputTarget.new <| InputTarget.flags := InputTarget.FLAG_DISPATCH_AS_IS |>) (InputEvents.info xOffset yOffset F32.one F32.one))].

Definition addGlobalMonitoringTargetsLocked (w : t) (displayId : Z) (xOffset yOffset : float32) (inputTargets : targets) : targets :=
  foldl (fun ts channel => addMonitoringTargetLocked channel xOffset yOffset ts) inputTargets (default [] (lookup_list (mGlobalMonitorsByDisplay w) displayId)).

Fixpoint add_windows (w : t) (windows : list TouchState.TouchedWindow) (inputTargets : targets) : option targets :=
  match windows with
  | [] => Some inputTargets
  | x :: rest =>
    inputTargets ← addWindowTargetLocked w (TouchState.windowHandle x) (TouchState.targetFlags x) (TouchState.pointerIds x) inputTargets;
    add_windows w rest inputTargets
  end.

(** ** The focused window *)

(** [windowName] is only logged *)
Definition shouldWaitToSendKeyLocked (d : Dispatcher.t) (currentTime : Z) : bool * Dispatcher.t :=
  if AnrTracker.empty (Dispatcher.mAnrTracker d) then (false, d <| Dispatcher.mKeyIsWaitingForEventsTimeout := None |>)
  else match Dispatcher.mKeyIsWaitingForEventsTimeout d with
  | None => (true, d <| Dispatcher.mKeyIsWaitingForEventsTimeout := Some (currentTime + KEY_WAITING_FOR_EVENTS_TIMEOUT) |>)
  | Some timeout => if currentTime <? timeout then (true, d) else (false, d <| Dispatcher.mKeyIsWaitingForEventsTimeout := None |>)
  end.

(** the result, the state, the targets and the time of the next wakeup *)
Definition findFocusedWindowTargetsLocked (w : t) (perm : permissions) (currentTime : Z) (e : EventEntry) (inputTargets : targets) (nextWakeupTime : Z) : option (Z * t * targets * Z) :=
  let d := shared w in
  let displayId := getTargetDisplayId d e in
  match Dispatcher.mFocusedWindowHandlesByDisplay d !! displayId, Dispatcher.mFocusedApplicationHandlesByDisplay d !! displayId with
  | None, None => Some (INPUT_EVENT_INJECTION_FAILED, w, inputTargets, nextWakeupTime)
  | None, Some app =>
    match Dispatcher.mNoFocusedWindowTimeoutTime d with
    | None =>
      let time := currentTime + InputApplication.getDispatchingTimeout app (Dispatcher.DEFAULT_INPUT_DISPATCHING_TIMEOUT d) in
      let d := d <| Dispatcher.mNoFocusedWindowTimeoutTime := Some time |> <| Dispatcher.mAwaitedFocusedApplication := Some app |> <| Dispatcher.mAwaitedApplicationDisplayId := displayId |> in
      Some (INPUT_EVENT_INJECTION_PENDING, w <| shared := d |>, inputTargets, time)
    | Some timeout => Some (if timeout <? currentTime then INPUT_EVENT_INJECTION_FAILED else INPUT_EVENT_INJECTION_PENDING, w, inputTargets, nextWakeupTime)
    end
  | Some h, _ =>
    let d := resetNoFocusedWindowTimeoutLocked d in
    let w := w <| shared := d |> in
    if negb (checkInjectionPermission d perm (Some h) (injectionState e)) then Some (INPUT_EVENT_INJECTION_PERMISSION_DENIED, w, inputTargets, nextWakeupTime)
    else if InputWindowInfo.paused (info_of d h) then Some (INPUT_EVENT_INJECTION_PENDING, w, inputTargets, nextWakeupTime)
    else
      let r := match e with Key _ => shouldWaitToSendKeyLocked d currentTime | _ => (false, d) end in
      let w := w <| shared := r.2 |> in
      if r.1 then Some (INPUT_EVENT_INJECTION_PENDING, w, inputTargets, default nextWakeupTime (Dispatcher.mKeyIsWaitingForEventsTimeout r.2))
      else
        ts ← addWindowTargetLocked w h (Z.lor InputTarget.FLAG_FOREGROUND InputTarget.FLAG_DISPATCH_AS_IS) 0 inputTargets;
        Some (INPUT_EVENT_INJECTION_SUCCEEDED, w, ts, nextWakeupTime)
  end.

(** ** The touched windows *)

(** the variables of [findTouchedWindowTargetsLocked]; the permission is unknown, granted
    or denied *)
Record attempt := mk_attempt {
  injectionResult : Z; injectionPermission : option bool; tempTouchState : TouchState.t; switchedDevice : bool; wrongDevice : bool; isSplit : bool;
  newHoverWindowHandle : option Z; inputTargets : targets }.

Definition attempt_eta (a : attempt) : attempt :=
  mk_attempt (injectionResult a) (injectionPermission a) (tempTouchState a) (switchedDevice a) (wrongDevice a) (isSplit a) (newHoverWindowHandle a) (inputTargets a).
#[global] Instance set_injectionResult : Setter injectionResult := ltac:(setter_of attempt_eta injectionResult).
#[global] Instance set_injectionPermission : Setter injectionPermission := ltac:(setter_of attempt_eta injectionPermission).
#[global] Instance set_tempTouchState : Setter tempTouchState := ltac:(setter_of attempt_eta tempTouchState).
#[global] Instance set_switchedDevice : Setter switchedDevice := ltac:(setter_of attempt_eta switchedDevice).
#[global] Instance set_wrongDevice : Setter wrongDevice := ltac:(setter_of attempt_eta wrongDevice).
#[global] Instance set_isSplit : Setter isSplit := ltac:(setter_of attempt_eta isSplit).
#[global] Instance set_newHoverWindowHandle : Setter newHoverWindowHandle := ltac:(setter_of attempt_eta newHoverWindowHandle).
#[global] Instance set_inputTargets : Setter inputTargets := ltac:(setter_of attempt_eta inputTargets).

(** what a part of the function does: it goes on, or to the label [Failed] *)
Inductive outcome := GoesOn (a : attempt) | Failed (a : attempt).

Definition go_on (r : option outcome) (f : attempt -> option outcome) : option outcome :=
  match r with Some (GoesOn a) => f a | _ => r end.

Definition fail (result : Z) (a : attempt) : option outcome := Some (Failed (a <| injectionResult := result |>)).

(** *** Questions about the event *)

Definition maskedAction (e : MotionEntry.t) : Z := Z.land (MotionEntry.action e) AMOTION_EVENT_ACTION_MASK.
Definition isHoverAction (e : MotionEntry.t) : bool :=
  bool_decide (maskedAction e ∈ [AMOTION_EVENT_ACTION_HOVER_MOVE; AMOTION_EVENT_ACTION_HOVER_ENTER; AMOTION_EVENT_ACTION_HOVER_EXIT]).
Definition isDown (e : MotionEntry.t) : bool := maskedAction e =? AMOTION_EVENT_ACTION_DOWN.
Definition newGesture (e : MotionEntry.t) : bool := isDown e || (maskedAction e =? AMOTION_EVENT_ACTION_SCROLL) || isHoverAction e.
Definition isFromMouse (e : MotionEntry.t) : bool := MotionEntry.source e =? AINPUT_SOURCE_MOUSE.

(** the position of the pointer [i], as integers *)
Definition position (e : MotionEntry.t) (i : Z) : option (Z * Z) :=
  p ← MotionEntry.pointers e !! Z.to_nat i;
  x ← F32.to_int32 (PointerCoords.getAxisValue (coord p) PointerCoords.AMOTION_EVENT_AXIS_X);
  y ← F32.to_int32 (PointerCoords.getAxisValue (coord p) PointerCoords.AMOTION_EVENT_AXIS_Y);
  Some (x, y).

Definition cursor (e : MotionEntry.t) : option (Z * Z) :=
  x ← F32.to_int32 (MotionEntry.xCursorPosition e); y ← F32.to_int32 (MotionEntry.yCursorPosition e); Some (x, y).

(** the set of the pointer [i] alone *)
Definition only_pointer (e : MotionEntry.t) (i : Z) : option Z := p ← MotionEntry.pointers e !! Z.to_nat i; Some (BitSet32.markBit 0 (id (property p))).

(** *** The parts *)

Definition oldState (w : t) (e : MotionEntry.t) : option TouchState.t := lookup_list (Dispatcher.mTouchStatesByDisplay (shared w)) (MotionEntry.displayId e).

Definition start (w : t) (e : MotionEntry.t) (ts : targets) : attempt :=
  let temp := match oldState w e with Some old => TouchState.copyFrom TouchState.new old | None => TouchState.new end in
  let switched := (0 <=? TouchState.deviceId temp) && (0 <=? TouchState.displayId temp) &&
    (negb (TouchState.deviceId temp =? MotionEntry.deviceId e) || negb (TouchState.source temp =? MotionEntry.source e) ||
     negb (TouchState.displayId temp =? MotionEntry.displayId e)) in
  mk_attempt INPUT_EVENT_INJECTION_PENDING None temp switched false (TouchState.split temp) None ts.

Definition reset_state (e : MotionEntry.t) (s : TouchState.t) : TouchState.t :=
  (TouchState.reset s) <| TouchState.deviceId := MotionEntry.deviceId e |> <| TouchState.source := MotionEntry.source e |> <| TouchState.displayId := MotionEntry.displayId e |>.

Definition begin_gesture (e : MotionEntry.t) (a : attempt) : option outcome :=
  if newGesture e then
    if switchedDevice a && TouchState.down (tempTouchState a) && negb (isDown e) && negb (isHoverAction e)
    then fail INPUT_EVENT_INJECTION_FAILED (a <| switchedDevice := false |> <| wrongDevice := true |>)
    else Some (GoesOn (a <| tempTouchState := (reset_state e (tempTouchState a)) <| TouchState.down := isDown e |> |> <| isSplit := false |>))
  else if switchedDevice a && (maskedAction e =? AMOTION_EVENT_ACTION_MOVE)
  then fail INPUT_EVENT_INJECTION_PERMISSION_DENIED (a <| switchedDevice := false |> <| wrongDevice := true |>)
  else Some (GoesOn a).

(** the window that a new pointer goes to, of the one that was found, and whether the touch
    is split *)
Definition choose_window (w : t) (e : MotionEntry.t) (split : bool) (s : TouchState.t) (touched : option Z) : option Z * bool :=
  let d := shared w in
  let supports := match touched with Some h => InputWindowInfo.supportsSplitTouch (info_of d h) | None => false end in
  let split' := if supports then negb (isFromMouse e) else split in
  let touched := if supports then touched else if split then None else touched in
  let touched := match touched with Some h => Some h | None => TouchState.getFirstForegroundWindowHandle s end in
  let touched := match touched with Some h => if InputWindowInfo.paused (info_of d h) then None else Some h | None => None end in
  (match touched with Some h => if responsive w (Dispatcher.getToken d h) then Some h else None | None => None end, split').

Definition obscured_flags (d : Dispatcher.t) (h x y : Z) : Z :=
  if isWindowObscuredAtPointLocked d h x y then InputTarget.FLAG_WINDOW_IS_OBSCURED
  else if isWindowObscuredLocked d h then InputTarget.FLAG_WINDOW_IS_PARTIALLY_OBSCURED else 0.

Definition split_flag (split : bool) : Z := if split then InputTarget.FLAG_SPLIT else 0.

(** the pointer goes to the window [h] *)
Definition touch_window (w : t) (e : MotionEntry.t) (pointerIndex x y h : Z) (a : attempt) : option attempt :=
  let flags := Z.lor (Z.lor (Z.lor InputTarget.FLAG_FOREGROUND InputTarget.FLAG_DISPATCH_AS_IS) (split_flag (isSplit a))) (obscured_flags (shared w) h x y) in
  let hover := if isHoverAction e then Some h
               else if maskedAction e =? AMOTION_EVENT_ACTION_SCROLL then Dispatcher.mLastHoverWindowHandle (shared w) else newHoverWindowHandle a in
  pointerIds ← (if isSplit a then only_pointer e pointerIndex else Some 0);
  Some (a <| newHoverWindowHandle := hover |> <| tempTouchState := TouchState.addOrUpdateWindow (tempTouchState a) h flags pointerIds |>).

(** case 1: a new pointer, or a hover or scroll *)
Definition new_pointer (w : t) (e : MotionEntry.t) (a : attempt) : option outcome :=
  let pointerIndex := getMotionEventActionPointerIndex (MotionEntry.action e) in
  xy ← (if isFromMouse e then cursor e else position e pointerIndex);
  r ← findTouchedWindowAtLocked (shared w) (MotionEntry.displayId e) xy.1 xy.2 (tempTouchState a) (isDown e) true;
  let s := r.2 in
  let monitors := if isDown e then findTouchedGestureMonitorsLocked w (MotionEntry.displayId e) (TouchState.portalWindows s) else [] in
  let c := choose_window w e (isSplit a) s r.1 in
  let monitors := selectResponsiveMonitorsLocked w monitors in
  let a := a <| tempTouchState := s |> <| isSplit := c.2 |> in
  match c.1, monitors with
  | None, [] => fail INPUT_EVENT_INJECTION_FAILED a
  | touched, _ =>
    a ← match touched with Some h => touch_window w e pointerIndex xy.1 xy.2 h a | None => Some a end;
    Some (GoesOn (a <| tempTouchState := TouchState.addGestureMonitors (tempTouchState a) monitors |>))
  end.

Definition slippery_window (d : Dispatcher.t) (h : Z) : bool := has (InputWindowInfo.layoutParamsFlags (info_of d h)) InputWindowInfo.FLAG_SLIPPERY.

(** the touch leaves the window [old] for [new] *)
Definition slip (w : t) (e : MotionEntry.t) (x y old new : Z) (a : attempt) : option attempt :=
  let s := TouchState.addOrUpdateWindow (tempTouchState a) old InputTarget.FLAG_DISPATCH_AS_SLIPPERY_EXIT 0 in
  let split := InputWindowInfo.supportsSplitTouch (info_of (shared w) new) || isSplit a in
  let flags := Z.lor (Z.lor (Z.lor InputTarget.FLAG_FOREGROUND InputTarget.FLAG_DISPATCH_AS_SLIPPERY_ENTER) (split_flag split))
                     (if isWindowObscuredAtPointLocked (shared w) new x y then InputTarget.FLAG_WINDOW_IS_OBSCURED else 0) in
  pointerIds ← (if split then only_pointer e 0 else Some 0);
  Some (a <| tempTouchState := TouchState.addOrUpdateWindow s new flags pointerIds |> <| isSplit := split |>).

(** case 2: the touch goes on *)
Definition next_pointer (w : t) (e : MotionEntry.t) (a : attempt) : option outcome :=
  if negb (TouchState.down (tempTouchState a)) then fail INPUT_EVENT_INJECTION_FAILED a
  else if (maskedAction e =? AMOTION_EVENT_ACTION_MOVE) && (MotionEntry.pointerCount e =? 1) && TouchState.isSlippery (slippery_window (shared w)) (tempTouchState a) then
    xy ← position e 0;
    let old := TouchState.getFirstForegroundWindowHandle (tempTouchState a) in
    r ← findTouchedWindowAtLocked (shared w) (MotionEntry.displayId e) xy.1 xy.2 (tempTouchState a) false false;
    let a := a <| tempTouchState := r.2 |> in
    match old, r.1 with
    | Some old, Some new => if old =? new then Some (GoesOn a) else a ← slip w e xy.1 xy.2 old new a; Some (GoesOn a)
    | _, _ => Some (GoesOn a)
    end
  else Some (GoesOn a).

Definition update_hover (w : t) (a : attempt) : attempt :=
  let last := Dispatcher.mLastHoverWindowHandle (shared w) in
  if bool_decide (newHoverWindowHandle a = last) then a
  else
    let s := tempTouchState a in
    let s := match last with Some h => TouchState.addOrUpdateWindow s h InputTarget.FLAG_DISPATCH_AS_HOVER_EXIT 0 | None => s end in
    let s := match newHoverWindowHandle a with Some h => TouchState.addOrUpdateWindow s h InputTarget.FLAG_DISPATCH_AS_HOVER_ENTER 0 | None => s end in
    a <| tempTouchState := s |>.

Definition foreground (x : TouchState.TouchedWindow) : bool := has (TouchState.targetFlags x) InputTarget.FLAG_FOREGROUND.

Definition check_permissions (w : t) (perm : permissions) (e : MotionEntry.t) (a : attempt) : option outcome :=
  let foregrounds := filter (fun x => foreground x = true) (TouchState.windows (tempTouchState a)) in
  if forallb (fun x => checkInjectionPermission (shared w) perm (Some (TouchState.windowHandle x)) (MotionEntry.injectionState e)) foregrounds then
    if bool_decide (foregrounds = []) && bool_decide (TouchState.gestureMonitors (tempTouchState a) = []) then fail INPUT_EVENT_INJECTION_FAILED a
    else Some (GoesOn (a <| injectionPermission := Some true |>))
  else fail INPUT_EVENT_INJECTION_PERMISSION_DENIED (a <| injectionPermission := Some false |>).

(** windows of other users that watch touches outside of them do not see where *)
Definition hide_coordinates (w : t) (e : MotionEntry.t) (s : TouchState.t) : TouchState.t :=
  if isDown e then
    match TouchState.getFirstForegroundWindowHandle s with
    | Some h =>
      foldl (fun s x =>
        if has (TouchState.targetFlags x) InputTarget.FLAG_DISPATCH_AS_OUTSIDE &&
           negb (InputWindowInfo.ownerUid (info_of (shared w) (TouchState.windowHandle x)) =? InputWindowInfo.ownerUid (info_of (shared w) h))
        then TouchState.addOrUpdateWindow s (TouchState.windowHandle x) InputTarget.FLAG_ZERO_COORDS 0 else s) s (TouchState.windows s)
    | None => s
    end
  else s.

Definition wallpaper_flags : Z :=
  Z.lor (Z.lor InputTarget.FLAG_WINDOW_IS_OBSCURED InputTarget.FLAG_WINDOW_IS_PARTIALLY_OBSCURED) InputTarget.FLAG_DISPATCH_AS_IS.

Definition add_wallpapers (w : t) (e : MotionEntry.t) (s : TouchState.t) : TouchState.t :=
  let d := shared w in
  match isDown e, TouchState.getFirstForegroundWindowHandle s with
  | true, Some h =>
    if InputWindowInfo.hasWallpaper (info_of d h) then
      foldl (fun s h =>
        if (InputWindowInfo.displayId (info_of d h) =? MotionEntry.displayId e) && (InputWindowInfo.layoutParamsType (info_of d h) =? InputWindowInfo.TYPE_WALLPAPER)
        then TouchState.addOrUpdateWindow s h wallpaper_flags 0 else s) s (getWindowHandlesLocked d (MotionEntry.displayId e))
    else s
  | _, _ => s
  end.

Definition output_targets (w : t) (a : attempt) : option outcome :=
  let s := tempTouchState a in
  ts ← add_windows w (TouchState.windows s) (inputTargets a);
  let ts := foldl (fun ts m => addMonitoringTargetLocked (TouchState.monitor m) (TouchState.xOffset m) (TouchState.yOffset m) ts) ts (TouchState.gestureMonitors s) in
  Some (GoesOn (a <| injectionResult := INPUT_EVENT_INJECTION_SUCCEEDED |> <| inputTargets := ts |> <| tempTouchState := TouchState.filterNonAsIsTouchWindows s |>)).

(** everything before the label [Failed] *)
Definition find_targets (w : t) (perm : permissions) (e : MotionEntry.t) (ts : targets) : option outcome :=
  go_on (begin_gesture e (start w e ts)) (fun a =>
  go_on (if newGesture e || (isSplit a && (maskedAction e =? AMOTION_EVENT_ACTION_POINTER_DOWN)) then new_pointer w e a else next_pointer w e a) (fun a =>
  go_on (check_permissions w perm e (update_hover w a)) (fun a =>
  output_targets w (a <| tempTouchState := add_wallpapers w e (hide_coordinates w e (tempTouchState a)) |>)))).

(** a pointer that goes up leaves the windows that have only it *)
Definition remove_pointer (pointerId : Z) (s : TouchState.t) : TouchState.t :=
  s <| TouchState.windows :=
    omap (fun x =>
      if has (TouchState.targetFlags x) InputTarget.FLAG_SPLIT then
        let ids := BitSet32.clearBit (TouchState.pointerIds x) pointerId in
        if BitSet32.isEmpty ids then None else Some (TouchState.touched (TouchState.windowHandle x) (TouchState.targetFlags x) ids)
      else Some x) (TouchState.windows s) |>.

(** the touch's state after the event *)
Definition final_state (e : MotionEntry.t) (a : attempt) : option TouchState.t :=
  let s := tempTouchState a in
  if isHoverAction e then
    Some (if bool_decide (maskedAction e ∈ [AMOTION_EVENT_ACTION_HOVER_ENTER; AMOTION_EVENT_ACTION_HOVER_MOVE]) then reset_state e s else TouchState.reset s)
  else if bool_decide (maskedAction e ∈ [AMOTION_EVENT_ACTION_UP; AMOTION_EVENT_ACTION_CANCEL]) then Some (TouchState.reset s)
  else if (maskedAction e =? AMOTION_EVENT_ACTION_POINTER_UP) && isSplit a then
    p ← MotionEntry.pointers e !! Z.to_nat (getMotionEventActionPointerIndex (MotionEntry.action e)); Some (remove_pointer (id (property p)) s)
  else Some s.

Definition conflicting (w : t) (e : MotionEntry.t) (a : attempt) : bool :=
  switchedDevice a || ((isHoverAction e || isDown e) && match oldState w e with Some old => TouchState.down old | None => false end).

Definition save_state (e : MotionEntry.t) (s : TouchState.t) (hover : option Z) (d : Dispatcher.t) : Dispatcher.t :=
  let states := Dispatcher.mTouchStatesByDisplay d in
  let states := if maskedAction e =? AMOTION_EVENT_ACTION_SCROLL then states
                else if 0 <=? TouchState.displayId s then assign (MotionEntry.displayId e) s states
                else filter (fun kv => kv.1 <> MotionEntry.displayId e) states in
  d <| Dispatcher.mTouchStatesByDisplay := states |> <| Dispatcher.mLastHoverWindowHandle := hover |>.

(** everything after the label [Failed]: the result, whether pointer actions conflict, the
    targets and the state *)
Definition finish (w : t) (perm : permissions) (e : MotionEntry.t) (a : attempt) : option (Z * bool * targets * t) :=
  let granted := match injectionPermission a with Some b => b | None => checkInjectionPermission (shared w) perm None (MotionEntry.injectionState e) end in
  if negb granted || wrongDevice a then Some (injectionResult a, false, inputTargets a, w)
  else
    s ← final_state e a;
    Some (injectionResult a, conflicting w e a, inputTargets a, w <| shared := save_state e s (newHoverWindowHandle a) (shared w) |>).

Definition findTouchedWindowTargetsLocked (w : t) (perm : permissions) (e : MotionEntry.t) (ts : targets) : option (Z * bool * targets * t) :=
  r ← find_targets w perm e ts;
  match r with GoesOn a | Failed a => finish w perm e a end.

(** ** Dispatching a motion event *)

(** the monitors of the displays whose portals the touch has gone through *)
Definition add_portal_monitors (w : t) (displayId : Z) (ts : targets) : targets :=
  match lookup_list (Dispatcher.mTouchStatesByDisplay (shared w)) displayId with
  | Some state =>
    foldl (fun ts h => let info := info_of (shared w) h in
                       addGlobalMonitoringTargetsLocked w (InputWindowInfo.portalToDisplayId info) (leftOffset info) (topOffset info) ts) ts (TouchState.portalWindows state)
  | None => ts
  end.

(** the targets of the event, with the result and whether pointer actions conflict *)
Definition identify_targets (w : t) (perm : permissions) (currentTime : Z) (e : MotionEntry.t) (nextWakeupTime : Z) : option (Z * bool * targets * t * Z) :=
  if has (MotionEntry.source e) AINPUT_SOURCE_CLASS_POINTER then
    match findTouchedWindowTargetsLocked w perm e [] with
    | Some (result, conflicts, ts, w) => Some (result, conflicts, ts, w, nextWakeupTime)
    | None => None
    end
  else
    match findFocusedWindowTargetsLocked w perm currentTime (Motion e) [] nextWakeupTime with
    | Some (result, w, ts, nextWakeupTime) => Some (result, false, ts, w, nextWakeupTime)
    | None => None
    end.

Definition add_monitors (w : t) (e : MotionEntry.t) (ts : targets) : targets :=
  let ts := addGlobalMonitoringTargetsLocked w (getTargetDisplayId (shared w) (Motion e)) F32.zero F32.zero ts in
  if has (MotionEntry.source e) AINPUT_SOURCE_CLASS_POINTER then add_portal_monitors w (MotionEntry.displayId e) ts else ts.

Definition set_result (w : t) (e : MotionEntry.t) (result : Z) : t := w <| shared := Dispatcher.setInjectionResult (shared w) (Motion e) result |>.

(** what follows once the targets are known: the event is dropped or sent *)
Definition dispatch_found (w : t) (v : env) (entry : Z) (e : MotionEntry.t) (result : Z) (conflicts : bool) (ts : targets) : option t :=
  let w := set_result w e result in
  if result =? INPUT_EVENT_INJECTION_PERMISSION_DENIED then Some w
  else if negb (result =? INPUT_EVENT_INJECTION_SUCCEEDED) then
    synthesizeCancelationEventsForMonitorsLocked w v
      (CancelationOptions.new (if has (MotionEntry.source e) AINPUT_SOURCE_CLASS_POINTER then CancelationOptions.CANCEL_POINTER_EVENTS else CancelationOptions.CANCEL_NON_POINTER_EVENTS))
  else
    let ts := add_monitors w e ts in
    w ← (if conflicts then synthesizeCancelationEventsForAllConnectionsLocked w v (CancelationOptions.new CancelationOptions.CANCEL_POINTER_EVENTS) else Some w);
    dispatchEventLocked w v entry (Motion e) ts.

(** whether the event is done, the state and the time of the next wakeup; [entry] is the
    address of the event [e] *)
Definition dispatchMotionLocked (w : t) (v : env) (perm : permissions) (entry : Z) (e : MotionEntry.t) (dropReason : DropReason) (nextWakeupTime : Z) : option (bool * t * Z) :=
  if negb (bool_decide (dropReason = NOT_DROPPED)) then
    Some (true, set_result w e (if bool_decide (dropReason = POLICY) then INPUT_EVENT_INJECTION_SUCCEEDED else INPUT_EVENT_INJECTION_FAILED), nextWakeupTime)
  else
    match identify_targets w perm (now v) e nextWakeupTime with
    | None => None
    | Some (result, conflicts, ts, w, nextWakeupTime) =>
      if result =? INPUT_EVENT_INJECTION_PENDING then Some (false, w, nextWakeupTime)
      else w ← dispatch_found w v entry e result conflicts ts; Some (true, w, nextWakeupTime)
    end.

End Targets.

End InputTargets.

(** * The window at a point

    What the search through the windows of a display, and through portals into other
    displays, finds; that it ends unless portals lead in a circle; and when a window counts
    as obscured. *)

Import InputDispatcher InputTargets.

(** ** Iterating a partial function *)

Section Trace.
Context {A : Type} `{EqDecision A} (f : A -> option A).

(** the points that are visited from [a] until the function is not defined *)
Inductive trace : A -> list A -> Prop :=
  | trace_end a : f a = None -> trace a [a]
  | trace_step a b l : f a = Some b -> trace b l -> trace a (a :: l).

Lemma trace_deterministic a l l' : trace a l -> trace a l' -> l = l'.
Proof. intros H; revert l'; induction H as [a E|a b l E H IH]; intros l' H'; inversion H'; simplify_eq; try congruence. f_equal. apply IH. congruence. Qed.

Lemma trace_suffix a l x : trace a l -> x ∈ l -> exists l', trace x l' /\ (length l' <= length l)%nat.
Proof.
  induction 1 as [a E|a b l E H IH]; intros Hx.
  - apply list_elem_of_singleton in Hx as ->. exists [a]. split; [by constructor|done].
  - apply elem_of_cons in Hx as [->|Hx]; [exists (a :: l); split; [by econstructor|done]|]. destruct (IH Hx) as (l' & Hl' & Hle). exists l'. simpl. split; [done|lia].
Qed.

Lemma trace_NoDup a l : trace a l -> NoDup l.
Proof.
  induction 1 as [a E|a b l E H IH]; [apply NoDup_singleton|]. constructor; [|done].
  intros Hin. destruct (trace_suffix _ _ _ H Hin) as (l' & Hl' & Hle). assert (l' = a :: l) as -> by (eapply trace_deterministic; [done|by econstructor]). simpl in Hle. lia.
Qed.

(** The points at which the function is defined bound the length. *)
Lemma trace_length a l (dom : list A) : trace a l -> (forall x, is_Some (f x) -> x ∈ dom) -> (length l <= S (length dom))%nat.
Proof.
  intros Ht Hdom. assert (exists l0 z, l = l0 ++ [z] /\ Forall (fun x => x ∈ dom) l0) as (l0 & z & -> & Hl0).
  { induction Ht as [a E|a b l E H IH]; [by exists [], a|]. destruct IH as (l0 & z & -> & Hl0). exists (a :: l0), z. split; [done|]. constructor; [by apply Hdom; exists b|done]. }
  apply trace_NoDup in Ht. apply NoDup_app in Ht as [Hnd _]. rewrite length_app. simpl.
  assert (length l0 <= length dom)%nat; [|lia]. apply submseteq_length, NoDup_submseteq; [done|]. intros x Hx. by apply (proj1 (Forall_forall _ _) Hl0).
Qed.

End Trace.

(** ** One display *)

Section Search.
Context (d : Dispatcher.t) (x y : Z).

Definition hit (displayId h : Z) : bool :=
  (InputWindowInfo.displayId (Dispatcher.getInfo d h) =? displayId) && InputWindowInfo.visible (Dispatcher.getInfo d h) && touched_at (Dispatcher.getInfo d h) x y.

(** the frontmost window of the display that is touched *)
Definition front (displayId : Z) : option Z := head (filter (fun h => hit displayId h = true) (getWindowHandlesLocked d displayId)).

(** the display that the window shows, if it is a portal *)
Definition portal (displayId h : Z) : option Z :=
  let p := InputWindowInfo.portalToDisplayId (Dispatcher.getInfo d h) in
  if (p =? InputWindowInfo.ADISPLAY_ID_NONE) || (p =? displayId) then None else Some p.

(** the display in which the search goes on *)
Definition beyond (displayId : Z) : option Z := h ← front displayId; portal displayId h.

Lemma search_windows_found displayId o p s hs :
  (search_windows d displayId x y o p s hs).1 =
  match head (filter (fun h => hit displayId h = true) hs) with
  | None => NoWindow
  | Some h => match portal displayId h with None => Window h | Some q => PortalTo q end
  end.
Proof.
  revert s; induction hs as [|h hs IH]; intros s; [done|]. rewrite filter_cons.
  assert (E : hit displayId h = (InputWindowInfo.displayId (Dispatcher.getInfo d h) =? displayId) && InputWindowInfo.visible (Dispatcher.getInfo d h) && touched_at (Dispatcher.getInfo d h) x y) by done.
  simpl. destruct (_ && InputWindowInfo.visible _); simpl in E; [|rewrite decide_False by congruence; apply IH].
  destruct (touched_at _ _ _); [rewrite decide_True by done; simpl|rewrite decide_False by congruence; apply IH].
  unfold portal. rewrite <- negb_orb. by destruct (_ || _).
Qed.

(** what the search through portals finds *)
Inductive at_point : Z -> option Z -> Prop :=
  | at_nothing displayId : front displayId = None -> at_point displayId None
  | at_window displayId h : front displayId = Some h -> portal displayId h = None -> at_point displayId (Some h)
  | at_portal displayId h q r : front displayId = Some h -> portal displayId h = Some q -> at_point q r -> at_point displayId r.

Lemma at_point_trace displayId r : at_point displayId r -> exists l, trace beyond displayId l.
Proof.
  induction 1 as [displayId E|displayId h E Ep|displayId h q r E Ep H [l IH]].
  - exists [displayId]. constructor. unfold beyond. by rewrite E.
  - exists [displayId]. constructor. unfold beyond. by rewrite E.
  - exists (displayId :: l). econstructor; [|done]. unfold beyond. by rewrite E.
Qed.

Lemma beyond_known displayId : is_Some (beyond displayId) -> displayId ∈ map fst (Dispatcher.mWindowHandlesByDisplay d).
Proof.
  intros [q E]. unfold beyond in E. destruct (front displayId) as [h|] eqn:Ef; [|done]. unfold front, getWindowHandlesLocked, lookup_list in Ef.
  destruct (filter (fun kv => kv.1 = displayId) _) as [|kv l] eqn:El; [done|].
  assert (kv ∈ filter (fun kv => kv.1 = displayId) (Dispatcher.mWindowHandlesByDisplay d)) as [<- Hin]%list_elem_of_filter by (rewrite El; left).
  apply elem_of_map. by exists kv.
Qed.

Lemma search_displays_sound fuel displayId o p s r s' : search_displays fuel d displayId x y o p s = Some (r, s') -> at_point displayId r.
Proof.
  revert displayId s; induction fuel as [|fuel IH]; intros displayId s; simpl; [done|]. rewrite search_windows_found. fold (front displayId).
  destruct (front displayId) as [h|] eqn:Ef; [|intros [= <- _]; by constructor].
  destruct (portal displayId h) as [q|] eqn:Ep; [intros H; eapply at_portal; eauto|intros [= <- _]; by constructor].
Qed.

Lemma search_displays_ends displayId l : trace beyond displayId l -> forall fuel o p s, (length l <= fuel)%nat -> is_Some (search_displays fuel d displayId x y o p s).
Proof.
  induction 1 as [displayId E|displayId q l E H IH]; intros [|fuel] o p s Hfuel; simpl in *; try lia; rewrite search_windows_found; fold (front displayId); unfold beyond in E.
  - destruct (front displayId); simpl in E; [rewrite E|]; eauto.
  - destruct (front displayId); simpl in E; [rewrite E|done]. apply IH. lia.
Qed.

(** The search finds what is at the point, and it ends if there is an end. *)
Lemma search_refines displayId o p s r : at_point displayId r <-> exists s', findTouchedWindowAtLocked d displayId x y s o p = Some (r, s').
Proof.
  split; [|intros [s' H]; by eapply search_displays_sound].
  intros H. destruct (at_point_trace _ _ H) as [l Hl]. pose proof (trace_length _ _ _ _ Hl beyond_known) as Hlen. rewrite length_map in Hlen.
  destruct (search_displays_ends _ _ Hl _ o p s Hlen) as [[r' s'] E]. exists s'. unfold findTouchedWindowAtLocked. rewrite E. do 2 f_equal. apply search_displays_sound in E.
  clear -H E. induction H; inversion E; simplify_eq; auto.
Qed.

(** It runs out of displays only if portals lead in a circle. *)
Lemma search_circle displayId o p s : findTouchedWindowAtLocked d displayId x y s o p = None -> forall n, exists q, Nat.iter n (fun r => r ≫= beyond) (Some displayId) = Some q.
Proof.
  intros E n. destruct (Nat.iter n (fun r => r ≫= beyond) (Some displayId)) as [q|] eqn:Eq; [by exists q|]. exfalso.
  assert (exists l, trace beyond displayId l) as [l Hl].
  { clear E. revert displayId Eq; induction n as [|n IH]; intros displayId Eq; [done|]. rewrite Nat.iter_succ_r in Eq. simpl in Eq.
    destruct (beyond displayId) as [q|] eqn:Eb; [|exists [displayId]; by constructor]. destruct (IH _ Eq) as [l Hl]. exists (displayId :: l). by econstructor. }
  pose proof (trace_length _ _ _ _ Hl beyond_known) as Hlen. rewrite length_map in Hlen. destruct (search_displays_ends _ _ Hl _ o p s Hlen) as [? E'].
  unfold findTouchedWindowAtLocked in E. by rewrite E' in E.
Qed.

(** ** Occlusion *)

Lemma obscured_by_spec h bounds hs : obscured_by d h bounds hs = true <->
  exists above other below, hs = above ++ other :: below /\ h ∉ above ++ [other] /\ canBeObscuredBy d h other = true /\ bounds (Dispatcher.getInfo d other) = true.
Proof.
  induction hs as [|o hs IH]; simpl; [split; [done|intros ([] & ? & ? & ? & _); done]|].
  destruct (h =? o) eqn:E; bool_to_prop.
  { subst o. split; [done|]. intros ([|a above] & other & below & Eq & Hn & _); injection Eq as <- Eq; exfalso; set_solver. }
  destruct (canBeObscuredBy d h o && bounds (Dispatcher.getInfo d o)) eqn:Eo; bool_to_prop.
  { split; [intros _; exists [], o, hs|done]. split; [done|]. split; [set_solver|done]. }
  rewrite IH. split; intros (above & other & below & Eq & Hn & Hc & Hb).
  - exists (o :: above), other, below. subst hs. split; [done|]. split; [set_solver|done].
  - destruct above as [|a above]; injection Eq as -> Eq; [by destruct Eo; congruence|]. exists above, other, below. subst hs. split; [done|]. split; [set_solver|done].
Qed.

End Search.
