(* ===== verification/InputInbound.v ===== *)
(** * The inbound events of the input dispatcher (services/inputflinger/dispatcher/InputDispatcher.cpp)

    Events come from the devices and from applications that inject them, wait in
    [mInboundQueue], and are taken by the dispatcher's thread, which drops them or
    dispatches them as InputDispatcher.v and InputTargets.v say. This file has the queue,
    the thread's loop, key repeats, the keys the policy is asked about, and the updates of
    windows and focus.

    - Events are objects that are mutated while several queues share them: [entries] holds
      them by their address, and the queues hold addresses. An object is never freed: reference
      counts are left out, and where the code reuses a key event that nothing else refers
      to, a new object is made.
    - [thread] says where the dispatcher's thread is: it polls, or it runs commands.
      [awake] says that the poll has been woken up.
    - The policy, the clock, new addresses and new ids are arguments. *)

From S2P Require Import Prelude PointerCoords InputEvents InputState InputConnection InputDispatcher InputTargets.

Definition APP_SWITCH_TIMEOUT : Z := 500000000.
Definition STALE_EVENT_TIMEOUT : Z := 10000000000.
Definition RECENT_QUEUE_MAX_SIZE : Z := 10.

Definition POLICY_FLAG_VIRTUAL : Z := 2.
Definition POLICY_FLAG_FUNCTION : Z := 4.
Definition POLICY_FLAG_RAW_MASK : Z := 65535.
Definition POLICY_FLAG_INJECTED : Z := 16777216.
Definition POLICY_FLAG_TRUSTED : Z := 33554432.
Definition POLICY_FLAG_FILTERED : Z := 67108864.
Definition POLICY_FLAG_DISABLE_KEY_REPEAT : Z := 134217728.
Definition POLICY_FLAG_PASS_TO_USER : Z := 1073741824.

Definition AKEY_EVENT_FLAG_VIRTUAL_HARD_KEY : Z := 64.
Definition AKEY_EVENT_FLAG_LONG_PRESS : Z := 128.
Definition AMETA_FUNCTION_ON : Z := 8.
Definition AMETA_META_ON : Z := 65536.
Definition AMETA_META_LEFT_ON : Z := 131072.
Definition AMETA_META_RIGHT_ON : Z := 262144.

Definition AKEYCODE_HOME : Z := 3.
Definition AKEYCODE_BACK : Z := 4.
Definition AKEYCODE_ENDCALL : Z := 6.
Definition AKEYCODE_ENTER : Z := 66.
Definition AKEYCODE_DEL : Z := 67.
Definition AKEYCODE_APP_SWITCH : Z := 187.

Definition VIRTUAL_KEYBOARD_ID : Z := -1.
Definition INPUT_EVENT_INJECTION_TIMED_OUT : Z := 3.
Definition INPUT_EVENT_INJECTION_SYNC_NONE : Z := 0.
Definition INPUT_EVENT_INJECTION_SYNC_WAIT_FOR_FINISHED : Z := 2.

(** ** Event objects (Entry.h, Entry.cpp) *)

Module Entry.

Inductive InterceptKeyResult := INTERCEPT_KEY_RESULT_UNKNOWN | INTERCEPT_KEY_RESULT_SKIP | INTERCEPT_KEY_RESULT_CONTINUE | INTERCEPT_KEY_RESULT_TRY_AGAIN_LATER.

(** [time] and [connectionToken] are of events that are neither keys nor motions *)
Record t := mk {
  event : EventEntry; time : Z; connectionToken : Z; dispatchInProgress : bool;
  syntheticRepeat : bool; interceptKeyResult : InterceptKeyResult; interceptKeyWakeupTime : Z }.

Definition eta (x : t) : t :=
  mk (event x) (time x) (connectionToken x) (dispatchInProgress x) (syntheticRepeat x) (interceptKeyResult x) (interceptKeyWakeupTime x).
#[global] Instance set_event : Setter event := ltac:(setter_of eta event).
#[global] Instance set_dispatchInProgress : Setter dispatchInProgress := ltac:(setter_of eta dispatchInProgress).
#[global] Instance set_syntheticRepeat : Setter syntheticRepeat := ltac:(setter_of eta syntheticRepeat).
#[global] Instance set_interceptKeyResult : Setter interceptKeyResult := ltac:(setter_of eta interceptKeyResult).
#[global] Instance set_interceptKeyWakeupTime : Setter interceptKeyWakeupTime := ltac:(setter_of eta interceptKeyWakeupTime).

Definition new (event : EventEntry) (time connectionToken : Z) : t := mk event time connectionToken false false INTERCEPT_KEY_RESULT_UNKNOWN 0.
Definition of_event (event : EventEntry) : t := new event 0 0.

Definition eventTime (x : t) : Z :=
  match event x with Key k => KeyEntry.eventTime k | Motion m => MotionEntry.eventTime m | _ => time x end.

(** the flags of other events are those of their constructors *)
Definition policyFlags (x : t) : Z :=
  match event x with
  | Key k => KeyEntry.policyFlags k
  | Motion m => MotionEntry.policyFlags m
  | Focus _ _ => POLICY_FLAG_PASS_TO_USER
  | ConfigurationChanged | DeviceReset _ => 0
  end.

Definition is_focus (x : t) : bool := match event x with Focus _ _ => true | _ => false end.

End Entry.

(** ** The dispatcher (InputDispatcher.h) *)

(** the dispatcher's thread, with the time at which it is to wake up; whether there were
    commands to run *)
Inductive Thread := Polling (nextWakeupTime : Z) | Commands (nextWakeupTime : Z) (ran : bool).

Module Inbound.

(** [keyRepeatTimeout] and [keyRepeatDelay] are fields of [mConfig]; the last reason for which
    an event was dropped is only logged and left out *)
Record t := mk {
  world : InputDispatcher.t; entries : gmap Z Entry.t; mInboundQueue : list Z; mPendingEvent : option Z; mRecentQueue : list Z;
  lastKeyEntry : option Z; nextRepeatTime : Z; mAppSwitchSawKeyDown : bool; mAppSwitchDueTime : Z; mNextUnblockedEvent : option Z;
  mDispatchEnabled : bool; mDispatchFrozen : bool; mInputFilterEnabled : bool; mReplacedKeys : gmap (Z * Z) Z;
  keyRepeatTimeout : Z; keyRepeatDelay : Z; thread : Thread; awake : bool }.

Definition eta (s : t) : t :=
  mk (world s) (entries s) (mInboundQueue s) (mPendingEvent s) (mRecentQueue s) (lastKeyEntry s) (nextRepeatTime s) (mAppSwitchSawKeyDown s) (mAppSwitchDueTime s)
     (mNextUnblockedEvent s) (mDispatchEnabled s) (mDispatchFrozen s) (mInputFilterEnabled s) (mReplacedKeys s) (keyRepeatTimeout s) (keyRepeatDelay s) (thread s) (awake s).
#[global] Instance set_world : Setter world := ltac:(setter_of eta world).
#[global] Instance set_entries : Setter entries := ltac:(setter_of eta entries).
#[global] Instance set_mInboundQueue : Setter mInboundQueue := ltac:(setter_of eta mInboundQueue).
#[global] Instance set_mPendingEvent : Setter mPendingEvent := ltac:(setter_of eta mPendingEvent).
#[global] Instance set_mRecentQueue : Setter mRecentQueue := ltac:(setter_of eta mRecentQueue).
#[global] Instance set_lastKeyEntry : Setter lastKeyEntry := ltac:(setter_of eta lastKeyEntry).
#[global] Instance set_nextRepeatTime : Setter nextRepeatTime := ltac:(setter_of eta nextRepeatTime).
#[global] Instance set_mAppSwitchSawKeyDown : Setter mAppSwitchSawKeyDown := ltac:(setter_of eta mAppSwitchSawKeyDown).
#[global] Instance set_mAppSwitchDueTime : Setter mAppSwitchDueTime := ltac:(setter_of eta mAppSwitchDueTime).
#[global] Instance set_mNextUnblockedEvent : Setter mNextUnblockedEvent := ltac:(setter_of eta mNextUnblockedEvent).
#[global] Instance set_mDispatchEnabled : Setter mDispatchEnabled := ltac:(setter_of eta mDispatchEnabled).
#[global] Instance set_mDispatchFrozen : Setter mDispatchFrozen := ltac:(setter_of eta mDispatchFrozen).
#[global] Instance set_mInputFilterEnabled : Setter mInputFilterEnabled := ltac:(setter_of eta mInputFilterEnabled).
#[global] Instance set_mReplacedKeys : Setter mReplacedKeys := ltac:(setter_of eta mReplacedKeys).
#[global] Instance set_thread : Setter thread := ltac:(setter_of eta thread).
#[global] Instance set_awake : Setter awake := ltac:(setter_of eta awake).

Notation shared s := (InputDispatcher.shared (world s)).

(** the state that all connections share *)
Definition on_shared (f : Dispatcher.t -> Dispatcher.t) (s : t) : t := s <| world := (world s) <| InputDispatcher.shared := f (shared s) |> |>.

Definition on_entry (f : Entry.t -> Entry.t) (a : Z) (s : t) : t := s <| entries := alter f a (entries s) |>.

Definition at_address (s : t) (a : Z) : option Entry.t := entries s !! a.

Definition wake (s : t) : t := s <| awake := true |>.

(** what the policy answers when events come in: the flags of a key, those of a motion by
    display and time, and whether an event passes the filter *)
Record policy := mk_policy {
  interceptKeyBeforeQueueing : KeyEntry.t -> Z -> Z; interceptMotionBeforeQueueing : Z -> Z -> Z -> Z; filterInputEvent : EventEntry -> Z -> bool }.

(** an event that is injected; a motion has the properties of its pointers and the fields of
    [m], the offset of its window, and samples from the oldest to the newest *)
Inductive InputEvent :=
  | KeyEvent (k : KeyEntry.t)
  | MotionEvent (m : MotionEntry.t) (xOffset yOffset : float32) (samples : list (Z * list PointerCoords.t))
  | OtherEvent.

(** the arguments of a call: those of InputDispatcher.v, and new addresses and ids *)
Record env := environment { lower : InputDispatcher.env; newAddress : nat -> Z; newEventId : nat -> Z }.
Definition now (v : env) : Z := InputDispatcher.now (lower v).

Section Inbound.
Context `{B32 : BitSet32.ops} `{B64 : BitSet64.ops}.

(** ** Leaving the queue *)

Definition addRecentEventLocked (a : Z) (s : t) : t :=
  let queue := mRecentQueue s ++ [a] in
  s <| mRecentQueue := if RECENT_QUEUE_MAX_SIZE <? Z.of_nat (length queue) then tail queue else queue |>.

(** the injector of an event that nobody dealt with is told that it failed *)
Definition answer_injector (x : Entry.t) (d : Dispatcher.t) : Dispatcher.t :=
  match injectionState (Entry.event x) with
  | Some i =>
    if bool_decide (Dispatcher.injectionResults d !! i = Some INPUT_EVENT_INJECTION_PENDING)
    then Dispatcher.setInjectionResult d (Entry.event x) INPUT_EVENT_INJECTION_FAILED else d
  | None => d
  end.

Definition releaseInboundEventLocked (a : Z) (s : t) : t :=
  let s := match at_address s a with Some x => on_shared (answer_injector x) s | None => s end in
  let s := if bool_decide (mNextUnblockedEvent s = Some a) then s <| mNextUnblockedEvent := None |> else s in
  addRecentEventLocked a s.

Definition releasePendingEventLocked (s : t) : t :=
  match mPendingEvent s with Some a => (releaseInboundEventLocked a s) <| mPendingEvent := None |> | None => s end.

Definition drainInboundQueueLocked (s : t) : t := (foldl (fun s a => releaseInboundEventLocked a s) s (mInboundQueue s)) <| mInboundQueue := [] |>.

(** ** Application switches *)

Definition isAppSwitchKeyCode (keyCode : Z) : bool := (keyCode =? AKEYCODE_HOME) || (keyCode =? AKEYCODE_ENDCALL) || (keyCode =? AKEYCODE_APP_SWITCH).

Definition isAppSwitchKeyEvent (k : KeyEntry.t) : bool :=
  negb (has (KeyEntry.flags k) AKEY_EVENT_FLAG_CANCELED) && isAppSwitchKeyCode (KeyEntry.keyCode k) &&
  has (KeyEntry.policyFlags k) POLICY_FLAG_TRUSTED && has (KeyEntry.policyFlags k) POLICY_FLAG_PASS_TO_USER.

Definition resetPendingAppSwitchLocked (s : t) : t := s <| mAppSwitchDueTime := LONG_LONG_MAX |>.

(** ** Entering the queue *)

(** whether the events before this one are to be dropped, and the state *)
Definition shouldPruneInboundQueueLocked (s : t) (currentTime : Z) (m : MotionEntry.t) : option (bool * t) :=
  let w := world s in
  let d := shared s in
  let isPointerDownEvent := (MotionEntry.action m =? AMOTION_EVENT_ACTION_DOWN) && has (MotionEntry.source m) AINPUT_SOURCE_CLASS_POINTER in
  let stop_waiting := if isPointerDownEvent && bool_decide (is_Some (Dispatcher.mKeyIsWaitingForEventsTimeout d))
                      then on_shared (fun d => d <| Dispatcher.mKeyIsWaitingForEventsTimeout := Some currentTime |>) s else s in
  match isPointerDownEvent, Dispatcher.mAwaitedFocusedApplication d with
  | true, Some awaited =>
    xy ← InputTargets.position m 0;
    r ← InputTargets.findTouchedWindowAtLocked d (MotionEntry.displayId m) xy.1 xy.2 TouchState.new false false;
    let other := match r.1 with Some h => negb (InputWindowInfo.applicationToken (Dispatcher.getInfo d h) =? InputApplication.token awaited) | None => false end in
    let monitors := InputTargets.findTouchedGestureMonitorsLocked w (MotionEntry.displayId m) [] in
    if other then Some (true, s)
    else if existsb (fun x => InputTargets.responsive w (InputChannel.token (TouchState.monitor x))) monitors then Some (true, s)
    else Some (false, stop_waiting)
  | _, _ => Some (false, stop_waiting)
  end.

(** whether the thread is to be woken up, and the state; [None] for a focus event *)
Definition enqueueInboundEventLocked (s : t) (currentTime a : Z) (x : Entry.t) : option (bool * t) :=
  let needWake := bool_decide (mInboundQueue s = []) in
  let s := s <| mInboundQueue := mInboundQueue s ++ [a] |> in
  match Entry.event x with
  | Key k =>
    if isAppSwitchKeyEvent k then
      if KeyEntry.action k =? AKEY_EVENT_ACTION_DOWN then Some (needWake, s <| mAppSwitchSawKeyDown := true |>)
      else if (KeyEntry.action k =? AKEY_EVENT_ACTION_UP) && mAppSwitchSawKeyDown s
      then Some (true, s <| mAppSwitchDueTime := KeyEntry.eventTime k + APP_SWITCH_TIMEOUT |> <| mAppSwitchSawKeyDown := false |>)
      else Some (needWake, s)
    else Some (needWake, s)
  | Motion m =>
    match shouldPruneInboundQueueLocked s currentTime m with
    | Some (true, s) => Some (true, s <| mNextUnblockedEvent := Some a |>)
    | Some (false, s) => Some (needWake, s)
    | None => None
    end
  | Focus _ _ => None
  | ConfigurationChanged | DeviceReset _ => Some (needWake, s)
  end.

(** new events, one after the other; the thread is woken up if one of them needs it *)
Fixpoint enqueue_new (s : t) (v : env) (i : nat) (xs : list Entry.t) : option t :=
  match xs with
  | [] => Some s
  | x :: rest =>
    let a := newAddress v i in
    match enqueueInboundEventLocked (s <| entries := <[a := x]> (entries s) |>) (now v) a x with
    | Some (needWake, s) => enqueue_new (if needWake then wake s else s) v (S i) rest
    | None => None
    end
  end.

(** ** Events from the devices *)

(** [metaState & ~(META_ON | META_LEFT_ON | META_RIGHT_ON)] *)
Definition without_meta (metaState : Z) : Z := Z.ldiff metaState (Z.lor AMETA_META_ON (Z.lor AMETA_META_LEFT_ON AMETA_META_RIGHT_ON)).

(** the key code and the meta state, and the state *)
Definition accelerateMetaShortcuts (s : t) (deviceId action keyCode metaState : Z) : Z * Z * t :=
  if has metaState AMETA_META_ON && (action =? AKEY_EVENT_ACTION_DOWN) then
    let newKeyCode := if keyCode =? AKEYCODE_DEL then AKEYCODE_BACK else if keyCode =? AKEYCODE_ENTER then AKEYCODE_HOME else AKEYCODE_UNKNOWN in
    if negb (newKeyCode =? AKEYCODE_UNKNOWN)
    then (newKeyCode, without_meta metaState, s <| mReplacedKeys := <[(keyCode, deviceId) := newKeyCode]> (mReplacedKeys s) |>)
    else (keyCode, metaState, s)
  else if action =? AKEY_EVENT_ACTION_UP then
    match mReplacedKeys s !! (keyCode, deviceId) with
    | Some replacement => (replacement, without_meta metaState, s <| mReplacedKeys := delete (keyCode, deviceId) (mReplacedKeys s) |>)
    | None => (keyCode, metaState, s)
    end
  else (keyCode, metaState, s).

(** the arguments are those of a key without repeat count; nothing else happens between the
    parts that hold the lock *)
Definition notifyKey (s : t) (p : policy) (v : env) (args : KeyEntry.t) : option t :=
  if negb (isValidKeyAction (KeyEntry.action args)) then Some s
  else
    let virtual := has (KeyEntry.policyFlags args) POLICY_FLAG_VIRTUAL || has (KeyEntry.flags args) AKEY_EVENT_FLAG_VIRTUAL_HARD_KEY in
    let policyFlags := if virtual then Z.lor (KeyEntry.policyFlags args) POLICY_FLAG_VIRTUAL else KeyEntry.policyFlags args in
    let flags := if virtual then Z.lor (KeyEntry.flags args) AKEY_EVENT_FLAG_VIRTUAL_HARD_KEY else KeyEntry.flags args in
    let metaState := if has policyFlags POLICY_FLAG_FUNCTION then Z.lor (KeyEntry.metaState args) AMETA_FUNCTION_ON else KeyEntry.metaState args in
    let policyFlags := Z.lor policyFlags POLICY_FLAG_TRUSTED in
    let '(keyCode, metaState, s) := accelerateMetaShortcuts s (KeyEntry.deviceId args) (KeyEntry.action args) (KeyEntry.keyCode args) metaState in
    let event policyFlags :=
      KeyEntry.mk (KeyEntry.id args) (KeyEntry.eventTime args) policyFlags (KeyEntry.deviceId args) (KeyEntry.source args) (KeyEntry.displayId args)
        (KeyEntry.action args) flags keyCode (KeyEntry.scanCode args) metaState 0 (KeyEntry.downTime args) None in
    let policyFlags := interceptKeyBeforeQueueing p (event policyFlags) policyFlags in
    let policyFlags := if mInputFilterEnabled s then Z.lor policyFlags POLICY_FLAG_FILTERED else policyFlags in
    if mInputFilterEnabled s && negb (filterInputEvent p (Key (event policyFlags)) policyFlags) then Some s
    else enqueue_new s v 0 [Entry.of_event (Key (event policyFlags))].

(** the arguments are those of a motion that is not injected *)
Definition notifyMotion (s : t) (p : policy) (v : env) (args : MotionEntry.t) : option t :=
  if negb (validateMotionEvent (MotionEntry.action args) (MotionEntry.actionButton args) (MotionEntry.pointers args)) then Some s
  else
    let policyFlags := interceptMotionBeforeQueueing p (MotionEntry.displayId args) (MotionEntry.eventTime args) (Z.lor (MotionEntry.policyFlags args) POLICY_FLAG_TRUSTED) in
    let policyFlags := if mInputFilterEnabled s then Z.lor policyFlags POLICY_FLAG_FILTERED else policyFlags in
    let event := args <| MotionEntry.policyFlags := policyFlags |> <| MotionEntry.injectionState := None |> in
    if mInputFilterEnabled s && negb (filterInputEvent p (Motion event) policyFlags) then Some s
    else enqueue_new s v 0 [Entry.of_event (Motion event)].

Definition notifyConfigurationChanged (s : t) (v : env) (eventTime : Z) : option t := enqueue_new s v 0 [Entry.new ConfigurationChanged eventTime 0].
Definition notifyDeviceReset (s : t) (v : env) (eventTime deviceId : Z) : option t := enqueue_new s v 0 [Entry.new (DeviceReset deviceId) eventTime 0].

(** ** Events that are injected *)

Definition with_injection (i : Z) (x : Entry.t) : Entry.t :=
  match Entry.event x with
  | Key k => x <| Entry.event := Key (k <| KeyEntry.injectionState := Some i |>) |>
  | Motion m => x <| Entry.event := Motion (m <| MotionEntry.injectionState := Some i |>) |>
  | _ => x
  end.

(** [injectedEntries.back()->injectionState = injectionState] *)
Fixpoint mark_last (i : Z) (xs : list Entry.t) : list Entry.t :=
  match xs with
  | [] => []
  | [x] => [with_injection i x]
  | x :: rest => x :: mark_last i rest
  end.

(** a new injection state [i], and its events *)
Definition inject_entries (s : t) (v : env) (i : Z) (xs : list Entry.t) : option t :=
  enqueue_new (on_shared (fun d => d <| Dispatcher.injectionResults := <[i := INPUT_EVENT_INJECTION_PENDING]> (Dispatcher.injectionResults d) |>
                                     <| Dispatcher.pendingForegroundDispatches := <[i := 0]> (Dispatcher.pendingForegroundDispatches d) |>) s) v 0 (mark_last i xs).

(** one sample of a motion, moved by the offset if there is one *)
Definition sample_entry (m : MotionEntry.t) (xOffset yOffset : float32) (policyFlags : Z) (sample : Z * list PointerCoords.t) : Entry.t :=
  let move c := if negb (F32.eqb xOffset F32.zero) || negb (F32.eqb yOffset F32.zero) then PointerCoords.applyOffset c xOffset yOffset else c in
  Entry.of_event (Motion (m <| MotionEntry.eventTime := sample.1 |> <| MotionEntry.deviceId := VIRTUAL_KEYBOARD_ID |> <| MotionEntry.policyFlags := policyFlags |>
    <| MotionEntry.pointers := zip_with (fun p c => touch (property p) (move c)) (MotionEntry.pointers m) sample.2 |> <| MotionEntry.injectionState := None |>)).

(** the time of the newest sample *)
Definition last_time (samples : list (Z * list PointerCoords.t)) : option Z := fst <$> last samples.

Definition inject_key (s : t) (p : policy) (v : env) (i policyFlags : Z) (k : KeyEntry.t) : option (option Z * t) :=
  if negb (isValidKeyAction (KeyEntry.action k)) then Some (Some INPUT_EVENT_INJECTION_FAILED, s)
  else
    let '(keyCode, metaState, s) := accelerateMetaShortcuts s VIRTUAL_KEYBOARD_ID (KeyEntry.action k) (KeyEntry.keyCode k) (KeyEntry.metaState k) in
    let event policyFlags :=
      KeyEntry.mk (KeyEntry.id k) (KeyEntry.eventTime k) policyFlags VIRTUAL_KEYBOARD_ID (KeyEntry.source k) (KeyEntry.displayId k) (KeyEntry.action k) (KeyEntry.flags k)
        keyCode (KeyEntry.scanCode k) metaState (KeyEntry.repeatCount k) (KeyEntry.downTime k) None in
    let policyFlags := if has (KeyEntry.flags k) AKEY_EVENT_FLAG_VIRTUAL_HARD_KEY then Z.lor policyFlags POLICY_FLAG_VIRTUAL else policyFlags in
    let policyFlags := if has policyFlags POLICY_FLAG_FILTERED then policyFlags else interceptKeyBeforeQueueing p (event policyFlags) policyFlags in
    s ← inject_entries s v i [Entry.of_event (Key (event policyFlags))]; Some (None, s).

Definition inject_motion (s : t) (p : policy) (v : env) (i policyFlags : Z) (m : MotionEntry.t) (xOffset yOffset : float32) (samples : list (Z * list PointerCoords.t)) :
    option (option Z * t) :=
  if negb (validateMotionEvent (MotionEntry.action m) (MotionEntry.actionButton m) (MotionEntry.pointers m)) then Some (Some INPUT_EVENT_INJECTION_FAILED, s)
  else
    eventTime ← last_time samples;
    let policyFlags := if has policyFlags POLICY_FLAG_FILTERED then policyFlags else interceptMotionBeforeQueueing p (MotionEntry.displayId m) eventTime policyFlags in
    s ← inject_entries s v i (map (sample_entry m xOffset yOffset policyFlags) samples); Some (None, s).

(** Until the injector waits for the result: the result, if it is known, and the state. [perm]
    knows the process and the user of the new injection state [i]. *)
Definition injectInputEvent (s : t) (p : policy) (perm : permissions) (v : env) (i policyFlags : Z) (event : InputEvent) : option (option Z * t) :=
  let policyFlags := Z.lor policyFlags POLICY_FLAG_INJECTED in
  let policyFlags := if hasInjectionPermission perm (injectorPid perm i) (injectorUid perm i) then Z.lor policyFlags POLICY_FLAG_TRUSTED else policyFlags in
  match event with
  | KeyEvent k => inject_key s p v i policyFlags k
  | MotionEvent m xOffset yOffset samples => inject_motion s p v i policyFlags m xOffset yOffset samples
  | OtherEvent => Some (Some INPUT_EVENT_INJECTION_FAILED, s)
  end.

(** what the injector that waits finds when it looks: the result, or [None] to go on waiting *)
Definition injection_result (d : Dispatcher.t) (currentTime endTime i syncMode : Z) : option Z :=
  let waits := if endTime - currentTime <=? 0 then Some INPUT_EVENT_INJECTION_TIMED_OUT else None in
  if syncMode =? INPUT_EVENT_INJECTION_SYNC_NONE then Some INPUT_EVENT_INJECTION_SUCCEEDED
  else
    let result := default INPUT_EVENT_INJECTION_PENDING (Dispatcher.injectionResults d !! i) in
    if result =? INPUT_EVENT_INJECTION_PENDING then waits
    else if (result =? INPUT_EVENT_INJECTION_SUCCEEDED) && (syncMode =? INPUT_EVENT_INJECTION_SYNC_WAIT_FOR_FINISHED) &&
            negb (default 0 (Dispatcher.pendingForegroundDispatches d !! i) =? 0) then waits
    else Some result.

(** ** Key repeats *)

Definition resetKeyRepeatLocked (s : t) : t := s <| lastKeyEntry := None |>.

(** the key that is repeated, if it is still known *)
Definition last_key (s : t) : option KeyEntry.t :=
  a ← lastKeyEntry s; x ← at_address s a; match Entry.event x with Key k => Some k | _ => None end.

(** the address of the next repeat of the key [k], and the state *)
Definition synthesizeKeyRepeatLocked (s : t) (v : env) (k : KeyEntry.t) : Z * t :=
  let a := newAddress v 0 in
  let policyFlags := Z.land (KeyEntry.policyFlags k) (Z.lor POLICY_FLAG_RAW_MASK (Z.lor POLICY_FLAG_PASS_TO_USER POLICY_FLAG_TRUSTED)) in
  let repeated := KeyEntry.mk (newEventId v 0) (now v) policyFlags (KeyEntry.deviceId k) (KeyEntry.source k) (KeyEntry.displayId k) (KeyEntry.action k) (KeyEntry.flags k)
    (KeyEntry.keyCode k) (KeyEntry.scanCode k) (KeyEntry.metaState k) (int32 (KeyEntry.repeatCount k + 1)) (KeyEntry.downTime k) None in
  (a, s <| entries := <[a := (Entry.of_event (Key repeated)) <| Entry.syntheticRepeat := true |>]> (entries s) |> <| lastKeyEntry := Some a |>
        <| nextRepeatTime := now v + keyRepeatDelay s |>).

(** ** Dispatching each kind of event *)

Definition on_world (op : option InputDispatcher.t) (s : t) : option t := w ← op; Some (s <| world := w |>).

Definition post (command : CommandEntry) : t -> t := on_shared (fun d => Dispatcher.postCommandLocked d command).

Definition cancel_all (v : env) (options : CancelationOptions.t) (s : t) : option t :=
  on_world (InputDispatcher.synthesizeCancelationEventsForAllConnectionsLocked (world s) (lower v) options) s.

Definition dispatchConfigurationChangedLocked (s : t) (x : Entry.t) : t := post (NotifyConfigurationChanged (Entry.eventTime x)) (resetKeyRepeatLocked s).

Definition dispatchDeviceResetLocked (s : t) (v : env) (deviceId : Z) : option t :=
  let s := match last_key s with Some k => if KeyEntry.deviceId k =? deviceId then resetKeyRepeatLocked s else s | None => s end in
  cancel_all v (CancelationOptions.mk CancelationOptions.CANCEL_ALL_EVENTS None (Some deviceId) None) s.

Definition dispatchFocusLocked (s : t) (v : env) (a : Z) (x : Entry.t) : option t :=
  match InputDispatcher.mInputChannelsByToken (world s) !! Entry.connectionToken x with
  | None => Some s
  | Some channel =>
    let s := on_entry (fun x => x <| Entry.dispatchInProgress := true |>) a s in
    on_world (InputDispatcher.dispatchEventLocked (world s) (lower v) a (Entry.event x)
      [(InputChannel.token channel, InputTarget.new <| InputTarget.flags := InputTarget.FLAG_DISPATCH_AS_IS |>)]) s
  end.

(** *** Keys *)

(** a key that may be repeated: a first [DOWN] of a trusted source *)
Definition starts_repeat (k : KeyEntry.t) : bool :=
  (KeyEntry.repeatCount k =? 0) && (KeyEntry.action k =? AKEY_EVENT_ACTION_DOWN) && has (KeyEntry.policyFlags k) POLICY_FLAG_TRUSTED &&
  negb (has (KeyEntry.policyFlags k) POLICY_FLAG_DISABLE_KEY_REPEAT).

(** the first time that a key is about to be dispatched *)
Definition prepare_key (s : t) (a : Z) (x : Entry.t) (k : KeyEntry.t) : t * Entry.t * KeyEntry.t :=
  if Entry.dispatchInProgress x then (s, x, k)
  else
    let previous := l ← last_key s; if KeyEntry.keyCode l =? KeyEntry.keyCode k then Some l else None in
    let repeatCount := match starts_repeat k, previous with true, Some l => int32 (KeyEntry.repeatCount l + 1) | _, _ => KeyEntry.repeatCount k end in
    let s := if starts_repeat k
             then s <| lastKeyEntry := Some a |> <| nextRepeatTime := match previous with Some _ => LONG_LONG_MAX | None => KeyEntry.eventTime k + keyRepeatTimeout s end |>
             else if Entry.syntheticRepeat x then s else resetKeyRepeatLocked s in
    let flags := if repeatCount =? 1 then Z.lor (KeyEntry.flags k) AKEY_EVENT_FLAG_LONG_PRESS else Z.ldiff (KeyEntry.flags k) AKEY_EVENT_FLAG_LONG_PRESS in
    let k := k <| KeyEntry.repeatCount := repeatCount |> <| KeyEntry.flags := flags |> in
    let x := x <| Entry.event := Key k |> <| Entry.dispatchInProgress := true |> in
    (s <| entries := <[a := x]> (entries s) |>, x, k).

(** the policy lets the key pass: it is dropped for another reason, or sent *)
Definition send_key (s : t) (v : env) (perm : permissions) (a : Z) (k : KeyEntry.t) (dropReason : DropReason) (nextWakeupTime : Z) : option (bool * DropReason * t * Z) :=
  let answer result := on_shared (fun d => Dispatcher.setInjectionResult d (Key k) result) in
  if negb (bool_decide (dropReason = NOT_DROPPED)) then
    Some (true, dropReason, answer (if bool_decide (dropReason = POLICY) then INPUT_EVENT_INJECTION_SUCCEEDED else INPUT_EVENT_INJECTION_FAILED) s, nextWakeupTime)
  else
    match InputTargets.findFocusedWindowTargetsLocked (world s) perm (now v) (Key k) [] nextWakeupTime with
    | None => None
    | Some (result, w, ts, nextWakeupTime) =>
      let s := s <| world := w |> in
      if result =? INPUT_EVENT_INJECTION_PENDING then Some (false, dropReason, s, nextWakeupTime)
      else
        let s := answer result s in
        if negb (result =? INPUT_EVENT_INJECTION_SUCCEEDED) then Some (true, dropReason, s, nextWakeupTime)
        else
          let ts := InputTargets.addGlobalMonitoringTargetsLocked (world s) (InputDispatcher.getTargetDisplayId (shared s) (Key k)) F32.zero F32.zero ts in
          s ← on_world (InputDispatcher.dispatchEventLocked (world s) (lower v) a (Key k) ts) s;
          Some (true, dropReason, s, nextWakeupTime)
    end.

(** the channel of the window that has the focus, 0 if there is none *)
Definition focused_channel (s : t) (k : KeyEntry.t) : Z :=
  match h ← Dispatcher.mFocusedWindowHandlesByDisplay (shared s) !! InputDispatcher.getTargetDisplayId (shared s) (Key k);
        InputDispatcher.mInputChannelsByToken (world s) !! Dispatcher.getToken (shared s) h with
  | Some channel => InputChannel.token channel
  | None => 0
  end.

(** whether the event is done, the reason to drop it, the state and the time of the next
    wakeup *)
Definition dispatchKeyLocked (s : t) (v : env) (perm : permissions) (a : Z) (x : Entry.t) (k : KeyEntry.t) (dropReason : DropReason) (nextWakeupTime : Z) :
    option (bool * DropReason * t * Z) :=
  let '(s, x, k) := prepare_key s a x k in
  let set result time s := on_entry (fun x => x <| Entry.interceptKeyResult := result |> <| Entry.interceptKeyWakeupTime := time |>) a s in
  let ask s := Some (false, dropReason, post (InterceptKeyBeforeDispatching a (focused_channel s k)) s, nextWakeupTime) in
  let intercept s :=
    if has (KeyEntry.policyFlags k) POLICY_FLAG_PASS_TO_USER then ask s
    else send_key (on_entry (fun x => x <| Entry.interceptKeyResult := Entry.INTERCEPT_KEY_RESULT_CONTINUE |>) a s) v perm a k dropReason nextWakeupTime in
  match Entry.interceptKeyResult x with
  | Entry.INTERCEPT_KEY_RESULT_TRY_AGAIN_LATER =>
    if now v <? Entry.interceptKeyWakeupTime x then Some (false, dropReason, s, Z.min (Entry.interceptKeyWakeupTime x) nextWakeupTime)
    else intercept (set Entry.INTERCEPT_KEY_RESULT_UNKNOWN 0 s)
  | Entry.INTERCEPT_KEY_RESULT_UNKNOWN => intercept s
  | Entry.INTERCEPT_KEY_RESULT_SKIP => send_key s v perm a k (if bool_decide (dropReason = NOT_DROPPED) then POLICY else dropReason) nextWakeupTime
  | Entry.INTERCEPT_KEY_RESULT_CONTINUE => send_key s v perm a k dropReason nextWakeupTime
  end.

(** *** Motions *)

Definition dispatchMotionLocked (s : t) (v : env) (perm : permissions) (a : Z) (m : MotionEntry.t) (dropReason : DropReason) (nextWakeupTime : Z) : option (bool * DropReason * t * Z) :=
  let s := on_entry (fun x => x <| Entry.dispatchInProgress := true |>) a s in
  match InputTargets.dispatchMotionLocked (world s) (lower v) perm a m dropReason nextWakeupTime with
  | Some (done, w, nextWakeupTime) => Some (done, dropReason, s <| world := w |>, nextWakeupTime)
  | None => None
  end.

(** ** The loop *)

(** cancels what a dropped event would have ended; [None] for events that are never dropped *)
Definition dropInboundEventLocked (s : t) (v : env) (e : EventEntry) (dropReason : DropReason) : option t :=
  match dropReason, e with
  | NOT_DROPPED, _ => None
  | _, Key _ => cancel_all v (CancelationOptions.new CancelationOptions.CANCEL_NON_POINTER_EVENTS) s
  | _, Motion m =>
    cancel_all v (CancelationOptions.new (if has (MotionEntry.source m) AINPUT_SOURCE_CLASS_POINTER then CancelationOptions.CANCEL_POINTER_EVENTS else CancelationOptions.CANCEL_NON_POINTER_EVENTS)) s
  | _, _ => None
  end.

(** the user is active if the event is for applications *)
Definition poke (x : Entry.t) (s : t) : option t :=
  if has (Entry.policyFlags x) POLICY_FLAG_PASS_TO_USER then
    d ← InputDispatcher.pokeUserActivityLocked (shared s) (Entry.event x); Some (on_shared (fun _ => d) s)
  else Some s.

(** the pending event is [a] *)
Definition begin_event (a : Z) (s : t) : option t := x ← at_address s a; poke x (s <| mPendingEvent := Some a |>).

(** the event to dispatch, if there is one, whether an application switch is due, the state
    and the time of the next wakeup *)
Definition take_event (s : t) (v : env) (isAppSwitchDue : bool) (nextWakeupTime : Z) : option (option Z * bool * t * Z) :=
  match mPendingEvent s, mInboundQueue s with
  | Some a, _ => Some (Some a, isAppSwitchDue, s, nextWakeupTime)
  | None, a :: rest => s ← begin_event a (s <| mInboundQueue := rest |>); Some (Some a, isAppSwitchDue, s, nextWakeupTime)
  | None, [] =>
    let s := if isAppSwitchDue then resetPendingAppSwitchLocked s else s in
    match last_key s with
    | Some k =>
      if nextRepeatTime s <=? now v then
        let r := synthesizeKeyRepeatLocked s v k in
        s ← begin_event r.1 r.2; Some (Some r.1, false, s, nextWakeupTime)
      else Some (None, false, s, Z.min (nextRepeatTime s) nextWakeupTime)
    | None => Some (None, false, s, nextWakeupTime)
    end
  end.

Definition isStaleEvent (currentTime : Z) (x : Entry.t) : bool := STALE_EVENT_TIMEOUT <=? currentTime - Entry.eventTime x.

(** why a key or a motion is dropped, unless the policy has a reason *)
Definition drop_reason (s : t) (currentTime : Z) (x : Entry.t) (switching : bool) : DropReason :=
  if negb (has (Entry.policyFlags x) POLICY_FLAG_PASS_TO_USER) then POLICY
  else if negb (mDispatchEnabled s) then DISABLED
  else if switching then APP_SWITCH
  else if isStaleEvent currentTime x then STALE
  else if bool_decide (is_Some (mNextUnblockedEvent s)) then BLOCKED
  else NOT_DROPPED.

Definition dispatch_event (s : t) (v : env) (perm : permissions) (a : Z) (x : Entry.t) (isAppSwitchDue : bool) (nextWakeupTime : Z) : option (bool * DropReason * t * Z) :=
  match Entry.event x with
  | ConfigurationChanged => Some (true, NOT_DROPPED, dispatchConfigurationChangedLocked s x, nextWakeupTime)
  | DeviceReset deviceId => s ← dispatchDeviceResetLocked s v deviceId; Some (true, NOT_DROPPED, s, nextWakeupTime)
  | Focus _ _ => s ← dispatchFocusLocked s v a x; Some (true, NOT_DROPPED, s, nextWakeupTime)
  | Key k =>
    let arrived := isAppSwitchDue && isAppSwitchKeyEvent k in
    let s := if arrived then resetPendingAppSwitchLocked s else s in
    dispatchKeyLocked s v perm a x k (drop_reason s (now v) x (isAppSwitchDue && negb arrived)) nextWakeupTime
  | Motion m => dispatchMotionLocked s v perm a m (drop_reason s (now v) x isAppSwitchDue) nextWakeupTime
  end.

(** the state and the time of the next wakeup *)
Definition dispatchOnceInnerLocked (s : t) (v : env) (perm : permissions) (nextWakeupTime : Z) : option (t * Z) :=
  let s := if mDispatchEnabled s then s else resetKeyRepeatLocked s in
  if mDispatchFrozen s then Some (s, nextWakeupTime)
  else
    match take_event s v (mAppSwitchDueTime s <=? now v) (Z.min (mAppSwitchDueTime s) nextWakeupTime) with
    | None => None
    | Some (None, _, s, nextWakeupTime) => Some (s, nextWakeupTime)
    | Some (Some a, isAppSwitchDue, s, nextWakeupTime) =>
      x ← at_address s a;
      let s := if bool_decide (mNextUnblockedEvent s = Some a) then s <| mNextUnblockedEvent := None |> else s in
      match dispatch_event s v perm a x isAppSwitchDue nextWakeupTime with
      | None => None
      | Some (false, _, s, nextWakeupTime) => Some (s, nextWakeupTime)
      | Some (true, dropReason, s, _) =>
        s ← (if bool_decide (dropReason = NOT_DROPPED) then Some s else dropInboundEventLocked s v (Entry.event x) dropReason);
        Some (releasePendingEventLocked s, LONG_LONG_MIN)
      end
    end.

(** *** One turn of the thread, [dispatchOnce], cut where commands run *)

Definition haveCommandsLocked (s : t) : bool := match Dispatcher.mCommandQueue (shared s) with [] => false | _ => true end.

(** from the poll to the commands *)
Definition begin_turn (s : t) (v : env) (perm : permissions) : option t :=
  let s := s <| awake := false |> in
  match (if haveCommandsLocked s then Some (s, LONG_LONG_MAX) else dispatchOnceInnerLocked s v perm LONG_LONG_MAX) with
  | Some (s, nextWakeupTime) => Some (s <| thread := Commands nextWakeupTime (haveCommandsLocked s) |>)
  | None => None
  end.

(** the first command, until it asks the policy *)
Definition run_command (s : t) (v : env) : option t := on_world (InputDispatcher.run_command (world s) (lower v)) s.

(** from the commands to the poll *)
Definition end_turn (s : t) (v : env) (nextWakeupTime : Z) (ran : bool) : option t :=
  r ← InputDispatcher.processAnrsLocked (world s) (now v);
  Some (s <| world := r.2 |> <| thread := Polling (Z.min (if ran then LONG_LONG_MIN else nextWakeupTime) r.1) |>).

(** the end of [doInterceptKeyBeforeDispatchingLockedInterruptible]: how much later the policy
    wants the key *)
Definition intercepted (currentTime delay : Z) (x : Entry.t) : Entry.t :=
  if delay <? 0 then x <| Entry.interceptKeyResult := Entry.INTERCEPT_KEY_RESULT_SKIP |>
  else if delay =? 0 then x <| Entry.interceptKeyResult := Entry.INTERCEPT_KEY_RESULT_CONTINUE |>
  else x <| Entry.interceptKeyResult := Entry.INTERCEPT_KEY_RESULT_TRY_AGAIN_LATER |> <| Entry.interceptKeyWakeupTime := currentTime + delay |>.

(** the key and the code as which the key is sent again, when the policy has chosen one: the
    condition of [InputDispatcher.fallback_chosen] *)
Definition restarted (w : InputDispatcher.t) (connection fallbackKeyCode : Z) (initialDown : bool) (event : option KeyEntry.t) : option (KeyEntry.t * Z) :=
  c ← InputDispatcher.connections w !! connection;
  e ← event;
  let fallbackKeyCode := if initialDown then KeyEntry.keyCode e else fallbackKeyCode in
  if bool_decide (Connection.status c = Connection.STATUS_NORMAL) && ((fallbackKeyCode =? AKEYCODE_UNKNOWN) || (fallbackKeyCode =? KeyEntry.keyCode e))
  then Some (e, fallbackKeyCode) else None.

(** the object is shared: whoever holds it sees the other key *)
Definition replace_key (e : KeyEntry.t) (fallbackKeyCode : Z) (x : Entry.t) : Entry.t :=
  match Entry.event x with
  | Key k => x <| Entry.event := Key (InputDispatcher.fallback_event k e fallbackKeyCode) |> <| Entry.syntheticRepeat := false |>
  | _ => x
  end.

(** what an answer of the policy does to the event objects *)
Definition answer_entries (s : t) (currentTime : Z) (ans : InputDispatcher.answer) : t :=
  match InputDispatcher.running (world s) with
  | Some (Intercept a) => on_entry (intercepted currentTime (InputDispatcher.delay ans)) a s
  | Some (Fallback connection _ a _ fallbackKeyCode initialDown) =>
    match restarted (world s) connection fallbackKeyCode initialDown (InputDispatcher.fallback_key ans) with
    | Some (e, fallbackKeyCode) => on_entry (replace_key e fallbackKeyCode) a s
    | None => s
    end
  | _ => s
  end.

Definition answer (s : t) (v : env) (ans : InputDispatcher.answer) : option t :=
  r ← InputDispatcher.running (world s);
  on_world (InputDispatcher.resume (world s) (lower v) r ans) (answer_entries s (now v) ans).

(** ** Windows and focus *)

Definition hasWindowHandleLocked (d : Dispatcher.t) (windowHandle : Z) : bool :=
  existsb (fun h => (InputWindowInfo.id (Dispatcher.getInfo d h) =? InputWindowInfo.id (Dispatcher.getInfo d windowHandle)) &&
                    (Dispatcher.getToken d h =? Dispatcher.getToken d windowHandle)) (concat (map snd (Dispatcher.mWindowHandlesByDisplay d))).

(** a handle of the caller, what [updateInfo] makes of it, and whether it is valid *)
Record given := mk_given { handle : Z; updated : InputWindowInfo.t; valid : bool }.

Definition set_info (h : Z) (info : InputWindowInfo.t) (d : Dispatcher.t) : Dispatcher.t := d <| Dispatcher.handles := <[h := info]> (Dispatcher.handles d) |>.

(** whether a window without a channel is left out *)
Definition needs_channel (channels : gmap Z InputChannel.t) (info : InputWindowInfo.t) : bool :=
  bool_decide (channels !! InputWindowInfo.token info = None) && (InputWindowInfo.portalToDisplayId info =? InputWindowInfo.ADISPLAY_ID_NONE) &&
  (negb (has (InputWindowInfo.layoutParamsFlags info) InputWindowInfo.FLAG_NOT_TOUCHABLE) || negb (has (InputWindowInfo.layoutParamsFlags info) InputWindowInfo.FLAG_NOT_FOCUSABLE)) &&
  negb (has (InputWindowInfo.inputFeatures info) InputWindowInfo.INPUT_FEATURE_NO_INPUT_CHANNEL).

(** the last old handle with an id, by the ids that the handles had *)
Definition old_handle (ids : list (Z * Z)) (id : Z) : option Z := snd <$> last (filter (fun ih => ih.1 = id) ids).

(** the state and the new handles, one more of the caller's handles *)
Definition update_handle (channels : gmap Z InputChannel.t) (displayId : Z) (ids : list (Z * Z)) (r : Dispatcher.t * list Z) (g : given) : Dispatcher.t * list Z :=
  let info := updated g in
  let d := set_info (handle g) info r.1 in
  if negb (valid g) || needs_channel channels info || negb (InputWindowInfo.displayId info =? displayId) then (d, r.2)
  else
    match old_handle ids (InputWindowInfo.id info) with
    | Some old => if Dispatcher.getToken d old =? InputWindowInfo.token info then (set_info old info d, r.2 ++ [old]) else (d, r.2 ++ [handle g])
    | None => (d, r.2 ++ [handle g])
    end.

Definition updateWindowHandlesForDisplayLocked (channels : gmap Z InputChannel.t) (d : Dispatcher.t) (inputWindowHandles : list given) (displayId : Z) : Dispatcher.t :=
  match inputWindowHandles with
  | [] => d <| Dispatcher.mWindowHandlesByDisplay := filter (fun kv => kv.1 <> displayId) (Dispatcher.mWindowHandlesByDisplay d) |>
  | _ =>
    let ids := map (fun h => (InputWindowInfo.id (Dispatcher.getInfo d h), h)) (InputTargets.getWindowHandlesLocked d displayId) in
    let r := foldl (update_handle channels displayId ids) (d, []) inputWindowHandles in
    r.1 <| Dispatcher.mWindowHandlesByDisplay := InputDispatcher.assign displayId r.2 (Dispatcher.mWindowHandlesByDisplay r.1) |>
  end.

(** the number of events up to the last focus event *)
Fixpoint focus_events (entries : gmap Z Entry.t) (queue : list Z) : nat :=
  match queue with
  | [] => 0
  | a :: rest =>
    match focus_events entries rest with
    | O => if match entries !! a with Some x => Entry.is_focus x | None => false end then 1 else 0
    | n => S n
    end
  end.

(** [i] numbers the new events of a call *)
Definition enqueueFocusEventLocked (s : t) (v : env) (i : nat) (window : Z) (hasFocus : bool) : t :=
  let s := match mPendingEvent s with Some a => s <| mInboundQueue := a :: mInboundQueue s |> <| mPendingEvent := None |> | None => s end in
  let a := newAddress v i in
  let x := Entry.new (Focus (newEventId v i) hasFocus) (now v) (Dispatcher.getToken (shared s) window) in
  let n := focus_events (entries s) (mInboundQueue s) in
  s <| entries := <[a := x]> (entries s) |> <| mInboundQueue := take n (mInboundQueue s) ++ a :: drop n (mInboundQueue s) |>.

Definition token_of (d : Dispatcher.t) (window : option Z) : Z := match window with Some h => Dispatcher.getToken d h | None => 0 end.

Definition onFocusChangedLocked (s : t) (oldFocus newFocus : option Z) : t := post (NotifyFocusChanged (token_of (shared s) oldFocus) (token_of (shared s) newFocus)) s.

(** [haveSameToken] of handles that may be null *)
Definition same_token (d : Dispatcher.t) (first second : option Z) : bool :=
  match first, second with
  | Some h, Some h' => InputTargets.haveSameToken d h h'
  | None, None => true
  | _, _ => false
  end.

(** cancels in the window's channel, if it has one; whether it has one *)
Definition cancel_window (s : t) (v : env) (mode : CancelationOptions.Mode) (displayId : option Z) (window : Z) : option (bool * t) :=
  match InputDispatcher.mInputChannelsByToken (world s) !! Dispatcher.getToken (shared s) window with
  | None => Some (false, s)
  | Some channel =>
    s ← on_world (InputDispatcher.synthesizeCancelationEventsForInputChannelLocked (world s) (lower v) (CancelationOptions.mk mode None None displayId) (InputChannel.token channel)) s;
    Some (true, s)
  end.

Definition set_focus (f : gmap Z Z -> gmap Z Z) : t -> t := on_shared (fun d => d <| Dispatcher.mFocusedWindowHandlesByDisplay := f (Dispatcher.mFocusedWindowHandlesByDisplay d) |>).

(** the window [h] loses the focus of the display *)
Definition leave_focus (s : t) (v : env) (i : nat) (displayId h : Z) : option t :=
  match cancel_window s v CancelationOptions.CANCEL_NON_POINTER_EVENTS None h with
  | Some (true, s) => Some (set_focus (delete displayId) (enqueueFocusEventLocked s v i h false))
  | Some (false, s) => Some (set_focus (delete displayId) s)
  | None => None
  end.

Definition change_focus (s : t) (v : env) (i : nat) (displayId : Z) (oldFocus newFocus : option Z) : option t :=
  if same_token (shared s) oldFocus newFocus then Some s
  else
    s ← match oldFocus with Some h => leave_focus s v i displayId h | None => Some s end;
    let s := match newFocus with Some h => enqueueFocusEventLocked (set_focus <[displayId := h]> s) v (S i) h true | None => s end in
    Some (if Dispatcher.mFocusedDisplayId (shared s) =? displayId then onFocusChangedLocked s oldFocus newFocus else s).

(** the windows that are gone leave the touch *)
Fixpoint remove_touched (s : t) (v : nat -> env) (j : nat) (windows : list TouchState.TouchedWindow) : option (list TouchState.TouchedWindow * t) :=
  match windows with
  | [] => Some ([], s)
  | x :: rest =>
    if hasWindowHandleLocked (shared s) (TouchState.windowHandle x) then
      match remove_touched s v (S j) rest with Some (kept, s) => Some (x :: kept, s) | None => None end
    else
      match cancel_window s (v j) CancelationOptions.CANCEL_POINTER_EVENTS None (TouchState.windowHandle x) with
      | Some (_, s) => remove_touched s v (S j) rest
      | None => None
      end
  end.

Definition update_touch (s : t) (v : nat -> env) (displayId : Z) : option t :=
  match InputDispatcher.lookup_list (Dispatcher.mTouchStatesByDisplay (shared s)) displayId with
  | None => Some s
  | Some state =>
    match remove_touched s v 1 (TouchState.windows state) with
    | Some (kept, s) =>
      Some (on_shared (fun d => d <| Dispatcher.mTouchStatesByDisplay :=
        InputDispatcher.assign displayId (state <| TouchState.windows := kept |>) (Dispatcher.mTouchStatesByDisplay d) |>) s)
    | None => None
    end
  end.

Definition release_channels (oldWindowHandles : list Z) (d : Dispatcher.t) : Dispatcher.t :=
  foldl (fun d h => if hasWindowHandleLocked d h then d else set_info h (InputWindowInfo.releaseChannel (Dispatcher.getInfo d h)) d) d oldWindowHandles.

(** the window of the display that is to have the focus: the first that wants it *)
Definition wants_focus (d : Dispatcher.t) (displayId : Z) : option Z :=
  head (filter (fun h => InputWindowInfo.hasFocus (Dispatcher.getInfo d h) && InputWindowInfo.visible (Dispatcher.getInfo d h) = true) (InputTargets.getWindowHandlesLocked d displayId)).

(** [i] numbers the new events; [v j] are the arguments of the [j]-th cancelation *)
Definition setInputWindowsLocked (s : t) (v : nat -> env) (i : nat) (inputWindowHandles : list given) (displayId : Z) : option t :=
  let oldWindowHandles := InputTargets.getWindowHandlesLocked (shared s) displayId in
  let s := on_shared (fun d => updateWindowHandlesForDisplayLocked (InputDispatcher.mInputChannelsByToken (world s)) d inputWindowHandles displayId) s in
  let newFocus := wants_focus (shared s) displayId in
  let hovered := match Dispatcher.mLastHoverWindowHandle (shared s) with
                 | Some h => bool_decide (h ∈ InputTargets.getWindowHandlesLocked (shared s) displayId)
                 | None => false
                 end in
  let s := if hovered then s else on_shared (fun d => d <| Dispatcher.mLastHoverWindowHandle := None |>) s in
  s ← change_focus s (v 0%nat) i displayId (Dispatcher.mFocusedWindowHandlesByDisplay (shared s) !! displayId) newFocus;
  s ← update_touch s v displayId;
  Some (on_shared (release_channels oldWindowHandles) s).

Fixpoint set_displays (s : t) (v : nat -> nat -> env) (n : nat) (handlesPerDisplay : list (Z * list given)) : option t :=
  match handlesPerDisplay with
  | [] => Some s
  | (displayId, handles) :: rest => s ← setInputWindowsLocked s (v n) (n * 2) handles displayId; set_displays s v (S n) rest
  end.

Definition setInputWindows (s : t) (v : nat -> nat -> env) (handlesPerDisplay : list (Z * list given)) : option t :=
  s ← set_displays s v 0 handlesPerDisplay; Some (wake s).

Definition setFocusedDisplay (s : t) (v : env) (displayId : Z) : option t :=
  if Dispatcher.mFocusedDisplayId (shared s) =? displayId then Some (wake s)
  else
    let oldFocus := Dispatcher.mFocusedWindowHandlesByDisplay (shared s) !! Dispatcher.mFocusedDisplayId (shared s) in
    r ← match oldFocus with
        | Some h => cancel_window s v CancelationOptions.CANCEL_NON_POINTER_EVENTS (Some InputWindowInfo.ADISPLAY_ID_NONE) h
        | None => Some (false, s)
        end;
    let s := on_shared (fun d => d <| Dispatcher.mFocusedDisplayId := displayId |>) r.2 in
    Some (wake (onFocusChangedLocked s oldFocus (Dispatcher.mFocusedWindowHandlesByDisplay (shared s) !! displayId))).

(** ** Modes *)

Definition resetAndDropEverythingLocked (s : t) (v : env) : option t :=
  s ← cancel_all v (CancelationOptions.new CancelationOptions.CANCEL_ALL_EVENTS) s;
  let s := drainInboundQueueLocked (releasePendingEventLocked (resetKeyRepeatLocked s)) in
  let s := on_shared (fun d => (InputDispatcher.resetNoFocusedWindowTimeoutLocked d) <| Dispatcher.mAnrTracker := AnrTracker.clear (Dispatcher.mAnrTracker d) |>
                                <| Dispatcher.mTouchStatesByDisplay := [] |> <| Dispatcher.mLastHoverWindowHandle := None |>) s in
  Some (s <| mReplacedKeys := ∅ |>).

Definition setInputDispatchMode (s : t) (v : env) (enabled frozen : bool) : option t :=
  if bool_decide (mDispatchEnabled s = enabled) && bool_decide (mDispatchFrozen s = frozen) then Some s
  else
    let s := if mDispatchFrozen s && negb frozen then on_shared InputDispatcher.resetNoFocusedWindowTimeoutLocked s else s in
    s ← (if mDispatchEnabled s && negb enabled then resetAndDropEverythingLocked s v else Some s);
    Some (wake (s <| mDispatchEnabled := enabled |> <| mDispatchFrozen := frozen |>)).

Definition setInputFilterEnabled (s : t) (v : env) (enabled : bool) : option t :=
  if bool_decide (mInputFilterEnabled s = enabled) then Some s
  else s ← resetAndDropEverythingLocked (s <| mInputFilterEnabled := enabled |>) v; Some (wake s).

Definition setInTouchMode (s : t) (inTouchMode : bool) : t := on_shared (fun d => d <| Dispatcher.mInTouchMode := inTouchMode |>) s.

End Inbound.

End Inbound.
