(* ===== verification/InputTouch.v ===== *)
(** * The windows of a touch

    The invariant of a touch's state: its windows are different ones, and a window gets some
    of the pointers by name exactly if it splits. Every operation on the state keeps it.
    When the targets of an event are found, each window of the touch and each gesture
    monitor has one, only windows that the injector may touch are in the foreground, and
    foreign windows that only watch get no coordinates. *)

From S2P Require Import Prelude Region PointerCoords InputEvents InputState InputConnection InputDispatcher InputTargets.

Import InputDispatcher InputTargets.

(** ** Flags *)

Lemma has_lor a b m : has (Z.lor a b) m = has a m || has b m.
Proof.
  unfold has. rewrite Z.land_lor_distr_l. apply eq_true_iff_eq. rewrite orb_true_iff, !negb_true_iff, !Z.eqb_neq, Z.lor_eq_0_iff. split; [|tauto].
  intros H. destruct (Z.eq_dec (Z.land a m) 0); [right|left]; tauto.
Qed.

Lemma has_land a k m : Z.land k m = m -> has (Z.land a k) m = has a m.
Proof. intros H. unfold has. by rewrite <- Z.land_assoc, H. Qed.

Lemma has_ldiff a k m : Z.land k m = 0 -> has (Z.ldiff a k) m = has a m.
Proof.
  intros H. unfold has. do 2 f_equal. apply Z.bits_inj'. intros n Hn. rewrite !Z.land_spec, Z.ldiff_spec.
  assert (Z.testbit k n && Z.testbit m n = false) as Hb by (rewrite <- Z.land_spec, H; apply Z.bits_0). destruct (Z.testbit a n), (Z.testbit k n), (Z.testbit m n); done.
Qed.


Section Touch.
Context `{B32 : BitSet32.ops} `{B64 : BitSet64.ops}.

(** ** The invariant *)

Definition marked (b : Z) : Prop := exists n, BitSet32.hasBit b n = true.

Lemma marked_members b : BitSet32.isEmpty b = false <-> marked b.
Proof.
  rewrite <- not_true_iff_false, BitSet32.isEmpty_spec. split.
  - intros H. destruct (bits_below (BitSet32.hasBit b) 32) as [|n l] eqn:E; [done|]. exists n. apply (elem_of_bits_below _ 32). rewrite E. left.
  - intros [n Hn] E. assert (n ∈ bits_below (BitSet32.hasBit b) 32) as Hin by (apply elem_of_bits_below; split; [done|by eapply BitSet32.hasBit_range]). rewrite E in Hin. set_solver.
Qed.

Lemma marked_lor_l a b : marked a -> marked (Z.lor a b).
Proof. intros [n Hn]. exists n. by rewrite BitSet32.hasBit_lor, Hn. Qed.
Lemma marked_lor_r a b : marked b -> marked (Z.lor a b).
Proof. intros [n Hn]. exists n. by rewrite BitSet32.hasBit_lor, Hn, orb_true_r. Qed.

(** flags and pointers that go together *)
Definition pointers_ok (flags pointerIds : Z) : Prop := if has flags InputTarget.FLAG_SPLIT then marked pointerIds else pointerIds = 0.

Definition window_ok (x : TouchState.TouchedWindow) : Prop := pointers_ok (TouchState.targetFlags x) (TouchState.pointerIds x).

Definition touch_ok (s : TouchState.t) : Prop := NoDup (map TouchState.windowHandle (TouchState.windows s)) /\ Forall window_ok (TouchState.windows s).

Lemma pointers_ok_lor f f' p p' : pointers_ok f p -> pointers_ok f' p' -> pointers_ok (Z.lor f f') (Z.lor p p').
Proof.
  unfold pointers_ok. rewrite has_lor. destruct (has f _), (has f' _); simpl; intros H H'; auto using marked_lor_l, marked_lor_r. by subst.
Qed.

Lemma update_window_ok flags pointers x : window_ok x -> pointers_ok flags pointers -> window_ok (TouchState.update_window flags pointers x).
Proof.
  intros Hx Hf. unfold window_ok, TouchState.update_window. simpl. pose proof (pointers_ok_lor _ _ _ _ Hx Hf) as H.
  case_match; [|done]. unfold pointers_ok in *. by rewrite has_ldiff.
Qed.

Lemma add_or_update_handles h flags pointers ws : map TouchState.windowHandle (TouchState.add_or_update h flags pointers ws) =
  map TouchState.windowHandle ws ++ (if decide (h ∈ map TouchState.windowHandle ws) then [] else [h]).
Proof.
  induction ws as [|x ws IH]; cbn [TouchState.add_or_update map app]; [by rewrite decide_False by set_solver|]. destruct (_ =? _) eqn:E; bool_to_prop; cbn [map].
  - rewrite decide_True by (rewrite <- E; left). by rewrite app_nil_r.
  - rewrite IH. destruct (decide (h ∈ map _ ws)); [rewrite decide_True by set_solver|rewrite decide_False by set_solver]; done.
Qed.

Lemma add_or_update_ok h flags pointers ws : Forall window_ok ws -> pointers_ok flags pointers -> Forall window_ok (TouchState.add_or_update h flags pointers ws).
Proof.
  intros Hws Hf. induction Hws as [|x ws Hx Hws IH]; simpl; [by repeat constructor|].
  destruct (_ =? _); constructor; auto using update_window_ok.
Qed.

Lemma addOrUpdateWindow_windows s h flags pointers :
  TouchState.windows (TouchState.addOrUpdateWindow s h flags pointers) = TouchState.add_or_update h flags pointers (TouchState.windows s).
Proof. unfold TouchState.addOrUpdateWindow. by destruct (has _ _). Qed.

Lemma addOrUpdateWindow_ok s h flags pointers : touch_ok s -> pointers_ok flags pointers -> touch_ok (TouchState.addOrUpdateWindow s h flags pointers).
Proof.
  intros [Hnd Hws] Hf. unfold touch_ok. rewrite addOrUpdateWindow_windows. split; [|by apply add_or_update_ok].
  rewrite add_or_update_handles. case_decide; [by rewrite app_nil_r|]. apply NoDup_app. split; [done|]. split; [set_solver|apply NoDup_singleton].
Qed.

(** the windows are those of another state *)
Lemma touch_ok_same s s' : TouchState.windows s' = TouchState.windows s -> touch_ok s -> touch_ok s'.
Proof. unfold touch_ok. by intros ->. Qed.

Lemma touch_ok_empty s : TouchState.windows s = [] -> touch_ok s.
Proof. unfold touch_ok. intros ->. split; [apply NoDup_nil_2|constructor]. Qed.

(** some of the windows, with other flags or pointers *)
Lemma touch_ok_omap (f : TouchState.TouchedWindow -> option TouchState.TouchedWindow) s s' :
  (forall x x', f x = Some x' -> TouchState.windowHandle x' = TouchState.windowHandle x /\ (window_ok x -> window_ok x')) ->
  TouchState.windows s' = omap f (TouchState.windows s) -> touch_ok s -> touch_ok s'.
Proof.
  intros Hf E [Hnd Hws]. unfold touch_ok. rewrite E. clear E. generalize dependent (TouchState.windows s). intros ws. induction ws as [|x ws IH]; intros Hnd Hws; [by split|].
  simpl in Hnd. apply NoDup_cons in Hnd as [Hx Hnd]. apply Forall_cons in Hws as [Hw Hws]. destruct (IH Hnd Hws) as [IH1 IH2]. simpl.
  destruct (f x) as [x'|] eqn:Ef; [|done]. destruct (Hf _ _ Ef) as [Eh Hok]. split; [simpl; apply NoDup_cons; split; [|done]|constructor; auto].
  rewrite Eh. intros Hin. apply Hx. apply elem_of_map in Hin as (y' & Hy' & Ey). apply list_elem_of_omap in Hy' as (y & Hy & Efy). destruct (Hf _ _ Efy) as [Ey' _].
  apply elem_of_map. exists y. split; [done|congruence].
Qed.

(** *** The operations *)

Lemma zero_ok flags : has flags InputTarget.FLAG_SPLIT = false -> pointers_ok flags 0.
Proof. unfold pointers_ok. by intros ->. Qed.

Lemma filterNonAsIs_ok s : touch_ok s -> touch_ok (TouchState.filterNonAsIsTouchWindows s).
Proof.
  eapply touch_ok_omap; [|reflexivity]. intros x x'. simpl. case_match; [|done]. intros [= <-]. split; [done|]. unfold window_ok, pointers_ok. simpl.
  rewrite has_lor, has_ldiff by done. simpl. by rewrite orb_false_r.
Qed.

Lemma remove_pointer_ok i s : touch_ok s -> touch_ok (remove_pointer i s).
Proof.
  eapply touch_ok_omap; [|reflexivity]. intros x x'. simpl. case_match eqn:Esp; [|intros [= <-]; done].
  case_match eqn:Eem; [done|]. intros [= <-]. split; [done|]. unfold window_ok, pointers_ok. simpl. rewrite Esp. intros _. by apply marked_members.
Qed.

Lemma delete_as_omap {A} (l : list A) i x : l !! i = Some x -> exists l1 l2, l = l1 ++ x :: l2 /\ delete i l = l1 ++ l2.
Proof.
  intros H. destruct (list_elem_of_split_length l i x H) as (l1 & l2 & -> & ->). exists l1, l2. split; [done|].
  rewrite delete_middle. done.
Qed.

Lemma transfer_window_ok from to s s' : transfer_window from to s = Some s' -> touch_ok s -> touch_ok s'.
Proof.
  unfold transfer_window. intros E [Hnd Hws]. destruct (InputState.find_index _ _) as [i|]; simpl in E; [|done]. destruct (TouchState.windows s !! i) as [x|] eqn:Ei; simpl in E; [|done].
  injection E as <-. destruct (delete_as_omap _ _ _ Ei) as (l1 & l2 & El & Ed). rewrite El in Hnd, Hws. apply Forall_app in Hws as [H1 H2]. apply Forall_cons in H2 as [Hx H2].
  apply addOrUpdateWindow_ok.
  - split; simpl; rewrite Ed; [|by apply Forall_app]. rewrite map_app in *. simpl in Hnd. apply NoDup_app in Hnd as (Hn1 & Hn2 & Hn3). apply NoDup_cons in Hn3 as [_ Hn3].
    apply NoDup_app. split; [done|]. split; [set_solver|done].
  - unfold window_ok, pointers_ok in *. by rewrite has_land.
Qed.

(** ** The parts of the search *)

(** what holds after a part of the function, by whether it goes on *)
Definition holds (r : option outcome) (Q : bool -> attempt -> Prop) : Prop :=
  match r with Some (GoesOn a) => Q true a | Some (Failed a) => Q false a | None => True end.

Lemma holds_go_on r f (Q Q' : bool -> attempt -> Prop) : holds r Q' -> (forall a, Q' true a -> holds (f a) Q) -> (forall a, Q' false a -> Q false a) -> holds (go_on r f) Q.
Proof. destruct r as [[a|a]|]; simpl; auto. Qed.

Definition pointers_valid (e : MotionEntry.t) : Prop := Forall (fun p => 0 <= id (property p) < 32) (MotionEntry.pointers e).

Lemma only_pointer_marked e i ids : only_pointer e i = Some ids -> pointers_valid e -> marked ids.
Proof.
  unfold only_pointer. intros E Hv. destruct (MotionEntry.pointers e !! Z.to_nat i) as [p|] eqn:Ep; simpl in E; [|done]. injection E as <-.
  exists (id (property p)). assert (0 <= id (property p) < 32) by (eapply Forall_lookup_1 in Hv; [exact Hv|done]). by rewrite BitSet32.hasBit_mark, Z.eqb_refl.
Qed.

Lemma search_windows_ok d displayId x y o p hs : forall s, touch_ok s -> touch_ok (search_windows d displayId x y o p s hs).2.
Proof.
  induction hs as [|h hs IH]; intros s Hs; simpl; [done|]. destruct (_ && _); [|by apply IH]. destruct (touched_at _ _ _).
  - destruct (_ && _); [|done]. destruct p; [|done]. simpl. unfold TouchState.addPortalWindow. case_bool_decide; [done|]. by eapply touch_ok_same.
  - apply IH. destruct (o && _); [|done]. apply addOrUpdateWindow_ok; [done|by apply zero_ok].
Qed.

Lemma search_displays_ok fuel d x y o p : forall displayId s r s', search_displays fuel d displayId x y o p s = Some (r, s') -> touch_ok s -> touch_ok s'.
Proof.
  induction fuel as [|fuel IH]; intros displayId s r s' E Hs; simpl in E; [done|]. pose proof (search_windows_ok d displayId x y o p (getWindowHandlesLocked d displayId) s Hs) as Hok.
  destruct (search_windows _ _ _ _ _ _ _ _) as [[|h|q] s1]; simpl in *; [by injection E as <- <-|by injection E as <- <-|by eapply IH].
Qed.

Definition temp_ok (go : bool) (a : attempt) : Prop := touch_ok (tempTouchState a).

Lemma begin_gesture_ok e a : touch_ok (tempTouchState a) -> holds (begin_gesture e a) temp_ok.
Proof.
  intros Hs. unfold begin_gesture. destruct (newGesture e); [destruct (_ && _); simpl; [done|by apply touch_ok_empty]|]. by destruct (_ && _).
Qed.

Lemma split_pointers_ok f (split : bool) ids e i : (if split then only_pointer e i else Some 0) = Some ids -> pointers_valid e -> has f InputTarget.FLAG_SPLIT = split -> pointers_ok f ids.
Proof. intros E Hv Hf. unfold pointers_ok. rewrite Hf. destruct split; [by eapply only_pointer_marked|by injection E]. Qed.

Lemma obscured_flags_split d h x y : has (obscured_flags d h x y) InputTarget.FLAG_SPLIT = false.
Proof. unfold obscured_flags. by repeat case_match. Qed.

Lemma touch_window_ok w e i x y h a a' : touch_window w e i x y h a = Some a' -> pointers_valid e -> touch_ok (tempTouchState a) -> touch_ok (tempTouchState a').
Proof.
  unfold touch_window. intros E Hv Hs. destruct (if isSplit a then _ else _) as [ids|] eqn:Ei; simpl in E; [|done]. injection E as <-. simpl.
  apply addOrUpdateWindow_ok; [done|]. eapply split_pointers_ok; [exact Ei|done|]. rewrite !has_lor, obscured_flags_split. by destruct (isSplit a).
Qed.

Lemma new_pointer_ok w e a : pointers_valid e -> touch_ok (tempTouchState a) -> holds (new_pointer w e a) temp_ok.
Proof.
  intros Hv Hs. unfold new_pointer. destruct (if isFromMouse e then _ else _) as [xy|]; cbn [mbind option_bind]; [|done].
  destruct (findTouchedWindowAtLocked _ _ _ _ _ _ _) as [[r s]|] eqn:Es; cbn [mbind option_bind fst snd]; [|done]. pose proof (search_displays_ok _ _ _ _ _ _ _ _ _ _ Es Hs) as Hs1.
  destruct (choose_window _ _ _ _ _) as [[h|] split]; cbn [fst snd].
  - destruct (touch_window _ _ _ _ _ _ _) as [a'|] eqn:Et; simpl; [|done]. eapply touch_ok_same; [|eapply touch_window_ok; [exact Et|done|exact Hs1]]. done.
  - destruct (selectResponsiveMonitorsLocked _ _); simpl; [done|]. by eapply touch_ok_same.
Qed.

Lemma slip_ok w e x y old new a a' : slip w e x y old new a = Some a' -> pointers_valid e -> touch_ok (tempTouchState a) -> touch_ok (tempTouchState a').
Proof.
  unfold slip. intros E Hv Hs. destruct (if _ || _ then _ else _) as [ids|] eqn:Ei; simpl in E; [|done]. injection E as <-. simpl.
  apply addOrUpdateWindow_ok; [apply addOrUpdateWindow_ok; [done|by apply zero_ok]|]. eapply split_pointers_ok; [exact Ei|done|]. rewrite !has_lor. by destruct (_ || isSplit a), (isWindowObscuredAtPointLocked _ _ _ _).
Qed.

Lemma next_pointer_ok w e a : pointers_valid e -> touch_ok (tempTouchState a) -> holds (next_pointer w e a) temp_ok.
Proof.
  intros Hv Hs. unfold next_pointer. destruct (negb _); [done|]. destruct (_ && _); [|done]. destruct (position e 0) as [xy|]; simpl; [|done].
  destruct (findTouchedWindowAtLocked _ _ _ _ _ _ _) as [[r s]|] eqn:Es; simpl; [|done]. pose proof (search_displays_ok _ _ _ _ _ _ _ _ _ _ Es Hs) as Hs1.
  destruct (TouchState.getFirstForegroundWindowHandle _) as [old|], r as [new|]; simpl; try done. destruct (_ =? _); [done|].
  destruct (slip _ _ _ _ _ _ _) as [a'|] eqn:E; simpl; [|done]. by eapply slip_ok.
Qed.

Lemma update_hover_ok w a : touch_ok (tempTouchState a) -> touch_ok (tempTouchState (update_hover w a)).
Proof. intros Hs. unfold update_hover. case_bool_decide; [done|]. simpl. repeat case_match; try done; repeat (apply addOrUpdateWindow_ok; [|by apply zero_ok]); done. Qed.

Lemma check_permissions_temp w perm e a : holds (check_permissions w perm e a) (fun _ a' => tempTouchState a' = tempTouchState a).
Proof. unfold check_permissions. destruct (forallb _ _); [|done]. by destruct (_ && _). Qed.

(** a loop that adds windows without pointers *)
Lemma fold_add_ok {A} (handle : A -> Z) (flags : Z) (cond : A -> bool) l : has flags InputTarget.FLAG_SPLIT = false ->
  forall s, touch_ok s -> touch_ok (foldl (fun s x => if cond x then TouchState.addOrUpdateWindow s (handle x) flags 0 else s) s l).
Proof. intros Hf. induction l as [|x l IH]; intros s Hs; simpl; [done|]. apply IH. destruct (cond x); [|done]. apply addOrUpdateWindow_ok; [done|by apply zero_ok]. Qed.

Lemma hide_coordinates_ok w e s : touch_ok s -> touch_ok (hide_coordinates w e s).
Proof. intros Hs. unfold hide_coordinates. destruct (isDown e); [|done]. case_match; [|done]. by apply (fold_add_ok TouchState.windowHandle). Qed.

Lemma add_wallpapers_ok w e s : touch_ok s -> touch_ok (add_wallpapers w e s).
Proof. intros Hs. unfold add_wallpapers. destruct (isDown e); [|done]. case_match; [|done]. destruct (InputWindowInfo.hasWallpaper _); [|done]. by apply (fold_add_ok (fun h => h)). Qed.

(** ** The targets of the windows *)

(** two windows with the same channel are the same window *)
Definition no_clones (w : t) : Prop := forall h h', Dispatcher.getToken (shared w) h = Dispatcher.getToken (shared w) h' ->
  is_Some (mInputChannelsByToken w !! Dispatcher.getToken (shared w) h) -> h = h'.

Definition channels_ok (w : t) : Prop := forall token channel, mInputChannelsByToken w !! token = Some channel -> InputChannel.token channel = token.

Definition window_token (w : t) (x : TouchState.TouchedWindow) : Z := Dispatcher.getToken (shared w) (TouchState.windowHandle x).
Definition has_channel (w : t) (x : TouchState.TouchedWindow) : Prop := is_Some (mInputChannelsByToken w !! window_token w x).
#[global] Instance has_channel_dec w x : Decision (has_channel w x) := _.

(** the place and scale of the window, as the pointers in it see them *)
Definition window_info (w : t) (x : TouchState.TouchedWindow) : PointerInfo :=
  let info := Dispatcher.getInfo (shared w) (TouchState.windowHandle x) in
  InputEvents.info (leftOffset info) (topOffset info) (InputWindowInfo.windowXScale info) (InputWindowInfo.windowYScale info).

(** the target is that of the window: its channel, its flags and its pointers, which are
    seen relative to the window *)
Definition target_for (w : t) (x : TouchState.TouchedWindow) (target : Z * InputTarget.t) : Prop :=
  target.1 = window_token w x /\ InputTarget.flags target.2 = TouchState.targetFlags x /\ InputTarget.pointerIds target.2 = TouchState.pointerIds x /\
  InputTarget.globalScaleFactor target.2 = InputWindowInfo.globalScaleFactor (Dispatcher.getInfo (shared w) (TouchState.windowHandle x)) /\
  (if has (TouchState.targetFlags x) InputTarget.FLAG_SPLIT
   then forall n, BitSet32.hasBit (TouchState.pointerIds x) n = true -> InputTarget.pointerInfos target.2 !! Z.to_nat n = Some (window_info w x)
   else InputTarget.getDefaultPointerInfo target.2 = Some (window_info w x)).

Lemma store_spec p ids infos infos' : InputTarget.store p ids infos = Some infos' ->
  length infos' = length infos /\ forall n, infos' !! n = if decide (n ∈ map Z.to_nat ids) then Some p else infos !! n.
Proof.
  revert infos; induction ids as [|i ids IH]; intros infos E; simpl in E; [injection E as <-; split; [done|intros; by rewrite decide_False by set_solver]|].
  destruct (_ && _) eqn:Ei; [|done]. bool_to_prop. destruct (IH _ E) as [Hl Hn]. rewrite length_insert in Hl. split; [done|]. intros n. rewrite Hn. cbn [map].
  destruct (decide (n ∈ map Z.to_nat ids)); [rewrite decide_True by set_solver; done|]. destruct (decide (n = Z.to_nat i)) as [->|Hne].
  - rewrite decide_True by set_solver. rewrite list_lookup_insert_eq; [done|lia].
  - rewrite decide_False by set_solver. by rewrite list_lookup_insert_ne.
Qed.

(** a target that was just made *)
Lemma addPointers_new w x target : window_ok x ->
  let info := Dispatcher.getInfo (shared w) (TouchState.windowHandle x) in
  InputTarget.addPointers (InputTarget.new <| InputTarget.flags := TouchState.targetFlags x |> <| InputTarget.globalScaleFactor := InputWindowInfo.globalScaleFactor info |>)
    (TouchState.pointerIds x) (window_info w x) = Some target -> target_for w x (window_token w x, target).
Proof.
  intros Hx info E. unfold window_ok, pointers_ok in Hx. unfold InputTarget.addPointers in E. unfold target_for. simpl.
  destruct (has (TouchState.targetFlags x) InputTarget.FLAG_SPLIT) eqn:Esp.
  - rewrite (proj2 (marked_members _) Hx) in E. destruct (InputTarget.store _ _ _) as [infos|] eqn:Es; simpl in E; [|done]. injection E as <-. simpl.
    apply store_spec in Es as [_ Hn]. repeat split; try done. intros n Hb. rewrite Hn, decide_True; [done|]. apply elem_of_map. exists n. split; [|done].
    apply elem_of_bits_below. split; [done|by eapply BitSet32.hasBit_range].
  - rewrite Hx in *. assert (BitSet32.isEmpty 0 = true) as E0.
    { destruct (BitSet32.isEmpty 0) eqn:E0; [done|]. apply marked_members in E0 as [n Hn]. by rewrite BitSet32.hasBit_zero in Hn. }
    rewrite E0 in E. injection E as <-. simpl. repeat split; try done.
Qed.

Lemma existsb_token (ts : targets) token : existsb (fun t => t.1 =? token) ts = true <-> token ∈ map fst ts.
Proof.
  rewrite existsb_exists, elem_of_map. split.
  - intros (x & Hin & E). bool_to_prop. exists x. by rewrite list_elem_of_In.
  - intros (x & Hin & ->). exists x. rewrite <- list_elem_of_In. split; [done|apply Z.eqb_refl].
Qed.

(** *** Windows that share a channel *)

(** the windows that have a channel, without those whose channel is that of an earlier one
    or among [seen] *)
Fixpoint leaders (w : t) (seen : list Z) (ws : list TouchState.TouchedWindow) : list TouchState.TouchedWindow :=
  match ws with
  | [] => []
  | x :: ws =>
    if decide (has_channel w x /\ window_token w x ∉ seen) then x :: leaders w (window_token w x :: seen) ws else leaders w seen ws
  end.

(** what a target has of its own, and what a window gives it *)
Definition target_head (target : Z * InputTarget.t) : Z * Z * float32 := (target.1, InputTarget.flags target.2, InputTarget.globalScaleFactor target.2).
Definition window_head (w : t) (x : TouchState.TouchedWindow) : Z * Z * float32 :=
  (window_token w x, TouchState.targetFlags x, InputWindowInfo.globalScaleFactor (Dispatcher.getInfo (shared w) (TouchState.windowHandle x))).

Lemma leaders_seen w seen seen' ws : (forall z, z ∈ seen <-> z ∈ seen') -> leaders w seen ws = leaders w seen' ws.
Proof.
  revert seen seen'. induction ws as [|x ws IH]; intros seen seen' H; [done|]. simpl. rewrite (IH seen seen' H). rewrite (IH (_ :: seen) (window_token w x :: seen')) by set_solver.
  destruct (decide _) as [[H1 H2]|H1], (decide _) as [[H3 H4]|H3]; try done; exfalso; [apply H3|apply H1]; (split; [done|]); by rewrite <- ?H in *; rewrite ?H in *.
Qed.

Lemma leaders_spec w ws : forall seen x, x ∈ leaders w seen ws -> x ∈ ws /\ has_channel w x /\ window_token w x ∉ seen.
Proof.
  induction ws as [|y ws IH]; intros seen x Hx; simpl in Hx; [by apply elem_of_nil in Hx|]. destruct (decide _) as [[Hc Hn]|_].
  - apply elem_of_cons in Hx as [->|Hx]; [split; [left|done]|]. destruct (IH _ _ Hx) as (Hin & Hcx & Hnx). split; [by right|]. split; [done|set_solver].
  - destruct (IH _ _ Hx) as (Hin & Hr). split; [by right|done].
Qed.

Lemma leaders_distinct w ws : forall seen, NoDup (map (window_token w) (leaders w seen ws)).
Proof.
  induction ws as [|y ws IH]; intros seen; simpl; [constructor|]. destruct (decide _); [|done]. simpl. constructor; [|done].
  intros (x & Hx & E)%elem_of_map. apply leaders_spec in Hx as (_ & _ & Hx). set_solver.
Qed.

(** every channel has a leader *)
Lemma leaders_complete w ws : forall seen x, x ∈ ws -> has_channel w x -> window_token w x ∉ seen -> window_token w x ∈ map (window_token w) (leaders w seen ws).
Proof.
  induction ws as [|y ws IH]; intros seen x Hx Hc Hn; [by apply elem_of_nil in Hx|]. simpl. destruct (decide (has_channel w y /\ _)) as [_|Hy].
  - simpl. destruct (decide (window_token w x = window_token w y)) as [->|Hne]; [left|]. apply elem_of_cons in Hx as [->|Hx]; [done|]. right. apply IH; [done|done|set_solver].
  - apply elem_of_cons in Hx as [->|Hx]; [by destruct Hy|by apply IH].
Qed.

Lemma addPointers_head target ids p target' : InputTarget.addPointers target ids p = Some target' ->
  InputTarget.flags target' = InputTarget.flags target /\ InputTarget.globalScaleFactor target' = InputTarget.globalScaleFactor target.
Proof.
  unfold InputTarget.addPointers. destruct (BitSet32.isEmpty ids); [by intros [= <-]|]. destruct (InputTarget.store _ _ _); simpl; [|done]. by intros [= <-].
Qed.

Lemma update_target_heads token ids p ts : forall ts', update_target token ids p ts = Some ts' -> map target_head ts' = map target_head ts.
Proof.
  induction ts as [|[k target] ts IH]; intros ts' E; simpl in E; [by injection E as <-|]. destruct (k =? token).
  - destruct (InputTarget.addPointers target ids p) as [target'|] eqn:Ea; simpl in E; [|done]. injection E as <-. simpl. unfold target_head. simpl. by destruct (addPointers_head _ _ _ _ Ea) as [-> ->].
  - destruct (update_target token ids p ts) as [ts1|] eqn:Eu; simpl in E; [|done]. injection E as <-. simpl. by rewrite (IH _ eq_refl).
Qed.

(** there is one target for each channel, made for the first window that has it *)
Lemma add_windows_heads w ws : forall ts ts', add_windows w ws ts = Some ts' -> channels_ok w ->
  map target_head ts' = map target_head ts ++ map (window_head w) (leaders w (map fst ts) ws).
Proof.
  induction ws as [|x ws IH]; intros ts ts' E Hch; cbn [add_windows] in E; [injection E as <-; simpl; by rewrite app_nil_r|].
  destruct (addWindowTargetLocked _ _ _ _ _) as [ts1|] eqn:E1; simpl in E; [|done]. rewrite (IH _ _ E Hch). cbn [leaders].
  unfold addWindowTargetLocked in E1. change (InputWindowInfo.token _) with (window_token w x) in E1.
  assert (Hfst : forall l l' : targets, map target_head l = map target_head l' -> map fst l = map fst l').
  { intros l l' Hl. assert (Hm : forall l : targets, map fst l = map (fun z => z.1.1) (map target_head l)) by (intros l0; by rewrite map_map). by rewrite !Hm, Hl. }
  destruct (existsb _ ts) eqn:Ee.
  - apply existsb_token in Ee. apply update_target_heads in E1. rewrite E1, (Hfst _ _ E1). by rewrite decide_False by tauto.
  - assert (Hn : window_token w x ∉ map fst ts) by (rewrite <- existsb_token; congruence).
    destruct (mInputChannelsByToken w !! window_token w x) as [channel|] eqn:Ech.
    + destruct (InputTarget.addPointers _ _ _) as [target|] eqn:Et; simpl in E1; [|done]. injection E1 as <-. apply addPointers_head in Et as [Ef Eg]. rewrite (Hch _ _ Ech).
      rewrite decide_True by (split; [unfold has_channel; rewrite Ech; eauto|done]). rewrite !map_app, <- app_assoc. f_equal. simpl. unfold target_head at 1, window_head at 2. simpl. rewrite Ef, Eg. f_equal.
      f_equal. apply leaders_seen. set_solver.
    + injection E1 as <-. rewrite decide_False; [done|]. unfold has_channel. rewrite Ech. by intros [[? ?] _].
Qed.

(** each window that has a channel of its own gets its own target *)
Lemma add_windows_spec w ws : forall done ts ts', add_windows w ws ts = Some ts' -> no_clones w -> channels_ok w ->
  NoDup (map TouchState.windowHandle (done ++ ws)) -> Forall window_ok ws -> map fst ts = map (window_token w) (filter (has_channel w) done) ->
  exists new, ts' = ts ++ new /\ Forall2 (target_for w) (filter (has_channel w) ws) new.
Proof.
  induction ws as [|x ws IH]; intros before ts ts' E Hc Hch Hnd Hws Hts; cbn [add_windows] in E.
  { injection E as <-. exists []. rewrite app_nil_r. split; [done|constructor]. }
  apply Forall_cons in Hws as [Hx Hws]. destruct (addWindowTargetLocked _ _ _ _ _) as [ts1|] eqn:E1; simpl in E; [|done].
  unfold addWindowTargetLocked in E1. change (InputWindowInfo.token _) with (window_token w x) in E1.
  assert (Hnew : has_channel w x -> window_token w x ∉ map fst ts).
  { rewrite Hts. intros Hcx Hin. apply elem_of_map in Hin as (y & [Hcy Hy]%list_elem_of_filter & Ey).
    assert (TouchState.windowHandle x = TouchState.windowHandle y) as Eh by (by apply Hc). rewrite map_app in Hnd. apply NoDup_app in Hnd as (_ & Hd & _).
    apply (Hd (TouchState.windowHandle y)); [by apply elem_of_map; exists y|]. rewrite <- Eh. simpl. left. }
  assert (Hold : ~ has_channel w x -> window_token w x ∉ map fst ts).
  { rewrite Hts. intros Hcx Hin. apply elem_of_map in Hin as (y & [Hcy Hy]%list_elem_of_filter & Ey). apply Hcx. unfold has_channel. by rewrite Ey. }
  assert (existsb (fun t => t.1 =? window_token w x) ts = false) as Ee.
  { apply not_true_iff_false. rewrite existsb_token. destruct (decide (has_channel w x)); auto. }
  rewrite Ee in E1. rewrite filter_cons. destruct (mInputChannelsByToken w !! window_token w x) as [channel|] eqn:Ech.
  - rewrite decide_True by (unfold has_channel; eauto). destruct (InputTarget.addPointers _ _ _) as [target|] eqn:Et; simpl in E1; [|done]. injection E1 as <-.
    rewrite (Hch _ _ Ech) in E. apply (addPointers_new w x target Hx) in Et.
    destruct (IH (before ++ [x]) _ _ E Hc Hch) as (new & -> & Hnew'); [by rewrite <- app_assoc|done| |].
    { rewrite map_app, filter_app, map_app, Hts. f_equal. rewrite filter_cons, filter_nil, decide_True by (unfold has_channel; eauto). done. }
    exists ((window_token w x, target) :: new). rewrite <- app_assoc. split; [done|by constructor].
  - injection E1 as <-. rewrite decide_False by (unfold has_channel; rewrite Ech; intros [? ?]; done).
    eapply (IH (before ++ [x])); [exact E|done..|by rewrite <- app_assoc|done|]. rewrite filter_app, filter_cons, filter_nil, decide_False, app_nil_r; [done|].
    unfold has_channel. rewrite Ech. intros [? ?]; done.
Qed.

End Touch.

Import InputDispatcher InputTargets.

(** ** Windows with a flag *)

Definition flagged (mask : Z) (ws : list TouchState.TouchedWindow) : list Z :=
  map TouchState.windowHandle (filter (fun x => has (TouchState.targetFlags x) mask = true) ws).

(** flags that do not touch those of [mask] *)
Definition neutral (flags mask : Z) : Prop := has flags mask = false /\ has flags InputTarget.FLAG_DISPATCH_AS_SLIPPERY_EXIT = false.

Lemma flagged_cons mask x ws : flagged mask (x :: ws) = (if has (TouchState.targetFlags x) mask then [TouchState.windowHandle x] else []) ++ flagged mask ws.
Proof. unfold flagged. rewrite filter_cons. destruct (has (TouchState.targetFlags x) mask) eqn:E; [rewrite decide_True by done|rewrite decide_False by congruence]; done. Qed.

Lemma update_window_flags flags p x : has flags InputTarget.FLAG_DISPATCH_AS_SLIPPERY_EXIT = false ->
  TouchState.targetFlags (TouchState.update_window flags p x) = Z.lor (TouchState.targetFlags x) flags.
Proof. intros E. unfold TouchState.update_window. simpl. by rewrite E. Qed.

Lemma flagged_neutral mask h flags p ws : neutral flags mask -> flagged mask (TouchState.add_or_update h flags p ws) = flagged mask ws.
Proof.
  intros [Hm Hs]. induction ws as [|x ws IH]; cbn [TouchState.add_or_update]; [rewrite flagged_cons; simpl; by rewrite Hm|].
  destruct (_ =? h); rewrite !flagged_cons; [|by rewrite IH]. rewrite update_window_flags, has_lor, Hm, orb_false_r by done. done.
Qed.

Lemma flagged_mono mask h flags p ws y : has flags InputTarget.FLAG_DISPATCH_AS_SLIPPERY_EXIT = false -> y ∈ flagged mask ws -> y ∈ flagged mask (TouchState.add_or_update h flags p ws).
Proof.
  intros Hs. induction ws as [|x ws IH]; cbn [TouchState.add_or_update]; [set_solver|]. destruct (_ =? h); rewrite !flagged_cons; [|set_solver].
  rewrite update_window_flags, has_lor by done. destruct (has (TouchState.targetFlags x) mask); simpl; [set_solver|]. case_match; set_solver.
Qed.

Lemma flagged_added mask h flags p ws : has flags InputTarget.FLAG_DISPATCH_AS_SLIPPERY_EXIT = false -> has flags mask = true -> h ∈ flagged mask (TouchState.add_or_update h flags p ws).
Proof.
  intros Hs Hm. induction ws as [|x ws IH]; cbn [TouchState.add_or_update]; [rewrite flagged_cons; simpl; rewrite Hm; set_solver|].
  destruct (_ =? h) eqn:E; bool_to_prop; rewrite flagged_cons; [|set_solver]. rewrite update_window_flags, has_lor, Hm, orb_true_r by done. simpl. set_solver.
Qed.

Lemma flagged_iff mask h flags p ws y : Z.land InputTarget.FLAG_DISPATCH_AS_IS mask = 0 ->
  y ∈ flagged mask (TouchState.add_or_update h flags p ws) <-> y ∈ flagged mask ws \/ y = h /\ has flags mask = true.
Proof.
  intros Hm. assert (Hu : forall x, has (TouchState.targetFlags (TouchState.update_window flags p x)) mask = has (TouchState.targetFlags x) mask || has flags mask).
  { intros x. unfold TouchState.update_window. simpl. case_match; rewrite ?has_ldiff by done; apply has_lor. }
  induction ws as [|x ws IH]; cbn [TouchState.add_or_update].
  - rewrite flagged_cons. simpl. destruct (has flags mask); set_solver.
  - destruct (_ =? h) eqn:E; bool_to_prop; rewrite !flagged_cons; [|set_solver]. rewrite Hu. simpl. destruct (has (TouchState.targetFlags x) mask), (has flags mask); set_solver.
Qed.

Lemma NoDup_map_inj {A B} (f : A -> B) l x y : NoDup (map f l) -> x ∈ l -> y ∈ l -> f x = f y -> x = y.
Proof.
  induction l as [|z l IH]; intros Hnd Hx Hy E; [set_solver|]. simpl in Hnd. apply NoDup_cons in Hnd as [Hz Hnd].
  apply elem_of_cons in Hx as [->|Hx]; apply elem_of_cons in Hy as [->|Hy]; auto; exfalso; apply Hz; [rewrite E|rewrite <- E]; apply elem_of_map; eauto.
Qed.

(** a window of the touch with the flag *)
Lemma flagged_window mask ws x : NoDup (map TouchState.windowHandle ws) -> x ∈ ws -> TouchState.windowHandle x ∈ flagged mask ws <-> has (TouchState.targetFlags x) mask = true.
Proof.
  intros Hnd Hx. unfold flagged. rewrite elem_of_map. split; [|intros Hf; exists x; split; [by apply list_elem_of_filter|done]].
  intros (y & [Hf Hy]%list_elem_of_filter & E). assert (x = y) as -> by (eapply (NoDup_map_inj TouchState.windowHandle); eauto). done.
Qed.

Lemma first_foreground s : TouchState.getFirstForegroundWindowHandle s = head (flagged InputTarget.FLAG_FOREGROUND (TouchState.windows s)).
Proof. unfold TouchState.getFirstForegroundWindowHandle, flagged. by destruct (filter _ _). Qed.

(** a loop that adds flags to windows *)
Section Fold.
Context {A : Type} (handle : A -> Z) (flags : Z) (cond : A -> bool).

Definition add_flags (s : TouchState.t) (l : list A) : TouchState.t := foldl (fun s x => if cond x then TouchState.addOrUpdateWindow s (handle x) flags 0 else s) s l.

Lemma add_flags_neutral mask l : neutral flags mask -> forall s, flagged mask (TouchState.windows (add_flags s l)) = flagged mask (TouchState.windows s).
Proof.
  intros Hm. induction l as [|x l IH]; intros s; [done|]. cbn [add_flags foldl]. fold (add_flags (if cond x then TouchState.addOrUpdateWindow s (handle x) flags 0 else s) l).
  rewrite IH. destruct (cond x); [|done]. rewrite addOrUpdateWindow_windows. by apply flagged_neutral.
Qed.

Lemma add_flags_mono mask l y : has flags InputTarget.FLAG_DISPATCH_AS_SLIPPERY_EXIT = false ->
  forall s, y ∈ flagged mask (TouchState.windows s) -> y ∈ flagged mask (TouchState.windows (add_flags s l)).
Proof.
  intros Hm. induction l as [|x l IH]; intros s Hy; [done|]. cbn [add_flags foldl]. apply IH. destruct (cond x); [|done]. rewrite addOrUpdateWindow_windows. by apply flagged_mono.
Qed.

Lemma add_flags_added mask l x : has flags InputTarget.FLAG_DISPATCH_AS_SLIPPERY_EXIT = false -> has flags mask = true ->
  x ∈ l -> cond x = true -> forall s, handle x ∈ flagged mask (TouchState.windows (add_flags s l)).
Proof.
  intros Hs Hm. induction l as [|z l IH]; intros Hx Hc s; [set_solver|]. cbn [add_flags foldl]. apply elem_of_cons in Hx as [<-|Hx]; [|by apply IH].
  rewrite Hc. apply add_flags_mono; [done|]. rewrite addOrUpdateWindow_windows. by apply flagged_added.
Qed.

Lemma add_flags_monitors l : forall s, TouchState.gestureMonitors (add_flags s l) = TouchState.gestureMonitors s.
Proof.
  induction l as [|x l IH]; intros s; [done|]. cbn [add_flags foldl]. fold (add_flags (if cond x then TouchState.addOrUpdateWindow s (handle x) flags 0 else s) l).
  rewrite IH. destruct (cond x); [|done]. unfold TouchState.addOrUpdateWindow. by destruct (has _ _).
Qed.

End Fold.

Section Touched.
Context `{B32 : BitSet32.ops} `{B64 : BitSet64.ops}.

Definition uid_of (w : t) (h : Z) : Z := InputWindowInfo.ownerUid (Dispatcher.getInfo (shared w) h).

(** ** Before the targets are made *)

Lemma hide_coordinates_flags w e s mask : neutral InputTarget.FLAG_ZERO_COORDS mask -> flagged mask (TouchState.windows (hide_coordinates w e s)) = flagged mask (TouchState.windows s).
Proof. intros Hm. unfold hide_coordinates. destruct (isDown e); [|done]. case_match; [|done]. by apply (add_flags_neutral TouchState.windowHandle). Qed.

Lemma add_wallpapers_flags w e s mask : neutral wallpaper_flags mask -> flagged mask (TouchState.windows (add_wallpapers w e s)) = flagged mask (TouchState.windows s).
Proof. intros Hm. unfold add_wallpapers. destruct (isDown e); [|done]. case_match; [|done]. destruct (InputWindowInfo.hasWallpaper _); [|done]. by apply (add_flags_neutral (fun h => h)). Qed.

Lemma add_wallpapers_mono w e s mask h : h ∈ flagged mask (TouchState.windows s) -> h ∈ flagged mask (TouchState.windows (add_wallpapers w e s)).
Proof. intros Hm. unfold add_wallpapers. destruct (isDown e); [|done]. case_match; [|done]. destruct (InputWindowInfo.hasWallpaper _); [|done]. by apply (add_flags_mono (fun h => h)). Qed.

Lemma extras_monitors w e s : TouchState.gestureMonitors (add_wallpapers w e (hide_coordinates w e s)) = TouchState.gestureMonitors s.
Proof.
  transitivity (TouchState.gestureMonitors (hide_coordinates w e s)).
  - unfold add_wallpapers. destruct (isDown e); [|done]. case_match; [|done]. destruct (InputWindowInfo.hasWallpaper _); [|done]. by apply (add_flags_monitors (fun h => h)).
  - unfold hide_coordinates. destruct (isDown e); [|done]. case_match; [|done]. by apply (add_flags_monitors TouchState.windowHandle).
Qed.

(** foreign windows that watch do not get coordinates *)
Definition hidden (w : t) (s : TouchState.t) : Prop := forall f h, TouchState.getFirstForegroundWindowHandle s = Some f ->
  h ∈ flagged InputTarget.FLAG_DISPATCH_AS_OUTSIDE (TouchState.windows s) -> uid_of w h <> uid_of w f -> h ∈ flagged InputTarget.FLAG_ZERO_COORDS (TouchState.windows s).

Lemma hide_coordinates_hidden w e s : isDown e = true -> hidden w (hide_coordinates w e s).
Proof.
  intros Hd f h Ef Hh Hne. rewrite first_foreground, hide_coordinates_flags, <- first_foreground in Ef by done. rewrite hide_coordinates_flags in Hh by done.
  unfold hide_coordinates. rewrite Hd, Ef. unfold flagged in Hh. apply elem_of_map in Hh as (x & [Hx Hin]%list_elem_of_filter & ->).
  apply (add_flags_added TouchState.windowHandle); [done|done|done|]. rewrite Hx. simpl. apply negb_true_iff, Z.eqb_neq. exact Hne.
Qed.

Lemma extras_hidden w e s : isDown e = true -> hidden w (add_wallpapers w e (hide_coordinates w e s)).
Proof.
  intros Hd f h Ef Hh Hne. rewrite first_foreground, add_wallpapers_flags, <- first_foreground in Ef by done. rewrite add_wallpapers_flags in Hh by done.
  apply add_wallpapers_mono. by eapply hide_coordinates_hidden.
Qed.

(** ** Success *)

Definition monitor_target (m : TouchState.TouchedMonitor) : Z * InputTarget.t :=
  (InputChannel.token (TouchState.monitor m),
   InputTarget.setDefaultPointerInfo (InputTarget.new <| InputTarget.flags := InputTarget.FLAG_DISPATCH_AS_IS |>)
     (InputEvents.info (TouchState.xOffset m) (TouchState.yOffset m) F32.one F32.one)).

Lemma fold_monitors ms : forall ts,
  foldl (fun ts m => addMonitoringTargetLocked (TouchState.monitor m) (TouchState.xOffset m) (TouchState.yOffset m) ts) ts ms = ts ++ map monitor_target ms.
Proof. induction ms as [|m ms IH]; intros ts; simpl; [by rewrite app_nil_r|]. rewrite IH. unfold addMonitoringTargetLocked. by rewrite <- app_assoc. Qed.

Definition permitted (w : t) (perm : permissions) (e : MotionEntry.t) (s : TouchState.t) : Prop := forall h, h ∈ flagged InputTarget.FLAG_FOREGROUND (TouchState.windows s) ->
  checkInjectionPermission (shared w) perm (Some h) (MotionEntry.injectionState e) = true.

(** the touch as it is sent, and its targets *)
Record success (w : t) (perm : permissions) (e : MotionEntry.t) (s : TouchState.t) (ts : targets) : Prop := {
  success_ok : touch_ok s;
  success_targets : channels_ok w ->
    exists tw, ts = tw ++ map monitor_target (TouchState.gestureMonitors s) /\ map target_head tw = map (window_head w) (leaders w [] (TouchState.windows s))
      /\ (no_clones w -> Forall2 (target_for w) (filter (has_channel w) (TouchState.windows s)) tw);
  success_permitted : permitted w perm e s;
  success_hidden : isDown e = true -> hidden w s;
  success_some : flagged InputTarget.FLAG_FOREGROUND (TouchState.windows s) <> [] \/ TouchState.gestureMonitors s <> [] }.

(** at the label [Failed], by whether the function got there by itself *)
Definition found_ok (w : t) (perm : permissions) (e : MotionEntry.t) (go : bool) (a : attempt) : Prop :=
  touch_ok (tempTouchState a) /\
  if go then injectionResult a = INPUT_EVENT_INJECTION_SUCCEEDED /\ injectionPermission a = Some true /\
             exists s, success w perm e s (inputTargets a) /\ tempTouchState a = TouchState.filterNonAsIsTouchWindows s
  else (injectionResult a = INPUT_EVENT_INJECTION_FAILED \/ injectionResult a = INPUT_EVENT_INJECTION_PERMISSION_DENIED) /\ injectionPermission a <> Some true /\ inputTargets a = [].

(** before the permissions are checked *)
Definition searching (go : bool) (a : attempt) : Prop := inputTargets a = [] /\ injectionPermission a = None /\
  if go then True else injectionResult a = INPUT_EVENT_INJECTION_FAILED \/ injectionResult a = INPUT_EVENT_INJECTION_PERMISSION_DENIED.

Lemma holds_and r Q Q' : holds r Q -> holds r Q' -> holds r (fun go a => Q go a /\ Q' go a).
Proof. destruct r as [[a|a]|]; simpl; auto. Qed.

Lemma begin_gesture_searching e a : searching true a -> holds (begin_gesture e a) searching.
Proof. intros (H1 & H2 & _). unfold begin_gesture. destruct (newGesture e); destruct (_ && _); simpl; unfold searching; simpl; auto. Qed.

Lemma new_pointer_searching w e a : searching true a -> holds (new_pointer w e a) searching.
Proof.
  intros (H1 & H2 & _). unfold new_pointer. destruct (if isFromMouse e then _ else _) as [xy|]; cbn [mbind option_bind]; [|done].
  destruct (findTouchedWindowAtLocked _ _ _ _ _ _ _) as [[r s]|]; cbn [mbind option_bind fst snd]; [|done].
  destruct (choose_window _ _ _ _ _) as [[h|] split]; cbn [fst snd].
  - unfold touch_window. destruct (if isSplit _ then _ else _); simpl; [|done]. done.
  - destruct (selectResponsiveMonitorsLocked _ _); simpl; unfold searching; simpl; auto.
Qed.

Lemma next_pointer_searching w e a : searching true a -> holds (next_pointer w e a) searching.
Proof.
  intros (H1 & H2 & _). unfold next_pointer. destruct (negb _); [simpl; unfold searching; simpl; auto|]. destruct (_ && _); [|done]. destruct (position e 0) as [xy|]; simpl; [|done].
  destruct (findTouchedWindowAtLocked _ _ _ _ _ _ _) as [[r s]|]; simpl; [|done].
  destruct (TouchState.getFirstForegroundWindowHandle _) as [old|], r as [new|]; simpl; try done. destruct (_ =? _); [done|].
  unfold slip. by destruct (if _ || _ then _ else _).
Qed.

Lemma update_hover_same w a : inputTargets (update_hover w a) = inputTargets a /\ injectionPermission (update_hover w a) = injectionPermission a.
Proof. unfold update_hover. by case_bool_decide. Qed.

(** after the permissions are checked *)
Definition checked (w : t) (perm : permissions) (e : MotionEntry.t) (go : bool) (a : attempt) : Prop := inputTargets a = [] /\
  if go then injectionPermission a = Some true /\ permitted w perm e (tempTouchState a) /\
             (flagged InputTarget.FLAG_FOREGROUND (TouchState.windows (tempTouchState a)) <> [] \/ TouchState.gestureMonitors (tempTouchState a) <> [])
  else (injectionResult a = INPUT_EVENT_INJECTION_FAILED \/ injectionResult a = INPUT_EVENT_INJECTION_PERMISSION_DENIED) /\ injectionPermission a <> Some true.

Lemma check_permissions_checked w perm e a : inputTargets a = [] -> injectionPermission a = None -> holds (check_permissions w perm e a) (checked w perm e).
Proof.
  intros H1 H2. unfold check_permissions. destruct (forallb _ _) eqn:Ef; [|simpl; unfold checked; simpl; auto].
  case_bool_decide as E1; [case_bool_decide as E2|]; cbn [andb]; simpl; unfold checked; simpl; [rewrite H2; by auto|..].
  - split; [done|]. split; [done|]. split; [|by right]. intros h Hh. unfold flagged, foreground in *. by rewrite E1 in Hh; apply elem_of_nil in Hh.
  - split; [done|]. split; [done|]. split.
    + intros h Hh. unfold flagged in Hh. apply elem_of_map in Hh as (x & Hx & ->). rewrite forallb_forall in Ef. apply Ef. by apply list_elem_of_In.
    + left. unfold flagged. intros E. apply E1. by apply map_eq_nil in E.
Qed.

Lemma output_targets_ok w perm e a : touch_ok (tempTouchState a) -> checked w perm e true a ->
  holds (output_targets w (a <| tempTouchState := add_wallpapers w e (hide_coordinates w e (tempTouchState a)) |>)) (found_ok w perm e).
Proof.
  intros Hok (Ht & Hp & Hperm & Hsome). unfold output_targets. simpl. rewrite Ht. set (s := add_wallpapers w e (hide_coordinates w e (tempTouchState a))).
  assert (Hs : touch_ok s) by (by apply add_wallpapers_ok, hide_coordinates_ok).
  assert (Hfg : flagged InputTarget.FLAG_FOREGROUND (TouchState.windows s) = flagged InputTarget.FLAG_FOREGROUND (TouchState.windows (tempTouchState a))).
  { unfold s. by rewrite add_wallpapers_flags, hide_coordinates_flags. }
  destruct (add_windows w (TouchState.windows s) []) as [tw|] eqn:Ew; simpl; [|done]. split; [by apply filterNonAsIs_ok|]. split; [done|]. split; [done|]. exists s. split; [|done].
  rewrite fold_monitors. split; [done|..].
  - intros Hch. destruct Hs as [Hnd Hws]. exists tw. split; [done|]. split; [exact (add_windows_heads _ _ _ _ Ew Hch)|]. intros Hc.
    destruct (add_windows_spec w _ [] _ _ Ew Hc Hch Hnd Hws eq_refl) as (new & E & Hnew). simpl in E. by subst new.
  - unfold permitted. by rewrite Hfg.
  - apply extras_hidden.
  - rewrite Hfg. unfold s. by rewrite extras_monitors.
Qed.

Lemma find_targets_ok w perm e : pointers_valid e -> touch_ok (tempTouchState (start w e [])) -> holds (find_targets w perm e []) (found_ok w perm e).
Proof.
  intros Hv Hs. unfold find_targets. assert (H0 : searching true (start w e [])) by done.
  assert (Hfail : forall a, temp_ok false a /\ searching false a -> found_ok w perm e false a).
  { intros a [Hok (H1 & H2 & H3)]. split; [done|]. rewrite H2. done. }
  eapply holds_go_on; [apply (holds_and _ temp_ok searching); [by apply begin_gesture_ok|by apply begin_gesture_searching]| |done]. intros a1 [Hok1 Hs1].
  eapply (holds_go_on _ _ _ (fun go a => temp_ok go a /\ searching go a)); [apply holds_and; destruct (_ || _);
    [by apply new_pointer_ok|by apply next_pointer_ok|by apply new_pointer_searching|by apply next_pointer_searching]| |done]. intros a2 [Hok2 Hs2].
  destruct Hs2 as (Ht2 & Hp2 & _). destruct (update_hover_same w a2) as [Ht Hp].
  eapply (holds_go_on _ _ _ (fun go a => tempTouchState a = tempTouchState (update_hover w a2) /\ checked w perm e go a));
    [apply holds_and; [apply check_permissions_temp|by apply check_permissions_checked; congruence]|..].
  - intros a3 [E3 Hc]. apply output_targets_ok; [rewrite E3; by apply update_hover_ok|done].
  - intros a3 [E3 (Ht3 & Hr & Hn)]. split; [rewrite E3; by apply update_hover_ok|]. done.
Qed.

(** ** The function *)

Definition touches_ok (d : Dispatcher.t) : Prop := Forall (fun ks => touch_ok ks.2) (Dispatcher.mTouchStatesByDisplay d).

Lemma touches_lookup d displayId s : touches_ok d -> lookup_list (Dispatcher.mTouchStatesByDisplay d) displayId = Some s -> touch_ok s.
Proof.
  intros Hd. unfold lookup_list. destruct (filter _ _) as [|ks l] eqn:E; simpl; [done|]. intros [= <-].
  assert (ks ∈ filter (fun kv => kv.1 = displayId) (Dispatcher.mTouchStatesByDisplay d)) as [_ Hin]%list_elem_of_filter by (rewrite E; left).
  by apply (proj1 (Forall_forall _ _) Hd).
Qed.

Lemma assign_Forall {A} (P : A -> Prop) k x (l : list (Z * A)) : P x -> Forall (fun kv => P kv.2) l -> Forall (fun kv => P kv.2) (assign k x l).
Proof. intros Hx. induction 1 as [|[k' y] l Hy Hl IH]; simpl; [by repeat constructor|]. by destruct (_ =? _); constructor. Qed.

Lemma start_touch_ok w e ts : touches_ok (shared w) -> touch_ok (tempTouchState (start w e ts)).
Proof.
  intros Hw. unfold start. simpl. destruct (oldState w e) as [s|] eqn:E; [|by apply touch_ok_empty]. eapply touch_ok_same; [|eapply touches_lookup; [exact Hw|exact E]]. done.
Qed.

Lemma final_state_ok e a s : final_state e a = Some s -> touch_ok (tempTouchState a) -> touch_ok s.
Proof.
  unfold final_state. intros E Hs. destruct (isHoverAction e); [injection E as <-; apply touch_ok_empty; by case_match|].
  case_bool_decide; [injection E as <-; by apply touch_ok_empty|]. destruct (_ && _); [|by injection E as <-].
  destruct (MotionEntry.pointers e !! _); simpl in E; [|done]. injection E as <-. by apply remove_pointer_ok.
Qed.

(** the state but for the touches and the hover *)
Definition only_touches (w w' : t) : Prop := exists states hover,
  w' = w <| shared := (shared w) <| Dispatcher.mTouchStatesByDisplay := states |> <| Dispatcher.mLastHoverWindowHandle := hover |> |>.

Lemma only_touches_refl w : only_touches w w.
Proof. exists (Dispatcher.mTouchStatesByDisplay (shared w)), (Dispatcher.mLastHoverWindowHandle (shared w)). by destruct w as [[] ? ? ? ? ? ?]. Qed.

Lemma save_state_ok e s hover d : touches_ok d -> touch_ok s -> touches_ok (save_state e s hover d).
Proof.
  intros Hd Hs. unfold touches_ok, save_state. simpl. destruct (_ =? AMOTION_EVENT_ACTION_SCROLL); [done|]. destruct (0 <=? _); [by apply (assign_Forall touch_ok)|].
  apply Forall_forall. intros ks [_ Hin]%list_elem_of_filter. by apply (proj1 (Forall_forall _ _) Hd).
Qed.

Lemma finish_touch_ok w perm e a result conflicts ts w' : finish w perm e a = Some (result, conflicts, ts, w') -> touches_ok (shared w) -> touch_ok (tempTouchState a) ->
  touches_ok (shared w') /\ only_touches w w' /\ result = injectionResult a /\ ts = inputTargets a.
Proof.
  unfold finish. intros E Hw Ha. destruct (negb _ || wrongDevice a); [injection E as <- <- <- <-; auto using only_touches_refl|].
  destruct (final_state e a) as [s|] eqn:Es; simpl in E; [|done]. injection E as <- <- <- <-. simpl. split; [apply save_state_ok; [done|by eapply final_state_ok]|].
  split; [by eexists _, _|done].
Qed.

(** The targets are those of a touch that is well formed, permitted and discreet, or there
    are none; and the event does not wait. *)
Lemma touched_targets w perm e result conflicts ts w' : findTouchedWindowTargetsLocked w perm e [] = Some (result, conflicts, ts, w') -> touches_ok (shared w) -> pointers_valid e ->
  touches_ok (shared w') /\ only_touches w w' /\
  (result = INPUT_EVENT_INJECTION_SUCCEEDED /\ (exists s, success w perm e s ts) \/
   (result = INPUT_EVENT_INJECTION_FAILED \/ result = INPUT_EVENT_INJECTION_PERMISSION_DENIED) /\ ts = []).
Proof.
  unfold findTouchedWindowTargetsLocked. intros E Hw Hv. pose proof (find_targets_ok w perm e Hv (start_touch_ok w e [] Hw)) as H.
  destruct (find_targets w perm e []) as [[a|a]|]; simpl in *; [| |done]; destruct H as [Hok H]; destruct (finish_touch_ok _ _ _ _ _ _ _ _ E Hw Hok) as (H1 & H2 & -> & ->);
    (split; [done|]; split; [done|]).
  - destruct H as (Hr & _ & s & Hs & _). left. split; [done|]. by exists s.
  - destruct H as (Hr & _ & Ht). by right.
Qed.

(** An injector without permission changes nothing but by touching its own windows. *)
Lemma not_permitted w perm e i result conflicts ts w' : findTouchedWindowTargetsLocked w perm e [] = Some (result, conflicts, ts, w') -> touches_ok (shared w) -> pointers_valid e ->
  MotionEntry.injectionState e = Some i -> hasInjectionPermission perm (injectorPid perm i) (injectorUid perm i) = false ->
  result <> INPUT_EVENT_INJECTION_SUCCEEDED -> w' = w.
Proof.
  unfold findTouchedWindowTargetsLocked. intros E Hw Hv Ei Hi Hne. pose proof (find_targets_ok w perm e Hv (start_touch_ok w e [] Hw)) as H.
  destruct (find_targets w perm e []) as [[a|a]|]; simpl in *; [| |done]; destruct H as [Hok H].
  - destruct H as (Hr & _). destruct (finish_touch_ok _ _ _ _ _ _ _ _ E Hw Hok) as (_ & _ & -> & _). done.
  - destruct H as (_ & Hp & _). unfold finish in E. destruct (injectionPermission a) as [[]|]; [done|by injection E|].
    unfold checkInjectionPermission in E. rewrite Ei, Hi in E. by injection E.
Qed.

End Touched.
