(* ===== verification/InputSystem.v ===== *)
(** * The input dispatcher as a system

    The calls of all threads, one at a time under the dispatcher's lock, in any order:
    those of the dispatcher's thread, cut where it asks the policy, and those of the window
    manager. [legal] says what the callers respect. What the functions of InputInbound.v do to
    the windows, the focus and the results of injections is any change of the shared state
    that keeps the touches well formed. *)

From S2P Require Import Prelude PointerCoords InputEvents InputState InputProtocol InputConnection InputStreams InputCancel InputTransfer InputOperations InputDispatcher InputTargets InputTouch.

Section System.
Context `{B32 : BitSet32.ops} `{B64 : BitSet64.ops}.

Import InputDispatcher.

Inductive call :=
  | Dispatch (entry : Z) (e : EventEntry) (inputTargets : list (Z * InputTarget.t))
  | DispatchMotion (perm : permissions) (entry : Z) (e : MotionEntry.t) (dropReason : DropReason)
  | Signals (connection : Z) (signals : list (Z * bool))
  | RunCommand
  | Answer (ans : answer)
  | CheckAnrs
  | CancelAll (options : CancelationOptions.t)
  | CancelMonitors (options : CancelationOptions.t)
  | CancelChannel (options : CancelationOptions.t) (token : Z)
  | Transfer (fromToken toToken : Z)
  | Pilfer (token : Z)
  | Register (connection : Z) (channel : InputChannel.t)
  | RegisterMonitor (connection : Z) (channel : InputChannel.t) (displayId : Z) (isGestureMonitor : bool)
  | Unregister (channel : InputChannel.t) (notify : bool)
  | SetFocusedApplication (displayId : Z) (application : option InputApplication.t) (valid : bool)
  | Configure (config : Dispatcher.t)
  | Update (d : Dispatcher.t).

(** the windows, the focus and the touches of [config], the rest of [d] *)
Definition configure (config d : Dispatcher.t) : Dispatcher.t :=
  Dispatcher.mk (Dispatcher.sNextSeqAtomic d) (Dispatcher.mAnrTracker d) (Dispatcher.mCommandQueue d) (Dispatcher.pendingForegroundDispatches d)
    (Dispatcher.handles config) (Dispatcher.mWindowHandlesByDisplay config) (Dispatcher.mFocusedWindowHandlesByDisplay config) (Dispatcher.mFocusedDisplayId config)
    (Dispatcher.mInTouchMode config) (Dispatcher.mTouchStatesByDisplay config) (Dispatcher.mFocusedApplicationHandlesByDisplay d)
    (Dispatcher.mNoFocusedWindowTimeoutTime config) (Dispatcher.mAwaitedFocusedApplication config) (Dispatcher.mAwaitedApplicationDisplayId config)
    (Dispatcher.DEFAULT_INPUT_DISPATCHING_TIMEOUT d) (Dispatcher.mLastHoverWindowHandle config) (Dispatcher.mKeyIsWaitingForEventsTimeout config)
    (Dispatcher.injectionResults d).

Definition perform (w : t) (v : env) (x : call) : option t :=
  match x with
  | Dispatch entry e inputTargets => dispatchEventLocked w v entry e inputTargets
  | DispatchMotion perm entry e dropReason =>
    match InputTargets.dispatchMotionLocked w v perm entry e dropReason LONG_LONG_MAX with Some (_, w, _) => Some w | None => None end
  | Signals a signals => receive_signals w (now v) a signals
  | RunCommand => run_command w v
  | Answer ans => r ← running w; resume w v r ans
  | CheckAnrs => snd <$> processAnrsLocked w (now v)
  | CancelAll options => synthesizeCancelationEventsForAllConnectionsLocked w v options
  | CancelMonitors options => synthesizeCancelationEventsForMonitorsLocked w v options
  | CancelChannel options token => synthesizeCancelationEventsForInputChannelLocked w v options token
  | Transfer fromToken toToken => snd <$> transferTouchFocus w v fromToken toToken
  | Pilfer token => snd <$> pilferPointers w v token
  | Register a channel => Some (registerInputChannel w a channel).2
  | RegisterMonitor a channel displayId gesture => Some (registerInputMonitor w a channel displayId gesture).2
  | Unregister channel notify => snd <$> unregisterInputChannelLocked w channel notify
  | SetFocusedApplication displayId application valid => Some (setFocusedApplication w displayId application valid)
  | Configure config => Some (w <| shared := configure config (shared w) |>)
  | Update d => Some (w <| shared := d |>)
  end.

(** no pointer hovers over the window with the token *)
Definition no_hover_in (w : t) (token : Z) : Prop :=
  forall a c, getConnectionLocked w token = Some a -> connections w !! a = Some c -> no_hover (InputState.mMotionMementos (Connection.inputState c)).

(** The dispatcher's thread does one thing at a time; motion events have been validated, and
    no two windows share a channel when they are dispatched; touches are transferred while
    no pointer hovers; new objects are new, and new windows of a touch fit to it. *)
Definition legal (w : t) (x : call) : Prop :=
  match x with
  | Dispatch _ e inputTargets => running w = None /\ event_ok e /\ Forall (fun t => target_ok t.2) inputTargets
  | DispatchMotion _ _ e _ =>
    running w = None /\ validateMotionEvent (MotionEntry.action e) (MotionEntry.actionButton e) (MotionEntry.pointers e) = true /\ no_clones w
  | Configure config | Update config => touches_ok config
  | Signals _ _ | RunCommand | CheckAnrs => running w = None
  | Transfer fromToken toToken => no_hover_in w fromToken /\ no_hover_in w toToken
  | Register a _ | RegisterMonitor a _ _ _ => connections w !! a = None
  | _ => True
  end.

Definition initial (w : t) : Prop :=
  connections w = ∅ /\ mConnectionsByFd w = [] /\ running w = None /\ mInputChannelsByToken w = ∅ /\ touches_ok (shared w).
Definition step (w w' : t) : Prop := exists v x, legal w x /\ perform w v x = Some w'.
Definition reachable (w : t) : Prop := exists w0, initial w0 /\ rtc step w0 w.

(** ** The invariant *)

(** the connections are consistent, those that are registered were not unregistered *)
Record world_ok (w : t) : Prop := {
  world_conn : forall a c, connections w !! a = Some c -> conn_ok c;
  world_registered : forall a, a ∈ map snd (mConnectionsByFd w) -> exists c, connections w !! a = Some c /\ Connection.status c <> Connection.STATUS_ZOMBIE }.

(** the key whose fallback is being asked for still waits *)
Definition key_waits (seq : Z) (c : Connection.t) : Prop := Connection.status c = Connection.STATUS_NORMAL ->
  exists i x k, Connection.findWaitQueueEntry c seq = Some i /\ Connection.waitQueue c !! i = Some x /\ DispatchEntry.eventEntry x = Key k.

Definition running_ok (w : t) : Prop := forall a seq entry k fallbackKeyCode initialDown,
  running w = Some (Fallback a seq entry k fallbackKeyCode initialDown) -> exists c, connections w !! a = Some c /\ key_waits seq c.

Definition inv (w : t) : Prop := world_ok w /\ running_ok w.

Lemma find_index_app {A} (f : A -> bool) l l' i : InputState.find_index f l = Some i -> InputState.find_index f (l ++ l') = Some i.
Proof.
  revert i; induction l as [|x l IH]; intros i; simpl; [done|]. destruct (f x); [done|]. destruct (InputState.find_index f l) as [j|]; [|done]. by rewrite (IH j eq_refl).
Qed.

Lemma key_waits_evolves seq c c' : key_waits seq c -> same_identity c c' -> key_waits seq c'.
Proof.
  intros Hk (_ & _ & _ & _ & Hn) Hst. destruct (Hn Hst) as [Hst0 [l Hl]]. destruct (Hk Hst0) as (i & x & k & Hi & Hx & Hxk). exists i, x, k.
  unfold Connection.findWaitQueueEntry in *. rewrite Hl. split; [by apply find_index_app|]. split; [by apply lookup_app_l_Some|done].
Qed.

Definition not_unregistered (c c' : Connection.t) : Prop := Connection.status c' = Connection.STATUS_ZOMBIE -> Connection.status c = Connection.STATUS_ZOMBIE.

(** a change of one connection *)
Lemma world_update w w' a c c' : world_ok w -> connections w !! a = Some c -> conn_ok c' -> not_unregistered c c' ->
  connections w' = <[a := c']> (connections w) -> mConnectionsByFd w' = mConnectionsByFd w -> world_ok w'.
Proof.
  intros [Hc Hr] Ha Hok Hz Ec Er. split; rewrite Ec.
  - intros b cb [[<- <-]|[_ Hb]]%lookup_insert_Some; eauto.
  - intros b Hb. rewrite Er in Hb. destruct (Hr b Hb) as (cb & Hcb & Hnz). destruct (decide (b = a)) as [->|Hne].
    { exists c'. rewrite lookup_insert_eq. split; [done|]. intros Hz'. rewrite Hcb in Ha. injection Ha as ->. auto. }
    exists cb. by rewrite lookup_insert_ne.
Qed.

Lemma world_same w w' : world_ok w -> connections w' = connections w -> mConnectionsByFd w' = mConnectionsByFd w -> world_ok w'.
Proof. intros [Hc Hr] Ec Er. split; [rewrite Ec; done|by rewrite Er, Ec]. Qed.

Lemma running_same w w' : running_ok w -> connections w' = connections w -> running w' = running w -> running_ok w'.
Proof. unfold running_ok. intros H -> ->. done. Qed.

Lemma inv_same w w' : inv w -> connections w' = connections w -> mConnectionsByFd w' = mConnectionsByFd w -> running w' = running w -> inv w'.
Proof. intros [Hw Hr] Ec Ef Er. split; [by eapply world_same|by eapply running_same]. Qed.

Lemma running_none w : running w = None -> running_ok w.
Proof. intros E. unfold running_ok. by rewrite E. Qed.

Lemma on_connection_world w a f w' : on_connection w a f = Some w' -> world_ok w ->
  (forall d c d' c', connections w !! a = Some c -> f d c = Some (d', c') -> conn_ok c -> conn_ok c' /\ not_unregistered c c') ->
  world_ok w' /\ running w' = running w.
Proof.
  unfold on_connection. intros E Hw Hf. destruct (connections w !! a) as [c|] eqn:Ec; simpl in E; [|done].
  destruct (f (shared w) c) as [[d' c']|] eqn:Ef; simpl in E; [|done]. injection E as <-.
  destruct (Hf _ _ _ _ eq_refl Ef) as [Hok Hs]; [by eapply world_conn|]. split; [by eapply (world_update w _ a c c')|done].
Qed.

Lemma on_connection_inv w a f w' : on_connection w a f = Some w' -> inv w ->
  (forall d c d' c', connections w !! a = Some c -> f d c = Some (d', c') -> conn_ok c -> conn_ok c' /\ same_identity c c') ->
  inv w' /\ running w' = running w /\ mConnectionsByFd w' = mConnectionsByFd w.
Proof.
  unfold on_connection. intros E [Hw Hr] Hf. destruct (connections w !! a) as [c|] eqn:Ec; simpl in E; [|done].
  destruct (f (shared w) c) as [[d' c']|] eqn:Ef; simpl in E; [|done]. injection E as <-.
  destruct (Hf _ _ _ _ eq_refl Ef) as [Hok Hs]; [by eapply world_conn|]. split; [|done]. split.
  - eapply (world_update w _ a c c'); try done. by destruct Hs as (_ & _ & _ & Hz & _).
  - intros b seq entry k fk i Erun. simpl in Erun. destruct (Hr _ _ _ _ _ _ Erun) as (cb & Hb & Hk). simpl. destruct (decide (b = a)) as [->|Hne].
    + exists c'. rewrite lookup_insert_eq. split; [done|]. rewrite Ec in Hb. injection Hb as <-. by eapply key_waits_evolves.
    + exists cb. by rewrite lookup_insert_ne.
Qed.

(** what changes nothing but the keys *)
Lemma conn_ok_state c s : InputState.mMotionMementos s = InputState.mMotionMementos (Connection.inputState c) -> InputState.mKeyMementos s = InputState.mKeyMementos (Connection.inputState c) ->
  conn_ok c -> conn_ok (c <| Connection.inputState := s |>).
Proof.
  intros Em Ek Hok. unfold conn_ok, tracked_ok, mergeable, distinct in *. simpl. rewrite Em, Ek. unfold view in *. by rewrite Em.
Qed.

Definition keeps_mementos (f : InputState.t -> InputState.t) : Prop :=
  forall s, InputState.mMotionMementos (f s) = InputState.mMotionMementos s /\ InputState.mKeyMementos (f s) = InputState.mKeyMementos s.

Lemma on_state_inv w a f w' : on_connection w a (on_state f) = Some w' -> inv w -> keeps_mementos f -> inv w' /\ running w' = running w /\ mConnectionsByFd w' = mConnectionsByFd w.
Proof.
  intros E Hw Hf. eapply on_connection_inv; [done..|]. intros d c d' c' _ Ef Hok. injection Ef as <- <-. destruct (Hf (Connection.inputState c)).
  split; [by apply conn_ok_state|by repeat split].
Qed.

(** ** Each operation *)

Lemma dispatch_targets_inv v entry e targets : forall w w', dispatch_targets w v entry e targets = Some w' -> inv w -> event_ok e -> Forall (fun t => target_ok t.2) targets -> inv w'.
Proof.
  induction targets as [|[token target] targets IH]; intros w w' E Hw He Ht; simpl in E; [by injection E as <-|]. apply Forall_cons in Ht as [Ht Hts].
  destruct (getConnectionLocked w token) as [a|]; [|by eapply IH].
  destruct (on_connection w a _) as [w1|] eqn:E1; simpl in E; [|done]. eapply IH; [exact E| |done|done].
  eapply on_connection_inv; [done..|]. intros d c d' c' _ Ef Hok. eapply prepare_ok; [exact Ef|done|done|exact Ht].
Qed.

Lemma cancel_connection_inv w v options a w' : cancel_connection w v options a = Some w' -> inv w -> inv w' /\ running w' = running w /\ mConnectionsByFd w' = mConnectionsByFd w.
Proof. intros E Hw. eapply on_connection_inv; [done..|]. intros d c d' c' _ Ef Hok. eapply cancel_conn_ok; [exact Ef|done]. Qed.

Lemma cancel_connections_inv v options addresses : forall w w', cancel_connections w v options addresses = Some w' -> inv w -> inv w'.
Proof.
  induction addresses as [|a addresses IH]; intros w w' E Hw; simpl in E; [by injection E as <-|].
  destruct (cancel_connection w v options a) as [w1|] eqn:E1; simpl in E; [|done]. eapply IH; [exact E|]. by eapply cancel_connection_inv.
Qed.

Lemma cancel_channel_inv w v options token w' : synthesizeCancelationEventsForInputChannelLocked w v options token = Some w' -> inv w -> inv w'.
Proof. unfold synthesizeCancelationEventsForInputChannelLocked. destruct (getConnectionLocked w token); [|by intros [= <-]]. intros. by eapply cancel_connection_inv. Qed.

Lemma cancel_channels_inv v options tokens : forall w w', cancel_channels w v options tokens = Some w' -> inv w -> inv w'.
Proof.
  induction tokens as [|token tokens IH]; intros w w' E Hw; simpl in E; [by injection E as <-|].
  destruct (synthesizeCancelationEventsForInputChannelLocked w v options token) as [w1|] eqn:E1; simpl in E; [|done]. eapply IH; [exact E|]. by eapply cancel_channel_inv.
Qed.

Lemma receive_signals_inv now a signals : forall w w', receive_signals w now a signals = Some w' -> inv w -> inv w'.
Proof.
  induction signals as [|[seq handled] signals IH]; intros w w' E Hw; simpl in E; [by injection E as <-|].
  destruct (finishDispatchCycleLocked w now a seq handled) as [w1|] eqn:E1; simpl in E; [|done]. eapply IH; [exact E|].
  unfold finishDispatchCycleLocked in E1. destruct (connections w !! a); simpl in E1; [|done]. case_bool_decide; injection E1 as <-; [done|]. by eapply inv_same.
Qed.

End System.
