(* ===== verification/InputSystemInvariant.v ===== *)
(** * The invariant of the input dispatcher

    Every call keeps the streams of all connections consistent. *)

From S2P Require Import Prelude PointerCoords InputEvents InputState InputProtocol InputConnection InputStreams InputCancel InputTransfer InputOperations InputDispatcher InputSystem.

(** the first operation of a sequence that succeeds *)
Ltac first_step E x H := match type of E with (?o ≫= _) = _ => destruct o as [x|] eqn:H; simpl in E; [|done] end.

Section Invariant.
Context `{B32 : BitSet32.ops} `{B64 : BitSet64.ops}.

Import InputDispatcher.

(** ** Finishing *)

(** an entry that is put back into the queue is a key *)
Lemma dequeue_finished_ok currentTime restart i e d c : conn_ok c -> (restart = true -> entry_view e = None) ->
  let r := dequeue_finished currentTime restart i e d c in conn_ok r.2 /\ not_unregistered c r.2.
Proof.
  intros Hok Hr. unfold dequeue_finished.
  assert (Hfront : forall c', conn_ok c' -> restart = true -> conn_ok (c' <| Connection.outboundQueue := e :: Connection.outboundQueue c' |>)).
  { intros c' Hok' Er. unfold conn_ok in *. simpl. destruct (Connection.status c'); [|done|done]. destruct Hok' as [Htr Hobs]. split; [done|].
    unfold history, sent in *. simpl. rewrite (Hr Er), !observe_all_app in *. destruct (observe_all stream_empty (map message_view (Connection.channel c'))); done. }
  set (c2 := if Connection.responsive _ then _ else _).
  assert (Hok2 : conn_ok c2 /\ Connection.status c2 = Connection.status c) by (unfold c2; simpl; destruct (Connection.responsive c); done).
  destruct Hok2 as [Hok2 Hst2]. unfold not_unregistered. cbv zeta. destruct (restart && bool_decide (Connection.status c2 = Connection.STATUS_NORMAL)) eqn:E; simpl; rewrite Hst2; (split; [|done]).
  - apply andb_true_iff in E as [Er _]. by apply Hfront.
  - done.
Qed.

Lemma finish_event_world w v a seq restart w' : finish_event w v a seq restart = Some w' -> world_ok w ->
  (restart = true -> forall c, connections w !! a = Some c -> key_waits seq c) -> world_ok w' /\ running w' = running w.
Proof.
  intros E Hw Hr. eapply on_connection_world; [exact E|done|]. intros d c d' c' Hc Ef Hok. simpl in Ef.
  set (r := match Connection.findWaitQueueEntry c seq with Some i => _ | None => _ end) in Ef.
  enough (Hr2 : conn_ok r.2 /\ not_unregistered c r.2).
  { destruct Hr2 as [Hok2 Hn2]. destruct (start_cycle_ok _ _ _ _ _ _ Ef Hok2) as [Hok3 (_ & _ & _ & Hz & _)]. split; [done|]. unfold not_unregistered in *. auto. }
  unfold r. destruct (Connection.findWaitQueueEntry c seq) as [i|] eqn:Ei; [|split; [exact Hok|exact (fun H => H)]].
  destruct (Connection.waitQueue c !! i) as [e|] eqn:Ee; [|split; [exact Hok|exact (fun H => H)]].
  destruct (decide (Connection.status c = Connection.STATUS_NORMAL)) as [Hst|Hst].
  - apply dequeue_finished_ok; [done|]. intros ->. destruct (Hr eq_refl c Hc Hst) as (i' & x & k & Hi & Hx & Hk). simplify_eq. unfold entry_view. by rewrite Hk.
  - assert (Eq : dequeue_finished (now v) restart i e d c = dequeue_finished (now v) false i e d c).
    { unfold dequeue_finished. destruct restart; [|done]. simpl. destruct (Connection.responsive c); simpl; by rewrite bool_decide_false. }
    rewrite Eq. by apply dequeue_finished_ok.
Qed.

Lemma finish_event_inv w v a seq w' : finish_event w v a seq false = Some w' -> inv w -> running w = None -> inv w'.
Proof. intros E [Hw _] Hr. destruct (finish_event_world _ _ _ _ _ _ E Hw) as [Hw' Hr']; [done|]. split; [done|]. apply running_none. congruence. Qed.

Lemma removeFallbackKey_keeps k : keeps_mementos (fun s => InputState.removeFallbackKey s k).
Proof. done. Qed.

Lemma setFallbackKey_keeps k f : keeps_mementos (fun s => InputState.setFallbackKey s k f).
Proof. done. Qed.

(** a condition before an operation that keeps the invariant *)
Lemma when_inv (b : bool) w op w' : (if b then op else Some w) = Some w' -> inv w ->
  (forall w1, op = Some w1 -> inv w1 /\ running w1 = running w /\ mConnectionsByFd w1 = mConnectionsByFd w) -> inv w' /\ running w' = running w.
Proof. destruct b; intros E Hw Hop; [|by injection E as <-]. destruct (Hop _ E) as (? & ? & ?). done. Qed.

Definition key_waits_at (w : t) (a seq : Z) : Prop := exists c, connections w !! a = Some c /\ key_waits seq c.

Lemma on_state_waits w a f w' seq : on_connection w a (on_state f) = Some w' -> key_waits_at w a seq -> key_waits_at w' a seq.
Proof.
  unfold on_connection, key_waits_at. destruct (connections w !! a) as [c|] eqn:Ec; simpl; [|done]. intros [= <-] (c0 & [= <-] & Hk). simpl.
  eexists. rewrite lookup_insert_eq. split; [done|exact Hk].
Qed.

Lemma when_waits (b : bool) w a f w' seq : (if b then on_connection w a (on_state f) else Some w) = Some w' -> key_waits_at w a seq -> key_waits_at w' a seq.
Proof. destruct b; [apply on_state_waits|]. by intros [= <-]. Qed.

Lemma after_key_inv w v a x k handled w' : after_key w v a x k handled = Some w' -> inv w -> running w = None -> key_waits_at w a (DispatchEntry.seq x) -> inv w'.
Proof.
  intros E Hw Hr Hk. unfold after_key in E. destruct (has _ _); [by eapply finish_event_inv|]. destruct (connections w !! a) as [c|] eqn:Ec; simpl in E; [|done].
  first_step E w1 E1. pose proof (when_waits _ _ _ _ _ _ E1 Hk) as Hk1.
  destruct (when_inv _ _ _ _ E1 Hw) as [Hw1 Hr1]; [intros w2 E2; by eapply on_state_inv; [exact E2|done|apply removeFallbackKey_keeps]|].
  rewrite Hr in Hr1. destruct Hw1 as [Hw1 Hrok1]. destruct (_ || _).
  - destruct (negb _); [|by eapply finish_event_inv]. injection E as <-. split; [by eapply world_same|]. by intros ?????? [=].
  - destruct (_ && _); [by eapply finish_event_inv|]. injection E as <-. split; [by eapply world_same|]. intros ?????? [= <- <- _ _ _ _]. exact Hk1.
Qed.

Lemma finished_inv w v a seq handled w' : doDispatchCycleFinishedLockedInterruptible w v a seq handled = Some w' -> inv w -> running w = None -> inv w'.
Proof.
  intros E Hw Hr. unfold doDispatchCycleFinishedLockedInterruptible in E. destruct (connections w !! a) as [c|] eqn:Ec; simpl in E; [|done].
  destruct (Connection.findWaitQueueEntry c seq) as [i|] eqn:Ei; simpl in E; [|by injection E as <-].
  destruct (Connection.waitQueue c !! i) as [x|] eqn:Ex; simpl in E; [|by injection E as <-].
  destruct (DispatchEntry.eventEntry x) as [k| | | |] eqn:Ek; try (by eapply finish_event_inv).
  eapply after_key_inv; [exact E|done|done|]. exists c. split; [done|]. intros _. exists i, x, k. split; [|done].
  apply find_index_Some in Ei as Hs. destruct Hs as (y & Hy & Hs). rewrite Ex in Hy. injection Hy as <-. apply Z.eqb_eq in Hs. by rewrite Hs.
Qed.

(** ** The policy's answers *)

Lemma fallback_canceled_inv w v a seq o f w' : fallback_canceled w v a seq o f = Some w' -> inv w -> running w = None -> inv w'.
Proof.
  intros E Hw Hr. unfold fallback_canceled in E. first_step E w1 E1.
  destruct (when_inv _ _ _ _ E1 Hw) as [Hw1 Hr1]; [intros w2 E2; by eapply cancel_connection_inv|].
  destruct (on_connection w1 a _) as [w2|] eqn:E2; simpl in E; [|done]. destruct (on_state_inv _ _ _ _ E2 Hw1 (removeFallbackKey_keeps _)) as (Hw2 & Hr2 & _).
  eapply finish_event_inv; [done..|congruence].
Qed.

Lemma set_event_view entry k x : entry_view (set_event entry k x) = entry_view x.
Proof. unfold set_event. destruct (DispatchEntry.eventEntry x) eqn:E; try done. destruct (_ =? _); [|done]. unfold entry_view. simpl. by rewrite E. Qed.

Lemma set_event_seq entry k x : DispatchEntry.seq (set_event entry k x) = DispatchEntry.seq x.
Proof. unfold set_event. destruct (DispatchEntry.eventEntry x); try done. by destruct (_ =? _). Qed.

Lemma set_events_ok entry k c : conn_ok c -> conn_ok (set_events entry k c).
Proof.
  unfold conn_ok, history, sent. simpl. assert (E : map entry_view (map (set_event entry k) (Connection.outboundQueue c)) = map entry_view (Connection.outboundQueue c)).
  { rewrite map_map. apply map_ext. intros x. apply set_event_view. }
  by rewrite E.
Qed.

Lemma find_index_map {A B} (f : B -> bool) (g : A -> B) l : InputState.find_index f (map g l) = InputState.find_index (fun x => f (g x)) l.
Proof. induction l as [|x l IH]; simpl; [done|]. by rewrite IH. Qed.

Lemma find_index_ext {A} (f g : A -> bool) l : (forall x, f x = g x) -> InputState.find_index f l = InputState.find_index g l.
Proof. intros E. induction l as [|x l IH]; simpl; [done|]. by rewrite E, IH. Qed.

Lemma set_events_waits entry k seq c : key_waits seq c -> key_waits seq (set_events entry k c).
Proof.
  intros Hk Hst. destruct (Hk Hst) as (i & x & kx & Hi & Hx & Hkx). unfold Connection.findWaitQueueEntry in *. simpl. exists i, (set_event entry k x).
  rewrite find_index_map, (find_index_ext _ (fun e => DispatchEntry.seq e =? seq)), Hi by (intros; by rewrite set_event_seq).
  change (map (set_event entry k) (Connection.waitQueue c)) with (set_event entry k <$> Connection.waitQueue c). rewrite list_lookup_fmap, Hx.
  unfold set_event. simpl. rewrite Hkx. destruct (_ =? _); eexists; (split; [done|]); (split; [done|]); [done|exact Hkx].
Qed.

Lemma set_events_world w entry k : world_ok w -> world_ok (w <| connections := set_events entry k <$> connections w |>).
Proof.
  intros [Hc Hr]. split; simpl.
  - intros a c E. rewrite lookup_fmap in E. destruct (connections w !! a) as [c0|] eqn:Ec; [|done]. injection E as <-. apply set_events_ok. by eapply Hc.
  - intros a Ha. destruct (Hr a Ha) as (c & Ec & Hz). exists (set_events entry k c). by rewrite lookup_fmap, Ec.
Qed.

Lemma fallback_chosen_inv w v a seq entry k f i event w' : fallback_chosen w v a seq entry k f i event = Some w' -> inv w -> running w = None ->
  key_waits_at w a seq -> inv w'.
Proof.
  intros E Hw Hr Hk. unfold fallback_chosen in E. destruct (connections w !! a) as [c|] eqn:Ec; simpl in E; [|done]. destruct (negb _).
  { destruct (on_connection w a _) as [w2|] eqn:E2; simpl in E; [|done]. destruct (on_state_inv _ _ _ _ E2 Hw (removeFallbackKey_keeps _)) as (Hw2 & Hr2 & _).
    eapply finish_event_inv; [done..|congruence]. }
  first_step E w1 E1.
  destruct (when_inv _ _ _ _ E1 Hw) as [Hw1 Hr1]; [intros w2 E2; by eapply on_state_inv; [exact E2|done|apply setFallbackKey_keeps]|].
  pose proof (when_waits _ _ _ _ _ _ E1 Hk) as (c1 & Hc1 & Hk1).
  destruct (_ && _).
  - destruct (cancel_fallback _ _ _ _) as [w2|] eqn:E2; simpl in E; [|done]. destruct (cancel_connection_inv _ _ _ _ _ E2 Hw1) as (Hw2 & Hr2 & _).
    first_step E w3 E3.
    destruct (when_inv _ _ _ _ E3 Hw2) as [Hw3 Hr3]; [intros w4 E4; by eapply on_state_inv; [exact E4|done|apply setFallbackKey_keeps]|]. eapply finish_event_inv; [done..|congruence].
  - destruct event as [e|]; [|eapply finish_event_inv; [done..|congruence]].
    apply finish_event_world in E as [Hw' Hr'].
    + split; [done|]. apply running_none. simpl in Hr'. congruence.
    + apply set_events_world, Hw1.
    + intros _ c2 Hc2. simpl in Hc2. rewrite lookup_fmap, Hc1 in Hc2. injection Hc2 as <-. by apply set_events_waits.
Qed.

(** ** Applications that do not respond *)

Lemma anrs_inv w currentTime z w' : processAnrsLocked w currentTime = Some (z, w') -> inv w -> inv w'.
Proof.
  assert (Hconn : forall n, process_connection_anrs w currentTime n = Some (z, w') -> inv w -> inv w').
  { intros n E Hw. unfold process_connection_anrs in E. destruct (_ <? _); [by injection E as _ <-|]. destruct (AnrTracker.firstToken _); simpl in E; [|done].
    destruct (getConnectionLocked w _) as [a|]; [|by injection E as _ <-]. first_step E w1 E1. injection E as _ <-.
    eapply on_connection_inv; [exact E1|done|]. intros d c d' c' _ Ef Hok. injection Ef as _ <-. split; [exact Hok|by repeat split]. }
  intros E Hw. unfold processAnrsLocked in E. destruct (Dispatcher.mNoFocusedWindowTimeoutTime (shared w)), (Dispatcher.mAwaitedFocusedApplication (shared w)); try (by eapply Hconn).
  destruct (_ <=? _); [|by eapply Hconn]. destruct (processNoFocusedWindowAnrLocked _ _); simpl in E; [|done]. injection E as _ <-. by eapply inv_same.
Qed.

Lemma extend_inv w currentTime app token x w' : extendAnrTimeoutsLocked w currentTime app token x = Some w' -> inv w -> running w = None -> inv w'.
Proof.
  intros E [Hw _] Hr. unfold extendAnrTimeoutsLocked in E. set (w1 := match token, app with None, Some _ => _ | _, _ => _ end) in E.
  assert (Hw1 : world_ok w1 /\ running w1 = None) by (unfold w1; destruct token, app; try done; split; [by eapply world_same|done]). destruct Hw1 as [Hw1 Hr1].
  match type of E with match ?o with _ => _ end = _ => destruct o as [a|] end; [|injection E as <-; split; [done|by apply running_none]].
  destruct (on_connection_world _ _ _ _ E Hw1) as [Hw2 Hr2]; [|split; [done|apply running_none; congruence]].
  intros d c d' c' _ Ef Hok. injection Ef as _ <-. split; [exact Hok|exact (fun H => H)].
Qed.

Lemma anr_answered_inv w v app token x w' : anr_answered w v app token x = Some w' -> inv w -> running w = None -> inv w'.
Proof.
  intros E Hw Hr. unfold anr_answered in E. destruct (0 <? x); [by eapply extend_inv|].
  match type of E with match ?o with _ => _ end = _ => destruct o as [a|] end; [|by injection E as <-].
  unfold cancelEventsForAnrLocked in E. destruct (connections w !! a); simpl in E; [|done]. case_bool_decide; [|by injection E as <-]. by eapply cancel_connection_inv.
Qed.

Lemma run_command_inv w v w' : run_command w v = Some w' -> inv w -> running w = None -> inv w'.
Proof.
  intros E Hw Hr. unfold run_command in E. destruct (Dispatcher.mCommandQueue (shared w)) as [|command rest]; [done|].
  set (w1 := w <| shared := _ |>) in E. assert (Hw1 : inv w1) by (by eapply inv_same).
  destruct command; try (by injection E as <-); [by eapply finished_inv|..]; (injection E as <-; split; [eapply world_same; [apply Hw1|done..]|]; by intros ?????? [=]).
Qed.

Lemma resume_inv w v r ans w' : resume w v r ans = Some w' -> running w = Some r -> inv w -> inv w'.
Proof.
  intros E Hr [Hw Hrun]. unfold resume in E. set (w1 := w <| running := None |>) in E.
  assert (Hw1 : inv w1) by (split; [by eapply world_same|by apply running_none]).
  destruct r as [a seq o f|a seq entry k f i|app token|entry]; [by eapply fallback_canceled_inv| |by eapply anr_answered_inv|by injection E as <-].
  eapply fallback_chosen_inv; [exact E|done|done|]. exact (Hrun _ _ _ _ _ _ Hr).
Qed.

(** ** Channels *)

Lemma elem_of_assign {A} key (value : A) l x : x ∈ map snd (assign key value l) -> x = value \/ x ∈ map snd l.
Proof.
  induction l as [|[k v] l IH]; simpl; [rewrite list_elem_of_singleton; auto|]. destruct (k =? key); simpl; rewrite !elem_of_cons; [tauto|]. intros [->|H]; [auto|]. destruct (IH H); auto.
Qed.

Lemma new_connection_ok a channel monitor : conn_ok (Connection.new a channel monitor).
Proof. split; [split; [split; constructor|constructor]|]. simpl. f_equal. Qed.

Lemma add_connection_inv w a channel monitor : inv w -> connections w !! a = None -> inv (add_connection w a channel monitor).
Proof.
  intros [[Hc Hr] Hrun] Ha. split; [split|]; simpl.
  - intros b c [[<- <-]|[_ Hb]]%lookup_insert_Some; [apply new_connection_ok|by eapply Hc].
  - intros b Hb. apply elem_of_assign in Hb as [->|Hb]; [eexists; by rewrite lookup_insert_eq|]. destruct (Hr b Hb) as (c & Ec & Hz). exists c.
    rewrite lookup_insert_ne; [done|]. congruence.
  - intros b seq entry k f i E. destruct (Hrun _ _ _ _ _ _ E) as (c & Ec & Hk). exists c. simpl. rewrite lookup_insert_ne; [done|]. congruence.
Qed.

Lemma getConnectionLocked_Some w token a : getConnectionLocked w token = Some a ->
  a ∈ map snd (mConnectionsByFd w) /\ exists c, connections w !! a = Some c /\ Connection.token c = token.
Proof.
  unfold getConnectionLocked. destruct (token =? 0); [done|]. intros E. destruct (filter _ _) as [|b l] eqn:Ef; [done|]. injection E as ->.
  assert (Ha : a ∈ a :: l) by set_solver. rewrite <- Ef in Ha. apply list_elem_of_filter in Ha as [Ht Ha]. split; [done|].
  destruct (connections w !! a) as [c|]; [|done]. injection Ht as Ht. eauto.
Qed.

Lemma unregister_inv w channel notify r : unregisterInputChannelLocked w channel notify = Some r -> inv w -> inv r.2.
Proof.
  intros E [[Hc Hr] Hrun]. unfold unregisterInputChannelLocked in E. destruct (getConnectionLocked w _) as [a|] eqn:Ea; [|by injection E as <-].
  apply getConnectionLocked_Some in Ea as (Hin & c & Ec & _). rewrite Ec in E. simpl in E. set (w1 := if Connection.monitor c then _ else _) in E.
  assert (Hw1 : connections w1 = connections w /\ running w1 = running w /\ mConnectionsByFd w1 = filter (fun fa => fa.2 <> a) (mConnectionsByFd w)).
  { unfold w1. by destruct (Connection.monitor c). }
  destruct Hw1 as (Ec1 & Er1 & Ef1). unfold on_connection in E. rewrite Ec1, Ec in E. simpl in E. injection E as <-. simpl.
  set (c' := _ <| Connection.status := Connection.STATUS_ZOMBIE |>).
  assert (Hok : conn_ok c').
  { destruct (abort_ok (shared w1) c notify (Hc a c Ec)) as (Hok & _ & _ & Hch). apply conn_ok_sent in Hok. exact Hok. }
  split; [split|]; simpl; rewrite ?Ec1.
  - intros b cb [[<- <-]|[_ Hb]]%lookup_insert_Some; [done|by eapply Hc].
  - rewrite Ef1. intros b (fb & Hb & ->)%elem_of_map. apply list_elem_of_filter in Hb as [Hne Hb]. destruct (Hr fb.2) as (cb & Ecb & Hz); [apply elem_of_map; eauto|].
    exists cb. by rewrite lookup_insert_ne.
  - intros b seq entry k f i E. simpl in E. rewrite Er1 in E. destruct (Hrun _ _ _ _ _ _ E) as (cb & Ecb & Hk). cbn [connections with_field set_connections set_shared]. destruct (decide (b = a)) as [->|Hne].
    + exists c'. rewrite lookup_insert_eq. split; [done|]. intros Hst. done.
    + exists cb. by rewrite lookup_insert_ne.
Qed.

End Invariant.
