(* ===== verification/InputTouchInvariant.v ===== *)
(** * Touches in the input dispatcher

    Sending, canceling and answering events change neither the windows a touch goes to nor
    the channels; every call keeps the touches well formed, and the targets that are found
    for a motion event keep the streams of events consistent. *)

From S2P Require Import Prelude PointerCoords InputEvents InputSplit InputState InputProtocol InputConnection InputStreams InputCancel InputTransfer InputOperations InputDispatcher InputTargets InputTouch InputSystem InputSystemInvariant.

Import InputDispatcher.

Section Frame.
Context `{B32 : BitSet32.ops} `{B64 : BitSet64.ops}.

(** what sending, canceling and answering events leave alone: the touches, the windows and
    the results of injections *)
Definition touches (d : Dispatcher.t) := (Dispatcher.mTouchStatesByDisplay d, Dispatcher.injectionResults d, Dispatcher.handles d, Dispatcher.mWindowHandlesByDisplay d).

(** ** One connection *)

Lemma add_pending_touches d e n : touches (Dispatcher.add_pending d e n) = touches d.
Proof. unfold Dispatcher.add_pending. by destruct (injectionState e). Qed.

Lemma outside_focus_touches d source action token : touches (Dispatcher.dispatchPointerDownOutsideFocus d source action token) = touches d.
Proof. unfold Dispatcher.dispatchPointerDownOutsideFocus. by repeat case_match. Qed.

Lemma push_back_touches d c x : touches (push_back d c x).1 = touches d.
Proof. unfold push_back. simpl. destruct (DispatchEntry.hasForegroundTarget x); [apply add_pending_touches|done]. Qed.

Lemma enqueue_touches d c entry na e target mode newId d' c' : enqueueDispatchEntryLocked d c entry na e target mode newId = Some (d', c') -> touches d' = touches d.
Proof.
  unfold enqueueDispatchEntryLocked. intros E. destruct (negb _); [by injection E as <- <-|]. destruct (createDispatchEntry _ _ _ _ _ _) as [x|]; simpl in E; [|done].
  destruct (DispatchEntry.eventEntry x) as [k|m| | |]; try done; apply (inj Some) in E; apply (f_equal fst) in E; change (fst (d', c')) with d' in E; subst d'.
  - unfold enqueue_key. destruct (InputState.trackKey _ _ _ _) as [[] s]; cbn [fst snd]; [|done]. etrans; [apply push_back_touches|done].
  - unfold enqueue_motion. destruct (InputState.trackMotion _ _ _ _) as [[] s]; cbn [fst snd]; [|done]. etrans; [apply push_back_touches|]. etrans; [apply outside_focus_touches|done].
  - etrans; [apply push_back_touches|done].
Qed.

Lemma release_touches d x : touches (releaseDispatchEntry d x) = touches d.
Proof. unfold releaseDispatchEntry. destruct (DispatchEntry.hasForegroundTarget x); [apply add_pending_touches|done]. Qed.

Lemma drain_touches queue : forall d, touches (drainDispatchQueue d queue) = touches d.
Proof. induction queue as [|x queue IH]; intros d; [done|]. etrans; [apply IH|apply release_touches]. Qed.

Lemma abort_touches d c notify : touches (abortBrokenDispatchCycleLocked d c notify).1 = touches d.
Proof.
  unfold abortBrokenDispatchCycleLocked. case_bool_decide; cbn [fst]; [destruct notify|]; cbn [fst];
    (etrans; [|apply drain_touches]); (etrans; [|apply drain_touches]); reflexivity.
Qed.

Lemma dispatch_first_touches d c currentTime r x rest b d' c' : dispatch_first d c currentTime r x rest = Some (b, d', c') -> touches d' = touches d.
Proof.
  unfold dispatch_first. intros E. destruct (publish _ _ _ _) as [[st ch]|]; cbn [mbind option_bind fst snd] in E; [|done]. destruct (negb _).
  - destruct (st =? WOULD_BLOCK).
    + simpl in E. destruct (Connection.waitQueue c); injection E as <- <- <-; [apply abort_touches|done].
    + injection E as <- <- <-. apply abort_touches.
  - simpl in E. injection E as <- <- <-. by destruct (Connection.responsive c).
Qed.

Lemma dispatch_loop_touches fuel currentTime send : forall d c d' c', dispatch_loop fuel d c currentTime send = Some (d', c') -> touches d' = touches d.
Proof.
  induction fuel as [|fuel IH]; intros d c d' c' E; cbn [dispatch_loop] in E; [by injection E as <- <-|]. destruct (negb _); [by injection E as <- <-|].
  destruct (Connection.outboundQueue c) as [|x rest]; [by injection E as <- <-|]. destruct (dispatch_first _ _ _ _ _ _) as [[[[] d1] c1]|] eqn:E1; cbn [mbind option_bind] in E; [| |done].
  - etrans; [by eapply IH|by eapply dispatch_first_touches].
  - injection E as <- <-. by eapply dispatch_first_touches.
Qed.

Lemma start_touches d c currentTime send d' c' : startDispatchCycleLocked d c currentTime send = Some (d', c') -> touches d' = touches d.
Proof. apply dispatch_loop_touches. Qed.

Lemma enqueue_modes_touches entry e target new modes : forall d c d' c', enqueue_modes d c entry e target new modes = Some (d', c') -> touches d' = touches d.
Proof.
  induction modes as [|mode modes IH]; intros d c d' c' E; simpl in E; [by injection E as <- <-|].
  destruct (enqueueDispatchEntryLocked _ _ _ _ _ _ _ _) as [[d1 c1]|] eqn:E1; simpl in E; [|done]. etrans; [by eapply IH|by eapply enqueue_touches].
Qed.

Lemma entries_touches d c currentTime entry e target new send d' c' : enqueueDispatchEntriesLocked d c currentTime entry e target new send = Some (d', c') -> touches d' = touches d.
Proof.
  unfold enqueueDispatchEntriesLocked. intros E. destruct (enqueue_modes _ _ _ _ _ _ _) as [[d1 c1]|] eqn:E1; simpl in E; [|done]. apply enqueue_modes_touches in E1.
  destruct (_ && _); [|by injection E as <- <-]. etrans; [by eapply start_touches|done].
Qed.

Lemma prepare_touches d c currentTime entry e target new send d' c' : prepareDispatchCycleLocked d c currentTime entry e target new send = Some (d', c') -> touches d' = touches d.
Proof.
  unfold prepareDispatchCycleLocked. intros E. destruct (negb _); [by injection E as <- <-|]. destruct (has _ _); [|by eapply entries_touches].
  destruct e as [|m| | |]; try done. destruct (_ =? _); [by eapply entries_touches|].
  destruct (splitMotionEvent _ _ _) as [[m'|]|]; simpl in E; [by eapply entries_touches|by injection E as <- <-|done].
Qed.

Lemma enqueue_all_touches target new es : forall d c i d' c', enqueue_all d c target new i es = Some (d', c') -> touches d' = touches d.
Proof.
  induction es as [|e es IH]; intros d c i d' c' E; simpl in E; [by injection E as <- <-|].
  destruct (enqueueDispatchEntryLocked _ _ _ _ _ _ _ _) as [[d1 c1]|] eqn:E1; simpl in E; [|done]. etrans; [by eapply IH|by eapply enqueue_touches].
Qed.

Lemma cancel_touches d c currentTime options nextId new send d' c' :
  synthesizeCancelationEventsForConnectionLocked d c currentTime options nextId new send = Some (d', c') -> touches d' = touches d.
Proof.
  unfold synthesizeCancelationEventsForConnectionLocked. intros E. case_bool_decide; [by injection E as <- <-|].
  destruct (InputState.synthesizeCancelationEvents _ _ _ _); [by injection E as <- <-|]. destruct (enqueue_all _ _ _ _ _ _) as [[d1 c1]|] eqn:E1; cbn [mbind option_bind] in E; [|done].
  etrans; [by eapply start_touches|]. by eapply enqueue_all_touches in E1.
Qed.

Lemma down_touches d c currentTime nextId new send d' c' : synthesizePointerDownEventsForConnectionLocked d c currentTime nextId new send = Some (d', c') -> touches d' = touches d.
Proof.
  unfold synthesizePointerDownEventsForConnectionLocked. intros E. case_bool_decide; [by injection E as <- <-|].
  destruct (InputState.synthesizePointerDownEvents _ _ _) as [[|e es] s]; cbn [fst snd] in E; [by injection E as <- <-|].
  destruct (enqueue_all _ _ _ _ _ _) as [[d1 c1]|] eqn:E1; cbn [mbind option_bind] in E; [|done].
  etrans; [by eapply start_touches|]. by eapply enqueue_all_touches in E1.
Qed.

(** ** All connections *)

Definition same_touches (w w' : t) : Prop := touches (shared w') = touches (shared w) /\ mInputChannelsByToken w' = mInputChannelsByToken w.

#[global] Instance same_touches_preorder : PreOrder same_touches.
Proof. split; [by intros w|]. intros w1 w2 w3 [E1 E2] [E3 E4]. split; congruence. Qed.

(** the state of the connection, the shared state or the thread changes *)
Lemma same_touches_intro w w' : touches (shared w') = touches (shared w) -> mInputChannelsByToken w' = mInputChannelsByToken w -> same_touches w w'.
Proof. done. Qed.

Lemma on_connection_touches w a f w' : on_connection w a f = Some w' -> (forall d c d' c', f d c = Some (d', c') -> touches d' = touches d) -> same_touches w w'.
Proof.
  unfold on_connection. intros E Hf. destruct (connections w !! a) as [c|]; simpl in E; [|done]. destruct (f (shared w) c) as [[d' c']|] eqn:Ef; simpl in E; [|done].
  injection E as <-. split; [|done]. by eapply Hf.
Qed.

Lemma on_state_touches w a f w' : on_connection w a (on_state f) = Some w' -> same_touches w w'.
Proof. intros E. eapply on_connection_touches; [exact E|]. by intros d c d' c' [= <- <-]. Qed.

Lemma poke_touches d e d' : pokeUserActivityLocked d e = Some d' -> touches d' = touches d.
Proof. unfold pokeUserActivityLocked. intros E. destruct e; repeat case_match; simplify_eq; done. Qed.

Lemma dispatch_targets_touches v entry e ts : forall w w', dispatch_targets w v entry e ts = Some w' -> same_touches w w'.
Proof.
  induction ts as [|[token target] ts IH]; intros w w' E; cbn [dispatch_targets] in E; [by injection E as <-|]. destruct (getConnectionLocked w token) as [a|]; [|by apply IH].
  destruct (on_connection w a _) as [w1|] eqn:E1; cbn [mbind option_bind] in E; [|done]. etrans; [|by apply IH]. eapply on_connection_touches; [exact E1|]. intros d c d' c'. apply prepare_touches.
Qed.

Lemma dispatchEvent_touches w v entry e ts w' : dispatchEventLocked w v entry e ts = Some w' -> same_touches w w'.
Proof.
  unfold dispatchEventLocked. intros E. destruct (pokeUserActivityLocked _ _) as [d|] eqn:Ed; cbn [mbind option_bind] in E; [|done].
  apply poke_touches in Ed. etrans; [|by eapply dispatch_targets_touches]. by split.
Qed.

Lemma cancel_connection_touches w v options a w' : cancel_connection w v options a = Some w' -> same_touches w w'.
Proof. intros E. eapply on_connection_touches; [exact E|]. intros d c d' c'. apply cancel_touches. Qed.

Lemma cancel_connections_touches v options l : forall w w', cancel_connections w v options l = Some w' -> same_touches w w'.
Proof.
  induction l as [|a l IH]; intros w w' E; simpl in E; [by injection E as <-|]. destruct (cancel_connection w v options a) as [w1|] eqn:E1; simpl in E; [|done].
  etrans; [by eapply cancel_connection_touches|by apply IH].
Qed.

Lemma cancel_channel_touches w v options token w' : synthesizeCancelationEventsForInputChannelLocked w v options token = Some w' -> same_touches w w'.
Proof. unfold synthesizeCancelationEventsForInputChannelLocked. destruct (getConnectionLocked w token); [apply cancel_connection_touches|by intros [= <-]]. Qed.

Lemma cancel_channels_touches v options l : forall w w', cancel_channels w v options l = Some w' -> same_touches w w'.
Proof.
  induction l as [|a l IH]; intros w w' E; simpl in E; [by injection E as <-|]. destruct (synthesizeCancelationEventsForInputChannelLocked w v options a) as [w1|] eqn:E1; simpl in E; [|done].
  etrans; [by eapply cancel_channel_touches|by apply IH].
Qed.

Lemma cancel_monitors_touches w v options w' : synthesizeCancelationEventsForMonitorsLocked w v options = Some w' -> same_touches w w'.
Proof.
  unfold synthesizeCancelationEventsForMonitorsLocked. intros E. destruct (cancel_channels _ _ _ _) as [w1|] eqn:E1; simpl in E; [|done].
  etrans; [by eapply cancel_channels_touches|by eapply cancel_channels_touches].
Qed.

Lemma finish_event_touches w v a seq restart w' : finish_event w v a seq restart = Some w' -> same_touches w w'.
Proof.
  intros E. eapply on_connection_touches; [exact E|]. intros d c d' c' Ef. cbv beta zeta in Ef. etrans; [by eapply start_touches|].
  destruct (Connection.findWaitQueueEntry c seq) as [i|]; [|done]. destruct (Connection.waitQueue c !! i) as [e|]; [|done]. unfold dequeue_finished. destruct (_ && _); cbn [fst snd]; [done|]. etrans; [apply release_touches|done].
Qed.

Lemma receive_signals_touches now a l : forall w w', receive_signals w now a l = Some w' -> same_touches w w'.
Proof.
  induction l as [|[seq handled] l IH]; intros w w' E; simpl in E; [by injection E as <-|].
  destruct (finishDispatchCycleLocked w now a seq handled) as [w1|] eqn:E1; simpl in E; [|done]. etrans; [|by apply IH].
  unfold finishDispatchCycleLocked in E1. destruct (connections w !! a); simpl in E1; [|done]. case_bool_decide; by injection E1 as <-.
Qed.

(** a condition before an operation *)
Lemma when_touches (b : bool) w op w' : (if b then op else Some w) = Some w' -> (forall w1, op = Some w1 -> same_touches w w1) -> same_touches w w'.
Proof. destruct b; intros E H; [by apply H|by injection E as <-]. Qed.

Ltac step E x H := match type of E with (?o ≫= _) = _ => destruct o as [x|] eqn:H; cbn [mbind option_bind] in E; [|done] end.

Lemma finished_touches w v a seq handled w' : doDispatchCycleFinishedLockedInterruptible w v a seq handled = Some w' -> same_touches w w'.
Proof.
  unfold doDispatchCycleFinishedLockedInterruptible. intros E. destruct (connections w !! a) as [c|]; simpl in E; [|done]. destruct (_ ≫= _) as [x|]; [|by injection E as <-].
  destruct (DispatchEntry.eventEntry x) as [k| | | |]; try (by eapply finish_event_touches). unfold after_key in E.
  destruct (has _ _); [by eapply finish_event_touches|]. destruct (connections w !! a) as [c'|]; cbn [mbind option_bind] in E; [|done]. step E w1 E1.
  assert (H1 : same_touches w w1) by (eapply when_touches; [exact E1|intros w2; apply on_state_touches]).
  etrans; [exact H1|]. destruct (_ || _).
  - destruct (negb _); [by injection E as <-|by eapply finish_event_touches].
  - destruct (_ && _); [by eapply finish_event_touches|by injection E as <-].
Qed.

Lemma fallback_canceled_touches w v a seq o f w' : fallback_canceled w v a seq o f = Some w' -> same_touches w w'.
Proof.
  unfold fallback_canceled. intros E. step E w1 E1. step E w2 E2. etrans; [eapply when_touches; [exact E1|intros ?; apply cancel_connection_touches]|].
  etrans; [by eapply on_state_touches|by eapply finish_event_touches].
Qed.

Lemma fallback_chosen_touches w v a seq entry k f i event w' : fallback_chosen w v a seq entry k f i event = Some w' -> same_touches w w'.
Proof.
  unfold fallback_chosen. intros E. destruct (connections w !! a) as [c|]; cbn [mbind option_bind] in E; [|done]. destruct (negb (bool_decide _)).
  { step E w1 E1. etrans; [by eapply on_state_touches|by eapply finish_event_touches]. }
  step E w1 E1. assert (H1 : same_touches w w1) by (eapply when_touches; [exact E1|intros ?; apply on_state_touches]). etrans; [exact H1|]. destruct (_ && _).
  - step E w2 E2. step E w3 E3. etrans; [by eapply cancel_connection_touches|]. etrans; [eapply when_touches; [exact E3|intros ?; apply on_state_touches]|by eapply finish_event_touches].
  - destruct event; [|by eapply finish_event_touches]. etrans; [|by eapply finish_event_touches]. done.
Qed.

Lemma anr_answered_touches w v application token extension w' : anr_answered w v application token extension = Some w' -> same_touches w w'.
Proof.
  unfold anr_answered. intros E. destruct (0 <? extension).
  - unfold extendAnrTimeoutsLocked in E. set (w1 := match token, application with None, Some app => _ | _, _ => w end) in E. assert (H1 : same_touches w w1) by (unfold w1; by repeat case_match).
    etrans; [exact H1|]. destruct (_ ≫= _); [|by injection E as <-]. eapply on_connection_touches; [exact E|]. by intros d c d' c' [= <- <-].
  - destruct (_ ≫= _) as [a|]; [|by injection E as <-]. unfold cancelEventsForAnrLocked in E. destruct (connections w !! a); cbn [mbind option_bind] in E; [|done].
    case_bool_decide; [by eapply cancel_connection_touches|by injection E as <-].
Qed.

Lemma resume_touches w v r ans w' : resume w v r ans = Some w' -> same_touches w w'.
Proof.
  unfold resume. intros E. destruct r; [..|by injection E as <-]; (etrans; [|first [by eapply fallback_canceled_touches|by eapply fallback_chosen_touches|by eapply anr_answered_touches]]); done.
Qed.

Lemma run_command_touches w v w' : run_command w v = Some w' -> same_touches w w'.
Proof.
  unfold run_command. intros E. destruct (Dispatcher.mCommandQueue (shared w)) as [|command rest]; [done|].
  destruct command; try (by injection E as <-). etrans; [|by eapply finished_touches]. done.
Qed.

Lemma anrs_touches w now r : processAnrsLocked w now = Some r -> same_touches w r.2.
Proof.
  assert (H : forall next, process_connection_anrs w now next = Some r -> same_touches w r.2).
  { unfold process_connection_anrs. intros next E. destruct (_ <? _); [by injection E as <-|]. destruct (AnrTracker.firstToken _); cbn [mbind option_bind] in E; [|done].
    destruct (getConnectionLocked _ _); [|by injection E as <-]. step E w1 E1. injection E as <-. simpl. eapply on_connection_touches; [exact E1|]. intros d c d' c' [= <- _].
    unfold onAnrLocked. by destruct (Connection.waitQueue _). }
  unfold processAnrsLocked. intros E. destruct (Dispatcher.mNoFocusedWindowTimeoutTime _); [|by eapply H]. destruct (Dispatcher.mAwaitedFocusedApplication _); [|by eapply H].
  destruct (_ <=? _); [|by eapply H]. destruct (processNoFocusedWindowAnrLocked _ _) as [d|] eqn:Ed; cbn [mbind option_bind] in E; [|done]. injection E as <-. split; [|done]. simpl.
  unfold processNoFocusedWindowAnrLocked in Ed. destruct (Dispatcher.mFocusedApplicationHandlesByDisplay _ !! _); cbn [mbind option_bind] in Ed; [|done]. destruct (negb _); [by injection Ed as <-|]. case_match; by injection Ed as <-.
Qed.

End Frame.

Section TouchInvariant.
Context `{B32 : BitSet32.ops} `{B64 : BitSet64.ops}.

Import InputDispatcher InputTargets.

Definition touch_inv (w : t) : Prop := touches_ok (shared w) /\ channels_ok w.

Lemma touch_inv_same w w' : same_touches w w' -> touch_inv w -> touch_inv w'.
Proof. unfold touch_inv, touches_ok, channels_ok. intros [E ->]. injection E as -> _ _ _. done. Qed.

(** ** Targets *)

Lemma marked_count b : marked b -> 0 < BitSet32.count b.
Proof.
  intros [n Hn]. rewrite BitSet32.count_spec. assert (n ∈ bits_below (BitSet32.hasBit b) 32) as Hin by (apply elem_of_bits_below; split; [done|by eapply BitSet32.hasBit_range]).
  destruct (bits_below _ 32); [set_solver|simpl; lia].
Qed.

Lemma unsplit_ok target : has (InputTarget.flags target) InputTarget.FLAG_SPLIT = false -> target_ok target.
Proof. unfold target_ok. congruence. Qed.

Lemma target_for_ok w x target : target_for w x target -> window_ok x -> target_ok target.2.
Proof. intros (_ & Ef & Ei & _) Hx Hs. rewrite Ei. apply marked_count. unfold window_ok, pointers_ok in Hx. by rewrite <- Ef, Hs in Hx. Qed.

Definition all_ok (ts : targets) : Prop := Forall (fun t => target_ok t.2) ts.

Lemma success_all_ok w perm e s ts : success w perm e s ts -> no_clones w -> channels_ok w -> all_ok ts.
Proof.
  intros Hs Hc Hch. destruct (success_targets _ _ _ _ _ Hs Hch) as (tw & -> & _ & H). specialize (H Hc). apply Forall_app. split.
  - destruct (success_ok _ _ _ _ _ Hs) as [_ Hws]. assert (Hf : Forall window_ok (filter (has_channel w) (TouchState.windows s))).
    { apply Forall_forall. intros x [_ Hx]%list_elem_of_filter. by apply (proj1 (Forall_forall _ _) Hws). }
    clear -H Hf. induction H as [|x t l l' Hx H IH]; [constructor|]. apply Forall_cons in Hf as [Hf1 Hf2]. constructor; [by eapply target_for_ok|by apply IH].
  - apply Forall_forall. intros t Ht. apply elem_of_map in Ht as (m & _ & ->). by apply unsplit_ok.
Qed.

Lemma monitoring_ok channel x y ts : all_ok ts -> all_ok (addMonitoringTargetLocked channel x y ts).
Proof. intros H. apply Forall_app. split; [done|]. repeat constructor. by apply unsplit_ok. Qed.

Lemma global_monitors_ok w displayId x y ts : all_ok ts -> all_ok (addGlobalMonitoringTargetsLocked w displayId x y ts).
Proof. unfold addGlobalMonitoringTargetsLocked. generalize (default [] (lookup_list (mGlobalMonitorsByDisplay w) displayId)). intros l. revert ts. induction l as [|c l IH]; intros ts H; simpl; [done|]. by apply IH, monitoring_ok. Qed.

Lemma add_monitors_ok w e ts : all_ok ts -> all_ok (add_monitors w e ts).
Proof.
  intros H. unfold add_monitors. pose proof (global_monitors_ok w (getTargetDisplayId (shared w) (Motion e)) F32.zero F32.zero ts H) as H1. destruct (has _ _); [|done].
  unfold add_portal_monitors. destruct (lookup_list _ _) as [s|]; [|done]. generalize dependent (addGlobalMonitoringTargetsLocked w (getTargetDisplayId (shared w) (Motion e)) F32.zero F32.zero ts).
  generalize (TouchState.portalWindows s). intros l. induction l as [|h l IH]; intros ts1 H1; simpl; [done|]. by apply IH, global_monitors_ok.
Qed.

Lemma focused_targets w perm now e next result w' ts next' : findFocusedWindowTargetsLocked w perm now e [] next = Some (result, w', ts, next') ->
  all_ok ts /\ exists d, w' = w <| shared := d |> /\ touches d = touches (shared w).
Proof.
  unfold findFocusedWindowTargetsLocked. intros E. assert (Hw : w = w <| shared := shared w |>) by (by destruct w). destruct (Dispatcher.mFocusedWindowHandlesByDisplay (shared w) !! _) as [h|].
  2:{ destruct (Dispatcher.mFocusedApplicationHandlesByDisplay (shared w) !! _); [destruct (Dispatcher.mNoFocusedWindowTimeoutTime _)|]; injection E as <- <- <- <-; (split; [constructor|]);
      eexists; (split; [first [exact Hw|reflexivity]|done]). }
  destruct (negb _); [injection E as <- <- <- <-; split; [constructor|]; eexists; done|].
  destruct (InputWindowInfo.paused _); [injection E as <- <- <- <-; split; [constructor|]; eexists; done|].
  set (r := match e with Key _ => _ | _ => _ end) in E. assert (Hr : touches r.2 = touches (shared w)).
  { unfold r. destruct e; try done. unfold shouldWaitToSendKeyLocked. by repeat case_match. }
  destruct r.1; [injection E as <- <- <- <-; split; [constructor|]; eexists; done|].
  destruct (addWindowTargetLocked _ _ _ _ _) as [ts1|] eqn:Et; cbn [mbind option_bind] in E; [|done]. injection E as <- <- <- <-. split; [|eexists; done].
  unfold addWindowTargetLocked in Et. cbn [existsb] in Et. destruct (mInputChannelsByToken _ !! _); [|injection Et as <-; constructor].
  destruct (InputTarget.addPointers _ _ _) as [target|] eqn:Ea; cbn [mbind option_bind] in Et; [|done]. injection Et as <-. repeat constructor. apply unsplit_ok. simpl.
  unfold InputTarget.addPointers in Ea. destruct (BitSet32.isEmpty 0); [by injection Ea as <-|]. destruct (InputTarget.store _ _ _); simpl in Ea; [|done]. by injection Ea as <-.
Qed.

(** ** Dispatching a motion event *)

Lemma validated_pointers e : validateMotionEvent (MotionEntry.action e) (MotionEntry.actionButton e) (MotionEntry.pointers e) = true -> pointers_valid e /\ event_ok (Motion e).
Proof.
  intros (_ & Hlen & Hids & _)%validate_motion_spec. split.
  - apply Forall_forall. intros p Hp. assert (id (property p) ∈ pointer_ids (MotionEntry.pointers e)) as Hin by (unfold pointer_ids; apply elem_of_map; eauto). specialize (Hids _ Hin). unfold MAX_POINTER_ID in Hids. lia.
  - simpl. intros E. rewrite E in Hlen. simpl in Hlen. lia.
Qed.

(** what the search for targets leaves *)
Lemma identify_ok w perm now e next result conflicts ts w' next' : identify_targets w perm now e next = Some (result, conflicts, ts, w', next') ->
  touch_inv w -> no_clones w -> pointers_valid e -> all_ok ts /\ touch_inv w' /\ exists d, w' = w <| shared := d |> /\ Dispatcher.injectionResults d = Dispatcher.injectionResults (shared w).
Proof.
  unfold identify_targets. intros E [Ht Hch] Hc Hv. destruct (has _ _).
  - destruct (findTouchedWindowTargetsLocked w perm e []) as [[[[? ?] ?] ?]|] eqn:Ef; [|done]. injection E as <- <- <- <- <-.
    destruct (touched_targets _ _ _ _ _ _ _ Ef Ht Hv) as (Ht' & (states & hover & ->) & Hts). split.
    + destruct Hts as [(_ & s & Hs)|(_ & ->)]; [by eapply success_all_ok|constructor].
    + split; [by split|]. by eexists.
  - destruct (findFocusedWindowTargetsLocked _ _ _ _ _ _) as [[[[? ?] ?] ?]|] eqn:Ef; [|done]. injection E as <- <- <- <- <-.
    destruct (focused_targets _ _ _ _ _ _ _ _ _ Ef) as (Hts & d & -> & Hd). injection Hd as Hd Hr _ _. split; [done|]. split; [|by eexists]. split; [|done]. unfold touches_ok. simpl. by rewrite Hd.
Qed.

Lemma dispatchEvent_inv w v entry e ts w' : dispatchEventLocked w v entry e ts = Some w' -> inv w -> event_ok e -> all_ok ts -> inv w'.
Proof.
  unfold dispatchEventLocked. intros E Hw He Ht. destruct (pokeUserActivityLocked _ _); simpl in E; [|done]. eapply dispatch_targets_inv; [exact E| |done|done]. by eapply inv_same.
Qed.

Lemma cancel_monitors_inv w v options w' : synthesizeCancelationEventsForMonitorsLocked w v options = Some w' -> inv w -> inv w'.
Proof. unfold synthesizeCancelationEventsForMonitorsLocked. intros E Hw. first_step E w1 E1. eapply cancel_channels_inv; [exact E|]. by eapply cancel_channels_inv. Qed.

Lemma set_result_touches w e r : touch_inv w -> touch_inv (set_result w e r).
Proof. unfold set_result, Dispatcher.setInjectionResult. by destruct (injectionState _). Qed.

Lemma dispatch_found_inv w v entry e result conflicts ts w' : dispatch_found w v entry e result conflicts ts = Some w' -> inv w -> event_ok (Motion e) -> all_ok ts ->
  inv w' /\ same_touches (set_result w e result) w'.
Proof.
  unfold dispatch_found. intros E Hw He Hts. set (w1 := set_result w e result) in *. assert (Hw1 : inv w1) by (by eapply inv_same).
  destruct (_ =? INPUT_EVENT_INJECTION_PERMISSION_DENIED); [by injection E as <-|]. destruct (negb _).
  { split; [by eapply cancel_monitors_inv|]. by eapply cancel_monitors_touches. }
  destruct conflicts; cbn [mbind option_bind] in E.
  - destruct (synthesizeCancelationEventsForAllConnectionsLocked _ _ _) as [w2|] eqn:E2; cbn [mbind option_bind] in E; [|done]. split.
    + eapply dispatchEvent_inv; [exact E| |done|by apply add_monitors_ok]. by eapply cancel_connections_inv.
    + etrans; [by eapply cancel_connections_touches|by eapply dispatchEvent_touches].
  - split; [eapply dispatchEvent_inv; [exact E|done|done|by apply add_monitors_ok]|]. by eapply dispatchEvent_touches.
Qed.

Lemma dispatchMotion_inv w v perm entry e dropReason next r w' next' : dispatchMotionLocked w v perm entry e dropReason next = Some (r, w', next') ->
  inv w -> touch_inv w -> no_clones w -> pointers_valid e -> event_ok (Motion e) -> inv w' /\ touch_inv w'.
Proof.
  unfold dispatchMotionLocked. intros E Hw Ht Hc Hv He. destruct (negb _).
  { injection E as <- <- <-. split; [by eapply inv_same|]. by apply set_result_touches. }
  destruct (identify_targets _ _ _ _ _) as [[[[[result conflicts] ts] w1] next1]|] eqn:Ei; [|done]. destruct (identify_ok _ _ _ _ _ _ _ _ _ _ Ei Ht Hc Hv) as (Hts & Ht1 & d & -> & _).
  assert (Hw1 : inv (w <| shared := d |>)) by (by eapply inv_same). destruct (_ =? _); [by injection E as <- <- <-|].
  destruct (dispatch_found _ _ _ _ _ _ _) as [w2|] eqn:E2; cbn [mbind option_bind] in E; [|done]. injection E as <- <- <-.
  destruct (dispatch_found_inv _ _ _ _ _ _ _ _ E2 Hw1 He Hts) as [Hw2 Hs2]. split; [done|]. eapply touch_inv_same; [exact Hs2|by apply set_result_touches].
Qed.

(** ** The other calls *)

Lemma transfer_touch_ok from to states states' : transfer_touch from to states = Some states' -> Forall (fun ks => touch_ok ks.2) states -> Forall (fun ks => touch_ok ks.2) states'.
Proof.
  revert states'; induction states as [|[k s] states IH]; intros states' E Hs; simpl in E; [done|]. apply Forall_cons in Hs as [Hs Hss]. destruct (transfer_window from to s) as [s'|] eqn:Es.
  - injection E as <-. constructor; [by eapply transfer_window_ok|done].
  - destruct (transfer_touch from to states) as [r|]; simpl in E; [|done]. injection E as <-. constructor; [done|by apply IH].
Qed.

Lemma transfer_pointers_touches w v from to w' : transfer_pointers w v from to = Some w' -> same_touches w w'.
Proof.
  unfold transfer_pointers. intros E. destruct (connections w !! from); cbn [mbind option_bind] in E; [|done]. destruct (connections w !! to); cbn [mbind option_bind] in E; [|done].
  destruct (InputState.mergePointerStateTo _ _); cbn [mbind option_bind] in E; [|done]. destruct (cancel_connection _ _ _ _) as [w1|] eqn:E1; cbn [mbind option_bind] in E; [|done].
  etrans; [|eapply on_connection_touches; [exact E|intros ????; apply down_touches]]. apply cancel_connection_touches in E1. exact E1.
Qed.

Lemma transfer_touches w v fromToken toToken r : transferTouchFocus w v fromToken toToken = Some r -> touch_inv w -> touch_inv r.2.
Proof.
  intros E Hw. unfold transferTouchFocus in E. destruct (_ =? _); [by injection E as <-|].
  destruct (Dispatcher.getWindowHandleLocked (shared w) fromToken), (Dispatcher.getWindowHandleLocked (shared w) toToken); try (by injection E as <-).
  destruct (negb _); [by injection E as <-|]. destruct (transfer_touch _ _ _) as [states|] eqn:Et; [|by injection E as <-]. destruct Hw as [Ht Hch].
  set (w1 := w <| shared := _ |>) in E. assert (Hw1 : touch_inv w1) by (split; [by eapply transfer_touch_ok|done]).
  destruct (getConnectionLocked w1 fromToken), (getConnectionLocked w1 toToken); try (by injection E as <-).
  destruct (transfer_pointers _ _ _ _) as [w2|] eqn:E2; cbn [mbind option_bind] in E; [|done]. injection E as <-. eapply touch_inv_same; [by eapply transfer_pointers_touches|done].
Qed.

Lemma pilfer_touches w v token r : pilferPointers w v token = Some r -> touch_inv w -> touch_inv r.2.
Proof.
  intros E Hw. unfold pilferPointers in E. destruct (findGestureMonitorDisplayByTokenLocked w token); [|by injection E as <-].
  destruct (lookup_list _ _) as [state|]; [|by injection E as <-]. destruct (_ || _); [by injection E as <-|]. destruct (cancel_channels _ _ _ _) as [w1|] eqn:E1; cbn [mbind option_bind] in E; [|done].
  injection E as <-. destruct (touch_inv_same _ _ (cancel_channels_touches _ _ _ _ _ E1) Hw) as [Ht Hch]. split; [|done]. simpl. by apply (assign_Forall touch_ok); [apply touch_ok_empty|].
Qed.

Lemma add_connection_touches w a channel monitor : touch_inv w -> touch_inv (add_connection w a channel monitor).
Proof. intros [Ht Hch]. split; [done|]. intros token c. simpl. intros [[<- <-]|[_ H]]%lookup_insert_Some; [done|by apply Hch]. Qed.

Lemma unregister_touches w channel notify r : unregisterInputChannelLocked w channel notify = Some r -> touch_inv w -> touch_inv r.2.
Proof.
  unfold unregisterInputChannelLocked. intros E [Ht Hch]. destruct (getConnectionLocked w _) as [a|]; [|by injection E as <-]. destruct (connections w !! a) as [c|]; cbn [mbind option_bind] in E; [|done].
  set (w1 := (removeConnectionLocked w a (Connection.token c)) <| mInputChannelsByToken := _ |>) in E. assert (Hw1 : touch_inv w1).
  { split; [done|]. intros token ch. simpl. intros [_ H]%lookup_delete_Some. by apply Hch. }
  set (w2 := if Connection.monitor c then _ else w1) in E. assert (Hw2 : touch_inv w2) by (unfold w2; by destruct (Connection.monitor c)).
  destruct (on_connection w2 a _) as [w3|] eqn:E3; cbn [mbind option_bind] in E; [|done]. injection E as <-.
  eapply touch_inv_same; [|exact Hw2]. eapply on_connection_touches; [exact E3|]. intros d c1 d' c1' [= <- _]. apply abort_touches.
Qed.

Lemma perform_touches w v x w' : perform w v x = Some w' -> legal w x -> inv w -> touch_inv w -> touch_inv w'.
Proof.
  intros E Hl Hi Hw. destruct x; cbn [perform] in E; cbn [legal] in Hl.
  - eapply touch_inv_same; [by eapply dispatchEvent_touches|done].
  - destruct (dispatchMotionLocked _ _ _ _ _ _ _) as [[[r w1] next]|] eqn:E1; [|done]. injection E as <-. destruct Hl as (_ & Hv & Hc). destruct (validated_pointers _ Hv) as [Hp He]. by eapply dispatchMotion_inv.
  - eapply touch_inv_same; [by eapply receive_signals_touches|done].
  - eapply touch_inv_same; [by eapply run_command_touches|done].
  - destruct (running w); cbn [mbind option_bind] in E; [|done]. eapply touch_inv_same; [by eapply resume_touches|done].
  - destruct (processAnrsLocked w (now v)) as [r|] eqn:E1; simpl in E; [|done]. injection E as <-. eapply touch_inv_same; [by eapply anrs_touches|done].
  - eapply touch_inv_same; [by eapply cancel_connections_touches|done].
  - eapply touch_inv_same; [by eapply cancel_monitors_touches|done].
  - eapply touch_inv_same; [by eapply cancel_channel_touches|done].
  - destruct (transferTouchFocus w v fromToken toToken) as [r|] eqn:E1; simpl in E; [|done]. injection E as <-. by eapply transfer_touches.
  - destruct (pilferPointers w v token) as [r|] eqn:E1; simpl in E; [|done]. injection E as <-. by eapply pilfer_touches.
  - injection E as <-. unfold registerInputChannel. destruct (getConnectionLocked w _); [done|]. by apply add_connection_touches.
  - injection E as <-. unfold registerInputMonitor. destruct (_ <? 0); [done|]. destruct (_ =? 0); [done|]. pose proof (add_connection_touches w connection channel true Hw) as Hw1. by destruct isGestureMonitor.
  - destruct (unregisterInputChannelLocked w channel notify) as [r|] eqn:E1; simpl in E; [|done]. injection E as <-. by eapply unregister_touches.
  - injection E as <-. destruct Hw as [Ht Hch]. split; [|done]. unfold touches_ok, setFocusedApplication. simpl. by destruct (_ && _).
  - injection E as <-. destruct Hw as [_ Hch]. by split.
  - injection E as <-. destruct Hw as [_ Hch]. by split.
Qed.

(** ** Injections *)

(** an injection whose result is not known yet *)
Definition undecided (w : t) (i : Z) : Prop := Dispatcher.injectionResults (shared w) !! i = Some INPUT_EVENT_INJECTION_PENDING.

(** results are not forgotten *)
Definition fewer (w w' : t) : Prop := forall i, undecided w' i -> undecided w i.

#[global] Instance fewer_preorder : PreOrder fewer.
Proof. split; [by intros w i|]. intros w1 w2 w3 H12 H23 i Hi. by apply H12, H23. Qed.

Lemma fewer_same w w' : Dispatcher.injectionResults (shared w') = Dispatcher.injectionResults (shared w) -> fewer w w'.
Proof. intros E i. unfold undecided. by rewrite E. Qed.

Lemma fewer_touches w w' : same_touches w w' -> fewer w w'.
Proof. intros [[= _ E _ _] _]. by apply fewer_same. Qed.

Lemma fewer_result w d e r : Dispatcher.injectionResults d = Dispatcher.injectionResults (shared w) -> r <> INPUT_EVENT_INJECTION_PENDING ->
  fewer w (w <| shared := Dispatcher.setInjectionResult d e r |>).
Proof.
  intros E Hr i. unfold undecided, Dispatcher.setInjectionResult. simpl. destruct (injectionState e) as [j|]; [|by rewrite E]. simpl. rewrite E. intros [[_ H]|[_ H]]%lookup_insert_Some; done.
Qed.

Lemma motion_fewer w v perm entry e dropReason next r w' next' : dispatchMotionLocked w v perm entry e dropReason next = Some (r, w', next') ->
  inv w -> touch_inv w -> no_clones w -> pointers_valid e -> event_ok (Motion e) -> fewer w w'.
Proof.
  unfold dispatchMotionLocked. intros E Hw Ht Hc Hv He. destruct (negb _).
  { injection E as <- <- <-. apply fewer_result; [done|]. by case_bool_decide. }
  destruct (identify_targets _ _ _ _ _) as [[[[[result conflicts] ts] w1] next1]|] eqn:Ei; [|done]. destruct (identify_ok _ _ _ _ _ _ _ _ _ _ Ei Ht Hc Hv) as (Hts & Ht1 & d & -> & Hd).
  destruct (result =? INPUT_EVENT_INJECTION_PENDING) eqn:Hr; [injection E as <- <- <-; by apply fewer_same|]. apply Z.eqb_neq in Hr.
  destruct (dispatch_found _ _ _ _ _ _ _) as [w2|] eqn:E2; cbn [mbind option_bind] in E; [|done]. injection E as <- <- <-.
  destruct (dispatch_found_inv _ _ _ _ _ _ _ _ E2) as [_ Hs2]; [by eapply inv_same|done|done|]. etrans; [|by apply fewer_touches]. by apply (fewer_result w d).
Qed.

Lemma perform_fewer w v x w' : perform w v x = Some w' -> legal w x -> inv w -> touch_inv w -> match x with Update _ => False | _ => True end -> fewer w w'.
Proof.
  intros E Hl Hi Hw Hx. destruct x; cbn [perform] in E; cbn [legal] in Hl.
  - eapply fewer_touches, dispatchEvent_touches, E.
  - destruct (dispatchMotionLocked _ _ _ _ _ _ _) as [[[r w1] next]|] eqn:E1; [|done]. injection E as <-. destruct Hl as (_ & Hv & Hc). destruct (validated_pointers _ Hv) as [Hp He]. by eapply motion_fewer.
  - eapply fewer_touches, receive_signals_touches, E.
  - eapply fewer_touches, run_command_touches, E.
  - destruct (running w); cbn [mbind option_bind] in E; [|done]. eapply fewer_touches, resume_touches, E.
  - destruct (processAnrsLocked w (now v)) as [r|] eqn:E1; simpl in E; [|done]. injection E as <-. eapply fewer_touches, anrs_touches, E1.
  - eapply fewer_touches, cancel_connections_touches, E.
  - eapply fewer_touches, cancel_monitors_touches, E.
  - eapply fewer_touches, cancel_channel_touches, E.
  - destruct (transferTouchFocus w v fromToken toToken) as [r|] eqn:E1; simpl in E; [|done]. injection E as <-. unfold transferTouchFocus in E1.
    destruct (_ =? _); [by injection E1 as <-|]. destruct (Dispatcher.getWindowHandleLocked (shared w) fromToken), (Dispatcher.getWindowHandleLocked (shared w) toToken); try (by injection E1 as <-).
    destruct (negb _); [by injection E1 as <-|]. destruct (transfer_touch _ _ _) as [states|]; [|by injection E1 as <-]. set (w1 := w <| shared := _ |>) in E1.
    destruct (getConnectionLocked w1 fromToken), (getConnectionLocked w1 toToken); try (injection E1 as <-; by apply fewer_same). destruct (transfer_pointers _ _ _ _) as [w2|] eqn:E2; cbn [mbind option_bind] in E1; [|done]. injection E1 as <-.
    apply (fewer_touches w1). by eapply transfer_pointers_touches.
  - destruct (pilferPointers w v token) as [r|] eqn:E1; simpl in E; [|done]. injection E as <-. unfold pilferPointers in E1. destruct (findGestureMonitorDisplayByTokenLocked w token); [|by injection E1 as <-].
    destruct (lookup_list _ _) as [state|]; [|by injection E1 as <-]. destruct (_ || _); [by injection E1 as <-|].
    destruct (cancel_channels _ _ _ _) as [w1|] eqn:E2; cbn [mbind option_bind] in E1; [|done]. injection E1 as <-. etrans; [eapply fewer_touches, cancel_channels_touches, E2|]. by apply fewer_same.
  - injection E as <-. apply fewer_same. unfold registerInputChannel. by destruct (getConnectionLocked w _).
  - injection E as <-. apply fewer_same. unfold registerInputMonitor. destruct (_ <? 0); [done|]. destruct (_ =? 0); [done|]. by destruct isGestureMonitor.
  - destruct (unregisterInputChannelLocked w channel notify) as [r|] eqn:E1; simpl in E; [|done]. injection E as <-. unfold unregisterInputChannelLocked in E1.
    destruct (getConnectionLocked w _) as [a|]; [|by injection E1 as <-]. destruct (connections w !! a) as [c|]; cbn [mbind option_bind] in E1; [|done].
    destruct (on_connection _ a _) as [w3|] eqn:E3; cbn [mbind option_bind] in E1; [|done]. injection E1 as <-. etrans; [|eapply fewer_touches, on_connection_touches; [exact E3|]].
    + apply fewer_same. by destruct (Connection.monitor c).
    + intros d c1 d' c1' [= <- _]. apply abort_touches.
  - injection E as <-. apply fewer_same. unfold setFocusedApplication. simpl. by destruct (_ && _).
  - injection E as <-. by apply fewer_same.
  - done.
Qed.

End TouchInvariant.
