(* ===== verification/InputStreamTheorems.v ===== *)
(** * What the input dispatcher guarantees its applications *)

From S2P Require Import Prelude PointerCoords InputEvents InputState InputProtocol InputConnection InputStreams InputCancel InputTransfer InputOperations InputDispatcher InputTargets InputTouch InputSystem InputSystemInvariant InputTouchInvariant.

Section Theorems.
Context `{B32 : BitSet32.ops} `{B64 : BitSet64.ops}.

Import InputDispatcher.

(** ** Transferring a touch *)

Lemma conn_mergeable c : conn_ok c -> Connection.status c <> Connection.STATUS_ZOMBIE -> mergeable (Connection.inputState c).
Proof. unfold conn_ok. destruct (Connection.status c); [|tauto|done]. intros [H _] _. by apply settled_mergeable. Qed.

(** two connections change *)
Lemma inv_update2 w w' from to cf ct cf' ct' : inv w -> from <> to ->
  connections w !! from = Some cf -> connections w !! to = Some ct -> conn_ok cf' -> conn_ok ct' -> same_identity cf cf' -> same_identity ct ct' ->
  (forall b, connections w' !! b = if decide (b = to) then Some ct' else if decide (b = from) then Some cf' else connections w !! b) ->
  mConnectionsByFd w' = mConnectionsByFd w -> running w' = running w -> inv w'.
Proof.
  intros [[Hc Hr] Hrun] Hne Hf Ht Hokf Hokt Hsf Hst El Efd Erun.
  assert (Hevolve : forall b c, connections w !! b = Some c -> exists c', connections w' !! b = Some c' /\ same_identity c c').
  { intros b c Hb. rewrite El. repeat case_decide; subst; simplify_eq; [by exists ct'|by exists cf'|by exists c]. }
  split; [split|].
  - intros b c Hb. rewrite El in Hb. repeat case_decide; simplify_eq; eauto.
  - intros b Hb. rewrite Efd in Hb. destruct (Hr b Hb) as (c & Ec & Hz). destruct (Hevolve b c Ec) as (c' & Ec' & (_ & _ & _ & Hz' & _)). exists c'. split; [done|auto].
  - intros b seq entry k f i E. rewrite Erun in E. destruct (Hrun _ _ _ _ _ _ E) as (c & Ec & Hk). destruct (Hevolve b c Ec) as (c' & Ec' & Hs). exists c'. split; [done|].
    by eapply key_waits_evolves.
Qed.

Lemma transfer_pointers_inv w v from to cf ct w' : transfer_pointers w v from to = Some w' -> inv w -> from <> to ->
  connections w !! from = Some cf -> connections w !! to = Some ct -> Connection.status cf <> Connection.STATUS_ZOMBIE -> Connection.status ct <> Connection.STATUS_ZOMBIE ->
  no_hover (InputState.mMotionMementos (Connection.inputState cf)) -> no_hover (InputState.mMotionMementos (Connection.inputState ct)) -> inv w'.
Proof.
  intros E Hw Hne Hf Ht Hzf Hzt Hhf Hht. unfold transfer_pointers in E. rewrite Hf, Ht in E. cbn [mbind option_bind] in E. unfold InputState.mergePointerStateTo in E.
  destruct (InputState.merge_mementos _ _) as [[ms' others']|] eqn:Em; cbn [mbind option_bind fst snd] in E; [|done].
  pose proof (world_conn _ (proj1 Hw) _ _ Hf) as Hokf. pose proof (world_conn _ (proj1 Hw) _ _ Ht) as Hokt.
  destruct (conn_mergeable _ Hokf Hzf) as [_ Hpf]. destruct (merge_mementos_from _ _ _ _ Hpf Em) as (Hkf & Hpf' & Hf2).
  unfold cancel_connection, on_connection in E. simpl in E. rewrite lookup_insert_ne, lookup_insert_eq in E by done. cbn [mbind option_bind] in E.
  destruct (synthesizeCancelationEventsForConnectionLocked _ _ _ _ _ _ _) as [[d1 cf']|] eqn:E1; cbn [mbind option_bind fst snd] in E; [|done].
  destruct (cancel_merged _ _ _ _ _ _ _ _ _ Hokf Hzf Hkf Hpf' Hf2 E1) as [Hokf' Hsf].
  simpl in E. rewrite lookup_insert_ne, lookup_insert_eq in E by done. cbn [mbind option_bind] in E.
  destruct (synthesizePointerDownEventsForConnectionLocked _ _ _ _ _ _) as [[d2 ct']|] eqn:E2; cbn [mbind option_bind fst snd] in E; [|done]. injection E as <-.
  assert (Ht' : conn_ok ct' /\ same_identity ct ct').
  { destruct (Connection.status ct) eqn:Est; [| |done].
    - eapply announce_merged; [done|done| |exact E2]. unfold conn_ok in Hokt. rewrite Est in Hokt. destruct Hokt as [[[Hnd _] Hset] _].
      eapply merge_mementos_into; [|exact Hhf|exact Hpf|exact Em]. by apply merging_start.
    - unfold synthesizePointerDownEventsForConnectionLocked in E2. simpl in E2. rewrite Est in E2. simpl in E2. injection E2 as _ <-. split; [|by repeat split].
      destruct (conn_mergeable _ Hokt ltac:(congruence)) as [[Hnd _] Hpt]. destruct (merge_mementos_mergeable _ _ _ _ Hnd Hpt Hpf Em). by apply merged_broken. }
  destruct Ht' as [Hokt' Hst]. eapply (inv_update2 w _ from to cf ct cf' ct'); try done. intros b. simpl.
  destruct (decide (b = to)) as [->|Hb]; [by rewrite lookup_insert_eq|]. rewrite lookup_insert_ne by done.
  destruct (decide (b = from)) as [->|Hb']; [by rewrite lookup_insert_eq|]. by rewrite !lookup_insert_ne.
Qed.

Lemma transfer_inv w v fromToken toToken r : transferTouchFocus w v fromToken toToken = Some r -> inv w -> no_hover_in w fromToken -> no_hover_in w toToken -> inv r.2.
Proof.
  intros E Hw Hhf Hht. unfold transferTouchFocus in E. destruct (fromToken =? toToken) eqn:Eft; [by injection E as <-|]. bool_to_prop.
  destruct (Dispatcher.getWindowHandleLocked (shared w) fromToken), (Dispatcher.getWindowHandleLocked (shared w) toToken); try (by injection E as <-).
  destruct (negb _); [by injection E as <-|]. destruct (transfer_touch _ _ _) as [states|]; [|by injection E as <-].
  set (w1 := w <| shared := _ |>) in E. assert (Hw1 : inv w1) by (by eapply inv_same).
  change (getConnectionLocked w1) with (getConnectionLocked w) in E.
  destruct (getConnectionLocked w fromToken) as [from|] eqn:Ef, (getConnectionLocked w toToken) as [to|] eqn:Et; try (by injection E as <-).
  first_step E w2 E2. injection E as <-. simpl.
  pose proof (getConnectionLocked_Some _ _ _ Ef) as (Hinf & cf & Hcf & Htf). pose proof (getConnectionLocked_Some _ _ _ Et) as (Hint & ct & Hct & Htt).
  destruct (world_registered _ (proj1 Hw) _ Hinf) as (cf' & Hcf' & Hzf). destruct (world_registered _ (proj1 Hw) _ Hint) as (ct' & Hct' & Hzt).
  assert (cf' = cf) as -> by congruence. assert (ct' = ct) as -> by congruence.
  eapply (transfer_pointers_inv w1); [exact E2|done| |exact Hcf|exact Hct|done|done|by eapply Hhf|by eapply Hht]. intros ->. congruence.
Qed.

Lemma pilfer_inv w v token r : pilferPointers w v token = Some r -> inv w -> inv r.2.
Proof.
  intros E Hw. unfold pilferPointers in E. destruct (findGestureMonitorDisplayByTokenLocked w token); [|by injection E as <-].
  destruct (lookup_list _ _) as [state|]; [|by injection E as <-]. destruct (_ || _); [by injection E as <-|]. first_step E w1 E1. injection E as <-. simpl.
  eapply inv_same; [by eapply cancel_channels_inv|done..].
Qed.

(** ** The invariant holds *)

Lemma perform_inv w v x w' : perform w v x = Some w' -> legal w x -> inv w -> touch_inv w -> inv w'.
Proof.
  intros E Hl Hw Ht0. destruct x; simpl in E, Hl.
  - destruct Hl as (_ & He & Ht). unfold dispatchEventLocked in E. destruct (pokeUserActivityLocked _ _); simpl in E; [|done]. eapply dispatch_targets_inv; [exact E| |done|done]. by eapply inv_same.
  - destruct (InputTargets.dispatchMotionLocked _ _ _ _ _ _ _) as [[[r w1] next]|] eqn:E1; [|done]. injection E as <-. destruct Hl as (_ & Hv & Hc).
    destruct (validated_pointers _ Hv). by eapply dispatchMotion_inv.
  - by eapply receive_signals_inv.
  - by eapply run_command_inv.
  - destruct (running w) as [r|] eqn:Er; simpl in E; [|done]. by eapply resume_inv.
  - destruct (processAnrsLocked w (now v)) as [[z w1]|] eqn:E1; simpl in E; [|done]. injection E as <-. by eapply anrs_inv.
  - by eapply cancel_connections_inv.
  - by eapply cancel_monitors_inv.
  - by eapply cancel_channel_inv.
  - destruct (transferTouchFocus w v fromToken toToken) as [r|] eqn:E1; simpl in E; [|done]. injection E as <-. destruct Hl. by eapply transfer_inv.
  - destruct (pilferPointers w v token) as [r|] eqn:E1; simpl in E; [|done]. injection E as <-. by eapply pilfer_inv.
  - injection E as <-. unfold registerInputChannel. destruct (getConnectionLocked w _); [done|]. by apply add_connection_inv.
  - injection E as <-. unfold registerInputMonitor. destruct (_ <? 0); [done|]. destruct (_ =? 0); [done|]. pose proof (add_connection_inv w connection channel true Hw Hl) as Hw1.
    destruct isGestureMonitor; by eapply inv_same.
  - destruct (unregisterInputChannelLocked w channel notify) as [r|] eqn:E1; simpl in E; [|done]. injection E as <-. by eapply unregister_inv.
  - injection E as <-. by eapply inv_same.
  - injection E as <-. by eapply inv_same.
  - injection E as <-. by eapply inv_same.
Qed.

Lemma steps_inv w w' : rtc step w w' -> inv w -> touch_inv w -> inv w' /\ touch_inv w'.
Proof. induction 1 as [|w w1 w2 (v & x & Hl & E) _ IH]; [done|]. intros Hw Ht. apply IH; [by eapply perform_inv|by eapply perform_touches]. Qed.

Lemma reachable_inv w : reachable w -> inv w /\ touch_inv w.
Proof.
  intros (w0 & (Hc & Hf & Hr & Hch & Ht) & Hsteps). eapply steps_inv; [done| |split; [done|intros token c; by rewrite Hch, lookup_empty]]. split; [split|by apply running_none].
  - rewrite Hc. intros a c H. by rewrite lookup_empty in H.
  - rewrite Hf. intros a Ha. by apply not_elem_of_nil in Ha.
Qed.

End Theorems.
