(* ===== verification/InputInboundSystem.v ===== *)
(** * The whole input dispatcher as a system

    The calls of all threads, one at a time under the dispatcher's lock, in any order: the
    turns of the dispatcher's thread, cut where it asks the policy; events that arrive and
    are injected; and the window manager's. A call that holds the lock more than once is the
    sequence of its parts: [notifyKey] is [Accelerate] and [Enqueue]. Every call is a sequence
    of calls of InputSystem.v on the connections, whose guarantees hold here too. *)

From S2P Require Import Prelude PointerCoords InputEvents InputState InputProtocol InputConnection InputStreams InputOperations InputDispatcher InputTargets InputInbound InputTouch InputSystem InputSystemInvariant InputTouchInvariant InputStreamTheorems.

Module InboundSystem.
Import Inbound.

Section System.
Context `{B32 : BitSet32.ops} `{B64 : BitSet64.ops}.

Inductive call :=
  | Begin (perm : permissions)
  | RunCommand
  | Answer (ans : InputDispatcher.answer)
  | End
  | Signals (connection : Z) (signals : list (Z * bool))
  | Enqueue (xs : list Entry.t)
  | Inject (injection : Z) (xs : list Entry.t)
  | Accelerate (deviceId action keyCode metaState : Z)
  | SetInputWindows (handlesPerDisplay : list (Z * list given))
  | SetFocusedDisplay (displayId : Z)
  | SetInputDispatchMode (enabled frozen : bool)
  | SetInputFilterEnabled (enabled : bool)
  | SetInTouchMode (inTouchMode : bool)
  | SetFocusedApplication (displayId : Z) (application : option InputApplication.t) (isValid : bool)
  | Transfer (fromToken toToken : Z)
  | Pilfer (token : Z)
  | Register (connection : Z) (channel : InputChannel.t)
  | RegisterMonitor (connection : Z) (channel : InputChannel.t) (displayId : Z) (isGestureMonitor : bool)
  | Unregister (channel : InputChannel.t) (notify : bool).

(** an operation of InputDispatcher.v, after which the thread is woken up if [woken] *)
Definition below (woken : bool) (w : InputDispatcher.t) (s : t) : t := (if woken then wake s else s) <| world := w |>.

Definition perform (s : t) (V : nat -> nat -> env) (x : call) : option t :=
  let v := V 0%nat 0%nat in
  match x with
  | Begin perm => begin_turn s v perm
  | RunCommand => run_command s v
  | Answer ans => answer s v ans
  | End => match thread s with Commands nextWakeupTime ran => end_turn s v nextWakeupTime ran | Polling _ => None end
  | Signals a signals => w ← InputDispatcher.receive_signals (world s) (now v) a signals; Some (below true w s)
  | Enqueue xs => enqueue_new s v 0 xs
  | Inject i xs => inject_entries s v i xs
  | Accelerate deviceId action keyCode metaState => Some (accelerateMetaShortcuts s deviceId action keyCode metaState).2
  | SetInputWindows handlesPerDisplay => setInputWindows s V handlesPerDisplay
  | SetFocusedDisplay displayId => setFocusedDisplay s v displayId
  | SetInputDispatchMode enabled frozen => setInputDispatchMode s v enabled frozen
  | SetInputFilterEnabled enabled => setInputFilterEnabled s v enabled
  | SetInTouchMode inTouchMode => Some (setInTouchMode s inTouchMode)
  | SetFocusedApplication displayId application isValid => Some (below true (InputDispatcher.setFocusedApplication (world s) displayId application isValid) s)
  | Transfer fromToken toToken => r ← InputDispatcher.transferTouchFocus (world s) (lower v) fromToken toToken; Some (below (r.1 && negb (fromToken =? toToken)) r.2 s)
  | Pilfer token => r ← InputDispatcher.pilferPointers (world s) (lower v) token; Some (below false r.2 s)
  | Register a channel => let r := InputDispatcher.registerInputChannel (world s) a channel in Some (below (r.1 =? OK) r.2 s)
  | RegisterMonitor a channel displayId gesture => let r := InputDispatcher.registerInputMonitor (world s) a channel displayId gesture in Some (below (r.1 =? OK) r.2 s)
  | Unregister channel notify => r ← InputDispatcher.unregisterInputChannelLocked (world s) channel notify; Some (below (r.1 =? OK) r.2 s)
  end.

(** an event that arrives is valid, and has not been dispatched *)
Definition valid_event (e : EventEntry) : Prop :=
  match e with Motion m => validateMotionEvent (MotionEntry.action m) (MotionEntry.actionButton m) (MotionEntry.pointers m) = true | _ => True end.

Definition arrives (x : Entry.t) : Prop := valid_event (Entry.event x) /\ injectionState (Entry.event x) = None /\ Entry.dispatchInProgress x = false.

Definition injectable (x : Entry.t) : Prop := match Entry.event x with Key _ | Motion _ => True | _ => False end.

(** the addresses of a call are the same in all its parts, and new *)
Definition new_addresses (s : t) (V : nat -> nat -> env) : Prop :=
  (forall n j, newAddress (V n j) = newAddress (V 0%nat 0%nat)) /\ Inj (=) (=) (newAddress (V 0%nat 0%nat)) /\ forall i, entries s !! newAddress (V 0%nat 0%nat) i = None.

Definition is_polling (s : t) : Prop := match thread s with Polling _ => True | Commands _ _ => False end.

(** The thread does one thing at a time, and runs all commands before it polls; objects that
    are injected are keys or motions. The other conditions are those of InputSystem.v. *)
Definition legal (s : t) (V : nat -> nat -> env) (x : call) : Prop :=
  new_addresses s V /\
  match x with
  | Begin _ => is_polling s /\ InputDispatcher.running (world s) = None /\ no_clones (world s)
  | RunCommand => ~ is_polling s /\ InputDispatcher.running (world s) = None
  | End => InputDispatcher.running (world s) = None /\ haveCommandsLocked s = false
  | Signals _ _ => is_polling s /\ InputDispatcher.running (world s) = None
  | Enqueue xs => Forall arrives xs
  | Inject _ xs => Forall arrives xs /\ xs <> [] /\ Forall injectable xs
  | Transfer fromToken toToken => no_hover_in (world s) fromToken /\ no_hover_in (world s) toToken
  | Register a _ | RegisterMonitor a _ _ _ => InputDispatcher.connections (world s) !! a = None
  | _ => True
  end.

Definition initial (s : t) : Prop :=
  InputSystem.initial (world s) /\ Dispatcher.injectionResults (shared s) = ∅ /\ entries s = ∅ /\ mInboundQueue s = [] /\ mPendingEvent s = None /\ lastKeyEntry s = None /\
  thread s = Polling LONG_LONG_MIN.
Definition step (s s' : t) : Prop := exists V x, legal s V x /\ perform s V x = Some s'.
Definition reachable (s : t) : Prop := exists s0, initial s0 /\ rtc step s0 s.

(** ** The parts of a call *)

(** the connections go from one state to the other by calls of InputSystem.v, if they are
    consistent, and no result of an injection is forgotten *)
Definition sim (w w' : InputDispatcher.t) : Prop := inv w -> touch_inv w -> rtc InputSystem.step w w' /\ fewer w w'.

#[global] Instance sim_preorder : PreOrder sim.
Proof.
  split; [by intros w _ _|]. intros w1 w2 w3 H12 H23 Hi Ht. destruct (H12 Hi Ht) as [S12 F12]. destruct (steps_inv _ _ S12 Hi Ht) as [Hi2 Ht2]. destruct (H23 Hi2 Ht2) as [S23 F23].
  split; by etrans.
Qed.

Lemma sim_call w v x w' : InputSystem.perform w v x = Some w' -> InputSystem.legal w x -> match x with Update _ => False | _ => True end -> sim w w'.
Proof. intros E Hl Hx Hi Ht. split; [apply rtc_once; by exists v, x|by eapply perform_fewer]. Qed.

Lemma update_step (v : InputDispatcher.env) w d : touches_ok d -> InputSystem.step w (w <| InputDispatcher.shared := d |>).
Proof. intros Hd. by exists v, (Update d). Qed.

Lemma sim_update (v : InputDispatcher.env) w d : (touches_ok (InputDispatcher.shared w) -> touches_ok d) -> fewer w (w <| InputDispatcher.shared := d |>) -> sim w (w <| InputDispatcher.shared := d |>).
Proof. intros Hd Hf Hi Ht. split; [|done]. apply rtc_once, (update_step v). by apply Hd, Ht. Qed.

(** what most changes of the shared state leave alone *)
Definition standing (d : Dispatcher.t) := (Dispatcher.mTouchStatesByDisplay d, Dispatcher.injectionResults d).

Lemma sim_touches (v : InputDispatcher.env) w d : standing d = standing (InputDispatcher.shared w) -> sim w (w <| InputDispatcher.shared := d |>).
Proof. intros [= E Er]. apply (sim_update v); [unfold touches_ok; by rewrite E|by apply fewer_same]. Qed.

(** an injection gets its result *)
Lemma sim_result (v : InputDispatcher.env) w d e r : standing d = standing (InputDispatcher.shared w) -> r <> INPUT_EVENT_INJECTION_PENDING ->
  sim w (w <| InputDispatcher.shared := Dispatcher.setInjectionResult d e r |>).
Proof.
  intros [= E Er] Hr. apply (sim_update v); [|by apply fewer_result]. unfold touches_ok, Dispatcher.setInjectionResult. destruct (injectionState e); simpl; by rewrite E.
Qed.

(** *** Leaving the queue *)

Lemma sim_injector (v : InputDispatcher.env) x s : sim (world s) (world (on_shared (answer_injector x) s)).
Proof.
  unfold on_shared, answer_injector. simpl. destruct (injectionState (Entry.event x)); [|by apply (sim_touches v)]. case_bool_decide; [by apply (sim_result v)|by apply (sim_touches v)].
Qed.

Lemma release_world a s : world (releaseInboundEventLocked a s) = match at_address s a with Some x => world (on_shared (answer_injector x) s) | None => world s end.
Proof. unfold releaseInboundEventLocked, addRecentEventLocked. destruct (at_address s a); by case_bool_decide. Qed.

Lemma sim_release (v : InputDispatcher.env) a s : sim (world s) (world (releaseInboundEventLocked a s)).
Proof. rewrite release_world. destruct (at_address s a) as [x|]; [apply (sim_injector v)|done]. Qed.

Lemma fewer_release a s : fewer (world s) (world (releaseInboundEventLocked a s)).
Proof.
  rewrite release_world. destruct (at_address s a) as [x|]; [|done]. unfold on_shared, answer_injector. simpl. destruct (injectionState (Entry.event x)); [|by apply fewer_same].
  case_bool_decide; [by apply fewer_result|by apply fewer_same].
Qed.

Lemma sim_release_pending (v : InputDispatcher.env) s : sim (world s) (world (releasePendingEventLocked s)).
Proof. unfold releasePendingEventLocked. destruct (mPendingEvent s) as [a|]; [|done]. exact (sim_release v a s). Qed.

Lemma sim_drain (v : InputDispatcher.env) s : sim (world s) (world (drainInboundQueueLocked s)).
Proof.
  unfold drainInboundQueueLocked. simpl. generalize (mInboundQueue s) as l. intros l. revert s. induction l as [|a l IH]; intros s; simpl; [done|]. etrans; [apply (sim_release v a)|apply IH].
Qed.

(** *** Entering the queue *)

Lemma prune_spec s currentTime m b s' : shouldPruneInboundQueueLocked s currentTime m = Some (b, s') ->
  s' = s \/ s' = on_shared (fun d => d <| Dispatcher.mKeyIsWaitingForEventsTimeout := Some currentTime |>) s.
Proof.
  unfold shouldPruneInboundQueueLocked. set (stop := if _ && _ then _ else s).
  assert (Hs : stop = s \/ stop = on_shared (fun d => d <| Dispatcher.mKeyIsWaitingForEventsTimeout := Some currentTime |>) s) by (unfold stop; destruct (_ && _); auto).
  clearbody stop. intros E. destruct (_ && _) in E; [|by simplify_eq]. destruct (Dispatcher.mAwaitedFocusedApplication _); [|by simplify_eq].
  destruct (InputTargets.position m 0); simpl in E; [|done]. destruct (InputTargets.findTouchedWindowAtLocked _ _ _ _ _ _ _) as [[h ?]|]; simpl in E; [|done].
  destruct (match h with Some _ => _ | None => _ end); [simplify_eq; auto|]. destruct (existsb _ _); simplify_eq; auto.
Qed.

Lemma sim_enqueue (v : InputDispatcher.env) s currentTime a x b s' : enqueueInboundEventLocked s currentTime a x = Some (b, s') -> sim (world s) (world s').
Proof.
  unfold enqueueInboundEventLocked. destruct (Entry.event x) as [k|m| | |]; intros E; try (by simplify_eq); [by repeat case_match; simplify_eq|].
  destruct (shouldPruneInboundQueueLocked _ _ _) as [[[] s1]|] eqn:E1; simplify_eq; destruct (prune_spec _ _ _ _ _ E1) as [-> | ->]; first [done|by apply (sim_touches v)].
Qed.

Lemma sim_enqueue_new v xs : forall s i s', enqueue_new s v i xs = Some s' -> sim (world s) (world s').
Proof.
  induction xs as [|x xs IH]; intros s i s' E; simpl in E; [by injection E as <-|]. destruct (enqueueInboundEventLocked _ _ _ _) as [[b s1]|] eqn:E1; [|done].
  apply (sim_enqueue (lower v)) in E1. etrans; [exact E1|]. apply IH in E. by destruct b.
Qed.

(** *** Canceling *)

Lemma sim_cancel_all v options s s' : cancel_all v options s = Some s' -> sim (world s) (world s').
Proof.
  unfold cancel_all, on_world. destruct (InputDispatcher.synthesizeCancelationEventsForAllConnectionsLocked _ _ _) as [w|] eqn:E; simpl; [|done]. intros [= <-].
  by eapply (sim_call _ (lower v) (CancelAll options)).
Qed.

Lemma sim_cancel_window s v mode displayId window b s' : cancel_window s v mode displayId window = Some (b, s') -> sim (world s) (world s').
Proof.
  unfold cancel_window, on_world. destruct (InputDispatcher.mInputChannelsByToken (world s) !! _) as [channel|]; [|by intros [= <- <-]].
  destruct (InputDispatcher.synthesizeCancelationEventsForInputChannelLocked _ _ _ _) as [w|] eqn:E; simpl; [|done]. intros [= <- <-].
  by eapply (sim_call _ (lower v) (CancelChannel _ _)).
Qed.

Lemma sim_drop s v e dropReason s' : dropInboundEventLocked s v e dropReason = Some s' -> sim (world s) (world s').
Proof. unfold dropInboundEventLocked. intros E. destruct dropReason, e; try done; by eapply sim_cancel_all. Qed.

(** *** Dispatching *)

Lemma sim_dispatch w v entry e ts w' : InputDispatcher.dispatchEventLocked w v entry e ts = Some w' -> InputDispatcher.running w = None -> event_ok e -> all_ok ts -> sim w w'.
Proof. intros E Hr He Hts. by eapply (sim_call _ v (Dispatch entry e ts)). Qed.

Lemma sim_on_world op s s' : on_world op s = Some s' -> (forall w, op = Some w -> sim (world s) w) -> sim (world s) (world s').
Proof. unfold on_world. destruct op as [w|]; simpl; [|done]. intros [= <-] H. by apply H. Qed.

Lemma sim_device_reset s v deviceId s' : dispatchDeviceResetLocked s v deviceId = Some s' -> sim (world s) (world s').
Proof. unfold dispatchDeviceResetLocked. intros E%sim_cancel_all. repeat case_match; exact E. Qed.

Lemma sim_focus s v a x s' : dispatchFocusLocked s v a x = Some s' -> Entry.is_focus x = true -> InputDispatcher.running (world s) = None -> sim (world s) (world s').
Proof.
  unfold dispatchFocusLocked. intros E Hx Hr. destruct (InputDispatcher.mInputChannelsByToken (world s) !! _) as [channel|]; [|by injection E as <-].
  eapply (sim_on_world _ (on_entry _ a s)); [exact E|]. intros w Ew. eapply sim_dispatch; [exact Ew|done| |repeat constructor; by apply unsplit_ok].
  unfold Entry.is_focus in Hx. by destruct (Entry.event x).
Qed.

Lemma sim_send_key s v perm a k dropReason next b r s' next' : send_key s v perm a k dropReason next = Some (b, r, s', next') ->
  InputDispatcher.running (world s) = None -> sim (world s) (world s').
Proof.
  unfold send_key. intros E Hr. destruct (negb (bool_decide _)).
  { simplify_eq. apply (sim_result (lower v)); [done|]. by case_bool_decide. }
  destruct (InputTargets.findFocusedWindowTargetsLocked _ _ _ _ _ _) as [[[[result w] ts] n]|] eqn:Ef; [|done].
  destruct (focused_targets _ _ _ _ _ _ _ _ _ Ef) as (Hts & d & -> & [= Hd Hres _ _]). assert (Hst : standing d = standing (shared s)) by (unfold standing; by rewrite Hd, Hres).
  assert (H1 : sim (world s) ((world s) <| InputDispatcher.shared := d |>)) by (by apply (sim_touches (lower v))).
  destruct (result =? INPUT_EVENT_INJECTION_PENDING) eqn:Hp; [by simplify_eq|]. apply Z.eqb_neq in Hp.
  set (d2 := Dispatcher.setInjectionResult d (Key k) result). assert (H2 : sim (world s) ((world s) <| InputDispatcher.shared := d2 |>)).
  { by apply (sim_result (lower v)). }
  destruct (negb _); [by simplify_eq|]. unfold on_world in E. simpl in E.
  destruct (InputDispatcher.dispatchEventLocked _ _ _ _ _) as [w2|] eqn:E2; simpl in E; [|done]. simplify_eq. etrans; [exact H2|].
  eapply sim_dispatch; [exact E2|done|done|]. by apply global_monitors_ok.
Qed.

Lemma prepare_key_world s a x k : world (prepare_key s a x k).1.1 = world s.
Proof. unfold prepare_key. destruct (Entry.dispatchInProgress x); [done|]. simpl. destruct (starts_repeat k); [done|]. by destruct (Entry.syntheticRepeat x). Qed.

Lemma sim_key s v perm a x k dropReason next b r s' next' : dispatchKeyLocked s v perm a x k dropReason next = Some (b, r, s', next') ->
  InputDispatcher.running (world s) = None -> sim (world s) (world s').
Proof.
  unfold dispatchKeyLocked. intros E Hr. pose proof (prepare_key_world s a x k) as Hw. destruct (prepare_key s a x k) as [[s1 x1] k1]. simpl in Hw. rewrite <- Hw in *.
  assert (Hpost : forall s2 c, world s2 = world s1 -> sim (world s1) (world (post c s2))).
  { intros s2 c E2. unfold post, on_shared. simpl. rewrite E2. by apply (sim_touches (lower v)). }
  destruct (Entry.interceptKeyResult x1).
  - destruct (has _ _); [simplify_eq; by apply Hpost|]. by eapply (sim_send_key (on_entry _ a s1)).
  - by eapply (sim_send_key s1).
  - by eapply (sim_send_key s1).
  - destruct (_ <? _); [by simplify_eq|]. destruct (has _ _); [simplify_eq; by apply Hpost|]. by eapply (sim_send_key (on_entry _ a (on_entry _ a s1))).
Qed.

(** *** Motions *)

(** what is done does not depend on the time of the next wakeup *)
Lemma focused_wakeup w perm now e ts next result w' ts' next' n : InputTargets.findFocusedWindowTargetsLocked w perm now e ts next = Some (result, w', ts', next') ->
  exists n', InputTargets.findFocusedWindowTargetsLocked w perm now e ts n = Some (result, w', ts', n').
Proof.
  unfold InputTargets.findFocusedWindowTargetsLocked. intros E. destruct (Dispatcher.mFocusedWindowHandlesByDisplay _ !! _) as [h|].
  - destruct (negb _); [simplify_eq; by eexists|]. destruct (InputWindowInfo.paused _); [simplify_eq; by eexists|].
    destruct (match e with Key _ => _ | _ => _ end) as [[] d]; cbn [fst snd] in *; [simplify_eq; by eexists|].
    destruct (InputTargets.addWindowTargetLocked _ _ _ _ _); cbn [mbind option_bind] in *; [|done]. simplify_eq. by eexists.
  - repeat case_match; simplify_eq; by eexists.
Qed.

Lemma motion_wakeup w v perm entry e r next done w' next' n : InputTargets.dispatchMotionLocked w v perm entry e r next = Some (done, w', next') ->
  exists n', InputTargets.dispatchMotionLocked w v perm entry e r n = Some (done, w', n').
Proof.
  unfold InputTargets.dispatchMotionLocked. intros E. destruct (negb (bool_decide _)); [simplify_eq; by eexists|].
  destruct (InputTargets.identify_targets w perm _ e next) as [[[[[result conflicts] ts] w1] next1]|] eqn:Ei; [|done].
  assert (exists n1, InputTargets.identify_targets w perm (InputDispatcher.now v) e n = Some (result, conflicts, ts, w1, n1)) as [n1 ->].
  { unfold InputTargets.identify_targets in *. destruct (has _ _).
    - destruct (InputTargets.findTouchedWindowTargetsLocked _ _ _ _) as [[[[? ?] ?] ?]|]; simplify_eq. by eexists.
    - destruct (InputTargets.findFocusedWindowTargetsLocked w perm _ _ _ next) as [[[[? ?] ?] ?]|] eqn:Ef; simplify_eq.
      apply (focused_wakeup _ _ _ _ _ _ _ _ _ _ n) in Ef as [n1 ->]. by eexists. }
  destruct (result =? _); [simplify_eq; by eexists|]. destruct (InputTargets.dispatch_found _ _ _ _ _ _ _); cbn [mbind option_bind] in *; [|done]. simplify_eq. by eexists.
Qed.

Lemma sim_motion s v perm a m dropReason next b r s' next' : dispatchMotionLocked s v perm a m dropReason next = Some (b, r, s', next') ->
  InputDispatcher.running (world s) = None -> valid_event (Motion m) -> no_clones (world s) -> sim (world s) (world s').
Proof.
  unfold dispatchMotionLocked. intros E Hr Hv Hc. destruct (InputTargets.dispatchMotionLocked _ _ _ _ _ _ _) as [[[? w] ?]|] eqn:Em; [|done]. simplify_eq. simpl in *.
  apply (motion_wakeup _ _ _ _ _ _ _ _ _ _ LONG_LONG_MAX) in Em as [n Em].
  eapply (sim_call _ (lower v) (DispatchMotion perm a m _)); [|done|done]. simpl. by rewrite Em.
Qed.

(** *** A turn of the thread *)

Definition valid_entries (m : gmap Z Entry.t) : Prop := map_Forall (fun _ x => valid_event (Entry.event x)) m.

Lemma no_clones_same w w' : Dispatcher.handles (InputDispatcher.shared w') = Dispatcher.handles (InputDispatcher.shared w) ->
  InputDispatcher.mInputChannelsByToken w' = InputDispatcher.mInputChannelsByToken w -> no_clones w -> no_clones w'.
Proof. unfold no_clones, Dispatcher.getToken, Dispatcher.getInfo. by intros -> ->. Qed.

(** what [take_event] does to the connections *)
Definition poked (w w' : InputDispatcher.t) : Prop := exists d, w' = w <| InputDispatcher.shared := d |> /\ touches d = touches (InputDispatcher.shared w).

Lemma poked_refl w : poked w w.
Proof. exists (InputDispatcher.shared w). by destruct w. Qed.

Lemma begin_event_spec a s s' : begin_event a s = Some s' -> poked (world s) (world s') /\ mPendingEvent s' = Some a /\ entries s' = entries s /\ mInboundQueue s' = mInboundQueue s /\
  mDispatchEnabled s' = mDispatchEnabled s /\ mDispatchFrozen s' = mDispatchFrozen s /\ mNextUnblockedEvent s' = mNextUnblockedEvent s /\ lastKeyEntry s' = lastKeyEntry s /\ awake s' = awake s.
Proof.
  unfold begin_event, poke. intros E. destruct (at_address s a) as [x|]; cbn [mbind option_bind] in E; [|done]. destruct (has _ _).
  - destruct (InputDispatcher.pokeUserActivityLocked _ _) as [d|] eqn:Ed; cbn [mbind option_bind] in E; [|done]. injection E as <-. split; [|done]. exists d. split; [done|]. by apply poke_touches in Ed.
  - injection E as <-. split; [apply poked_refl|done].
Qed.

(** *** Event objects *)

(** an object is still of its kind, and of its injector *)
Definition same_event (e e' : EventEntry) : Prop := match e, e' with Key k, Key k' => KeyEntry.injectionState k' = KeyEntry.injectionState k | _, _ => e' = e end.

#[global] Instance same_event_preorder : PreOrder same_event.
Proof. split; [by intros []|]. intros e1 e2 e3 H12 H23. destruct e1, e2; try done; destruct e3; try done; simpl in *; congruence. Qed.

(** the objects stay, and new ones are valid *)
Record extends (m m' : gmap Z Entry.t) : Prop := {
  ext_old : forall a x, m !! a = Some x -> exists x', m' !! a = Some x' /\ same_event (Entry.event x) (Entry.event x');
  ext_new : forall a x', m' !! a = Some x' -> m !! a = None -> valid_event (Entry.event x') }.

#[global] Instance extends_preorder : PreOrder extends.
Proof.
  split; [intros m; split; [intros a x Hx; exists x; split; [done|reflexivity]|congruence]|]. intros m1 m2 m3 [O1 N1] [O2 N2]. split.
  - intros a x Hx. destruct (O1 a x Hx) as (x2 & H2 & E2). destruct (O2 a x2 H2) as (x3 & H3 & E3). exists x3. split; [done|by etrans].
  - intros a x3 H3 Hn. destruct (m2 !! a) as [x2|] eqn:H2; [|by eapply N2]. specialize (N1 a x2 H2 Hn). destruct (O2 a x2 H2) as (x3' & H3' & E3). simplify_eq.
    destruct (Entry.event x2), (Entry.event x3); simpl in *; by simplify_eq.
Qed.

Lemma extends_valid m m' : extends m m' -> valid_entries m -> valid_entries m'.
Proof.
  intros [O N] Hv a x' Hx'. destruct (m !! a) as [x|] eqn:Hx; [|by eapply N]. destruct (O a x Hx) as (x2 & H2 & E2). simplify_eq. specialize (Hv a x Hx). simpl in Hv.
  destruct (Entry.event x), (Entry.event x'); simpl in *; by simplify_eq.
Qed.

Lemma extends_insert m a x : m !! a = None -> valid_event (Entry.event x) -> extends m (<[a := x]> m).
Proof.
  intros Hn Hx. split.
  - intros b y Hb. exists y. rewrite lookup_insert_ne by congruence. split; [done|reflexivity].
  - intros b y [[<- <-]|[_ Hb]]%lookup_insert_Some Hb'; [done|congruence].
Qed.

Lemma extends_set m a x x' : m !! a = Some x -> same_event (Entry.event x) (Entry.event x') -> extends m (<[a := x']> m).
Proof.
  intros Hx Hs. split.
  - intros b y Hb. destruct (decide (b = a)) as [->|Hne]; [exists x'; rewrite lookup_insert_eq; by simplify_eq|]. exists y. rewrite lookup_insert_ne by done. split; [done|reflexivity].
  - intros b y [[<- <-]|[_ Hb]]%lookup_insert_Some Hb'; congruence.
Qed.

Lemma extends_alter m a f : (forall x, same_event (Entry.event x) (Entry.event (f x))) -> extends m (alter f a m).
Proof.
  intros Hf. split.
  - intros b y Hb. destruct (decide (b = a)) as [->|Hne]; [exists (f y); rewrite lookup_alter_eq, Hb; auto|]. exists y. rewrite lookup_alter_ne by done. split; [done|reflexivity].
  - intros b y Hy Hb. destruct (decide (b = a)) as [->|Hne]; [by rewrite lookup_alter_eq, Hb in Hy|]. rewrite lookup_alter_ne in Hy by done. congruence.
Qed.

(** the event at [a] was injected by [i] *)
Definition injected_by (m : gmap Z Entry.t) (a i : Z) : Prop := exists x, m !! a = Some x /\ injectionState (Entry.event x) = Some i.

Lemma injected_ext m m' a i : extends m m' -> injected_by m a i -> injected_by m' a i.
Proof.
  intros He (x & Hx & Hi). destruct (ext_old _ _ He a x Hx) as (x' & Hx' & Hs). exists x'. split; [done|]. rewrite <- Hi. destruct (Entry.event x), (Entry.event x'); simpl in *; congruence.
Qed.

(** whoever injected an event that leaves the queue has its result *)
Lemma release_answers a s i : injected_by (entries s) a i -> ~ undecided (world (releaseInboundEventLocked a s)) i.
Proof.
  intros (x & Hx & Hi). rewrite release_world. unfold at_address. rewrite Hx. unfold undecided, on_shared, answer_injector. simpl. rewrite Hi. case_bool_decide as Hp; [|done].
  unfold Dispatcher.setInjectionResult. rewrite Hi. simpl. by rewrite lookup_insert_eq.
Qed.

Lemma release_entries a s : entries (releaseInboundEventLocked a s) = entries s.
Proof. unfold releaseInboundEventLocked, addRecentEventLocked. destruct (at_address s a); by case_bool_decide. Qed.

Lemma drain_fewer l : forall s, fewer (world s) (world (foldl (fun s a => releaseInboundEventLocked a s) s l)).
Proof. induction l as [|a l IH]; intros s; simpl; [done|]. etrans; [apply fewer_release|apply IH]. Qed.

Lemma drain_answers b i : forall l s, b ∈ l -> injected_by (entries s) b i -> ~ undecided (world (foldl (fun s a => releaseInboundEventLocked a s) s l)) i.
Proof.
  induction l as [|a l IH]; intros s Hb Hi; [set_solver|]. apply elem_of_cons in Hb as [->|Hb]; simpl; [|apply IH; [done|by rewrite release_entries]].
  intros Hu. by apply (release_answers a s i Hi), (drain_fewer l).
Qed.

(** ** The events that wait *)

Definition line (s : t) : list Z := option_list (mPendingEvent s) ++ mInboundQueue s.

(** neither the queue nor the thread changes; it may be woken up *)
Record quiet (s s' : t) : Prop := {
  quiet_queue : mInboundQueue s' = mInboundQueue s; quiet_pending : mPendingEvent s' = mPendingEvent s; quiet_entries : extends (entries s) (entries s');
  quiet_frozen : mDispatchFrozen s' = mDispatchFrozen s; quiet_thread : thread s' = thread s; quiet_awake : awake s = true -> awake s' = true }.

#[global] Instance quiet_preorder : PreOrder quiet.
Proof. split; [by split|]. intros s1 s2 s3 [] []. split; [congruence|congruence|by etrans|congruence|congruence|auto]. Qed.

Lemma quiet_intro s s' : mInboundQueue s' = mInboundQueue s -> mPendingEvent s' = mPendingEvent s -> entries s' = entries s -> mDispatchFrozen s' = mDispatchFrozen s ->
  thread s' = thread s -> awake s' = awake s -> quiet s s'.
Proof. intros ?? E ?? Ea. split; try done; [by rewrite E|by rewrite Ea]. Qed.

(** a change that does not concern the queue *)
Ltac quiet := by apply quiet_intro.

Lemma quiet_on_entry f a s : (forall x, same_event (Entry.event x) (Entry.event (f x))) -> quiet s (on_entry f a s).
Proof. intros Hf. split; try done. by apply extends_alter. Qed.

Lemma quiet_on_world op s s' : on_world op s = Some s' -> quiet s s'.
Proof. unfold on_world. destruct op; simpl; [|done]. intros [= <-]. quiet. Qed.

Lemma quiet_post c s s' : quiet s s' -> quiet s (post c s').
Proof. intros H. etrans; [exact H|]. quiet. Qed.

Lemma quiet_send_key s v perm a k dropReason next b r s' next' : send_key s v perm a k dropReason next = Some (b, r, s', next') -> quiet s s'.
Proof.
  unfold send_key. intros E. destruct (negb (bool_decide _)); [simplify_eq; quiet|].
  destruct (InputTargets.findFocusedWindowTargetsLocked _ _ _ _ _ _) as [[[[result w] ts] n]|]; [|done].
  destruct (result =? _); [simplify_eq; quiet|]. destruct (negb _); [simplify_eq; quiet|]. unfold on_world in E. destruct (InputDispatcher.dispatchEventLocked _ _ _ _ _); simpl in E; [|done].
  simplify_eq. quiet.
Qed.

Lemma quiet_prepare_key s a x k : at_address s a = Some x -> Entry.event x = Key k -> quiet s (prepare_key s a x k).1.1.
Proof.
  unfold prepare_key, at_address. intros Ha Hx. destruct (Entry.dispatchInProgress x); [done|]. simpl. split; try (by destruct (starts_repeat k), (Entry.syntheticRepeat x)). simpl.
  match goal with |- extends _ (<[_ := _]> (entries ?s1)) => assert (E : entries s1 = entries s) by (by destruct (starts_repeat k), (Entry.syntheticRepeat x)); rewrite E end. apply (extends_set _ a x); [done|]. by rewrite Hx.
Qed.

Lemma quiet_key s v perm a x k dropReason next b r s' next' : dispatchKeyLocked s v perm a x k dropReason next = Some (b, r, s', next') ->
  at_address s a = Some x -> Entry.event x = Key k -> quiet s s'.
Proof.
  unfold dispatchKeyLocked. intros E Ha Hx. pose proof (quiet_prepare_key s a x k Ha Hx) as Hq. destruct (prepare_key s a x k) as [[s1 x1] k1]. simpl in Hq. etrans; [exact Hq|].
  assert (Hon : forall f s2, (forall y, Entry.event (f y) = Entry.event y) -> quiet s2 (on_entry f a s2)) by (intros f s2 Hf; apply quiet_on_entry; intros y; rewrite Hf; reflexivity).
  destruct (Entry.interceptKeyResult x1).
  - destruct (has _ _); [simplify_eq; quiet|]. etrans; [|by eapply quiet_send_key]. by apply Hon.
  - by eapply quiet_send_key.
  - by eapply quiet_send_key.
  - destruct (_ <? _); [by simplify_eq|]. destruct (has _ _); [simplify_eq; by apply quiet_post, Hon|]. etrans; [|by eapply quiet_send_key]. etrans; [|by apply Hon]. by apply Hon.
Qed.

Lemma quiet_dispatch s v perm a x due next b r s' next' : dispatch_event s v perm a x due next = Some (b, r, s', next') -> at_address s a = Some x -> quiet s s'.
Proof.
  unfold dispatch_event. intros E Ha. destruct (Entry.event x) as [k|m|? ?| |dev] eqn:Hx.
  - destruct (due && isAppSwitchKeyEvent k); [|by eapply quiet_key]. etrans; [|by eapply (quiet_key (resetPendingAppSwitchLocked s))]. quiet.
  - unfold dispatchMotionLocked in E. destruct (InputTargets.dispatchMotionLocked _ _ _ _ _ _ _) as [[[? w] ?]|]; [|done]. simplify_eq. etrans; [apply (quiet_on_entry (fun x => x <| Entry.dispatchInProgress := true |>) a); reflexivity|]. quiet.
  - destruct (dispatchFocusLocked s v a x) as [s1|] eqn:E1; simpl in E; [|done]. simplify_eq. unfold dispatchFocusLocked in E1.
    destruct (InputDispatcher.mInputChannelsByToken _ !! _); [|by simplify_eq]. etrans; [|by eapply quiet_on_world]. by apply quiet_on_entry.
  - simplify_eq. quiet.
  - destruct (dispatchDeviceResetLocked s v dev) as [s1|] eqn:E1; simpl in E; [|done]. simplify_eq. unfold dispatchDeviceResetLocked in E1. etrans; [|by eapply quiet_on_world]. repeat case_match; quiet.
Qed.

(** ** A turn of the thread *)

Lemma sim_dispatch_event s v perm a x due next b r s' next' : dispatch_event s v perm a x due next = Some (b, r, s', next') ->
  InputDispatcher.running (world s) = None -> valid_event (Entry.event x) -> no_clones (world s) -> sim (world s) (world s').
Proof.
  unfold dispatch_event. intros E Hr Hv Hc. destruct (Entry.event x) as [k|m|i f| |dev] eqn:Hx.
  - destruct (due && isAppSwitchKeyEvent k); [by eapply (sim_key (resetPendingAppSwitchLocked s))|by eapply sim_key].
  - by eapply sim_motion.
  - destruct (dispatchFocusLocked s v a x) as [s1|] eqn:E1; simpl in E; [|done]. simplify_eq. eapply sim_focus; [done| |done]. unfold Entry.is_focus. by rewrite Hx.
  - simplify_eq. by apply (sim_touches (lower v)).
  - destruct (dispatchDeviceResetLocked s v dev) as [s1|] eqn:E1; simpl in E; [|done]. simplify_eq. by eapply sim_device_reset.
Qed.

(** the event [a] is taken, and [l] is left *)
Definition taken (s : t) (v : env) (a : Z) (l : list Z) : Prop := line s = a :: l \/ (line s = [] /\ a = newAddress v 0 /\ l = []).

Lemma take_event_spec s v due next o due' s' next' : take_event s v due next = Some (o, due', s', next') -> entries s !! newAddress v 0 = None ->
  poked (world s) (world s') /\ extends (entries s) (entries s') /\ mDispatchFrozen s' = mDispatchFrozen s /\ awake s' = awake s /\
  match o with
  | None => line s = [] /\ mPendingEvent s' = None /\ mInboundQueue s' = []
  | Some a => mPendingEvent s' = Some a /\ taken s v a (mInboundQueue s')
  end.
Proof.
  unfold take_event, taken, line. intros E Hn. destruct (mPendingEvent s) as [a|] eqn:Hp.
  { injection E as <- <- <- <-. split; [apply poked_refl|]. split; [done|]. split; [done|]. split; [done|]. split; [done|]. by left. }
  destruct (mInboundQueue s) as [|a rest] eqn:Hq.
  2:{ destruct (begin_event a _) as [s1|] eqn:E1; cbn [mbind option_bind] in E; [|done]. simplify_eq.
      destruct (begin_event_spec _ _ _ E1) as (Hw & Hp1 & He & Hq1 & Hd & Hf & Hu & Hl & Ha). simpl in *. rewrite He. split; [done|]. split; [done|]. split; [done|]. split; [done|]. split; [done|]. left. by rewrite Hq1. }
  set (s0 := if due then resetPendingAppSwitchLocked s else s) in E.
  assert (H0 : world s0 = world s /\ entries s0 = entries s /\ mDispatchFrozen s0 = mDispatchFrozen s /\ awake s0 = awake s /\ mPendingEvent s0 = None /\ mInboundQueue s0 = []) by (unfold s0; by destruct due).
  destruct H0 as (Hw0 & He0 & Hf0 & Ha0 & Hp0 & Hq0). destruct (last_key s0) as [k|].
  2:{ simplify_eq. rewrite Hw0, He0, Hf0. split; [apply poked_refl|]. done. }
  destruct (nextRepeatTime s0 <=? now v).
  2:{ simplify_eq. rewrite Hw0, He0, Hf0. split; [apply poked_refl|]. done. }
  destruct (begin_event _ _) as [s1|] eqn:E1; cbn [mbind option_bind] in E; [|done]. simplify_eq.
  destruct (begin_event_spec _ _ _ E1) as (Hw & Hp1 & He & Hq1 & Hd & Hf & Hu & Hl & Ha). simpl in *. rewrite Hw0 in Hw. split; [done|]. split; [rewrite He, He0; by apply extends_insert|].
  split; [congruence|]. split; [congruence|]. split; [done|]. right. rewrite Hq1, Hq0. done.
Qed.

(** what a turn does to the queue: the thread is frozen, has nothing to do, waits with an
    event, or is done with it *)
Inductive turn (s : t) (v : env) (s' : t) (nextWakeupTime : Z) : Prop :=
  | turn_frozen : mDispatchFrozen s = true -> mPendingEvent s' = mPendingEvent s -> mInboundQueue s' = mInboundQueue s -> turn s v s' nextWakeupTime
  | turn_idle : line s = [] -> mPendingEvent s' = None -> mInboundQueue s' = [] -> turn s v s' nextWakeupTime
  | turn_waits a x : taken s v a (mInboundQueue s') -> mPendingEvent s' = Some a -> entries s' !! a = Some x -> Entry.is_focus x = false -> turn s v s' nextWakeupTime
  | turn_done a : taken s v a (mInboundQueue s') -> mPendingEvent s' = None -> nextWakeupTime = LONG_LONG_MIN ->
      (forall i, injected_by (entries s') a i -> ~ undecided (world s') i) -> turn s v s' nextWakeupTime.

Lemma poked_sim (v : InputDispatcher.env) w w' : poked w w' -> sim w w'.
Proof. intros (d & -> & [= Hd Hr _ _]). apply (sim_touches v). unfold standing. by rewrite Hd, Hr. Qed.

Lemma poked_running w w' : poked w w' -> InputDispatcher.running w' = InputDispatcher.running w.
Proof. by intros (d & -> & _). Qed.

Lemma poked_no_clones w w' : poked w w' -> no_clones w -> no_clones w'.
Proof. intros (d & -> & [= _ _ Hd _]). by apply no_clones_same. Qed.

Lemma same_focus x x' : same_event (Entry.event x) (Entry.event x') -> Entry.is_focus x' = Entry.is_focus x.
Proof. unfold Entry.is_focus. destruct (Entry.event x), (Entry.event x'); simpl; intros; by simplify_eq. Qed.

(** an event that is not done is not a focus event *)
Lemma focus_done s v perm a x due next b r s' next' : dispatch_event s v perm a x due next = Some (b, r, s', next') -> Entry.is_focus x = true -> b = true.
Proof.
  unfold dispatch_event, Entry.is_focus. destruct (Entry.event x); try done. intros E _. destruct (dispatchFocusLocked s v a x); simpl in E; [|done]. by simplify_eq.
Qed.

Lemma release_pending_spec s : mPendingEvent (releasePendingEventLocked s) = None /\ mInboundQueue (releasePendingEventLocked s) = mInboundQueue s /\
  entries (releasePendingEventLocked s) = entries s /\ mDispatchFrozen (releasePendingEventLocked s) = mDispatchFrozen s /\ awake (releasePendingEventLocked s) = awake s /\
  thread (releasePendingEventLocked s) = thread s.
Proof.
  unfold releasePendingEventLocked. destruct (mPendingEvent s) as [a|] eqn:E; [|done]. unfold releaseInboundEventLocked, addRecentEventLocked. destruct (at_address s a); by case_bool_decide.
Qed.

Lemma inner_spec s v perm next s' next' : dispatchOnceInnerLocked s v perm next = Some (s', next') -> InputDispatcher.running (world s) = None -> valid_entries (entries s) -> no_clones (world s) ->
  entries s !! newAddress v 0 = None ->
  sim (world s) (world s') /\ extends (entries s) (entries s') /\ mDispatchFrozen s' = mDispatchFrozen s /\ turn s v s' next'.
Proof.
  unfold dispatchOnceInnerLocked. intros E Hr Hv Hc Hn. set (s0 := if mDispatchEnabled s then s else resetKeyRepeatLocked s) in E.
  assert (H0 : world s0 = world s /\ entries s0 = entries s /\ mDispatchFrozen s0 = mDispatchFrozen s /\ awake s0 = awake s /\ line s0 = line s /\ mPendingEvent s0 = mPendingEvent s /\ mInboundQueue s0 = mInboundQueue s)
    by (unfold s0; by destruct (mDispatchEnabled s)).
  destruct H0 as (Hw0 & He0 & Hf0 & Ha0 & Hl0 & Hp0 & Hq0). clearbody s0. rewrite Hf0 in E. destruct (mDispatchFrozen s) eqn:Hfr.
  { simplify_eq. rewrite Hw0, He0. split; [done|]. split; [done|]. split; [done|]. by apply turn_frozen. }
  destruct (take_event s0 v _ _) as [[[[[a|] due] s1] n1]|] eqn:Et; [| |done].
  2:{ simplify_eq. apply take_event_spec in Et as (Hw1 & He1 & Hf1 & Ha1 & Hl1 & Hp1 & Hq1); [|by rewrite He0]. rewrite Hw0 in Hw1. rewrite He0 in He1. split; [by apply (poked_sim (lower v))|]. split; [done|].
      split; [congruence|]. rewrite Hl0 in Hl1. by apply turn_idle. }
  apply take_event_spec in Et as (Hw1 & He1 & Hf1 & Ha1 & Hp1 & Hl1); [|by rewrite He0]. rewrite Hw0 in Hw1. rewrite He0 in He1. unfold taken in Hl1. rewrite Hl0 in Hl1.
  destruct (at_address s1 a) as [x|] eqn:Hx; cbn [mbind option_bind] in E; [|done].
  set (s2 := if bool_decide _ then s1 <| mNextUnblockedEvent := None |> else s1) in E.
  assert (Hq2 : quiet s1 s2) by (unfold s2; case_bool_decide; [quiet|done]). assert (Hw2 : world s2 = world s1) by (unfold s2; by case_bool_decide).
  assert (Hx2 : at_address s2 a = Some x) by (unfold s2; by case_bool_decide). clearbody s2.
  destruct (dispatch_event s2 v perm a x due n1) as [[[[b reason] s3] n3]|] eqn:Ed; [|done].
  assert (Hs3 : sim (world s) (world s3)).
  { etrans; [by apply (poked_sim (lower v))|]. rewrite <- Hw2. eapply sim_dispatch_event; [exact Ed|rewrite Hw2, (poked_running _ _ Hw1); done| |rewrite Hw2; by eapply poked_no_clones].
    by eapply (extends_valid _ _ He1 Hv). }
  pose proof (quiet_dispatch _ _ _ _ _ _ _ _ _ _ _ Ed Hx2) as Hq3. assert (Hq13 : quiet s1 s3) by (by etrans). destruct Hq13 as [Qq Qp Qe Qf Qt Qa]. destruct b.
  - destruct (if bool_decide (reason = NOT_DROPPED) then Some s3 else _) as [s4|] eqn:E4; cbn [mbind option_bind] in E; [|done]. simplify_eq.
    assert (H4 : quiet s3 s4 /\ sim (world s3) (world s4)).
    { case_bool_decide; [by simplify_eq|]. split; [|by eapply sim_drop]. unfold dropInboundEventLocked in E4. destruct reason, (Entry.event x); try done; by eapply quiet_on_world. }
    destruct H4 as [[Rq Rp Re Rf Rt Ra] Hs4]. destruct (release_pending_spec s4) as (P1 & P2 & P3 & P4 & P5 & P6).
    split; [etrans; [exact Hs3|]; etrans; [exact Hs4|]; apply (sim_release_pending (lower v))|]. rewrite P3. split; [etrans; [exact He1|]; by etrans|]. split; [congruence|].
    apply (turn_done _ _ _ _ a); [rewrite P2, Rq, Qq; exact Hl1|done|done|]. rewrite P3. intros i Hi. assert (Hp4 : mPendingEvent s4 = Some a) by congruence.
    unfold releasePendingEventLocked. rewrite Hp4. by apply release_answers.
  - simplify_eq. split; [done|]. split; [by etrans|]. split; [congruence|].
    destruct (ext_old _ _ (quiet_entries _ _ Hq3) a x Hx2) as (x3 & Hx3 & Hs). apply (turn_waits _ _ _ _ a x3); [rewrite Qq; exact Hl1|congruence|done|]. rewrite (same_focus _ _ Hs).
    destruct (Entry.is_focus x) eqn:Ef; [|done]. by pose proof (focus_done _ _ _ _ _ _ _ _ _ _ _ Ed Ef).
Qed.

(** ** The queue *)

Definition focus_at (m : gmap Z Entry.t) (a : Z) : bool := match m !! a with Some x => Entry.is_focus x | None => false end.

(** the events that wait, without those of the focus *)
Definition waiting (s : t) : list Z := filter (fun a => focus_at (entries s) a = false) (line s).

(** the objects are valid and known; focus events are ahead of all others *)
Record queue_ok (s : t) : Prop := {
  queue_valid : valid_entries (entries s);
  queue_known : Forall (fun a => is_Some (entries s !! a)) (line s);
  queue_focus : exists F N, mInboundQueue s = F ++ N /\ Forall (fun a => focus_at (entries s) a = true) F /\ Forall (fun a => focus_at (entries s) a = false) N;
  queue_pending : forall p, mPendingEvent s = Some p -> Forall (fun a => focus_at (entries s) a = false) (p :: mInboundQueue s) }.

Lemma focus_at_ext m m' a : extends m m' -> is_Some (m !! a) -> focus_at m' a = focus_at m a.
Proof. intros He [x Hx]. destruct (ext_old _ _ He a x Hx) as (x' & Hx' & Hs). unfold focus_at. rewrite Hx, Hx'. by apply same_focus. Qed.

Lemma known_ext m m' l : extends m m' -> Forall (fun a => is_Some (m !! a)) l -> Forall (fun a => is_Some (m' !! a)) l.
Proof. intros He Hk. eapply Forall_impl; [exact Hk|]. intros a [x Hx]. destruct (ext_old _ _ He a x Hx) as (x' & Hx' & _). by exists x'. Qed.

Lemma focus_ext m m' b l : extends m m' -> Forall (fun a => is_Some (m !! a)) l -> Forall (fun a => focus_at m a = b) l -> Forall (fun a => focus_at m' a = b) l.
Proof. intros He Hk Hf. rewrite Forall_forall in *. intros a Ha. rewrite (focus_at_ext _ _ _ He); auto. Qed.

Lemma filter_nonfocus m l : Forall (fun a => focus_at m a = false) l -> filter (fun a => focus_at m a = false) l = l.
Proof. induction 1 as [|a l Ha Hl IH]; [done|]. by rewrite filter_cons_True, IH. Qed.

Lemma filter_ext m m' l : extends m m' -> Forall (fun a => is_Some (m !! a)) l -> filter (fun a => focus_at m' a = false) l = filter (fun a => focus_at m a = false) l.
Proof. intros He. induction 1 as [|a l Ha Hl IH]; [done|]. rewrite !filter_cons, (focus_at_ext _ _ _ He Ha), IH. done. Qed.

(** whoever waits for the result of an injection has an event that waits *)
Definition owed (s : t) : Prop := forall i, undecided (world s) i -> exists a, a ∈ waiting s /\ injected_by (entries s) a i.

Lemma owed_from s s' : fewer (world s) (world s') -> extends (entries s) (entries s') ->
  (forall a i, a ∈ waiting s -> injected_by (entries s) a i -> undecided (world s') i -> a ∈ waiting s') -> owed s -> owed s'.
Proof. intros Hf He Hw Ho i Hi. destruct (Ho i (Hf i Hi)) as (a & Ha & Hia). exists a. split; [by eapply Hw|by eapply injected_ext]. Qed.

(** what a call does that takes no event and brings none *)
Record keeps (s s' : t) : Prop := {
  keeps_sim : sim (world s) (world s');
  keeps_entries : extends (entries s) (entries s');
  keeps_frozen : mDispatchFrozen s' = mDispatchFrozen s;
  keeps_thread : thread s' = thread s;
  keeps_queue : queue_ok s -> queue_ok s' /\ waiting s' = waiting s }.

#[global] Instance keeps_preorder : PreOrder keeps.
Proof.
  split; [by split|]. intros s1 s2 s3 [S1 E1 F1 T1 Q1] [S2 E2 F2 T2 Q2]. split; [by etrans|by etrans|congruence|congruence|]. intros H1. destruct (Q1 H1) as [H2 W2]. destruct (Q2 H2) as [H3 W3]. split; [done|congruence].
Qed.

Lemma keeps_owed s s' : keeps s s' -> inv (world s) -> touch_inv (world s) -> queue_ok s -> owed s -> owed s'.
Proof. intros [Hs He _ _ Hq] Hi Ht Hok. apply owed_from; [by apply Hs|done|]. destruct (Hq Hok) as [_ ->]. done. Qed.

Lemma queue_ok_line s s' : queue_ok s -> extends (entries s) (entries s') -> mPendingEvent s' = mPendingEvent s -> mInboundQueue s' = mInboundQueue s -> queue_ok s' /\ waiting s' = waiting s.
Proof.
  intros [V K (F & N & Eq & HF & HN) P] He Ep Eq'. unfold line in *. split; [split|].
  - by eapply extends_valid.
  - unfold line. rewrite Ep, Eq'. by eapply known_ext.
  - apply Forall_app in K as [_ K]. rewrite Eq in K. apply Forall_app in K as [KF KN]. exists F, N. rewrite Eq'. split; [done|]. split; by eapply focus_ext.
  - intros p Hp. rewrite Ep in Hp. rewrite Eq'. rewrite Hp in K. eapply focus_ext; [done|exact K|by apply P].
  - unfold waiting, line. rewrite Ep, Eq'. by apply filter_ext.
Qed.

Lemma keeps_quiet s s' : quiet s s' -> sim (world s) (world s') -> keeps s s'.
Proof. intros [Qq Qp Qe Qf Qt Qa] Hs. split; try done. intros Hok. by apply queue_ok_line. Qed.

(** *** Focus events *)

Lemma focus_events_split m F N : Forall (fun a => focus_at m a = true) F -> Forall (fun a => focus_at m a = false) N -> focus_events m (F ++ N) = length F.
Proof.
  intros HF HN. assert (H0 : focus_events m N = 0%nat).
  { induction HN as [|a N Ha HN IH]; [done|]. simpl. rewrite IH. unfold focus_at in Ha. by rewrite Ha. }
  induction HF as [|a F Ha HF IH]; simpl; [done|]. rewrite IH. unfold focus_at in Ha. destruct F; simpl; [by rewrite Ha|done].
Qed.

Lemma enqueue_focus_ok s v i window hasFocus : entries s !! newAddress v i = None -> let s' := enqueueFocusEventLocked s v i window hasFocus in
  keeps s s' /\ entries s' = <[newAddress v i := Entry.new (Focus (newEventId v i) hasFocus) (now v) (Dispatcher.getToken (shared s) window)]> (entries s).
Proof.
  intros Hn. set (a := newAddress v i) in *. unfold enqueueFocusEventLocked. fold a. set (s1 := match mPendingEvent s with Some p => _ | None => s end).
  assert (H1 : world s1 = world s /\ entries s1 = entries s /\ mDispatchFrozen s1 = mDispatchFrozen s /\ thread s1 = thread s /\ mPendingEvent s1 = None /\ mInboundQueue s1 = line s).
  { unfold s1, line. by destruct (mPendingEvent s) eqn:Ep. }
  destruct H1 as (Hw & He & Hf & Ht & Hp & Hq). clearbody s1. rewrite Hw, He, Hq. set (x := Entry.new _ _ _). simpl. split; [|done].
  assert (Hext : extends (entries s) (<[a := x]> (entries s))) by (by apply extends_insert).
  split; simpl; rewrite ?Hw, ?He; try done. intros [V K HF P].
  assert (exists F N, line s = F ++ N /\ Forall (fun a => focus_at (entries s) a = true) F /\ Forall (fun a => focus_at (entries s) a = false) N) as (F & N & El & HF' & HN).
  { destruct (mPendingEvent s) as [p|] eqn:Ep; [exists [], (line s); split; [done|]; split; [constructor|]; unfold line; rewrite Ep; by apply P|].
    unfold line. rewrite Ep. exact HF. }
  rewrite El, (focus_events_split _ _ _ HF' HN). rewrite El in K. apply Forall_app in K as [KF KN].
  assert (Ha : focus_at (<[a := x]> (entries s)) a = true) by (unfold focus_at; by rewrite lookup_insert_eq).
  rewrite take_app_length, drop_app_length. split; [split|].
  - by eapply extends_valid.
  - unfold line. simpl. rewrite Hp. simpl. apply Forall_app. split; [by eapply known_ext|]. constructor; [by rewrite lookup_insert_eq|by eapply known_ext].
  - exists (F ++ [a]), N. simpl. rewrite <- app_assoc. split; [done|]. split; [|by eapply focus_ext]. apply Forall_app. split; [by eapply focus_ext|by repeat constructor].
  - intros p Hp'. simpl in Hp'. congruence.
  - unfold waiting. unfold line at 1. simpl. rewrite Hp, El. simpl. rewrite filter_app, filter_cons_False by congruence. rewrite filter_app. by rewrite !(filter_ext _ _ _ Hext).
Qed.

(** *** Windows *)

Lemma keeps_touches (v : InputDispatcher.env) f s : standing (f (shared s)) = standing (shared s) -> keeps s (on_shared f s).
Proof. intros E. apply keeps_quiet; [quiet|]. by apply (sim_touches v). Qed.

Lemma keeps_wake s : keeps s (wake s).
Proof. by apply keeps_quiet; [split|]. Qed.

Lemma keeps_cancel_all v options s s' : cancel_all v options s = Some s' -> keeps s s' /\ exists w, s' = s <| world := w |>.
Proof.
  intros E. split; [apply keeps_quiet; [by eapply quiet_on_world|by eapply sim_cancel_all]|]. unfold cancel_all, on_world in E. destruct (InputDispatcher.synthesizeCancelationEventsForAllConnectionsLocked _ _ _); simpl in E; [|done].
  simplify_eq. by eexists.
Qed.

Lemma cancel_window_spec s v mode displayId window b s' : cancel_window s v mode displayId window = Some (b, s') ->
  keeps s s' /\ exists w, s' = s <| world := w |> /\ same_touches (world s) w.
Proof.
  intros E. assert (H : exists w, s' = s <| world := w |> /\ same_touches (world s) w).
  { unfold cancel_window, on_world in E. destruct (InputDispatcher.mInputChannelsByToken (world s) !! _) as [channel|]; [|simplify_eq; exists (world s'); by destruct s'].
    destruct (InputDispatcher.synthesizeCancelationEventsForInputChannelLocked _ _ _ _) as [w|] eqn:Ew; simpl in E; [|done]. simplify_eq. exists w. split; [done|]. by eapply cancel_channel_touches. }
  split; [|exact H]. apply keeps_quiet; [|by eapply sim_cancel_window]. destruct H as (w & -> & _). quiet.
Qed.

Section Addresses.
Context (addr : nat -> Z) `{Hinj : !Inj (=) (=) addr}.

(** the addresses from [k] on are new *)
Definition fresh_from (k : nat) (s : t) : Prop := forall j, (k <= j)%nat -> entries s !! addr j = None.

Lemma fresh_same k s s' : entries s' = entries s -> fresh_from k s -> fresh_from k s'.
Proof. unfold fresh_from. by intros ->. Qed.

Lemma fresh_next k s s' x : entries s' = <[addr k := x]> (entries s) -> fresh_from k s -> fresh_from (S k) s'.
Proof. intros E Hf j Hj. rewrite E, lookup_insert_ne; [apply Hf; lia|]. intros Ej%(inj addr). lia. Qed.

Lemma fresh_weaken k k' s : (k <= k')%nat -> fresh_from k s -> fresh_from k' s.
Proof. intros Hk Hf j Hj. apply Hf. lia. Qed.

Lemma enqueue_focus_keeps s v i window hasFocus : newAddress v = addr -> fresh_from i s ->
  keeps s (enqueueFocusEventLocked s v i window hasFocus) /\ fresh_from (S i) (enqueueFocusEventLocked s v i window hasFocus).
Proof. intros Ea Hf. destruct (enqueue_focus_ok s v i window hasFocus) as [Hk He]; [rewrite Ea; by apply Hf|]. rewrite Ea in He. split; [done|]. by eapply fresh_next. Qed.

Lemma leave_focus_keeps s v i displayId h s' : newAddress v = addr -> leave_focus s v i displayId h = Some s' -> fresh_from i s -> keeps s s' /\ fresh_from (S i) s'.
Proof.
  unfold leave_focus. intros Ea E Hf. destruct (cancel_window _ _ _ _ _) as [[b s1]|] eqn:E1; [|done]. apply cancel_window_spec in E1 as (Hk & w & -> & _).
  assert (Hf1 : fresh_from i (s <| world := w |>)) by (by eapply fresh_same). destruct b; simplify_eq.
  - destruct (enqueue_focus_keeps (s <| world := w |>) v i h false Ea Hf1) as [Hk2 Hf2]. split; [|by eapply fresh_same]. etrans; [exact Hk|]. etrans; [exact Hk2|]. by apply (keeps_touches (lower v)).
  - split; [etrans; [exact Hk|by apply (keeps_touches (lower v))]|]. eapply fresh_weaken; [|by eapply fresh_same]. lia.
Qed.

Lemma change_focus_keeps s v i displayId old new s' : newAddress v = addr -> change_focus s v i displayId old new = Some s' -> fresh_from i s -> keeps s s' /\ fresh_from (S (S i)) s'.
Proof.
  unfold change_focus. intros Ea E Hf. destruct (same_token _ _ _); [simplify_eq; split; [done|]; eapply fresh_weaken; [|done]; lia|].
  destruct (match old with Some h => _ | None => _ end) as [s1|] eqn:E1; cbn [mbind option_bind] in E; [|done].
  assert (H1 : keeps s s1 /\ fresh_from (S i) s1).
  { destruct old; [by eapply leave_focus_keeps|]. simplify_eq. split; [done|]. eapply fresh_weaken; [|done]. lia. }
  destruct H1 as [Hk1 Hf1]. set (s2 := match new with Some h => _ | None => s1 end) in E.
  assert (H2 : keeps s1 s2 /\ fresh_from (S (S i)) s2).
  { unfold s2. destruct new as [h|]; [|split; [done|]; eapply fresh_weaken; [|done]; lia].
    destruct (enqueue_focus_keeps (set_focus <[displayId := h]> s1) v (S i) h true Ea) as [Hk Hf2]; [by eapply fresh_same|]. split; [|done]. etrans; [|exact Hk]. by apply (keeps_touches (lower v)). }
  destruct H2 as [Hk2 Hf2]. clearbody s2. simplify_eq. destruct (_ =? displayId); [|split; [by etrans|done]]. split; [|by eapply fresh_same].
  etrans; [exact Hk1|]. etrans; [exact Hk2|]. by apply (keeps_touches (lower v)).
Qed.

End Addresses.

Lemma remove_touched_spec v ws : forall s j kept s', remove_touched s v j ws = Some (kept, s') ->
  keeps s s' /\ kept `sublist_of` ws /\ exists w, s' = s <| world := w |> /\ same_touches (world s) w.
Proof.
  induction ws as [|x ws IH]; intros s j kept s' E; cbn [remove_touched] in E.
  { simplify_eq. split; [done|]. split; [done|]. exists (world s'). by destruct s'. }
  destruct (hasWindowHandleLocked _ _).
  - destruct (remove_touched s v (S j) ws) as [[kept1 s1]|] eqn:E1; [|done]. simplify_eq. destruct (IH _ _ _ _ E1) as (Hk & Hs & Hw). split; [done|]. split; [by constructor|done].
  - destruct (cancel_window _ _ _ _ _) as [[b s1]|] eqn:E1; [|done]. apply cancel_window_spec in E1 as (Hk1 & w1 & -> & Hw1).
    destruct (IH _ _ _ _ E) as (Hk2 & Hs & w2 & -> & Hw2). split; [by etrans|]. split; [by constructor|]. exists w2. split; [done|by etrans].
Qed.

Lemma touch_ok_sublist state kept : kept `sublist_of` TouchState.windows state -> touch_ok state -> touch_ok (state <| TouchState.windows := kept |>).
Proof.
  intros Hs [Hn Hf]. split; simpl.
  - eapply sublist_NoDup; [exact Hn|]. exact (fmap_sublist TouchState.windowHandle _ _ Hs).
  - rewrite Forall_forall in *. intros x Hx. apply Hf. by eapply elem_of_sublist.
Qed.

Lemma update_touch_keeps s v displayId s' : update_touch s v displayId = Some s' -> keeps s s' /\ entries s' = entries s.
Proof.
  unfold update_touch. intros E. destruct (InputDispatcher.lookup_list _ _) as [state|] eqn:El; [|by simplify_eq].
  destruct (remove_touched _ _ _ _) as [[kept s1]|] eqn:E1; [|done]. simplify_eq. destruct (remove_touched_spec _ _ _ _ _ _ E1) as (Hk & Hs & w & -> & [[= Et _ _ _] _]). split; [|done].
  etrans; [exact Hk|]. apply keeps_quiet; [quiet|]. apply (sim_update (lower (v 0%nat))); [|by apply fewer_same]. simpl. intros Hok. apply assign_Forall; [|exact Hok]. apply touch_ok_sublist; [done|]. eapply touches_lookup; [exact Hok|]. simpl. by rewrite Et.
Qed.

Lemma release_channels_touches hs : forall d, standing (release_channels hs d) = standing d.
Proof. induction hs as [|h hs IH]; intros d; [done|]. cbn. etrans; [apply IH|]. by destruct (hasWindowHandleLocked d h). Qed.

Lemma update_handle_touches channels displayId ids r g : standing (update_handle channels displayId ids r g).1 = standing r.1.
Proof. unfold update_handle. destruct (_ || _); [done|]. destruct (old_handle _ _); [|done]. by destruct (_ =? _). Qed.

Lemma update_windows_touches channels d gs displayId : standing (updateWindowHandlesForDisplayLocked channels d gs displayId) = standing d.
Proof.
  unfold updateWindowHandlesForDisplayLocked. destruct gs as [|g0 gs0]; [done|]. generalize (g0 :: gs0) as gs. intros gs. cbv zeta.
  set (ids := map _ _). clearbody ids. match goal with |- standing (?r.1 <| _ := _ |>) = _ => change (standing r.1 = standing (d, @nil Z).1) end. generalize (d, @nil Z) as r.
  induction gs as [|g gs IH]; intros r; [done|]. cbn [foldl]. etrans; [apply IH|apply update_handle_touches].
Qed.

Lemma windows_keeps addr `{!Inj (=) (=) addr} s v i gs displayId s' : newAddress (v 0%nat) = addr -> setInputWindowsLocked s v i gs displayId = Some s' -> fresh_from addr i s ->
  keeps s s' /\ fresh_from addr (S (S i)) s'.
Proof.
  unfold setInputWindowsLocked. intros Ea E Hf. set (s1 := on_shared _ s) in E. assert (H1 : keeps s s1) by (apply (keeps_touches (lower (v 0%nat))), update_windows_touches).
  assert (Hf1 : fresh_from addr i s1) by (by eapply fresh_same). clearbody s1. set (s2 := if _ : bool then s1 else _) in E.
  assert (H2 : keeps s1 s2) by (unfold s2; case_match; [done|by apply (keeps_touches (lower (v 0%nat)))]). assert (Hf2 : fresh_from addr i s2) by (unfold s2; case_match; [done|by eapply fresh_same]). clearbody s2.
  destruct (change_focus _ _ _ _ _ _) as [s3|] eqn:E3; cbn [mbind option_bind] in E; [|done]. destruct (change_focus_keeps addr _ _ _ _ _ _ _ Ea E3 Hf2) as [H3 Hf3].
  destruct (update_touch _ _ _) as [s4|] eqn:E4; cbn [mbind option_bind] in E; [|done]. destruct (update_touch_keeps _ _ _ _ E4) as [H4 He4]. simplify_eq.
  split; [|eapply fresh_same; [exact He4|done]]. etrans; [exact H1|]. etrans; [exact H2|]. etrans; [exact H3|]. etrans; [exact H4|]. apply (keeps_touches (lower (v 0%nat))), release_channels_touches.
Qed.

Lemma set_displays_keeps addr `{!Inj (=) (=) addr} V gs : (forall n j, newAddress (V n j) = addr) -> forall s n s', set_displays s V n gs = Some s' -> fresh_from addr (n * 2) s -> keeps s s'.
Proof.
  intros Ea. induction gs as [|[displayId g] gs IH]; intros s n s' E Hf; cbn [set_displays] in E; [by simplify_eq|].
  destruct (setInputWindowsLocked _ _ _ _ _) as [s1|] eqn:E1; cbn [mbind option_bind] in E; [|done]. destruct (windows_keeps addr _ _ _ _ _ _ (Ea n 0%nat) E1 Hf) as [Hk Hf1].
  etrans; [exact Hk|]. eapply IH; [exact E|]. eapply fresh_weaken; [|exact Hf1]. lia.
Qed.

(** *** Arrivals *)

Lemma enqueue_spec s currentTime a x b s' : enqueueInboundEventLocked s currentTime a x = Some (b, s') -> Entry.is_focus x = false /\ mInboundQueue s' = mInboundQueue s ++ [a] /\
  mPendingEvent s' = mPendingEvent s /\ entries s' = entries s /\ mDispatchFrozen s' = mDispatchFrozen s /\ thread s' = thread s /\ awake s' = awake s /\ (mInboundQueue s = [] -> b = true).
Proof.
  unfold enqueueInboundEventLocked, Entry.is_focus. intros E. destruct (Entry.event x) as [k|m| | |]; try done.
  - repeat case_match; simplify_eq; repeat split; try done; intros ->; by rewrite bool_decide_true.
  - destruct (shouldPruneInboundQueueLocked _ _ _) as [[b1 s1]|] eqn:E1; [|done].
    destruct (prune_spec _ _ _ _ _ E1) as [-> | ->]; destruct b1; simplify_eq; repeat split; try done; intros ->; by rewrite bool_decide_true.
  - simplify_eq. repeat split; try done. intros ->. by rewrite bool_decide_true.
  - simplify_eq. repeat split; try done. intros ->. by rewrite bool_decide_true.
Qed.

Lemma enqueue_new_spec v `{!Inj (=) (=) (newAddress v)} xs : forall s i s', enqueue_new s v i xs = Some s' -> fresh_from (newAddress v) i s -> Forall (fun x => valid_event (Entry.event x)) xs ->
  let new := map (newAddress v) (seq i (length xs)) in
  mInboundQueue s' = mInboundQueue s ++ new /\ mPendingEvent s' = mPendingEvent s /\ extends (entries s) (entries s') /\ mDispatchFrozen s' = mDispatchFrozen s /\ thread s' = thread s /\
  Forall (fun a => is_Some (entries s' !! a) /\ focus_at (entries s') a = false) new /\
  (awake s = true -> awake s' = true) /\ (mInboundQueue s = [] -> xs <> [] -> awake s' = true) /\
  (forall k x, xs !! k = Some x -> exists x', entries s' !! newAddress v (i + k) = Some x' /\ same_event (Entry.event x) (Entry.event x')).
Proof.
  induction xs as [|x xs IH]; intros s i s' E Hf Hv; cbn [enqueue_new] in E.
  { simplify_eq. simpl. rewrite app_nil_r. by split_and!. }
  set (a := newAddress v i) in *. set (s1 := s <| entries := <[a := x]> (entries s) |>) in E. apply Forall_cons in Hv as [Hx Hv].
  destruct (enqueueInboundEventLocked s1 _ a x) as [[b s2]|] eqn:E1; [|done]. destruct (enqueue_spec _ _ _ _ _ _ E1) as (Hfo & Hq2 & Hp2 & He2 & Hfr2 & Ht2 & Ha2 & Hb).
  set (s3 := if b then wake s2 else s2) in E. assert (He3 : entries s3 = <[a := x]> (entries s)) by (unfold s3; destruct b; exact He2).
  destruct (IH s3 (S i) s' E) as (Hq & Hp & He & Hfr & Ht & Hnew & Ha & Hempty & Hat); [by eapply fresh_next|done|].
  assert (Hext : extends (entries s) (entries s3)) by (rewrite He3; apply extends_insert; [apply Hf; lia|done]).
  assert (Hs3 : mInboundQueue s3 = mInboundQueue s ++ [a] /\ mPendingEvent s3 = mPendingEvent s /\ mDispatchFrozen s3 = mDispatchFrozen s /\ thread s3 = thread s) by (unfold s3; destruct b; done).
  destruct Hs3 as (Hq3 & Hp3 & Hf3 & Ht3). cbn [length seq map]. fold a. rewrite Hq, Hq3, <- app_assoc. split_and!; try congruence; [done|by etrans| | | |].
  - constructor; [|done]. assert (Hl : is_Some (entries s3 !! a)) by (rewrite He3; by rewrite lookup_insert_eq). split; [destruct Hl as [y Hy]; destruct (ext_old _ _ He a y Hy) as (y' & Hy' & _); by exists y'|].
    rewrite (focus_at_ext _ _ _ He Hl). unfold focus_at. rewrite He3, lookup_insert_eq. done.
  - intros Hw. apply Ha. unfold s3. destruct b; [done|]. by rewrite Ha2.
  - intros Hnil _. apply Ha. unfold s3. by rewrite (Hb Hnil).
  - intros [|k] y Hy; simpl in Hy; [|rewrite <- plus_n_Sm; by apply Hat]. simplify_eq. rewrite Nat.add_0_r. apply (ext_old _ _ He a y). by rewrite He3, lookup_insert_eq.
Qed.

(** ** Every call *)

(** an event that nobody has taken will be: the thread has been woken up or wakes up at once,
    or it is stopped, or another event is before it *)
Definition attended (s : t) : Prop :=
  awake s = true \/ mDispatchFrozen s = true \/ is_Some (mPendingEvent s) \/ mInboundQueue s = [] \/
  match thread s with Polling next => next <= LONG_LONG_MIN | Commands next ran => ran = true \/ next <= LONG_LONG_MIN end.

(** the events that wait are the last ones of those that waited and of the new ones *)
Record advances (new : list Z) (s s' : t) : Prop := {
  adv_steps : inv (world s) -> touch_inv (world s) -> rtc InputSystem.step (world s) (world s');
  adv_queue : queue_ok s -> queue_ok s' /\ waiting s' `suffix_of` waiting s ++ new;
  adv_attended : attended s -> attended s';
  adv_owed : inv (world s) -> touch_inv (world s) -> queue_ok s -> owed s -> owed s' }.

Lemma sim_steps w w' : sim w w' -> inv w -> touch_inv w -> rtc InputSystem.step w w'.
Proof. intros H Hi Ht. by apply H. Qed.

Lemma advances_keeps s s' : keeps s s' -> (attended s -> attended s') -> advances [] s s'.
Proof.
  intros Hk Ha. split; [by apply sim_steps, keeps_sim| |done|by apply keeps_owed]. intros Hok. destruct (keeps_queue _ _ Hk Hok) as [Hok' ->]. by rewrite app_nil_r.
Qed.

Lemma advances_quiet s s' : quiet s s' -> sim (world s) (world s') -> advances [] s s'.
Proof.
  intros Hq Hs. apply advances_keeps; [by apply keeps_quiet|]. destruct Hq as [Qq Qp _ Qf Qt Qa]. unfold attended. rewrite Qq, Qp, Qf, Qt. intros [H|H]; [left; auto|by right].
Qed.

Lemma advances_woken s s' : keeps s s' -> awake s' = true -> advances [] s s'.
Proof. intros Hk Ha. apply advances_keeps; [done|by left]. Qed.

Lemma advances_below b w s : sim (world s) w -> advances [] s (below b w s).
Proof. intros Hs. apply advances_quiet; [|done]. split; try done; destruct b; done. Qed.

(** the queue is emptied *)
Lemma advances_empty s s' : sim (world s) (world s') -> entries s' = entries s -> mPendingEvent s' = None -> mInboundQueue s' = [] ->
  (forall a i, a ∈ line s -> injected_by (entries s) a i -> ~ undecided (world s') i) -> advances [] s s'.
Proof.
  intros Hs He Hp Hq Hr. assert (Hl : line s' = []) by (unfold line; by rewrite Hp, Hq).
  split; [by apply sim_steps| |right; right; right; by left|intros Hi Ht _; apply owed_from; [by apply Hs|by rewrite He|]; intros a i [_ Ha]%list_elem_of_filter Hia Hu; by destruct (Hr a i)].
  intros [V K F P]. split; [split|].
  - by rewrite He.
  - rewrite Hl. constructor.
  - exists [], []. by rewrite Hq.
  - congruence.
  - unfold waiting. rewrite Hl. apply suffix_nil.
Qed.

Lemma quiet_release a s : quiet s (releaseInboundEventLocked a s).
Proof. unfold releaseInboundEventLocked, addRecentEventLocked. destruct (at_address s a); case_bool_decide; quiet. Qed.

Lemma reset_spec s v s' : resetAndDropEverythingLocked s v = Some s' -> sim (world s) (world s') /\ entries s' = entries s /\ mPendingEvent s' = None /\ mInboundQueue s' = [] /\
  forall a i, a ∈ line s -> injected_by (entries s) a i -> ~ undecided (world s') i.
Proof.
  unfold resetAndDropEverythingLocked. intros E. destruct (cancel_all _ _ _) as [s1|] eqn:E1; cbn [mbind option_bind] in E; [|done]. simplify_eq.
  destruct (keeps_cancel_all _ _ _ _ E1) as [Hk (w & ->)]. set (s2 := releasePendingEventLocked _). destruct (release_pending_spec (resetKeyRepeatLocked (s <| world := w |>))) as (P1 & P2 & P3 & _). fold s2 in P1, P2, P3.
  assert (Hd : forall l s3, entries (foldl (fun s a => releaseInboundEventLocked a s) s3 l) = entries s3 /\ mPendingEvent (foldl (fun s a => releaseInboundEventLocked a s) s3 l) = mPendingEvent s3).
  { induction l as [|a l IH]; intros s3; [done|]. simpl. destruct (IH (releaseInboundEventLocked a s3)) as [-> ->]. split; [|apply (quiet_pending _ _ (quiet_release a s3))].
    apply release_entries. }
  destruct (Hd (mInboundQueue s2) s2) as [De Dp]. split.
  - etrans; [exact (keeps_sim _ _ Hk)|]. etrans; [exact (sim_release_pending (lower v) (resetKeyRepeatLocked (s <| world := w |>)))|]. fold s2. etrans; [exact (sim_drain (lower v) s2)|]. apply (sim_update (lower v)); [intros _; constructor|by apply fewer_same].
  - split; [exact (eq_trans De P3)|]. split; [exact (eq_trans Dp P1)|]. split; [done|]. intros a i Ha Hia.
    change (~ undecided (world (foldl (fun s a => releaseInboundEventLocked a s) s2 (mInboundQueue s2))) i). apply elem_of_app in Ha as [Ha|Ha]; [|by apply (drain_answers a); [rewrite P2|rewrite P3]].
    intros Hu. apply drain_fewer in Hu. revert Hu. unfold s2, releasePendingEventLocked. simpl. destruct (mPendingEvent s) as [p|]; [|by apply elem_of_nil in Ha]. apply list_elem_of_singleton in Ha as ->. by apply release_answers.
Qed.

(** the addresses of the events that come with a call: those that arrive, and the repeat of a
    key, for which there is only time if no event waits *)
Definition arrivals (s : t) (V : nat -> nat -> env) (x : call) : list Z :=
  let addr := newAddress (V 0%nat 0%nat) in
  match x with
  | Enqueue xs | Inject _ xs => map addr (seq 0 (length xs))
  | Begin _ => match line s with [] => [addr 0%nat] | _ => [] end
  | _ => []
  end.

Lemma advances_enqueue v `{!Inj (=) (=) (newAddress v)} xs s s' : enqueue_new s v 0 xs = Some s' -> fresh_from (newAddress v) 0 s -> Forall (fun x => valid_event (Entry.event x)) xs ->
  advances (map (newAddress v) (seq 0 (length xs))) s s'.
Proof.
  intros E Hf Hv. destruct (enqueue_new_spec v xs s 0 s' E Hf Hv) as (Hq & Hp & He & Hfr & Ht & Hnew & Ha & Hempty & _). set (new := map _ _) in *.
  assert (Hline : line s' = line s ++ new) by (unfold line; by rewrite Hp, Hq, app_assoc). apply Forall_and in Hnew as [Hknown Hfocus].
  assert (Hwait : queue_ok s -> waiting s' = waiting s ++ new).
  { intros [V K _ _]. unfold waiting. rewrite Hline, filter_app, (filter_ext _ _ _ He K). by rewrite (filter_nonfocus _ new Hfocus). }
  split; [by eapply sim_steps, sim_enqueue_new| | |].
  - intros Hok. rewrite (Hwait Hok). split; [|done]. revert Hok. clear Hwait. intros [V K (F & N & Eq & HF & HN) P]. split.
    + by eapply extends_valid.
    + rewrite Hline. apply Forall_app. split; [by eapply known_ext|done].
    + unfold line in K. apply Forall_app in K as [_ K]. rewrite Eq in K. apply Forall_app in K as [KF KN]. exists F, (N ++ new). rewrite Hq, Eq, <- app_assoc. split; [done|]. split; [by eapply focus_ext|].
      apply Forall_app. split; [by eapply focus_ext|done].
    + intros p Hp'. rewrite Hp in Hp'. rewrite Hq, app_comm_cons. apply Forall_app. split; [|done]. unfold line in K. rewrite Hp' in K. eapply focus_ext; [done|exact K|by apply P].
  - unfold attended. rewrite Hfr, Hp, Ht. intros [H|[H|[H|[H|H]]]]; [left; auto|right; by left|right; right; by left| |by do 4 right].
    destruct xs as [|x xs]; [right; right; right; left; rewrite Hq, H; done|]. left. by apply Hempty.
  - intros Hi Hti Hok. apply owed_from; [by eapply sim_enqueue_new|done|]. intros a i Hin _ _. rewrite (Hwait Hok). set_solver.
Qed.

Lemma line_split s a l : queue_ok s -> line s = a :: l ->
  (exists F N, l = F ++ N /\ Forall (fun b => focus_at (entries s) b = true) F /\ Forall (fun b => focus_at (entries s) b = false) N) /\
  (focus_at (entries s) a = false -> Forall (fun b => focus_at (entries s) b = false) (a :: l)).
Proof.
  intros [V K (F & N & Eq & HF & HN) P] Hl. unfold line in Hl. destruct (mPendingEvent s) as [p|] eqn:Ep; simpl in Hl.
  - simplify_eq. specialize (P a eq_refl). split; [|done]. exists [], (mInboundQueue s). split; [done|]. split; [constructor|by inversion P].
  - rewrite Eq in Hl. destruct F as [|f F]; simpl in Hl; simplify_eq.
    + split; [|done]. exists [], l. split; [done|]. split; [constructor|by inversion HN].
    + apply Forall_cons in HF as [Hf HF]. split; [by exists F, N|congruence].
Qed.

(** the events that wait after a turn, from those before it *)
Lemma advances_turn v s s' next : turn s v s' next -> extends (entries s) (entries s') -> queue_ok s ->
  queue_ok s' /\ waiting s' `suffix_of` waiting s ++ match line s with [] => [newAddress v 0] | _ => [] end.
Proof.
  intros Ht He Hok. pose proof (queue_known _ Hok) as K. assert (Hv : valid_entries (entries s')) by (eapply extends_valid; [done|by apply queue_valid]).
  assert (Hempty : mPendingEvent s' = None -> mInboundQueue s' = [] -> queue_ok s' /\ waiting s' `suffix_of` waiting s ++ match line s with [] => [newAddress v 0] | _ => [] end).
  { intros Hp Hq. assert (Hl : line s' = []) by (unfold line; by rewrite Hp, Hq). split; [split; [done|rewrite Hl; constructor|exists [], []; by rewrite Hq|congruence]|]. unfold waiting at 1. rewrite Hl. apply suffix_nil. }
  destruct Ht as [Hf Hp Hq|_ Hp Hq|a x Hl Hp Hx Hfo|a Hl Hp _ _].
  - destruct (queue_ok_line s s' Hok He Hp Hq) as [Hok' ->]. split; [done|]. destruct (line s) eqn:El; [|by rewrite app_nil_r]. unfold waiting. rewrite El. apply suffix_nil.
  - by apply Hempty.
  - assert (Ha : focus_at (entries s') a = false) by (unfold focus_at; by rewrite Hx).
    assert (H : Forall (fun b => is_Some (entries s' !! b)) (a :: mInboundQueue s') /\ Forall (fun b => focus_at (entries s') b = false) (a :: mInboundQueue s')).
    { destruct Hl as [Hl|(Hl & -> & ->)]; [|split; repeat constructor; by rewrite ?Hx]. rewrite Hl in K. split; [by eapply known_ext|]. eapply focus_ext; [done|done|].
      apply (proj2 (line_split s a _ Hok Hl)). apply Forall_cons in K as [Ka _]. by rewrite <- (focus_at_ext _ _ _ He Ka). }
    destruct H as [HK HF]. assert (Hl' : line s' = a :: mInboundQueue s') by (unfold line; by rewrite Hp). split; [split|].
    + done.
    + by rewrite Hl'.
    + exists [], (mInboundQueue s'). split; [done|]. split; [constructor|by inversion HF].
    + intros p Hp'. rewrite Hp in Hp'. by injection Hp' as <-.
    + unfold waiting. rewrite Hl'. rewrite (filter_nonfocus _ _ HF). destruct Hl as [Hl|(Hl & -> & ->)]; rewrite Hl in *; [|done]. rewrite <- (filter_ext _ _ _ He K), (filter_nonfocus _ _ HF), app_nil_r. done.
  - destruct Hl as [Hl|(_ & _ & Hl)]; [|by apply Hempty]. destruct (line_split s a _ Hok Hl) as [(F & N & Eq & HF & HN) _]. rewrite Hl in K. apply Forall_cons in K as [Ka K].
    assert (Hl' : line s' = mInboundQueue s') by (unfold line; by rewrite Hp). split; [split|].
    + done.
    + rewrite Hl'. by eapply known_ext.
    + rewrite Eq in K |- *. apply Forall_app in K as [KF KN]. exists F, N. split; [done|]. split; by eapply focus_ext.
    + congruence.
    + unfold waiting. rewrite Hl', Hl, app_nil_r, (filter_ext _ _ _ He K), filter_cons. case_decide; [by apply suffix_cons_r|done].
Qed.

Lemma owed_turn v s s' next : turn s v s' next -> fewer (world s) (world s') -> extends (entries s) (entries s') -> queue_ok s -> owed s -> owed s'.
Proof.
  intros Ht Hf He Hok. pose proof (queue_known _ Hok) as K. apply owed_from; [done..|]. intros a i [Ha Hin]%list_elem_of_filter Hia Hu. apply list_elem_of_filter.
  split; [rewrite Forall_forall in K; by rewrite (focus_at_ext _ _ _ He (K a Hin))|]. destruct Ht as [_ Hp Hq|Hl _ _|b x Hl Hp _ _|b Hl Hp _ Hb].
  - unfold line in *. by rewrite Hp, Hq.
  - rewrite Hl in Hin. by apply elem_of_nil in Hin.
  - destruct Hl as [Hl|(Hl & _)]; rewrite Hl in Hin; [|by apply elem_of_nil in Hin]. unfold line. by rewrite Hp.
  - destruct Hl as [Hl|(Hl & _)]; rewrite Hl in Hin; [|by apply elem_of_nil in Hin]. unfold line. rewrite Hp. apply elem_of_cons in Hin as [->|Hin]; [|done]. destruct (Hb i); [by eapply injected_ext|done].
Qed.

Lemma advances_begin s v perm s' : begin_turn s v perm = Some s' -> InputDispatcher.running (world s) = None -> no_clones (world s) -> entries s !! newAddress v 0 = None -> queue_ok s ->
  advances (match line s with [] => [newAddress v 0] | _ => [] end) s s'.
Proof.
  unfold begin_turn. intros E Hr Hc Hn Hok. set (s0 := s <| awake := false |>) in E. destruct (haveCommandsLocked s0) eqn:Hcmd.
  { simplify_eq. split; [done| | |].
    - intros _. destruct (queue_ok_line s (s0 <| thread := Commands LONG_LONG_MAX (haveCommandsLocked s0) |>) Hok) as [Hok' ->]; [done..|]. split; [done|].
      destruct (line s) eqn:El; [|by rewrite app_nil_r]. unfold waiting. rewrite El. apply suffix_nil.
    - intros _. do 4 right. left. exact Hcmd.
    - intros _ _ _. apply owed_from; [done..|]. by intros a i Ha _ _. }
  destruct (dispatchOnceInnerLocked s0 v perm LONG_LONG_MAX) as [[s1 next]|] eqn:E1; [|done]. simplify_eq.
  destruct (inner_spec _ _ _ _ _ _ E1) as (Hs & He & Hf & Ht); [done|by apply (queue_valid s)|done|done|]. split; [exact (sim_steps _ _ Hs)| | |].
  - intros _. destruct (advances_turn v s0 s1 next Ht He) as [Hok1 Hw1]; [by apply (queue_ok_line s s0)|].
    destruct (queue_ok_line s1 (s1 <| thread := Commands next (haveCommandsLocked s1) |>) Hok1) as [Hok' ->]; [done..|]. done.
  - intros _. unfold attended. simpl. destruct Ht as [Hfr Hp Hq|_ Hp Hq|a x Hl Hp Hx Hfo|a Hl Hp Hmin _]; [right; left; congruence|by do 3 right; left|right; right; left; by rewrite Hp|].
    do 5 right. lia.
  - intros Hi Hti _ Ho. assert (H1 : owed s1) by (eapply (owed_turn v s0 s1 next Ht); [by apply Hs|done|by apply (queue_ok_line s s0)|exact Ho]). exact H1.
Qed.

Lemma advances_answer s v ans s' : answer s v ans = Some s' -> advances [] s s'.
Proof.
  unfold answer. intros E. destruct (InputDispatcher.running (world s)) as [r|] eqn:Er; cbn [mbind option_bind] in E; [|done].
  assert (Hq : quiet s (answer_entries s (now v) ans)).
  { unfold answer_entries. rewrite Er. destruct r as [| | |a]; try done.
    - destruct (restarted _ _ _ _ _) as [[e code]|]; [|done]. apply quiet_on_entry. intros x. unfold replace_key. destruct (Entry.event x) eqn:Ex; simpl; by rewrite ?Ex.
    - apply quiet_on_entry. intros x. unfold intercepted. destruct (_ <? _); [reflexivity|]. destruct (_ =? _); reflexivity. }
  assert (Hw : world (answer_entries s (now v) ans) = world s) by (unfold answer_entries; rewrite Er; destruct r; try done; by repeat case_match).
  apply advances_quiet; [etrans; [exact Hq|by eapply quiet_on_world]|]. rewrite <- Hw. eapply sim_on_world; [exact E|]. intros w Ew. rewrite Hw.
  eapply (sim_call _ (lower v) (InputSystem.Answer ans)); [|done|done]. simpl. by rewrite Er.
Qed.

(** the last event knows its injector *)
Lemma mark_last_spec i xs : xs <> [] -> Forall injectable xs -> exists k x, mark_last i xs !! k = Some x /\ injectionState (Entry.event x) = Some i /\ (k < length xs)%nat.
Proof.
  intros Hne Hxs. induction Hxs as [|x xs Hx Hxs IH]; [done|]. destruct xs as [|y xs].
  - exists 0%nat, (with_injection i x). split; [done|]. split; [|simpl; lia]. unfold injectable in Hx. unfold with_injection. by destruct (Entry.event x).
  - destruct IH as (k & z & Hk & Hi & Hlt); [done|]. exists (S k), z. split; [done|]. split; [done|]. simpl in *. lia.
Qed.

Lemma mark_last_valid i xs : Forall arrives xs -> Forall (fun x => valid_event (Entry.event x)) (mark_last i xs).
Proof.
  intros Hxs. induction Hxs as [|x xs (Hx & _) Hxs IH]; [constructor|]. destruct xs as [|y xs]; [|by constructor]. repeat constructor. unfold with_injection. destruct (Entry.event x) eqn:Ex; simpl; by rewrite ?Ex.
Qed.

Lemma mark_last_length i xs : length (mark_last i xs) = length xs.
Proof. induction xs as [|x [|y xs] IH]; [done|done|]. simpl in *. by rewrite IH. Qed.

Lemma advances_inject v `{!Inj (=) (=) (newAddress v)} i xs s s' : inject_entries s v i xs = Some s' -> fresh_from (newAddress v) 0 s -> Forall arrives xs -> xs <> [] -> Forall injectable xs ->
  advances (map (newAddress v) (seq 0 (length xs))) s s'.
Proof.
  unfold inject_entries. intros E Hf Hxs Hne Hkinds. pose proof (mark_last_length i xs) as Hlen. pose proof (mark_last_valid i xs Hxs) as Hv. rewrite <- Hlen. set (s1 := on_shared _ s) in E. destruct (advances_enqueue v _ s1 s' E Hf Hv) as [Hs Hq Ha Ho].
  assert (H1 : queue_ok s -> queue_ok s1 /\ waiting s1 = waiting s) by (intros Hok; by apply queue_ok_line).
  assert (Hstep : touch_inv (world s) -> InputSystem.step (world s) (world s1)) by (intros Ht; apply (update_step (lower v)); apply Ht).
  split.
  - intros Hi Ht. etrans; [by apply rtc_once, Hstep|]. apply Hs; [by eapply inv_same|done].
  - intros Hok. destruct (H1 Hok) as [Hok1 Hw]. rewrite <- Hw. by apply Hq.
  - exact Ha.
  - intros Hi Ht Hok Howed j Hj. destruct (H1 Hok) as [Hok1 Hw]. destruct (enqueue_new_spec v _ s1 0 s' E Hf Hv) as (Hq' & Hp & He & _ & _ & Hnew & _ & _ & Hat).
    assert (Hfew : fewer (world s1) (world s')) by (eapply (sim_enqueue_new v _ s1 0 s' E); [by eapply inv_same|done]). specialize (Hfew j Hj). destruct (decide (j = i)) as [->|Hji].
    + destruct (mark_last_spec i xs Hne Hkinds) as (k & x & Hk & Hix & Hlt). destruct (Hat k x Hk) as (x' & Hx' & Hsame). assert (Hin : newAddress v k ∈ map (newAddress v) (seq 0 (length (mark_last i xs)))).
      { apply elem_of_map. exists k. split; [apply elem_of_seq; lia|done]. }
      exists (newAddress v k). split; [|exists x'; split; [done|]; rewrite <- Hix; destruct (Entry.event x), (Entry.event x'); simpl in *; congruence].
      apply list_elem_of_filter. split; [by apply (proj1 (Forall_forall _ _) Hnew)|]. unfold line. rewrite Hq'. set_solver.
    + destruct (Howed j) as (a & Hain & Hia); [unfold undecided in *; simpl in Hfew; by rewrite lookup_insert_ne in Hfew|]. exists a. split; [|by eapply injected_ext].
      apply list_elem_of_filter in Hain as [Hfo Hain]. apply list_elem_of_filter. pose proof (queue_known _ Hok) as K. rewrite Forall_forall in K. split; [by rewrite (focus_at_ext _ _ _ He (K a Hain))|].
      unfold line in *. rewrite Hp, Hq'. set_solver.
Qed.

Lemma advances_end s v next ran s' : end_turn s v next ran = Some s' -> thread s = Commands next ran -> InputDispatcher.running (world s) = None -> advances [] s s'.
Proof.
  unfold end_turn. intros E Ht Hr. destruct (InputDispatcher.processAnrsLocked _ _) as [[n w]|] eqn:Ea; cbn [mbind option_bind] in E; [|done]. simplify_eq. simpl.
  assert (Hs : sim (world s) w) by (eapply (sim_call _ (lower v) CheckAnrs); [cbn [InputSystem.perform]; unfold now in Ea; by rewrite Ea|done|done]).
  set (s' := s <| world := w |> <| thread := _ |>). assert (Hok : queue_ok s -> queue_ok s' /\ waiting s' = waiting s) by (intros Hok; by apply queue_ok_line). split.
  - by apply (sim_steps _ _ Hs).
  - intros Hs0. destruct (Hok Hs0) as [Hok' ->]. by rewrite app_nil_r.
  - unfold attended. rewrite Ht. simpl. intros [H|[H|[H|[H|H]]]]; [by left|right; by left|right; right; by left|do 3 right; by left|]. do 4 right. destruct H as [-> |H]; [lia|]. destruct ran; lia.
  - intros Hi Hti Hs0. destruct (Hok Hs0) as [_ Hw]. apply owed_from; [by apply Hs|done|]. by rewrite Hw.
Qed.

Lemma reset_woken s s0 v s' f : resetAndDropEverythingLocked s0 v = Some s' -> sim (world s) (world s0) -> entries s0 = entries s -> line s0 = line s ->
  (forall s1, world (f s1) = world s1 /\ entries (f s1) = entries s1 /\ mPendingEvent (f s1) = mPendingEvent s1 /\ mInboundQueue (f s1) = mInboundQueue s1) -> advances [] s (f s').
Proof.
  intros E Hs He Hl Hf. destruct (reset_spec _ _ _ E) as (Hs' & He' & Hp & Hq & Hr). destruct (Hf s') as (Fw & Fe & Fp & Fq). apply advances_empty; [rewrite Fw; by etrans|rewrite Fe; congruence|congruence|congruence|]. rewrite Fw, <- Hl, <- He. exact Hr.
Qed.

Lemma advances_mode s v enabled frozen s' : setInputDispatchMode s v enabled frozen = Some s' -> advances [] s s'.
Proof.
  unfold setInputDispatchMode. intros E. destruct (_ && _); [simplify_eq; by apply advances_quiet|].
  set (s1 := if mDispatchFrozen s && negb frozen then _ else s) in E. assert (H1 : keeps s s1 /\ entries s1 = entries s /\ line s1 = line s) by (unfold s1; destruct (_ && _); [split; [by apply (keeps_touches (lower v))|done]|done]).
  destruct H1 as (Hk & He & Hl). clearbody s1. destruct (mDispatchEnabled s1 && negb enabled).
  - destruct (resetAndDropEverythingLocked s1 v) as [s2|] eqn:E2; cbn [mbind option_bind] in E; [|done]. simplify_eq.
    apply (reset_woken s s1 v s2 (fun s => wake (s <| mDispatchEnabled := enabled |> <| mDispatchFrozen := frozen |>)) E2); [by apply keeps_sim|done..].
  - cbn [mbind option_bind] in E. simplify_eq. set (s2 := wake _). assert (Hok : queue_ok s -> queue_ok s2 /\ waiting s2 = waiting s).
    { intros Hok. destruct (keeps_queue _ _ Hk Hok) as [Hok1 <-]. by apply queue_ok_line. }
    split; [exact (sim_steps _ _ (keeps_sim _ _ Hk))| |by left|].
    + intros Hs. destruct (Hok Hs) as [Hok' ->]. by rewrite app_nil_r.
    + intros Hi Hti Hs. destruct (Hok Hs) as [_ Hw]. apply owed_from; [by apply (keeps_sim _ _ Hk)|exact (keeps_entries _ _ Hk)|]. by rewrite Hw.
Qed.

Lemma advances_filter s v enabled s' : setInputFilterEnabled s v enabled = Some s' -> advances [] s s'.
Proof.
  unfold setInputFilterEnabled. intros E. case_bool_decide; [simplify_eq; by apply advances_quiet|].
  destruct (resetAndDropEverythingLocked _ v) as [s2|] eqn:E2; cbn [mbind option_bind] in E; [|done]. simplify_eq. by apply (reset_woken s _ v s2 wake E2).
Qed.

Lemma advances_display s v displayId s' : setFocusedDisplay s v displayId = Some s' -> advances [] s s'.
Proof.
  unfold setFocusedDisplay. intros E. destruct (_ =? displayId); [simplify_eq; by apply advances_woken; [apply keeps_wake|]|].
  destruct (match Dispatcher.mFocusedWindowHandlesByDisplay (shared s) !! _ with Some h => _ | None => _ end) as [[b s1]|] eqn:E1; cbn [mbind option_bind] in E; [|done].
  assert (H1 : keeps s s1) by (destruct (Dispatcher.mFocusedWindowHandlesByDisplay _ !! _) in E1; [by apply cancel_window_spec in E1 as [? _]|by simplify_eq]). clear E1. simplify_eq.
  apply advances_woken; [|done]. etrans; [exact H1|]. etrans; [|apply keeps_wake]. unfold onFocusChangedLocked, post. etrans; [|by apply (keeps_touches (lower v))]. by apply (keeps_touches (lower v)).
Qed.

Lemma sim_snd {A} w v x (r : option (A * InputDispatcher.t)) y : r = Some y -> InputSystem.perform w v x = snd <$> r -> InputSystem.legal w x -> match x with Update _ => False | _ => True end -> sim w y.2.
Proof. intros -> E Hl Hx. by eapply sim_call. Qed.

Lemma perform_advances s V x s' : perform s V x = Some s' -> legal s V x -> queue_ok s -> advances (arrivals s V x) s s'.
Proof.
  intros E [(Ha & Hi & Hn) Hl] Hok. set (v := V 0%nat 0%nat) in *. assert (Hfresh : fresh_from (newAddress v) 0 s) by (intros j _; apply Hn).
  destruct x; cbn [perform arrivals] in *; fold v in E |- *.
  - destruct Hl as (_ & Hr & Hc). by eapply advances_begin.
  - destruct Hl as [_ Hr]. apply advances_quiet; [by eapply quiet_on_world|]. eapply sim_on_world; [exact E|]. intros w Ew. by eapply (sim_call _ (lower v) InputSystem.RunCommand).
  - by eapply advances_answer.
  - destruct Hl as [Hr _]. destruct (thread s) as [|next ran] eqn:Et; [done|]. by eapply advances_end.
  - destruct Hl as [_ Hr]. destruct (InputDispatcher.receive_signals _ _ _ _) as [w|] eqn:Ew; cbn [mbind option_bind] in E; [|done]. simplify_eq.
    apply advances_below. by eapply (sim_call _ (lower v) (InputSystem.Signals _ _)).
  - eapply advances_enqueue; [exact Hi|done|done|]. eapply Forall_impl; [exact Hl|]. by intros x [? _].
  - destruct Hl as (Hxs & Hne & Hkinds). by eapply advances_inject.
  - simplify_eq. apply advances_quiet; unfold accelerateMetaShortcuts; repeat case_match; first [quiet|done].
  - unfold setInputWindows in E. destruct (set_displays _ _ _ _) as [s1|] eqn:E1; cbn [mbind option_bind] in E; [|done]. simplify_eq. apply advances_woken; [|done].
    etrans; [|apply keeps_wake]. eapply (set_displays_keeps (newAddress v)); [exact Ha|exact E1|exact Hfresh].
  - by eapply advances_display.
  - by eapply advances_mode.
  - by eapply advances_filter.
  - simplify_eq. apply advances_quiet; [quiet|]. by apply (sim_touches (lower v)).
  - simplify_eq. apply advances_below. by eapply (sim_call _ (lower v) (InputSystem.SetFocusedApplication _ _ _)).
  - destruct (InputDispatcher.transferTouchFocus _ _ _ _) as [r|] eqn:Er; cbn [mbind option_bind] in E; [|done]. simplify_eq. apply advances_below. eapply (sim_snd _ (lower v) (InputSystem.Transfer _ _)); [exact Er|done|done|done].
  - destruct (InputDispatcher.pilferPointers _ _ _) as [r|] eqn:Er; cbn [mbind option_bind] in E; [|done]. simplify_eq. apply advances_below. eapply (sim_snd _ (lower v) (InputSystem.Pilfer _)); [exact Er|done|done|done].
  - simplify_eq. apply advances_below. by eapply (sim_call _ (lower v) (InputSystem.Register _ _)).
  - simplify_eq. apply advances_below. by eapply (sim_call _ (lower v) (InputSystem.RegisterMonitor _ _ _ _)).
  - destruct (InputDispatcher.unregisterInputChannelLocked _ _ _) as [r|] eqn:Er; cbn [mbind option_bind] in E; [|done]. simplify_eq. apply advances_below. eapply (sim_snd _ (lower v) (InputSystem.Unregister _ _)); [exact Er|done|done|done].
Qed.

(** ** Every state *)

Record ok (s : t) : Prop := { ok_inv : inv (world s); ok_touch : touch_inv (world s); ok_queue : queue_ok s; ok_attended : attended s; ok_owed : owed s }.

Lemma initial_ok s : initial s -> ok s /\ waiting s = [].
Proof.
  intros (Hw & Hres & He & Hq & Hp & _ & _). assert (Hl : line s = []) by (unfold line; by rewrite Hp, Hq). destruct (reachable_inv (world s)) as [Hi Ht]; [by exists (world s)|].
  split; [|unfold waiting; by rewrite Hl]. split; [done|done| |by do 3 right; left|intros i; unfold undecided; by rewrite Hres]. split.
  - rewrite He. apply map_Forall_empty.
  - rewrite Hl. constructor.
  - exists [], []. by rewrite Hq.
  - congruence.
Qed.

Lemma call_ok s V x s' : legal s V x -> perform s V x = Some s' -> ok s -> rtc InputSystem.step (world s) (world s') /\ ok s' /\ waiting s' `suffix_of` waiting s ++ arrivals s V x.
Proof.
  intros Hl E [Hi Ht Hq Ha Ho]. destruct (perform_advances _ _ _ _ E Hl Hq) as [S Q A O]. specialize (S Hi Ht). destruct (steps_inv _ _ S Hi Ht) as [Hi' Ht']. destruct (Q Hq) as [Hq' Hw].
  split; [done|]. split; [|done]. split; auto.
Qed.

Lemma steps_ok s s' : rtc step s s' -> ok s -> rtc InputSystem.step (world s) (world s') /\ ok s'.
Proof. induction 1 as [|s s1 s2 (V & x & Hl & E) _ IH]; [done|]. intros Hok. destruct (call_ok _ _ _ _ Hl E Hok) as (H1 & Hok1 & _). destruct (IH Hok1). split; [by etrans|done]. Qed.

Lemma inbound_reachable_ok s : reachable s -> InputSystem.reachable (world s) /\ ok s.
Proof. intros (s0 & H0 & Hs). destruct (steps_ok _ _ Hs) as [H1 H2]; [by apply initial_ok|]. destruct H0 as [Hw _]. split; [by exists (world s0)|done]. Qed.

(** a run, with the events that come in, in order *)
Inductive runs (s : t) : list Z -> t -> Prop :=
  | runs_start : runs s [] s
  | runs_call l s1 V x s2 : runs s l s1 -> legal s1 V x -> perform s1 V x = Some s2 -> runs s (l ++ arrivals s1 V x) s2.

Lemma runs_ok s l s' : runs s l s' -> ok s -> waiting s = [] -> ok s' /\ waiting s' `suffix_of` l.
Proof.
  intros Hr Hok Hw. induction Hr as [|l s1 V x s2 _ IH Hl E]; [by rewrite Hw|]. destruct IH as [Hok1 [k Hk]]. destruct (call_ok _ _ _ _ Hl E Hok1) as (_ & Hok2 & Hs). split; [done|].
  etrans; [exact Hs|]. exists k. by rewrite Hk, app_assoc.
Qed.

End System.

End InboundSystem.
