(* ===== verification/InputScenarios.v ===== *)
(** * Runs of the input dispatcher

    Concrete sets of bits, instances of the interfaces of PointerCoords.v in which bit 0 is
    the most significant one, and a small world on which the statements about the dispatcher
    are evaluated: two windows of one display, each with a channel, and a touch screen. *)

From S2P Require Import Prelude Region PointerCoords InputEvents InputState InputProtocol InputConnection InputStreams InputCancel InputTransfer InputOperations InputDispatcher InputTargets InputTouch InputSystem.

Module Msb32.

Definition hasBit (b n : Z) : bool := (0 <=? n) && (n <? 32) && Z.testbit b (31 - n).
Definition members (b : Z) : list Z := bits_below (hasBit b) 32.

Lemma hasBit_lor a b n : hasBit (Z.lor a b) n = hasBit a n || hasBit b n.
Proof. unfold hasBit. rewrite Z.lor_spec. btauto. Qed.

Lemma hasBit_zero n : hasBit 0 n = false.
Proof. unfold hasBit. rewrite Z.bits_0. apply andb_false_r. Qed.

Lemma hasBit_range b n : hasBit b n = true -> 0 <= n < 32.
Proof. unfold hasBit. intros H. bool_to_prop. lia. Qed.

Lemma marked_bit b n m : 0 <= n < 32 -> 0 <= m < 32 -> hasBit (Z.lor b (Z.shiftl 1 (31 - n))) m = (m =? n) || hasBit b m.
Proof.
  intros Hn Hm. unfold hasBit. rewrite Z.lor_spec, Z.shiftl_1_l, Z.pow2_bits_eqb by lia.
  rewrite (proj2 (Z.leb_le 0 m)), (proj2 (Z.ltb_lt m 32)) by lia. simpl. rewrite orb_comm. f_equal.
  destruct (m =? n) eqn:E; bool_to_prop; [apply Z.eqb_eq|apply Z.eqb_neq]; lia.
Qed.

Lemma cleared_bit b n m : 0 <= n < 32 -> 0 <= m < 32 -> hasBit (Z.ldiff b (Z.shiftl 1 (31 - n))) m = negb (m =? n) && hasBit b m.
Proof.
  intros Hn Hm. unfold hasBit. rewrite Z.ldiff_spec, Z.shiftl_1_l, Z.pow2_bits_eqb by lia.
  rewrite (proj2 (Z.leb_le 0 m)), (proj2 (Z.ltb_lt m 32)) by lia. simpl. rewrite andb_comm. do 2 f_equal.
  destruct (m =? n) eqn:E; bool_to_prop; [apply Z.eqb_eq|apply Z.eqb_neq]; lia.
Qed.

#[global] Program Instance bits : BitSet32.ops := {|
  BitSet32.hasBit := hasBit;
  BitSet32.count := fun b => Z.of_nat (length (members b));
  BitSet32.isEmpty := fun b => bool_decide (members b = []);
  BitSet32.firstMarkedBit := fun b => default 32 (head (members b));
  BitSet32.markBit := fun b n => Z.lor b (Z.shiftl 1 (31 - n));
  BitSet32.clearBit := fun b n => Z.ldiff b (Z.shiftl 1 (31 - n)) |}.
Next Obligation. apply hasBit_range. Qed.
Next Obligation. done. Qed.
Next Obligation. intros b. apply bool_decide_eq_true. Qed.
Next Obligation. intros b n H. unfold members. by rewrite H. Qed.
Next Obligation. apply hasBit_zero. Qed.
Next Obligation. apply marked_bit. Qed.
Next Obligation. apply cleared_bit. Qed.
Next Obligation. apply hasBit_lor. Qed.

End Msb32.

Module Msb64.

Definition hasBit (b n : Z) : bool := (0 <=? n) && (n <? 64) && Z.testbit b (63 - n).

Lemma hasBit_mark b n m : 0 <= n < 64 -> 0 <= m < 64 -> hasBit (Z.lor b (Z.shiftl 1 (63 - n))) m = (m =? n) || hasBit b m.
Proof.
  intros Hn Hm. unfold hasBit. rewrite Z.lor_spec, Z.shiftl_1_l, Z.pow2_bits_eqb by lia.
  rewrite (proj2 (Z.leb_le 0 m)), (proj2 (Z.ltb_lt m 64)) by lia. simpl. rewrite orb_comm. f_equal.
  destruct (m =? n) eqn:E; bool_to_prop; [apply Z.eqb_eq|apply Z.eqb_neq]; lia.
Qed.

Lemma hasBit64_zero n : hasBit 0 n = false.
Proof. unfold hasBit. rewrite Z.bits_0. apply andb_false_r. Qed.

#[global] Program Instance bits : BitSet64.ops := {|
  BitSet64.hasBit := hasBit;
  BitSet64.count := fun b => Z.of_nat (length (bits_below (hasBit b) 64));
  BitSet64.isEmpty := fun b => bool_decide (bits_below (hasBit b) 64 = []);
  BitSet64.getIndexOfBit := fun b n => Z.of_nat (length (bits_below (hasBit b) n));
  BitSet64.markBit := fun b n => Z.lor b (Z.shiftl 1 (63 - n)) |}.
Next Obligation. apply hasBit64_zero. Qed.
Next Obligation. done. Qed.
Next Obligation. intros b. apply bool_decide_eq_true. Qed.
Next Obligation. done. Qed.
Next Obligation. apply hasBit_mark. Qed.

End Msb64.

Import InputDispatcher.

(** ** Running *)

Fixpoint run (w : t) (calls : list (env * call)) : option t :=
  match calls with
  | [] => Some w
  | (v, x) :: rest => w ← perform w v x; run w rest
  end.

Lemma run_app l l' w : run w (l ++ l') = w' ← run w l; run w' l'.
Proof. revert w; induction l as [|[v x] l IH]; intros w; simpl; [done|]. destruct (perform w v x); simpl; [apply IH|done]. Qed.

(** ** The world *)

Definition window (token : Z) : InputWindowInfo.t :=
  InputWindowInfo.mk token token 0 2 5000000000 0 0 100 100 F32.one F32.one F32.one Region.new true true true false false 1000 1000 0 0 (-1) 1.

Definition touch_state : TouchState.t := TouchState.mk true false 1 4098 0 [TouchState.touched 1 257 0] [] [].

Definition config : Dispatcher.t :=
  Dispatcher.mk 1 [] [] ∅ {[1 := window 10; 2 := window 20]} [(0, [1; 2])] {[0 := 1]} 0 false [(0, touch_state)] ∅ None None 0 5000000000 None None ∅.

Definition w0 : t := mk config ∅ [] ∅ [] [] None.

Lemma touch_state_ok : touch_ok touch_state.
Proof. split; [vm_compute; repeat constructor; set_solver|]. repeat constructor. Qed.

Lemma w0_initial : initial w0.
Proof. do 4 (split; [done|]). apply Forall_singleton, touch_state_ok. Qed.

Definition channel1 : InputChannel.t := InputChannel.mk 1 10 5.
Definition channel2 : InputChannel.t := InputChannel.mk 2 20 6.

(** time [n], sockets that take everything *)
Definition at_time (n : Z) : env :=
  environment n (fun _ => choices (fun i => 1000 + i) (fun i => 2000 + i)) (fun _ i => 3000 + Z.of_nat i) (fun _ j i => 4000 + Z.of_nat i) (fun _ _ => InputPublisher.Complete).

(** sockets with the result [r] *)
Definition sending (r : InputPublisher.send_result) (n : Z) : env :=
  environment n (fun _ => choices (fun i => 1000 + i) (fun i => 2000 + i)) (fun _ i => 3000 + Z.of_nat i) (fun _ j i => 4000 + Z.of_nat i) (fun _ _ => r).

Definition finger (i : Z) : pointer := touch (properties i 1) PointerCoords.empty.

Definition motion (source action : Z) (pointers : list pointer) : MotionEntry.t :=
  MotionEntry.mk 7 0 0 1 source 0 action 0 0 0 0 0 0 F32.one F32.one F32.zero F32.zero 0 pointers None.

Definition TOUCHSCREEN : Z := 4098.

Definition key (action keyCode flags : Z) : KeyEntry.t := KeyEntry.mk 8 0 0 1 257 0 action flags keyCode 0 0 0 0 None.

(** a target that is the whole window *)
Definition whole : InputTarget.t := InputTarget.new <| InputTarget.flags := 257 |>.

Definition registered : list (env * call) := [(at_time 0, Register 100 channel1); (at_time 0, Register 101 channel2)].
Definition touched_down : list (env * call) := registered ++ [(at_time 1, Dispatch 50 (Motion (motion TOUCHSCREEN AMOTION_EVENT_ACTION_DOWN [finger 0])) [(10, whole)])].

Definition world (calls : list (env * call)) : t := default w0 (run w0 calls).

Lemma reachable_start : reachable (world []).
Proof. exists w0. split; [apply w0_initial|constructor]. Qed.

(** one more call *)
Lemma reachable_next calls v x : is_Some (run w0 calls) -> reachable (world calls) -> legal (world calls) x -> is_Some (perform (world calls) v x) -> reachable (world (calls ++ [(v, x)])).
Proof.
  intros [w Ew] (w1 & Hi & Hs) Hl [w' E']. exists w1. split; [done|]. eapply rtc_r; [exact Hs|]. exists v, x. split; [done|].
  unfold world in *. rewrite run_app, Ew in *. simpl in *. rewrite E'. done.
Qed.

Ltac evaluates := vm_compute; eexists; reflexivity.

Lemma registered_reachable : reachable (world registered).
Proof.
  apply (reachable_next [(at_time 0, Register 100 channel1)]); [evaluates| |vm_compute; reflexivity|evaluates].
  apply (reachable_next []); [evaluates|apply reachable_start|vm_compute; reflexivity|evaluates].
Qed.

Lemma whole_ok : target_ok whole.
Proof. intros H. vm_compute in H. discriminate. Qed.

Lemma touched_down_reachable : reachable (world touched_down).
Proof.
  apply reachable_next; [evaluates|apply registered_reachable| |evaluates].
  split; [vm_compute; reflexivity|]. split; [done|]. repeat constructor. apply whole_ok.
Qed.

Example touched_down_sent : (fun c => map message_view (Connection.channel c)) <$> (connections (world touched_down) !! 100) = Some [Some ((1, 4098, 0), 0)].
Proof. vm_compute. reflexivity. Qed.
