(* ===== verification/InputConsumer.v ===== *)
(** * The consumer's end of an input channel (libs/input/InputTransport.cpp, Input.cpp)

    What an application does with the messages that the input dispatcher writes to its
    socket: [InputConsumer] receives them, collects the moves of a device in batches,
    resamples them to the time of a frame, hands them to the application as [InputEvent]s and
    answers each message with a finished signal, which [InputPublisher] receives.

    - A function is [None] where the behaviour is undefined (an array read out of its bounds
      or where nothing was written, signed overflow) or the process ends.
    - The results of the successive calls of [::recv], after the attempts that were
      interrupted, are an argument [recvs]; when it is used up the socket is empty. The
      results of [::send] are an argument by sequence number. At most one event is created
      in a call of [consume]; [created] says whether the factory had the memory for it.
    - The signature of a message is left out, as in InputConnection.v. A [PointerCoords]
      that is copied is the same value: what lies behind its axes is never read.
    - The arrays of a touch history are maps of the indices that were written. *)

From S2P Require Import Prelude PointerCoords InputEvents InputState InputConnection.

Definition AMOTION_EVENT_TOOL_TYPE_UNKNOWN : Z := 0.
Definition AMOTION_EVENT_TOOL_TYPE_FINGER : Z := 1.
Definition AINPUT_SOURCE_CLASS_NONE : Z := 0.
Definition AINPUT_SOURCE_UNKNOWN : Z := 0.
Definition VIRTUAL_KEYBOARD_ID : Z := -1.
Definition ADISPLAY_ID_NONE : Z := -1.

(** ** Events as applications see them (Input.h, Input.cpp) *)

Module KeyEvent.

Record t := mk {
  mId : Z; mDeviceId : Z; mSource : Z; mDisplayId : Z; mAction : Z; mFlags : Z; mKeyCode : Z; mScanCode : Z; mMetaState : Z; mRepeatCount : Z;
  mDownTime : Z; mEventTime : Z }.

Definition initialize (id deviceId source displayId action flags keyCode scanCode metaState repeatCount downTime eventTime : Z) : t :=
  mk id deviceId (uint32 source) displayId action flags keyCode scanCode metaState repeatCount downTime eventTime.

End KeyEvent.

Module FocusEvent.

Record t := mk { mId : Z; mDeviceId : Z; mSource : Z; mDisplayId : Z; mHasFocus : bool; mInTouchMode : bool }.

Definition initialize (id : Z) (hasFocus inTouchMode : bool) : t :=
  mk id VIRTUAL_KEYBOARD_ID AINPUT_SOURCE_UNKNOWN ADISPLAY_ID_NONE hasFocus inTouchMode.

End FocusEvent.

Module MotionEvent.

Record t := mk {
  mId : Z; mDeviceId : Z; mSource : Z; mDisplayId : Z; mAction : Z; mActionButton : Z; mFlags : Z; mEdgeFlags : Z; mMetaState : Z; mButtonState : Z;
  mClassification : Z; mXScale : float32; mYScale : float32; mXOffset : float32; mYOffset : float32; mXPrecision : float32; mYPrecision : float32;
  mRawXCursorPosition : float32; mRawYCursorPosition : float32; mDownTime : Z;
  mPointerProperties : list PointerProperties; mSampleEventTimes : list Z; mSamplePointerCoords : list PointerCoords.t }.

Definition eta (e : t) : t :=
  mk (mId e) (mDeviceId e) (mSource e) (mDisplayId e) (mAction e) (mActionButton e) (mFlags e) (mEdgeFlags e) (mMetaState e) (mButtonState e)
     (mClassification e) (mXScale e) (mYScale e) (mXOffset e) (mYOffset e) (mXPrecision e) (mYPrecision e) (mRawXCursorPosition e) (mRawYCursorPosition e) (mDownTime e)
     (mPointerProperties e) (mSampleEventTimes e) (mSamplePointerCoords e).
#[global] Instance set_mMetaState : Setter mMetaState := ltac:(setter_of eta mMetaState).
#[global] Instance set_mXOffset : Setter mXOffset := ltac:(setter_of eta mXOffset).
#[global] Instance set_mYOffset : Setter mYOffset := ltac:(setter_of eta mYOffset).
#[global] Instance set_mSampleEventTimes : Setter mSampleEventTimes := ltac:(setter_of eta mSampleEventTimes).
#[global] Instance set_mSamplePointerCoords : Setter mSamplePointerCoords := ltac:(setter_of eta mSamplePointerCoords).

Definition getPointerCount (e : t) : nat := length (mPointerProperties e).
Definition getPointerId (e : t) (pointerIndex : nat) : option Z := id <$> mPointerProperties e !! pointerIndex.
Definition getToolType (e : t) (pointerIndex : nat) : option Z := toolType <$> mPointerProperties e !! pointerIndex.
Definition getHistorySize (e : t) : nat := length (mSampleEventTimes e) - 1.
Definition getEventTime (e : t) : option Z := mSampleEventTimes e !! getHistorySize e.
Definition getHistoricalEventTime (e : t) (historicalIndex : nat) : option Z := mSampleEventTimes e !! historicalIndex.

Definition getRawPointerCoords (e : t) (pointerIndex : nat) : option PointerCoords.t :=
  mSamplePointerCoords e !! (getHistorySize e * getPointerCount e + pointerIndex)%nat.
Definition getHistoricalRawPointerCoords (e : t) (pointerIndex historicalIndex : nat) : option PointerCoords.t :=
  mSamplePointerCoords e !! (historicalIndex * getPointerCount e + pointerIndex)%nat.

(** the array that is appended has to hold the coordinates of all pointers *)
Definition addSample (e : t) (eventTime : Z) (pointerCoords : list PointerCoords.t) : option t :=
  if (length pointerCoords <? getPointerCount e)%nat then None
  else Some (e <| mSampleEventTimes := mSampleEventTimes e ++ [eventTime] |>
               <| mSamplePointerCoords := mSamplePointerCoords e ++ take (getPointerCount e) pointerCoords |>).

Definition initialize (id deviceId source displayId action actionButton flags edgeFlags metaState buttonState classification : Z)
    (xScale yScale xOffset yOffset xPrecision yPrecision rawXCursorPosition rawYCursorPosition : float32) (downTime eventTime : Z)
    (pointerProperties : list PointerProperties) (pointerCoords : list PointerCoords.t) : option t :=
  addSample (mk id deviceId (uint32 source) displayId action actionButton flags edgeFlags metaState buttonState classification
               xScale yScale xOffset yOffset xPrecision yPrecision rawXCursorPosition rawYCursorPosition downTime pointerProperties [] []) eventTime pointerCoords.

Definition findPointerIndex (e : t) (pointerId : Z) : Z :=
  match list_find (fun p => id p = pointerId) (mPointerProperties e) with Some (i, _) => Z.of_nat i | None => -1 end.

Definition offsetLocation (e : t) (xOffset yOffset : float32) : t :=
  e <| mXOffset := F32.add (mXOffset e) xOffset |> <| mYOffset := F32.add (mYOffset e) yOffset |>.

Section Bits.
Context `{B64 : BitSet64.ops}.

(** [getAxisValue] and [getHistoricalAxisValue] of the coordinates [c] of a sample *)
Definition axis_value (e : t) (c : PointerCoords.t) (axis : Z) : float32 :=
  let value := PointerCoords.getAxisValue c axis in
  if axis =? PointerCoords.AMOTION_EVENT_AXIS_X then F32.add (F32.mul value (mXScale e)) (mXOffset e)
  else if axis =? PointerCoords.AMOTION_EVENT_AXIS_Y then F32.add (F32.mul value (mYScale e)) (mYOffset e)
  else value.

Definition getAxisValue (e : t) (axis : Z) (pointerIndex : nat) : option float32 :=
  c ← getRawPointerCoords e pointerIndex; Some (axis_value e c axis).
Definition getHistoricalAxisValue (e : t) (axis : Z) (pointerIndex historicalIndex : nat) : option float32 :=
  c ← getHistoricalRawPointerCoords e pointerIndex historicalIndex; Some (axis_value e c axis).

End Bits.

End MotionEvent.

Inductive InputEvent :=
  | AKeyEvent (e : KeyEvent.t)
  | AMotionEvent (e : MotionEvent.t)
  | AFocusEvent (e : FocusEvent.t).

(** ** Receiving (InputChannel::receiveMessage) *)

(** a message to the consumer, or one from it *)
Inductive Message := ToConsumer (m : InputMessage) | FinishedMsg (seq handled : Z).

(** [whole] says that as many bytes were read as a message of this type has; a datagram of
    an unknown type is one that is not *)
Inductive recv_result := Datagram (msg : Message) (whole : bool) | Eof | RecvFailed (errno : positive).

Definition isValid (msg : Message) (whole : bool) : bool :=
  whole && match msg with
           | ToConsumer (MotionMsg m) => (0 <? Z.of_nat (length (m_pointers m))) && (Z.of_nat (length (m_pointers m)) <=? MAX_POINTERS)
           | _ => true
           end.

(** the status, and the message that was read *)
Definition receiveMessage (r : recv_result) : status_t * option Message :=
  match r with
  | Datagram msg whole => (if isValid msg whole then OK else BAD_VALUE, Some msg)
  | Eof => (DEAD_OBJECT, None)
  | RecvFailed errno =>
    (if bool_decide (errno = 11%positive) then WOULD_BLOCK
     else if bool_decide (errno ∈ [32; 107; 111]%positive) then DEAD_OBJECT
     else - Z.pos errno, None)
  end.

(** [InputPublisher::receiveFinishedSignal]: the status, and what is stored in [outSeq] and
    [outHandled], which a message of another type leaves as they were *)
Definition receiveFinishedSignal (r : recv_result) : status_t * option (Z * bool) :=
  match receiveMessage r with
  | (result, msg) =>
    if negb (result =? OK) then (result, Some (0, false))
    else match msg with Some (FinishedMsg seq handled) => (OK, Some (seq, handled =? 1)) | _ => (UNKNOWN_ERROR, None) end
  end.

(** ** The history of a touch (InputTransport.h) *)

Definition NANOS_PER_MS : Z := 1000000.
Definition RESAMPLE_LATENCY : Z := 5 * NANOS_PER_MS.
Definition RESAMPLE_MIN_DELTA : Z := 2 * NANOS_PER_MS.
Definition RESAMPLE_MAX_DELTA : Z := 20 * NANOS_PER_MS.
Definition RESAMPLE_MAX_PREDICTION : Z := 8 * NANOS_PER_MS.

Definition lerp (a b alpha : float32) : float32 := F32.add a (F32.mul alpha (F32.sub b a)).

Definition isPointerEvent (source : Z) : bool := Z.land source AINPUT_SOURCE_CLASS_POINTER =? AINPUT_SOURCE_CLASS_POINTER.

Definition message_eta (m : MotionMessage) : MotionMessage :=
  motion_message (m_seq m) (m_eventId m) (m_deviceId m) (m_source m) (m_displayId m) (m_action m) (m_actionButton m) (m_flags m) (m_edgeFlags m) (m_metaState m)
    (m_buttonState m) (m_classification m) (m_xScale m) (m_yScale m) (m_xOffset m) (m_yOffset m) (m_xPrecision m) (m_yPrecision m) (m_xCursorPosition m) (m_yCursorPosition m)
    (m_downTime m) (m_eventTime m) (m_pointers m).
#[global] Instance set_m_pointers : Setter m_pointers := ltac:(setter_of message_eta m_pointers).

(** [msg.body.motion.getActionId()] *)
Definition getActionId (m : MotionMessage) : option Z :=
  id ∘ property <$> m_pointers m !! Z.to_nat (getMotionEventActionPointerIndex (m_action m)).

(** the id of a pointer as an index of 32 bits and of [idToIndex] *)
Definition pointer_id (i : Z) : option Z := if (0 <=? i) && (i <=? MAX_POINTER_ID) then Some i else None.

Module History.
Section Bits.
Context `{B32 : BitSet32.ops}.

Record t := mk { eventTime : Z; idBits : Z; idToIndex : gmap Z Z; pointers : gmap Z PointerCoords.t }.

(** the loop over the pointers of a message, from index [i] on *)
Fixpoint mark_pointers (h : t) (i : Z) (ps : list pointer) : option t :=
  match ps with
  | [] => Some h
  | p :: ps' =>
    n ← pointer_id (id (property p));
    mark_pointers (mk (eventTime h) (BitSet32.markBit (idBits h) n) (<[n := i]> (idToIndex h)) (<[i := coord p]> (pointers h))) (i + 1) ps'
  end.

(** [initializeFrom(const InputMessage&)] *)
Definition initializeFrom (h : t) (m : MotionMessage) : option t :=
  mark_pointers (mk (m_eventTime m) 0 (idToIndex h) (pointers h)) 0 (m_pointers m).

Fixpoint copy_pointers (ids : list Z) (other : t) (h : t) : option t :=
  match ids with
  | [] => Some h
  | n :: ids' =>
    index ← idToIndex other !! n;
    c ← pointers other !! index;
    copy_pointers ids' other (mk (eventTime h) (idBits h) (<[n := index]> (idToIndex h)) (<[index := c]> (pointers h)))
  end.

(** [initializeFrom(const History&)] *)
Definition copy (h other : t) : option t :=
  copy_pointers (BitSet32.members (idBits other)) other (mk (eventTime other) (idBits other) (idToIndex h) (pointers h)).

Definition getPointerById (h : t) (n : Z) : option PointerCoords.t := index ← idToIndex h !! n; pointers h !! index.

Definition hasPointerId (h : t) (n : Z) : bool := BitSet32.hasBit (idBits h) n.

(** not initialized *)
Definition new : t := mk 0 0 ∅ ∅.

End Bits.
End History.

Module TouchState.
Section Bits.
Context `{B32 : BitSet32.ops} `{B64 : BitSet64.ops}.

Record t := mk { deviceId : Z; source : Z; historyCurrent : Z; historySize : Z; history : list (option History.t); lastResample : History.t }.

Definition initialize (s : t) (deviceId source : Z) : t :=
  mk deviceId source 0 0 (history s) (History.mk 0 0 (History.idToIndex (lastResample s)) (History.pointers (lastResample s))).

(** the element that [mTouchStates.push()] adds; the histories are not initialized *)
Definition new : t := mk 0 0 0 0 [None; None] History.new.

Definition addHistory (s : t) (m : MotionMessage) : option t :=
  let current := Z.lxor (historyCurrent s) 1 in
  h ← history s !! Z.to_nat current;
  h ← History.initializeFrom (default History.new h) m;
  Some (mk (deviceId s) (source s) current (if historySize s <? 2 then historySize s + 1 else historySize s) (<[Z.to_nat current := Some h]> (history s)) (lastResample s)).

Definition getHistory (s : t) (index : Z) : option History.t := h ← history s !! Z.to_nat (Z.land (historyCurrent s + index) 1); h.

Definition recentCoordinatesAreIdentical (s : t) (n : Z) : option bool :=
  if historySize s <? 2 then Some false
  else
    current ← getHistory s 0;
    previous ← getHistory s 1;
    if negb (History.hasPointerId current n) || negb (History.hasPointerId previous n) then Some false
    else
      c ← History.getPointerById current n;
      p ← History.getPointerById previous n;
      Some (F32.eqb (PointerCoords.getAxisValue c PointerCoords.AMOTION_EVENT_AXIS_X) (PointerCoords.getAxisValue p PointerCoords.AMOTION_EVENT_AXIS_X)
            && F32.eqb (PointerCoords.getAxisValue c PointerCoords.AMOTION_EVENT_AXIS_Y) (PointerCoords.getAxisValue p PointerCoords.AMOTION_EVENT_AXIS_Y)).

Definition with_lastResample (s : t) (h : History.t) : t := mk (deviceId s) (source s) (historyCurrent s) (historySize s) (history s) h.

(** [lastResample.idBits.clearBit(n)] *)
Definition clear_resampled (s : t) (n : Z) : t :=
  let h := lastResample s in
  with_lastResample s (History.mk (History.eventTime h) (BitSet32.clearBit (History.idBits h) n) (History.idToIndex h) (History.pointers h)).

End Bits.
End TouchState.

(** ** The consumer *)

Module InputConsumer.

Record SeqChain := seq_chain { seq : Z; chain : Z }.

(** [channel] holds the finished signals that were written to the socket *)
Record t := mk {
  mResampleTouch : bool; mMsg : option Message; mMsgDeferred : bool; mBatches : list (list MotionMessage); mTouchStates : list TouchState.t;
  mSeqChains : list SeqChain; channel : list (Z * bool) }.

Definition eta (c : t) : t := mk (mResampleTouch c) (mMsg c) (mMsgDeferred c) (mBatches c) (mTouchStates c) (mSeqChains c) (channel c).
#[global] Instance set_mMsg : Setter mMsg := ltac:(setter_of eta mMsg).
#[global] Instance set_mMsgDeferred : Setter mMsgDeferred := ltac:(setter_of eta mMsgDeferred).
#[global] Instance set_mBatches : Setter mBatches := ltac:(setter_of eta mBatches).
#[global] Instance set_mTouchStates : Setter mTouchStates := ltac:(setter_of eta mTouchStates).
#[global] Instance set_mSeqChains : Setter mSeqChains := ltac:(setter_of eta mSeqChains).
#[global] Instance set_channel : Setter channel := ltac:(setter_of eta channel).

(** [resampling] is the property of the device *)
Definition new (resampling : bool) : t := mk resampling None false [] [] [] [].

Definition hasDeferredEvent (c : t) : bool := mMsgDeferred c.
Definition hasPendingBatch (c : t) : bool := negb (bool_decide (mBatches c = [])).
Definition getPendingBatchSource (c : t) : option Z :=
  match mBatches c with [] => Some AINPUT_SOURCE_CLASS_NONE | batch :: _ => m_source <$> head batch end.

(** *** Finished signals *)

Definition sendUnchainedFinishedSignal (send : Z -> InputPublisher.send_result) (c : t) (seq : Z) (handled : bool) : status_t * t :=
  match send seq with
  | InputPublisher.Complete => (OK, c <| channel := channel c ++ [(seq, handled)] |>)
  | InputPublisher.Incomplete => (DEAD_OBJECT, c)
  | InputPublisher.Failed errno =>
    (if bool_decide (errno = 11%positive) then WOULD_BLOCK
     else if bool_decide (errno ∈ [32; 107; 111; 104]%positive) then DEAD_OBJECT
     else - Z.pos errno, c)
  end.

(** the loop over [mSeqChains] from its end: what is left of it, the sequence numbers of the
    chain in the order in which they are found, and the last one *)
Fixpoint unchain (chains : list SeqChain) (currentSeq : Z) : list SeqChain * list Z * Z :=
  match chains with
  | [] => ([], [], currentSeq)
  | x :: chains' =>
    let '(rest, chainSeqs, current) := unchain chains' currentSeq in
    if seq x =? current then (rest, chainSeqs ++ [chain x], chain x) else (x :: rest, chainSeqs, current)
  end.

(** the loop over [chainSeqs] from its end: the status and the sequence numbers not sent *)
Fixpoint send_chain (send : Z -> InputPublisher.send_result) (c : t) (seqs : list Z) (handled : bool) : status_t * list Z * t :=
  match seqs with
  | [] => (OK, [], c)
  | q :: seqs' =>
    let '(status, c') := sendUnchainedFinishedSignal send c q handled in
    if status =? OK then send_chain send c' seqs' handled else (status, seqs, c')
  end.

(** each sequence number is chained to the one before it *)
Definition links (seqs : list Z) : list SeqChain := zip_with seq_chain (tail seqs) seqs.

Definition sendFinishedSignal (send : Z -> InputPublisher.send_result) (c : t) (seq : Z) (handled : bool) : status_t * t :=
  if seq =? 0 then (BAD_VALUE, c)
  else
    let '(rest, chainSeqs, _) := unchain (mSeqChains c) seq in
    let '(status, unsent, c) := send_chain send (c <| mSeqChains := rest |>) (rev chainSeqs) handled in
    if negb (status =? OK) then (status, c <| mSeqChains := mSeqChains c ++ links (unsent ++ [seq]) |>)
    else sendUnchainedFinishedSignal send c seq handled.

(** *** Searching *)

(** the device and source of a batch, those of its first sample *)
Definition of_stream (deviceId source : Z) (batch : list MotionMessage) : bool :=
  match batch with [] => false | m :: _ => (m_deviceId m =? deviceId) && (m_source m =? source) end.

Definition findBatch (c : t) (deviceId source : Z) : option nat := InputState.find_index (of_stream deviceId source) (mBatches c).

Definition findTouchState (states : list TouchState.t) (deviceId source : Z) : option nat :=
  InputState.find_index (fun s => (TouchState.deviceId s =? deviceId) && (TouchState.source s =? source)) states.

(** [operator==] of the properties of two pointers *)
Definition same_properties (p q : pointer) : bool := (id (property p) =? id (property q)) && (toolType (property p) =? toolType (property q)).

Definition canAddSample (batch : list MotionMessage) (m : MotionMessage) : option bool :=
  first ← head batch;
  if negb (length (m_pointers first) =? length (m_pointers m))%nat || negb (m_action first =? m_action m) then Some false
  else Some (forallb (fun x => same_properties x.1 x.2) (zip (m_pointers first) (m_pointers m))).

(** the number of samples up to [time] from the first one on; the code returns one less *)
Fixpoint samples_until (batch : list MotionMessage) (time : Z) : nat :=
  match batch with [] => 0 | m :: batch' => if m_eventTime m <=? time then S (samples_until batch' time) else 0 end.

Definition findSampleNoLaterThan (batch : list MotionMessage) (time : Z) : Z := Z.of_nat (samples_until batch time) - 1.

Section Bits.
Context `{B32 : BitSet32.ops} `{B64 : BitSet64.ops}.

(** *** Touch states *)

Definition set_xy (c from : PointerCoords.t) : PointerCoords.t :=
  let c := (PointerCoords.setAxisValue c PointerCoords.AMOTION_EVENT_AXIS_X (PointerCoords.getAxisValue from PointerCoords.AMOTION_EVENT_AXIS_X)).2 in
  (PointerCoords.setAxisValue c PointerCoords.AMOTION_EVENT_AXIS_Y (PointerCoords.getAxisValue from PointerCoords.AMOTION_EVENT_AXIS_Y)).2.

Definition rewrite_pointer (s : TouchState.t) (eventTime : Z) (p : pointer) : option (TouchState.t * pointer) :=
  n ← pointer_id (id (property p));
  let resampled := TouchState.lastResample s in
  if History.hasPointerId resampled n then
    keep ← (if eventTime <? History.eventTime resampled then Some true else TouchState.recentCoordinatesAreIdentical s n);
    if (keep : bool) then
      resampleCoords ← History.getPointerById resampled n;
      Some (s, touch (property p) (set_xy (coord p) resampleCoords))
    else Some (TouchState.clear_resampled s n, p)
  else Some (s, p).

Fixpoint rewrite_pointers (s : TouchState.t) (eventTime : Z) (ps : list pointer) : option (TouchState.t * list pointer) :=
  match ps with
  | [] => Some (s, [])
  | p :: ps' =>
    r ← rewrite_pointer s eventTime p;
    r' ← rewrite_pointers r.1 eventTime ps';
    Some (r'.1, r.2 :: r'.2)
  end.

Definition rewriteMessage (s : TouchState.t) (m : MotionMessage) : option (TouchState.t * MotionMessage) :=
  r ← rewrite_pointers s (m_eventTime m) (m_pointers m);
  Some (r.1, m <| m_pointers := r.2 |>).

(** what becomes of the state of a touch, none if it ends, and the message *)
Definition update_state (s : TouchState.t) (m : MotionMessage) : option (option TouchState.t * MotionMessage) :=
  let action := Z.land (m_action m) AMOTION_EVENT_ACTION_MASK in
  if action =? AMOTION_EVENT_ACTION_MOVE then
    s ← TouchState.addHistory s m;
    r ← rewriteMessage s m;
    Some (Some r.1, r.2)
  else if action =? AMOTION_EVENT_ACTION_POINTER_DOWN then
    n ← getActionId m;
    n ← pointer_id n;
    r ← rewriteMessage (TouchState.clear_resampled s n) m;
    Some (Some r.1, r.2)
  else if action =? AMOTION_EVENT_ACTION_POINTER_UP then
    r ← rewriteMessage s m;
    n ← getActionId m;
    n ← pointer_id n;
    Some (Some (TouchState.clear_resampled r.1 n), r.2)
  else if action =? AMOTION_EVENT_ACTION_SCROLL then
    r ← rewriteMessage s m;
    Some (Some r.1, r.2)
  else if (action =? AMOTION_EVENT_ACTION_UP) || (action =? AMOTION_EVENT_ACTION_CANCEL) then
    r ← rewriteMessage s m;
    Some (None, r.2)
  else Some (Some s, m).

Definition updateTouchState (c : t) (m : MotionMessage) : option (t * MotionMessage) :=
  if negb (mResampleTouch c) || negb (isPointerEvent (m_source m)) then Some (c, m)
  else
    let states := mTouchStates c in
    if Z.land (m_action m) AMOTION_EVENT_ACTION_MASK =? AMOTION_EVENT_ACTION_DOWN then
      let at_index := match findTouchState states (m_deviceId m) (m_source m) with
                      | Some index => (states, index)
                      | None => (states ++ [TouchState.new], length states)
                      end in
      s ← at_index.1 !! at_index.2;
      s ← TouchState.addHistory (TouchState.initialize s (m_deviceId m) (m_source m)) m;
      Some (c <| mTouchStates := <[at_index.2 := s]> at_index.1 |>, m)
    else
      match findTouchState states (m_deviceId m) (m_source m) with
      | None => Some (c, m)
      | Some index =>
        s ← states !! index;
        r ← update_state s m;
        Some (c <| mTouchStates := match r.1 with Some s => <[index := s]> states | None => delete index states end |>, r.2)
      end.

(** *** Resampling *)

Definition shouldResampleTool (toolType : Z) : bool :=
  (toolType =? AMOTION_EVENT_TOOL_TYPE_FINGER) || (toolType =? AMOTION_EVENT_TOOL_TYPE_UNKNOWN).

(** the float that an integer divided by another one becomes *)
Definition ratio (a b : Z) : float32 := F32.div (F32.of_Z a) (F32.of_Z b).

(** the other history, the time of the sample and the factor of the interpolation or
    extrapolation; [Some None] if the data do not allow one *)
Definition find_other (s : TouchState.t) (current : History.t) (sampleTime : Z) (next : option MotionMessage) : option (option (History.t * Z * float32)) :=
  match next with
  | Some m =>
    future ← History.initializeFrom History.new m;
    delta ← checked (History.eventTime future - History.eventTime current);
    if delta <? RESAMPLE_MIN_DELTA then Some None
    else
      past ← checked (sampleTime - History.eventTime current);
      Some (Some (future, sampleTime, ratio past delta))
  | None =>
    if 2 <=? TouchState.historySize s then
      other ← TouchState.getHistory s 1;
      delta ← checked (History.eventTime current - History.eventTime other);
      if delta <? RESAMPLE_MIN_DELTA then Some None
      else if RESAMPLE_MAX_DELTA <? delta then Some None
      else
        maxPredict ← checked (History.eventTime current + Z.min (Z.quot delta 2) RESAMPLE_MAX_PREDICTION);
        let sampleTime := if maxPredict <? sampleTime then maxPredict else sampleTime in
        ahead ← checked (History.eventTime current - sampleTime);
        Some (Some (other, sampleTime, ratio ahead delta))
    else Some None
  end.

(** the coordinates of a pointer at the time of the sample *)
Definition resample_coords (s : TouchState.t) (oldLastResample current other : History.t) (alpha : float32) (p : PointerProperties) : option PointerCoords.t :=
  n ← pointer_id (id p);
  identical ← (if History.hasPointerId oldLastResample n then TouchState.recentCoordinatesAreIdentical s n else Some false);
  if (identical : bool) then History.getPointerById oldLastResample n
  else
    currentCoords ← History.getPointerById current n;
    if History.hasPointerId other n && shouldResampleTool (toolType p) then
      otherCoords ← History.getPointerById other n;
      let at_axis axis := lerp (PointerCoords.getAxisValue currentCoords axis) (PointerCoords.getAxisValue otherCoords axis) alpha in
      let c := (PointerCoords.setAxisValue currentCoords PointerCoords.AMOTION_EVENT_AXIS_X (at_axis PointerCoords.AMOTION_EVENT_AXIS_X)).2 in
      Some (PointerCoords.setAxisValue c PointerCoords.AMOTION_EVENT_AXIS_Y (at_axis PointerCoords.AMOTION_EVENT_AXIS_Y)).2
    else Some currentCoords.

(** the loop over the pointers of the event from index [i] on; [h] becomes [lastResample] *)
Fixpoint resample_pointers (s : TouchState.t) (oldLastResample current other : History.t) (alpha : float32) (h : History.t) (i : Z) (ps : list PointerProperties) : option History.t :=
  match ps with
  | [] => Some h
  | p :: ps' =>
    n ← pointer_id (id p);
    c ← resample_coords s oldLastResample current other alpha p;
    resample_pointers s oldLastResample current other alpha
      (History.mk (History.eventTime h) (BitSet32.markBit (History.idBits h) n) (<[n := i]> (History.idToIndex h)) (<[i := c]> (History.pointers h))) (i + 1) ps'
  end.

(** the current sample has all pointers that are to be reported *)
Fixpoint has_all (current : History.t) (ps : list PointerProperties) : option bool :=
  match ps with
  | [] => Some true
  | p :: ps' => n ← pointer_id (id p); if History.hasPointerId current n then has_all current ps' else Some false
  end.

Definition resample (s : TouchState.t) (sampleTime : Z) (event : MotionEvent.t) (next : option MotionMessage) : option (TouchState.t * MotionEvent.t) :=
  if TouchState.historySize s <? 1 then Some (s, event)
  else
    current ← TouchState.getHistory s 0;
    all ← has_all current (MotionEvent.mPointerProperties event);
    if negb all then Some (s, event)
    else
      found ← find_other s current sampleTime next;
      match found with
      | None => Some (s, event)
      | Some (other, sampleTime, alpha) =>
        let last := TouchState.lastResample s in
        oldLastResample ← History.copy History.new last;
        h ← resample_pointers s oldLastResample current other alpha (History.mk sampleTime 0 (History.idToIndex last) (History.pointers last)) 0 (MotionEvent.mPointerProperties event);
        coords ← mapM (fun i => History.pointers h !! i) (seqZ 0 (Z.of_nat (MotionEvent.getPointerCount event)));
        event ← MotionEvent.addSample event sampleTime coords;
        Some (TouchState.with_lastResample s h, event)
      end.

Definition resampleTouchState (c : t) (sampleTime : Z) (event : MotionEvent.t) (next : option MotionMessage) : option (t * MotionEvent.t) :=
  if negb (mResampleTouch c) || negb (isPointerEvent (int32 (MotionEvent.mSource event))) || negb (MotionEvent.mAction event =? AMOTION_EVENT_ACTION_MOVE) then Some (c, event)
  else
    match findTouchState (mTouchStates c) (MotionEvent.mDeviceId event) (int32 (MotionEvent.mSource event)) with
    | None => Some (c, event)
    | Some index =>
      s ← mTouchStates c !! index;
      r ← resample s sampleTime event next;
      Some (c <| mTouchStates := <[index := r.1]> (mTouchStates c) |>, r.2)
    end.

(** *** Making events *)

Definition initializeKeyEvent (m : KeyMessage) : KeyEvent.t :=
  KeyEvent.initialize (k_eventId m) (k_deviceId m) (k_source m) (k_displayId m) (k_action m) (k_flags m) (k_keyCode m) (k_scanCode m) (k_metaState m) (k_repeatCount m) (k_downTime m) (k_eventTime m).

Definition initializeMotionEvent (m : MotionMessage) : option MotionEvent.t :=
  MotionEvent.initialize (m_eventId m) (m_deviceId m) (m_source m) (m_displayId m) (m_action m) (m_actionButton m) (m_flags m) (m_edgeFlags m) (m_metaState m) (m_buttonState m) (m_classification m)
    (m_xScale m) (m_yScale m) (m_xOffset m) (m_yOffset m) (m_xPrecision m) (m_yPrecision m) (m_xCursorPosition m) (m_yCursorPosition m) (m_downTime m) (m_eventTime m)
    (map property (m_pointers m)) (map coord (m_pointers m)).

Definition addSample (event : MotionEvent.t) (m : MotionMessage) : option MotionEvent.t :=
  MotionEvent.addSample (event <| MotionEvent.mMetaState := Z.lor (MotionEvent.mMetaState event) (m_metaState m) |>) (m_eventTime m) (map coord (m_pointers m)).

(** *** Consuming *)

(** the loop of [consumeSamples] after the first sample *)
Fixpoint add_samples (c : t) (event : MotionEvent.t) (chain : Z) (samples : list MotionMessage) : option (t * MotionEvent.t * Z) :=
  match samples with
  | [] => Some (c, event, chain)
  | m :: samples' =>
    r ← updateTouchState c m;
    event ← addSample event r.2;
    add_samples (r.1 <| mSeqChains := mSeqChains r.1 ++ [seq_chain (m_seq m) chain] |>) event (m_seq m) samples'
  end.

(** the event that holds the samples and the sequence number of the last one *)
Definition consume_samples (c : t) (samples : list MotionMessage) : option (t * MotionEvent.t * Z) :=
  match samples with
  | [] => None
  | m :: samples' =>
    r ← updateTouchState c m;
    event ← initializeMotionEvent r.2;
    add_samples r.1 event (m_seq m) samples'
  end.

(** [consumeSamples] on the batch at [index]; no event if there is no memory for it *)
Definition consumeSamples (created : bool) (c : t) (index count : nat) : option (t * option (MotionEvent.t * Z)) :=
  batch ← mBatches c !! index;
  if negb created then Some (c, None)
  else
    r ← consume_samples c (take count batch);
    let '(c, event, outSeq) := r in
    Some (c <| mBatches := <[index := drop count batch]> (mBatches c) |>, Some (event, outSeq)).

Definition remove_batch (index : nat) (c : t) : t := c <| mBatches := delete index (mBatches c) |>.

(** what a call returns: the status, and the event with its sequence number *)
Definition result : Type := status_t * option (Z * InputEvent).

Definition motion_result (out : option (MotionEvent.t * Z)) : result :=
  match out with Some (event, outSeq) => (OK, Some (outSeq, AMotionEvent event)) | None => (NO_MEMORY, None) end.

(** a turn of the loop of [consumeBatch], on the batch at [index], up to [sampleTime] *)
Definition consume_until (created : bool) (c : t) (index : nat) (batch : list MotionMessage) (sampleTime : Z) : option (result * t) :=
  r ← consumeSamples created c index (Z.to_nat (findSampleNoLaterThan batch sampleTime + 1));
  rest ← mBatches r.1 !! index;
  let c := if bool_decide (rest = []) then remove_batch index r.1 else r.1 in
  match r.2 with
  | Some (event, outSeq) =>
    if mResampleTouch c then
      s ← resampleTouchState c sampleTime event (head rest);
      Some (motion_result (Some (s.2, outSeq)), s.1)
    else Some (motion_result (Some (event, outSeq)), c)
  | None => Some (motion_result None, c)
  end.

(** the batches below [i], the last one first *)
Fixpoint consume_batches (created : bool) (frameTime : Z) (c : t) (i : nat) : option (result * t) :=
  match i with
  | O => Some ((WOULD_BLOCK, None), c)
  | S i =>
    batch ← mBatches c !! i;
    if frameTime <? 0 then
      r ← consumeSamples created c i (length batch);
      Some (motion_result r.2, remove_batch i r.1)
    else
      sampleTime ← checked (if mResampleTouch c then frameTime - RESAMPLE_LATENCY else frameTime);
      if findSampleNoLaterThan batch sampleTime <? 0 then consume_batches created frameTime c i
      else consume_until created c i batch sampleTime
  end.

Definition consumeBatch (created : bool) (frameTime : Z) (c : t) : option (result * t) := consume_batches created frameTime c (length (mBatches c)).

(** what a turn of the loop of [consume] comes to *)
Inductive turn := Continue (c : t) | Stop (r : result) (c : t).

(** the samples of a batch that is canceled are finished; failures are ignored *)
Definition cancel_batch (send : Z -> InputPublisher.send_result) (index : nat) (c : t) : option t :=
  batch ← mBatches c !! index;
  Some (remove_batch index (foldl (fun c m => (sendFinishedSignal send c (m_seq m) false).2) c batch)).

(** a motion that no batch is open for *)
Definition start_motion (created : bool) (c : t) (m : MotionMessage) : option turn :=
  if (m_action m =? AMOTION_EVENT_ACTION_MOVE) || (m_action m =? AMOTION_EVENT_ACTION_HOVER_MOVE) then Some (Continue (c <| mBatches := mBatches c ++ [[m]] |>))
  else if negb created then Some (Stop (NO_MEMORY, None) c)
  else
    r ← updateTouchState c m;
    event ← initializeMotionEvent r.2;
    Some (Stop (OK, Some (m_seq m, AMotionEvent event)) r.1).

Definition consume_motion (send : Z -> InputPublisher.send_result) (created : bool) (c : t) (m : MotionMessage) : option turn :=
  match findBatch c (m_deviceId m) (m_source m) with
  | Some index =>
    batch ← mBatches c !! index;
    can ← canAddSample batch m;
    if (can : bool) then Some (Continue (c <| mBatches := <[index := batch ++ [m]]> (mBatches c) |>))
    else if isPointerEvent (m_source m) && (m_action m =? AMOTION_EVENT_ACTION_CANCEL) then
      c ← cancel_batch send index c;
      start_motion created c m
    else
      r ← consumeSamples created (c <| mMsgDeferred := true |>) index (length batch);
      Some (Stop (motion_result r.2) (remove_batch index r.1))
  | None => start_motion created c m
  end.

(** the [switch] on the type of the message; a finished signal is fatal *)
Definition consume_message (send : Z -> InputPublisher.send_result) (created : bool) (c : t) : option turn :=
  msg ← mMsg c;
  match msg with
  | ToConsumer (KeyMsg m) => Some (if created then Stop (OK, Some (k_seq m, AKeyEvent (initializeKeyEvent m))) c else Stop (NO_MEMORY, None) c)
  | ToConsumer (MotionMsg m) => consume_motion send created c m
  | FinishedMsg _ _ => None
  | ToConsumer (FocusMsg seq eventId hasFocus inTouchMode) =>
    Some (if created then Stop (OK, Some (seq, AFocusEvent (FocusEvent.initialize eventId hasFocus inTouchMode))) c else Stop (NO_MEMORY, None) c)
  end.

(** no message was received *)
Definition end_of_messages (created consumeBatches : bool) (frameTime : Z) (c : t) (status : status_t) : option (result * t) :=
  if consumeBatches || negb (status =? WOULD_BLOCK) then
    consumeBatch created frameTime c
  else Some ((status, None), c).

(** The loop of [consume], and the results of [::recv] that are left. *)
Fixpoint consume_loop (fuel : nat) (send : Z -> InputPublisher.send_result) (created consumeBatches : bool) (frameTime : Z) (c : t) (recvs : list recv_result) :
    option (result * t * list recv_result) :=
  match fuel with
  | O => None
  | S fuel =>
    let continue c recvs :=
      x ← consume_message send created c;
      match x with
      | Continue c => consume_loop fuel send created consumeBatches frameTime c recvs
      | Stop r c => Some (r, c, recvs)
      end in
    if mMsgDeferred c then continue (c <| mMsgDeferred := false |>) recvs
    else
      let received := receiveMessage (default (RecvFailed 11) (head recvs)) in
      let c := match received.2 with Some msg => c <| mMsg := Some msg |> | None => c end in
      if received.1 =? OK then continue c (tail recvs)
      else
        r ← end_of_messages created consumeBatches frameTime c received.1;
        Some (r, tail recvs)
  end.

Definition consume (send : Z -> InputPublisher.send_result) (created consumeBatches : bool) (frameTime : Z) (c : t) (recvs : list recv_result) :
    option (result * t * list recv_result) :=
  consume_loop (length recvs + 2) send created consumeBatches frameTime c recvs.

End Bits.

End InputConsumer.
