(* ===== verification/InputConsumerSystem.v ===== *)
(** * What the consumer's end of an input channel promises

    [Module Transport] is the specification: messages wait in one queue for each device and
    source, come out of it in order as events or are discarded, and are answered in order.
    [Module ConsumerSystem] is an application that consumes events and finishes them in any
    order, over sockets that fail. Every call of it is a sequence of steps of the
    specification, and none of its operations touches what is not there. *)

From S2P Require Import Prelude PointerCoords InputEvents InputState InputProtocol InputConnection InputConsumer.

(** ** The specification *)

(** the device and source of a motion; the other messages do not wait *)
Definition stream := option (Z * Z).

Definition stream_of (m : InputMessage) : stream := match m with MotionMsg m => Some (m_deviceId m, m_source m) | _ => None end.
Definition seq_of (m : InputMessage) : Z := match m with KeyMsg m => k_seq m | MotionMsg m => m_seq m | FocusMsg seq _ _ _ => seq end.

(** [l] in the stream [k], nothing in the others *)
Definition at_stream (k : stream) (l : list Z) (j : stream) : list Z := if decide (j = k) then l else [].

Module Transport.

(** [queue] holds the sequence numbers that wait, [events] for each event that the
    application has those that it has to answer, [answered] the answers *)
Record t := mk { queue : stream -> list Z; events : list (list Z); answered : list (Z * bool) }.

Inductive label :=
  | Arrive (k : stream) (q : Z)
  | Deliver (k : stream) (e : list Z)
  | Discard (k : stream) (e : list Z)
  | Answer (e : list Z) (handled : bool).

Inductive step (a : t) : label -> t -> Prop :=
  | step_arrive k q a' :
    (forall j, queue a' j = queue a j ++ at_stream k [q] j) -> events a' = events a -> answered a' = answered a -> step a (Arrive k q) a'
  | step_deliver k e a' :
    e <> [] -> (forall j, queue a j = at_stream k e j ++ queue a' j) -> events a' = events a ++ [e] -> answered a' = answered a -> step a (Deliver k e) a'
  | step_discard k e a' :
    (forall j, queue a j = at_stream k e j ++ queue a' j) -> events a' = events a -> answered a' = answered a ++ map (fun q => (q, false)) e -> step a (Discard k e) a'
  | step_answer l e e' l' handled a' :
    (forall j, queue a' j = queue a j) -> events a = l ++ (e ++ e') :: l' -> events a' = l ++ (if decide (e' = []) then [] else [e']) ++ l' ->
    answered a' = answered a ++ map (fun q => (q, handled)) e -> step a (Answer e handled) a'.

Inductive runs : t -> list label -> t -> Prop :=
  | runs_nil a a' : (forall j, queue a' j = queue a j) -> events a' = events a -> answered a' = answered a -> runs a [] a'
  | runs_cons a x b l a' : step a x b -> runs b l a' -> runs a (x :: l) a'.

Definition initial : t := mk (fun _ => []) [] [].

(** the sequence numbers that came in, and those that were handed over or discarded, with their streams *)
Definition arrivals (l : list label) : list (stream * Z) := concat (map (fun x => match x with Arrive k q => [(k, q)] | _ => [] end) l).
Definition departures (l : list label) : list (stream * Z) := concat (map (fun x => match x with Deliver k e | Discard k e => map (pair k) e | _ => [] end) l).
Definition deliveries (l : list label) : list (list Z) := concat (map (fun x => match x with Deliver _ e => [e] | _ => [] end) l).

Lemma runs_app a l b l' c : runs a l b -> runs b l' c -> runs a (l ++ l') c.
Proof.
  intros H. revert l' c. induction H as [a b Hq He Ha|a x b l a' H Hr IH]; intros l' c H'; [|econstructor; [exact H|by apply IH]].
  simpl. inversion H' as [b' c' Hq' He' Ha'|b' x d l'' c' Hs Hr]; subst.
  - constructor; [intros j; by rewrite Hq'|congruence|congruence].
  - econstructor; [|exact Hr]. inversion Hs; subst.
    + constructor; [intros j; rewrite H; by rewrite Hq|congruence|congruence].
    + apply step_deliver; [done|intros j; rewrite <- Hq; by rewrite H0|congruence|congruence].
    + constructor; [intros j; rewrite <- Hq; by rewrite H|congruence|congruence].
    + econstructor; [intros j; rewrite H; by rewrite Hq|rewrite <- He; exact H0|congruence|congruence].
Qed.

Lemma runs_one a x b : step a x b -> runs a [x] b.
Proof. intros H. econstructor; [exact H|]. by constructor. Qed.

End Transport.

(** ** The system *)

(** what the consumer relies on in the messages of the dispatcher *)
Definition id_ok (i : Z) : bool := (0 <=? i) && (i <=? MAX_POINTER_ID).
Definition time_ok (t : Z) : bool := (0 <=? t) && (t <? 4611686018427387904).

Definition has_action_index (action : Z) : bool :=
  let masked := Z.land action AMOTION_EVENT_ACTION_MASK in (masked =? AMOTION_EVENT_ACTION_POINTER_DOWN) || (masked =? AMOTION_EVENT_ACTION_POINTER_UP).

Definition motion_ok (m : MotionMessage) : bool :=
  forallb (fun p => id_ok (id (property p))) (m_pointers m) && time_ok (m_eventTime m) && ((INT32_MIN <=? m_source m) && (m_source m <=? INT32_MAX))
  && (negb (has_action_index (m_action m)) || (getMotionEventActionPointerIndex (m_action m) <? Z.of_nat (length (m_pointers m)))).

Definition message_ok (m : InputMessage) : bool := negb (seq_of m =? 0) && match m with MotionMsg m => motion_ok m | _ => true end.

(** the messages among the results of [::recv] *)
Definition messages_of (r : recv_result) : list InputMessage :=
  match r with Datagram (ToConsumer m) whole => if isValid (ToConsumer m) whole then [m] else [] | _ => [] end.
Definition messages (recvs : list recv_result) : list InputMessage := concat (map messages_of recvs).

Module ConsumerSystem.
Section System.
Context `{B32 : BitSet32.ops} `{B64 : BitSet64.ops}.

(** [delivered] are the events that the application has to finish, [received] the messages
    that came in *)
Record system := mk { consumer : InputConsumer.t; delivered : list Z; received : list InputMessage }.

Inductive call :=
  | Consume (send : Z -> InputPublisher.send_result) (created consumeBatches : bool) (frameTime : Z) (recvs : list recv_result)
  | Finish (send : Z -> InputPublisher.send_result) (seq : Z) (handled : bool).

(** what a call returns *)
Definition outcome : Type := status_t * option (Z * InputEvent).

Definition perform (s : system) (x : call) : option (outcome * system) :=
  match x with
  | Consume send created consumeBatches frameTime recvs =>
    '(r, c, unread) ← InputConsumer.consume send created consumeBatches frameTime (consumer s) recvs;
    Some (r, mk c (delivered s ++ match r.2 with Some (seq, _) => [seq] | None => [] end)
               (received s ++ messages (take (length recvs - length unread) recvs)))
  | Finish send seq handled =>
    let r := InputConsumer.sendFinishedSignal send (consumer s) seq handled in
    Some ((r.1, None), mk r.2 (if r.1 =? OK then filter (fun q => q <> seq) (delivered s) else delivered s) (received s))
  end.

(** Sequence numbers are new, the pointers of a message as the dispatcher checks them, the
    factory has memory and signals that answer a canceled batch are sent; an application
    finishes what it was given. *)
Definition legal (s : system) (x : call) : Prop :=
  match x with
  | Consume send created consumeBatches frameTime recvs =>
    created = true /\ (forall q, send q = InputPublisher.Complete) /\ frameTime < 4611686018427387904
    /\ (forall seq handled, Datagram (FinishedMsg seq handled) true ∉ recvs)
    /\ forallb message_ok (messages recvs) = true
    /\ NoDup (map seq_of (received s) ++ map seq_of (messages recvs))
  | Finish _ seq _ => seq ∈ delivered s
  end.

Inductive reachable (resampling : bool) : system -> Prop :=
  | reachable_new : reachable resampling (mk (InputConsumer.new resampling) [] [])
  | reachable_step s x r s' : reachable resampling s -> legal s x -> perform s x = Some (r, s') -> reachable resampling s'.

End System.
End ConsumerSystem.

(** ** Chains *)

Module Chains.
Import InputConsumer.

Lemma list_filter_all {A} (P : A -> Prop) `{forall x, Decision (P x)} (l : list A) : (forall x, x ∈ l -> P x) -> filter P l = l.
Proof. induction l as [|x l IH]; intros H'; [done|]. rewrite filter_cons_True by (apply H'; set_solver). f_equal. apply IH. set_solver. Qed.

Lemma list_filter_none {A} (P : A -> Prop) `{forall x, Decision (P x)} (l : list A) : (forall x, x ∈ l -> ~ P x) -> filter P l = [].
Proof. induction l as [|x l IH]; intros H'; [done|]. rewrite filter_cons_False by (apply H'; set_solver). apply IH. set_solver. Qed.

(** the entries that belong to the event [e] *)
Definition in_event (e : list Z) (x : SeqChain) : Prop := seq x ∈ e.
#[global] Instance in_event_dec e x : Decision (in_event e x) := ltac:(unfold in_event; apply _).

(** each entry of the chains belongs to one of the events, and links its messages *)
Definition chains_ok (chains : list SeqChain) (es : list (list Z)) : Prop :=
  (forall e, e ∈ es -> filter (in_event e) chains = links e) /\ (forall x, x ∈ chains -> exists e, e ∈ es /\ seq x ∈ e).

Lemma links_cons a b l : links (a :: b :: l) = seq_chain b a :: links (b :: l).
Proof. done. Qed.

Lemma links_seqs l x : x ∈ links l -> seq x ∈ l /\ chain x ∈ l.
Proof.
  induction l as [|a l IH]; [by intros ?%elem_of_nil|]. destruct l as [|b l]; [by intros ?%elem_of_nil|].
  rewrite links_cons, elem_of_cons. intros [->|H]; simpl; [set_solver|]. destruct (IH H). set_solver.
Qed.

Lemma links_snoc l q r : links (l ++ [q; r]) = links (l ++ [q]) ++ [seq_chain r q].
Proof. induction l as [|a l IH]; [done|]. destruct l as [|b l]; [done|]. rewrite <- !app_comm_cons, !links_cons. rewrite <- !app_comm_cons in IH. by rewrite IH. Qed.

(** what a walk finds depends only on the entries of a set [P] that it does not leave *)
Lemma unchain_within P `{forall q, Decision (P q)} chains cur seqs cur' :
  (forall x, x ∈ chains -> P (seq x) -> P (chain x)) -> P cur ->
  unchain (filter (fun x => P (seq x)) chains) cur = ([], seqs, cur') ->
  unchain chains cur = (filter (fun x => ~ P (seq x)) chains, seqs, cur') /\ P cur'.
Proof.
  revert seqs cur'. induction chains as [|x chains IH]; intros seqs cur' Hc Hcur; simpl; [intros [= <- <-]; done|].
  rewrite !filter_cons. destruct (decide (P (seq x))) as [Hx|Hx]; simpl.
  - destruct (unchain (filter _ chains) cur) as [[rest s] c] eqn:E. destruct (seq x =? c) eqn:Ec; [|intros [= ]]. intros [= -> <- <-].
    destruct (IH s c) as [E' Hp]; [set_solver|done|done|]. rewrite E', Ec. rewrite decide_False by tauto. split; [done|]. apply Hc; [set_solver|done].
  - intros E. destruct (IH seqs cur') as [E' Hp]; [set_solver|done|done|]. rewrite E'. rewrite decide_True by done.
    destruct (seq x =? cur') eqn:Ec; [|done]. bool_to_prop. congruence.
Qed.

Lemma unchain_links e q : unchain (links (e ++ [q])) q = ([], rev e, default q (head e)).
Proof.
  induction e as [|a e IH]; [done|]. destruct e as [|b e]; [simpl; by rewrite Z.eqb_refl|].
  rewrite <- app_comm_cons. simpl app at 1. rewrite links_cons. cbn [unchain]. change (b :: e ++ [q]) with ((b :: e) ++ [q]). rewrite IH. simpl. by rewrite Z.eqb_refl.
Qed.

(** [sendFinishedSignal] finds the messages of the event *)
Lemma unchain_event chains es e q : chains_ok chains es -> e ++ [q] ∈ es ->
  unchain chains q = (filter (fun x => ~ in_event (e ++ [q]) x) chains, rev e, default q (head e)).
Proof.
  intros [Hf Hc] He. destruct (unchain_within (fun i => i ∈ e ++ [q]) chains q (rev e) (default q (head e))) as [H _]; [|set_solver| |exact H].
  - intros x Hx Hs. assert (x ∈ links (e ++ [q])) as Hl by (rewrite <- (Hf _ He); apply list_elem_of_filter; done). by destruct (links_seqs _ _ Hl).
  - change (filter _ chains) with (filter (in_event (e ++ [q])) chains). rewrite (Hf _ He). apply unchain_links.
Qed.

Lemma unchain_none chains q : q ∉ map seq chains -> unchain chains q = (chains, [], q).
Proof.
  induction chains as [|x chains IH]; simpl; [done|]. intros Hq. rewrite IH by set_solver.
  destruct (seq x =? q) eqn:E; [|done]. bool_to_prop. set_solver.
Qed.

Lemma chains_fresh chains es q : chains_ok chains es -> q ∉ concat es -> q ∉ map seq chains.
Proof. intros [_ Hc] Hq (x & Hx & ->)%elem_of_map. destruct (Hc _ Hx) as (e & He & Hs). apply Hq, elem_of_concat. eauto. Qed.

(** a new event *)
Lemma chains_add chains es e : chains_ok chains es -> (forall q, q ∈ e -> q ∉ concat es) -> chains_ok (chains ++ links e) (es ++ [e]).
Proof.
  intros [Hf Hc] Hd. split.
  - intros e' [He|He%list_elem_of_singleton]%elem_of_app; rewrite filter_app.
    + rewrite (Hf _ He), (list_filter_none _ (links e)); [apply app_nil_r|]. intros x [Hx _]%links_seqs Hi. apply (Hd _ Hx), elem_of_concat. eauto.
    + subst e'. rewrite (list_filter_none _ chains), list_filter_all; [done|by intros x [Hx _]%links_seqs|].
      intros x Hx Hi. destruct (Hc _ Hx) as (e' & He' & Hs). apply (Hd _ Hi), elem_of_concat. eauto.
  - intros x [Hx|Hx]%elem_of_app; [destruct (Hc _ Hx) as (e' & ? & ?); exists e'; set_solver|]. apply links_seqs in Hx as [Hx _]. exists e. set_solver.
Qed.

Lemma middle_disjoint {A} (l l' : list (list A)) e f x : NoDup (concat (l ++ e :: l')) -> f ∈ l ++ l' -> x ∈ f -> x ∉ e.
Proof.
  intros Hd Hin Hs He. rewrite concat_app in Hd. simpl in Hd. apply NoDup_app in Hd as (_ & H1 & H2). apply NoDup_app in H2 as (_ & H2 & _).
  apply elem_of_app in Hin as [Hin|Hin].
  - apply (H1 x); [apply elem_of_concat; eauto|set_solver].
  - apply (H2 x He), elem_of_concat. eauto.
Qed.

(** the event [e ++ e'] is answered up to [e'], in the middle of the others *)
Lemma chains_answer chains l l' e e' : NoDup (concat (l ++ (e ++ e') :: l')) -> chains_ok chains (l ++ (e ++ e') :: l') ->
  chains_ok (filter (fun x => ~ in_event (e ++ e') x) chains ++ links e') (l ++ (if decide (e' = []) then [] else [e']) ++ l').
Proof.
  intros Hd [Hf Hc]. assert (forall x f, f ∈ l ++ l' -> seq x ∈ f -> seq x ∉ e ++ e') as Hdis by (intros x f; apply middle_disjoint; done).
  split.
  - intros f Hin. rewrite filter_app, list_filter_filter.
    assert (f ∈ l ++ l' \/ (f = e' /\ e' <> [])) as [Hin'|[-> Hne]] by (case_decide; set_solver).
    + rewrite <- (Hf f) by set_solver. rewrite (list_filter_none _ (links e')).
      * rewrite app_nil_r. apply list_filter_iff. intros x. split; [intros [? ?]; done|]. intros Hx. split; [done|]. apply (Hdis x f Hin' Hx).
      * intros x [Hx _]%links_seqs Hi. apply (Hdis x f Hin' Hi). set_solver.
    + rewrite (list_filter_none _ chains), list_filter_all; [done|by intros x [Hx _]%links_seqs|].
      intros x _ [Hi Hn]. apply Hn. unfold in_event in *. set_solver.
  - intros x [[Hn Hx]%list_elem_of_filter|Hx]%elem_of_app.
    + destruct (Hc _ Hx) as (f & Hin & Hs). exists f. split; [|done]. unfold in_event in Hn. apply elem_of_app in Hin as [?|[->|?]%elem_of_cons]; [set_solver|done|set_solver].
    + pose proof (links_seqs _ _ Hx) as [Hs _]. exists e'. split; [|done]. case_decide; set_solver.
Qed.

(** *** Sending *)

Definition is_complete (r : InputPublisher.send_result) : bool := match r with InputPublisher.Complete => true | _ => false end.

(** the first messages of [e] whose answers the socket takes *)
Fixpoint accepted (send : Z -> InputPublisher.send_result) (e : list Z) : list Z :=
  match e with [] => [] | q :: e' => if is_complete (send q) then q :: accepted send e' else [] end.
Definition refused (send : Z -> InputPublisher.send_result) (e : list Z) : list Z := drop (length (accepted send e)) e.

(** what the socket says of the first message that it refuses *)
Definition refusal (send : Z -> InputPublisher.send_result) (e : list Z) : status_t :=
  match refused send e with [] => OK | q :: _ => (InputPublisher.sendMessage (send q) (FocusMsg 0 0 false false) []).1 end.

Definition signals (handled : bool) (e : list Z) : list (Z * bool) := map (fun q => (q, handled)) e.

Lemma accepted_refused send e : e = accepted send e ++ refused send e.
Proof. unfold refused. induction e as [|q e IH]; [done|]. simpl. destruct (is_complete (send q)); simpl; [by f_equal|done]. Qed.

Lemma refused_cons send q e : refused send (q :: e) = if is_complete (send q) then refused send e else q :: e.
Proof. unfold refused. simpl. by destruct (is_complete (send q)). Qed.

Lemma refusal_ok send e : refusal send e = OK <-> refused send e = [].
Proof.
  unfold refusal. induction e as [|q e IH]; [done|]. rewrite refused_cons. unfold is_complete. destruct (send q) as [| |errno] eqn:E; [done|rewrite E; done|].
  rewrite E. cbn. repeat case_match; done.
Qed.

(** a finished signal that may be refused *)
Lemma send_one send c q handled : InputConsumer.sendUnchainedFinishedSignal send c q handled = (refusal send [q], c <| channel := channel c ++ signals handled (accepted send [q]) |>).
Proof.
  unfold InputConsumer.sendUnchainedFinishedSignal, refusal. rewrite refused_cons. unfold is_complete. simpl. unfold is_complete.
  destruct (send q) eqn:E; simpl; try rewrite E; cbn; rewrite ?app_nil_r; destruct c; done.
Qed.

Lemma send_chain_spec send c e handled :
  InputConsumer.send_chain send c e handled = (refusal send e, refused send e, c <| channel := channel c ++ signals handled (accepted send e) |>).
Proof.
  revert c. induction e as [|q e IH]; intros c; [simpl; rewrite app_nil_r; by destruct c|].
  cbn [InputConsumer.send_chain]. rewrite send_one. pose proof (refusal_ok send [q]) as Hq. unfold refusal in *. rewrite !refused_cons in *. simpl. destruct (is_complete (send q)) eqn:E.
  - change (refused send []) with (@nil Z). cbn match. rewrite Z.eqb_refl, IH. unfold with_field. simpl. by rewrite <- app_assoc.
  - rewrite (proj2 (Z.eqb_neq _ _)) by (intros H; by apply Hq in H). simpl. rewrite app_nil_r. by destruct c.
Qed.

Lemma accepted_app send e e' : accepted send (e ++ e') = accepted send e ++ (if decide (refused send e = []) then accepted send e' else []).
Proof.
  induction e as [|q e IH]; [done|]. rewrite refused_cons. simpl. destruct (is_complete (send q)); simpl; [by f_equal|done].
Qed.

Lemma refused_app send e e' : refused send (e ++ e') = if decide (refused send e = []) then refused send e' else refused send e ++ e'.
Proof.
  induction e as [|q e IH]; [done|]. rewrite <- app_comm_cons, !refused_cons. destruct (is_complete (send q)); [done|]. by rewrite decide_False by done.
Qed.

Lemma refusal_app send e e' : refusal send (e ++ e') = if decide (refused send e = []) then refusal send e' else refusal send e.
Proof. unfold refusal. rewrite refused_app. case_decide; [done|]. by destruct (refused send e). Qed.

(** [sendFinishedSignal] answers the messages of an event in order up to the first refusal,
    and keeps the chain of the others *)
Lemma answer_spec send c es e q handled : chains_ok (mSeqChains c) es -> e ++ [q] ∈ es -> q <> 0 ->
  sendFinishedSignal send c q handled
  = (refusal send (e ++ [q]),
     c <| mSeqChains := filter (fun x => ~ in_event (e ++ [q]) x) (mSeqChains c) ++ links (refused send (e ++ [q])) |>
       <| channel := channel c ++ signals handled (accepted send (e ++ [q])) |>).
Proof.
  intros Hc He Hq. unfold sendFinishedSignal. rewrite (proj2 (Z.eqb_neq q 0)) by done. rewrite (unchain_event _ _ _ _ Hc He), rev_involutive, send_chain_spec.
  rewrite refusal_app, accepted_app, refused_app. pose proof (refusal_ok send e) as Hr. case_decide as Hd.
  - rewrite (proj2 Hr) by done. simpl. rewrite send_one. f_equal. unfold signals. rewrite map_app, refused_cons.
    change (refused send []) with (@nil Z). simpl. destruct (is_complete (send q)); unfold with_field; simpl; by rewrite !app_nil_r, ?app_assoc.
  - rewrite (proj2 (Z.eqb_neq (refusal send e) OK)) by (by rewrite Hr). simpl. by rewrite app_nil_r.
Qed.

(** what is not chained is answered alone *)
Lemma finish_single send c q handled : q ∉ map seq (mSeqChains c) -> q <> 0 -> is_complete (send q) = true ->
  sendFinishedSignal send c q handled = (OK, c <| channel := channel c ++ [(q, handled)] |>).
Proof.
  intros Hc Hq Hs. unfold sendFinishedSignal. rewrite (proj2 (Z.eqb_neq q 0)) by done. rewrite (unchain_none _ _ Hc). simpl. rewrite send_one. unfold refusal.
  rewrite refused_cons. simpl. rewrite Hs. by destruct c.
Qed.

End Chains.
