(* ===== verification/InputConsumerTouch.v ===== *)
(** * Touch histories and the events made of messages

    [updateTouchState] and [resampleTouchState] read only what was written, and change
    nothing of a message but the X and Y coordinates of its pointers; an event made of a
    batch holds each of its samples. *)

From S2P Require Import Prelude PointerCoords InputEvents InputState InputProtocol InputConnection InputConsumer InputConsumerSystem.
Import InputConsumer.

Lemma checked_in z : -9223372036854775808 <= z <= 9223372036854775807 -> checked z = Some z.
Proof. unfold checked. intros H. by rewrite (proj2 (Z.leb_le _ _)), (proj2 (Z.leb_le _ _)) by lia. Qed.

(** evaluates the indices of the two histories *)
Ltac slots :=
  repeat match goal with
  | |- context [Z.to_nat (Z.land ?a ?b)] => let v := eval vm_compute in (Z.to_nat (Z.land a b)) in change (Z.to_nat (Z.land a b)) with v
  | H : context [Z.to_nat (Z.land ?a ?b)] |- _ => let v := eval vm_compute in (Z.to_nat (Z.land a b)) in change (Z.to_nat (Z.land a b)) with v in H
  | |- context [Z.lxor ?a ?b] => let v := eval vm_compute in (Z.lxor a b) in change (Z.lxor a b) with v
  end.

Section Touch.
Context `{B32 : BitSet32.ops} `{B64 : BitSet64.ops}.

(** ** Histories *)

(** the coordinates of the pointer [n] were written *)
Definition filled (h : History.t) (n : Z) : Prop := is_Some (History.getPointerById h n).
Definition history_ok (h : History.t) : Prop := forall n, History.hasPointerId h n = true -> filled h n.
(** a history that was written *)
Definition good (h : History.t) : Prop := history_ok h /\ time_ok (History.eventTime h) = true.

(** one more pointer in the arrays *)
Definition put (h : History.t) (n i : Z) (c : PointerCoords.t) : History.t :=
  History.mk (History.eventTime h) (History.idBits h) (<[n := i]> (History.idToIndex h)) (<[i := c]> (History.pointers h)).

Definition marked (h : History.t) (n : Z) : History.t :=
  History.mk (History.eventTime h) (BitSet32.markBit (History.idBits h) n) (History.idToIndex h) (History.pointers h).

Lemma filled_spec h n : filled h n <-> exists i c, History.idToIndex h !! n = Some i /\ History.pointers h !! i = Some c.
Proof.
  unfold filled, History.getPointerById. split.
  - intros [c H]. destruct (History.idToIndex h !! n) as [i|]; [|done]. simpl in H. eauto.
  - intros (i & c & -> & H). simpl. eauto.
Qed.

Lemma filled_put h n i c m : m = n \/ filled h m -> filled (put h n i c) m.
Proof.
  rewrite !filled_spec. simpl. destruct (decide (m = n)) as [->|Hn]; [intros _|intros [?|(j & d & Hj & Hd)]; [done|]].
  - exists i, c. by rewrite !lookup_insert_eq.
  - exists j. rewrite lookup_insert_ne by done. destruct (decide (j = i)) as [->|]; [exists c; by rewrite lookup_insert_eq|]. exists d. by rewrite lookup_insert_ne.
Qed.

Lemma pointer_id_ok i : id_ok i = true -> pointer_id i = Some i.
Proof. unfold pointer_id, id_ok. by intros ->. Qed.

Lemma id_range i : id_ok i = true -> 0 <= i < 32.
Proof. unfold id_ok, MAX_POINTER_ID. intros. bool_to_prop. lia. Qed.

Lemma history_mark h n i c : history_ok h -> id_ok n = true -> history_ok (marked (put h n i c) n).
Proof.
  intros Hh Hn m Hm. apply id_range in Hn. apply (filled_put h n i c m). unfold History.hasPointerId in Hm. simpl in Hm.
  pose proof (BitSet32.hasBit_range _ _ Hm). rewrite BitSet32.hasBit_mark in Hm by done. apply orb_true_iff in Hm as [Hm|Hm]; [left; by apply Z.eqb_eq in Hm|right; by apply Hh].
Qed.

Definition ids_ok (ps : list PointerProperties) : Prop := Forall (fun p => id_ok (id p) = true) ps.

Lemma mark_pointers_ok h i ps : history_ok h -> ids_ok (map property ps) ->
  exists h', History.mark_pointers h i ps = Some h' /\ history_ok h' /\ History.eventTime h' = History.eventTime h.
Proof.
  revert h i. induction ps as [|p ps IH]; intros h i Hh Hi; [by exists h|]. apply Forall_cons in Hi as [Hp Hi].
  cbn [History.mark_pointers]. rewrite (pointer_id_ok _ Hp). cbn [mbind option_bind].
  destruct (IH (marked (put h (id (property p)) i (coord p)) (id (property p))) (i + 1)) as (h' & E & Hh' & Ht); [by apply history_mark|done|].
  exists h'. split; [exact E|]. done.
Qed.

Lemma cleared_ok t ids ps : history_ok (History.mk t 0 ids ps).
Proof. intros n. unfold History.hasPointerId. simpl. by rewrite BitSet32.hasBit_zero. Qed.

Lemma initializeFrom_ok h m : motion_ok m = true -> exists h', History.initializeFrom h m = Some h' /\ good h' /\ History.eventTime h' = m_eventTime m.
Proof.
  unfold motion_ok. intros Hm. bool_to_prop. destruct (mark_pointers_ok (History.mk (m_eventTime m) 0 (History.idToIndex h) (History.pointers h)) 0 (m_pointers m)) as (h' & E & Hh & Ht).
  - apply cleared_ok.
  - apply Forall_forall. intros p (q & Hq & ->)%elem_of_map. by apply (proj1 (forallb_forall _ _) H), list_elem_of_In.
  - exists h'. unfold good. rewrite Ht. done.
Qed.

(** ** [initializeFrom] of a history *)

Lemma copy_pointers_ok ids other h : (forall n, n ∈ ids -> filled other n) ->
  exists h', History.copy_pointers ids other h = Some h' /\ (forall n, n ∈ ids \/ filled h n -> filled h' n) /\ History.idBits h' = History.idBits h.
Proof.
  revert h. induction ids as [|n ids IH]; intros h Ho; [exists h; split; [done|]; split; [set_solver|done]|].
  destruct (proj1 (filled_spec _ _) (Ho n ltac:(set_solver))) as (i & c & Hi & Hc). cbn [History.copy_pointers]. rewrite Hi. cbn [mbind option_bind]. rewrite Hc. cbn [mbind option_bind].
  destruct (IH (put h n i c)) as (h' & E & Hf & Hb); [set_solver|]. exists h'. split; [exact E|]. split; [|done].
  intros m Hm. apply Hf. destruct (decide (m ∈ ids)); [by left|right]. apply filled_put. set_solver.
Qed.

Lemma copy_ok h other : history_ok other -> exists h', History.copy h other = Some h' /\ history_ok h' /\ History.idBits h' = History.idBits other.
Proof.
  intros Ho. destruct (copy_pointers_ok (BitSet32.members (History.idBits other)) other (History.mk (History.eventTime other) (History.idBits other) (History.idToIndex h) (History.pointers h))) as (h' & E & Hf & Hb).
  - intros n [Hn _]%elem_of_bits_below. by apply Ho.
  - exists h'. split; [exact E|]. split; [|exact Hb]. intros n Hn. apply Hf. left. unfold History.hasPointerId in Hn. rewrite Hb in Hn. apply elem_of_bits_below. split; [done|]. by apply BitSet32.hasBit_range in Hn.
Qed.

(** ** The state of a touch *)

Definition state_ok (s : TouchState.t) : Prop :=
  (TouchState.historyCurrent s = 0 \/ TouchState.historyCurrent s = 1) /\ 0 <= TouchState.historySize s <= 2 /\ length (TouchState.history s) = 2%nat
  /\ (1 <= TouchState.historySize s -> exists h, TouchState.getHistory s 0 = Some h /\ good h)
  /\ (2 <= TouchState.historySize s -> exists h, TouchState.getHistory s 1 = Some h /\ good h)
  /\ history_ok (TouchState.lastResample s).

Lemma initialize_ok s d src : length (TouchState.history s) = 2%nat -> state_ok (TouchState.initialize s d src).
Proof. intros H. unfold state_ok. simpl. split; [by left|]. split; [lia|]. split; [done|]. split; [lia|]. split; [lia|]. apply cleared_ok. Qed.

Lemma addHistory_ok s m : state_ok s -> motion_ok m = true -> exists s', TouchState.addHistory s m = Some s' /\ state_ok s' /\ 1 <= TouchState.historySize s'
  /\ TouchState.lastResample s' = TouchState.lastResample s /\ TouchState.deviceId s' = TouchState.deviceId s /\ TouchState.source s' = TouchState.source s
  /\ (exists h, TouchState.getHistory s' 0 = Some h /\ good h /\ History.eventTime h = m_eventTime m).
Proof.
  destruct s as [d src cur size hs last]. intros (Hc & Hs & Hl & H0 & H1 & Hr) Hm. simpl in *. unfold TouchState.addHistory, TouchState.getHistory in *. simpl in *.
  destruct hs as [|a [|b [|? ?]]]; [done|done| |done]. destruct Hc as [-> | ->]; slots; simpl in *;
    match goal with |- context [History.initializeFrom (default History.new ?x) m] => destruct (initializeFrom_ok (default History.new x) m Hm) as (h & -> & Hh & Ht) end;
    (eexists; split; [reflexivity|]); unfold state_ok, TouchState.getHistory; simpl; slots; simpl; destruct (size <? 2) eqn:E; bool_to_prop; repeat split; try lia; eauto 10.
  all: intros Hz; apply H0; lia.
Qed.

Lemma state_get s i : state_ok s -> (i = 0 /\ 1 <= TouchState.historySize s) \/ (i = 1 /\ 2 <= TouchState.historySize s) -> exists h, TouchState.getHistory s i = Some h /\ good h.
Proof. intros (_ & _ & _ & H0 & H1 & _) [[-> H]|[-> H]]; auto. Qed.

Lemma identical_ok s n : state_ok s -> exists b, TouchState.recentCoordinatesAreIdentical s n = Some b.
Proof.
  intros Hs. unfold TouchState.recentCoordinatesAreIdentical. destruct (_ <? 2) eqn:E; [by eexists|]. bool_to_prop.
  destruct (state_get s 0 Hs) as (c & Hc & Hgc & _); [lia|]. destruct (state_get s 1 Hs) as (p & Hp & Hgp & _); [lia|].
  rewrite Hc. cbn [mbind option_bind]. rewrite Hp. cbn [mbind option_bind].
  destruct (History.hasPointerId c n) eqn:Ec; [|by eexists]. destruct (History.hasPointerId p n) eqn:Ep; [|by eexists]. simpl.
  destruct (Hgc n Ec) as [x ->]. destruct (Hgp n Ep) as [y ->]. simpl. eauto.
Qed.

Lemma clear_resampled_ok s n : state_ok s -> id_ok n = true -> state_ok (TouchState.clear_resampled s n).
Proof.
  intros (Hc & Hs & Hl & H0 & H1 & Hr) Hn%id_range. repeat split; simpl; try done; try tauto; try lia.
  intros m Hm. unfold History.hasPointerId in Hm. simpl in Hm. pose proof (BitSet32.hasBit_range _ _ Hm). rewrite BitSet32.hasBit_clear in Hm by done.
  apply andb_true_iff in Hm as [_ Hm]. apply (Hr m Hm).
Qed.

(** ** Messages that are rewritten *)

(** [p'] is [p], with other coordinates X and Y if it was rewritten *)
Definition rewritten (p p' : pointer) : Prop := property p' = property p /\ (coord p' = coord p \/ exists from, coord p' = set_xy (coord p) from).

(** the other axes keep their values *)
Lemma set_xy_axes c from : PointerCoords.well_formed c -> PointerCoords.well_formed (set_xy c from)
  /\ forall axis, axis <> PointerCoords.AMOTION_EVENT_AXIS_X -> axis <> PointerCoords.AMOTION_EVENT_AXIS_Y -> PointerCoords.getAxisValue (set_xy c from) axis = PointerCoords.getAxisValue c axis.
Proof.
  assert (forall c axis v, PointerCoords.well_formed c -> let r := PointerCoords.setAxisValue c axis v in
    PointerCoords.well_formed r.2 /\ forall axis', axis' <> axis -> PointerCoords.getAxisValue r.2 axis' = PointerCoords.getAxisValue c axis') as Hset.
  { intros c1 axis v Hwf r. destruct (PointerCoordsFacts.setAxisValue_correct c1 axis v Hwf) as (Hwf' & Hok & Hfail). split; [done|]. intros axis' Hne.
    destruct (decide (r.1 = OK)) as [E|E]; [rewrite (Hok E); by rewrite decide_False|]. destruct (Hfail E) as [E' _]. unfold r. by rewrite E'. }
  intros Hwf. unfold set_xy. set (c1 := (PointerCoords.setAxisValue c _ _).2). destruct (Hset c _ _ Hwf : PointerCoords.well_formed c1 /\ _) as [Hwf1 H1].
  destruct (Hset c1 PointerCoords.AMOTION_EVENT_AXIS_Y (PointerCoords.getAxisValue from PointerCoords.AMOTION_EVENT_AXIS_Y) Hwf1) as [Hwf2 H2]. split; [exact Hwf2|]. intros axis Hx Hy. etransitivity; [by apply H2|by apply H1].
Qed.

Lemma rewritten_refl p : rewritten p p.
Proof. split; [done|by left]. Qed.

Lemma rewritten_all ps : Forall2 rewritten ps ps.
Proof. induction ps; constructor; [apply rewritten_refl|done]. Qed.

Lemma rewritten_properties ps ps' : Forall2 rewritten ps ps' -> map property ps' = map property ps.
Proof. induction 1 as [|p p' ps ps' [Hp _] _ IH]; simpl; congruence. Qed.

(** the same touch, with the same histories *)
Definition same_touch (s s' : TouchState.t) : Prop :=
  TouchState.deviceId s' = TouchState.deviceId s /\ TouchState.source s' = TouchState.source s
  /\ TouchState.historySize s' = TouchState.historySize s /\ TouchState.getHistory s' 0 = TouchState.getHistory s 0.

Lemma rewrite_pointer_ok s t p : state_ok s -> id_ok (id (property p)) = true ->
  exists s' p', rewrite_pointer s t p = Some (s', p') /\ state_ok s' /\ same_touch s s' /\ rewritten p p'.
Proof.
  intros Hs Hp. unfold rewrite_pointer. rewrite (pointer_id_ok _ Hp). cbn [mbind option_bind].
  destruct (History.hasPointerId _ _) eqn:E; [|exists s, p; repeat split; [apply Hs..|by left]].
  destruct (identical_ok s (id (property p)) Hs) as [b Hb].
  assert (exists k, (if t <? History.eventTime (TouchState.lastResample s) then Some true else TouchState.recentCoordinatesAreIdentical s (id (property p))) = Some k) as [k ->] by (case_match; eauto).
  cbn [mbind option_bind]. destruct k.
  - destruct Hs as (Hc & Hz & Hl & H0 & H1 & Hr). destruct (Hr _ E) as [x Hx]. rewrite Hx. simpl. eexists _, _. split; [done|]. repeat split; try done; try tauto; try lia. right. by exists x.
  - eexists _, _. split; [done|]. split; [by apply clear_resampled_ok|]. repeat split. by left.
Qed.

Lemma rewrite_pointers_ok s t ps : state_ok s -> ids_ok (map property ps) ->
  exists s' ps', rewrite_pointers s t ps = Some (s', ps') /\ state_ok s' /\ same_touch s s' /\ Forall2 rewritten ps ps'.
Proof.
  revert s. induction ps as [|p ps IH]; intros s Hs Hi; [exists s, []; by repeat split; try apply Hs; constructor|]. apply Forall_cons in Hi as [Hp Hi].
  destruct (rewrite_pointer_ok s t p Hs Hp) as (s1 & p' & E & Hs1 & Ht1 & Hr). destruct (IH s1 Hs1 Hi) as (s2 & ps' & E' & Hs2 & Ht2 & Hrs).
  simpl. rewrite E. simpl. rewrite E'. simpl. eexists _, _. split; [done|]. split; [done|]. split; [unfold same_touch in *; intuition congruence|]. by constructor.
Qed.

Lemma motion_ids m : motion_ok m = true -> ids_ok (map property (m_pointers m)).
Proof. unfold motion_ok. intros H. bool_to_prop. apply Forall_forall. intros p (q & Hq & ->)%elem_of_map. by apply (proj1 (forallb_forall _ _) H), list_elem_of_In. Qed.

Lemma motion_time m : motion_ok m = true -> 0 <= m_eventTime m < 4611686018427387904.
Proof. unfold motion_ok, time_ok. intros H. bool_to_prop. lia. Qed.

(** the message [m'] that an event is made of instead of [m] *)
Definition rewrites (m m' : MotionMessage) : Prop := exists ps, m' = m <| m_pointers := ps |> /\ Forall2 rewritten (m_pointers m) ps.

Lemma rewrites_refl m : rewrites m m.
Proof. exists (m_pointers m). split; [by destruct m|apply rewritten_all]. Qed.

Lemma rewriteMessage_ok s m : state_ok s -> motion_ok m = true ->
  exists s' m', rewriteMessage s m = Some (s', m') /\ state_ok s' /\ same_touch s s' /\ rewrites m m'.
Proof.
  intros Hs Hm. unfold rewriteMessage. destruct (rewrite_pointers_ok s (m_eventTime m) (m_pointers m) Hs (motion_ids m Hm)) as (s' & ps & -> & Hs' & Ht & Hr).
  simpl. eexists _, _. split; [done|]. split; [done|]. split; [done|]. by exists ps.
Qed.

Lemma action_id_ok m : motion_ok m = true -> has_action_index (m_action m) = true -> exists n, getActionId m = Some n /\ id_ok n = true.
Proof.
  intros Hm Ha. pose proof (motion_ids m Hm) as Hi. unfold motion_ok in Hm. rewrite Ha in Hm. simpl in Hm. bool_to_prop. unfold getActionId.
  assert (0 <= getMotionEventActionPointerIndex (m_action m)) as Hn.
  { unfold getMotionEventActionPointerIndex. apply Z.shiftr_nonneg, Z.land_nonneg. by right. }
  destruct (lookup_lt_is_Some_2 (m_pointers m) (Z.to_nat (getMotionEventActionPointerIndex (m_action m)))) as [p Hp]; [lia|].
  rewrite Hp. simpl. eexists. split; [done|]. apply (proj1 (Forall_forall _ _) Hi (property p)), elem_of_map. exists p. split; [by eapply list_elem_of_lookup_2|done].
Qed.

Lemma update_state_ok s m : state_ok s -> motion_ok m = true ->
  exists s' m', update_state s m = Some (s', m') /\ rewrites m m'
    /\ (forall t, s' = Some t -> state_ok t /\ TouchState.deviceId t = TouchState.deviceId s /\ TouchState.source t = TouchState.source s).
Proof.
  intros Hs Hm. unfold update_state. cbn zeta.
  destruct (_ =? AMOTION_EVENT_ACTION_MOVE) eqn:E1.
  { destruct (addHistory_ok s m Hs Hm) as (s1 & -> & Hs1 & _ & _ & Hd & Hsrc & _). cbn [mbind option_bind].
    destruct (rewriteMessage_ok s1 m Hs1 Hm) as (s2 & m' & -> & Hs2 & (Hd2 & Hsrc2 & _) & Hr). simpl. eexists _, _. split; [done|]. split; [done|]. intros ? [= <-]. split; [done|]. split; congruence. }
  destruct (_ =? AMOTION_EVENT_ACTION_POINTER_DOWN) eqn:E2.
  { destruct (action_id_ok m Hm) as (n & -> & Hn); [unfold has_action_index; by rewrite E2|]. cbn [mbind option_bind]. rewrite (pointer_id_ok _ Hn). cbn [mbind option_bind].
    destruct (rewriteMessage_ok (TouchState.clear_resampled s n) m) as (s2 & m' & -> & Hs2 & (Hd2 & Hsrc2 & _) & Hr); [by apply clear_resampled_ok|done|].
    simpl. eexists _, _. split; [done|]. split; [done|]. intros ? [= <-]. split; [done|]. done. }
  destruct (_ =? AMOTION_EVENT_ACTION_POINTER_UP) eqn:E3.
  { destruct (rewriteMessage_ok s m Hs Hm) as (s2 & m' & -> & Hs2 & (Hd2 & Hsrc2 & _) & Hr). cbn [mbind option_bind].
    destruct (action_id_ok m Hm) as (n & -> & Hn); [unfold has_action_index; by rewrite E3, orb_true_r|]. cbn [mbind option_bind]. rewrite (pointer_id_ok _ Hn). cbn [mbind option_bind].
    eexists _, _. split; [done|]. split; [done|]. intros ? [= <-]. split; [by apply clear_resampled_ok|]. done. }
  destruct (_ =? AMOTION_EVENT_ACTION_SCROLL) eqn:E4; [|destruct (_ || _)].
  3: { eexists _, _. split; [done|]. split; [apply rewrites_refl|]. by intros ? [= <-]. }
  all: destruct (rewriteMessage_ok s m Hs Hm) as (s2 & m' & -> & Hs2 & (Hd2 & Hsrc2 & _) & Hr); simpl; eexists _, _; (split; [done|]); (split; [done|]); intros ? [= <-]; done.
Qed.

Definition touches_ok (c : t) : Prop := Forall state_ok (mTouchStates c).

(** [c'] is [c] but for the touch states *)
Definition only_touches (c c' : t) : Prop := exists states, c' = c <| mTouchStates := states |>.

Lemma touches_only_refl c : only_touches c c.
Proof. exists (mTouchStates c). by destruct c. Qed.

Lemma updateTouchState_ok c m : touches_ok c -> motion_ok m = true ->
  exists c' m', updateTouchState c m = Some (c', m') /\ touches_ok c' /\ only_touches c c' /\ rewrites m m' /\ (mResampleTouch c = false -> m' = m).
Proof.
  intros Hc Hm. unfold updateTouchState. destruct (negb (mResampleTouch c) || _) eqn:Eg.
  { exists c, m. split; [done|]. split; [done|]. split; [apply touches_only_refl|]. by split; [apply rewrites_refl|]. }
  apply orb_false_iff in Eg as [Er%negb_false_iff _]. cbn zeta. destruct (_ =? AMOTION_EVENT_ACTION_DOWN).
  - set (at_index := match findTouchState _ _ _ with Some _ => _ | None => _ end).
    assert (exists s, at_index.1 !! at_index.2 = Some s /\ length (TouchState.history s) = 2%nat) as (s & Hs & Hl).
    { subst at_index. destruct (findTouchState _ _ _) as [i|] eqn:Ef; simpl; [|exists TouchState.new; split; [apply list_lookup_middle|]; done].
      apply find_index_Some in Ef as (s & Hi & _). exists s. split; [done|]. by apply (proj1 (Forall_lookup _ _) Hc i s). }
    assert (Forall state_ok at_index.1 \/ exists l, at_index.1 = l ++ [TouchState.new] /\ at_index.2 = length l /\ Forall state_ok l) as Hall.
    { subst at_index. destruct (findTouchState _ _ _); [by left|right; eauto]. }
    rewrite Hs. cbn [mbind option_bind].
    destruct (addHistory_ok _ m (initialize_ok s (m_deviceId m) (m_source m) Hl) Hm) as (s' & -> & Hs' & _). cbn [mbind option_bind].
    eexists _, _. split; [done|]. split; [|split; [by eexists|split; [apply rewrites_refl|by rewrite Er]]].
    unfold touches_ok. simpl. destruct Hall as [Hall|(l & -> & -> & Hall)]; [by apply Forall_insert|].
    rewrite insert_app_r_alt by done. rewrite Nat.sub_diag. simpl. apply Forall_app. split; [done|by constructor].
  - destruct (findTouchState _ _ _) as [i|] eqn:Ef; [|exists c, m; split; [done|]; split; [done|]; split; [apply touches_only_refl|]; by split; [apply rewrites_refl|]].
    apply find_index_Some in Ef as (s & Hi & _). rewrite Hi. cbn [mbind option_bind].
    destruct (update_state_ok s m) as (s' & m' & -> & Hr & Ht); [by apply (proj1 (Forall_lookup _ _) Hc i s)|done|]. cbn [mbind option_bind].
    eexists _, _. split; [done|]. split; [|split; [by eexists|split; [done|by rewrite Er]]].
    unfold touches_ok. simpl. destruct s' as [t'|]; [apply Forall_insert; [done|by apply (Ht t')]|by apply Forall_delete].
Qed.

(** ** Resampling *)

(** the time [t] of a sample for [sampleTime] after a current one at [now] *)
Definition resampled_at (next : option MotionMessage) (now sampleTime t : Z) : Prop :=
  t <= sampleTime /\ (now <= sampleTime -> now <= t)
  /\ match next with Some _ => t = sampleTime | None => t <= now + RESAMPLE_MAX_PREDICTION end.

Lemma find_other_ok s current sampleTime next : state_ok s -> good current -> - 4611686018427387904 <= sampleTime < 4611686018427387904 ->
  (forall m, next = Some m -> motion_ok m = true) ->
  exists found, find_other s current sampleTime next = Some found
    /\ (forall other t alpha, found = Some (other, t, alpha) -> history_ok other /\ resampled_at next (History.eventTime current) sampleTime t).
Proof.
  intros Hs [Hc Hct] Ht Hn. unfold time_ok in Hct. bool_to_prop. unfold find_other. destruct next as [m|].
  - specialize (Hn m eq_refl). destruct (initializeFrom_ok History.new m Hn) as (future & -> & [Hf _] & Hft). cbn [mbind option_bind]. pose proof (motion_time m Hn).
    rewrite (checked_in (History.eventTime future - _)) by lia. cbn [mbind option_bind]. destruct (_ <? RESAMPLE_MIN_DELTA); [by eexists|]. rewrite checked_in by lia. cbn [mbind option_bind].
    eexists. split; [done|]. intros ? ? ? [= <- <- <-]. split; [done|]. split; [lia|]. done.
  - destruct (2 <=? _) eqn:E; [|by eexists]. bool_to_prop. destruct (state_get s 1 Hs) as (other & -> & Hgo & Hot); [lia|]. cbn [mbind option_bind]. unfold time_ok in Hot. bool_to_prop.
    rewrite (checked_in (History.eventTime current - History.eventTime other)) by lia. cbn [mbind option_bind]. destruct (_ <? RESAMPLE_MIN_DELTA) eqn:Emin; [by eexists|]. destruct (RESAMPLE_MAX_DELTA <? _); [by eexists|]. bool_to_prop.
    assert (0 <= Z.min (Z.quot (History.eventTime current - History.eventTime other) 2) RESAMPLE_MAX_PREDICTION <= 8000000) as Hp.
    { split; [|unfold RESAMPLE_MAX_PREDICTION, NANOS_PER_MS; lia]. apply Z.min_glb; [apply Z.quot_pos; unfold RESAMPLE_MIN_DELTA, NANOS_PER_MS in *; lia|done]. }
    rewrite (checked_in (History.eventTime current + _)) by lia. cbn [mbind option_bind]. unfold resampled_at, RESAMPLE_MAX_PREDICTION, NANOS_PER_MS in *.
    destruct (_ <? sampleTime) eqn:Em; bool_to_prop; rewrite checked_in by lia; cbn [mbind option_bind]; eexists; (split; [done|]); intros ? ? ? [= <- <- <-]; (split; [done|]); lia.
Qed.

Lemma resample_coords_ok s old current other alpha p : state_ok s -> history_ok old -> history_ok current -> history_ok other ->
  id_ok (id p) = true -> History.hasPointerId current (id p) = true -> exists c, resample_coords s old current other alpha p = Some c.
Proof.
  intros Hs Hold Hc Ho Hi Hp. unfold resample_coords. rewrite (pointer_id_ok _ Hi). cbn [mbind option_bind].
  destruct (identical_ok s (id p) Hs) as [b Hb]. destruct (History.hasPointerId old (id p)) eqn:E; [rewrite Hb|]; cbn [mbind option_bind].
  - destruct b; [apply (Hold _ E)|]. destruct (Hc _ Hp) as [x ->]. cbn [mbind option_bind]. destruct (History.hasPointerId other (id p)) eqn:Eo; [|by eexists].
    destruct (shouldResampleTool _); [|by eexists]. destruct (Ho _ Eo) as [y ->]. simpl. eauto.
  - destruct (Hc _ Hp) as [x ->]. cbn [mbind option_bind]. destruct (History.hasPointerId other (id p)) eqn:Eo; [|by eexists].
    destruct (shouldResampleTool _); [|by eexists]. destruct (Ho _ Eo) as [y ->]. simpl. eauto.
Qed.

Lemma has_all_ok current ps : ids_ok ps -> exists b, has_all current ps = Some b /\ (b = true -> Forall (fun p => History.hasPointerId current (id p) = true) ps).
Proof.
  induction 1 as [|p ps Hp Hps (b & IH & Hb)]; [by exists true|]. simpl. rewrite (pointer_id_ok _ Hp). cbn [mbind option_bind].
  destruct (History.hasPointerId current (id p)) eqn:E; [|by exists false]. exists b. split; [done|]. intros H. constructor; [done|by apply Hb].
Qed.

Lemma resample_pointers_ok s old current other alpha h i ps : state_ok s -> history_ok old -> history_ok current -> history_ok other -> history_ok h ->
  ids_ok ps -> Forall (fun p => History.hasPointerId current (id p) = true) ps ->
  exists h', resample_pointers s old current other alpha h i ps = Some h' /\ history_ok h' /\ History.eventTime h' = History.eventTime h
    /\ (forall j, i <= j < i + Z.of_nat (length ps) \/ is_Some (History.pointers h !! j) -> is_Some (History.pointers h' !! j)).
Proof.
  intros Hs Hold Hc Ho. revert h i. induction ps as [|p ps IH]; intros h i Hh Hi Hp; [exists h; repeat split; auto; intros j [?|?]; [simpl in *; lia|done]|].
  apply Forall_cons in Hi as [Hi His]. apply Forall_cons in Hp as [Hp Hps]. cbn [resample_pointers]. rewrite (pointer_id_ok _ Hi). cbn [mbind option_bind].
  destruct (resample_coords_ok s old current other alpha p) as [c ->]; try done. cbn [mbind option_bind].
  destruct (IH (marked (put h (id p) i c) (id p)) (i + 1)) as (h' & E & Hh' & Ht & Hf); [by apply history_mark|done|done|].
  exists h'. split; [exact E|]. split; [done|]. split; [done|]. intros j Hj. apply Hf. simpl. destruct (decide (j = i)) as [->|Hne]; [right; rewrite lookup_insert_eq; by eexists|].
  rewrite lookup_insert_ne by done. destruct Hj as [Hj|Hj]; [left; simpl in Hj; lia|by right].
Qed.

(** [e'] is [e] with one more sample at [t] *)
Definition one_more (e e' : MotionEvent.t) (t : Z) : Prop :=
  exists cs, length cs = MotionEvent.getPointerCount e
    /\ e' = e <| MotionEvent.mSampleEventTimes := MotionEvent.mSampleEventTimes e ++ [t] |> <| MotionEvent.mSamplePointerCoords := MotionEvent.mSamplePointerCoords e ++ cs |>.

Lemma addSample_ok e t cs : length cs = MotionEvent.getPointerCount e -> exists e', MotionEvent.addSample e t cs = Some e' /\ one_more e e' t.
Proof.
  intros Hl. unfold MotionEvent.addSample. rewrite Hl, (proj2 (Nat.ltb_ge _ _)) by lia. eexists. split; [done|]. exists cs. split; [done|]. rewrite take_ge by lia. done.
Qed.

Lemma resample_ok s sampleTime e next : state_ok s -> ids_ok (MotionEvent.mPointerProperties e) -> - 4611686018427387904 <= sampleTime < 4611686018427387904 ->
  (forall m, next = Some m -> motion_ok m = true) ->
  exists s' e', resample s sampleTime e next = Some (s', e') /\ state_ok s'
    /\ (e' = e \/ exists h t, TouchState.getHistory s 0 = Some h /\ resampled_at next (History.eventTime h) sampleTime t /\ one_more e e' t).
Proof.
  intros Hs He Ht Hn. unfold resample. destruct (_ <? 1) eqn:E1; [exists s, e; auto|]. bool_to_prop. destruct (state_get s 0 Hs) as (current & Ec & Hc); [lia|]. rewrite Ec. cbn [mbind option_bind].
  destruct (has_all_ok current _ He) as (b & -> & Hb). cbn [mbind option_bind]. destruct b; [simpl|by exists s, e; auto].
  destruct (find_other_ok s current sampleTime next Hs Hc Ht Hn) as (found & -> & Hf). cbn [mbind option_bind].
  destruct found as [[[other t] alpha]|]; [|by exists s, e; auto]. destruct (Hf _ _ _ eq_refl) as [Ho Hr].
  pose proof Hs as (Hh1 & Hh2 & Hh3 & Hh4 & Hh5 & Hlast). destruct (copy_ok History.new (TouchState.lastResample s) Hlast) as (old & -> & Hold & _). cbn [mbind option_bind].
  edestruct (resample_pointers_ok s old current other alpha) as (h & -> & Hh & _ & Hfill); [done|done|apply Hc|done|apply cleared_ok|exact He|by apply Hb|]. cbn [mbind option_bind].
  destruct (mapM_is_Some_2 (fun i => History.pointers h !! i) (seqZ 0 (Z.of_nat (MotionEvent.getPointerCount e)))) as [cs Hcs].
  { apply Forall_forall. intros j Hj%elem_of_seqZ. apply Hfill. left. unfold MotionEvent.getPointerCount in Hj. lia. }
  rewrite Hcs. cbn [mbind option_bind]. apply length_mapM in Hcs. rewrite length_seqZ in Hcs.
  destruct (addSample_ok e t cs) as (e' & -> & Hm); [lia|]. cbn [mbind option_bind]. eexists _, _. split; [done|]. split; [done|]. right. exists current, t. done.
Qed.

(** ** Events made of samples *)

(** [e] with the samples [ms] after its own *)
Definition extend (e : MotionEvent.t) (ms : list MotionMessage) : MotionEvent.t :=
  e <| MotionEvent.mMetaState := foldl Z.lor (MotionEvent.mMetaState e) (map m_metaState ms) |>
    <| MotionEvent.mSampleEventTimes := MotionEvent.mSampleEventTimes e ++ map m_eventTime ms |>
    <| MotionEvent.mSamplePointerCoords := MotionEvent.mSamplePointerCoords e ++ concat (map (fun m => map coord (m_pointers m)) ms) |>.

(** the event of one message *)
Definition event_of (m : MotionMessage) : MotionEvent.t :=
  MotionEvent.mk (m_eventId m) (m_deviceId m) (uint32 (m_source m)) (m_displayId m) (m_action m) (m_actionButton m) (m_flags m) (m_edgeFlags m) (m_metaState m) (m_buttonState m) (m_classification m)
    (m_xScale m) (m_yScale m) (m_xOffset m) (m_yOffset m) (m_xPrecision m) (m_yPrecision m) (m_xCursorPosition m) (m_yCursorPosition m) (m_downTime m)
    (map property (m_pointers m)) [m_eventTime m] (map coord (m_pointers m)).

Lemma initializeMotionEvent_ok m : initializeMotionEvent m = Some (event_of m).
Proof.
  unfold initializeMotionEvent, MotionEvent.initialize, MotionEvent.addSample, MotionEvent.getPointerCount. simpl. rewrite !length_map, (proj2 (Nat.ltb_ge _ _)) by lia.
  unfold event_of. unfold with_field. simpl. rewrite take_ge by (by rewrite !length_map). done.
Qed.

Lemma extend_nil e : extend e [] = e.
Proof. unfold extend, with_field. simpl. rewrite !app_nil_r. by destruct e. Qed.

Lemma addSample_extend e m : length (m_pointers m) = MotionEvent.getPointerCount e -> addSample e m = Some (extend e [m]).
Proof.
  intros Hl. unfold addSample, MotionEvent.addSample. unfold MotionEvent.getPointerCount in *. simpl. rewrite length_map, (proj2 (Nat.ltb_ge _ _)) by lia.
  rewrite take_ge by (rewrite length_map; lia). unfold extend, with_field. simpl. by rewrite app_nil_r.
Qed.

Lemma extend_app e l l' : extend (extend e l) l' = extend e (l ++ l').
Proof. unfold extend, with_field. simpl. by rewrite !map_app, foldl_app, concat_app, !app_assoc. Qed.

Lemma rewrites_length m m' : rewrites m m' -> length (m_pointers m') = length (m_pointers m).
Proof. intros (ps & -> & H). symmetry. by eapply Forall2_length. Qed.

(** the most recent history of the touch is of time [t] *)
Definition current_at (c : t) (deviceId source t : Z) : Prop :=
  forall i s h, findTouchState (mTouchStates c) deviceId source = Some i -> mTouchStates c !! i = Some s -> TouchState.getHistory s 0 = Some h -> History.eventTime h = t.

Lemma find_index_insert {A} (f : A -> bool) l i x y : l !! i = Some y -> f x = f y -> InputState.find_index f (<[i := x]> l) = InputState.find_index f l.
Proof.
  revert i. induction l as [|z l IH]; intros i; [done|]. destruct i as [|i]; simpl; [intros [= ->] ->; done|]. intros Hi Hf. by rewrite (IH i).
Qed.

Lemma update_move c m c' m' : touches_ok c -> motion_ok m = true -> m_action m = AMOTION_EVENT_ACTION_MOVE -> mResampleTouch c = true -> isPointerEvent (m_source m) = true ->
  updateTouchState c m = Some (c', m') -> current_at c' (m_deviceId m) (m_source m) (m_eventTime m).
Proof.
  intros Hc Hm Ha Hr Hp. unfold updateTouchState. rewrite Hr, Hp, Ha. simpl. destruct (findTouchState _ _ _) as [i|] eqn:Ef; [|intros [= <- <-] i s h Hi; congruence].
  pose proof Ef as Ei. apply find_index_Some in Ei as (s & Hi & Hs). rewrite Hi. cbn [mbind option_bind]. unfold update_state. rewrite Ha. simpl.
  assert (state_ok s) as Hok by by apply (proj1 (Forall_lookup _ _) Hc i s).
  destruct (addHistory_ok s m Hok Hm) as (s1 & -> & Hs1 & _ & _ & Hd & Hsrc & h & Hg & _ & Ht). cbn [mbind option_bind].
  destruct (rewriteMessage_ok s1 m Hs1 Hm) as (s2 & m2 & -> & Hs2 & (Hd2 & Hsrc2 & _ & Hg2) & _). simpl. intros [= <- <-]. intros j s' h' Hj. simpl in *.
  unfold findTouchState in *. rewrite (find_index_insert _ _ _ _ s) in Hj; [|done|by rewrite Hd2, Hsrc2, Hd, Hsrc]. rewrite Ef in Hj. injection Hj as <-.
  rewrite list_lookup_insert_eq by (by eapply lookup_lt_Some). intros [= <-]. rewrite Hg2, Hg. by intros [= <-].
Qed.

(** [c'] is [c] with other touch states and more chains *)
Definition chained (chains : list SeqChain) (c c' : t) : Prop := exists states, c' = c <| mTouchStates := states |> <| mSeqChains := mSeqChains c ++ chains |>.

(** the samples of a batch move pointers, the same ones *)
Definition moving (m : MotionMessage) : Prop := m_action m = AMOTION_EVENT_ACTION_MOVE \/ m_action m = AMOTION_EVENT_ACTION_HOVER_MOVE.
Definition shape (m : MotionMessage) : Z * Z * Z * list PointerProperties := (m_deviceId m, m_source m, m_action m, map property (m_pointers m)).

(** if the samples move a touch its history ends with the last one *)
Definition touch_current (c c' : t) (m : MotionMessage) : Prop :=
  m_action m = AMOTION_EVENT_ACTION_MOVE -> mResampleTouch c = true -> isPointerEvent (m_source m) = true -> current_at c' (m_deviceId m) (m_source m) (m_eventTime m).

Lemma add_samples_ok c e q samples : touches_ok c -> Forall (fun m => motion_ok m = true) samples -> Forall (fun m => length (m_pointers m) = MotionEvent.getPointerCount e) samples ->
  exists c' samples', add_samples c e q samples = Some (c', extend e samples', default q (last (map m_seq samples)))
    /\ touches_ok c' /\ chained (links (q :: map m_seq samples)) c c' /\ Forall2 rewrites samples samples' /\ (mResampleTouch c = false -> samples' = samples)
    /\ (forall m, last samples = Some m -> touch_current c c' m).
Proof.
  revert c e q. induction samples as [|m samples IH]; intros c e q Hc Hm Hl.
  { exists c, []. rewrite extend_nil. split; [done|]. split; [done|]. split; [exists (mTouchStates c); unfold with_field; simpl; rewrite app_nil_r; by destruct c|]. by repeat constructor. }
  apply Forall_cons in Hm as [Hm Hms]. apply Forall_cons in Hl as [Hl Hls]. cbn [add_samples].
  destruct (updateTouchState_ok c m Hc Hm) as (c1 & m' & E & Hc1 & [states ->] & Hr & Hsame). rewrite E. cbn [mbind option_bind fst snd].
  rewrite addSample_extend by (rewrite (rewrites_length m m' Hr); done). cbn [mbind option_bind].
  destruct (IH (c <| mTouchStates := states |> <| mSeqChains := mSeqChains c ++ [seq_chain (m_seq m) q] |>) (extend e [m']) (m_seq m)) as (c' & ms' & E' & Hc' & [states' ->] & Hrs & Hsame' & Hcur).
  { done. } { done. } { eapply Forall_impl; [exact Hls|]. done. }
  unfold with_field in E' |- *. simpl in E' |- *. rewrite E'. rewrite extend_app. exists (c <| mTouchStates := states' |> <| mSeqChains := mSeqChains c ++ links (q :: map m_seq (m :: samples)) |>), (m' :: ms').
  split; [|split; [|split; [|split; [|split]]]].
  - do 2 f_equal; [|by destruct (map m_seq samples) as [|x l] eqn:?; [|simpl; destruct (last (x :: l)) eqn:El; [|apply last_None in El]]]. f_equal. unfold with_field. simpl. by rewrite <- app_assoc.
  - exact Hc'.
  - by exists states'.
  - by constructor.
  - intros Hno. rewrite Hsame by done. f_equal. by apply Hsame'.
  - intros n Hn. destruct samples as [|m2 samples]; [|exact (Hcur n Hn)]. injection Hn as <-. intros Ha Hr1 Hp.
    simpl in E'. injection E' as E1 E2. unfold current_at. simpl. pose proof (update_move c m _ _ Hc Hm Ha Hr1 Hp E) as Hu. unfold current_at in Hu. simpl in Hu. rewrite <- E1. exact Hu.
Qed.

End Touch.
