(* ===== verification/InputConsumerInvariant.v ===== *)
(** * The consumer implements its specification

    [held] are the messages that the consumer has, in batches or deferred. Each operation
    of InputConsumer.v takes messages from the front of a stream ([takes]), hands them to
    the application or answers them, and keeps the invariant [inv]; so every call is a run
    of [Module Transport]. *)

From S2P Require Import Prelude PointerCoords InputEvents InputState InputProtocol InputConnection InputConsumer InputConsumerSystem InputConsumerTouch.
Import InputConsumer Transport Chains.

(** ** The messages that a consumer has *)

Definition deferred_messages (c : InputConsumer.t) : list InputMessage :=
  if mMsgDeferred c then match mMsg c with Some (ToConsumer m) => [m] | _ => [] end else [].
Definition held (c : InputConsumer.t) : list InputMessage := map MotionMsg (concat (mBatches c)) ++ deferred_messages c.

Definition in_stream (k : stream) (m : InputMessage) : Prop := stream_of m = k.
#[global] Instance in_stream_dec k m : Decision (in_stream k m) := ltac:(unfold in_stream; apply _).

Definition waiting (c : InputConsumer.t) (k : stream) : list Z := map seq_of (filter (in_stream k) (held c)).

(** [ms] leaves the front of its streams *)
Definition takes (ms : list InputMessage) (c c' : InputConsumer.t) : Prop :=
  held c ≡ₚ ms ++ held c' /\ forall j, filter (in_stream j) (held c) = filter (in_stream j) ms ++ filter (in_stream j) (held c').

Lemma takes_nil c c' : held c' = held c -> takes [] c c'.
Proof. intros H. split; [by rewrite H|]. intros j. by rewrite H. Qed.

Lemma takes_trans ms ms' c c1 c2 : takes ms c c1 -> takes ms' c1 c2 -> takes (ms ++ ms') c c2.
Proof. intros [Hp Hf] [Hp' Hf']. split; [by rewrite Hp, Hp', app_assoc|]. intros j. by rewrite Hf, Hf', filter_app, app_assoc. Qed.

(** the same stream for all of [ms] *)
Definition one_stream (k : stream) (ms : list InputMessage) : Prop := forall m, m ∈ ms -> stream_of m = k.

Lemma filter_one_stream k ms j : one_stream k ms -> map seq_of (filter (in_stream j) ms) = at_stream k (map seq_of ms) j.
Proof.
  intros H. unfold at_stream. case_decide as Hj; [rewrite list_filter_all; [done|]; subst; exact H|].
  rewrite list_filter_none; [done|]. intros m Hm Hs. apply Hj. by rewrite <- (H m Hm).
Qed.

(** ** Batches *)

Definition batch_ok (b : list MotionMessage) : Prop :=
  b <> [] /\ exists sh, Forall (fun m => motion_ok m = true /\ m_seq m <> 0 /\ moving m /\ shape m = sh) b.

Definition batch_key (b : list MotionMessage) : stream := match b with m :: _ => stream_of (MotionMsg m) | [] => None end.

Definition batches_ok (bs : list (list MotionMessage)) : Prop := Forall batch_ok bs /\ NoDup (map batch_key bs).

Lemma shape_stream m m' : shape m = shape m' -> stream_of (MotionMsg m) = stream_of (MotionMsg m').
Proof. unfold shape. intros [= H1 H2 _ _]. simpl. by rewrite H1, H2. Qed.

Lemma batch_stream b m : batch_ok b -> m ∈ b -> stream_of (MotionMsg m) = batch_key b.
Proof.
  intros [Hne [sh Hb]] Hm. destruct b as [|x b]; [done|]. simpl batch_key. rewrite Forall_forall in Hb. apply shape_stream.
  destruct (Hb m Hm) as (_ & _ & _ & ->). by destruct (Hb x ltac:(set_solver)) as (_ & _ & _ & ->).
Qed.

Lemma batch_sub b b' : batch_ok b -> b' <> [] -> (forall m, m ∈ b' -> m ∈ b) -> batch_ok b' /\ batch_key b' = batch_key b.
Proof.
  intros Hb Hne Hsub. pose proof Hb as [_ [sh Hf]]. split.
  - split; [done|]. exists sh. rewrite Forall_forall in *. auto.
  - destruct b' as [|m b']; [done|]. simpl batch_key. apply batch_stream; [done|]. apply Hsub. set_solver.
Qed.

(** a batch among the others *)
Lemma batch_at bs i b : batches_ok bs -> bs !! i = Some b ->
  exists bs1 bs2, bs = bs1 ++ b :: bs2 /\ (forall b', <[i := b']> bs = bs1 ++ b' :: bs2) /\ delete i bs = bs1 ++ bs2
    /\ batch_ok b /\ (forall m, m ∈ concat (bs1 ++ bs2) -> stream_of (MotionMsg m) <> batch_key b).
Proof.
  intros [Hb Hd] Hi. exists (take i bs), (drop (S i) bs). pose proof (take_drop_middle bs i b Hi) as Hm. pose proof (lookup_lt_Some _ _ _ Hi) as Hlt.
  split; [done|]. split; [intros b'; by apply insert_take_drop|]. split; [apply delete_take_drop|]. split; [by apply (proj1 (Forall_lookup _ _) Hb i)|].
  intros m (b' & Hb' & Hin)%elem_of_concat Hk. assert (b' ∈ bs) as Hin' by (rewrite <- Hm; set_solver).
  rewrite (batch_stream b' m) in Hk; [|by apply (proj1 (Forall_forall _ _) Hb)|done]. rewrite <- Hm, map_app in Hd. simpl in Hd.
  apply NoDup_app in Hd as (_ & H1 & H2). apply NoDup_cons in H2 as [H2 _]. apply elem_of_app in Hb' as [Hb'|Hb'].
  - apply (H1 (batch_key b')); [apply elem_of_map; eauto|rewrite Hk; set_solver].
  - apply H2, elem_of_map. eauto.
Qed.

Lemma filter_others bs k : (forall m, m ∈ concat bs -> stream_of (MotionMsg m) <> k) -> filter (in_stream k) (map MotionMsg (concat bs)) = [].
Proof. intros H. apply list_filter_none. intros m (x & Hx & ->)%elem_of_map Hs. by apply (H x). Qed.

(** the first [n] samples of a batch are taken *)
Lemma take_samples c c' i b n : batches_ok (mBatches c) -> mBatches c !! i = Some b -> mBatches c' = <[i := drop n b]> (mBatches c) -> deferred_messages c' = deferred_messages c ->
  takes (map MotionMsg (take n b)) c c'.
Proof.
  intros Hb Hi Hc' Hd. destruct (batch_at _ _ _ Hb Hi) as (bs1 & bs2 & Hbs & Hins & _ & Hok & Hother). unfold takes, held. rewrite Hc', Hins, Hbs, Hd, !concat_app. simpl. rewrite concat_app in Hother.
  set (x := concat bs1) in *. set (y := concat bs2) in *. split.
  - rewrite !map_app, <- (take_drop n b) at 1. rewrite map_app. rewrite <- !app_assoc. rewrite (Permutation_app_swap_app (map MotionMsg x)). done.
  - intros j. assert (map MotionMsg b = map MotionMsg (take n b) ++ map MotionMsg (drop n b)) as Hsplit by (by rewrite <- map_app, take_drop).
    rewrite !map_app, Hsplit, !filter_app. rewrite !app_assoc. do 3 f_equal.
    destruct (decide (j = batch_key b)) as [->|Hj].
    + rewrite (list_filter_none _ (map MotionMsg x)); [by rewrite app_nil_r|]. intros m (z & Hz & ->)%elem_of_map Hs. apply (Hother z); [set_solver|done].
    + rewrite (list_filter_none _ (map MotionMsg (take n b))); [by rewrite app_nil_r|]. intros m (z & Hz & ->)%elem_of_map Hs. apply Hj. rewrite <- Hs. apply batch_stream; [done|].
      rewrite <- (take_drop n b). set_solver.
Qed.

(** a whole batch is taken *)
Lemma take_batch c c' i b : batches_ok (mBatches c) -> mBatches c !! i = Some b -> mBatches c' = delete i (mBatches c) -> deferred_messages c' = deferred_messages c ->
  takes (map MotionMsg b) c c'.
Proof.
  intros Hb Hi Hc' Hd. pose proof (take_samples c (c <| mBatches := <[i := drop (length b) b]> (mBatches c) |>) i b (length b) Hb Hi eq_refl eq_refl) as [Hp Hf].
  rewrite take_ge in Hp, Hf by lia. rewrite drop_all in Hp, Hf. destruct (batch_at _ _ _ Hb Hi) as (bs1 & bs2 & _ & Hins & Hdel & _).
  assert (held (c <| mBatches := <[i := []]> (mBatches c) |>) = held c') as Hh.
  { unfold held. rewrite Hc', Hd, Hdel. simpl. rewrite Hins, !concat_app. done. }
  split; [by rewrite <- Hh|]. intros j. rewrite <- Hh. apply Hf.
Qed.

(** a sample is added to the batch of its stream, or to a new one *)
Lemma add_to_batch c c' i b m : batches_ok (mBatches c) -> mBatches c !! i = Some b -> batch_key b = stream_of (MotionMsg m) -> mBatches c' = <[i := b ++ [m]]> (mBatches c) ->
  deferred_messages c = [MotionMsg m] -> deferred_messages c' = [] -> takes [] c c'.
Proof.
  intros Hb Hi Hk Hc' Hd Hd'. destruct (batch_at _ _ _ Hb Hi) as (bs1 & bs2 & Hbs & Hins & _ & Hok & Hother). unfold takes, held. rewrite Hc', Hins, Hbs, Hd, Hd', !concat_app. simpl. rewrite concat_app in Hother.
  set (x := concat bs1) in *. set (y := concat bs2) in *. rewrite app_nil_r. split.
  - rewrite !map_app. simpl. rewrite <- !app_assoc. simpl. do 2 apply Permutation_app_head. symmetry. apply Permutation_cons_append.
  - intros j. rewrite !map_app, !filter_app. rewrite <- !app_assoc. change (map MotionMsg [m]) with [MotionMsg m]. do 2 f_equal. destruct (decide (j = batch_key b)) as [->|Hj].
    + rewrite (list_filter_none _ (map MotionMsg y)); [by rewrite app_nil_r|]. intros z (z' & Hz & ->)%elem_of_map Hs. apply (Hother z'); [set_solver|done].
    + rewrite (list_filter_none _ [MotionMsg m]); [by rewrite ?app_nil_r|]. intros z ->%list_elem_of_singleton Hs. apply Hj. rewrite <- Hs. by rewrite Hk.
Qed.

Lemma add_new_batch c c' m : mBatches c' = mBatches c ++ [[m]] -> deferred_messages c = [MotionMsg m] -> deferred_messages c' = [] -> held c' = held c.
Proof. intros Hc' Hd Hd'. unfold held. rewrite Hc', Hd, Hd', concat_app, map_app. simpl. by rewrite app_nil_r. Qed.

Lemma delete_insert {A} (i : nat) (x : A) (l : list A) : delete i (<[i := x]> l) = delete i l.
Proof. revert i. induction l as [|y l IH]; intros [|i]; [done..| |]; simpl; [done|]. f_equal. apply IH. Qed.

Lemma batches_insert bs i b b' : batches_ok bs -> bs !! i = Some b -> batch_ok b' -> batch_key b' = batch_key b -> batches_ok (<[i := b']> bs).
Proof.
  intros [Hb Hd] Hi Hb' Hk. split; [by apply Forall_insert|]. by rewrite (map_insert_key batch_key i bs b' b).
Qed.

Lemma batches_delete bs i : batches_ok bs -> batches_ok (delete i bs).
Proof. intros [Hb Hd]. split; [by apply Forall_delete|by apply NoDup_map_delete]. Qed.

Section Bits.
Context `{B32 : BitSet32.ops} `{B64 : BitSet64.ops}.

Record inv (c : InputConsumer.t) : Prop := {
  inv_touches : touches_ok c;
  inv_batches : batches_ok (mBatches c);
  inv_deferred : mMsgDeferred c = true -> exists m, mMsg c = Some (ToConsumer m) /\ message_ok m = true }.

(** ** What an event presents *)

(** [t] is the time of a sample that resampling adds after [m], with [rest] still waiting *)
Definition resampled (frameTime : Z) (rest : list InputMessage) (m : MotionMessage) (t : Z) : Prop :=
  m_eventTime m <= t <= frameTime - RESAMPLE_LATENCY
  /\ (t <= m_eventTime m + RESAMPLE_MAX_PREDICTION \/ exists n, MotionMsg n ∈ rest /\ stream_of (MotionMsg n) = stream_of (MotionMsg m) /\ t < m_eventTime n).

(** the event [e] has one sample for each of the messages [xs], and perhaps one more *)
Definition presents_motions (resampling : bool) (frameTime : Z) (rest : list InputMessage) (e : MotionEvent.t) (xs : list MotionMessage) : Prop :=
  exists m ms, Forall2 rewrites xs (m :: ms) /\ (resampling = false -> xs = m :: ms)
    /\ (e = extend (event_of m) ms
        \/ resampling = true /\ exists x t, last xs = Some x /\ one_more (extend (event_of m) ms) e t /\ resampled frameTime rest x t).

Definition presents (resampling : bool) (frameTime : Z) (rest : list InputMessage) (ev : InputEvent) (ms : list InputMessage) : Prop :=
  match ev with
  | AKeyEvent e => exists m, ms = [KeyMsg m] /\ e = initializeKeyEvent m
  | AFocusEvent e => exists q i f t, ms = [FocusMsg q i f t] /\ e = FocusEvent.initialize i f t
  | AMotionEvent e => exists xs, ms = map MotionMsg xs /\ presents_motions resampling frameTime rest e xs
  end.

(** ** What operations do *)

(** the messages [ms] of one stream are handed to the application as the event [ev], [q] *)
Record delivers (frameTime : Z) (c c' : InputConsumer.t) (q : Z) (ev : InputEvent) (ms : list InputMessage) : Prop := {
  delivers_takes : takes ms c c';
  delivers_stream : exists k, one_stream k ms;
  delivers_last : last (map seq_of ms) = Some q;
  delivers_chains : mSeqChains c' = mSeqChains c ++ links (map seq_of ms);
  delivers_channel : channel c' = channel c;
  delivers_resampling : mResampleTouch c' = mResampleTouch c;
  delivers_presents : presents (mResampleTouch c) frameTime (held c') ev ms;
  delivers_inv : inv c' }.

(** the messages [ms] of one stream are answered without the application *)
Record discards (c c' : InputConsumer.t) (ms : list InputMessage) : Prop := {
  discards_takes : takes ms c c';
  discards_stream : exists k, one_stream k ms;
  discards_chains : mSeqChains c' = mSeqChains c;
  discards_channel : channel c' = channel c ++ signals false (map seq_of ms);
  discards_resampling : mResampleTouch c' = mResampleTouch c;
  discards_inv : inv c' }.

Lemma discards_nil c : inv c -> discards c c [].
Proof. intros H. constructor; [by apply takes_nil|exists None; intros m Hm; by apply elem_of_nil in Hm|done|by rewrite app_nil_r|done|done]. Qed.

Lemma seqs_of_motions xs : map seq_of (map MotionMsg xs) = map m_seq xs.
Proof. by rewrite map_map. Qed.

Lemma batch_one_stream b xs : batch_ok b -> (forall m, m ∈ xs -> m ∈ b) -> one_stream (batch_key b) (map MotionMsg xs).
Proof. intros Hb Hs m (x & Hx & ->)%elem_of_map. apply batch_stream; auto. Qed.

(** ** Making an event of samples *)

Lemma consume_samples_ok c m samples : touches_ok c -> Forall (fun x => motion_ok x = true) (m :: samples) -> Forall (fun x => length (m_pointers x) = length (m_pointers m)) samples ->
  exists c' m' ms', consume_samples c (m :: samples) = Some (c', extend (event_of m') ms', default (m_seq m) (last (map m_seq samples)))
    /\ touches_ok c' /\ chained (links (map m_seq (m :: samples))) c c' /\ Forall2 rewrites (m :: samples) (m' :: ms')
    /\ (mResampleTouch c = false -> m' :: ms' = m :: samples) /\ (forall x, last (m :: samples) = Some x -> touch_current c c' x).
Proof.
  intros Hc Hm Hl. apply Forall_cons in Hm as [Hm Hms]. destruct (updateTouchState_ok c m Hc Hm) as (c1 & m' & E & Hc1 & [states ->] & Hr & Hsame).
  unfold consume_samples. rewrite E. cbn [mbind option_bind fst snd]. rewrite initializeMotionEvent_ok. cbn [mbind option_bind].
  destruct (add_samples_ok (c <| mTouchStates := states |>) (event_of m') (m_seq m) samples) as (c' & ms' & E' & Hc' & [states' ->] & Hrs & Hsame' & Hcur); [done|done| |].
  { eapply Forall_impl; [exact Hl|]. intros x Hx. simpl. unfold MotionEvent.getPointerCount. simpl. rewrite length_map, (rewrites_length m m' Hr). exact Hx. }
  rewrite E'. eexists _, m', ms'. split; [reflexivity|]. split; [done|]. split; [by exists states'|]. split; [by constructor|]. split; [intros Hno; by rewrite Hsame, Hsame'|].
  intros x Hx. destruct samples as [|m2 samples]; [|exact (Hcur x Hx)]. injection Hx as <-. intros Ha Hr1 Hp.
  simpl in E'. injection E' as E1 E2. unfold current_at. simpl. pose proof (update_move c m _ _ Hc Hm Ha Hr1 Hp E) as Hu. unfold current_at in Hu. simpl in Hu. rewrite <- E1. exact Hu.
Qed.

Lemma batch_lengths b m m' : batch_ok b -> m ∈ b -> m' ∈ b -> length (m_pointers m) = length (m_pointers m').
Proof.
  intros [_ [sh Hb]] Hm Hm'. rewrite Forall_forall in Hb. destruct (Hb m Hm) as (_ & _ & _ & H1), (Hb m' Hm') as (_ & _ & _ & H2).
  rewrite <- H2 in H1. unfold shape in H1. injection H1 as _ _ _ H1. apply (f_equal length) in H1. by rewrite !length_map in H1.
Qed.

Lemma consumeSamples_ok c i b n : inv c -> mBatches c !! i = Some b -> (0 < n)%nat ->
  exists states m ms x, consumeSamples true c i n
      = Some (c <| mTouchStates := states |> <| mSeqChains := mSeqChains c ++ links (map m_seq (take n b)) |> <| mBatches := <[i := drop n b]> (mBatches c) |>, Some (extend (event_of m) ms, m_seq x))
    /\ Forall state_ok states /\ last (take n b) = Some x /\ Forall2 rewrites (take n b) (m :: ms) /\ (mResampleTouch c = false -> m :: ms = take n b)
    /\ touch_current c (c <| mTouchStates := states |>) x.
Proof.
  intros Hc Hi Hn. pose proof (proj1 (Forall_lookup _ _) (proj1 (inv_batches c Hc)) i b Hi) as Hb. unfold consumeSamples. rewrite Hi. cbn [mbind option_bind negb].
  destruct b as [|m b]; [by destruct Hb|]. destruct n as [|n]; [lia|]. cbn [take].
  destruct (consume_samples_ok c m (take n b)) as (c' & m' & ms' & E & Hc' & [states ->] & Hr & Hsame & Hcur).
  - apply Hc.
  - destruct Hb as [_ [sh Hb]]. rewrite Forall_forall in *. intros x Hx. apply Hb. rewrite <- (take_drop n b). set_solver.
  - apply Forall_forall. intros x Hx. apply (batch_lengths (m :: b)); [done| |set_solver]. rewrite <- (take_drop n b). set_solver.
  - rewrite E. cbn [mbind option_bind]. destruct (last (m :: take n b)) as [x|] eqn:El; [|by apply last_None in El].
    assert (default (m_seq m) (last (map m_seq (take n b))) = m_seq x) as ->.
    { change (map m_seq (take n b)) with (m_seq <$> take n b). rewrite fmap_last. destruct (take n b) as [|y l]; [by injection El as <-|]. change (last (m :: y :: l)) with (last (y :: l)) in El. by rewrite El. }
    exists states, m', ms', x. split; [done|]. split; [exact Hc'|]. split; [done|]. split; [done|]. split; [done|]. exact (Hcur x eq_refl).
Qed.

(** ** Consuming batches *)

Lemma samples_until_spec b t : (samples_until b t <= length b)%nat /\ Forall (fun m => m_eventTime m <= t) (take (samples_until b t) b)
  /\ (forall m, head (drop (samples_until b t) b) = Some m -> t < m_eventTime m).
Proof.
  induction b as [|m b (IH1 & IH2 & IH3)]; [repeat split; [done|constructor|done]|]. simpl. destruct (m_eventTime m <=? t) eqn:E; bool_to_prop; simpl.
  - split; [lia|]. split; [by constructor|done].
  - split; [lia|]. split; [constructor|]. by intros ? [= <-].
Qed.

Lemma int32_uint32 z : INT32_MIN <= z <= INT32_MAX -> int32 (uint32 z) = z.
Proof. unfold INT32_MIN, INT32_MAX, int32, uint32. intros H. destruct (Z.lt_ge_cases z 0); [rewrite <- (Z.mod_unique z 4294967296 (-1) (z + 4294967296)) by lia|rewrite (Z.mod_small z) by lia]; [rewrite <- (Z.mod_unique _ 4294967296 1 (z + 2147483648)) by lia|rewrite Z.mod_small by lia]; lia. Qed.

Lemma motion_source m : motion_ok m = true -> int32 (uint32 (m_source m)) = m_source m.
Proof. unfold motion_ok. intros H. bool_to_prop. by apply int32_uint32. Qed.

Lemma resampleTouchState_ok c sampleTime e next d src t : touches_ok c -> ids_ok (MotionEvent.mPointerProperties e) -> - 4611686018427387904 <= sampleTime < 4611686018427387904 ->
  (forall m, next = Some m -> motion_ok m = true) -> MotionEvent.mDeviceId e = d -> int32 (MotionEvent.mSource e) = src ->
  (MotionEvent.mAction e = AMOTION_EVENT_ACTION_MOVE -> mResampleTouch c = true -> isPointerEvent src = true -> current_at c d src t) ->
  exists states e', resampleTouchState c sampleTime e next = Some (c <| mTouchStates := states |>, e') /\ Forall state_ok states
    /\ (e' = e \/ mResampleTouch c = true /\ exists t', resampled_at next t sampleTime t' /\ one_more e e' t').
Proof.
  intros Hc He Ht Hn Hd Hs Hcur. unfold resampleTouchState. rewrite Hd, Hs.
  assert (c <| mTouchStates := mTouchStates c |> = c) as Hsame by by destruct c.
  destruct (negb (mResampleTouch c) || _ || _) eqn:Eg; [exists (mTouchStates c), e; rewrite Hsame; auto|].
  bool_to_prop. destruct (findTouchState _ _ _) as [i|] eqn:Ef; [|exists (mTouchStates c), e; rewrite Hsame; auto].
  pose proof Ef as Ei. apply find_index_Some in Ei as (s & Hi & _). rewrite Hi. cbn [mbind option_bind].
  destruct (resample_ok s sampleTime e next) as (s' & e' & -> & Hs' & Hr); [by apply (proj1 (Forall_lookup _ _) Hc i s)|done|done|done|]. cbn [mbind option_bind].
  eexists _, e'. split; [done|]. split; [by apply Forall_insert|]. destruct Hr as [->|(h & t' & Hg & Hr & Hone)]; [by left|right]. split; [done|]. exists t'. split; [|done].
  replace t with (History.eventTime h); [done|]. eapply Hcur; eauto.
Qed.

Lemma consume_until_ok c i b frameTime sampleTime : inv c -> mBatches c !! i = Some b -> - 4611686018427387904 <= sampleTime < 4611686018427387904 ->
  (mResampleTouch c = true -> sampleTime = frameTime - RESAMPLE_LATENCY) -> (0 < samples_until b sampleTime)%nat ->
  exists q ev ms c', consume_until true c i b sampleTime = Some ((OK, Some (q, ev)), c') /\ delivers frameTime c c' q ev ms.
Proof.
  intros Hc Hi Ht Hframe Hn. pose proof (inv_batches c Hc) as Hbs. pose proof (proj1 (Forall_lookup _ _) (proj1 Hbs) i b Hi) as Hb.
  destruct (samples_until_spec b sampleTime) as (Hlen & Hpast & Hfuture). set (n := samples_until b sampleTime) in *.
  unfold consume_until, findSampleNoLaterThan. fold n. replace (Z.to_nat (Z.of_nat n - 1 + 1)) with n by lia.
  destruct (consumeSamples_ok c i b n Hc Hi Hn) as (states & m & ms & x & E & Hstates & Hlast & Hr & Hsame & Hcur). rewrite E. cbn [mbind option_bind fst snd].
  pose proof (lookup_lt_Some _ _ _ Hi) as Hlt. set (c1 := c <| mTouchStates := states |> <| mSeqChains := _ |> <| mBatches := _ |>) in *.
  assert (mBatches c1 !! i = Some (drop n b)) as Hrest by by apply list_lookup_insert_eq.
  rewrite Hrest. cbn [mbind option_bind]. set (c2 := if bool_decide (drop n b = []) then remove_batch i c1 else c1).
  assert (takes (map MotionMsg (take n b)) c c2 /\ batches_ok (mBatches c2) /\ (forall y, y ∈ drop n b -> MotionMsg y ∈ held c2)) as (Htakes & Hbs2 & Hheld).
  { subst c2. case_bool_decide as Hd.
    - assert (take n b = b) as -> by (rewrite <- (take_drop n b) at 2; by rewrite Hd, app_nil_r). split; [|split; [|rewrite Hd; intros y Hy; by apply elem_of_nil in Hy]].
      + apply (take_batch _ _ i b); [done|done| |done]. simpl. rewrite Hd. by rewrite delete_insert.
      + simpl. rewrite Hd, delete_insert. by apply batches_delete.
    - destruct (batch_sub b (drop n b) Hb Hd) as [Hb' Hk]; [intros y Hy; rewrite <- (take_drop n b); set_solver|]. split; [by apply (take_samples _ _ i b)|]. split; [by apply (batches_insert _ i b)|].
      intros y Hy. unfold held. simpl. apply elem_of_app. left. apply elem_of_map. exists y. split; [|done]. apply elem_of_concat. exists (drop n b). split; [by apply list_elem_of_lookup_2 with i|done]. }
  assert (touches_ok c2 /\ mResampleTouch c2 = mResampleTouch c /\ mSeqChains c2 = mSeqChains c ++ links (map m_seq (take n b)) /\ channel c2 = channel c
    /\ mMsgDeferred c2 = mMsgDeferred c /\ mMsg c2 = mMsg c /\ mTouchStates c2 = states) as (Ht2 & Hr2 & Hch2 & Hcn2 & Hdf2 & Hmsg2 & Hst2) by (subst c2; by case_bool_decide).
  assert (forall y, y ∈ b -> motion_ok y = true /\ shape y = shape x) as Hall.
  { destruct Hb as [_ [sh Hb]]. rewrite Forall_forall in Hb. intros y Hy. destruct (Hb y Hy) as (H1 & _ & _ & H2). split; [done|].
    destruct (Hb x) as (_ & _ & _ & H3); [|congruence]. rewrite <- (take_drop n b). apply elem_of_app. left. by eapply last_Some_elem_of. }
  assert (forall states' e, Forall state_ok states' -> (e = extend (event_of m) ms \/ mResampleTouch c = true /\ exists t, one_more (extend (event_of m) ms) e t /\ resampled frameTime (held c2) x t) ->
    delivers frameTime c (c2 <| mTouchStates := states' |>) (m_seq x) (AMotionEvent e) (map MotionMsg (take n b))) as Hdel.
  { intros states' e Hst He. constructor; simpl.
    - exact Htakes.
    - eexists. apply (batch_one_stream b); [done|]. intros y Hy. rewrite <- (take_drop n b). set_solver.
    - rewrite seqs_of_motions. change (map m_seq (take n b)) with (m_seq <$> take n b). by rewrite fmap_last, Hlast.
    - by rewrite seqs_of_motions.
    - done.
    - done.
    - exists (take n b). split; [done|]. exists m, ms. split; [done|]. split; [intros Hno; by rewrite Hsame|]. destruct He as [->|[Hyes (t & Hone & Hres)]]; [by left|right]. split; [done|]. exists x, t. done.
    - constructor; simpl; [done|done|]. rewrite Hdf2, Hmsg2. apply Hc. }
  exists (m_seq x). rewrite Hr2. destruct (mResampleTouch c) eqn:Eres.
  - assert (exists y, hd_error (take n b) = Some y /\ rewrites y m) as (y & Hy & Hrw) by (inversion Hr; eauto).
    assert (y ∈ b) as Hyb by (rewrite <- (take_drop n b); apply elem_of_app; left; destruct (take n b); [done|injection Hy as ->; set_solver]).
    destruct (Hall y Hyb) as [Hyok Hysh]. destruct Hrw as (ps & -> & Hps). unfold shape in Hysh. injection Hysh as Hdev Hsrc Hact Hprops.
    destruct (resampleTouchState_ok c2 sampleTime (extend (event_of (y <| m_pointers := ps |>)) ms) (head (drop n b)) (m_deviceId x) (m_source x) (m_eventTime x)) as (states' & e' & -> & Hst' & He').
    + done.
    + simpl. rewrite (rewritten_properties _ _ Hps). by apply motion_ids.
    + done.
    + intros z Hz. apply Hall. rewrite <- (take_drop n b). destruct (drop n b); [done|injection Hz as ->; set_solver].
    + simpl. done.
    + simpl. rewrite motion_source by done. done.
    + simpl. intros Ha _ Hp. unfold current_at. rewrite Hst2. apply Hcur; [congruence|done|done].
    + cbn [mbind option_bind]. eexists _, _, _. split; [reflexivity|]. simpl fst. apply Hdel; [done|]. destruct He' as [->|[_ (t & Hat & Hone)]]; [by left|right]. split; [done|]. exists t. split; [done|].
      assert (m_eventTime x <= sampleTime) as Hx by (apply (proj1 (Forall_forall _ _) Hpast); by eapply last_Some_elem_of).
      destruct Hat as (H1 & H2 & H3). specialize (Hframe eq_refl). split; [lia|]. destruct (head (drop n b)) as [z|] eqn:Ez; [right|by left].
      assert (z ∈ drop n b) as Hz by (destruct (drop n b); [done|injection Ez as ->; set_solver]). exists z. split; [by apply Hheld|]. split; [|rewrite H3; by apply Hfuture].
      apply shape_stream. apply Hall. rewrite <- (take_drop n b). set_solver.
  - eexists _, _, _. split; [reflexivity|]. assert (c2 <| mTouchStates := states |> = c2) as <- by (rewrite <- Hst2; by destruct c2). apply Hdel; [done|by left].
Qed.

(** a whole batch becomes an event *)
Lemma consume_batch_ok frameTime c i b : inv c -> mBatches c !! i = Some b ->
  exists q ev ms c', consumeSamples true c i (length b) = Some (c', Some (ev, q)) /\ delivers frameTime c (remove_batch i c') q (AMotionEvent ev) ms.
Proof.
  intros Hc Hi. pose proof (inv_batches c Hc) as Hbs. pose proof (proj1 (Forall_lookup _ _) (proj1 Hbs) i b Hi) as Hb.
  destruct (consumeSamples_ok c i b (length b) Hc Hi) as (states & m & ms & x & E & Hstates & Hlast & Hr & Hsame & _); [destruct b; [by destruct Hb|simpl; lia]|].
  rewrite take_ge in * by lia. rewrite E. eexists _, _, (map MotionMsg b), _. split; [reflexivity|]. constructor; simpl.
  - apply (take_batch _ _ i b); [done|done| |done]. simpl. apply delete_insert.
  - eexists. by apply (batch_one_stream b).
  - rewrite seqs_of_motions. change (map m_seq b) with (m_seq <$> b). by rewrite fmap_last, Hlast.
  - by rewrite seqs_of_motions.
  - done.
  - done.
  - exists b. split; [done|]. exists m, ms. split; [done|]. split; [intros Hno; by rewrite Hsame|by left].
  - constructor; simpl; [done|rewrite delete_insert; by apply batches_delete|apply Hc].
Qed.

(** what has not been consumed lies after the time of the frame *)
Definition later (c : InputConsumer.t) (frameTime : Z) : Prop :=
  if frameTime <? 0 then mBatches c = []
  else forall b m, b ∈ mBatches c -> head b = Some m -> (if mResampleTouch c then frameTime - RESAMPLE_LATENCY else frameTime) < m_eventTime m.

Lemma consume_batches_ok frameTime c i : inv c -> frameTime < 4611686018427387904 -> (i <= length (mBatches c))%nat ->
  (frameTime <? 0 = false -> forall j b m, (i <= j)%nat -> mBatches c !! j = Some b -> head b = Some m -> (if mResampleTouch c then frameTime - RESAMPLE_LATENCY else frameTime) < m_eventTime m) ->
  (frameTime <? 0 = true -> i = length (mBatches c)) ->
  (consume_batches true frameTime c i = Some ((WOULD_BLOCK, None), c) /\ later c frameTime)
  \/ exists q ev ms c', consume_batches true frameTime c i = Some ((OK, Some (q, ev)), c') /\ delivers frameTime c c' q ev ms.
Proof.
  intros Hc Hf. induction i as [|i IH]; intros Hi Hlate Hneg.
  { left. split; [done|]. unfold later. destruct (frameTime <? 0) eqn:E; [specialize (Hneg eq_refl); by destruct (mBatches c)|].
    intros b m [j Hj]%list_elem_of_lookup Hm. eapply (Hlate eq_refl j); [lia|done|done]. }
  cbn [consume_batches]. destruct (lookup_lt_is_Some_2 (mBatches c) i) as [b Hb]; [lia|]. rewrite Hb. cbn [mbind option_bind]. destruct (frameTime <? 0) eqn:E.
  - right. destruct (consume_batch_ok frameTime c i b Hc Hb) as (q & ev & ms & c' & -> & Hd). cbn [mbind option_bind fst snd motion_result]. by exists q, (AMotionEvent ev), ms, (remove_batch i c').
  - bool_to_prop. set (sampleTime := if mResampleTouch c then frameTime - RESAMPLE_LATENCY else frameTime) in *.
    assert (- 4611686018427387904 <= sampleTime < 4611686018427387904) as Hs by (subst sampleTime; unfold RESAMPLE_LATENCY, NANOS_PER_MS; case_match; lia).
    rewrite checked_in by lia. cbn [mbind option_bind]. unfold findSampleNoLaterThan. destruct (_ <? 0) eqn:En; bool_to_prop.
    + apply IH; [lia| |done]. intros _ j b' m Hj Hb' Hm. destruct (decide (j = i)) as [->|Hne]; [|by eapply (Hlate eq_refl j); [lia|..]].
      rewrite Hb in Hb'. injection Hb' as <-. destruct (samples_until_spec b sampleTime) as (_ & _ & Hfuture). apply Hfuture. by replace (samples_until b sampleTime) with 0%nat by lia.
    + right. destruct (consume_until_ok c i b frameTime sampleTime Hc Hb Hs) as (q & ev & ms & c' & E' & Hd); [intros Hr; subst sampleTime; by rewrite Hr|lia|]. by exists q, ev, ms, c'.
Qed.

Lemma consumeBatch_ok frameTime c : inv c -> frameTime < 4611686018427387904 ->
  (consumeBatch true frameTime c = Some ((WOULD_BLOCK, None), c) /\ later c frameTime)
  \/ exists q ev ms c', consumeBatch true frameTime c = Some ((OK, Some (q, ev)), c') /\ delivers frameTime c c' q ev ms.
Proof.
  intros Hc Hf. apply consume_batches_ok; [done|done|done| |done]. intros _ j b m Hj Hb. apply lookup_lt_Some in Hb. lia.
Qed.

(** ** Messages *)

(** the consumer without the deferred message *)
Definition undeferred (c : InputConsumer.t) : InputConsumer.t := c <| mMsgDeferred := false |>.

Lemma undeferred_inv c : inv c -> inv (undeferred c).
Proof. intros [H1 H2 H3]. constructor; [done|done|]. simpl. done. Qed.

(** no batch is open for the stream *)
Definition no_batch (c : InputConsumer.t) (k : stream) : Prop := forall x, x ∈ concat (mBatches c) -> stream_of (MotionMsg x) <> k.

(** a message that is an event of its own *)
Lemma single_delivers frameTime c c' m ev : inv c' -> mBatches c' = mBatches c -> no_batch c (stream_of m) -> deferred_messages c = [m] -> deferred_messages c' = [] ->
  mSeqChains c' = mSeqChains c -> channel c' = channel c -> mResampleTouch c' = mResampleTouch c -> presents (mResampleTouch c) frameTime (held c') ev [m] ->
  delivers frameTime c c' (seq_of m) ev [m].
Proof.
  intros Hc' Hb Hno Hd Hd' Hch Hcn Hr Hp. assert (held c = held c' ++ [m]) as Hh by (unfold held; by rewrite Hb, Hd, Hd', app_nil_r).
  constructor; [|exists (stream_of m); by intros x ->%list_elem_of_singleton|done|by rewrite Hch, app_nil_r|done..].
  split; [rewrite Hh; symmetry; apply Permutation_cons_append|]. intros j. rewrite Hh, filter_app.
  destruct (decide (in_stream j m)) as [Hj|Hj]; [|rewrite (filter_cons_False _ m) by done; by rewrite app_nil_r].
  rewrite (list_filter_none _ (held c')); [by rewrite app_nil_r|]. intros x Hx Hs. unfold held in Hx. rewrite Hd', app_nil_r, Hb in Hx.
  apply elem_of_map in Hx as (y & Hy & ->). apply (Hno y Hy). unfold in_stream in *. congruence.
Qed.

Definition turn_ok (frameTime : Z) (c : InputConsumer.t) (x : turn) : Prop :=
  match x with
  | Continue c' => takes [] c c' /\ mSeqChains c' = mSeqChains c /\ channel c' = channel c /\ mResampleTouch c' = mResampleTouch c /\ mMsgDeferred c' = false /\ inv c'
  | Stop r c' => exists c1 dropped q ev ms, r = (OK, Some (q, ev)) /\ discards c c1 dropped /\ delivers frameTime c1 c' q ev ms
  end.

Lemma turn_deliver frameTime c r c' q ev ms : inv c -> r = (OK, Some (q, ev)) -> delivers frameTime c c' q ev ms -> turn_ok frameTime c (Stop r c').
Proof. intros Hc -> Hd. exists c, [], q, ev, ms. split; [done|]. split; [by apply discards_nil|done]. Qed.

Lemma deferred_true c m : deferred_messages c = [m] -> mMsgDeferred c = true.
Proof. unfold deferred_messages. by destruct (mMsgDeferred c). Qed.

Lemma start_motion_ok frameTime c m : inv c -> deferred_messages c = [MotionMsg m] -> motion_ok m = true -> m_seq m <> 0 -> no_batch c (stream_of (MotionMsg m)) ->
  exists x, start_motion true (undeferred c) m = Some x /\ turn_ok frameTime c x
    /\ (moving m \/ exists q ev ms c', x = Stop (OK, Some (q, ev)) c' /\ delivers frameTime c c' q ev ms).
Proof.
  intros Hc Hd Hm Hq Hno. unfold start_motion. destruct ((m_action m =? AMOTION_EVENT_ACTION_MOVE) || _) eqn:Ea.
  - assert (moving m) as Hmov by (apply orb_true_iff in Ea as [Ea|Ea]; bool_to_prop; [by left|by right]).
    eexists. split; [reflexivity|]. split; [|by left]. simpl. split; [apply takes_nil; by apply (add_new_batch _ _ m)|]. do 4 (split; [done|]). constructor; [apply Hc|split|done].
    + simpl. apply Forall_app. split; [apply Hc|]. constructor; [|done]. split; [done|]. exists (shape m). constructor; [|done]. done.
    + simpl. rewrite map_app. simpl. apply NoDup_app. split; [apply Hc|]. split; [|repeat constructor; set_solver].
      intros k (b & Hb & ->)%elem_of_map Hk. apply list_elem_of_singleton in Hk. pose proof (proj1 (Forall_forall _ _) (proj1 (inv_batches c Hc)) b Hb) as Hok.
      destruct b as [|x b]; [by destruct Hok|]. apply (Hno x); [apply elem_of_concat; exists (x :: b); set_solver|]. exact Hk.
  - cbn [negb]. destruct (updateTouchState_ok (undeferred c) m) as (c' & m' & -> & Ht & [states ->] & Hr & Hsame); [apply Hc|done|]. cbn [mbind option_bind fst snd].
    rewrite initializeMotionEvent_ok. cbn [mbind option_bind]. eexists. split; [reflexivity|].
    enough (delivers frameTime c (undeferred c <| mTouchStates := states |>) (m_seq m) (AMotionEvent (event_of m')) [MotionMsg m]) as H; [split; [by eapply turn_deliver|right; eauto 10]|].
    apply (single_delivers frameTime c _ (MotionMsg m)); try done; [constructor; [done|apply Hc|done]|].
    exists [m]. split; [done|]. exists m', []. split; [by repeat constructor|]. split; [intros Hn; by rewrite Hsame|]. left. by rewrite extend_nil.
Qed.

(** ** Batches and messages *)

Lemma same_properties_all ps ps' : length ps = length ps' -> forallb (fun x => same_properties x.1 x.2) (zip ps ps') = true -> map property ps = map property ps'.
Proof.
  revert ps'. induction ps as [|p ps IH]; intros [|p' ps']; [done..|]. simpl. intros [= Hl] [Hp Hps]%andb_true_iff. f_equal; [|by apply IH].
  unfold same_properties in Hp. bool_to_prop. destruct (property p), (property p'). simpl in *. congruence.
Qed.

Lemma canAddSample_ok b m first : head b = Some first -> exists can, canAddSample b m = Some can
  /\ (can = true -> m_action first = m_action m /\ map property (m_pointers first) = map property (m_pointers m)).
Proof.
  intros Hf. unfold canAddSample. rewrite Hf. cbn [mbind option_bind]. destruct (negb _ || _) eqn:E; [by exists false|].
  apply orb_false_iff in E as [E1%negb_false_iff E2%negb_false_iff]. apply Nat.eqb_eq in E1. bool_to_prop. eexists. split; [done|]. intros H. split; [done|]. by apply same_properties_all.
Qed.

Lemma cancel_signals send c b : (forall q, send q = InputPublisher.Complete) -> (forall m, m ∈ b -> m_seq m ∉ map seq (mSeqChains c) /\ m_seq m <> 0) ->
  foldl (fun c m => (sendFinishedSignal send c (m_seq m) false).2) c b = c <| channel := channel c ++ signals false (map m_seq b) |>.
Proof.
  intros Hs. revert c. induction b as [|m b IH]; intros c Hb; [simpl; rewrite app_nil_r; by destruct c|]. simpl. destruct (Hb m ltac:(set_solver)) as [H1 H2].
  rewrite (finish_single send c (m_seq m) false) by (done || by rewrite Hs). simpl. rewrite IH by (intros x Hx; apply Hb; set_solver).
  unfold with_field. simpl. by rewrite <- app_assoc.
Qed.

Lemma of_stream_key b m : of_stream (m_deviceId m) (m_source m) b = true <-> b <> [] /\ batch_key b = stream_of (MotionMsg m).
Proof.
  destruct b as [|x b]; simpl; [naive_solver|]. rewrite andb_true_iff, !Z.eqb_eq. split; [intros [-> ->]; done|intros [_ [= -> ->]]; done].
Qed.

Lemma consume_motion_ok send frameTime c m : (forall q, send q = InputPublisher.Complete) -> inv c -> deferred_messages c = [MotionMsg m] -> motion_ok m = true -> m_seq m <> 0 ->
  (forall x, x ∈ held c -> seq_of x ∉ map seq (mSeqChains c)) -> exists x, consume_motion send true (undeferred c) m = Some x /\ turn_ok frameTime c x.
Proof.
  intros Hsend Hc Hd Hm Hq Hfresh. pose proof (inv_batches c Hc) as Hbs. unfold consume_motion. destruct (findBatch _ _ _) as [i|] eqn:Ef.
  2: { destruct (start_motion_ok frameTime c m) as (x & Hx & Ht & _); try done; [|by exists x]. intros x (b & Hb & Hx)%elem_of_concat Hs. unfold findBatch in Ef. pose proof (find_index_None _ _ Ef b Hb) as Hn.
    pose proof (proj1 (Forall_forall _ _) (proj1 Hbs) b Hb) as Hok. rewrite (proj2 (of_stream_key b m)) in Hn; [done|]. split; [by destruct Hok|]. by rewrite <- (batch_stream b x Hok Hx). }
  apply find_index_Some in Ef as (b & Hi & Hk). apply of_stream_key in Hk as [Hne Hk]. simpl in Hi. simpl mBatches. rewrite Hi. cbn [mbind option_bind].
  destruct (batch_at _ _ _ Hbs Hi) as (bs1 & bs2 & Hsplit & Hins & Hdel & Hb & Hother). destruct b as [|first b]; [done|].
  destruct (canAddSample_ok (first :: b) m first eq_refl) as (can & -> & Hcan). cbn [mbind option_bind]. destruct can.
  { destruct (Hcan eq_refl) as [Hact Hprops]. eexists. split; [reflexivity|]. split; [by apply (add_to_batch _ _ i (first :: b) m)|]. do 4 (split; [done|]). constructor; [apply Hc|split|done].
    - simpl. apply Forall_insert; [apply Hbs|]. split; [done|]. destruct Hb as [_ [sh Hb]]. exists sh. rewrite app_comm_cons. apply Forall_app. split; [done|]. constructor; [|done].
      apply Forall_cons in Hb as [(_ & _ & Hmov & Hsh) _]. split; [done|]. split; [done|]. split; [unfold moving in *; by rewrite <- Hact|].
      rewrite <- Hsh. unfold shape. simpl in Hk. injection Hk as -> ->. by rewrite Hact, Hprops.
    - simpl. rewrite (map_insert_key batch_key i _ _ (first :: b)) by done. apply Hbs. }
  destruct (isPointerEvent _ && _) eqn:Ecancel.
  - bool_to_prop. unfold cancel_batch. simpl mBatches. rewrite Hi. cbn [mbind option_bind]. rewrite (cancel_signals send (undeferred c)); [|done|].
    2: { intros x Hx. split; [apply (Hfresh (MotionMsg x)); unfold held; apply elem_of_app; left; apply elem_of_map; exists x; split; [apply elem_of_concat; exists (first :: b); split; [by apply list_elem_of_lookup_2 with i|done]|done]|].
      destruct Hb as [_ [sh Hb]]. rewrite Forall_forall in Hb. by apply Hb. }
    set (c1 := c <| channel := channel c ++ signals false (map m_seq (first :: b)) |> <| mBatches := delete i (mBatches c) |>).
    assert (discards c c1 (map MotionMsg (first :: b))) as Hdis.
    { constructor; [by apply (take_batch _ _ i (first :: b))|eexists; by apply (batch_one_stream (first :: b))|done|by rewrite seqs_of_motions|done|]. constructor; [apply Hc|by apply batches_delete|apply Hc]. }
    destruct (start_motion_ok frameTime c1 m) as (x & E & _ & Hx); [apply Hdis|done|done|done| |].
    + intros x Hx Hs. apply (Hother x); [unfold c1 in Hx; simpl in Hx; by rewrite Hdel in Hx|]. by rewrite Hk, Hs.
    + exists x. split; [exact E|]. destruct Hx as [Hmov|(q & ev & ms & c' & -> & Hdeliver)]; [destruct Hmov as [Hmov|Hmov]; rewrite Hmov in *; discriminate|].
      by exists c1, (map MotionMsg (first :: b)), q, ev, ms.
  - assert ((undeferred c) <| mMsgDeferred := true |> = c) as -> by (pose proof (deferred_true c _ Hd) as H; destruct c; simpl in *; by subst).
    destruct (consume_batch_ok frameTime c i (first :: b) Hc Hi) as (q & ev & ms & c' & -> & Hdel'). cbn [mbind option_bind]. eexists. split; [reflexivity|]. eapply turn_deliver; [done|done|exact Hdel'].
Qed.

Lemma no_batch_none c : inv c -> no_batch c None.
Proof. intros _ x _. done. Qed.

Lemma consume_message_ok send frameTime c m : (forall q, send q = InputPublisher.Complete) -> inv c -> mMsgDeferred c = true -> mMsg c = Some (ToConsumer m) -> message_ok m = true ->
  (forall x, x ∈ held c -> seq_of x ∉ map seq (mSeqChains c)) -> exists x, consume_message send true (undeferred c) = Some x /\ turn_ok frameTime c x.
Proof.
  intros Hsend Hc Hd Hmsg Hm Hfresh. assert (deferred_messages c = [m]) as Hdm by (unfold deferred_messages; by rewrite Hd, Hmsg).
  unfold consume_message. simpl mMsg. rewrite Hmsg. cbn [mbind option_bind]. unfold message_ok in Hm. bool_to_prop. destruct m as [k|m|q i f t].
  - eexists. split; [reflexivity|]. eapply turn_deliver; [done|done|]. apply (single_delivers frameTime c _ (KeyMsg k)); try done; [by apply undeferred_inv|by exists k].
  - by apply consume_motion_ok.
  - eexists. split; [reflexivity|]. eapply turn_deliver; [done|done|]. apply (single_delivers frameTime c _ (FocusMsg q i f t)); try done; [by apply undeferred_inv|by exists q, i, f, t].
Qed.

(** ** The specification *)

Record implements (c : InputConsumer.t) (d : list Z) (a : Transport.t) : Prop := {
  implements_queue : forall j, queue a j = waiting c j;
  implements_chains : chains_ok (mSeqChains c) (events a);
  implements_last : map last (events a) = map Some d;
  implements_answered : answered a = channel c;
  implements_new : NoDup (concat (events a) ++ map seq_of (held c)) }.

Lemma takes_queue ms c c' k : takes ms c c' -> one_stream k ms -> forall j, waiting c j = at_stream k (map seq_of ms) j ++ waiting c' j.
Proof. intros [_ Hf] Hk j. unfold waiting. rewrite Hf, map_app. by rewrite (filter_one_stream k). Qed.

Lemma takes_seqs ms c c' : takes ms c c' -> map seq_of (held c) ≡ₚ map seq_of ms ++ map seq_of (held c').
Proof. intros [Hp _]. by rewrite Hp, map_app. Qed.

Lemma implements_same c c' d a : implements c d a -> takes [] c c' -> mSeqChains c' = mSeqChains c -> channel c' = channel c -> implements c' d a.
Proof.
  intros [Hq Hc Hl Ha Hn] Ht Hch Hcn. constructor; [|by rewrite Hch|done|by rewrite Hcn|].
  - intros j. rewrite Hq. destruct Ht as [_ Hf]. unfold waiting. by rewrite Hf.
  - by rewrite <- (takes_seqs _ _ _ Ht).
Qed.

Lemma implements_arrive c d a m : implements c d a -> mMsgDeferred c = false -> NoDup (concat (events a) ++ map seq_of (held c ++ [m])) ->
  exists a', step a (Arrive (stream_of m) (seq_of m)) a' /\ implements (c <| mMsg := Some (ToConsumer m) |> <| mMsgDeferred := true |>) d a' /\ events a' = events a.
Proof.
  intros [Hq Hc Hl Ha Hn] Hd Hnew. set (c' := c <| mMsg := Some (ToConsumer m) |> <| mMsgDeferred := true |>).
  assert (held c' = held c ++ [m]) as Hh by (unfold held, deferred_messages; rewrite Hd; simpl; by rewrite app_nil_r).
  exists (Transport.mk (waiting c') (events a) (answered a)). split; [|split; [|done]].
  - apply step_arrive; [|done|done]. intros j. simpl. rewrite Hq. unfold waiting. rewrite Hh, filter_app, map_app. f_equal. apply filter_one_stream. by intros x ->%list_elem_of_singleton.
  - constructor; [done|done|done|done|]. simpl. by rewrite Hh.
Qed.

Lemma implements_discard c c' d a ms : implements c d a -> discards c c' ms -> exists a' k, step a (Discard k (map seq_of ms)) a' /\ implements c' d a' /\ events a' = events a.
Proof.
  intros [Hq Hc Hl Ha Hn] [Ht [k Hk] Hch Hcn _ _]. exists (Transport.mk (waiting c') (events a) (channel c')), k. split; [|split; [|done]].
  - apply step_discard; [|done|simpl; by rewrite Hcn, Ha]. intros j. rewrite Hq. by apply takes_queue.
  - constructor; [done|simpl; by rewrite Hch|done|done|]. simpl. rewrite (takes_seqs _ _ _ Ht) in Hn.
    rewrite app_assoc, (Permutation_app_comm (concat _) (map seq_of ms)), <- app_assoc in Hn. by apply NoDup_app in Hn as (_ & _ & Hn).
Qed.

Lemma implements_deliver frameTime c c' d a q ev ms : implements c d a -> delivers frameTime c c' q ev ms ->
  exists a' k, step a (Deliver k (map seq_of ms)) a' /\ implements c' (d ++ [q]) a' /\ events a' = events a ++ [map seq_of ms].
Proof.
  intros [Hq Hc Hl Ha Hn] [Ht [k Hk] Hlast Hch Hcn _ _ _]. exists (Transport.mk (waiting c') (events a ++ [map seq_of ms]) (channel c')), k. split; [|split; [|done]].
  - apply step_deliver; [by destruct (map seq_of ms)| |done|simpl; by rewrite Hcn, Ha]. intros j. rewrite Hq. by apply takes_queue.
  - rewrite (takes_seqs _ _ _ Ht) in Hn. constructor; [done| | |done|]; simpl.
    + rewrite Hch. apply chains_add; [done|]. apply NoDup_app in Hn as (_ & Hn & _). intros z Hz Hin. apply (Hn z Hin). set_solver.
    + rewrite !map_app, Hl. simpl. by rewrite Hlast.
    + rewrite concat_app. simpl. by rewrite app_nil_r, <- app_assoc.
Qed.

(** what was handed over is not chained *)
Lemma implements_unchained c d a x : implements c d a -> x ∈ held c -> seq_of x ∉ map seq (mSeqChains c).
Proof.
  intros [Hq Hc Hl Ha Hn] Hx. apply (chains_fresh _ (events a)); [done|]. apply NoDup_app in Hn as (_ & Hn & _). intros Hin. apply (Hn _ Hin), elem_of_map. eauto.
Qed.

(** ** The loop of [consume] *)

(** the application gets one event, or none because nothing is due *)
Definition outcome_ok (consumeBatches : bool) (frameTime : Z) (c c' : InputConsumer.t) (came : list InputMessage) (r : result) (l : list label) : Prop :=
  match r with
  | (status, Some (q, ev)) =>
    status = OK /\ exists ms, deliveries l = [map seq_of ms] /\ last (map seq_of ms) = Some q /\ presents (mResampleTouch c) frameTime (held c') ev ms
      /\ (forall m, m ∈ ms -> m ∈ held c \/ m ∈ came)
  | (status, None) => status = WOULD_BLOCK /\ deliveries l = [] /\ mMsgDeferred c' = false /\ (consumeBatches = true -> later c' frameTime)
  end.

Definition delivered_id (r : result) : list Z := match r.2 with Some (q, _) => [q] | None => [] end.
Definition arrival (m : InputMessage) : stream * Z := (stream_of m, seq_of m).

(** what a run of the loop from [c] comes to, with the messages that [came] *)
Definition consumed (consumeBatches : bool) (frameTime : Z) (c : InputConsumer.t) (d : list Z) (a : Transport.t) (came : list InputMessage) (r : result) (c' : InputConsumer.t) : Prop :=
  exists l a', runs a l a' /\ arrivals l = map arrival came /\ implements c' (d ++ delivered_id r) a' /\ inv c' /\ mResampleTouch c' = mResampleTouch c
    /\ outcome_ok consumeBatches frameTime c c' came r l /\ (forall m, m ∈ held c' -> m ∈ held c \/ m ∈ came).

Lemma takes_held ms c c' m : takes ms c c' -> m ∈ ms ++ held c' -> m ∈ held c.
Proof. intros [Hp _]. by rewrite Hp. Qed.

(** a message is dropped, perhaps, and an event is delivered *)
Lemma consumed_deliver consumeBatches frameTime c c1 c' d a dropped q ev ms : implements c d a -> discards c c1 dropped -> delivers frameTime c1 c' q ev ms ->
  consumed consumeBatches frameTime c d a [] (OK, Some (q, ev)) c'.
Proof.
  intros Hi Hd Hdel. destruct (implements_discard _ _ _ _ _ Hi Hd) as (a1 & k1 & Hs1 & Hi1 & He1). destruct (implements_deliver _ _ _ _ _ _ _ _ Hi1 Hdel) as (a' & k & Hs & Hi' & He).
  exists [Discard k1 (map seq_of dropped); Deliver k (map seq_of ms)], a'. split; [eapply runs_cons; [exact Hs1|by apply runs_one]|]. split; [done|]. split; [done|].
  split; [apply Hdel|]. split; [by rewrite (delivers_resampling _ _ _ _ _ _ Hdel), (discards_resampling _ _ _ Hd)|].
  assert (forall m, m ∈ ms ++ held c' -> m ∈ held c) as Hheld.
  { intros m Hm. apply (takes_held _ _ _ m (discards_takes _ _ _ Hd)). apply elem_of_app. right. by apply (takes_held _ _ _ m (delivers_takes _ _ _ _ _ _ Hdel)). }
  split; [|intros m Hm; left; apply Hheld; set_solver]. split; [done|]. exists ms. split; [done|]. split; [apply Hdel|].
  split; [|intros m Hm; left; apply Hheld; set_solver]. rewrite <- (discards_resampling _ _ _ Hd). apply Hdel.
Qed.

Lemma end_of_messages_ok consumeBatches frameTime c d a status : inv c -> implements c d a -> mMsgDeferred c = false -> frameTime < 4611686018427387904 ->
  exists r c', end_of_messages true consumeBatches frameTime c status = Some (r, c') /\ consumed consumeBatches frameTime c d a [] r c'.
Proof.
  intros Hc Hi Hd Hf. unfold end_of_messages.
  assert (forall (P : consumeBatches = true -> later c frameTime), consumed consumeBatches frameTime c d a [] (WOULD_BLOCK, None) c) as Hnothing.
  { intros P. exists [], a. split; [by constructor|]. split; [done|]. unfold delivered_id. simpl. rewrite app_nil_r. split; [done|]. split; [done|]. split; [done|]. split; [done|]. intros m Hm. by left. }
  destruct (consumeBatches || _) eqn:E.
  - destruct (consumeBatch_ok frameTime c Hc Hf) as [[-> Hl]|(q & ev & ms & c' & -> & Hdel)]; eexists _, _; (split; [reflexivity|]); [by apply Hnothing|].
    eapply consumed_deliver; [done|by apply discards_nil|done].
  - apply orb_false_iff in E as [-> E]. bool_to_prop. subst status. eexists _, _. split; [reflexivity|]. by apply Hnothing.
Qed.

(** more of the loop *)
Lemma consumed_more consumeBatches frameTime c c1 d a a1 l1 came1 came r c' : runs a l1 a1 -> arrivals l1 = map arrival came1 -> deliveries l1 = [] ->
  mResampleTouch c1 = mResampleTouch c -> (forall m, m ∈ held c1 -> m ∈ held c \/ m ∈ came1) ->
  consumed consumeBatches frameTime c1 d a1 came r c' -> consumed consumeBatches frameTime c d a (came1 ++ came) r c'.
Proof.
  intros Hr1 Ha1 Hd1 Hres Hh1 (l & a' & Hr & Ha & Hi & Hinv & Hres' & Ho & Hh). exists (l1 ++ l), a'. split; [by eapply runs_app|].
  assert (deliveries (l1 ++ l) = deliveries l) as Hdel by (unfold deliveries in *; rewrite map_app, concat_app, Hd1; done).
  split; [unfold arrivals in *; by rewrite !map_app, concat_app, Ha1, Ha|]. split; [done|]. split; [done|]. split; [congruence|].
  assert (forall m, m ∈ held c1 \/ m ∈ came -> m ∈ held c \/ m ∈ came1 ++ came) as Hweak by (intros m [Hm|Hm]; [destruct (Hh1 m Hm); set_solver|set_solver]).
  split; [|intros m Hm; by apply Hweak, Hh]. unfold outcome_ok in *. rewrite <- Hres, Hdel. destruct r as [status [[q ev]|]]; [|done].
  destruct Ho as (Hs & ms & H1 & H2 & H3 & H4). split; [done|]. exists ms. split; [done|]. split; [done|]. split; [done|]. intros m Hm. by apply Hweak, H4.
Qed.

Definition no_fatal (recvs : list recv_result) : Prop := forall q h, Datagram (FinishedMsg q h) true ∉ recvs.

Lemma consume_loop_ok fuel send consumeBatches frameTime c d a recvs : (forall q, send q = InputPublisher.Complete) -> frameTime < 4611686018427387904 ->
  inv c -> implements c d a -> no_fatal recvs -> forallb message_ok (messages recvs) = true ->
  NoDup (concat (events a) ++ map seq_of (held c ++ messages recvs)) -> (length recvs + (if mMsgDeferred c then 2 else 1) <= fuel)%nat ->
  exists r c' taken unread, consume_loop fuel send true consumeBatches frameTime c recvs = Some (r, c', unread) /\ recvs = taken ++ unread
    /\ consumed consumeBatches frameTime c d a (messages taken) r c'.
Proof.
  intros Hsend Hframe. revert c a recvs. induction fuel as [|fuel IH]; intros c a recvs Hc Hi Hno Hok Hnew Hfuel; [destruct (mMsgDeferred c); lia|].
  assert (forall c2 a2 recvs2, inv c2 -> implements c2 d a2 -> mMsgDeferred c2 = true -> (length recvs2 + 1 <= fuel)%nat -> no_fatal recvs2 -> forallb message_ok (messages recvs2) = true ->
    NoDup (concat (events a2) ++ map seq_of (held c2 ++ messages recvs2)) ->
    exists r c' taken unread, (x ← consume_message send true (undeferred c2); match x with Continue c => consume_loop fuel send true consumeBatches frameTime c recvs2 | Stop r c => Some (r, c, recvs2) end)
      = Some (r, c', unread) /\ recvs2 = taken ++ unread /\ consumed consumeBatches frameTime c2 d a2 (messages taken) r c') as Hturn.
  { intros c2 a2 recvs2 Hc2 Hi2 Hd2 Hfuel2 Hno2 Hok2 Hnew2. destruct (inv_deferred c2 Hc2 Hd2) as (m & Hmsg & Hm).
    destruct (consume_message_ok send frameTime c2 m Hsend Hc2 Hd2 Hmsg Hm) as (x & -> & Hx); [intros y; by apply (implements_unchained c2 d a2)|]. cbn [mbind option_bind]. destruct x as [c3|r c3].
    - destruct Hx as (Ht & Hch & Hcn & Hres & Hd3 & Hc3). pose proof (implements_same c2 c3 d a2 Hi2 Ht Hch Hcn) as Hi3.
      destruct (IH c3 a2 recvs2 Hc3 Hi3 Hno2 Hok2) as (r & c' & taken & unread & E & Hsplit & Hcons); [|rewrite Hd3; lia|].
      { rewrite map_app, (takes_seqs _ _ _ Ht) in Hnew2. by rewrite map_app. }
      exists r, c', taken, unread. split; [done|]. split; [done|]. apply (consumed_more consumeBatches frameTime c2 c3 d a2 a2 [] [] (messages taken)); try done; [by constructor|].
      intros y Hy. left. by apply (takes_held _ _ _ y Ht).
    - destruct Hx as (c1 & dropped & q & ev & ms & -> & Hdis & Hdel). exists (OK, Some (q, ev)), c3, [], recvs2. split; [done|]. split; [done|]. by eapply consumed_deliver. }
  cbn [consume_loop]. destruct (mMsgDeferred c) eqn:Ed; [apply Hturn; [done..|lia|done|done|done]|].
  assert (forall c1 status rest, c1 = c \/ (exists m, c1 = c <| mMsg := m |>) ->
    exists r c' taken unread, (r ← end_of_messages true consumeBatches frameTime c1 status; Some (r, rest)) = Some (r, c', unread) /\ rest = taken ++ unread
      /\ consumed consumeBatches frameTime c d a (messages taken) r c') as Hend.
  { intros c1 status rest Hc1. assert (inv c1 /\ implements c1 d a /\ mMsgDeferred c1 = false /\ mResampleTouch c1 = mResampleTouch c /\ held c1 = held c) as (H1 & H2 & H3 & H4 & H5).
    { assert (held c1 = held c) as Hh by (destruct Hc1 as [-> |[m ->]]; [done|]; unfold held, deferred_messages; simpl; by rewrite Ed).
      destruct Hc1 as [-> |[m ->]]; [done|]. split; [destruct Hc; constructor; [done|done|simpl; congruence]|]. split; [by eapply implements_same; [exact Hi|apply takes_nil|..]|done]. }
    destruct (end_of_messages_ok consumeBatches frameTime c1 d a status H1 H2 H3 Hframe) as (r & c' & -> & Hcons). exists r, c', [], rest. split; [done|]. split; [done|].
    apply (consumed_more consumeBatches frameTime c c1 d a a [] [] []); try done; [by constructor|]. intros m Hm. left. by rewrite <- H5. }
  destruct recvs as [|x recvs]; cbn [head default tail Datatypes.id].
  - cbn [receiveMessage]. simpl. destruct (Hend c WOULD_BLOCK [] (or_introl eq_refl)) as (r & c' & taken & unread & H). exists r, c', taken, unread. exact H.
  - set (c1 := match (receiveMessage x).2 with Some msg => c <| mMsg := Some msg |> | None => c end). destruct ((receiveMessage x).1 =? OK) eqn:Eok.
    + assert (exists m, x = Datagram (ToConsumer m) true /\ messages_of x = [m]) as (m & -> & Hm).
      { destruct x as [msg whole| |errno]; [|done|]; simpl in Eok; [|repeat case_match; bool_to_prop; done]. destruct (isValid msg whole) eqn:Ev; [|done].
        pose proof Ev as Ew. unfold isValid in Ew. apply andb_true_iff in Ew as [-> _]. destruct msg as [m|q h]; [exists m; split; [done|]; unfold messages_of; by rewrite Ev|]. exfalso. apply (Hno q h). set_solver. }
      unfold messages in Hok, Hnew. simpl map in Hok, Hnew. simpl concat in Hok, Hnew. simpl in Hm. rewrite Hm in Hok, Hnew. simpl in Hok. apply andb_true_iff in Hok as [Hmok Hok].
      change (concat (map messages_of recvs)) with (messages recvs) in *.
      assert (NoDup ((concat (events a) ++ map seq_of (held c ++ [m])) ++ map seq_of (messages recvs))) as Hnew1 by (rewrite <- app_assoc, <- map_app, <- app_assoc; exact Hnew).
      destruct (implements_arrive c d a m Hi Ed) as (a1 & Hs1 & Hi1 & He1); [by apply NoDup_app in Hnew1 as [? _]|].
      set (c2 := c <| mMsg := Some (ToConsumer m) |> <| mMsgDeferred := true |>) in *.
      assert (undeferred c2 = c1) as <- by (subst c1 c2; destruct c; simpl in *; by subst).
      destruct (Hturn c2 a1 recvs) as (r & c' & taken & unread & E & Hsplit & Hcons); [|done|done|simpl in Hfuel; lia| |done| |].
      * destruct Hc. constructor; [done|done|]. intros _. by exists m.
      * intros q h Hin. apply (Hno q h). set_solver.
      * rewrite He1. replace (held c2) with (held c ++ [m]); [by rewrite map_app, app_assoc|]. unfold held, deferred_messages. simpl. by rewrite Ed, app_nil_r.
      * exists r, c', (Datagram (ToConsumer m) true :: taken), unread. split; [exact E|]. split; [by rewrite Hsplit|].
        unfold messages. simpl map. simpl concat. simpl in Hm. rewrite Hm.
        apply (consumed_more consumeBatches frameTime c c2 d a a1 [Arrive (stream_of m) (seq_of m)] [m] (messages taken)); try done; [by apply runs_one|].
        intros y Hy. unfold held, deferred_messages in *. rewrite Ed. simpl in Hy. rewrite app_nil_r. set_solver.
    + destruct (Hend c1 (receiveMessage x).1 recvs) as (r & c' & taken & unread & E & Hsplit & Hcons); [subst c1; destruct (receiveMessage x).2; [right; by eexists|by left]|].
      exists r, c', (x :: taken), unread. split; [exact E|]. split; [by rewrite Hsplit|]. unfold messages. simpl. 
      assert (messages_of x = []) as -> by (destruct x as [[m|q h] whole| |]; simpl in *; [case_match; [discriminate|done]|done..]). exact Hcons.
Qed.

End Bits.
