(* ===== verification/InputConsumerTheorems.v ===== *)
(** * What the consumer's end of an input channel guarantees

    Every call of the system of an application and its consumer is a run of the
    specification: messages are handed over in order, each is answered exactly once, a
    finished signal that fails can be sent again, and an event shows the messages it was
    made of. The last part holds runs that surprise. *)

From S2P Require Import Prelude Region PointerCoords InputEvents InputState InputProtocol InputConnection InputConsumer InputConsumerSystem InputConsumerTouch InputConsumerInvariant InputScenarios.
Import InputConsumer Transport Chains ConsumerSystem.

(** ** Runs of the specification *)

Definition on_stream (k : stream) (x : stream * Z) : Prop := x.1 = k.
#[global] Instance on_stream_dec k x : Decision (on_stream k x) := ltac:(unfold on_stream; apply _).

Lemma on_stream_map k j l : map snd (filter (on_stream j) (map (pair k) l)) = at_stream k l j.
Proof.
  unfold at_stream. case_decide as Hj.
  - subst. rewrite list_filter_all; [rewrite map_map; apply map_id|]. by intros x (q & _ & ->)%elem_of_map.
  - rewrite list_filter_none; [done|]. intros x (q & _ & ->)%elem_of_map Hs. by apply Hj.
Qed.

(** what waits is what waited and came, without what departed from the front *)
Lemma runs_queue a l a' k : runs a l a' ->
  queue a k ++ map snd (filter (on_stream k) (arrivals l)) = map snd (filter (on_stream k) (departures l)) ++ queue a' k.
Proof.
  induction 1 as [a a' Hq _ _|a x b l a' Hs Hr IH]; [simpl; by rewrite app_nil_r, Hq|].
  unfold arrivals, departures in *. simpl. rewrite !filter_app, !map_app.
  destruct Hs as [k' q b Hb _ _|k' e b _ Hb _ _|k' e b Hb _ _|l1 e e' l2 handled b Hb _ _ _]; simpl.
  - rewrite <- IH, Hb. rewrite <- (on_stream_map k' k [q]). simpl. by rewrite app_assoc.
  - rewrite on_stream_map, Hb, <- app_assoc, IH. by rewrite app_assoc.
  - rewrite on_stream_map, Hb, <- app_assoc, IH. by rewrite app_assoc.
  - by rewrite <- IH, Hb.
Qed.

(** what departed was answered or is in an event *)
Lemma runs_departures a l a' : runs a l a' -> map fst (answered a') ++ concat (events a') ≡ₚ map fst (answered a) ++ concat (events a) ++ map snd (departures l).
Proof.
  assert (forall (h : bool) (e : list Z), map fst (map (fun q => (q, h)) e) = e) as Hfst by (intros h e; rewrite map_map; apply map_id).
  assert (forall (k : stream) (e : list Z), map snd (map (pair k) e) = e) as Hsnd by (intros k e; rewrite map_map; apply map_id).
  induction 1 as [a a' _ He Ha|a x b l a' Hs Hr IH]; [simpl; by rewrite He, Ha, app_nil_r|]. rewrite IH. unfold departures. simpl. rewrite map_app.
  destruct Hs as [k q b _ He Ha|k e b _ _ He Ha|k e b _ He Ha|l1 e e' l2 h b _ He He' Ha]; rewrite ?He, ?Ha; simpl.
  - done.
  - rewrite concat_app, Hsnd. simpl. by rewrite app_nil_r, <- !app_assoc.
  - rewrite map_app, Hfst, Hsnd, <- !app_assoc. apply Permutation_app_head. rewrite !app_assoc. apply Permutation_app_tail, Permutation_app_comm.
  - rewrite He', map_app, Hfst, !concat_app. simpl. rewrite <- !app_assoc. apply Permutation_app_head.
    assert (concat (if decide (e' = []) then [] else [e']) = e') as -> by (case_decide as Hd; simpl; [by rewrite Hd|apply app_nil_r]).
    rewrite (Permutation_app_swap_app e). done.
Qed.

(** ** The invariant of the system *)

Section System.
Context `{B32 : BitSet32.ops} `{B64 : BitSet64.ops}.

(** the system [s] is in the state [a] of the specification, after [l] *)
Record at_state (resampling : bool) (s : system) (l : list label) (a : Transport.t) : Prop := {
  at_inv : inv (consumer s);
  at_implements : implements (consumer s) (delivered s) a;
  at_runs : runs Transport.initial l a;
  at_arrivals : arrivals l = map arrival (received s);
  at_resampling : mResampleTouch (consumer s) = resampling;
  at_held : forall m, m ∈ held (consumer s) -> m ∈ received s;
  at_new : NoDup (map seq_of (received s));
  at_nonzero : forall m, m ∈ received s -> seq_of m <> 0 }.

Lemma permutation_by_stream (l l' : list (stream * Z)) : (forall k, filter (on_stream k) l ≡ₚ filter (on_stream k) l') -> l ≡ₚ l'.
Proof.
  revert l'. induction l as [|x l IH]; intros l' H.
  - destruct l' as [|y l']; [done|]. specialize (H y.1). rewrite (filter_cons_True _ y) in H by done. by apply Permutation_length in H.
  - assert (x ∈ l') as Hx.
    { specialize (H x.1). rewrite filter_cons_True in H by done. assert (x ∈ filter (on_stream x.1) l') as Hin by (rewrite <- H; set_solver). by apply list_elem_of_filter in Hin as [_ Hin]. }
    apply elem_of_Permutation in Hx as [l'' Hl]. rewrite Hl. constructor. apply IH. intros k. specialize (H k). rewrite Hl in H.
    rewrite !filter_cons in H. case_decide; [by apply Permutation_cons_inv in H|done].
Qed.

Lemma filter_arrivals ms k : filter (on_stream k) (map arrival ms) = map arrival (filter (in_stream k) ms).
Proof.
  induction ms as [|m ms IH]; [done|]. simpl. destruct (decide (stream_of m = k)) as [H|H].
  - rewrite (filter_cons_True _ (arrival m)), (filter_cons_True _ m) by done. simpl. by rewrite IH.
  - by rewrite (filter_cons_False _ (arrival m)), (filter_cons_False _ m) by done.
Qed.

(** per stream, what came in is what departed followed by what is held *)
Lemma at_streams resampling s l a k : at_state resampling s l a ->
  map seq_of (filter (in_stream k) (received s)) = map snd (filter (on_stream k) (departures l)) ++ waiting (consumer s) k.
Proof.
  intros H. pose proof (runs_queue _ _ _ k (at_runs _ _ _ _ H)) as Hq. simpl in Hq. rewrite (at_arrivals _ _ _ _ H), filter_arrivals, map_map in Hq.
  rewrite (implements_queue _ _ _ (at_implements _ _ _ _ H)) in Hq. exact Hq.
Qed.

Lemma pairs_eq (k : stream) (l : list (stream * Z)) l' : (forall x, x ∈ l -> x.1 = k) -> map snd l = l' -> l = map (pair k) l'.
Proof. intros Hk <-. rewrite map_map. induction l as [|[j q] l IH]; [done|]. simpl. f_equal; [f_equal; exact (Hk (j, q) ltac:(set_solver))|apply IH; set_solver]. Qed.

Lemma at_conserved resampling s l a : at_state resampling s l a ->
  map seq_of (received s) ≡ₚ map fst (channel (consumer s)) ++ concat (events a) ++ map seq_of (held (consumer s)).
Proof.
  intros H. assert (map arrival (received s) ≡ₚ departures l ++ map arrival (held (consumer s))) as Hp.
  { apply permutation_by_stream. intros k. rewrite filter_app, !filter_arrivals. apply reflexive_eq.
    pose proof (at_streams _ _ _ _ k H) as Hk. unfold waiting in Hk.
    rewrite (pairs_eq k (map arrival (filter (in_stream k) (received s))) (map seq_of (filter (in_stream k) (received s)))); [|by intros x (m & [Hm _]%list_elem_of_filter & ->)%elem_of_map|by rewrite map_map].
    rewrite (pairs_eq k (filter (on_stream k) (departures l)) _ ltac:(by intros x [Hx _]%list_elem_of_filter) eq_refl).
    rewrite (pairs_eq k (map arrival (filter (in_stream k) (held (consumer s)))) (map seq_of (filter (in_stream k) (held (consumer s))))); [|by intros x (m & [Hm _]%list_elem_of_filter & ->)%elem_of_map|by rewrite map_map].
    by rewrite Hk, map_app. }
  pose proof (runs_departures _ _ _ (at_runs _ _ _ _ H)) as Hd. simpl in Hd. rewrite (implements_answered _ _ _ (at_implements _ _ _ _ H)) in Hd.
  rewrite app_assoc, Hd. apply (Permutation_map snd) in Hp. rewrite map_app, !map_map in Hp. exact Hp.
Qed.

(** *** Consuming *)

Lemma messages_app l l' : messages (l ++ l') = messages l ++ messages l'.
Proof. unfold messages. by rewrite map_app, concat_app. Qed.

(** what a call does, in terms of the specification *)
Definition does (a : Transport.t) (s : system) (x : call) (r : outcome) (s' : system) (l : list label) : Prop :=
  match x with
  | Consume _ _ consumeBatches frameTime recvs =>
    exists taken unread, recvs = taken ++ unread /\ received s' = received s ++ messages taken /\ arrivals l = map arrival (messages taken)
      /\ outcome_ok consumeBatches frameTime (consumer s) (consumer s') (messages taken) r l
  | Finish send seq handled => exists e, e ∈ events a /\ last e = Some seq /\ l = [Answer (accepted send e) handled] /\ r = (refusal send e, None)
  end.

Lemma at_step_consume resampling s l a send created consumeBatches frameTime recvs : at_state resampling s l a -> legal s (Consume send created consumeBatches frameTime recvs) ->
  exists r s' l' a', perform s (Consume send created consumeBatches frameTime recvs) = Some (r, s') /\ runs a l' a' /\ at_state resampling s' (l ++ l') a'
    /\ does a s (Consume send created consumeBatches frameTime recvs) r s' l'.
Proof.
  intros H (-> & Hsend & Hframe & Hno & Hok & Hnew). pose proof (at_conserved _ _ _ _ H) as Hcons.
  destruct (consume_loop_ok (length recvs + 2) send consumeBatches frameTime (consumer s) (delivered s) a recvs) as (r & c' & taken & unread & E & Hsplit & l' & a' & Hr & Ha & Hi & Hinv & Hres & Ho & Hh);
    [done|done|apply H|apply H|done|done| |by destruct (mMsgDeferred _); lia|].
  { rewrite Hcons in Hnew. rewrite <- app_assoc in Hnew. apply NoDup_app in Hnew as (_ & _ & Hnew). by rewrite map_app, app_assoc. }
  unfold perform, consume. rewrite E. cbn [mbind option_bind].
  assert (take (length recvs - length unread) recvs = taken) as Ht by (rewrite Hsplit, length_app; replace (length taken + length unread - length unread)%nat with (length taken) by lia; by rewrite take_app_length).
  eexists r, _, l', a'. split; [reflexivity|]. rewrite Ht. split; [done|]. split; [|by exists taken, unread].
  rewrite Hsplit, messages_app, map_app, app_assoc in Hnew. apply NoDup_app in Hnew as [Hnew _].
  rewrite Hsplit, messages_app, forallb_app in Hok. apply andb_true_iff in Hok as [Hok _].
  constructor; simpl.
  - done.
  - done.
  - eapply runs_app; [apply H|done].
  - unfold arrivals in *. rewrite !map_app, concat_app. f_equal; [apply H|done].
  - by rewrite Hres, (at_resampling _ _ _ _ H).
  - intros m Hm. destruct (Hh m Hm) as [Hm'|Hm']; [apply elem_of_app; left; by apply (at_held _ _ _ _ H)|set_solver].
  - by rewrite map_app.
  - intros m [Hm|Hm]%elem_of_app; [by apply (at_nonzero _ _ _ _ H)|]. apply (proj1 (forallb_forall _ _) Hok), andb_true_iff in Hm || apply list_elem_of_In in Hm.
    apply (proj1 (forallb_forall _ _) Hok) in Hm. unfold message_ok in Hm. bool_to_prop. done.
Qed.

(** *** Finishing *)

Lemma last_snoc_ex {A} (e : list A) q : last e = Some q -> exists e0, e = e0 ++ [q].
Proof. intros H. destruct e as [|x e _] using rev_ind; [done|]. rewrite last_snoc in H. injection H as ->. by exists e. Qed.

Lemma map_last_split (es1 es2 : list (list Z)) e d : map last (es1 ++ e :: es2) = map Some d ->
  exists d1 q d2, d = d1 ++ q :: d2 /\ last e = Some q /\ map last es1 = map Some d1 /\ map last es2 = map Some d2.
Proof.
  revert d. induction es1 as [|f es1 IH]; intros d; simpl.
  - destruct d as [|q d]; [done|]. intros [= He Hd]. by exists [], q, d.
  - destruct d as [|q d]; [done|]. intros [= Hf Hd]. destruct (IH d Hd) as (d1 & q' & d2 & -> & He & H1 & H2). exists (q :: d1), q', d2. split; [done|]. split; [done|]. split; [|done]. simpl. by rewrite Hf, H1.
Qed.

Lemma map_last_in (es : list (list Z)) (d : list Z) q : map last es = map Some d -> q ∈ d -> exists e, e ∈ es /\ last e = Some q.
Proof.
  intros H Hq. assert (Some q ∈ map last es) as Hin by (rewrite H; apply elem_of_map; eauto). apply elem_of_map in Hin as (e & He & Hl). eauto.
Qed.

Lemma filter_out (d1 d2 : list Z) q : q ∉ d1 -> q ∉ d2 -> filter (fun x => x <> q) (d1 ++ q :: d2) = d1 ++ d2.
Proof.
  intros H1 H2. rewrite filter_app, filter_cons_False by tauto. rewrite !list_filter_all; [done|..]; intros x Hx ->; done.
Qed.

Lemma last_in {A} (e : list A) (q : A) : last e = Some q -> q ∈ e.
Proof. intros [e0 ->]%last_snoc_ex. set_solver. Qed.

Lemma refused_last send e q : last e = Some q -> refused send e <> [] -> last (refused send e) = Some q.
Proof.
  intros Hl Hne. rewrite (accepted_refused send e) in Hl. destruct (refused send e) as [|x u] eqn:E; [done|]. rewrite last_app_cons in Hl. exact Hl.
Qed.

(** the answer of an event, in the middle of the others *)
Lemma implements_answer send c d a es1 es2 e q handled : implements c d a -> events a = es1 ++ e :: es2 -> last e = Some q -> q <> 0 ->
  let r := sendFinishedSignal send c q handled in
  exists a', step a (Answer (accepted send e) handled) a' /\ r.1 = refusal send e
    /\ implements r.2 (if r.1 =? OK then filter (fun x => x <> q) d else d) a' /\ held r.2 = held c /\ mResampleTouch r.2 = mResampleTouch c
    /\ (inv c -> inv r.2) /\ events a' = es1 ++ (if decide (refused send e = []) then [] else [refused send e]) ++ es2
    /\ channel r.2 = channel c ++ signals handled (accepted send e).
Proof.
  intros [Hq Hc Hl Ha Hn] He Hlast Hnz. destruct (last_snoc_ex _ _ Hlast) as [e0 ->]. set (e := e0 ++ [q]) in *.
  assert (e ∈ events a) as Hin by (rewrite He; set_solver). rewrite (answer_spec send c (events a) e0 q handled Hc Hin Hnz). fold e. cbn [fst snd].
  set (c' := c <| mSeqChains := _ |> <| channel := _ |>). set (es' := es1 ++ (if decide (refused send e = []) then [] else [refused send e]) ++ es2).
  pose proof (accepted_refused send e) as Hsplit. assert (NoDup (concat (events a))) as Hnd by by apply NoDup_app in Hn as [? _].
  assert (concat (if decide (refused send e = []) then [] else [refused send e]) = refused send e) as Hcat by (case_decide as Hd; simpl; [by rewrite Hd|apply app_nil_r]).
  exists (Transport.mk (queue a) es' (channel c')). split; [|split; [done|split]].
  - apply (step_answer a es1 _ (refused send e) es2); [done|by rewrite <- Hsplit|done|simpl; by rewrite Ha].
  - constructor; simpl.
    + intros j. rewrite Hq. done.
    + unfold es'. pose proof (chains_answer (mSeqChains c) es1 es2 (accepted send e) (refused send e)) as Hch. rewrite <- Hsplit, <- He in Hch. by apply Hch.
    + rewrite He in Hl. destruct (map_last_split _ _ _ _ Hl) as (d1 & q' & d2 & -> & Hq' & H1 & H2). rewrite Hlast in Hq'. injection Hq' as <-. unfold es'. rewrite !map_app, H1, H2.
      destruct (refusal send e =? OK) eqn:E; bool_to_prop.
      * apply refusal_ok in E. rewrite decide_True by done. simpl. rewrite filter_out; [by rewrite map_app| |].
        -- intros Hd. destruct (map_last_in es1 d1 q H1 Hd) as (f & Hf & Hfl). rewrite He in Hnd. apply (middle_disjoint es1 es2 e f q Hnd); [set_solver|by apply last_in|by apply last_in].
        -- intros Hd. destruct (map_last_in es2 d2 q H2 Hd) as (f & Hf & Hfl). rewrite He in Hnd. apply (middle_disjoint es1 es2 e f q Hnd); [set_solver|by apply last_in|by apply last_in].
      * assert (refused send e <> []) as Hne by by rewrite <- refusal_ok. rewrite decide_False by done. simpl. rewrite (refused_last send e q) by done. by rewrite map_app.
    + done.
    + unfold es'. change (held c') with (held c). rewrite !concat_app, Hcat. rewrite He, concat_app in Hn. simpl in Hn. rewrite Hsplit in Hn.
      rewrite <- !app_assoc in Hn. rewrite (Permutation_app_swap_app (concat es1) (accepted send e)) in Hn. rewrite <- !app_assoc. by apply NoDup_app in Hn as (_ & _ & Hn).
  - split; [done|]. split; [done|]. split; [|done]. intros [H1 H2 H3]. by constructor.
Qed.

(** the event that the application knows as [q] *)
Lemma delivered_event resampling s l a q : at_state resampling s l a -> q ∈ delivered s ->
  exists e es1 es2, events a = es1 ++ e :: es2 /\ last e = Some q /\ q <> 0 /\ (forall z, z ∈ e -> z ∈ map seq_of (received s)).
Proof.
  intros H Hq. destruct (map_last_in _ _ q (implements_last _ _ _ (at_implements _ _ _ _ H)) Hq) as (e & He & Hl).
  pose proof He as (es1 & es2 & Hes)%list_elem_of_split. exists e, es1, es2. split; [done|]. split; [done|].
  assert (forall z, z ∈ e -> z ∈ map seq_of (received s)) as Hin.
  { intros z Hz. rewrite (at_conserved _ _ _ _ H). apply elem_of_app. right. apply elem_of_app. left. apply elem_of_concat. eauto. }
  split; [|done]. intros ->. apply last_in, Hin, elem_of_map in Hl as (m & Hm & Hz). by apply (at_nonzero _ _ _ _ H m Hm).
Qed.

Lemma at_step_finish resampling s l a send q handled : at_state resampling s l a -> legal s (Finish send q handled) ->
  exists r s' l' a', perform s (Finish send q handled) = Some (r, s') /\ runs a l' a' /\ at_state resampling s' (l ++ l') a' /\ does a s (Finish send q handled) r s' l'.
Proof.
  intros H Hq. destruct (delivered_event _ _ _ _ q H Hq) as (e & es1 & es2 & He & Hlast & Hnz & _).
  destruct (implements_answer send (consumer s) (delivered s) a es1 es2 e q handled (at_implements _ _ _ _ H) He Hlast Hnz) as (a' & Hs & Hr & Hi & Hh & Hres & Hinv & _).
  eexists _, _, [Answer (accepted send e) handled], a'. split; [reflexivity|]. split; [by apply runs_one|]. split; [|exists e; repeat split; [rewrite He; set_solver|done|by rewrite Hr]].
  constructor; simpl.
  - apply Hinv, H.
  - exact Hi.
  - eapply runs_app; [apply H|by apply runs_one].
  - unfold arrivals. rewrite map_app, concat_app. simpl. rewrite app_nil_r. apply H.
  - rewrite Hres. apply H.
  - intros m. rewrite Hh. apply (at_held _ _ _ _ H).
  - apply H.
  - apply (at_nonzero _ _ _ _ H).
Qed.

Lemma at_step resampling s l a x : at_state resampling s l a -> legal s x ->
  exists r s' l' a', perform s x = Some (r, s') /\ runs a l' a' /\ at_state resampling s' (l ++ l') a' /\ does a s x r s' l'.
Proof. destruct x; [apply at_step_consume|apply at_step_finish]. Qed.

Lemma reachable_at resampling s : reachable resampling s -> exists l a, at_state resampling s l a.
Proof.
  induction 1 as [|s x r s' _ (l & a & H) Hl E].
  - exists [], Transport.initial. constructor; try done; [constructor; simpl; [apply Forall_nil_2|split; [apply Forall_nil_2|apply NoDup_nil_2]|done]| | | |]; simpl.
    + constructor; try done; [split; [by intros e ?%elem_of_nil|by intros x ?%elem_of_nil]|constructor].
    + by constructor.
    + constructor.
    + intros m Hm. by apply elem_of_nil in Hm.
  - destruct (at_step _ _ _ _ _ H Hl) as (r' & s1 & l' & a' & E' & _ & H' & _). rewrite E in E'. injection E' as <- <-. eauto.
Qed.

(** ** The results *)

(** C8: In every reachable state of an application and its consumer, whatever arrives and
    whichever signals the socket refuses, any legal call ends without undefined behaviour and
    is a run of the specification: messages of a stream are handed over or discarded from
    the front of its queue, at most one event a call, and an event is answered in order.
    A call that returns no event leaves nothing deferred and, if it consumes batches, nothing
    that is due. *)
Theorem consumer_refines_transport resampling s x : reachable resampling s -> legal s x ->
  exists l a, runs Transport.initial l a /\ arrivals l = map arrival (received s) /\ implements (consumer s) (delivered s) a
    /\ exists r s' l' a', perform s x = Some (r, s') /\ runs a l' a' /\ implements (consumer s') (delivered s') a' /\ does a s x r s' l'.
Proof.
  intros Hr Hl. destruct (reachable_at _ _ Hr) as (l & a & H). exists l, a. split; [apply H|]. split; [apply H|]. split; [apply H|].
  destruct (at_step _ _ _ _ _ H Hl) as (r & s' & l' & a' & E & Hruns & H' & Hd). exists r, s', l', a'. split; [done|]. split; [done|]. split; [apply H'|done].
Qed.

(** C9: In every reachable state each message that came in is in exactly one place: it was
    answered, once, or belongs to one event that the application has to finish, or the
    consumer still holds it; and what it holds of a device and source are the last messages
    that came from it, in their order. *)
Theorem messages_answered_once resampling s : reachable resampling s ->
  exists es, chains_ok (mSeqChains (consumer s)) es /\ map last es = map Some (delivered s)
    /\ map seq_of (received s) ≡ₚ map fst (channel (consumer s)) ++ concat es ++ map seq_of (held (consumer s))
    /\ NoDup (map fst (channel (consumer s)) ++ concat es ++ map seq_of (held (consumer s)))
    /\ forall k, exists gone, map seq_of (filter (in_stream k) (received s)) = gone ++ waiting (consumer s) k.
Proof.
  intros Hr. destruct (reachable_at _ _ Hr) as (l & a & H). exists (events a). pose proof (at_conserved _ _ _ _ H) as Hc.
  split; [apply (implements_chains _ _ _ (at_implements _ _ _ _ H))|]. split; [apply (implements_last _ _ _ (at_implements _ _ _ _ H))|]. split; [done|].
  split; [rewrite <- Hc; apply H|]. intros k. eexists. apply (at_streams _ _ _ _ k H).
Qed.



End System.

(** ** A touch that moves *)

(** the x coordinate [x], and no other axis *)
Definition at_x (x : Z) : pointer := touch (properties 0 AMOTION_EVENT_TOOL_TYPE_FINGER) (PointerCoords.setAxisValue PointerCoords.empty PointerCoords.AMOTION_EVENT_AXIS_X (F32.of_Z x)).2.

Definition touch_message (seq action flags time x : Z) : MotionMessage :=
  motion_message seq 0 1 TOUCHSCREEN 0 action 0 flags 0 0 0 0 F32.one F32.one F32.zero F32.zero F32.one F32.one F32.zero F32.zero 0 time [at_x x].

Definition arrives (m : MotionMessage) : recv_result := Datagram (ToConsumer (MotionMsg m)) true.
Definition down (seq time x : Z) : recv_result := arrives (touch_message seq AMOTION_EVENT_ACTION_DOWN 0 time x).
Definition moved (seq time x : Z) : recv_result := arrives (touch_message seq AMOTION_EVENT_ACTION_MOVE 0 time x).

Definition all_sent (q : Z) : InputPublisher.send_result := InputPublisher.Complete.
(** the socket is full for the answer to [full] *)
Definition full_at (full q : Z) : InputPublisher.send_result := if q =? full then InputPublisher.Failed 11 else InputPublisher.Complete.

Definition ms : Z := NANOS_PER_MS.

Definition consume_now (frameTime : Z) (recvs : list recv_result) : call := Consume all_sent true true frameTime recvs.

Fixpoint run_calls (s : system) (xs : list call) : option system :=
  match xs with [] => Some s | x :: xs' => r ← perform s x; run_calls r.2 xs' end.

Definition fresh_system (resampling : bool) : system := mk (InputConsumer.new resampling) [] [].
Definition after_calls (resampling : bool) (xs : list call) : system := default (fresh_system resampling) (run_calls (fresh_system resampling) xs).

Lemma run_calls_app s xs x : run_calls s (xs ++ [x]) = s' ← run_calls s xs; r ← perform s' x; Some r.2.
Proof. revert s. induction xs as [|y xs IH]; intros s; simpl; [by destruct (perform s x)|]. destruct (perform s y) as [r|]; simpl; [apply IH|done]. Qed.

Lemma reachable_call resampling xs x : is_Some (run_calls (fresh_system resampling) xs) -> reachable resampling (after_calls resampling xs) -> legal (after_calls resampling xs) x ->
  is_Some (perform (after_calls resampling xs) x) -> reachable resampling (after_calls resampling (xs ++ [x])).
Proof.
  intros [s E] Hr Hl [[r s'] E']. unfold after_calls in *. rewrite run_calls_app, E in *. simpl in *. rewrite E'. simpl. by eapply reachable_step.
Qed.

Ltac legal_consume :=
  split; [reflexivity|]; split; [intros q; reflexivity|]; split; [vm_compute; reflexivity|];
  split; [intros q h Hin; repeat (apply elem_of_cons in Hin as [Hin|Hin]; [discriminate|]); by apply elem_of_nil in Hin|];
  split; [vm_compute; reflexivity|]; apply (bool_decide_unpack _); vm_compute; exact I.

Ltac defined := vm_compute; eexists; reflexivity.

Definition touched : list call := [consume_now (-1) [down 1 0 0]].
Definition waiting_moves : list call := touched ++ [Consume all_sent true false (-1) [moved 2 (10 * ms) 100; moved 3 (15 * ms) 150; moved 4 (22 * ms) 220]].
(** the frame takes the moves 2 and 3, and a sample at 20 ms between 3 and 4 *)
Definition frame : call := consume_now (25 * ms) [].
Definition drawn : list call := waiting_moves ++ [frame].

Lemma touched_reachable : reachable true (after_calls true touched).
Proof. apply (reachable_call true []); [defined|constructor|legal_consume|defined]. Qed.

Lemma waiting_reachable : reachable true (after_calls true waiting_moves).
Proof. apply reachable_call; [defined|apply touched_reachable|legal_consume|defined]. Qed.

Lemma frame_legal : legal (after_calls true waiting_moves) frame.
Proof. legal_consume. Qed.

Lemma drawn_reachable : reachable true (after_calls true drawn).
Proof. apply reachable_call; [defined|apply waiting_reachable|apply frame_legal|defined]. Qed.

Lemma last_event_delivered : 3 ∈ delivered (after_calls true drawn).
Proof. apply (bool_decide_unpack _). vm_compute. exact I. Qed.

(** the time and the x coordinate of each sample of an event *)
Definition samples (e : MotionEvent.t) : list (Z * option Z) :=
  zip (MotionEvent.mSampleEventTimes e) (map (fun c => F32.to_int32 (PointerCoords.getAxisValue c PointerCoords.AMOTION_EVENT_AXIS_X)) (MotionEvent.mSamplePointerCoords e)).

(** the status of a call, the number of the event and its samples *)
Definition seen (r : option (outcome * system)) : option (status_t * option (Z * list (Z * option Z))) :=
  r ← r; Some (r.1.1, match r.1.2 with Some (q, AMotionEvent e) => Some (q, samples e) | Some (q, _) => Some (q, []) | None => None end).

(** the move 4 is not due, but the sample between 3 and 4 is interpolated *)
Example frame_event : seen (perform (after_calls true waiting_moves) frame)
  = Some (OK, Some (3, [(10 * ms, Some 100); (15 * ms, Some 150); (20 * ms, Some 200)])).
Proof. vm_compute. reflexivity. Qed.

(** the socket takes the answer of 2 but not that of 3, which is sent later *)
Example answered_later : (fun r => (r.1.1, channel (consumer r.2), delivered r.2)) <$> perform (after_calls true (drawn ++ [Finish (full_at 3) 3 true])) (Finish all_sent 3 true)
  = Some (OK, [(2, true); (3, true)], [1]).
Proof. vm_compute. reflexivity. Qed.

Lemma consumer_refines_transport_witness : exists l a, runs Transport.initial l a /\ arrivals l = map arrival (received (after_calls true waiting_moves))
  /\ implements (consumer (after_calls true waiting_moves)) (delivered (after_calls true waiting_moves)) a
  /\ exists r s' l' a', perform (after_calls true waiting_moves) frame = Some (r, s') /\ runs a l' a' /\ implements (consumer s') (delivered s') a' /\ does a (after_calls true waiting_moves) frame r s' l'.
Proof. exact (consumer_refines_transport true _ frame waiting_reachable frame_legal). Defined.

Lemma messages_answered_once_witness : exists es, chains_ok (mSeqChains (consumer (after_calls true drawn))) es /\ map last es = map Some (delivered (after_calls true drawn))
  /\ map seq_of (received (after_calls true drawn)) ≡ₚ map fst (channel (consumer (after_calls true drawn))) ++ concat es ++ map seq_of (held (consumer (after_calls true drawn)))
  /\ NoDup (map fst (channel (consumer (after_calls true drawn))) ++ concat es ++ map seq_of (held (consumer (after_calls true drawn))))
  /\ forall k, exists gone, map seq_of (filter (in_stream k) (received (after_calls true drawn))) = gone ++ waiting (consumer (after_calls true drawn)) k.
Proof. exact (messages_answered_once true _ drawn_reachable). Defined.


(** the event of the frame, and the system after it *)
Definition frame_result : outcome * system := default ((WOULD_BLOCK, None), fresh_system true) (perform (after_calls true waiting_moves) frame).
Definition frame_shown : Z * InputEvent := default (0, AFocusEvent (FocusEvent.initialize 0 false false)) frame_result.1.2.


(** ** What surprises *)

(** *** Statuses *)

Definition consume_status (created : bool) (st : status_t) : Prop := st = OK \/ st = WOULD_BLOCK \/ (created = false /\ st = NO_MEMORY).

Section Statuses.
Context `{B32 : BitSet32.ops} `{B64 : BitSet64.ops}.

Lemma made_status created c i n c' out : consumeSamples created c i n = Some (c', out) -> consume_status created (motion_result out).1.
Proof.
  unfold consumeSamples. destruct (mBatches c !! i); [|done]. simpl. destruct created; simpl; [|intros [= <- <-]; right; by right].
  destruct (consume_samples _ _) as [[[? ?] ?]|]; [|done]. simpl. intros [= <- <-]. by left.
Qed.

Lemma until_status created c i b t r c' : consume_until created c i b t = Some (r, c') -> consume_status created r.1.
Proof.
  unfold consume_until. destruct (consumeSamples _ _ _ _) as [[c1 out]|] eqn:E; [|done]. simpl. apply made_status in E. destruct (mBatches c1 !! i); [|done]. simpl.
  destruct out as [[e q]|]; [|by intros [= <- <-]]. destruct (mResampleTouch _); [|by intros [= <- <-]]. destruct (resampleTouchState _ _ _ _); [|done]. simpl. intros [= <- <-]. by left.
Qed.

Lemma batches_status created frameTime c i r c' : consume_batches created frameTime c i = Some (r, c') -> consume_status created r.1.
Proof.
  induction i as [|i IH]; simpl; [intros [= <- <-]; right; by left|]. destruct (mBatches c !! i); [|done]. simpl. destruct (frameTime <? 0).
  - destruct (consumeSamples _ _ _ _) as [[c1 out]|] eqn:E; [|done]. simpl. intros [= <- <-]. by apply made_status in E.
  - destruct (checked _); [|done]. simpl. destruct (_ <? 0); [done|]. apply until_status.
Qed.

Lemma start_status created c m r c' : start_motion created c m = Some (Stop r c') -> consume_status created r.1.
Proof.
  unfold start_motion. destruct (_ || _); [done|]. destruct created; simpl; [|intros [= <- <-]; right; by right]. destruct (updateTouchState _ _); [|done]. simpl.
  destruct (initializeMotionEvent _); [|done]. intros [= <- <-]. by left.
Qed.

Lemma message_status send created c r c' : consume_message send created c = Some (Stop r c') -> consume_status created r.1.
Proof.
  unfold consume_message. destruct (mMsg c) as [[[k|m|q i f t]|q h]|]; simpl; [| | |done..].
  - destruct created; intros [= <- <-]; [by left|right; by right].
  - unfold consume_motion. destruct (findBatch _ _ _) as [i|]; [|apply start_status]. destruct (mBatches c !! i); [|done]. simpl. destruct (canAddSample _ _) as [can|]; [|done]. simpl.
    destruct can; [done|]. destruct (_ && _).
    + destruct (cancel_batch _ _ _); [|done]. simpl. apply start_status.
    + destruct (consumeSamples _ _ _ _) as [[c1 out]|] eqn:E; [|done]. simpl. intros [= <- <-]. by apply made_status in E.
  - destruct created; intros [= <- <-]; [by left|right; by right].
Qed.

(** Whatever [::recv] says, [consume] returns OK, WOULD_BLOCK or, if there was no memory for
    an event, NO_MEMORY: that the peer closed the channel (DEAD_OBJECT), or that a message is
    invalid, is never reported, because [consumeBatch] overwrites the result. *)
Theorem errors_are_hidden send created consumeBatches frameTime c recvs r c' unread :
  InputConsumer.consume send created consumeBatches frameTime c recvs = Some (r, c', unread) -> consume_status created r.1.
Proof.
  unfold InputConsumer.consume. generalize (length recvs + 2)%nat. intros fuel. revert c recvs. induction fuel as [|fuel IH]; intros c recvs; [done|]. cbn [consume_loop].
  assert (forall c2 recvs2, (x ← consume_message send created c2; match x with Continue c => consume_loop fuel send created consumeBatches frameTime c recvs2 | Stop r c => Some (r, c, recvs2) end)
    = Some (r, c', unread) -> consume_status created r.1) as Hturn.
  { intros c2 recvs2. destruct (consume_message send created c2) as [[c3|r3 c3]|] eqn:E; simpl; [apply IH| |done]. intros [= <- <- <-]. by apply message_status in E. }
  destruct (mMsgDeferred c); [apply Hturn|]. destruct (_ =? OK); [apply Hturn|]. unfold end_of_messages. destruct (consumeBatches || _) eqn:Eb.
  - destruct (consumeBatch _ _ _) as [[r3 c3]|] eqn:E; simpl; [|done]. intros [= <- <- <-]. by apply batches_status in E.
  - simpl. intros [= <- <- <-]. right. left. apply orb_false_iff in Eb as [_ Eb]. by bool_to_prop.
Qed.

End Statuses.

(** the peer closed the channel *)
Example closed_channel_blocks : (fun r => r.1.1) <$> perform (after_calls true touched) (consume_now (-1) [Eof]) = Some WOULD_BLOCK.
Proof. vm_compute. reflexivity. Qed.

(** *** Batches *)

(** A sample that another window covers is added to the batch of one that was not: the event
    does not have the flag. *)
Definition obscured_move : recv_result := arrives (touch_message 3 AMOTION_EVENT_ACTION_MOVE AMOTION_EVENT_FLAG_WINDOW_IS_OBSCURED (12 * ms) 120).
Example obscured_sample_unmarked :
  (fun r => match r.1.2 with Some (q, AMotionEvent e) => (q, MotionEvent.mFlags e, length (MotionEvent.mSampleEventTimes e)) | _ => (0, 0, 0%nat) end)
    <$> perform (after_calls true touched) (consume_now (-1) [moved 2 (10 * ms) 100; obscured_move]) = Some (3, 0, 2%nat).
Proof. vm_compute. reflexivity. Qed.

(** the messages that came in and are nowhere: not answered, not held, in no event *)
Definition lost (s : system) : list Z :=
  filter (fun q => q ∉ map fst (channel (consumer s)) ++ map seq_of (held (consumer s)) ++ delivered s ++ map chain (mSeqChains (consumer s))) (map seq_of (received s)).

(** A batch is canceled while the socket is full: the answers that it refuses are not sent
    again. *)
Example canceled_batch_unanswered :
  (fun r => (r.1.1, lost r.2)) <$> perform (after_calls true waiting_moves) (Consume (full_at 3) true true (-1) [arrives (touch_message 5 AMOTION_EVENT_ACTION_CANCEL 0 (30 * ms) 220)])
    = Some (OK, [3]).
Proof. vm_compute. reflexivity. Qed.

(** Without memory for the event, the batch is dropped, or the message that was received. *)
Example batch_lost_without_memory : (fun r => (r.1.1, lost r.2)) <$> perform (after_calls true waiting_moves) (Consume all_sent false true (-1) []) = Some (NO_MEMORY, [2; 3; 4]).
Proof. vm_compute. reflexivity. Qed.

Example message_lost_without_memory : (fun r => (r.1.1, lost r.2)) <$> perform (fresh_system true) (Consume all_sent false true (-1) [down 1 0 0]) = Some (NO_MEMORY, [1]).
Proof. vm_compute. reflexivity. Qed.

(** *** Resampling *)

(** A sample is extrapolated to 17.5 ms; the next one, of 16 ms, gets its coordinates but
    keeps its own time, so time goes back. *)
Definition extrapolated : list call := touched ++ [consume_now (25 * ms) [moved 2 (10 * ms) 100; moved 3 (15 * ms) 150]].
Example time_goes_back :
  (seen (perform (after_calls true touched) (consume_now (25 * ms) [moved 2 (10 * ms) 100; moved 3 (15 * ms) 150])),
   seen (perform (after_calls true extrapolated) (consume_now (-1) [moved 4 (16 * ms) 160])))
  = (Some (OK, Some (3, [(10 * ms, Some 100); (15 * ms, Some 150); (17500000, Some 175)])), Some (OK, Some (4, [(16 * ms, Some 175)]))).
Proof. vm_compute. reflexivity. Qed.

(** ** Publisher and consumer *)

(** what the publisher could send, the consumer takes as it is *)
Theorem published_is_received r m channel channel' : InputPublisher.publishMotionEvent r m channel = (OK, channel') ->
  channel' = channel ++ [MotionMsg m] /\ receiveMessage (Datagram (ToConsumer (MotionMsg m)) true) = (OK, Some (ToConsumer (MotionMsg m))).
Proof.
  unfold InputPublisher.publishMotionEvent. destruct (m_seq m =? 0); [done|]. destruct (_ || _) eqn:E; [done|]. bool_to_prop. intros Hs. split.
  - destruct r as [| |errno]; simpl in Hs; [by injection Hs as <-|done|]. repeat case_match; simplify_eq; done.
  - unfold receiveMessage, isValid. by rewrite (proj2 (Z.ltb_lt _ _)), (proj2 (Z.leb_le _ _)) by lia.
Qed.

(** and the publisher reads the answers that the consumer sent *)
Theorem answer_is_received q (handled : bool) : receiveFinishedSignal (Datagram (FinishedMsg q (if handled then 1 else 0)) true) = (OK, Some (q, handled)).
Proof. by destruct handled. Qed.

(** ** Samples *)

Lemma concat_lookup {A} (ll : list (list A)) (n h i : nat) : Forall (fun l => length l = n) ll -> (i < n)%nat -> concat ll !! (h * n + i)%nat = ll !! h ≫= (fun l => l !! i).
Proof.
  intros Hl Hi. revert h. induction Hl as [|l ll Hl _ IH]; intros h; [done|]. destruct h as [|h]; simpl; [by rewrite lookup_app_l by lia|].
  rewrite lookup_app_r by lia. rewrite <- IH. f_equal. lia.
Qed.

(** Sample [h] of an event has the time and the pointers of the message it was made of. *)
Theorem sample_is_message m ms h i : Forall (fun x => length (m_pointers x) = length (m_pointers m)) ms -> (i < length (m_pointers m))%nat ->
  MotionEvent.getHistoricalEventTime (extend (event_of m) ms) h = m_eventTime <$> (m :: ms) !! h
  /\ MotionEvent.getHistoricalRawPointerCoords (extend (event_of m) ms) i h = (m :: ms) !! h ≫= (fun x => coord <$> m_pointers x !! i).
Proof.
  intros Hl Hi. split.
  - unfold MotionEvent.getHistoricalEventTime. simpl. change (m_eventTime m :: map m_eventTime ms) with (m_eventTime <$> m :: ms). apply list_lookup_fmap.
  - unfold MotionEvent.getHistoricalRawPointerCoords, MotionEvent.getPointerCount. simpl. rewrite length_map.
    change (map coord (m_pointers m) ++ concat (map (fun x => map coord (m_pointers x)) ms)) with (concat (map (fun x => map coord (m_pointers x)) (m :: ms))).
    rewrite (concat_lookup _ (length (m_pointers m))); [|apply Forall_map; constructor; [by rewrite length_map|eapply Forall_impl; [exact Hl|]; intros x Hx; simpl; by rewrite length_map]|done].
    change (map (fun x => map coord (m_pointers x)) (m :: ms)) with ((fun x => coord <$> m_pointers x) <$> m :: ms). rewrite list_lookup_fmap. destruct ((m :: ms) !! h); simpl; [apply list_lookup_fmap|done].
Qed.
