(* ===== verification/InputBehaviours.v ===== *)
(** * Behaviours of the input dispatcher that its documentation does not tell

    Runs with touches on small screens, and runs of the world of InputScenarios.v. *)

From Stdlib Require Import SpecFloat.
From S2P Require Import Prelude Geometry Region PointerCoords InputEvents InputState InputProtocol InputConnection InputStreams InputOperations InputDispatcher InputTargets InputTouch InputSystem InputScenarios.

Import InputDispatcher InputTargets.

(** ** Screens *)

(** injectors are of the user 1000 and have no permission *)
Definition nobody : permissions := mk_permissions (fun _ => 1000) (fun _ => 1000) (fun _ _ => false).

(** a window that takes the touches in its frame *)
Definition placed (token flags uid left right : Z) : InputWindowInfo.t :=
  InputWindowInfo.mk token token (Z.lor flags InputWindowInfo.FLAG_NOT_TOUCH_MODAL) 2 5000000000 left 0 right 100 F32.one F32.one F32.one
    (Region.of_rect (Rect.mk left 0 right 100)) true true true false false uid uid 0 0 InputWindowInfo.ADISPLAY_ID_NONE 1.

Definition screen (windows : gmap Z InputWindowInfo.t) (order : list Z) : Dispatcher.t :=
  Dispatcher.mk 1 [] [] ∅ windows [(0, order)] ∅ 0 false [] ∅ None None 0 5000000000 None None ∅.

Definition at_x (x : Z) : pointer := touch (properties 0 1) (PointerCoords.setAxisValue PointerCoords.empty PointerCoords.AMOTION_EVENT_AXIS_X (F32.of_Z x)).2.
Definition touch_at (x action : Z) : MotionEntry.t := motion TOUCHSCREEN action [at_x x].
Definition mouse (x : float32) (action : Z) : MotionEntry.t := MotionEntry.mk 9 0 0 2 AINPUT_SOURCE_MOUSE 0 action 0 0 0 0 0 0 F32.one F32.one x F32.zero 0 [at_x 0] None.
Definition mouse_at (x action : Z) : MotionEntry.t := mouse (F32.of_Z x) action.
(** the event, injected *)
Definition injected (e : MotionEntry.t) : MotionEntry.t :=
  MotionEntry.mk (MotionEntry.id e) 0 0 (MotionEntry.deviceId e) (MotionEntry.source e) 0 (MotionEntry.action e) 0 0 0 0 0 0 F32.one F32.one
    (MotionEntry.xCursorPosition e) (MotionEntry.yCursorPosition e) 0 (MotionEntry.pointers e) (Some 5).

Definition send_motion (n : Z) (e : MotionEntry.t) : env * call := (at_time n, DispatchMotion nobody (50 + n) e NOT_DROPPED).

(** the events that were sent to a connection, and whether it works *)
Definition received (a : Z) (w : t) : option (Connection.Status * list (option Z)) :=
  (fun c => (Connection.status c, map (fun m => snd <$> message_view m) (Connection.channel c))) <$> (connections w !! a).

(** ** Windows with channels of their own *)

Definition no_clonesb (w : t) : bool :=
  let token := Dispatcher.getToken (shared w) in
  let hs := map fst (map_to_list (Dispatcher.handles (shared w))) in
  bool_decide (mInputChannelsByToken w !! 0 = None) &&
  forallb (fun h => forallb (fun h' => (h =? h') || negb (token h =? token h') || bool_decide (mInputChannelsByToken w !! token h = None)) hs) hs.

Lemma no_clonesb_sound w : no_clonesb w = true -> no_clones w.
Proof.
  unfold no_clonesb. intros H. bool_to_prop. rename H into H0, H0 into Hf. rewrite forallb_forall in Hf. intros h h' E Hc.
  assert (Hin : forall h, is_Some (mInputChannelsByToken w !! Dispatcher.getToken (shared w) h) -> In h (map fst (map_to_list (Dispatcher.handles (shared w))))).
  { intros g [c Hg]. unfold Dispatcher.getToken, Dispatcher.getInfo in Hg. destruct (Dispatcher.handles (shared w) !! g) as [i|] eqn:Eg; [|simpl in Hg; congruence].
    apply in_map_iff. exists (g, i). split; [done|]. by apply list_elem_of_In, elem_of_map_to_list. }
  specialize (Hf h (Hin h Hc)).
  rewrite forallb_forall in Hf. rewrite E in Hc. specialize (Hf h' (Hin h' Hc)). bool_to_prop.
  destruct Hf as [Hf|Hf]; bool_to_prop; [destruct Hf as [Hf|Hf]; bool_to_prop; congruence|]. rewrite <- E, Hf in Hc. by destruct Hc.
Qed.

(** ** A hover that is not ended *)

Definition one_window : Dispatcher.t := screen {[1 := placed 10 0 1000 0 50]} [1].

Definition hovering_away : list (env * call) :=
  registered ++ [(at_time 0, Configure one_window); send_motion 1 (mouse_at 20 AMOTION_EVENT_ACTION_HOVER_ENTER);
                 send_motion 2 (mouse_at 70 AMOTION_EVENT_ACTION_HOVER_MOVE); send_motion 3 (mouse_at 80 AMOTION_EVENT_ACTION_HOVER_EXIT)].

(** A mouse leaves the only window: the window is not told that the hover is over, and the
    dispatcher forgets that it hovered there. *)
Theorem hover_left_open : received 100 (world hovering_away) = Some (Connection.STATUS_NORMAL, [Some AMOTION_EVENT_ACTION_HOVER_ENTER; Some AMOTION_EVENT_ACTION_HOVER_ENTER]) /\
  Dispatcher.mLastHoverWindowHandle (shared (world hovering_away)) = None.
Proof. split; vm_compute; reflexivity. Qed.

(** ** Windows that share a channel *)

Definition clones (flags : Z) : Dispatcher.t :=
  screen {[1 := placed 10 flags 1000 0 50; 2 := placed 10 InputWindowInfo.FLAG_SPLIT_TOUCH 1000 50 100]} [1; 2].

Definition touch_clone : list (env * call) :=
  registered ++ [(at_time 0, Configure (clones 0)); send_motion 1 (mouse_at 20 AMOTION_EVENT_ACTION_HOVER_ENTER); send_motion 2 (touch_at 70 AMOTION_EVENT_ACTION_DOWN)].

(** A mouse hovers over one of two cloned windows, and a finger touches the other one: the
    target loses the finger, the event is sent without pointers, and the connection breaks. *)
Theorem clone_breaks_connection : received 100 (world touch_clone) =
  Some (Connection.STATUS_BROKEN, [Some AMOTION_EVENT_ACTION_HOVER_ENTER; Some AMOTION_EVENT_ACTION_HOVER_ENTER; Some AMOTION_EVENT_ACTION_HOVER_EXIT]).
Proof. vm_compute. reflexivity. Qed.

Definition watching_clone : list (env * call) :=
  registered ++ [(at_time 0, Configure (clones InputWindowInfo.FLAG_WATCH_OUTSIDE_TOUCH)); send_motion 2 (touch_at 70 AMOTION_EVENT_ACTION_DOWN)].

(** One of two cloned windows watches touches outside of it: a touch of the other one is
    only reported as outside. *)
Theorem clone_hides_touch : received 100 (world watching_clone) = Some (Connection.STATUS_NORMAL, [Some AMOTION_EVENT_ACTION_OUTSIDE]).
Proof. vm_compute. reflexivity. Qed.

(** ** A window that watches *)

Definition watch : Dispatcher.t :=
  screen {[1 := placed 10 InputWindowInfo.FLAG_WATCH_OUTSIDE_TOUCH 2000 0 50; 2 := placed 20 InputWindowInfo.FLAG_SPLIT_TOUCH 1000 50 100]} [1; 2].

Definition watched : list (env * call) := registered ++ [(at_time 0, Configure watch); send_motion 2 (mouse_at 70 AMOTION_EVENT_ACTION_DOWN)].

Definition coordinates (m : InputMessage) : option (float32 * list Z) :=
  match m with MotionMsg m => Some (m_xCursorPosition m, map (fun p => PointerCoords.bits (coord p)) (m_pointers m)) | _ => None end.

(** A mouse button goes down in a window of another user: the window that watches gets
    pointers without axes, and the position of the cursor. *)
Theorem outside_sees_cursor : (fun c => map coordinates (Connection.channel c)) <$> (connections (world watched) !! 100) = Some [Some (F32.of_Z 70, [0])].
Proof. vm_compute. reflexivity. Qed.

(** ** Events that are not caught *)

(** a finger goes down, and the event says that it is the second of one *)
Definition down_with_index : MotionEntry.t := touch_at 20 (Z.lor AMOTION_EVENT_ACTION_DOWN (Z.shiftl 1 AMOTION_EVENT_ACTION_POINTER_INDEX_SHIFT)).

(** The event is valid, and a pointer that it does not have is read. *)
Theorem down_reads_missing_pointer : validateMotionEvent (MotionEntry.action down_with_index) 0 (MotionEntry.pointers down_with_index) = true /\
  findTouchedWindowTargetsLocked (world registered) nobody down_with_index [] = None.
Proof. split; vm_compute; reflexivity. Qed.

(** A mouse event without a cursor position is valid, and the position is converted. *)
Theorem cursor_position_converted : let e := mouse S754_nan AMOTION_EVENT_ACTION_DOWN in
  validateMotionEvent (MotionEntry.action e) 0 (MotionEntry.pointers e) = true /\ findTouchedWindowTargetsLocked (world registered) nobody e [] = None.
Proof. split; vm_compute; reflexivity. Qed.

(** ** Portals *)

(** a window of one display that shows another one *)
Definition portal_to (display shown : Z) : InputWindowInfo.t :=
  InputWindowInfo.mk 10 10 0 2 5000000000 0 0 100 100 F32.one F32.one F32.one Region.new true true true false false 1000 1000 0 display shown 1.

Definition portals : Dispatcher.t :=
  Dispatcher.mk 1 [] [] ∅ {[1 := portal_to 0 1; 2 := portal_to 1 0]} [(0, [1]); (1, [2])] ∅ 0 false [] ∅ None None 0 5000000000 None None ∅.

(** Two displays show each other: the search for the window that is touched does not end,
    whatever the stack holds. *)
Theorem portals_never_end fuel : search_displays fuel portals 0 50 50 false true TouchState.new = None.
Proof.
  destruct (search_displays fuel portals 0 50 50 false true TouchState.new) as [[r s]|] eqn:E; [|done]. apply search_displays_sound in E.
  assert (forall q r, at_point portals 50 50 q r -> q = 0 \/ q = 1 -> False) as H; [|exfalso; eauto].
  clear. induction 1 as [q Hf|q h Hf Hp|q h p r Hf Hp H IH]; intros [-> | ->]; vm_compute in Hf; try done; injection Hf as <-; vm_compute in Hp; try done; injection Hp as <-; auto.
Qed.

Import InputDispatcher.

Ltac next := apply reachable_next; [evaluates| |try (vm_compute; reflexivity)|evaluates].

(** ** A mouse that hovers *)

Definition mouse_hover : MotionEntry.t :=
  MotionEntry.mk 9 0 0 2 8194 0 AMOTION_EVENT_ACTION_HOVER_ENTER 0 0 0 0 0 0 F32.one F32.one F32.zero F32.zero 0 [finger 0] None.

Definition hovered : list (env * call) :=
  registered ++ [(at_time 1, Dispatch 50 (Motion mouse_hover) [(10, whole)]);
                 (at_time 2, Dispatch 51 (Motion (motion TOUCHSCREEN AMOTION_EVENT_ACTION_DOWN [finger 0])) [(10, whole)]); (at_time 3, Transfer 10 20)].

(** A touch is transferred while a mouse hovers over the same window: the other window is
    told that the mouse's button went down. *)
Theorem hover_transferred_as_down :
  (fun c => map message_view (Connection.channel c)) <$> (connections (world hovered) !! 101) =
  Some [Some ((2, 8194, 0), AMOTION_EVENT_ACTION_DOWN); Some ((1, 4098, 0), AMOTION_EVENT_ACTION_DOWN)].
Proof. vm_compute. reflexivity. Qed.

(** ** An application that recovers *)

(** the touch times out, the policy aborts, the touch is canceled, and then the
    application answers the first event only *)
Definition silent : list (env * call) :=
  ((((((touched_down ++ [(at_time 5000000001, CheckAnrs)]) ++ [(at_time 5000000001, RunCommand)]) ++ [(at_time 5000000001, RunCommand)]) ++
    [(at_time 5000000001, Answer (answered None 0 0))]) ++ [(at_time 5000000002, Signals 100 [(1, true)])])) ++ [(at_time 5000000003, RunCommand)].

Lemma silent_reachable : reachable (world silent).
Proof. unfold silent. do 6 next. apply touched_down_reachable. Qed.

(** A connection is responsive again, has an event that is not answered, and nothing will
    wake the dispatcher when it times out: the tracker is not in sync with the queue. *)
Theorem recovered_connection_untracked : exists w c, reachable w /\ connections w !! 100 = Some c /\
  Connection.status c = Connection.STATUS_NORMAL /\ Connection.responsive c = true /\ length (Connection.waitQueue c) = 1%nat /\ Dispatcher.mAnrTracker (shared w) = [].
Proof. exists (world silent). eexists. split; [apply silent_reachable|]. split; [vm_compute; reflexivity|]. repeat split; vm_compute; reflexivity. Qed.

(** ** A wait that is prolonged *)

Definition app : InputApplication.t := InputApplication.mk 1 77 5.

(** no window of the application has the focus, and a key waits for one *)
Definition waiting : Dispatcher.t := Dispatcher.mk 1 [] [] ∅ ∅ [] ∅ 0 false [] ∅ (Some 10) (Some app) 0 5000000000 None None ∅.

Definition prolonged : list (env * call) :=
  (((((([(at_time 0, SetFocusedApplication 0 (Some app) true)] ++ [(at_time 0, Configure waiting)]) ++ [(at_time 10, CheckAnrs)]) ++ [(at_time 10, RunCommand)]) ++
    [(at_time 11, SetFocusedApplication 0 None true)]) ++ [(at_time 12, Answer (answered None 5 0))])).

Lemma prolonged_reachable : reachable (world prolonged).
Proof. unfold prolonged. do 4 (next; try done). next; [|constructor]. apply (reachable_next []); [evaluates|apply reachable_start|done|evaluates]. Qed.

(** The application goes away while the policy is asked whether to wait longer; when the
    longer wait is over, the name of the application that is focused is read from a null
    pointer. *)
Theorem prolonged_wait_without_application : reachable (world prolonged) /\
  Dispatcher.mFocusedApplicationHandlesByDisplay (shared (world prolonged)) !! 0 = None /\ perform (world prolonged) (at_time 17) CheckAnrs = None.
Proof. split; [apply prolonged_reachable|]. split; vm_compute; reflexivity. Qed.

(** ** A key that is replaced *)

(** the application does not handle a key, and the policy has another one for it *)
Definition replaced : list (env * call) :=
  registered ++ [(at_time 1, Dispatch 50 (Key (key AKEY_EVENT_ACTION_DOWN 66 0)) [(10, whole)]); (at_time 2, Signals 100 [(1, false)]);
                 (at_time 2, RunCommand); (at_time 2, RunCommand); (at_time 3, Answer (answered (Some (key AKEY_EVENT_ACTION_DOWN 23 0)) 0 0))].

Definition key_of (m : InputMessage) : Z * Z := match m with KeyMsg m => (k_keyCode m, k_flags m) | _ => (0, 0) end.

(** The key that is sent instead does not have the flag of a fallback key. *)
Theorem fallback_sent_without_flag : (fun c => map key_of (Connection.channel c)) <$> (connections (world replaced) !! 100) = Some [(66, 0); (23, 0)].
Proof. vm_compute. reflexivity. Qed.

(** ** Pointer ids *)

(** A pointer with a valid id has no place in a target. *)
Theorem valid_pointer_without_info : validateMotionEvent AMOTION_EVENT_ACTION_DOWN 0 [finger 16] = true /\
  BitSet32.hasBit 32768 16 = true /\ InputTarget.addPointers InputTarget.new 32768 (info F32.zero F32.zero F32.one F32.one) = None.
Proof. repeat split; vm_compute; reflexivity. Qed.
