(* ===== verification/InputTargetTheorems.v ===== *)
(** * Who gets a touch

    The guarantees about the windows and monitors that a motion event is sent to, for every
    reachable state of the dispatcher. *)

From S2P Require Import Prelude Region PointerCoords InputScenarios InputEvents InputSplit InputState InputProtocol InputConnection InputStreams InputDispatcher InputTargets InputTouch InputSystem InputTouchInvariant InputStreamTheorems InputBehaviours.

Import InputDispatcher InputTargets.

Section Theorems.
Context `{B32 : BitSet32.ops} `{B64 : BitSet64.ops}.

Notation valid e := (validateMotionEvent (MotionEntry.action e) (MotionEntry.actionButton e) (MotionEntry.pointers e) = true).

(** C23: The search for the window at a point ends, and finds the frontmost touchable window,
    in the display behind the portals that are touched, exactly if these do not lead in a
    circle; if it does not end, every portal leads to another one for ever. *)
Theorem window_search_ends d displayId x y s addOutside addPortals :
  (exists r s', findTouchedWindowAtLocked d displayId x y s addOutside addPortals = Some (r, s') /\ at_point d x y displayId r) \/
  findTouchedWindowAtLocked d displayId x y s addOutside addPortals = None /\ (forall r, ~ at_point d x y displayId r) /\
  forall n, exists q, Nat.iter n (fun r => r ≫= beyond d x y) (Some displayId) = Some q.
Proof.
  destruct (findTouchedWindowAtLocked d displayId x y s addOutside addPortals) as [[r s']|] eqn:E; [left|right].
  - exists r, s'. split; [done|]. apply (search_refines d x y displayId addOutside addPortals s). by exists s'.
  - split; [done|]. split; [|by eapply search_circle]. intros r [s' E']%(search_refines d x y displayId addOutside addPortals s). congruence.
Qed.

(** the channels of the targets *)
Lemma heads_tokens w (tw : targets) xs : map target_head tw = map (window_head w) xs -> map fst tw = map (window_token w) xs.
Proof. intros H. apply (f_equal (map (fun z => z.1.1))) in H. by rewrite !map_map in H. Qed.


(** a target that is in the foreground is that of a window *)
Lemma target_window w perm e s ts t mask : success w perm e s ts -> channels_ok w -> t ∈ ts -> has (InputTarget.flags t.2) mask = true ->
  has InputTarget.FLAG_DISPATCH_AS_IS mask = false ->
  exists h, h ∈ flagged mask (TouchState.windows s) /\ t.1 = Dispatcher.getToken (shared w) h /\
    forall mask', h ∈ flagged mask' (TouchState.windows s) -> has (InputTarget.flags t.2) mask' = true.
Proof.
  intros Hs Hch Ht Hf Hm. destruct (success_targets _ _ _ _ _ Hs Hch) as (tw & -> & Hheads & _). apply elem_of_app in Ht as [Ht|Ht].
  - assert (target_head t ∈ map (window_head w) (leaders w [] (TouchState.windows s))) as Hx by (rewrite <- Hheads; apply elem_of_map; by exists t).
    apply elem_of_map in Hx as (x & (Hx & _)%leaders_spec & [= Et Ef _]).
    exists (TouchState.windowHandle x). destruct (success_ok _ _ _ _ _ Hs) as [Hnd _]. split; [apply flagged_window; [done|done|congruence]|]. split; [done|].
    intros mask' H. rewrite flagged_window in H by done. congruence.
  - apply elem_of_map in Ht as (m & _ & ->). simpl in Hf. congruence.
Qed.

(** C21: The search for the targets of an event that carries the injection state of an
    injector without the permission to inject events: if the targets are found, all in the
    foreground are windows of the injector's own user, and otherwise there are no targets
    and the state of the dispatcher is as before. Of a motion that is injected with several
    samples only the last one carries the injection state, so the earlier ones are not
    confined ([first_sample_unchecked]). *)
Theorem injection_confined w perm e i result conflicts ts w' : reachable w -> valid e ->
  findTouchedWindowTargetsLocked w perm e [] = Some (result, conflicts, ts, w') ->
  MotionEntry.injectionState e = Some i -> hasInjectionPermission perm (injectorPid perm i) (injectorUid perm i) = false ->
  if result =? INPUT_EVENT_INJECTION_SUCCEEDED
  then forall t, t ∈ ts -> has (InputTarget.flags t.2) InputTarget.FLAG_FOREGROUND = true ->
         exists h, t.1 = Dispatcher.getToken (shared w) h /\ uid_of w h = injectorUid perm i
  else ts = [] /\ w' = w.
Proof.
  intros Hw Hv E Ei Hi. destruct (reachable_inv w Hw) as [_ [Ht Hch]]. destruct (validated_pointers e Hv) as [Hp _].
  destruct (touched_targets _ _ _ _ _ _ _ E Ht Hp) as (_ & _ & [(-> & s & Hs)|(Hr & ->)]); simpl.
  - intros t Hin Hf. destruct (target_window _ _ _ _ _ _ _ Hs Hch Hin Hf eq_refl) as (h & Hh & Et & _). exists h. split; [done|].
    pose proof (success_permitted _ _ _ _ _ Hs h Hh) as Hperm. unfold checkInjectionPermission in Hperm. rewrite Ei, Hi, orb_false_r in Hperm. by bool_to_prop.
  - assert (result <> INPUT_EVENT_INJECTION_SUCCEEDED) as Hne by (destruct Hr as [->| ->]; done). rewrite (proj2 (Z.eqb_neq _ _) Hne). split; [done|]. by eapply not_permitted.
Qed.

(** the axes of the pointers in the message of an entry *)
Definition message_axes (x : DispatchEntry.t) (m : MotionEntry.t) : list Z := map (fun p => PointerCoords.bits (coord p)) (m_pointers (motion_msg x m)).

Lemma zero_coords_cleared x m : has (DispatchEntry.targetFlags x) InputTarget.FLAG_ZERO_COORDS = true -> Forall (fun b => b = 0) (message_axes x m).
Proof.
  intros H. unfold message_axes, motion_msg. simpl. rewrite H, andb_false_r. rewrite !map_map. apply Forall_forall. intros b Hb. by apply elem_of_map in Hb as (p & _ & ->).
Qed.

(** C22: When the first pointer goes down on a window, a window of another user that only
    watches touches outside of it is not told where the pointers are: its target says so,
    and the pointers in a message for such a target have no axes. The cursor position of a
    mouse event is still sent ([outside_sees_cursor]). *)
Theorem outside_touch_hidden w perm e conflicts ts w' : reachable w -> valid e -> isDown e = true ->
  findTouchedWindowTargetsLocked w perm e [] = Some (INPUT_EVENT_INJECTION_SUCCEEDED, conflicts, ts, w') ->
  exists s, success w perm e s ts /\
  forall t f, t ∈ ts -> has (InputTarget.flags t.2) InputTarget.FLAG_DISPATCH_AS_OUTSIDE = true -> TouchState.getFirstForegroundWindowHandle s = Some f ->
    exists h, t.1 = Dispatcher.getToken (shared w) h /\
    (uid_of w h <> uid_of w f -> has (InputTarget.flags t.2) InputTarget.FLAG_ZERO_COORDS = true /\
       forall x m, DispatchEntry.targetFlags x = Z.lor (Z.ldiff (InputTarget.flags t.2) InputTarget.FLAG_DISPATCH_MASK) InputTarget.FLAG_DISPATCH_AS_OUTSIDE ->
         Forall (fun b => b = 0) (message_axes x m)).
Proof.
  intros Hw Hv Hd E. destruct (reachable_inv w Hw) as [_ [Ht Hch]]. destruct (validated_pointers e Hv) as [Hp _].
  destruct (touched_targets _ _ _ _ _ _ _ E Ht Hp) as (_ & _ & [(_ & s & Hs)|([|] & _)]); [|done|done]. exists s. split; [done|]. intros t f Hin Hf Ef.
  destruct (target_window _ _ _ _ _ _ _ Hs Hch Hin Hf eq_refl) as (h & Hh & Et & Hflags). exists h. split; [done|]. intros Hne.
  assert (Hz : has (InputTarget.flags t.2) InputTarget.FLAG_ZERO_COORDS = true) by (apply Hflags; by eapply (success_hidden _ _ _ _ _ Hs Hd)).
  split; [done|]. intros x m Ex. apply zero_coords_cleared. by rewrite Ex, has_lor, has_ldiff, Hz by done.
Qed.

(** a window of another process above [h], of the same display, visible and not trusted,
    whose frame has the point *)
Definition covered_at (d : Dispatcher.t) (h x y : Z) : Prop := exists above other below,
  getWindowHandlesLocked d (InputWindowInfo.displayId (Dispatcher.getInfo d h)) = above ++ other :: below /\ h ∉ above ++ [other] /\
  canBeObscuredBy d h other = true /\ InputWindowInfo.frameContainsPoint (Dispatcher.getInfo d other) x y = true.

(** the window is marked as obscured in the touch that is being made *)
Definition marked_obscured (a : attempt) (h : Z) : Prop := h ∈ flagged InputTarget.FLAG_WINDOW_IS_OBSCURED (TouchState.windows (tempTouchState a)).

Lemma temp_hover a hover s : tempTouchState (a <| newHoverWindowHandle := hover |> <| tempTouchState := s |>) = s.
Proof. done. Qed.
Lemma temp_split a split s : tempTouchState (a <| tempTouchState := s |> <| isSplit := split |>) = s.
Proof. done. Qed.

Lemma obscured_at_point d h x y : isWindowObscuredAtPointLocked d h x y = true <-> covered_at d h x y.
Proof. apply obscured_by_spec. Qed.

(** A window that a pointer goes down on or slips into is marked as obscured, unless it
    was before, exactly if a visible window of another process that is not trusted lies
    above it, in its display, at that point. *)
Theorem obscured_touch_marked w e i x y h a :
  (forall a', touch_window w e i x y h a = Some a' -> marked_obscured a' h <-> marked_obscured a h \/ covered_at (shared w) h x y) /\
  (forall old a', slip w e x y old h a = Some a' -> marked_obscured a' h <-> marked_obscured a h \/ covered_at (shared w) h x y).
Proof.
  split.
  - intros a' E. unfold touch_window in E. destruct (if isSplit a then _ else _) as [ids|]; cbn [mbind option_bind] in E; [|done]. injection E as <-.
    unfold marked_obscured. rewrite (temp_hover a). rewrite addOrUpdateWindow_windows, flagged_iff, <- obscured_at_point by done. rewrite !has_lor. unfold obscured_flags, split_flag.
    destruct (isSplit a), (isWindowObscuredAtPointLocked _ _ _ _), (isWindowObscuredLocked (shared w) h); simpl; intuition congruence.
  - intros old a' E. unfold slip in E. destruct (if _ || isSplit a then _ else _) as [ids|]; cbn [mbind option_bind] in E; [|done]. injection E as <-.
    unfold marked_obscured. rewrite (temp_split a). rewrite !addOrUpdateWindow_windows, !flagged_iff, <- obscured_at_point by done. rewrite !has_lor. unfold split_flag.
    destruct (_ || isSplit a), (isWindowObscuredAtPointLocked _ _ _ _); simpl; intuition congruence.
Qed.

End Theorems.

(** ** Examples *)

(** what the search finds for an event *)
Definition search_result (calls : list (env * call)) (e : MotionEntry.t) : Z * bool * targets * t :=
  default (0, false, [], w0) (findTouchedWindowTargetsLocked (world calls) nobody e []).

Definition down : MotionEntry.t := touch_at 20 AMOTION_EVENT_ACTION_DOWN.


Lemma injection_confined_witness :
  let r := search_result registered (injected down) in
  if r.1.1.1 =? INPUT_EVENT_INJECTION_SUCCEEDED
  then forall t, t ∈ r.1.2 -> has (InputTarget.flags t.2) InputTarget.FLAG_FOREGROUND = true ->
         exists h, t.1 = Dispatcher.getToken (shared (world registered)) h /\ uid_of (world registered) h = injectorUid nobody 5
  else r.1.2 = [] /\ r.2 = world registered.
Proof.
  intros r. apply (injection_confined (world registered) nobody (injected down) 5 r.1.1.1 r.1.1.2 r.1.2 r.2).
  - apply registered_reachable.
  - vm_compute; reflexivity.
  - vm_compute; reflexivity.
  - reflexivity.
  - vm_compute; reflexivity.
Defined.

Definition watching : list (env * call) := registered ++ [(at_time 0, Configure watch)].

Lemma watching_reachable : reachable (world watching).
Proof. apply reachable_next; [evaluates|apply registered_reachable|constructor|evaluates]. Qed.

Lemma outside_touch_hidden_witness :
  let w := world watching in let r := search_result watching (mouse_at 70 AMOTION_EVENT_ACTION_DOWN) in
  exists s, success w nobody (mouse_at 70 AMOTION_EVENT_ACTION_DOWN) s r.1.2 /\
  forall t f, t ∈ r.1.2 -> has (InputTarget.flags t.2) InputTarget.FLAG_DISPATCH_AS_OUTSIDE = true -> TouchState.getFirstForegroundWindowHandle s = Some f ->
    exists h, t.1 = Dispatcher.getToken (shared w) h /\
    (uid_of w h <> uid_of w f -> has (InputTarget.flags t.2) InputTarget.FLAG_ZERO_COORDS = true /\
       forall x m, DispatchEntry.targetFlags x = Z.lor (Z.ldiff (InputTarget.flags t.2) InputTarget.FLAG_DISPATCH_MASK) InputTarget.FLAG_DISPATCH_AS_OUTSIDE ->
         Forall (fun b => b = 0) (message_axes x m)).
Proof.
  intros w r. apply (outside_touch_hidden w nobody (mouse_at 70 AMOTION_EVENT_ACTION_DOWN) r.1.1.2 r.1.2 r.2).
  - apply watching_reachable.
  - vm_compute; reflexivity.
  - vm_compute; reflexivity.
  - vm_compute; reflexivity.
Defined.

(** the target of the window that watches *)
Example watcher_is_target : map (fun t => (t.1, InputTarget.flags t.2)) (search_result watching (mouse_at 70 AMOTION_EVENT_ACTION_DOWN)).1.2 =
  [(10, Z.lor InputTarget.FLAG_DISPATCH_AS_OUTSIDE InputTarget.FLAG_ZERO_COORDS); (20, Z.lor InputTarget.FLAG_FOREGROUND InputTarget.FLAG_DISPATCH_AS_IS)].
Proof. vm_compute. reflexivity. Qed.

(** the injector's own window *)
Example injected_succeeds : (search_result registered (injected down)).1.1.1 = INPUT_EVENT_INJECTION_SUCCEEDED.
Proof. vm_compute. reflexivity. Qed.

(** a window of another process covers the one that is touched *)
Definition covering : Dispatcher.t := screen {[1 := (placed 10 InputWindowInfo.FLAG_NOT_TOUCHABLE 2000 0 50); 2 := placed 20 0 1000 0 50]} [1; 2].
Definition covered : t := world (registered ++ [(at_time 0, Configure covering)]).
Definition touching : attempt := start covered down [].
Definition touching' : attempt := default touching (touch_window covered down 0 20 0 2 touching).

Lemma obscured_touch_marked_witness : marked_obscured touching' 2 /\ (marked_obscured touching' 2 <-> marked_obscured touching 2 \/ covered_at (shared covered) 2 20 0).
Proof.
  split; [vm_compute; left|]. apply (proj1 (obscured_touch_marked covered down 0 20 0 2 touching)). vm_compute; reflexivity.
Defined.
