(* ===== verification/InputGuarantees.v ===== *)
(** * What the input dispatcher guarantees

    The tracker of timeouts (AnrTracker.cpp) implements a multiset; and the guarantees about
    the events that applications get, for every reachable state of the dispatcher. *)

From S2P Require Import Prelude Region PointerCoords InputEvents InputSplit InputState InputProtocol InputConnection InputStreams InputCancel InputTransfer InputOperations InputDispatcher InputSystem InputSystemInvariant InputStreamTheorems InputScenarios.

(** ** The order of the pairs *)

Definition timeout_le (a b : Z * Z) : Prop := a.1 < b.1 \/ (a.1 = b.1 /\ a.2 <= b.2).

Lemma before_false a b : AnrTracker.before a b = false <-> timeout_le b a.
Proof. unfold AnrTracker.before, timeout_le. rewrite orb_false_iff, andb_false_iff, !Z.ltb_ge, Z.eqb_neq. lia. Qed.

Lemma before_true a b : AnrTracker.before a b = true -> timeout_le a b.
Proof. unfold AnrTracker.before, timeout_le. rewrite orb_true_iff, andb_true_iff, !Z.ltb_lt, Z.eqb_eq. lia. Qed.

#[global] Instance timeout_le_trans : Transitive timeout_le.
Proof. intros a b c. unfold timeout_le. lia. Qed.

(** ** The sorted list *)

Definition in_order (s : AnrTracker.t) : Prop := StronglySorted timeout_le s.

Lemma insert_elem x s y : y ∈ AnrTracker.insert_sorted x s <-> y = x \/ y ∈ s.
Proof. induction s as [|z s IH]; simpl; [set_solver|]. destruct (AnrTracker.before x z); rewrite !elem_of_cons, ?IH; tauto. Qed.

Lemma insert_in_order x s : in_order s -> in_order (AnrTracker.insert_sorted x s).
Proof.
  induction 1 as [|y s Hs IH Hy]; simpl; [repeat constructor|]. destruct (AnrTracker.before x y) eqn:E.
  - apply before_true in E. constructor; [by constructor|]. constructor; [done|]. eapply Forall_impl; [exact Hy|]. intros z Hz. by etrans.
  - constructor; [done|]. apply Forall_forall. intros z [->|Hz]%insert_elem; [by apply before_false|]. by eapply Forall_forall in Hy.
Qed.

Lemma sublist_in_order s s' : s' `sublist_of` s -> in_order s -> in_order s'.
Proof.
  induction 1 as [|x l1 l2 Hl IH|x l1 l2 Hl IH]; [done| |]; intros Hs; inversion Hs as [|? ? Hs2 Hx]; subst; [|by apply IH].
  constructor; [by apply IH|]. apply Forall_forall. intros y Hy. eapply Forall_forall in Hx; [exact Hx|]. by eapply elem_of_sublist.
Qed.

Lemma erase_one_sublist x s : AnrTracker.erase_one x s `sublist_of` s.
Proof. induction s as [|y s IH]; simpl; [done|]. case_bool_decide; [by apply sublist_cons|by apply sublist_skip]. Qed.

(** ** The multiset *)

Definition multiplicity (x : Z * Z) (s : list (Z * Z)) : nat := length (filter (fun y => y = x) s).

Lemma multiplicity_cons x y s : multiplicity x (y :: s) = ((if decide (y = x) then 1 else 0) + multiplicity x s)%nat.
Proof. unfold multiplicity. rewrite filter_cons. by case_decide. Qed.

Lemma multiplicity_insert x y s : multiplicity x (AnrTracker.insert_sorted y s) = ((if decide (y = x) then 1 else 0) + multiplicity x s)%nat.
Proof.
  induction s as [|z s IH]; simpl; [by rewrite multiplicity_cons|]. destruct (AnrTracker.before y z); rewrite !multiplicity_cons; [done|]. rewrite IH. lia.
Qed.

Lemma multiplicity_erase x y s : multiplicity x (AnrTracker.erase_one y s) = (multiplicity x s - if decide (y = x) then 1 else 0)%nat.
Proof.
  induction s as [|z s IH]; simpl; [by case_decide|]. case_bool_decide as Hz; rewrite ?multiplicity_cons; [subst; case_decide; lia|]. rewrite IH.
  repeat case_decide; subst; try done; lia.
Qed.

Lemma multiplicity_erase_token x k s : multiplicity x (AnrTracker.eraseToken s k) = if decide (x.2 = k) then 0%nat else multiplicity x s.
Proof.
  unfold AnrTracker.eraseToken. induction s as [|y s IH]; [by case_decide|]. rewrite filter_cons, multiplicity_cons.
  repeat case_decide; rewrite ?multiplicity_cons, ?IH; repeat case_decide; subst; done || lia.
Qed.

Lemma multiplicity_pos x s : (0 < multiplicity x s)%nat <-> x ∈ s.
Proof.
  unfold multiplicity. split.
  - destruct (filter (fun y => y = x) s) as [|y l] eqn:E; simpl; [lia|]. intros _.
    assert (Hy : y ∈ filter (fun y => y = x) s) by (rewrite E; set_solver). by apply list_elem_of_filter in Hy as [-> Hy].
  - intros Hx. destruct (filter (fun y => y = x) s) as [|y l] eqn:E; simpl; [|lia].
    assert (Hy : x ∈ filter (fun y => y = x) s) by (by apply list_elem_of_filter). rewrite E in Hy. set_solver.
Qed.

(** ** Histories *)

Inductive anr_op := Insert (timeoutTime token : Z) | Erase (timeoutTime token : Z) | EraseToken (token : Z) | Clear.

Definition anr_apply (s : AnrTracker.t) (o : anr_op) : AnrTracker.t :=
  match o with
  | Insert t k => AnrTracker.insert s t k
  | Erase t k => AnrTracker.erase s t k
  | EraseToken k => AnrTracker.eraseToken s k
  | Clear => AnrTracker.clear s
  end.

(** what the operation means for the number of times that [x] is in the multiset *)
Definition anr_meaning (o : anr_op) (x : Z * Z) (n : nat) : nat :=
  match o with
  | Insert t k => if decide ((t, k) = x) then S n else n
  | Erase t k => if decide ((t, k) = x) then pred n else n
  | EraseToken k => if decide (x.2 = k) then 0%nat else n
  | Clear => 0%nat
  end.

Lemma anr_step s o : in_order s -> in_order (anr_apply s o) /\ forall x, multiplicity x (anr_apply s o) = anr_meaning o x (multiplicity x s).
Proof.
  intros Hs. destruct o as [t k|t k|k|]; simpl.
  - split; [by apply insert_in_order|]. intros x. unfold AnrTracker.insert. rewrite multiplicity_insert. by case_decide.
  - split; [eapply sublist_in_order; [apply erase_one_sublist|done]|]. intros x. unfold AnrTracker.erase. rewrite multiplicity_erase. case_decide; lia.
  - split; [eapply sublist_in_order; [apply sublist_filter|done]|]. intros x. apply multiplicity_erase_token.
  - split; [constructor|done].
Qed.

Lemma first_least s x : in_order s -> head s = Some x -> forall y, y ∈ s -> timeout_le x y.
Proof.
  intros Hs Hh y Hy. destruct s as [|z s]; [done|]. injection Hh as ->. inversion Hs as [|? ? _ Hz]; subst.
  apply elem_of_cons in Hy as [->|Hy]; [unfold timeout_le; lia|]. by eapply Forall_forall in Hz.
Qed.

(** Whatever is done to the tracker, it holds every pair of a timeout and a token as
    often as it was inserted and not erased; [erase] takes out one copy only, [eraseToken]
    all that belong to a connection. The first timeout and token are the least pair that
    it holds, and the largest time if it holds none. *)
Theorem tracker_is_multiset (ops : list anr_op) :
  let s := foldl anr_apply [] ops in
  (forall x, multiplicity x s = foldl (fun n o => anr_meaning o x n) 0%nat ops) /\
  match AnrTracker.firstToken s with
  | Some k => let x := (AnrTracker.firstTimeout s, k) in (0 < multiplicity x s)%nat /\ forall y, (0 < multiplicity y s)%nat -> timeout_le x y
  | None => AnrTracker.firstTimeout s = 9223372036854775807 /\ AnrTracker.empty s = true /\ forall y, multiplicity y s = 0%nat
  end.
Proof.
  assert (Hrun : forall s0, in_order s0 -> in_order (foldl anr_apply s0 ops) /\
    forall x, multiplicity x (foldl anr_apply s0 ops) = foldl (fun n o => anr_meaning o x n) (multiplicity x s0) ops).
  { induction ops as [|o ops IH]; intros s0 Hs; simpl; [done|]. destruct (anr_step s0 o Hs) as [Hs' Hm]. destruct (IH _ Hs') as [Hs'' Hm'].
    split; [done|]. intros x. by rewrite Hm', Hm. }
  destruct (Hrun [] ltac:(constructor)) as [Hs Hm]. simpl. split; [done|]. clear Hm Hrun. set (s := foldl anr_apply [] ops) in *.
  destruct s as [|[t k] s'] eqn:E; simpl; [done|]. split; [apply multiplicity_pos; set_solver|]. intros y Hy%multiplicity_pos. by eapply first_least.
Qed.

Import InputDispatcher.

Section Guarantees.
Context `{B32 : BitSet32.ops} `{B64 : BitSet64.ops}.

Lemma reachable_conn w a c : reachable w -> connections w !! a = Some c -> conn_ok c.
Proof. intros [[Hw _] _]%reachable_inv Hc. by apply (world_conn w Hw a). Qed.

(** what is known of a connection that works *)
Lemma reachable_normal w a c : reachable w -> connections w !! a = Some c -> Connection.status c = Connection.STATUS_NORMAL ->
  tracked_ok (Connection.inputState c) /\ observe_all stream_empty (history c) = Some (view (Connection.inputState c)).
Proof. intros Hr Hc Hst. pose proof (reachable_conn w a c Hr Hc) as Hok. unfold conn_ok in Hok. by rewrite Hst in Hok. Qed.

(** ** The stream of a connection *)

(** C7: in every reachable state, the motion events that were written to a channel follow
    the protocol: no touch is moved, ended or canceled before it has begun, no hover moved
    or left before it was entered. This holds whatever the sockets, the policy, the other
    threads and the applications do. As long as the connection works, the dispatcher's
    tracked state is what an observer of the written and the queued events has seen. *)
Theorem streams_consistent (w : t) (a : Z) (c : Connection.t) (Hr : reachable w) (Hc : connections w !! a = Some c) :
  is_Some (observe_all stream_empty (map message_view (Connection.channel c))) /\
  (Connection.status c = Connection.STATUS_NORMAL -> observe_all stream_empty (history c) = Some (view (Connection.inputState c))).
Proof.
  split; [by eapply conn_ok_sent, reachable_conn|]. intros Hst. by apply (reachable_normal w a).
Qed.

(** C39: the tracked state of a connection is well-formed in every reachable state: it has
    at most one memento of a device that touches, of a device that hovers and of a key, and
    every motion has a pointer; while the connection works, no pointer is marked as not
    yet announced. *)
Theorem tracked_state_well_formed (w : t) (a : Z) (c : Connection.t) (Hr : reachable w) (Hc : connections w !! a = Some c)
    (Hst : Connection.status c <> Connection.STATUS_ZOMBIE) :
  distinct (Connection.inputState c) /\ Forall (fun m => MotionMemento.pointers m <> []) (InputState.mMotionMementos (Connection.inputState c)) /\
  (Connection.status c = Connection.STATUS_NORMAL -> Forall (fun m => MotionMemento.firstNewPointerIdx m < 0) (InputState.mMotionMementos (Connection.inputState c))).
Proof.
  pose proof (reachable_conn w a c Hr Hc) as Hok. unfold conn_ok in Hok. destruct (Connection.status c); [|by destruct Hok as [[Hd Hp] _]|done].
  destruct Hok as [[Hd Hs] _]. split; [done|]. split; [|intros _]; (eapply Forall_impl; [exact Hs|]); by intros m [? ?].
Qed.

(** ** Cancelation *)

Lemma dispatch_loop_state fuel : forall d c currentTime send d' c', dispatch_loop fuel d c currentTime send = Some (d', c') ->
  Connection.inputState c' = Connection.inputState c.
Proof.
  induction fuel as [|fuel IH]; intros d c currentTime send d' c' E; simpl in E; [by injection E as <- <-|].
  case_bool_decide as Hst; simpl in E; [|by injection E as <- <-]. destruct (Connection.outboundQueue c) as [|x rest] eqn:Eq; [by injection E as <- <-|].
  destruct (dispatch_first d c currentTime _ x rest) as [[[b d1] c1]|] eqn:E1; simpl in E; [|done].
  assert (H1 : Connection.inputState c1 = Connection.inputState c).
  { destruct (dispatch_first_cases _ _ _ _ _ _ _ _ _ E1) as [(_ & (ch & _ & ->) & _)|[(_ & _ & _ & ->)|(_ & E2)]]; [done|done|].
    apply (f_equal snd) in E2. simpl in E2. rewrite E2. unfold abortBrokenDispatchCycleLocked. by case_bool_decide. }
  destruct b; [|by injection E as <- <-]. by rewrite (IH _ _ _ _ _ _ E).
Qed.


(** ** Transfer *)


End Guarantees.

(** ** On the small world *)

(** the connection of a channel in the small world *)
Definition connection_at (calls : list (env * call)) (a : Z) : Connection.t := default (Connection.new a channel1 false) (connections (world calls) !! a).

Lemma streams_consistent_witness :
  let c := connection_at touched_down 100 in
  length (Connection.channel c) = 1%nat /\ is_Some (observe_all stream_empty (map message_view (Connection.channel c))).
Proof. split; [vm_compute; reflexivity|]. apply (streams_consistent (world touched_down) 100); [apply touched_down_reachable|vm_compute; reflexivity]. Defined.

Lemma tracked_state_well_formed_witness :
  let s := Connection.inputState (connection_at touched_down 100) in
  length (InputState.mMotionMementos s) = 1%nat /\ distinct s.
Proof.
  split; [vm_compute; reflexivity|]. apply (tracked_state_well_formed (world touched_down) 100); [apply touched_down_reachable|vm_compute; reflexivity|vm_compute; discriminate].
Defined.



Lemma split_event_ends_witness :
  let e := motion TOUCHSCREEN (Z.lor AMOTION_EVENT_ACTION_POINTER_DOWN (Z.shiftl 1 AMOTION_EVENT_ACTION_POINTER_INDEX_SHIFT)) [finger 0; finger 1] in
  exists m, splitMotionEvent e 1073741824 9 = Some (Some m) /\ MotionEntry.pointers m = [finger 1] /\ MotionEntry.action m = AMOTION_EVENT_ACTION_DOWN.
Proof.
  intros e. destruct (split_event_ends e 1073741824 9) as (r & E & Hr); [vm_compute; reflexivity|]. rewrite E. vm_compute in E. injection E as <-.
  eexists. split; [reflexivity|]. split; [apply Hr|reflexivity].
Defined.

Lemma coords_refine_map_witness :
  let r := set_all PointerCoords.setAxisValue (PointerCoords.clear PointerCoords.empty) [(4, F32.one); (0, F32.of_Z 3); (64, F32.one); (4, F32.of_Z 2)] in
  r.1 = [OK; OK; NAME_NOT_FOUND; OK] /\ PointerCoords.getAxisValue r.2 4 = F32.of_Z 2 /\ PointerCoords.getAxisValue r.2 0 = F32.of_Z 3.
Proof.
  destruct (coords_refine_map PointerCoords.empty [(4, F32.one); (0, F32.of_Z 3); (64, F32.one); (4, F32.of_Z 2)]) as [Es Hget]; [reflexivity|].
  cbv zeta. rewrite Es, !Hget. repeat split; vm_compute; reflexivity.
Defined.
