(* ===== verification/InputInboundTheorems.v ===== *)
(** * What the whole input dispatcher guarantees

    The guarantees about the events from their arrival in the inbound queue to their
    dispatch, for every state that the calls of InputInboundSystem.v reach. *)

From Stdlib Require Import SpecFloat.
From S2P Require Import Prelude Geometry Region PointerCoords InputEvents InputState InputProtocol InputConnection InputStreams InputCancel InputTransfer InputOperations InputDispatcher InputTargets InputInbound InputTouch InputSystem InputSystemInvariant InputTouchInvariant InputStreamTheorems InputInboundSystem InputScenarios InputBehaviours InputGuarantees.

Import Inbound InboundSystem.

Section Guarantees.
Context `{B32 : BitSet32.ops} `{B64 : BitSet64.ops}.

(** ** Connections *)

(** C19: every call on the whole dispatcher is, for the connections, a sequence of calls of
    InputSystem.v, and so what holds of every state that those reach holds here. *)
Theorem calls_refine_connections (s s' : t) (Hr : InboundSystem.reachable s) (Hs : InboundSystem.step s s') :
  rtc InputSystem.step (world s) (world s') /\ InputSystem.reachable (world s').
Proof.
  destruct (inbound_reachable_ok s Hr) as [(w0 & H0 & H1) Hok]. destruct Hs as (V & x & Hl & E). destruct (call_ok _ _ _ _ Hl E Hok) as (H2 & _). split; [done|]. exists w0. split; [done|]. by etrans.
Qed.

(** ** The queue *)

(** C14: events are dispatched in the order in which they come in: those that wait are
    always the last ones that came, whatever was taken, dropped or put back. *)
Theorem events_taken_in_order (s0 s : t) (l : list Z) (H0 : InboundSystem.initial s0) (Hr : runs s0 l s) : waiting s `suffix_of` l.
Proof. destruct (initial_ok s0 H0) as [Hok Hw]. by destruct (runs_ok _ _ _ Hr Hok Hw). Qed.

(** C12: when the thread sleeps, nothing waits for it: unless dispatching is frozen or an
    event is pending, a thread that polls for longer than an instant and has not been woken
    up has an empty queue. *)
Theorem no_event_forgotten (s : t) (next : Z) (Hr : InboundSystem.reachable s) (Ht : thread s = Polling next) (Hn : LONG_LONG_MIN < next) (Ha : awake s = false)
    (Hf : mDispatchFrozen s = false) (Hp : mPendingEvent s = None) : mInboundQueue s = [].
Proof.
  destruct (inbound_reachable_ok s Hr) as [_ Hok]. destruct (ok_attended _ Hok) as [H|[H|[H|[H|H]]]]; [congruence|congruence|destruct H; congruence|done|]. rewrite Ht in H. lia.
Qed.

(** C13: an injector never waits for an event that is gone: as long as its result is
    pending, an event that it injected waits to be dispatched. *)
Theorem injectors_answered (s : t) (i : Z) (Hr : InboundSystem.reachable s) (Hi : undecided (world s) i) :
  exists a x, a ∈ line s /\ entries s !! a = Some x /\ injectionState (Entry.event x) = Some i.
Proof.
  destruct (inbound_reachable_ok s Hr) as [_ Hok]. destruct (ok_owed _ Hok i Hi) as (a & Ha & x & Hx & Hix). exists a, x. by apply list_elem_of_filter in Ha as [_ Ha].
Qed.

(** C18: the focus moves before later input is dispatched: focus events come first in the
    queue, and none waits behind an event that is pending. *)
Theorem focus_before_input (s : t) (Hr : InboundSystem.reachable s) :
  (exists F N, mInboundQueue s = F ++ N /\ Forall (fun a => focus_at (entries s) a = true) F /\ Forall (fun a => focus_at (entries s) a = false) N) /\
  forall p, mPendingEvent s = Some p -> Forall (fun a => focus_at (entries s) a = false) (p :: mInboundQueue s).
Proof. destruct (inbound_reachable_ok s Hr) as [_ Hok]. split; [by apply queue_focus, ok_queue|by apply queue_pending, ok_queue]. Qed.

(** A turn of the thread deals with one event, the first that waits: it is done with it
    and looks again at once, or the event stays pending, and then it is none of the focus. *)
Theorem turn_takes_first (s : t) (v : env) (perm : permissions) (s' : t) (a : Z) (l : list Z) (Hr : InboundSystem.reachable s) (Hl : legal s (fun _ _ => v) (Begin perm))
    (E : begin_turn s v perm = Some s') (Hc : haveCommandsLocked s = false) (Hf : mDispatchFrozen s = false) (Hline : line s = a :: l) :
  mInboundQueue s' = l /\
  ((mPendingEvent s' = None /\ exists ran, thread s' = Commands LONG_LONG_MIN ran) \/ (mPendingEvent s' = Some a /\ focus_at (entries s') a = false)).
Proof.
  destruct (inbound_reachable_ok s Hr) as [_ Hok]. destruct Hl as [(_ & _ & Hnew) (_ & Hrun & Hclones)]. unfold begin_turn in E. change (haveCommandsLocked (s <| awake := false |>)) with (haveCommandsLocked s) in E. rewrite Hc in E.
  destruct (dispatchOnceInnerLocked _ _ _ _) as [[s1 next]|] eqn:E1; [|done]. simplify_eq.
  destruct (inner_spec _ _ _ _ _ _ E1 Hrun (queue_valid _ (ok_queue _ Hok)) Hclones (Hnew 0%nat)) as (_ & _ & _ & Ht). unfold taken in Ht. simpl.
  assert (Hl' : line (s <| awake := false |>) = a :: l) by done.
  destruct Ht as [Hf' _ _|Hl0 _ _|b x [Hl1|(Hl1 & _)] Hp Hx Hfo|b [Hl1|(Hl1 & _)] Hp -> _]; [simpl in Hf'; congruence|congruence| |congruence| |congruence]; rewrite Hl' in Hl1; simplify_eq.
  - split; [done|]. right. split; [done|]. unfold focus_at. by rewrite Hx.
  - split; [done|]. left. split; [done|]. by eexists.
Qed.

(** ** Events that come in *)

(** the calls of the devices and of the applications, up to the wait for the result; [i] is
    the new injection state *)
Inductive incoming :=
  | NotifyKey (args : KeyEntry.t)
  | NotifyMotion (args : MotionEntry.t)
  | NotifyConfigurationChanged (eventTime : Z)
  | NotifyDeviceReset (eventTime deviceId : Z)
  | InjectInputEvent (i policyFlags : Z) (event : InputEvent).

(** what an injector knows at once, and the state *)
Definition comes_in (s : t) (p : policy) (perm : permissions) (v : env) (x : incoming) : option (option Z * t) :=
  match x with
  | NotifyKey args => pair None <$> notifyKey s p v args
  | NotifyMotion args => pair None <$> notifyMotion s p v args
  | NotifyConfigurationChanged eventTime => pair None <$> notifyConfigurationChanged s v eventTime
  | NotifyDeviceReset eventTime deviceId => pair None <$> notifyDeviceReset s v eventTime deviceId
  | InjectInputEvent i policyFlags event => injectInputEvent s p perm v i policyFlags event
  end.

(** the samples of an injected motion have the pointers of the event *)
Definition samples_fit (x : incoming) : Prop :=
  match x with
  | InjectInputEvent _ _ (MotionEvent m _ _ samples) => samples <> [] /\ Forall (fun sample => length sample.2 = length (MotionEntry.pointers m)) samples
  | _ => True
  end.

(** *** What is to be queued *)

(** the new events [xs], and no others, are at the end of the queue, in order; nothing else
    that waits is touched *)
Definition queued (s : t) (v : env) (xs : list Entry.t) (s' : t) : Prop :=
  mInboundQueue s' = mInboundQueue s ++ map (newAddress v) (seq 0 (length xs)) /\
  (forall k x, xs !! k = Some x -> entries s' !! newAddress v k = Some x) /\ (forall a x, entries s !! a = Some x -> entries s' !! a = Some x).

(** the key [k] is the one of [args], by the code that the shortcuts give it *)
Record key_of (s : t) (deviceId metaState : Z) (args k : KeyEntry.t) : Prop := {
  key_same : (KeyEntry.id k, KeyEntry.eventTime k, KeyEntry.source k, KeyEntry.displayId k, KeyEntry.action k, KeyEntry.scanCode k, KeyEntry.downTime k)
    = (KeyEntry.id args, KeyEntry.eventTime args, KeyEntry.source args, KeyEntry.displayId args, KeyEntry.action args, KeyEntry.scanCode args, KeyEntry.downTime args);
  key_device : KeyEntry.deviceId k = deviceId;
  key_code : (KeyEntry.keyCode k, KeyEntry.metaState k) = (accelerateMetaShortcuts s deviceId (KeyEntry.action args) (KeyEntry.keyCode args) metaState).1 }.

(** a key of a virtual button *)
Definition virtual_key (args : KeyEntry.t) : bool := has (KeyEntry.policyFlags args) POLICY_FLAG_VIRTUAL || has (KeyEntry.flags args) AKEY_EVENT_FLAG_VIRTUAL_HARD_KEY.

(** the flag, under a condition *)
Definition flag_if (b : bool) (flag flags : Z) : Z := if b then Z.lor flags flag else flags.

(** what the policy is told of an injected event: whether its injector may inject *)
Definition injected_flags (perm : permissions) (i policyFlags : Z) : Z :=
  flag_if (hasInjectionPermission perm (injectorPid perm i) (injectorUid perm i)) POLICY_FLAG_TRUSTED (Z.lor policyFlags POLICY_FLAG_INJECTED).

Definition key_action_ok (args : KeyEntry.t) : Prop := KeyEntry.action args = AKEY_EVENT_ACTION_DOWN \/ KeyEntry.action args = AKEY_EVENT_ACTION_UP.
Definition motion_valid (m : MotionEntry.t) : bool := validateMotionEvent (MotionEntry.action m) (MotionEntry.actionButton m) (MotionEntry.pointers m).

(** an event of a device is kept from the queue only by the input filter *)
Definition unless_filtered (s : t) (p : policy) (e : EventEntry) (policyFlags : Z) : list Entry.t :=
  if mInputFilterEnabled s && negb (filterInputEvent p e policyFlags) then [] else [Entry.of_event e].

(** the event of sample [k] of [n] *)
Definition sample_of (i : Z) (m : MotionEntry.t) (xOffset yOffset : float32) (policyFlags : Z) (k n : nat) (time : Z) (coords : list PointerCoords.t) (x : Entry.t) : Prop :=
  exists ps, x = Entry.of_event (Motion (m <| MotionEntry.eventTime := time |> <| MotionEntry.deviceId := VIRTUAL_KEYBOARD_ID |> <| MotionEntry.policyFlags := policyFlags |>
    <| MotionEntry.pointers := ps |> <| MotionEntry.injectionState := if decide (S k = n) then Some i else None |>)) /\
  map property ps = map property (MotionEntry.pointers m) /\
  map coord ps = map (fun c => if F32.eqb xOffset F32.zero && F32.eqb yOffset F32.zero then c else PointerCoords.applyOffset c xOffset yOffset) coords.

(** the events [xs] that a call is to queue, and what an injector knows at once *)
Definition arrival_of (s : t) (p : policy) (perm : permissions) (x : incoming) (xs : list Entry.t) (result : option Z) : Prop :=
  match x with
  | NotifyKey args => result = None /\
    ((~ key_action_ok args /\ xs = []) \/
     key_action_ok args /\ exists k,
       let raised := flag_if (virtual_key args) POLICY_FLAG_VIRTUAL (KeyEntry.policyFlags args) in let asked := Z.lor raised POLICY_FLAG_TRUSTED in
       key_of s (KeyEntry.deviceId args) (flag_if (has raised POLICY_FLAG_FUNCTION) AMETA_FUNCTION_ON (KeyEntry.metaState args)) args k /\
       KeyEntry.flags k = flag_if (virtual_key args) AKEY_EVENT_FLAG_VIRTUAL_HARD_KEY (KeyEntry.flags args) /\ KeyEntry.repeatCount k = 0 /\ KeyEntry.injectionState k = None /\
       KeyEntry.policyFlags k = flag_if (mInputFilterEnabled s) POLICY_FLAG_FILTERED (interceptKeyBeforeQueueing p (k <| KeyEntry.policyFlags := asked |>) asked) /\
       xs = unless_filtered s p (Key k) (KeyEntry.policyFlags k))
  | NotifyMotion args => result = None /\
    if motion_valid args then
      let told := interceptMotionBeforeQueueing p (MotionEntry.displayId args) (MotionEntry.eventTime args) (Z.lor (MotionEntry.policyFlags args) POLICY_FLAG_TRUSTED) in
      let m := args <| MotionEntry.policyFlags := flag_if (mInputFilterEnabled s) POLICY_FLAG_FILTERED told |> <| MotionEntry.injectionState := None |> in
      xs = unless_filtered s p (Motion m) (MotionEntry.policyFlags m)
    else xs = []
  | NotifyConfigurationChanged eventTime => result = None /\ xs = [Entry.new ConfigurationChanged eventTime 0]
  | NotifyDeviceReset eventTime deviceId => result = None /\ xs = [Entry.new (DeviceReset deviceId) eventTime 0]
  | InjectInputEvent i policyFlags (KeyEvent args) =>
    (~ key_action_ok args /\ xs = [] /\ result = Some INPUT_EVENT_INJECTION_FAILED) \/
    key_action_ok args /\ result = None /\ exists k,
      let asked := flag_if (has (KeyEntry.flags args) AKEY_EVENT_FLAG_VIRTUAL_HARD_KEY) POLICY_FLAG_VIRTUAL (injected_flags perm i policyFlags) in
      key_of s VIRTUAL_KEYBOARD_ID (KeyEntry.metaState args) args k /\
      KeyEntry.flags k = KeyEntry.flags args /\ KeyEntry.repeatCount k = KeyEntry.repeatCount args /\ KeyEntry.injectionState k = Some i /\
      KeyEntry.policyFlags k = (if has asked POLICY_FLAG_FILTERED then asked
        else interceptKeyBeforeQueueing p (k <| KeyEntry.policyFlags := asked |> <| KeyEntry.injectionState := None |>) asked) /\
      xs = [Entry.of_event (Key k)]
  | InjectInputEvent i policyFlags (MotionEvent m xOffset yOffset samples) =>
    if motion_valid m then
      result = None /\ length xs = length samples /\ exists newest, fst <$> last samples = Some newest /\
      let asked := injected_flags perm i policyFlags in
      let told := if has asked POLICY_FLAG_FILTERED then asked else interceptMotionBeforeQueueing p (MotionEntry.displayId m) newest asked in
      forall k time coords, samples !! k = Some (time, coords) -> exists x, xs !! k = Some x /\ sample_of i m xOffset yOffset told k (length samples) time coords x
    else xs = [] /\ result = Some INPUT_EVENT_INJECTION_FAILED
  | InjectInputEvent _ _ OtherEvent => xs = [] /\ result = Some INPUT_EVENT_INJECTION_FAILED
  end.

Lemma valid_same_ids a b ps qs : map property ps = map property qs -> validateMotionEvent a b ps = validateMotionEvent a b qs.
Proof.
  intros E. assert (Hlen : length ps = length qs) by (by rewrite <- (length_map property ps), E, length_map). unfold validateMotionEvent. rewrite Hlen. destruct (negb _); [done|]. destruct (_ || _); [done|].
  clear Hlen. generalize (@nil Z). revert qs E. induction ps as [|p ps IH]; intros [|q qs] E seen; try done. injection E as Ep E. cbn [valid_ids]. rewrite Ep. by rewrite (IH _ E).
Qed.

Lemma sample_arrives m xOffset yOffset policyFlags sample : validateMotionEvent (MotionEntry.action m) (MotionEntry.actionButton m) (MotionEntry.pointers m) = true ->
  length sample.2 = length (MotionEntry.pointers m) -> arrives (sample_entry m xOffset yOffset policyFlags sample).
Proof.
  intros Hv Hlen. split; [|done]. unfold valid_event, sample_entry. simpl. erewrite valid_same_ids; [exact Hv|]. revert Hlen. generalize sample.2, (MotionEntry.pointers m). clear.
  intros cs ps. revert cs. induction ps as [|p ps IH]; intros [|c cs] Hlen; try done. simpl. f_equal. apply IH. simpl in Hlen. lia.
Qed.

Lemma accelerate_same s deviceId action keyCode metaState : let s' := (accelerateMetaShortcuts s deviceId action keyCode metaState).2 in
  entries s' = entries s /\ mInboundQueue s' = mInboundQueue s /\ mInputFilterEnabled s' = mInputFilterEnabled s.
Proof. unfold accelerateMetaShortcuts. by repeat case_match. Qed.

Lemma key_action_spec args : reflect (key_action_ok args) (isValidKeyAction (KeyEntry.action args)).
Proof. unfold key_action_ok, isValidKeyAction. apply iff_reflect. rewrite orb_true_iff, !Z.eqb_eq. done. Qed.

(** the last event gets the injection state *)
Lemma mark_last_lookup i xs k x : xs !! k = Some x -> mark_last i xs !! k = Some (if decide (S k = length xs) then with_injection i x else x).
Proof.
  revert k; induction xs as [|y [|z xs] IH]; intros k Hk; [done| |].
  - destruct k as [|k]; [|done]. injection Hk as ->. done.
  - destruct k as [|k]; [by injection Hk as ->|]. cbn [mark_last]. cbn [lookup list_lookup]. etransitivity; [by apply IH|].
    do 2 f_equal. by destruct (decide (S k = length (z :: xs))), (decide (S (S k) = length (y :: z :: xs))); simpl in *; try lia.
Qed.

(** new objects hold the new events, and the others are as before *)
Lemma enqueue_new_entries v `{!Inj (=) (=) (newAddress v)} xs : forall s i s', enqueue_new s v i xs = Some s' -> fresh_from (newAddress v) i s ->
  (forall k x, xs !! k = Some x -> entries s' !! newAddress v (i + k)%nat = Some x) /\ (forall a x, entries s !! a = Some x -> entries s' !! a = Some x).
Proof.
  induction xs as [|y xs IH]; intros s i s' E Hf; cbn [enqueue_new] in E; [injection E as <-; done|].
  set (a := newAddress v i) in *. destruct (enqueueInboundEventLocked _ _ a y) as [[b s2]|] eqn:E1; [|done]. destruct (enqueue_spec _ _ _ _ _ _ E1) as (_ & _ & _ & He & _).
  set (s3 := if b then wake s2 else s2) in E. assert (He3 : entries s3 = <[a := y]> (entries s)) by (unfold s3; by destruct b).
  destruct (IH s3 (S i) s' E) as [Hnew Hold]; [by eapply fresh_next|]. split.
  - intros [|k] x Hk; [|rewrite <- plus_n_Sm; by apply Hnew]. injection Hk as ->. rewrite Nat.add_0_r. apply Hold. by rewrite He3, lookup_insert_eq.
  - intros a' x Hx. apply Hold. rewrite He3. rewrite lookup_insert_ne; [done|]. intros <-. unfold a in Hx. rewrite (Hf i) in Hx by lia. done.
Qed.

Section Calls.
Context (s : t) (v : env) (Hnew : new_addresses s (fun _ _ => v)).

Lemma accelerated deviceId action keyCode metaState code s1 : accelerateMetaShortcuts s deviceId action keyCode metaState = (code, s1) ->
  rtc InboundSystem.step s s1 /\ entries s1 = entries s /\ mInboundQueue s1 = mInboundQueue s /\ mInputFilterEnabled s1 = mInputFilterEnabled s.
Proof.
  intros E. destruct (accelerate_same s deviceId action keyCode metaState) as (He & Hq & Hi). rewrite E in *. split; [|done].
  apply rtc_once. exists (fun _ _ => v), (Accelerate deviceId action keyCode metaState). split; [done|]. simpl. by rewrite E.
Qed.

Lemma queued_none s1 : entries s1 = entries s -> mInboundQueue s1 = mInboundQueue s -> queued s v [] s1.
Proof. intros He Hq. split; [by rewrite Hq, app_nil_r|]. by rewrite He. Qed.

Lemma enqueue_steps s1 xs s' : rtc InboundSystem.step s s1 -> entries s1 = entries s -> mInboundQueue s1 = mInboundQueue s -> Forall arrives xs -> enqueue_new s1 v 0 xs = Some s' ->
  rtc InboundSystem.step s s' /\ queued s v xs s'.
Proof.
  intros Hs He Hq Hxs E. destruct Hnew as (_ & Hinj & Hf). assert (Hf1 : fresh_from (newAddress v) 0 s1) by (intros j _; rewrite He; apply Hf). split.
  - eapply rtc_r; [exact Hs|]. exists (fun _ _ => v), (Enqueue xs). split; [|done]. split; [|done]. split; [done|]. split; [done|]. intros i. rewrite He. apply Hf.
  - destruct (enqueue_new_spec v xs s1 0 s' E Hf1) as (Hq' & _); [eapply Forall_impl; [exact Hxs|]; by intros x [? _]|].
    destruct (enqueue_new_entries v xs s1 0 s' E Hf1) as [Hn Ho]. rewrite He in Ho. split; [by rewrite Hq', Hq|done].
Qed.

Lemma inject_steps s1 i xs s' : rtc InboundSystem.step s s1 -> entries s1 = entries s -> mInboundQueue s1 = mInboundQueue s -> Forall arrives xs -> xs <> [] -> Forall injectable xs ->
  inject_entries s1 v i xs = Some s' -> rtc InboundSystem.step s s' /\ queued s v (mark_last i xs) s'.
Proof.
  intros Hs He Hq Hxs Hne Hk E. destruct Hnew as (_ & Hinj & Hf). split.
  - eapply rtc_r; [exact Hs|]. exists (fun _ _ => v), (Inject i xs). split; [|done]. split; [|done]. split; [done|]. split; [done|]. intros j. rewrite He. apply Hf.
  - unfold inject_entries in E. set (s2 := on_shared _ s1) in E. assert (Hf2 : fresh_from (newAddress v) 0 s2) by (intros j _; simpl; rewrite He; apply Hf).
    destruct (enqueue_new_spec v _ s2 0 s' E Hf2) as (Hq' & _); [by apply mark_last_valid|]. destruct (enqueue_new_entries v _ s2 0 s' E Hf2) as [Hn Ho].
    change (entries s2) with (entries s1) in Ho. rewrite He in Ho. split; [by rewrite Hq', <- Hq|done].
Qed.

Lemma key_comes_in p perm args s' : notifyKey s p v args = Some s' ->
  rtc InboundSystem.step s s' /\ exists xs, queued s v xs s' /\ arrival_of s p perm (NotifyKey args) xs None.
Proof.
  unfold notifyKey. destruct (key_action_spec args) as [Hk|Hk]; cbn [negb]; [|intros [= <-]; split; [done|]; exists []; split; [by apply queued_none|]; split; [done|by left]].
  cbv zeta. destruct (accelerateMetaShortcuts _ _ _ _ _) as [[keyCode metaState] s1] eqn:Ea. destruct (accelerated _ _ _ _ _ _ Ea) as (Hs & He & Hq & Hf). rewrite Hf. intros E.
  match type of E with context [enqueue_new s1 v 0 [Entry.of_event (Key ?key)]] => set (k := key) in * end.
  match type of E with context [if ?b then Some s1 else _] => destruct b eqn:Ef;
    assert (unless_filtered s p (Key k) (KeyEntry.policyFlags k) = if b then [] else [Entry.of_event (Key k)]) as Hu by reflexivity; rewrite Ef in Hu end.
  - injection E as <-. split; [done|]. exists []. split; [by apply queued_none|]. split; [done|]. right. split; [done|]. exists k. split; [split; [done|done|exact (eq_sym (f_equal fst Ea))]|done].
  - destruct (enqueue_steps s1 [Entry.of_event (Key k)] s' Hs He Hq ltac:(by repeat constructor) E) as [Hst Hx]. split; [done|]. eexists. split; [exact Hx|].
    split; [done|]. right. split; [done|]. exists k. split; [split; [done|done|exact (eq_sym (f_equal fst Ea))]|done].
Qed.

Lemma motion_comes_in p perm args s' : notifyMotion s p v args = Some s' ->
  rtc InboundSystem.step s s' /\ exists xs, queued s v xs s' /\ arrival_of s p perm (NotifyMotion args) xs None.
Proof.
  unfold notifyMotion. cbn [arrival_of]. unfold motion_valid. destruct (validateMotionEvent _ _ _) eqn:Hv; cbn [negb]; [|intros [= <-]; split; [done|]; exists []; split; [by apply queued_none|done]].
  cbv zeta. intros E. match type of E with context [enqueue_new s v 0 [Entry.of_event (Motion ?motion)]] => set (m := motion) in * end.
  assert (Hm : Forall arrives [Entry.of_event (Motion m)]) by (repeat constructor; exact Hv).
  match type of E with context [if ?b then Some s else _] => destruct b eqn:Ef;
    assert (unless_filtered s p (Motion m) (MotionEntry.policyFlags m) = if b then [] else [Entry.of_event (Motion m)]) as Hu by reflexivity; rewrite Ef in Hu end.
  - injection E as <-. split; [done|]. exists []. split; [by apply queued_none|done].
  - destruct (enqueue_steps s [Entry.of_event (Motion m)] s' (rtc_refl _ _) eq_refl eq_refl Hm E) as [Hst Hx]. split; [done|]. eexists. split; [exact Hx|done].
Qed.

Lemma injected_key_comes_in p perm i policyFlags k result s' : injectInputEvent s p perm v i policyFlags (KeyEvent k) = Some (result, s') ->
  rtc InboundSystem.step s s' /\ exists xs, queued s v xs s' /\ arrival_of s p perm (InjectInputEvent i policyFlags (KeyEvent k)) xs result.
Proof.
  unfold injectInputEvent, inject_key. destruct (key_action_spec k) as [Hk|Hk]; cbn [negb]; [|intros [= <- <-]; split; [done|]; exists []; split; [by apply queued_none|by left]].
  destruct (accelerateMetaShortcuts _ _ _ _ _) as [[keyCode metaState] s1] eqn:Ea. destruct (accelerated _ _ _ _ _ _ Ea) as (Hs & He & Hq & _). cbv zeta. intros E.
  match type of E with context [inject_entries s1 v i [Entry.of_event (Key ?key)]] => set (k' := key) in * end.
  destruct (inject_entries _ _ _ _) as [s2|] eqn:Ei; cbn [mbind option_bind] in E; [|done]. injection E as <- <-.
  destruct (inject_steps s1 i [Entry.of_event (Key k')] s2 Hs He Hq) as [Hst Hx]; [by repeat constructor|done|by repeat constructor|exact Ei|]. split; [done|]. eexists. split; [exact Hx|].
  right. split; [done|]. split; [done|]. exists (k' <| KeyEntry.injectionState := Some i |>). split; [split; [done|done|exact (eq_sym (f_equal fst Ea))]|]. done.
Qed.

Lemma sample_of_entry i m xOffset yOffset policyFlags k n time coords : length coords = length (MotionEntry.pointers m) ->
  let x := sample_entry m xOffset yOffset policyFlags (time, coords) in
  sample_of i m xOffset yOffset policyFlags k n time coords (if decide (S k = n) then with_injection i x else x).
Proof.
  intros Hlen x. set (move := fun c => if F32.eqb xOffset F32.zero && F32.eqb yOffset F32.zero then c else PointerCoords.applyOffset c xOffset yOffset).
  exists (zip_with (fun p c => touch (property p) (move c)) (MotionEntry.pointers m) coords). split_and!.
  - unfold x, sample_entry, move. simpl. replace (negb (F32.eqb xOffset F32.zero) || negb (F32.eqb yOffset F32.zero)) with (negb (F32.eqb xOffset F32.zero && F32.eqb yOffset F32.zero)) by apply negb_andb.
    destruct (_ && _); by case_decide.
  - revert Hlen. generalize (MotionEntry.pointers m). clear. induction coords as [|c cs IH]; intros [|p ps] Hlen; try done. simpl. by rewrite IH by (simpl in Hlen; lia).
  - change (map _ coords) with (map move coords). revert Hlen. generalize (MotionEntry.pointers m). clearbody move. clear. induction coords as [|c cs IH]; intros [|p ps] Hlen; try done. simpl. by rewrite IH by (simpl in Hlen; lia).
Qed.

Lemma injected_motion_comes_in p perm i policyFlags m xOffset yOffset samples result s' : samples_fit (InjectInputEvent i policyFlags (MotionEvent m xOffset yOffset samples)) ->
  injectInputEvent s p perm v i policyFlags (MotionEvent m xOffset yOffset samples) = Some (result, s') ->
  rtc InboundSystem.step s s' /\ exists xs, queued s v xs s' /\ arrival_of s p perm (InjectInputEvent i policyFlags (MotionEvent m xOffset yOffset samples)) xs result.
Proof.
  intros [Hne Hlen]. unfold injectInputEvent, inject_motion. cbn [arrival_of]. unfold motion_valid. destruct (validateMotionEvent _ _ _) eqn:Hv; cbn [negb]; [|intros [= <- <-]; split; [done|]; exists []; split; [by apply queued_none|done]].
  unfold last_time. destruct (fst <$> last samples) as [newest|]; cbn [mbind option_bind]; [|done]. cbv zeta. fold (flag_if (hasInjectionPermission perm (injectorPid perm i) (injectorUid perm i)) POLICY_FLAG_TRUSTED (Z.lor policyFlags POLICY_FLAG_INJECTED)).
  fold (injected_flags perm i policyFlags). set (told := if has _ _ then _ else _). destruct (inject_entries _ _ _ _) as [s2|] eqn:Ei; cbn [mbind option_bind]; [|done]. intros [= <- <-].
  edestruct (inject_steps s i) as [Hst Hx]; [apply rtc_refl|done|done| | | |exact Ei|].
  - apply Forall_map. eapply Forall_impl; [exact Hlen|]. intros sample Hs. by apply sample_arrives.
  - by destruct samples.
  - by apply Forall_map, Forall_true.
  - split; [done|]. eexists. split; [exact Hx|]. split; [done|]. split; [by rewrite mark_last_length, length_map|]. exists newest. split; [done|]. intros k time coords Hk.
    rewrite Forall_forall in Hlen. pose proof (Hlen _ (list_elem_of_lookup_2 _ _ _ Hk)) as Hl. simpl in Hl.
    eexists. split; [apply mark_last_lookup; change (map ?f samples) with (f <$> samples); by rewrite list_lookup_fmap, Hk|]. rewrite length_map. by apply sample_of_entry.
Qed.

(** C37: whatever the devices notify and the applications inject is a sequence of calls of
    the system, and it puts exactly these events at the end of the queue, in order, and
    leaves the others as they are. A key that neither goes down nor up and a motion that is
    not valid are refused. A key or motion of a device is queued as one event, unless the
    input filter takes it: with its fields, keys under the code of the shortcut, and the
    flags that the policy gave it. Of an injected key one event is queued, of an injected
    motion one for each sample, with its time and its coordinates moved by the offset, the
    properties of the pointers, and the virtual keyboard as device; only the last one
    carries the injection state. (A call ends unless the window search that a first touch
    needs does not, see [window_search_ends], or a coordinate it reads is no [int32_t].) *)
Theorem what_comes_in_is_queued p perm x result s' : samples_fit x -> comes_in s p perm v x = Some (result, s') ->
  rtc InboundSystem.step s s' /\ exists xs, queued s v xs s' /\ arrival_of s p perm x xs result.
Proof.
  intros Hfit. destruct x as [args|args|eventTime|eventTime deviceId|i policyFlags [k|m xOffset yOffset samples|]]; cbn [comes_in].
  - destruct (notifyKey s p v args) as [s1|] eqn:E; simpl; [|done]. intros [= <- <-]. exact (key_comes_in p perm args s1 E).
  - destruct (notifyMotion s p v args) as [s1|] eqn:E; simpl; [|done]. intros [= <- <-]. exact (motion_comes_in p perm args s1 E).
  - destruct (notifyConfigurationChanged s v eventTime) as [s1|] eqn:E; simpl; [|done]. intros [= <- <-]. edestruct enqueue_steps as [H1 H2]; [..|exact E|]; [done|done|done|by repeat constructor|]. eauto.
  - destruct (notifyDeviceReset s v eventTime deviceId) as [s1|] eqn:E; simpl; [|done]. intros [= <- <-]. edestruct enqueue_steps as [H1 H2]; [..|exact E|]; [done|done|done|by repeat constructor|]. eauto.
  - apply injected_key_comes_in.
  - by apply injected_motion_comes_in.
  - intros [= <- <-]. split; [done|]. exists []. split; [by apply queued_none|done].
Qed.

End Calls.

(** ** Dropped events *)

(** nothing that the options select is under way *)
Definition silent (options : CancelationOptions.t) (c : Connection.t) : Prop :=
  Forall (fun m => InputState.shouldCancelKey m options = false) (InputState.mKeyMementos (Connection.inputState c)) /\
  Forall (fun m => InputState.shouldCancelMotion m options = false) (InputState.mMotionMementos (Connection.inputState c)).

Definition silent_if_normal (options : CancelationOptions.t) (c : Connection.t) : Prop := Connection.status c = Connection.STATUS_NORMAL -> silent options c.

Lemma none_selected {A} (f : A -> bool) (l : list A) : filter (fun x => f x = true) l = [] -> Forall (fun x => f x = false) l.
Proof. induction l as [|x l IH]; [constructor|]. rewrite filter_cons. case_decide as Hx; [done|]. intros H. constructor; [by destruct (f x)|by apply IH]. Qed.

Lemma cancel_silent d c currentTime options nextId new send d' c' : synthesizeCancelationEventsForConnectionLocked d c currentTime options nextId new send = Some (d', c') ->
  conn_ok c -> Connection.status c <> Connection.STATUS_ZOMBIE -> silent_if_normal options c'.
Proof.
  unfold synthesizeCancelationEventsForConnectionLocked. intros E Hok Hz Hst'. case_bool_decide as Hb; [simplify_eq; congruence|].
  assert (Hd : distinct (Connection.inputState c)) by (unfold conn_ok in Hok; destruct (Connection.status c); [by destruct Hok as [[? _] _]|done|done]).
  destruct (enqueue_cancelation d (Connection.token c) currentTime options nextId d c new Hd) as (d1 & s1 & xs & E1 & _ & Hk & Hm). unfold silent.
  destruct (InputState.synthesizeCancelationEvents _ _ _ _) as [|e es] eqn:Ees.
  - simplify_eq. unfold InputState.synthesizeCancelationEvents in Ees. apply app_eq_nil in Ees as [Ek Em]. apply (f_equal length) in Ek, Em. rewrite length_imap in Ek. rewrite length_imap in Em. split; apply none_selected, length_zero_iff_nil; done.
  - rewrite E1 in E. cbn [mbind option_bind fst snd] in E. apply dispatch_loop_state in E as ->. simpl. rewrite Hk, Hm. split; apply Forall_forall; by intros m [Hf _]%list_elem_of_filter.
Qed.

(** canceling in all connections leaves none of the selected streams open *)
Lemma cancel_connections_silent v options l : forall w w', InputDispatcher.cancel_connections w v options l = Some w' -> inv w -> (forall a, a ∈ l -> a ∈ map snd (InputDispatcher.mConnectionsByFd w)) ->
  InputDispatcher.mConnectionsByFd w' = InputDispatcher.mConnectionsByFd w /\
  forall a c', InputDispatcher.connections w' !! a = Some c' -> a ∈ l \/ (exists c, InputDispatcher.connections w !! a = Some c /\ silent_if_normal options c) -> silent_if_normal options c'.
Proof.
  induction l as [|b l IH]; intros w w' E Hi Hl; simpl in E.
  { simplify_eq. split; [done|]. intros a c' Hc' [Ha|(c & Hc & Hs)]; [by apply elem_of_nil in Ha|by simplify_eq]. }
  destruct (InputDispatcher.cancel_connection w v options b) as [w1|] eqn:E1; simpl in E; [|done]. destruct (cancel_connection_inv _ _ _ _ _ E1 Hi) as (Hi1 & _ & Hfd).
  destruct (IH _ _ E Hi1) as [Hfd' Hs]; [intros a Ha; rewrite Hfd; apply Hl; set_solver|]. split; [congruence|]. intros a c' Hc' Ha. apply (Hs a c' Hc').
  unfold InputDispatcher.cancel_connection, InputDispatcher.on_connection in E1. destruct (world_registered w (proj1 Hi) b) as (cb & Hb & Hz); [apply Hl; set_solver|]. rewrite Hb in E1. simpl in E1.
  destruct (synthesizeCancelationEventsForConnectionLocked _ _ _ _ _ _ _) as [[d1 c1]|] eqn:Ec; simpl in E1; [|done]. simplify_eq. simpl.
  assert (Hc1 : silent_if_normal options c1) by (eapply cancel_silent; [exact Ec|by eapply (world_conn w (proj1 Hi) b)|done]).
  destruct (decide (a = b)) as [->|Hab]; [right; exists c1; by rewrite lookup_insert_eq|]. destruct Ha as [Ha|(c & Hc & Hs')]; [left; set_solver|]. right. exists c. by rewrite lookup_insert_ne.
Qed.

Lemma cancel_all_silent v options s s' : cancel_all v options s = Some s' -> inv (world s) ->
  forall a c, a ∈ map snd (InputDispatcher.mConnectionsByFd (world s')) -> InputDispatcher.connections (world s') !! a = Some c -> silent_if_normal options c.
Proof.
  unfold cancel_all, on_world, InputDispatcher.synthesizeCancelationEventsForAllConnectionsLocked. intros E Hi. destruct (InputDispatcher.cancel_connections _ _ _ _) as [w|] eqn:Ew; simpl in E; [|done]. simplify_eq. simpl.
  destruct (cancel_connections_silent _ _ _ _ _ Ew Hi) as [Hfd Hs]; [done|]. intros a c Ha Hc. rewrite Hfd in Ha. apply (Hs a c Hc). by left.
Qed.

(** the event at [a] is not what later events wait behind *)
Definition unblocked (a : Z) (s : t) : t := if bool_decide (mNextUnblockedEvent s = Some a) then s <| mNextUnblockedEvent := None |> else s.

Lemma drop_reason_same s s' currentTime x due : mDispatchEnabled s' = mDispatchEnabled s -> mNextUnblockedEvent s' = mNextUnblockedEvent s -> drop_reason s' currentTime x due = drop_reason s currentTime x due.
Proof. unfold drop_reason. by intros -> ->. Qed.

(** the first event is taken, if there is one *)
Lemma take_first s v due next a l o due' s' next' : take_event s v due next = Some (o, due', s', next') -> line s = a :: l ->
  o = Some a /\ due' = due /\ poked (world s) (world s') /\ mPendingEvent s' = Some a /\ entries s' = entries s /\ mInboundQueue s' = l /\
  mDispatchEnabled s' = mDispatchEnabled s /\ mNextUnblockedEvent s' = mNextUnblockedEvent s.
Proof.
  unfold take_event, line. intros E Hl. destruct (mPendingEvent s) as [p|] eqn:Ep; simpl in Hl; [simplify_eq; split_and!; try done; apply poked_refl|].
  rewrite Hl in E. destruct (begin_event a _) as [s1|] eqn:E1; cbn [mbind option_bind] in E; [|done]. simplify_eq. destruct (begin_event_spec _ _ _ E1) as (Hw & Hp & He & Hq & Hd & _ & Hu & _). by split_and!.
Qed.

Lemma dropped_motion s v perm a m dropReason next b r s' next' : dispatchMotionLocked s v perm a m dropReason next = Some (b, r, s', next') -> dropReason <> NOT_DROPPED ->
  b = true /\ r = dropReason /\ (exists d, world s' = (world s) <| InputDispatcher.shared := d |>) /\ mPendingEvent s' = mPendingEvent s /\ mInboundQueue s' = mInboundQueue s.
Proof.
  unfold dispatchMotionLocked, InputTargets.dispatchMotionLocked. intros E Hr. rewrite bool_decide_false in E by done. simpl in E. simplify_eq. split_and!; try done. by eexists.
Qed.

Lemma release_connections s : InputDispatcher.mConnectionsByFd (world (releasePendingEventLocked s)) = InputDispatcher.mConnectionsByFd (world s) /\
  InputDispatcher.connections (world (releasePendingEventLocked s)) = InputDispatcher.connections (world s).
Proof.
  unfold releasePendingEventLocked. destruct (mPendingEvent s) as [a|]; [|done]. change (world ((releaseInboundEventLocked a s) <| mPendingEvent := None |>)) with (world (releaseInboundEventLocked a s)). rewrite release_world. by destruct (at_address s a).
Qed.

(** C15: when a motion event is dropped, what it would have continued or ended is canceled:
    the event leaves the queue, and no connection that works is left with a stream of motions
    of its kind, pointers or others, that has begun and not ended. *)
Theorem dropped_motion_ends_streams (s : t) (v : env) (perm : permissions) (s' : t) (a : Z) (l : list Z) (x : Entry.t) (m : MotionEntry.t) (Hr : InboundSystem.reachable s)
    (E : begin_turn s v perm = Some s') (Hc : haveCommandsLocked s = false) (Hf : mDispatchFrozen s = false) (Hline : line s = a :: l) (Hx : entries s !! a = Some x) (Hm : Entry.event x = Motion m)
    (Hdrop : drop_reason (unblocked a s) (now v) x (mAppSwitchDueTime s <=? now v) <> NOT_DROPPED) :
  mPendingEvent s' = None /\ mInboundQueue s' = l /\
  forall b c, b ∈ map snd (InputDispatcher.mConnectionsByFd (world s')) -> InputDispatcher.connections (world s') !! b = Some c -> Connection.status c = Connection.STATUS_NORMAL ->
    Forall (fun k => has (MotionMemento.source k) AINPUT_SOURCE_CLASS_POINTER <> has (MotionEntry.source m) AINPUT_SOURCE_CLASS_POINTER) (InputState.mMotionMementos (Connection.inputState c)).
Proof.
  destruct (inbound_reachable_ok s Hr) as [_ Hok]. unfold begin_turn in E. change (haveCommandsLocked (s <| awake := false |>)) with (haveCommandsLocked s) in E. rewrite Hc in E.
  destruct (dispatchOnceInnerLocked _ _ _ _) as [[s1 next]|] eqn:E1; [|done]. simplify_eq. simpl. unfold dispatchOnceInnerLocked in E1.
  set (s0 := if mDispatchEnabled (s <| awake := false |>) then _ else _) in E1. assert (H0 : world s0 = world s /\ entries s0 = entries s /\ mDispatchFrozen s0 = false /\ line s0 = a :: l /\
    mDispatchEnabled s0 = mDispatchEnabled s /\ mNextUnblockedEvent s0 = mNextUnblockedEvent s /\ mAppSwitchDueTime s0 = mAppSwitchDueTime s) by (unfold s0; cbn [mDispatchEnabled with_field set_awake]; destruct (mDispatchEnabled s) eqn:En; split_and!; done).
  destruct H0 as (Hw0 & He0 & Hf0 & Hl0 & Hd0 & Hu0 & Ha0). clearbody s0. rewrite Hf0, Ha0 in E1. destruct (take_event s0 v _ _) as [[[[o due] s2] n2]|] eqn:Et; [|done].
  destruct (take_first _ _ _ _ _ _ _ _ _ _ Et Hl0) as (-> & -> & (d2 & Hw2 & _) & Hp2 & He2 & Hq2 & Hd2 & Hu2). unfold at_address in E1. rewrite He2, He0, Hx in E1. cbn [mbind option_bind] in E1. fold (unblocked a s2) in E1.
  assert (Hs2 : world (unblocked a s2) = world s2 /\ mPendingEvent (unblocked a s2) = Some a /\ mInboundQueue (unblocked a s2) = l /\ mDispatchEnabled (unblocked a s2) = mDispatchEnabled (unblocked a s) /\
    mNextUnblockedEvent (unblocked a s2) = mNextUnblockedEvent (unblocked a s)) by (unfold unblocked; rewrite Hu2, Hu0; case_bool_decide; simpl; split_and!; congruence).
  destruct Hs2 as (Hw3 & Hp3 & Hq3 & Hd3 & Hu3). unfold dispatch_event in E1. rewrite Hm, (drop_reason_same _ _ _ _ _ Hd3 Hu3) in E1.
  destruct (dispatchMotionLocked _ _ _ _ _ _ _) as [[[[b r] s3] n3]|] eqn:Ed; [|done]. destruct (dropped_motion _ _ _ _ _ _ _ _ _ _ _ Ed Hdrop) as (-> & -> & (d3 & Hw4) & Hp4 & Hq4).
  rewrite bool_decide_false in E1 by done. destruct (dropInboundEventLocked _ _ _ _) as [s4|] eqn:E4; cbn [mbind option_bind] in E1; [|done]. injection E1 as <- <-.
  assert (Hi : inv (world s3)) by (apply (inv_same (world s)); [by apply ok_inv|rewrite Hw4, Hw3, Hw2, Hw0; done..]).
  assert (H4 : exists options, cancel_all v options s3 = Some s4 /\ forall k, InputState.shouldCancelMotion k options = false ->
    has (MotionMemento.source k) AINPUT_SOURCE_CLASS_POINTER <> has (MotionEntry.source m) AINPUT_SOURCE_CLASS_POINTER).
  { unfold dropInboundEventLocked in E4. destruct (drop_reason _ _ _ _); [done|..]; (eexists; split; [exact E4|]; intros k; unfold InputState.shouldCancelMotion; simpl;
      destruct (has (MotionEntry.source m) AINPUT_SOURCE_CLASS_POINTER), (has (MotionMemento.source k) AINPUT_SOURCE_CLASS_POINTER); done). }
  destruct H4 as (options & E5 & Hopt). destruct (keeps_cancel_all _ _ _ _ E5) as [_ (w4 & Hs4)].
  assert (Hq5 : mPendingEvent s4 = Some a /\ mInboundQueue s4 = l) by (rewrite Hs4; simpl; split; congruence). destruct (release_pending_spec s4) as (P1 & P2 & _). split; [done|]. split; [rewrite P2; by apply Hq5|].
  intros b c Hb Hcc Hst. pose proof (release_connections s4) as [Rf Rc]. rewrite Rf in Hb. rewrite Rc in Hcc. destruct (cancel_all_silent _ _ _ _ E5 Hi b c Hb Hcc Hst) as [_ Hmm]. eapply Forall_impl; [exact Hmm|]. exact Hopt.
Qed.

End Guarantees.

(** ** Runs *)

(** every address is below, and those of a call are above *)
Definition below_all (s : t) (base : Z) : bool := forallb (fun ax => ax.1 <? base) (map_to_list (entries s)).

Lemma below_all_fresh s base : below_all s base = true -> forall i, entries s !! (base + Z.of_nat i) = None.
Proof.
  unfold below_all. rewrite forallb_forall. intros H i. destruct (entries s !! _) as [x|] eqn:Ex; [|done]. apply elem_of_map_to_list, list_elem_of_In, H in Ex. simpl in Ex. bool_to_prop. lia.
Qed.

(** the time [n], and addresses from [base] on *)
Definition at_base (n base : Z) : env := environment (at_time n) (fun i => base + Z.of_nat i) (fun i => 9000 + Z.of_nat i).

Lemma at_base_new s n base : below_all s base = true -> new_addresses s (fun _ _ => at_base n base).
Proof. intros H. split; [done|]. split; [intros i j Hij; simpl in Hij; lia|]. by apply below_all_fresh. Qed.

Definition is_none {A} (o : option A) : bool := match o with None => true | Some _ => false end.
Definition arrivesb (x : Entry.t) : bool :=
  match Entry.event x with Motion m => validateMotionEvent (MotionEntry.action m) (MotionEntry.actionButton m) (MotionEntry.pointers m) | _ => true end &&
  is_none (injectionState (Entry.event x)) && negb (Entry.dispatchInProgress x).
Definition injectableb (x : Entry.t) : bool := match Entry.event x with Key _ | Motion _ => true | _ => false end.
Definition is_pollingb (s : t) : bool := match thread s with Polling _ => true | Commands _ _ => false end.

(** enough for [legal]; touches are not transferred in these runs *)
Definition legalb (s : t) (base : Z) (x : InboundSystem.call) : bool :=
  let idle := is_none (InputDispatcher.running (world s)) in
  below_all s base &&
  match x with
  | Begin _ => is_pollingb s && idle && no_clonesb (world s)
  | RunCommand => negb (is_pollingb s) && idle
  | End => idle && negb (haveCommandsLocked s)
  | Signals _ _ => is_pollingb s && idle
  | Enqueue xs => forallb arrivesb xs
  | Inject _ xs => forallb arrivesb xs && negb (is_none (head xs)) && forallb injectableb xs
  | Transfer _ _ => false
  | Register a _ | RegisterMonitor a _ _ _ => is_none (InputDispatcher.connections (world s) !! a)
  | _ => true
  end.

Lemma is_none_true {A} (o : option A) : is_none o = true -> o = None.
Proof. by destruct o. Qed.

Lemma arrivesb_true xs : forallb arrivesb xs = true -> Forall arrives xs.
Proof.
  intros H. apply Forall_forall. intros x Hx%list_elem_of_In. rewrite forallb_forall in H. specialize (H x Hx). unfold arrivesb in H. rewrite !andb_true_iff in H. destruct H as [[Hv Hi] Hd].
  split; [unfold valid_event; by destruct (Entry.event x)|]. split; [by apply is_none_true|by destruct (Entry.dispatchInProgress x)].
Qed.

Lemma legalb_legal s n base x : legalb s base x = true -> legal s (fun _ _ => at_base n base) x.
Proof.
  unfold legalb. intros H. apply andb_true_iff in H as [Hb H]. split; [by apply at_base_new|].
  assert (Hp : is_pollingb s = true <-> is_polling s) by (unfold is_pollingb, is_polling; by destruct (thread s)).
  destruct x; try done; rewrite ?andb_true_iff, ?negb_true_iff in H.
  - destruct H as [[H1 H2] H3]. split; [by apply Hp|]. split; [by apply is_none_true|by apply no_clonesb_sound].
  - destruct H as [H1 H2]. split; [|by apply is_none_true]. intros Hpo%Hp. congruence.
  - destruct H as [H1 H2]. split; [by apply is_none_true|done].
  - destruct H as [H1 H2]. split; [by apply Hp|by apply is_none_true].
  - by apply arrivesb_true.
  - destruct H as [[H1 H2] H3]. split; [by apply arrivesb_true|]. split; [by destruct xs|]. apply Forall_forall. intros y Hy%list_elem_of_In. rewrite forallb_forall in H3. specialize (H3 y Hy).
    unfold injectable. unfold injectableb in H3. by destruct (Entry.event y).
  - by apply is_none_true.
  - by apply is_none_true.
Qed.

Definition calls := list (Z * Z * InboundSystem.call).

(** the state after legal calls, and the events that came in *)
Fixpoint trace (s : t) (arrived : list Z) (l : calls) : option (t * list Z) :=
  match l with
  | [] => Some (s, arrived)
  | (n, base, x) :: rest =>
    let V := fun _ _ => at_base n base in
    if legalb s base x then s' ← InboundSystem.perform s V x; trace s' (arrived ++ arrivals s V x) rest else None
  end.

Lemma trace_runs s0 l : forall s arrived r, trace s arrived l = Some r -> runs s0 arrived s -> rtc InboundSystem.step s0 s -> runs s0 r.2 r.1 /\ rtc InboundSystem.step s0 r.1.
Proof.
  induction l as [|[[n base] x] l IH]; intros s arrived r E Hr Hs; cbn [trace] in E; [by simplify_eq|]. destruct (legalb s base x) eqn:El; [|done]. apply (legalb_legal s n) in El.
  destruct (InboundSystem.perform _ _ _) as [s'|] eqn:Ex; cbn [mbind option_bind] in E; [|done]. eapply IH; [exact E|by econstructor|]. eapply rtc_r; [exact Hs|]. by exists (fun _ _ => at_base n base), x.
Qed.

(** what the system starts with *)
Definition start_in (w : InputDispatcher.t) : t :=
  mk w ∅ [] None [] None 0 false LONG_LONG_MAX None true false false ∅ 500000000 50000000 (Polling LONG_LONG_MIN) false.
Definition start : t := start_in w0.

Lemma start_initial : InboundSystem.initial start.
Proof. split; [apply w0_initial|done]. Qed.

Definition after (l : calls) : t * list Z := default (start, []) (trace start [] l).

Lemma after_runs l : runs start (after l).2 (after l).1 /\ InboundSystem.reachable (after l).1.
Proof.
  unfold after. destruct (trace start [] l) as [r|] eqn:E; simpl.
  - destruct (trace_runs start l _ _ _ E) as [Hr Hs]; [constructor|constructor|]. split; [done|]. exists start. split; [apply start_initial|done].
  - split; [constructor|]. exists start. split; [apply start_initial|constructor].
Qed.

(** the state after [l] *)
Definition at_end (l : calls) : t := (after l).1.

(** the state of a turn after [l], before the commands *)
Definition turn_after (l : calls) (n base : Z) : t := default start (begin_turn (at_end l) (at_base n base) nobody).

Definition finger_event (action flags : Z) : Entry.t := Entry.of_event (Motion ((motion TOUCHSCREEN action [finger 0]) <| MotionEntry.policyFlags := flags |>)).
Definition passed (action : Z) : Entry.t := finger_event action POLICY_FLAG_PASS_TO_USER.

(** two windows with channels; the events of a finger come in; the first one is dispatched *)
Definition windows_ready : calls := [(0, 0, InboundSystem.Register 100 channel1); (0, 0, InboundSystem.Register 101 channel2)].
Definition finger_in : calls := windows_ready ++ [(1, 100, Enqueue [passed AMOTION_EVENT_ACTION_DOWN; passed AMOTION_EVENT_ACTION_MOVE])].
Definition finger_down : calls := finger_in ++ [(2, 200, Begin nobody)].

(** the commands and the end of a turn *)
Definition turn_ends (n base : Z) : calls := [(n, base, RunCommand); (n, base, RunCommand); (n, base, End)].
Definition finger_moved : calls := finger_down ++ turn_ends 3 200 ++ [(4, 200, Begin nobody)] ++ turn_ends 5 200.
Definition all_done : calls := finger_moved ++ [(6, 200, Begin nobody); (7, 300, End)].

Lemma calls_refine_connections_witness : InboundSystem.reachable (at_end finger_in) /\ rtc InputSystem.step (world (at_end finger_in)) (world (at_end finger_down)) /\
  received 100 (world (at_end finger_down)) = Some (Connection.STATUS_NORMAL, [Some AMOTION_EVENT_ACTION_DOWN]).
Proof.
  split; [apply after_runs|]. split; [|vm_compute; reflexivity]. apply (calls_refine_connections (at_end finger_in) (at_end finger_down)); [apply after_runs|].
  exists (fun _ _ => at_base 2 200), (Begin nobody). split; [apply legalb_legal; vm_compute; reflexivity|vm_compute; reflexivity].
Defined.

Lemma events_taken_in_order_witness : waiting (at_end finger_down) = [101] /\ (after finger_down).2 = [100; 101] /\ waiting (at_end finger_down) `suffix_of` (after finger_down).2.
Proof. split; [vm_compute; reflexivity|]. split; [vm_compute; reflexivity|]. apply (events_taken_in_order start); [apply start_initial|apply after_runs]. Defined.

Lemma no_event_forgotten_witness : received 100 (world (at_end all_done)) = Some (Connection.STATUS_NORMAL, [Some AMOTION_EVENT_ACTION_DOWN; Some AMOTION_EVENT_ACTION_MOVE]) /\
  thread (at_end all_done) = Polling 5000000002 /\ mInboundQueue (at_end all_done) = [].
Proof.
  split; [vm_compute; reflexivity|]. split; [vm_compute; reflexivity|]. apply (no_event_forgotten (at_end all_done) 5000000002); [apply after_runs|vm_compute; reflexivity..].
Defined.

Lemma turn_takes_first_witness : let s' := turn_after finger_in 2 200 in
  line (at_end finger_in) = [100; 101] /\ mInboundQueue s' = [101] /\
  ((mPendingEvent s' = None /\ exists ran, thread s' = Commands LONG_LONG_MIN ran) \/ (mPendingEvent s' = Some 100 /\ focus_at (entries s') 100 = false)).
Proof.
  intros s'. split; [vm_compute; reflexivity|]. subst s'. apply (turn_takes_first (at_end finger_in) (at_base 2 200) nobody (turn_after finger_in 2 200) 100 [101]); [apply after_runs|apply legalb_legal; vm_compute; reflexivity|vm_compute; reflexivity..].
Defined.

(** another finger event comes in that is not for applications *)
Definition finger_blocked : calls := finger_moved ++ [(6, 300, Enqueue [finger_event AMOTION_EVENT_ACTION_MOVE 0])].

Lemma dropped_motion_ends_streams_witness : let s' := turn_after finger_blocked 7 400 in
  received 100 (world s') = Some (Connection.STATUS_NORMAL, [Some AMOTION_EVENT_ACTION_DOWN; Some AMOTION_EVENT_ACTION_MOVE; Some AMOTION_EVENT_ACTION_CANCEL]) /\ mInboundQueue s' = [].
Proof.
  intros s'. split; [vm_compute; reflexivity|]. subst s'. pose (x := finger_event AMOTION_EVENT_ACTION_MOVE 0).
  refine (proj1 (proj2 (dropped_motion_ends_streams (at_end finger_blocked) (at_base 7 400) nobody (turn_after finger_blocked 7 400) 300 [] x
    (match Entry.event x with Motion m => m | _ => mouse_hover end) _ _ _ _ _ _ _ _))); [apply after_runs|vm_compute; reflexivity..|vm_compute; discriminate].
Defined.

(** an application injects a key *)
Definition key_injected : calls := windows_ready ++ [(1, 100, Inject 5 [Entry.of_event (Key (key AKEY_EVENT_ACTION_DOWN 66 0))])].

Lemma injectors_answered_witness : exists a x, a ∈ line (at_end key_injected) /\ entries (at_end key_injected) !! a = Some x /\ injectionState (Entry.event x) = Some 5.
Proof. apply (injectors_answered (at_end key_injected) 5); [apply after_runs|vm_compute; reflexivity]. Defined.

(** ** The focus moves *)

(** a window that has the focus or not *)
Definition focusable (handle token id : Z) (hasFocus paused : bool) : given :=
  mk_given handle (InputWindowInfo.mk token id 0 2 5000000000 0 0 100 100 F32.one F32.one F32.one Region.new true true hasFocus false paused 1000 1000 0 0 InputWindowInfo.ADISPLAY_ID_NONE 1) true.

Definition key_event (action keyCode : Z) : Entry.t := Entry.of_event (Key ((key action keyCode 0) <| KeyEntry.policyFlags := Z.lor POLICY_FLAG_PASS_TO_USER POLICY_FLAG_TRUSTED |>)).

(** a key waits, and then the focus goes from one window to the other *)
Definition focus_moved : calls := windows_ready ++
  [(1, 100, SetInputWindows [(0, [focusable 1 10 10 true false; focusable 2 20 20 false false])]); (2, 200, Enqueue [key_event AKEY_EVENT_ACTION_DOWN 66]);
   (3, 300, SetInputWindows [(0, [focusable 1 10 10 false false; focusable 2 20 20 true false])])].

Lemma focus_before_input_witness : line (at_end focus_moved) = [300; 301; 200] /\
  exists F N, mInboundQueue (at_end focus_moved) = F ++ N /\ Forall (fun a => focus_at (entries (at_end focus_moved)) a = true) F /\ Forall (fun a => focus_at (entries (at_end focus_moved)) a = false) N.
Proof. split; [vm_compute; reflexivity|]. apply (focus_before_input (at_end focus_moved)). apply after_runs. Defined.

(** ** What the documentation does not tell *)

(** a key comes in, the policy lets it pass, and it is dispatched *)
Definition key_typed (n : Z) : calls :=
  [(n, n * 100, Enqueue [key_event AKEY_EVENT_ACTION_DOWN 66]); (n + 1, n * 100 + 10, Begin nobody); (n + 1, n * 100 + 20, RunCommand); (n + 1, n * 100 + 20, RunCommand);
   (n + 1, n * 100 + 20, Answer (InputDispatcher.answered None 0 0)); (n + 1, n * 100 + 20, End); (n + 2, n * 100 + 30, Begin nobody)].

Definition first_handle : calls := windows_ready ++ [(1, 100, SetInputWindows [(0, [focusable 1 10 10 true false])])].
Definition other_handle : calls := first_handle ++ [(2, 200, SetInputWindows [(0, [focusable 3 10 30 true false])])].
Definition keys_received (l : calls) : option nat := (fun c => length (Connection.channel c)) <$> (InputDispatcher.connections (world (at_end l)) !! 100).

(** The window that has the focus is given another handle with the same channel: the focus
    stays with the old handle, whose channel is released, and keys reach nobody. *)
Theorem focus_left_with_old_handle : keys_received (first_handle ++ key_typed 3) = Some 1%nat /\ keys_received (other_handle ++ key_typed 3) = Some 0%nat /\
  Dispatcher.mFocusedWindowHandlesByDisplay (shared (at_end other_handle)) !! 0 = Some 1 /\ Dispatcher.getToken (shared (at_end other_handle)) 1 = 0 /\
  Dispatcher.getToken (shared (at_end other_handle)) 3 = 10 /\ line (at_end (other_handle ++ key_typed 3)) = [].
Proof. split_and!; vm_compute; reflexivity. Qed.

(** The window that has the focus is paused: a key is pending, and the thread sleeps without
    end, as if it were idle. *)
Definition paused_window : calls := windows_ready ++ [(1, 100, SetInputWindows [(0, [focusable 1 10 10 true true])])] ++ key_typed 3 ++ [(5, 400, End)].

Theorem idle_with_pending_event : thread (at_end paused_window) = Polling LONG_LONG_MAX /\ mPendingEvent (at_end paused_window) = Some 300 /\ awake (at_end paused_window) = false.
Proof. split_and!; vm_compute; reflexivity. Qed.

(** lets everything pass *)
Definition lenient : policy := mk_policy (fun _ flags => Z.lor flags POLICY_FLAG_PASS_TO_USER) (fun _ _ flags => Z.lor flags POLICY_FLAG_PASS_TO_USER) (fun _ _ => true).

(** a window of another user than that of the injectors *)
Definition foreign_window : t := at_end (windows_ready ++ [(1, 100, SetInputWindows [(0, [mk_given 1 (placed 10 0 2000 0 50) true])])]).

(** a touch with samples at the times 1 to [n] is injected, and [turns] turns follow, whose commands are dropped *)
Definition injected_touch (n : nat) : option (option Z * t) :=
  injectInputEvent foreign_window lenient nobody (at_base 2 200) 5 0 (MotionEvent (touch_at 20 AMOTION_EVENT_ACTION_DOWN) F32.zero F32.zero (map (fun i => (Z.of_nat i, [coord (at_x 20)])) (seq 1 n))).
Definition one_turn (s : t) : option t := begin_turn (on_shared (fun d => d <| Dispatcher.mCommandQueue := [] |>) s) (at_base 3 300) nobody.
Definition outcome (s : option t) := s ← s; received ← received 100 (world s); Some (received.2, Dispatcher.injectionResults (shared s) !! 5).

(** An injector without permission injects a touch on a window of another user: a touch with
    one sample is refused, but of a touch with two samples the first one is sent. *)
Theorem first_sample_unchecked :
  outcome (r ← injected_touch 1; one_turn r.2) = Some ([], Some INPUT_EVENT_INJECTION_PERMISSION_DENIED) /\
  outcome (r ← injected_touch 2; s ← one_turn r.2; one_turn s) = Some ([Some AMOTION_EVENT_ACTION_DOWN], Some INPUT_EVENT_INJECTION_PERMISSION_DENIED).
Proof. split; vm_compute; reflexivity. Qed.

(** a key is dispatched, and the application has handled it or not; if not, the policy has
    another one *)
Definition key_answered (handled : bool) : calls := first_handle ++ key_typed 3 ++
  [(6, 400, RunCommand); (6, 400, End); (7, 500, Signals 100 [(1, handled)]); (7, 500, Begin nobody); (7, 500, RunCommand)] ++
  (if handled then [] else [(7, 500, Answer (InputDispatcher.answered (Some (key AKEY_EVENT_ACTION_DOWN 23 0)) 0 0))]) ++ [(7, 500, End)].

(** the repeat count of the second one of two equal keys of a device *)
Definition second_repeat (handled : bool) : option Z :=
  x ← entries (at_end (key_answered handled ++ [(10, 1000, Enqueue [key_event AKEY_EVENT_ACTION_DOWN 66]); (11, 1010, Begin nobody)])) !! 1000;
  match Entry.event x with Key k => Some (KeyEntry.repeatCount k) | _ => None end.

(** A device that repeats keys itself sends the same key twice: the second one counts as a
    repeat, but not if the application got another key instead of the first one, whose object
    the dispatcher has overwritten. *)
Theorem repeat_lost_after_fallback : second_repeat true = Some 1 /\ second_repeat false = Some 0.
Proof. split; vm_compute; reflexivity. Qed.

Definition queued_touch : t := match injected_touch 2 with Some r => r.2 | None => foreign_window end.

Lemma what_comes_in_is_queued_witness :
  let call := InjectInputEvent 5 0 (MotionEvent (touch_at 20 AMOTION_EVENT_ACTION_DOWN) F32.zero F32.zero [(1, [coord (at_x 20)]); (2, [coord (at_x 20)])]) in
  mInboundQueue queued_touch = [200; 201] /\ rtc InboundSystem.step foreign_window queued_touch /\
  exists xs, queued foreign_window (at_base 2 200) xs queued_touch /\ arrival_of foreign_window lenient nobody call xs None.
Proof.
  intros call. split; [vm_compute; reflexivity|]. apply (what_comes_in_is_queued foreign_window (at_base 2 200) (at_base_new foreign_window 2 200 ltac:(vm_compute; reflexivity)) lenient nobody call None queued_touch).
  - split; [done|]. by repeat constructor.
  - vm_compute. reflexivity.
Defined.
